(* ===== verification/_CoqProject ===== *)
-Q . S2P
Prelude.v
CbmcString.v
MachineModel.v
Location.v
Typ.v
Ast.v
SymbolTable.v
Expr.v
Symbol.v
Builtin.v
Stmt.v
Env.v
Eval.v
Aggregates.v
Typing.v
Built.v
IrepId.v
Irep.v
ToIrep.v
IrepRoundTrip.v
Serialize.v
Transformer.v
Identity.v
ExprTransformer.v
NondetTransformer.v
NameTransformer.v
NameTyping.v
Passes.v
Restrictions.v
RawMemory.v
RmcVec.v
RmcVecSpec.v
RmcVecProgram.v
RmcVecTraits.v
NobackVec.v
CHeap.v
CVec.v
CHashSet.v
RmcLib.v
Mir.v
GotoCtx.v
TypeGen.v
MirTyping.v
PlaceGen.v
OperandGen.v
ArithGen.v
CastGen.v
RvalueGen.v
IntrinsicGen.v
HookGen.v
StmtGen.v
FunctionGen.v
GenSample.v
GenInvariant.v
GenControl.v
ArithSem.v
FlowSem.v
TargetAbi.v
LayoutOf.v
LayoutSpec.v
Driver.v
PanicInfo.v
ProofMacro.v
Unicode.v
Text.v
BookTests.v
BookReport.v
Books.v
SipHash.v
Utf8.v
Read2.v
LibTest.v
TestRun.v
CompileTest.v
RunTest.v
RunVerdict.v
TestMain.v
TestCollect.v
LinkMain.v
TestCli.v
