(* ===== verification/Prelude.v ===== *)
(** * A verification library for RMC, a model checker for Rust

    ** The program

    RMC (the Rust Model Checker) is a back end of rustc: it compiles MIR into a
    "goto program", the input language of the CBMC model checker.  Its parts are:

    - the crate [cbmc] ([src/rmc-compiler/cbmc/src]), the representation of goto
      programs: [cbmc_string.rs] interned strings; [machine_model.rs], [utils.rs] the
      architecture and integer bounds; [goto_program/] types, expressions and
      statements with private fields and asserting constructors, symbols, the symbol
      table, builtins and the environment, locations; [irep/] the untyped trees CBMC
      reads, the conversion to them and their serialisation;
      [goto_program/symtab_transformer/] passes over a symbol table, a visitor trait,
      the identity, and the three passes of [--gen-c-runnable];
    - the code generator ([src/rmc-compiler/rustc_codegen_rmc/src]), which reads MIR,
      types and layouts from the compiler and builds the symbol table: [context/] its
      state, [codegen/] types, places, operands, rvalues, intrinsics, statements,
      blocks, functions, statics, [overrides/hooks.rs] calls it replaces, [utils/];
    - the data of the compiler it reads ([compiler/rustc_middle], [rustc_target]);
    - the restrictions of function pointers at virtual calls, collected per crate
      ([context/vtable_ctx.rs]), exchanged in the format of [library/rmc_restrictions]
      and merged by [src/tools/rmc-link-restrictions];
    - the library of proof harnesses [library/rmc] and its stubs of collections
      ([library/rmc/stubs], in Rust and C), which replace the standard ones in a proof;
    - the driver ([src/rmc-compiler/src/main.rs], [rmc_queries]) that starts rustc with
      the code generator, and the entry point rustc calls ([compiler_interface.rs]);
    - the layouts of types the code generator relies on ([rustc_middle]'s [ty/layout.rs]
      over [rustc_target]'s [abi/mod.rs]);
    - the book runner ([src/tools/bookrunner]), which extracts the examples of the Rust
      books, runs them through RMC and reports the results;
    - the compile-test driver ([src/tools/compiletest]), which runs the regression tests of
      RMC, and the test library it hands them to ([library/test]).

    The code generator calls the constructors of [cbmc] and inserts symbols into the
    table; the finished table goes through [do_passes] (if asked for) and is serialised
    for CBMC.

    ** Conventions

    A Rust function that can panic (an assertion, [unwrap], [unreachable!], an
    arithmetic overflow) is a function into [outcome]; a method with [&mut self]
    is in the state monad [ST] over [outcome]; the code generator is in [G], a state
    monad over [outcome] with fuel ([fuelled]).  [InternedString] is [string] (what
    justifies it is in [CbmcString.v]), [u64] is [N] with checked arithmetic,
    [BigInt] is [Z], a [BTreeMap] is a [gmap] with [btree_iter], a [HashMap] a
    [gmap] with [hash_iter].  The stubs run in [exec]: a result is [Returns],
    [Panics] or [Undefined] (undefined behaviour: an access out of bounds, to freed or
    uninitialised memory), over an explicit memory; [malloc] does not fail, closures,
    [clone] and nondeterministic values are arguments.

    The test driver runs in [Run], a state monad over a [Machine] (files, time, processes
    run, printed text) with three results: done, failed ([resume_unwind]) and panicked.  The
    file system is a finite map from paths to contents with the listings of directories and
    modification times.

    Code outside the repository, or whose answer the compiler computes, is a class:
    the string interner ([StringInterner]), the order in which strings were interned
    ([InternOrder]), hash-map traversal ([HashOrder], [DrainOrder]), the vector map of
    ireps ([VecMap]), the meaning CBMC gives to operators ([GotoSemantics], [GotoBits],
    [GotoArith]), the escaping of strings in [Debug] output ([StrDebug]), the Unicode
    tables ([UnicodeTables]), the type context and the MIR of instances ([TyCtxt],
    [MirCtxt], [LayoutCtxt]), token streams ([ProcMacro]), JSON ([RestrictionsJson]),
    the tools of the book runner ([BookTools], [CommandDebug]),
    what the test driver gets from its surroundings ([Processes], [Environment], [GetOpts],
    [WalkDir], [JsonDecode], [FailRegex], [DebugText], [ResultFormat]); each has
    an instance that the witnesses use ([bv_eval] for the semantics, a
    two-function crate in [GenSample] for the compiler, a small book in [Books]).

    ** Files

    The crate [cbmc]:
    - [Prelude]: outcomes, the state monad, fuel, [u64], automation.
    - [CbmcString]: [cbmc_string.rs]; [MachineModel]: [machine_model.rs] and
      [utils.rs]; [Location]: [location.rs].
    - [Typ]: [typ.rs], the part that needs no table and no expressions.
    - [Ast]: the data of [expr.rs], [stmt.rs], [symbol.rs], with an induction
      principle for the mutual types.
    - [SymbolTable]: [symbol_table.rs] and the sizes of [typ.rs]; programs of its public
      operations ([table_op]), and the table as a state machine of those the generator
      uses ([symtab_step], all but [replace]).
    - [Expr], [Symbol], [Builtin], [Stmt], [Env]: the constructors of the files of
      those names, one definition per function.
    - [Eval]: an interface to CBMC's semantics of integer operators and the
      arithmetic constructors against it; [Aggregates]: struct expressions.
    - [Typing], [Built]: the well-formedness the comment on [struct Expr] promises
      and the theorem that the constructors establish it while the table grows.
    - [IrepId], [Irep], [ToIrep], [IrepRoundTrip], [Serialize]: the files of
      [irep/], with a reader for the ireps of types and the traces of serde calls.
    - [Transformer]: the trait as a record of hooks; [Identity],
      [ExprTransformer], [NondetTransformer], [NameTransformer]: its
      implementations; [NameTyping]: typing of what the renaming pass builds;
      [Passes]: [passes.rs].
    - [Restrictions]: virtual-call restrictions, per crate and linked; [LinkMain] (after the
      model of files in [CompileTest]): the program that links a directory of them.

    The library:
    - [RawMemory]: allocations of cells, initialised or not; [RmcVec]: [rmc_vec.rs] on
      it; [RmcVecSpec], [RmcVecProgram], [RmcVecTraits]: its operations against lists.
    - [NobackVec]: [noback_vec.rs]; [CHeap], [CVec]: [vec.c] and [c_vec.rs];
      [CHashSet]: [hashset.c] and [c_hashset.rs]; [RmcLib]: [library/rmc/src].

    The code generator:
    - [Mir], [MirTyping]: the compiler's data and the typing of MIR.
    - [GotoCtx]: [goto_ctx.rs], [current_fn.rs], [names.rs]; [TypeGen]: [typ.rs];
      [PlaceGen]: [place.rs], [utils.rs]; [OperandGen]: [operand.rs]; [ArithGen],
      [CastGen], [RvalueGen]: [rvalue.rs]; [IntrinsicGen]: [intrinsic.rs]; [HookGen]:
      [hooks.rs]; [StmtGen]: [statement.rs], [block.rs]; [FunctionGen]: [function.rs],
      [static_var.rs] and the loops of [compiler_interface.rs].
    - [GenSample]: a crate on which the generator runs; [GenInvariant]: what every
      operation of the generator does to the table; [GenControl]: the labels and jumps
      it emits; [ArithSem], [FlowSem]: what the generated expressions and statements
      mean, against the meaning of MIR.
    - [TargetAbi]: [abi/mod.rs]; [LayoutOf]: [ty/layout.rs], in a monad that tells errors
      of layouts from panics; [LayoutSpec]: what the layouts are (class [LayoutLaws]) and
      their use by [TypeGen] and by the code for discriminants.
    - [Driver]: [main.rs], [rmc_queries] and [compiler_interface.rs], a whole run from
      the items of a crate to the files that are written; [PanicInfo]: [debug.rs], the report
      of a panic; [ProofMacro]: [library/rmc_macros] and the attributes of harnesses.

    The book runner:
    - [Unicode]: the binary search of slices and the white-space table of the standard
      library; [Text]: text as characters, paths as components, with the operations of
      [str], [BufRead] and [Path] that the runner uses.
    - [BookTests]: [util.rs], [litani.rs]; [BookReport]: [bookrunner.rs] and the report of
      [books.rs]; [Books]: the rest of [books.rs].

    The test driver:
    - [SipHash]: [core/src/hash/sip.rs], the default hasher; [Utf8]: the decoder of [chars]
      and [from_utf8_lossy].
    - [Read2]: [read2.rs]; [CompileTest]: [common.rs], [util.rs], [header.rs]; [RunTest]:
      [runtest.rs], [json.rs]; [TestMain]: [main.rs].
    - [LibTest]: the data, selection, verdicts and console state of [library/test]; [TestRun]:
      its scheduler ([run_tests], [run_test]) as a step relation of the main thread, the test
      threads, the channel and the deadlines; [TestCli]: its command line, and tests in
      processes of their own.
    - [RunVerdict]: what the verdict of a test means; [TestCollect]: which tests are found and
      what a successful exit of the driver means.

    ** What the theorems show

    - Constructors: everything that can be built is well-formed ([built_wf],
      [program_wf]); casts, builtin calls, struct literals and assignments are
      accepted exactly when they should be ([cast_to_exact], [builtin_call_exact],
      [struct_expr_total], [assign_total]); saturating addition and the splitting
      of 128-bit constants compute the right value ([saturating_add_clamps],
      [bignum_correct]).
    - The table: keys are names, a symbol changes only by completion or where [replace]
      is called for it with a validator that accepts it, sizes are stable while the table
      evolves and their recursion terminates whenever it can ([symtab_reachable_ok],
      [symbols_only_evolve], [replace_can_redefine], [sizeof_stable], [sizeof_fuel_enough]).
    - Serialisation: the irep of a type can be read back ([type_irep_roundtrip]),
      conversion fails only on zero-width padding ([to_irep_total]), ireps have no
      repeated keys ([to_irep_wellformed]), and streaming writes what converting
      the whole table would ([streaming_faithful]).
    - Passes: the default transformer is the identity on valid programs
      ([identity_expr], [identity_table]); renaming is functional, injective and
      terminates, and its result is a well-formed program ([normalize_injective],
      [normalize_terminates], [name_pass_injective], [name_pass_wf]).
    - Restrictions: complete per crate, and across crates as long as no trait
      method is implemented in two of them ([crate_possibilities],
      [link_complete], [link_forgets], [program_linked] for the files); a virtual call
      becomes a call of a fresh wrapper ([virtual_call_wrapped]).
    - Stubs: programs over several vectors, and over the set, refine the same programs over
      lists and finite sets ([rmc_vec_refines_list], [c_vec_refines_list],
      [hashset_refines_set]), with the limits stated where they stop being right
      ([push_drop_glue_undefined], [from_iter_limit], [sample_replies],
      [noback_iterator_endless]).
    - Code generation, structure: a translated crate leaves no function without a body
      and no type without its fields ([crate_complete], on [ensure_struct_completes]),
      labels are unique and jumps resolve ([function_labels_resolved]), temporaries do
      not clash as long as nothing else takes their names ([temps_never_clash]), types have
      one translation ([codegen_ty_stable]) with the fields at the offsets of the layout ([struct_fields_at_offsets]).
    - Code generation, meaning: checked arithmetic, shifts, niches, switches, sizes of
      unsized values, exact division and the bytes of constants
      ([checked_op_correct], [shift_flag_exact], [niche_roundtrip],
      [switch_int_jumps], [dst_size_rounded], [exact_div_exact],
      [allocation_data_tiles]).
    - Layouts: fields are aligned, within the struct and do not overlap, and the goto
      struct made from a computed layout has its size ([univariant_places_fields],
      [computed_struct_size]); scalars and niches fit their width, and a niche gives out
      values that were not valid before ([layout_scalars_ok], [niche_values_unused],
      [niche_available_exact], [niche_reserve_exact]), so that the generated code tells the
      variants apart ([computed_niche_roundtrip]); one layout is wrong
      ([niche_size_unaligned]).
    - The driver: the written table is what the passes that were asked for make of the table
      of a complete crate, the files are those
      that were asked for, the arguments of rustc are the expected ones
      ([written_crate_complete], [outputs_exact], [rustc_args_exact]); a panic is reported
      with the item that caused it ([panic_names_item]); a function under [#[rmc::proof]] is
      recorded as a harness ([proof_marks_harness]).
    - The book runner: headers of tests are read back as written and refused when they
      contradict themselves ([header_roundtrip], [header_meaning], [example_header]); jobs
      form a chain ([pipeline_chain]); files go where the table of contents or the
      directories say ([summary_hierarchy], [directory_hierarchy]); configuration files
      are all used ([configs_used]); the report counts every test once and is always made
      ([report_counts], [report_total]); the search and the table behind it are right
      ([binary_search_safe], [white_space_exact]).
    - The test driver: the hash does not depend on how its input is cut ([streaming_hash]),
      decoding inverts encoding ([lossy_roundtrip]), the output of a process is captured
      whole or shortened to a head and a tail ([child_output_captured]); the header of a test
      is read in full when none of its lines is for one revision ([header_loaded]); a test passes exactly on the results that should
      make it pass ([revision_verdict], [verdicts_exclusive]); the scheduler of the test
      library ends, gets stuck nowhere and reports every selected test once
      ([scheduler_terminates], [run_tests_sound]), on the options of an accepted command line
      ([options_sound]), and exit codes keep its verdicts ([spawned_verdict]); all tests of a tree are collected as documented, unless there is a
      directory called [aux], with output directories of their own ([collected_exact],
      [outputs_apart]); so a successful
      run means that every test is ignored or passed ([driver_success]).  Two ways in which a
      test is not run at all although it should be: [edited_test_skipped],
      [fixme_header_never_run].

    ** Fuel

    Recursions that are not structural carry fuel.  [sizeof_in_bits] follows tags
    through the table; its fuel is the number of symbols plus one, and
    [sizeof_fuel_enough] shows that more changes nothing, so a computation that is cut
    off never ends.  The search for an unused name tries numeric suffixes; its fuel is
    the number of used names plus one, and [normalize_terminates] shows that a name is
    found.  The code generator follows types through the type context, which may be
    infinite: its fuel is an argument of every operation, running out is a result of
    its own ([OutOfFuel]), and a translation that ends is the same with more fuel
    ([codegen_ty_fuel], used in [codegen_ty_stable]).  [layout_of_ty] has the compiler's
    recursion limit as fuel: running out is the error the compiler reports.  The binary
    search has one more than the length of the slice, which [binary_search_safe] shows
    to be enough.  The hasher and the UTF-8 decoders have the length of their input
    ([streaming_hash], [lossy_roundtrip]: the results are those of the whole input); the
    polling loop of [Read2] runs over the list of polls, and [child_output_captured] says how
    many are enough; collecting tests has a fuel beyond the depth of every directory, and
    [collected_exact] shows that it does not run out.  The scheduler of the test library is a
    relation, and [scheduler_terminates] shows that it is well-founded.

    ** What is not modelled

    The command-line grammar (clap) and the run of rustc itself; of the compiler and the standard
    library everything but the data, layouts, text and path operations above (generator
    layouts, function ABIs and the layouts of types with parameters are left out of
    [ty/layout.rs]); of the book runner the Markdown and TOML parsers, rustdoc, the
    processes of Litani and its [run.json]; of the test driver the grammar of its options
    (getopts), the log of its configuration and the limits of file descriptors; of the test
    library the output of the formatters, the listing of tests and the statistics of
    benchmarks (its scheduler is modelled for tests that run in place); JSON syntax and file access,
    which belong to serde and the operating system; the text of panic messages and warnings. *)

From stdpp Require Export base tactics list gmap sets strings pretty sorting.
From Stdlib Require Export ZArith Lia Ascii.

(** ** Outcomes: values or panics

    A Rust function that can [assert!], [unwrap], index out of range or reach
    [unreachable!] is a function into [outcome].  The payload of the panic (its
    message) is never observed by the program, so it is not kept. *)

Inductive outcome (A : Type) : Type :=
| Ok (a : A)
| Panic.
Arguments Ok {_} _.
Arguments Panic {_}.

#[export] Instance outcome_ret : MRet outcome := fun A a => Ok a.
#[export] Instance outcome_bind : MBind outcome := fun A B f m =>
  match m with Ok a => f a | Panic => Panic end.
#[export] Instance outcome_fmap : FMap outcome := fun A B f m =>
  match m with Ok a => Ok (f a) | Panic => Panic end.

(** [assert!(b)] *)
Definition rassert (b : bool) : outcome unit := if b then Ok tt else Panic.

(** [o.unwrap()] *)
Definition unwrap {A} (o : option A) : outcome A :=
  match o with Some a => Ok a | None => Panic end.

Notation "'assert!' b ; k" := (mbind (fun _ : unit => k) (rassert b))
  (at level 20, b at level 100, k at level 200, right associativity,
   format "'[v' 'assert!'  b ; '/' k ']'") : stdpp_scope.

Definition is_ok {A} (m : outcome A) : bool :=
  match m with Ok _ => true | Panic => false end.

(** The elements of a list of outcomes, left to right. *)
Fixpoint sequence {A} (l : list (outcome A)) : outcome (list A) :=
  match l with
  | [] => Ok []
  | m :: l => a ← m; r ← sequence l; Ok (a :: r)
  end.

Definition map_outcome {A B} (f : A -> outcome B) (l : list A) : outcome (list B) :=
  sequence (map f l).

Definition option_outcome {A B} (f : A -> outcome B) (o : option A) : outcome (option B) :=
  match o with None => Ok None | Some a => b ← f a; Ok (Some b) end.

(** ** A state monad over outcomes

    Methods with a [&mut self] receiver thread the state of the object. *)

Definition ST (S A : Type) : Type := S -> outcome (A * S).

#[export] Instance ST_ret S : MRet (ST S) := fun A a s => Ok (a, s).
#[export] Instance ST_bind S : MBind (ST S) := fun A B f m s =>
  match m s with Ok (a, s') => f a s' | Panic => Panic end.

Definition st_lift {S A} (m : outcome A) : ST S A := fun s =>
  match m with Ok a => Ok (a, s) | Panic => Panic end.
Definition st_get {S} : ST S S := fun s => Ok (s, s).
Definition st_put {S} (s : S) : ST S unit := fun _ => Ok (tt, s).

Fixpoint st_sequence {S A} (l : list (ST S A)) : ST S (list A) :=
  match l with
  | [] => mret []
  | m :: l => a ← m; r ← st_sequence l; mret (a :: r)
  end.

Definition st_option {S A} (o : option (ST S A)) : ST S (option A) :=
  match o with None => mret None | Some m => a ← m; mret (Some a) end.

(** ** Outcomes under fuel

    [OutOfFuel] is a recursion that was cut off; it is kept apart from a panic so
    that a theorem can say that the fuel given is enough. *)

Inductive fuelled (A : Type) : Type :=
| Done (o : outcome A)
| OutOfFuel.
Arguments Done {_} _.
Arguments OutOfFuel {_}.

#[export] Instance fuelled_ret : MRet fuelled := fun A a => Done (Ok a).
#[export] Instance fuelled_bind : MBind fuelled := fun A B f m =>
  match m with
  | Done (Ok a) => f a
  | Done Panic => Done Panic
  | OutOfFuel => OutOfFuel
  end.

(** A recursion that never ends exhausts the stack: the program aborts. *)
Definition run {A} (m : fuelled A) : outcome A :=
  match m with Done o => o | OutOfFuel => Panic end.

(** ** Machine integers: [u64] *)

Definition u64_max : N := 18446744073709551615%N.
Definition in_u64 (n : N) : bool := (n <=? u64_max)%N.

(** Checked arithmetic of a build with overflow checks. *)
Definition u64_add (a b : N) : outcome N :=
  if in_u64 (a + b) then Ok (a + b)%N else Panic.
Definition u64_sub (a b : N) : outcome N :=
  if (b <=? a)%N then Ok (a - b)%N else Panic.
Definition u64_mul (a b : N) : outcome N :=
  if in_u64 (a * b) then Ok (a * b)%N else Panic.

(** ** Boolean helpers *)

Fixpoint forallb2 {A B} (f : A -> B -> bool) (l1 : list A) (l2 : list B) : bool :=
  match l1, l2 with
  | [], [] => true
  | a :: l1, b :: l2 => f a b && forallb2 f l1 l2
  | _, _ => false
  end.

(** [l1.iter().zip(l2.iter()).all(f)]: stops at the end of the shorter list. *)
Fixpoint zip_all {A B} (f : A -> B -> bool) (l1 : list A) (l2 : list B) : bool :=
  match l1, l2 with
  | a :: l1, b :: l2 => f a b && zip_all f l1 l2
  | _, _ => true
  end.

(** ** Stable sorting

    [slice::sort_by] and [sort_by_key]: of two elements of which neither comes first, the
    first stays first. *)

Fixpoint insert_by {A} (leb : A -> A -> bool) (x : A) (l : list A) : list A :=
  match l with
  | [] => [x]
  | y :: l' => if leb x y then x :: l else y :: insert_by leb x l'
  end.
Fixpoint sort_by {A} (leb : A -> A -> bool) (l : list A) : list A :=
  match l with [] => [] | x :: l => insert_by leb x (sort_by leb l) end.

(** ** Automation *)

Create HintDb rmc.

(** Split a successful bind into its parts. *)
Ltac outcome_inv1 :=
  match goal with
  | H : Panic = Ok _ |- _ => discriminate H
  | H : Ok _ = Panic |- _ => discriminate H
  | H : Ok _ = Ok _ |- _ => injection H; clear H; intros; subst
  | H : mret _ = Ok _ |- _ => cbv [mret outcome_ret] in H
  | H : mbind _ (rassert ?b) = Ok _ |- _ =>
      let E := fresh "E" in
      destruct b eqn:E; cbn [rassert mbind outcome_bind] in H; [|discriminate H]
  | H : mbind _ (unwrap ?o) = Ok _ |- _ =>
      let E := fresh "E" in
      destruct o eqn:E; cbn [unwrap mbind outcome_bind] in H; [|discriminate H]
  | H : mbind _ ?m = Ok _ |- _ =>
      let E := fresh "E" in
      destruct m eqn:E; cbn [mbind outcome_bind] in H; [|discriminate H]
  | H : rassert ?b = Ok ?u |- _ =>
      let E := fresh "E" in
      destruct b eqn:E; cbn [rassert] in H; [|discriminate H]; clear H; try destruct u
  | H : unwrap ?o = Ok _ |- _ =>
      let E := fresh "E" in
      destruct o eqn:E; cbn [unwrap] in H; [|discriminate H]
  end.
Ltac outcome_inv := repeat outcome_inv1.

(** Split boolean conjunctions in the hypotheses. *)
Ltac bool_inv :=
  repeat match goal with
  | H : _ && _ = true |- _ => apply andb_true_iff in H; destruct H
  | H : negb _ = true |- _ => apply negb_true_iff in H
  | H : negb _ = false |- _ => apply negb_false_iff in H
  | H : _ || _ = false |- _ => apply orb_false_iff in H; destruct H
  end.

(** ** Generic lemmas *)

Lemma insert_by_perm {A} (leb : A -> A -> bool) x l : Permutation (insert_by leb x l) (x :: l).
Proof.
  induction l as [|y l IH]; cbn; [done|]. destruct (leb x y); [done|]. rewrite IH. constructor.
Qed.

Lemma sort_by_perm {A} (leb : A -> A -> bool) l : Permutation (sort_by leb l) l.
Proof. induction l as [|x l IH]; cbn; [done|]. by rewrite insert_by_perm, IH. Qed.

Lemma bind_ok {A B} (m : outcome A) (f : A -> outcome B) b :
  mbind f m = Ok b <-> exists a, m = Ok a /\ f a = Ok b.
Proof.
  destruct m as [a|]; cbn; split.
  - eauto.
  - intros (a' & E & H). by injection E as ->.
  - discriminate.
  - intros (a & E & _). discriminate.
Qed.

Lemma sequence_ok {A} (l : list (outcome A)) (r : list A) :
  sequence l = Ok r <-> Forall2 (fun m a => m = Ok a) l r.
Proof.
  revert r. induction l as [|m l IH]; intros r; cbn.
  - split; [intros [= <-]; constructor | by inversion 1].
  - rewrite bind_ok. setoid_rewrite bind_ok. split.
    + intros (a & Ha & r' & Hr & [= <-]). constructor; [done|]. by apply IH.
    + inversion 1 as [|? a ? r' Ha Hr]; subst. exists a. split; [done|].
      exists r'. split; [by apply IH | done].
Qed.

Lemma map_outcome_ok {A B} (f : A -> outcome B) l r :
  map_outcome f l = Ok r <-> Forall2 (fun a b => f a = Ok b) l r.
Proof. unfold map_outcome. rewrite sequence_ok. by rewrite Forall2_fmap_l. Qed.

Lemma map_outcome_total {A B} (f : A -> outcome B) (g : A -> B) l :
  (forall a, a ∈ l -> f a = Ok (g a)) -> map_outcome f l = Ok (map g l).
Proof.
  intros H. apply map_outcome_ok. induction l as [|a l IH]; cbn; constructor.
  - apply H. left.
  - apply IH. intros b Hb. apply H. by right.
Qed.

Lemma forallb2_Forall2 {A B} (f : A -> B -> bool) l1 l2 :
  forallb2 f l1 l2 = true <-> Forall2 (fun a b => f a b = true) l1 l2.
Proof.
  revert l2. induction l1 as [|a l1 IH]; intros [|b l2]; cbn.
  - split; [constructor | done].
  - split; [done | by inversion 1].
  - split; [done | by inversion 1].
  - rewrite andb_true_iff, IH. split.
    + intros [??]. by constructor.
    + by inversion 1.
Qed.

Lemma zip_all_same_length {A B} (f : A -> B -> bool) l1 l2 :
  length l1 = length l2 -> zip_all f l1 l2 = forallb2 f l1 l2.
Proof.
  revert l2. induction l1 as [|a l1 IH]; intros [|b l2]; cbn; try done.
  intros [=H]. by rewrite IH.
Qed.

Lemma u64_mul_ok a b c :
  u64_mul a b = Ok c <-> c = (a * b)%N /\ (a * b <= u64_max)%N.
Proof.
  unfold u64_mul, in_u64. destruct (N.leb_spec (a * b) u64_max); split; try done.
  - intros [=]. subst. done.
  - intros [-> _]. done.
  - intros [_ ?]. lia.
Qed.

Lemma u64_add_ok a b c :
  u64_add a b = Ok c <-> c = (a + b)%N /\ (a + b <= u64_max)%N.
Proof.
  unfold u64_add, in_u64. destruct (N.leb_spec (a + b) u64_max); split; try done.
  - intros [=]. subst. done.
  - intros [-> _]. done.
  - intros [_ ?]. lia.
Qed.
