(* ===== verification/CbmcString.v ===== *)
(** * Interned strings ([cbmc/src/cbmc_string.rs])

    An [InternedString] is an index into a global, mutex-protected
    [StringInterner].  The interner is a third-party crate: it is the class
    [StringInterner], with the documented behaviour as the laws
    [StringInternerLaws].  Section [Interner] models the functions of
    [cbmc_string.rs] with the interner state passed explicitly and shows that
    an interned string behaves like the string it stands for: equality of
    handles is equality of strings, and a handle keeps its meaning whatever is
    interned later.  The rest of the development therefore identifies an
    [InternedString] with its string; only the derived [Ord] (the order of the
    indices, which [BTreeMap] iterates in) is not determined by the string, and
    it is the class [InternOrder].  The iteration order of a [HashMap] keyed by
    strings is the class [HashOrder]. *)

From S2P Require Import Prelude.

(** The [string-interner] crate. *)
Class StringInterner (I : Type) := {
  interner_default : I;
  get_or_intern : I -> string -> N * I;
  resolve : I -> N -> option string;
}.

(** What its documentation promises of the states the crate can build. *)
Class StringInternerLaws (I : Type) `{StringInterner I} := {
  interner_ok : I -> Prop;
  interner_ok_default : interner_ok interner_default;
  interner_ok_intern i s : interner_ok i -> interner_ok (get_or_intern i s).2;
  resolve_default k : resolve interner_default k = None;
  resolve_get_or_intern i s :
    interner_ok i -> resolve (get_or_intern i s).2 (get_or_intern i s).1 = Some s;
  resolve_stable i s k t :
    interner_ok i -> resolve i k = Some t -> resolve (get_or_intern i s).2 k = Some t;
  get_or_intern_existing i s k :
    interner_ok i -> resolve i k = Some s -> get_or_intern i s = (k, i);
}.

(** [struct InternedString(SymbolU32)] *)
Record Interned := mkInterned { symbol_u32 : N }.

#[export] Instance Interned_eq_dec : EqDecision Interned.
Proof. solve_decision. Defined.

Section Interner.
Context {I : Type} `{StringInterner I}.

(** [impl From<T> for InternedString], under the lock of [INTERNER]. *)
Definition from_str (s : string) (i : I) : Interned * I :=
  let '(k, i') := get_or_intern i s in (mkInterned k, i').

(** [InternedString::map]: resolve and apply, [unwrap] panics on a foreign index. *)
Definition interned_map {T} (x : Interned) (f : string -> T) (i : I) : outcome T :=
  s ← unwrap (resolve i (symbol_u32 x)); Ok (f s).

Definition interned_is_empty (x : Interned) : I -> outcome bool :=
  interned_map x (fun s => String.eqb s "").

Definition interned_len (x : Interned) : I -> outcome nat :=
  interned_map x String.length.

Definition interned_starts_with (x : Interned) (pattern : string) : I -> outcome bool :=
  interned_map x (fun s => String.prefix pattern s).

(** [Display] (and [Debug], up to quoting): the resolved string. *)
Definition interned_to_string (x : Interned) : I -> outcome string :=
  interned_map x (fun s => s).

(** [impl PartialEq<T> for InternedString] *)
Definition interned_eq_str (x : Interned) (s : string) : I -> outcome bool :=
  interned_map x (fun t => String.eqb t s).

(** [InternString::intern] and [InternStringOption::intern] *)
Definition intern (s : string) (i : I) : Interned * I := from_str s i.
Definition intern_option (o : option string) (i : I) : option Interned * I :=
  match o with
  | None => (None, i)
  | Some s => let '(x, i') := from_str s i in (Some x, i')
  end.

(** The handles that exist in a given state. *)
Definition valid (i : I) (x : Interned) : Prop := is_Some (resolve i (symbol_u32 x)).

(** Later interning: the states a program can move to. *)
Inductive interns : I -> I -> Prop :=
| interns_refl i : interns i i
| interns_step i s i' : interns (from_str s i).2 i' -> interns i i'.

Context `{!StringInternerLaws I}.

Lemma from_str_ok s i : interner_ok i -> interner_ok (from_str s i).2.
Proof.
  intros Hok. pose proof (interner_ok_intern i s Hok) as R. unfold from_str.
  by destruct (get_or_intern i s).
Qed.

Lemma interns_ok i i' : interns i i' -> interner_ok i -> interner_ok i'.
Proof. induction 1; eauto using from_str_ok. Qed.

Lemma from_str_valid s i :
  interner_ok i -> resolve (from_str s i).2 (symbol_u32 (from_str s i).1) = Some s.
Proof.
  intros Hok. unfold from_str. pose proof (resolve_get_or_intern i s Hok) as R.
  by destruct (get_or_intern i s).
Qed.

Lemma from_str_stable s i k t :
  interner_ok i -> resolve i k = Some t -> resolve (from_str s i).2 k = Some t.
Proof.
  intros Hok R. pose proof (resolve_stable i s k t Hok R) as R'. unfold from_str.
  by destruct (get_or_intern i s).
Qed.

Lemma interns_stable i i' k t :
  interns i i' -> interner_ok i -> resolve i k = Some t -> resolve i' k = Some t.
Proof. induction 1; eauto using from_str_stable, from_str_ok. Qed.

Lemma resolve_inj i k1 k2 s :
  interner_ok i -> resolve i k1 = Some s -> resolve i k2 = Some s -> k1 = k2.
Proof.
  intros Hok R1 R2. apply get_or_intern_existing in R1, R2; [|done..].
  rewrite R1 in R2. by injection R2.
Qed.

(** The handle of a string never changes and always denotes that string. *)
Lemma from_str_denotes s i i' :
  interner_ok i -> interns (from_str s i).2 i' -> interned_to_string (from_str s i).1 i' = Ok s.
Proof.
  intros Hok Hi. unfold interned_to_string, interned_map.
  by rewrite (interns_stable _ _ _ s Hi (from_str_ok s i Hok) (from_str_valid s i Hok)).
Qed.

(** Interning again, in any later state, gives the same handle and changes nothing. *)
Lemma from_str_idempotent s i i' :
  interner_ok i -> interns (from_str s i).2 i' -> from_str s i' = ((from_str s i).1, i').
Proof.
  intros Hok Hi.
  pose proof (interns_stable _ _ _ s Hi (from_str_ok s i Hok) (from_str_valid s i Hok)) as R.
  pose proof (interns_ok _ _ Hi (from_str_ok s i Hok)) as Hok'.
  unfold from_str at 1. rewrite (get_or_intern_existing i' s _ Hok' R).
  by destruct (from_str s i) as [[k] j].
Qed.
End Interner.

(** [InternedString] in the rest of the development. *)
Abbreviation InternedString := string (only parsing).

(** The derived [Ord] of [InternedString]: some total order on strings, fixed by
    the order in which the run of the program interned them. *)
Class InternOrder := {
  intern_le : string -> string -> Prop;
  #[export] intern_le_dec :: RelDecision intern_le;
  #[export] intern_le_po :: PartialOrder intern_le;
  #[export] intern_le_total :: Total intern_le;
}.

(** [BTreeMap<InternedString, V>::iter]: the entries in key order. *)
Definition key_le `{InternOrder} {V} (a b : string * V) : Prop := intern_le a.1 b.1.
#[export] Instance key_le_dec `{InternOrder} {V} : RelDecision (key_le (V := V)).
Proof. intros a b. apply intern_le_dec. Defined.

Definition btree_iter `{InternOrder} {V} (m : gmap string V) : list (string * V) :=
  merge_sort key_le (map_to_list m).

Lemma btree_iter_Permutation `{InternOrder} {V} (m : gmap string V) :
  btree_iter m ≡ₚ map_to_list m.
Proof. apply merge_sort_Permutation. Qed.

Lemma elem_of_btree_iter `{InternOrder} {V} (m : gmap string V) k v :
  (k, v) ∈ btree_iter m <-> m !! k = Some v.
Proof. by rewrite btree_iter_Permutation, elem_of_map_to_list. Qed.

Lemma NoDup_btree_iter `{InternOrder} {V} (m : gmap string V) : NoDup (btree_iter m).*1.
Proof. rewrite btree_iter_Permutation. apply NoDup_fst_map_to_list. Qed.

(** Iteration commutes with mapping the values: the order depends on keys only. *)
Lemma btree_iter_fmap `{InternOrder} {V W} (f : V -> W) (m : gmap string V) :
  btree_iter (f <$> m) = prod_map id f <$> btree_iter m.
Proof.
  assert (Ht : forall {U}, Total (key_le (V := U))) by (intros U a b; apply intern_le_total).
  assert (Htr : forall {U}, Transitive (key_le (V := U)))
    by (intros U a b c; unfold key_le; apply transitivity).
  assert (Hsorted : Sorted key_le (prod_map id f <$> btree_iter m)).
  { apply Sorted_fmap with (R1 := key_le); [by intros [] []|].
    apply Sorted_merge_sort. apply Ht. }
  eapply (Sorted_unique_strong key_le); [| apply Sorted_merge_sort, Ht | apply Hsorted |].
  - intros [k1 v1] [k2 v2] H1 H2 L1 L2.
    assert (k1 = k2) as ->.
    { eapply (anti_symm intern_le); [apply L1 | apply L2]. }
    change (merge_sort key_le (map_to_list (f <$> m))) with (btree_iter (f <$> m)) in H1.
    apply elem_of_btree_iter in H1. apply list_elem_of_fmap in H2 as ([k v] & E & H2).
    injection E as -> ->. apply elem_of_btree_iter in H2.
    rewrite lookup_fmap, H2 in H1. by injection H1 as <-.
  - rewrite !btree_iter_Permutation. by rewrite map_to_list_fmap.
Qed.

(** [HashMap] iterates in an order that depends on its random seed: it is a parameter,
    of which the documentation promises that every entry is visited once. *)
Class HashOrder := {
  hash_iter {V} : gmap string V -> list (string * V);
  hash_iter_Permutation {V} (m : gmap string V) : hash_iter m ≡ₚ map_to_list m;
}.

#[export] Instance map_order : HashOrder := {
  hash_iter V m := map_to_list m;
  hash_iter_Permutation V m := reflexivity (map_to_list m);
}.

(** Instances of the other classes, so that the hypotheses above are met: an interner
    that keeps the strings in a list, and the lexicographic order. *)
Fixpoint index_of (s : string) (l : list string) : option N :=
  match l with
  | [] => None
  | t :: l => if String.eqb t s then Some 0%N else N.succ <$> index_of s l
  end.

#[export] Instance list_interner : StringInterner (list string) := {
  interner_default := [];
  get_or_intern l s :=
    match index_of s l with
    | Some k => (k, l)
    | None => (N.of_nat (length l), l ++ [s])
    end;
  resolve l k := l !! N.to_nat k;
}.

Lemma index_of_Some s l k : index_of s l = Some k -> l !! N.to_nat k = Some s.
Proof.
  revert k. induction l as [|t l IH]; intros k; cbn; [done|].
  destruct (String.eqb_spec t s) as [->|Hne].
  - intros [= <-]. done.
  - destruct (index_of s l) as [j|]; cbn; [|done]. intros [= <-].
    rewrite N2Nat.inj_succ. cbn. auto.
Qed.

Lemma index_of_lookup s l k : NoDup l -> l !! k = Some s -> index_of s l = Some (N.of_nat k).
Proof.
  intros Hnd. revert k. induction Hnd as [|t l Ht Hnd IH]; intros [|k]; cbn; try done.
  - intros [= ->]. by rewrite String.eqb_refl.
  - intros Hk. destruct (String.eqb_spec t s) as [->|Hne].
    + exfalso. apply Ht. by eapply list_elem_of_lookup_2.
    + rewrite (IH _ Hk). cbn. f_equal. lia.
Qed.

Lemma index_of_None s l : index_of s l = None -> s ∉ l.
Proof.
  intros H Hin. induction l as [|t l IH]; [by apply not_elem_of_nil in Hin|].
  cbn in H. destruct (String.eqb_spec t s) as [->|Hne]; [done|].
  apply fmap_None in H. apply elem_of_cons in Hin as [->|Hin]; [done|]. by apply IH.
Qed.

#[export] Instance list_interner_laws : StringInternerLaws (list string).
Proof.
  refine {| interner_ok := fun l : list string => NoDup l |}; cbn.
  - constructor.
  - intros l s Hnd. destruct (index_of s l) eqn:E; cbn; [done|].
    apply NoDup_app. split; [done|]. split; [|apply NoDup_singleton].
    intros x Hx ->%list_elem_of_singleton. by apply index_of_None in E.
  - done.
  - intros l s _. destruct (index_of s l) as [k|] eqn:E; cbn.
    + by apply index_of_Some.
    + by rewrite Nat2N.id, list_lookup_middle.
  - intros l s k t _ Hk. destruct (index_of s l) eqn:E; cbn; [done|].
    by apply lookup_app_l_Some.
  - intros l s k Hnd Hk. rewrite (index_of_lookup _ _ _ Hnd Hk). by rewrite N2Nat.id.
Defined.

#[export] Instance lexicographic_order : InternOrder := {
  intern_le := String.le;
}.

(** ** Properties *)

(** Interning is stable: in every later state of the interner the handle of a
    string denotes that string, and interning the string again returns the same
    handle and leaves the interner unchanged. *)
Theorem interning_stable {I : Type} `{StringInternerLaws I} (s : string) (i i' : I) :
  interner_ok i -> interns (from_str s i).2 i' ->
  interned_to_string (from_str s i).1 i' = Ok s
  /\ from_str s i' = ((from_str s i).1, i').
Proof. split; [by apply from_str_denotes | by apply from_str_idempotent]. Qed.

Lemma interning_stable_witness :
  let i' := (from_str "b" (from_str "a" (interner_default (I := list string))).2).2 in
  interned_to_string (from_str "a" (interner_default (I := list string))).1 i' = Ok "a"
  /\ from_str "a" i' = ((from_str "a" (interner_default (I := list string))).1, i').
Proof.
  apply (interning_stable "a" (interner_default (I := list string))).
  - constructor.
  - apply (interns_step _ "b"), interns_refl.
Defined.

(** Two handles are equal exactly when the strings they were made from are: the
    derived equality on [InternedString] is string equality, whatever was interned
    in between. *)
Theorem handle_equality {I : Type} `{StringInternerLaws I} (s t : string) (i i' : I) :
  interner_ok i -> interns (from_str s i).2 i' ->
  (from_str t i').1 = (from_str s i).1 <-> t = s.
Proof.
  intros Hok Hi. split.
  - intros E. pose proof (interns_ok _ _ Hi (from_str_ok s i Hok)) as Hok'.
    pose proof (from_str_denotes t i' _ Hok' (interns_refl _)) as Ht.
    rewrite E in Ht. unfold interned_to_string, interned_map in Ht.
    rewrite (from_str_stable t i' _ s) in Ht; [by injection Ht|done|].
    by eapply interns_stable; [done|by apply from_str_ok|apply from_str_valid].
  - intros ->. by rewrite (from_str_idempotent s i i').
Qed.

Lemma handle_equality_witness :
  (from_str "b" (from_str "a" (interner_default (I := list string))).2).1
  = (from_str "a" (interner_default (I := list string))).1 <-> "b" = "a".
Proof.
  apply (handle_equality "a" "b" (interner_default (I := list string))).
  - constructor.
  - apply interns_refl.
Defined.
