(* ===== verification/MachineModel.v ===== *)
(** * The machine model and the integer bounds it induces
    ([cbmc/src/machine_model.rs], [cbmc/src/utils.rs])

    [MachineModel] is the record of architecture parameters; its projections
    are the getters.  [max_int] and [min_int] build the bounds of an integer
    type bit by bit; their theorems give the closed forms and that the bounds
    are exactly those of a two's complement integer of that width. *)

From S2P Require Import Prelude CbmcString.
Local Open Scope Z_scope.

(** [enum RoundingMode] *)
Inductive RoundingMode := ToNearest | Downward | Upward | TowardsZero.

(** [impl From<RoundingMode> for BigInt] (and for [i32], [i128]): the discriminant. *)
Definition rounding_mode_to_int (rm : RoundingMode) : Z :=
  match rm with ToNearest => 0 | Downward => 1 | Upward => 2 | TowardsZero => 3 end.

(** [struct MachineModel] *)
Record MachineModel := mkMachineModel {
  alignment : N;
  architecture : string;
  bool_width : N;
  char_is_unsigned : bool;
  char_width : N;
  double_width : N;
  float_width : N;
  int_width : N;
  is_big_endian : bool;
  long_double_width : N;
  long_int_width : N;
  long_long_int_width : N;
  memory_operand_size : N;
  null_is_zero : bool;
  pointer_width : N;
  rounding_mode : RoundingMode;
  short_int_width : N;
  single_width : N;
  wchar_t_is_unsigned : bool;
  wchar_t_width : N;
  word_size : N;
}.

(** The widths of integer types are positive on every machine the program targets. *)
Definition widths_positive (mm : MachineModel) : bool :=
  ((0 <? bool_width mm) && (0 <? char_width mm) && (0 <? int_width mm)
     && (0 <? pointer_width mm))%N.

(** The model of the unit tests of the crate (x86-64). *)
Definition x86_64 : MachineModel := {|
  alignment := 1; architecture := "x86_64"; bool_width := 8; char_is_unsigned := false;
  char_width := 8; double_width := 64; float_width := 32; int_width := 32;
  is_big_endian := false; long_double_width := 128; long_int_width := 64;
  long_long_int_width := 64; memory_operand_size := 4; null_is_zero := true;
  pointer_width := 64; rounding_mode := ToNearest; short_int_width := 16;
  single_width := 32; wchar_t_is_unsigned := false; wchar_t_width := 32; word_size := 32;
|}%N.

(** [utils::aggr_tag] *)
Definition aggr_tag (n : InternedString) : InternedString := "tag-" +:+ n.

(** [utils::max_int]: [width - 1] underflows, hence panics, for a signed width of 0. *)
Definition max_int (width : N) (signed : bool) : outcome Z :=
  bi ← (if signed
        then w ← u64_sub width 1; Ok (Z.setbit 0 (Z.of_N w))
        else Ok (Z.setbit 0 (Z.of_N width)));
  Ok (bi - 1).

(** [utils::min_int] *)
Definition min_int (width : N) (signed : bool) : outcome Z :=
  if signed
  then max ← max_int width true; Ok (- max - 1)
  else Ok 0.

Lemma setbit_0 n : 0 <= n -> Z.setbit 0 n = 2 ^ n.
Proof. intros H. rewrite Z.setbit_spec'. apply Z.lor_0_l. Qed.

Lemma max_int_unsigned w : max_int w false = Ok (2 ^ Z.of_N w - 1).
Proof. unfold max_int. cbn. rewrite setbit_0 by lia. done. Qed.

Lemma max_int_signed w : (0 < w)%N -> max_int w true = Ok (2 ^ (Z.of_N w - 1) - 1).
Proof.
  intros H. unfold max_int, u64_sub.
  destruct (N.leb_spec 1 w) as [|]; [|lia]. cbn.
  rewrite setbit_0 by lia. by rewrite N2Z.inj_sub by lia.
Qed.

Lemma min_int_unsigned w : min_int w false = Ok 0.
Proof. done. Qed.

Lemma min_int_signed w : (0 < w)%N -> min_int w true = Ok (- 2 ^ (Z.of_N w - 1)).
Proof.
  intros H. unfold min_int. rewrite max_int_signed by done. cbn. f_equal. lia.
Qed.

(** The two's complement reading of the low [w] bits of [x]: what an integer
    type of width [w] keeps of a mathematical integer. *)
Definition wrap (w : N) (signed : bool) (x : Z) : Z :=
  let m := x mod 2 ^ Z.of_N w in
  if signed && (2 ^ (Z.of_N w - 1) <=? m) then m - 2 ^ Z.of_N w else m.

Definition in_range (w : N) (signed : bool) (x : Z) : Prop :=
  if signed then - 2 ^ (Z.of_N w - 1) <= x < 2 ^ (Z.of_N w - 1)
  else 0 <= x < 2 ^ Z.of_N w.

Lemma pow2_split w : (0 < w)%N -> 2 ^ Z.of_N w = 2 * 2 ^ (Z.of_N w - 1).
Proof.
  intros H. rewrite <- Z.pow_succ_r by lia. f_equal. lia.
Qed.

Lemma wrap_in_range w sg x : (0 < w)%N -> in_range w sg (wrap w sg x).
Proof.
  intros H. unfold in_range, wrap. pose proof (pow2_split w H).
  pose proof (Z.pow_pos_nonneg 2 (Z.of_N w - 1)) as Hp.
  pose proof (Z.mod_pos_bound x (2 ^ Z.of_N w)) as Hb.
  destruct sg; cbn; [|lia].
  destruct (Z.leb_spec (2 ^ (Z.of_N w - 1)) (x mod 2 ^ Z.of_N w)); lia.
Qed.

Lemma wrap_id w sg x : (0 < w)%N -> in_range w sg x -> wrap w sg x = x.
Proof.
  intros H Hx. unfold in_range, wrap in *. pose proof (pow2_split w H).
  pose proof (Z.pow_pos_nonneg 2 (Z.of_N w - 1)) as Hp.
  destruct sg; cbn; [|by rewrite Z.mod_small].
  destruct (Z_lt_le_dec x 0).
  - assert (x mod 2 ^ Z.of_N w = x + 2 ^ Z.of_N w) as ->.
    { symmetry. apply (Z.mod_unique_pos _ _ (-1)); lia. }
    destruct (Z.leb_spec (2 ^ (Z.of_N w - 1)) (x + 2 ^ Z.of_N w)); lia.
  - rewrite Z.mod_small by lia.
    destruct (Z.leb_spec (2 ^ (Z.of_N w - 1)) x); lia.
Qed.

Lemma wrap_fixed_iff w sg x : (0 < w)%N -> wrap w sg x = x <-> in_range w sg x.
Proof.
  intros H. split; [|by apply wrap_id]. intros <-. by apply wrap_in_range.
Qed.

Lemma bounds_in_range w sg lo hi x :
  (0 < w)%N -> min_int w sg = Ok lo -> max_int w sg = Ok hi ->
  in_range w sg x <-> lo <= x <= hi.
Proof.
  intros H. destruct sg.
  - rewrite min_int_signed, max_int_signed by done. intros [= <-] [= <-]. cbn. lia.
  - rewrite min_int_unsigned, max_int_unsigned. intros [= <-] [= <-]. cbn. lia.
Qed.

(** ** Properties *)

(** For every positive width, [utils::min_int] and [utils::max_int] are exactly
    the bounds of the two's complement (or unsigned) range: an integer survives
    truncation to the width if and only if it lies between them. *)
Theorem int_bounds_exact (w : N) (signed : bool) (x : Z) :
  (0 < w)%N ->
  exists lo hi, min_int w signed = Ok lo /\ max_int w signed = Ok hi
    /\ (wrap w signed x = x <-> lo <= x <= hi).
Proof.
  intros Hw. destruct signed.
  - exists (- 2 ^ (Z.of_N w - 1)), (2 ^ (Z.of_N w - 1) - 1).
    rewrite min_int_signed, max_int_signed by done. split; [done|]. split; [done|].
    rewrite wrap_fixed_iff by done. apply bounds_in_range; [done| |];
      by rewrite ?min_int_signed, ?max_int_signed.
  - exists 0, (2 ^ Z.of_N w - 1). rewrite max_int_unsigned. split; [done|]. split; [done|].
    rewrite wrap_fixed_iff by done. apply bounds_in_range; [done|done|].
    by rewrite max_int_unsigned.
Qed.

Lemma int_bounds_exact_witness :
  exists lo hi, min_int 8 true = Ok lo /\ max_int 8 true = Ok hi
    /\ (wrap 8 true 127 = 127 <-> lo <= 127 <= hi).
Proof. apply (int_bounds_exact 8 true 127). lia. Defined.

(** The only inputs on which the bounds are undefined are signed types of width
    zero: there [width - 1] underflows. *)
Theorem int_bounds_panic (w : N) (signed : bool) :
  (max_int w signed = Panic <-> signed = true /\ w = 0%N)
  /\ (min_int w signed = Panic <-> signed = true /\ w = 0%N).
Proof.
  destruct signed; [|rewrite max_int_unsigned; split; split; naive_solver].
  destruct (decide (w = 0%N)) as [->|Hw]; [split; split; done|].
  rewrite max_int_signed, min_int_signed by lia. split; split; naive_solver.
Qed.
