(* ===== verification/Location.v ===== *)
(** * Source locations ([cbmc/src/goto_program/location.rs]) *)

From S2P Require Import Prelude CbmcString.

(** [enum Location] *)
Inductive Location :=
| LNone
| BuiltinFunction (function_name : InternedString) (line : option N)
| Loc (file : InternedString) (function : option InternedString) (line : N) (col : option N).

#[export] Instance Location_eq_dec : EqDecision Location.
Proof. solve_decision. Defined.

Definition is_none (l : Location) : bool :=
  match l with LNone => true | _ => false end.

Definition is_builtin (l : Location) : bool :=
  match l with BuiltinFunction _ _ => true | _ => false end.

Definition filename (l : Location) : option string :=
  match l with Loc file _ _ _ => Some file | _ => None end.

Definition line (l : Location) : option N :=
  match l with Loc _ _ line _ => Some line | _ => None end.

(** [Location::short_string] *)
Definition short_string (l : Location) : string :=
  match l with
  | LNone => "<none>"
  | BuiltinFunction function_name (Some line) =>
      "<" +:+ function_name +:+ ">:" +:+ pretty line
  | BuiltinFunction function_name None => "<" +:+ function_name +:+ ">"
  | Loc file _ line _ => file +:+ ":" +:+ pretty line
  end.

(** [Location::new]: the conversions to [u64] panic out of range. *)
Definition try_into_u64 (x : Z) : outcome N :=
  if ((0 <=? x) && (x <=? Z.of_N u64_max))%Z then Ok (Z.to_N x) else Panic.

Definition new (file : InternedString) (function : option InternedString)
    (line : Z) (col : option Z) : outcome Location :=
  line ← try_into_u64 line;
  col ← option_outcome try_into_u64 col;
  Ok (Loc file function line col).

Definition none : Location := LNone.

Definition builtin_function (name : InternedString) (line : option N) : Location :=
  BuiltinFunction name line.
