(* ===== verification/Typ.v ===== *)
(** * Types of goto programs ([cbmc/src/goto_program/typ.rs])

    The data types [Type], [CIntType], [DatatypeComponent] and [Parameter], the
    equality the code compares types with, and the operations that need neither
    an expression nor a symbol table.  [sizeof] and the field maps are in
    [SymbolTable.v], the constants of a type ([zero], [max_int_expr], ...) in
    [Expr.v].

    [PartialEq] for [Parameter] ignores the names of parameters, so the derived
    [PartialEq] of [Type] is coarser than structural equality: it is [type_eqb],
    and [type_eqb_spec] shows that it decides equality up to those names
    ([type_eqv], an equivalence for which the operations are [Proper]). *)

From S2P Require Import Prelude CbmcString MachineModel.

(** ** Data *)

(** [enum CIntType] *)
Inductive CIntType := CBool | CChar | CInt | CSizeT | CSSizeT.

#[export] Instance CIntType_eq_dec : EqDecision CIntType.
Proof. solve_decision. Defined.

(** [enum Type], [enum DatatypeComponent] and [struct Parameter] *)
Inductive Type_ : Type :=
| TArray (typ : Type_) (size : N)
| TBool
| TCBitField (typ : Type_) (width : N)
| TCInteger (t : CIntType)
| TCode (parameters : list Parameter_) (return_type : Type_)
| TConstructor
| TDouble
| TEmpty
| TFlexibleArray (typ : Type_)
| TFloat
| TIncompleteStruct (tag : InternedString)
| TIncompleteUnion (tag : InternedString)
| TInfiniteArray (typ : Type_)
| TPointer (typ : Type_)
| TSignedbv (width : N)
| TStruct (tag : InternedString) (components : list DatatypeComponent)
| TStructTag (tag : InternedString)
| TUnion (tag : InternedString) (components : list DatatypeComponent)
| TUnionTag (tag : InternedString)
| TUnsignedbv (width : N)
| TVariadicCode (parameters : list Parameter_) (return_type : Type_)
| TVector (typ : Type_) (size : N)
with DatatypeComponent : Type :=
| Field (name : InternedString) (typ : Type_)
| Padding (name : InternedString) (bits : N)
with Parameter_ : Type :=
| mkParameter (typ : Type_) (identifier base_name : option InternedString).

(** ** Getters of components and parameters *)

Definition field_typ (c : DatatypeComponent) : option Type_ :=
  match c with Field _ typ => Some typ | Padding _ _ => None end.

Definition is_padding (c : DatatypeComponent) : bool :=
  match c with Field _ _ => false | Padding _ _ => true end.

Definition component_name (c : DatatypeComponent) : InternedString :=
  match c with Field name _ | Padding name _ => name end.

Definition field (name : InternedString) (typ : Type_) : DatatypeComponent := Field name typ.
Definition padding (name : InternedString) (bits : N) : DatatypeComponent := Padding name bits.

Definition parameter_base_name (p : Parameter_) : option InternedString :=
  match p with mkParameter _ _ b => b end.
Definition parameter_identifier (p : Parameter_) : option InternedString :=
  match p with mkParameter _ i _ => i end.
Definition parameter_typ (p : Parameter_) : Type_ :=
  match p with mkParameter t _ _ => t end.

(** ** Induction on types through the lists of components and parameters *)

Section TypeInduction.
Variable P : Type_ -> Prop.

Definition component_all (c : DatatypeComponent) : Prop :=
  match c with Field _ t => P t | Padding _ _ => True end.
Definition parameter_all (p : Parameter_) : Prop := P (parameter_typ p).

Hypothesis HArray : forall t n, P t -> P (TArray t n).
Hypothesis HBool : P TBool.
Hypothesis HCBitField : forall t n, P t -> P (TCBitField t n).
Hypothesis HCInteger : forall c, P (TCInteger c).
Hypothesis HCode : forall ps r, Forall parameter_all ps -> P r -> P (TCode ps r).
Hypothesis HConstructor : P TConstructor.
Hypothesis HDouble : P TDouble.
Hypothesis HEmpty : P TEmpty.
Hypothesis HFlexibleArray : forall t, P t -> P (TFlexibleArray t).
Hypothesis HFloat : P TFloat.
Hypothesis HIncompleteStruct : forall tag, P (TIncompleteStruct tag).
Hypothesis HIncompleteUnion : forall tag, P (TIncompleteUnion tag).
Hypothesis HInfiniteArray : forall t, P t -> P (TInfiniteArray t).
Hypothesis HPointer : forall t, P t -> P (TPointer t).
Hypothesis HSignedbv : forall w, P (TSignedbv w).
Hypothesis HStruct : forall tag cs, Forall component_all cs -> P (TStruct tag cs).
Hypothesis HStructTag : forall tag, P (TStructTag tag).
Hypothesis HUnion : forall tag cs, Forall component_all cs -> P (TUnion tag cs).
Hypothesis HUnionTag : forall tag, P (TUnionTag tag).
Hypothesis HUnsignedbv : forall w, P (TUnsignedbv w).
Hypothesis HVariadicCode : forall ps r, Forall parameter_all ps -> P r -> P (TVariadicCode ps r).
Hypothesis HVector : forall t n, P t -> P (TVector t n).

Fixpoint Type_rect' (t : Type_) : P t :=
  let params := fix params (ps : list Parameter_) : Forall parameter_all ps :=
    match ps with
    | [] => Forall_nil_2 _
    | p :: ps => Forall_cons_2 _ _ _
        (match p return parameter_all p with mkParameter t _ _ => Type_rect' t end) (params ps)
    end in
  let comps := fix comps (cs : list DatatypeComponent) : Forall component_all cs :=
    match cs with
    | [] => Forall_nil_2 _
    | c :: cs => Forall_cons_2 _ _ _
        (match c return component_all c with Field _ t => Type_rect' t | Padding _ _ => I end)
        (comps cs)
    end in
  match t with
  | TArray t n => HArray t n (Type_rect' t)
  | TBool => HBool
  | TCBitField t n => HCBitField t n (Type_rect' t)
  | TCInteger c => HCInteger c
  | TCode ps r => HCode ps r (params ps) (Type_rect' r)
  | TConstructor => HConstructor
  | TDouble => HDouble
  | TEmpty => HEmpty
  | TFlexibleArray t => HFlexibleArray t (Type_rect' t)
  | TFloat => HFloat
  | TIncompleteStruct tag => HIncompleteStruct tag
  | TIncompleteUnion tag => HIncompleteUnion tag
  | TInfiniteArray t => HInfiniteArray t (Type_rect' t)
  | TPointer t => HPointer t (Type_rect' t)
  | TSignedbv w => HSignedbv w
  | TStruct tag cs => HStruct tag cs (comps cs)
  | TStructTag tag => HStructTag tag
  | TUnion tag cs => HUnion tag cs (comps cs)
  | TUnionTag tag => HUnionTag tag
  | TUnsignedbv w => HUnsignedbv w
  | TVariadicCode ps r => HVariadicCode ps r (params ps) (Type_rect' r)
  | TVector t n => HVector t n (Type_rect' t)
  end.
End TypeInduction.

(** ** Equality of types *)

(** The derived [PartialEq] of [Type] and [DatatypeComponent], with the
    hand-written one of [Parameter], which compares only the types. *)
Fixpoint type_eqb (a b : Type_) {struct a} : bool :=
  match a, b with
  | TArray t n, TArray t' n' => type_eqb t t' && (n =? n')%N
  | TBool, TBool => true
  | TCBitField t n, TCBitField t' n' => type_eqb t t' && (n =? n')%N
  | TCInteger c, TCInteger c' => bool_decide (c = c')
  | TCode ps r, TCode ps' r' => forallb2 parameter_eqb ps ps' && type_eqb r r'
  | TConstructor, TConstructor => true
  | TDouble, TDouble => true
  | TEmpty, TEmpty => true
  | TFlexibleArray t, TFlexibleArray t' => type_eqb t t'
  | TFloat, TFloat => true
  | TIncompleteStruct tag, TIncompleteStruct tag' => String.eqb tag tag'
  | TIncompleteUnion tag, TIncompleteUnion tag' => String.eqb tag tag'
  | TInfiniteArray t, TInfiniteArray t' => type_eqb t t'
  | TPointer t, TPointer t' => type_eqb t t'
  | TSignedbv w, TSignedbv w' => (w =? w')%N
  | TStruct tag cs, TStruct tag' cs' => String.eqb tag tag' && forallb2 component_eqb cs cs'
  | TStructTag tag, TStructTag tag' => String.eqb tag tag'
  | TUnion tag cs, TUnion tag' cs' => String.eqb tag tag' && forallb2 component_eqb cs cs'
  | TUnionTag tag, TUnionTag tag' => String.eqb tag tag'
  | TUnsignedbv w, TUnsignedbv w' => (w =? w')%N
  | TVariadicCode ps r, TVariadicCode ps' r' => forallb2 parameter_eqb ps ps' && type_eqb r r'
  | TVector t n, TVector t' n' => type_eqb t t' && (n =? n')%N
  | _, _ => false
  end
with component_eqb (a b : DatatypeComponent) {struct a} : bool :=
  match a, b with
  | Field name t, Field name' t' => String.eqb name name' && type_eqb t t'
  | Padding name n, Padding name' n' => String.eqb name name' && (n =? n')%N
  | _, _ => false
  end
with parameter_eqb (a b : Parameter_) {struct a} : bool :=
  match a, b with
  | mkParameter t _ _, mkParameter t' _ _ => type_eqb t t'
  end.

(** Specification: forget the names of parameters, everywhere in a type. *)
Fixpoint erase (t : Type_) : Type_ :=
  match t with
  | TArray t n => TArray (erase t) n
  | TCBitField t n => TCBitField (erase t) n
  | TCode ps r => TCode (map erase_parameter ps) (erase r)
  | TFlexibleArray t => TFlexibleArray (erase t)
  | TInfiniteArray t => TInfiniteArray (erase t)
  | TPointer t => TPointer (erase t)
  | TStruct tag cs => TStruct tag (map erase_component cs)
  | TUnion tag cs => TUnion tag (map erase_component cs)
  | TVariadicCode ps r => TVariadicCode (map erase_parameter ps) (erase r)
  | TVector t n => TVector (erase t) n
  | t => t
  end
with erase_component (c : DatatypeComponent) : DatatypeComponent :=
  match c with Field name t => Field name (erase t) | Padding name n => Padding name n end
with erase_parameter (p : Parameter_) : Parameter_ :=
  match p with mkParameter t _ _ => mkParameter (erase t) None None end.

Definition type_eqv (a b : Type_) : Prop := erase a = erase b.
Infix "≃" := type_eqv (at level 70, no associativity) : stdpp_scope.

#[export] Instance type_eqv_equivalence : Equivalence type_eqv.
Proof.
  split; unfold type_eqv.
  - by intros a.
  - by intros a b.
  - intros a b c. apply transitivity.
Qed.

(** ** Getters *)

Definition struct_tag (name : InternedString) : Type_ := TStructTag (MachineModel.aggr_tag name).
Definition union_tag (name : InternedString) : Type_ := TUnionTag (MachineModel.aggr_tag name).

(** [Type::aggr_tag] *)
Definition type_aggr_tag (t : Type_) : option Type_ :=
  match t with
  | TIncompleteStruct tag | TStruct tag _ => Some (struct_tag tag)
  | TIncompleteUnion tag | TUnion tag _ => Some (union_tag tag)
  | TStructTag _ | TUnionTag _ => Some t
  | _ => None
  end.

Definition base_type (t : Type_) : option Type_ :=
  match t with
  | TArray typ _ | TCBitField typ _ | TFlexibleArray typ | TPointer typ | TVector typ _ => Some typ
  | _ => None
  end.

Definition components (t : Type_) : option (list DatatypeComponent) :=
  match t with
  | TStruct _ components | TUnion _ components => Some components
  | _ => None
  end.

Definition native_width (t : Type_) (mm : MachineModel) : option N :=
  match t with
  | TCInteger CSizeT | TCInteger CSSizeT | TPointer _ => Some (pointer_width mm)
  | TCInteger CBool => Some (bool_width mm)
  | TCInteger CChar => Some (char_width mm)
  | TCInteger CInt => Some (int_width mm)
  | TSignedbv width | TUnsignedbv width => Some width
  | _ => None
  end.

Definition parameters (t : Type_) : option (list Parameter_) :=
  match t with
  | TCode parameters _ | TVariadicCode parameters _ => Some parameters
  | _ => None
  end.

Definition return_type (t : Type_) : option Type_ :=
  match t with
  | TCode _ return_type | TVariadicCode _ return_type => Some return_type
  | _ => None
  end.

Definition tag (t : Type_) : option InternedString :=
  match t with
  | TIncompleteStruct tag | TIncompleteUnion tag | TStruct tag _ | TStructTag tag
  | TUnion tag _ | TUnionTag tag => Some tag
  | _ => None
  end.

Definition type_name (t : Type_) : option InternedString :=
  match t with
  | TIncompleteStruct tag | TStruct tag _ | TIncompleteUnion tag | TUnion tag _ =>
      Some (MachineModel.aggr_tag tag)
  | TStructTag tag | TUnionTag tag => Some tag
  | _ => None
  end.

Definition width (t : Type_) : option N :=
  match t with
  | TCBitField _ width | TSignedbv width | TUnsignedbv width => Some width
  | _ => None
  end.

(** ** Predicates *)

Definition is_array (t : Type_) : bool :=
  match t with TArray _ _ => true | _ => false end.

Definition is_array_like (t : Type_) : bool :=
  match t with TArray _ _ | TFlexibleArray _ | TVector _ _ => true | _ => false end.

Definition is_bool (t : Type_) : bool :=
  match t with TBool => true | _ => false end.

Definition is_c_bool (t : Type_) : bool :=
  match t with TCInteger CBool => true | _ => false end.

Definition is_c_size_t (t : Type_) : bool :=
  match t with TCInteger CSizeT => true | _ => false end.

Definition is_c_ssize_t (t : Type_) : bool :=
  match t with TCInteger CSSizeT => true | _ => false end.

Definition is_code (t : Type_) : bool :=
  match t with TCode _ _ => true | _ => false end.

Definition is_double (t : Type_) : bool :=
  match t with TDouble => true | _ => false end.

Definition is_empty (t : Type_) : bool :=
  match t with TEmpty => true | _ => false end.

Definition is_flexible_array (t : Type_) : bool :=
  match t with TFlexibleArray _ => true | _ => false end.

Definition is_float (t : Type_) : bool :=
  match t with TFloat => true | _ => false end.

Definition is_floating_point (t : Type_) : bool :=
  match t with TDouble | TFloat => true | _ => false end.

Definition is_c_integer (t : Type_) : bool :=
  match t with TCInteger _ => true | _ => false end.

Definition is_integer (t : Type_) : bool :=
  match t with TCInteger _ | TSignedbv _ | TUnsignedbv _ => true | _ => false end.

Definition is_lvalue (t : Type_) : bool :=
  match t with
  | TBool | TCBitField _ _ | TCInteger _ | TDouble | TFloat | TPointer _ | TSignedbv _
  | TStruct _ _ | TStructTag _ | TUnion _ _ | TUnionTag _ | TUnsignedbv _ | TVector _ _ => true
  | TArray _ _ | TCode _ _ | TConstructor | TEmpty | TFlexibleArray _ | TIncompleteStruct _
  | TIncompleteUnion _ | TInfiniteArray _ | TVariadicCode _ _ => false
  end.

Definition is_numeric (t : Type_) : bool := is_floating_point t || is_integer t.

Definition is_pointer (t : Type_) : bool :=
  match t with TPointer _ => true | _ => false end.

Definition is_pointer_width (t : Type_) : bool :=
  match t with TPointer _ | TCInteger CSizeT | TCInteger CSSizeT => true | _ => false end.

Definition is_signed (t : Type_) (mm : MachineModel) : bool :=
  match t with
  | TCInteger CInt | TCInteger CSSizeT | TSignedbv _ => true
  | TCInteger CChar => negb (char_is_unsigned mm)
  | _ => false
  end.

Definition is_struct (t : Type_) : bool :=
  match t with TStruct _ _ => true | _ => false end.

Definition is_struct_like (t : Type_) : bool :=
  match t with TIncompleteStruct _ | TStruct _ _ | TStructTag _ => true | _ => false end.

Definition is_struct_tag (t : Type_) : bool :=
  match t with TStructTag _ => true | _ => false end.

Definition is_union (t : Type_) : bool :=
  match t with TUnion _ _ => true | _ => false end.

Definition is_union_tag (t : Type_) : bool :=
  match t with TUnionTag _ => true | _ => false end.

Definition is_unsigned (t : Type_) (mm : MachineModel) : bool :=
  match t with
  | TCInteger CBool | TCInteger CSizeT | TUnsignedbv _ => true
  | TCInteger CChar => char_is_unsigned mm
  | _ => false
  end.

Definition is_variadic_code (t : Type_) : bool :=
  match t with TVariadicCode _ _ => true | _ => false end.

Definition is_vector (t : Type_) : bool :=
  match t with TVector _ _ => true | _ => false end.

(** [Type::completes] (and hence [Symbol::completes]): [t] completes [old]. *)
Definition completes (t old : Type_) : bool :=
  match old, t with
  | TIncompleteStruct old_tag, TStruct new_tag _
  | TIncompleteUnion old_tag, TUnion new_tag _ => String.eqb old_tag new_tag
  | _, _ => false
  end.

(** [Type::is_equal_on_machine] *)
Definition is_equal_on_machine (t other : Type_) (mm : MachineModel) : bool :=
  if type_eqb t other then true
  else bool_decide (native_width t mm = native_width other mm)
       && Bool.eqb (is_signed t mm) (is_signed other mm).

(** ** Constructors *)

Definition array_of (t : Type_) (size : N) : Type_ := TArray t size.

Definition as_bitfield (t : Type_) (w : N) : outcome Type_ :=
  assert! (0 <? w)%N;
  assert! is_integer t;
  tw ← unwrap (width t);
  assert! (w <=? tw)%N;
  Ok (TCBitField t w).

Definition as_parameter (t : Type_) (identifier base_name : option InternedString) :
    outcome Parameter_ :=
  assert! is_lvalue t;
  Ok (mkParameter t identifier base_name).

Definition bool_ : Type_ := TBool.
Definition c_bool : Type_ := TCInteger CBool.
Definition c_char : Type_ := TCInteger CChar.
Definition c_int : Type_ := TCInteger CInt.
Definition c_size_t : Type_ := TCInteger CSizeT.
Definition c_ssize_t : Type_ := TCInteger CSSizeT.

Definition code (parameters : list Parameter_) (return_type : Type_) : Type_ :=
  TCode parameters return_type.

Definition code_with_unnamed_parameters (param_types : list Type_) (return_type : Type_) :
    outcome Type_ :=
  parameters ← map_outcome (fun t => as_parameter t None None) param_types;
  Ok (code parameters return_type).

Definition constructor : Type_ := TConstructor.

Definition datatype_component (name : InternedString) (typ : Type_) : DatatypeComponent :=
  Field name typ.
Definition datatype_padding (name : InternedString) (bits : N) : DatatypeComponent :=
  Padding name bits.

Definition double : Type_ := TDouble.
Definition empty : Type_ := TEmpty.
Definition empty_struct (tag : InternedString) : Type_ := TStruct tag [].
Definition empty_union (tag : InternedString) : Type_ := TUnion tag [].
Definition flexible_array_of (t : Type_) : Type_ := TFlexibleArray t.
Definition float : Type_ := TFloat.
Definition incomplete_struct (tag : InternedString) : Type_ := TIncompleteStruct tag.
Definition incomplete_union (tag : InternedString) : Type_ := TIncompleteUnion tag.
Definition infinite_array_of (t : Type_) : Type_ := TInfiniteArray t.
Definition to_pointer (t : Type_) : Type_ := TPointer t.

Definition signed_int (w : N) : outcome Type_ :=
  assert! (0 <? w)%N; Ok (TSignedbv w).

Definition size_t : Type_ := TCInteger CSizeT.
Definition ssize_t : Type_ := TCInteger CSSizeT.
Definition struct_tag_raw (name : InternedString) : Type_ := TStructTag name.
Definition union_tag_raw (name : InternedString) : Type_ := TUnionTag name.

Definition unsigned_int (w : N) : outcome Type_ :=
  assert! (0 <? w)%N; Ok (TUnsignedbv w).

Definition variadic_code (parameters : list Parameter_) (return_type : Type_) : Type_ :=
  TVariadicCode parameters return_type.

Definition variadic_code_with_unnamed_parameters (param_types : list Type_)
    (return_type : Type_) : Type_ :=
  variadic_code (map (fun t => mkParameter t None None) param_types) return_type.

Definition vector (typ : Type_) (size : N) : outcome Type_ :=
  assert! is_numeric typ; Ok (TVector typ size).

Definition void_pointer : Type_ := to_pointer empty.

(** [DatatypeComponent::typ]: a padding of 0 bits has no type ([unsigned_int] asserts). *)
Definition component_typ (c : DatatypeComponent) : outcome Type_ :=
  match c with
  | Field _ typ => Ok typ
  | Padding _ bits => unsigned_int bits
  end.

(** [Vec::dedup]: drop consecutive repetitions. *)
Fixpoint dedup (l : list string) : list string :=
  match l with
  | [] => []
  | x :: l =>
      match dedup l with
      | y :: r => if String.eqb x y then y :: r else x :: y :: r
      | [] => [x]
      end
  end.

Section Ordered.
Context `{InternOrder}.

(** [Type::components_are_unique]: sort the names, [dedup], compare the lengths. *)
Definition components_are_unique (components : list DatatypeComponent) : bool :=
  let names := map component_name components in
  let names := dedup (merge_sort intern_le names) in
  (length names =? length components)%nat.

Definition struct_type (tag : InternedString) (components : list DatatypeComponent) :
    outcome Type_ :=
  assert! components_are_unique components;
  Ok (TStruct tag components).

Definition union_type (tag : InternedString) (components : list DatatypeComponent) :
    outcome Type_ :=
  assert! components_are_unique components;
  Ok (TUnion tag components).
End Ordered.

(** ** Identifiers *)

(** [slice::join] *)
Fixpoint join (sep : string) (l : list string) : string :=
  match l with
  | [] => ""
  | [s] => s
  | s :: l => s +:+ sep +:+ join sep l
  end.

(** The derived [Debug] of [CIntType]. *)
Definition c_int_debug (c : CIntType) : string :=
  match c with
  | CBool => "Bool" | CChar => "Char" | CInt => "Int" | CSizeT => "SizeT" | CSSizeT => "SSizeT"
  end.

(** [Type::to_identifier] *)
Fixpoint to_identifier (t : Type_) : string :=
  let param p := match p with mkParameter t _ _ => to_identifier t end in
  match t with
  | TArray typ size => "array_of_" +:+ pretty size +:+ "_" +:+ to_identifier typ
  | TBool => "bool"
  | TCBitField typ width => "cbitfield_of_" +:+ pretty width +:+ "_" +:+ to_identifier typ
  | TCInteger int_kind => "c_int_" +:+ c_int_debug int_kind
  | TCode parameters return_type =>
      "code_from_" +:+ join "_" (map param parameters) +:+ "_to_" +:+ to_identifier return_type
  | TConstructor => "constructor"
  | TDouble => "double"
  | TEmpty => "empty"
  | TFlexibleArray typ => "flexarray_of_" +:+ to_identifier typ
  | TFloat => "float"
  | TIncompleteStruct tag => tag
  | TIncompleteUnion tag => tag
  | TInfiniteArray typ => "infinite_array_of_" +:+ to_identifier typ
  | TPointer typ => "pointer_to_" +:+ to_identifier typ
  | TSignedbv width => "signed_bv_" +:+ pretty width
  | TStruct tag _ => "struct_" +:+ tag
  | TStructTag tag => "struct_tag_" +:+ tag
  | TUnion tag _ => "union_" +:+ tag
  | TUnionTag tag => "union_tag_" +:+ tag
  | TUnsignedbv width => "unsigned_bv_" +:+ pretty width
  | TVariadicCode parameters return_type =>
      "variadic_code_from_" +:+ join "_" (map param parameters) +:+ "_to_"
        +:+ to_identifier return_type
  | TVector typ size => "vec_of_" +:+ pretty size +:+ "_" +:+ to_identifier typ
  end.

(** ** Lemmas *)

Lemma forallb2_map_eq {A B} (f : A -> A -> bool) (g : A -> B) l l' :
  Forall (fun a => forall b, f a b = true <-> g a = g b) l ->
  forallb2 f l l' = true <-> map g l = map g l'.
Proof.
  intros H. revert l'. induction H as [|a l Ha H IH]; intros [|b l']; cbn; try done.
  rewrite andb_true_iff, Ha, IH. split; [by intros [-> ->] | by intros [= -> ->]].
Qed.

Section EqbLists.
Let eqb_ok (a : Type_) : Prop := forall b, type_eqb a b = true <-> erase a = erase b.

Lemma parameters_eqb_spec ps ps' :
  Forall (parameter_all eqb_ok) ps ->
  forallb2 parameter_eqb ps ps' = true <-> map erase_parameter ps = map erase_parameter ps'.
Proof.
  intros H. apply forallb2_map_eq. eapply Forall_impl; [exact H|].
  intros [t ? ?] Hp [t' ? ?]. unfold parameter_all, eqb_ok in Hp. cbn in *. rewrite Hp.
  split; congruence.
Qed.

Lemma components_eqb_spec cs cs' :
  Forall (component_all eqb_ok) cs ->
  forallb2 component_eqb cs cs' = true <-> map erase_component cs = map erase_component cs'.
Proof.
  intros H. apply forallb2_map_eq. eapply Forall_impl; [exact H|].
  intros [n t|n w] Hp [n' t'|n' w']; cbn in *; try done.
  - unfold eqb_ok in Hp. rewrite andb_true_iff, String.eqb_eq, Hp.
    split; [by intros [-> ->] | by intros [= -> ->]].
  - rewrite andb_true_iff, String.eqb_eq, N.eqb_eq.
    split; [by intros [-> ->] | by intros [= -> ->]].
Qed.
End EqbLists.

Lemma type_eqb_spec (a b : Type_) : type_eqb a b = true <-> a ≃ b.
Proof.
  revert b. unfold type_eqv.
  induction a using Type_rect'; intros b; destruct b; cbn; try done.
  all: repeat first
    [ rewrite andb_true_iff | rewrite N.eqb_eq | rewrite String.eqb_eq
    | rewrite bool_decide_eq_true | rewrite parameters_eqb_spec by assumption
    | rewrite components_eqb_spec by assumption
    | match goal with IH : forall b, type_eqb ?t b = true <-> _ |- context [type_eqb ?t _] =>
        rewrite IH end ].
  all: split; [intros; destruct_and?; congruence | by intros [=]].
Qed.

Lemma type_eqb_refl a : type_eqb a a = true.
Proof. by apply type_eqb_spec. Qed.

Lemma type_eqb_sym a b : type_eqb a b = type_eqb b a.
Proof.
  apply Bool.eq_iff_eq_true. rewrite !type_eqb_spec. split; by intros ->.
Qed.

#[export] Instance type_eqv_dec : RelDecision type_eqv.
Proof.
  intros a b. destruct (type_eqb a b) eqn:E; [left | right].
  - by apply type_eqb_spec.
  - intros H%type_eqb_spec. congruence.
Defined.

#[export] Instance type_eqb_proper : Proper (type_eqv ==> type_eqv ==> eq) type_eqb.
Proof.
  intros a a' Ha b b' Hb. apply Bool.eq_iff_eq_true. rewrite !type_eqb_spec. by rewrite Ha, Hb.
Qed.

#[export] Hint Resolve type_eqb_refl : rmc.

(** *** Strict equality

    Identity of types, parameter names included, for the rules in which a
    constructor computes the type of its result. *)

Fixpoint type_same (a b : Type_) {struct a} : bool :=
  let parameter p q :=
    match p, q with
    | mkParameter t i n, mkParameter t' i' n' =>
        type_same t t' && bool_decide (i = i') && bool_decide (n = n')
    end in
  let component c d :=
    match c, d with
    | Field n t, Field n' t' => String.eqb n n' && type_same t t'
    | Padding n w, Padding n' w' => String.eqb n n' && (w =? w')%N
    | _, _ => false
    end in
  match a, b with
  | TArray t n, TArray t' n' | TCBitField t n, TCBitField t' n'
  | TVector t n, TVector t' n' => type_same t t' && (n =? n')%N
  | TCInteger c, TCInteger c' => bool_decide (c = c')
  | TCode ps r, TCode ps' r' | TVariadicCode ps r, TVariadicCode ps' r' =>
      forallb2 parameter ps ps' && type_same r r'
  | TFlexibleArray t, TFlexibleArray t' | TInfiniteArray t, TInfiniteArray t'
  | TPointer t, TPointer t' => type_same t t'
  | TIncompleteStruct x, TIncompleteStruct x' | TIncompleteUnion x, TIncompleteUnion x'
  | TStructTag x, TStructTag x' | TUnionTag x, TUnionTag x' => String.eqb x x'
  | TSignedbv w, TSignedbv w' | TUnsignedbv w, TUnsignedbv w' => (w =? w')%N
  | TStruct x cs, TStruct x' cs' | TUnion x cs, TUnion x' cs' =>
      String.eqb x x' && forallb2 component cs cs'
  | TBool, TBool | TConstructor, TConstructor | TDouble, TDouble | TEmpty, TEmpty
  | TFloat, TFloat => true
  | _, _ => false
  end.

Lemma forallb2_eq {A} (f : A -> A -> bool) l l' :
  Forall (fun a => forall b, f a b = true <-> a = b) l -> forallb2 f l l' = true <-> l = l'.
Proof.
  intros H. revert l'. induction H as [|a l Ha H IH]; intros [|b l']; cbn; try done.
  rewrite andb_true_iff, Ha, IH. split; [by intros [-> ->] | by intros [= -> ->]].
Qed.

Lemma type_same_spec (a b : Type_) : type_same a b = true <-> a = b.
Proof.
  revert b. induction a using Type_rect'; intros b; destruct b; cbn; try done.
  all: try match goal with
    | |- context [forallb2 ?f ?l ?l'] =>
        assert (Hl : forallb2 f l l' = true <-> l = l');
        [apply forallb2_eq; eapply Forall_impl; [eassumption|];
         intros [] IHc []; unfold parameter_all in IHc; cbn in *; try done;
         rewrite ?andb_true_iff, ?bool_decide_eq_true, ?String.eqb_eq, ?N.eqb_eq, ?IHc;
         (split; [intros; destruct_and?; congruence | by intros [=]])
        |rewrite andb_true_iff, Hl]
    end.
  all: rewrite ?andb_true_iff, ?N.eqb_eq, ?String.eqb_eq, ?bool_decide_eq_true;
    try match goal with IH : forall b, type_same ?t b = true <-> _ |- context [type_same ?t _] =>
      rewrite IH end.
  all: split; [intros; destruct_and?; congruence | by intros [=]].
Qed.

#[export] Instance Type_eq_dec : EqDecision Type_.
Proof.
  intros a b. destruct (type_same a b) eqn:E; [left | right].
  - by apply type_same_spec.
  - intros H%type_same_spec. congruence.
Defined.

Lemma type_same_refl a : type_same a a = true.
Proof. by apply type_same_spec. Qed.

(** An observation that does not look at parameter names is invariant under [≃]. *)
Lemma erase_invariant {X} (f : Type_ -> X) :
  (forall t, f (erase t) = f t) -> Proper (type_eqv ==> eq) f.
Proof. intros H a b E. rewrite <- (H a), <- (H b). by rewrite E. Qed.

Ltac solve_erase := apply erase_invariant; by intros [].

#[export] Instance is_array_proper : Proper (type_eqv ==> eq) is_array.
Proof. solve_erase. Qed.
#[export] Instance is_array_like_proper : Proper (type_eqv ==> eq) is_array_like.
Proof. solve_erase. Qed.
#[export] Instance is_bool_proper : Proper (type_eqv ==> eq) is_bool.
Proof. solve_erase. Qed.
#[export] Instance is_c_bool_proper : Proper (type_eqv ==> eq) is_c_bool.
Proof. solve_erase. Qed.
#[export] Instance is_code_proper : Proper (type_eqv ==> eq) is_code.
Proof. solve_erase. Qed.
#[export] Instance is_variadic_code_proper : Proper (type_eqv ==> eq) is_variadic_code.
Proof. solve_erase. Qed.
#[export] Instance is_empty_proper : Proper (type_eqv ==> eq) is_empty.
Proof. solve_erase. Qed.
#[export] Instance is_float_proper : Proper (type_eqv ==> eq) is_float.
Proof. solve_erase. Qed.
#[export] Instance is_double_proper : Proper (type_eqv ==> eq) is_double.
Proof. solve_erase. Qed.
#[export] Instance is_floating_point_proper : Proper (type_eqv ==> eq) is_floating_point.
Proof. solve_erase. Qed.
#[export] Instance is_integer_proper : Proper (type_eqv ==> eq) is_integer.
Proof. solve_erase. Qed.
#[export] Instance is_lvalue_proper : Proper (type_eqv ==> eq) is_lvalue.
Proof. solve_erase. Qed.
#[export] Instance is_numeric_proper : Proper (type_eqv ==> eq) is_numeric.
Proof. solve_erase. Qed.
#[export] Instance is_pointer_proper : Proper (type_eqv ==> eq) is_pointer.
Proof. solve_erase. Qed.
#[export] Instance is_struct_tag_proper : Proper (type_eqv ==> eq) is_struct_tag.
Proof. solve_erase. Qed.
#[export] Instance is_union_tag_proper : Proper (type_eqv ==> eq) is_union_tag.
Proof. solve_erase. Qed.
#[export] Instance is_vector_proper : Proper (type_eqv ==> eq) is_vector.
Proof. solve_erase. Qed.
#[export] Instance type_name_proper : Proper (type_eqv ==> eq) type_name.
Proof. solve_erase. Qed.
#[export] Instance width_proper : Proper (type_eqv ==> eq) width.
Proof. solve_erase. Qed.
#[export] Instance tag_proper : Proper (type_eqv ==> eq) tag.
Proof. solve_erase. Qed.
#[export] Instance native_width_proper : Proper (type_eqv ==> eq ==> eq) native_width.
Proof. intros a b E mm ? <-. revert a b E. apply erase_invariant. by intros [| | |[]| | | | | | | | | | | | | | | | | |]. Qed.
#[export] Instance is_signed_proper : Proper (type_eqv ==> eq ==> eq) is_signed.
Proof. intros a b E mm ? <-. revert a b E. apply erase_invariant. by intros [| | |[]| | | | | | | | | | | | | | | | | |]. Qed.

Lemma base_type_erase t : base_type (erase t) = erase <$> base_type t.
Proof. by destruct t. Qed.
Lemma return_type_erase t : return_type (erase t) = erase <$> return_type t.
Proof. by destruct t. Qed.
Lemma parameters_erase t : parameters (erase t) = map erase_parameter <$> parameters t.
Proof. by destruct t. Qed.

Lemma erase_idemp t : erase (erase t) = erase t.
Proof.
  induction t using Type_rect'; cbn; try done; try congruence.
  all: f_equal; try done; rewrite map_map; apply map_ext_Forall;
    eapply Forall_impl; [eassumption|]; intros [] Hx; unfold parameter_all in *; cbn in *; congruence.
Qed.

Lemma erase_eqv t : erase t ≃ t.
Proof. apply erase_idemp. Qed.

Lemma to_identifier_erase t : to_identifier (erase t) = to_identifier t.
Proof.
  induction t using Type_rect'; cbn; try done; try congruence.
  all: rewrite map_map, IHt; do 2 f_equal; f_equal; apply map_ext_Forall;
    eapply Forall_impl; [eassumption|]; intros [] Hx; unfold parameter_all in *; cbn in *; congruence.
Qed.

(** *** [components_are_unique] *)

Lemma dedup_length l : length (dedup l) <= length l.
Proof.
  induction l as [|x l IH]; cbn; [done|].
  destruct (dedup l) as [|y r]; cbn in *; [lia|].
  destruct (String.eqb x y); cbn; lia.
Qed.

Lemma dedup_full l : length (dedup l) = length l -> dedup l = l.
Proof.
  induction l as [|x l IH]; cbn; [done|]. pose proof (dedup_length l).
  destruct (dedup l) as [|y r] eqn:E; cbn in *.
  - intros [= Hl]. f_equal. destruct l; [done|]. cbn in Hl. lia.
  - destruct (String.eqb x y); cbn; [lia|]. intros [= Hl]. f_equal. by apply IH; cbn; lia.
Qed.

Lemma dedup_nodup_id l : NoDup l -> dedup l = l.
Proof.
  induction 1 as [|x l Hx Hnd IH]; cbn; [done|]. rewrite IH.
  destruct l as [|y r]; [done|]. destruct (String.eqb_spec x y) as [->|]; [|done].
  exfalso. apply Hx. left.
Qed.

Lemma elem_of_dedup x l : x ∈ dedup l -> x ∈ l.
Proof.
  induction l as [|y l IH]; cbn; [done|].
  destruct (dedup l) as [|z r] eqn:E.
  - intros ->%list_elem_of_singleton. left.
  - rewrite elem_of_cons. destruct (String.eqb_spec y z) as [->|Hne].
    + intros Hx. right. by apply IH.
    + intros [->|Hx]%elem_of_cons; [by left|]. right. by apply IH.
Qed.

Section DedupSorted.
Context (R : relation string) `{!Transitive R, !AntiSymm (=) R}.

Lemma dedup_sorted_nodup l : StronglySorted R l -> StronglySorted R (dedup l) /\ NoDup (dedup l).
Proof.
  induction 1 as [|x l Hs [IHs IHn] Hall]; cbn; [split; constructor|].
  assert (Hd : Forall (R x) (dedup l)).
  { apply Forall_forall. intros z Hz%elem_of_dedup. by eapply Forall_forall in Hall. }
  destruct (dedup l) as [|y r] eqn:E.
  - split; [by repeat constructor | apply NoDup_singleton].
  - destruct (String.eqb_spec x y) as [->|Hne]; [done|]. split; [by constructor|].
    constructor; [|done]. intros [->|Hin]%elem_of_cons; [done|].
    apply Forall_cons in Hd as [Hxy _]. inversion IHs as [|? ? _ Hy]; subst.
    eapply Forall_forall in Hy; [|exact Hin]. apply Hne. by apply (anti_symm R).
Qed.
End DedupSorted.

Section OrderedFacts.
Context `{InternOrder}.

Lemma components_are_unique_nodup cs :
  components_are_unique cs = true <-> NoDup (map component_name cs).
Proof.
  unfold components_are_unique. set (names := map component_name cs).
  assert (Hl : length cs = length (merge_sort intern_le names)).
  { rewrite (Permutation_length (merge_sort_Permutation intern_le names)).
    unfold names. by rewrite length_map. }
  rewrite Nat.eqb_eq, Hl.
  assert (Hp : NoDup (merge_sort intern_le names) <-> NoDup names)
    by (by rewrite (merge_sort_Permutation intern_le names)).
  rewrite <- Hp. split.
  - intros E%dedup_full. rewrite <- E.
    apply (dedup_sorted_nodup intern_le). apply StronglySorted_merge_sort; apply _.
  - intros Hnd. by rewrite dedup_nodup_id.
Qed.
End OrderedFacts.

(** *** Signedness and machine equality *)

Lemma signed_unsigned_integer t mm :
  is_integer t = true -> is_unsigned t mm = negb (is_signed t mm).
Proof. destruct t as [| | |[]| | | | | | | | | | | | | | | | | |]; cbn; by rewrite ?negb_involutive. Qed.

Lemma integer_native_width t mm :
  is_integer t = true -> exists w, native_width t mm = Some w.
Proof. destruct t as [| | |[]| | | | | | | | | | | | | | | | | |]; cbn; eauto; done. Qed.

Lemma is_equal_on_machine_spec a b mm :
  is_equal_on_machine a b mm = true <->
  a ≃ b \/ (native_width a mm = native_width b mm /\ is_signed a mm = is_signed b mm).
Proof.
  unfold is_equal_on_machine. destruct (type_eqb a b) eqn:E.
  - apply type_eqb_spec in E. tauto.
  - assert (~ a ≃ b) by (intros H%type_eqb_spec; congruence).
    rewrite andb_true_iff, bool_decide_eq_true, Bool.eqb_true_iff. tauto.
Qed.

(** *** Identifiers *)

(** Types whose identifier mentions no tag and no parameter list. *)
Fixpoint plain (t : Type_) : bool :=
  match t with
  | TArray t _ | TCBitField t _ | TFlexibleArray t | TInfiniteArray t | TPointer t
  | TVector t _ => plain t
  | TBool | TCInteger _ | TConstructor | TDouble | TEmpty | TFloat | TSignedbv _
  | TUnsignedbv _ => true
  | _ => false
  end.

Fixpoint no_underscore (s : string) : bool :=
  match s with
  | EmptyString => true
  | String c s => negb (Ascii.eqb c "_"%char) && no_underscore s
  end.

Lemma no_underscore_pretty (n : N) : no_underscore (pretty n) = true.
Proof.
  assert (Hgo : forall x s, no_underscore s = true -> no_underscore (pretty_N_go x s) = true).
  { intros x. induction (N.lt_wf_0 x) as [x _ IH]; intros s Hs.
    destruct (decide (x = 0%N)) as [->|Hx]; [done|].
    rewrite pretty_N_go_step by lia. apply IH; [apply N.div_lt; lia|]. cbn. rewrite Hs.
    unfold pretty_N_char. by repeat case_match. }
  unfold pretty, pretty_N. destruct (decide (n = 0%N)); [done|]. by apply Hgo.
Qed.

Lemma app_underscore_inj a b s t :
  no_underscore a = true -> no_underscore b = true ->
  a +:+ "_" +:+ s = b +:+ "_" +:+ t -> a = b /\ s = t.
Proof.
  revert b. induction a as [|c a IH]; intros [|d b] Ha Hb E; cbn in Ha, Hb; bool_inv.
  - by injection E.
  - by injection E as <- _.
  - by injection E as -> _.
  - injection E as -> E. by destruct (IH b) as [-> ->].
Qed.

Lemma sized_identifier_inj (n m : N) s t :
  pretty n +:+ "_" +:+ s = pretty m +:+ "_" +:+ t -> n = m /\ s = t.
Proof.
  intros E. apply app_underscore_inj in E as [E ->]; [|apply no_underscore_pretty..].
  by apply (inj pretty) in E as ->.
Qed.

Lemma plain_identifier_inj a b :
  plain a = true -> plain b = true -> to_identifier a = to_identifier b -> a = b.
Proof.
  revert b. induction a using Type_rect'; intros b; destruct b; cbn; try done;
    intros Ha Hb E; try discriminate E; repeat (injection E as E).
  all: try (apply sized_identifier_inj in E as [-> E]; f_equal; auto; fail).
  all: try (f_equal; auto; fail).
  all: match type of E with EmptyString +:+ ?x = EmptyString +:+ ?y => change (x = y) in E end.
  all: try (apply (inj pretty) in E as ->; done).
  all: repeat match goal with c : CIntType |- _ => destruct c end; try done; try discriminate E.
Qed.

(** ** Properties *)

(** The hand-written equality of types is equality up to the names of function
    parameters, at every depth; the type built from a type by forgetting those
    names is a canonical representative of its class. *)
Theorem type_equality_up_to_names (a b : Type_) :
  (type_eqb a b = true <-> a ≃ b) /\ type_eqb a (erase a) = true /\ erase (erase a) = erase a.
Proof.
  split; [apply type_eqb_spec|]. split; [|apply erase_idemp].
  rewrite type_eqb_sym. apply type_eqb_spec, erase_eqv.
Qed.

(** [Type::components_are_unique] (sort by name, drop adjacent duplicates, compare
    lengths) accepts exactly the component lists without a repeated name, whatever
    the order in which the strings were interned. *)
Theorem components_are_unique_iff `{InternOrder} (cs : list DatatypeComponent) :
  components_are_unique cs = true <-> NoDup (map component_name cs).
Proof. apply components_are_unique_nodup. Qed.

(** [Type::is_equal_on_machine] on integer and pointer types (those with a native
    width) is agreement on width and signedness, or equality. *)
Theorem equal_on_machine_iff (a b : Type_) (mm : MachineModel) (w : N) :
  native_width a mm = Some w ->
  is_equal_on_machine a b mm = true <->
  a ≃ b \/ (native_width b mm = Some w /\ is_signed a mm = is_signed b mm).
Proof.
  intros Hw. rewrite is_equal_on_machine_spec, Hw. naive_solver.
Qed.

Lemma equal_on_machine_iff_witness :
  is_equal_on_machine size_t (TUnsignedbv 64) x86_64 = true <->
  size_t ≃ TUnsignedbv 64 \/ (native_width (TUnsignedbv 64) x86_64 = Some 64%N
    /\ is_signed size_t x86_64 = is_signed (TUnsignedbv 64) x86_64).
Proof. apply (equal_on_machine_iff size_t (TUnsignedbv 64) x86_64 64). reflexivity. Defined.

(** On types without a native width [Type::is_equal_on_machine] compares two absent
    widths: any two of them are "equal on the machine", for instance [float] and
    [double], or two different struct tags. *)
Theorem equal_on_machine_without_width (a b : Type_) (mm : MachineModel) :
  native_width a mm = None -> native_width b mm = None -> is_equal_on_machine a b mm = true.
Proof.
  intros Ha Hb. rewrite is_equal_on_machine_spec. right. rewrite Ha, Hb. split; [done|].
  destruct a as [| | |[]| | | | | | | | | | | | | | | | | |], b as [| | |[]| | | | | | | | | | | | | | | | | |]; done.
Qed.

Lemma equal_on_machine_without_width_witness :
  is_equal_on_machine TFloat TDouble x86_64 = true /\ type_eqb TFloat TDouble = false.
Proof.
  split; [apply (equal_on_machine_without_width TFloat TDouble x86_64); reflexivity | reflexivity].
Defined.

(** [Type::to_identifier] separates any two types that mention no tag, field or
    parameter list: on them, equal identifiers mean equal types. *)
Theorem to_identifier_plain (a b : Type_) :
  plain a = true -> plain b = true -> to_identifier a = to_identifier b <-> a = b.
Proof. intros Ha Hb. split; [by apply plain_identifier_inj | by intros ->]. Qed.

Lemma to_identifier_plain_witness :
  to_identifier (TPointer c_int) = to_identifier (TPointer c_char)
  <-> TPointer c_int = TPointer c_char.
Proof. apply (to_identifier_plain (TPointer c_int) (TPointer c_char)); reflexivity. Defined.

(** [Type::to_identifier] is not unique in general: types that the equality of types
    separates share an identifier, for instance an incomplete struct and an
    incomplete union with one tag, a struct whose tag starts with [tag_] and a
    struct tag, or an incomplete struct called [bool] and the type [bool]. *)
Theorem to_identifier_collides :
  Forall (fun p => to_identifier p.1 = to_identifier p.2 /\ type_eqb p.1 p.2 = false)
    [(TIncompleteStruct "x", TIncompleteUnion "x"); (TStruct "tag_x" [], TStructTag "x");
     (TIncompleteStruct "bool", TBool)].
Proof. repeat constructor; reflexivity. Qed.

(** Every integer type is signed or unsigned and not both, and has a native width
    on every machine. *)
Theorem integer_signedness (t : Type_) (mm : MachineModel) :
  is_integer t = true ->
  is_unsigned t mm = negb (is_signed t mm) /\ exists w, native_width t mm = Some w.
Proof. split; [by apply signed_unsigned_integer | by apply integer_native_width]. Qed.

Lemma integer_signedness_witness :
  is_unsigned c_int x86_64 = negb (is_signed c_int x86_64)
  /\ exists w, native_width c_int x86_64 = Some w.
Proof. apply (integer_signedness c_int x86_64). reflexivity. Defined.
