(* ===== verification/Ast.v ===== *)
(** * Expressions, statements and symbols: the data
    ([expr.rs], [stmt.rs], [symbol.rs], [symbol_table.rs] of [cbmc/src/goto_program])

    Expressions and statements are mutually recursive (statement expressions
    contain statements), and a symbol holds either.  Boxes are transparent;
    [f32]/[f64] constants are their bit patterns, the only view the crate takes
    of them ([transmute] in [to_irep.rs]); [BigInt] is [Z]. *)

From S2P Require Import Prelude CbmcString MachineModel Location Typ.

(** [enum BinaryOperand] *)
Inductive BinaryOperand :=
| OpAnd | OpAshr | OpBitand | OpBitor | OpBitxor | OpDiv | OpEqual | OpGe | OpGt
| OpIeeeFloatEqual | OpIeeeFloatNotequal | OpImplies | OpLe | OpLshr | OpLt | OpMinus
| OpMod | OpMult | OpNotequal | OpOr | OpOverflowMinus | OpOverflowMult | OpOverflowPlus
| OpPlus | OpRol | OpRor | OpShl | OpXor.

(** [enum SelfOperand] *)
Inductive SelfOperand := Postdecrement | Postincrement | Predecrement | Preincrement.

(** [enum UnaryOperand] *)
Inductive UnaryOperand :=
| Bitnot | Bswap | IsDynamicObject | Not | ObjectSize | PointerObject | PointerOffset
| Popcount | CountTrailingZeros (allow_zero : bool) | CountLeadingZeros (allow_zero : bool)
| UnaryMinus.

(** [struct Expr], [enum ExprValue], [struct Stmt], [enum StmtBody], [struct SwitchCase] *)
Inductive Expr : Type :=
| mkExpr (value : ExprValue) (typ : Type_) (location : Location)
with ExprValue : Type :=
| EAddressOf (e : Expr)
| EArray (elems : list Expr)
| EArrayOf (elem : Expr)
| EAssign (left right : Expr)
| EBinOp (op : BinaryOperand) (lhs rhs : Expr)
| EBoolConstant (c : bool)
| EByteExtract (e : Expr) (offset : N)
| ECBoolConstant (c : bool)
| EDereference (e : Expr)
| EDoubleConstant (bits : N)
| EFloatConstant (bits : N)
| EFunctionCall (function : Expr) (arguments : list Expr)
| EIf (c t e : Expr)
| EIndex (array index : Expr)
| EIntConstant (i : Z)
| EMember (lhs : Expr) (field : InternedString)
| ENondet
| EPointerConstant (c : N)
| ESelfOp (op : SelfOperand) (e : Expr)
| EStatementExpression (statements : list Stmt)
| EStringConstant (s : InternedString)
| EStruct (values : list Expr)
| ESymbol (identifier : InternedString)
| ETypecast (e : Expr)
| EUnion (value : Expr) (field : InternedString)
| EUnOp (op : UnaryOperand) (e : Expr)
| EVector (elems : list Expr)
with Stmt : Type :=
| mkStmt (body : StmtBody) (location : Location)
with StmtBody : Type :=
| SAssign (lhs rhs : Expr)
| SAssume (cond : Expr)
| SAtomicBlock (stmts : list Stmt)
| SBlock (stmts : list Stmt)
| SBreak
| SContinue
| SDecl (lhs : Expr) (value : option Expr)
| SExpression (e : Expr)
| SFor (init : Stmt) (cond : Expr) (update body : Stmt)
| SFunctionCall (lhs : option Expr) (function : Expr) (arguments : list Expr)
| SGoto (dest : InternedString)
| SIfthenelse (i : Expr) (t : Stmt) (e : option Stmt)
| SLabel (label : InternedString) (body : Stmt)
| SReturn (e : option Expr)
| SSkip
| SSwitch (control : Expr) (cases : list SwitchCase) (default : option Stmt)
| SWhile (cond : Expr) (body : Stmt)
with SwitchCase : Type :=
| mkSwitchCase (case : Expr) (body : Stmt).

(** ** Getters of [Expr], [Stmt] and [SwitchCase] *)

Definition typ (e : Expr) : Type_ := match e with mkExpr _ t _ => t end.
Definition value (e : Expr) : ExprValue := match e with mkExpr v _ _ => v end.
Definition expr_location (e : Expr) : Location := match e with mkExpr _ _ l => l end.
Definition body (s : Stmt) : StmtBody := match s with mkStmt b _ => b end.
Definition stmt_location (s : Stmt) : Location := match s with mkStmt _ l => l end.
Definition case (c : SwitchCase) : Expr := match c with mkSwitchCase e _ => e end.
Definition case_body (c : SwitchCase) : Stmt := match c with mkSwitchCase _ s => s end.

(** [Expr::with_location], [Stmt::with_location] *)
Definition with_location (e : Expr) (loc : Location) : Expr :=
  match e with mkExpr v t _ => mkExpr v t loc end.
Definition stmt_with_location (s : Stmt) (loc : Location) : Stmt :=
  match s with mkStmt b _ => mkStmt b loc end.

(** ** Symbols *)

(** [enum SymbolModes] *)
Inductive SymbolModes := ModeC | ModeRust.

(** [enum SymbolValues] *)
Inductive SymbolValues :=
| SVExpr (e : Expr)
| SVStmt (s : Stmt)
| SVNone.

(** [struct Symbol] *)
Record Symbol := mkSymbol {
  sym_name : InternedString;
  sym_location : Location;
  sym_typ : Type_;
  sym_value : SymbolValues;
  sym_base_name : option InternedString;
  sym_pretty_name : option InternedString;
  sym_module : option InternedString;
  sym_mode : SymbolModes;
  is_exported : bool;
  is_input : bool;
  is_macro : bool;
  is_output : bool;
  is_property : bool;
  is_state_var : bool;
  is_type : bool;
  is_auxiliary : bool;
  is_extern : bool;
  is_file_local : bool;
  sym_is_lvalue : bool;
  is_parameter : bool;
  is_static_lifetime : bool;
  is_thread_local : bool;
  is_volatile : bool;
  is_weak : bool;
}.

(** ** Induction on expressions and statements

    [value_all] and [body_all] collect the immediate sub-expressions and
    sub-statements of a node, so that one induction hypothesis serves every
    constructor. *)

Section AstInduction.
Variable PE : Expr -> Prop.
Variable PS : Stmt -> Prop.

Definition option_all {A} (P : A -> Prop) (o : option A) : Prop :=
  match o with None => True | Some a => P a end.

Definition case_all (c : SwitchCase) : Prop :=
  match c with mkSwitchCase e s => PE e /\ PS s end.

Definition value_all (v : ExprValue) : Prop :=
  match v with
  | EAddressOf e | EArrayOf e | EByteExtract e _ | EDereference e | EMember e _ | ESelfOp _ e
  | ETypecast e | EUnion e _ | EUnOp _ e => PE e
  | EArray es | EStruct es | EVector es => Forall PE es
  | EAssign a b | EBinOp _ a b | EIndex a b => PE a /\ PE b
  | EFunctionCall f es => PE f /\ Forall PE es
  | EIf c t e => PE c /\ PE t /\ PE e
  | EStatementExpression ss => Forall PS ss
  | EBoolConstant _ | ECBoolConstant _ | EDoubleConstant _ | EFloatConstant _
  | EIntConstant _ | ENondet | EPointerConstant _ | EStringConstant _ | ESymbol _ => True
  end.

Definition body_all (b : StmtBody) : Prop :=
  match b with
  | SAssign l r => PE l /\ PE r
  | SAssume c => PE c
  | SAtomicBlock ss | SBlock ss => Forall PS ss
  | SDecl l v => PE l /\ option_all PE v
  | SExpression e => PE e
  | SFor i c u b => PS i /\ PE c /\ PS u /\ PS b
  | SFunctionCall l f es => option_all PE l /\ PE f /\ Forall PE es
  | SIfthenelse i t e => PE i /\ PS t /\ option_all PS e
  | SLabel _ b => PS b
  | SReturn e => option_all PE e
  | SSwitch c cs d => PE c /\ Forall case_all cs /\ option_all PS d
  | SWhile c b => PE c /\ PS b
  | SBreak | SContinue | SGoto _ | SSkip => True
  end.

Hypothesis HE : forall v t l, value_all v -> PE (mkExpr v t l).
Hypothesis HS : forall b l, body_all b -> PS (mkStmt b l).

Definition Forall_map_proof {A} (P : A -> Prop) (f : forall a, P a) : forall l, Forall P l :=
  fix go l := match l with
              | [] => Forall_nil_2 _
              | a :: l => Forall_cons_2 _ _ _ (f a) (go l)
              end.

Definition option_map_proof {A} (P : A -> Prop) (f : forall a, P a) (o : option A) :
    option_all P o :=
  match o with None => I | Some a => f a end.

Fixpoint expr_ind (e : Expr) : PE e :=
  match e with mkExpr v t l => HE v t l (value_ind v) end
with value_ind (v : ExprValue) : value_all v :=
  match v with
  | EAddressOf e | EArrayOf e | EByteExtract e _ | EDereference e | EMember e _ | ESelfOp _ e
  | ETypecast e | EUnion e _ | EUnOp _ e => expr_ind e
  | EArray es | EStruct es | EVector es => Forall_map_proof PE expr_ind es
  | EAssign a b | EBinOp _ a b | EIndex a b => conj (expr_ind a) (expr_ind b)
  | EFunctionCall f es => conj (expr_ind f) (Forall_map_proof PE expr_ind es)
  | EIf c t e => conj (expr_ind c) (conj (expr_ind t) (expr_ind e))
  | EStatementExpression ss => Forall_map_proof PS stmt_ind ss
  | EBoolConstant _ | ECBoolConstant _ | EDoubleConstant _ | EFloatConstant _
  | EIntConstant _ | ENondet | EPointerConstant _ | EStringConstant _ | ESymbol _ => I
  end
with stmt_ind (s : Stmt) : PS s :=
  match s with mkStmt b l => HS b l (body_ind b) end
with body_ind (b : StmtBody) : body_all b :=
  match b with
  | SAssign l r => conj (expr_ind l) (expr_ind r)
  | SAssume c => expr_ind c
  | SAtomicBlock ss | SBlock ss => Forall_map_proof PS stmt_ind ss
  | SDecl l v => conj (expr_ind l) (option_map_proof PE expr_ind v)
  | SExpression e => expr_ind e
  | SFor i c u b => conj (stmt_ind i) (conj (expr_ind c) (conj (stmt_ind u) (stmt_ind b)))
  | SFunctionCall l f es =>
      conj (option_map_proof PE expr_ind l)
        (conj (expr_ind f) (Forall_map_proof PE expr_ind es))
  | SIfthenelse i t e =>
      conj (expr_ind i) (conj (stmt_ind t) (option_map_proof PS stmt_ind e))
  | SLabel _ b => stmt_ind b
  | SReturn e => option_map_proof PE expr_ind e
  | SSwitch c cs d =>
      conj (expr_ind c)
        (conj (Forall_map_proof case_all case_ind cs) (option_map_proof PS stmt_ind d))
  | SWhile c b => conj (expr_ind c) (stmt_ind b)
  | SBreak | SContinue | SGoto _ | SSkip => I
  end
with case_ind (c : SwitchCase) : case_all c :=
  match c with mkSwitchCase e s => conj (expr_ind e) (stmt_ind s) end.

Lemma ast_mutual_ind : (forall e, PE e) /\ (forall s, PS s).
Proof using HE HS. exact (conj expr_ind stmt_ind). Qed.
End AstInduction.

(** *** Type annotations

    [expr_types_all e] checks the type annotation of every expression inside
    [e] with [p], and likewise for statements. *)

Section TypesAll.
Variable p : Type_ -> bool.

Fixpoint expr_types_all (e : Expr) : bool :=
  match e with mkExpr v t _ => p t && value_types_all v end
with value_types_all (v : ExprValue) : bool :=
  match v with
  | EAddressOf e | EArrayOf e | EByteExtract e _ | EDereference e | EMember e _ | ESelfOp _ e
  | ETypecast e | EUnion e _ | EUnOp _ e => expr_types_all e
  | EArray es | EStruct es | EVector es => forallb expr_types_all es
  | EAssign a b | EBinOp _ a b | EIndex a b => expr_types_all a && expr_types_all b
  | EFunctionCall f es => expr_types_all f && forallb expr_types_all es
  | EIf c t e => expr_types_all c && (expr_types_all t && expr_types_all e)
  | EStatementExpression ss => forallb stmt_types_all ss
  | EBoolConstant _ | ECBoolConstant _ | EDoubleConstant _ | EFloatConstant _
  | EIntConstant _ | ENondet | EPointerConstant _ | EStringConstant _ | ESymbol _ => true
  end
with stmt_types_all (s : Stmt) : bool :=
  match s with mkStmt b _ => body_types_all b end
with body_types_all (b : StmtBody) : bool :=
  match b with
  | SAssign l r => expr_types_all l && expr_types_all r
  | SAssume c => expr_types_all c
  | SAtomicBlock ss | SBlock ss => forallb stmt_types_all ss
  | SDecl l v => expr_types_all l && match v with None => true | Some e => expr_types_all e end
  | SExpression e => expr_types_all e
  | SFor i c u b =>
      stmt_types_all i && (expr_types_all c && (stmt_types_all u && stmt_types_all b))
  | SFunctionCall l f es =>
      match l with None => true | Some e => expr_types_all e end
      && (expr_types_all f && forallb expr_types_all es)
  | SIfthenelse i t e =>
      expr_types_all i
      && (stmt_types_all t && match e with None => true | Some e => stmt_types_all e end)
  | SLabel _ b => stmt_types_all b
  | SReturn e => match e with None => true | Some e => expr_types_all e end
  | SSwitch c cs d =>
      forallb case_types_all cs
      && (match d with None => true | Some s => stmt_types_all s end && expr_types_all c)
  | SWhile c b => expr_types_all c && stmt_types_all b
  | SBreak | SContinue | SGoto _ | SSkip => true
  end
with case_types_all (c : SwitchCase) : bool :=
  match c with mkSwitchCase e s => expr_types_all e && stmt_types_all s end.
End TypesAll.
