(* ===== verification/SymbolTable.v ===== *)
(** * The symbol table ([cbmc/src/goto_program/symbol_table.rs])

    The table is a map from names to symbols with a machine model; the field is
    private and [insert], [replace] and [update_fn_declaration_with_definition]
    are the only ways to change it.  The invariant [symtab_ok] (every symbol is
    stored under its own name) holds of the empty table and is preserved by each
    of them; [table_op] are all the public operations ([ensure] and
    [replace_with_completion] are made of the three).  The file also has the parts of [typ.rs] that consult the table:
    [sizeof_in_bits], whose recursion goes through the tags in the table, and
    [struct_field_types].  [SymbolTable::new] is in [Env.v]. *)

From S2P Require Import Prelude CbmcString MachineModel Location Typ Ast.

(** ** Predicates on symbols ([symbol.rs]) *)

Definition value_is_expr (v : SymbolValues) : bool :=
  match v with SVExpr _ => true | SVNone | SVStmt _ => false end.
Definition value_is_none (v : SymbolValues) : bool :=
  match v with SVNone => true | SVExpr _ | SVStmt _ => false end.
Definition value_is_stmt (v : SymbolValues) : bool :=
  match v with SVStmt _ => true | SVExpr _ | SVNone => false end.

Definition is_function (s : Symbol) : bool := is_code (sym_typ s) || is_variadic_code (sym_typ s).

Definition is_function_declaration (s : Symbol) : bool :=
  is_function s && value_is_none (sym_value s).

Definition is_function_definition (s : Symbol) : bool :=
  is_function s && value_is_stmt (sym_value s).

(** [Symbol::completes] *)
Definition symbol_completes (s : Symbol) (old_symbol : option Symbol) : bool :=
  match old_symbol with
  | Some old => completes (sym_typ s) (sym_typ old)
  | None => false
  end.

(** Field updates of a symbol ([self.value = ...]). *)
Definition set_value (s : Symbol) (v : SymbolValues) : Symbol :=
  mkSymbol (sym_name s) (sym_location s) (sym_typ s) v (sym_base_name s) (sym_pretty_name s)
    (sym_module s) (sym_mode s) (is_exported s) (is_input s) (is_macro s) (is_output s)
    (is_property s) (is_state_var s) (is_type s) (is_auxiliary s) (is_extern s)
    (is_file_local s) (sym_is_lvalue s) (is_parameter s) (is_static_lifetime s)
    (is_thread_local s) (is_volatile s) (is_weak s).

(** [Symbol::update_fn_declaration_with_definition] *)
Definition symbol_update_fn_declaration (s : Symbol) (b : Stmt) : outcome Symbol :=
  assert! is_function_declaration s;
  Ok (set_value s (SVStmt b)).

(** ** The table *)

(** [struct SymbolTable] *)
Record SymbolTable := mkSymbolTable {
  symbol_table : gmap InternedString Symbol;
  machine_model : MachineModel;
}.

Definition lookup (st : SymbolTable) (name : InternedString) : option Symbol :=
  symbol_table st !! name.

Definition contains (st : SymbolTable) (name : InternedString) : bool :=
  bool_decide (is_Some (symbol_table st !! name)).

(** [SymbolTable::iter] *)
Definition iter `{InternOrder} (st : SymbolTable) : list (InternedString * Symbol) :=
  btree_iter (symbol_table st).

(** [BTreeMap::insert] on the private field. *)
Definition raw_insert (st : SymbolTable) (s : Symbol) : SymbolTable :=
  mkSymbolTable (<[sym_name s := s]> (symbol_table st)) (machine_model st).

Definition insert (st : SymbolTable) (s : Symbol) : outcome SymbolTable :=
  assert! bool_decide (lookup st (sym_name s) = None);
  Ok (raw_insert st s).

(** [SymbolTable::ensure]: the symbol, and the table it is now in. *)
Definition ensure (st : SymbolTable) (name : InternedString)
    (f : SymbolTable -> InternedString -> outcome Symbol) : outcome (Symbol * SymbolTable) :=
  st ← (if contains st name then Ok st
        else sym ← f st name;
             assert! String.eqb (sym_name sym) name;
             insert st sym);
  sym ← unwrap (lookup st name);
  Ok (sym, st).

(** [SymbolTable::replace] *)
Definition replace (st : SymbolTable) (checker_fn : option Symbol -> bool)
    (new_value : Symbol) : outcome SymbolTable :=
  let old_value := lookup st (sym_name new_value) in
  assert! checker_fn old_value;
  Ok (raw_insert st new_value).

Definition replace_with_completion (st : SymbolTable) (new_symbol : Symbol) :
    outcome SymbolTable :=
  replace st (fun old_symbol => symbol_completes new_symbol old_symbol) new_symbol.

Definition update_fn_declaration_with_definition (st : SymbolTable) (name : InternedString)
    (b : Stmt) : outcome SymbolTable :=
  s ← unwrap (symbol_table st !! name);
  s' ← symbol_update_fn_declaration s b;
  Ok (mkSymbolTable (<[name := s']> (symbol_table st)) (machine_model st)).

(** ** Fields *)

Definition lookup_components (st : SymbolTable) (aggr_name : InternedString) :
    option (list DatatypeComponent) :=
  match lookup st aggr_name with Some x => components (sym_typ x) | None => None end.

Definition lookup_components_in_type (st : SymbolTable) (base_type : Type_) :
    option (list DatatypeComponent) :=
  match type_name base_type with
  | Some aggr_name => lookup_components st aggr_name
  | None => None
  end.

(** [Iterator::find] *)
Definition find_component (fields : list DatatypeComponent) (field_name : InternedString) :
    option DatatypeComponent :=
  List.find (fun field => String.eqb (component_name field) field_name) fields.

Definition lookup_field_type (st : SymbolTable) (aggr_name field_name : InternedString) :
    option Type_ :=
  match lookup_components st aggr_name with
  | Some fields =>
      match find_component fields field_name with
      | Some field => field_typ field
      | None => None
      end
  | None => None
  end.

Definition lookup_field_type_in_type (st : SymbolTable) (base_type : Type_)
    (field_name : InternedString) : option Type_ :=
  match type_name base_type with
  | Some aggr_name => lookup_field_type st aggr_name field_name
  | None => None
  end.

Definition lookup_fields_in_type (st : SymbolTable) (base_type : Type_) :
    option (list DatatypeComponent) :=
  match type_name base_type with
  | Some aggr_name =>
      match lookup st aggr_name with Some x => components (sym_typ x) | None => None end
  | None => None
  end.

(** [Type::struct_field_types]: fields that are not padding, with their types. *)
Definition struct_field_types (t : Type_) (st : SymbolTable) : outcome (gmap InternedString Type_) :=
  assert! is_struct_tag t;
  fields ← unwrap (lookup_fields_in_type st t);
  foldl (fun types f =>
           types ← types;
           if is_padding f then Ok types
           else ft ← component_typ f; Ok (<[component_name f := ft]> types))
        (Ok ∅) fields.

(** ** Sizes *)

(** [CIntType::sizeof_in_bits] *)
Definition c_int_sizeof_in_bits (t : CIntType) (st : SymbolTable) : N :=
  match t with
  | CBool => bool_width (machine_model st)
  | CChar => char_width (machine_model st)
  | CInt => int_width (machine_model st)
  | CSizeT => pointer_width (machine_model st)
  | CSSizeT => pointer_width (machine_model st)
  end.

(** [iter().sum()] and [iter().max().unwrap_or(0)] over the sizes. *)
Fixpoint sum_u64 (acc : N) (l : list (fuelled N)) : fuelled N :=
  match l with
  | [] => mret acc
  | m :: l => n ← m; acc ← Done (u64_add acc n); sum_u64 acc l
  end.

Fixpoint max_u64 (acc : N) (l : list (fuelled N)) : fuelled N :=
  match l with
  | [] => mret acc
  | m :: l => n ← m; max_u64 (N.max acc n) l
  end.

(** The body of [Type::sizeof_in_bits], with [tag_size] for the sizes of tags. *)
Fixpoint size_with (st : SymbolTable) (tag_size : InternedString -> fuelled N) (t : Type_) :
    fuelled N :=
  let component_size c :=
    match c with
    | Field _ typ => size_with st tag_size typ
    | Padding _ bits => Done (rassert (0 <? bits)%N ≫= fun _ => Ok bits)
    end in
  match t with
  | TArray typ size => n ← size_with st tag_size typ; Done (u64_mul n size)
  | TBool => Done Panic
  | TCBitField _ _ => Done Panic
  | TCInteger t => mret (c_int_sizeof_in_bits t st)
  | TCode _ _ => mret 0%N
  | TConstructor => Done Panic
  | TDouble => mret (double_width (machine_model st))
  | TEmpty => mret 0%N
  | TFlexibleArray _ => mret 0%N
  | TFloat => mret (float_width (machine_model st))
  | TIncompleteStruct _ => Done Panic
  | TIncompleteUnion _ => Done Panic
  | TInfiniteArray _ => Done Panic
  | TPointer _ => mret (pointer_width (machine_model st))
  | TSignedbv width => mret width
  | TStruct _ components => sum_u64 0 (map component_size components)
  | TStructTag tag => tag_size tag
  | TUnion _ components => max_u64 0 (map component_size components)
  | TUnionTag tag => tag_size tag
  | TUnsignedbv width => mret width
  | TVariadicCode _ _ => Done Panic
  | TVector typ size => n ← size_with st tag_size typ; Done (u64_mul n size)
  end.

(** [st.lookup(tag).unwrap().typ.sizeof_in_bits(st)], unfolding at most [n] tags. *)
Fixpoint tag_sizeof (n : nat) (st : SymbolTable) (tag : InternedString) : fuelled N :=
  match n with
  | 0 => OutOfFuel
  | S n =>
      match lookup st tag with
      | None => Done Panic
      | Some s => size_with st (tag_sizeof n st) (sym_typ s)
      end
  end.

(** Unfolding as many tags as there are symbols, plus one, is enough:
    [tag_sizeof_stable] below. *)
Definition sizeof_fuel (st : SymbolTable) : nat := S (size (symbol_table st)).

(** [Type::sizeof_in_bits] *)
Definition sizeof_in_bits (t : Type_) (st : SymbolTable) : outcome N :=
  run (size_with st (tag_sizeof (sizeof_fuel st) st) t).

(** [Type::sizeof] *)
Definition sizeof (t : Type_) (st : SymbolTable) : outcome N :=
  bits ← sizeof_in_bits t st;
  let cw := char_width (machine_model st) in
  assert! (0 <? cw)%N;
  assert! (bits mod cw =? 0)%N;
  Ok (bits / cw)%N.

(** ** Enough fuel for [sizeof_in_bits]

    A recursion that unfolds more tags than the table has symbols has met some
    tag twice, so it never ends.  The argument goes through the sizes of tags:
    [extends] compares two approximations of them. *)

Definition extends (r r' : InternedString -> fuelled N) : Prop :=
  forall tag, r tag <> OutOfFuel -> r' tag = r tag.

Section Fuel.
Variable st : SymbolTable.
Implicit Types r : InternedString -> fuelled N.

Definition component_size r (c : DatatypeComponent) : fuelled N :=
  match c with
  | Field _ typ => size_with st r typ
  | Padding _ bits => Done (rassert (0 <? bits)%N ≫= fun _ => Ok bits)
  end.

(** What is known with less fuel is kept with more. *)
Definition monotone {A} (f : (InternedString -> fuelled N) -> A -> fuelled N) (a : A) : Prop :=
  forall r r', extends r r' -> f r a <> OutOfFuel -> f r' a = f r a.

(** Running out of fuel is the fault of one tag, for every better approximation. *)
Definition blocked {A} (f : (InternedString -> fuelled N) -> A -> fuelled N) (a : A) : Prop :=
  forall r, f r a = OutOfFuel ->
  exists tag, r tag = OutOfFuel /\
    forall r', extends r r' -> r' tag = OutOfFuel -> f r' a = OutOfFuel.

Lemma sum_monotone cs acc :
  Forall (monotone component_size) cs ->
  monotone (fun r cs => sum_u64 acc (map (component_size r) cs)) cs.
Proof.
  intros H r r' Hr. revert acc. induction H as [|c cs Hc H IH]; intros acc; cbn; [done|].
  specialize (Hc r r' Hr). destruct (component_size r c) as [[n|]|] eqn:E; cbn; intros Hne.
  - rewrite (Hc ltac:(done)). cbn. destruct (u64_add acc n); cbn in *; [auto|done].
  - by rewrite (Hc ltac:(done)).
  - done.
Qed.

Lemma max_monotone cs acc :
  Forall (monotone component_size) cs ->
  monotone (fun r cs => max_u64 acc (map (component_size r) cs)) cs.
Proof.
  intros H r r' Hr. revert acc. induction H as [|c cs Hc H IH]; intros acc; cbn; [done|].
  specialize (Hc r r' Hr). destruct (component_size r c) as [[n|]|] eqn:E; cbn; intros Hne.
  - rewrite (Hc ltac:(done)). cbn. auto.
  - by rewrite (Hc ltac:(done)).
  - done.
Qed.

Lemma component_monotone c :
  component_all (monotone (size_with st)) c -> monotone component_size c.
Proof. by destruct c; intros H r r' Hr ?; cbn in *; auto. Qed.

Lemma size_with_monotone t : monotone (size_with st) t.
Proof.
  induction t using Type_rect'; intros r r' Hr; cbn [size_with]; try done.
  - destruct (size_with st r t) as [[m|]|] eqn:E; cbn; try done; intros _;
      by rewrite (IHt r r' Hr), E by (by rewrite E).
  - apply (sum_monotone cs 0); [|done]. eapply Forall_impl; [eassumption | apply component_monotone].
  - apply Hr.
  - apply (max_monotone cs 0); [|done]. eapply Forall_impl; [eassumption | apply component_monotone].
  - apply Hr.
  - destruct (size_with st r t) as [[m|]|] eqn:E; cbn; try done; intros _;
      by rewrite (IHt r r' Hr), E by (by rewrite E).
Qed.

Lemma sum_blocked cs acc :
  Forall (monotone component_size) cs -> Forall (blocked component_size) cs ->
  blocked (fun r cs => sum_u64 acc (map (component_size r) cs)) cs.
Proof.
  intros Hm Hb r. revert acc. induction Hm as [|c cs Hc Hm IH]; intros acc; cbn; [done|].
  inversion Hb as [|? ? Hbc Hb']; subst.
  destruct (component_size r c) as [[n|]|] eqn:E; cbn; intros Hof; try done.
  - destruct (u64_add acc n) as [acc'|] eqn:Ea; cbn in Hof; [|done].
    destruct (IH Hb' acc' Hof) as (tag & Ht & Hk). exists tag. split; [done|].
    intros r' Hr Ht'. rewrite (Hc r r' Hr), E by (by rewrite E). cbn. rewrite Ea. cbn. auto.
  - destruct (Hbc r E) as (tag & Ht & Hk). exists tag. split; [done|].
    intros r' Hr Ht'. by rewrite (Hk r' Hr Ht').
Qed.

Lemma max_blocked cs acc :
  Forall (monotone component_size) cs -> Forall (blocked component_size) cs ->
  blocked (fun r cs => max_u64 acc (map (component_size r) cs)) cs.
Proof.
  intros Hm Hb r. revert acc. induction Hm as [|c cs Hc Hm IH]; intros acc; cbn; [done|].
  inversion Hb as [|? ? Hbc Hb']; subst.
  destruct (component_size r c) as [[n|]|] eqn:E; cbn; intros Hof; try done.
  - destruct (IH Hb' _ Hof) as (tag & Ht & Hk). exists tag. split; [done|].
    intros r' Hr Ht'. rewrite (Hc r r' Hr), E by (by rewrite E). cbn. auto.
  - destruct (Hbc r E) as (tag & Ht & Hk). exists tag. split; [done|].
    intros r' Hr Ht'. by rewrite (Hk r' Hr Ht').
Qed.

Lemma components_monotone cs : Forall (monotone component_size) cs.
Proof.
  apply Forall_forall. intros [n t|n b] _; [|done]. intros r r' Hr. apply size_with_monotone, Hr.
Qed.

Lemma component_blocked c :
  component_all (blocked (size_with st)) c -> blocked component_size c.
Proof. destruct c; intros H r Hr; cbn in *; [by apply H | done]. Qed.

Lemma size_with_blocked t : blocked (size_with st) t.
Proof.
  induction t using Type_rect'; intros r; cbn [size_with]; try done.
  1, 6: destruct (size_with st r t) as [[m|]|] eqn:E; cbn; try done; intros _;
     destruct (IHt r E) as (tag & Ht & Hk); exists tag; split; [done|];
     intros r' Hr Ht'; by rewrite (Hk r' Hr Ht').
  - apply (sum_blocked cs 0); [apply components_monotone|].
    eapply Forall_impl; [eassumption | apply component_blocked].
  - eauto.
  - apply (max_blocked cs 0); [apply components_monotone|].
    eapply Forall_impl; [eassumption | apply component_blocked].
  - eauto.
Qed.

Lemma tag_sizeof_extends n : extends (tag_sizeof n st) (tag_sizeof (S n) st).
Proof.
  induction n as [|n IH]; intros tag Hne; [done|].
  cbn in Hne |- *. destruct (lookup st tag) as [s|]; [|done].
  by apply (size_with_monotone (sym_typ s)).
Qed.

Lemma tag_sizeof_extends_le n m : n <= m -> extends (tag_sizeof n st) (tag_sizeof m st).
Proof.
  induction 1 as [|m Hle IH]; intros tag Hne; [done|].
  rewrite <- (IH tag Hne). apply tag_sizeof_extends. by rewrite (IH tag Hne).
Qed.

(** [waits n a b]: with [n] unfoldings left, the size of [a] waits for that of [b]. *)
Definition waits (n : nat) (a b : InternedString) : Prop :=
  forall m, n <= m -> tag_sizeof m st b = OutOfFuel -> tag_sizeof (S m) st a = OutOfFuel.

Lemma tag_sizeof_waits n a :
  tag_sizeof (S n) st a = OutOfFuel ->
  is_Some (lookup st a) /\ exists b, tag_sizeof n st b = OutOfFuel /\ waits n a b.
Proof.
  cbn. destruct (lookup st a) as [s|] eqn:Es; [|done]. intros Hof. split; [done|].
  destruct (size_with_blocked (sym_typ s) _ Hof) as (b & Hb & Hk). exists b. split; [done|].
  intros m Hle Hm. cbn. rewrite Es. apply Hk; [|done]. by apply tag_sizeof_extends_le.
Qed.

(** A chain of waiting tags: [chain n a l] ends after [length l] steps. *)
Inductive chain : nat -> InternedString -> list InternedString -> Prop :=
| chain_nil n a : tag_sizeof n st a = OutOfFuel -> chain n a []
| chain_cons n a b l :
    is_Some (lookup st a) -> waits n a b -> chain n b l -> chain (S n) a (a :: l).

Lemma chain_exists n a : tag_sizeof n st a = OutOfFuel -> exists l, chain n a l /\ length l = n.
Proof.
  revert a. induction n as [|n IH]; intros a H.
  - exists []. split; [by constructor | done].
  - destruct (tag_sizeof_waits n a H) as (Ha & b & Hb & Hw).
    destruct (IH b Hb) as (l & Hl & Hlen). exists (a :: l). split; [by econstructor|].
    cbn. by rewrite Hlen.
Qed.

Lemma chain_dom n a l x : chain n a l -> x ∈ l -> x ∈ dom (symbol_table st).
Proof.
  induction 1 as [|n a b l Ha Hw Hc IH]; intros Hx; [by apply not_elem_of_nil in Hx|].
  apply elem_of_cons in Hx as [->|Hx]; [|auto]. by apply elem_of_dom.
Qed.

(** Along a chain, running out of fuel moves from any later tag back to the first. *)
Lemma chain_back n a l x : chain n a l -> x ∈ l ->
  exists d k, d + k = n /\ tag_sizeof k st x = OutOfFuel /\
    forall m, k <= m -> tag_sizeof m st x = OutOfFuel -> tag_sizeof (d + m) st a = OutOfFuel.
Proof.
  induction 1 as [|n a b l Ha Hw Hc IH]; intros Hx; [by apply not_elem_of_nil in Hx|].
  assert (Hof : forall n a l, chain n a l -> tag_sizeof n st a = OutOfFuel).
  { clear. induction 1 as [|n a b l Ha Hw Hc IH]; [done|]. by apply Hw. }
  apply elem_of_cons in Hx as [->|Hx].
  - exists 0, (S n). repeat split; [|auto]. eapply Hof. by econstructor.
  - destruct (IH Hx) as (d & k & E & Hk & Hm). exists (S d), k. repeat split; [lia|done|].
    intros m Hle Hx'. cbn [Nat.add]. apply Hw; [lia|]. auto.
Qed.

Lemma chain_forever n a b l : chain n b l -> waits n a b -> is_Some (lookup st a) -> a ∈ l ->
  forall m, tag_sizeof m st a = OutOfFuel.
Proof.
  intros Hc Hw Ha Hin m.
  destruct (chain_back n b l a Hc Hin) as (d & k & E & Hk & Hback).
  assert (Hloop : forall j, tag_sizeof (j * S d + k) st a = OutOfFuel).
  { induction j as [|j IHj]; [done|].
    replace (S j * S d + k) with (S (d + (j * S d + k))) by lia.
    apply Hw; [lia|]. apply Hback; [lia | done]. }
  destruct (tag_sizeof m st a) eqn:Em; [|done].
  pose proof (tag_sizeof_extends_le m (m * S d + k) ltac:(lia) a) as Hx.
  rewrite Em, Hloop in Hx. by discriminate Hx.
Qed.

Lemma chain_dup_forever n a l : chain n a l -> ~ NoDup l ->
  forall m, n <= m -> tag_sizeof m st a = OutOfFuel.
Proof.
  induction 1 as [|n a b l Ha Hw Hc IH]; intros Hnd m Hle; [by destruct Hnd; constructor|].
  destruct m as [|m]; [lia|]. destruct (decide (a ∈ l)) as [Hin|Hnin].
  - by eapply chain_forever.
  - apply Hw; [lia|]. apply IH; [|lia]. intros Hl. apply Hnd. by constructor.
Qed.

Lemma tag_sizeof_out_forever a :
  tag_sizeof (sizeof_fuel st) st a = OutOfFuel ->
  forall m, sizeof_fuel st <= m -> tag_sizeof m st a = OutOfFuel.
Proof.
  intros H. destruct (chain_exists _ _ H) as (l & Hc & Hlen).
  apply (chain_dup_forever _ _ l Hc). intros Hnd.
  assert (Hsub : list_to_set l ⊆ dom (symbol_table st)).
  { intros x Hx%elem_of_list_to_set. by eapply chain_dom. }
  apply subseteq_size in Hsub. rewrite size_list_to_set, size_dom in Hsub by done.
  unfold sizeof_fuel in Hlen. lia.
Qed.

(** The fuel of [sizeof_in_bits] is enough: more changes nothing. *)
Lemma tag_sizeof_stable m a :
  sizeof_fuel st <= m -> tag_sizeof m st a = tag_sizeof (sizeof_fuel st) st a.
Proof.
  intros Hle. destruct (tag_sizeof (sizeof_fuel st) st a) as [o|] eqn:E.
  - rewrite <- E. apply tag_sizeof_extends_le; [done|]. by rewrite E.
  - by apply tag_sizeof_out_forever.
Qed.
End Fuel.

(** The recursion equation of [sizeof_in_bits] on tags. *)
Lemma tag_sizeof_unfold st tag :
  run (tag_sizeof (sizeof_fuel st) st tag) =
  match lookup st tag with
  | None => Panic
  | Some s => sizeof_in_bits (sym_typ s) st
  end.
Proof.
  rewrite <- (tag_sizeof_stable st (S (sizeof_fuel st))) by lia. cbn [tag_sizeof].
  by destruct (lookup st tag).
Qed.

Lemma sizeof_in_bits_struct_tag st tag :
  sizeof_in_bits (TStructTag tag) st =
  match lookup st tag with None => Panic | Some s => sizeof_in_bits (sym_typ s) st end.
Proof. apply tag_sizeof_unfold. Qed.

Lemma sizeof_in_bits_union_tag st tag :
  sizeof_in_bits (TUnionTag tag) st =
  match lookup st tag with None => Panic | Some s => sizeof_in_bits (sym_typ s) st end.
Proof. apply tag_sizeof_unfold. Qed.

Lemma run_bind {A B} (m : fuelled A) (f : A -> fuelled B) :
  run (m ≫= f) = run m ≫= fun a => run (f a).
Proof. by destruct m as [[]|]. Qed.

Lemma sizeof_in_bits_array st t n :
  sizeof_in_bits (TArray t n) st = sizeof_in_bits t st ≫= fun b => u64_mul b n.
Proof. unfold sizeof_in_bits. cbn [size_with]. by rewrite run_bind. Qed.

(** The size of a struct is the sum of the sizes of its components (padding
    included), the size of a union their maximum, as long as the sum fits [u64]. *)
Definition component_sizeof (st : SymbolTable) (c : DatatypeComponent) : outcome N :=
  t ← component_typ c; sizeof_in_bits t st.

Lemma component_size_run st c :
  run (component_size st (tag_sizeof (sizeof_fuel st) st) c) = component_sizeof st c.
Proof.
  destruct c as [n t|n b]; cbn; [done|]. unfold component_sizeof, component_typ, unsigned_int.
  by destruct (0 <? b)%N.
Qed.

Lemma sum_u64_run acc l ns :
  Forall2 (fun m n => run m = Ok n) l ns ->
  run (sum_u64 acc l) = foldl (fun o n => a ← o; u64_add a n) (Ok acc) ns.
Proof.
  intros H. revert acc. induction H as [|m n l ns Hm H IH]; intros acc; cbn; [done|].
  rewrite run_bind, Hm. cbn. destruct (u64_add acc n); cbn; [apply IH|].
  clear. induction ns; cbn; auto.
Qed.

Lemma max_u64_run acc l ns :
  Forall2 (fun m n => run m = Ok n) l ns -> run (max_u64 acc l) = Ok (foldl N.max acc ns).
Proof.
  intros H. revert acc. induction H as [|m n l ns Hm H IH]; intros acc; cbn; [done|].
  rewrite run_bind, Hm. cbn. apply IH.
Qed.

Lemma component_sizes_run st cs ns :
  map_outcome (component_sizeof st) cs = Ok ns ->
  Forall2 (fun m n => run m = Ok n) (map (component_size st (tag_sizeof (sizeof_fuel st) st)) cs) ns.
Proof.
  rewrite map_outcome_ok. intros H. apply Forall2_fmap_l. eapply Forall2_impl; [exact H|].
  intros c n Hc. exact (eq_trans (component_size_run st c) Hc).
Qed.

Lemma sum_checked acc ns :
  (acc + foldr N.add 0 ns <= u64_max)%N ->
  foldl (fun o n => a ← o; u64_add a n) (Ok acc) ns = Ok (acc + foldr N.add 0 ns)%N.
Proof.
  revert acc. induction ns as [|n ns IH]; intros acc; cbn; [by rewrite N.add_0_r|].
  intros H. assert (u64_add acc n = Ok (acc + n)%N) as ->.
  { apply u64_add_ok. split; [done|]. lia. }
  rewrite IH by lia. f_equal. lia.
Qed.

Lemma sizeof_in_bits_struct st tag cs ns :
  map_outcome (component_sizeof st) cs = Ok ns -> (foldr N.add 0 ns <= u64_max)%N ->
  sizeof_in_bits (TStruct tag cs) st = Ok (foldr N.add 0 ns)%N.
Proof.
  intros H%component_sizes_run Hle. unfold sizeof_in_bits.
  change (size_with st (tag_sizeof (sizeof_fuel st) st) (TStruct tag cs))
    with (sum_u64 0 (map (component_size st (tag_sizeof (sizeof_fuel st) st)) cs)).
  rewrite (sum_u64_run _ _ _ H). rewrite sum_checked by lia. f_equal.
Qed.

Lemma sizeof_in_bits_union st tag cs ns :
  map_outcome (component_sizeof st) cs = Ok ns ->
  sizeof_in_bits (TUnion tag cs) st = Ok (foldl N.max 0 ns)%N.
Proof.
  intros H%component_sizes_run. unfold sizeof_in_bits.
  change (size_with st (tag_sizeof (sizeof_fuel st) st) (TUnion tag cs))
    with (max_u64 0 (map (component_size st (tag_sizeof (sizeof_fuel st) st)) cs)).
  apply (max_u64_run _ _ _ H).
Qed.

(** Parameter names are irrelevant to sizes. *)
Lemma size_with_erase st r t : size_with st r (erase t) = size_with st r t.
Proof.
  induction t using Type_rect'; cbn; try done; try by rewrite IHt.
  all: rewrite map_map; f_equal; apply map_ext_Forall; eapply Forall_impl; [eassumption|];
    by intros [].
Qed.

#[export] Instance sizeof_in_bits_proper : Proper (type_eqv ==> eq ==> eq) sizeof_in_bits.
Proof.
  intros a b E st ? <-. unfold sizeof_in_bits.
  rewrite <- (size_with_erase _ _ a), <- (size_with_erase _ _ b). by rewrite E.
Qed.

#[export] Instance lookup_fields_in_type_proper st :
  Proper (type_eqv ==> eq) (lookup_fields_in_type st).
Proof. intros a b E. unfold lookup_fields_in_type. by rewrite E. Qed.

#[export] Instance lookup_field_type_in_type_proper st :
  Proper (type_eqv ==> eq ==> eq) (lookup_field_type_in_type st).
Proof. intros a b E f ? <-. unfold lookup_field_type_in_type. by rewrite E. Qed.

(** ** The invariant of the table and how symbols evolve *)

Definition symtab_ok (st : SymbolTable) : Prop :=
  map_Forall (fun name s => sym_name s = name) (symbol_table st).

(** The operations that change a table, all the public ones. *)
Inductive table_op :=
| OpInsert (symbol : Symbol)
| OpEnsure (name : InternedString) (f : SymbolTable -> InternedString -> outcome Symbol)
| OpReplace (checker_fn : option Symbol -> bool) (new_value : Symbol)
| OpComplete (new_symbol : Symbol)
| OpDefine (name : InternedString) (b : Stmt).

Definition run_table_op (st : SymbolTable) (op : table_op) : outcome SymbolTable :=
  match op with
  | OpInsert symbol => insert st symbol
  | OpEnsure name f => r ← ensure st name f; Ok (snd r)
  | OpReplace checker_fn new_value => replace st checker_fn new_value
  | OpComplete new_symbol => replace_with_completion st new_symbol
  | OpDefine name b => update_fn_declaration_with_definition st name b
  end.

Fixpoint run_table_ops (st : SymbolTable) (ops : list table_op) : outcome SymbolTable :=
  match ops with
  | [] => Ok st
  | op :: ops => st ← run_table_op st op; run_table_ops st ops
  end.

(** The operations other than [replace] with a validator of the caller: these are the ones
    the code generator uses. *)
Inductive symtab_step : SymbolTable -> SymbolTable -> Prop :=
| step_insert st s st' : insert st s = Ok st' -> symtab_step st st'
| step_ensure st name f s st' : ensure st name f = Ok (s, st') -> symtab_step st st'
| step_complete st s st' : replace_with_completion st s = Ok st' -> symtab_step st st'
| step_define st name b st' :
    update_fn_declaration_with_definition st name b = Ok st' -> symtab_step st st'.

(** What may happen to a symbol: nothing, a function declaration gets its body, or
    an incomplete struct or union is completed. *)
Definition evolves (s s' : Symbol) : Prop :=
  s' = s
  \/ (is_function_declaration s = true /\ exists b, s' = set_value s (SVStmt b))
  \/ completes (sym_typ s') (sym_typ s) = true.

Lemma lookup_raw_insert st s n :
  lookup (raw_insert st s) n = if decide (n = sym_name s) then Some s else lookup st n.
Proof.
  unfold lookup. cbn. destruct (decide (n = sym_name s)) as [->|Hne];
    [apply lookup_insert_eq | by rewrite lookup_insert_ne].
Qed.

Lemma insert_ok st s st' :
  insert st s = Ok st' <-> lookup st (sym_name s) = None /\ st' = raw_insert st s.
Proof.
  unfold insert. destruct (lookup st (sym_name s)); cbn.
  - split; [done | by intros [? _]].
  - split; [by intros [= <-] | by intros [_ ->]].
Qed.

Lemma ensure_ok st name f s st' :
  ensure st name f = Ok (s, st') ->
  (lookup st name = Some s /\ st' = st)
  \/ (lookup st name = None /\ f st name = Ok s /\ sym_name s = name /\ st' = raw_insert st s).
Proof.
  unfold ensure, contains. destruct (lookup st name) as [s0|] eqn:E.
  - rewrite bool_decide_eq_true_2 by (exists s0; exact E). cbn. rewrite E. cbn.
    intros [= -> ->]. by left.
  - rewrite bool_decide_eq_false_2 by (unfold lookup in E; rewrite E; by intros []).
    intros (st1 & H1 & (s1 & H2 & [= -> ->])%bind_ok)%bind_ok.
    apply bind_ok in H1 as (s0 & Hf & (? & Hn & [Hl ->]%insert_ok)%bind_ok).
    destruct (String.eqb_spec (sym_name s0) name) as [<-|]; [|done].
    unfold lookup in H2. cbn in H2. rewrite lookup_insert_eq in H2. injection H2 as ->.
    by right.
Qed.

Lemma completes_not_code a b : completes a b = true -> is_code b = false /\ is_variadic_code b = false.
Proof. by destruct a, b. Qed.

Lemma completes_complete a b c : completes a b = true -> completes c a = false.
Proof. by destruct a, b, c. Qed.

Lemma evolves_trans s1 s2 s3 : evolves s1 s2 -> evolves s2 s3 -> evolves s1 s3.
Proof.
  intros [->|[[Hf [b ->]]|Hc]]; [done| |].
  - intros [->|[[Hf' _]|Hc]].
    + right. left. eauto.
    + unfold is_function_declaration in Hf'. cbn in Hf'. by rewrite andb_false_r in Hf'.
    + cbn in Hc. apply completes_not_code in Hc as [Hc1 Hc2].
      unfold is_function_declaration, is_function in Hf. by rewrite Hc1, Hc2 in Hf.
  - intros [->|[[Hf _]|Hc']].
    + by right; right.
    + unfold is_function_declaration, is_function in Hf.
      destruct (sym_typ s2), (sym_typ s1); done.
    + by rewrite (completes_complete _ _ _ Hc) in Hc'.
Qed.

(** A table after a step: same machine, well keyed, every old symbol has evolved. *)
Definition symtab_le (st st' : SymbolTable) : Prop :=
  machine_model st' = machine_model st
  /\ forall name s, lookup st name = Some s -> exists s', lookup st' name = Some s' /\ evolves s s'.

Lemma symtab_le_raw_insert st s :
  lookup st (sym_name s) = None -> symtab_le st (raw_insert st s).
Proof.
  intros Hn. split; [done|]. intros name s0 Hs. exists s0. split; [|by left].
  unfold lookup in *. cbn. rewrite lookup_insert_ne; congruence.
Qed.

Lemma symtab_step_le st st' : symtab_step st st' -> symtab_le st st'.
Proof.
  intros [st0 s st0' [Hn ->]%insert_ok|st0 name f s st0' H|st0 s st0' H|st0 name b st0' H].
  - by apply symtab_le_raw_insert.
  - apply ensure_ok in H as [[_ ->]|(Hn & _ & <- & ->)].
    + split; [done|]. intros name' s0 Hs. exists s0. split; [done|]. by left.
    + by apply symtab_le_raw_insert.
  - unfold replace_with_completion, replace in H. outcome_inv. split; [done|].
    intros name s0 Hs. unfold lookup in *. cbn. destruct (decide (sym_name s = name)) as [<-|Hne].
    + exists s. rewrite lookup_insert_eq. split; [done|]. right; right.
      unfold symbol_completes in E. by rewrite Hs in E.
    + exists s0. rewrite lookup_insert_ne by done. split; [done|]. by left.
  - unfold update_fn_declaration_with_definition, symbol_update_fn_declaration in H.
    outcome_inv. split; [done|]. intros name' s0 Hs. unfold lookup in *. cbn.
    destruct (decide (name = name')) as [<-|Hne].
    + rewrite E in Hs. injection Hs as ->. eexists. rewrite lookup_insert_eq.
      split; [done|]. right; left. eauto.
    + exists s0. rewrite lookup_insert_ne by done. split; [done|]. by left.
Qed.

Lemma symtab_step_ok st st' : symtab_step st st' -> symtab_ok st -> symtab_ok st'.
Proof.
  assert (Hraw : forall st s, symtab_ok st -> symtab_ok (raw_insert st s)).
  { intros st0 s Hok. apply map_Forall_insert_2; done. }
  intros [st0 s st0' [Hn ->]%insert_ok|st0 name f s st0' H|st0 s st0' H|st0 name b st0' H] Hok.
  - auto.
  - apply ensure_ok in H as [[_ ->]|(_ & _ & _ & ->)]; auto.
  - unfold replace_with_completion, replace in H. outcome_inv. auto.
  - unfold update_fn_declaration_with_definition, symbol_update_fn_declaration in H. outcome_inv.
    apply map_Forall_insert_2; [|done]. cbn. by apply (Hok name).
Qed.

Lemma symtab_steps_le st st' : rtc symtab_step st st' -> symtab_le st st'.
Proof.
  induction 1 as [st|st st1 st' H1 _ IH].
  - split; [done|]. intros name s Hs. exists s. split; [done|]. by left.
  - apply symtab_step_le in H1 as [Hm1 H1]. destruct IH as [Hm2 IH]. split; [congruence|].
    intros name s Hs. destruct (H1 _ _ Hs) as (s1 & Hs1 & E1).
    destruct (IH _ _ Hs1) as (s2 & Hs2 & E2). exists s2. split; [done|]. by eapply evolves_trans.
Qed.

(** [replace] with a validator that accepts [old]: *)
Definition replaces (op : table_op) (old new : Symbol) : Prop :=
  match op with
  | OpReplace checker_fn s => s = new /\ checker_fn (Some old) = true
  | _ => False
  end.

(** An operation that is not [replace], or is one whose validator lets a symbol evolve only. *)
Definition growing (op : table_op) : Prop := forall old new, replaces op old new -> evolves old new.

Lemma run_table_op_step st op st' :
  run_table_op st op = Ok st' ->
  symtab_step st st'
  \/ exists checker s, op = OpReplace checker s /\ checker (lookup st (sym_name s)) = true
                      /\ st' = raw_insert st s.
Proof.
  destruct op as [s|name f|c s|s|name b]; cbn.
  - left. by eapply step_insert.
  - intros H. outcome_inv. left. destruct a. by eapply step_ensure.
  - unfold replace. intros H. outcome_inv. right. eauto.
  - left. by eapply step_complete.
  - left. by eapply step_define.
Qed.

(** What an operation does to one symbol *)
Lemma run_table_op_symbol st op st' name s :
  run_table_op st op = Ok st' -> lookup st name = Some s ->
  exists s', lookup st' name = Some s' /\ (evolves s s' \/ replaces op s s' /\ sym_name s' = name).
Proof.
  intros [Hs%symtab_step_le|(c & s0 & -> & Hc & ->)]%run_table_op_step Hl.
  - destruct Hs as [_ Hs]. destruct (Hs _ _ Hl) as (s' & ? & ?). eauto.
  - unfold lookup in *. cbn. destruct (decide (sym_name s0 = name)) as [<-|Hne].
    + rewrite Hl in Hc. exists s0. rewrite lookup_insert_eq. by repeat split; auto.
    + exists s. rewrite lookup_insert_ne by done. split; [done|]. by left; left.
Qed.

Lemma growing_le st op st' : growing op -> run_table_op st op = Ok st' -> symtab_le st st'.
Proof.
  intros Hg H. split.
  - apply run_table_op_step in H as [[H _]%symtab_step_le|(c & s & _ & _ & ->)]; done.
  - intros name s Hs. destruct (run_table_op_symbol _ _ _ _ _ H Hs) as (s' & ? & [?|[? _]]); eauto.
Qed.

Lemma run_table_op_ok st op st' : run_table_op st op = Ok st' -> symtab_ok st -> symtab_ok st'.
Proof.
  intros [H|(c & s & -> & _ & ->)]%run_table_op_step Hok; [by eapply symtab_step_ok|].
  by apply map_Forall_insert_2.
Qed.

Lemma run_table_ops_symbol ops : forall st st' name s,
  run_table_ops st ops = Ok st' -> lookup st name = Some s ->
  exists s', lookup st' name = Some s'
    /\ rtc (fun a b => evolves a b \/ exists op, op ∈ ops /\ replaces op a b /\ sym_name b = name) s s'.
Proof.
  induction ops as [|op ops IH]; cbn; intros st st' name s H Hs.
  - injection H as <-. eauto using rtc_refl.
  - apply bind_ok in H as (st1 & Hop & Hops).
    destruct (run_table_op_symbol _ _ _ _ _ Hop Hs) as (s1 & Hs1 & Hstep).
    destruct (IH _ _ _ _ Hops Hs1) as (s' & Hs' & Hr). exists s'. split; [done|].
    eapply rtc_l with s1.
    + destruct Hstep as [?|[? ?]]; [by left | right; exists op; split; [by left | done]].
    + eapply rtc_subrel; [|exact Hr]. intros a b [?|(op' & ? & ?)]; [by left|].
      right. exists op'. split; [by right | done].
Qed.

(** ** Properties *)

(** Every table that [insert], [ensure], [replace_with_completion] and
    [update_fn_declaration_with_definition] can produce keeps each symbol under
    its own name. *)
Theorem symtab_reachable_ok (st st' : SymbolTable) :
  symtab_ok st -> rtc symtab_step st st' -> symtab_ok st'.
Proof. intros Hok H. induction H; eauto using symtab_step_ok. Qed.

(** A function [f] without parameters, declared in an otherwise empty table. *)
Definition sample_symbol : Symbol :=
  mkSymbol "f" Location.none (TCode [] TEmpty) SVNone None None None ModeC false false false
    false false false false false false false false false false false false false.
Definition sample_table : SymbolTable := mkSymbolTable {[ "f" := sample_symbol ]} x86_64.
Definition sample_body : Stmt := mkStmt SSkip Location.none.

Lemma sample_step : rtc symtab_step (mkSymbolTable ∅ x86_64) sample_table.
Proof. apply rtc_once. apply (step_insert _ sample_symbol). reflexivity. Qed.

Lemma sample_define :
  rtc symtab_step sample_table
    (mkSymbolTable {[ "f" := set_value sample_symbol (SVStmt sample_body) ]} x86_64).
Proof. apply rtc_once. apply (step_define _ "f" sample_body). reflexivity. Qed.

Lemma symtab_reachable_ok_witness : symtab_ok sample_table.
Proof.
  apply (symtab_reachable_ok (mkSymbolTable ∅ x86_64)); [|apply sample_step].
  intros name s Hs. cbn in Hs. by rewrite lookup_empty in Hs.
Defined.

(** C9. Along any sequence of the public operations a symbol never disappears from the
    table, and what changes it is an evolution (a function declaration receives a body, an
    incomplete struct or union is completed) or a call of [replace] for its name whose
    validator accepted the symbol it found.  So if the validators passed to [replace] for
    that name let symbols evolve only, it is never redefined: it is as it was, or received
    its body, or was completed. *)
Theorem symbols_only_evolve (ops : list table_op) (st st' : SymbolTable) (name : InternedString)
    (s : Symbol) :
  run_table_ops st ops = Ok st' -> lookup st name = Some s ->
  exists s', lookup st' name = Some s'
    /\ rtc (fun a b => evolves a b \/ exists op, op ∈ ops /\ replaces op a b /\ sym_name b = name) s s'
    /\ ((forall op, op ∈ ops -> forall a b, replaces op a b -> sym_name b = name -> evolves a b) ->
        evolves s s').
Proof.
  intros Hops Hs. destruct (run_table_ops_symbol _ _ _ _ _ Hops Hs) as (s' & Hs' & Hr).
  exists s'. split; [done|]. split; [done|]. intros Hev. clear Hs Hs'.
  induction Hr as [x|x y z Hxy _ IH]; [by left|]. eapply evolves_trans; [|exact IH].
  destruct Hxy as [?|(op & Hin & Hrep & Hn)]; [done|]. by eapply Hev.
Qed.

(** [f] is declared and gets its body; then [replace] puts the declaration back. *)
Definition sample_table_ops : list table_op :=
  [OpInsert sample_symbol; OpDefine "f" sample_body;
   OpReplace (fun o => match o with Some _ => true | None => false end) sample_symbol].

Lemma symbols_only_evolve_witness :
  exists s', lookup (mkSymbolTable {[ "f" := set_value sample_symbol (SVStmt sample_body) ]} x86_64)
               "f" = Some s' /\ evolves sample_symbol s'.
Proof.
  destruct (symbols_only_evolve [OpDefine "f" sample_body] sample_table
              (mkSymbolTable {[ "f" := set_value sample_symbol (SVStmt sample_body) ]} x86_64)
              "f" sample_symbol) as (s' & Hs' & _ & Hev); [reflexivity | reflexivity |].
  exists s'. split; [exact Hs'|]. apply Hev. intros op Hop a b Hr. exfalso.
  apply list_elem_of_singleton in Hop as ->. exact Hr.
Defined.

(** With [replace] the caller can take a body away again. *)
Example replace_can_redefine :
  run_table_ops (mkSymbolTable ∅ x86_64) sample_table_ops = Ok sample_table.
Proof. reflexivity. Qed.

(** [SymbolTable::insert] panics exactly when the name is taken; otherwise the new
    table has the symbol under its name and is unchanged elsewhere. *)
Theorem insert_behaviour (st : SymbolTable) (s : Symbol) :
  (insert st s = Panic <-> is_Some (lookup st (sym_name s)))
  /\ forall st', insert st s = Ok st' ->
       lookup st' (sym_name s) = Some s
       /\ forall name, name <> sym_name s -> lookup st' name = lookup st name.
Proof.
  split.
  - unfold insert. destruct (lookup st (sym_name s)); cbn; by split.
  - intros st' [Hn ->]%insert_ok. unfold lookup. cbn. split; [by rewrite lookup_insert_eq|].
    intros name Hne. by rewrite lookup_insert_ne.
Qed.

(** The recursion of [Type::sizeof_in_bits] through the table never needs to unfold
    more tags than the table has symbols: any larger bound gives the same result,
    so a computation that is cut off is one that never ends. *)
Theorem sizeof_fuel_enough (st : SymbolTable) (t : Type_) (n : nat) :
  sizeof_fuel st <= n -> run (size_with st (tag_sizeof n st) t) = sizeof_in_bits t st.
Proof.
  intros Hn. unfold sizeof_in_bits. f_equal.
  assert (Hx : forall r r', (forall tag, r tag = r' tag) -> size_with st r t = size_with st r' t).
  { intros r r' Hr. destruct (size_with st r t) as [o|] eqn:E.
    - rewrite <- E. symmetry. apply size_with_monotone; [|by rewrite E]. by intros tag _.
    - destruct (size_with st r' t) as [o|] eqn:E'; [|done].
      rewrite <- E, <- E'. apply size_with_monotone; [|by rewrite E']. by intros tag _. }
  apply Hx. intros tag. by apply tag_sizeof_stable.
Qed.

Lemma sizeof_fuel_enough_witness :
  run (size_with sample_table (tag_sizeof 5 sample_table) (TArray (TCInteger CInt) 3))
  = sizeof_in_bits (TArray (TCInteger CInt) 3) sample_table.
Proof. apply (sizeof_fuel_enough sample_table _ 5). vm_compute. lia. Defined.

(** Sizes are what the layout says: a tag has the size of the type it names, an
    array its length times the size of its elements (if that fits 64 bits), a
    struct the sum of the sizes of its components, padding included (if that
    fits), and a union the largest of them. *)
Theorem sizeof_layout (st : SymbolTable) (tag : InternedString) (t : Type_) (n : N)
    (cs : list DatatypeComponent) (sizes : list N) :
  map_outcome (component_sizeof st) cs = Ok sizes -> (foldr N.add 0 sizes <= u64_max)%N ->
  sizeof_in_bits (TStructTag tag) st
    = match lookup st tag with None => Panic | Some s => sizeof_in_bits (sym_typ s) st end
  /\ sizeof_in_bits (TArray t n) st = (sizeof_in_bits t st ≫= fun b => u64_mul b n)
  /\ sizeof_in_bits (TStruct tag cs) st = Ok (foldr N.add 0%N sizes)
  /\ sizeof_in_bits (TUnion tag cs) st = Ok (foldl N.max 0%N sizes).
Proof.
  intros Hs Hle. split; [apply sizeof_in_bits_struct_tag|]. split; [apply sizeof_in_bits_array|].
  split; [by apply sizeof_in_bits_struct | by apply sizeof_in_bits_union].
Qed.

Lemma sizeof_layout_witness :
  sizeof_in_bits (TStruct "s" [Field "a" (TCInteger CInt); Padding "p" 32]) sample_table = Ok 64%N.
Proof.
  apply (sizeof_layout sample_table "s" TEmpty 0
           [Field "a" (TCInteger CInt); Padding "p" 32] [32; 32]%N); [reflexivity | done].
Defined.
