(* ===== verification/Expr.v ===== *)
(** * Expression constructors ([cbmc/src/goto_program/expr.rs])

    The fields of [Expr] are private: an expression is built only by the
    functions below, each of which asserts its typing rule ([Typing.v] states the
    rules).  The file also has the constants of a type
    ([Type::zero], [Type::max_int_expr], ...) from [typ.rs]. *)

From S2P Require Import Prelude CbmcString MachineModel Location Typ Ast SymbolTable.

(** The macro [expr!]. *)
Definition expr (v : ExprValue) (t : Type_) : Expr := mkExpr v t Location.none.

(** ** Getters and predicates *)

Definition int_constant_value (e : Expr) : option Z :=
  match value e with EIntConstant i => Some i | _ => None end.

Definition struct_expr_values (e : Expr) : option (list Expr) :=
  match value e with EStruct values => Some values | _ => None end.

Definition is_int_constant (e : Expr) : bool :=
  match value e with EIntConstant _ => true | _ => false end.

Definition is_side_effect (e : Expr) : bool :=
  match value e with
  | EAssign _ _ | EFunctionCall _ _ | ENondet | ESelfOp _ _ | EStatementExpression _ => true
  | _ => false
  end.

Definition is_symbol (e : Expr) : bool :=
  match value e with ESymbol _ => true | _ => false end.

(** [Expr::can_cast_from] *)
Definition can_cast_from (source target : Type_) : bool :=
  if type_eqb source target then true
  else if is_bool target then is_c_bool source || is_integer source || is_pointer source
  else if is_c_bool target then is_integer source || is_pointer source || is_bool source
  else if is_integer target then
    is_c_bool source || is_integer source || is_floating_point source || is_pointer source
  else if is_floating_point target then is_numeric source
  else if is_pointer target then is_integer source || is_pointer source
  else if is_empty target then true
  else false.

Definition can_cast_to (e : Expr) (target : Type_) : bool := can_cast_from (typ e) target.

Definition can_take_address_of (e : Expr) : bool :=
  match value e with
  | EDereference _ | EIndex _ _ | EMember _ _ | ESymbol _ => true
  | _ => false
  end.

(** ** Constructors for the main types *)

Definition address_of (e : Expr) : outcome Expr :=
  assert! can_take_address_of e;
  Ok (expr (EAddressOf e) (to_pointer (typ e))).

Definition array_constant (e : Expr) (width : N) : outcome Expr :=
  assert! is_int_constant e;
  Ok (expr (EArrayOf e) (array_of (typ e) width)).

Definition array_expr (t : Type_) (elems : list Expr) : outcome Expr :=
  match t with
  | TArray value_typ size =>
      assert! (size =? N.of_nat (length elems))%N;
      assert! forallb (fun x => type_eqb (typ x) value_typ) elems;
      Ok (expr (EArray elems) t)
  | _ => Panic
  end.

Definition vector_expr (t : Type_) (elems : list Expr) : outcome Expr :=
  match t with
  | TVector value_typ size =>
      assert! (size =? N.of_nat (length elems))%N;
      assert! forallb (fun x => type_eqb (typ x) value_typ) elems;
      Ok (expr (EVector elems) t)
  | _ => Panic
  end.

Definition bool_constant (c : bool) : Expr := expr (EBoolConstant c) bool_.
Definition bool_false : Expr := bool_constant false.
Definition bool_true : Expr := bool_constant true.
Definition c_bool_constant (c : bool) : Expr := expr (ECBoolConstant c) c_bool.
Definition c_true : Expr := c_bool_constant true.
Definition c_false : Expr := c_bool_constant false.

Definition double_constant (bits : N) : Expr := expr (EDoubleConstant bits) double.
Definition double_constant_from_bitpattern (bp : N) : Expr := double_constant bp.
Definition float_constant (bits : N) : Expr := expr (EFloatConstant bits) float.
Definition float_constant_from_bitpattern (bp : N) : Expr := float_constant bp.

(** IEEE bit patterns of [0.0] and [1.0]. *)
Definition f64_zero : N := 0.
Definition f64_one : N := 4607182418800017408.
Definition f32_zero : N := 0.
Definition f32_one : N := 1065353216.

Definition int_constant (i : Z) (t : Type_) : outcome Expr :=
  assert! is_integer t;
  Ok (expr (EIntConstant i) t).

Definition pointer_constant (c : N) (t : Type_) : outcome Expr :=
  assert! is_pointer t;
  Ok (expr (EPointerConstant c) t).

Definition nondet (t : Type_) : Expr := expr ENondet t.

Definition symbol_expression (identifier : InternedString) (t : Type_) : Expr :=
  expr (ESymbol identifier) t.

(** ** Constants of a type ([typ.rs]) *)

(** [Type::zero] *)
Definition zero (t : Type_) : outcome Expr :=
  if is_integer t then int_constant 0 t
  else if is_c_bool t then Ok c_false
  else if is_float t then Ok (float_constant f32_zero)
  else if is_double t then Ok (double_constant f64_zero)
  else if is_pointer t then pointer_constant 0 t
  else Panic.

(** [Type::one] *)
Definition one (t : Type_) : outcome Expr :=
  if is_integer t then int_constant 1 t
  else if is_c_bool t then Ok c_true
  else if is_float t then Ok (float_constant f32_one)
  else if is_double t then Ok (double_constant f64_one)
  else Panic.

(** [Type::null] *)
Definition null (t : Type_) : outcome Expr :=
  assert! is_pointer t;
  zero t.

(** [Type::nondet] *)
Definition type_nondet (t : Type_) : Expr := nondet t.

(** [Type::max_int_expr], [Type::min_int_expr] *)
Definition max_int_expr (t : Type_) (mm : MachineModel) : outcome Expr :=
  assert! is_integer t;
  w ← unwrap (native_width t mm);
  m ← max_int w (is_signed t mm);
  int_constant m t.

Definition min_int_expr (t : Type_) (mm : MachineModel) : outcome Expr :=
  assert! is_integer t;
  w ← unwrap (native_width t mm);
  m ← min_int w (is_signed t mm);
  int_constant m t.

(** [Type::sizeof_expr] *)
Definition sizeof_expr (t : Type_) (st : SymbolTable) : outcome Expr :=
  n ← sizeof t st;
  int_constant (Z.of_N n) size_t.

(** ** Binary operations *)

(** [Expr::typecheck_binop_args] *)
Definition typecheck_binop_args (op : BinaryOperand) (lhs rhs : Expr) : bool :=
  let l := typ lhs in
  let r := typ rhs in
  match op with
  | OpMinus =>
      type_eqb l r && (is_pointer l || is_numeric l || is_vector l)
      || (is_pointer l && is_integer r)
  | OpPlus =>
      (type_eqb l r && (is_numeric l || is_vector l)) || (is_pointer l && is_integer r)
  | OpDiv | OpMod | OpMult => type_eqb l r && (is_numeric l || is_vector l)
  | OpAshr | OpLshr | OpShl =>
      is_integer l && is_integer r || (type_eqb l r && is_vector l)
  | OpRol | OpRor => is_integer l && is_integer r
  | OpAnd | OpImplies | OpOr | OpXor => is_bool l && is_bool r
  | OpBitand | OpBitor | OpBitxor => type_eqb l r && (is_integer l || is_vector l)
  | OpGe | OpGt | OpLe | OpLt => type_eqb l r && (is_numeric l || is_pointer l || is_vector l)
  | OpEqual | OpNotequal =>
      type_eqb l r && (is_c_bool l || is_integer l || is_pointer l || is_vector l)
  | OpIeeeFloatEqual | OpIeeeFloatNotequal => type_eqb l r && is_floating_point l
  | OpOverflowMinus =>
      (type_eqb l r && (is_pointer l || is_numeric l)) || (is_pointer l && is_integer r)
  | OpOverflowMult | OpOverflowPlus =>
      (type_eqb l r && is_integer l) || (is_pointer l && is_integer r)
  end.

(** [Expr::binop_return_type] *)
Definition binop_return_type (op : BinaryOperand) (lhs rhs : Expr) : Type_ :=
  let l := typ lhs in
  let r := typ rhs in
  match op with
  | OpMinus => if is_pointer l && is_pointer r then ssize_t else l
  | OpDiv | OpMod | OpMult | OpPlus => l
  | OpAshr | OpLshr | OpRol | OpRor | OpShl => l
  | OpAnd | OpImplies | OpOr | OpXor => bool_
  | OpBitand | OpBitor | OpBitxor => l
  | OpGe | OpGt | OpLe | OpLt => if is_vector l then l else bool_
  | OpEqual | OpNotequal => if is_vector l then l else bool_
  | OpIeeeFloatEqual | OpIeeeFloatNotequal => bool_
  | OpOverflowMinus | OpOverflowMult | OpOverflowPlus => bool_
  end.

Definition binop (lhs : Expr) (op : BinaryOperand) (rhs : Expr) : outcome Expr :=
  assert! typecheck_binop_args op lhs rhs;
  Ok (expr (EBinOp op lhs rhs) (binop_return_type op lhs rhs)).

Definition add_overflow_p (e1 e2 : Expr) : outcome Expr := binop e1 OpOverflowPlus e2.
Definition sub_overflow_p (e1 e2 : Expr) : outcome Expr := binop e1 OpOverflowMinus e2.
Definition mul_overflow_p (e1 e2 : Expr) : outcome Expr := binop e1 OpOverflowMult e2.
Definition div_ (e1 e2 : Expr) : outcome Expr := binop e1 OpDiv e2.
Definition rem_ (e1 e2 : Expr) : outcome Expr := binop e1 OpMod e2.
Definition xor_ (e1 e2 : Expr) : outcome Expr := binop e1 OpXor e2.
Definition bitand (e1 e2 : Expr) : outcome Expr := binop e1 OpBitand e2.
Definition bitor (e1 e2 : Expr) : outcome Expr := binop e1 OpBitor e2.
Definition bitxor (e1 e2 : Expr) : outcome Expr := binop e1 OpBitxor e2.
Definition shl (e1 e2 : Expr) : outcome Expr := binop e1 OpShl e2.
Definition ashr (e1 e2 : Expr) : outcome Expr := binop e1 OpAshr e2.
Definition lshr (e1 e2 : Expr) : outcome Expr := binop e1 OpLshr e2.
Definition plus_ (e1 e2 : Expr) : outcome Expr := binop e1 OpPlus e2.
Definition sub_ (e1 e2 : Expr) : outcome Expr := binop e1 OpMinus e2.
Definition mul_ (e1 e2 : Expr) : outcome Expr := binop e1 OpMult e2.
Definition le_ (e1 e2 : Expr) : outcome Expr := binop e1 OpLe e2.
Definition lt_ (e1 e2 : Expr) : outcome Expr := binop e1 OpLt e2.
Definition ge_ (e1 e2 : Expr) : outcome Expr := binop e1 OpGe e2.
Definition gt_ (e1 e2 : Expr) : outcome Expr := binop e1 OpGt e2.
Definition eq_ (e1 e2 : Expr) : outcome Expr := binop e1 OpEqual e2.
Definition neq_ (e1 e2 : Expr) : outcome Expr := binop e1 OpNotequal e2.
Definition feq (e1 e2 : Expr) : outcome Expr := binop e1 OpIeeeFloatEqual e2.
Definition fneq (e1 e2 : Expr) : outcome Expr := binop e1 OpIeeeFloatNotequal e2.
Definition rol (e1 e2 : Expr) : outcome Expr := binop e1 OpRol e2.
Definition ror (e1 e2 : Expr) : outcome Expr := binop e1 OpRor e2.

(** ** Casts *)

(** [Expr::cast_to]: a cast to [bool] is a comparison with zero. *)
Definition cast_to (e : Expr) (t : Type_) : outcome Expr :=
  assert! can_cast_to e t;
  if type_eqb (typ e) t then Ok e
  else if is_bool t then z ← zero (typ e); neq_ e z
  else Ok (expr (ETypecast e) t).

Definition cast_to_machine_equivalent_type (e : Expr) (new_typ : Type_) (mm : MachineModel) :
    outcome Expr :=
  if type_eqb (typ e) new_typ then Ok e
  else
    assert! is_equal_on_machine (typ e) new_typ mm;
    cast_to e new_typ.

(** The closure of the next function: [arguments.remove(0)] for each parameter,
    then the arguments that are left. *)
Fixpoint cast_arguments (ps : list Parameter_) (arguments : list Expr) (mm : MachineModel) :
    outcome (list Expr) :=
  match ps, arguments with
  | [], arguments => Ok arguments
  | p :: ps, a :: arguments =>
      a' ← cast_to_machine_equivalent_type a (parameter_typ p) mm;
      r ← cast_arguments ps arguments mm;
      Ok (a' :: r)
  | _ :: _, [] => Panic
  end.

Definition cast_arguments_to_machine_equivalent_function_parameter_types
    (function : Expr) (arguments : list Expr) (mm : MachineModel) : outcome (list Expr) :=
  ps ← unwrap (parameters (typ function));
  assert! (length ps <=? length arguments)%nat;
  cast_arguments ps arguments mm.

Definition and_ (e1 e2 : Expr) : outcome Expr :=
  e1 ← cast_to e1 bool_; e2 ← cast_to e2 bool_; binop e1 OpAnd e2.
Definition implies (e1 e2 : Expr) : outcome Expr :=
  e1 ← cast_to e1 bool_; e2 ← cast_to e2 bool_; binop e1 OpImplies e2.
Definition or_ (e1 e2 : Expr) : outcome Expr :=
  e1 ← cast_to e1 bool_; e2 ← cast_to e2 bool_; binop e1 OpOr e2.

(** ** Access, calls, aggregates *)

Definition dereference (e : Expr) : outcome Expr :=
  assert! is_pointer (typ e);
  t ← unwrap (base_type (typ e));
  Ok (expr (EDereference e) t).

Definition index_array (e idx : Expr) : outcome Expr :=
  assert! is_integer (typ idx);
  assert! is_array_like (typ e);
  t ← unwrap (base_type (typ e));
  Ok (expr (EIndex e idx) t).

(** [Expr::typecheck_call] and its inner function *)
Definition typecheck_named_args (ps : list Parameter_) (arguments : list Expr) : bool :=
  zip_all (fun p a => type_eqb (typ a) (parameter_typ p)) ps arguments.

Definition typecheck_call (function : Expr) (arguments : list Expr) : outcome bool :=
  if is_code (typ function) then
    ps ← unwrap (parameters (typ function));
    Ok ((length arguments =? length ps)%nat && typecheck_named_args ps arguments)
  else if is_variadic_code (typ function) then
    ps ← unwrap (parameters (typ function));
    Ok ((length ps <=? length arguments)%nat && typecheck_named_args ps arguments)
  else Ok false.

Definition call (function : Expr) (arguments : list Expr) : outcome Expr :=
  b ← typecheck_call function arguments;
  assert! b;
  t ← unwrap (return_type (typ function));
  Ok (expr (EFunctionCall function arguments) t).

Definition member (e : Expr) (field : InternedString) (st : SymbolTable) : outcome Expr :=
  assert! is_struct_tag (typ e) || is_union_tag (typ e);
  match lookup_field_type_in_type st (typ e) field with
  | Some ty => Ok (expr (EMember e field) ty)
  | None => Panic
  end.

(** [Stmt::get_expression] *)
Definition get_expression (s : Stmt) : option Expr :=
  match body s with SExpression e => Some e | _ => None end.

Definition statement_expression (ops : list Stmt) (t : Type_) : outcome Expr :=
  assert! negb (length ops =? 0)%nat;
  op ← unwrap (last ops);
  e ← unwrap (get_expression op);
  assert! type_eqb (typ e) t;
  Ok (expr (EStatementExpression ops) t).

(** [fields.iter().zip(values.iter()).all(|(f, v)| f.typ() == *v.typ())] *)
Fixpoint fields_match (fields : list DatatypeComponent) (values : list Expr) : outcome bool :=
  match fields, values with
  | f :: fields, v :: values =>
      ft ← component_typ f;
      if type_eqb ft (typ v) then fields_match fields values else Ok false
  | _, _ => Ok true
  end.

Definition struct_expr_with_explicit_padding (t : Type_) (fields : list DatatypeComponent)
    (values : list Expr) : outcome Expr :=
  assert! (length fields =? length values)%nat;
  b ← fields_match fields values;
  assert! b;
  Ok (expr (EStruct values) t).

(** The loop of [struct_expr] that looks every named field up in [components]. *)
Fixpoint check_named_fields (fields : list DatatypeComponent) (comps : gmap InternedString Expr) :
    outcome unit :=
  match fields with
  | [] => Ok tt
  | f :: fields =>
      ft ← unwrap (field_typ f);
      v ← unwrap (comps !! component_name f);
      assert! type_eqb (typ v) ft;
      check_named_fields fields comps
  end.

(** The closure of [struct_expr]: padding is nondet, a field takes its value out of
    the map. *)
Fixpoint take_fields (fields : list DatatypeComponent) (comps : gmap InternedString Expr) :
    outcome (list Expr) :=
  match fields with
  | [] => Ok []
  | f :: fields =>
      if is_padding f then
        ft ← component_typ f;
        r ← take_fields fields comps;
        Ok (type_nondet ft :: r)
      else
        v ← unwrap (comps !! component_name f);
        r ← take_fields fields (delete (component_name f) comps);
        Ok (v :: r)
  end.

Definition struct_expr (t : Type_) (comps : gmap InternedString Expr) (st : SymbolTable) :
    outcome Expr :=
  assert! is_struct_tag t;
  fields ← unwrap (lookup_fields_in_type st t);
  let non_padding_fields := List.filter (fun x => negb (is_padding x)) fields in
  assert! (length non_padding_fields =? size comps)%nat;
  _ ← check_named_fields non_padding_fields comps;
  values ← take_fields fields comps;
  struct_expr_with_explicit_padding t fields values.

(** The closure of [struct_expr_from_values]: [non_padding_values.remove(0)]. *)
Fixpoint take_values (fields : list DatatypeComponent) (non_padding_values : list Expr) :
    outcome (list Expr) :=
  match fields with
  | [] => Ok []
  | f :: fields =>
      if is_padding f then
        ft ← component_typ f;
        r ← take_values fields non_padding_values;
        Ok (type_nondet ft :: r)
      else
        match non_padding_values with
        | [] => Panic
        | v :: vs => r ← take_values fields vs; Ok (v :: r)
        end
  end.

(** [.all(|(f, v)| f.field_typ().unwrap() == v.typ())] *)
Fixpoint named_fields_match (fields : list DatatypeComponent) (values : list Expr) : outcome bool :=
  match fields, values with
  | f :: fields, v :: values =>
      ft ← unwrap (field_typ f);
      if type_eqb ft (typ v) then named_fields_match fields values else Ok false
  | _, _ => Ok true
  end.

Definition struct_expr_from_values (t : Type_) (non_padding_values : list Expr)
    (st : SymbolTable) : outcome Expr :=
  assert! is_struct_tag t;
  fields ← unwrap (lookup_fields_in_type st t);
  let non_padding_fields := List.filter (fun x => negb (is_padding x)) fields in
  assert! (length non_padding_fields =? length non_padding_values)%nat;
  b ← named_fields_match non_padding_fields non_padding_values;
  assert! b;
  values ← take_values fields non_padding_values;
  struct_expr_with_explicit_padding t fields values.

(** The closure of [struct_expr_with_nondet_fields]. *)
Fixpoint take_or_nondet (fields : list DatatypeComponent) (comps : gmap InternedString Expr) :
    outcome (list Expr) :=
  match fields with
  | [] => Ok []
  | f :: fields =>
      match comps !! component_name f with
      | Some v => r ← take_or_nondet fields (delete (component_name f) comps); Ok (v :: r)
      | None =>
          ft ← component_typ f;
          r ← take_or_nondet fields comps;
          Ok (type_nondet ft :: r)
      end
  end.

Definition struct_expr_with_nondet_fields (t : Type_) (comps : gmap InternedString Expr)
    (st : SymbolTable) : outcome Expr :=
  assert! is_struct_tag t;
  fields ← unwrap (lookup_fields_in_type st t);
  let non_padding_fields := List.filter (fun x => negb (is_padding x)) fields in
  values ← take_or_nondet non_padding_fields comps;
  struct_expr_from_values t values st.

Definition struct_expr_from_padded_values (t : Type_) (values : list Expr) (st : SymbolTable) :
    outcome Expr :=
  assert! is_struct_tag t;
  fields ← unwrap (lookup_fields_in_type st t);
  assert! (length fields =? length values)%nat;
  b ← fields_match fields values;
  assert! b;
  struct_expr_with_explicit_padding t fields values.

Definition ternary (c t e : Expr) : outcome Expr :=
  assert! type_eqb (typ t) (typ e);
  c ← cast_to c bool_;
  Ok (expr (EIf c t e) (typ t)).

Definition transmute_to (e : Expr) (t : Type_) (st : SymbolTable) : outcome Expr :=
  n1 ← sizeof_in_bits (typ e) st;
  n2 ← sizeof_in_bits t st;
  assert! (n1 =? n2)%N;
  Ok (expr (EByteExtract e 0) t).

(** [assert_eq!(symbol_table.lookup_field_type_in_type(&typ, field), Some(value.typ()))] *)
Definition union_expr (t : Type_) (field : InternedString) (v : Expr) (st : SymbolTable) :
    outcome Expr :=
  assert! is_union_tag t;
  assert! (match lookup_field_type_in_type st t field with
           | Some ft => type_eqb ft (typ v)
           | None => false
           end);
  Ok (expr (EUnion v field) t).

(** ** Self and unary operations *)

Definition self_op (e : Expr) (op : SelfOperand) : outcome Expr :=
  assert! is_integer (typ e) || is_pointer (typ e);
  Ok (expr (ESelfOp op e) (typ e)).

Definition postincr (e : Expr) : outcome Expr := self_op e Postincrement.
Definition postdecr (e : Expr) : outcome Expr := self_op e Postdecrement.
Definition preincr (e : Expr) : outcome Expr := self_op e Postincrement.
Definition predecr (e : Expr) : outcome Expr := self_op e Postdecrement.

Definition typecheck_unop_arg (op : UnaryOperand) (arg : Expr) : bool :=
  match op with
  | Bitnot | Bswap | Popcount => is_integer (typ arg)
  | CountLeadingZeros _ | CountTrailingZeros _ => is_integer (typ arg)
  | IsDynamicObject | ObjectSize | PointerObject => is_pointer (typ arg)
  | PointerOffset => type_eqb (typ arg) void_pointer
  | Not => is_bool (typ arg)
  | UnaryMinus => is_numeric (typ arg)
  end.

Definition unop_return_type (op : UnaryOperand) (arg : Expr) : Type_ :=
  match op with
  | Bitnot | Bswap | UnaryMinus => typ arg
  | CountLeadingZeros _ | CountTrailingZeros _ => typ arg
  | ObjectSize | PointerObject => size_t
  | PointerOffset => ssize_t
  | IsDynamicObject | Not => bool_
  | Popcount => typ arg
  end.

Definition unop (e : Expr) (op : UnaryOperand) : outcome Expr :=
  assert! typecheck_unop_arg op e;
  Ok (expr (EUnOp op e) (unop_return_type op e)).

Definition bitnot (e : Expr) : outcome Expr := unop e Bitnot.
Definition bswap (e : Expr) : outcome Expr := unop e Bswap.
Definition dynamic_object (e : Expr) : outcome Expr := unop e IsDynamicObject.
Definition neg (e : Expr) : outcome Expr := unop e UnaryMinus.
Definition not_ (e : Expr) : outcome Expr := e ← cast_to e bool_; unop e Not.
Definition object_size (e : Expr) : outcome Expr := unop e ObjectSize.
Definition pointer_object (e : Expr) : outcome Expr := unop e PointerObject.
Definition pointer_offset (e : Expr) : outcome Expr :=
  e ← cast_to e void_pointer; unop e PointerOffset.
Definition popcount (e : Expr) : outcome Expr := unop e Popcount.
Definition cttz (e : Expr) (allow_zero : bool) : outcome Expr :=
  unop e (CountTrailingZeros allow_zero).
Definition ctlz (e : Expr) (allow_zero : bool) : outcome Expr :=
  unop e (CountLeadingZeros allow_zero).

(** ** Compound expressions *)

Definition is_negative (e : Expr) : outcome Expr :=
  assert! is_numeric (typ e);
  z ← zero (typ e);
  lt_ e z.

Definition is_zero (e : Expr) : outcome Expr :=
  assert! is_numeric (typ e);
  z ← zero (typ e);
  eq_ e z.

Definition is_nonnull (e : Expr) : outcome Expr :=
  assert! is_pointer (typ e);
  nullptr ← null (typ e);
  neq_ e nullptr.

(** [struct ArithmeticOverflowResult] *)
Record ArithmeticOverflowResult := mkOverflow { result : Expr; overflowed : Expr }.

Definition add_overflow (e1 e2 : Expr) : outcome ArithmeticOverflowResult :=
  result ← plus_ e1 e2;
  overflowed ← add_overflow_p e1 e2;
  Ok (mkOverflow result overflowed).

Definition sub_overflow (e1 e2 : Expr) : outcome ArithmeticOverflowResult :=
  result ← sub_ e1 e2;
  overflowed ← sub_overflow_p e1 e2;
  Ok (mkOverflow result overflowed).

Definition mul_overflow (e1 e2 : Expr) : outcome ArithmeticOverflowResult :=
  result ← mul_ e1 e2;
  overflowed ← mul_overflow_p e1 e2;
  Ok (mkOverflow result overflowed).

Definition array_to_ptr (e : Expr) : outcome Expr :=
  assert! is_array_like (typ e);
  z ← zero ssize_t;
  a ← index_array e z;
  address_of a.

Definition index_ptr (e idx : Expr) : outcome Expr :=
  assert! is_integer (typ idx);
  assert! is_pointer (typ e);
  p ← plus_ e idx;
  dereference p.

Definition index (e idx : Expr) : outcome Expr :=
  assert! is_integer (typ idx);
  if is_pointer (typ e) then index_ptr e idx
  else if is_array_like (typ e) then index_array e idx
  else Panic.

Definition reinterpret_cast (e : Expr) (t : Type_) : outcome Expr :=
  assert! can_take_address_of e;
  a ← address_of e;
  c ← cast_to a (to_pointer t);
  dereference c.

Definition same_object (e1 e2 : Expr) : outcome Expr :=
  p1 ← pointer_object e1;
  p2 ← pointer_object e2;
  eq_ p1 p2.

Definition saturating_add (e1 e2 : Expr) (mm : MachineModel) : outcome Expr :=
  assert! is_integer (typ e1);
  assert! type_eqb (typ e1) (typ e2);
  let t := typ e1 in
  res ← add_overflow e1 e2;
  neg1 ← is_negative e1;
  lo ← min_int_expr t mm;
  hi ← max_int_expr t mm;
  saturating_val ← ternary neg1 lo hi;
  ternary (overflowed res) saturating_val (result res).

Definition saturating_sub (e1 e2 : Expr) (mm : MachineModel) : outcome Expr :=
  assert! is_integer (typ e1);
  assert! type_eqb (typ e1) (typ e2);
  let t := typ e1 in
  res ← sub_overflow e1 e2;
  neg2 ← is_negative e2;
  hi ← max_int_expr t mm;
  lo ← min_int_expr t mm;
  saturating_val ← ternary neg2 hi lo;
  ternary (overflowed res) saturating_val (result res).

Definition raw_string_constant (s : InternedString) : Expr :=
  expr (EStringConstant s) (array_of c_char (N.of_nat (String.length s + 1))).

Definition string_constant (s : InternedString) : outcome Expr :=
  array_to_ptr (raw_string_constant s).

(** [Expr::struct_field_exprs] *)
Fixpoint collect_values (fields : list DatatypeComponent) (values : list Expr)
    (acc : gmap InternedString Expr) : gmap InternedString Expr :=
  match fields, values with
  | f :: fields, v :: values =>
      collect_values fields values (if is_padding f then acc else <[component_name f := v]> acc)
  | _, _ => acc
  end.

Fixpoint collect_members (e : Expr) (st : SymbolTable) (fields : list DatatypeComponent)
    (acc : gmap InternedString Expr) : outcome (gmap InternedString Expr) :=
  match fields with
  | [] => Ok acc
  | f :: fields =>
      if is_padding f then collect_members e st fields acc
      else m ← member e (component_name f) st;
           collect_members e st fields (<[component_name f := m]> acc)
  end.

Definition struct_field_exprs (e : Expr) (st : SymbolTable) :
    outcome (gmap InternedString Expr) :=
  assert! is_struct_tag (typ e);
  fields ← unwrap (lookup_fields_in_type st (typ e));
  match struct_expr_values e with
  | Some values =>
      assert! (length fields =? length values)%nat;
      Ok (collect_values fields values ∅)
  | None => collect_members e st fields ∅
  end.

(** ** Increments *)

(** [Expr::preincr] and [Expr::predecr] build the postfix operators: [++e] is the same
    expression as [e++], and no public constructor builds a prefix operator. *)
Theorem prefix_builds_postfix (e : Expr) :
  preincr e = postincr e /\ predecr e = postdecr e.
Proof. split; reflexivity. Qed.
