(* ===== verification/Symbol.v ===== *)
(** * Symbols ([cbmc/src/goto_program/symbol.rs])

    Constructors and setters of [Symbol]: a constructor fixes the name a symbol is
    stored under and the flags CBMC reads. *)

From S2P Require Import Prelude CbmcString MachineModel Location Typ Ast SymbolTable Expr.

(** ** Setters *)

Definition with_is_extern (s : Symbol) (v : bool) : Symbol :=
  mkSymbol (sym_name s) (sym_location s) (sym_typ s) (sym_value s) (sym_base_name s)
    (sym_pretty_name s) (sym_module s) (sym_mode s) (is_exported s) (is_input s) (is_macro s)
    (is_output s) (is_property s) (is_state_var s) (is_type s) (is_auxiliary s) v
    (is_file_local s) (sym_is_lvalue s) (is_parameter s) (is_static_lifetime s)
    (is_thread_local s) (is_volatile s) (is_weak s).

Definition with_is_file_local (s : Symbol) (v : bool) : Symbol :=
  mkSymbol (sym_name s) (sym_location s) (sym_typ s) (sym_value s) (sym_base_name s)
    (sym_pretty_name s) (sym_module s) (sym_mode s) (is_exported s) (is_input s) (is_macro s)
    (is_output s) (is_property s) (is_state_var s) (is_type s) (is_auxiliary s) (is_extern s) v
    (sym_is_lvalue s) (is_parameter s) (is_static_lifetime s) (is_thread_local s)
    (is_volatile s) (is_weak s).

Definition with_is_lvalue (s : Symbol) (v : bool) : Symbol :=
  mkSymbol (sym_name s) (sym_location s) (sym_typ s) (sym_value s) (sym_base_name s)
    (sym_pretty_name s) (sym_module s) (sym_mode s) (is_exported s) (is_input s) (is_macro s)
    (is_output s) (is_property s) (is_state_var s) (is_type s) (is_auxiliary s) (is_extern s)
    (is_file_local s) v (is_parameter s) (is_static_lifetime s) (is_thread_local s)
    (is_volatile s) (is_weak s).

Definition with_is_static_lifetime (s : Symbol) (v : bool) : Symbol :=
  mkSymbol (sym_name s) (sym_location s) (sym_typ s) (sym_value s) (sym_base_name s)
    (sym_pretty_name s) (sym_module s) (sym_mode s) (is_exported s) (is_input s) (is_macro s)
    (is_output s) (is_property s) (is_state_var s) (is_type s) (is_auxiliary s) (is_extern s)
    (is_file_local s) (sym_is_lvalue s) (is_parameter s) v (is_thread_local s) (is_volatile s)
    (is_weak s).

Definition with_is_state_var (s : Symbol) (v : bool) : Symbol :=
  mkSymbol (sym_name s) (sym_location s) (sym_typ s) (sym_value s) (sym_base_name s)
    (sym_pretty_name s) (sym_module s) (sym_mode s) (is_exported s) (is_input s) (is_macro s)
    (is_output s) (is_property s) v (is_type s) (is_auxiliary s) (is_extern s) (is_file_local s)
    (sym_is_lvalue s) (is_parameter s) (is_static_lifetime s) (is_thread_local s)
    (is_volatile s) (is_weak s).

Definition with_is_thread_local (s : Symbol) (v : bool) : Symbol :=
  mkSymbol (sym_name s) (sym_location s) (sym_typ s) (sym_value s) (sym_base_name s)
    (sym_pretty_name s) (sym_module s) (sym_mode s) (is_exported s) (is_input s) (is_macro s)
    (is_output s) (is_property s) (is_state_var s) (is_type s) (is_auxiliary s) (is_extern s)
    (is_file_local s) (sym_is_lvalue s) (is_parameter s) (is_static_lifetime s) v
    (is_volatile s) (is_weak s).

Definition with_is_type (s : Symbol) (v : bool) : Symbol :=
  mkSymbol (sym_name s) (sym_location s) (sym_typ s) (sym_value s) (sym_base_name s)
    (sym_pretty_name s) (sym_module s) (sym_mode s) (is_exported s) (is_input s) (is_macro s)
    (is_output s) (is_property s) (is_state_var s) v (is_auxiliary s) (is_extern s)
    (is_file_local s) (sym_is_lvalue s) (is_parameter s) (is_static_lifetime s)
    (is_thread_local s) (is_volatile s) (is_weak s).

Definition with_pretty_name (s : Symbol) (pretty_name : InternedString) : Symbol :=
  mkSymbol (sym_name s) (sym_location s) (sym_typ s) (sym_value s) (sym_base_name s)
    (Some pretty_name) (sym_module s) (sym_mode s) (is_exported s) (is_input s) (is_macro s)
    (is_output s) (is_property s) (is_state_var s) (is_type s) (is_auxiliary s) (is_extern s)
    (is_file_local s) (sym_is_lvalue s) (is_parameter s) (is_static_lifetime s)
    (is_thread_local s) (is_volatile s) (is_weak s).

(** Assignments to public fields, as the transformers make them. *)
Definition set_name (s : Symbol) (v : InternedString) : Symbol :=
  mkSymbol v (sym_location s) (sym_typ s) (sym_value s) (sym_base_name s) (sym_pretty_name s)
    (sym_module s) (sym_mode s) (is_exported s) (is_input s) (is_macro s) (is_output s)
    (is_property s) (is_state_var s) (is_type s) (is_auxiliary s) (is_extern s)
    (is_file_local s) (sym_is_lvalue s) (is_parameter s) (is_static_lifetime s)
    (is_thread_local s) (is_volatile s) (is_weak s).

Definition set_location (s : Symbol) (v : Location) : Symbol :=
  mkSymbol (sym_name s) v (sym_typ s) (sym_value s) (sym_base_name s) (sym_pretty_name s)
    (sym_module s) (sym_mode s) (is_exported s) (is_input s) (is_macro s) (is_output s)
    (is_property s) (is_state_var s) (is_type s) (is_auxiliary s) (is_extern s)
    (is_file_local s) (sym_is_lvalue s) (is_parameter s) (is_static_lifetime s)
    (is_thread_local s) (is_volatile s) (is_weak s).

Definition set_typ (s : Symbol) (v : Type_) : Symbol :=
  mkSymbol (sym_name s) (sym_location s) v (sym_value s) (sym_base_name s) (sym_pretty_name s)
    (sym_module s) (sym_mode s) (is_exported s) (is_input s) (is_macro s) (is_output s)
    (is_property s) (is_state_var s) (is_type s) (is_auxiliary s) (is_extern s)
    (is_file_local s) (sym_is_lvalue s) (is_parameter s) (is_static_lifetime s)
    (is_thread_local s) (is_volatile s) (is_weak s).

Definition set_base_name (s : Symbol) (v : option InternedString) : Symbol :=
  mkSymbol (sym_name s) (sym_location s) (sym_typ s) (sym_value s) v (sym_pretty_name s)
    (sym_module s) (sym_mode s) (is_exported s) (is_input s) (is_macro s) (is_output s)
    (is_property s) (is_state_var s) (is_type s) (is_auxiliary s) (is_extern s)
    (is_file_local s) (sym_is_lvalue s) (is_parameter s) (is_static_lifetime s)
    (is_thread_local s) (is_volatile s) (is_weak s).

Definition set_pretty_name (s : Symbol) (v : option InternedString) : Symbol :=
  mkSymbol (sym_name s) (sym_location s) (sym_typ s) (sym_value s) (sym_base_name s) v
    (sym_module s) (sym_mode s) (is_exported s) (is_input s) (is_macro s) (is_output s)
    (is_property s) (is_state_var s) (is_type s) (is_auxiliary s) (is_extern s)
    (is_file_local s) (sym_is_lvalue s) (is_parameter s) (is_static_lifetime s)
    (is_thread_local s) (is_volatile s) (is_weak s).

(** ** Constructors *)

(** [Symbol::new] *)
Definition new (name : InternedString) (location : Location) (t : Type_) (v : SymbolValues)
    (base_name pretty_name : option InternedString) : Symbol := {|
  sym_name := name;
  sym_location := location;
  sym_typ := t;
  sym_value := v;
  sym_base_name := base_name;
  sym_pretty_name := pretty_name;
  sym_module := None;
  sym_mode := ModeC;
  is_exported := false;
  is_input := false;
  is_macro := false;
  is_output := false;
  is_property := false;
  is_state_var := false;
  is_type := false;
  is_auxiliary := false;
  is_extern := false;
  is_file_local := false;
  sym_is_lvalue := false;
  is_parameter := false;
  is_static_lifetime := false;
  is_thread_local := false;
  is_volatile := false;
  is_weak := false;
|}.

Definition aggr_ty (t : Type_) (pretty_name : option InternedString) : outcome Symbol :=
  base_name ← unwrap (tag t);
  let name := aggr_tag base_name in
  Ok (with_is_type (new name Location.none t SVNone (Some base_name) pretty_name) true).

Definition function (name : InternedString) (t : Type_) (b : option Stmt)
    (pretty_name : option InternedString) (loc : Location) : Symbol :=
  with_is_lvalue
    (new name loc t (match b with None => SVNone | Some x => SVStmt x end) (Some name) pretty_name)
    true.

Definition builtin_function (name : InternedString) (param_types : list Type_)
    (return_type : Type_) : outcome Symbol :=
  t ← code_with_unnamed_parameters param_types return_type;
  Ok (function name t None None (Location.builtin_function name None)).

Definition constant (name pretty_name base_name : InternedString) (v : Expr) (loc : Location) :
    Symbol :=
  with_is_static_lifetime
    (new name loc (typ v) (SVExpr v) (Some base_name) (Some pretty_name)) true.

Definition typedef (name pretty_name : InternedString) (t : Type_) (loc : Location) : Symbol :=
  with_is_static_lifetime
    (with_is_file_local
       (with_is_type (new name loc t SVNone (Some name) (Some pretty_name)) true) true) true.

Definition variable (name base_name : InternedString) (t : Type_) (l : Location) : Symbol :=
  with_is_state_var
    (with_is_lvalue
       (with_is_thread_local (new name l t SVNone (Some base_name) None) true) true) true.

Definition static_variable (name base_name : InternedString) (t : Type_) (l : Location) : Symbol :=
  with_is_static_lifetime (with_is_thread_local (variable name base_name t l) false) true.

Definition symbol_struct_type `{InternOrder} (name : InternedString)
    (pretty_name : option InternedString) (components : list DatatypeComponent) : outcome Symbol :=
  t ← struct_type name components; aggr_ty t pretty_name.

Definition symbol_union_type `{InternOrder} (name : InternedString)
    (pretty_name : option InternedString) (components : list DatatypeComponent) : outcome Symbol :=
  t ← union_type name components; aggr_ty t pretty_name.

Definition symbol_empty_struct (name : InternedString) (pretty_name : option InternedString) :
    outcome Symbol :=
  aggr_ty (empty_struct name) pretty_name.

Definition symbol_empty_union (name : InternedString) (pretty_name : option InternedString) :
    outcome Symbol :=
  aggr_ty (empty_union name) pretty_name.

Definition symbol_incomplete_struct (name : InternedString) (pretty_name : option InternedString) :
    outcome Symbol :=
  aggr_ty (incomplete_struct name) pretty_name.

Definition symbol_incomplete_union (name : InternedString) (pretty_name : option InternedString) :
    outcome Symbol :=
  aggr_ty (incomplete_union name) pretty_name.

(** ** Conversions *)

Definition to_function_parameter (s : Symbol) : outcome Parameter_ :=
  as_parameter (sym_typ s) (Some (sym_name s)) (sym_base_name s).

Definition to_expr (s : Symbol) : Expr := symbol_expression (sym_name s) (sym_typ s).

(** [impl ToString for SymbolModes] *)
Definition mode_to_string (m : SymbolModes) : string :=
  match m with ModeC => "C" | ModeRust => "Rust" end.
