(* ===== verification/Builtin.v ===== *)
(** * Builtin functions ([cbmc/src/goto_program/builtin.rs])

    The C and CBMC functions the code generator may call: their names, types and
    symbols.  [as_symbol_total] shows that every builtin has a symbol (no
    parameter type is rejected), [builtin_call_exact] characterises when a call to
    one is accepted. *)

From S2P Require Import Prelude CbmcString MachineModel Location Typ Ast SymbolTable Expr Symbol.

(** [enum BuiltinFn] *)
Inductive BuiltinFn :=
| Abort | CProverAssert | CProverAssume | Calloc | Ceil | Ceilf | Copysign | Copysignf | Cos
| Cosf | Exp | Exp2 | Exp2f | Expf | Fabs | Fabsf | Floor | Floorf | Fma | Fmaf | Fmax | Fmaxf
| Fmin | Fminf | Free | Log | Log10 | Log10f | Log2 | Log2f | Logf | Malloc | Memcmp | Memcpy
| Memmove | Memset | Nearbyint | Nearbyintf | Pow | Powf | Powi | Powif | Realloc | Rint | Rintf
| Round | Roundf | Sin | Sinf | Sqrt | Sqrtf | Trunc | Truncf.

#[export] Instance BuiltinFn_eq_dec : EqDecision BuiltinFn.
Proof. solve_decision. Defined.

(** [impl ToString for BuiltinFn] *)
Definition to_string (f : BuiltinFn) : string :=
  match f with
  | Abort => "abort"
  | CProverAssert => "__CPROVER_assert"
  | CProverAssume => "__CPROVER_assume"
  | Calloc => "calloc"
  | Ceil => "ceil"
  | Ceilf => "ceilf"
  | Copysign => "copysign"
  | Copysignf => "copysignf"
  | Cos => "cos"
  | Cosf => "cosf"
  | Exp => "exp"
  | Exp2 => "exp2"
  | Exp2f => "exp2f"
  | Expf => "expf"
  | Fabs => "fabs"
  | Fabsf => "fabsf"
  | Floor => "floor"
  | Floorf => "floorf"
  | Fma => "fma"
  | Fmaf => "fmaf"
  | Fmax => "fmax"
  | Fmaxf => "fmaxf"
  | Fmin => "fmin"
  | Fminf => "fminf"
  | Free => "free"
  | Log => "log"
  | Log10 => "log10"
  | Log10f => "log10f"
  | Log2 => "log2"
  | Log2f => "log2f"
  | Logf => "logf"
  | Malloc => "malloc"
  | Memcmp => "memcmp"
  | Memcpy => "memcpy"
  | Memmove => "memmove"
  | Memset => "memset"
  | Nearbyint => "nearbyint"
  | Nearbyintf => "nearbyintf"
  | Pow => "pow"
  | Powf => "powf"
  | Powi => "__builtin_powi"
  | Powif => "__builtin_powif"
  | Realloc => "realloc"
  | Rint => "rint"
  | Rintf => "rintf"
  | Round => "round"
  | Roundf => "roundf"
  | Sin => "sin"
  | Sinf => "sinf"
  | Sqrt => "sqrt"
  | Sqrtf => "sqrtf"
  | Trunc => "trunc"
  | Truncf => "truncf"
  end.

(** [BuiltinFn::param_types] *)
Definition param_types (f : BuiltinFn) : list Type_ :=
  match f with
  | Abort => []
  | CProverAssert => [bool_; to_pointer c_char]
  | CProverAssume => [bool_]
  | Calloc => [size_t; size_t]
  | Ceil => [double]
  | Ceilf => [float]
  | Copysign | Fmax | Fmin | Pow => [double; double]
  | Copysignf => [float; float]
  | Cos => [double]
  | Cosf => [float]
  | Exp => [double]
  | Exp2 => [double]
  | Exp2f => [float]
  | Expf => [float]
  | Fabs => [double]
  | Fabsf => [float]
  | Floor => [double]
  | Floorf => [float]
  | Fma => [double; double; double]
  | Fmaf => [float; float; float]
  | Fmaxf => [float; float]
  | Fminf => [float; float]
  | Free => [void_pointer]
  | Log => [double]
  | Log10 => [double]
  | Log10f => [float]
  | Log2 => [double]
  | Log2f => [float]
  | Logf => [float]
  | Malloc => [size_t]
  | Memcmp => [void_pointer; void_pointer; size_t]
  | Memcpy => [void_pointer; void_pointer; size_t]
  | Memmove => [void_pointer; void_pointer; size_t]
  | Memset => [void_pointer; c_int; size_t]
  | Nearbyint => [double]
  | Nearbyintf => [float]
  | Powf => [float; float]
  | Powi => [double; c_int]
  | Powif => [float; c_int]
  | Realloc => [void_pointer; size_t]
  | Rint => [double]
  | Rintf => [float]
  | Round => [double]
  | Roundf => [float]
  | Sin => [double]
  | Sinf => [float]
  | Sqrt => [double]
  | Sqrtf => [float]
  | Trunc => [double]
  | Truncf => [float]
  end.

(** [BuiltinFn::return_type] *)
Definition builtin_return_type (f : BuiltinFn) : Type_ :=
  match f with
  | Abort => empty
  | CProverAssert => empty
  | CProverAssume => empty
  | Calloc => void_pointer
  | Ceil => double
  | Ceilf => float
  | Copysign => double
  | Copysignf => float
  | Cos => double
  | Cosf => float
  | Exp => double
  | Exp2 => double
  | Exp2f => float
  | Expf => float
  | Fabs => double
  | Fabsf => float
  | Floor => double
  | Floorf => float
  | Fma => double
  | Fmaf => float
  | Fmax => double
  | Fmaxf => float
  | Fmin => double
  | Fminf => float
  | Free => empty
  | Log => double
  | Log10 => double
  | Log10f => float
  | Log2 => double
  | Log2f => float
  | Logf => float
  | Malloc => void_pointer
  | Memcmp => c_int
  | Memcpy => void_pointer
  | Memmove => void_pointer
  | Memset => void_pointer
  | Nearbyint => double
  | Nearbyintf => float
  | Pow => double
  | Powf => float
  | Powi => double
  | Powif => float
  | Realloc => void_pointer
  | Rint => double
  | Rintf => float
  | Round => double
  | Roundf => float
  | Sin => double
  | Sinf => float
  | Sqrt => double
  | Sqrtf => float
  | Trunc => double
  | Truncf => float
  end.

(** [BuiltinFn::list_all] *)
Definition list_all : list BuiltinFn :=
  [Abort; CProverAssert; CProverAssume; Calloc; Ceil; Ceilf; Copysign; Copysignf; Cos; Cosf; Exp;
   Exp2; Exp2f; Expf; Fabs; Fabsf; Floor; Floorf; Fma; Fmaf; Fmax; Fmaxf; Fmin; Fminf; Free;
   Log; Log10; Log10f; Log2; Log2f; Logf; Malloc; Memcmp; Memcpy; Memmove; Memset; Nearbyint;
   Nearbyintf; Pow; Powf; Powi; Powif; Realloc; Rint; Rintf; Round; Roundf; Sin; Sinf; Sqrt;
   Sqrtf; Trunc; Truncf].

Definition as_symbol (f : BuiltinFn) : outcome Symbol :=
  builtin_function (to_string f) (param_types f) (builtin_return_type f).

Definition as_expr (f : BuiltinFn) : outcome Expr :=
  s ← as_symbol f; Ok (to_expr s).

(** [BuiltinFn::call] *)
Definition builtin_call (f : BuiltinFn) (arguments : list Expr) (loc : Location) : outcome Expr :=
  e ← as_expr f;
  c ← call (with_location e loc) arguments;
  Ok (with_location c loc).

(** ** Every builtin can be called *)

Lemma as_symbol_total f :
  exists s, as_symbol f = Ok s /\ sym_name s = to_string f
    /\ sym_typ s = TCode (map (fun t => mkParameter t None None) (param_types f))
                      (builtin_return_type f).
Proof. destruct f; (eexists; split; [reflexivity | split; reflexivity]). Qed.

Lemma typecheck_code_args ts args :
  (length args =? length (map (fun t => mkParameter t None None) ts))%nat
  && typecheck_named_args (map (fun t => mkParameter t None None) ts) args
  = forallb2 (fun t a => type_eqb (typ a) t) ts args.
Proof.
  unfold typecheck_named_args. revert args. induction ts as [|t ts IH]; intros [|a args]; cbn; try done.
  rewrite <- IH, !andb_assoc. f_equal. apply andb_comm.
Qed.

(** ** Properties *)

(** A call of a builtin is accepted exactly when its arguments have the types of its
    parameters, one each, and it then has the builtin's return type; in particular
    no builtin is unusable. *)
Theorem builtin_call_exact (f : BuiltinFn) (args : list Expr) (loc : Location) :
  if forallb2 (fun t a => type_eqb (typ a) t) (param_types f) args
  then exists e, builtin_call f args loc = Ok e /\ typ e = builtin_return_type f
  else builtin_call f args loc = Panic.
Proof.
  unfold builtin_call, as_expr. destruct (as_symbol_total f) as (s & -> & _ & Ht).
  cbn [mbind outcome_bind]. unfold call, typecheck_call, to_expr, symbol_expression, expr.
  cbn [with_location typ]. rewrite Ht. cbn [is_code parameters unwrap mbind outcome_bind
    return_type]. rewrite typecheck_code_args.
  destruct (forallb2 _ (param_types f) args); [|done]. eexists. split; [reflexivity | done].
Qed.
