(* ===== verification/Stmt.v ===== *)
(** * Statement constructors ([cbmc/src/goto_program/stmt.rs])

    As for expressions, the fields of [Stmt] are private and the functions below
    are the only constructors.  [Stmt::assign] does not reject an assignment
    between different types but replaces it by a failing assertion followed by a
    nondeterministic assignment; its message prints both types with the derived
    [Debug], written out here up to the escaping of string literals
    ([StrDebug]). *)

From S2P Require Import Prelude CbmcString MachineModel Location Typ Ast SymbolTable Expr Symbol.
From S2P Require Import Builtin.

(** [<str as Debug>::fmt]: the string quoted and escaped. *)
Class StrDebug := str_debug : string -> string.

Section Debug.
Context `{StrDebug}.

(** [#[derive(Debug)]] on [Option<InternedString>] *)
Definition option_debug (o : option InternedString) : string :=
  match o with None => "None" | Some s => "Some(" +:+ str_debug s +:+ ")" end.

Definition list_debug (l : list string) : string := "[" +:+ join ", " l +:+ "]".

(** [#[derive(Debug)]] on [Type], [DatatypeComponent], [Parameter] *)
Fixpoint type_debug (t : Type_) : string :=
  match t with
  | TArray typ size => "Array { typ: " +:+ type_debug typ +:+ ", size: " +:+ pretty size +:+ " }"
  | TBool => "Bool"
  | TCBitField typ width =>
      "CBitField { typ: " +:+ type_debug typ +:+ ", width: " +:+ pretty width +:+ " }"
  | TCInteger c => "CInteger(" +:+ c_int_debug c +:+ ")"
  | TCode ps r =>
      "Code { parameters: " +:+ list_debug (map parameter_debug ps) +:+ ", return_type: "
        +:+ type_debug r +:+ " }"
  | TConstructor => "Constructor"
  | TDouble => "Double"
  | TEmpty => "Empty"
  | TFlexibleArray typ => "FlexibleArray { typ: " +:+ type_debug typ +:+ " }"
  | TFloat => "Float"
  | TIncompleteStruct tag => "IncompleteStruct { tag: " +:+ str_debug tag +:+ " }"
  | TIncompleteUnion tag => "IncompleteUnion { tag: " +:+ str_debug tag +:+ " }"
  | TInfiniteArray typ => "InfiniteArray { typ: " +:+ type_debug typ +:+ " }"
  | TPointer typ => "Pointer { typ: " +:+ type_debug typ +:+ " }"
  | TSignedbv width => "Signedbv { width: " +:+ pretty width +:+ " }"
  | TStruct tag cs =>
      "Struct { tag: " +:+ str_debug tag +:+ ", components: "
        +:+ list_debug (map component_debug cs) +:+ " }"
  | TStructTag tag => "StructTag(" +:+ str_debug tag +:+ ")"
  | TUnion tag cs =>
      "Union { tag: " +:+ str_debug tag +:+ ", components: "
        +:+ list_debug (map component_debug cs) +:+ " }"
  | TUnionTag tag => "UnionTag(" +:+ str_debug tag +:+ ")"
  | TUnsignedbv width => "Unsignedbv { width: " +:+ pretty width +:+ " }"
  | TVariadicCode ps r =>
      "VariadicCode { parameters: " +:+ list_debug (map parameter_debug ps)
        +:+ ", return_type: " +:+ type_debug r +:+ " }"
  | TVector typ size =>
      "Vector { typ: " +:+ type_debug typ +:+ ", size: " +:+ pretty size +:+ " }"
  end
with component_debug (c : DatatypeComponent) : string :=
  match c with
  | Field name t => "Field { name: " +:+ str_debug name +:+ ", typ: " +:+ type_debug t +:+ " }"
  | Padding name bits =>
      "Padding { name: " +:+ str_debug name +:+ ", bits: " +:+ pretty bits +:+ " }"
  end
with parameter_debug (p : Parameter_) : string :=
  match p with
  | mkParameter t i b =>
      "Parameter { typ: " +:+ type_debug t +:+ ", identifier: " +:+ option_debug i
        +:+ ", base_name: " +:+ option_debug b +:+ " }"
  end.
End Debug.

(** The macro [stmt!]. *)
Definition stmt (b : StmtBody) (loc : Location) : Stmt := mkStmt b loc.

(** ** Constructors *)

Definition atomic_block (stmts : list Stmt) (loc : Location) : Stmt :=
  stmt (SAtomicBlock stmts) loc.
Definition block (stmts : list Stmt) (loc : Location) : Stmt := stmt (SBlock stmts) loc.
Definition break_stmt (loc : Location) : Stmt := stmt SBreak loc.
Definition continue_stmt (loc : Location) : Stmt := stmt SContinue loc.
Definition code_expression (e : Expr) (loc : Location) : Stmt := stmt (SExpression e) loc.

(** [Expr::as_stmt] *)
Definition as_stmt (e : Expr) (loc : Location) : Stmt := code_expression e loc.

Definition assert_ (cond : Expr) (msg : string) (loc : Location) : outcome Stmt :=
  assert! is_bool (typ cond);
  m ← string_constant msg;
  c ← builtin_call CProverAssert [cond; m] loc;
  Ok (as_stmt c loc).

Definition assert_false (msg : string) (loc : Location) : outcome Stmt :=
  assert_ bool_false msg loc.

Definition assume (cond : Expr) (loc : Location) : outcome Stmt :=
  assert! is_bool (typ cond);
  Ok (stmt (SAssume cond) loc).

(** [Stmt::assert_sanity_check] *)
Definition newline : string := String (Ascii.ascii_of_nat 10) EmptyString.
Definition assert_sanity_check (expect_true : Expr) (message url : string) (loc : Location) :
    outcome Stmt :=
  let assert_msg :=
    "Code generation sanity check: " +:+ message +:+ ". Please report failures:" +:+ newline
      +:+ url in
  a ← assert_ expect_true assert_msg loc;
  s ← assume expect_true loc;
  Ok (block [a; s] loc).

(** [Stmt::assign] *)
Definition assign `{StrDebug} (lhs rhs : Expr) (loc : Location) : outcome Stmt :=
  if negb (type_eqb (typ lhs) (typ rhs)) then
    assert_stmt ←
      assert_false
        ("Reached assignment statement with unequal types " +:+ type_debug (typ lhs) +:+ " "
           +:+ type_debug (typ rhs)) loc;
    let nondet_value := type_nondet (typ lhs) in
    let nondet_assign_stmt := stmt (SAssign lhs nondet_value) loc in
    Ok (block [assert_stmt; nondet_assign_stmt] loc)
  else Ok (stmt (SAssign lhs rhs) loc).

Definition decl (lhs : Expr) (v : option Expr) (loc : Location) : outcome Stmt :=
  assert! is_symbol lhs;
  assert! (match v with None => true | Some x => type_eqb (typ lhs) (typ x) end);
  Ok (stmt (SDecl lhs v) loc).

Definition for_loop (init : Stmt) (cond : Expr) (update b : Stmt) (loc : Location) :
    outcome Stmt :=
  assert! is_bool (typ cond);
  Ok (stmt (SFor init cond update b) loc).

Definition function_call (lhs : option Expr) (function : Expr) (arguments : list Expr)
    (loc : Location) : outcome Stmt :=
  b ← typecheck_call function arguments;
  assert! b;
  _ ← (match lhs with
       | None => Ok tt
       | Some l =>
           rt ← unwrap (return_type (typ function));
           rassert (type_eqb (typ l) rt)
       end);
  Ok (stmt (SFunctionCall lhs function arguments) loc).

Definition goto (dest : InternedString) (loc : Location) : outcome Stmt :=
  assert! negb (String.eqb dest "");
  Ok (stmt (SGoto dest) loc).

Definition if_then_else (i : Expr) (t : Stmt) (e : option Stmt) (loc : Location) : outcome Stmt :=
  assert! is_bool (typ i);
  Ok (stmt (SIfthenelse i t e) loc).

Definition ret (e : option Expr) (loc : Location) : Stmt := stmt (SReturn e) loc.
Definition skip (loc : Location) : Stmt := stmt SSkip loc.

(** [SwitchCase::new] *)
Definition switch_case (c : Expr) (b : Stmt) : SwitchCase := mkSwitchCase c b.

Definition switch (control : Expr) (cases : list SwitchCase) (default : option Stmt)
    (loc : Location) : outcome Stmt :=
  assert! forallb (fun x => type_eqb (typ (case x)) (typ control)) cases;
  Ok (stmt (SSwitch control cases default) loc).

Definition while_loop (cond : Expr) (b : Stmt) (loc : Location) : outcome Stmt :=
  assert! is_bool (typ cond);
  Ok (stmt (SWhile cond b) loc).

Definition with_label (s : Stmt) (label : InternedString) : outcome Stmt :=
  assert! negb (String.eqb label "");
  Ok (stmt (SLabel label s) (stmt_location s)).

Definition is_expression (s : Stmt) : bool :=
  match body s with SExpression _ => true | _ => false end.

(** [StmtBody::insert_sub] *)
Definition insert_sub (b : StmtBody) (s : Stmt) : outcome StmtBody :=
  match b with
  | SBlock stmts => Ok (SBlock (stmts ++ [s]))
  | _ => Panic
  end.

(** ** Assignments never fail *)

Lemma assert_false_total msg loc :
  exists m c, string_constant msg = Ok m
    /\ assert_false msg loc = Ok (stmt (SExpression c) loc)
    /\ exists f, value c = EFunctionCall f [bool_false; m].
Proof. do 2 eexists. split; [reflexivity|]. split; [reflexivity|]. eexists. reflexivity. Qed.

(** ** Properties *)

(** [Stmt::assign] accepts every pair of expressions.  With equal types it is the
    assignment; with different types it is an assertion that always fails,
    followed by the assignment of an arbitrary value of the type of the left-hand
    side, so that a type confusion in the compiler surfaces as a failed property
    of the verified program instead of a crash. *)
Theorem assign_total `{StrDebug} (lhs rhs : Expr) (loc : Location) :
  exists s, assign lhs rhs loc = Ok s
    /\ if type_eqb (typ lhs) (typ rhs) then s = stmt (SAssign lhs rhs) loc
       else exists c f m, s = block [stmt (SExpression c) loc;
                                     stmt (SAssign lhs (expr ENondet (typ lhs))) loc] loc
              /\ value c = EFunctionCall f [bool_false; m].
Proof.
  unfold assign. destruct (type_eqb (typ lhs) (typ rhs)); cbn [negb]; [by eexists|].
  destruct (assert_false_total ("Reached assignment statement with unequal types "
    +:+ type_debug (typ lhs) +:+ " " +:+ type_debug (typ rhs)) loc) as (m & c & _ & -> & f & Hc).
  cbn [mbind outcome_bind]. eexists. split; [reflexivity|]. by exists c, f, m.
Qed.
