(* ===== verification/Env.v ===== *)
(** * The initial symbol table ([cbmc/src/env.rs], [SymbolTable::new])

    A new table holds the architecture constants of the machine model, a few
    environment symbols and every builtin.  [insert] panics on a name that is
    already there, so the construction succeeds only because all these names are
    distinct: [new_total]. *)

From S2P Require Import Prelude CbmcString MachineModel Location Typ Ast SymbolTable Expr Symbol.
From S2P Require Import Builtin.

(** [env::int_constant] *)
Definition env_int_constant (name : string) (v : Z) : outcome Symbol :=
  e ← int_constant v c_int;
  Ok (constant name name name e Location.none).

Definition int_constant_from_bool (name : string) (v : bool) : outcome Symbol :=
  e ← int_constant (if v then 1 else 0)%Z c_int;
  Ok (constant name name name e Location.none).

(** [env::string_constant] *)
Definition env_string_constant (name v : string) : outcome Symbol :=
  e ← string_constant v;
  Ok (constant name name name e Location.none).

Definition machine_model_symbols (mm : MachineModel) : outcome (list Symbol) :=
  sequence [
    env_string_constant "__CPROVER_architecture_arch" (architecture mm);
    int_constant_from_bool "__CPROVER_architecture_NULL_is_zero" (null_is_zero mm);
    env_int_constant "__CPROVER_architecture_alignment" (Z.of_N (alignment mm));
    env_int_constant "__CPROVER_architecture_bool_width" (Z.of_N (bool_width mm));
    int_constant_from_bool "__CPROVER_architecture_char_is_unsigned" (char_is_unsigned mm);
    env_int_constant "__CPROVER_architecture_char_width" (Z.of_N (char_width mm));
    env_int_constant "__CPROVER_architecture_double_width" (Z.of_N (double_width mm));
    env_int_constant "__CPROVER_architecture_endianness" (if is_big_endian mm then 2 else 1)%Z;
    env_int_constant "__CPROVER_architecture_int_width" (Z.of_N (int_width mm));
    env_int_constant "__CPROVER_architecture_long_double_width" (Z.of_N (long_double_width mm));
    env_int_constant "__CPROVER_architecture_long_int_width" (Z.of_N (long_int_width mm));
    env_int_constant "__CPROVER_architecture_long_long_int_width"
      (Z.of_N (long_long_int_width mm));
    env_int_constant "__CPROVER_architecture_memory_operand_size"
      (Z.of_N (memory_operand_size mm));
    env_int_constant "__CPROVER_architecture_pointer_width" (Z.of_N (pointer_width mm));
    env_int_constant "__CPROVER_architecture_short_int_width" (Z.of_N (short_int_width mm));
    env_int_constant "__CPROVER_architecture_single_width" (Z.of_N (single_width mm));
    int_constant_from_bool "__CPROVER_architecture_wchar_t_is_unsigned" (wchar_t_is_unsigned mm);
    env_int_constant "__CPROVER_architecture_wchar_t_width" (Z.of_N (wchar_t_width mm));
    env_int_constant "__CPROVER_architecture_word_size" (Z.of_N (word_size mm));
    env_int_constant "__CPROVER_rounding_mode" (rounding_mode_to_int (rounding_mode mm))
  ].

Definition additional_env_symbols : outcome (list Symbol) :=
  sequence [
    builtin_function "__CPROVER_initialize" [] empty;
    env_int_constant "__CPROVER_malloc_failure_mode_assert_then_assume" 2;
    env_int_constant "__CPROVER_malloc_failure_mode_return_null" 1;
    Ok (typedef "__CPROVER_size_t" "__CPROVER_size_t" size_t Location.none);
    (t ← unsigned_int 8;
     Ok (with_is_extern
           (static_variable "__CPROVER_memory" "__CPROVER_memory" (infinite_array_of t)
              Location.none) true))
  ].

(** [.into_iter().for_each(|s| symtab.insert(s))] *)
Fixpoint insert_all (st : SymbolTable) (l : list Symbol) : outcome SymbolTable :=
  match l with
  | [] => Ok st
  | s :: l => st ← insert st s; insert_all st l
  end.

(** [SymbolTable::new] *)
Definition symtab_new (mm : MachineModel) : outcome SymbolTable :=
  let symtab := mkSymbolTable ∅ mm in
  ms ← machine_model_symbols mm;
  symtab ← insert_all symtab ms;
  es ← additional_env_symbols;
  symtab ← insert_all symtab es;
  bs ← map_outcome as_symbol list_all;
  insert_all symtab bs.

(** ** The construction succeeds *)

Lemma insert_all_total l st :
  NoDup (map sym_name l) -> Forall (fun s => lookup st (sym_name s) = None) l ->
  insert_all st l = Ok (foldl raw_insert st l).
Proof.
  revert st. induction l as [|s l IH]; intros st; cbn; [done|].
  rewrite NoDup_cons. intros [Hs Hnd] [Hn Hl]%Forall_cons.
  rewrite (proj2 (insert_ok st s (raw_insert st s))) by done. cbn. apply IH; [done|].
  rewrite Forall_forall in *. intros x Hx. unfold lookup. cbn.
  rewrite lookup_insert_ne; [by apply Hl|]. intros E. apply Hs. rewrite E.
  by apply list_elem_of_fmap_2.
Qed.

Lemma foldl_raw_insert_lookup l st name :
  name ∉ map sym_name l -> lookup (foldl raw_insert st l) name = lookup st name.
Proof.
  revert st. induction l as [|s l IH]; intros st; cbn; [done|].
  rewrite not_elem_of_cons. intros [Hne Hn]. rewrite IH by done. unfold lookup. cbn.
  by rewrite lookup_insert_ne.
Qed.

Lemma foldl_raw_insert_found l st s :
  NoDup (map sym_name l) -> s ∈ l -> lookup (foldl raw_insert st l) (sym_name s) = Some s.
Proof.
  revert st. induction l as [|x l IH]; intros st; cbn; [by rewrite elem_of_nil|].
  rewrite NoDup_cons, elem_of_cons. intros [Hx Hnd] [->|Hs]; [|by apply IH].
  rewrite foldl_raw_insert_lookup by done. unfold lookup. cbn. by rewrite lookup_insert_eq.
Qed.

Lemma foldl_raw_insert_model l st : machine_model (foldl raw_insert st l) = machine_model st.
Proof. revert st. induction l as [|s l IH]; intros st; cbn; [done|]. by rewrite IH. Qed.

Lemma foldl_raw_insert_inv l st name s :
  lookup (foldl raw_insert st l) name = Some s ->
  lookup st name = Some s \/ (s ∈ l /\ sym_name s = name).
Proof.
  revert st. induction l as [|x l IH]; intros st; cbn; [by left|]. intros [Hs|[Hs Hn]]%IH.
  - unfold lookup in Hs. cbn in Hs. apply lookup_insert_Some in Hs as [[Hn ->]|[_ Hs]].
    + right. split; [left | done].
    + by left.
  - right. split; [by right | done].
Qed.

(** The names of the symbols of a new table, in the order of insertion. *)
Definition new_names : list string :=
  ["__CPROVER_architecture_arch"; "__CPROVER_architecture_NULL_is_zero";
   "__CPROVER_architecture_alignment"; "__CPROVER_architecture_bool_width";
   "__CPROVER_architecture_char_is_unsigned"; "__CPROVER_architecture_char_width";
   "__CPROVER_architecture_double_width"; "__CPROVER_architecture_endianness";
   "__CPROVER_architecture_int_width"; "__CPROVER_architecture_long_double_width";
   "__CPROVER_architecture_long_int_width"; "__CPROVER_architecture_long_long_int_width";
   "__CPROVER_architecture_memory_operand_size"; "__CPROVER_architecture_pointer_width";
   "__CPROVER_architecture_short_int_width"; "__CPROVER_architecture_single_width";
   "__CPROVER_architecture_wchar_t_is_unsigned"; "__CPROVER_architecture_wchar_t_width";
   "__CPROVER_architecture_word_size"; "__CPROVER_rounding_mode"; "__CPROVER_initialize";
   "__CPROVER_malloc_failure_mode_assert_then_assume";
   "__CPROVER_malloc_failure_mode_return_null"; "__CPROVER_size_t"; "__CPROVER_memory"]
  ++ map to_string list_all.

Lemma new_names_nodup : NoDup new_names.
Proof. apply (bool_decide_unpack _). vm_compute. exact I. Qed.

Lemma machine_model_symbols_total mm :
  exists l, machine_model_symbols mm = Ok l /\ map sym_name l = take 20 new_names.
Proof. eexists. split; reflexivity. Qed.

Lemma additional_env_symbols_total :
  exists l, additional_env_symbols = Ok l /\ map sym_name l = take 5 (drop 20 new_names).
Proof. eexists. split; reflexivity. Qed.

Lemma builtin_symbols_total :
  exists l, map_outcome as_symbol list_all = Ok l /\ map sym_name l = map to_string list_all.
Proof. eexists. split; reflexivity. Qed.

(** All the symbols of a new table. *)
Lemma symtab_new_symbols mm :
  exists l st, symtab_new mm = Ok st /\ map sym_name l = new_names
    /\ st = foldl raw_insert (mkSymbolTable ∅ mm) l
    /\ exists ms es bs, l = ms ++ es ++ bs /\ machine_model_symbols mm = Ok ms
        /\ additional_env_symbols = Ok es /\ map_outcome as_symbol list_all = Ok bs.
Proof.
  destruct (machine_model_symbols_total mm) as (ms & Hms & Nms).
  destruct additional_env_symbols_total as (es & Hes & Nes).
  destruct builtin_symbols_total as (bs & Hbs & Nbs).
  assert (Hn : map sym_name (ms ++ es ++ bs) = new_names).
  { rewrite !map_app, Nms, Nes, Nbs. reflexivity. }
  pose proof new_names_nodup as Hnd. rewrite <- Hn, !map_app in Hnd.
  apply NoDup_app in Hnd as (Hnd1 & Hd1 & (Hnd2 & Hd2 & Hnd3)%NoDup_app).
  exists (ms ++ es ++ bs), (foldl raw_insert (mkSymbolTable ∅ mm) (ms ++ es ++ bs)).
  split; [|split; [done|split; [done|by exists ms, es, bs]]].
  unfold symtab_new. rewrite Hms, Hes, Hbs. cbn [mbind outcome_bind].
  rewrite insert_all_total; [|done|]; cycle 1.
  { apply Forall_forall. intros x _. apply lookup_empty. }
  cbn [mbind outcome_bind]. rewrite insert_all_total; [|done|]; cycle 1.
  { apply Forall_forall. intros x Hx. rewrite foldl_raw_insert_lookup; [apply lookup_empty|].
    intros Hin. apply (Hd1 _ Hin). rewrite elem_of_app. left. by apply list_elem_of_fmap_2. }
  cbn [mbind outcome_bind]. rewrite insert_all_total; [by rewrite !foldl_app|done|].
  apply Forall_forall. intros x Hx. rewrite !foldl_raw_insert_lookup; [apply lookup_empty| |].
  - intros Hin. apply (Hd1 _ Hin). rewrite elem_of_app. right. by apply list_elem_of_fmap_2.
  - intros Hin. apply (Hd2 _ Hin). by apply list_elem_of_fmap_2.
Qed.

(** ** Properties *)

(** [SymbolTable::new] succeeds for every machine model: no two of the architecture
    constants, environment symbols and builtins have one name.  The table has the
    machine model given, every builtin under its own name, and nothing besides
    these symbols. *)
Theorem new_total (mm : MachineModel) :
  exists st, symtab_new mm = Ok st /\ machine_model st = mm /\ symtab_ok st
    /\ (forall f, exists s, as_symbol f = Ok s /\ lookup st (to_string f) = Some s)
    /\ dom (symbol_table st) = list_to_set new_names.
Proof.
  destruct (symtab_new_symbols mm) as (l & st & Hst & Hn & -> & ms & es & bs & Hl & _ & _ & Hbs).
  eexists. split; [exact Hst|]. split; [apply foldl_raw_insert_model|].
  assert (Hnd : NoDup (map sym_name l)) by (rewrite Hn; apply new_names_nodup).
  split; [|split].
  - intros name s [Hs|[_ Hs]]%foldl_raw_insert_inv; [|done].
    by unfold lookup in Hs; cbn in Hs; rewrite lookup_empty in Hs.
  - intros f. assert (Hf : f ∈ list_all) by (destruct f; apply (bool_decide_unpack _); reflexivity).
    apply map_outcome_ok in Hbs. apply list_elem_of_lookup_1 in Hf as [i Hi].
    destruct (Forall2_lookup_l _ _ _ _ _ Hbs Hi) as (s & Hs & Hsym). exists s. split; [done|].
    assert (to_string f = sym_name s) as ->.
    { unfold as_symbol, builtin_function in Hsym. by outcome_inv. }
    apply foldl_raw_insert_found; [done|]. rewrite Hl, !elem_of_app. right; right.
    by eapply list_elem_of_lookup_2.
  - apply set_eq. intros x. rewrite elem_of_list_to_set, <- Hn, elem_of_dom. split.
    + intros [s [Hs|[Hs <-]]%foldl_raw_insert_inv]; [|by apply list_elem_of_fmap_2].
      by unfold lookup in Hs; cbn in Hs; rewrite lookup_empty in Hs.
    + intros (s & -> & Hs)%list_elem_of_fmap. exists s. by apply foldl_raw_insert_found.
Qed.
