(* ===== verification/Eval.v ===== *)
(** * What the compound arithmetic constructors compute

    CBMC gives goto expressions their meaning; it is not part of this
    repository.  [GotoSemantics] states what the constructors of [expr.rs] rely
    on: the meaning of integer constants, of wrapping addition and subtraction,
    of the overflow predicates, comparisons and conditionals, as documented by
    CBMC for bit-vector arithmetic.  Against this interface,
    [Expr::saturating_add] and [Expr::saturating_sub] are shown to compute the
    clamped sum and difference.  [GotoBits] adds shifts, bitwise or and casts for
    the C back end ([ExprTransformer.v]).  [bitvector_semantics] and
    [bitvector_bits] are an executable instance of both interfaces. *)

From S2P Require Import Prelude CbmcString MachineModel Location Typ Ast SymbolTable Expr.

Open Scope Z_scope.

Inductive val := VInt (x : Z) | VBool (b : bool).

(** The width and signedness of an integer type. *)
Definition width_of (t : Type_) (mm : MachineModel) : N := default 0%N (native_width t mm).

Definition in_rangeb (w : N) (signed : bool) (x : Z) : bool :=
  if signed then (- 2 ^ (Z.of_N w - 1) <=? x) && (x <? 2 ^ (Z.of_N w - 1))
  else (0 <=? x) && (x <? 2 ^ Z.of_N w).

Definition has_value (eval : Expr -> option val) (mm : MachineModel) (e : Expr) (x : Z) : Prop :=
  eval e = Some (VInt x) /\ in_range (width_of (typ e) mm) (is_signed (typ e) mm) x.

(** Both operands of a binary operator are integers of one type. *)
Definition int_operands (eval : Expr -> option val) (mm : MachineModel) (a b : Expr) (x y : Z) :
    Prop :=
  is_integer (typ a) = true /\ typ a ≃ typ b /\ eval a = Some (VInt x) /\ eval b = Some (VInt y).

Class GotoSemantics (mm : MachineModel) (eval : Expr -> option val) : Prop := {
  eval_int_constant i t l :
    is_integer t = true -> in_range (width_of t mm) (is_signed t mm) i ->
    eval (mkExpr (EIntConstant i) t l) = Some (VInt i);
  eval_plus a b x y l :
    int_operands eval mm a b x y ->
    eval (mkExpr (EBinOp OpPlus a b) (typ a) l)
    = Some (VInt (wrap (width_of (typ a) mm) (is_signed (typ a) mm) (x + y)));
  eval_minus a b x y l :
    int_operands eval mm a b x y ->
    eval (mkExpr (EBinOp OpMinus a b) (typ a) l)
    = Some (VInt (wrap (width_of (typ a) mm) (is_signed (typ a) mm) (x - y)));
  eval_overflow_plus a b x y l :
    int_operands eval mm a b x y ->
    eval (mkExpr (EBinOp OpOverflowPlus a b) TBool l)
    = Some (VBool (negb (in_rangeb (width_of (typ a) mm) (is_signed (typ a) mm) (x + y))));
  eval_overflow_minus a b x y l :
    int_operands eval mm a b x y ->
    eval (mkExpr (EBinOp OpOverflowMinus a b) TBool l)
    = Some (VBool (negb (in_rangeb (width_of (typ a) mm) (is_signed (typ a) mm) (x - y))));
  eval_lt a b x y l :
    int_operands eval mm a b x y ->
    eval (mkExpr (EBinOp OpLt a b) TBool l) = Some (VBool (x <? y));
  eval_equal a b x y l :
    int_operands eval mm a b x y ->
    eval (mkExpr (EBinOp OpEqual a b) TBool l) = Some (VBool (x =? y));
  eval_notequal a b x y l :
    int_operands eval mm a b x y ->
    eval (mkExpr (EBinOp OpNotequal a b) TBool l) = Some (VBool (negb (x =? y)));
  eval_if c t e b l :
    eval c = Some (VBool b) ->
    eval (mkExpr (EIf c t e) (typ t) l) = if b then eval t else eval e;
}.

(** What the C back end relies on besides: left shifts drop the bits that leave the
    type, bitwise or, and casts between integer types that keep the low bits. *)
Class GotoBits (mm : MachineModel) (eval : Expr -> option val) : Prop := {
  eval_shl a b x y l :
    is_integer (typ a) = true -> is_integer (typ b) = true ->
    eval a = Some (VInt x) -> eval b = Some (VInt y) ->
    0 <= y < Z.of_N (width_of (typ a) mm) ->
    eval (mkExpr (EBinOp OpShl a b) (typ a) l)
    = Some (VInt (wrap (width_of (typ a) mm) (is_signed (typ a) mm) (Z.shiftl x y)));
  eval_bitor a b x y l :
    int_operands eval mm a b x y ->
    eval (mkExpr (EBinOp OpBitor a b) (typ a) l) = Some (VInt (Z.lor x y));
  eval_typecast e x t l :
    is_integer (typ e) = true -> is_integer t = true -> eval e = Some (VInt x) ->
    eval (mkExpr (ETypecast e) t l)
    = Some (VInt (wrap (width_of t mm) (is_signed t mm) x));
}.

Lemma in_rangeb_spec w sg x : in_rangeb w sg x = true <-> in_range w sg x.
Proof. unfold in_rangeb, in_range. destruct sg; rewrite andb_true_iff, Z.ltb_lt, Z.leb_le; lia. Qed.

(** The value between two bounds that is nearest. *)
Definition clamp (lo hi x : Z) : Z := Z.max lo (Z.min hi x).

Lemma clamp_bounds lo hi x : lo <= hi -> lo <= clamp lo hi x <= hi.
Proof. unfold clamp. lia. Qed.

Section Semantics.
Context (mm : MachineModel) (eval : Expr -> option val) {Sem : GotoSemantics mm eval}.

(** The bounds of an integer type of positive width. *)
Lemma integer_bounds t :
  is_integer t = true -> (0 < width_of t mm)%N ->
  exists lo hi,
    min_int_expr t mm = Ok (expr (EIntConstant lo) t)
    /\ max_int_expr t mm = Ok (expr (EIntConstant hi) t)
    /\ lo <= 0 <= hi
    /\ forall x, in_range (width_of t mm) (is_signed t mm) x <-> lo <= x <= hi.
Proof using.
  intros Hi Hw. destruct (integer_native_width t mm Hi) as [w Ew].
  unfold width_of in *. rewrite Ew in *. cbn in *.
  pose proof (Z.pow_pos_nonneg 2 (Z.of_N w - 1)) as Hp.
  pose proof (Z.pow_pos_nonneg 2 (Z.of_N w)) as Hp'.
  assert (exists lo hi, min_int w (is_signed t mm) = Ok lo /\ max_int w (is_signed t mm) = Ok hi
                        /\ lo <= 0 <= hi) as (lo & hi & Hlo & Hhi & H0).
  { destruct (is_signed t mm).
    - rewrite min_int_signed, max_int_signed by done. do 2 eexists. repeat split; lia.
    - rewrite min_int_unsigned, max_int_unsigned. do 2 eexists. repeat split; lia. }
  exists lo, hi. unfold min_int_expr, max_int_expr, int_constant. rewrite Hi, Ew.
  cbn [rassert unwrap mbind outcome_bind]. rewrite Hlo, Hhi.
  split; [done|]. split; [done|]. split; [done|]. intros x. by apply bounds_in_range.
Qed.

(** [e < 0] as [is_negative] builds it. *)
Lemma is_negative_value e x :
  is_integer (typ e) = true -> (0 < width_of (typ e) mm)%N -> has_value eval mm e x ->
  exists n, is_negative e = Ok n /\ typ n = TBool /\ eval n = Some (VBool (x <? 0)).
Proof using Sem.
  intros Hi Hw [He _]. destruct (integer_bounds _ Hi Hw) as (lo & hi & _ & _ & H0 & Hr).
  unfold is_negative, zero, int_constant, lt_, binop. unfold is_numeric. rewrite Hi.
  rewrite orb_true_r. cbn [rassert mbind outcome_bind]. unfold typecheck_binop_args. cbn [typ expr].
  rewrite type_eqb_refl. unfold is_numeric. rewrite Hi, orb_true_r. cbn.
  destruct (is_vector (typ e)) eqn:Ev; [by destruct (typ e)|].
  eexists. split; [reflexivity|]. split; [done|]. apply (eval_lt _ _ x 0).
  repeat split; [done|done|]. apply eval_int_constant; [done|]. apply Hr. lia.
Qed.

Lemma ternary_bool c t e :
  typ c = TBool -> typ t ≃ typ e -> ternary c t e = Ok (expr (EIf c t e) (typ t)).
Proof using.
  intros Hc Ht. unfold ternary, cast_to, can_cast_to, can_cast_from. rewrite Hc.
  rewrite (proj2 (type_eqb_spec _ _) Ht). done.
Qed.

Lemma eval_ternary c t e b :
  eval c = Some (VBool b) -> eval (expr (EIf c t e) (typ t)) = if b then eval t else eval e.
Proof using Sem. apply eval_if. Qed.

(** The skeleton of both saturating operations: the wrapped result, unless the
    overflow predicate holds, when a bound is chosen by a sign. *)
Lemma saturating_value t res ovf neg (r : Z) (ng up : bool) :
  is_integer t = true -> (0 < width_of t mm)%N ->
  typ res = t -> typ ovf = TBool -> typ neg = TBool ->
  eval res = Some (VInt (wrap (width_of t mm) (is_signed t mm) r)) ->
  eval ovf = Some (VBool (negb (in_rangeb (width_of t mm) (is_signed t mm) r))) ->
  eval neg = Some (VBool ng) ->
  (~ in_range (width_of t mm) (is_signed t mm) r -> if up then ng = (0 <? r) else ng = (r <? 0)) ->
  exists lo hi sat e,
    min_int_expr t mm = Ok lo /\ max_int_expr t mm = Ok hi
    /\ (if up then ternary neg hi lo else ternary neg lo hi) = Ok sat
    /\ ternary ovf sat res = Ok e
    /\ typ e = t
    /\ (forall l h, int_constant_value lo = Some l -> int_constant_value hi = Some h ->
        has_value eval mm e (clamp l h r)).
Proof using Sem.
  intros Hi Hw Tr To Tn Er Eo En Hng.
  destruct (integer_bounds _ Hi Hw) as (lo & hi & Hlo & Hhi & H0 & Hrange).
  set (elo := expr (EIntConstant lo) t) in *. set (ehi := expr (EIntConstant hi) t) in *.
  assert (Vlo : eval elo = Some (VInt lo)) by (apply eval_int_constant; [done | apply Hrange; lia]).
  assert (Vhi : eval ehi = Some (VInt hi)) by (apply eval_int_constant; [done | apply Hrange; lia]).
  exists elo, ehi. set (sat := if up then expr (EIf neg ehi elo) t else expr (EIf neg elo ehi) t).
  assert (Tsat : typ sat = t) by (by destruct up).
  exists sat, (expr (EIf ovf sat res) t). split; [done|]. split; [done|].
  split; [by destruct up; apply (ternary_bool neg)|].
  split; [rewrite ternary_bool; [by rewrite Tsat|done|by rewrite Tsat, Tr]|]. split; [done|].
  intros l h [= <-] [= <-]. unfold has_value. cbn [typ expr].
  split; [|apply Hrange, clamp_bounds; lia].
  assert (Vsat : eval sat = Some (VInt (if Bool.eqb up ng then hi else lo))).
  { unfold sat. destruct up; (etransitivity; [exact (eval_ternary neg _ _ ng En)|]);
      by destruct ng. }
  rewrite <- Tsat at 1. rewrite (eval_ternary _ _ _ _ Eo).
  destruct (in_rangeb _ _ r) eqn:Ein; cbn [negb].
  - apply in_rangeb_spec in Ein. rewrite Er, wrap_id by done. apply Hrange in Ein.
    do 2 f_equal. unfold clamp. lia.
  - rewrite Vsat. do 2 f_equal.
    assert (Hout : ~ in_range (width_of t mm) (is_signed t mm) r).
    { intros H%in_rangeb_spec. congruence. }
    specialize (Hng Hout). rewrite Hrange in Hout. unfold clamp.
    destruct up; subst ng; [destruct (Z.ltb_spec 0 r)|destruct (Z.ltb_spec r 0)]; cbn; lia.
Qed.
End Semantics.

(** An executable semantics of integer and boolean expressions. *)
Definition bv_binop (mm : MachineModel) (op : BinaryOperand) (t : Type_) (x y : Z) : option val :=
  let w := width_of t mm in
  let sg := is_signed t mm in
  match op with
  | OpPlus => Some (VInt (wrap w sg (x + y)))
  | OpMinus => Some (VInt (wrap w sg (x - y)))
  | OpMult => Some (VInt (wrap w sg (x * y)))
  | OpOverflowPlus => Some (VBool (negb (in_rangeb w sg (x + y))))
  | OpOverflowMinus => Some (VBool (negb (in_rangeb w sg (x - y))))
  | OpOverflowMult => Some (VBool (negb (in_rangeb w sg (x * y))))
  | OpLt => Some (VBool (x <? y))
  | OpLe => Some (VBool (x <=? y))
  | OpGt => Some (VBool (y <? x))
  | OpGe => Some (VBool (y <=? x))
  | OpEqual => Some (VBool (x =? y))
  | OpNotequal => Some (VBool (negb (x =? y)))
  | OpBitand => Some (VInt (Z.land x y))
  | OpBitor => Some (VInt (Z.lor x y))
  | OpBitxor => Some (VInt (Z.lxor x y))
  | OpShl => Some (VInt (wrap w sg (Z.shiftl x y)))
  | OpAshr => Some (VInt (Z.shiftr x y))
  | OpLshr => Some (VInt (wrap w sg (Z.shiftr (x mod 2 ^ Z.of_N w) y)))
  | OpDiv => if y =? 0 then None else Some (VInt (wrap w sg (Z.quot x y)))
  | OpMod => if y =? 0 then None else Some (VInt (Z.rem x y))
  | _ => None
  end.

Definition bv_connective (op : BinaryOperand) (x y : bool) : option val :=
  match op with OpAnd => Some (VBool (x && y)) | OpOr => Some (VBool (x || y)) | _ => None end.

Fixpoint bv_eval (mm : MachineModel) (e : Expr) : option val :=
  match e with mkExpr v t _ => bv_value mm v t end
with bv_value (mm : MachineModel) (v : ExprValue) (t : Type_) : option val :=
  match v with
  | EIntConstant i => Some (VInt (wrap (width_of t mm) (is_signed t mm) i))
  | EBoolConstant b => Some (VBool b)
  | EBinOp op a b =>
      match bv_eval mm a, bv_eval mm b with
      | Some (VInt x), Some (VInt y) => bv_binop mm op (typ a) x y
      | Some (VBool x), Some (VBool y) => bv_connective op x y
      | _, _ => None
      end
  | EUnOp Not e =>
      match bv_eval mm e with Some (VBool b) => Some (VBool (negb b)) | _ => None end
  | EUnOp UnaryMinus e =>
      match bv_eval mm e with
      | Some (VInt x) => Some (VInt (wrap (width_of (typ e) mm) (is_signed (typ e) mm) (- x)))
      | _ => None
      end
  | EIf c t e =>
      match bv_eval mm c with
      | Some (VBool true) => bv_eval mm t
      | Some (VBool false) => bv_eval mm e
      | _ => None
      end
  | ETypecast e =>
      match bv_eval mm e with
      | Some (VInt x) =>
          if is_integer t then Some (VInt (wrap (width_of t mm) (is_signed t mm) x)) else None
      | Some (VBool b) => if is_integer t then Some (VInt (Z.b2z b)) else None
      | _ => None
      end
  | _ => None
  end.

#[export] Instance bitvector_semantics mm : GotoSemantics mm (bv_eval mm).
Proof.
  split; try (intros a b x y l (Hi & Ht & Ha & Hb); cbn; by rewrite Ha, Hb).
  - intros i t l _ Hr. cbn. do 2 f_equal. destruct (N.eq_0_gt_0_cases (width_of t mm)) as [Hw|Hw];
      [|by apply wrap_id]. unfold in_range, wrap in *. rewrite Hw in *.
    destruct (is_signed t mm); cbn in *; [lia|]. by rewrite Z.mod_small.
  - intros c t e [] l H; cbn; by rewrite H.
Qed.

#[export] Instance bitvector_bits mm : GotoBits mm (bv_eval mm).
Proof.
  split.
  - intros a b x y l _ _ Ha Hb _. cbn. by rewrite Ha, Hb.
  - intros a b x y l (_ & _ & Ha & Hb). cbn. by rewrite Ha, Hb.
  - intros e x t l _ Ht He. cbn. by rewrite He, Ht.
Qed.

(** ** Saturating arithmetic *)

Section Saturation.
Context (mm : MachineModel) (eval : Expr -> option val) {Sem : GotoSemantics mm eval}.

Lemma binop_integer op a b :
  is_integer (typ a) = true -> typ a ≃ typ b ->
  op ∈ [OpPlus; OpMinus; OpOverflowPlus; OpOverflowMinus; OpEqual; OpNotequal] ->
  binop a op b = Ok (expr (EBinOp op a b) (binop_return_type op a b)).
Proof using.
  intros Hi Ht%type_eqb_spec Hop. unfold binop, typecheck_binop_args, is_numeric.
  rewrite Ht, Hi, !orb_true_r. rewrite !elem_of_cons, elem_of_nil in Hop.
  repeat (destruct Hop as [->|Hop]; [done|]). done.
Qed.

Lemma minus_type a b :
  is_integer (typ a) = true -> binop_return_type OpMinus a b = typ a.
Proof using. cbn. by destruct (typ a). Qed.

Lemma equal_type a b :
  is_integer (typ a) = true -> binop_return_type OpEqual a b = TBool.
Proof using. cbn. by destruct (typ a). Qed.

Lemma overflow_sign_add w sg x y :
  in_range w sg x -> in_range w sg y -> ~ in_range w sg (x + y) ->
  (0 < w)%N -> (x <? 0) = (x + y <? 0).
Proof using.
  intros Hx Hy Ho Hw. pose proof (pow2_split w Hw). unfold in_range in *.
  destruct sg; destruct (Z.ltb_spec x 0), (Z.ltb_spec (x + y) 0); lia.
Qed.

Lemma overflow_sign_sub w sg x y :
  in_range w sg x -> in_range w sg y -> ~ in_range w sg (x - y) ->
  (0 < w)%N -> (y <? 0) = (0 <? x - y).
Proof using.
  intros Hx Hy Ho Hw. pose proof (pow2_split w Hw). unfold in_range in *.
  destruct sg; destruct (Z.ltb_spec y 0), (Z.ltb_spec 0 (x - y)); lia.
Qed.

Lemma saturating_add_value a b x y :
  is_integer (typ a) = true -> typ a ≃ typ b -> (0 < width_of (typ a) mm)%N ->
  has_value eval mm a x -> has_value eval mm b y ->
  exists e lo hi, saturating_add a b mm = Ok e /\ typ e = typ a
    /\ min_int (width_of (typ a) mm) (is_signed (typ a) mm) = Ok lo
    /\ max_int (width_of (typ a) mm) (is_signed (typ a) mm) = Ok hi
    /\ has_value eval mm e (clamp lo hi (x + y)).
Proof using Sem.
  intros Hi Ht Hw [Ea Ra] [Eb Rb].
  assert (Hops : int_operands eval mm a b x y) by done.
  assert (Rb' : in_range (width_of (typ a) mm) (is_signed (typ a) mm) y).
  { unfold width_of in *. by rewrite Ht. }
  destruct (is_negative_value mm eval a x Hi Hw ltac:(done)) as (n & Hn & Tn & En).
  destruct (saturating_value mm eval (typ a) (expr (EBinOp OpPlus a b) (typ a))
              (expr (EBinOp OpOverflowPlus a b) TBool) n (x + y) (x <? 0) false)
    as (elo & ehi & sat & e & Hlo & Hhi & Hsat & He & Te & Hv);
    [done|done|done|done|done|by apply eval_plus|by apply eval_overflow_plus|done| |].
  { intros Hout. by eapply overflow_sign_add. }
  unfold min_int_expr, max_int_expr, int_constant, width_of in *. rewrite Hi in *.
  destruct (integer_native_width (typ a) mm Hi) as [w Ew]. rewrite Ew in *. cbn in Hlo, Hhi |- *.
  outcome_inv. exists e. do 2 eexists. split; [|split; [done|split; [done|split; [done|]]]].
  - unfold saturating_add, add_overflow, plus_, add_overflow_p, min_int_expr, max_int_expr,
      int_constant.
    rewrite Hi, (proj2 (type_eqb_spec _ _) Ht), Hn, Ew.
    rewrite !binop_integer by (done || set_solver).
    cbn -[ternary max_int min_int]. rewrite E, E0. cbn -[ternary]. by rewrite Hsat.
  - by apply Hv.
Qed.

Lemma saturating_sub_value a b x y :
  is_integer (typ a) = true -> typ a ≃ typ b -> (0 < width_of (typ a) mm)%N ->
  has_value eval mm a x -> has_value eval mm b y ->
  exists e lo hi, saturating_sub a b mm = Ok e /\ typ e = typ a
    /\ min_int (width_of (typ a) mm) (is_signed (typ a) mm) = Ok lo
    /\ max_int (width_of (typ a) mm) (is_signed (typ a) mm) = Ok hi
    /\ has_value eval mm e (clamp lo hi (x - y)).
Proof using Sem.
  intros Hi Ht Hw [Ea Ra] [Eb Rb].
  assert (Hops : int_operands eval mm a b x y) by done.
  assert (Rb' : in_range (width_of (typ a) mm) (is_signed (typ a) mm) y).
  { unfold width_of in *. by rewrite Ht. }
  destruct (is_negative_value mm eval b y) as (n & Hn & Tn & En);
    [by rewrite <- Ht|unfold width_of in *; by rewrite <- Ht|done|].
  destruct (saturating_value mm eval (typ a) (expr (EBinOp OpMinus a b) (typ a))
              (expr (EBinOp OpOverflowMinus a b) TBool) n (x - y) (y <? 0) true)
    as (elo & ehi & sat & e & Hlo & Hhi & Hsat & He & Te & Hv);
    [done|done|done|done|done|by apply eval_minus|by apply eval_overflow_minus|done| |].
  { intros Hout. by eapply overflow_sign_sub. }
  unfold min_int_expr, max_int_expr, int_constant, width_of in *. rewrite Hi in *.
  destruct (integer_native_width (typ a) mm Hi) as [w Ew]. rewrite Ew in *. cbn in Hlo, Hhi |- *.
  outcome_inv. exists e. do 2 eexists. split; [|split; [done|split; [done|split; [done|]]]].
  - unfold saturating_sub, sub_overflow, sub_, sub_overflow_p, min_int_expr, max_int_expr,
      int_constant.
    rewrite Hi, (proj2 (type_eqb_spec _ _) Ht), Hn, Ew.
    rewrite !binop_integer by (done || set_solver). rewrite minus_type by done.
    cbn -[ternary max_int min_int]. rewrite E, E0. cbn -[ternary]. by rewrite Hsat.
  - by apply Hv.
Qed.

(** [is_zero] on integers is a test for zero. *)
Lemma is_zero_value a x :
  is_integer (typ a) = true -> (0 < width_of (typ a) mm)%N -> has_value eval mm a x ->
  exists e, is_zero a = Ok e /\ typ e = TBool /\ eval e = Some (VBool (x =? 0)).
Proof using Sem.
  intros Hi Hw [He _]. destruct (integer_bounds mm _ Hi Hw) as (lo & hi & _ & _ & H0 & Hr).
  unfold is_zero, zero, int_constant, eq_, is_numeric. rewrite Hi, orb_true_r.
  cbn -[binop]. rewrite binop_integer by (done || set_solver). rewrite equal_type by done.
  eexists. split; [done|]. split; [done|]. apply (eval_equal _ _ x 0).
  repeat split; [done|done|]. apply eval_int_constant; [done|]. apply Hr. lia.
Qed.

(** On floating point, its other numeric types, it panics. *)
Lemma is_zero_floating_point a : is_floating_point (typ a) = true -> is_zero a = Panic.
Proof using.
  unfold is_zero, is_floating_point. destruct a as [v t l]. cbn.
  destruct t; try done.
Qed.
End Saturation.

(** ** Properties *)

(** [Expr::saturating_add] never panics on two integer expressions of one type, its
    result has that type, and under any semantics that gives the operators their
    documented meaning it evaluates to the sum clamped to the range of the type. *)
Theorem saturating_add_clamps (mm : MachineModel) (eval : Expr -> option val)
    (Sem : GotoSemantics mm eval) (a b : Expr) (x y : Z) :
  is_integer (typ a) = true -> typ a ≃ typ b -> (0 < width_of (typ a) mm)%N ->
  has_value eval mm a x -> has_value eval mm b y ->
  exists e lo hi, saturating_add a b mm = Ok e /\ typ e = typ a
    /\ min_int (width_of (typ a) mm) (is_signed (typ a) mm) = Ok lo
    /\ max_int (width_of (typ a) mm) (is_signed (typ a) mm) = Ok hi
    /\ has_value eval mm e (clamp lo hi (x + y)).
Proof. by apply saturating_add_value. Qed.

Lemma saturating_add_clamps_witness :
  let a := expr (EIntConstant 100) (TSignedbv 8) in
  exists e lo hi, saturating_add a a x86_64 = Ok e /\ typ e = TSignedbv 8
    /\ min_int 8 true = Ok lo /\ max_int 8 true = Ok hi
    /\ has_value (bv_eval x86_64) x86_64 e (clamp lo hi 200).
Proof.
  apply (saturating_add_clamps x86_64 (bv_eval x86_64) _ (expr (EIntConstant 100) (TSignedbv 8))
           (expr (EIntConstant 100) (TSignedbv 8)) 100 100); try done; by split.
Defined.

(** [Expr::saturating_sub] likewise computes the difference clamped to the range of
    the type. *)
Theorem saturating_sub_clamps (mm : MachineModel) (eval : Expr -> option val)
    (Sem : GotoSemantics mm eval) (a b : Expr) (x y : Z) :
  is_integer (typ a) = true -> typ a ≃ typ b -> (0 < width_of (typ a) mm)%N ->
  has_value eval mm a x -> has_value eval mm b y ->
  exists e lo hi, saturating_sub a b mm = Ok e /\ typ e = typ a
    /\ min_int (width_of (typ a) mm) (is_signed (typ a) mm) = Ok lo
    /\ max_int (width_of (typ a) mm) (is_signed (typ a) mm) = Ok hi
    /\ has_value eval mm e (clamp lo hi (x - y)).
Proof. by apply saturating_sub_value. Qed.

Lemma saturating_sub_clamps_witness :
  let a := expr (EIntConstant 1) (TUnsignedbv 8) in
  let b := expr (EIntConstant 2) (TUnsignedbv 8) in
  exists e lo hi, saturating_sub a b x86_64 = Ok e /\ typ e = TUnsignedbv 8
    /\ min_int 8 false = Ok lo /\ max_int 8 false = Ok hi
    /\ has_value (bv_eval x86_64) x86_64 e (clamp lo hi (-1)).
Proof.
  apply (saturating_sub_clamps x86_64 (bv_eval x86_64) _ (expr (EIntConstant 1) (TUnsignedbv 8))
           (expr (EIntConstant 2) (TUnsignedbv 8)) 1 2); try done; by split.
Defined.

(** [Expr::is_zero] asserts that its operand is numeric, but it succeeds on integers
    only: on floating point, the other numeric types, it panics, since the
    equality it builds does not accept floats. *)
Theorem is_zero_integers_only (a : Expr) :
  is_numeric (typ a) = true -> (is_integer (typ a) = true <-> exists e, is_zero a = Ok e).
Proof.
  intros Hn. unfold is_numeric in Hn. destruct (is_integer (typ a)) eqn:Hi; split; try done.
  - intros _. unfold is_zero, zero, is_numeric, int_constant, eq_. rewrite Hi, orb_true_r.
    cbn -[binop]. rewrite binop_integer by (done || set_solver). eauto.
  - rewrite orb_false_r in Hn. rewrite is_zero_floating_point by done. by intros [].
Qed.

Lemma is_zero_integers_only_witness :
  is_integer TFloat = true <-> exists e, is_zero (expr (EFloatConstant 0) TFloat) = Ok e.
Proof. apply (is_zero_integers_only (expr (EFloatConstant 0) TFloat)). reflexivity. Defined.
