(* ===== verification/Aggregates.v ===== *)
(** * Struct expressions and their fields ([expr.rs])

    [Expr::struct_expr] lays the values of named fields out in the order of the
    components of the struct, with nondeterministic values for the padding;
    [Expr::struct_field_exprs] reads the named fields back.  The lemmas here show
    that they are inverse to each other and characterise when the constructor
    accepts its arguments. *)

From S2P Require Import Prelude CbmcString MachineModel Location Typ Ast SymbolTable Expr.

(** The components that are not padding. *)
Definition named (fields : list DatatypeComponent) : list DatatypeComponent :=
  List.filter (fun x => negb (is_padding x)) fields.

Definition field_names (fields : list DatatypeComponent) : list InternedString :=
  map component_name (named fields).

Lemma named_padding f fields : is_padding f = true -> named (f :: fields) = named fields.
Proof. unfold named. cbn. by intros ->. Qed.

Lemma named_field f fields : is_padding f = false -> named (f :: fields) = f :: named fields.
Proof. unfold named. cbn. by intros ->. Qed.

(** What [take_fields] leaves and what [collect_values] recovers from it. *)
Lemma take_fields_spec fields comps vs :
  take_fields fields comps = Ok vs ->
  length vs = length fields
  /\ NoDup (field_names fields)
  /\ (forall k, k ∈ field_names fields -> is_Some (comps !! k))
  /\ (forall acc k, collect_values fields vs acc !! k
        = if bool_decide (k ∈ field_names fields) then comps !! k else acc !! k).
Proof.
  revert comps vs. unfold field_names.
  induction fields as [|f fields IH]; intros comps vs; cbn [take_fields].
  - intros [= <-]. split; [done|]. split; [constructor|]. split; [intros k []%elem_of_nil|].
    intros acc k. rewrite bool_decide_eq_false_2; [done|]. by intros []%elem_of_nil.
  - destruct (is_padding f) eqn:Ep; intros H; outcome_inv.
    + rewrite named_padding by done. destruct (IH _ _ E0) as (Hl & Hnd & Hin & Hc).
      split; [cbn; by rewrite Hl|]. split; [done|]. split; [done|].
      intros acc k. cbn [collect_values]. by rewrite Ep, Hc.
    + rewrite named_field by done. cbn [map]. destruct (IH _ _ E0) as (Hl & Hnd & Hin & Hc).
      assert (Hnot : component_name f ∉ map component_name (named fields)).
      { intros Hx. destruct (Hin _ Hx) as [v Hv]. by rewrite lookup_delete_eq in Hv. }
      split; [cbn; by rewrite Hl|]. split; [by constructor|]. split.
      * intros k [->|Hk]%elem_of_cons; [by eexists|]. destruct (Hin k Hk) as [v Hv].
        apply lookup_delete_Some in Hv as [_ Hv]. by eexists.
      * intros acc k. cbn [collect_values]. rewrite Ep, Hc.
        destruct (decide (k = component_name f)) as [->|Hne].
        -- rewrite bool_decide_eq_false_2, lookup_insert_eq by done.
           by rewrite bool_decide_eq_true_2 by left.
        -- rewrite lookup_delete_ne, lookup_insert_ne by done.
           clear -Hne. repeat case_bool_decide; rewrite elem_of_cons in *; naive_solver.
Qed.

(** A map with as many entries as names, all of them names, has no others. *)
Lemma full_map_absent {A} (m : gmap InternedString A) (names : list InternedString) k :
  NoDup names -> length names = size m -> (forall x, x ∈ names -> is_Some (m !! x)) ->
  k ∉ names -> m !! k = None.
Proof.
  intros Hnd Hlen Hin Hk. apply not_elem_of_dom. intros Hd.
  assert (Hsub : list_to_set (k :: names) ⊆ dom m).
  { intros x Hx. apply elem_of_list_to_set, elem_of_cons in Hx as [->|Hx]; [done|].
    by apply elem_of_dom, Hin. }
  apply subseteq_size in Hsub. rewrite size_list_to_set, size_dom in Hsub by (by constructor).
  cbn in Hsub. lia.
Qed.

Lemma struct_expr_inv t comps st e :
  struct_expr t comps st = Ok e ->
  exists fields vs, is_struct_tag t = true /\ lookup_fields_in_type st t = Some fields
    /\ length (named fields) = size comps /\ take_fields fields comps = Ok vs
    /\ e = expr (EStruct vs) t.
Proof.
  unfold struct_expr, struct_expr_with_explicit_padding. intros H. outcome_inv.
  apply Nat.eqb_eq in E1. by do 2 eexists.
Qed.

Lemma struct_fields_of_struct_expr t comps st e :
  struct_expr t comps st = Ok e -> struct_field_exprs e st = Ok comps.
Proof.
  intros (fields & vs & Ht & Hf & Hlen & Hv & ->)%struct_expr_inv.
  destruct (take_fields_spec _ _ _ Hv) as (Hl & Hnd & Hin & Hc).
  unfold struct_field_exprs. cbn [typ expr]. rewrite Ht, Hf. cbn -[collect_values].
  rewrite Hl, Nat.eqb_refl. cbn -[collect_values]. f_equal. apply map_eq. intros k.
  rewrite Hc. case_bool_decide as Hk; [done|]. rewrite lookup_empty. symmetry.
  eapply full_map_absent; [exact Hnd| |exact Hin|exact Hk].
  unfold field_names. by rewrite length_map.
Qed.

(** *** When the constructor accepts *)

(** Each named field has a value of its type, and there are no other values. *)
Definition fits (fields : list DatatypeComponent) (comps : gmap InternedString Expr) : Prop :=
  dom comps = list_to_set (field_names fields)
  /\ Forall (fun f => match f with
                      | Field n t => exists v, comps !! n = Some v /\ typ v ≃ t
                      | Padding _ bits => (0 < bits)%N
                      end) fields.

Lemma check_named_fields_ok fields comps :
  Forall (fun f => match f with
                   | Field n t => exists v, comps !! n = Some v /\ typ v ≃ t
                   | Padding _ bits => (0 < bits)%N
                   end) fields ->
  check_named_fields (named fields) comps = Ok tt.
Proof.
  induction 1 as [|f fields Hf _ IH]; [done|]. destruct f as [n t|n b]; cbn.
  - destruct Hf as (v & Hv & Ht). rewrite Hv. cbn. by rewrite (proj2 (type_eqb_spec _ _) Ht).
  - done.
Qed.

Lemma take_fields_ok fields comps :
  NoDup (field_names fields) ->
  Forall (fun f => match f with
                   | Field n t => exists v, comps !! n = Some v /\ typ v ≃ t
                   | Padding _ bits => (0 < bits)%N
                   end) fields ->
  exists vs, take_fields fields comps = Ok vs /\ fields_match fields vs = Ok true.
Proof.
  revert comps. unfold field_names.
  induction fields as [|f fields IH]; intros comps Hnd Hall; [by exists []|].
  apply Forall_cons in Hall as [Hf Hall]. destruct f as [n t|n b]; cbn in *.
  - apply NoDup_cons in Hnd as [Hn Hnd]. destruct Hf as (v & Hv & Ht).
    destruct (IH (delete n comps) Hnd) as (vs & -> & Hm).
    { rewrite Forall_forall in *. intros [m u|m b] Hx; [|exact (Hall _ Hx)].
      destruct (Hall _ Hx) as (w & Hw & Tw). exists w. split; [|done].
      rewrite lookup_delete_ne; [done|]. intros ->. apply Hn.
      apply list_elem_of_fmap. exists (Field m u). split; [done|].
      apply list_elem_of_In, filter_In. split; [by apply list_elem_of_In | done]. }
    rewrite Hv. cbn. exists (v :: vs). split; [done|]. cbn.
    by rewrite type_eqb_sym, (proj2 (type_eqb_spec _ _) Ht).
  - destruct (IH comps Hnd Hall) as (vs & -> & Hm). destruct b as [|b]; [lia|].
    exists (type_nondet (TUnsignedbv (N.pos b)) :: vs). split; [done|]. cbn.
    by rewrite Pos.eqb_refl.
Qed.

Lemma struct_expr_accepts t comps st fields :
  is_struct_tag t = true -> lookup_fields_in_type st t = Some fields ->
  NoDup (field_names fields) -> fits fields comps ->
  exists e, struct_expr t comps st = Ok e /\ typ e = t.
Proof.
  intros Ht Hf Hnd [Hdom Hall]. destruct (take_fields_ok _ _ Hnd Hall) as (vs & Hv & Hm).
  destruct (take_fields_spec _ _ _ Hv) as (Hl & _).
  assert (Hsize : length (named fields) = size comps).
  { rewrite <- size_dom, Hdom, size_list_to_set by done. unfold field_names. by rewrite length_map. }
  unfold struct_expr, struct_expr_with_explicit_padding. rewrite Ht, Hf. cbn -[take_fields].
  fold (named fields). rewrite Hsize, Nat.eqb_refl. cbn -[take_fields].
  rewrite check_named_fields_ok, Hv by done. cbn. rewrite Hl, Nat.eqb_refl, Hm. cbn. eauto.
Qed.

(** ** Properties *)

(** Building a struct from named values and reading its fields back gives the values
    that went in, for every symbol table and whatever the padding. *)
Theorem struct_expr_roundtrip (t : Type_) (comps : gmap InternedString Expr) (st : SymbolTable)
    (e : Expr) :
  struct_expr t comps st = Ok e -> struct_field_exprs e st = Ok comps.
Proof. apply struct_fields_of_struct_expr. Qed.

(** A struct [s] with fields [a] and [b] separated by padding. *)
Definition sample_fields : list DatatypeComponent :=
  [Field "a" (TCInteger CInt); Padding "pad" 32; Field "b" (TCInteger CSizeT)].
Definition sample_struct_table : SymbolTable :=
  mkSymbolTable
    {[ "tag-s" :=
       mkSymbol "tag-s" Location.none (TStruct "s" sample_fields) SVNone None None None ModeC
         false false false false false false true false false false false false false false false
         false ]} x86_64.
Definition sample_values : gmap InternedString Expr :=
  <[ "a" := expr (EIntConstant 1) (TCInteger CInt) ]>
    {[ "b" := expr (EIntConstant 2) (TCInteger CSizeT) ]}.

Lemma struct_expr_roundtrip_witness :
  exists e, struct_expr (struct_tag "s") sample_values sample_struct_table = Ok e
    /\ struct_field_exprs e sample_struct_table = Ok sample_values.
Proof.
  eexists. split; [reflexivity|].
  apply (struct_expr_roundtrip (struct_tag "s") sample_values). reflexivity.
Defined.

(** [Expr::struct_expr] accepts every assignment of values of the right types to
    exactly the named fields of the struct (distinct names, padding of positive
    width) and returns an expression of the struct type. *)
Theorem struct_expr_total (t : Type_) (comps : gmap InternedString Expr) (st : SymbolTable)
    (fields : list DatatypeComponent) :
  is_struct_tag t = true -> lookup_fields_in_type st t = Some fields ->
  NoDup (field_names fields) -> fits fields comps ->
  exists e, struct_expr t comps st = Ok e /\ typ e = t.
Proof. apply struct_expr_accepts. Qed.

Lemma struct_expr_total_witness :
  exists e, struct_expr (struct_tag "s") sample_values sample_struct_table = Ok e
    /\ typ e = struct_tag "s".
Proof.
  apply (struct_expr_total (struct_tag "s") sample_values sample_struct_table sample_fields);
    [reflexivity | reflexivity | |].
  - apply (bool_decide_unpack _). vm_compute. exact Logic.I.
  - split; [apply (bool_decide_unpack _); vm_compute; exact Logic.I|].
    repeat constructor; try (eexists; split; reflexivity).
Defined.
