(* ===== verification/Typing.v ===== *)
(** * What the constructors of expressions and statements guarantee

    The comment on [struct Expr] says that, up to properties of a symbol table,
    "the constructors ensure that all expressions are well-formed".  [wf_expr]
    and [wf_stmt] are that well-formedness: a typing rule at every node
    ([node_ok], [body_ok]), relative to the symbol table.  The lemmas [wf_*] show
    that each constructor establishes its rule; [Built.v] puts them together. *)

From S2P Require Import Prelude CbmcString MachineModel Location Typ Ast SymbolTable Expr Symbol.
From S2P Require Import Builtin Stmt.

(** ** The typing rules *)

Definition outcome_eqb (a b : outcome N) : bool :=
  match a, b with Ok x, Ok y => (x =? y)%N | _, _ => false end.

Definition call_ok (f : Type_) (args : list Type_) : bool :=
  match f with
  | TCode ps _ => forallb2 (fun p a => type_eqb a (parameter_typ p)) ps args
  | TVariadicCode ps _ =>
      forallb2 (fun p a => type_eqb a (parameter_typ p)) ps (take (length ps) args)
  | _ => false
  end.

(** The values of a struct, one per component (padding included), have its types. *)
Definition component_has_type (c : DatatypeComponent) (t : Type_) : bool :=
  match c with
  | Field _ ft => type_eqb ft t
  | Padding _ bits => (0 <? bits)%N && type_eqb (TUnsignedbv bits) t
  end.

Definition struct_ok (st : SymbolTable) (t : Type_) (values : list Type_) : bool :=
  is_struct_tag t &&
  match lookup_fields_in_type st t with
  | Some fields => forallb2 component_has_type fields values
  | None => false
  end.

Definition field_ok (eqb : Type_ -> Type_ -> bool) (st : SymbolTable) (aggr : Type_)
    (field : InternedString) (t : Type_) : bool :=
  match lookup_field_type_in_type st aggr field with
  | Some ft => eqb ft t
  | None => false
  end.

Definition elems_ok (et : Type_) (n : N) (elems : list Expr) : bool :=
  (n =? N.of_nat (length elems))%N && forallb (fun x => type_eqb (typ x) et) elems.

Definition is_postfix (op : SelfOperand) : bool :=
  match op with Postdecrement | Postincrement => true | Predecrement | Preincrement => false end.

Definition node_ok (st : SymbolTable) (v : ExprValue) (t : Type_) : bool :=
  match v with
  | EAddressOf e => can_take_address_of e && type_same t (TPointer (typ e))
  | EArray elems => match t with TArray et n => elems_ok et n elems | _ => false end
  | EArrayOf elem =>
      is_int_constant elem && match t with TArray et _ => type_same et (typ elem) | _ => false end
  | EAssign _ _ => false
  | EBinOp op l r => typecheck_binop_args op l r && type_same t (binop_return_type op l r)
  | EBoolConstant _ => is_bool t
  | EByteExtract e offset =>
      (offset =? 0)%N && outcome_eqb (sizeof_in_bits (typ e) st) (sizeof_in_bits t st)
  | ECBoolConstant _ => is_c_bool t
  | EDereference e => match typ e with TPointer bt => type_same bt t | _ => false end
  | EDoubleConstant _ => is_double t
  | EFloatConstant _ => is_float t
  | EFunctionCall f args =>
      call_ok (typ f) (map typ args)
      && match return_type (typ f) with Some rt => type_same rt t | None => false end
  | EIf c a b => is_bool (typ c) && type_eqb (typ a) (typ b) && type_same t (typ a)
  | EIndex a i =>
      is_integer (typ i) && is_array_like (typ a)
      && match base_type (typ a) with Some bt => type_same bt t | None => false end
  | EIntConstant _ => is_integer t
  | EMember e field =>
      (is_struct_tag (typ e) || is_union_tag (typ e)) && field_ok type_same st (typ e) field t
  | ENondet => true
  | EPointerConstant _ => is_pointer t
  | ESelfOp op e => is_postfix op && (is_integer t || is_pointer t) && type_same t (typ e)
  | EStatementExpression ss =>
      match last ss with
      | Some s => match get_expression s with Some e => type_eqb (typ e) t | None => false end
      | None => false
      end
  | EStringConstant s => type_same t (TArray c_char (N.of_nat (String.length s + 1)))
  | EStruct values => struct_ok st t (map typ values)
  | ESymbol _ => true
  | ETypecast e => can_cast_from (typ e) t && negb (type_eqb (typ e) t) && negb (is_bool t)
  | EUnion v field => is_union_tag t && field_ok type_eqb st t field (typ v)
  | EUnOp op e => typecheck_unop_arg op e && type_same t (unop_return_type op e)
  | EVector elems => match t with TVector et n => elems_ok et n elems | _ => false end
  end.

Definition option_ok {A} (f : A -> bool) (o : option A) : bool :=
  match o with None => true | Some a => f a end.

Definition body_ok (b : StmtBody) : bool :=
  match b with
  | SAssign l r => type_eqb (typ l) (typ r)
  | SAssume c => is_bool (typ c)
  | SDecl l v => is_symbol l && option_ok (fun x => type_eqb (typ l) (typ x)) v
  | SFor _ c _ _ => is_bool (typ c)
  | SFunctionCall l f args =>
      call_ok (typ f) (map typ args)
      && option_ok (fun x => match return_type (typ f) with
                             | Some rt => type_eqb (typ x) rt
                             | None => false
                             end) l
  | SGoto dest => negb (String.eqb dest "")
  | SIfthenelse i _ _ => is_bool (typ i)
  | SLabel label _ => negb (String.eqb label "")
  | SSwitch c cs _ => forallb (fun x => type_eqb (typ (case x)) (typ c)) cs
  | SWhile c _ => is_bool (typ c)
  | SAtomicBlock _ | SBlock _ | SBreak | SContinue | SExpression _ | SReturn _ | SSkip => true
  end.

(** Every node obeys its rule. *)
Fixpoint wf_expr (st : SymbolTable) (e : Expr) : bool :=
  match e with mkExpr v t _ => node_ok st v t && wf_value st v end
with wf_value (st : SymbolTable) (v : ExprValue) : bool :=
  match v with
  | EAddressOf e | EArrayOf e | EByteExtract e _ | EDereference e | EMember e _ | ESelfOp _ e
  | ETypecast e | EUnion e _ | EUnOp _ e => wf_expr st e
  | EArray es | EStruct es | EVector es => forallb (wf_expr st) es
  | EAssign a b | EBinOp _ a b | EIndex a b => wf_expr st a && wf_expr st b
  | EFunctionCall f es => wf_expr st f && forallb (wf_expr st) es
  | EIf c t e => wf_expr st c && (wf_expr st t && wf_expr st e)
  | EStatementExpression ss => forallb (wf_stmt st) ss
  | EBoolConstant _ | ECBoolConstant _ | EDoubleConstant _ | EFloatConstant _
  | EIntConstant _ | ENondet | EPointerConstant _ | EStringConstant _ | ESymbol _ => true
  end
with wf_stmt (st : SymbolTable) (s : Stmt) : bool :=
  match s with mkStmt b _ => body_ok b && wf_body st b end
with wf_body (st : SymbolTable) (b : StmtBody) : bool :=
  match b with
  | SAssign l r => wf_expr st l && wf_expr st r
  | SAssume c => wf_expr st c
  | SAtomicBlock ss | SBlock ss => forallb (wf_stmt st) ss
  | SDecl l v => wf_expr st l && option_ok (wf_expr st) v
  | SExpression e => wf_expr st e
  | SFor i c u b => wf_stmt st i && (wf_expr st c && (wf_stmt st u && wf_stmt st b))
  | SFunctionCall l f es =>
      option_ok (wf_expr st) l && (wf_expr st f && forallb (wf_expr st) es)
  | SIfthenelse i t e => wf_expr st i && (wf_stmt st t && option_ok (wf_stmt st) e)
  | SLabel _ b => wf_stmt st b
  | SReturn e => option_ok (wf_expr st) e
  | SSwitch c cs d => wf_expr st c && (forallb (wf_case st) cs && option_ok (wf_stmt st) d)
  | SWhile c b => wf_expr st c && wf_stmt st b
  | SBreak | SContinue | SGoto _ | SSkip => true
  end
with wf_case (st : SymbolTable) (c : SwitchCase) : bool :=
  match c with mkSwitchCase e s => wf_expr st e && wf_stmt st s end.

Lemma wf_value_all st v :
  wf_value st v = true <->
  value_all (fun e => wf_expr st e = true) (fun s => wf_stmt st s = true) v.
Proof.
  destruct v; cbn; rewrite ?andb_true_iff, ?forallb_forall, <- ?List.Forall_forall; try done.
Qed.

Lemma option_ok_all {A} (f : A -> bool) o :
  option_ok f o = true <-> option_all (fun a => f a = true) o.
Proof. by destruct o. Qed.

Lemma wf_body_all st b :
  wf_body st b = true <->
  body_all (fun e => wf_expr st e = true) (fun s => wf_stmt st s = true) b.
Proof.
  destruct b; cbn;
    rewrite ?andb_true_iff, ?option_ok_all, ?forallb_forall, <- ?List.Forall_forall; try done.
  assert (Hc : forall c, wf_case st c = true <->
    case_all (fun e => wf_expr st e = true) (fun s => wf_stmt st s = true) c).
  { intros []. cbn. by rewrite andb_true_iff. }
  split; intros (? & Hcs & ?); repeat split; try done;
    eapply Forall_impl; try exact Hcs; intros c; apply Hc.
Qed.

Lemma wf_mk st v t l :
  wf_expr st (mkExpr v t l) = true <-> node_ok st v t = true /\ wf_value st v = true.
Proof. cbn. apply andb_true_iff. Qed.

Lemma wf_with_location st e l : wf_expr st (with_location e l) = wf_expr st e.
Proof. by destruct e. Qed.

Lemma typ_with_location e l : typ (with_location e l) = typ e.
Proof. by destruct e. Qed.

(** ** Each constructor establishes its rule *)

Lemma is_bool_eq t : is_bool t = true -> t = TBool.
Proof. by destruct t. Qed.
Lemma is_c_bool_eq t : is_c_bool t = true -> t = TCInteger CBool.
Proof. by destruct t as [| | |[]| | | | | | | | | | | | | | | | | |]. Qed.
Lemma is_float_eq t : is_float t = true -> t = TFloat.
Proof. by destruct t. Qed.
Lemma is_double_eq t : is_double t = true -> t = TDouble.
Proof. by destruct t. Qed.
Lemma is_pointer_base t : is_pointer t = true -> exists b, t = TPointer b.
Proof. destruct t; try done; eauto. Qed.

(** Open a successful constructor: its assertions become hypotheses and the result is
    a node whose rule remains to be shown. *)
Ltac open_ctor :=
  intros; outcome_inv; unfold expr; rewrite wf_mk;
  cbv [to_pointer array_of]; cbn [node_ok wf_value typ];
  repeat match goal with
  | H : ?x = true |- _ => rewrite H
  | |- context [type_eqb ?a ?a] => rewrite (type_eqb_refl a)
  | |- context [type_same ?a ?a] => rewrite (type_same_refl a)
  | |- context [true && _] => cbn [andb]
  | H : ?x = Some _ |- context [match ?x with Some _ => _ | None => _ end] => rewrite H
  end.

Section Constructors.
Variable st : SymbolTable.
Abbreviation wf e := (wf_expr st e = true).

Lemma wf_address_of e e' : wf e -> address_of e = Ok e' -> wf e'.
Proof. unfold address_of. by open_ctor. Qed.

Lemma wf_array_constant e n e' : wf e -> array_constant e n = Ok e' -> wf e'.
Proof. unfold array_constant. by open_ctor. Qed.

Lemma wf_forall es : Forall (fun e => wf e) es -> forallb (wf_expr st) es = true.
Proof. intros H. apply forallb_forall. intros x Hx. by eapply List.Forall_forall in H. Qed.

Lemma wf_array_expr t es e' : Forall (fun e => wf e) es -> array_expr t es = Ok e' -> wf e'.
Proof.
  unfold array_expr. destruct t; try done. intros Hes%wf_forall.
  open_ctor. unfold elems_ok. by rewrite E, E0.
Qed.

Lemma wf_vector_expr t es e' : Forall (fun e => wf e) es -> vector_expr t es = Ok e' -> wf e'.
Proof.
  unfold vector_expr. destruct t; try done. intros Hes%wf_forall.
  open_ctor. unfold elems_ok. by rewrite E, E0.
Qed.

Lemma wf_int_constant i t e' : int_constant i t = Ok e' -> wf e' /\ typ e' = t.
Proof. unfold int_constant. by open_ctor. Qed.

Lemma wf_pointer_constant c t e' : pointer_constant c t = Ok e' -> wf e' /\ typ e' = t.
Proof. unfold pointer_constant. by open_ctor. Qed.

Lemma wf_zero t e' : zero t = Ok e' -> wf e' /\ typ e' = t.
Proof.
  unfold zero. destruct (is_integer t); [apply wf_int_constant|].
  destruct (is_c_bool t) eqn:E; [intros [= <-]; by apply is_c_bool_eq in E as ->|].
  destruct (is_float t) eqn:E0; [intros [= <-]; by apply is_float_eq in E0 as ->|].
  destruct (is_double t) eqn:E1; [intros [= <-]; by apply is_double_eq in E1 as ->|].
  destruct (is_pointer t); [apply wf_pointer_constant | done].
Qed.

Lemma wf_one t e' : one t = Ok e' -> wf e' /\ typ e' = t.
Proof.
  unfold one. destruct (is_integer t); [apply wf_int_constant|].
  destruct (is_c_bool t) eqn:E; [intros [= <-]; by apply is_c_bool_eq in E as ->|].
  destruct (is_float t) eqn:E0; [intros [= <-]; by apply is_float_eq in E0 as ->|].
  destruct (is_double t) eqn:E1; [intros [= <-]; by apply is_double_eq in E1 as -> | done].
Qed.

Lemma wf_max_int_expr t mm e' : max_int_expr t mm = Ok e' -> wf e' /\ typ e' = t.
Proof. unfold max_int_expr. intros. outcome_inv. by eapply wf_int_constant. Qed.

Lemma wf_min_int_expr t mm e' : min_int_expr t mm = Ok e' -> wf e' /\ typ e' = t.
Proof. unfold min_int_expr. intros. outcome_inv. by eapply wf_int_constant. Qed.

Lemma wf_binop l op r e' :
  wf l -> wf r -> binop l op r = Ok e' -> wf e' /\ typ e' = binop_return_type op l r.
Proof. unfold binop. intros. outcome_inv. split; [|done]. by open_ctor. Qed.

Lemma wf_cast_to e t e' : wf e -> cast_to e t = Ok e' -> wf e' /\ typ e' ≃ t.
Proof.
  intros He. unfold cast_to. intros H. outcome_inv. unfold can_cast_to in E.
  destruct (type_eqb (typ e) t) eqn:Et; [outcome_inv; by rewrite <- type_eqb_spec|].
  destruct (is_bool t) eqn:Eb.
  - apply is_bool_eq in Eb as ->. outcome_inv. pose proof (wf_zero _ _ E0) as [Hz Tz].
    apply wf_binop in H as [Hw ->]; [|done..]. split; [done|]. cbn.
    destruct (typ e); done.
  - outcome_inv. split; [|done]. open_ctor. by rewrite Et, Eb.
Qed.

Lemma wf_dereference e e' : wf e -> dereference e = Ok e' -> wf e'.
Proof.
  intros He. unfold dereference. open_ctor. destruct (typ e); try done.
  cbn in E0. injection E0 as ->. by rewrite type_same_refl.
Qed.

Lemma wf_index_array e i e' : wf e -> wf i -> index_array e i = Ok e' -> wf e'.
Proof.
  intros He Hi. unfold index_array. by open_ctor.
Qed.

Lemma typecheck_named_args_prefix ps args :
  length ps <= length args ->
  typecheck_named_args ps args =
  forallb2 (fun p a => type_eqb a (parameter_typ p)) ps (take (length ps) (map typ args)).
Proof.
  unfold typecheck_named_args. revert args. induction ps as [|p ps IH]; intros [|a args]; cbn;
    try done; try lia.
  intros H. rewrite IH by lia. done.
Qed.

Lemma typecheck_call_ok f args :
  typecheck_call f args = Ok true -> call_ok (typ f) (map typ args) = true.
Proof.
  unfold typecheck_call. destruct (typ f) eqn:Ef; cbn; try done; intros [= H]; bool_inv.
  - apply Nat.eqb_eq in H. rewrite typecheck_named_args_prefix in H0 by lia.
    by rewrite take_ge in H0 by (rewrite length_map; lia).
  - apply Nat.leb_le in H. by rewrite typecheck_named_args_prefix in H0.
Qed.

Lemma typecheck_call_total f args : exists b, typecheck_call f args = Ok b.
Proof. unfold typecheck_call. destruct (typ f); cbn; eauto. Qed.

Lemma wf_call f args e' :
  wf f -> Forall (fun e => wf e) args -> call f args = Ok e' -> wf e'.
Proof.
  intros Hf Hargs%wf_forall. unfold call. intros H. outcome_inv.
  apply typecheck_call_ok in E. by open_ctor.
Qed.

Lemma wf_member e field e' : wf e -> member e field st = Ok e' -> wf e'.
Proof.
  intros He. unfold member. intros H. outcome_inv.
  destruct (lookup_field_type_in_type st (typ e) field) eqn:El; outcome_inv.
  open_ctor. unfold field_ok. by rewrite El, type_same_refl.
Qed.

Lemma wf_statement_expression ss t e' :
  Forall (fun s => wf_stmt st s = true) ss -> statement_expression ss t = Ok e' -> wf e'.
Proof.
  intros Hss. assert (Hs : forallb (wf_stmt st) ss = true).
  { apply forallb_forall. intros x Hx. by eapply List.Forall_forall in Hss. }
  unfold statement_expression. by open_ctor.
Qed.

Lemma fields_match_ok fields values :
  length fields = length values -> fields_match fields values = Ok true ->
  forallb2 component_has_type fields (map typ values) = true.
Proof.
  revert values. induction fields as [|f fields IH]; intros [|v values]; cbn; try done.
  intros [= Hl] H. outcome_inv. destruct (type_eqb a (typ v)) eqn:Et; outcome_inv; [|done].
  rewrite (IH values) by done. rewrite andb_true_r. destruct f as [n t|n b]; cbn in *.
  - by injection E as ->.
  - unfold unsigned_int in E. destruct (0 <? b)%N; [|done]. cbn in E. by injection E as <-.
Qed.

Lemma wf_struct_explicit t fields values e' :
  is_struct_tag t = true -> lookup_fields_in_type st t = Some fields ->
  Forall (fun e => wf e) values ->
  struct_expr_with_explicit_padding t fields values = Ok e' -> wf e'.
Proof.
  intros Ht Hf Hv%wf_forall. unfold struct_expr_with_explicit_padding. intros H. outcome_inv.
  apply Nat.eqb_eq in E. apply fields_match_ok in E0; [|done].
  open_ctor. unfold struct_ok. by rewrite Ht, Hf, E0.
Qed.

Lemma take_fields_wf fields comps vs :
  map_Forall (fun _ e => wf e) comps -> take_fields fields comps = Ok vs ->
  Forall (fun e => wf e) vs.
Proof.
  revert comps vs. induction fields as [|f fields IH]; intros comps vs Hc; cbn.
  - intros [= <-]. constructor.
  - destruct (is_padding f); intros H; outcome_inv; constructor; try done; try by eapply IH.
    + by eapply Hc.
    + eapply IH; [|done]. by apply map_Forall_delete.
Qed.

Lemma take_values_wf fields vals vs :
  Forall (fun e => wf e) vals -> take_values fields vals = Ok vs -> Forall (fun e => wf e) vs.
Proof.
  revert vals vs. induction fields as [|f fields IH]; intros vals vs Hc; cbn.
  - intros [= <-]. constructor.
  - destruct (is_padding f).
    + intros H. outcome_inv. constructor; [done|]. by eapply IH.
    + inversion Hc as [|v vals' Hv Hvs]; subst; [done|]. intros H. outcome_inv.
      constructor; [done|]. by eapply IH.
Qed.

Lemma take_or_nondet_wf fields comps vs :
  map_Forall (fun _ e => wf e) comps -> take_or_nondet fields comps = Ok vs ->
  Forall (fun e => wf e) vs.
Proof.
  revert comps vs. induction fields as [|f fields IH]; intros comps vs Hc; cbn.
  - intros [= <-]. constructor.
  - destruct (comps !! component_name f) eqn:El; intros H; outcome_inv; constructor; try done.
    + by eapply Hc.
    + eapply IH; [|done]. by apply map_Forall_delete.
    + by eapply IH.
Qed.

Lemma wf_struct_expr t comps e' :
  map_Forall (fun _ e => wf e) comps -> struct_expr t comps st = Ok e' -> wf e'.
Proof.
  intros Hc. unfold struct_expr. intros H. outcome_inv.
  eapply wf_struct_explicit; [done | done | | exact H]. by eapply take_fields_wf.
Qed.

Lemma wf_struct_expr_from_values t vals e' :
  Forall (fun e => wf e) vals -> struct_expr_from_values t vals st = Ok e' -> wf e'.
Proof.
  intros Hc. unfold struct_expr_from_values. intros H. outcome_inv.
  eapply wf_struct_explicit; [done | done | | exact H]. by eapply take_values_wf.
Qed.

Lemma wf_struct_expr_with_nondet_fields t comps e' :
  map_Forall (fun _ e => wf e) comps ->
  struct_expr_with_nondet_fields t comps st = Ok e' -> wf e'.
Proof.
  intros Hc. unfold struct_expr_with_nondet_fields. intros H. outcome_inv.
  eapply wf_struct_expr_from_values; [|done]. by eapply take_or_nondet_wf.
Qed.

Lemma wf_struct_expr_from_padded_values t vals e' :
  Forall (fun e => wf e) vals -> struct_expr_from_padded_values t vals st = Ok e' -> wf e'.
Proof.
  intros Hc. unfold struct_expr_from_padded_values. intros H. outcome_inv.
  by eapply wf_struct_explicit.
Qed.

Lemma wf_ternary c a b e' : wf c -> wf a -> wf b -> ternary c a b = Ok e' -> wf e'.
Proof.
  intros Hc Ha Hb. unfold ternary. intros H. outcome_inv.
  apply wf_cast_to in E0 as [Hw Ht]; [|done].
  open_ctor. by rewrite Ht.
Qed.

Lemma wf_transmute_to e t e' : wf e -> transmute_to e t st = Ok e' -> wf e'.
Proof.
  intros He. unfold transmute_to. open_ctor. cbn. by rewrite E, E0.
Qed.

Lemma wf_union_expr t field v e' : wf v -> union_expr t field v st = Ok e' -> wf e'.
Proof. intros Hv. unfold union_expr. by open_ctor. Qed.

Lemma wf_self_op e op e' : wf e -> is_postfix op = true -> self_op e op = Ok e' -> wf e'.
Proof. unfold self_op. by open_ctor. Qed.

Lemma wf_unop e op e' :
  wf e -> unop e op = Ok e' -> wf e' /\ typ e' = unop_return_type op e.
Proof. unfold unop. intros. outcome_inv. split; [|done]. by open_ctor. Qed.

Lemma wf_raw_string_constant s : wf (raw_string_constant s).
Proof. cbn. by rewrite N.eqb_refl. Qed.

(** *** Statements *)

Abbreviation wfs s := (wf_stmt st s = true).

Lemma wf_forall_stmt ss : Forall (fun s => wfs s) ss -> forallb (wf_stmt st) ss = true.
Proof. intros H. apply forallb_forall. intros x Hx. by eapply List.Forall_forall in H. Qed.

Lemma wf_forall_case cs :
  Forall (fun c => wf (case c) /\ wfs (case_body c)) cs -> forallb (wf_case st) cs = true.
Proof.
  intros H. apply forallb_forall. intros [e s] Hx.
  eapply List.Forall_forall in H as [He Hs]; [|exact Hx]. cbn in *. by rewrite He, Hs.
Qed.

Lemma wf_mk_stmt b l :
  wf_stmt st (mkStmt b l) = true <-> body_ok b = true /\ wf_body st b = true.
Proof. cbn. apply andb_true_iff. Qed.

Lemma wf_symbol_expression name t : wf (symbol_expression name t).
Proof. done. Qed.

Lemma wf_array_to_ptr e e' : wf e -> array_to_ptr e = Ok e' -> wf e'.
Proof.
  intros He. unfold array_to_ptr. intros H. outcome_inv.
  eapply wf_address_of; [|exact H]. eapply wf_index_array; [exact He| |exact E1].
  by eapply wf_zero.
Qed.

Lemma wf_string_constant s e' : string_constant s = Ok e' -> wf e'.
Proof. apply wf_array_to_ptr, wf_raw_string_constant. Qed.

Lemma wf_builtin_call f args loc e' :
  Forall (fun e => wf e) args -> builtin_call f args loc = Ok e' -> wf e'.
Proof.
  intros Hargs. unfold builtin_call, as_expr. intros H. outcome_inv. rewrite wf_with_location.
  eapply wf_call; [|exact Hargs|exact E0]. by rewrite wf_with_location.
Qed.

Lemma wf_assert c msg loc s : wf c -> assert_ c msg loc = Ok s -> wfs s.
Proof.
  intros Hc. unfold assert_, as_stmt, code_expression, stmt. intros H. outcome_inv.
  apply wf_mk_stmt. split; [done|]. eapply wf_builtin_call; [|exact E1].
  repeat constructor; [done|]. by eapply wf_string_constant.
Qed.

Lemma wf_assume c loc s : wf c -> assume c loc = Ok s -> wfs s.
Proof. intros Hc. unfold assume. intros H. outcome_inv. cbn. by rewrite E, Hc. Qed.

Lemma wf_assert_sanity_check c msg url loc s :
  wf c -> assert_sanity_check c msg url loc = Ok s -> wfs s.
Proof.
  intros Hc. unfold assert_sanity_check. intros H. outcome_inv.
  apply wf_mk_stmt. split; [done|]. cbn [wf_body forallb].
  apply wf_assert in E as ->; [|done]. by apply wf_assume in E0 as ->.
Qed.

Lemma wf_assign `{StrDebug} l r loc s : wf l -> wf r -> assign l r loc = Ok s -> wfs s.
Proof.
  intros Hl Hr. unfold assign. destruct (type_eqb (typ l) (typ r)) eqn:Et; cbn [negb]; intros Ha;
    outcome_inv.
  - cbn. by rewrite Et, Hl, Hr.
  - apply wf_assert in E; [|done]. apply wf_mk_stmt. split; [done|]. cbn [wf_body forallb].
    rewrite E. cbn. by rewrite type_eqb_refl, Hl.
Qed.

Lemma wf_decl l v loc s :
  wf l -> option_all (fun e => wf e) v -> decl l v loc = Ok s -> wfs s.
Proof.
  intros Hl Hv%option_ok_all. unfold decl. intros H. outcome_inv. cbn. rewrite E, Hl, Hv.
  unfold option_ok. by rewrite E0.
Qed.

Lemma wf_for_loop i c u b loc s :
  wfs i -> wf c -> wfs u -> wfs b -> for_loop i c u b loc = Ok s -> wfs s.
Proof. intros Hi Hc Hu Hb. unfold for_loop. intros H. outcome_inv. cbn. by rewrite E, Hi, Hc, Hu, Hb. Qed.

Lemma wf_function_call l f args loc s :
  option_all (fun e => wf e) l -> wf f -> Forall (fun e => wf e) args ->
  function_call l f args loc = Ok s -> wfs s.
Proof.
  intros Hl%option_ok_all Hf Hargs%wf_forall. unfold function_call. intros H. outcome_inv.
  apply typecheck_call_ok in E. cbn. rewrite E, Hl, Hf, Hargs. destruct l as [l|]; cbn; [|done].
  destruct (return_type (typ f)); cbn in *; [|done]. by destruct (type_eqb (typ l) t).
Qed.

Lemma wf_goto dest loc s : goto dest loc = Ok s -> wfs s.
Proof. unfold goto. intros H. outcome_inv. cbn. by rewrite E. Qed.

Lemma wf_if_then_else i t e loc s :
  wf i -> wfs t -> option_all (fun s => wfs s) e -> if_then_else i t e loc = Ok s -> wfs s.
Proof.
  intros Hi Ht He%option_ok_all. unfold if_then_else. intros H. outcome_inv. cbn.
  by rewrite E, Hi, Ht, He.
Qed.

Lemma wf_switch c cs d loc s :
  wf c -> Forall (fun c => wf (case c) /\ wfs (case_body c)) cs -> option_all (fun s => wfs s) d ->
  switch c cs d loc = Ok s -> wfs s.
Proof.
  intros Hc Hcs%wf_forall_case Hd%option_ok_all. unfold switch. intros H. outcome_inv.
  apply wf_mk_stmt. cbn. by rewrite E, Hc, Hcs, Hd.
Qed.

Lemma wf_while_loop c b loc s : wf c -> wfs b -> while_loop c b loc = Ok s -> wfs s.
Proof. intros Hc Hb. unfold while_loop. intros H. outcome_inv. cbn. by rewrite E, Hc, Hb. Qed.

Lemma wf_with_label s l s' : wfs s -> with_label s l = Ok s' -> wfs s'.
Proof. intros Hs. unfold with_label. intros H. outcome_inv. cbn. by rewrite E, Hs. Qed.
End Constructors.
