(* ===== verification/Built.v ===== *)
(** * Programs the constructors can build

    [built st x] holds of the expressions and statements that the public
    constructors of [expr.rs], [typ.rs], [builtin.rs] and [stmt.rs] can produce
    with the symbol table [st], while the table itself grows by the operations of
    [symbol_table.rs].  [built_wf_aux] shows that all of them obey the typing
    rules of [Typing.v]; the crucial step is that the rules survive every
    operation on the table ([grow_wf]).  [program st] are the tables themselves:
    they start from [SymbolTable::new] and only built values are stored. *)

From S2P Require Import Prelude CbmcString MachineModel Location Typ Ast SymbolTable Expr Symbol.
From S2P Require Import Builtin Stmt Env Typing.

(** ** The typing rules survive the growth of the table *)

Section Growth.
Variables st st' : SymbolTable.
Hypothesis Hle : symtab_le st st'.

(** A symbol that is found keeps its type, unless it was incomplete. *)
Lemma grow_lookup name s :
  lookup st name = Some s ->
  exists s', lookup st' name = Some s'
    /\ (sym_typ s' = sym_typ s \/ completes (sym_typ s') (sym_typ s) = true).
Proof.
  destruct Hle as [_ H]. intros (s' & Hs' & [->|[[_ [b ->]]|Hc]])%H; eauto.
Qed.

Lemma completes_components a b : completes a b = true -> components b = None.
Proof. by destruct a, b. Qed.

Lemma grow_components name cs :
  lookup_components st name = Some cs -> lookup_components st' name = Some cs.
Proof.
  unfold lookup_components. destruct (lookup st name) as [s|] eqn:Es; [|done].
  apply grow_lookup in Es as (s' & -> & [->|Hc]); [done|].
  by rewrite (completes_components _ _ Hc).
Qed.

Lemma grow_fields t cs :
  lookup_fields_in_type st t = Some cs -> lookup_fields_in_type st' t = Some cs.
Proof.
  unfold lookup_fields_in_type. destruct (type_name t) as [n|]; [|done]. apply grow_components.
Qed.

Lemma grow_field_type t f ft :
  lookup_field_type_in_type st t f = Some ft -> lookup_field_type_in_type st' t f = Some ft.
Proof.
  unfold lookup_field_type_in_type, lookup_field_type. destruct (type_name t) as [n|]; [|done].
  destruct (lookup_components st n) as [cs|] eqn:E; [|done]. by rewrite (grow_components _ _ E).
Qed.

(** Sizes that are known do not change. *)
Definition keeps (r r' : InternedString -> fuelled N) : Prop :=
  forall tag n, r tag = Done (Ok n) -> r' tag = Done (Ok n).

Lemma grow_sum r r' cs acc n :
  Forall (fun c => forall m, component_size st r c = Done (Ok m) ->
                             component_size st' r' c = Done (Ok m)) cs ->
  sum_u64 acc (map (component_size st r) cs) = Done (Ok n) ->
  sum_u64 acc (map (component_size st' r') cs) = Done (Ok n).
Proof.
  intros H. revert acc. induction H as [|c cs Hc H IH]; intros acc; cbn; [done|].
  destruct (component_size st r c) as [[m|]|]; cbn; try done.
  rewrite (Hc m) by done. cbn. destruct (u64_add acc m); cbn; [apply IH|done].
Qed.

Lemma grow_max r r' cs acc n :
  Forall (fun c => forall m, component_size st r c = Done (Ok m) ->
                             component_size st' r' c = Done (Ok m)) cs ->
  max_u64 acc (map (component_size st r) cs) = Done (Ok n) ->
  max_u64 acc (map (component_size st' r') cs) = Done (Ok n).
Proof.
  intros H. revert acc. induction H as [|c cs Hc H IH]; intros acc; cbn; [done|].
  destruct (component_size st r c) as [[m|]|]; cbn; try done.
  rewrite (Hc m) by done. cbn. apply IH.
Qed.

Lemma grow_component r r' c :
  component_all (fun t => forall n, size_with st r t = Done (Ok n) ->
                                    size_with st' r' t = Done (Ok n)) c ->
  forall m, component_size st r c = Done (Ok m) -> component_size st' r' c = Done (Ok m).
Proof. by destruct c. Qed.

Lemma grow_size_with r r' t n :
  keeps r r' -> size_with st r t = Done (Ok n) -> size_with st' r' t = Done (Ok n).
Proof.
  intros Hr. assert (Hm : machine_model st' = machine_model st) by apply Hle.
  revert n. induction t using Type_rect'; intros res; cbn [size_with];
    unfold c_int_sizeof_in_bits; rewrite ?Hm; try done.
  - destruct (size_with st r t) as [[m|]|]; try done. by rewrite (IHt m).
  - apply grow_sum. eapply Forall_impl; [eassumption | apply grow_component].
  - apply Hr.
  - apply grow_max. eapply Forall_impl; [eassumption | apply grow_component].
  - apply Hr.
  - destruct (size_with st r t) as [[m|]|]; try done. by rewrite (IHt m).
Qed.

Lemma incomplete_size a b r : completes a b = true -> size_with st r b = Done Panic.
Proof. by destruct a, b. Qed.

Lemma grow_tag_sizeof k : keeps (tag_sizeof k st) (tag_sizeof k st').
Proof.
  induction k as [|k IH]; intros tag n; cbn; [done|].
  destruct (lookup st tag) as [s|] eqn:Es; [|done].
  apply grow_lookup in Es as (s' & -> & [->|Hc]).
  - by apply grow_size_with.
  - by rewrite (incomplete_size _ _ _ Hc).
Qed.

Lemma grow_table_size : size (symbol_table st) <= size (symbol_table st').
Proof.
  rewrite <- !size_dom. apply subseteq_size. intros x [s Hs]%elem_of_dom.
  destruct Hle as [_ H]. apply elem_of_dom. destruct (H x s Hs) as (s' & Hs' & _). by exists s'.
Qed.

Lemma grow_sizeof_in_bits t n : sizeof_in_bits t st = Ok n -> sizeof_in_bits t st' = Ok n.
Proof.
  unfold sizeof_in_bits, run.
  destruct (size_with st (tag_sizeof (sizeof_fuel st) st) t) as [o|] eqn:E; [|done]. intros ->.
  rewrite (grow_size_with (tag_sizeof (sizeof_fuel st) st) (tag_sizeof (sizeof_fuel st') st') t n);
    [done| |done].
  intros tag m Hm. apply grow_tag_sizeof in Hm.
  pose proof (tag_sizeof_extends_le st' (sizeof_fuel st) (sizeof_fuel st')) as Hx.
  rewrite <- Hm. apply Hx; [|by rewrite Hm]. unfold sizeof_fuel. pose proof grow_table_size. lia.
Qed.

Lemma grow_node_ok v t : node_ok st v t = true -> node_ok st' v t = true.
Proof.
  destruct v; cbn; try done; intros H; bool_inv.
  - rewrite H. cbn. destruct (sizeof_in_bits (typ _) st) eqn:E1; [|done].
    destruct (sizeof_in_bits t st) eqn:E2; [|done].
    by rewrite (grow_sizeof_in_bits _ _ E1), (grow_sizeof_in_bits _ _ E2).
  - rewrite H. unfold field_ok in *. destruct (lookup_field_type_in_type st _ _) eqn:E; [|done].
    by rewrite (grow_field_type _ _ _ E).
  - unfold struct_ok in *. bool_inv. rewrite H.
    destruct (lookup_fields_in_type st t) eqn:E; [|done]. by rewrite (grow_fields _ _ E).
  - rewrite H. unfold field_ok in *. destruct (lookup_field_type_in_type st _ _) eqn:E; [|done].
    by rewrite (grow_field_type _ _ _ E).
Qed.

Lemma option_all_mp {A} (P Q : A -> Prop) o :
  option_all (fun a => P a -> Q a) o -> option_all P o -> option_all Q o.
Proof. destruct o; cbn; auto. Qed.

Lemma Forall_mp {A} (P Q : A -> Prop) l :
  Forall (fun a => P a -> Q a) l -> Forall P l -> Forall Q l.
Proof. induction 1; inversion 1; constructor; auto. Qed.

Lemma value_all_mp PE PS QE QS v :
  value_all (fun e => PE e -> QE e) (fun s => PS s -> QS s) v ->
  value_all PE PS v -> value_all QE QS v.
Proof. destruct v; cbn; intuition eauto using Forall_mp. Qed.

Lemma body_all_mp PE PS QE QS b :
  body_all (fun e => PE e -> QE e) (fun s => PS s -> QS s) b ->
  body_all PE PS b -> body_all QE QS b.
Proof.
  destruct b; cbn; try solve [intuition eauto using Forall_mp, option_all_mp].
  intros (Hc & Hcs & Hd) (Hc' & Hcs' & Hd'). split; [auto|]. split; [|by eapply option_all_mp].
  eapply Forall_mp; [|exact Hcs']. eapply Forall_impl; [exact Hcs|].
  intros []; cbn. intuition.
Qed.

Lemma grow_wf :
  (forall e, wf_expr st e = true -> wf_expr st' e = true)
  /\ (forall s, wf_stmt st s = true -> wf_stmt st' s = true).
Proof.
  apply ast_mutual_ind.
  - intros v t l IH. rewrite !wf_mk, !wf_value_all. intros [Hn Hv]. split.
    + by apply grow_node_ok.
    + eapply value_all_mp; [exact IH | exact Hv].
  - intros b l IH. rewrite !wf_mk_stmt, !wf_body_all. intros [Hn Hv]. split; [done|].
    eapply body_all_mp; [exact IH | exact Hv].
Qed.
End Growth.

(** One public operation on the table; what is passed to [replace] may validate as it likes
    but has to let a symbol evolve only. *)
Definition table_grows (st st' : SymbolTable) : Prop :=
  exists op, growing op /\ run_table_op st op = Ok st'.

Lemma table_grows_le st st' : table_grows st st' -> symtab_le st st'.
Proof. intros (op & Hg & H). by eapply growing_le. Qed.

Lemma step_wf_expr st st' e : table_grows st st' -> wf_expr st e = true -> wf_expr st' e = true.
Proof. intros H. exact (proj1 (grow_wf st st' (table_grows_le _ _ H)) e). Qed.

Lemma step_wf_stmt st st' s : table_grows st st' -> wf_stmt st s = true -> wf_stmt st' s = true.
Proof. intros H. exact (proj2 (grow_wf st st' (table_grows_le _ _ H)) s). Qed.

(** ** What can be built

    One rule per public constructor; a constructor defined from others
    ([saturating_add], [index], ...) needs no rule of its own, see
    [built_compound].  Lists and options of parts are given element by element. *)

Inductive built `{StrDebug} : SymbolTable -> Expr + Stmt -> Prop :=
(* the table grows *)
| built_grow st st' x : built st x -> table_grows st st' -> built st' x
(* leaves *)
| built_bool_constant st b : built st (inl (bool_constant b))
| built_c_bool_constant st b : built st (inl (c_bool_constant b))
| built_double_constant st b : built st (inl (double_constant b))
| built_float_constant st b : built st (inl (float_constant b))
| built_int_constant st i t e : int_constant i t = Ok e -> built st (inl e)
| built_pointer_constant st c t e : pointer_constant c t = Ok e -> built st (inl e)
| built_nondet st t : built st (inl (nondet t))
| built_symbol_expression st x t : built st (inl (symbol_expression x t))
| built_raw_string_constant st s : built st (inl (raw_string_constant s))
(* expressions from parts *)
| built_with_location st e l : built st (inl e) -> built st (inl (with_location e l))
| built_address_of st e e' : built st (inl e) -> address_of e = Ok e' -> built st (inl e')
| built_array_constant st e n e' :
    built st (inl e) -> array_constant e n = Ok e' -> built st (inl e')
| built_array_expr st t es e' :
    (forall e, e ∈ es -> built st (inl e)) -> array_expr t es = Ok e' -> built st (inl e')
| built_vector_expr st t es e' :
    (forall e, e ∈ es -> built st (inl e)) -> vector_expr t es = Ok e' -> built st (inl e')
| built_cast_to st e t e' : built st (inl e) -> cast_to e t = Ok e' -> built st (inl e')
| built_dereference st e e' : built st (inl e) -> dereference e = Ok e' -> built st (inl e')
| built_index_array st e i e' :
    built st (inl e) -> built st (inl i) -> index_array e i = Ok e' -> built st (inl e')
| built_call st f es e' :
    built st (inl f) -> (forall e, e ∈ es -> built st (inl e)) -> call f es = Ok e' ->
    built st (inl e')
| built_member st e f e' : built st (inl e) -> member e f st = Ok e' -> built st (inl e')
| built_statement_expression st ss t e' :
    (forall s, s ∈ ss -> built st (inr s)) -> statement_expression ss t = Ok e' ->
    built st (inl e')
| built_struct_expr st t comps e' :
    (forall k e, comps !! k = Some e -> built st (inl e)) -> struct_expr t comps st = Ok e' ->
    built st (inl e')
| built_struct_expr_with_nondet_fields st t comps e' :
    (forall k e, comps !! k = Some e -> built st (inl e)) ->
    struct_expr_with_nondet_fields t comps st = Ok e' -> built st (inl e')
| built_struct_expr_from_values st t es e' :
    (forall e, e ∈ es -> built st (inl e)) -> struct_expr_from_values t es st = Ok e' ->
    built st (inl e')
| built_struct_expr_from_padded_values st t es e' :
    (forall e, e ∈ es -> built st (inl e)) -> struct_expr_from_padded_values t es st = Ok e' ->
    built st (inl e')
| built_ternary st c a b e' :
    built st (inl c) -> built st (inl a) -> built st (inl b) -> ternary c a b = Ok e' ->
    built st (inl e')
| built_transmute_to st e t e' :
    built st (inl e) -> transmute_to e t st = Ok e' -> built st (inl e')
| built_union_expr st t f e e' :
    built st (inl e) -> union_expr t f e st = Ok e' -> built st (inl e')
| built_binop st l op r e' :
    built st (inl l) -> built st (inl r) -> binop l op r = Ok e' -> built st (inl e')
| built_postincr st e e' : built st (inl e) -> postincr e = Ok e' -> built st (inl e')
| built_postdecr st e e' : built st (inl e) -> postdecr e = Ok e' -> built st (inl e')
| built_preincr st e e' : built st (inl e) -> preincr e = Ok e' -> built st (inl e')
| built_predecr st e e' : built st (inl e) -> predecr e = Ok e' -> built st (inl e')
| built_unop st op e e' : built st (inl e) -> unop e op = Ok e' -> built st (inl e')
(* statements *)
| built_stmt_with_location st s l : built st (inr s) -> built st (inr (stmt_with_location s l))
| built_atomic_block st ss l :
    (forall s, s ∈ ss -> built st (inr s)) -> built st (inr (atomic_block ss l))
| built_block st ss l : (forall s, s ∈ ss -> built st (inr s)) -> built st (inr (block ss l))
| built_break_stmt st l : built st (inr (break_stmt l))
| built_continue_stmt st l : built st (inr (continue_stmt l))
| built_skip st l : built st (inr (skip l))
| built_code_expression st e l : built st (inl e) -> built st (inr (code_expression e l))
| built_assign st a b l s :
    built st (inl a) -> built st (inl b) -> assign a b l = Ok s -> built st (inr s)
| built_assert st c msg l s : built st (inl c) -> assert_ c msg l = Ok s -> built st (inr s)
| built_assume st c l s : built st (inl c) -> assume c l = Ok s -> built st (inr s)
| built_decl st a v l s :
    built st (inl a) -> (forall e, v = Some e -> built st (inl e)) -> decl a v l = Ok s ->
    built st (inr s)
| built_for_loop st i c u b l s :
    built st (inr i) -> built st (inl c) -> built st (inr u) -> built st (inr b) ->
    for_loop i c u b l = Ok s -> built st (inr s)
| built_function_call st a f es l s :
    (forall e, a = Some e -> built st (inl e)) -> built st (inl f) ->
    (forall e, e ∈ es -> built st (inl e)) -> function_call a f es l = Ok s -> built st (inr s)
| built_goto st d l s : goto d l = Ok s -> built st (inr s)
| built_if_then_else st i t e l s :
    built st (inl i) -> built st (inr t) -> (forall s, e = Some s -> built st (inr s)) ->
    if_then_else i t e l = Ok s -> built st (inr s)
| built_ret st e l : (forall x, e = Some x -> built st (inl x)) -> built st (inr (ret e l))
| built_switch st c cs d l s :
    built st (inl c) -> (forall x, x ∈ cs -> built st (inl (case x))) ->
    (forall x, x ∈ cs -> built st (inr (case_body x))) ->
    (forall s, d = Some s -> built st (inr s)) -> switch c cs d l = Ok s -> built st (inr s)
| built_while_loop st c b l s :
    built st (inl c) -> built st (inr b) -> while_loop c b l = Ok s -> built st (inr s)
| built_with_label st s0 lab s :
    built st (inr s0) -> with_label s0 lab = Ok s -> built st (inr s).

(** ** Everything built is well-formed *)

Definition wf_any (st : SymbolTable) (x : Expr + Stmt) : Prop :=
  match x with inl e => wf_expr st e = true | inr s => wf_stmt st s = true end.

Lemma forall_elem {A} (P : A -> Prop) l : (forall a, a ∈ l -> P a) -> Forall P l.
Proof. by rewrite Forall_forall. Qed.

Lemma option_elem {A} (P : A -> Prop) o : (forall a, o = Some a -> P a) -> option_all P o.
Proof. destruct o; cbn; auto. Qed.

Lemma wf_stmt_with_location st s l : wf_stmt st (stmt_with_location s l) = wf_stmt st s.
Proof. by destruct s. Qed.

Lemma built_wf_aux `{StrDebug} st x : built st x -> wf_any st x.
Proof.
  induction 1; cbn [wf_any] in *;
    try solve
      [ done | by apply wf_raw_string_constant
      | by eapply wf_int_constant | by eapply wf_pointer_constant
      | rewrite wf_with_location; assumption | rewrite wf_stmt_with_location; assumption
      | by eapply wf_address_of | by eapply wf_array_constant
      | by eapply wf_array_expr; [apply forall_elem|]
      | by eapply wf_vector_expr; [apply forall_elem|]
      | by eapply wf_cast_to | by eapply wf_dereference | by eapply (wf_index_array _ e i)
      | by eapply (wf_call _ f es); [|apply forall_elem|] | by eapply wf_member
      | by eapply wf_statement_expression; [apply forall_elem|]
      | by eapply wf_struct_expr | by eapply wf_struct_expr_with_nondet_fields
      | by eapply wf_struct_expr_from_values; [apply forall_elem|]
      | by eapply wf_struct_expr_from_padded_values; [apply forall_elem|]
      | by eapply (wf_ternary _ c a b) | by eapply wf_transmute_to | by eapply wf_union_expr
      | by eapply (wf_binop _ l op r) | by eapply (wf_self_op _ e Postincrement)
      | by eapply (wf_self_op _ e Postdecrement) | by eapply (wf_unop _ e)
      | by apply wf_mk_stmt; split; [|apply wf_forall_stmt, forall_elem]
      | by eapply (wf_assign _ a b) | by eapply wf_assert | by eapply wf_assume
      | by eapply wf_decl; [|apply option_elem|] | by eapply (wf_for_loop _ i c u b)
      | by eapply (wf_function_call _ a f es); [apply option_elem| |apply forall_elem|]
      | by eapply wf_goto | by eapply (wf_if_then_else _ i t e); [| |apply option_elem|]
      | by apply wf_mk_stmt; split; [|apply option_ok_all, option_elem]
      | by eapply (wf_switch _ c cs d); [|apply forall_elem|apply option_elem|]; auto
      | by eapply (wf_while_loop _ c b) | by eapply wf_with_label ].
  - destruct x; cbn [wf_any] in *; [by eapply step_wf_expr | by eapply step_wf_stmt].
Qed.

(** ** Constructors defined from others *)

(** The constructors with one and with two operands that are compositions of those
    above. *)
Definition compound_unary (mm : MachineModel) (st : SymbolTable) (t : Type_) :
    list (Expr -> outcome Expr) :=
  [not_; pointer_offset; is_negative; is_zero; is_nonnull; array_to_ptr;
   (fun e => cast_to_machine_equivalent_type e t mm); (fun e => reinterpret_cast e t)].

Definition compound_binary (mm : MachineModel) : list (Expr -> Expr -> outcome Expr) :=
  [and_; or_; implies; index; index_ptr; same_object;
   (fun a b => saturating_add a b mm); (fun a b => saturating_sub a b mm);
   (fun a b => r ← add_overflow a b; Ok (result r));
   (fun a b => r ← add_overflow a b; Ok (overflowed r));
   (fun a b => r ← sub_overflow a b; Ok (result r));
   (fun a b => r ← sub_overflow a b; Ok (overflowed r));
   (fun a b => r ← mul_overflow a b; Ok (result r));
   (fun a b => r ← mul_overflow a b; Ok (overflowed r))].

Lemma built_zero `{StrDebug} st t e : zero t = Ok e -> built st (inl e).
Proof.
  unfold zero. repeat case_match; intros Hz; outcome_inv;
    solve [constructor | by eapply built_int_constant | by eapply built_pointer_constant].
Qed.

Lemma built_min_int_expr `{StrDebug} st t mm e : min_int_expr t mm = Ok e -> built st (inl e).
Proof. unfold min_int_expr. intros. outcome_inv. by eapply built_int_constant. Qed.

Lemma built_max_int_expr `{StrDebug} st t mm e : max_int_expr t mm = Ok e -> built st (inl e).
Proof. unfold max_int_expr. intros. outcome_inv. by eapply built_int_constant. Qed.

(** Replace the equation of a constructor by the fact that its result is built. *)
Ltac built_forward :=
  repeat match goal with
  | H : ?op = Ok ?e |- _ =>
      lazymatch type of e with Expr => idtac end;
      lazymatch goal with st : SymbolTable |- _ =>
        let Hb := fresh "Hb" in
        assert (Hb : built st (inl e)) by
          first [ by eapply built_zero | by eapply built_min_int_expr
                | by eapply built_max_int_expr | by eapply built_int_constant
                | by eapply built_binop; [| |exact H] | by eapply built_unop; [|exact H]
                | by eapply built_cast_to; [|exact H] | by eapply built_ternary; [| | |exact H]
                | by eapply built_dereference; [|exact H] | by eapply built_address_of; [|exact H]
                | by eapply built_index_array; [| |exact H] ];
        clear H
      end
  end.

Ltac built_solve :=
  outcome_inv;
  repeat match goal with
  | H : (if ?b then _ else _) = Ok _ |- _ => destruct b; outcome_inv
  | |- context [result {| result := ?r; overflowed := _ |}] => cbn [result]
  | |- context [overflowed {| result := _; overflowed := ?r |}] => cbn [overflowed]
  end;
  built_forward; try assumption.

Lemma built_compound_unary `{StrDebug} st mm t f e e' :
  f ∈ compound_unary mm st t -> built st (inl e) -> f e = Ok e' -> built st (inl e').
Proof.
  unfold compound_unary. rewrite !elem_of_cons, elem_of_nil. intros Hf He Hok.
  repeat (destruct Hf as [->|Hf]); [..|done];
    cbv [not_ pointer_offset is_negative is_zero is_nonnull null array_to_ptr
         cast_to_machine_equivalent_type reinterpret_cast lt_ eq_ neq_] in Hok; built_solve.
Qed.

Lemma built_compound_binary `{StrDebug} st mm f a b e' :
  f ∈ compound_binary mm -> built st (inl a) -> built st (inl b) -> f a b = Ok e' ->
  built st (inl e').
Proof.
  unfold compound_binary. rewrite !elem_of_cons, elem_of_nil. intros Hf Ha Hb Hok.
  repeat (destruct Hf as [->|Hf]); [..|done];
    cbv [and_ or_ implies index index_ptr same_object pointer_object saturating_add saturating_sub
         add_overflow sub_overflow mul_overflow plus_ sub_ mul_ add_overflow_p sub_overflow_p
         mul_overflow_p is_negative lt_ eq_] in Hok; built_solve.
Qed.

(** ** Whole programs *)

(** A symbol value consists of things built with the table. *)
Definition built_value `{StrDebug} (st : SymbolTable) (v : SymbolValues) : Prop :=
  match v with
  | SVExpr e => built st (inl e)
  | SVStmt s => built st (inr s)
  | SVNone => True
  end.

Definition wf_symbol (st : SymbolTable) (s : Symbol) : bool :=
  match sym_value s with
  | SVExpr e => wf_expr st e
  | SVStmt b => wf_stmt st b
  | SVNone => true
  end.

(** The tables that can be reached: a new table, changed by the public operations, where
    every symbol that appears or changes has a value that was built with the table as it was
    before, at any earlier time, or as it is after the change.  A validator passed to
    [replace] lets symbols evolve only ([replace_breaks_values] shows why). *)
Inductive program `{StrDebug} : SymbolTable -> Prop :=
| program_new mm st : symtab_new mm = Ok st -> program st
| program_step st st' :
    program st -> table_grows st st' ->
    (forall name s, lookup st' name = Some s ->
       lookup st name = Some s \/ built_value st' (sym_value s)) ->
    program st'.

Lemma built_value_wf `{StrDebug} st s : built_value st (sym_value s) -> wf_symbol st s = true.
Proof.
  unfold built_value, wf_symbol. destruct (sym_value s); [apply (built_wf_aux _ (inl _))
    | apply (built_wf_aux _ (inr _)) | done].
Qed.

Lemma step_wf_symbol st st' s :
  table_grows st st' -> wf_symbol st s = true -> wf_symbol st' s = true.
Proof.
  intros Hs. unfold wf_symbol. destruct (sym_value s); [by apply step_wf_expr
    | by apply step_wf_stmt | done].
Qed.

Lemma env_constants_wf st f l :
  (forall x s, x ∈ l -> x = Ok s -> wf_symbol st s = true) ->
  sequence l = Ok f -> Forall (fun s => wf_symbol st s = true) f.
Proof.
  intros H Hl%sequence_ok. apply Forall_forall. intros s Hs.
  apply list_elem_of_lookup_1 in Hs as [i Hi].
  destruct (Forall2_lookup_r _ _ _ _ _ Hl Hi) as (x & Hx & ->).
  eapply H; [|reflexivity]. by eapply list_elem_of_lookup_2.
Qed.

Lemma env_int_constant_wf st n v s : env_int_constant n v = Ok s -> wf_symbol st s = true.
Proof. unfold env_int_constant. intros. outcome_inv. by apply (wf_int_constant st) in E as [? _]. Qed.
Lemma int_constant_from_bool_wf st n v s :
  int_constant_from_bool n v = Ok s -> wf_symbol st s = true.
Proof.
  unfold int_constant_from_bool. intros. outcome_inv. by apply (wf_int_constant st) in E as [? _].
Qed.
Lemma env_string_constant_wf st n v s : env_string_constant n v = Ok s -> wf_symbol st s = true.
Proof. unfold env_string_constant. intros. outcome_inv. by apply (wf_string_constant st) in E. Qed.
Lemma builtin_function_wf st n ps r s : builtin_function n ps r = Ok s -> wf_symbol st s = true.
Proof. unfold builtin_function. intros. by outcome_inv. Qed.

Create HintDb env_wf.
#[export] Hint Resolve env_int_constant_wf int_constant_from_bool_wf env_string_constant_wf
  builtin_function_wf : env_wf.

Lemma new_symbols_wf st mm ms es bs :
  machine_model_symbols mm = Ok ms -> additional_env_symbols = Ok es ->
  map_outcome as_symbol list_all = Ok bs ->
  Forall (fun s => wf_symbol st s = true) (ms ++ es ++ bs).
Proof.
  intros Hms Hes Hbs. apply Forall_app. split; [|apply Forall_app; split].
  - eapply env_constants_wf, Hms. intros x s. rewrite !elem_of_cons, elem_of_nil.
    intros Hx Hs. repeat (destruct Hx as [->|Hx]; [eauto with env_wf|]). done.
  - eapply env_constants_wf, Hes. intros x s. rewrite !elem_of_cons, elem_of_nil.
    intros Hx Hs. repeat (destruct Hx as [->|Hx]; [eauto with env_wf; by outcome_inv|]). done.
  - eapply env_constants_wf, Hbs. intros x s (f & -> & _)%list_elem_of_fmap Hs.
    eauto with env_wf.
Qed.

Lemma program_invariant `{StrDebug} st :
  program st -> symtab_ok st /\ map_Forall (fun _ s => wf_symbol st s = true) (symbol_table st).
Proof.
  induction 1 as [mm st Hnew|st st' _ [IHok IHwf] Hstep Hvals].
  - destruct (symtab_new_symbols mm) as (l & st0 & Hst & _ & Hl & ms & es & bs & -> & Hm & He & Hb).
    rewrite Hst in Hnew. injection Hnew as <-.
    assert (Hin : forall name s, lookup st0 name = Some s -> s ∈ ms ++ es ++ bs /\ sym_name s = name).
    { intros name s Hs. rewrite Hl in Hs. apply foldl_raw_insert_inv in Hs as [Hs|Hs]; [|done].
      by unfold lookup in Hs; cbn in Hs; rewrite lookup_empty in Hs. }
    split; intros name s Hs; apply Hin in Hs as [Hs Hn]; [done|].
    pose proof (new_symbols_wf st0 _ _ _ _ Hm He Hb) as Hwf. by eapply Forall_forall in Hwf.
  - split; [destruct Hstep as (op & _ & Hop); by eapply run_table_op_ok|]. intros name s Hs.
    destruct (Hvals _ _ Hs) as [Hold|Hb]; [|by apply built_value_wf].
    apply (step_wf_symbol st); [done|]. by apply (IHwf name).
Qed.

(** Adding or changing one symbol *)
Lemma program_raw_insert `{StrDebug} st s op :
  program st -> growing op -> run_table_op st op = Ok (raw_insert st s) ->
  built_value (raw_insert st s) (sym_value s) -> program (raw_insert st s).
Proof.
  intros Hp Hg Hop Hb. eapply program_step; [done | by exists op |].
  intros name x. unfold lookup. cbn. intros [[<- <-]|[Hne Hx]]%lookup_insert_Some; auto.
Qed.

(** ** Casts *)

Lemma cast_to_accepts e t :
  can_cast_to e t = true -> exists e', cast_to e t = Ok e' /\ typ e' ≃ t.
Proof.
  intros H. unfold cast_to. rewrite H. cbn [rassert mbind outcome_bind].
  destruct (type_eqb (typ e) t) eqn:Et; [exists e; by rewrite <- type_eqb_spec|].
  destruct (is_bool t) eqn:Eb; [|by eexists].
  apply is_bool_eq in Eb as ->. unfold can_cast_to, can_cast_from in H. rewrite Et in H. cbn in H.
  unfold zero, neq_, binop, typecheck_binop_args.
  destruct e as [v u l]; cbn in *; destruct u as [| | |[]| | | | | | | | | | | | | | | | | |];
    try done; cbn; rewrite ?N.eqb_refl; try by eexists.
  cbn. rewrite type_eqb_refl. by eexists.
Qed.

Lemma cast_to_again e t e' : cast_to e t = Ok e' -> cast_to e' t = Ok e'.
Proof.
  intros H. assert (Hc : can_cast_to e t = true).
  { unfold cast_to in H. by destruct (can_cast_to e t). }
  destruct (cast_to_accepts e t Hc) as (e'' & H' & Ht%type_eqb_spec).
  rewrite H in H'. injection H' as <-. unfold cast_to, can_cast_to, can_cast_from. by rewrite Ht.
Qed.

(** ** Properties *)

(** C1. "The constructors ensure that all expressions are well-formed": every expression
    and statement that the public constructors can build, in any order and while
    the symbol table grows, obeys the typing rule of its node and has well-formed
    parts, relative to the current table. *)
Theorem built_wf `{StrDebug} (st : SymbolTable) (x : Expr + Stmt) :
  built st x -> match x with
                | inl e => wf_expr st e = true
                | inr s => wf_stmt st s = true
                end.
Proof. apply built_wf_aux. Qed.

(** A concrete [Debug] for strings, for the examples. *)
#[export] Instance plain_debug : StrDebug := fun s => s.

Lemma built_wf_witness :
  wf_expr sample_table
    (expr (EIf (bool_constant true) (expr (EIntConstant 1) c_int) (expr (EIntConstant 2) c_int))
       c_int) = true.
Proof.
  apply (built_wf sample_table (inl _)).
  apply (built_ternary _ (bool_constant true) (expr (EIntConstant 1) c_int)
           (expr (EIntConstant 2) c_int));
    [constructor | by apply (built_int_constant _ 1 c_int) | by apply (built_int_constant _ 2 c_int)
    | reflexivity].
Defined.

(** C2. In every table that the public operations reach from [SymbolTable::new] when only
    built values are stored and the validators passed to [replace] let a symbol evolve only,
    each symbol is stored under its name and the value of every symbol, function body or
    initial value, is well-formed with respect to the final table, although it was built when
    the table was smaller. *)
Theorem program_wf `{StrDebug} (st : SymbolTable) :
  program st -> symtab_ok st /\ map_Forall (fun _ s => wf_symbol st s = true) (symbol_table st).
Proof. apply program_invariant. Qed.

(** A table to which three things are done: an incomplete struct is declared; [replace], with
    a validator of its own, completes it; a variable of the struct is added, with a value. *)
Definition point_typ (x : Type_) : Type_ := TStruct "point" [Field "x" x].
Definition opaque_point : Symbol := Symbol.new "tag-point" Location.none (TIncompleteStruct "point") SVNone None None.
Definition point_symbol (x : Type_) : Symbol := Symbol.new "tag-point" Location.none (point_typ x) SVNone None None.
Definition point_value : Expr :=
  expr (EStruct [expr (EIntConstant 1) c_int]) (TStructTag "tag-point").
Definition origin : Symbol :=
  Symbol.new "origin" Location.none (TStructTag "tag-point") (SVExpr point_value) None None.
Definition still_opaque (o : option Symbol) : bool :=
  match o with
  | Some s => match sym_typ s with TIncompleteStruct tag => String.eqb tag "point" | _ => false end
  | None => false
  end.

Lemma point_replace_growing : growing (OpReplace still_opaque (point_symbol c_int)).
Proof.
  intros old new [<- H]. cbn in H. right; right. unfold still_opaque in H.
  by destruct (sym_typ old).
Qed.

Definition point_ops : list table_op :=
  [OpInsert opaque_point; OpReplace still_opaque (point_symbol c_int); OpInsert origin].
Definition point_table (st0 : SymbolTable) : SymbolTable :=
  raw_insert (raw_insert (raw_insert st0 opaque_point) (point_symbol c_int)) origin.

Lemma point_value_built `{StrDebug} st0 : built (point_table st0) (inl point_value).
Proof.
  apply (built_struct_expr_from_values _ (TStructTag "tag-point") [expr (EIntConstant 1) c_int]).
  - intros e ->%list_elem_of_singleton. by apply (built_int_constant _ 1 c_int).
  - unfold struct_expr_from_values, lookup_fields_in_type, point_table. cbn [type_name].
    by rewrite !lookup_raw_insert.
Qed.

Lemma point_program `{StrDebug} st0 :
  program st0 -> lookup st0 "tag-point" = None -> lookup st0 "origin" = None ->
  run_table_ops st0 point_ops = Ok (point_table st0) /\ program (point_table st0).
Proof.
  intros Hp Hn1 Hn2.
  assert (H1 : insert st0 opaque_point = Ok (raw_insert st0 opaque_point)) by by apply insert_ok.
  assert (H2 : replace (raw_insert st0 opaque_point) still_opaque (point_symbol c_int)
               = Ok (raw_insert (raw_insert st0 opaque_point) (point_symbol c_int))).
  { unfold replace. by rewrite lookup_raw_insert. }
  assert (H3 : insert (raw_insert (raw_insert st0 opaque_point) (point_symbol c_int)) origin
               = Ok (point_table st0)).
  { apply insert_ok. split; [|done]. by rewrite !lookup_raw_insert. }
  split; [unfold point_ops; cbn [run_table_ops run_table_op]; by rewrite H1; cbn; rewrite H2; cbn; rewrite H3|].
  eapply (program_raw_insert _ _ (OpInsert origin)); [|by intros ??[]|exact H3|apply point_value_built].
  eapply program_raw_insert; [|apply point_replace_growing|exact H2|done].
  by eapply (program_raw_insert _ _ (OpInsert opaque_point)); [|by intros ??[]|exact H1|].
Qed.

Lemma point_names_free :
  match symtab_new x86_64 with
  | Ok st => match lookup st "tag-point", lookup st "origin" with None, None => true | _, _ => false end
  | Panic => false
  end = true.
Proof. vm_compute. reflexivity. Qed.

Lemma program_wf_witness :
  exists st0 st, symtab_new x86_64 = Ok st0 /\ run_table_ops st0 point_ops = Ok st
    /\ symtab_ok st /\ map_Forall (fun _ s => wf_symbol st s = true) (symbol_table st).
Proof.
  pose proof point_names_free as Hfree. destruct (symtab_new x86_64) as [st0|] eqn:E; [|discriminate].
  destruct (lookup st0 "tag-point") eqn:H1; [discriminate|].
  destruct (lookup st0 "origin") eqn:H2; [discriminate|].
  destruct (point_program st0 (program_new _ _ E) H1 H2) as [Hr Hp].
  exists st0, (point_table st0). split; [reflexivity|]. split; [exact Hr|].
  exact (program_wf (point_table st0) Hp).
Defined.

(** Without the condition on validators the values of other symbols break: here [replace] gives
    the struct a field of another type. *)
Theorem replace_breaks_values :
  exists st st',
    run_table_ops (mkSymbolTable ∅ x86_64) [OpInsert (point_symbol c_int); OpInsert origin] = Ok st
    /\ run_table_op st (OpReplace (fun _ => true) (point_symbol TBool)) = Ok st'
    /\ wf_symbol st origin = true /\ wf_symbol st' origin = false.
Proof. eexists _, _. by repeat split. Qed.

(** A size that is defined never changes while the table grows: completing an
    incomplete type, adding symbols or giving functions their bodies cannot alter
    the layout of a type that already had one. *)
Theorem sizeof_stable (st st' : SymbolTable) (t : Type_) (n : N) :
  rtc symtab_step st st' -> sizeof_in_bits t st = Ok n -> sizeof_in_bits t st' = Ok n.
Proof. intros H. apply grow_sizeof_in_bits. by apply symtab_steps_le. Qed.

Lemma sizeof_stable_witness : sizeof_in_bits (TCInteger CInt) sample_table = Ok 32%N.
Proof.
  apply (sizeof_stable (mkSymbolTable ∅ x86_64) sample_table _ _ sample_step). reflexivity.
Defined.

(** [Expr::can_cast_to] is the exact precondition of [Expr::cast_to]: the cast
    succeeds if and only if it holds, the result then has the target type, and
    casting the result again is the identity. *)
Theorem cast_to_exact (e : Expr) (t : Type_) :
  if can_cast_to e t
  then exists e', cast_to e t = Ok e' /\ typ e' ≃ t /\ cast_to e' t = Ok e'
  else cast_to e t = Panic.
Proof.
  destruct (can_cast_to e t) eqn:H.
  - destruct (cast_to_accepts e t H) as (e' & He & Ht). exists e'. split; [done|]. split; [done|].
    by eapply cast_to_again.
  - unfold cast_to. by rewrite H.
Qed.
