(* ===== verification/IrepId.v ===== *)
(** * Identifiers of the irep format ([cbmc/src/irep/irep_id.rs])

    The 802 fixed identifiers of CBMC and the three free-form ones, with the
    strings they are printed as.  The fixed identifiers have distinct strings
    ([fixed_to_string_inj]); a free-form identifier can collide with a fixed one,
    which the source leaves as a TODO on [from_string]. *)

From S2P Require Import Prelude CbmcString.

(** [enum IrepId] *)
Inductive IrepId :=
| Id_FreeformString (s : InternedString)
| Id_FreeformInteger (i : Z)
| Id_FreeformHexInteger (i : Z)
| Id_EmptyString | Id_Let | Id_LetBinding | Id_Nil | Id_Type | Id_Bool | Id_CBool | Id_ProperBool
| Id_Signedbv | Id_Unsignedbv | Id_VerilogSignedbv | Id_VerilogUnsignedbv | Id_Floatbv
| Id_Fixedbv | Id_X86Extended | Id_CSourceLocation | Id_CEndLocation | Id_CIsPadding
| Id_CDoNotDump | Id_File | Id_Line | Id_Column | Id_Comment | Id_Property | Id_PropertyClass
| Id_PropertyId | Id_Function | Id_MathematicalFunction | Id_Code | Id_Typecast | Id_StaticCast
| Id_DynamicCast | Id_ConstCast | Id_ReinterpretCast | Id_Index | Id_Ptrmember | Id_Member
| Id_MemberName | Id_CMemberName | Id_Equal | Id_Implies | Id_And | Id_Nand | Id_Or | Id_Nor
| Id_Xor | Id_Not | Id_Bitand | Id_Bitor | Id_Bitnot | Id_Bitxor | Id_Bitnand | Id_Bitnor
| Id_Bitxnor | Id_Notequal | Id_If | Id_Symbol | Id_NextSymbol | Id_NondetSymbol
| Id_PredicateSymbol | Id_PredicateNextSymbol | Id_NondetBool | Id_Empty | Id_SideEffect
| Id_Statement | Id_StatementExpression | Id_Value | Id_Constant | Id_Block | Id_Decl | Id_Dead
| Id_Assign | Id_AssignDiv | Id_AssignMult | Id_AssignPlus | Id_AssignMinus | Id_AssignMod
| Id_AssignShl | Id_AssignShr | Id_AssignAshr | Id_AssignLshr | Id_AssignBitand | Id_AssignBitxor
| Id_AssignBitor | Id_Assume | Id_Assert | Id_Assertion | Id_Precondition | Id_Postcondition
| Id_PreconditionInstance | Id_Goto | Id_GccComputedGoto | Id_Ifthenelse | Id_Label | Id_Break
| Id_Continue | Id_FunctionCall | Id_Return | Id_Skip | Id_Arguments | Id_Array | Id_Size
| Id_FrontendPointer | Id_Pointer | Id_BlockPointer | Id_Switch | Id_SwitchCase
| Id_GccSwitchCaseRange | Id_For | Id_While | Id_Dowhile | Id_Int | Id_Integer | Id_Natural
| Id_Real | Id_Rational | Id_Complex | Id_Signed | Id_Unsigned | Id_Asm | Id_GccAsmInput
| Id_GccAsmOutput | Id_GccAsmClobberedRegister | Id_Incomplete | Id_IncompleteClass
| Id_CIncomplete | Id_Identifier | Id_Name | Id_InnerName | Id_CppName | Id_ComponentCppName
| Id_CIdClass | Id_Declaration | Id_DeclarationList | Id_Declarator | Id_Struct | Id_CBitField
| Id_Union | Id_Class | Id_MergedType | Id_Range | Id_From | Id_To | Id_Module | Id_Parameter
| Id_ComponentName | Id_ComponentNumber | Id_Tag | Id_Default | Id_CDefaultValue | Id_BaseName
| Id_CBaseName | Id_String | Id_CStringConstant | Id_StringConstant | Id_Width | Id_Components
| Id_Bv | Id_F | Id_With | Id_Trans | Id_Throw | Id_TryCatch | Id_Noexcept | Id_CPROVERThrow
| Id_CPROVERTryCatch | Id_CPROVERTryFinally | Id_Protection | Id_Private | Id_Public
| Id_Protected | Id_Virtual | Id_Volatile | Id_Const | Id_Constexpr | Id_Inline | Id_Forall
| Id_Exists | Id_Repeat | Id_Extractbit | Id_Extractbits | Id_CReference | Id_CRvalueReference
| Id_True | Id_False | Id_AddressOf | Id_Dereference | Id_CLvalue | Id_CBase | Id_Destination
| Id_Main | Id_Expression | Id_Allocate | Id_CCxxAllocType | Id_CppNew | Id_CppDelete
| Id_CppNewArray | Id_CppDeleteArray | Id_JavaNew | Id_JavaNewArray | Id_JavaNewArrayData
| Id_JavaStringLiteral | Id_Printf | Id_Input | Id_Output | Id_Nondet | Id_NULL | Id_Null
| Id_Nullptr | Id_CEnum | Id_Enumeration | Id_Elements | Id_Unknown | Id_Uninitialized
| Id_Invalid | Id_CInvalidObject | Id_PointerOffset | Id_PointerObject | Id_IsInvalidPointer
| Id_IeeeFloatEqual | Id_IeeeFloatNotequal | Id_Isnan | Id_Lambda | Id_ArrayComprehension
| Id_ArrayOf | Id_ArrayEqual | Id_ArraySet | Id_ArrayCopy | Id_ArrayList | Id_Mod | Id_Rem
| Id_Shr | Id_Ashr | Id_Lshr | Id_Shl | Id_Rol | Id_Ror | Id_Comma | Id_Concatenation
| Id_Infinity | Id_ReturnType | Id_Typedef | Id_TypedefType | Id_CTypedef | Id_Extern | Id_Static
| Id_Auto | Id_Register | Id_ThreadLocal | Id_Thread | Id_CThreadLocal | Id_CStaticLifetime
| Id_Mutable | Id_Void | Id_Int8 | Id_Int16 | Id_Int32 | Id_Int64 | Id_Ptr32 | Id_Ptr64 | Id_Char
| Id_Short | Id_Long | Id_Float | Id_Double | Id_Byte | Id_Boolean | Id_LongDouble
| Id_SignedChar | Id_UnsignedChar | Id_SignedInt | Id_UnsignedInt | Id_SignedLongInt
| Id_UnsignedLongInt | Id_SignedShortInt | Id_UnsignedShortInt | Id_SignedLongLongInt
| Id_UnsignedLongLongInt | Id_SignedInt128 | Id_UnsignedInt128 | Id_Case | Id_CInlined | Id_CHide
| Id_Hide | Id_Abs | Id_Sign | Id_Access | Id_CAccess | Id_Postincrement | Id_Postdecrement
| Id_Preincrement | Id_Predecrement | Id_IntegerBits | Id_KnR | Id_CKnR | Id_ConstraintSelectOne
| Id_Cond | Id_BvLiterals | Id_Isfinite | Id_Isinf | Id_Isnormal | Id_Alignof
| Id_ClangBuiltinConvertvector | Id_GccBuiltinVaArg | Id_GccBuiltinTypesCompatibleP | Id_VaStart
| Id_GccFloat16 | Id_GccFloat32 | Id_GccFloat32x | Id_GccFloat64 | Id_GccFloat64x | Id_GccFloat80
| Id_GccFloat128 | Id_GccFloat128x | Id_GccInt128 | Id_GccDecimal32 | Id_GccDecimal64
| Id_GccDecimal128 | Id_BuiltinOffsetof | Id_Id0 | Id_Id1 | Id_Sizeof | Id_TypeArg | Id_ExprArg
| Id_ExpressionList | Id_InitializerList | Id_GccConditionalExpression | Id_GccLocalLabel
| Id_Gcc | Id_Msc | Id_Typeof | Id_Ellipsis | Id_Flavor | Id_Ge | Id_Le | Id_Gt | Id_Lt | Id_Plus
| Id_Minus | Id_UnaryMinus | Id_UnaryPlus | Id_Mult | Id_Div | Id_Power | Id_FactorialPower
| Id_PrettyName | Id_CClass | Id_CField | Id_CInterface | Id_DesignatedInitializer
| Id_Designator | Id_MemberDesignator | Id_IndexDesignator | Id_CConstant | Id_CVolatile
| Id_CRestricted | Id_CIdentifier | Id_CImplicit | Id_CPtr32 | Id_CPtr64 | Id_CAtomic
| Id_Restrict | Id_ByteExtractBigEndian | Id_ByteExtractLittleEndian | Id_ByteUpdateBigEndian
| Id_ByteUpdateLittleEndian | Id_Replication | Id_CproverAtomic | Id_Atomic
| Id_AtomicTypeSpecifier | Id_AtomicBegin | Id_AtomicEnd | Id_StartThread | Id_EndThread
| Id_CoverageCriterion | Id_Initializer | Id_Anonymous | Id_CIsAnonymous | Id_IsEnumConstant
| Id_IsInline | Id_IsExtern | Id_IsSynchronized | Id_IsNativeMethod | Id_IsVarargsMethod
| Id_IsGlobal | Id_IsThreadLocal | Id_IsParameter | Id_IsMember | Id_IsType | Id_IsRegister
| Id_IsTypedef | Id_IsStatic | Id_IsTemplate | Id_IsStaticAssert | Id_IsVirtual | Id_CIsVirtual
| Id_Literal | Id_MemberInitializers | Id_MemberInitializer | Id_MethodQualifier | Id_Methods
| Id_StaticMembers | Id_Constructor | Id_Destructor | Id_Bases | Id_Base | Id_FromBase
| Id_Operator | Id_Template | Id_TemplateClassInstance | Id_TemplateFunctionInstance
| Id_TemplateType | Id_TemplateArgs | Id_TemplateParameter | Id_TemplateParameterSymbolType
| Id_TemplateParameters | Id_CTemplate | Id_CTemplateArguments | Id_CTemplateCase | Id_Typename
| Id_C | Id_Cpp | Id_Java | Id_DeclBlock | Id_DeclType | Id_Parameters | Id_WcharT | Id_Char16T
| Id_Char32T | Id_SizeT | Id_SsizeT | Id_Mode | Id_This | Id_CThis | Id_ReductionAnd
| Id_ReductionOr | Id_ReductionNand | Id_ReductionNor | Id_ReductionXor | Id_ReductionXnor
| Id_CZeroInitializer | Id_Body | Id_TemporaryObject | Id_OverflowPlus | Id_OverflowMinus
| Id_OverflowMult | Id_OverflowUnaryMinus | Id_ObjectDescriptor | Id_IsDynamicObject
| Id_DynamicObject | Id_CDynamic | Id_ObjectSize | Id_GoodPointer | Id_IntegerAddress
| Id_IntegerAddressObject | Id_NullObject | Id_StaticObject | Id_StackObject | Id_CIsFailedSymbol
| Id_CFailedSymbol | Id_Friend | Id_CFriends | Id_Explicit | Id_StorageSpec | Id_MemberSpec
| Id_MscDeclspec | Id_Packed | Id_CPacked | Id_TransparentUnion | Id_CTransparentUnion
| Id_Aligned | Id_CAlignment | Id_FrontendVector | Id_Vector | Id_Abstract
| Id_FunctionApplication | Id_CppDeclarator | Id_CppLinkageSpec | Id_CppNamespaceSpec
| Id_CppStorageSpec | Id_CppUsing | Id_CppDeclaration | Id_CppStaticAssert | Id_CppMemberSpec
| Id_CCType | Id_Namespace | Id_Linkage | Id_Decltype | Id_CTagOnlyDeclaration | Id_StructTag
| Id_UnionTag | Id_CEnumTag | Id_VerilogCaseEquality | Id_VerilogCaseInequality
| Id_UserSpecifiedPredicate | Id_UserSpecifiedParameterPredicates
| Id_UserSpecifiedReturnPredicates | Id_Unassigned | Id_NewObject | Id_ComplexReal
| Id_ComplexImag | Id_Imag | Id_MscTryExcept | Id_MscTryFinally | Id_MscLeave | Id_MscUuidof
| Id_MscIfExists | Id_MscIfNotExists | Id_MscUnderlyingType | Id_MscBased | Id_Alias
| Id_PtrObject | Id_CCSizeofType | Id_ArrayUpdate | Id_Update | Id_StaticAssert
| Id_GccAttributeMode | Id_BuiltIn | Id_ExceptionList | Id_ExceptionId
| Id_PredicatePassiveSymbol | Id_CwVaArgTypeof | Id_Fence | Id_Sync | Id_Lwsync | Id_Isync
| Id_WRfence | Id_RRfence | Id_RWfence | Id_WWfence | Id_RRcumul | Id_RWcumul | Id_WWcumul
| Id_WRcumul | Id_GenericSelection | Id_GenericAssociations | Id_GenericAssociation
| Id_FloatbvPlus | Id_FloatbvMinus | Id_FloatbvMult | Id_FloatbvDiv | Id_FloatbvRem
| Id_FloatbvTypecast | Id_CompoundLiteral | Id_CustomBv | Id_CustomUnsignedbv | Id_CustomSignedbv
| Id_CustomFixedbv | Id_CustomFloatbv | Id_CSSASymbol | Id_L0 | Id_L1 | Id_L2
| Id_L1ObjectIdentifier | Id_AlreadyTypechecked | Id_CVaArgType | Id_Smt2Symbol | Id_Onehot
| Id_Onehot0 | Id_Popcount | Id_CountLeadingZeros | Id_CountTrailingZeros | Id_FunctionType
| Id_Noreturn | Id_CNoreturn | Id_Weak | Id_IsWeak | Id_Used | Id_IsUsed | Id_CSpecLoopInvariant
| Id_CSpecRequires | Id_CSpecEnsures | Id_VirtualFunction | Id_ElementType | Id_WorkingDirectory
| Id_Section | Id_Bswap | Id_JavaBytecodeIndex | Id_JavaInstanceof | Id_JavaSuperMethodCall
| Id_JavaEnumStaticUnwind | Id_PushCatch | Id_PopCatch | Id_ExceptionLandingpad
| Id_LengthUpperBound | Id_CproverAssociateArrayToPointerFunc
| Id_CproverAssociateLengthToArrayFunc | Id_CproverCharLiteralFunc | Id_CproverStringLiteralFunc
| Id_CproverStringCharAtFunc | Id_CproverStringCharSetFunc | Id_CproverStringCodePointAtFunc
| Id_CproverStringCodePointBeforeFunc | Id_CproverStringCodePointCountFunc
| Id_CproverStringOffsetByCodePointFunc | Id_CproverStringCompareToFunc
| Id_CproverStringConcatFunc | Id_CproverStringConcatCharFunc
| Id_CproverStringConcatCodePointFunc | Id_CproverStringConstrainCharactersFunc
| Id_CproverStringContainsFunc | Id_CproverStringCopyFunc | Id_CproverStringDeleteFunc
| Id_CproverStringDeleteCharAtFunc | Id_CproverStringEqualFunc
| Id_CproverStringEqualsIgnoreCaseFunc | Id_CproverStringEmptyStringFunc
| Id_CproverStringEndswithFunc | Id_CproverStringFormatFunc | Id_CproverStringIndexOfFunc
| Id_CproverStringInsertFunc | Id_CproverStringIsPrefixFunc | Id_CproverStringIsSuffixFunc
| Id_CproverStringIsEmptyFunc | Id_CproverStringLastIndexOfFunc | Id_CproverStringLengthFunc
| Id_CproverStringOfIntFunc | Id_CproverStringOfIntHexFunc | Id_CproverStringOfLongFunc
| Id_CproverStringOfFloatFunc | Id_CproverStringOfFloatScientificNotationFunc
| Id_CproverStringOfDoubleFunc | Id_CproverStringParseIntFunc | Id_CproverStringIsValidIntFunc
| Id_CproverStringIsValidLongFunc | Id_CproverStringReplaceFunc | Id_CproverStringSetLengthFunc
| Id_CproverStringStartswithFunc | Id_CproverStringSubstringFunc
| Id_CproverStringToLowerCaseFunc | Id_CproverStringToUpperCaseFunc | Id_CproverStringTrimFunc
| Id_SkipInitialize | Id_BasicBlockCoveredLines | Id_BasicBlockSourceLines | Id_IsNondetNullable
| Id_ArrayReplace | Id_SwitchCaseNumber | Id_JavaArrayAccess | Id_JavaMemberAccess
| Id_CJavaGenericParameter | Id_CJavaGenericsClassType | Id_CJavaImplicitlyGenericClassType
| Id_CJavaGenericSymbol | Id_GenericTypes | Id_ImplicitGenericTypes | Id_TypeVariables
| Id_HandleType | Id_JavaLambdaMethodHandle | Id_JavaLambdaMethodHandleIndex
| Id_JavaLambdaMethodHandles | Id_HavocObject | Id_OverflowShl | Id_CNoInitializationRequired
| Id_CNoNondetInitialization | Id_OverlayClass | Id_OverlayMethod | Id_IgnoredMethod
| Id_IsAnnotation | Id_CAnnotations | Id_Final | Id_BitsPerByte | Id_CAbstract | Id_Synthetic
| Id_Interface | Id_CMustNotThrow | Id_IsInnerClass | Id_IsAnonymous | Id_OuterClass
| Id_IsBridgeMethod | Id_CIsOperator | Id_CNotAccessible | Id_COverrideConstantness | Id_CBound
| Id_CBoundsCheck | Id_CIsStatic | Id_CCallByValue | Id_CVirtualName | Id_CUnnamedObject
| Id_CTemporaryAvoided | Id_CQualifier | Id_CArrayIni | Id_ROk | Id_WOk | Id_SuperClass
| Id_ExceptionsThrownList | Id_CJavaMethodType | Id_Compiled | Id_PartialSpecializationArgs
| Id_SpecializationOf | Id_InitArgs | Id_Ambiguous | Id_SpecializationTemplateArgs
| Id_FullTemplateArgs | Id_InstantiatedWith | Id_TemplateMethods | Id_CppNotTypechecked
| Id_Noaccess | Id_IsOperator | Id_IsCastOperator | Id_IsExplicit | Id_IsMutable | Id_VirtualName
| Id_IsPureVirtual | Id_IsVtptr | Id_Prefix | Id_Cv | Id_CppDummyDestructor | Id_CastExpression
| Id_PodConstructor | Id_TemplateDecls | Id_ThrowDecl | Id_Typeid | Id_CQuoted | Id_ToMember
| Id_PointerToMember | Id_Tuple | Id_FunctionBody | Id_GetMay | Id_SetMay | Id_ClearMay
| Id_GetMust | Id_SetMust | Id_ClearMust | Id_Pragma | Id_StatementList | Id_StatementListType
| Id_StatementListFunction | Id_StatementListFunctionBlock | Id_StatementListMainFunction
| Id_StatementListDataBlock | Id_StatementListVersion | Id_StatementListVarInput
| Id_StatementListVarInout | Id_StatementListVarOutput | Id_StatementListVarConstant
| Id_StatementListVarTemp | Id_StatementListVarStatic | Id_StatementListReturn
| Id_StatementListReturnValueId | Id_StatementListVarEntry | Id_StatementListVarDecls
| Id_StatementListNetwork | Id_StatementListNetworks | Id_StatementListTitle
| Id_StatementListIdentifier | Id_StatementListLoad | Id_StatementListTransfer
| Id_StatementListCall | Id_StatementListNop | Id_StatementListConstAdd
| Id_StatementListAccuIntAdd | Id_StatementListAccuIntSub | Id_StatementListAccuIntMul
| Id_StatementListAccuIntDiv | Id_StatementListAccuIntEq | Id_StatementListAccuIntNeq
| Id_StatementListAccuIntGt | Id_StatementListAccuIntLt | Id_StatementListAccuIntGte
| Id_StatementListAccuIntLte | Id_StatementListAccuRealAdd | Id_StatementListAccuRealSub
| Id_StatementListAccuRealMul | Id_StatementListAccuRealDiv | Id_StatementListAccuRealEq
| Id_StatementListAccuRealNeq | Id_StatementListAccuRealGt | Id_StatementListAccuRealLt
| Id_StatementListAccuRealGte | Id_StatementListAccuRealLte | Id_StatementListAccuDintAdd
| Id_StatementListAccuDintSub | Id_StatementListAccuDintMul | Id_StatementListAccuDintDiv
| Id_StatementListAccuDintEq | Id_StatementListAccuDintNeq | Id_StatementListAccuDintGt
| Id_StatementListAccuDintLt | Id_StatementListAccuDintGte | Id_StatementListAccuDintLte
| Id_StatementListAnd | Id_StatementListAndNot | Id_StatementListOr | Id_StatementListOrNot
| Id_StatementListXor | Id_StatementListXorNot | Id_StatementListAndNested
| Id_StatementListAndNotNested | Id_StatementListOrNested | Id_StatementListOrNotNested
| Id_StatementListXorNested | Id_StatementListXorNotNested | Id_StatementListNestingClosed
| Id_StatementListAssign | Id_StatementListSetRlo | Id_StatementListClrRlo | Id_StatementListSet
| Id_StatementListReset | Id_StatementListNot | Id_StatementListInstruction
| Id_StatementListInstructions.

(** ** Constructors *)

Definition from_int (i : Z) : IrepId := Id_FreeformInteger i.
Definition hex_from_int (i : Z) : IrepId := Id_FreeformHexInteger i.
Definition from_string (s : InternedString) : IrepId := Id_FreeformString s.

(** ** Printing *)

(** [format!("{:X}", i)] on a [BigInt]: a sign and the digits of the magnitude. *)
Definition hex_digit (n : N) : ascii :=
  match n with
  | 0%N => "0" | 1%N => "1" | 2%N => "2" | 3%N => "3" | 4%N => "4" | 5%N => "5" | 6%N => "6"
  | 7%N => "7" | 8%N => "8" | 9%N => "9" | 10%N => "A" | 11%N => "B" | 12%N => "C"
  | 13%N => "D" | 14%N => "E" | _ => "F"
  end%char.

Fixpoint hex_go (fuel : nat) (n : N) (acc : string) : string :=
  match fuel with
  | 0 => acc
  | S fuel =>
      let acc := String (hex_digit (n mod 16)) acc in
      if (n / 16 =? 0)%N then acc else hex_go fuel (n / 16) acc
  end.

Definition hex_N (n : N) : string := hex_go (S (N.to_nat (N.size n))) n "".

Definition hex_Z (i : Z) : string :=
  if (i <? 0)%Z then "-" +:+ hex_N (Z.abs_N i) else hex_N (Z.abs_N i).

(** The match of [to_string] on the fixed identifiers. *)
Definition fixed_to_string (id : IrepId) : option string :=
  match id with
  | Id_FreeformString _ | Id_FreeformInteger _ | Id_FreeformHexInteger _ => None
  | Id_EmptyString => Some "" | Id_Let => Some "let" | Id_LetBinding => Some "let_binding"
  | Id_Nil => Some "nil" | Id_Type => Some "type" | Id_Bool => Some "bool"
  | Id_CBool => Some "c_bool" | Id_ProperBool => Some "proper_bool"
  | Id_Signedbv => Some "signedbv" | Id_Unsignedbv => Some "unsignedbv"
  | Id_VerilogSignedbv => Some "verilog_signedbv"
  | Id_VerilogUnsignedbv => Some "verilog_unsignedbv" | Id_Floatbv => Some "floatbv"
  | Id_Fixedbv => Some "fixedbv" | Id_X86Extended => Some "x86_extended"
  | Id_CSourceLocation => Some "#source_location" | Id_CEndLocation => Some "#end_location"
  | Id_CIsPadding => Some "#is_padding" | Id_CDoNotDump => Some "C_do_not_dump"
  | Id_File => Some "file" | Id_Line => Some "line" | Id_Column => Some "column"
  | Id_Comment => Some "comment" | Id_Property => Some "property"
  | Id_PropertyClass => Some "property_class" | Id_PropertyId => Some "property_id"
  | Id_Function => Some "function" | Id_MathematicalFunction => Some "mathematical_function"
  | Id_Code => Some "code" | Id_Typecast => Some "typecast" | Id_StaticCast => Some "static_cast"
  | Id_DynamicCast => Some "dynamic_cast" | Id_ConstCast => Some "const_cast"
  | Id_ReinterpretCast => Some "reinterpret_cast" | Id_Index => Some "index"
  | Id_Ptrmember => Some "ptrmember" | Id_Member => Some "member"
  | Id_MemberName => Some "member_name" | Id_CMemberName => Some "#member_name"
  | Id_Equal => Some "=" | Id_Implies => Some "=>" | Id_And => Some "and"
  | Id_Nand => Some "nand" | Id_Or => Some "or" | Id_Nor => Some "nor" | Id_Xor => Some "xor"
  | Id_Not => Some "not" | Id_Bitand => Some "bitand" | Id_Bitor => Some "bitor"
  | Id_Bitnot => Some "bitnot" | Id_Bitxor => Some "bitxor" | Id_Bitnand => Some "bitnand"
  | Id_Bitnor => Some "bitnor" | Id_Bitxnor => Some "bitxnor" | Id_Notequal => Some "notequal"
  | Id_If => Some "if" | Id_Symbol => Some "symbol" | Id_NextSymbol => Some "next_symbol"
  | Id_NondetSymbol => Some "nondet_symbol" | Id_PredicateSymbol => Some "predicate_symbol"
  | Id_PredicateNextSymbol => Some "predicate_next_symbol" | Id_NondetBool => Some "nondet_bool"
  | Id_Empty => Some "empty" | Id_SideEffect => Some "side_effect"
  | Id_Statement => Some "statement" | Id_StatementExpression => Some "statement_expression"
  | Id_Value => Some "value" | Id_Constant => Some "constant" | Id_Block => Some "block"
  | Id_Decl => Some "decl" | Id_Dead => Some "dead" | Id_Assign => Some "assign"
  | Id_AssignDiv => Some "assign_div" | Id_AssignMult => Some "assign*"
  | Id_AssignPlus => Some "assign+" | Id_AssignMinus => Some "assign-"
  | Id_AssignMod => Some "assign_mod" | Id_AssignShl => Some "assign_shl"
  | Id_AssignShr => Some "assign_shr" | Id_AssignAshr => Some "assign_ashr"
  | Id_AssignLshr => Some "assign_lshr" | Id_AssignBitand => Some "assign_bitand"
  | Id_AssignBitxor => Some "assign_bitxor" | Id_AssignBitor => Some "assign_bitor"
  | Id_Assume => Some "assume" | Id_Assert => Some "assert" | Id_Assertion => Some "assertion"
  | Id_Precondition => Some "precondition" | Id_Postcondition => Some "postcondition"
  | Id_PreconditionInstance => Some "precondition_instance" | Id_Goto => Some "goto"
  | Id_GccComputedGoto => Some "gcc_computed_goto" | Id_Ifthenelse => Some "ifthenelse"
  | Id_Label => Some "label" | Id_Break => Some "break" | Id_Continue => Some "continue"
  | Id_FunctionCall => Some "function_call" | Id_Return => Some "return" | Id_Skip => Some "skip"
  | Id_Arguments => Some "arguments" | Id_Array => Some "array" | Id_Size => Some "size"
  | Id_FrontendPointer => Some "frontend_pointer" | Id_Pointer => Some "pointer"
  | Id_BlockPointer => Some "block_pointer" | Id_Switch => Some "switch"
  | Id_SwitchCase => Some "switch_case" | Id_GccSwitchCaseRange => Some "gcc_switch_case_range"
  | Id_For => Some "for" | Id_While => Some "while" | Id_Dowhile => Some "dowhile"
  | Id_Int => Some "int" | Id_Integer => Some "integer" | Id_Natural => Some "natural"
  | Id_Real => Some "real" | Id_Rational => Some "rational" | Id_Complex => Some "complex"
  | Id_Signed => Some "signed" | Id_Unsigned => Some "unsigned" | Id_Asm => Some "asm"
  | Id_GccAsmInput => Some "gcc_asm_input" | Id_GccAsmOutput => Some "gcc_asm_output"
  | Id_GccAsmClobberedRegister => Some "gcc_asm_clobbered_register"
  | Id_Incomplete => Some "incomplete" | Id_IncompleteClass => Some "incomplete_class"
  | Id_CIncomplete => Some "#incomplete" | Id_Identifier => Some "identifier"
  | Id_Name => Some "name" | Id_InnerName => Some "inner_name" | Id_CppName => Some "cpp_name"
  | Id_ComponentCppName => Some "component_cpp_name" | Id_CIdClass => Some "#id_class"
  | Id_Declaration => Some "declaration" | Id_DeclarationList => Some "declaration_list"
  | Id_Declarator => Some "declarator" | Id_Struct => Some "struct"
  | Id_CBitField => Some "c_bit_field" | Id_Union => Some "union" | Id_Class => Some "class"
  | Id_MergedType => Some "merged_type" | Id_Range => Some "range" | Id_From => Some "from"
  | Id_To => Some "to" | Id_Module => Some "module" | Id_Parameter => Some "parameter"
  | Id_ComponentName => Some "component_name" | Id_ComponentNumber => Some "component_number"
  | Id_Tag => Some "tag" | Id_Default => Some "default"
  | Id_CDefaultValue => Some "#default_value" | Id_BaseName => Some "base_name"
  | Id_CBaseName => Some "#base_name" | Id_String => Some "string"
  | Id_CStringConstant => Some "#string_constant" | Id_StringConstant => Some "string_constant"
  | Id_Width => Some "width" | Id_Components => Some "components" | Id_Bv => Some "bv"
  | Id_F => Some "f" | Id_With => Some "with" | Id_Trans => Some "trans"
  | Id_Throw => Some "throw" | Id_TryCatch => Some "try_catch" | Id_Noexcept => Some "noexcept"
  | Id_CPROVERThrow => Some "CPROVER_throw" | Id_CPROVERTryCatch => Some "CPROVER_try_catch"
  | Id_CPROVERTryFinally => Some "CPROVER_try_finally" | Id_Protection => Some "protection"
  | Id_Private => Some "private" | Id_Public => Some "public" | Id_Protected => Some "protected"
  | Id_Virtual => Some "virtual" | Id_Volatile => Some "volatile" | Id_Const => Some "const"
  | Id_Constexpr => Some "constexpr" | Id_Inline => Some "inline" | Id_Forall => Some "forall"
  | Id_Exists => Some "exists" | Id_Repeat => Some "repeat" | Id_Extractbit => Some "extractbit"
  | Id_Extractbits => Some "extractbits" | Id_CReference => Some "#reference"
  | Id_CRvalueReference => Some "#rvalue_reference" | Id_True => Some "true"
  | Id_False => Some "false" | Id_AddressOf => Some "address_of"
  | Id_Dereference => Some "dereference" | Id_CLvalue => Some "#lvalue"
  | Id_CBase => Some "#base" | Id_Destination => Some "destination" | Id_Main => Some "main"
  | Id_Expression => Some "expression" | Id_Allocate => Some "allocate"
  | Id_CCxxAllocType => Some "#cxx_alloc_type" | Id_CppNew => Some "cpp_new"
  | Id_CppDelete => Some "cpp_delete" | Id_CppNewArray => Some "cpp_new[]"
  | Id_CppDeleteArray => Some "cpp_delete[]" | Id_JavaNew => Some "java_new"
  | Id_JavaNewArray => Some "java_new_array" | Id_JavaNewArrayData => Some "java_new_array_data"
  | Id_JavaStringLiteral => Some "java_string_literal" | Id_Printf => Some "printf"
  | Id_Input => Some "input" | Id_Output => Some "output" | Id_Nondet => Some "nondet"
  | Id_NULL => Some "NULL" | Id_Null => Some "null" | Id_Nullptr => Some "nullptr"
  | Id_CEnum => Some "c_enum" | Id_Enumeration => Some "enumeration"
  | Id_Elements => Some "elements" | Id_Unknown => Some "unknown"
  | Id_Uninitialized => Some "uninitialized" | Id_Invalid => Some "invalid"
  | Id_CInvalidObject => Some "#invalid_object" | Id_PointerOffset => Some "pointer_offset"
  | Id_PointerObject => Some "pointer_object" | Id_IsInvalidPointer => Some "is_invalid_pointer"
  | Id_IeeeFloatEqual => Some "ieee_float_equal"
  | Id_IeeeFloatNotequal => Some "ieee_float_notequal" | Id_Isnan => Some "isnan"
  | Id_Lambda => Some "lambda" | Id_ArrayComprehension => Some "array_comprehension"
  | Id_ArrayOf => Some "array_of" | Id_ArrayEqual => Some "array_equal"
  | Id_ArraySet => Some "array_set" | Id_ArrayCopy => Some "array_copy"
  | Id_ArrayList => Some "array_list" | Id_Mod => Some "mod" | Id_Rem => Some "rem"
  | Id_Shr => Some "shr" | Id_Ashr => Some "ashr" | Id_Lshr => Some "lshr" | Id_Shl => Some "shl"
  | Id_Rol => Some "rol" | Id_Ror => Some "ror" | Id_Comma => Some "comma"
  | Id_Concatenation => Some "concatenation" | Id_Infinity => Some "infinity"
  | Id_ReturnType => Some "return_type" | Id_Typedef => Some "typedef"
  | Id_TypedefType => Some "typedef_type" | Id_CTypedef => Some "#typedef"
  | Id_Extern => Some "extern" | Id_Static => Some "static" | Id_Auto => Some "auto"
  | Id_Register => Some "register" | Id_ThreadLocal => Some "thread_local"
  | Id_Thread => Some "thread" | Id_CThreadLocal => Some "#thread_local"
  | Id_CStaticLifetime => Some "#static_lifetime" | Id_Mutable => Some "mutable"
  | Id_Void => Some "void" | Id_Int8 => Some "int8" | Id_Int16 => Some "int16"
  | Id_Int32 => Some "int32" | Id_Int64 => Some "int64" | Id_Ptr32 => Some "ptr32"
  | Id_Ptr64 => Some "ptr64" | Id_Char => Some "char" | Id_Short => Some "short"
  | Id_Long => Some "long" | Id_Float => Some "float" | Id_Double => Some "double"
  | Id_Byte => Some "byte" | Id_Boolean => Some "boolean" | Id_LongDouble => Some "long_double"
  | Id_SignedChar => Some "signed_char" | Id_UnsignedChar => Some "unsigned_char"
  | Id_SignedInt => Some "signed_int" | Id_UnsignedInt => Some "unsigned_int"
  | Id_SignedLongInt => Some "signed_long_int" | Id_UnsignedLongInt => Some "unsigned_long_int"
  | Id_SignedShortInt => Some "signed_short_int"
  | Id_UnsignedShortInt => Some "unsigned_short_int"
  | Id_SignedLongLongInt => Some "signed_long_long_int"
  | Id_UnsignedLongLongInt => Some "unsigned_long_long_int"
  | Id_SignedInt128 => Some "signed_int128" | Id_UnsignedInt128 => Some "unsigned_int128"
  | Id_Case => Some "case" | Id_CInlined => Some "#inlined" | Id_CHide => Some "#hide"
  | Id_Hide => Some "hide" | Id_Abs => Some "abs" | Id_Sign => Some "sign"
  | Id_Access => Some "access" | Id_CAccess => Some "#access"
  | Id_Postincrement => Some "postincrement" | Id_Postdecrement => Some "postdecrement"
  | Id_Preincrement => Some "preincrement" | Id_Predecrement => Some "predecrement"
  | Id_IntegerBits => Some "integer_bits" | Id_KnR => Some "KnR" | Id_CKnR => Some "#KnR"
  | Id_ConstraintSelectOne => Some "constraint_select_one" | Id_Cond => Some "cond"
  | Id_BvLiterals => Some "bv_literals" | Id_Isfinite => Some "isfinite"
  | Id_Isinf => Some "isinf" | Id_Isnormal => Some "isnormal" | Id_Alignof => Some "alignof"
  | Id_ClangBuiltinConvertvector => Some "clang_builtin_convertvector"
  | Id_GccBuiltinVaArg => Some "gcc_builtin_va_arg"
  | Id_GccBuiltinTypesCompatibleP => Some "gcc_builtin_types_compatible_p"
  | Id_VaStart => Some "va_start" | Id_GccFloat16 => Some "gcc_float16"
  | Id_GccFloat32 => Some "gcc_float32" | Id_GccFloat32x => Some "gcc_float32x"
  | Id_GccFloat64 => Some "gcc_float64" | Id_GccFloat64x => Some "gcc_float64x"
  | Id_GccFloat80 => Some "gcc_float80" | Id_GccFloat128 => Some "gcc_float128"
  | Id_GccFloat128x => Some "gcc_float128x" | Id_GccInt128 => Some "gcc_int128"
  | Id_GccDecimal32 => Some "gcc_decimal32" | Id_GccDecimal64 => Some "gcc_decimal64"
  | Id_GccDecimal128 => Some "gcc_decimal128" | Id_BuiltinOffsetof => Some "builtin_offsetof"
  | Id_Id0 => Some "0" | Id_Id1 => Some "1" | Id_Sizeof => Some "sizeof"
  | Id_TypeArg => Some "type_arg" | Id_ExprArg => Some "expr_arg"
  | Id_ExpressionList => Some "expression_list" | Id_InitializerList => Some "initializer_list"
  | Id_GccConditionalExpression => Some "gcc_conditional_expression"
  | Id_GccLocalLabel => Some "gcc_local_label" | Id_Gcc => Some "gcc" | Id_Msc => Some "msc"
  | Id_Typeof => Some "typeof" | Id_Ellipsis => Some "ellipsis" | Id_Flavor => Some "flavor"
  | Id_Ge => Some ">=" | Id_Le => Some "<=" | Id_Gt => Some ">" | Id_Lt => Some "<"
  | Id_Plus => Some "+" | Id_Minus => Some "-" | Id_UnaryMinus => Some "unary-"
  | Id_UnaryPlus => Some "unary+" | Id_Mult => Some "*" | Id_Div => Some "/"
  | Id_Power => Some "**" | Id_FactorialPower => Some "factorial_power"
  | Id_PrettyName => Some "pretty_name" | Id_CClass => Some "#class" | Id_CField => Some "#field"
  | Id_CInterface => Some "#interface"
  | Id_DesignatedInitializer => Some "designated_initializer"
  | Id_Designator => Some "designator" | Id_MemberDesignator => Some "member_designator"
  | Id_IndexDesignator => Some "index_designator" | Id_CConstant => Some "#constant"
  | Id_CVolatile => Some "#volatile" | Id_CRestricted => Some "#restricted"
  | Id_CIdentifier => Some "#identifier" | Id_CImplicit => Some "#implicit"
  | Id_CPtr32 => Some "#ptr32" | Id_CPtr64 => Some "#ptr64" | Id_CAtomic => Some "#atomic"
  | Id_Restrict => Some "restrict" | Id_ByteExtractBigEndian => Some "byte_extract_big_endian"
  | Id_ByteExtractLittleEndian => Some "byte_extract_little_endian"
  | Id_ByteUpdateBigEndian => Some "byte_update_big_endian"
  | Id_ByteUpdateLittleEndian => Some "byte_update_little_endian"
  | Id_Replication => Some "replication" | Id_CproverAtomic => Some "cprover_atomic"
  | Id_Atomic => Some "atomic" | Id_AtomicTypeSpecifier => Some "atomic_type_specifier"
  | Id_AtomicBegin => Some "atomic_begin" | Id_AtomicEnd => Some "atomic_end"
  | Id_StartThread => Some "start_thread" | Id_EndThread => Some "end_thread"
  | Id_CoverageCriterion => Some "coverage_criterion" | Id_Initializer => Some "initializer"
  | Id_Anonymous => Some "anonymous" | Id_CIsAnonymous => Some "#is_anonymous"
  | Id_IsEnumConstant => Some "is_enum_constant" | Id_IsInline => Some "is_inline"
  | Id_IsExtern => Some "is_extern" | Id_IsSynchronized => Some "is_synchronized"
  | Id_IsNativeMethod => Some "is_native_method" | Id_IsVarargsMethod => Some "is_varargs_method"
  | Id_IsGlobal => Some "is_global" | Id_IsThreadLocal => Some "is_thread_local"
  | Id_IsParameter => Some "is_parameter" | Id_IsMember => Some "is_member"
  | Id_IsType => Some "is_type" | Id_IsRegister => Some "is_register"
  | Id_IsTypedef => Some "is_typedef" | Id_IsStatic => Some "is_static"
  | Id_IsTemplate => Some "is_template" | Id_IsStaticAssert => Some "is_static_assert"
  | Id_IsVirtual => Some "is_virtual" | Id_CIsVirtual => Some "#is_virtual"
  | Id_Literal => Some "literal" | Id_MemberInitializers => Some "member_initializers"
  | Id_MemberInitializer => Some "member_initializer"
  | Id_MethodQualifier => Some "method_qualifier" | Id_Methods => Some "methods"
  | Id_StaticMembers => Some "static_members" | Id_Constructor => Some "constructor"
  | Id_Destructor => Some "destructor" | Id_Bases => Some "bases" | Id_Base => Some "base"
  | Id_FromBase => Some "from_base" | Id_Operator => Some "operator"
  | Id_Template => Some "template" | Id_TemplateClassInstance => Some "template_class_instance"
  | Id_TemplateFunctionInstance => Some "template_function_instance"
  | Id_TemplateType => Some "template_type" | Id_TemplateArgs => Some "template_args"
  | Id_TemplateParameter => Some "template_parameter"
  | Id_TemplateParameterSymbolType => Some "template_parameter_symbol_type"
  | Id_TemplateParameters => Some "template_parameters" | Id_CTemplate => Some "#template"
  | Id_CTemplateArguments => Some "#template_arguments"
  | Id_CTemplateCase => Some "#template_case" | Id_Typename => Some "typename" | Id_C => Some "C"
  | Id_Cpp => Some "cpp" | Id_Java => Some "java" | Id_DeclBlock => Some "decl_block"
  | Id_DeclType => Some "decl_type" | Id_Parameters => Some "parameters"
  | Id_WcharT => Some "wchar_t" | Id_Char16T => Some "char16_t" | Id_Char32T => Some "char32_t"
  | Id_SizeT => Some "size_t" | Id_SsizeT => Some "ssize_t" | Id_Mode => Some "mode"
  | Id_This => Some "this" | Id_CThis => Some "#this" | Id_ReductionAnd => Some "reduction_and"
  | Id_ReductionOr => Some "reduction_or" | Id_ReductionNand => Some "reduction_nand"
  | Id_ReductionNor => Some "reduction_nor" | Id_ReductionXor => Some "reduction_xor"
  | Id_ReductionXnor => Some "reduction_xnor" | Id_CZeroInitializer => Some "#zero_initializer"
  | Id_Body => Some "body" | Id_TemporaryObject => Some "temporary_object"
  | Id_OverflowPlus => Some "overflow-+" | Id_OverflowMinus => Some "overflow--"
  | Id_OverflowMult => Some "overflow-*" | Id_OverflowUnaryMinus => Some "overflow-unary-"
  | Id_ObjectDescriptor => Some "object_descriptor"
  | Id_IsDynamicObject => Some "is_dynamic_object" | Id_DynamicObject => Some "dynamic_object"
  | Id_CDynamic => Some "#dynamic" | Id_ObjectSize => Some "object_size"
  | Id_GoodPointer => Some "good_pointer" | Id_IntegerAddress => Some "integer_address"
  | Id_IntegerAddressObject => Some "integer_address_object"
  | Id_NullObject => Some "NULL-object" | Id_StaticObject => Some "static_object"
  | Id_StackObject => Some "stack_object" | Id_CIsFailedSymbol => Some "#is_failed_symbol"
  | Id_CFailedSymbol => Some "#failed_symbol" | Id_Friend => Some "friend"
  | Id_CFriends => Some "#friends" | Id_Explicit => Some "explicit"
  | Id_StorageSpec => Some "storage_spec" | Id_MemberSpec => Some "member_spec"
  | Id_MscDeclspec => Some "msc_declspec" | Id_Packed => Some "packed"
  | Id_CPacked => Some "#packed" | Id_TransparentUnion => Some "transparent_union"
  | Id_CTransparentUnion => Some "#transparent_union" | Id_Aligned => Some "aligned"
  | Id_CAlignment => Some "#alignment" | Id_FrontendVector => Some "frontend_vector"
  | Id_Vector => Some "vector" | Id_Abstract => Some "abstract"
  | Id_FunctionApplication => Some "function_application"
  | Id_CppDeclarator => Some "cpp_declarator" | Id_CppLinkageSpec => Some "cpp_linkage_spec"
  | Id_CppNamespaceSpec => Some "cpp_namespace_spec"
  | Id_CppStorageSpec => Some "cpp_storage_spec" | Id_CppUsing => Some "cpp_using"
  | Id_CppDeclaration => Some "cpp_declaration" | Id_CppStaticAssert => Some "cpp_static_assert"
  | Id_CppMemberSpec => Some "cpp_member_spec" | Id_CCType => Some "#c_type"
  | Id_Namespace => Some "namespace" | Id_Linkage => Some "linkage"
  | Id_Decltype => Some "decltype" | Id_CTagOnlyDeclaration => Some "#tag_only_declaration"
  | Id_StructTag => Some "struct_tag" | Id_UnionTag => Some "union_tag"
  | Id_CEnumTag => Some "c_enum_tag" | Id_VerilogCaseEquality => Some "verilog_case_equality"
  | Id_VerilogCaseInequality => Some "verilog_case_inequality"
  | Id_UserSpecifiedPredicate => Some "user_specified_predicate"
  | Id_UserSpecifiedParameterPredicates => Some "user_specified_parameter_predicates"
  | Id_UserSpecifiedReturnPredicates => Some "user_specified_return_predicates"
  | Id_Unassigned => Some "unassigned" | Id_NewObject => Some "new_object"
  | Id_ComplexReal => Some "complex_real" | Id_ComplexImag => Some "complex_imag"
  | Id_Imag => Some "imag" | Id_MscTryExcept => Some "msc_try_except"
  | Id_MscTryFinally => Some "msc_try_finally" | Id_MscLeave => Some "msc_leave"
  | Id_MscUuidof => Some "msc_uuidof" | Id_MscIfExists => Some "msc_if_exists"
  | Id_MscIfNotExists => Some "msc_if_not_exists"
  | Id_MscUnderlyingType => Some "msc_underlying_type" | Id_MscBased => Some "msc_based"
  | Id_Alias => Some "alias" | Id_PtrObject => Some "ptr_object"
  | Id_CCSizeofType => Some "#c_sizeof_type" | Id_ArrayUpdate => Some "array_update"
  | Id_Update => Some "update" | Id_StaticAssert => Some "static_assert"
  | Id_GccAttributeMode => Some "gcc_attribute_mode" | Id_BuiltIn => Some "<built-in>"
  | Id_ExceptionList => Some "exception_list" | Id_ExceptionId => Some "exception_id"
  | Id_PredicatePassiveSymbol => Some "predicate_passive_symbol"
  | Id_CwVaArgTypeof => Some "cw_va_arg_typeof" | Id_Fence => Some "fence"
  | Id_Sync => Some "sync" | Id_Lwsync => Some "lwsync" | Id_Isync => Some "isync"
  | Id_WRfence => Some "WRfence" | Id_RRfence => Some "RRfence" | Id_RWfence => Some "RWfence"
  | Id_WWfence => Some "WWfence" | Id_RRcumul => Some "RRcumul" | Id_RWcumul => Some "RWcumul"
  | Id_WWcumul => Some "WWcumul" | Id_WRcumul => Some "WRcumul"
  | Id_GenericSelection => Some "generic_selection"
  | Id_GenericAssociations => Some "generic_associations"
  | Id_GenericAssociation => Some "generic_association" | Id_FloatbvPlus => Some "floatbv_plus"
  | Id_FloatbvMinus => Some "floatbv_minus" | Id_FloatbvMult => Some "floatbv_mult"
  | Id_FloatbvDiv => Some "floatbv_div" | Id_FloatbvRem => Some "floatbv_rem"
  | Id_FloatbvTypecast => Some "floatbv_typecast" | Id_CompoundLiteral => Some "compound_literal"
  | Id_CustomBv => Some "custom_bv" | Id_CustomUnsignedbv => Some "custom_unsignedbv"
  | Id_CustomSignedbv => Some "custom_signedbv" | Id_CustomFixedbv => Some "custom_fixedbv"
  | Id_CustomFloatbv => Some "custom_floatbv" | Id_CSSASymbol => Some "#SSA_symbol"
  | Id_L0 => Some "L0" | Id_L1 => Some "L1" | Id_L2 => Some "L2"
  | Id_L1ObjectIdentifier => Some "L1_object_identifier"
  | Id_AlreadyTypechecked => Some "already_typechecked" | Id_CVaArgType => Some "#va_arg_type"
  | Id_Smt2Symbol => Some "smt2_symbol" | Id_Onehot => Some "onehot"
  | Id_Onehot0 => Some "onehot0" | Id_Popcount => Some "popcount"
  | Id_CountLeadingZeros => Some "count_leading_zeros"
  | Id_CountTrailingZeros => Some "count_trailing_zeros"
  | Id_FunctionType => Some "function_type" | Id_Noreturn => Some "noreturn"
  | Id_CNoreturn => Some "#noreturn" | Id_Weak => Some "weak" | Id_IsWeak => Some "is_weak"
  | Id_Used => Some "used" | Id_IsUsed => Some "is_used"
  | Id_CSpecLoopInvariant => Some "#spec_loop_invariant"
  | Id_CSpecRequires => Some "#spec_requires" | Id_CSpecEnsures => Some "#spec_ensures"
  | Id_VirtualFunction => Some "virtual_function" | Id_ElementType => Some "element_type"
  | Id_WorkingDirectory => Some "working_directory" | Id_Section => Some "section"
  | Id_Bswap => Some "bswap" | Id_JavaBytecodeIndex => Some "java_bytecode_index"
  | Id_JavaInstanceof => Some "java_instanceof"
  | Id_JavaSuperMethodCall => Some "java_super_method_call"
  | Id_JavaEnumStaticUnwind => Some "java_enum_static_unwind" | Id_PushCatch => Some "push_catch"
  | Id_PopCatch => Some "pop_catch" | Id_ExceptionLandingpad => Some "exception_landingpad"
  | Id_LengthUpperBound => Some "length_upper_bound"
  | Id_CproverAssociateArrayToPointerFunc => Some "cprover_associate_array_to_pointer_func"
  | Id_CproverAssociateLengthToArrayFunc => Some "cprover_associate_length_to_array_func"
  | Id_CproverCharLiteralFunc => Some "cprover_char_literal_func"
  | Id_CproverStringLiteralFunc => Some "cprover_string_literal_func"
  | Id_CproverStringCharAtFunc => Some "cprover_string_char_at_func"
  | Id_CproverStringCharSetFunc => Some "cprover_string_char_set_func"
  | Id_CproverStringCodePointAtFunc => Some "cprover_string_code_point_at_func"
  | Id_CproverStringCodePointBeforeFunc => Some "cprover_string_code_point_before_func"
  | Id_CproverStringCodePointCountFunc => Some "cprover_string_code_point_count_func"
  | Id_CproverStringOffsetByCodePointFunc => Some "cprover_string_offset_by_code_point_func"
  | Id_CproverStringCompareToFunc => Some "cprover_string_compare_to_func"
  | Id_CproverStringConcatFunc => Some "cprover_string_concat_func"
  | Id_CproverStringConcatCharFunc => Some "cprover_string_concat_char_func"
  | Id_CproverStringConcatCodePointFunc => Some "cprover_string_concat_code_point_func"
  | Id_CproverStringConstrainCharactersFunc => Some "cprover_string_constrain_characters_func"
  | Id_CproverStringContainsFunc => Some "cprover_string_contains_func"
  | Id_CproverStringCopyFunc => Some "cprover_string_copy_func"
  | Id_CproverStringDeleteFunc => Some "cprover_string_delete_func"
  | Id_CproverStringDeleteCharAtFunc => Some "cprover_string_delete_char_at_func"
  | Id_CproverStringEqualFunc => Some "cprover_string_equal_func"
  | Id_CproverStringEqualsIgnoreCaseFunc => Some "cprover_string_equals_ignore_case_func"
  | Id_CproverStringEmptyStringFunc => Some "cprover_string_empty_string_func"
  | Id_CproverStringEndswithFunc => Some "cprover_string_endswith_func"
  | Id_CproverStringFormatFunc => Some "cprover_string_format_func"
  | Id_CproverStringIndexOfFunc => Some "cprover_string_index_of_func"
  | Id_CproverStringInsertFunc => Some "cprover_string_insert_func"
  | Id_CproverStringIsPrefixFunc => Some "cprover_string_is_prefix_func"
  | Id_CproverStringIsSuffixFunc => Some "cprover_string_is_suffix_func"
  | Id_CproverStringIsEmptyFunc => Some "cprover_string_is_empty_func"
  | Id_CproverStringLastIndexOfFunc => Some "cprover_string_last_index_of_func"
  | Id_CproverStringLengthFunc => Some "cprover_string_length_func"
  | Id_CproverStringOfIntFunc => Some "cprover_string_of_int_func"
  | Id_CproverStringOfIntHexFunc => Some "cprover_string_of_int_hex_func"
  | Id_CproverStringOfLongFunc => Some "cprover_string_of_long_func"
  | Id_CproverStringOfFloatFunc => Some "cprover_string_of_float_func"
  | Id_CproverStringOfFloatScientificNotationFunc => Some "cprover_string_of_float_scientific_notation_func"
  | Id_CproverStringOfDoubleFunc => Some "cprover_string_of_double_func"
  | Id_CproverStringParseIntFunc => Some "cprover_string_parse_int_func"
  | Id_CproverStringIsValidIntFunc => Some "cprover_string_is_valid_int_func"
  | Id_CproverStringIsValidLongFunc => Some "cprover_string_is_valid_long_func"
  | Id_CproverStringReplaceFunc => Some "cprover_string_replace_func"
  | Id_CproverStringSetLengthFunc => Some "cprover_string_set_length_func"
  | Id_CproverStringStartswithFunc => Some "cprover_string_startswith_func"
  | Id_CproverStringSubstringFunc => Some "cprover_string_substring_func"
  | Id_CproverStringToLowerCaseFunc => Some "cprover_string_to_lower_case_func"
  | Id_CproverStringToUpperCaseFunc => Some "cprover_string_to_upper_case_func"
  | Id_CproverStringTrimFunc => Some "cprover_string_trim_func"
  | Id_SkipInitialize => Some "skip_initialize"
  | Id_BasicBlockCoveredLines => Some "basic_block_covered_lines"
  | Id_BasicBlockSourceLines => Some "basic_block_source_lines"
  | Id_IsNondetNullable => Some "is_nondet_nullable" | Id_ArrayReplace => Some "array_replace"
  | Id_SwitchCaseNumber => Some "switch_case_number"
  | Id_JavaArrayAccess => Some "java_array_access"
  | Id_JavaMemberAccess => Some "java_member_access"
  | Id_CJavaGenericParameter => Some "#java_generic_parameter"
  | Id_CJavaGenericsClassType => Some "#java_generics_class_type"
  | Id_CJavaImplicitlyGenericClassType => Some "#java_implicitly_generic_class_type"
  | Id_CJavaGenericSymbol => Some "#java_generic_symbol"
  | Id_GenericTypes => Some "generic_types"
  | Id_ImplicitGenericTypes => Some "#implicit_generic_types"
  | Id_TypeVariables => Some "type_variables" | Id_HandleType => Some "handle_type"
  | Id_JavaLambdaMethodHandle => Some "java_lambda_method_handle"
  | Id_JavaLambdaMethodHandleIndex => Some "lambda_method_handle_index"
  | Id_JavaLambdaMethodHandles => Some "lambda_method_handles"
  | Id_HavocObject => Some "havoc_object" | Id_OverflowShl => Some "overflow-shl"
  | Id_CNoInitializationRequired => Some "#no_initialization_required"
  | Id_CNoNondetInitialization => Some "#no_nondet_initialization"
  | Id_OverlayClass => Some "java::org.cprover.OverlayClassImplementation"
  | Id_OverlayMethod => Some "java::org.cprover.OverlayMethodImplementation"
  | Id_IgnoredMethod => Some "java::org.cprover.IgnoredMethodImplementation"
  | Id_IsAnnotation => Some "is_annotation" | Id_CAnnotations => Some "#annotations"
  | Id_Final => Some "final" | Id_BitsPerByte => Some "bits_per_byte"
  | Id_CAbstract => Some "#abstract" | Id_Synthetic => Some "synthetic"
  | Id_Interface => Some "interface" | Id_CMustNotThrow => Some "#must_not_throw"
  | Id_IsInnerClass => Some "is_inner_class" | Id_IsAnonymous => Some "is_anonymous"
  | Id_OuterClass => Some "outer_class" | Id_IsBridgeMethod => Some "is_bridge_method"
  | Id_CIsOperator => Some "#is_operator" | Id_CNotAccessible => Some "#not_accessible"
  | Id_COverrideConstantness => Some "#override_constantness" | Id_CBound => Some "#bound"
  | Id_CBoundsCheck => Some "#bounds_check" | Id_CIsStatic => Some "#is_static"
  | Id_CCallByValue => Some "#call_by_value" | Id_CVirtualName => Some "#virtual_name"
  | Id_CUnnamedObject => Some "#unnamed_object"
  | Id_CTemporaryAvoided => Some "#temporary_avoided" | Id_CQualifier => Some "#qualifier"
  | Id_CArrayIni => Some "#array_ini" | Id_ROk => Some "r_ok" | Id_WOk => Some "w_ok"
  | Id_SuperClass => Some "super_class"
  | Id_ExceptionsThrownList => Some "exceptions_thrown_list"
  | Id_CJavaMethodType => Some "#java_method_type" | Id_Compiled => Some "compiled"
  | Id_PartialSpecializationArgs => Some "partial_specialization_args"
  | Id_SpecializationOf => Some "specialization_of" | Id_InitArgs => Some "init_args"
  | Id_Ambiguous => Some "ambiguous"
  | Id_SpecializationTemplateArgs => Some "specialization_template_args"
  | Id_FullTemplateArgs => Some "full_template_args"
  | Id_InstantiatedWith => Some "instantiated_with"
  | Id_TemplateMethods => Some "template_methods"
  | Id_CppNotTypechecked => Some "cpp_not_typechecked" | Id_Noaccess => Some "noaccess"
  | Id_IsOperator => Some "is_operator" | Id_IsCastOperator => Some "is_cast_operator"
  | Id_IsExplicit => Some "is_explicit" | Id_IsMutable => Some "is_mutable"
  | Id_VirtualName => Some "virtual_name" | Id_IsPureVirtual => Some "is_pure_virtual"
  | Id_IsVtptr => Some "is_vtptr" | Id_Prefix => Some "prefix" | Id_Cv => Some "cv"
  | Id_CppDummyDestructor => Some "cpp_dummy_destructor"
  | Id_CastExpression => Some "cast_expression" | Id_PodConstructor => Some "pod_constructor"
  | Id_TemplateDecls => Some "template_decls" | Id_ThrowDecl => Some "throw_decl"
  | Id_Typeid => Some "typeid" | Id_CQuoted => Some "#quoted" | Id_ToMember => Some "to_member"
  | Id_PointerToMember => Some "pointer_to_member" | Id_Tuple => Some "tuple"
  | Id_FunctionBody => Some "function_body" | Id_GetMay => Some "get_may"
  | Id_SetMay => Some "set_may" | Id_ClearMay => Some "clear_may" | Id_GetMust => Some "get_must"
  | Id_SetMust => Some "set_must" | Id_ClearMust => Some "clear_must"
  | Id_Pragma => Some "pragma" | Id_StatementList => Some "Statement List"
  | Id_StatementListType => Some "statement_list_type"
  | Id_StatementListFunction => Some "statement_list_function"
  | Id_StatementListFunctionBlock => Some "statement_list_function_block"
  | Id_StatementListMainFunction => Some "Main"
  | Id_StatementListDataBlock => Some "statement_list_data_block"
  | Id_StatementListVersion => Some "statement_list_version"
  | Id_StatementListVarInput => Some "statement_list_var_input"
  | Id_StatementListVarInout => Some "statement_list_var_inout"
  | Id_StatementListVarOutput => Some "statement_list_var_output"
  | Id_StatementListVarConstant => Some "statement_list_var_constant"
  | Id_StatementListVarTemp => Some "statement_list_var_temp"
  | Id_StatementListVarStatic => Some "statement_list_var_static"
  | Id_StatementListReturn => Some "statement_list_return"
  | Id_StatementListReturnValueId => Some "Ret_Val"
  | Id_StatementListVarEntry => Some "statement_list_var_entry"
  | Id_StatementListVarDecls => Some "statement_list_var_decls"
  | Id_StatementListNetwork => Some "statement_list_network"
  | Id_StatementListNetworks => Some "statement_list_networks"
  | Id_StatementListTitle => Some "statement_list_title"
  | Id_StatementListIdentifier => Some "statement_list_identifier"
  | Id_StatementListLoad => Some "statement_list_load"
  | Id_StatementListTransfer => Some "statement_list_transfer"
  | Id_StatementListCall => Some "statement_list_call"
  | Id_StatementListNop => Some "statement_list_nop"
  | Id_StatementListConstAdd => Some "statement_list_const_add"
  | Id_StatementListAccuIntAdd => Some "statement_list_accu_int_add"
  | Id_StatementListAccuIntSub => Some "statement_list_accu_int_sub"
  | Id_StatementListAccuIntMul => Some "statement_list_accu_int_mul"
  | Id_StatementListAccuIntDiv => Some "statement_list_accu_int_div"
  | Id_StatementListAccuIntEq => Some "statement_list_accu_int_eq"
  | Id_StatementListAccuIntNeq => Some "statement_list_accu_int_neq"
  | Id_StatementListAccuIntGt => Some "statement_list_accu_int_gt"
  | Id_StatementListAccuIntLt => Some "statement_list_accu_int_lt"
  | Id_StatementListAccuIntGte => Some "statement_list_accu_int_gte"
  | Id_StatementListAccuIntLte => Some "statement_list_accu_int_lte"
  | Id_StatementListAccuRealAdd => Some "statement_list_accu_real_add"
  | Id_StatementListAccuRealSub => Some "statement_list_accu_real_sub"
  | Id_StatementListAccuRealMul => Some "statement_list_accu_real_mul"
  | Id_StatementListAccuRealDiv => Some "statement_list_accu_real_div"
  | Id_StatementListAccuRealEq => Some "statement_list_accu_real_eq"
  | Id_StatementListAccuRealNeq => Some "statement_list_accu_real_neq"
  | Id_StatementListAccuRealGt => Some "statement_list_accu_real_gt"
  | Id_StatementListAccuRealLt => Some "statement_list_accu_real_lt"
  | Id_StatementListAccuRealGte => Some "statement_list_accu_real_gte"
  | Id_StatementListAccuRealLte => Some "statement_list_accu_real_lte"
  | Id_StatementListAccuDintAdd => Some "statement_list_accu_dint_add"
  | Id_StatementListAccuDintSub => Some "statement_list_accu_dint_sub"
  | Id_StatementListAccuDintMul => Some "statement_list_accu_dint_mul"
  | Id_StatementListAccuDintDiv => Some "statement_list_accu_dint_div"
  | Id_StatementListAccuDintEq => Some "statement_list_accu_dint_eq"
  | Id_StatementListAccuDintNeq => Some "statement_list_accu_dint_neq"
  | Id_StatementListAccuDintGt => Some "statement_list_accu_dint_gt"
  | Id_StatementListAccuDintLt => Some "statement_list_accu_dint_lt"
  | Id_StatementListAccuDintGte => Some "statement_list_accu_dint_gte"
  | Id_StatementListAccuDintLte => Some "statement_list_accu_dint_lte"
  | Id_StatementListAnd => Some "statement_list_and"
  | Id_StatementListAndNot => Some "statement_list_and_not"
  | Id_StatementListOr => Some "statement_list_or"
  | Id_StatementListOrNot => Some "statement_list_or_not"
  | Id_StatementListXor => Some "statement_list_xor"
  | Id_StatementListXorNot => Some "statement_list_xor_not"
  | Id_StatementListAndNested => Some "statement_list_and_nested"
  | Id_StatementListAndNotNested => Some "statement_list_and_not_nested"
  | Id_StatementListOrNested => Some "statement_list_or_nested"
  | Id_StatementListOrNotNested => Some "statement_list_or_not_nested"
  | Id_StatementListXorNested => Some "statement_list_xor_nested"
  | Id_StatementListXorNotNested => Some "statement_list_xor_not_nested"
  | Id_StatementListNestingClosed => Some "statement_list_nesting_closed"
  | Id_StatementListAssign => Some "statement_list_assign"
  | Id_StatementListSetRlo => Some "statement_list_set_rlo"
  | Id_StatementListClrRlo => Some "statement_list_clr_rlo"
  | Id_StatementListSet => Some "statement_list_set"
  | Id_StatementListReset => Some "statement_list_reset"
  | Id_StatementListNot => Some "statement_list_not"
  | Id_StatementListInstruction => Some "statement_list_instruction"
  | Id_StatementListInstructions => Some "statement_list_instructions"
  end.

(** [IrepId::to_string] *)
Definition irep_id_to_string (id : IrepId) : string :=
  match id with
  | Id_FreeformString s => s
  | Id_FreeformInteger i => pretty i
  | Id_FreeformHexInteger i => hex_Z i
  | _ => default "" (fixed_to_string id)
  end.

(** ** Decidable equality

    [#[derive(PartialEq)]], through the position of an identifier in the
    declaration. *)

Definition fixed_ids : list IrepId :=
  [Id_EmptyString; Id_Let; Id_LetBinding; Id_Nil; Id_Type; Id_Bool; Id_CBool; Id_ProperBool;
   Id_Signedbv; Id_Unsignedbv; Id_VerilogSignedbv; Id_VerilogUnsignedbv; Id_Floatbv; Id_Fixedbv;
   Id_X86Extended; Id_CSourceLocation; Id_CEndLocation; Id_CIsPadding; Id_CDoNotDump; Id_File;
   Id_Line; Id_Column; Id_Comment; Id_Property; Id_PropertyClass; Id_PropertyId; Id_Function;
   Id_MathematicalFunction; Id_Code; Id_Typecast; Id_StaticCast; Id_DynamicCast; Id_ConstCast;
   Id_ReinterpretCast; Id_Index; Id_Ptrmember; Id_Member; Id_MemberName; Id_CMemberName;
   Id_Equal; Id_Implies; Id_And; Id_Nand; Id_Or; Id_Nor; Id_Xor; Id_Not; Id_Bitand; Id_Bitor;
   Id_Bitnot; Id_Bitxor; Id_Bitnand; Id_Bitnor; Id_Bitxnor; Id_Notequal; Id_If; Id_Symbol;
   Id_NextSymbol; Id_NondetSymbol; Id_PredicateSymbol; Id_PredicateNextSymbol; Id_NondetBool;
   Id_Empty; Id_SideEffect; Id_Statement; Id_StatementExpression; Id_Value; Id_Constant;
   Id_Block; Id_Decl; Id_Dead; Id_Assign; Id_AssignDiv; Id_AssignMult; Id_AssignPlus;
   Id_AssignMinus; Id_AssignMod; Id_AssignShl; Id_AssignShr; Id_AssignAshr; Id_AssignLshr;
   Id_AssignBitand; Id_AssignBitxor; Id_AssignBitor; Id_Assume; Id_Assert; Id_Assertion;
   Id_Precondition; Id_Postcondition; Id_PreconditionInstance; Id_Goto; Id_GccComputedGoto;
   Id_Ifthenelse; Id_Label; Id_Break; Id_Continue; Id_FunctionCall; Id_Return; Id_Skip;
   Id_Arguments; Id_Array; Id_Size; Id_FrontendPointer; Id_Pointer; Id_BlockPointer; Id_Switch;
   Id_SwitchCase; Id_GccSwitchCaseRange; Id_For; Id_While; Id_Dowhile; Id_Int; Id_Integer;
   Id_Natural; Id_Real; Id_Rational; Id_Complex; Id_Signed; Id_Unsigned; Id_Asm; Id_GccAsmInput;
   Id_GccAsmOutput; Id_GccAsmClobberedRegister; Id_Incomplete; Id_IncompleteClass;
   Id_CIncomplete; Id_Identifier; Id_Name; Id_InnerName; Id_CppName; Id_ComponentCppName;
   Id_CIdClass; Id_Declaration; Id_DeclarationList; Id_Declarator; Id_Struct; Id_CBitField;
   Id_Union; Id_Class; Id_MergedType; Id_Range; Id_From; Id_To; Id_Module; Id_Parameter;
   Id_ComponentName; Id_ComponentNumber; Id_Tag; Id_Default; Id_CDefaultValue; Id_BaseName;
   Id_CBaseName; Id_String; Id_CStringConstant; Id_StringConstant; Id_Width; Id_Components;
   Id_Bv; Id_F; Id_With; Id_Trans; Id_Throw; Id_TryCatch; Id_Noexcept; Id_CPROVERThrow;
   Id_CPROVERTryCatch; Id_CPROVERTryFinally; Id_Protection; Id_Private; Id_Public; Id_Protected;
   Id_Virtual; Id_Volatile; Id_Const; Id_Constexpr; Id_Inline; Id_Forall; Id_Exists; Id_Repeat;
   Id_Extractbit; Id_Extractbits; Id_CReference; Id_CRvalueReference; Id_True; Id_False;
   Id_AddressOf; Id_Dereference; Id_CLvalue; Id_CBase; Id_Destination; Id_Main; Id_Expression;
   Id_Allocate; Id_CCxxAllocType; Id_CppNew; Id_CppDelete; Id_CppNewArray; Id_CppDeleteArray;
   Id_JavaNew; Id_JavaNewArray; Id_JavaNewArrayData; Id_JavaStringLiteral; Id_Printf; Id_Input;
   Id_Output; Id_Nondet; Id_NULL; Id_Null; Id_Nullptr; Id_CEnum; Id_Enumeration; Id_Elements;
   Id_Unknown; Id_Uninitialized; Id_Invalid; Id_CInvalidObject; Id_PointerOffset;
   Id_PointerObject; Id_IsInvalidPointer; Id_IeeeFloatEqual; Id_IeeeFloatNotequal; Id_Isnan;
   Id_Lambda; Id_ArrayComprehension; Id_ArrayOf; Id_ArrayEqual; Id_ArraySet; Id_ArrayCopy;
   Id_ArrayList; Id_Mod; Id_Rem; Id_Shr; Id_Ashr; Id_Lshr; Id_Shl; Id_Rol; Id_Ror; Id_Comma;
   Id_Concatenation; Id_Infinity; Id_ReturnType; Id_Typedef; Id_TypedefType; Id_CTypedef;
   Id_Extern; Id_Static; Id_Auto; Id_Register; Id_ThreadLocal; Id_Thread; Id_CThreadLocal;
   Id_CStaticLifetime; Id_Mutable; Id_Void; Id_Int8; Id_Int16; Id_Int32; Id_Int64; Id_Ptr32;
   Id_Ptr64; Id_Char; Id_Short; Id_Long; Id_Float; Id_Double; Id_Byte; Id_Boolean; Id_LongDouble;
   Id_SignedChar; Id_UnsignedChar; Id_SignedInt; Id_UnsignedInt; Id_SignedLongInt;
   Id_UnsignedLongInt; Id_SignedShortInt; Id_UnsignedShortInt; Id_SignedLongLongInt;
   Id_UnsignedLongLongInt; Id_SignedInt128; Id_UnsignedInt128; Id_Case; Id_CInlined; Id_CHide;
   Id_Hide; Id_Abs; Id_Sign; Id_Access; Id_CAccess; Id_Postincrement; Id_Postdecrement;
   Id_Preincrement; Id_Predecrement; Id_IntegerBits; Id_KnR; Id_CKnR; Id_ConstraintSelectOne;
   Id_Cond; Id_BvLiterals; Id_Isfinite; Id_Isinf; Id_Isnormal; Id_Alignof;
   Id_ClangBuiltinConvertvector; Id_GccBuiltinVaArg; Id_GccBuiltinTypesCompatibleP; Id_VaStart;
   Id_GccFloat16; Id_GccFloat32; Id_GccFloat32x; Id_GccFloat64; Id_GccFloat64x; Id_GccFloat80;
   Id_GccFloat128; Id_GccFloat128x; Id_GccInt128; Id_GccDecimal32; Id_GccDecimal64;
   Id_GccDecimal128; Id_BuiltinOffsetof; Id_Id0; Id_Id1; Id_Sizeof; Id_TypeArg; Id_ExprArg;
   Id_ExpressionList; Id_InitializerList; Id_GccConditionalExpression; Id_GccLocalLabel; Id_Gcc;
   Id_Msc; Id_Typeof; Id_Ellipsis; Id_Flavor; Id_Ge; Id_Le; Id_Gt; Id_Lt; Id_Plus; Id_Minus;
   Id_UnaryMinus; Id_UnaryPlus; Id_Mult; Id_Div; Id_Power; Id_FactorialPower; Id_PrettyName;
   Id_CClass; Id_CField; Id_CInterface; Id_DesignatedInitializer; Id_Designator;
   Id_MemberDesignator; Id_IndexDesignator; Id_CConstant; Id_CVolatile; Id_CRestricted;
   Id_CIdentifier; Id_CImplicit; Id_CPtr32; Id_CPtr64; Id_CAtomic; Id_Restrict;
   Id_ByteExtractBigEndian; Id_ByteExtractLittleEndian; Id_ByteUpdateBigEndian;
   Id_ByteUpdateLittleEndian; Id_Replication; Id_CproverAtomic; Id_Atomic;
   Id_AtomicTypeSpecifier; Id_AtomicBegin; Id_AtomicEnd; Id_StartThread; Id_EndThread;
   Id_CoverageCriterion; Id_Initializer; Id_Anonymous; Id_CIsAnonymous; Id_IsEnumConstant;
   Id_IsInline; Id_IsExtern; Id_IsSynchronized; Id_IsNativeMethod; Id_IsVarargsMethod;
   Id_IsGlobal; Id_IsThreadLocal; Id_IsParameter; Id_IsMember; Id_IsType; Id_IsRegister;
   Id_IsTypedef; Id_IsStatic; Id_IsTemplate; Id_IsStaticAssert; Id_IsVirtual; Id_CIsVirtual;
   Id_Literal; Id_MemberInitializers; Id_MemberInitializer; Id_MethodQualifier; Id_Methods;
   Id_StaticMembers; Id_Constructor; Id_Destructor; Id_Bases; Id_Base; Id_FromBase; Id_Operator;
   Id_Template; Id_TemplateClassInstance; Id_TemplateFunctionInstance; Id_TemplateType;
   Id_TemplateArgs; Id_TemplateParameter; Id_TemplateParameterSymbolType; Id_TemplateParameters;
   Id_CTemplate; Id_CTemplateArguments; Id_CTemplateCase; Id_Typename; Id_C; Id_Cpp; Id_Java;
   Id_DeclBlock; Id_DeclType; Id_Parameters; Id_WcharT; Id_Char16T; Id_Char32T; Id_SizeT;
   Id_SsizeT; Id_Mode; Id_This; Id_CThis; Id_ReductionAnd; Id_ReductionOr; Id_ReductionNand;
   Id_ReductionNor; Id_ReductionXor; Id_ReductionXnor; Id_CZeroInitializer; Id_Body;
   Id_TemporaryObject; Id_OverflowPlus; Id_OverflowMinus; Id_OverflowMult; Id_OverflowUnaryMinus;
   Id_ObjectDescriptor; Id_IsDynamicObject; Id_DynamicObject; Id_CDynamic; Id_ObjectSize;
   Id_GoodPointer; Id_IntegerAddress; Id_IntegerAddressObject; Id_NullObject; Id_StaticObject;
   Id_StackObject; Id_CIsFailedSymbol; Id_CFailedSymbol; Id_Friend; Id_CFriends; Id_Explicit;
   Id_StorageSpec; Id_MemberSpec; Id_MscDeclspec; Id_Packed; Id_CPacked; Id_TransparentUnion;
   Id_CTransparentUnion; Id_Aligned; Id_CAlignment; Id_FrontendVector; Id_Vector; Id_Abstract;
   Id_FunctionApplication; Id_CppDeclarator; Id_CppLinkageSpec; Id_CppNamespaceSpec;
   Id_CppStorageSpec; Id_CppUsing; Id_CppDeclaration; Id_CppStaticAssert; Id_CppMemberSpec;
   Id_CCType; Id_Namespace; Id_Linkage; Id_Decltype; Id_CTagOnlyDeclaration; Id_StructTag;
   Id_UnionTag; Id_CEnumTag; Id_VerilogCaseEquality; Id_VerilogCaseInequality;
   Id_UserSpecifiedPredicate; Id_UserSpecifiedParameterPredicates;
   Id_UserSpecifiedReturnPredicates; Id_Unassigned; Id_NewObject; Id_ComplexReal; Id_ComplexImag;
   Id_Imag; Id_MscTryExcept; Id_MscTryFinally; Id_MscLeave; Id_MscUuidof; Id_MscIfExists;
   Id_MscIfNotExists; Id_MscUnderlyingType; Id_MscBased; Id_Alias; Id_PtrObject; Id_CCSizeofType;
   Id_ArrayUpdate; Id_Update; Id_StaticAssert; Id_GccAttributeMode; Id_BuiltIn; Id_ExceptionList;
   Id_ExceptionId; Id_PredicatePassiveSymbol; Id_CwVaArgTypeof; Id_Fence; Id_Sync; Id_Lwsync;
   Id_Isync; Id_WRfence; Id_RRfence; Id_RWfence; Id_WWfence; Id_RRcumul; Id_RWcumul; Id_WWcumul;
   Id_WRcumul; Id_GenericSelection; Id_GenericAssociations; Id_GenericAssociation;
   Id_FloatbvPlus; Id_FloatbvMinus; Id_FloatbvMult; Id_FloatbvDiv; Id_FloatbvRem;
   Id_FloatbvTypecast; Id_CompoundLiteral; Id_CustomBv; Id_CustomUnsignedbv; Id_CustomSignedbv;
   Id_CustomFixedbv; Id_CustomFloatbv; Id_CSSASymbol; Id_L0; Id_L1; Id_L2; Id_L1ObjectIdentifier;
   Id_AlreadyTypechecked; Id_CVaArgType; Id_Smt2Symbol; Id_Onehot; Id_Onehot0; Id_Popcount;
   Id_CountLeadingZeros; Id_CountTrailingZeros; Id_FunctionType; Id_Noreturn; Id_CNoreturn;
   Id_Weak; Id_IsWeak; Id_Used; Id_IsUsed; Id_CSpecLoopInvariant; Id_CSpecRequires;
   Id_CSpecEnsures; Id_VirtualFunction; Id_ElementType; Id_WorkingDirectory; Id_Section;
   Id_Bswap; Id_JavaBytecodeIndex; Id_JavaInstanceof; Id_JavaSuperMethodCall;
   Id_JavaEnumStaticUnwind; Id_PushCatch; Id_PopCatch; Id_ExceptionLandingpad;
   Id_LengthUpperBound; Id_CproverAssociateArrayToPointerFunc;
   Id_CproverAssociateLengthToArrayFunc; Id_CproverCharLiteralFunc; Id_CproverStringLiteralFunc;
   Id_CproverStringCharAtFunc; Id_CproverStringCharSetFunc; Id_CproverStringCodePointAtFunc;
   Id_CproverStringCodePointBeforeFunc; Id_CproverStringCodePointCountFunc;
   Id_CproverStringOffsetByCodePointFunc; Id_CproverStringCompareToFunc;
   Id_CproverStringConcatFunc; Id_CproverStringConcatCharFunc;
   Id_CproverStringConcatCodePointFunc; Id_CproverStringConstrainCharactersFunc;
   Id_CproverStringContainsFunc; Id_CproverStringCopyFunc; Id_CproverStringDeleteFunc;
   Id_CproverStringDeleteCharAtFunc; Id_CproverStringEqualFunc;
   Id_CproverStringEqualsIgnoreCaseFunc; Id_CproverStringEmptyStringFunc;
   Id_CproverStringEndswithFunc; Id_CproverStringFormatFunc; Id_CproverStringIndexOfFunc;
   Id_CproverStringInsertFunc; Id_CproverStringIsPrefixFunc; Id_CproverStringIsSuffixFunc;
   Id_CproverStringIsEmptyFunc; Id_CproverStringLastIndexOfFunc; Id_CproverStringLengthFunc;
   Id_CproverStringOfIntFunc; Id_CproverStringOfIntHexFunc; Id_CproverStringOfLongFunc;
   Id_CproverStringOfFloatFunc; Id_CproverStringOfFloatScientificNotationFunc;
   Id_CproverStringOfDoubleFunc; Id_CproverStringParseIntFunc; Id_CproverStringIsValidIntFunc;
   Id_CproverStringIsValidLongFunc; Id_CproverStringReplaceFunc; Id_CproverStringSetLengthFunc;
   Id_CproverStringStartswithFunc; Id_CproverStringSubstringFunc;
   Id_CproverStringToLowerCaseFunc; Id_CproverStringToUpperCaseFunc; Id_CproverStringTrimFunc;
   Id_SkipInitialize; Id_BasicBlockCoveredLines; Id_BasicBlockSourceLines; Id_IsNondetNullable;
   Id_ArrayReplace; Id_SwitchCaseNumber; Id_JavaArrayAccess; Id_JavaMemberAccess;
   Id_CJavaGenericParameter; Id_CJavaGenericsClassType; Id_CJavaImplicitlyGenericClassType;
   Id_CJavaGenericSymbol; Id_GenericTypes; Id_ImplicitGenericTypes; Id_TypeVariables;
   Id_HandleType; Id_JavaLambdaMethodHandle; Id_JavaLambdaMethodHandleIndex;
   Id_JavaLambdaMethodHandles; Id_HavocObject; Id_OverflowShl; Id_CNoInitializationRequired;
   Id_CNoNondetInitialization; Id_OverlayClass; Id_OverlayMethod; Id_IgnoredMethod;
   Id_IsAnnotation; Id_CAnnotations; Id_Final; Id_BitsPerByte; Id_CAbstract; Id_Synthetic;
   Id_Interface; Id_CMustNotThrow; Id_IsInnerClass; Id_IsAnonymous; Id_OuterClass;
   Id_IsBridgeMethod; Id_CIsOperator; Id_CNotAccessible; Id_COverrideConstantness; Id_CBound;
   Id_CBoundsCheck; Id_CIsStatic; Id_CCallByValue; Id_CVirtualName; Id_CUnnamedObject;
   Id_CTemporaryAvoided; Id_CQualifier; Id_CArrayIni; Id_ROk; Id_WOk; Id_SuperClass;
   Id_ExceptionsThrownList; Id_CJavaMethodType; Id_Compiled; Id_PartialSpecializationArgs;
   Id_SpecializationOf; Id_InitArgs; Id_Ambiguous; Id_SpecializationTemplateArgs;
   Id_FullTemplateArgs; Id_InstantiatedWith; Id_TemplateMethods; Id_CppNotTypechecked;
   Id_Noaccess; Id_IsOperator; Id_IsCastOperator; Id_IsExplicit; Id_IsMutable; Id_VirtualName;
   Id_IsPureVirtual; Id_IsVtptr; Id_Prefix; Id_Cv; Id_CppDummyDestructor; Id_CastExpression;
   Id_PodConstructor; Id_TemplateDecls; Id_ThrowDecl; Id_Typeid; Id_CQuoted; Id_ToMember;
   Id_PointerToMember; Id_Tuple; Id_FunctionBody; Id_GetMay; Id_SetMay; Id_ClearMay; Id_GetMust;
   Id_SetMust; Id_ClearMust; Id_Pragma; Id_StatementList; Id_StatementListType;
   Id_StatementListFunction; Id_StatementListFunctionBlock; Id_StatementListMainFunction;
   Id_StatementListDataBlock; Id_StatementListVersion; Id_StatementListVarInput;
   Id_StatementListVarInout; Id_StatementListVarOutput; Id_StatementListVarConstant;
   Id_StatementListVarTemp; Id_StatementListVarStatic; Id_StatementListReturn;
   Id_StatementListReturnValueId; Id_StatementListVarEntry; Id_StatementListVarDecls;
   Id_StatementListNetwork; Id_StatementListNetworks; Id_StatementListTitle;
   Id_StatementListIdentifier; Id_StatementListLoad; Id_StatementListTransfer;
   Id_StatementListCall; Id_StatementListNop; Id_StatementListConstAdd;
   Id_StatementListAccuIntAdd; Id_StatementListAccuIntSub; Id_StatementListAccuIntMul;
   Id_StatementListAccuIntDiv; Id_StatementListAccuIntEq; Id_StatementListAccuIntNeq;
   Id_StatementListAccuIntGt; Id_StatementListAccuIntLt; Id_StatementListAccuIntGte;
   Id_StatementListAccuIntLte; Id_StatementListAccuRealAdd; Id_StatementListAccuRealSub;
   Id_StatementListAccuRealMul; Id_StatementListAccuRealDiv; Id_StatementListAccuRealEq;
   Id_StatementListAccuRealNeq; Id_StatementListAccuRealGt; Id_StatementListAccuRealLt;
   Id_StatementListAccuRealGte; Id_StatementListAccuRealLte; Id_StatementListAccuDintAdd;
   Id_StatementListAccuDintSub; Id_StatementListAccuDintMul; Id_StatementListAccuDintDiv;
   Id_StatementListAccuDintEq; Id_StatementListAccuDintNeq; Id_StatementListAccuDintGt;
   Id_StatementListAccuDintLt; Id_StatementListAccuDintGte; Id_StatementListAccuDintLte;
   Id_StatementListAnd; Id_StatementListAndNot; Id_StatementListOr; Id_StatementListOrNot;
   Id_StatementListXor; Id_StatementListXorNot; Id_StatementListAndNested;
   Id_StatementListAndNotNested; Id_StatementListOrNested; Id_StatementListOrNotNested;
   Id_StatementListXorNested; Id_StatementListXorNotNested; Id_StatementListNestingClosed;
   Id_StatementListAssign; Id_StatementListSetRlo; Id_StatementListClrRlo; Id_StatementListSet;
   Id_StatementListReset; Id_StatementListNot; Id_StatementListInstruction;
   Id_StatementListInstructions].

Definition irep_index (id : IrepId) : N :=
  match id with
  | Id_FreeformString _ | Id_FreeformInteger _ | Id_FreeformHexInteger _ => 1000
  | Id_EmptyString => 0 | Id_Let => 1 | Id_LetBinding => 2 | Id_Nil => 3 | Id_Type => 4
  | Id_Bool => 5 | Id_CBool => 6 | Id_ProperBool => 7 | Id_Signedbv => 8 | Id_Unsignedbv => 9
  | Id_VerilogSignedbv => 10 | Id_VerilogUnsignedbv => 11 | Id_Floatbv => 12 | Id_Fixedbv => 13
  | Id_X86Extended => 14 | Id_CSourceLocation => 15 | Id_CEndLocation => 16 | Id_CIsPadding => 17
  | Id_CDoNotDump => 18 | Id_File => 19 | Id_Line => 20 | Id_Column => 21 | Id_Comment => 22
  | Id_Property => 23 | Id_PropertyClass => 24 | Id_PropertyId => 25 | Id_Function => 26
  | Id_MathematicalFunction => 27 | Id_Code => 28 | Id_Typecast => 29 | Id_StaticCast => 30
  | Id_DynamicCast => 31 | Id_ConstCast => 32 | Id_ReinterpretCast => 33 | Id_Index => 34
  | Id_Ptrmember => 35 | Id_Member => 36 | Id_MemberName => 37 | Id_CMemberName => 38
  | Id_Equal => 39 | Id_Implies => 40 | Id_And => 41 | Id_Nand => 42 | Id_Or => 43 | Id_Nor => 44
  | Id_Xor => 45 | Id_Not => 46 | Id_Bitand => 47 | Id_Bitor => 48 | Id_Bitnot => 49
  | Id_Bitxor => 50 | Id_Bitnand => 51 | Id_Bitnor => 52 | Id_Bitxnor => 53 | Id_Notequal => 54
  | Id_If => 55 | Id_Symbol => 56 | Id_NextSymbol => 57 | Id_NondetSymbol => 58
  | Id_PredicateSymbol => 59 | Id_PredicateNextSymbol => 60 | Id_NondetBool => 61
  | Id_Empty => 62 | Id_SideEffect => 63 | Id_Statement => 64 | Id_StatementExpression => 65
  | Id_Value => 66 | Id_Constant => 67 | Id_Block => 68 | Id_Decl => 69 | Id_Dead => 70
  | Id_Assign => 71 | Id_AssignDiv => 72 | Id_AssignMult => 73 | Id_AssignPlus => 74
  | Id_AssignMinus => 75 | Id_AssignMod => 76 | Id_AssignShl => 77 | Id_AssignShr => 78
  | Id_AssignAshr => 79 | Id_AssignLshr => 80 | Id_AssignBitand => 81 | Id_AssignBitxor => 82
  | Id_AssignBitor => 83 | Id_Assume => 84 | Id_Assert => 85 | Id_Assertion => 86
  | Id_Precondition => 87 | Id_Postcondition => 88 | Id_PreconditionInstance => 89
  | Id_Goto => 90 | Id_GccComputedGoto => 91 | Id_Ifthenelse => 92 | Id_Label => 93
  | Id_Break => 94 | Id_Continue => 95 | Id_FunctionCall => 96 | Id_Return => 97 | Id_Skip => 98
  | Id_Arguments => 99 | Id_Array => 100 | Id_Size => 101 | Id_FrontendPointer => 102
  | Id_Pointer => 103 | Id_BlockPointer => 104 | Id_Switch => 105 | Id_SwitchCase => 106
  | Id_GccSwitchCaseRange => 107 | Id_For => 108 | Id_While => 109 | Id_Dowhile => 110
  | Id_Int => 111 | Id_Integer => 112 | Id_Natural => 113 | Id_Real => 114 | Id_Rational => 115
  | Id_Complex => 116 | Id_Signed => 117 | Id_Unsigned => 118 | Id_Asm => 119
  | Id_GccAsmInput => 120 | Id_GccAsmOutput => 121 | Id_GccAsmClobberedRegister => 122
  | Id_Incomplete => 123 | Id_IncompleteClass => 124 | Id_CIncomplete => 125
  | Id_Identifier => 126 | Id_Name => 127 | Id_InnerName => 128 | Id_CppName => 129
  | Id_ComponentCppName => 130 | Id_CIdClass => 131 | Id_Declaration => 132
  | Id_DeclarationList => 133 | Id_Declarator => 134 | Id_Struct => 135 | Id_CBitField => 136
  | Id_Union => 137 | Id_Class => 138 | Id_MergedType => 139 | Id_Range => 140 | Id_From => 141
  | Id_To => 142 | Id_Module => 143 | Id_Parameter => 144 | Id_ComponentName => 145
  | Id_ComponentNumber => 146 | Id_Tag => 147 | Id_Default => 148 | Id_CDefaultValue => 149
  | Id_BaseName => 150 | Id_CBaseName => 151 | Id_String => 152 | Id_CStringConstant => 153
  | Id_StringConstant => 154 | Id_Width => 155 | Id_Components => 156 | Id_Bv => 157
  | Id_F => 158 | Id_With => 159 | Id_Trans => 160 | Id_Throw => 161 | Id_TryCatch => 162
  | Id_Noexcept => 163 | Id_CPROVERThrow => 164 | Id_CPROVERTryCatch => 165
  | Id_CPROVERTryFinally => 166 | Id_Protection => 167 | Id_Private => 168 | Id_Public => 169
  | Id_Protected => 170 | Id_Virtual => 171 | Id_Volatile => 172 | Id_Const => 173
  | Id_Constexpr => 174 | Id_Inline => 175 | Id_Forall => 176 | Id_Exists => 177
  | Id_Repeat => 178 | Id_Extractbit => 179 | Id_Extractbits => 180 | Id_CReference => 181
  | Id_CRvalueReference => 182 | Id_True => 183 | Id_False => 184 | Id_AddressOf => 185
  | Id_Dereference => 186 | Id_CLvalue => 187 | Id_CBase => 188 | Id_Destination => 189
  | Id_Main => 190 | Id_Expression => 191 | Id_Allocate => 192 | Id_CCxxAllocType => 193
  | Id_CppNew => 194 | Id_CppDelete => 195 | Id_CppNewArray => 196 | Id_CppDeleteArray => 197
  | Id_JavaNew => 198 | Id_JavaNewArray => 199 | Id_JavaNewArrayData => 200
  | Id_JavaStringLiteral => 201 | Id_Printf => 202 | Id_Input => 203 | Id_Output => 204
  | Id_Nondet => 205 | Id_NULL => 206 | Id_Null => 207 | Id_Nullptr => 208 | Id_CEnum => 209
  | Id_Enumeration => 210 | Id_Elements => 211 | Id_Unknown => 212 | Id_Uninitialized => 213
  | Id_Invalid => 214 | Id_CInvalidObject => 215 | Id_PointerOffset => 216
  | Id_PointerObject => 217 | Id_IsInvalidPointer => 218 | Id_IeeeFloatEqual => 219
  | Id_IeeeFloatNotequal => 220 | Id_Isnan => 221 | Id_Lambda => 222
  | Id_ArrayComprehension => 223 | Id_ArrayOf => 224 | Id_ArrayEqual => 225 | Id_ArraySet => 226
  | Id_ArrayCopy => 227 | Id_ArrayList => 228 | Id_Mod => 229 | Id_Rem => 230 | Id_Shr => 231
  | Id_Ashr => 232 | Id_Lshr => 233 | Id_Shl => 234 | Id_Rol => 235 | Id_Ror => 236
  | Id_Comma => 237 | Id_Concatenation => 238 | Id_Infinity => 239 | Id_ReturnType => 240
  | Id_Typedef => 241 | Id_TypedefType => 242 | Id_CTypedef => 243 | Id_Extern => 244
  | Id_Static => 245 | Id_Auto => 246 | Id_Register => 247 | Id_ThreadLocal => 248
  | Id_Thread => 249 | Id_CThreadLocal => 250 | Id_CStaticLifetime => 251 | Id_Mutable => 252
  | Id_Void => 253 | Id_Int8 => 254 | Id_Int16 => 255 | Id_Int32 => 256 | Id_Int64 => 257
  | Id_Ptr32 => 258 | Id_Ptr64 => 259 | Id_Char => 260 | Id_Short => 261 | Id_Long => 262
  | Id_Float => 263 | Id_Double => 264 | Id_Byte => 265 | Id_Boolean => 266
  | Id_LongDouble => 267 | Id_SignedChar => 268 | Id_UnsignedChar => 269 | Id_SignedInt => 270
  | Id_UnsignedInt => 271 | Id_SignedLongInt => 272 | Id_UnsignedLongInt => 273
  | Id_SignedShortInt => 274 | Id_UnsignedShortInt => 275 | Id_SignedLongLongInt => 276
  | Id_UnsignedLongLongInt => 277 | Id_SignedInt128 => 278 | Id_UnsignedInt128 => 279
  | Id_Case => 280 | Id_CInlined => 281 | Id_CHide => 282 | Id_Hide => 283 | Id_Abs => 284
  | Id_Sign => 285 | Id_Access => 286 | Id_CAccess => 287 | Id_Postincrement => 288
  | Id_Postdecrement => 289 | Id_Preincrement => 290 | Id_Predecrement => 291
  | Id_IntegerBits => 292 | Id_KnR => 293 | Id_CKnR => 294 | Id_ConstraintSelectOne => 295
  | Id_Cond => 296 | Id_BvLiterals => 297 | Id_Isfinite => 298 | Id_Isinf => 299
  | Id_Isnormal => 300 | Id_Alignof => 301 | Id_ClangBuiltinConvertvector => 302
  | Id_GccBuiltinVaArg => 303 | Id_GccBuiltinTypesCompatibleP => 304 | Id_VaStart => 305
  | Id_GccFloat16 => 306 | Id_GccFloat32 => 307 | Id_GccFloat32x => 308 | Id_GccFloat64 => 309
  | Id_GccFloat64x => 310 | Id_GccFloat80 => 311 | Id_GccFloat128 => 312 | Id_GccFloat128x => 313
  | Id_GccInt128 => 314 | Id_GccDecimal32 => 315 | Id_GccDecimal64 => 316
  | Id_GccDecimal128 => 317 | Id_BuiltinOffsetof => 318 | Id_Id0 => 319 | Id_Id1 => 320
  | Id_Sizeof => 321 | Id_TypeArg => 322 | Id_ExprArg => 323 | Id_ExpressionList => 324
  | Id_InitializerList => 325 | Id_GccConditionalExpression => 326 | Id_GccLocalLabel => 327
  | Id_Gcc => 328 | Id_Msc => 329 | Id_Typeof => 330 | Id_Ellipsis => 331 | Id_Flavor => 332
  | Id_Ge => 333 | Id_Le => 334 | Id_Gt => 335 | Id_Lt => 336 | Id_Plus => 337 | Id_Minus => 338
  | Id_UnaryMinus => 339 | Id_UnaryPlus => 340 | Id_Mult => 341 | Id_Div => 342 | Id_Power => 343
  | Id_FactorialPower => 344 | Id_PrettyName => 345 | Id_CClass => 346 | Id_CField => 347
  | Id_CInterface => 348 | Id_DesignatedInitializer => 349 | Id_Designator => 350
  | Id_MemberDesignator => 351 | Id_IndexDesignator => 352 | Id_CConstant => 353
  | Id_CVolatile => 354 | Id_CRestricted => 355 | Id_CIdentifier => 356 | Id_CImplicit => 357
  | Id_CPtr32 => 358 | Id_CPtr64 => 359 | Id_CAtomic => 360 | Id_Restrict => 361
  | Id_ByteExtractBigEndian => 362 | Id_ByteExtractLittleEndian => 363
  | Id_ByteUpdateBigEndian => 364 | Id_ByteUpdateLittleEndian => 365 | Id_Replication => 366
  | Id_CproverAtomic => 367 | Id_Atomic => 368 | Id_AtomicTypeSpecifier => 369
  | Id_AtomicBegin => 370 | Id_AtomicEnd => 371 | Id_StartThread => 372 | Id_EndThread => 373
  | Id_CoverageCriterion => 374 | Id_Initializer => 375 | Id_Anonymous => 376
  | Id_CIsAnonymous => 377 | Id_IsEnumConstant => 378 | Id_IsInline => 379 | Id_IsExtern => 380
  | Id_IsSynchronized => 381 | Id_IsNativeMethod => 382 | Id_IsVarargsMethod => 383
  | Id_IsGlobal => 384 | Id_IsThreadLocal => 385 | Id_IsParameter => 386 | Id_IsMember => 387
  | Id_IsType => 388 | Id_IsRegister => 389 | Id_IsTypedef => 390 | Id_IsStatic => 391
  | Id_IsTemplate => 392 | Id_IsStaticAssert => 393 | Id_IsVirtual => 394 | Id_CIsVirtual => 395
  | Id_Literal => 396 | Id_MemberInitializers => 397 | Id_MemberInitializer => 398
  | Id_MethodQualifier => 399 | Id_Methods => 400 | Id_StaticMembers => 401
  | Id_Constructor => 402 | Id_Destructor => 403 | Id_Bases => 404 | Id_Base => 405
  | Id_FromBase => 406 | Id_Operator => 407 | Id_Template => 408
  | Id_TemplateClassInstance => 409 | Id_TemplateFunctionInstance => 410 | Id_TemplateType => 411
  | Id_TemplateArgs => 412 | Id_TemplateParameter => 413 | Id_TemplateParameterSymbolType => 414
  | Id_TemplateParameters => 415 | Id_CTemplate => 416 | Id_CTemplateArguments => 417
  | Id_CTemplateCase => 418 | Id_Typename => 419 | Id_C => 420 | Id_Cpp => 421 | Id_Java => 422
  | Id_DeclBlock => 423 | Id_DeclType => 424 | Id_Parameters => 425 | Id_WcharT => 426
  | Id_Char16T => 427 | Id_Char32T => 428 | Id_SizeT => 429 | Id_SsizeT => 430 | Id_Mode => 431
  | Id_This => 432 | Id_CThis => 433 | Id_ReductionAnd => 434 | Id_ReductionOr => 435
  | Id_ReductionNand => 436 | Id_ReductionNor => 437 | Id_ReductionXor => 438
  | Id_ReductionXnor => 439 | Id_CZeroInitializer => 440 | Id_Body => 441
  | Id_TemporaryObject => 442 | Id_OverflowPlus => 443 | Id_OverflowMinus => 444
  | Id_OverflowMult => 445 | Id_OverflowUnaryMinus => 446 | Id_ObjectDescriptor => 447
  | Id_IsDynamicObject => 448 | Id_DynamicObject => 449 | Id_CDynamic => 450
  | Id_ObjectSize => 451 | Id_GoodPointer => 452 | Id_IntegerAddress => 453
  | Id_IntegerAddressObject => 454 | Id_NullObject => 455 | Id_StaticObject => 456
  | Id_StackObject => 457 | Id_CIsFailedSymbol => 458 | Id_CFailedSymbol => 459
  | Id_Friend => 460 | Id_CFriends => 461 | Id_Explicit => 462 | Id_StorageSpec => 463
  | Id_MemberSpec => 464 | Id_MscDeclspec => 465 | Id_Packed => 466 | Id_CPacked => 467
  | Id_TransparentUnion => 468 | Id_CTransparentUnion => 469 | Id_Aligned => 470
  | Id_CAlignment => 471 | Id_FrontendVector => 472 | Id_Vector => 473 | Id_Abstract => 474
  | Id_FunctionApplication => 475 | Id_CppDeclarator => 476 | Id_CppLinkageSpec => 477
  | Id_CppNamespaceSpec => 478 | Id_CppStorageSpec => 479 | Id_CppUsing => 480
  | Id_CppDeclaration => 481 | Id_CppStaticAssert => 482 | Id_CppMemberSpec => 483
  | Id_CCType => 484 | Id_Namespace => 485 | Id_Linkage => 486 | Id_Decltype => 487
  | Id_CTagOnlyDeclaration => 488 | Id_StructTag => 489 | Id_UnionTag => 490 | Id_CEnumTag => 491
  | Id_VerilogCaseEquality => 492 | Id_VerilogCaseInequality => 493
  | Id_UserSpecifiedPredicate => 494 | Id_UserSpecifiedParameterPredicates => 495
  | Id_UserSpecifiedReturnPredicates => 496 | Id_Unassigned => 497 | Id_NewObject => 498
  | Id_ComplexReal => 499 | Id_ComplexImag => 500 | Id_Imag => 501 | Id_MscTryExcept => 502
  | Id_MscTryFinally => 503 | Id_MscLeave => 504 | Id_MscUuidof => 505 | Id_MscIfExists => 506
  | Id_MscIfNotExists => 507 | Id_MscUnderlyingType => 508 | Id_MscBased => 509 | Id_Alias => 510
  | Id_PtrObject => 511 | Id_CCSizeofType => 512 | Id_ArrayUpdate => 513 | Id_Update => 514
  | Id_StaticAssert => 515 | Id_GccAttributeMode => 516 | Id_BuiltIn => 517
  | Id_ExceptionList => 518 | Id_ExceptionId => 519 | Id_PredicatePassiveSymbol => 520
  | Id_CwVaArgTypeof => 521 | Id_Fence => 522 | Id_Sync => 523 | Id_Lwsync => 524
  | Id_Isync => 525 | Id_WRfence => 526 | Id_RRfence => 527 | Id_RWfence => 528
  | Id_WWfence => 529 | Id_RRcumul => 530 | Id_RWcumul => 531 | Id_WWcumul => 532
  | Id_WRcumul => 533 | Id_GenericSelection => 534 | Id_GenericAssociations => 535
  | Id_GenericAssociation => 536 | Id_FloatbvPlus => 537 | Id_FloatbvMinus => 538
  | Id_FloatbvMult => 539 | Id_FloatbvDiv => 540 | Id_FloatbvRem => 541
  | Id_FloatbvTypecast => 542 | Id_CompoundLiteral => 543 | Id_CustomBv => 544
  | Id_CustomUnsignedbv => 545 | Id_CustomSignedbv => 546 | Id_CustomFixedbv => 547
  | Id_CustomFloatbv => 548 | Id_CSSASymbol => 549 | Id_L0 => 550 | Id_L1 => 551 | Id_L2 => 552
  | Id_L1ObjectIdentifier => 553 | Id_AlreadyTypechecked => 554 | Id_CVaArgType => 555
  | Id_Smt2Symbol => 556 | Id_Onehot => 557 | Id_Onehot0 => 558 | Id_Popcount => 559
  | Id_CountLeadingZeros => 560 | Id_CountTrailingZeros => 561 | Id_FunctionType => 562
  | Id_Noreturn => 563 | Id_CNoreturn => 564 | Id_Weak => 565 | Id_IsWeak => 566 | Id_Used => 567
  | Id_IsUsed => 568 | Id_CSpecLoopInvariant => 569 | Id_CSpecRequires => 570
  | Id_CSpecEnsures => 571 | Id_VirtualFunction => 572 | Id_ElementType => 573
  | Id_WorkingDirectory => 574 | Id_Section => 575 | Id_Bswap => 576
  | Id_JavaBytecodeIndex => 577 | Id_JavaInstanceof => 578 | Id_JavaSuperMethodCall => 579
  | Id_JavaEnumStaticUnwind => 580 | Id_PushCatch => 581 | Id_PopCatch => 582
  | Id_ExceptionLandingpad => 583 | Id_LengthUpperBound => 584
  | Id_CproverAssociateArrayToPointerFunc => 585 | Id_CproverAssociateLengthToArrayFunc => 586
  | Id_CproverCharLiteralFunc => 587 | Id_CproverStringLiteralFunc => 588
  | Id_CproverStringCharAtFunc => 589 | Id_CproverStringCharSetFunc => 590
  | Id_CproverStringCodePointAtFunc => 591 | Id_CproverStringCodePointBeforeFunc => 592
  | Id_CproverStringCodePointCountFunc => 593 | Id_CproverStringOffsetByCodePointFunc => 594
  | Id_CproverStringCompareToFunc => 595 | Id_CproverStringConcatFunc => 596
  | Id_CproverStringConcatCharFunc => 597 | Id_CproverStringConcatCodePointFunc => 598
  | Id_CproverStringConstrainCharactersFunc => 599 | Id_CproverStringContainsFunc => 600
  | Id_CproverStringCopyFunc => 601 | Id_CproverStringDeleteFunc => 602
  | Id_CproverStringDeleteCharAtFunc => 603 | Id_CproverStringEqualFunc => 604
  | Id_CproverStringEqualsIgnoreCaseFunc => 605 | Id_CproverStringEmptyStringFunc => 606
  | Id_CproverStringEndswithFunc => 607 | Id_CproverStringFormatFunc => 608
  | Id_CproverStringIndexOfFunc => 609 | Id_CproverStringInsertFunc => 610
  | Id_CproverStringIsPrefixFunc => 611 | Id_CproverStringIsSuffixFunc => 612
  | Id_CproverStringIsEmptyFunc => 613 | Id_CproverStringLastIndexOfFunc => 614
  | Id_CproverStringLengthFunc => 615 | Id_CproverStringOfIntFunc => 616
  | Id_CproverStringOfIntHexFunc => 617 | Id_CproverStringOfLongFunc => 618
  | Id_CproverStringOfFloatFunc => 619 | Id_CproverStringOfFloatScientificNotationFunc => 620
  | Id_CproverStringOfDoubleFunc => 621 | Id_CproverStringParseIntFunc => 622
  | Id_CproverStringIsValidIntFunc => 623 | Id_CproverStringIsValidLongFunc => 624
  | Id_CproverStringReplaceFunc => 625 | Id_CproverStringSetLengthFunc => 626
  | Id_CproverStringStartswithFunc => 627 | Id_CproverStringSubstringFunc => 628
  | Id_CproverStringToLowerCaseFunc => 629 | Id_CproverStringToUpperCaseFunc => 630
  | Id_CproverStringTrimFunc => 631 | Id_SkipInitialize => 632 | Id_BasicBlockCoveredLines => 633
  | Id_BasicBlockSourceLines => 634 | Id_IsNondetNullable => 635 | Id_ArrayReplace => 636
  | Id_SwitchCaseNumber => 637 | Id_JavaArrayAccess => 638 | Id_JavaMemberAccess => 639
  | Id_CJavaGenericParameter => 640 | Id_CJavaGenericsClassType => 641
  | Id_CJavaImplicitlyGenericClassType => 642 | Id_CJavaGenericSymbol => 643
  | Id_GenericTypes => 644 | Id_ImplicitGenericTypes => 645 | Id_TypeVariables => 646
  | Id_HandleType => 647 | Id_JavaLambdaMethodHandle => 648
  | Id_JavaLambdaMethodHandleIndex => 649 | Id_JavaLambdaMethodHandles => 650
  | Id_HavocObject => 651 | Id_OverflowShl => 652 | Id_CNoInitializationRequired => 653
  | Id_CNoNondetInitialization => 654 | Id_OverlayClass => 655 | Id_OverlayMethod => 656
  | Id_IgnoredMethod => 657 | Id_IsAnnotation => 658 | Id_CAnnotations => 659 | Id_Final => 660
  | Id_BitsPerByte => 661 | Id_CAbstract => 662 | Id_Synthetic => 663 | Id_Interface => 664
  | Id_CMustNotThrow => 665 | Id_IsInnerClass => 666 | Id_IsAnonymous => 667
  | Id_OuterClass => 668 | Id_IsBridgeMethod => 669 | Id_CIsOperator => 670
  | Id_CNotAccessible => 671 | Id_COverrideConstantness => 672 | Id_CBound => 673
  | Id_CBoundsCheck => 674 | Id_CIsStatic => 675 | Id_CCallByValue => 676
  | Id_CVirtualName => 677 | Id_CUnnamedObject => 678 | Id_CTemporaryAvoided => 679
  | Id_CQualifier => 680 | Id_CArrayIni => 681 | Id_ROk => 682 | Id_WOk => 683
  | Id_SuperClass => 684 | Id_ExceptionsThrownList => 685 | Id_CJavaMethodType => 686
  | Id_Compiled => 687 | Id_PartialSpecializationArgs => 688 | Id_SpecializationOf => 689
  | Id_InitArgs => 690 | Id_Ambiguous => 691 | Id_SpecializationTemplateArgs => 692
  | Id_FullTemplateArgs => 693 | Id_InstantiatedWith => 694 | Id_TemplateMethods => 695
  | Id_CppNotTypechecked => 696 | Id_Noaccess => 697 | Id_IsOperator => 698
  | Id_IsCastOperator => 699 | Id_IsExplicit => 700 | Id_IsMutable => 701 | Id_VirtualName => 702
  | Id_IsPureVirtual => 703 | Id_IsVtptr => 704 | Id_Prefix => 705 | Id_Cv => 706
  | Id_CppDummyDestructor => 707 | Id_CastExpression => 708 | Id_PodConstructor => 709
  | Id_TemplateDecls => 710 | Id_ThrowDecl => 711 | Id_Typeid => 712 | Id_CQuoted => 713
  | Id_ToMember => 714 | Id_PointerToMember => 715 | Id_Tuple => 716 | Id_FunctionBody => 717
  | Id_GetMay => 718 | Id_SetMay => 719 | Id_ClearMay => 720 | Id_GetMust => 721
  | Id_SetMust => 722 | Id_ClearMust => 723 | Id_Pragma => 724 | Id_StatementList => 725
  | Id_StatementListType => 726 | Id_StatementListFunction => 727
  | Id_StatementListFunctionBlock => 728 | Id_StatementListMainFunction => 729
  | Id_StatementListDataBlock => 730 | Id_StatementListVersion => 731
  | Id_StatementListVarInput => 732 | Id_StatementListVarInout => 733
  | Id_StatementListVarOutput => 734 | Id_StatementListVarConstant => 735
  | Id_StatementListVarTemp => 736 | Id_StatementListVarStatic => 737
  | Id_StatementListReturn => 738 | Id_StatementListReturnValueId => 739
  | Id_StatementListVarEntry => 740 | Id_StatementListVarDecls => 741
  | Id_StatementListNetwork => 742 | Id_StatementListNetworks => 743
  | Id_StatementListTitle => 744 | Id_StatementListIdentifier => 745
  | Id_StatementListLoad => 746 | Id_StatementListTransfer => 747 | Id_StatementListCall => 748
  | Id_StatementListNop => 749 | Id_StatementListConstAdd => 750
  | Id_StatementListAccuIntAdd => 751 | Id_StatementListAccuIntSub => 752
  | Id_StatementListAccuIntMul => 753 | Id_StatementListAccuIntDiv => 754
  | Id_StatementListAccuIntEq => 755 | Id_StatementListAccuIntNeq => 756
  | Id_StatementListAccuIntGt => 757 | Id_StatementListAccuIntLt => 758
  | Id_StatementListAccuIntGte => 759 | Id_StatementListAccuIntLte => 760
  | Id_StatementListAccuRealAdd => 761 | Id_StatementListAccuRealSub => 762
  | Id_StatementListAccuRealMul => 763 | Id_StatementListAccuRealDiv => 764
  | Id_StatementListAccuRealEq => 765 | Id_StatementListAccuRealNeq => 766
  | Id_StatementListAccuRealGt => 767 | Id_StatementListAccuRealLt => 768
  | Id_StatementListAccuRealGte => 769 | Id_StatementListAccuRealLte => 770
  | Id_StatementListAccuDintAdd => 771 | Id_StatementListAccuDintSub => 772
  | Id_StatementListAccuDintMul => 773 | Id_StatementListAccuDintDiv => 774
  | Id_StatementListAccuDintEq => 775 | Id_StatementListAccuDintNeq => 776
  | Id_StatementListAccuDintGt => 777 | Id_StatementListAccuDintLt => 778
  | Id_StatementListAccuDintGte => 779 | Id_StatementListAccuDintLte => 780
  | Id_StatementListAnd => 781 | Id_StatementListAndNot => 782 | Id_StatementListOr => 783
  | Id_StatementListOrNot => 784 | Id_StatementListXor => 785 | Id_StatementListXorNot => 786
  | Id_StatementListAndNested => 787 | Id_StatementListAndNotNested => 788
  | Id_StatementListOrNested => 789 | Id_StatementListOrNotNested => 790
  | Id_StatementListXorNested => 791 | Id_StatementListXorNotNested => 792
  | Id_StatementListNestingClosed => 793 | Id_StatementListAssign => 794
  | Id_StatementListSetRlo => 795 | Id_StatementListClrRlo => 796 | Id_StatementListSet => 797
  | Id_StatementListReset => 798 | Id_StatementListNot => 799
  | Id_StatementListInstruction => 800 | Id_StatementListInstructions => 801
  end%N.

Definition is_freeform (id : IrepId) : bool :=
  match id with
  | Id_FreeformString _ | Id_FreeformInteger _ | Id_FreeformHexInteger _ => true
  | _ => false
  end.

Lemma fixed_ids_index id : is_freeform id = false -> fixed_ids !! N.to_nat (irep_index id) = Some id.
Proof. destruct id; intros H; first [discriminate H | vm_compute; reflexivity]. Qed.

Lemma irep_index_inj a b :
  is_freeform a = false -> is_freeform b = false -> irep_index a = irep_index b -> a = b.
Proof.
  intros Ha Hb E. apply fixed_ids_index in Ha, Hb. rewrite E, Hb in Ha. by injection Ha.
Qed.

Definition irep_id_eqb (a b : IrepId) : bool :=
  match a, b with
  | Id_FreeformString s, Id_FreeformString t => String.eqb s t
  | Id_FreeformInteger i, Id_FreeformInteger j => (i =? j)%Z
  | Id_FreeformHexInteger i, Id_FreeformHexInteger j => (i =? j)%Z
  | _, _ => negb (is_freeform a) && negb (is_freeform b) && (irep_index a =? irep_index b)%N
  end.

Lemma irep_id_eqb_spec a b : irep_id_eqb a b = true <-> a = b.
Proof.
  assert (Hx : forall a b, negb (is_freeform a) && negb (is_freeform b)
                 && (irep_index a =? irep_index b)%N = true <-> is_freeform a = false /\ a = b).
  { intros x y. rewrite !andb_true_iff, !negb_true_iff, N.eqb_eq. split.
    - intros [[Hx Hy] E]. split; [done|]. by apply irep_index_inj.
    - by intros [Hx <-]. }
  destruct (is_freeform a) eqn:Ea.
  - destruct a; try discriminate Ea; destruct (is_freeform b) eqn:Eb.
    all: try (split; [by destruct b|by intros <-]; fail).
    all: destruct b; try discriminate Eb; cbn; rewrite ?String.eqb_eq, ?Z.eqb_eq; split;
      (by intros [= ->]) || (by intros ->) || done.
  - assert (irep_id_eqb a b = negb (is_freeform a) && negb (is_freeform b)
              && (irep_index a =? irep_index b)%N) as -> by (by destruct a).
    rewrite Hx. naive_solver.
Qed.

#[export] Instance IrepId_eq_dec : EqDecision IrepId.
Proof.
  intros a b. destruct (irep_id_eqb a b) eqn:E.
  - left. by apply irep_id_eqb_spec.
  - right. intros H%irep_id_eqb_spec. congruence.
Defined.

(** ** Strings of identifiers *)

Lemma fixed_strings_nodup : NoDup (map fixed_to_string fixed_ids).
Proof. apply (bool_decide_unpack _). vm_compute. exact Logic.I. Qed.

Lemma fixed_to_string_inj a b :
  is_freeform a = false -> is_freeform b = false ->
  fixed_to_string a = fixed_to_string b -> a = b.
Proof.
  intros Ha Hb E. pose proof (fixed_ids_index a Ha) as La. pose proof (fixed_ids_index b Hb) as Lb.
  assert (N.to_nat (irep_index a) = N.to_nat (irep_index b)) as Ei.
  { eapply (NoDup_lookup _ _ _ (fixed_to_string a)); [apply fixed_strings_nodup| |].
    - change (map fixed_to_string fixed_ids) with (fixed_to_string <$> fixed_ids).
      by rewrite list_lookup_fmap, La.
    - change (map fixed_to_string fixed_ids) with (fixed_to_string <$> fixed_ids).
      by rewrite list_lookup_fmap, Lb, E. }
  rewrite Ei, Lb in La. by injection La.
Qed.

Lemma fixed_to_string_some id : is_freeform id = false -> exists s, fixed_to_string id = Some s.
Proof. destruct id; intros H; first [discriminate H | eexists; reflexivity]. Qed.

Lemma irep_id_to_string_fixed id :
  is_freeform id = false -> irep_id_to_string id = default "" (fixed_to_string id).
Proof. destruct id; intros H; first [discriminate H | reflexivity]. Qed.

(** *** Hexadecimal *)

Definition hex_value (c : ascii) : N :=
  let n := N_of_ascii c in if (n <=? 57)%N then (n - 48)%N else (n - 55)%N.

(** Reading digits, most significant first. *)
Fixpoint parse_hex (v : N) (s : string) : N :=
  match s with
  | EmptyString => v
  | String c s => parse_hex (16 * v + hex_value c) s
  end.

Lemma hex_value_digit n : (n < 16)%N -> hex_value (hex_digit n) = n.
Proof.
  intros H. assert (Hall : Forall (fun k => hex_value (hex_digit (N.of_nat k)) = N.of_nat k) (seq 0 16))
    by (repeat constructor).
  rewrite Forall_seq in Hall. specialize (Hall (N.to_nat n)). rewrite N2Nat.id in Hall.
  apply Hall. lia.
Qed.

Lemma parse_hex_go fuel n s :
  (n < 16 ^ N.of_nat fuel)%N -> parse_hex 0 (hex_go fuel n s) = parse_hex n s.
Proof.
  revert n s. induction fuel as [|fuel IH]; intros n s Hn.
  { cbn in Hn. by assert (n = 0%N) as -> by lia. }
  assert (Hd : parse_hex (n / 16) (String (hex_digit (n mod 16)) s) = parse_hex n s).
  { cbn [parse_hex]. rewrite hex_value_digit by (apply N.mod_lt; lia).
    by rewrite <- (N.div_mod n 16) by lia. }
  cbn [hex_go]. destruct (N.eqb_spec (n / 16) 0) as [E|E].
  - rewrite <- Hd. by rewrite E.
  - rewrite IH; [done|]. apply N.Div0.div_lt_upper_bound.
    rewrite Nat2N.inj_succ, N.pow_succ_r' in Hn. lia.
Qed.

Lemma parse_hex_N n : parse_hex 0 (hex_N n) = n.
Proof.
  unfold hex_N. rewrite parse_hex_go; [done|]. rewrite Nat2N.inj_succ, N2Nat.id.
  pose proof (N.size_gt n) as H. eapply N.lt_le_trans; [exact H|].
  eapply N.le_trans; [apply (N.pow_le_mono_l 2 16); lia|]. apply N.pow_le_mono_r; lia.
Qed.

Lemma hex_N_inj n m : hex_N n = hex_N m -> n = m.
Proof. intros E. by rewrite <- (parse_hex_N n), E, parse_hex_N. Qed.

Lemma hex_go_head fuel n s c t :
  hex_go (S fuel) n s = String c t -> exists d, (d < 16)%N /\ c = hex_digit d.
Proof.
  revert n s. induction fuel as [|fuel IH]; intros n s; cbn [hex_go].
  - destruct (n / 16 =? 0)%N; intros [= <- _]; exists (n mod 16)%N; (split; [apply N.mod_lt; lia|done]).
  - destruct (n / 16 =? 0)%N; [|apply IH].
    intros [= <- _]. exists (n mod 16)%N. split; [apply N.mod_lt; lia|done].
Qed.

Lemma hex_N_no_sign n s : hex_N n <> "-" +:+ s.
Proof.
  intros E. unfold hex_N in E. apply hex_go_head in E as (d & Hd & Ec).
  pose proof (f_equal hex_value Ec) as Ev. rewrite hex_value_digit in Ev by done.
  vm_compute in Ev. subst d. discriminate Ec.
Qed.

Lemma hex_Z_inj i j : hex_Z i = hex_Z j -> i = j.
Proof.
  unfold hex_Z. destruct (Z.ltb_spec i 0), (Z.ltb_spec j 0); intros E.
  - injection E as E. apply hex_N_inj in E. lia.
  - by symmetry in E; apply hex_N_no_sign in E.
  - by apply hex_N_no_sign in E.
  - apply hex_N_inj in E. lia.
Qed.

(** ** Properties *)

(** Distinct fixed identifiers are printed as distinct strings: the text of a fixed
    identifier determines it. *)
Theorem irep_id_strings_distinct (a b : IrepId) :
  is_freeform a = false -> is_freeform b = false ->
  irep_id_to_string a = irep_id_to_string b <-> a = b.
Proof.
  intros Ha Hb. split; [|by intros ->]. rewrite !irep_id_to_string_fixed by done.
  destruct (fixed_to_string_some a Ha) as [s Hs], (fixed_to_string_some b Hb) as [t Ht].
  intros E. apply fixed_to_string_inj; [done|done|]. rewrite Hs, Ht in *. by f_equal.
Qed.

Lemma irep_id_strings_distinct_witness :
  irep_id_to_string Id_Nil = irep_id_to_string Id_Type <-> Id_Nil = Id_Type.
Proof. apply (irep_id_strings_distinct Id_Nil Id_Type); reflexivity. Defined.

(** The hexadecimal text of an integer constant, sign and magnitude, determines the
    integer. *)
Theorem hex_ids_distinct (i j : Z) :
  irep_id_to_string (hex_from_int i) = irep_id_to_string (hex_from_int j) <-> i = j.
Proof. split; [apply hex_Z_inj | by intros ->]. Qed.
