(* ===== verification/Irep.v ===== *)
(** * The irep format ([cbmc/src/irep/irep.rs])

    An irep is a tree: an identifier, unnamed children and named children.  The
    named children are a [VecMap] of the third-party crate [vector_map]; a map is
    represented by its entries in iteration order, and its [insert] and [get] are
    a parameter ([VecMap]) with the documented behaviour as laws. *)

From S2P Require Import Prelude CbmcString MachineModel Location IrepId.

(** ** The map of the crate [vector_map] *)

Class VecMap := {
  vec_from_iter : forall {V}, list (IrepId * V) -> list (IrepId * V);
  vec_insert : forall {V}, IrepId -> V -> list (IrepId * V) -> list (IrepId * V);
  vec_get : forall {V}, IrepId -> list (IrepId * V) -> option V;
}.

(** The pairs of an iterator are inserted in order; a new key is appended, the value of
    an old key is replaced in place. *)
Class VecMapLaws `{VecMap} : Prop := {
  vec_from_iter_insert {V} (l : list (IrepId * V)) :
    vec_from_iter l = foldl (fun m kv => vec_insert kv.1 kv.2 m) [] l;
  vec_insert_new {V} k (v : V) m : k ∉ m.*1 -> vec_insert k v m = m ++ [(k, v)];
  vec_insert_old {V} k (v w : V) m1 m2 :
    k ∉ m1.*1 -> vec_insert k v (m1 ++ (k, w) :: m2) = m1 ++ (k, v) :: m2;
  vec_get_spec {V} k (v : V) m : NoDup m.*1 -> vec_get k m = Some v <-> (k, v) ∈ m;
}.

(** [struct Irep] *)
Inductive Irep := mkIrep (id : IrepId) (sub : list Irep) (named_sub : list (IrepId * Irep)).

Definition irep_id (i : Irep) : IrepId := match i with mkIrep id _ _ => id end.
Definition irep_sub (i : Irep) : list Irep := match i with mkIrep _ s _ => s end.
Definition irep_named_sub (i : Irep) : list (IrepId * Irep) := match i with mkIrep _ _ n => n end.

Section Irep.
Context `{VecMap}.

(** [macro_rules! vector_map] of [utils.rs] *)
Definition vector_map {V} (l : list (IrepId * V)) : list (IrepId * V) :=
  vec_from_iter l.

(** ** Getters *)

Definition irep_lookup (i : Irep) (key : IrepId) : option Irep := vec_get key (irep_named_sub i).

Definition lookup_as_int (i : Irep) (id : IrepId) : option Z :=
  match irep_lookup i id with
  | Some x =>
      match irep_id x with
      | Id_FreeformInteger i | Id_FreeformHexInteger i => Some i
      | _ => None
      end
  | None => None
  end.

Definition lookup_as_string (i : Irep) (id : IrepId) : option string :=
  match irep_lookup i id with
  | Some x =>
      let s := irep_id_to_string (irep_id x) in
      if String.eqb s "" then None else Some s
  | None => None
  end.

(** ** Predicates *)

Definition is_just_id (i : Irep) : bool :=
  match irep_sub i, irep_named_sub i with [], [] => true | _, _ => false end.

Definition is_just_named_sub (i : Irep) : bool :=
  irep_id_eqb (irep_id i) Id_EmptyString && match irep_sub i with [] => true | _ => false end.

Definition is_just_sub (i : Irep) : bool :=
  irep_id_eqb (irep_id i) Id_EmptyString && match irep_named_sub i with [] => true | _ => false end.

Definition is_nil (i : Irep) : bool := irep_id_eqb (irep_id i) Id_Nil.

(** ** Constructors *)

Definition just_id (id : IrepId) : Irep := mkIrep id [] [].
Definition irep_constructor : Irep := just_id Id_Constructor.
Definition irep_empty : Irep := just_id Id_Empty.
Definition just_hex_id (i : Z) : Irep := just_id (hex_from_int i).
Definition just_int_id (i : Z) : Irep := just_id (from_int i).
Definition just_named_sub (named_sub : list (IrepId * Irep)) : Irep :=
  mkIrep Id_EmptyString [] named_sub.
Definition just_string_id (s : InternedString) : Irep := just_id (from_string s).
Definition just_sub (sub : list Irep) : Irep := mkIrep Id_EmptyString sub [].
Definition irep_nil : Irep := just_id Id_Nil.
Definition irep_one : Irep := just_id Id_Id1.
Definition irep_zero : Irep := just_id Id_Id0.

(** ** Fluent builders *)

Definition with_named_sub (i : Irep) (key : IrepId) (v : Irep) : Irep :=
  if negb (is_nil v) then
    match i with mkIrep id sub named_sub => mkIrep id sub (vec_insert key v named_sub) end
  else i.

Definition with_named_sub_option (i : Irep) (key : IrepId) (v : option Irep) : Irep :=
  match v with Some v => with_named_sub i key v | None => i end.

(** [impl ToIrep for Location] ([to_irep.rs]) *)
Definition location_to_irep (l : Location) : Irep :=
  match l with
  | LNone => irep_nil
  | BuiltinFunction function_name line =>
      with_named_sub_option
        (just_named_sub (vector_map [
           (Id_File, just_string_id ("<builtin-library-" +:+ function_name +:+ ">"));
           (Id_Function, just_string_id function_name)]))
        Id_Line (option_map (fun n => just_int_id (Z.of_N n)) line)
  | Loc file function line col =>
      with_named_sub_option
        (with_named_sub_option
           (just_named_sub (vector_map [
              (Id_File, just_string_id file); (Id_Line, just_int_id (Z.of_N line))]))
           Id_Column (option_map (fun n => just_int_id (Z.of_N n)) col))
        Id_Function (option_map just_string_id function)
  end.

(** [Irep::with_location] *)
Definition irep_with_location (i : Irep) (l : Location) : Irep :=
  if negb (is_none l) then with_named_sub i Id_CSourceLocation (location_to_irep l) else i.
End Irep.

(** ** An instance of the map *)

Fixpoint assoc_insert {V} (k : IrepId) (v : V) (m : list (IrepId * V)) : list (IrepId * V) :=
  match m with
  | [] => [(k, v)]
  | (k', v') :: m => if irep_id_eqb k' k then (k', v) :: m else (k', v') :: assoc_insert k v m
  end.

Fixpoint assoc_get {V} (k : IrepId) (m : list (IrepId * V)) : option V :=
  match m with
  | [] => None
  | (k', v) :: m => if irep_id_eqb k' k then Some v else assoc_get k m
  end.

#[export] Instance assoc_map : VecMap := {
  vec_from_iter V l := foldl (fun m kv => assoc_insert kv.1 kv.2 m) [] l;
  vec_insert := @assoc_insert;
  vec_get := @assoc_get;
}.

Lemma irep_id_eqb_refl k : irep_id_eqb k k = true.
Proof. by apply irep_id_eqb_spec. Qed.

Lemma irep_id_eqb_ne a b : a <> b -> irep_id_eqb a b = false.
Proof. intros Hne. destruct (irep_id_eqb a b) eqn:E; [|done]. by apply irep_id_eqb_spec in E. Qed.

#[export] Instance assoc_map_laws : VecMapLaws.
Proof.
  split.
  - done.
  - intros V k v m. induction m as [|[k' v'] m IH]; cbn; [done|].
    rewrite not_elem_of_cons. intros [Hne Hk]. rewrite irep_id_eqb_ne by done. by rewrite <- IH.
  - intros V k v w m1 m2. induction m1 as [|[k' v'] m1 IH]; cbn.
    + by rewrite irep_id_eqb_refl.
    + rewrite not_elem_of_cons. intros [Hne Hk]. rewrite irep_id_eqb_ne by done. by rewrite <- IH.
  - intros V k v m. induction m as [|[k' v'] m IH]; cbn.
    + intros _. split; [done|]. by intros []%elem_of_nil.
    + rewrite NoDup_cons. intros [Hk Hnd]. rewrite elem_of_cons.
      destruct (irep_id_eqb k' k) eqn:E.
      * apply irep_id_eqb_spec in E as ->. split; [intros [= ->]; by left|].
        intros [[= ->]|Hin]; [done|]. destruct Hk. apply list_elem_of_fmap. by exists (k, v).
      * rewrite IH by done. split; [by right|]. intros [[= -> ->]|Hin]; [|done].
        by rewrite irep_id_eqb_refl in E.
Qed.

(** ** Consequences of the laws *)

Section Facts.
Context `{VecMapLaws}.

(** A literal map with distinct keys is the list of its entries. *)
Lemma vector_map_distinct {V} (l : list (IrepId * V)) : NoDup l.*1 -> vector_map l = l.
Proof.
  unfold vector_map. rewrite vec_from_iter_insert. change l with ([] ++ l) at 1 3.
  generalize (@nil (IrepId * V)) as m. induction l as [|[k v] l IH]; intros m; cbn.
  - by rewrite app_nil_r.
  - intros Hnd. rewrite vec_insert_new.
    + rewrite IH by (by rewrite <- app_assoc). by rewrite <- app_assoc.
    + rewrite fmap_app in Hnd. apply NoDup_app in Hnd as (_ & Hd & _). intros Hk.
      apply (Hd k Hk). cbn. left.
Qed.

Lemma with_named_sub_new id sub m k v :
  is_nil v = false -> k ∉ m.*1 ->
  with_named_sub (mkIrep id sub m) k v = mkIrep id sub (m ++ [(k, v)]).
Proof. intros Hn Hk. unfold with_named_sub. by rewrite Hn, vec_insert_new. Qed.
End Facts.
