(* ===== verification/ToIrep.v ===== *)
(** * From goto programs to ireps ([cbmc/src/irep/to_irep.rs])

    The typed program is turned into the untyped trees CBMC reads.  The
    conversion can panic in one place only: the type of a padding component is
    [Type::unsigned_int(bits)], which rejects zero bits; hence the [outcome]s. *)

From S2P Require Import Prelude CbmcString MachineModel Location Typ Ast SymbolTable Expr Symbol.
From S2P Require Import IrepId Irep.

Section ToIrep.
Context `{VecMap} (mm : MachineModel).

(** ** Utility functions *)

Definition code_irep (kind : IrepId) (ops : list Irep) : Irep :=
  mkIrep Id_Code ops (vector_map [(Id_Statement, just_id kind)]).

Definition side_effect_irep (kind : IrepId) (ops : list Irep) : Irep :=
  mkIrep Id_SideEffect ops (vector_map [(Id_Statement, just_id kind)]).

(** ** Identifiers of operators *)

Definition binop_irep_id (op : BinaryOperand) : IrepId :=
  match op with
  | OpAnd => Id_And
  | OpAshr => Id_Ashr
  | OpBitand => Id_Bitand
  | OpBitor => Id_Bitor
  | OpBitxor => Id_Bitxor
  | OpDiv => Id_Div
  | OpEqual => Id_Equal
  | OpGe => Id_Ge
  | OpGt => Id_Gt
  | OpIeeeFloatEqual => Id_IeeeFloatEqual
  | OpIeeeFloatNotequal => Id_IeeeFloatNotequal
  | OpImplies => Id_Implies
  | OpLe => Id_Le
  | OpLshr => Id_Lshr
  | OpLt => Id_Lt
  | OpMinus => Id_Minus
  | OpMod => Id_Mod
  | OpMult => Id_Mult
  | OpNotequal => Id_Notequal
  | OpOr => Id_Or
  | OpOverflowMinus => Id_OverflowMinus
  | OpOverflowMult => Id_OverflowMult
  | OpOverflowPlus => Id_OverflowPlus
  | OpPlus => Id_Plus
  | OpRol => Id_Rol
  | OpRor => Id_Ror
  | OpShl => Id_Shl
  | OpXor => Id_Xor
  end.

Definition selfop_irep_id (op : SelfOperand) : IrepId :=
  match op with
  | Postdecrement => Id_Postdecrement
  | Postincrement => Id_Postincrement
  | Predecrement => Id_Predecrement
  | Preincrement => Id_Preincrement
  end.

Definition unop_irep_id (op : UnaryOperand) : IrepId :=
  match op with
  | Bitnot => Id_Bitnot
  | Bswap => Id_Bswap
  | CountLeadingZeros _ => Id_CountLeadingZeros
  | CountTrailingZeros _ => Id_CountTrailingZeros
  | IsDynamicObject => Id_IsDynamicObject
  | Not => Id_Not
  | ObjectSize => Id_ObjectSize
  | PointerObject => Id_PointerObject
  | PointerOffset => Id_PointerOffset
  | Popcount => Id_Popcount
  | UnaryMinus => Id_UnaryMinus
  end.

(** ** Types *)

Definition width_irep (id : IrepId) (w : N) : Irep :=
  mkIrep id [] (vector_map [(Id_Width, just_int_id (Z.of_N w))]).

(** [Type::ssize_t().to_irep(mm)] *)
Definition ssize_irep : Irep := width_irep Id_Signedbv (pointer_width mm).

(** The irep of an integer constant of type [ssize_t], as array sizes and byte offsets
    need it: [Expr::int_constant(i, Type::ssize_t()).to_irep(mm)]. *)
Definition ssize_constant_irep (i : Z) : Irep :=
  with_named_sub
    (irep_with_location (mkIrep Id_Constant [] (vector_map [(Id_Value, just_hex_id i)])) LNone)
    Id_Type ssize_irep.

Definition float_irep (f w : Z) (ctype : IrepId) : Irep :=
  mkIrep Id_Floatbv []
    (vector_map [(Id_F, just_int_id f); (Id_Width, just_int_id w); (Id_CCType, just_id ctype)]).

Definition incomplete_irep (id : IrepId) (tag : InternedString) : Irep :=
  mkIrep id [] (vector_map [(Id_Tag, just_string_id tag); (Id_Incomplete, irep_one)]).

Definition aggregate_irep (id : IrepId) (tag : InternedString) (components : list Irep) : Irep :=
  mkIrep id []
    (vector_map [(Id_Tag, just_string_id tag); (Id_Components, just_sub components)]).

Definition tag_irep (id : IrepId) (name : InternedString) : Irep :=
  mkIrep id [] (vector_map [(Id_Identifier, just_string_id name)]).

Definition array_irep (id : IrepId) (elem size : Irep) : Irep :=
  mkIrep id [elem] (vector_map [(Id_Size, size)]).

Definition code_type_irep (parameters return_type : Irep) : Irep :=
  mkIrep Id_Code [] (vector_map [(Id_Parameters, parameters); (Id_ReturnType, return_type)]).

(** [impl ToIrep for Type], [for DatatypeComponent], [for Parameter] *)
Fixpoint type_to_irep (t : Type_) : outcome Irep :=
  match t with
  | TArray typ size =>
      e ← type_to_irep typ;
      Ok (array_irep Id_Array e (ssize_constant_irep (Z.of_N size)))
  | TCBitField typ width =>
      e ← type_to_irep typ;
      Ok (mkIrep Id_CBitField [e] (vector_map [(Id_Width, just_int_id (Z.of_N width))]))
  | TBool => Ok (just_id Id_Bool)
  | TCInteger CBool => Ok (width_irep Id_CBool (bool_width mm))
  | TCInteger CChar =>
      Ok (width_irep (if char_is_unsigned mm then Id_Unsignedbv else Id_Signedbv) (char_width mm))
  | TCInteger CInt => Ok (width_irep Id_Signedbv (int_width mm))
  | TCInteger CSizeT => Ok (width_irep Id_Unsignedbv (pointer_width mm))
  | TCInteger CSSizeT => Ok ssize_irep
  | TCode parameters return_type =>
      ps ← sequence (map parameter_to_irep parameters);
      r ← type_to_irep return_type;
      Ok (code_type_irep (just_sub ps) r)
  | TConstructor => Ok (just_id Id_Constructor)
  | TDouble => Ok (float_irep 52 64 Id_Double)
  | TEmpty => Ok (just_id Id_Empty)
  | TFlexibleArray typ =>
      e ← type_to_irep typ; Ok (array_irep Id_Array e (ssize_constant_irep 0))
  | TFloat => Ok (float_irep 23 32 Id_Float)
  | TIncompleteStruct tag => Ok (incomplete_irep Id_Struct tag)
  | TIncompleteUnion tag => Ok (incomplete_irep Id_Union tag)
  | TInfiniteArray typ =>
      let infinity := with_named_sub (just_id Id_Infinity) Id_Type ssize_irep in
      e ← type_to_irep typ; Ok (array_irep Id_Array e infinity)
  | TPointer typ =>
      e ← type_to_irep typ;
      Ok (mkIrep Id_Pointer [e] (vector_map [(Id_Width, just_int_id (Z.of_N (pointer_width mm)))]))
  | TSignedbv width => Ok (width_irep Id_Signedbv width)
  | TStruct tag components =>
      cs ← sequence (map component_to_irep components); Ok (aggregate_irep Id_Struct tag cs)
  | TStructTag name => Ok (tag_irep Id_StructTag name)
  | TUnion tag components =>
      cs ← sequence (map component_to_irep components); Ok (aggregate_irep Id_Union tag cs)
  | TUnionTag name => Ok (tag_irep Id_UnionTag name)
  | TUnsignedbv width => Ok (width_irep Id_Unsignedbv width)
  | TVariadicCode parameters return_type =>
      ps ← sequence (map parameter_to_irep parameters);
      r ← type_to_irep return_type;
      Ok (code_type_irep (with_named_sub (just_sub ps) Id_Ellipsis irep_one) r)
  | TVector typ size =>
      e ← type_to_irep typ;
      Ok (array_irep Id_Vector e (ssize_constant_irep (Z.of_N size)))
  end
with component_to_irep (c : DatatypeComponent) : outcome Irep :=
  match c with
  | Field name typ =>
      t ← type_to_irep typ;
      Ok (just_named_sub (vector_map
            [(Id_Name, just_string_id name); (Id_PrettyName, just_string_id name); (Id_Type, t)]))
  | Padding name bits =>
      assert! (0 <? bits)%N;
      Ok (just_named_sub (vector_map
            [(Id_CIsPadding, irep_one); (Id_Name, just_string_id name);
             (Id_Type, width_irep Id_Unsignedbv bits)]))
  end
with parameter_to_irep (p : Parameter_) : outcome Irep :=
  match p with
  | mkParameter typ identifier base_name =>
      t ← type_to_irep typ;
      Ok (with_named_sub_option
            (with_named_sub_option (mkIrep Id_Parameter [] (vector_map [(Id_Type, t)]))
               Id_CIdentifier (option_map just_string_id identifier))
            Id_CBaseName (option_map just_string_id base_name))
  end.

(** [Irep::with_type] *)
Definition with_type (i : Irep) (t : Type_) : outcome Irep :=
  ti ← type_to_irep t; Ok (with_named_sub i Id_Type ti).

(** ** Expressions and statements *)

Definition arguments_irep (arguments : list Irep) : Irep :=
  mkIrep Id_Arguments arguments (vector_map []).

Definition op_irep (id : IrepId) (sub : list Irep) : Irep := mkIrep id sub (vector_map []).

Definition constant_irep (v : Irep) : Irep := mkIrep Id_Constant [] (vector_map [(Id_Value, v)]).

Definition switch_default_irep (body : Irep) (loc : Location) : Irep :=
  irep_with_location
    (with_named_sub (code_irep Id_SwitchCase [irep_nil; body]) Id_Default irep_one) loc.

Definition nil_or (o : option (outcome Irep)) : outcome Irep :=
  match o with None => Ok irep_nil | Some i => i end.

(** [impl ToIrep for Expr], [ExprValue], [Stmt], [StmtBody], [SwitchCase] *)
Fixpoint expr_to_irep (e : Expr) : outcome Irep :=
  match e with
  | mkExpr v t l => i ← value_to_irep v; with_type (irep_with_location i l) t
  end
with value_to_irep (v : ExprValue) : outcome Irep :=
  match v with
  | EAddressOf e => e ← expr_to_irep e; Ok (op_irep Id_AddressOf [e])
  | EArray elems => es ← sequence (map expr_to_irep elems); Ok (op_irep Id_Array es)
  | EArrayOf elem => e ← expr_to_irep elem; Ok (op_irep Id_ArrayOf [e])
  | EAssign l r =>
      l ← expr_to_irep l; r ← expr_to_irep r; Ok (side_effect_irep Id_Assign [l; r])
  | EBinOp op lhs rhs =>
      l ← expr_to_irep lhs; r ← expr_to_irep rhs; Ok (op_irep (binop_irep_id op) [l; r])
  | EBoolConstant c => Ok (constant_irep (just_id (if c then Id_True else Id_False)))
  | EByteExtract e offset =>
      e ← expr_to_irep e;
      Ok (op_irep (if is_big_endian mm then Id_ByteExtractBigEndian else Id_ByteExtractLittleEndian)
            [e; ssize_constant_irep (Z.of_N offset)])
  | ECBoolConstant i => Ok (constant_irep (just_hex_id (if i then 1 else 0)))
  | EDereference e => e ← expr_to_irep e; Ok (op_irep Id_Dereference [e])
  | EDoubleConstant bits => Ok (constant_irep (just_hex_id (Z.of_N bits)))
  | EFloatConstant bits => Ok (constant_irep (just_hex_id (Z.of_N bits)))
  | EFunctionCall function arguments =>
      f ← expr_to_irep function;
      args ← sequence (map expr_to_irep arguments);
      Ok (side_effect_irep Id_FunctionCall [f; arguments_irep args])
  | EIf c t e =>
      c ← expr_to_irep c; t ← expr_to_irep t; e ← expr_to_irep e; Ok (op_irep Id_If [c; t; e])
  | EIndex array index =>
      a ← expr_to_irep array; i ← expr_to_irep index; Ok (op_irep Id_Index [a; i])
  | EIntConstant i => Ok (constant_irep (just_hex_id i))
  | EMember lhs field =>
      l ← expr_to_irep lhs;
      Ok (mkIrep Id_Member [l]
            (vector_map [(Id_CLvalue, irep_one); (Id_ComponentName, just_string_id field)]))
  | ENondet => Ok (side_effect_irep Id_Nondet [])
  | EPointerConstant 0 => Ok (constant_irep (just_id Id_NULL))
  | EPointerConstant i => Ok (constant_irep (just_hex_id (Z.of_N i)))
  | ESelfOp op e => e ← expr_to_irep e; Ok (side_effect_irep (selfop_irep_id op) [e])
  | EStatementExpression ops =>
      (* [Stmt::block(ops, Location::none()).to_irep(mm)] *)
      ss ← sequence (map stmt_to_irep ops);
      Ok (side_effect_irep Id_StatementExpression
            [irep_with_location (code_irep Id_Block ss) LNone])
  | EStringConstant s =>
      Ok (mkIrep Id_StringConstant [] (vector_map [(Id_Value, just_string_id s)]))
  | EStruct values => es ← sequence (map expr_to_irep values); Ok (op_irep Id_Struct es)
  | ESymbol identifier =>
      Ok (mkIrep Id_Symbol [] (vector_map [(Id_Identifier, just_string_id identifier)]))
  | ETypecast e => e ← expr_to_irep e; Ok (op_irep Id_Typecast [e])
  | EUnion v field =>
      v ← expr_to_irep v;
      Ok (mkIrep Id_Union [v] (vector_map [(Id_ComponentName, just_string_id field)]))
  | EUnOp Bswap e =>
      e ← expr_to_irep e;
      Ok (mkIrep Id_Bswap [e] (vector_map [(Id_BitsPerByte, just_int_id 8)]))
  | EUnOp (CountLeadingZeros allow_zero) e =>
      e ← expr_to_irep e;
      Ok (mkIrep Id_CountLeadingZeros [e]
            (vector_map [(Id_CBoundsCheck, if allow_zero then irep_zero else irep_one)]))
  | EUnOp (CountTrailingZeros allow_zero) e =>
      e ← expr_to_irep e;
      Ok (mkIrep Id_CountTrailingZeros [e]
            (vector_map [(Id_CBoundsCheck, if allow_zero then irep_zero else irep_one)]))
  | EUnOp op e => e ← expr_to_irep e; Ok (op_irep (unop_irep_id op) [e])
  | EVector elems => es ← sequence (map expr_to_irep elems); Ok (op_irep Id_Vector es)
  end
with stmt_to_irep (s : Stmt) : outcome Irep :=
  match s with mkStmt b l => i ← body_to_irep b; Ok (irep_with_location i l) end
with body_to_irep (b : StmtBody) : outcome Irep :=
  match b with
  | SAssign lhs rhs =>
      l ← expr_to_irep lhs; r ← expr_to_irep rhs; Ok (code_irep Id_Assign [l; r])
  | SAssume cond => c ← expr_to_irep cond; Ok (code_irep Id_Assume [c])
  | SAtomicBlock stmts =>
      ss ← sequence (map stmt_to_irep stmts);
      Ok (code_irep Id_Block ([code_irep Id_AtomicBegin []] ++ ss ++ [code_irep Id_AtomicEnd []]))
  | SBlock stmts => ss ← sequence (map stmt_to_irep stmts); Ok (code_irep Id_Block ss)
  | SBreak => Ok (code_irep Id_Break [])
  | SContinue => Ok (code_irep Id_Continue [])
  | SDecl lhs (Some v) =>
      l ← expr_to_irep lhs; v ← expr_to_irep v; Ok (code_irep Id_Decl [l; v])
  | SDecl lhs None => l ← expr_to_irep lhs; Ok (code_irep Id_Decl [l])
  | SExpression e => e ← expr_to_irep e; Ok (code_irep Id_Expression [e])
  | SFor init cond update b =>
      i ← stmt_to_irep init; c ← expr_to_irep cond; u ← stmt_to_irep update; b ← stmt_to_irep b;
      Ok (code_irep Id_For [i; c; u; b])
  | SFunctionCall lhs function arguments =>
      l ← nil_or (option_map expr_to_irep lhs);
      f ← expr_to_irep function;
      args ← sequence (map expr_to_irep arguments);
      Ok (code_irep Id_FunctionCall [l; f; arguments_irep args])
  | SGoto dest =>
      Ok (with_named_sub (code_irep Id_Goto []) Id_Destination (just_string_id dest))
  | SIfthenelse i t e =>
      i ← expr_to_irep i; t ← stmt_to_irep t; e ← nil_or (option_map stmt_to_irep e);
      Ok (code_irep Id_Ifthenelse [i; t; e])
  | SLabel label b =>
      b ← stmt_to_irep b;
      Ok (with_named_sub (code_irep Id_Label [b]) Id_Label (just_string_id label))
  | SReturn e => e ← nil_or (option_map expr_to_irep e); Ok (code_irep Id_Return [e])
  | SSkip => Ok (code_irep Id_Skip [])
  | SSwitch control cases default =>
      switch_arms ← sequence (map case_to_irep cases);
      default_arm ← (match default with
                     | None => Ok []
                     | Some s => b ← stmt_to_irep s;
                                 Ok [switch_default_irep b (stmt_location s)]
                     end);
      c ← expr_to_irep control;
      Ok (code_irep Id_Switch [c; code_irep Id_Block (switch_arms ++ default_arm)])
  | SWhile cond b => c ← expr_to_irep cond; b ← stmt_to_irep b; Ok (code_irep Id_While [c; b])
  end
with case_to_irep (c : SwitchCase) : outcome Irep :=
  match c with
  | mkSwitchCase e s =>
      e ← expr_to_irep e; b ← stmt_to_irep s;
      Ok (irep_with_location (code_irep Id_SwitchCase [e; b]) (stmt_location s))
  end.
End ToIrep.

(** ** Symbols and tables ([irep/symbol.rs], [irep/symbol_table.rs]) *)

(** [struct irep::Symbol] *)
Record IrepSymbol := mkIrepSymbol {
  i_typ : Irep;
  i_value : Irep;
  i_location : Irep;
  i_name : InternedString;
  i_module : InternedString;
  i_base_name : InternedString;
  i_pretty_name : InternedString;
  i_mode : InternedString;
  i_is_type : bool;
  i_is_macro : bool;
  i_is_exported : bool;
  i_is_input : bool;
  i_is_output : bool;
  i_is_state_var : bool;
  i_is_property : bool;
  i_is_static_lifetime : bool;
  i_is_thread_local : bool;
  i_is_lvalue : bool;
  i_is_file_local : bool;
  i_is_extern : bool;
  i_is_volatile : bool;
  i_is_parameter : bool;
  i_is_auxiliary : bool;
  i_is_weak : bool;
}.

(** [struct irep::SymbolTable], its [new] and [insert] *)
Record IrepSymbolTable := mkIrepSymbolTable { i_symbol_table : gmap InternedString IrepSymbol }.
Definition irep_symtab_new : IrepSymbolTable := mkIrepSymbolTable ∅.
Definition irep_symtab_insert (st : IrepSymbolTable) (s : IrepSymbol) : IrepSymbolTable :=
  mkIrepSymbolTable (<[i_name s := s]> (i_symbol_table st)).

Section Symbols.
Context `{VecMap}.

(** [goto_program::Symbol::to_irep] *)
Definition symbol_to_irep (mm : MachineModel) (s : Symbol) : outcome IrepSymbol :=
  t ← type_to_irep mm (sym_typ s);
  v ← (match sym_value s with
       | SVExpr e => expr_to_irep mm e
       | SVStmt s => stmt_to_irep mm s
       | SVNone => Ok irep_nil
       end);
  Ok {|
    i_typ := t;
    i_value := v;
    i_location := location_to_irep (sym_location s);
    i_name := sym_name s;
    i_module := default "" (sym_module s);
    i_base_name := default "" (sym_base_name s);
    i_pretty_name := default "" (sym_pretty_name s);
    i_mode := mode_to_string (sym_mode s);
    i_is_type := is_type s;
    i_is_macro := is_macro s;
    i_is_exported := is_exported s;
    i_is_input := is_input s;
    i_is_output := is_output s;
    i_is_state_var := is_state_var s;
    i_is_property := is_property s;
    i_is_static_lifetime := is_static_lifetime s;
    i_is_thread_local := is_thread_local s;
    i_is_lvalue := sym_is_lvalue s;
    i_is_file_local := is_file_local s;
    i_is_extern := is_extern s;
    i_is_volatile := is_volatile s;
    i_is_parameter := is_parameter s;
    i_is_auxiliary := is_auxiliary s;
    i_is_weak := is_weak s;
  |}.

(** The loop of [goto_program::SymbolTable::to_irep]. *)
Fixpoint insert_ireps (mm : MachineModel) (st : IrepSymbolTable)
    (l : list (InternedString * Symbol)) : outcome IrepSymbolTable :=
  match l with
  | [] => Ok st
  | (_, v) :: l => i ← symbol_to_irep mm v; insert_ireps mm (irep_symtab_insert st i) l
  end.

Definition symtab_to_irep `{InternOrder} (st : SymbolTable) : outcome IrepSymbolTable :=
  insert_ireps (machine_model st) irep_symtab_new (iter st).
End Symbols.

(** ** Well-formed ireps

    Every node has distinct named children, all named by fixed identifiers, so
    that its JSON object has distinct keys. *)

Fixpoint irep_ok (i : Irep) : Prop :=
  match i with
  | mkIrep _ sub named =>
      foldr (fun x P => irep_ok x /\ P) True sub
      /\ NoDup named.*1 /\ Forall (fun k => is_freeform k = false) named.*1
      /\ foldr (fun kx P => irep_ok kx.2 /\ P) True named
  end.

Lemma irep_ok_mk id sub named :
  irep_ok (mkIrep id sub named) <->
  Forall irep_ok sub /\ NoDup named.*1 /\ Forall (fun k => is_freeform k = false) named.*1
  /\ Forall (fun kx => irep_ok kx.2) named.
Proof.
  assert (Hf : forall {A} (P : A -> Prop) l, foldr (fun x Q => P x /\ Q) True l <-> Forall P l).
  { intros A P l. induction l as [|x l IH]; cbn; [by split|]. by rewrite IH, Forall_cons. }
  change (irep_ok (mkIrep id sub named)) with
    (foldr (fun x P => irep_ok x /\ P) True sub
      /\ NoDup named.*1 /\ Forall (fun k => is_freeform k = false) named.*1
      /\ foldr (fun kx P => irep_ok kx.2 /\ P) True named).
  by rewrite (Hf _ irep_ok), (Hf _ (fun kx : IrepId * Irep => irep_ok kx.2)).
Qed.

Section Builders.
Context `{VecMapLaws} (mm : MachineModel).

(** What holds of the entries of a map after an insertion. *)
Definition named_ok (m : list (IrepId * Irep)) : Prop :=
  NoDup m.*1 /\ Forall (fun k => is_freeform k = false) m.*1 /\ Forall (fun kx => irep_ok kx.2) m.

Lemma named_ok_insert k v m :
  is_freeform k = false -> irep_ok v -> named_ok m -> named_ok (vec_insert k v m).
Proof.
  intros Hk Hv (Hnd & Hf & Hall). destruct (decide (k ∈ m.*1)) as [Hin|Hn].
  - apply list_elem_of_fmap in Hin as ([k' w] & -> & Hin). cbn.
    apply list_elem_of_split in Hin as (m1 & m2 & ->).
    assert (Hn : k' ∉ m1.*1).
    { rewrite fmap_app in Hnd. apply NoDup_app in Hnd as (_ & Hd & _). intros Hx.
      apply (Hd k' Hx). cbn. left. }
    rewrite vec_insert_old by done. unfold named_ok. rewrite !fmap_app in *. cbn in *.
    split; [done|]. split; [done|]. apply Forall_app in Hall as [H1 [_ H2]%Forall_cons].
    apply Forall_app. split; [done|]. by constructor.
  - rewrite vec_insert_new by done. unfold named_ok. rewrite !fmap_app. cbn. split; [|split].
    + apply NoDup_app. split; [done|]. split; [|apply NoDup_singleton].
      intros x Hx ->%list_elem_of_singleton. done.
    + apply Forall_app. split; [done|]. by constructor.
    + apply Forall_app. split; [done|]. by constructor.
Qed.

Lemma named_ok_vector_map l :
  Forall (fun kx => is_freeform kx.1 = false /\ irep_ok kx.2) l -> named_ok (vector_map l).
Proof.
  unfold vector_map. rewrite vec_from_iter_insert. intros Hl.
  assert (Hgo : forall m, named_ok m -> named_ok (foldl (fun m kv => vec_insert kv.1 kv.2 m) m l)).
  { induction Hl as [|[k v] l [Hk Hv] Hl IH]; intros m Hm; cbn; [done|].
    apply IH. by apply named_ok_insert. }
  apply Hgo. repeat split; constructor.
Qed.

Lemma irep_ok_vector_map id sub l :
  Forall irep_ok sub -> Forall (fun kx => is_freeform kx.1 = false /\ irep_ok kx.2) l ->
  irep_ok (mkIrep id sub (vector_map l)).
Proof. intros Hs Hl. apply irep_ok_mk. split; [done|]. by apply named_ok_vector_map. Qed.

Lemma irep_ok_with_named_sub i k v :
  irep_ok i -> is_freeform k = false -> irep_ok v -> irep_ok (with_named_sub i k v).
Proof.
  destruct i as [id sub m]. unfold with_named_sub. intros Hi Hk Hv.
  destruct (negb (is_nil v)); [|done]. apply irep_ok_mk in Hi as [Hs Hm].
  apply irep_ok_mk. split; [done|]. by apply named_ok_insert.
Qed.

Lemma irep_ok_with_named_sub_option i k o :
  irep_ok i -> is_freeform k = false -> (forall v, o = Some v -> irep_ok v) ->
  irep_ok (with_named_sub_option i k o).
Proof. destruct o; cbn; [|done]. intros. apply irep_ok_with_named_sub; auto. Qed.

Lemma irep_ok_just_id id : irep_ok (just_id id).
Proof. cbn. repeat split; constructor. Qed.

Lemma irep_ok_just_sub sub : Forall irep_ok sub -> irep_ok (just_sub sub).
Proof. intros Hs. apply irep_ok_mk. repeat split; try done; constructor. Qed.

Lemma irep_ok_option_id {A} (f : A -> Irep) (o : option A) v :
  (forall a, irep_ok (f a)) -> option_map f o = Some v -> irep_ok v.
Proof. intros Hf. destruct o; cbn; [|done]. intros [= <-]. apply Hf. Qed.

End Builders.

(** Reduce [irep_ok] of a literal irep to its parts. *)
Ltac irep_parts0 :=
  repeat match goal with
  | |- Forall _ [] => constructor
  | |- Forall _ (_ :: _) => constructor; cbn beta
  | |- _ /\ _ => split
  | |- is_freeform _ = false => reflexivity
  | |- irep_ok (just_id _) => apply irep_ok_just_id
  | |- irep_ok (just_sub _) => apply irep_ok_just_sub
  | |- irep_ok (just_int_id _) => apply irep_ok_just_id
  | |- irep_ok (just_hex_id _) => apply irep_ok_just_id
  | |- irep_ok (just_string_id _) => apply irep_ok_just_id
  | |- irep_ok irep_one => apply irep_ok_just_id
  | |- irep_ok irep_zero => apply irep_ok_just_id
  | |- irep_ok irep_nil => apply irep_ok_just_id
  | |- irep_ok (just_named_sub _) => unfold just_named_sub
  | |- irep_ok (mkIrep _ _ (vector_map _)) => apply irep_ok_vector_map; cbn [fst snd]
  | |- irep_ok (with_named_sub _ _ _) => apply irep_ok_with_named_sub
  | |- irep_ok (with_named_sub_option _ _ (option_map _ _)) =>
      apply irep_ok_with_named_sub_option; [| |intros ? ; apply irep_ok_option_id; intros ?]
  | |- irep_ok (snd _) => cbn [snd]
  | |- is_freeform (fst _) = false => cbn [fst]
  end; try done.

Section Literals.
Context `{VecMapLaws} (mm : MachineModel).

Lemma irep_ok_width id w : irep_ok (width_irep id w).
Proof. unfold width_irep. irep_parts0. Qed.

Lemma irep_ok_location l : irep_ok (location_to_irep l).
Proof. destruct l; unfold location_to_irep; irep_parts0. Qed.

Lemma irep_ok_with_location i l : irep_ok i -> irep_ok (irep_with_location i l).
Proof.
  intros Hi. unfold irep_with_location. destruct (negb (is_none l)); [|done].
  apply irep_ok_with_named_sub; [done|done|apply irep_ok_location].
Qed.

Lemma irep_ok_ssize_constant i : irep_ok (ssize_constant_irep mm i).
Proof. 
  unfold ssize_constant_irep, ssize_irep. irep_parts0; [|apply irep_ok_width].
  apply irep_ok_with_location. irep_parts0.
 Qed.
End Literals.

Ltac irep_parts :=
  irep_parts0; repeat (match goal with
  | |- irep_ok (irep_with_location _ _) => apply irep_ok_with_location
  | |- irep_ok (width_irep _ _) => apply irep_ok_width
  | |- irep_ok (ssize_constant_irep _ _) => apply irep_ok_ssize_constant
  end; irep_parts0).

Section Outputs.
Context `{VecMapLaws} (mm : MachineModel).

Lemma sequence_irep_ok {A} (f : A -> outcome Irep) l r :
  Forall (fun a => forall i, f a = Ok i -> irep_ok i) l -> sequence (map f l) = Ok r ->
  Forall irep_ok r.
Proof.
  intros Hl Hs%map_outcome_ok. induction Hs as [|a i l r Ha Hs IH]; [constructor|].
  apply Forall_cons in Hl as [H1 H2]. constructor; auto.
Qed.

Lemma component_to_irep_ok c :
  component_all (fun t => forall i, type_to_irep mm t = Ok i -> irep_ok i) c ->
  forall i, component_to_irep mm c = Ok i -> irep_ok i.
Proof. destruct c; cbn; intros Hc i Hi; outcome_inv; irep_parts. by apply Hc. Qed.

Lemma parameter_to_irep_ok p :
  parameter_all (fun t => forall i, type_to_irep mm t = Ok i -> irep_ok i) p ->
  forall i, parameter_to_irep mm p = Ok i -> irep_ok i.
Proof. destruct p; cbn; intros Hc i Hi; outcome_inv; irep_parts. by apply Hc. Qed.

Lemma type_to_irep_ok t i : type_to_irep mm t = Ok i -> irep_ok i.
Proof.
  revert i. induction t using Type_rect'; intros i; cbn [type_to_irep].
  all: try (destruct c); intros Hi; outcome_inv;
    unfold array_irep, code_type_irep, float_irep, incomplete_irep, aggregate_irep, tag_irep,
      ssize_irep; irep_parts; try by apply IHt.
  all: eapply sequence_irep_ok; [|eassumption]; eapply Forall_impl; [eassumption|].
  - apply parameter_to_irep_ok.
  - apply component_to_irep_ok.
  - apply component_to_irep_ok.
  - apply parameter_to_irep_ok.
Qed.

Abbreviation expr_good := (fun e => forall i, expr_to_irep mm e = Ok i -> irep_ok i).
Abbreviation stmt_good := (fun s => forall i, stmt_to_irep mm s = Ok i -> irep_ok i).

Lemma irep_ok_op id sub : Forall irep_ok sub -> irep_ok (op_irep id sub).
Proof. intros. unfold op_irep. irep_parts. Qed.

Lemma irep_ok_code k ops : Forall irep_ok ops -> irep_ok (code_irep k ops).
Proof. intros. unfold code_irep. irep_parts. Qed.

Lemma irep_ok_side_effect k ops : Forall irep_ok ops -> irep_ok (side_effect_irep k ops).
Proof. intros. unfold side_effect_irep. irep_parts. Qed.

Lemma irep_ok_constant v : irep_ok v -> irep_ok (constant_irep v).
Proof. intros. unfold constant_irep. irep_parts. Qed.

Lemma irep_ok_arguments l : Forall irep_ok l -> irep_ok (arguments_irep l).
Proof. intros. unfold arguments_irep. irep_parts. Qed.

Lemma nil_or_ok {A} (f : A -> outcome Irep) o i :
  option_all (fun a => forall i, f a = Ok i -> irep_ok i) o ->
  nil_or (option_map f o) = Ok i -> irep_ok i.
Proof. destruct o; cbn; [auto|]. intros _ [= <-]. apply irep_ok_just_id. Qed.

#[local] Ltac fold_irep :=
  fold (expr_to_irep mm) in *; fold (stmt_to_irep mm) in *; fold (case_to_irep mm) in *.

#[local] Ltac node_ok :=
  outcome_inv; destruct_and?;
  repeat match goal with
  | |- irep_ok (op_irep _ _) => apply irep_ok_op
  | |- irep_ok (code_irep _ _) => apply irep_ok_code
  | |- irep_ok (side_effect_irep _ _) => apply irep_ok_side_effect
  | |- irep_ok (constant_irep _) => apply irep_ok_constant
  | |- irep_ok (arguments_irep _) => apply irep_ok_arguments
  | |- irep_ok (switch_default_irep _ _) => unfold switch_default_irep
  | |- Forall _ (_ ++ _) => apply Forall_app; split
  | |- irep_ok (if ?b then _ else _) => destruct b
  | _ => progress irep_parts
  end;
  try solve [eapply sequence_irep_ok; eassumption];
  try match goal with
  | IH : forall i, _ = Ok i -> irep_ok i |- irep_ok _ => solve [apply IH; first [reflexivity | assumption]]
  | |- irep_ok _ => solve [eapply nil_or_ok; eassumption]
  end.

Lemma value_to_irep_ok v i :
  value_all expr_good stmt_good v -> value_to_irep mm v = Ok i -> irep_ok i.
Proof.
  destruct v; cbn [value_all value_to_irep]; intros Hv Hi; fold_irep; try by node_ok.
  - destruct c; node_ok.
  - destruct op; node_ok.
Qed.

Lemma body_to_irep_ok b i :
  body_all expr_good stmt_good b -> body_to_irep mm b = Ok i -> irep_ok i.
Proof.
  destruct b; cbn [body_all body_to_irep]; intros Hv Hi; fold_irep; try by node_ok.
  - destruct value; node_ok.
  - outcome_inv.
    assert (Hcs : Forall irep_ok a).
    { eapply sequence_irep_ok; [|exact E]. destruct Hv as (_ & Hcs & _).
      eapply Forall_impl; [exact Hcs|]. intros [e s] [He Hs] j. cbn. intros Hj. node_ok. }
    destruct default as [s|]; cbn [option_all] in *; node_ok.
Qed.

Lemma expr_stmt_to_irep_ok :
  (forall e i, expr_to_irep mm e = Ok i -> irep_ok i)
  /\ (forall s i, stmt_to_irep mm s = Ok i -> irep_ok i).
Proof.
  apply ast_mutual_ind.
  - intros v t l Hv i. cbn [expr_to_irep]. unfold with_type. intros Hi. outcome_inv.
    irep_parts; [|by eapply type_to_irep_ok]. by eapply value_to_irep_ok.
  - intros b l Hb i. cbn [stmt_to_irep]. intros Hi. outcome_inv. irep_parts.
    by eapply body_to_irep_ok.
Qed.
End Outputs.

(** ** When the conversion succeeds *)

(** No padding component of the type has zero bits. *)
Fixpoint paddings_ok (t : Type_) : bool :=
  let component c :=
    match c with Field _ t => paddings_ok t | Padding _ bits => (0 <? bits)%N end in
  let parameter p := match p with mkParameter t _ _ => paddings_ok t end in
  match t with
  | TArray t _ | TCBitField t _ | TFlexibleArray t | TInfiniteArray t | TPointer t
  | TVector t _ => paddings_ok t
  | TCode ps r | TVariadicCode ps r => forallb parameter ps && paddings_ok r
  | TStruct _ cs | TUnion _ cs => forallb component cs
  | TBool | TCInteger _ | TConstructor | TDouble | TEmpty | TFloat | TIncompleteStruct _
  | TIncompleteUnion _ | TSignedbv _ | TStructTag _ | TUnionTag _ | TUnsignedbv _ => true
  end.

Lemma is_ok_bind {A B} (m : outcome A) (f : A -> outcome B) (b : bool) :
  (forall a, is_ok (f a) = b) -> is_ok (m ≫= f) = is_ok m && b.
Proof. destruct m; cbn; auto. Qed.

Lemma is_ok_sequence {A B} (f : A -> outcome B) (g : A -> bool) l :
  Forall (fun a => is_ok (f a) = g a) l -> is_ok (sequence (map f l)) = forallb g l.
Proof.
  induction 1 as [|a l Ha _ IH]; cbn; [done|]. rewrite <- Ha, <- IH.
  rewrite (is_ok_bind _ _ (is_ok (sequence (map f l)))); [done|].
  intros x. rewrite (is_ok_bind _ _ true); [by rewrite andb_true_r|done].
Qed.

Lemma is_ok_nil_or {A} (f : A -> outcome Irep) (g : A -> bool) o :
  option_all (fun a => is_ok (f a) = g a) o ->
  is_ok (nil_or (option_map f o)) = match o with None => true | Some a => g a end.
Proof. by destruct o. Qed.

Section Total.
Context `{VecMap} (mm : MachineModel).

(** Compute [is_ok] of a sequence of binds. *)
#[local] Ltac ok_step :=
  repeat match goal with
  | |- is_ok (Ok _) = _ => reflexivity
  | |- is_ok (with_type _ _ _) = _ => unfold with_type
  | |- is_ok (mbind _ _) = ?x && ?y => rewrite (is_ok_bind _ _ y); [f_equal|intros ?]
  | |- is_ok (mbind _ _) = _ => rewrite (is_ok_bind _ _ true); [rewrite andb_true_r|intros ?]
  end; try assumption; try solve [by apply is_ok_sequence]; try solve [by apply is_ok_nil_or].

Lemma type_to_irep_is_ok t : is_ok (type_to_irep mm t) = paddings_ok t.
Proof.
  induction t using Type_rect'; cbn [type_to_irep paddings_ok]; try (by destruct c); ok_step.
  all: apply is_ok_sequence; eapply Forall_impl; [eassumption|].
  - intros [t' i b]. cbn. intros. by ok_step.
  - intros [n t'|n b]; cbn; intros; [by ok_step|]. by destruct (0 <? b)%N.
  - intros [n t'|n b]; cbn; intros; [by ok_step|]. by destruct (0 <? b)%N.
  - intros [t' i b]. cbn. intros. by ok_step.
Qed.

Abbreviation expr_same := (fun e => is_ok (expr_to_irep mm e) = (expr_types_all paddings_ok) e).
Abbreviation stmt_same := (fun s => is_ok (stmt_to_irep mm s) = (stmt_types_all paddings_ok) s).

#[local] Ltac fold_irep :=
  fold (expr_to_irep mm) in *; fold (stmt_to_irep mm) in *; fold (case_to_irep mm) in *.

Lemma value_to_irep_is_ok v :
  value_all expr_same stmt_same v -> is_ok (value_to_irep mm v) = (value_types_all paddings_ok) v.
Proof.
  destruct v; cbn [value_all value_to_irep value_types_all]; intros Hv; fold_irep;
    fold (expr_types_all paddings_ok) (stmt_types_all paddings_ok); destruct_and?; try solve [ok_step].
  - by destruct c.
  - destruct op; ok_step.
Qed.

Lemma body_to_irep_is_ok b :
  body_all expr_same stmt_same b -> is_ok (body_to_irep mm b) = (body_types_all paddings_ok) b.
Proof.
  destruct b; cbn [body_all body_to_irep body_types_all]; intros Hv; fold_irep;
    fold (expr_types_all paddings_ok) (stmt_types_all paddings_ok) (case_types_all paddings_ok); destruct_and?; try solve [ok_step].
  - destruct value; ok_step.
  - ok_step.
    + apply is_ok_sequence. eapply Forall_impl; [eassumption|]. intros [e s] [He Hs].
      cbn [case_to_irep case_types_all]. fold_irep. fold (expr_types_all paddings_ok) (stmt_types_all paddings_ok). ok_step.
    + destruct default; [|done]. cbn in *. ok_step.
Qed.

Lemma expr_stmt_to_irep_is_ok :
  (forall e, is_ok (expr_to_irep mm e) = (expr_types_all paddings_ok) e)
  /\ (forall s, is_ok (stmt_to_irep mm s) = (stmt_types_all paddings_ok) s).
Proof.
  apply ast_mutual_ind.
  - intros v t l Hv%value_to_irep_is_ok. cbn [expr_to_irep expr_types_all]. fold_irep.
    rewrite (is_ok_bind _ _ (paddings_ok t)).
    + rewrite andb_comm. f_equal. exact Hv.
    + intros i. unfold with_type. rewrite <- type_to_irep_is_ok. by destruct (type_to_irep mm t).
  - intros b l Hb%body_to_irep_is_ok. cbn [stmt_to_irep stmt_types_all].
    rewrite (is_ok_bind _ _ true), andb_true_r by done. exact Hb.
Qed.
End Total.
