(* ===== verification/IrepRoundTrip.v ===== *)
(** * Reading ireps back: what [to_irep] keeps

    [type_of_irep] reads the irep of a type.  [type_read] shows that it inverts
    [Type::to_irep] up to the canonical form of a type on the machine, which is
    therefore all that the serialisation keeps of a type.  The file ends with the
    properties of the conversion as a whole. *)

From S2P Require Import Prelude CbmcString MachineModel Location Typ Ast SymbolTable Expr Symbol.
From S2P Require Import IrepId Irep ToIrep.

(** ** What the conversion of types keeps

    Two types have one irep exactly when they have one canonical form on the
    machine: the C integer types are bit vectors of the machine's widths, and a
    flexible array is an array of length zero. *)

Definition canon_int (mm : MachineModel) (c : CIntType) : Type_ :=
  match c with
  | CBool => TCInteger CBool
  | CChar =>
      if char_is_unsigned mm then TUnsignedbv (char_width mm) else TSignedbv (char_width mm)
  | CInt => TSignedbv (int_width mm)
  | CSizeT => TUnsignedbv (pointer_width mm)
  | CSSizeT => TSignedbv (pointer_width mm)
  end.

Fixpoint canon (mm : MachineModel) (t : Type_) : Type_ :=
  match t with
  | TArray t n => TArray (canon mm t) n
  | TCBitField t w => TCBitField (canon mm t) w
  | TCInteger c => canon_int mm c
  | TCode ps r => TCode (map (canon_parameter mm) ps) (canon mm r)
  | TFlexibleArray t => TArray (canon mm t) 0
  | TInfiniteArray t => TInfiniteArray (canon mm t)
  | TPointer t => TPointer (canon mm t)
  | TStruct tag cs => TStruct tag (map (canon_component mm) cs)
  | TUnion tag cs => TUnion tag (map (canon_component mm) cs)
  | TVariadicCode ps r => TVariadicCode (map (canon_parameter mm) ps) (canon mm r)
  | TVector t n => TVector (canon mm t) n
  | TBool | TConstructor | TDouble | TEmpty | TFloat | TIncompleteStruct _ | TIncompleteUnion _
  | TSignedbv _ | TStructTag _ | TUnionTag _ | TUnsignedbv _ => t
  end
with canon_component (mm : MachineModel) (c : DatatypeComponent) : DatatypeComponent :=
  match c with Field n t => Field n (canon mm t) | Padding n b => Padding n b end
with canon_parameter (mm : MachineModel) (p : Parameter_) : Parameter_ :=
  match p with mkParameter t i b => mkParameter (canon mm t) i b end.

(** Reading an irep back.  The children are read first, by structural recursion. *)
Definition int_of (i : Irep) : option Z :=
  match irep_id i with Id_FreeformInteger z | Id_FreeformHexInteger z => Some z | _ => None end.
Definition string_of (i : Irep) : option string :=
  match irep_id i with Id_FreeformString s => Some s | _ => None end.
Definition get_int (k : IrepId) (m : list (IrepId * Irep)) : option N :=
  i ← assoc_get k m; Z.to_N <$> int_of i.
Definition get_string (k : IrepId) (m : list (IrepId * Irep)) : option string :=
  i ← assoc_get k m; string_of i.
Definition has (k : IrepId) (m : list (IrepId * Irep)) : bool :=
  match assoc_get k m with Some _ => true | None => false end.

Fixpoint type_of_irep (i : Irep) : option Type_ :=
  match i with
  | mkIrep id sub named =>
      let subs := map type_of_irep sub in
      let types := map (fun kx => (kx.1, type_of_irep kx.2)) named in
      let comps := map (fun kx => (kx.1, components_of_irep kx.2)) named in
      let params := map (fun kx => (kx.1, parameters_of_irep kx.2)) named in
      let elem := mjoin (head subs) in
      match id with
      | Id_Array =>
          t ← elem; size ← assoc_get Id_Size named;
          match irep_id size with
          | Id_Infinity => Some (TInfiniteArray t)
          | _ => TArray t <$> get_int Id_Value (irep_named_sub size)
          end
      | Id_Vector =>
          t ← elem; size ← assoc_get Id_Size named;
          TVector t <$> get_int Id_Value (irep_named_sub size)
      | Id_CBitField => t ← elem; TCBitField t <$> get_int Id_Width named
      | Id_Pointer => TPointer <$> elem
      | Id_Bool => Some TBool
      | Id_CBool => Some (TCInteger CBool)
      | Id_Signedbv => TSignedbv <$> get_int Id_Width named
      | Id_Unsignedbv => TUnsignedbv <$> get_int Id_Width named
      | Id_Code =>
          ps ← mjoin (assoc_get Id_Parameters params);
          r ← mjoin (assoc_get Id_ReturnType types);
          Some (if (ps.2 : bool) then TVariadicCode ps.1 r else TCode ps.1 r)
      | Id_Constructor => Some TConstructor
      | Id_Floatbv =>
          w ← get_int Id_Width named; Some (if (w =? 64)%N then TDouble else TFloat)
      | Id_Empty => Some TEmpty
      | Id_Struct =>
          tag ← get_string Id_Tag named;
          if has Id_Incomplete named then Some (TIncompleteStruct tag)
          else TStruct tag <$> mjoin (assoc_get Id_Components comps)
      | Id_Union =>
          tag ← get_string Id_Tag named;
          if has Id_Incomplete named then Some (TIncompleteUnion tag)
          else TUnion tag <$> mjoin (assoc_get Id_Components comps)
      | Id_StructTag => TStructTag <$> get_string Id_Identifier named
      | Id_UnionTag => TUnionTag <$> get_string Id_Identifier named
      | _ => None
      end
  end
with components_of_irep (i : Irep) : option (list DatatypeComponent) :=
  match i with mkIrep _ sub _ => mapM id (map component_of_irep sub) end
with component_of_irep (i : Irep) : option DatatypeComponent :=
  match i with
  | mkIrep _ _ named =>
      let types := map (fun kx => (kx.1, type_of_irep kx.2)) named in
      name ← get_string Id_Name named;
      if has Id_CIsPadding named
      then t ← assoc_get Id_Type named; Padding name <$> get_int Id_Width (irep_named_sub t)
      else Field name <$> mjoin (assoc_get Id_Type types)
  end
with parameters_of_irep (i : Irep) : option (list Parameter_ * bool) :=
  match i with
  | mkIrep _ sub named =>
      ps ← mapM id (map parameter_of_irep sub); Some (ps, has Id_Ellipsis named)
  end
with parameter_of_irep (i : Irep) : option Parameter_ :=
  match i with
  | mkIrep _ _ named =>
      let types := map (fun kx => (kx.1, type_of_irep kx.2)) named in
      t ← mjoin (assoc_get Id_Type types);
      Some (mkParameter t (get_string Id_CIdentifier named) (get_string Id_CBaseName named))
  end.

(** *** The round trip *)

Ltac distinct_keys := cbn; apply (bool_decide_unpack _); vm_compute; exact Logic.I.

Section RoundTrip.
Context `{VecMapLaws} (mm : MachineModel).

Lemma mapM_read {A B} (f : A -> outcome Irep) (g : A -> B) (d : Irep -> option B) l r :
  Forall (fun a => forall i, f a = Ok i -> d i = Some (g a)) l ->
  sequence (map f l) = Ok r -> mapM id (map d r) = Some (map g l).
Proof.
  intros Hl Hs%map_outcome_ok. induction Hs as [|a i l r Ha Hs IH]; [done|].
  apply Forall_cons in Hl as [H1 H2]. cbn. rewrite (H1 i Ha). cbn. by rewrite IH.
Qed.

(** Open literal maps and read them. *)
#[local] Ltac read :=
  repeat first
    [ rewrite vector_map_distinct by distinct_keys
    | rewrite with_named_sub_new by (reflexivity || distinct_keys) ];
  cbn.

Lemma ssize_constant_read i :
  irep_id (ssize_constant_irep mm i) = Id_Constant
  /\ get_int Id_Value (irep_named_sub (ssize_constant_irep mm i)) = Some (Z.to_N i).
Proof.
  unfold ssize_constant_irep, irep_with_location, ssize_irep, width_irep.
  cbn [is_none negb]. by read.
Qed.

Lemma parameter_read p :
  parameter_all (fun t => forall i, type_to_irep mm t = Ok i -> type_of_irep i = Some (canon mm t)) p ->
  forall i, parameter_to_irep mm p = Ok i -> parameter_of_irep i = Some (canon_parameter mm p).
Proof.
  destruct p as [t [n|] [b|]]; cbn [parameter_to_irep]; fold (type_to_irep mm);
    intros Ht i Hi;
    outcome_inv; cbn [option_map with_named_sub_option]; read; by rewrite (Ht _ E).
Qed.

Lemma component_read c :
  component_all (fun t => forall i, type_to_irep mm t = Ok i -> type_of_irep i = Some (canon mm t)) c ->
  forall i, component_to_irep mm c = Ok i -> component_of_irep i = Some (canon_component mm c).
Proof.
  destruct c as [n t|n b]; cbn [component_to_irep]; fold (type_to_irep mm); cbn [component_all];
    intros Ht i Hi; outcome_inv; unfold just_named_sub, width_irep; read.
  - by rewrite (Ht _ eq_refl).
  - by rewrite N2Z.id.
Qed.

(** Arrays and vectors whose size is a constant. *)
Lemma sized_read e t n :
  type_of_irep e = Some t ->
  type_of_irep (array_irep Id_Array e (ssize_constant_irep mm (Z.of_N n))) = Some (TArray t n)
  /\ type_of_irep (array_irep Id_Vector e (ssize_constant_irep mm (Z.of_N n))) = Some (TVector t n).
Proof.
  intros He. unfold array_irep. rewrite !vector_map_distinct by distinct_keys.
  destruct (ssize_constant_read (Z.of_N n)) as [Hid Hn]. rewrite N2Z.id in Hn.
  revert Hid Hn. generalize (ssize_constant_irep mm (Z.of_N n)). intros size Hid Hn.
  cbn. by rewrite He, Hid, Hn.
Qed.

Lemma members_read cs r :
  Forall (component_all (fun t => forall i, type_to_irep mm t = Ok i ->
                                            type_of_irep i = Some (canon mm t))) cs ->
  sequence (map (component_to_irep mm) cs) = Ok r ->
  components_of_irep (just_sub r) = Some (map (canon_component mm) cs).
Proof.
  intros Hcs Hr. cbn. eapply mapM_read; [|exact Hr].
  eapply Forall_impl; [exact Hcs|]. apply component_read.
Qed.

Lemma arguments_read ps r :
  Forall (parameter_all (fun t => forall i, type_to_irep mm t = Ok i ->
                                            type_of_irep i = Some (canon mm t))) ps ->
  sequence (map (parameter_to_irep mm) ps) = Ok r ->
  mapM id (map parameter_of_irep r) = Some (map (canon_parameter mm) ps).
Proof.
  intros Hps Hr. eapply mapM_read; [|exact Hr].
  eapply Forall_impl; [exact Hps|]. apply parameter_read.
Qed.

Lemma code_read params named ps t r rt :
  mapM id (map parameter_of_irep params) = Some ps -> type_of_irep rt = Some r ->
  type_of_irep (mkIrep Id_Code [] [(Id_Parameters, mkIrep t params named); (Id_ReturnType, rt)])
  = Some (if has Id_Ellipsis named then TVariadicCode ps r else TCode ps r).
Proof. intros Hps Hr. cbn. rewrite Hps. cbn. by rewrite Hr. Qed.

Lemma type_read t i : type_to_irep mm t = Ok i -> type_of_irep i = Some (canon mm t).
Proof.
  revert i. induction t using Type_rect'; intros i; cbn [type_to_irep];
    fold (component_to_irep mm); fold (parameter_to_irep mm); fold (type_to_irep mm);
    try destruct c; intros Hi; outcome_inv;
    unfold width_irep, float_irep, incomplete_irep, aggregate_irep, tag_irep, code_type_irep,
      ssize_irep; try rewrite vector_map_distinct by distinct_keys.
  all: try (cbn; rewrite ?N2Z.id; done).
  all: try (cbn; rewrite ?N2Z.id; by rewrite (IHt _ eq_refl)).
  - by apply sized_read, IHt.
  - unfold width_irep. by destruct (char_is_unsigned mm) eqn:Hc; cbn; rewrite Hc, N2Z.id.
  - unfold width_irep. rewrite vector_map_distinct by distinct_keys. cbn. by rewrite N2Z.id.
  - unfold just_sub. rewrite (code_read _ _ _ _ _ _ (arguments_read _ _ ltac:(done) E) (IHt _ eq_refl)).
    done.
  - by apply (sized_read _ _ 0), IHt.
  - unfold array_irep, width_irep. change (just_id Id_Infinity) with (mkIrep Id_Infinity [] []).
    rewrite (vector_map_distinct (V := Irep) [(Id_Width, _)]) by distinct_keys.
    rewrite with_named_sub_new by (reflexivity || distinct_keys).
    rewrite vector_map_distinct by distinct_keys. cbn. by rewrite (IHt _ eq_refl).
  - pose proof (members_read cs a ltac:(done) E) as Hm. cbn in Hm |- *. by rewrite Hm.
  - pose proof (members_read cs a ltac:(done) E) as Hm. cbn in Hm |- *. by rewrite Hm.
  - unfold just_sub. rewrite with_named_sub_new by (reflexivity || distinct_keys).
    rewrite (code_read _ _ _ _ _ _ (arguments_read _ _ ltac:(done) E) (IHt _ eq_refl)). done.
  - by apply sized_read, IHt.
Qed.
End RoundTrip.

Section Consequences.
Context `{VecMapLaws} (mm : MachineModel).

Lemma sequence_map_ext {A B} (f g : A -> outcome B) l :
  Forall (fun a => f a = g a) l -> sequence (map f l) = sequence (map g l).
Proof. intros Hl. f_equal. by apply map_ext_Forall. Qed.

(** The canonical form has the same irep. *)
Lemma canon_to_irep t : type_to_irep mm (canon mm t) = type_to_irep mm t.
Proof.
  induction t using Type_rect'; cbn [canon type_to_irep];
    fold (component_to_irep mm); fold (parameter_to_irep mm); fold (type_to_irep mm);
    fold (canon_component mm); fold (canon_parameter mm); try done; try by rewrite IHt.
  - destruct c; cbn; try done. by destruct (char_is_unsigned mm) eqn:E.
  - rewrite map_map, IHt. f_equal. apply sequence_map_ext. eapply Forall_impl; [eassumption|].
    intros [t' i b] E. cbn [canon_parameter parameter_to_irep]. fold (type_to_irep mm).
    cbn in E. fold (canon mm) in *. by rewrite E.
  - rewrite map_map. f_equal. apply sequence_map_ext. eapply Forall_impl; [eassumption|].
    intros [n' t'|n' b'] E; [|done]. cbn [canon_component component_to_irep].
    fold (type_to_irep mm). fold (canon mm). by rewrite E.
  - rewrite map_map. f_equal. apply sequence_map_ext. eapply Forall_impl; [eassumption|].
    intros [n' t'|n' b'] E; [|done]. cbn [canon_component component_to_irep].
    fold (type_to_irep mm). fold (canon mm). by rewrite E.
  - rewrite map_map, IHt. f_equal. apply sequence_map_ext. eapply Forall_impl; [eassumption|].
    intros [t' i b] E. cbn [canon_parameter parameter_to_irep]. fold (type_to_irep mm).
    cbn in E. fold (canon mm) in *. by rewrite E.
Qed.

Lemma type_irep_not_nil t i : type_to_irep mm t = Ok i -> is_nil i = false.
Proof.
  intros Hi%type_read. unfold is_nil. apply irep_id_eqb_ne. intros E.
  destruct i as [id sub named]. cbn in E. subst id. discriminate Hi.
Qed.

Lemma lookup_with_named_sub i k v :
  irep_ok i -> is_freeform k = false -> irep_ok v -> is_nil v = false ->
  irep_lookup (with_named_sub i k v) k = Some v.
Proof.
  intros Hi Hk Hv Hn. pose proof (irep_ok_with_named_sub i k v Hi Hk Hv) as Hok.
  destruct i as [id sub m]. unfold with_named_sub in *. rewrite Hn in *. cbn [negb] in *.
  apply irep_ok_mk in Hok as (_ & Hnd & _). unfold irep_lookup. cbn [irep_named_sub].
  apply vec_get_spec; [done|]. destruct (decide (k ∈ m.*1)) as [Hin|Hout].
  - apply list_elem_of_fmap in Hin as ([k' w] & -> & Hin). cbn [fst] in *.
    apply list_elem_of_split in Hin as (m1 & m2 & ->). apply irep_ok_mk in Hi as (_ & Hnd' & _).
    assert (Hn1 : k' ∉ m1.*1).
    { rewrite fmap_app in Hnd'. apply NoDup_app in Hnd' as (_ & Hd & _). intros Hx.
      apply (Hd k' Hx). cbn. left. }
    rewrite (vec_insert_old k' v w m1 m2 Hn1), elem_of_app, elem_of_cons. auto.
  - rewrite vec_insert_new by done. rewrite elem_of_app, list_elem_of_singleton. by right.
Qed.

Lemma expr_irep_type e i :
  expr_to_irep mm e = Ok i ->
  exists ti, type_to_irep mm (typ e) = Ok ti /\ irep_lookup i Id_Type = Some ti.
Proof.
  destruct e as [v t l]. cbn [expr_to_irep]. fold (value_to_irep mm). intros Hi. outcome_inv.
  unfold with_type in Hi. outcome_inv. cbn [typ]. eexists. split; [done|].
  apply lookup_with_named_sub; [|done|by eapply type_to_irep_ok|by eapply type_irep_not_nil].
  apply irep_ok_with_location. eapply value_to_irep_ok; [|exact E].
  destruct (expr_stmt_to_irep_ok mm) as [He Hs].
  assert (Hall : forall v, value_all (fun e => forall i, expr_to_irep mm e = Ok i -> irep_ok i)
                   (fun s => forall i, stmt_to_irep mm s = Ok i -> irep_ok i) v).
  { intros []; cbn; repeat split; try apply Forall_forall; intros; eauto. }
  apply Hall.
Qed.
End Consequences.

(** ** Properties *)

(** C7. Reading the irep of a type back gives the type in its canonical form: the
    conversion keeps everything (tags, fields, padding, parameter names, sizes)
    except which C integer name a bit vector had, and that a flexible array is
    not an array of length zero. *)
Theorem type_irep_roundtrip `{VecMapLaws} (mm : MachineModel) (t : Type_) (i : Irep) :
  type_to_irep mm t = Ok i -> type_of_irep i = Some (canon mm t).
Proof. apply type_read. Qed.

Definition sample_fn_type : Type_ :=
  TCode [mkParameter (TPointer (TStruct "s" [Field "a" c_int; Padding "p" 32])) (Some "x") None]
    size_t.

Lemma type_irep_roundtrip_witness :
  exists i, type_to_irep x86_64 sample_fn_type = Ok i
    /\ type_of_irep i = Some (canon x86_64 sample_fn_type).
Proof.
  eexists. split; [vm_compute; reflexivity|].
  apply (type_irep_roundtrip x86_64 sample_fn_type). vm_compute. reflexivity.
Defined.

(** Two types are serialised to one irep exactly when their canonical forms on the
    machine agree. *)
Theorem type_irep_kernel `{VecMapLaws} (mm : MachineModel) (a b : Type_) (i j : Irep) :
  type_to_irep mm a = Ok i -> type_to_irep mm b = Ok j -> i = j <-> canon mm a = canon mm b.
Proof.
  intros Ha Hb. split.
  - intros ->. apply type_read in Ha, Hb. rewrite Ha in Hb. by injection Hb.
  - intros E. rewrite <- canon_to_irep, E, canon_to_irep, Hb in Ha. by injection Ha.
Qed.

Lemma type_irep_kernel_witness :
  exists i j, type_to_irep x86_64 c_int = Ok i /\ type_to_irep x86_64 (TSignedbv 32) = Ok j
    /\ (i = j <-> canon x86_64 c_int = canon x86_64 (TSignedbv 32)).
Proof.
  do 2 eexists. split; [reflexivity|]. split; [reflexivity|].
  apply (type_irep_kernel x86_64 c_int (TSignedbv 32)); reflexivity.
Defined.

(** The conversion of a statement (and likewise of an expression or a type) fails
    exactly when some type in it has a padding component of zero bits: there the
    size of the padding is not a legal integer type. *)
Theorem to_irep_total `{VecMap} (mm : MachineModel) (e : Expr) (s : Stmt) (t : Type_) :
  is_ok (expr_to_irep mm e) = expr_types_all paddings_ok e
  /\ is_ok (stmt_to_irep mm s) = stmt_types_all paddings_ok s
  /\ is_ok (type_to_irep mm t) = paddings_ok t.
Proof.
  destruct (expr_stmt_to_irep_is_ok mm) as [He Hs].
  split; [apply He|]. split; [apply Hs | apply type_to_irep_is_ok].
Qed.

(** Every irep the conversion produces has, at every node, distinct named children
    all of whose names are fixed identifiers, so its JSON objects have no repeated
    keys; and the irep of an expression carries the irep of its type. *)
Theorem to_irep_wellformed `{VecMapLaws} (mm : MachineModel) (e : Expr) (i : Irep) :
  expr_to_irep mm e = Ok i ->
  irep_ok i /\ exists ti, type_to_irep mm (typ e) = Ok ti /\ irep_lookup i Id_Type = Some ti.
Proof.
  intros Hi. split; [by eapply (proj1 (expr_stmt_to_irep_ok mm)) | by apply expr_irep_type].
Qed.

Lemma to_irep_wellformed_witness :
  exists i, expr_to_irep x86_64 (expr (EIntConstant 7) c_int) = Ok i
    /\ irep_ok i /\ exists ti, type_to_irep x86_64 c_int = Ok ti /\ irep_lookup i Id_Type = Some ti.
Proof.
  eexists. split; [vm_compute; reflexivity|].
  apply (to_irep_wellformed x86_64 (expr (EIntConstant 7) c_int)). vm_compute. reflexivity.
Defined.
