(* ===== verification/Serialize.v ===== *)
(** * Serialisation of ireps and symbol tables ([cbmc/src/irep/serialize.rs])

    The [Serialize] implementations drive a serde [Serializer] (a third-party
    trait).  What they determine is the sequence of calls, so serialisation is
    modelled by its trace: the tokens of the serde data model, as in the unit
    tests of the source.  The main result is that the "streaming optimization"
    for the goto symbol table, which converts one symbol at a time, writes the
    same trace as converting the whole table first, except for the length hint
    of one map. *)

From S2P Require Import Prelude CbmcString MachineModel Location Typ Ast SymbolTable Expr Symbol.
From S2P Require Import IrepId Irep ToIrep.

(** The calls of the serde data model that occur. *)
Inductive Token :=
| TokMap (len : option nat)
| TokMapEnd
| TokSeq (len : option nat)
| TokSeqEnd
| TokString (s : string)
| TokBool (b : bool).

(** [serializer.serialize_map(None)?], the entries, [end()] *)
Definition serialize_map (len : option nat) (entries : list (list Token * list Token)) :
    list Token :=
  TokMap len :: concat (map (fun kv => kv.1 ++ kv.2) entries) ++ [TokMapEnd].

(** [Vec]'s implementation of [Serialize] *)
Definition serialize_vec (elems : list (list Token)) : list Token :=
  TokSeq (Some (length elems)) :: concat elems ++ [TokSeqEnd].

Definition serialize_str (s : string) : list Token := [TokString s].
Definition serialize_bool (b : bool) : list Token := [TokBool b].

(** [impl Serialize for IrepId], [for InternedString] *)
Definition serialize_irep_id (id : IrepId) : list Token := serialize_str (irep_id_to_string id).
Definition serialize_interned (s : InternedString) : list Token := serialize_str s.

(** [impl Serialize for Irep], with [MapWrapper] for the named children *)
Fixpoint serialize_irep (i : Irep) : list Token :=
  match i with
  | mkIrep id sub named =>
      serialize_map None
        ([(serialize_str "id", serialize_irep_id id)]
         ++ (match sub with
             | [] => []
             | _ => [(serialize_str "sub", serialize_vec (map serialize_irep sub))]
             end)
         ++ (match named with
             | [] => []
             | _ => [(serialize_str "namedSub",
                      serialize_map None
                        (map (fun kx => (serialize_irep_id kx.1, serialize_irep kx.2)) named))]
             end))
  end.

(** [impl Serialize for irep::Symbol] *)
Definition serialize_symbol (s : IrepSymbol) : list Token :=
  serialize_map None [
    (serialize_str (irep_id_to_string Id_Type), serialize_irep (i_typ s));
    (serialize_str (irep_id_to_string Id_Value), serialize_irep (i_value s));
    (serialize_str "location", serialize_irep (i_location s));
    (serialize_str (irep_id_to_string Id_Name), serialize_interned (i_name s));
    (serialize_str (irep_id_to_string Id_Module), serialize_interned (i_module s));
    (serialize_str "baseName", serialize_interned (i_base_name s));
    (serialize_str "prettyName", serialize_interned (i_pretty_name s));
    (serialize_str (irep_id_to_string Id_Mode), serialize_interned (i_mode s));
    (serialize_str "isType", serialize_bool (i_is_type s));
    (serialize_str "isMacro", serialize_bool (i_is_macro s));
    (serialize_str "isExported", serialize_bool (i_is_exported s));
    (serialize_str "isInput", serialize_bool (i_is_input s));
    (serialize_str "isOutput", serialize_bool (i_is_output s));
    (serialize_str "isStateVar", serialize_bool (i_is_state_var s));
    (serialize_str "isProperty", serialize_bool (i_is_property s));
    (serialize_str "isStaticLifetime", serialize_bool (i_is_static_lifetime s));
    (serialize_str "isThreadLocal", serialize_bool (i_is_thread_local s));
    (serialize_str "isLvalue", serialize_bool (i_is_lvalue s));
    (serialize_str "isFileLocal", serialize_bool (i_is_file_local s));
    (serialize_str "isExtern", serialize_bool (i_is_extern s));
    (serialize_str "isVolatile", serialize_bool (i_is_volatile s));
    (serialize_str "isParameter", serialize_bool (i_is_parameter s));
    (serialize_str "isAuxiliary", serialize_bool (i_is_auxiliary s));
    (serialize_str "isWeak", serialize_bool (i_is_weak s))].

Section Tables.
Context `{InternOrder} `{VecMap}.

(** serde's [Serialize] for [BTreeMap]: a map with its length, in key order *)
Definition serialize_btree {V} (f : V -> list Token) (m : gmap string V) : list Token :=
  serialize_map (Some (size m))
    (map (fun kv => (serialize_interned kv.1, f kv.2)) (btree_iter m)).

(** [impl Serialize for irep::SymbolTable] *)
Definition serialize_irep_symtab (st : IrepSymbolTable) : list Token :=
  serialize_map None
    [(serialize_str "symbolTable", serialize_btree serialize_symbol (i_symbol_table st))].

(** [impl Serialize for StreamingSymbols] *)
Definition streaming_symbols (st : SymbolTable) : outcome (list Token) :=
  entries ← map_outcome (fun kv => i ← symbol_to_irep (machine_model st) kv.2;
                                   Ok (serialize_interned kv.1, serialize_symbol i)) (iter st);
  Ok (serialize_map None entries).

(** [impl Serialize for goto_program::SymbolTable] *)
Definition serialize_symtab (st : SymbolTable) : outcome (list Token) :=
  s ← streaming_symbols st; Ok (serialize_map None [(serialize_str "symbolTable", s)]).
End Tables.

(** A trace without the length hints of maps. *)
Definition forget_len (t : Token) : Token :=
  match t with TokMap _ => TokMap None | t => t end.

(** ** Streaming is faithful *)

#[local] Instance IrepSymbol_inhabited : Inhabited IrepSymbol :=
  populate (mkIrepSymbol irep_nil irep_nil irep_nil "" "" "" "" "" false false false false false
              false false false false false false false false false false false).

Section Streaming.
Context `{InternOrder} `{VecMap}.

(** The conversion of a symbol, as a total function. *)
Definition converted (mm : MachineModel) (s : Symbol) : IrepSymbol :=
  match symbol_to_irep mm s with Ok i => i | Panic => inhabitant end.

Lemma symbol_to_irep_name mm s i : symbol_to_irep mm s = Ok i -> i_name i = sym_name s.
Proof. unfold symbol_to_irep. intros Hi. by outcome_inv. Qed.

Lemma insert_ireps_ok mm l st0 ist :
  insert_ireps mm st0 l = Ok ist ->
  Forall (fun kv => symbol_to_irep mm kv.2 = Ok (converted mm kv.2)) l
  /\ i_symbol_table ist
     = foldl (fun m kv => <[sym_name kv.2 := converted mm kv.2]> m) (i_symbol_table st0) l.
Proof.
  revert st0. induction l as [|[k v] l IH]; intros st0; cbn.
  - intros [= <-]. split; [constructor | done].
  - intros Hi. outcome_inv. destruct (IH _ Hi) as [Hall Hm].
    assert (Hc : converted mm v = a) by (unfold converted; by rewrite E).
    split; [constructor; [cbn; by rewrite E, Hc | done]|]. rewrite Hm. cbn.
    by rewrite (symbol_to_irep_name _ _ _ E), Hc.
Qed.

(** Inserting the converted entries of a well-keyed list. *)
Lemma foldl_converted_lookup mm l (m : gmap InternedString IrepSymbol) k :
  NoDup l.*1 -> Forall (fun kv => sym_name kv.2 = kv.1) l ->
  (forall x, k ∈ l.*1 -> m !! k <> Some x) ->
  foldl (fun m kv => <[sym_name kv.2 := converted mm kv.2]> m) m l !! k
  = match list_to_map (M := gmap InternedString Symbol) l !! k with
    | Some v => Some (converted mm v)
    | None => m !! k
    end.
Proof.
  revert m. induction l as [|[k' v] l IH]; intros m; cbn; [by rewrite lookup_empty|].
  rewrite NoDup_cons. intros [Hk Hnd] [Hn Hnames]%Forall_cons Hm. cbn in Hn. subst k'.
  destruct (decide (k = sym_name v)) as [->|Hne].
  - rewrite lookup_insert_eq. rewrite IH; [|done|done|by intros x Hx].
    rewrite (not_elem_of_list_to_map_1 _ _ Hk), lookup_insert_eq. done.
  - rewrite lookup_insert_ne by done. rewrite IH; [|done|done|].
    + by rewrite lookup_insert_ne.
    + intros x Hx. rewrite lookup_insert_ne by done. apply Hm. by right.
Qed.

Lemma symtab_to_irep_table st ist :
  symtab_ok st -> symtab_to_irep st = Ok ist ->
  i_symbol_table ist = converted (machine_model st) <$> symbol_table st
  /\ Forall (fun kv => symbol_to_irep (machine_model st) kv.2
                       = Ok (converted (machine_model st) kv.2)) (iter st).
Proof.
  intros Hok Hi. unfold symtab_to_irep in Hi. apply insert_ireps_ok in Hi as [Hall Hm].
  split; [|done]. rewrite Hm. apply map_eq. intros k. cbn. unfold iter in *.
  rewrite foldl_converted_lookup.
  - rewrite lookup_fmap, lookup_empty.
    assert (list_to_map (btree_iter (symbol_table st)) = symbol_table st) as ->.
    { rewrite (list_to_map_proper _ (map_to_list (symbol_table st)) (NoDup_btree_iter _)
                 (btree_iter_Permutation _)). apply list_to_map_to_list. }
    by destruct (symbol_table st !! k).
  - apply NoDup_btree_iter.
  - apply Forall_forall. intros [k' v] Hin%elem_of_btree_iter. by apply (Hok k').
  - intros x _. by rewrite lookup_empty.
Qed.

Lemma streaming_symbols_ok st :
  Forall (fun kv => symbol_to_irep (machine_model st) kv.2
                    = Ok (converted (machine_model st) kv.2)) (iter st) ->
  streaming_symbols st
  = Ok (serialize_map None
          (map (fun kv => (serialize_interned kv.1,
                           serialize_symbol (converted (machine_model st) kv.2))) (iter st))).
Proof.
  intros Hall. unfold streaming_symbols.
  rewrite (map_outcome_total _ (fun kv => (serialize_interned kv.1,
             serialize_symbol (converted (machine_model st) kv.2)))); [done|].
  intros kv Hin. rewrite Forall_forall in Hall. by rewrite (Hall kv Hin).
Qed.

Lemma forget_one k a b :
  map forget_len a = map forget_len b ->
  map forget_len (serialize_map None [(k, a)]) = map forget_len (serialize_map None [(k, b)]).
Proof. intros E. unfold serialize_map. cbn. rewrite !app_nil_r, !map_app. by rewrite E. Qed.

Lemma insert_ireps_total mm l st0 :
  is_ok (insert_ireps mm st0 l) = forallb (fun kv => is_ok (symbol_to_irep mm kv.2)) l.
Proof.
  revert st0. induction l as [|[k v] l IH]; intros st0; cbn; [done|].
  destruct (symbol_to_irep mm v); cbn; [apply IH | done].
Qed.
End Streaming.

(** ** Properties *)

(** C8. The streaming serialisation of a goto symbol table, which converts one symbol at
    a time, succeeds exactly when the conversion of the whole table does, and then
    makes the same calls as serialising the converted table, up to the length
    hint of maps.  It relies on the invariant of the table that symbols are stored
    under their names. *)
Theorem streaming_faithful `{InternOrder} `{VecMap} (st : SymbolTable) :
  symtab_ok st ->
  match symtab_to_irep st with
  | Ok ist => exists toks, serialize_symtab st = Ok toks
                /\ map forget_len toks = map forget_len (serialize_irep_symtab ist)
  | Panic => serialize_symtab st = Panic
  end.
Proof.
  intros Hok. destruct (symtab_to_irep st) as [ist|] eqn:Hi.
  - destruct (symtab_to_irep_table st ist Hok Hi) as [Hm Hall].
    unfold serialize_symtab. rewrite streaming_symbols_ok by done. eexists. split; [done|].
    apply forget_one. unfold serialize_btree. rewrite Hm, btree_iter_fmap.
    change (prod_map id (converted (machine_model st)) <$> btree_iter (symbol_table st))
      with (map (prod_map id (converted (machine_model st))) (btree_iter (symbol_table st))).
    rewrite map_map. done.
  - assert (Hn : is_ok (symtab_to_irep st) = false) by (by rewrite Hi).
    unfold symtab_to_irep in Hn. rewrite insert_ireps_total in Hn.
    unfold serialize_symtab, streaming_symbols.
    destruct (map_outcome _ (iter st)) as [es|] eqn:E; [|done]. exfalso.
    apply map_outcome_ok in E. revert Hn. clear -E. induction E as [|kv e l es He E IH]; [done|].
    cbn. destruct (symbol_to_irep (machine_model st) kv.2); [done|]. by cbn in He.
Qed.

Lemma streaming_faithful_witness :
  match symtab_to_irep sample_table with
  | Ok ist => exists toks, serialize_symtab sample_table = Ok toks
                /\ map forget_len toks = map forget_len (serialize_irep_symtab ist)
  | Panic => serialize_symtab sample_table = Panic
  end.
Proof.
  apply (streaming_faithful sample_table). intros name s.
  change (symbol_table sample_table) with ({["f" := sample_symbol]} : gmap InternedString Symbol).
  intros [<- <-]%lookup_singleton_Some. reflexivity.
Defined.

(** The traces of the unit tests [serialize_irep] and [serialize_irep_sub]. *)
Example serialize_irep_test :
  serialize_irep irep_empty = [TokMap None; TokString "id"; TokString "empty"; TokMapEnd].
Proof. reflexivity. Qed.

Example serialize_irep_sub_test :
  serialize_irep (just_sub [just_sub [irep_empty; irep_one]; irep_empty])
  = [TokMap None; TokString "id"; TokString ""; TokString "sub"; TokSeq (Some 2);
     TokMap None; TokString "id"; TokString ""; TokString "sub"; TokSeq (Some 2);
     TokMap None; TokString "id"; TokString "empty"; TokMapEnd;
     TokMap None; TokString "id"; TokString "1"; TokMapEnd; TokSeqEnd; TokMapEnd;
     TokMap None; TokString "id"; TokString "empty"; TokMapEnd; TokSeqEnd; TokMapEnd].
Proof. reflexivity. Qed.
