(* ===== verification/Transformer.v ===== *)
(** * The symbol-table transformer
    ([cbmc/src/goto_program/symtab_transformer/transformer.rs])

    The trait [Transformer] is a visitor with open recursion: each method has a
    default body and an implementation may override any of them.  Here the trait
    is a record of hooks, one per method.  A hook receives the recursive
    transformations of the parts of a node as computations, which it runs in the
    order it likes (or not at all); this keeps the recursion structural.  The
    default bodies are the definitions [transform_*]; [default_transformer]
    collects them. *)

From S2P Require Import Prelude CbmcString MachineModel Location Typ Ast SymbolTable Expr Symbol.
From S2P Require Import Builtin Stmt.

(** ** Default bodies *)

Section Defaults.
Context {S : Type} `{InternOrder} `{StrDebug}.
(** [self.symbol_table()] *)
Variable symbol_table_of : S -> SymbolTable.

Abbreviation Ty := (ST S Type_).
Abbreviation Ex := (ST S Expr).
Abbreviation Sm := (ST S Stmt).

Definition with_table {A} (f : SymbolTable -> outcome A) : ST S A :=
  s ← st_get; st_lift (f (symbol_table_of s)).

(** *** Types *)

Definition transform_type_array (typ : Ty) (size : N) : Ty :=
  t ← typ; mret (array_of t size).
Definition transform_type_bool : Ty := mret bool_.
Definition transform_type_c_bit_field (typ : Ty) (width : N) : Ty :=
  t ← typ; st_lift (as_bitfield t width).
Definition transform_type_c_integer (c_int_type : CIntType) : Ty :=
  mret (match c_int_type with
        | CBool => c_bool
        | CChar => c_char
        | CInt => c_int
        | CSizeT => size_t
        | CSSizeT => ssize_t
        end).
Definition transform_type_parameter (p : Parameter_) (typ : Ty) : ST S Parameter_ :=
  t ← typ; st_lift (as_parameter t (parameter_identifier p) (parameter_base_name p)).
Definition transform_type_code (parameters : list (ST S Parameter_)) (return_type : Ty) : Ty :=
  ps ← st_sequence parameters; r ← return_type; mret (code ps r).
Definition transform_type_constructor : Ty := mret constructor.
Definition transform_type_double : Ty := mret double.
Definition transform_type_empty : Ty := mret empty.
Definition transform_type_flexible_array (typ : Ty) : Ty := t ← typ; mret (flexible_array_of t).
Definition transform_type_float : Ty := mret float.
Definition transform_type_incomplete_struct (tag : InternedString) : Ty :=
  mret (incomplete_struct tag).
Definition transform_type_incomplete_union (tag : InternedString) : Ty :=
  mret (incomplete_union tag).
Definition transform_type_infinite_array (typ : Ty) : Ty := t ← typ; mret (infinite_array_of t).
Definition transform_type_pointer (typ : Ty) : Ty := t ← typ; mret (to_pointer t).
Definition transform_type_signedbv (width : N) : Ty := st_lift (signed_int width).
(** The two arms of [transform_datatype_component]. *)
Definition transform_datatype_field (name : InternedString) (typ : Ty) : ST S DatatypeComponent :=
  t ← typ; mret (field name t).
Definition transform_datatype_padding (name : InternedString) (bits : N) :
    ST S DatatypeComponent :=
  mret (padding name bits).
Definition transform_type_struct (tag : InternedString)
    (components : list (ST S DatatypeComponent)) : Ty :=
  cs ← st_sequence components; st_lift (struct_type tag cs).
Definition transform_type_struct_tag (tag : InternedString) : Ty := mret (struct_tag_raw tag).
Definition transform_type_union (tag : InternedString)
    (components : list (ST S DatatypeComponent)) : Ty :=
  cs ← st_sequence components; st_lift (union_type tag cs).
Definition transform_type_union_tag (tag : InternedString) : Ty := mret (union_tag_raw tag).
Definition transform_type_unsignedbv (width : N) : Ty := st_lift (unsigned_int width).
Definition transform_type_variadic_code (parameters : list (ST S Parameter_)) (return_type : Ty) :
    Ty :=
  ps ← st_sequence parameters; r ← return_type; mret (variadic_code ps r).
Definition transform_type_vector (typ : Ty) (size : N) : Ty :=
  t ← typ; st_lift (vector t size).

(** *** Expressions; [typ] is [self.transform_type(typ)] *)

Definition transform_expr_address_of (child : Ex) : Ex := e ← child; st_lift (address_of e).
Definition transform_expr_array (typ : Ty) (elems : list Ex) : Ex :=
  t ← typ; es ← st_sequence elems; st_lift (array_expr t es).
Definition transform_expr_vector (typ : Ty) (elems : list Ex) : Ex :=
  t ← typ; es ← st_sequence elems; st_lift (vector_expr t es).
Definition transform_expr_array_of (typ : Ty) (elem : Ex) : Ex :=
  t ← typ; e ← elem;
  match t with
  | TArray _ size => st_lift (array_constant e size)
  | _ => st_lift Panic
  end.
Definition transform_expr_assign (left right : Ex) : Ex := st_lift Panic.
Definition transform_expr_bin_op (op : BinaryOperand) (lhs rhs : Ex) : Ex :=
  l ← lhs; r ← rhs; st_lift (binop l op r).
Definition transform_expr_bool_constant (v : bool) : Ex := mret (bool_constant v).
Definition transform_expr_byte_extract (typ : Ty) (e : Ex) (offset : N) : Ex :=
  t ← typ; e ← e; with_table (transmute_to e t).
Definition transform_expr_c_bool_constant (v : bool) : Ex := mret (c_bool_constant v).
Definition transform_expr_dereference (child : Ex) : Ex := e ← child; st_lift (dereference e).
Definition transform_expr_double_constant (bits : N) : Ex := mret (double_constant bits).
Definition transform_expr_float_constant (bits : N) : Ex := mret (float_constant bits).
Definition transform_expr_function_call (function : Ex) (arguments : list Ex) : Ex :=
  f ← function; args ← st_sequence arguments; st_lift (call f args).
Definition transform_expr_if (c t e : Ex) : Ex :=
  c ← c; t ← t; e ← e; st_lift (ternary c t e).
Definition transform_expr_index (array idx : Ex) : Ex :=
  a ← array; i ← idx; st_lift (index a i).
Definition transform_expr_int_constant (typ : Ty) (v : Z) : Ex :=
  t ← typ; st_lift (int_constant v t).
Definition transform_expr_member (lhs : Ex) (field : InternedString) : Ex :=
  l ← lhs; with_table (member l field).
Definition transform_expr_nondet (typ : Ty) : Ex := t ← typ; mret (nondet t).
Definition transform_expr_pointer_constant (typ : Ty) (v : N) : Ex :=
  t ← typ; st_lift (pointer_constant v t).
Definition transform_expr_self_op (op : SelfOperand) (e : Ex) : Ex :=
  e ← e;
  st_lift (match op with
           | Postdecrement => postdecr e
           | Postincrement => postincr e
           | Predecrement => predecr e
           | Preincrement => preincr e
           end).
Definition transform_expr_statement_expression (typ : Ty) (statements : list Sm) : Ex :=
  t ← typ; ss ← st_sequence statements; st_lift (statement_expression ss t).
Definition transform_expr_string_constant (v : InternedString) : Ex :=
  mret (raw_string_constant v).
(** The values of a struct come with their transformations. *)
Definition transform_expr_struct (typ : Ty) (values : list (Expr * Ex)) : Ex :=
  t ← typ;
  _ ← st_lift (rassert (is_struct_tag t));
  vs ← st_sequence (map snd values);
  with_table (struct_expr_from_padded_values t vs).
Definition transform_expr_symbol (typ : Ty) (identifier : InternedString) : Ex :=
  t ← typ; mret (symbol_expression identifier t).
Definition transform_expr_typecast (typ : Ty) (child : Ex) : Ex :=
  t ← typ; e ← child; st_lift (cast_to e t).
Definition transform_expr_union (typ : Ty) (v : Ex) (field : InternedString) : Ex :=
  t ← typ; v ← v; with_table (union_expr t field v).
Definition transform_expr_un_op (op : UnaryOperand) (e : Ex) : Ex :=
  e ← e;
  st_lift (match op with
           | Bitnot => bitnot e
           | Bswap => bswap e
           | IsDynamicObject => dynamic_object e
           | Not => not_ e
           | ObjectSize => object_size e
           | PointerObject => pointer_object e
           | PointerOffset => pointer_offset e
           | Popcount => popcount e
           | CountTrailingZeros allow_zero => cttz e allow_zero
           | CountLeadingZeros allow_zero => ctlz e allow_zero
           | UnaryMinus => neg e
           end).

(** *** Statements *)

Definition transform_stmt_assign (lhs rhs : Ex) : Sm :=
  l ← lhs; r ← rhs; st_lift (assign l r Location.none).
Definition transform_stmt_assume (cond : Ex) : Sm := c ← cond; st_lift (assume c Location.none).
Definition transform_stmt_atomic_block (b : list Sm) : Sm :=
  ss ← st_sequence b; mret (atomic_block ss Location.none).
Definition transform_stmt_block (b : list Sm) : Sm :=
  ss ← st_sequence b; mret (block ss Location.none).
Definition transform_stmt_break : Sm := mret (break_stmt Location.none).
Definition transform_stmt_continue : Sm := mret (continue_stmt Location.none).
Definition transform_stmt_decl (lhs : Ex) (v : option Ex) : Sm :=
  l ← lhs; v ← st_option v; st_lift (decl l v Location.none).
Definition transform_stmt_expression (e : Ex) : Sm := e ← e; mret (as_stmt e Location.none).
Definition transform_stmt_for (init : Sm) (cond : Ex) (update b : Sm) : Sm :=
  i ← init; c ← cond; u ← update; b ← b; st_lift (for_loop i c u b Location.none).
Definition transform_stmt_function_call (lhs : option Ex) (function : Ex) (arguments : list Ex) :
    Sm :=
  l ← st_option lhs; f ← function; args ← st_sequence arguments;
  st_lift (function_call l f args Location.none).
Definition transform_stmt_goto (label : InternedString) : Sm :=
  st_lift (goto label Location.none).
Definition transform_stmt_ifthenelse (i : Ex) (t : Sm) (e : option Sm) : Sm :=
  i ← i; t ← t; e ← st_option e; st_lift (if_then_else i t e Location.none).
Definition transform_stmt_label (label : InternedString) (b : Sm) : Sm :=
  s ← b; st_lift (with_label s label).
Definition transform_stmt_return (v : option Ex) : Sm :=
  v ← st_option v; mret (ret v Location.none).
Definition transform_stmt_skip : Sm := mret (skip Location.none).
Definition transform_stmt_switch (control : Ex) (cases : list (Ex * Sm)) (default : option Sm) :
    Sm :=
  c ← control;
  cs ← st_sequence (map (fun es => e ← es.1; s ← es.2; mret (switch_case e s)) cases);
  d ← st_option default;
  st_lift (switch c cs d Location.none).
Definition transform_stmt_while (cond : Ex) (b : Sm) : Sm :=
  c ← cond; b ← b; st_lift (while_loop c b Location.none).

(** *** Symbols *)

Definition transform_symbol (on_type : Type_ -> Ty) (on_value : SymbolValues -> ST S SymbolValues)
    (symbol : Symbol) : ST S Symbol :=
  t ← on_type (sym_typ symbol);
  v ← on_value (sym_value symbol);
  mret (set_typ (set_value symbol v) t).
End Defaults.

(** ** The trait *)

Record Transformer (S : Type) := mkTransformer {
  symbol_table_of : S -> SymbolTable;
  set_symbol_table : SymbolTable -> S -> S;
  on_type_array : ST S Type_ -> N -> ST S Type_;
  on_type_bool : ST S Type_;
  on_type_c_bit_field : ST S Type_ -> N -> ST S Type_;
  on_type_c_integer : CIntType -> ST S Type_;
  on_type_parameter : Parameter_ -> ST S Type_ -> ST S Parameter_;
  on_type_code : list (ST S Parameter_) -> ST S Type_ -> ST S Type_;
  on_type_constructor : ST S Type_;
  on_type_double : ST S Type_;
  on_type_empty : ST S Type_;
  on_type_flexible_array : ST S Type_ -> ST S Type_;
  on_type_float : ST S Type_;
  on_type_incomplete_struct : InternedString -> ST S Type_;
  on_type_incomplete_union : InternedString -> ST S Type_;
  on_type_infinite_array : ST S Type_ -> ST S Type_;
  on_type_pointer : ST S Type_ -> ST S Type_;
  on_type_signedbv : N -> ST S Type_;
  on_datatype_field : InternedString -> ST S Type_ -> ST S DatatypeComponent;
  on_datatype_padding : InternedString -> N -> ST S DatatypeComponent;
  on_type_struct : InternedString -> list (ST S DatatypeComponent) -> ST S Type_;
  on_type_struct_tag : InternedString -> ST S Type_;
  on_type_union : InternedString -> list (ST S DatatypeComponent) -> ST S Type_;
  on_type_union_tag : InternedString -> ST S Type_;
  on_type_unsignedbv : N -> ST S Type_;
  on_type_variadic_code : list (ST S Parameter_) -> ST S Type_ -> ST S Type_;
  on_type_vector : ST S Type_ -> N -> ST S Type_;
  on_expr_address_of : ST S Expr -> ST S Expr;
  on_expr_array : ST S Type_ -> list (ST S Expr) -> ST S Expr;
  on_expr_vector : ST S Type_ -> list (ST S Expr) -> ST S Expr;
  on_expr_array_of : ST S Type_ -> ST S Expr -> ST S Expr;
  on_expr_assign : ST S Expr -> ST S Expr -> ST S Expr;
  on_expr_bin_op : BinaryOperand -> ST S Expr -> ST S Expr -> ST S Expr;
  on_expr_bool_constant : bool -> ST S Expr;
  on_expr_byte_extract : ST S Type_ -> ST S Expr -> N -> ST S Expr;
  on_expr_c_bool_constant : bool -> ST S Expr;
  on_expr_dereference : ST S Expr -> ST S Expr;
  on_expr_double_constant : N -> ST S Expr;
  on_expr_float_constant : N -> ST S Expr;
  on_expr_function_call : ST S Expr -> list (ST S Expr) -> ST S Expr;
  on_expr_if : ST S Expr -> ST S Expr -> ST S Expr -> ST S Expr;
  on_expr_index : ST S Expr -> ST S Expr -> ST S Expr;
  on_expr_int_constant : ST S Type_ -> Z -> ST S Expr;
  on_expr_member : ST S Expr -> InternedString -> ST S Expr;
  on_expr_nondet : ST S Type_ -> ST S Expr;
  on_expr_pointer_constant : ST S Type_ -> N -> ST S Expr;
  on_expr_self_op : SelfOperand -> ST S Expr -> ST S Expr;
  on_expr_statement_expression : ST S Type_ -> list (ST S Stmt) -> ST S Expr;
  on_expr_string_constant : InternedString -> ST S Expr;
  on_expr_struct : ST S Type_ -> list (Expr * ST S Expr) -> ST S Expr;
  on_expr_symbol : ST S Type_ -> InternedString -> ST S Expr;
  on_expr_typecast : ST S Type_ -> ST S Expr -> ST S Expr;
  on_expr_union : ST S Type_ -> ST S Expr -> InternedString -> ST S Expr;
  on_expr_un_op : UnaryOperand -> ST S Expr -> ST S Expr;
  on_stmt_assign : ST S Expr -> ST S Expr -> ST S Stmt;
  on_stmt_assume : ST S Expr -> ST S Stmt;
  on_stmt_atomic_block : list (ST S Stmt) -> ST S Stmt;
  on_stmt_block : list (ST S Stmt) -> ST S Stmt;
  on_stmt_break : ST S Stmt;
  on_stmt_continue : ST S Stmt;
  on_stmt_decl : ST S Expr -> option (ST S Expr) -> ST S Stmt;
  on_stmt_expression : ST S Expr -> ST S Stmt;
  on_stmt_for : ST S Stmt -> ST S Expr -> ST S Stmt -> ST S Stmt -> ST S Stmt;
  on_stmt_function_call : option (ST S Expr) -> ST S Expr -> list (ST S Expr) -> ST S Stmt;
  on_stmt_goto : InternedString -> ST S Stmt;
  on_stmt_ifthenelse : ST S Expr -> ST S Stmt -> option (ST S Stmt) -> ST S Stmt;
  on_stmt_label : InternedString -> ST S Stmt -> ST S Stmt;
  on_stmt_return : option (ST S Expr) -> ST S Stmt;
  on_stmt_skip : ST S Stmt;
  on_stmt_switch : ST S Expr -> list (ST S Expr * ST S Stmt) -> option (ST S Stmt) -> ST S Stmt;
  on_stmt_while : ST S Expr -> ST S Stmt -> ST S Stmt;
  on_symbol : (Type_ -> ST S Type_) -> (SymbolValues -> ST S SymbolValues) -> Symbol -> ST S Symbol;
  preprocess : ST S unit;
  postprocess : ST S unit;
}.
Arguments symbol_table_of {S}.
Arguments set_symbol_table {S}.

(** ** The recursive descent *)

Section Descent.
Context {S : Type} (T : Transformer S).

(** [transform_type], with the traversal of parameters and components *)
Fixpoint transform_type (t : Type_) : ST S Type_ :=
  match t with
  | TArray typ size => on_type_array _ T (transform_type typ) size
  | TBool => on_type_bool _ T
  | TCBitField typ width => on_type_c_bit_field _ T (transform_type typ) width
  | TCInteger c => on_type_c_integer _ T c
  | TCode ps r => on_type_code _ T (map transform_parameter ps) (transform_type r)
  | TConstructor => on_type_constructor _ T
  | TDouble => on_type_double _ T
  | TEmpty => on_type_empty _ T
  | TFlexibleArray typ => on_type_flexible_array _ T (transform_type typ)
  | TFloat => on_type_float _ T
  | TIncompleteStruct tag => on_type_incomplete_struct _ T tag
  | TIncompleteUnion tag => on_type_incomplete_union _ T tag
  | TInfiniteArray typ => on_type_infinite_array _ T (transform_type typ)
  | TPointer typ => on_type_pointer _ T (transform_type typ)
  | TSignedbv width => on_type_signedbv _ T width
  | TStruct tag cs => on_type_struct _ T tag (map transform_component cs)
  | TStructTag tag => on_type_struct_tag _ T tag
  | TUnion tag cs => on_type_union _ T tag (map transform_component cs)
  | TUnionTag tag => on_type_union_tag _ T tag
  | TUnsignedbv width => on_type_unsignedbv _ T width
  | TVariadicCode ps r => on_type_variadic_code _ T (map transform_parameter ps) (transform_type r)
  | TVector typ size => on_type_vector _ T (transform_type typ) size
  end
with transform_parameter (p : Parameter_) : ST S Parameter_ :=
  match p with mkParameter t _ _ => on_type_parameter _ T p (transform_type t) end
with transform_component (c : DatatypeComponent) : ST S DatatypeComponent :=
  match c with
  | Field name t => on_datatype_field _ T name (transform_type t)
  | Padding name bits => on_datatype_padding _ T name bits
  end.

(** [transform_expr], [transform_stmt] *)
Fixpoint transform_expr (e : Expr) : ST S Expr :=
  match e with
  | mkExpr v typ loc => r ← transform_expr_value v typ; mret (with_location r loc)
  end
with transform_expr_value (v : ExprValue) (typ : Type_) : ST S Expr :=
  match v with
  | EAddressOf e => on_expr_address_of _ T (transform_expr e)
  | EArray elems => on_expr_array _ T (transform_type typ) (map transform_expr elems)
  | EArrayOf elem => on_expr_array_of _ T (transform_type typ) (transform_expr elem)
  | EAssign l r => on_expr_assign _ T (transform_expr l) (transform_expr r)
  | EBinOp op l r => on_expr_bin_op _ T op (transform_expr l) (transform_expr r)
  | EBoolConstant v => on_expr_bool_constant _ T v
  | EByteExtract e offset =>
      on_expr_byte_extract _ T (transform_type typ) (transform_expr e) offset
  | ECBoolConstant v => on_expr_c_bool_constant _ T v
  | EDereference e => on_expr_dereference _ T (transform_expr e)
  | EDoubleConstant v => on_expr_double_constant _ T v
  | EFloatConstant v => on_expr_float_constant _ T v
  | EFunctionCall f args =>
      on_expr_function_call _ T (transform_expr f) (map transform_expr args)
  | EIf c t e => on_expr_if _ T (transform_expr c) (transform_expr t) (transform_expr e)
  | EIndex a i => on_expr_index _ T (transform_expr a) (transform_expr i)
  | EIntConstant v => on_expr_int_constant _ T (transform_type typ) v
  | EMember e field => on_expr_member _ T (transform_expr e) field
  | ENondet => on_expr_nondet _ T (transform_type typ)
  | EPointerConstant v => on_expr_pointer_constant _ T (transform_type typ) v
  | ESelfOp op e => on_expr_self_op _ T op (transform_expr e)
  | EStatementExpression ss =>
      on_expr_statement_expression _ T (transform_type typ) (map transform_stmt ss)
  | EStringConstant s => on_expr_string_constant _ T s
  | EStruct vs => on_expr_struct _ T (transform_type typ) (map (fun v => (v, transform_expr v)) vs)
  | ESymbol x => on_expr_symbol _ T (transform_type typ) x
  | ETypecast e => on_expr_typecast _ T (transform_type typ) (transform_expr e)
  | EUnion v field => on_expr_union _ T (transform_type typ) (transform_expr v) field
  | EUnOp op e => on_expr_un_op _ T op (transform_expr e)
  | EVector elems => on_expr_vector _ T (transform_type typ) (map transform_expr elems)
  end
with transform_stmt (s : Stmt) : ST S Stmt :=
  match s with
  | mkStmt b loc => r ← transform_stmt_body b; mret (stmt_with_location r loc)
  end
with transform_stmt_body (b : StmtBody) : ST S Stmt :=
  match b with
  | SAssign l r => on_stmt_assign _ T (transform_expr l) (transform_expr r)
  | SAssume c => on_stmt_assume _ T (transform_expr c)
  | SAtomicBlock ss => on_stmt_atomic_block _ T (map transform_stmt ss)
  | SBlock ss => on_stmt_block _ T (map transform_stmt ss)
  | SBreak => on_stmt_break _ T
  | SContinue => on_stmt_continue _ T
  | SDecl l v => on_stmt_decl _ T (transform_expr l) (option_map transform_expr v)
  | SExpression e => on_stmt_expression _ T (transform_expr e)
  | SFor i c u b =>
      on_stmt_for _ T (transform_stmt i) (transform_expr c) (transform_stmt u) (transform_stmt b)
  | SFunctionCall l f args =>
      on_stmt_function_call _ T (option_map transform_expr l) (transform_expr f)
        (map transform_expr args)
  | SGoto label => on_stmt_goto _ T label
  | SIfthenelse i t e =>
      on_stmt_ifthenelse _ T (transform_expr i) (transform_stmt t) (option_map transform_stmt e)
  | SLabel label b => on_stmt_label _ T label (transform_stmt b)
  | SReturn v => on_stmt_return _ T (option_map transform_expr v)
  | SSkip => on_stmt_skip _ T
  | SSwitch c cs d =>
      on_stmt_switch _ T (transform_expr c)
        (map (fun x => match x with mkSwitchCase e s => (transform_expr e, transform_stmt s) end) cs)
        (option_map transform_stmt d)
  | SWhile c b => on_stmt_while _ T (transform_expr c) (transform_stmt b)
  end.

Definition transform_value (v : SymbolValues) : ST S SymbolValues :=
  match v with
  | SVNone => mret SVNone
  | SVExpr e => e ← transform_expr e; mret (SVExpr e)
  | SVStmt s => s ← transform_stmt s; mret (SVStmt s)
  end.

Definition transform_one_symbol (symbol : Symbol) : ST S Symbol :=
  on_symbol _ T transform_type transform_value symbol.

(** [self.mut_symbol_table().insert(new_symbol)] *)
Definition insert_symbol (symbol : Symbol) : ST S unit :=
  s ← st_get;
  st ← st_lift (insert (symbol_table_of T s) symbol);
  st_put (set_symbol_table T st s).

(** ** [transform_symbol_table] *)

(** The first loop: symbols without a value; returns the names that were added. *)
Fixpoint type_symbols_loop (l : list (InternedString * Symbol)) (added : gset InternedString) :
    ST S (gset InternedString) :=
  match l with
  | [] => mret added
  | (name, symbol) :: l =>
      s ← st_get;
      if negb (contains (symbol_table_of T s) name) && value_is_none (sym_value symbol) then
        new_symbol ← transform_one_symbol symbol;
        _ ← insert_symbol new_symbol;
        type_symbols_loop l ({[name]} ∪ added)
      else type_symbols_loop l added
  end.

(** The second loop: everything else. *)
Fixpoint value_symbols_loop (l : list (InternedString * Symbol)) (added : gset InternedString) :
    ST S unit :=
  match l with
  | [] => mret tt
  | (name, symbol) :: l =>
      if negb (bool_decide (name ∈ added)) then
        _ ← st_lift (rassert (negb (value_is_none (sym_value symbol))));
        new_symbol ← transform_one_symbol symbol;
        _ ← insert_symbol new_symbol;
        value_symbols_loop l added
      else value_symbols_loop l added
  end.

Definition transform_symbol_table `{InternOrder} (orig_symtab : SymbolTable) : ST S SymbolTable :=
  _ ← preprocess _ T;
  s ← st_get;
  let added := dom (symbol_table (symbol_table_of T s)) in
  added ← type_symbols_loop (iter orig_symtab) added;
  _ ← value_symbols_loop (iter orig_symtab) added;
  _ ← postprocess _ T;
  s ← st_get;
  mret (symbol_table_of T s).
End Descent.

(** The transformer with no method overridden. *)
Definition default_transformer `{InternOrder} `{StrDebug} {S}
    (get : S -> SymbolTable) (put : SymbolTable -> S -> S) : Transformer S := {|
  symbol_table_of := get;
  set_symbol_table := put;
  on_type_array := transform_type_array;
  on_type_bool := transform_type_bool;
  on_type_c_bit_field := transform_type_c_bit_field;
  on_type_c_integer := transform_type_c_integer;
  on_type_parameter := transform_type_parameter;
  on_type_code := transform_type_code;
  on_type_constructor := transform_type_constructor;
  on_type_double := transform_type_double;
  on_type_empty := transform_type_empty;
  on_type_flexible_array := transform_type_flexible_array;
  on_type_float := transform_type_float;
  on_type_incomplete_struct := transform_type_incomplete_struct;
  on_type_incomplete_union := transform_type_incomplete_union;
  on_type_infinite_array := transform_type_infinite_array;
  on_type_pointer := transform_type_pointer;
  on_type_signedbv := transform_type_signedbv;
  on_datatype_field := transform_datatype_field;
  on_datatype_padding := transform_datatype_padding;
  on_type_struct := transform_type_struct;
  on_type_struct_tag := transform_type_struct_tag;
  on_type_union := transform_type_union;
  on_type_union_tag := transform_type_union_tag;
  on_type_unsignedbv := transform_type_unsignedbv;
  on_type_variadic_code := transform_type_variadic_code;
  on_type_vector := transform_type_vector;
  on_expr_address_of := transform_expr_address_of;
  on_expr_array := transform_expr_array;
  on_expr_vector := transform_expr_vector;
  on_expr_array_of := transform_expr_array_of;
  on_expr_assign := transform_expr_assign;
  on_expr_bin_op := transform_expr_bin_op;
  on_expr_bool_constant := transform_expr_bool_constant;
  on_expr_byte_extract := transform_expr_byte_extract get;
  on_expr_c_bool_constant := transform_expr_c_bool_constant;
  on_expr_dereference := transform_expr_dereference;
  on_expr_double_constant := transform_expr_double_constant;
  on_expr_float_constant := transform_expr_float_constant;
  on_expr_function_call := transform_expr_function_call;
  on_expr_if := transform_expr_if;
  on_expr_index := transform_expr_index;
  on_expr_int_constant := transform_expr_int_constant;
  on_expr_member := transform_expr_member get;
  on_expr_nondet := transform_expr_nondet;
  on_expr_pointer_constant := transform_expr_pointer_constant;
  on_expr_self_op := transform_expr_self_op;
  on_expr_statement_expression := transform_expr_statement_expression;
  on_expr_string_constant := transform_expr_string_constant;
  on_expr_struct := transform_expr_struct get;
  on_expr_symbol := transform_expr_symbol;
  on_expr_typecast := transform_expr_typecast;
  on_expr_union := transform_expr_union get;
  on_expr_un_op := transform_expr_un_op;
  on_stmt_assign := transform_stmt_assign;
  on_stmt_assume := transform_stmt_assume;
  on_stmt_atomic_block := transform_stmt_atomic_block;
  on_stmt_block := transform_stmt_block;
  on_stmt_break := transform_stmt_break;
  on_stmt_continue := transform_stmt_continue;
  on_stmt_decl := transform_stmt_decl;
  on_stmt_expression := transform_stmt_expression;
  on_stmt_for := transform_stmt_for;
  on_stmt_function_call := transform_stmt_function_call;
  on_stmt_goto := transform_stmt_goto;
  on_stmt_ifthenelse := transform_stmt_ifthenelse;
  on_stmt_label := transform_stmt_label;
  on_stmt_return := transform_stmt_return;
  on_stmt_skip := transform_stmt_skip;
  on_stmt_switch := transform_stmt_switch;
  on_stmt_while := transform_stmt_while;
  on_symbol := transform_symbol;
  preprocess := mret tt;
  postprocess := mret tt;
|}.

(** ** Overriding methods

    [override T (hook S T) v] is the transformer [T] with [v] for the method
    [hook]. *)

Definition same_methods {S} (T : Transformer S) : Transformer S :=
  mkTransformer S (symbol_table_of T) (set_symbol_table T) (on_type_array S T) (on_type_bool S T)
    (on_type_c_bit_field S T) (on_type_c_integer S T) (on_type_parameter S T) (on_type_code S T)
    (on_type_constructor S T) (on_type_double S T) (on_type_empty S T)
    (on_type_flexible_array S T) (on_type_float S T) (on_type_incomplete_struct S T)
    (on_type_incomplete_union S T) (on_type_infinite_array S T) (on_type_pointer S T)
    (on_type_signedbv S T) (on_datatype_field S T) (on_datatype_padding S T) (on_type_struct S T)
    (on_type_struct_tag S T) (on_type_union S T) (on_type_union_tag S T) (on_type_unsignedbv S T)
    (on_type_variadic_code S T) (on_type_vector S T) (on_expr_address_of S T) (on_expr_array S T)
    (on_expr_vector S T) (on_expr_array_of S T) (on_expr_assign S T) (on_expr_bin_op S T)
    (on_expr_bool_constant S T) (on_expr_byte_extract S T) (on_expr_c_bool_constant S T)
    (on_expr_dereference S T) (on_expr_double_constant S T) (on_expr_float_constant S T)
    (on_expr_function_call S T) (on_expr_if S T) (on_expr_index S T) (on_expr_int_constant S T)
    (on_expr_member S T) (on_expr_nondet S T) (on_expr_pointer_constant S T) (on_expr_self_op S T)
    (on_expr_statement_expression S T) (on_expr_string_constant S T) (on_expr_struct S T)
    (on_expr_symbol S T) (on_expr_typecast S T) (on_expr_union S T) (on_expr_un_op S T)
    (on_stmt_assign S T) (on_stmt_assume S T) (on_stmt_atomic_block S T) (on_stmt_block S T)
    (on_stmt_break S T) (on_stmt_continue S T) (on_stmt_decl S T) (on_stmt_expression S T)
    (on_stmt_for S T) (on_stmt_function_call S T) (on_stmt_goto S T) (on_stmt_ifthenelse S T)
    (on_stmt_label S T) (on_stmt_return S T) (on_stmt_skip S T) (on_stmt_switch S T)
    (on_stmt_while S T) (on_symbol S T) (preprocess S T) (postprocess S T).

Ltac override T hook v :=
  let same := eval cbv beta delta [same_methods] in (same_methods T) in
  let abs := eval pattern hook in same in
  lazymatch abs with ?f hook => let r := eval cbv beta in (f v) in exact r end.

Section Overrides.
Context {S : Type} (T : Transformer S).

Definition with_on_type_parameter v : Transformer S := ltac:(override T (on_type_parameter S T) v).
Definition with_on_type_incomplete_struct v : Transformer S := ltac:(override T (on_type_incomplete_struct S T) v).
Definition with_on_type_incomplete_union v : Transformer S := ltac:(override T (on_type_incomplete_union S T) v).
Definition with_on_datatype_field v : Transformer S := ltac:(override T (on_datatype_field S T) v).
Definition with_on_datatype_padding v : Transformer S := ltac:(override T (on_datatype_padding S T) v).
Definition with_on_type_struct v : Transformer S := ltac:(override T (on_type_struct S T) v).
Definition with_on_type_struct_tag v : Transformer S := ltac:(override T (on_type_struct_tag S T) v).
Definition with_on_type_union v : Transformer S := ltac:(override T (on_type_union S T) v).
Definition with_on_type_union_tag v : Transformer S := ltac:(override T (on_type_union_tag S T) v).
Definition with_on_expr_bin_op v : Transformer S := ltac:(override T (on_expr_bin_op S T) v).
Definition with_on_expr_index v : Transformer S := ltac:(override T (on_expr_index S T) v).
Definition with_on_expr_int_constant v : Transformer S := ltac:(override T (on_expr_int_constant S T) v).
Definition with_on_expr_member v : Transformer S := ltac:(override T (on_expr_member S T) v).
Definition with_on_expr_nondet v : Transformer S := ltac:(override T (on_expr_nondet S T) v).
Definition with_on_expr_struct v : Transformer S := ltac:(override T (on_expr_struct S T) v).
Definition with_on_expr_symbol v : Transformer S := ltac:(override T (on_expr_symbol S T) v).
Definition with_on_expr_union v : Transformer S := ltac:(override T (on_expr_union S T) v).
Definition with_on_stmt_goto v : Transformer S := ltac:(override T (on_stmt_goto S T) v).
Definition with_on_stmt_label v : Transformer S := ltac:(override T (on_stmt_label S T) v).
Definition with_on_symbol v : Transformer S := ltac:(override T (on_symbol S T) v).
Definition with_postprocess v : Transformer S := ltac:(override T (postprocess S T) v).
End Overrides.

(** ** Relations that every step of a pass respects *)

Section Preservation.
Context {S : Type} (R : S -> S -> Prop) `{!PreOrder R}.

(** A run that succeeds takes the state along [R]. *)
Definition preserves {A} (m : ST S A) : Prop := forall s a s', m s = Ok (a, s') -> R s s'.

Lemma preserves_ret {A} (a : A) : preserves (mret a).
Proof using PreOrder0. intros s b s' [= <- <-]. reflexivity. Qed.

Lemma preserves_lift {A} (m : outcome A) : preserves (st_lift m).
Proof using PreOrder0. intros s a s'. unfold st_lift. destruct m; [|done]. intros [= <- <-]. reflexivity. Qed.

Lemma preserves_get : preserves st_get.
Proof using PreOrder0. intros s a s' [= <- <-]. reflexivity. Qed.

Lemma preserves_bind {A B} (m : ST S A) (f : A -> ST S B) :
  preserves m -> (forall a, preserves (f a)) -> preserves (m ≫= f).
Proof using PreOrder0.
  intros Hm Hf s b s'. unfold mbind, ST_bind. destruct (m s) as [[a s1]|] eqn:E; [|done].
  intros E'. etrans; [by eapply Hm | by eapply Hf].
Qed.

Lemma preserves_sequence {A B} (f : A -> ST S B) l :
  Forall (fun a => preserves (f a)) l -> preserves (st_sequence (map f l)).
Proof using PreOrder0.
  induction 1; cbn; [apply preserves_ret|]. apply preserves_bind; [done|]. intros b.
  apply preserves_bind; [done|]. intros bs. apply preserves_ret.
Qed.

Lemma preserves_option {A B} (f : A -> ST S B) o :
  option_all (fun a => preserves (f a)) o -> preserves (st_option (option_map f o)).
Proof using PreOrder0.
  destruct o; cbn; intros Ho; [|apply preserves_ret]. apply preserves_bind; [done|].
  intros b. apply preserves_ret.
Qed.

Lemma preserves_with_table get {A} (f : SymbolTable -> outcome A) : preserves (with_table get f).
Proof using PreOrder0. apply preserves_bind; [apply preserves_get|]. intros s. apply preserves_lift. Qed.
End Preservation.

#[export] Hint Resolve preserves_ret preserves_lift preserves_get preserves_bind
  preserves_sequence preserves_option preserves_with_table : rmc.
