(* ===== verification/Identity.v ===== *)
(** * The identity transformer
    ([cbmc/src/goto_program/symtab_transformer/identity_transformer.rs])

    Rebuilding every node with the constructors must give the node back; the unit
    tests of the source check it on examples.  It holds of well-formed programs
    whose types are valid ([type_valid]): [identity_expr] for one expression, and
    [identity_table] for a whole symbol table. *)

From S2P Require Import Prelude CbmcString MachineModel Location Typ Ast SymbolTable Expr Symbol.
From S2P Require Import Builtin Stmt Env Typing Built Transformer.

(** [struct IdentityTransformer]; its state is the new symbol table *)
Definition identity_transformer `{InternOrder} `{StrDebug} : Transformer SymbolTable :=
  default_transformer (fun st => st) (fun st _ => st).

(** [IdentityTransformer::transform] *)
Definition identity_transform `{InternOrder} `{StrDebug} (original_symbol_table : SymbolTable) :
    outcome SymbolTable :=
  new_symbol_table ← symtab_new (machine_model original_symbol_table);
  r ← transform_symbol_table identity_transformer original_symbol_table new_symbol_table;
  Ok r.1.

(** ** Computations that only read the state *)

Section Reading.
Context {S : Type}.

Lemma bind_run {A B} (m : ST S A) (f : A -> ST S B) s a s' :
  m s = Ok (a, s') -> (m ≫= f) s = f a s'.
Proof. intros E. unfold mbind, ST_bind. by rewrite E. Qed.

Lemma bind_id {A B} (m : ST S A) (f : A -> ST S B) s a :
  m s = Ok (a, s) -> (m ≫= f) s = f a s.
Proof. apply bind_run. Qed.

Lemma lift_id {A} (m : outcome A) (a : A) (s : S) : m = Ok a -> st_lift m s = Ok (a, s).
Proof. by intros ->. Qed.

Lemma sequence_id {A} (f : A -> ST S A) l s :
  Forall (fun a => f a s = Ok (a, s)) l -> st_sequence (map f l) s = Ok (l, s).
Proof.
  induction 1 as [|a l Ha _ IH]; [done|]. cbn. rewrite (bind_id _ _ _ _ Ha).
  by rewrite (bind_id _ _ _ _ IH).
Qed.

Lemma option_id {A} (f : A -> ST S A) o s :
  option_all (fun a => f a s = Ok (a, s)) o -> st_option (option_map f o) s = Ok (o, s).
Proof. destruct o; cbn; [|done]. intros E. by rewrite (bind_id _ _ _ _ E). Qed.
End Reading.

(** ** Types *)

Section Identity.
Context `{InternOrder} `{StrDebug}.

(** A type that its own constructors accept, with tags named as [aggr_tag] names them. *)
Fixpoint type_valid (t : Type_) : bool :=
  let component c := match c with Field _ t => type_valid t | Padding _ _ => true end in
  let parameter p := match p with mkParameter t _ _ => type_valid t && is_lvalue t end in
  match t with
  | TArray t _ | TFlexibleArray t | TInfiniteArray t | TPointer t => type_valid t
  | TVector t _ => type_valid t && is_numeric t
  | TCBitField t w => type_valid t && is_ok (as_bitfield t w)
  | TCode ps r | TVariadicCode ps r => forallb parameter ps && type_valid r
  | TStruct _ cs | TUnion _ cs => forallb component cs && components_are_unique cs
  | TSignedbv w | TUnsignedbv w => (0 <? w)%N
  | TBool | TCInteger _ | TConstructor | TDouble | TEmpty | TFloat | TIncompleteStruct _
  | TIncompleteUnion _ => true
  | TStructTag tag | TUnionTag tag => String.prefix "tag-" tag
  end.

(** Every transformer that overrides no method on types leaves valid types alone. *)
Section Types.
Context {S : Type} (get : S -> SymbolTable) (put : SymbolTable -> S -> S).
Abbreviation T := (default_transformer get put).

Lemma parameter_id p s :
  parameter_all (fun t => type_valid t = true -> transform_type T t s = Ok (t, s)) p ->
  match p with mkParameter t _ _ => type_valid t && is_lvalue t end = true ->
  transform_parameter T p s = Ok (p, s).
Proof.
  destruct p as [t i b]. unfold parameter_all. cbn [parameter_typ]. intros Ht Hv. bool_inv.
  cbn [transform_parameter]. fold (transform_type T). cbn [on_type_parameter
    default_transformer]. unfold transform_type_parameter.
  rewrite (bind_id _ _ _ _ (Ht ltac:(done))). apply lift_id. unfold as_parameter. by rewrite H2.
Qed.

Lemma component_id c s :
  component_all (fun t => type_valid t = true -> transform_type T t s = Ok (t, s)) c ->
  match c with Field _ t => type_valid t | Padding _ _ => true end = true ->
  transform_component T c s = Ok (c, s).
Proof.
  destruct c as [n t|n b]; [|done]. cbn [component_all]. intros Ht Hv.
  cbn [transform_component]. fold (transform_type T). cbn [on_datatype_field
    default_transformer]. unfold transform_datatype_field. by rewrite (bind_id _ _ _ _ (Ht Hv)).
Qed.

Lemma forallb_Forall {A} (f : A -> bool) l : forallb f l = true -> Forall (fun a => f a = true) l.
Proof. rewrite forallb_forall, <- List.Forall_forall. done. Qed.

Lemma parameters_id ps s :
  Forall (parameter_all (fun t => type_valid t = true -> transform_type T t s = Ok (t, s))) ps ->
  forallb (fun p => match p with mkParameter t _ _ => type_valid t && is_lvalue t end) ps = true ->
  st_sequence (map (transform_parameter T) ps) s = Ok (ps, s).
Proof.
  intros Hps Hv%forallb_Forall. apply sequence_id. eapply Forall_impl; [apply Forall_and; split; [exact Hps | exact Hv]|].
  intros p [Hp Hp']. by apply parameter_id.
Qed.

Lemma components_id cs s :
  Forall (component_all (fun t => type_valid t = true -> transform_type T t s = Ok (t, s))) cs ->
  forallb (fun c => match c with Field _ t => type_valid t | Padding _ _ => true end) cs = true ->
  st_sequence (map (transform_component T) cs) s = Ok (cs, s).
Proof.
  intros Hcs Hv%forallb_Forall. apply sequence_id. eapply Forall_impl; [apply Forall_and; split; [exact Hcs | exact Hv]|].
  intros c [Hc Hc']. by apply component_id.
Qed.

Lemma transform_type_id t s : type_valid t = true -> transform_type T t s = Ok (t, s).
Proof.
  induction t using Type_rect'; intros Hv; cbn [type_valid] in Hv; bool_inv;
    cbn [transform_type]; fold (transform_parameter T); fold (transform_component T);
    fold (transform_type T); cbn -[transform_type transform_parameter transform_component];
    try specialize (IHt ltac:(assumption)); try done.
  all: try (unfold transform_type_array, transform_type_flexible_array, transform_type_pointer,
              transform_type_infinite_array; by rewrite (bind_id _ _ _ _ IHt)).
  - unfold transform_type_c_bit_field. rewrite (bind_id _ _ _ _ IHt). apply lift_id.
    unfold as_bitfield in *. destruct (0 <? n)%N; [|done]. destruct (is_integer t); [|done].
    cbn in *. destruct (width t); [|done]. cbn in *. by destruct (n <=? n0)%N.
  - by destruct c.
  - unfold transform_type_code. rewrite (bind_id _ _ _ _ (parameters_id _ _ ltac:(done) ltac:(done))).
    by rewrite (bind_id _ _ _ _ IHt).
  - unfold transform_type_signedbv. apply lift_id. unfold signed_int. by rewrite Hv.
  - unfold transform_type_struct. rewrite (bind_id _ _ _ _ (components_id _ _ ltac:(done) ltac:(done))).
    apply lift_id. unfold struct_type. by rewrite H3.
  - unfold transform_type_union. rewrite (bind_id _ _ _ _ (components_id _ _ ltac:(done) ltac:(done))).
    apply lift_id. unfold union_type. by rewrite H3.
  - unfold transform_type_unsignedbv. apply lift_id. unfold unsigned_int. by rewrite Hv.
  - unfold transform_type_variadic_code.
    rewrite (bind_id _ _ _ _ (parameters_id _ _ ltac:(done) ltac:(done))).
    by rewrite (bind_id _ _ _ _ IHt).
  - unfold transform_type_vector. rewrite (bind_id _ _ _ _ IHt). apply lift_id. unfold vector.
    by rewrite H2.
Qed.
End Types.

Abbreviation T := identity_transformer.
Abbreviation table_id := (fun st : SymbolTable => st).
Abbreviation table_put := (fun (st _ : SymbolTable) => st).

(** ** Expressions and statements *)

(** [st'] is a part of [st] that has every type declared in [st], and all the types
    are valid. *)
Record covers (st st' : SymbolTable) : Prop := {
  covers_model : machine_model st' = machine_model st;
  covers_subset : symbol_table st' ⊆ symbol_table st;
  covers_tags name : String.prefix "tag-" name = true -> lookup st' name = lookup st name;
  covers_valid name s : lookup st name = Some s -> type_valid (sym_typ s) = true;
}.

(** So the constructors find in [st'] what they find in [st]. *)
Section Covers.
Context (st st' : SymbolTable) (Hcov : covers st st').

Lemma type_name_tag t name :
  type_valid t = true -> type_name t = Some name -> String.prefix "tag-" name = true.
Proof using.
  destruct t; cbn [type_name]; try done; intros Hv [= <-]; try done.
  all: unfold MachineModel.aggr_tag; cbn; by destruct tag.
Qed.

Lemma covers_fields t :
  type_valid t = true -> lookup_fields_in_type st' t = lookup_fields_in_type st t.
Proof.
  intros Hv. unfold lookup_fields_in_type. destruct (type_name t) eqn:E; [|done].
  by rewrite (covers_tags _ _ Hcov) by (by eapply type_name_tag).
Qed.

Lemma covers_field_type t f :
  type_valid t = true -> lookup_field_type_in_type st' t f = lookup_field_type_in_type st t f.
Proof.
  intros Hv. unfold lookup_field_type_in_type, lookup_field_type, lookup_components.
  destruct (type_name t) eqn:E; [|done].
  by rewrite (covers_tags _ _ Hcov) by (by eapply type_name_tag).
Qed.

Lemma covers_size_with r r' t :
  (forall tag, String.prefix "tag-" tag = true -> r' tag = r tag) -> type_valid t = true ->
  size_with st' r' t = size_with st r t.
Proof.
  intros Hr. pose proof (covers_model _ _ Hcov) as Hm.
  induction t using Type_rect'; intros Hv; cbn [type_valid] in Hv; bool_inv; cbn [size_with];
    rewrite ?Hm; try done; try (by rewrite IHt); try (by apply Hr).
  - unfold c_int_sizeof_in_bits. by rewrite Hm.
  - f_equal. apply map_ext_Forall. eapply Forall_impl; [apply Forall_and; split;
      [eassumption | by apply forallb_Forall]|]. intros [n ct|n b] [Hc Hcv]; cbn in *; auto.
  - f_equal. apply map_ext_Forall. eapply Forall_impl; [apply Forall_and; split;
      [eassumption | by apply forallb_Forall]|]. intros [n ct|n b] [Hc Hcv]; cbn in *; auto.
Qed.

Lemma covers_tag_sizeof n tag :
  String.prefix "tag-" tag = true -> tag_sizeof n st' tag = tag_sizeof n st tag.
Proof.
  revert tag. induction n as [|n IH]; intros tag Ht; cbn; [done|].
  rewrite (covers_tags _ _ Hcov) by done. destruct (lookup st tag) as [s|] eqn:El; [|done].
  apply covers_size_with; [exact IH|]. by eapply covers_valid.
Qed.

Lemma covers_sizeof t : type_valid t = true -> sizeof_in_bits t st' = sizeof_in_bits t st.
Proof.
  intros Hv. assert (Hle : sizeof_fuel st' <= sizeof_fuel st).
  { unfold sizeof_fuel. apply le_n_S, map_subseteq_size, (covers_subset _ _ Hcov). }
  unfold sizeof_in_bits. f_equal.
  rewrite <- (covers_size_with (tag_sizeof (sizeof_fuel st) st) (tag_sizeof (sizeof_fuel st') st')); [done| |done].
  intros tag Ht. rewrite <- (covers_tag_sizeof (sizeof_fuel st)) by done.
  symmetry. by apply tag_sizeof_stable.
Qed.
End Covers.

Section Terms.
Variables st st' : SymbolTable.
Hypothesis Hcov : covers st st'.

Abbreviation same_expr := (fun e => transform_expr T e st' = Ok (e, st')).
Abbreviation same_stmt := (fun s => transform_stmt T s st' = Ok (s, st')).

Abbreviation valid_expr := (fun e => expr_types_all type_valid e = true).
Abbreviation valid_stmt := (fun s => stmt_types_all type_valid s = true).

Lemma valid_typ e : expr_types_all type_valid e = true -> type_valid (typ e) = true.
Proof using. destruct e. cbn. intros. by bool_inv. Qed.

Lemma fields_match_total fields values :
  forallb2 component_has_type fields (map typ values) = true ->
  (length fields =? length values)%nat = true /\ fields_match fields values = Ok true.
Proof.
  revert values. induction fields as [|f fields IH]; intros [|v values]; cbn; try done.
  intros Hm. bool_inv. destruct (IH _ H2) as [-> ->]. split; [done|].
  destruct f as [n t|n b]; cbn in *.
  - by rewrite H1.
  - bool_inv. unfold unsigned_int. rewrite H1. cbn. cbn in H3. by rewrite H3.
Qed.

Lemma call_ok_typecheck f args :
  call_ok (typ f) (map typ args) = true -> typecheck_call f args = Ok true.
Proof.
  unfold call_ok, typecheck_call, typecheck_named_args.
  destruct (typ f); try done; cbn; intros Hc; f_equal.
  - assert (Hl : length args = length parameters).
    { apply forallb2_Forall2, Forall2_length in Hc. by rewrite length_map in Hc. }
    rewrite Hl, Nat.eqb_refl. cbn. rewrite zip_all_same_length by done.
    revert Hc. clear. revert args. induction parameters as [|p ps IH]; intros [|a args]; cbn; try done.
    intros Hc. bool_inv. by rewrite H, IH.
  - revert Hc. clear. revert args. induction parameters as [|p ps IH]; intros [|a args]; cbn; try done.
    intros Hc. bool_inv. rewrite H. apply IH in H0. bool_inv. by rewrite H0, H1.
Qed.

Lemma binop_again op l r :
  typecheck_binop_args op l r = true ->
  binop l op r = Ok (expr (EBinOp op l r) (binop_return_type op l r)).
Proof. intros E. unfold binop. by rewrite E. Qed.

Lemma cast_same e t : type_eqb (typ e) t = true -> cast_to e t = Ok e.
Proof. intros E. unfold cast_to, can_cast_to, can_cast_from. by rewrite E. Qed.

(** Run the parts of a node, which leave the state alone and return themselves. *)
#[local] Ltac run_parts :=
  repeat match goal with
  | E : ?m ?s = Ok (_, ?s) |- (mbind _ ?m) ?s = _ => rewrite (bind_id _ _ _ _ E)
  | E : Forall _ ?l |- (mbind _ (st_sequence (map _ ?l))) _ = _ =>
      rewrite (bind_id _ _ _ _ (sequence_id _ _ _ E))
  | E : option_all _ ?o |- (mbind _ (st_option (option_map _ ?o))) _ = _ =>
      rewrite (bind_id _ _ _ _ (option_id _ _ _ E))
  end.
#[local] Ltac fold_T :=
  fold (transform_expr T); fold (transform_stmt T); fold (transform_type T).
#[local] Ltac known :=
  repeat match goal with H : ?x = true |- context [?x] => rewrite H; cbn [negb rassert mbind outcome_bind] end.
#[local] Ltac same_types :=
  repeat match goal with H : type_same _ _ = true |- _ => apply type_same_spec in H; subst end.

Lemma unop_again op e :
  typecheck_unop_arg op e = true ->
  st_lift (match op with
           | Bitnot => bitnot e
           | Bswap => bswap e
           | IsDynamicObject => dynamic_object e
           | Not => not_ e
           | ObjectSize => object_size e
           | PointerObject => pointer_object e
           | PointerOffset => pointer_offset e
           | Popcount => popcount e
           | CountTrailingZeros allow_zero => cttz e allow_zero
           | CountLeadingZeros allow_zero => ctlz e allow_zero
           | UnaryMinus => neg e
           end) st' = Ok (expr (EUnOp op e) (unop_return_type op e), st').
Proof.
  intros Hc. apply lift_id.
  assert (Hu : unop e op = Ok (expr (EUnOp op e) (unop_return_type op e)))
    by (unfold unop; by rewrite Hc).
  destruct op; try exact Hu.
  - unfold not_. rewrite cast_same; [exact Hu|]. cbn in Hc. by destruct (typ e).
  - unfold pointer_offset. rewrite cast_same; [exact Hu|]. exact Hc.
Qed.

Lemma struct_again t values :
  type_valid t = true -> struct_ok st t (map typ values) = true ->
  struct_expr_from_padded_values t values st' = Ok (expr (EStruct values) t).
Proof.
  unfold struct_ok. intros Hv Hs. bool_inv.
  destruct (lookup_fields_in_type st t) as [fields|] eqn:Ef; [|done].
  rewrite <- (covers_fields _ _ Hcov) in Ef by done. destruct (fields_match_total _ _ H2) as [Hl Hm].
  unfold struct_expr_from_padded_values, struct_expr_with_explicit_padding.
  rewrite H1, Ef. cbn. rewrite Hl. cbn. by rewrite Hm.
Qed.

Lemma transmute_again e t :
  type_valid (typ e) = true -> type_valid t = true ->
  outcome_eqb (sizeof_in_bits (typ e) st) (sizeof_in_bits t st) = true ->
  transmute_to e t st' = Ok (expr (EByteExtract e 0) t).
Proof.
  intros Hve Hvt Heq. unfold outcome_eqb in Heq.
  destruct (sizeof_in_bits (typ e) st) eqn:E1; [|done].
  destruct (sizeof_in_bits t st) eqn:E2; [|done].
  unfold transmute_to. rewrite !(covers_sizeof _ _ Hcov), E1, E2 by done. cbn. by rewrite Heq.
Qed.

Lemma member_again e field t :
  type_valid (typ e) = true -> is_struct_tag (typ e) || is_union_tag (typ e) = true ->
  field_ok type_same st (typ e) field t = true ->
  member e field st' = Ok (expr (EMember e field) t).
Proof.
  intros Hv Htag Hf. unfold field_ok in Hf. unfold member. rewrite (covers_field_type _ _ Hcov) by done.
  destruct (lookup_field_type_in_type st (typ e) field); [|done]. same_types. by known.
Qed.

Lemma union_again t field v :
  type_valid t = true -> is_union_tag t = true -> field_ok type_eqb st t field (typ v) = true ->
  union_expr t field v st' = Ok (expr (EUnion v field) t).
Proof.
  intros Hv Htag Hf. unfold field_ok in Hf. unfold union_expr.
  rewrite (covers_field_type _ _ Hcov) by done.
  destruct (lookup_field_type_in_type st t field); [|done]. by known.
Qed.

Lemma index_again a i t :
  is_integer (typ i) = true -> is_array_like (typ a) = true ->
  match base_type (typ a) with Some bt => type_same bt t | None => false end = true ->
  Expr.index a i = Ok (expr (EIndex a i) t).
Proof.
  intros Hi Ha Ht. unfold Expr.index, index_array. known.
  destruct (is_pointer (typ a)) eqn:Ep; [by destruct (typ a)|]. known.
  destruct (base_type (typ a)); [|done]. by same_types.
Qed.

Lemma statement_expression_again ss t :
  node_ok st (EStatementExpression ss) t = true ->
  statement_expression ss t = Ok (expr (EStatementExpression ss) t).
Proof.
  cbn [node_ok]. intros Hn. unfold statement_expression.
  destruct (last ss) as [s|] eqn:El; [|done]. destruct ss as [|s0 ss]; [done|].
  replace (length (s0 :: ss) =? 0)%nat with false by done.
  cbn [negb rassert mbind outcome_bind unwrap]. destruct (get_expression s); [|done]. cbn.
  by rewrite Hn.
Qed.

Lemma with_table_id {A} (f : SymbolTable -> outcome A) a :
  f st' = Ok a -> with_table (fun st => st) f st' = Ok (a, st').
Proof. intros E. unfold with_table, mbind, ST_bind, st_get, st_lift. by rewrite E. Qed.

Lemma snd_pairs (f : Expr -> ST SymbolTable Expr) l : map snd (map (fun v => (v, f v)) l) = map f l.
Proof. by rewrite map_map. Qed.

Lemma transform_value_id v t :
  value_all same_expr same_stmt v -> value_all valid_expr valid_stmt v ->
  node_ok st v t = true -> type_valid t = true ->
  transform_expr_value T v t st' = Ok (expr v t, st').
Proof.
  intros Hv Hvv Hn Htv. pose proof (transform_type_id table_id table_put t st' Htv) as Ht.
  destruct v; cbn [value_all] in Hv, Hvv; cbn [transform_expr_value]; fold_T;
    cbn -[transform_expr transform_stmt transform_type];
    destruct_and?; cbn [node_ok] in Hn; bool_inv; same_types.
  - unfold transform_expr_address_of. run_parts. apply lift_id. unfold address_of. by known.
  - unfold transform_expr_array. run_parts. apply lift_id. destruct t; try done.
    unfold elems_ok in Hn. bool_inv. unfold array_expr. by known.
  - unfold transform_expr_array_of. run_parts. destruct t; try done. same_types. apply lift_id.
    unfold array_constant. by known.
  - done.
  - unfold transform_expr_bin_op. run_parts. apply lift_id. by apply binop_again.
  - by apply is_bool_eq in Hn as ->.
  - unfold transform_expr_byte_extract. run_parts. apply with_table_id.
    apply N.eqb_eq in H1 as ->. apply transmute_again; [by apply valid_typ | done..].
  - by apply is_c_bool_eq in Hn as ->.
  - unfold transform_expr_dereference. run_parts. apply lift_id. unfold dereference.
    destruct (typ e); try done. by same_types.
  - by apply is_double_eq in Hn as ->.
  - by apply is_float_eq in Hn as ->.
  - unfold transform_expr_function_call. run_parts. apply lift_id. unfold call.
    rewrite call_ok_typecheck by done. cbn. destruct (return_type (typ function)); [|done].
    by same_types.
  - unfold transform_expr_if. run_parts. apply lift_id. unfold ternary.
    known. rewrite cast_same; [done|]. by destruct (typ c).
  - unfold transform_expr_index. run_parts. by apply lift_id, index_again.
  - unfold transform_expr_int_constant. run_parts. apply lift_id. unfold int_constant. by rewrite Hn.
  - unfold transform_expr_member. run_parts. apply with_table_id, member_again; [by apply valid_typ | done..].
  - unfold transform_expr_nondet. by run_parts.
  - unfold transform_expr_pointer_constant. run_parts. apply lift_id. unfold pointer_constant.
    by rewrite Hn.
  - unfold transform_expr_self_op. run_parts. apply lift_id.
    destruct op; try done; unfold postdecr, postincr, self_op; by known.
  - unfold transform_expr_statement_expression. run_parts. by apply lift_id, statement_expression_again.
  - done.
  - unfold transform_expr_struct. run_parts.
    assert (Hs : is_struct_tag t = true) by (unfold struct_ok in Hn; by bool_inv).
    rewrite Hs. cbn [rassert]. unfold st_lift at 1. rewrite (bind_id _ _ _ tt) by done.
    rewrite snd_pairs. run_parts. by apply with_table_id, struct_again.
  - unfold transform_expr_symbol. by run_parts.
  - unfold transform_expr_typecast. run_parts. apply lift_id. unfold cast_to, can_cast_to.
    known. repeat match goal with H : ?x = false |- context [?x] => rewrite H end. done.
  - unfold transform_expr_union. run_parts. by apply with_table_id, union_again.
  - unfold transform_expr_un_op. run_parts. by apply unop_again.
  - unfold transform_expr_vector. run_parts. apply lift_id. destruct t; try done.
    unfold elems_ok in Hn. bool_inv. unfold vector_expr. by known.
Qed.

Lemma function_call_again l f args :
  call_ok (typ f) (map typ args) = true ->
  option_ok (fun x => match return_type (typ f) with
                      | Some rt => type_eqb (typ x) rt
                      | None => false
                      end) l = true ->
  function_call l f args Location.none = Ok (stmt (SFunctionCall l f args) Location.none).
Proof.
  intros Hc Hl. unfold function_call. rewrite call_ok_typecheck by done. cbn.
  destruct l as [x|]; [|done]. cbn in *. destruct (return_type (typ f)); [|done]. cbn.
  by rewrite Hl.
Qed.

Lemma cases_id cs :
  Forall (case_all same_expr same_stmt) cs ->
  st_sequence
    (map (fun es => e ← es.1; s ← es.2; mret (switch_case e s))
       (map (fun x => match x with
                      | mkSwitchCase e s => (transform_expr T e, transform_stmt T s)
                      end) cs)) st' = Ok (cs, st').
Proof.
  intros Hcs. rewrite map_map.
  apply (sequence_id (fun x => e ← (match x with mkSwitchCase e s => (transform_expr T e, transform_stmt T s) end).1;
                               s ← (match x with mkSwitchCase e s => (transform_expr T e, transform_stmt T s) end).2;
                               mret (switch_case e s))).
  eapply Forall_impl; [exact Hcs|]. intros [e s] [He Hs]. cbn -[transform_expr transform_stmt].
  by run_parts.
Qed.

Lemma transform_body_id b :
  body_all same_expr same_stmt b -> body_ok b = true ->
  exists l, transform_stmt_body T b st' = Ok (mkStmt b l, st').
Proof.
  intros Hb Hok.
  destruct b; cbn [body_all] in Hb; cbn [transform_stmt_body]; fold_T;
    cbn -[transform_expr transform_stmt transform_type];
    destruct_and?; cbn [body_ok] in Hok; bool_inv; try (by eexists).
  - exists Location.none. unfold transform_stmt_assign. run_parts. apply lift_id. unfold assign.
    by known.
  - exists Location.none. unfold transform_stmt_assume. run_parts. apply lift_id. unfold assume. by known.
  - exists Location.none. unfold transform_stmt_atomic_block. by run_parts.
  - exists Location.none. unfold transform_stmt_block. by run_parts.
  - exists Location.none. unfold transform_stmt_decl. run_parts. apply lift_id. unfold decl.
    known. destruct value as [x|]; cbn in *; [by known | done].
  - exists Location.none. unfold transform_stmt_expression. by run_parts.
  - exists Location.none. unfold transform_stmt_for. run_parts. apply lift_id. unfold for_loop. by known.
  - exists Location.none. unfold transform_stmt_function_call. run_parts. apply lift_id.
    by apply function_call_again.
  - exists Location.none. unfold transform_stmt_goto. apply lift_id. unfold goto. by rewrite Hok.
  - exists Location.none. unfold transform_stmt_ifthenelse. run_parts. apply lift_id.
    unfold if_then_else. by known.
  - exists (stmt_location body). unfold transform_stmt_label. run_parts. apply lift_id.
    unfold with_label. by rewrite Hok.
  - exists Location.none. unfold transform_stmt_return. by run_parts.
  - exists Location.none. unfold transform_stmt_switch. run_parts.
    rewrite (bind_id _ _ _ _ (cases_id _ ltac:(eassumption))). run_parts. apply lift_id.
    unfold switch. by known.
  - exists Location.none. unfold transform_stmt_while. run_parts. apply lift_id. unfold while_loop.
    by known.
Qed.

Lemma types_all_value p v :
  value_types_all p v = true <->
  value_all (fun e => expr_types_all p e = true) (fun s => stmt_types_all p s = true) v.
Proof using.
  destruct v; cbn; rewrite ?andb_true_iff, ?forallb_forall, <- ?List.Forall_forall; try done.
Qed.

Lemma types_all_body p b :
  body_types_all p b = true ->
  body_all (fun e => expr_types_all p e = true) (fun s => stmt_types_all p s = true) b.
Proof using.
  destruct b; cbn; intros Hb; bool_inv;
    repeat match goal with H : forallb _ _ = true |- _ => apply forallb_Forall in H end;
    repeat split; try done; try by destruct value, lhs.
  all: try by match goal with |- option_all _ ?o => destruct o end.
  eapply Forall_impl; [eassumption|]. intros [] Hc. cbn in *. by bool_inv.
Qed.

Lemma transform_id :
  (forall e, wf_expr st e = true -> valid_expr e -> same_expr e)
  /\ (forall s, wf_stmt st s = true -> valid_stmt s -> same_stmt s).
Proof.
  apply ast_mutual_ind.
  - intros v t l IH [Hn Hw%wf_value_all]%wf_mk Hv. cbn in Hv. bool_inv.
    apply types_all_value in H2. cbn [transform_expr]. fold (transform_expr_value T).
    erewrite bind_id; [|apply transform_value_id; try done]; [done|].
    eapply value_all_mp; [|exact H2]. eapply value_all_mp; [exact IH | exact Hw].
  - intros b l IH [Hn Hw%wf_body_all]%wf_mk_stmt Hv%types_all_body.
    destruct (transform_body_id b) as [l' Hl]; [|done|].
    { eapply body_all_mp; [|exact Hv]. eapply body_all_mp; [exact IH | exact Hw]. }
    cbn [transform_stmt]. fold (transform_stmt_body T). by rewrite (bind_id _ _ _ _ Hl).
Qed.

Definition valid_symbol (s : Symbol) : bool :=
  type_valid (sym_typ s) &&
  match sym_value s with
  | SVExpr e => expr_types_all type_valid e
  | SVStmt b => stmt_types_all type_valid b
  | SVNone => true
  end.

Lemma symbol_id s :
  wf_symbol st s = true -> valid_symbol s = true -> transform_one_symbol T s st' = Ok (s, st').
Proof.
  unfold wf_symbol, valid_symbol. intros Hw Hv. bool_inv.
  unfold transform_one_symbol. cbn -[transform_type transform_expr transform_stmt].
  unfold transform_symbol. rewrite (bind_id _ _ _ _ (transform_type_id table_id table_put _ _ ltac:(eassumption))).
  destruct s. cbn -[transform_type transform_expr transform_stmt] in *. destruct sym_value as [e|b|].
  - pose proof (proj1 transform_id e Hw H2) as E.
    rewrite (bind_id _ _ _ (SVExpr e)); [done|]. cbn. by rewrite (bind_id _ _ _ _ E).
  - pose proof (proj2 transform_id b Hw H2) as E.
    rewrite (bind_id _ _ _ (SVStmt b)); [done|]. cbn. by rewrite (bind_id _ _ _ _ E).
  - by rewrite (bind_id _ _ _ SVNone).
Qed.
End Terms.

(** ** The whole table *)

(** The tables the identity is shown for: symbols under their own names, the
    predefined symbols among them, valid types, well-formed values, and types
    (the names with the prefix of [aggr_tag]) without values. *)
Record table_valid (st : SymbolTable) : Prop := {
  table_keys : symtab_ok st;
  table_new st0 : symtab_new (machine_model st) = Ok st0 -> symbol_table st0 ⊆ symbol_table st;
  table_symbols name s :
    lookup st name = Some s -> wf_symbol st s = true /\ valid_symbol s = true;
  table_tags name s :
    lookup st name = Some s -> String.prefix "tag-" name = true -> sym_value s = SVNone;
}.

Section Table.
Context (st : SymbolTable) (Hst : table_valid st).

(** A part of the table. *)
Definition part (cur : SymbolTable) : Prop :=
  machine_model cur = machine_model st /\ symbol_table cur ⊆ symbol_table st.

Lemma part_insert cur name s :
  part cur -> lookup st name = Some s -> lookup cur name = None ->
  insert_symbol T s cur = Ok (tt, raw_insert cur s) /\ part (raw_insert cur s).
Proof.
  intros [Hm Hsub] Hl Hn. pose proof (table_keys _ Hst _ _ Hl) as Hname. cbn in Hname.
  split.
  - assert (Ei : insert cur s = Ok (raw_insert cur s)) by (apply insert_ok; by rewrite Hname).
    unfold insert_symbol. cbn -[insert]. unfold mbind, ST_bind, st_lift. cbn -[insert].
    by rewrite Ei.
  - split; [done|]. cbn. rewrite Hname. by apply insert_subseteq_l.
Qed.

(** The first loop adds the symbols without values. *)
Lemma type_loop_id l cur :
  part cur -> Forall (fun x => lookup st x.1 = Some x.2) l ->
  exists cur', type_symbols_loop T l (dom (symbol_table cur)) cur
                 = Ok (dom (symbol_table cur'), cur')
    /\ part cur' /\ symbol_table cur ⊆ symbol_table cur'
    /\ Forall (fun x => sym_value x.2 = SVNone -> lookup cur' x.1 = Some x.2) l.
Proof.
  intros Hp Hl. revert cur Hp. induction Hl as [|[name s] l Hs Hl IH]; intros cur Hp.
  { exists cur. by split_and!. }
  cbn [fst snd] in Hs. cbn [type_symbols_loop].
  rewrite (bind_id st_get _ cur cur) by done.
  change (symbol_table_of T cur) with cur.
  destruct (negb (contains cur name) && value_is_none (sym_value s)) eqn:E.
  - apply andb_true_iff in E as [En Ev]. unfold contains in En. apply negb_true_iff in En.
    apply bool_decide_eq_false in En. assert (Hn : lookup cur name = None)
      by (unfold lookup; by destruct (symbol_table cur !! name) eqn:?; [destruct En; eauto|]).
    destruct (table_symbols _ Hst _ _ Hs) as [_ Hv]. unfold valid_symbol in Hv. bool_inv.
    assert (Et : transform_one_symbol T s cur = Ok (s, cur)).
    { unfold transform_one_symbol. cbn -[transform_type]. unfold transform_symbol.
      rewrite (bind_id _ _ _ _ (transform_type_id table_id table_put _ _ ltac:(eassumption))).
      destruct s. cbn in *. by destruct sym_value. }
    rewrite (bind_id _ _ _ _ Et). destruct (part_insert _ _ _ Hp Hs Hn) as [Ei Hp'].
    rewrite (bind_run _ _ _ _ _ Ei).
    pose proof (table_keys _ Hst _ _ Hs) as Hname. cbn in Hname.
    replace ({[name]} ∪ dom (symbol_table cur)) with (dom (symbol_table (raw_insert cur s)))
      by (cbn; rewrite dom_insert_L, Hname; done).
    destruct (IH _ Hp') as (cur' & E' & Hp2 & Hsub & Hall). exists cur'.
    assert (Hsub0 : symbol_table cur ⊆ symbol_table (raw_insert cur s)).
    { cbn. rewrite Hname. by apply insert_subseteq. }
    split_and!; [done|done|by etrans|]. constructor; [|done]. intros _. cbn.
    eapply lookup_weaken; [|exact Hsub]. cbn. rewrite Hname. apply lookup_insert_eq.
  - destruct (IH _ Hp) as (cur' & E' & Hp2 & Hsub & Hall). exists cur'.
    split_and!; [done..|]. constructor; [|done]. cbn. intros Hv. rewrite Hv in E. cbn in E.
    rewrite andb_true_r in E. apply negb_false_iff, bool_decide_eq_true in E as [x Hx].
    assert (x = s) as ->; [|by eapply lookup_weaken].
    pose proof (lookup_weaken _ _ _ _ Hx (proj2 Hp)) as Hs'. unfold lookup in Hs. congruence.
Qed.

(** A part that has every declaration covers the table. *)
Lemma part_covers cur :
  part cur -> (forall name s, lookup st name = Some s -> sym_value s = SVNone ->
                 lookup cur name = Some s) -> covers st cur.
Proof.
  intros [Hm Hsub] Hd. split; [done|done| |].
  - intros name Ht. destruct (lookup st name) as [s|] eqn:El.
    + apply (Hd _ _ El). by eapply table_tags.
    + destruct (lookup cur name) eqn:Ec; [|done].
      apply (lookup_weaken _ _ _ _ Ec) in Hsub. unfold lookup in El. congruence.
  - intros name s Hl. destruct (table_symbols _ Hst _ _ Hl) as [_ Hv].
    unfold valid_symbol in Hv. by bool_inv.
Qed.

(** The second loop adds the others. *)
Lemma value_loop_id l added cur :
  part cur -> NoDup l.*1 -> Forall (fun x => lookup st x.1 = Some x.2) l ->
  (forall name s, lookup st name = Some s -> sym_value s = SVNone -> lookup cur name = Some s) ->
  (forall name, name ∈ added -> is_Some (lookup cur name)) ->
  (forall name s, lookup st name = Some s -> sym_value s = SVNone -> name ∈ added) ->
  (forall name, name ∈ l.*1 -> name ∉ added -> lookup cur name = None) ->
  exists cur', value_symbols_loop T l added cur = Ok (tt, cur')
    /\ part cur' /\ symbol_table cur ⊆ symbol_table cur'
    /\ Forall (fun x => lookup cur' x.1 = Some x.2) l.
Proof.
  intros Hp Hnd Hl. revert cur Hp Hnd.
  induction Hl as [|[name s] l Hs Hl IH]; intros cur Hp Hnd Hd Ha Hna Hout.
  { exists cur. by split_and!. }
  cbn [fst snd] in Hs. cbn in Hnd. apply NoDup_cons in Hnd as [Hname Hnd].
  cbn [value_symbols_loop]. case_bool_decide as Hin; cbn [negb].
  - destruct (IH cur) as (cur' & E' & Hp2 & Hsub & Hall); [done..| |].
    { intros x Hx. apply Hout. by right. }
    exists cur'. split_and!; [done..|]. constructor; [|done]. cbn.
    destruct (Ha _ Hin) as [s0 Hs0]. assert (s0 = s) as ->; [|by eapply lookup_weaken].
    pose proof (lookup_weaken _ _ _ _ Hs0 (proj2 Hp)) as Hs'. unfold lookup in Hs. congruence.
  - assert (Hv : value_is_none (sym_value s) = false).
    { destruct (sym_value s) eqn:Ev; [done..|]. by destruct Hin; eapply Hna. }
    rewrite Hv. rewrite (bind_id _ _ _ tt) by done.
    destruct (table_symbols _ Hst _ _ Hs) as [Hw Hvs].
    rewrite (bind_id _ _ _ _ (symbol_id st cur (part_covers _ Hp Hd) s Hw Hvs)).
    assert (Hn : lookup cur name = None) by (apply Hout; [left | done]).
    destruct (part_insert _ _ _ Hp Hs Hn) as [Ei Hp']. rewrite (bind_run _ _ _ _ _ Ei).
    pose proof (table_keys _ Hst _ _ Hs) as Hk. cbn in Hk.
    assert (Hsub0 : symbol_table cur ⊆ symbol_table (raw_insert cur s)).
    { cbn. rewrite Hk. by apply insert_subseteq. }
    destruct (IH (raw_insert cur s)) as (cur' & E' & Hp2 & Hsub & Hall); [done|done| | |done| |].
    + intros x sx Hx Hvx. eapply lookup_weaken; [by apply Hd | done].
    + intros x Hx. destruct (Ha x Hx) as [sx Hsx]. exists sx. by eapply lookup_weaken.
    + intros x Hx Hxa. unfold lookup. cbn. rewrite Hk, lookup_insert_ne; [|set_solver].
      apply Hout; [by right | done].
    + exists cur'. split_and!; [done|done|by etrans|]. constructor; [|done]. cbn.
      eapply lookup_weaken; [|exact Hsub]. cbn. rewrite Hk. apply lookup_insert_eq.
Qed.

Lemma iter_lookup : Forall (fun x => lookup st x.1 = Some x.2) (iter st).
Proof. apply Forall_forall. intros [k v] Hx. by apply elem_of_btree_iter in Hx. Qed.

Lemma identity_table_aux : identity_transform st = Ok st.
Proof.
  destruct (symtab_new_symbols (machine_model st)) as (l0 & st0 & E0 & _ & Est0 & _).
  unfold identity_transform. rewrite E0. cbn [mbind outcome_bind].
  assert (Hp0 : part st0).
  { split; [by rewrite Est0, foldl_raw_insert_model | by apply (table_new _ Hst)]. }
  destruct (type_loop_id (iter st) st0 Hp0 iter_lookup) as (st1 & E1 & Hp1 & Hsub1 & Hall1).
  assert (Hd : forall name s, lookup st name = Some s -> sym_value s = SVNone ->
                 lookup st1 name = Some s).
  { intros name s Hs Hv. rewrite Forall_forall in Hall1.
    apply (Hall1 (name, s)); [by apply elem_of_btree_iter | done]. }
  destruct (value_loop_id (iter st) (dom (symbol_table st1)) st1)
    as (st2 & E2 & Hp2 & Hsub2 & Hall2); [done|apply NoDup_btree_iter|apply iter_lookup|done| | | |].
  { intros name Hin. by apply elem_of_dom in Hin. }
  { intros name s Hs Hv. apply elem_of_dom. exists s. by apply Hd. }
  { intros name _ Hout. by apply not_elem_of_dom in Hout. }
  assert (Hrun : transform_symbol_table T st st0 = Ok (st2, st2)).
  { unfold transform_symbol_table. rewrite (bind_id _ _ _ tt) by done.
    rewrite (bind_id st_get _ st0 st0) by done. change (symbol_table_of T st0) with st0.
    rewrite (bind_run _ _ _ _ _ E1), (bind_run _ _ _ _ _ E2). by rewrite (bind_id _ _ _ tt). }
  rewrite Hrun. cbn. f_equal. destruct Hp2 as [Hm2 Hs2], st, st2. cbn in *. f_equal; [|done].
  apply (anti_symm (⊆)); [done|]. apply map_subseteq_spec. intros name s Hs.
  rewrite Forall_forall in Hall2. apply (Hall2 (name, s)). by apply elem_of_btree_iter.
Qed.
End Table.
End Identity.

(** ** Properties *)

(** The transformer framework changes nothing by itself: with every method at its
    default, taking a well-formed expression apart and rebuilding it through the
    constructors gives the same expression (locations included) and leaves the
    state alone.  The table used may be a part of the original as long as it has
    the declarations of the types. *)
Theorem identity_expr `{InternOrder} `{StrDebug} (st st' : SymbolTable) (e : Expr) :
  covers st st' -> wf_expr st e = true -> expr_types_all type_valid e = true ->
  transform_expr identity_transformer e st' = Ok (e, st').
Proof. intros Hcov. apply (proj1 (transform_id st st' Hcov)). Qed.

(** A table with a struct and a function that reads one of its fields. *)
Definition sample_type_symbol : Symbol :=
  mkSymbol "tag-s" Location.none
    (TStruct "s" [Field "a" (TCInteger CInt); Padding "pad" 32; Field "b" (TCInteger CSizeT)])
    SVNone None None None ModeC false false false false false false true false false false false
    false false false false false.
Definition sample_var : Expr := symbol_expression "x" (struct_tag "s").
Definition sample_member : Expr := expr (EMember sample_var "a") (TCInteger CInt).
Definition sample_get : Symbol :=
  mkSymbol "get" Location.none (TCode [] (TCInteger CInt))
    (SVStmt (block [stmt (SDecl sample_var None) Location.none;
                    ret (Some sample_member) Location.none] Location.none))
    None None None ModeC false false false false false false false false false false false false
    false false false false.
Definition sample_program : SymbolTable :=
  match symtab_new x86_64 with
  | Ok st => raw_insert (raw_insert st sample_type_symbol) sample_get
  | Panic => mkSymbolTable ∅ x86_64
  end.

Definition sample_symbol_ok (name : string) (s : Symbol) : bool :=
  String.eqb (sym_name s) name && (wf_symbol sample_program s && valid_symbol s)
  && (negb (String.prefix "tag-" name) || value_is_none (sym_value s)).

Lemma sample_program_ok :
  forallb (fun x => sample_symbol_ok x.1 x.2) (map_to_list (symbol_table sample_program)) = true.
Proof. vm_compute. reflexivity. Qed.

Lemma symbols_all (f : InternedString -> Symbol -> bool) (st : SymbolTable) name s :
  forallb (fun x => f x.1 x.2) (map_to_list (symbol_table st)) = true ->
  lookup st name = Some s -> f name s = true.
Proof.
  rewrite forallb_forall. intros Hall Hs. apply (Hall (name, s)).
  by apply list_elem_of_In, elem_of_map_to_list.
Qed.

Lemma sample_program_valid : table_valid sample_program.
Proof.
  assert (Hall : forall name s, lookup sample_program name = Some s ->
                   sample_symbol_ok name s = true).
  { intros name s. apply symbols_all, sample_program_ok. }
  split.
  - intros name s Hs%Hall. unfold sample_symbol_ok in Hs. bool_inv. by apply String.eqb_eq.
  - intros st0 E0. destruct (symtab_new_symbols x86_64) as (l & st & E & Hn & Est & _).
    assert (Hm : machine_model sample_program = x86_64) by (vm_compute; reflexivity).
    rewrite Hm, E in E0. injection E0 as <-. unfold sample_program. rewrite E. cbn.
    assert (Hout : forall n, n ∉ new_names -> symbol_table st !! n = None).
    { intros n Hin. rewrite Est. fold (lookup (foldl raw_insert (mkSymbolTable ∅ x86_64) l) n).
      rewrite foldl_raw_insert_lookup by (by rewrite Hn). apply lookup_empty. }
    etrans; apply insert_subseteq; [|rewrite lookup_insert_ne by done]; apply Hout;
      apply (bool_decide_unpack _); vm_compute; exact Logic.I.
  - intros name s Hs%Hall. unfold sample_symbol_ok in Hs. by bool_inv.
  - intros name s Hs%Hall Ht. unfold sample_symbol_ok in Hs. bool_inv. rewrite Ht in H0.
    cbn in H0. by destruct (sym_value s).
Qed.

Lemma identity_expr_witness :
  transform_expr identity_transformer sample_member sample_program
  = Ok (sample_member, sample_program).
Proof.
  apply (identity_expr sample_program sample_program).
  - apply (part_covers sample_program sample_program_valid); [by split | done].
  - vm_compute. reflexivity.
  - vm_compute. reflexivity.
Defined.

(** C6. [IdentityTransformer::transform] returns the symbol table it is given, for every
    table that has the predefined symbols of its machine model, keeps symbols
    under their names, has valid types and well-formed values, and whose types
    are declarations.  In particular its two passes over the table, declarations
    first, meet every use of a type after its declaration. *)
Theorem identity_table `{InternOrder} `{StrDebug} (st : SymbolTable) :
  table_valid st -> identity_transform st = Ok st.
Proof. apply identity_table_aux. Qed.

Lemma identity_table_witness : identity_transform sample_program = Ok sample_program.
Proof. apply (identity_table sample_program). apply sample_program_valid. Defined.
