(* ===== verification/ExprTransformer.v ===== *)
(** * The expression pass of [--gen-c-runnable]
    ([cbmc/src/goto_program/symtab_transformer/gen_c_transformer/expr_transformer.rs])

    The pass replaces what C does not accept: 128-bit constants, [Implies],
    indexing into vectors, [extern] symbols and the Rust [main].  Its state is the
    new symbol table and the map of extern statics to initialise. *)

From S2P Require Import Prelude CbmcString MachineModel Location Typ Ast SymbolTable Expr Symbol.
From S2P Require Import Builtin Stmt Env Eval Built Transformer Identity.

(** [bignum_to_expr]; [BigInt] bit operations are those of [Z] (two's complement). *)
Definition bignum_to_expr (num : Z) (t : Type_) : outcome Expr :=
  let right_mask := Z.of_N u64_max in
  let split :=
    assert! bool_decide (width t = Some 128%N);
    unsigned_typ ← unsigned_int 128;
    let left_mask := Z.shiftl right_mask 64 in
    let left_half := Z.shiftr (Z.land num left_mask) 64 in
    let right_half := Z.land num right_mask in
    left_constant ← int_constant left_half unsigned_typ;
    right_constant ← int_constant right_half unsigned_typ;
    c ← int_constant 64 c_int;
    e ← shl left_constant c;
    e ← bitor e right_constant;
    cast_to e t in
  if is_c_integer t then int_constant num t
  else match width t with
       | Some w => if (w <=? 64)%N then int_constant num t else split
       | None => split
       end.

(** [struct ExprTransformer] *)
Record ExprTransformer := mkExprTransformer {
  et_symbol_table : SymbolTable;
  empty_statics : gmap InternedString Expr;
}.

Definition set_et_table (st : SymbolTable) (s : ExprTransformer) : ExprTransformer :=
  mkExprTransformer st (empty_statics s).

Section Methods.
Context `{InternOrder} `{StrDebug} `{HashOrder}.

Abbreviation M := (ST ExprTransformer).

(** Run an operation of the symbol table ([self.mut_symbol_table().op()]). *)
Definition on_table {A} (f : SymbolTable -> outcome (A * SymbolTable)) : M A := fun s =>
  r ← f (et_symbol_table s); Ok (r.1, set_et_table r.2 s).

Definition add_parameter_identifier (p : Parameter_) : M Parameter_ :=
  match parameter_identifier p with
  | Some _ => mret p
  | None =>
      let name := "__" +:+ to_identifier (parameter_typ p) in
      parameter_sym ← on_table (fun st => ensure st name (fun _ name =>
        Ok (variable name name (parameter_typ p) Location.none)));
      st_lift (to_function_parameter parameter_sym)
  end.

(** [empty_statics_owned] *)
Definition empty_statics_owned : M (gmap InternedString Expr) := fun s =>
  Ok (empty_statics s, mkExprTransformer (et_symbol_table s) ∅).

(** [transform_expr_bin_op] *)
Definition et_bin_op (op : BinaryOperand) (lhs rhs : M Expr) : M Expr :=
  l ← lhs; r ← rhs;
  st_lift (match op with
           | OpImplies => n ← not_ l; o ← bitor n r; cast_to o bool_
           | _ => binop l op r
           end).

(** [transform_expr_int_constant] *)
Definition et_int_constant (t : M Type_) (v : Z) : M Expr :=
  t ← t; st_lift (bignum_to_expr v t).

(** [transform_expr_index] *)
Definition et_index (array idx : M Expr) : M Expr :=
  a ← array; i ← idx;
  st_lift (if is_vector (typ a) then
             bt ← unwrap (base_type (typ a));
             p ← address_of a;
             p ← cast_to p (to_pointer bt);
             index p i
           else index a i).

(** [transform_symbol] *)
Definition et_symbol (on_type : Type_ -> M Type_) (on_value : SymbolValues -> M SymbolValues)
    (symbol : Symbol) : M Symbol :=
  if is_extern symbol then
    if is_code (sym_typ symbol) || is_variadic_code (sym_typ symbol) then
      _ ← st_lift (rassert (value_is_none (sym_value symbol)));
      transformed_typ ← on_type (sym_typ symbol);
      ps ← st_lift (unwrap (parameters transformed_typ));
      ps ← st_sequence (map add_parameter_identifier ps);
      ret_typ ← st_lift (unwrap (return_type transformed_typ));
      let new_typ := if is_code transformed_typ then code ps ret_typ
                     else variadic_code ps ret_typ in
      let ret_e := if is_empty ret_typ then None else Some (nondet ret_typ) in
      let body := ret ret_e Location.none in
      mret (set_value (set_typ (with_is_extern symbol false) new_typ) (SVStmt body))
    else
      _ ← st_lift (rassert (is_static_lifetime symbol));
      new_typ ← on_type (sym_typ symbol);
      s ← st_get;
      _ ← st_put (mkExprTransformer (et_symbol_table s)
                    (<[sym_name symbol := nondet new_typ]> (empty_statics s)));
      mret (set_value (set_typ (set_location (with_is_extern symbol false) Location.none) new_typ)
              SVNone)
  else
    let new_symbol :=
      if String.eqb (sym_name symbol) "main" then
        set_pretty_name (set_base_name (set_name symbol "main_") (Some "main_")) (Some "main_")
      else symbol in
    new_typ ← on_type (sym_typ symbol);
    new_value ← on_value (sym_value symbol);
    mret (set_value (set_typ new_symbol new_typ) new_value).

(** The loop of [postprocess] over the statics. *)
Definition init_statics (l : list (InternedString * Expr)) : outcome (list Stmt) :=
  map_outcome (fun nv => assign (symbol_expression nv.1 (typ nv.2)) nv.2 Location.none) l.

(** [postprocess] *)
Definition et_postprocess : M unit :=
  statics ← empty_statics_owned;
  inits ← st_lift (init_statics (hash_iter statics));
  s ← st_get;
  calls ← st_lift (match lookup (et_symbol_table s) "main_" with
                   | Some main_ =>
                       e ← call (to_expr main_) [];
                       Ok [code_expression e Location.none]
                   | None => Ok []
                   end);
  zero ← st_lift (int_constant 0 (TCInteger CInt));
  let main_body := inits ++ calls ++ [ret (Some zero) Location.none] in
  let new_main := function "main" (code [] (TCInteger CInt))
                    (Some (block main_body Location.none)) (Some "main") Location.none in
  on_table (fun st => st ← insert st new_main; Ok (tt, st)).

(** [impl Transformer for ExprTransformer] *)
Definition expr_transformer : Transformer ExprTransformer :=
  with_postprocess
    (with_on_symbol
       (with_on_expr_index
          (with_on_expr_int_constant
             (with_on_expr_bin_op (default_transformer et_symbol_table set_et_table) et_bin_op)
             et_int_constant)
          et_index)
       et_symbol)
    et_postprocess.

(** [ExprTransformer::transform] *)
Definition expr_transform (original_symbol_table : SymbolTable) : outcome SymbolTable :=
  new_symbol_table ← symtab_new (machine_model original_symbol_table);
  r ← transform_symbol_table expr_transformer original_symbol_table
        (mkExprTransformer new_symbol_table ∅);
  Ok r.1.
End Methods.

(** ** Wide constants *)

Section Bignum.
Open Scope Z_scope.

Lemma land_mask z : Z.land z (Z.of_N u64_max) = z mod 2 ^ 64.
Proof. change (Z.of_N u64_max) with (Z.ones 64). by apply Z.land_ones. Qed.

Lemma left_half_mod z :
  Z.shiftr (Z.land z (Z.shiftl (Z.of_N u64_max) 64)) 64 = (z / 2 ^ 64) mod 2 ^ 64.
Proof.
  rewrite Z.shiftr_land, Z.shiftr_shiftl_l, Z.shiftl_0_r, land_mask by lia.
  by rewrite Z.shiftr_div_pow2.
Qed.

(** Two halves of 64 bits make up the number modulo [2 ^ 128]. *)
Lemma halves_lor z :
  Z.lor (Z.shiftl ((z / 2 ^ 64) mod 2 ^ 64) 64) (z mod 2 ^ 64) = z mod 2 ^ 128.
Proof.
  assert (Hl : Z.land (Z.shiftl ((z / 2 ^ 64) mod 2 ^ 64) 64) (z mod 2 ^ 64) = 0).
  { apply Z.bits_inj'. intros n Hn. rewrite Z.land_spec, Z.bits_0.
    destruct (Z.ltb_spec n 64).
    - by rewrite Z.shiftl_spec_low.
    - rewrite (Z.mod_pow2_bits_high z) by lia. apply andb_false_r. }
  rewrite <- Z.lxor_lor, <- Z.add_nocarry_lxor by done. rewrite Z.shiftl_mul_pow2 by lia.
  change (2 ^ 128) with (2 ^ 64 * 2 ^ 64). rewrite Z.rem_mul_r by lia. lia.
Qed.

Lemma halves_bound z : 0 <= z mod 2 ^ 64 <= Z.of_N u64_max.
Proof. pose proof (Z.mod_pos_bound z (2 ^ 64) ltac:(lia)). change (Z.of_N u64_max) with (2 ^ 64 - 1). lia. Qed.

(** The expression that [bignum_to_expr] builds for a 128-bit type. *)
Definition halves_expr (num : Z) : Expr :=
  let u128 := TUnsignedbv 128 in
  let shifted := expr (EBinOp OpShl (expr (EIntConstant ((num / 2 ^ 64) mod 2 ^ 64)) u128)
                         (expr (EIntConstant 64) c_int)) u128 in
  expr (EBinOp OpBitor shifted (expr (EIntConstant (num mod 2 ^ 64)) u128)) u128.

Lemma bignum_wide num t :
  t = TSignedbv 128 \/ t = TUnsignedbv 128 ->
  bignum_to_expr num t
  = Ok (if is_signed t x86_64 then expr (ETypecast (halves_expr num)) t else halves_expr num).
Proof.
  unfold bignum_to_expr. cbv zeta. rewrite left_half_mod, land_mask. by intros [-> | ->].
Qed.

Lemma halves_value mm eval `{!GotoSemantics mm eval} `{!GotoBits mm eval} num :
  int_width mm = 32%N -> eval (halves_expr num) = Some (VInt (num mod 2 ^ 128)).
Proof.
  intros Hw. set (l := (num / 2 ^ 64) mod 2 ^ 64). set (r := num mod 2 ^ 64).
  assert (Hb : 0 <= l < 2 ^ 64 /\ 0 <= r < 2 ^ 64) by (split; apply Z.mod_pos_bound; lia).
  assert (Hlt : 2 ^ 64 < 2 ^ 128) by done.
  assert (El : eval (expr (EIntConstant l) (TUnsignedbv 128)) = Some (VInt l)).
  { apply eval_int_constant; [done|]. cbn. lia. }
  assert (Er : eval (expr (EIntConstant r) (TUnsignedbv 128)) = Some (VInt r)).
  { apply eval_int_constant; [done|]. cbn. lia. }
  assert (Ec : eval (expr (EIntConstant 64) c_int) = Some (VInt 64)).
  { apply eval_int_constant; [done|]. cbn. rewrite Hw. cbn. lia. }
  set (sh := expr (EBinOp OpShl (expr (EIntConstant l) (TUnsignedbv 128))
                     (expr (EIntConstant 64) c_int)) (TUnsignedbv 128)).
  assert (Es : eval sh = Some (VInt (Z.shiftl l 64))).
  { etransitivity; [by apply (eval_shl (expr (EIntConstant l) (TUnsignedbv 128)) _ l 64)|].
    do 2 f_equal. apply wrap_id; [done|]. cbn. rewrite Z.shiftl_mul_pow2 by lia.
    change (2 ^ 128) with (2 ^ 64 * 2 ^ 64). nia. }
  assert (Hops : int_operands eval mm sh (expr (EIntConstant r) (TUnsignedbv 128))
                   (Z.shiftl l 64) r) by done.
  etransitivity; [exact (eval_bitor _ _ _ _ _ Hops)|]. do 2 f_equal. apply halves_lor.
Qed.

Lemma wrap_mod w sg x : wrap w sg (x mod 2 ^ Z.of_N w) = wrap w sg x.
Proof. unfold wrap. by rewrite Zmod_mod. Qed.

Lemma bignum_value mm eval `{!GotoSemantics mm eval} `{!GotoBits mm eval} num t :
  int_width mm = 32%N -> t = TSignedbv 128 \/ t = TUnsignedbv 128 ->
  in_range 128 (is_signed t mm) num ->
  exists e, bignum_to_expr num t = Ok e /\ typ e = t /\ eval e = Some (VInt num).
Proof.
  intros Hw Ht Hr. rewrite (bignum_wide num t Ht). pose proof (halves_value mm eval num Hw) as Hv.
  destruct Ht as [-> | ->]; cbn in *; eexists; (split; [done|]); (split; [done|]).
  - etransitivity; [by apply (eval_typecast (halves_expr num) (num mod 2 ^ 128) (TSignedbv 128))|].
    do 2 f_equal. etransitivity; [apply (wrap_mod 128)|]. by apply wrap_id.
  - rewrite Hv. do 2 f_equal. apply Z.mod_small. exact Hr.
Qed.
End Bignum.

(** ** The methods *)

Section Proofs.
Context `{InternOrder} `{StrDebug} `{HashOrder}.

Lemma not_typ e n : not_ e = Ok n -> typ n = TBool.
Proof. unfold not_, unop. intros. by outcome_inv. Qed.

Lemma bitor_bool a b : typ a = TBool -> bitor a b = Panic.
Proof.
  intros Ha. unfold bitor, binop, typecheck_binop_args. rewrite Ha. by rewrite andb_false_r.
Qed.

Lemma bin_op_implies (l r : ST ExprTransformer Expr) s : et_bin_op OpImplies l r s = Panic.
Proof.
  unfold et_bin_op, mbind at 1, ST_bind at 1. destruct (l s) as [[x s1]|]; [|done].
  unfold mbind at 1, ST_bind at 1. destruct (r s1) as [[y s2]|]; [|done].
  unfold st_lift. destruct (not_ x) as [n|] eqn:En; [|done]. cbn [mbind outcome_bind].
  by rewrite bitor_bool by (by eapply not_typ).
Qed.

Lemma ensure_named st name t x st' :
  ensure st name (fun _ name => Ok (variable name name t Location.none)) = Ok (x, st') ->
  symtab_ok st -> sym_name x = name.
Proof.
  intros He Hok. apply ensure_ok in He as [[Hx _]|(_ & _ & Hn & _)]; [|done].
  exact (Hok _ _ Hx).
Qed.

(** A parameter without a name gets one made from its type. *)
Lemma add_parameter_identifier_named p s p' s' :
  symtab_ok (et_symbol_table s) -> add_parameter_identifier p s = Ok (p', s') ->
  parameter_identifier p'
  = match parameter_identifier p with
    | Some i => Some i
    | None => Some ("__" +:+ to_identifier (parameter_typ p))
    end /\ symtab_ok (et_symbol_table s').
Proof.
  intros Hok. unfold add_parameter_identifier.
  destruct (parameter_identifier p) eqn:Ep; [by intros [= -> ->]|].
  unfold mbind, ST_bind, on_table, st_lift. intros Ha.
  destruct (ensure _ _ _) as [[x st']|] eqn:Ee; cbn in Ha; [|done].
  unfold to_function_parameter, as_parameter in Ha. destruct (is_lvalue (sym_typ x)); [|done].
  cbn in Ha. injection Ha as <- <-. cbn. pose proof (ensure_named _ _ _ _ _ Ee Hok) as ->.
  split; [done|]. by eapply symtab_step_ok; [eapply step_ensure, Ee|].
Qed.

Lemma add_parameters_named ps s ps' s' :
  symtab_ok (et_symbol_table s) -> st_sequence (map add_parameter_identifier ps) s = Ok (ps', s') ->
  Forall2 (fun p p' => parameter_identifier p'
             = match parameter_identifier p with
               | Some i => Some i
               | None => Some ("__" +:+ to_identifier (parameter_typ p))
               end) ps ps'.
Proof.
  revert s ps'. induction ps as [|p ps IH]; intros s ps' Hok; cbn; [by intros [= <- <-]|].
  unfold mbind, ST_bind. destruct (add_parameter_identifier p s) as [[p1 s1]|] eqn:E1; [|done].
  destruct (st_sequence _ s1) as [[l s2]|] eqn:E2; [|done]. intros [= <- <-].
  destruct (add_parameter_identifier_named _ _ _ _ Hok E1). constructor; eauto.
Qed.

Lemma init_statics_total l :
  init_statics l
  = Ok (map (fun nv => stmt (SAssign (symbol_expression nv.1 (typ nv.2)) nv.2) Location.none) l).
Proof.
  apply map_outcome_total. intros [n v]. unfold assign. cbn. by rewrite type_eqb_refl.
Qed.

(** The call of [main_] in the new [main]. *)
Lemma main_call st :
  (forall m, lookup st "main_" = Some m -> exists r, sym_typ m = TCode [] r) ->
  match lookup st "main_" with
  | Some main_ => e ← call (to_expr main_) []; Ok [code_expression e Location.none]
  | None => Ok []
  end
  = Ok (match lookup st "main_" with
        | None => []
        | Some m => [code_expression
                       (expr (EFunctionCall (to_expr m) [])
                          (default TEmpty (return_type (sym_typ m)))) Location.none]
        end).
Proof.
  intros Hm. destruct (lookup st "main_") as [m|] eqn:El; [|done].
  destruct (Hm m eq_refl) as [r Hr]. unfold call, typecheck_call, to_expr, symbol_expression, expr.
  cbn. by rewrite Hr.
Qed.
End Proofs.

(** ** Properties *)

(** [bignum_to_expr] splits a 128-bit constant into halves of 64 bits without
    changing its value: the expression it builds has the type asked for, its two
    constants are at most [u64::MAX] (what gcc accepts), and it evaluates to the
    given number, negative numbers included. *)
Theorem bignum_correct (mm : MachineModel) (eval : Expr -> option val)
    (Sem : GotoSemantics mm eval) (Bits : GotoBits mm eval) (num : Z) (t : Type_) :
  int_width mm = 32%N -> t = TSignedbv 128 \/ t = TUnsignedbv 128 ->
  in_range 128 (is_signed t mm) num ->
  exists e left right,
    bignum_to_expr num t = Ok e /\ typ e = t /\ eval e = Some (VInt num)
    /\ (0 <= left <= Z.of_N u64_max)%Z /\ (0 <= right <= Z.of_N u64_max)%Z
    /\ (e = halves_expr (left * 2 ^ 64 + right)
        \/ e = expr (ETypecast (halves_expr (left * 2 ^ 64 + right))) t).
Proof.
  intros Hw Ht Hr. destruct (bignum_value mm eval num t Hw Ht Hr) as (e & He & Te & Ve).
  exists e, ((num / 2 ^ 64) mod 2 ^ 64)%Z, (num mod 2 ^ 64)%Z.
  split_and!; [done|done|done|apply halves_bound..|].
  assert (Hh : halves_expr ((num / 2 ^ 64) mod 2 ^ 64 * 2 ^ 64 + num mod 2 ^ 64)
               = halves_expr num).
  { unfold halves_expr. rewrite Z.div_add_l, (Z.div_small (num mod 2 ^ 64)) by
      (lia || apply Z.mod_pos_bound; lia).
    rewrite Z.add_0_r, Zmod_mod. rewrite (Z.add_comm (_ * _)), Z.mod_add, Zmod_mod by lia. done. }
  rewrite Hh. rewrite (bignum_wide num t Ht) in He. injection He as <-.
  destruct (is_signed t x86_64); [by right | by left].
Qed.

Lemma bignum_correct_witness :
  exists e left right,
    bignum_to_expr (-5) (TSignedbv 128) = Ok e /\ typ e = TSignedbv 128
    /\ bv_eval x86_64 e = Some (VInt (-5))
    /\ (0 <= left <= Z.of_N u64_max)%Z /\ (0 <= right <= Z.of_N u64_max)%Z
    /\ (e = halves_expr (left * 2 ^ 64 + right)
        \/ e = expr (ETypecast (halves_expr (left * 2 ^ 64 + right))) (TSignedbv 128)).
Proof.
  apply (bignum_correct x86_64 (bv_eval x86_64) _ _ (-5) (TSignedbv 128));
    [reflexivity | by left | cbn; lia].
Defined.

(** The pass means to rewrite [a => b] to [!a | b], but it cannot: the bitwise or it
    builds accepts integers only, so the pass panics on every program that has an
    implication, whatever its operands. *)
Theorem implies_panics `{InternOrder} `{StrDebug} `{HashOrder} (l r : Expr) (t : Type_)
    (loc : Location) (s : ExprTransformer) :
  transform_expr expr_transformer (mkExpr (EBinOp OpImplies l r) t loc) s = Panic.
Proof.
  cbn [transform_expr transform_expr_value]. fold (transform_expr expr_transformer).
  change (on_expr_bin_op _ expr_transformer) with et_bin_op.
  unfold mbind, ST_bind. by rewrite bin_op_implies.
Qed.

(** An [extern] function becomes a definition: the symbol is no longer extern, its
    body returns a nondeterministic value of its return type (nothing for [void]),
    the return type and the number of parameters are kept, and every parameter
    has an identifier. *)
Theorem extern_function_defined `{InternOrder} `{StrDebug} `{HashOrder} (symbol new : Symbol)
    (ps : list Parameter_) (r : Type_) (s s' : ExprTransformer) :
  is_extern symbol = true -> sym_typ symbol = TCode ps r ->
  type_valid (sym_typ symbol) = true -> symtab_ok (et_symbol_table s) ->
  transform_one_symbol expr_transformer symbol s = Ok (new, s') ->
  is_extern new = false /\ sym_name new = sym_name symbol
  /\ sym_value new
     = SVStmt (ret (if is_empty r then None else Some (nondet r)) Location.none)
  /\ exists ps', sym_typ new = TCode ps' r
       /\ Forall2 (fun p p' => parameter_identifier p'
            = match parameter_identifier p with
              | Some i => Some i
              | None => Some ("__" +:+ to_identifier (parameter_typ p))
              end) ps ps'.
Proof.
  intros He Ht Hv Hok. unfold transform_one_symbol.
  change (on_symbol _ expr_transformer) with et_symbol. unfold et_symbol. rewrite He, Ht.
  cbn [is_code orb].
  pose proof (transform_type_id et_symbol_table set_et_table _ s Hv) as Hid. rewrite Ht in Hid.
  change (transform_type expr_transformer)
    with (transform_type (default_transformer et_symbol_table set_et_table)).
  unfold st_lift at 1. destruct (value_is_none (sym_value symbol)); [|done].
  rewrite (bind_id _ _ _ tt) by done. rewrite (bind_id _ _ _ _ Hid).
  rewrite (bind_id _ _ _ ps) by done. unfold mbind at 1, ST_bind at 1.
  destruct (st_sequence _ s) as [[ps' s1]|] eqn:Eps; [|done].
  rewrite (bind_id _ _ _ r) by done. intros [= <- <-]. cbn. split_and!; [done..|].
  exists ps'. split; [done|]. by eapply add_parameters_named.
Qed.

Lemma sample_table_ok : symtab_ok sample_table.
Proof. unfold symtab_ok. cbn. by apply map_Forall_singleton. Qed.

(** An extern function [g(int, int)] without parameter names. *)
Definition sample_extern : Symbol :=
  with_is_extern
    (function "g" (TCode [mkParameter c_int None None; mkParameter c_int None None] c_int) None
       None Location.none) true.

Lemma extern_function_defined_witness :
  exists new s', transform_one_symbol expr_transformer sample_extern
                   (mkExprTransformer sample_table ∅) = Ok (new, s') /\ is_extern new = false.
Proof.
  do 2 eexists. split; [vm_compute; reflexivity|].
  refine (proj1 (extern_function_defined sample_extern _
                   [mkParameter c_int None None; mkParameter c_int None None] c_int
                   (mkExprTransformer sample_table ∅) _ eq_refl eq_refl eq_refl _ _)).
  - exact sample_table_ok.
  - vm_compute. reflexivity.
Defined.

(** The names the pass gives to parameters come from their types alone: two unnamed
    parameters of one type get one identifier, so the definition generated for
    an extern function with two such parameters declares a parameter twice. *)
Theorem extern_parameters_share_name `{InternOrder} `{StrDebug} (p q p' q' : Parameter_)
    (s s' s'' : ExprTransformer) :
  symtab_ok (et_symbol_table s) ->
  parameter_identifier p = None -> parameter_identifier q = None ->
  parameter_typ p = parameter_typ q ->
  add_parameter_identifier p s = Ok (p', s') -> add_parameter_identifier q s' = Ok (q', s'') ->
  parameter_identifier p' = parameter_identifier q'.
Proof.
  intros Hok Hp Hq Ht Ep Eq.
  destruct (add_parameter_identifier_named _ _ _ _ Hok Ep) as [Np Hok'].
  destruct (add_parameter_identifier_named _ _ _ _ Hok' Eq) as [Nq _].
  by rewrite Np, Nq, Hp, Hq, Ht.
Qed.

Lemma extern_parameters_share_name_witness :
  exists p' q' s' s'',
    add_parameter_identifier (mkParameter c_int None None) (mkExprTransformer sample_table ∅)
    = Ok (p', s')
    /\ add_parameter_identifier (mkParameter c_int None None) s' = Ok (q', s'')
    /\ parameter_identifier p' = parameter_identifier q'.
Proof.
  do 4 eexists. split; [vm_compute; reflexivity|]. split; [vm_compute; reflexivity|].
  apply (extern_parameters_share_name (mkParameter c_int None None) (mkParameter c_int None None)
           _ _ (mkExprTransformer sample_table ∅)
           (mkExprTransformer
              (raw_insert sample_table (variable "__c_int_Int" "__c_int_Int" c_int Location.none)) ∅)
           (mkExprTransformer
              (raw_insert sample_table (variable "__c_int_Int" "__c_int_Int" c_int Location.none)) ∅));
    try reflexivity.
  exact sample_table_ok.
Defined.

(** The post-processing of the pass succeeds as long as [main] is free and [main_],
    if present, takes no arguments.  It adds one symbol: a [main] returning [int]
    whose body first gives every extern static an arbitrary value (each exactly
    once, in whatever order the hash map is traversed), then calls [main_], then
    returns 0; the map of statics is left empty. *)
Theorem wrapper_main `{InternOrder} `{StrDebug} `{HashOrder} (s : ExprTransformer) :
  lookup (et_symbol_table s) "main" = None ->
  (forall m, lookup (et_symbol_table s) "main_" = Some m -> exists r, sym_typ m = TCode [] r) ->
  exists inits calls,
    postprocess _ expr_transformer s
    = Ok (tt, mkExprTransformer
                (raw_insert (et_symbol_table s)
                   (function "main" (TCode [] c_int)
                      (Some (block (inits ++ calls ++
                                    [ret (Some (expr (EIntConstant 0) c_int)) Location.none])
                               Location.none)) (Some "main") Location.none)) ∅)
    /\ inits ≡ₚ map (fun nv => stmt (SAssign (symbol_expression nv.1 (typ nv.2)) nv.2) Location.none)
                  (map_to_list (empty_statics s))
    /\ calls = match lookup (et_symbol_table s) "main_" with
               | None => []
               | Some m =>
                   [code_expression
                      (expr (EFunctionCall (to_expr m) [])
                         (default TEmpty (return_type (sym_typ m)))) Location.none]
               end.
Proof.
  intros Hmain Hm. do 2 eexists.
  split; [|split; [apply Permutation_map, hash_iter_Permutation | reflexivity]].
  change (postprocess _ expr_transformer) with et_postprocess. unfold et_postprocess.
  erewrite bind_run; [|reflexivity]. erewrite bind_id; [|apply lift_id, init_statics_total].
  erewrite bind_id; [|reflexivity]. cbn [et_symbol_table].
  erewrite bind_id; [|apply lift_id, (main_call _ Hm)].
  erewrite bind_id; [|reflexivity]. unfold on_table.
  erewrite (proj2 (insert_ok _ _ _)); [reflexivity | split; [exact Hmain | reflexivity]].
Qed.

Lemma wrapper_main_witness :
  exists inits calls s',
    postprocess _ expr_transformer
      (mkExprTransformer sample_table {[ "x" := nondet c_int ]}) = Ok (tt, s')
    /\ inits ≡ₚ [stmt (SAssign (symbol_expression "x" c_int) (nondet c_int)) Location.none]
    /\ calls = ([] : list Stmt).
Proof.
  destruct (wrapper_main (mkExprTransformer sample_table {[ "x" := nondet c_int ]}))
    as (inits & calls & E & Hi & Hc); [reflexivity | intros m Hm; by vm_compute in Hm |].
  exists inits, calls. eexists. split; [exact E|]. split; [exact Hi | exact Hc].
Defined.
