(* ===== verification/NondetTransformer.v ===== *)
(** * The nondeterminism pass of [--gen-c-runnable]
    ([cbmc/src/goto_program/symtab_transformer/gen_c_transformer/nondet_transformer.rs])

    Every nondeterministic value becomes a call of a function [non_det_<type>],
    recorded in [nondet_types]; the post-processing defines these functions. *)

From S2P Require Import Prelude CbmcString MachineModel Location Typ Ast SymbolTable Expr Symbol.
From S2P Require Import Builtin Stmt Env Built Transformer Identity.

(** [struct NondetTransformer] *)
Record NondetTransformer := mkNondetTransformer {
  nd_symbol_table : SymbolTable;
  nondet_types : gmap string Type_;
}.

Definition set_nd_table (st : SymbolTable) (s : NondetTransformer) : NondetTransformer :=
  mkNondetTransformer st (nondet_types s).

Section Methods.
Context `{InternOrder} `{StrDebug} `{HashOrder}.

Abbreviation M := (ST NondetTransformer).

(** [nondet_types_owned] *)
Definition nondet_types_owned : M (gmap string Type_) := fun s =>
  Ok (nondet_types s, mkNondetTransformer (nd_symbol_table s) ∅).

(** [transform_expr_nondet] *)
Definition nd_nondet (t : M Type_) : M Expr :=
  transformed_typ ← t;
  let identifier := "non_det_" +:+ to_identifier transformed_typ in
  let function_type := code [] transformed_typ in
  s ← st_get;
  _ ← st_put (mkNondetTransformer (nd_symbol_table s)
                (<[identifier := function_type]> (nondet_types s)));
  st_lift (call (symbol_expression identifier function_type) []).

(** [fields.zip(values).map(...)]: padding values are not transformed *)
Definition transform_fields (fields : list DatatypeComponent) (values : list (Expr * M Expr)) :
    M (list Expr) :=
  st_sequence (map (fun fv => if is_padding fv.1 then mret fv.2.1 else fv.2.2) (zip fields values)).

(** [transform_expr_struct] *)
Definition nd_struct (t : M Type_) (values : list (Expr * M Expr)) : M Expr :=
  transformed_typ ← t;
  _ ← st_lift (rassert (is_struct_tag transformed_typ));
  s ← st_get;
  fields ← st_lift (unwrap (lookup_fields_in_type (nd_symbol_table s) transformed_typ));
  transformed_values ← transform_fields fields values;
  s ← st_get;
  st_lift (struct_expr_from_padded_values transformed_typ transformed_values (nd_symbol_table s)).

(** One iteration of the loop of [postprocess]. *)
Definition define_nondet (st : SymbolTable) (identifier : string) (t : Type_) :
    outcome SymbolTable :=
  ret_type ← unwrap (return_type t);
  assert! negb (is_empty ret_type);
  let ret_name := identifier +:+ "_ret" in
  let ret_expr := symbol_expression ret_name ret_type in
  d ← decl ret_expr None Location.none;
  let body := block [d; ret (Some ret_expr) Location.none] Location.none in
  st ← insert st (variable ret_name "ret" ret_type Location.none);
  insert st (function identifier t (Some body) (Some identifier) Location.none).

Fixpoint define_nondets (st : SymbolTable) (l : list (string * Type_)) : outcome SymbolTable :=
  match l with
  | [] => Ok st
  | (identifier, t) :: l => st ← define_nondet st identifier t; define_nondets st l
  end.

(** [postprocess] *)
Definition nd_postprocess : M unit :=
  types ← nondet_types_owned;
  s ← st_get;
  st ← st_lift (define_nondets (nd_symbol_table s) (hash_iter types));
  st_put (set_nd_table st s).

(** [impl Transformer for NondetTransformer] *)
Definition nondet_transformer : Transformer NondetTransformer :=
  with_postprocess
    (with_on_expr_struct
       (with_on_expr_nondet (default_transformer nd_symbol_table set_nd_table) nd_nondet) nd_struct)
    nd_postprocess.

(** [NondetTransformer::transform] *)
Definition nondet_transform (original_symbol_table : SymbolTable) : outcome SymbolTable :=
  new_symbol_table ← symtab_new (machine_model original_symbol_table);
  r ← transform_symbol_table nondet_transformer original_symbol_table
        (mkNondetTransformer new_symbol_table ∅);
  Ok r.1.
End Methods.

(** ** The functions generated *)

Definition ret_variable (identifier : string) (r : Type_) : Symbol :=
  variable (identifier +:+ "_ret") "ret" r Location.none.

Definition nondet_function (identifier : string) (r : Type_) : Symbol :=
  let x := symbol_expression (identifier +:+ "_ret") r in
  function identifier (TCode [] r)
    (Some (block [stmt (SDecl x None) Location.none; ret (Some x) Location.none] Location.none))
    (Some identifier) Location.none.

(** The two symbols that an entry of [nondet_types] stands for. *)
Definition nondet_symbols (x : string * Type_) : list Symbol :=
  let r := default TEmpty (return_type x.2) in [ret_variable x.1 r; nondet_function x.1 r].

(** Entries as [nd_nondet] makes them, of types other than [void]. *)
Definition nondet_entry (x : string * Type_) : Prop :=
  exists r, x.2 = TCode [] r /\ is_empty r = false.

Lemma define_nondet_insert_all st x :
  nondet_entry x -> define_nondet st x.1 x.2 = insert_all st (nondet_symbols x).
Proof.
  intros (r & Hx & Hr). unfold define_nondet, nondet_symbols. rewrite Hx. cbn [return_type unwrap
    mbind outcome_bind default]. rewrite Hr. cbn [negb rassert mbind outcome_bind decl].
  unfold decl. cbn -[insert]. destruct (insert st _) as [st1|]; cbn -[insert]; [|done].
  by destruct (insert st1 _).
Qed.

Lemma insert_all_app st l l' :
  insert_all st (l ++ l') = (insert_all st l ≫= fun st => insert_all st l').
Proof.
  revert st. induction l as [|s l IH]; intros st; cbn; [done|].
  destruct (insert st s); cbn; [apply IH | done].
Qed.

Lemma define_nondets_insert_all st l :
  Forall nondet_entry l -> define_nondets st l = insert_all st (concat (map nondet_symbols l)).
Proof.
  intros Hl. revert st. induction Hl as [|[i t] l Hx Hl IH]; intros st; cbn [define_nondets]; [done|].
  cbn [map concat]. rewrite insert_all_app, <- define_nondet_insert_all by done.
  cbn [fst snd]. destruct (define_nondet st i t); cbn; [apply IH | done].
Qed.

Lemma concat_map_Permutation {A B} (f : A -> list B) l l' :
  l ≡ₚ l' -> concat (map f l) ≡ₚ concat (map f l').
Proof.
  induction 1 as [|x l l' _ IH|x y l|l1 l2 l3 _ IH1 _ IH2]; cbn; [done| |..].
  - by rewrite IH.
  - by rewrite !(assoc_L (++)), (comm (++) (f y)).
  - by etrans.
Qed.

(** A void entry stops the loop wherever it comes. *)
Lemma define_nondets_void st l i r :
  (i, TCode [] r) ∈ l -> is_empty r = true -> define_nondets st l = Panic.
Proof.
  intros Hin Hr. revert st. induction l as [|[i' t'] l IH]; intros st; [by apply elem_of_nil in Hin|].
  cbn [define_nondets]. apply elem_of_cons in Hin as [[= <- <-]|Hin].
  - unfold define_nondet. cbn. by rewrite Hr.
  - destruct (define_nondet st i' t'); cbn; [by apply IH | done].
Qed.

(** ** Properties *)

(** A nondeterministic value becomes a call without arguments of the function
    [non_det_<type>]; the call has the type of the value, and the function is
    recorded with its type for post-processing. *)
Theorem nondet_becomes_call `{InternOrder} `{StrDebug} `{HashOrder} (t : Type_) (loc : Location)
    (s : NondetTransformer) :
  type_valid t = true ->
  let f := "non_det_" +:+ to_identifier t in
  transform_expr nondet_transformer (mkExpr ENondet t loc) s
  = Ok (mkExpr (EFunctionCall (symbol_expression f (TCode [] t)) []) t loc,
        mkNondetTransformer (nd_symbol_table s) (<[f := TCode [] t]> (nondet_types s))).
Proof.
  intros Hv f. cbn [transform_expr transform_expr_value].
  change (on_expr_nondet _ nondet_transformer) with nd_nondet.
  change (transform_type nondet_transformer)
    with (transform_type (default_transformer nd_symbol_table set_nd_table)).
  unfold nd_nondet.
  pose proof (transform_type_id nd_symbol_table set_nd_table t s Hv) as Ht.
  erewrite bind_run; [|erewrite bind_id; [|exact Ht]; reflexivity]. done.
Qed.

Lemma nondet_becomes_call_witness :
  transform_expr nondet_transformer (mkExpr ENondet (TUnsignedbv 32) Location.none)
    (mkNondetTransformer sample_table ∅)
  = Ok (mkExpr (EFunctionCall (symbol_expression "non_det_unsigned_bv_32"
                                 (TCode [] (TUnsignedbv 32))) []) (TUnsignedbv 32) Location.none,
        mkNondetTransformer sample_table
          {[ "non_det_unsigned_bv_32" := TCode [] (TUnsignedbv 32) ]}).
Proof.
  apply (nondet_becomes_call (TUnsignedbv 32) Location.none (mkNondetTransformer sample_table ∅)).
  reflexivity.
Defined.

(** The post-processing defines every recorded function: whatever the order in which
    the hash map is traversed, it succeeds if the names of the functions and of
    their return variables are free and distinct, and it adds exactly these
    symbols; each function declares its variable and returns it. *)
Theorem nondet_functions_defined `{InternOrder} `{StrDebug} `{HashOrder} (s : NondetTransformer) :
  let symbols := concat (map nondet_symbols (map_to_list (nondet_types s))) in
  map_Forall (fun i t => nondet_entry (i, t)) (nondet_types s) ->
  NoDup (map sym_name symbols) ->
  Forall (fun x => lookup (nd_symbol_table s) (sym_name x) = None) symbols ->
  exists st', postprocess _ nondet_transformer s = Ok (tt, mkNondetTransformer st' ∅)
    /\ (forall x, x ∈ symbols -> lookup st' (sym_name x) = Some x)
    /\ (forall name, name ∉ map sym_name symbols ->
          lookup st' name = lookup (nd_symbol_table s) name).
Proof.
  intros symbols Hent Hnd Hfree.
  set (order := concat (map nondet_symbols (hash_iter (nondet_types s)))).
  assert (Hperm : order ≡ₚ symbols) by (apply concat_map_Permutation, hash_iter_Permutation).
  assert (Hnd' : NoDup (map sym_name order)) by (by rewrite (Permutation_map sym_name Hperm)).
  exists (foldl raw_insert (nd_symbol_table s) order). split_and!.
  - change (postprocess _ nondet_transformer) with nd_postprocess. unfold nd_postprocess.
    erewrite bind_run; [|reflexivity]. erewrite bind_id; [|reflexivity].
    erewrite bind_id; [reflexivity|]. apply lift_id. cbn [nd_symbol_table].
    rewrite define_nondets_insert_all.
    + apply insert_all_total; [done|]. by rewrite Hperm.
    + rewrite hash_iter_Permutation. apply Forall_forall. intros [i t] Hx.
      apply elem_of_map_to_list in Hx. by apply Hent.
  - intros x Hx. apply foldl_raw_insert_found; [done|]. by rewrite Hperm.
  - intros name Hn. apply foldl_raw_insert_lookup. by rewrite (Permutation_map sym_name Hperm).
Qed.

Lemma nondet_functions_defined_witness :
  exists st',
    postprocess _ nondet_transformer
      (mkNondetTransformer sample_table {[ "non_det_double" := TCode [] TDouble ]})
    = Ok (tt, mkNondetTransformer st' ∅)
    /\ (forall x, x ∈ nondet_symbols ("non_det_double", TCode [] TDouble) ->
          lookup st' (sym_name x) = Some x)
    /\ (forall name, name ∉ ["non_det_double_ret"; "non_det_double"] ->
          lookup st' name = lookup sample_table name).
Proof.
  destruct (nondet_functions_defined
              (mkNondetTransformer sample_table {[ "non_det_double" := TCode [] TDouble ]}))
    as (st' & E & Hin & Hout); cbn [nondet_types nd_symbol_table] in *;
    rewrite ?map_to_list_singleton in *.
  - apply map_Forall_singleton. exists TDouble. split; reflexivity.
  - apply (bool_decide_unpack _). vm_compute. exact Logic.I.
  - repeat constructor.
  - exists st'. split; [exact E|]. split; [exact Hin | exact Hout].
Defined.

(** A nondeterministic value of type [void] is an error: if one was recorded, the
    post-processing panics, wherever it comes in the traversal. *)
Theorem nondet_void_panics `{InternOrder} `{StrDebug} `{HashOrder} (s : NondetTransformer)
    (identifier : string) :
  nondet_types s !! identifier = Some (TCode [] TEmpty) ->
  postprocess _ nondet_transformer s = Panic.
Proof.
  intros Hi. change (postprocess _ nondet_transformer) with nd_postprocess. unfold nd_postprocess.
  erewrite bind_run; [|reflexivity]. erewrite bind_id; [|reflexivity].
  unfold mbind, ST_bind, st_lift.
  rewrite (define_nondets_void _ _ identifier TEmpty); [done| |done].
  by rewrite hash_iter_Permutation, elem_of_map_to_list.
Qed.

Lemma nondet_void_panics_witness :
  postprocess _ nondet_transformer
    (mkNondetTransformer sample_table {[ "non_det_empty" := TCode [] TEmpty ]}) = Panic.
Proof.
  apply (nondet_void_panics
           (mkNondetTransformer sample_table {[ "non_det_empty" := TCode [] TEmpty ]})
           "non_det_empty"). reflexivity.
Defined.
