(* ===== verification/NameTransformer.v ===== *)
(** * The renaming pass of [--gen-c-runnable]
    ([cbmc/src/goto_program/symtab_transformer/gen_c_transformer/name_transformer.rs])

    Every identifier is replaced by a C identifier.  The comment on [mapped_names]
    asks for a renaming that is functional and injective; [names_ok] is the
    invariant behind it.  Strings are sequences of UTF-8 bytes; the Unicode tables
    of [char::is_alphanumeric] and [char::is_numeric] beyond ASCII are the class
    [UnicodeTables]. *)

From S2P Require Import Prelude CbmcString MachineModel Location Typ Ast SymbolTable Expr Symbol.
From S2P Require Import Builtin Stmt Env Built Transformer Identity.

(** ** Strings and characters *)

(** The properties of the characters outside ASCII, given as their UTF-8 bytes. *)
Class UnicodeTables := {
  unicode_alphanumeric : string -> bool;
  unicode_numeric : string -> bool;
}.

Definition between (lo hi c : ascii) : bool :=
  (N_of_ascii lo <=? N_of_ascii c)%N && (N_of_ascii c <=? N_of_ascii hi)%N.

Definition is_digit (c : ascii) : bool := between "0" "9" c.
Definition is_letter (c : ascii) : bool := between "a" "z" c || between "A" "Z" c.

(** A byte [10xxxxxx] continues a character. *)
Definition is_continuation (c : ascii) : bool :=
  (128 <=? N_of_ascii c)%N && (N_of_ascii c <? 192)%N.

(** [str::chars]: each character as the string of its bytes. *)
Fixpoint chars (s : string) : list string :=
  match s with
  | "" => []
  | String c s' =>
      match chars s' with
      | String d w :: rest =>
          if is_continuation d then String c (String d w) :: rest
          else String c "" :: String d w :: rest
      | other => String c "" :: other
      end
  end.

Section Characters.
Context `{UnicodeTables}.

Definition is_alphanumeric (ch : string) : bool :=
  match ch with
  | String c "" =>
      if (N_of_ascii c <? 128)%N then is_digit c || is_letter c else unicode_alphanumeric ch
  | _ => unicode_alphanumeric ch
  end.

(** [char::is_numeric] *)
Definition char_is_numeric (ch : string) : bool :=
  match ch with
  | String c "" => if (N_of_ascii c <? 128)%N then is_digit c else unicode_numeric ch
  | _ => unicode_numeric ch
  end.

Definition valid_char (ch : string) : bool :=
  is_alphanumeric ch || String.eqb ch "_" || String.eqb ch "$".
End Characters.

Definition concat_strings (l : list string) : string := foldr (fun a b => a +:+ b) "" l.

(** [str::find] with the two pieces around the first occurrence of [pat]. *)
Fixpoint split_once (pat s : string) : option (string * string) :=
  if String.prefix pat s then Some ("", String.substring (String.length pat)
                                          (String.length s - String.length pat) s)
  else match s with
       | "" => None
       | String c s' =>
           match split_once pat s' with
           | Some (a, b) => Some (String c a, b)
           | None => None
           end
       end.

Definition ends_with (s suffix : string) : bool :=
  (String.length suffix <=? String.length s)%nat
  && String.eqb (String.substring (String.length s - String.length suffix)
                   (String.length suffix) s) suffix.

(** [str::replace] of a nonempty pattern: occurrences from the left, without overlap;
    [skip] bytes remain of the occurrence just replaced. *)
Fixpoint replace_from (pat replacement : string) (skip : nat) (s : string) : string :=
  match s with
  | "" => ""
  | String c s' =>
      match skip with
      | S k => replace_from pat replacement k s'
      | 0 =>
          if String.prefix pat s
          then replacement +:+ replace_from pat replacement (String.length pat - 1) s'
          else String c (replace_from pat replacement 0 s')
      end
  end.
Definition str_replace (s pat replacement : string) : string := replace_from pat replacement 0 s.

(** ** [normalize_identifier] *)

(** [struct NameTransformer] *)
Record NameTransformer := mkNameTransformer {
  nm_symbol_table : SymbolTable;
  mapped_names : gmap string string;
  used_names : gset string;
}.

Definition set_nm_table (st : SymbolTable) (s : NameTransformer) : NameTransformer :=
  mkNameTransformer st (mapped_names s) (used_names s).

Definition i32_max : N := 2147483647.

(** The loop over the numeric suffixes ([suffix] is an [i32]). *)
Fixpoint unused_name (fuel : nat) (used : gset string) (result : string) (suffix : N) :
    fuelled string :=
  match fuel with
  | 0 => OutOfFuel
  | S fuel =>
      let name := result +:+ "_" +:+ pretty suffix in
      if negb (bool_decide (name ∈ used)) then mret name
      else if (suffix <? i32_max)%N then unused_name fuel used result (suffix + 1)
      else Done Panic
  end.

Section Normalize.
Context `{UnicodeTables}.

Definition fix_name (name : string) : string :=
  let valid_chars :=
    concat_strings (map (fun ch => if valid_char ch then ch else "_") (chars name)) in
  let new_name :=
    match chars valid_chars with
    | first :: _ => if char_is_numeric first then "_" +:+ valid_chars else valid_chars
    | [] => ""
    end in
  if ends_with new_name "case" then str_replace new_name "case" "case_"
  else if ends_with new_name "default" then str_replace new_name "default" "default_"
  else new_name.

(** The two parts of an identifier around [::1::]; more than one occurrence panics. *)
Definition split_name (name : string) : outcome (string * option string) :=
  match split_once "::1::" name with
  | None => Ok (name, None)
  | Some (a, b) =>
      match split_once "::1::" b with None => Ok (a, Some b) | Some _ => Panic end
  end.

(** The C name proposed for an identifier, before it is made unique. *)
Definition proposed_name (orig_name : string) : outcome string :=
  let '(prefix, name) :=
    if String.prefix "tag-" orig_name
    then ("tag-", String.substring 4 (String.length orig_name - 4) orig_name)
    else ("", orig_name) in
  parts ← split_name name;
  let with_prefix := prefix +:+ fix_name parts.1 in
  Ok (match parts.2 with
      | None => with_prefix
      | Some suffix => with_prefix +:+ "::" +:+ fix_name suffix
      end).

(** [normalize_identifier_inner] and [normalize_identifier] *)
Definition normalize_identifier (orig_name : string) : ST NameTransformer string := fun s =>
  if String.eqb orig_name "" then Panic
  else match mapped_names s !! orig_name with
       | Some result => Ok (result, s)
       | None =>
           result ← proposed_name orig_name;
           result ← (if bool_decide (result ∈ used_names s)
                     then run (unused_name (S (size (used_names s))) (used_names s) result 0)
                     else Ok result);
           Ok (result, mkNameTransformer (nm_symbol_table s)
                         (<[orig_name := result]> (mapped_names s))
                         ({[result]} ∪ used_names s))
       end.
End Normalize.

(** ** The methods *)

Section Methods.
Context `{InternOrder} `{StrDebug} `{UnicodeTables}.

Abbreviation M := (ST NameTransformer).

(** [name.map(|name| self.normalize_identifier(name))] *)
Definition normalize_option (name : option InternedString) : M (option InternedString) :=
  st_option (option_map normalize_identifier name).

(** [transform_type_parameter] *)
Definition nm_parameter (p : Parameter_) (t : M Type_) : M Parameter_ :=
  t ← t;
  identifier ← normalize_option (parameter_identifier p);
  base_name ← normalize_option (parameter_base_name p);
  st_lift (as_parameter t identifier base_name).

(** [transform_expr_member] *)
Definition nm_member (lhs : M Expr) (field : InternedString) : M Expr :=
  l ← lhs;
  f ← normalize_identifier field;
  s ← st_get;
  st_lift (member l f (nm_symbol_table s)).

(** [transform_expr_symbol] *)
Definition nm_expr_symbol (t : M Type_) (identifier : InternedString) : M Expr :=
  t ← t;
  i ← normalize_identifier identifier;
  mret (symbol_expression i t).

(** [transform_expr_union] *)
Definition nm_expr_union (t : M Type_) (v : M Expr) (field : InternedString) : M Expr :=
  t ← t;
  v ← v;
  f ← normalize_identifier field;
  s ← st_get;
  st_lift (union_expr t f v (nm_symbol_table s)).

(** [transform_type_incomplete_struct], [transform_type_incomplete_union] *)
Definition nm_incomplete_struct (tag : InternedString) : M Type_ :=
  i ← normalize_identifier tag; mret (incomplete_struct i).
Definition nm_incomplete_union (tag : InternedString) : M Type_ :=
  i ← normalize_identifier tag; mret (incomplete_union i).

(** The two arms of [transform_datatype_component] *)
Definition nm_field (name : InternedString) (t : M Type_) : M DatatypeComponent :=
  n ← normalize_identifier name; t ← t; mret (field n t).
Definition nm_padding (name : InternedString) (bits : N) : M DatatypeComponent :=
  n ← normalize_identifier name; mret (padding n bits).

(** [transform_type_struct], [transform_type_union] and their tags *)
Definition nm_struct (tag : InternedString) (components : list (M DatatypeComponent)) : M Type_ :=
  cs ← st_sequence components;
  i ← normalize_identifier tag;
  st_lift (struct_type i cs).
Definition nm_struct_tag (tag : InternedString) : M Type_ :=
  i ← normalize_identifier tag; mret (struct_tag_raw i).
Definition nm_union (tag : InternedString) (components : list (M DatatypeComponent)) : M Type_ :=
  cs ← st_sequence components;
  i ← normalize_identifier tag;
  st_lift (union_type i cs).
Definition nm_union_tag (tag : InternedString) : M Type_ :=
  i ← normalize_identifier tag; mret (union_tag_raw i).

(** [transform_stmt_goto], [transform_stmt_label] *)
Definition nm_goto (label : InternedString) : M Stmt :=
  l ← normalize_identifier label; st_lift (goto l Location.none).
Definition nm_label (label : InternedString) (b : M Stmt) : M Stmt :=
  s ← b; l ← normalize_identifier label; st_lift (with_label s l).

(** [transform_symbol] *)
Definition nm_symbol (on_type : Type_ -> M Type_) (on_value : SymbolValues -> M SymbolValues)
    (symbol : Symbol) : M Symbol :=
  t ← on_type (sym_typ symbol);
  v ← on_value (sym_value symbol);
  let new_symbol := set_value (set_typ symbol t) v in
  n ← normalize_identifier (sym_name new_symbol);
  b ← normalize_option (sym_base_name new_symbol);
  p ← normalize_option (sym_pretty_name new_symbol);
  mret (set_pretty_name (set_base_name (set_name new_symbol n) b) p).

(** [impl Transformer for NameTransformer] *)
Definition name_transformer : Transformer NameTransformer :=
  let T := default_transformer nm_symbol_table set_nm_table in
  let T := with_on_type_parameter T nm_parameter in
  let T := with_on_expr_member T nm_member in
  let T := with_on_expr_symbol T nm_expr_symbol in
  let T := with_on_expr_union T nm_expr_union in
  let T := with_on_type_incomplete_struct T nm_incomplete_struct in
  let T := with_on_type_incomplete_union T nm_incomplete_union in
  let T := with_on_datatype_field T nm_field in
  let T := with_on_datatype_padding T nm_padding in
  let T := with_on_type_struct T nm_struct in
  let T := with_on_type_struct_tag T nm_struct_tag in
  let T := with_on_type_union T nm_union in
  let T := with_on_type_union_tag T nm_union_tag in
  let T := with_on_stmt_goto T nm_goto in
  let T := with_on_stmt_label T nm_label in
  with_on_symbol T nm_symbol.

(** [NameTransformer::transform] *)
Definition name_transform (original_symbol_table : SymbolTable) : outcome SymbolTable :=
  new_symbol_table ← symtab_new (machine_model original_symbol_table);
  r ← transform_symbol_table name_transformer original_symbol_table
        (mkNameTransformer new_symbol_table ∅ ∅);
  Ok r.1.
End Methods.

(** ** The loop over suffixes *)

Definition suffixed (result : string) (n : N) : string := result +:+ "_" +:+ pretty n.

Lemma suffixed_inj result n m : suffixed result n = suffixed result m -> n = m.
Proof. unfold suffixed. intros E. by apply (inj _), (inj _), (inj pretty) in E. Qed.

(** The loop tries the suffixes one by one, up to a free one. *)
Lemma unused_name_out fuel used result n :
  unused_name fuel used result n = OutOfFuel ->
  forall k, (k < fuel)%nat -> suffixed result (n + N.of_nat k) ∈ used.
Proof.
  revert n. induction fuel as [|fuel IH]; intros n; cbn [unused_name]; [lia|].
  fold (suffixed result n). case_bool_decide as Hin; cbn [negb]; [|done].
  destruct (n <? i32_max)%N; [|done]. intros E [|k] Hk; [by rewrite N.add_0_r|].
  replace (n + N.of_nat (S k))%N with (n + 1 + N.of_nat k)%N by lia. apply IH; [done | lia].
Qed.

Lemma unused_name_panic fuel used result n :
  unused_name fuel used result n = Done Panic -> (n <= i32_max)%N ->
  (i32_max < n + N.of_nat fuel)%N
  /\ forall k, (n + N.of_nat k <= i32_max)%N -> suffixed result (n + N.of_nat k) ∈ used.
Proof.
  revert n. induction fuel as [|fuel IH]; intros n; cbn [unused_name]; [done|].
  fold (suffixed result n). case_bool_decide as Hin; cbn [negb]; [|done].
  destruct (N.ltb_spec n i32_max) as [Hlt|Hge].
  - intros E Hle. destruct (IH _ E) as [Hf Hall]; [lia|]. split; [lia|].
    intros [|k] Hk; [by rewrite N.add_0_r|].
    replace (n + N.of_nat (S k))%N with (n + 1 + N.of_nat k)%N by lia. apply Hall. lia.
  - intros _ Hle. split; [lia|]. intros k Hk. assert (k = 0) as -> by lia. by rewrite N.add_0_r.
Qed.

Lemma unused_name_fresh fuel used result n name :
  unused_name fuel used result n = Done (Ok name) ->
  (name ∉ used) /\ exists k, name = suffixed result k.
Proof.
  revert n. induction fuel as [|fuel IH]; intros n; cbn [unused_name]; [done|].
  fold (suffixed result n). case_bool_decide as Hin; cbn [negb].
  - destruct (n <? i32_max)%N; [apply IH | done].
  - intros [= <-]. eauto.
Qed.

(** [k] consecutive suffixes that are all used take [k] of the used names. *)
Lemma suffixes_size (used : gset string) result (m : nat) :
  (forall k, (k < m)%nat -> suffixed result (N.of_nat k) ∈ used) -> (m <= size used)%nat.
Proof.
  intros Hall. set (l := map (fun k => suffixed result (N.of_nat k)) (seq 0 m)).
  assert (Hnd : NoDup l).
  { apply NoDup_fmap_2; [|apply NoDup_seq]. intros i j E%suffixed_inj. lia. }
  assert (Hsub : list_to_set l ⊆ used).
  { intros x (k & -> & Hk%elem_of_seq)%elem_of_list_to_set%list_elem_of_fmap. apply Hall. lia. }
  apply subseteq_size in Hsub. rewrite size_list_to_set in Hsub by done.
  unfold l in Hsub. by rewrite length_map, length_seq in Hsub.
Qed.

(** Fuel for one more than the number of used names is enough, and the counter does
    not overflow unless there are more than [i32::MAX] names. *)
Lemma unused_name_total used result :
  (N.of_nat (size used) <= i32_max)%N ->
  exists name, run (unused_name (S (size used)) used result 0) = Ok name
    /\ (name ∉ used) /\ exists k, name = suffixed result k.
Proof.
  intros Hsize. destruct (unused_name (S (size used)) used result 0) as [[name|]|] eqn:E.
  - exists name. split; [done|]. by eapply unused_name_fresh.
  - apply unused_name_panic in E as [_ Hall]; [|done]. exfalso.
    assert (S (size used) <= size used); [|lia]. apply (suffixes_size _ result). intros k Hk.
    apply (Hall k). lia.
  - exfalso. assert (S (size used) <= size used); [|lia]. apply (suffixes_size _ result).
    intros k Hk. by apply (unused_name_out _ _ _ _ E k).
Qed.

(** ** The invariant of the renaming *)

(** The C names in use are those of the map, and no two identifiers share one. *)
Record names_ok (s : NameTransformer) : Prop := {
  names_used v : v ∈ used_names s <-> exists k, mapped_names s !! k = Some v;
  names_inj k1 k2 v : mapped_names s !! k1 = Some v -> mapped_names s !! k2 = Some v -> k1 = k2;
}.

Lemma names_ok_init st : names_ok (mkNameTransformer st ∅ ∅).
Proof.
  split; cbn.
  - intros v. split; [by intros ?%not_elem_of_empty | by intros [k Hk]].
  - intros k1 k2 v Hk. by rewrite lookup_empty in Hk.
Qed.

Section Invariant.
Context `{UnicodeTables}.

(** What any step of the pass may do to the names: the table is left alone and the
    renaming only grows. *)
Definition renames (s s' : NameTransformer) : Prop :=
  nm_symbol_table s' = nm_symbol_table s
  /\ (names_ok s -> names_ok s' /\ mapped_names s ⊆ mapped_names s').

#[export] Instance renames_preorder : PreOrder renames.
Proof.
  split.
  - intros s. split; [done|]. by split.
  - intros s1 s2 s3 [E1 H1] [E2 H2]. split; [congruence|]. intros Hok.
    destruct (H1 Hok) as [Hok2 Hs1]. destruct (H2 Hok2) as [Hok3 Hs2]. split; [done | by etrans].
Qed.

Lemma add_name_ok s n r :
  names_ok s -> mapped_names s !! n = None -> (r ∉ used_names s) ->
  names_ok (mkNameTransformer (nm_symbol_table s) (<[n := r]> (mapped_names s))
              ({[r]} ∪ used_names s)).
Proof using.
  intros [Hu Hi] Hn Hr. assert (Hr' : forall k, mapped_names s !! k <> Some r).
  { intros k Hk. apply Hr, Hu. eauto. }
  split; cbn.
  - intros v. rewrite elem_of_union, elem_of_singleton, Hu. split.
    + intros [->|[k Hk]]; [exists n; apply lookup_insert_eq|]. exists k.
      rewrite lookup_insert_ne; [done|]. congruence.
    + intros [k [[-> ->]|[_ Hk]]%lookup_insert_Some]; [by left | right; eauto].
  - intros k1 k2 v. rewrite !lookup_insert_Some.
    intros [[E1 E2]|[_ H1]] [[E3 E4]|[_ H2]]; subst; [done| | |by eapply Hi].
    + by apply Hr' in H2.
    + by apply Hr' in H1.
Qed.

(** One call: the identifier is mapped to the result from now on. *)
Lemma normalize_ok n s r s' :
  normalize_identifier n s = Ok (r, s') -> names_ok s ->
  renames s s' /\ mapped_names s' !! n = Some r.
Proof.
  unfold normalize_identifier. destruct (String.eqb n ""); [done|].
  destruct (mapped_names s !! n) as [r0|] eqn:Em.
  { intros [= <- <-] _. split; [reflexivity | done]. }
  intros E Hok. outcome_inv. cbn. rewrite lookup_insert_eq. split; [|done].
  assert (Hr : r ∉ used_names s).
  { case_bool_decide; outcome_inv; [|done]. destruct (unused_name _ _ _ _) as [o|] eqn:Eu;
      [|done]. cbn in E1. subst o. by eapply unused_name_fresh. }
  split; [done|]. intros _. split; [by apply add_name_ok|]. cbn.
  by apply insert_subseteq.
Qed.

Lemma normalize_renames n s r s' : normalize_identifier n s = Ok (r, s') -> renames s s'.
Proof.
  intros E. split.
  - unfold normalize_identifier in E. destruct (String.eqb n ""); [done|].
    destruct (mapped_names s !! n); [by injection E as <- <-|]. by outcome_inv.
  - intros Hok. by apply normalize_ok in E as [[_ E] _]; [apply E|].
Qed.

(** Nonempty identifiers with at most one [::1::] are always accepted. *)
Lemma normalize_total n c s :
  n <> "" -> proposed_name n = Ok c -> (N.of_nat (size (used_names s)) <= i32_max)%N ->
  exists r s', normalize_identifier n s = Ok (r, s')
    /\ (mapped_names s !! n = Some r
        \/ (r = c /\ (c ∉ used_names s)) \/ exists k, r = suffixed c k).
Proof.
  intros Hn Hc Hsize. unfold normalize_identifier.
  destruct (String.eqb_spec n ""); [done|]. destruct (mapped_names s !! n) as [r|]; [eauto|].
  rewrite Hc. cbn [mbind outcome_bind]. case_bool_decide.
  - destruct (unused_name_total (used_names s) c Hsize) as (r & -> & _ & Hk). eauto 6.
  - cbn. eauto 7.
Qed.

(** The loop uses a name that is not taken. *)
Lemma normalize_again n s r s' :
  normalize_identifier n s = Ok (r, s') -> names_ok s ->
  forall s'', renames s' s'' -> normalize_identifier n s'' = Ok (r, s'').
Proof.
  intros E Hok s'' Hr. destruct (normalize_ok _ _ _ _ E Hok) as [[_ H1] Hm].
  destruct (H1 Hok) as [Hok' _]. destruct (proj2 Hr Hok') as [_ Hsub].
  unfold normalize_identifier in *. destruct (String.eqb n ""); [done|].
  by rewrite (lookup_weaken _ _ _ _ Hm Hsub).
Qed.
End Invariant.

(** ** The whole pass *)

Section Pass.
Context `{InternOrder} `{StrDebug} `{UnicodeTables}.

Abbreviation T := name_transformer.
Abbreviation keeps m := (preserves renames m).

Lemma normalize_keeps n : keeps (normalize_identifier n).
Proof. intros s r s'. apply normalize_renames. Qed.

Lemma normalize_option_keeps o : keeps (normalize_option o).
Proof.
  apply preserves_option; [apply renames_preorder|]. destruct o; cbn; [apply normalize_keeps | done].
Qed.

#[local] Hint Resolve normalize_keeps normalize_option_keeps : rmc.

(** Follow the binds of a method. *)
#[local] Ltac keep :=
  repeat match goal with
  | |- preserves _ (mbind _ _) => apply preserves_bind; [typeclasses eauto| |intros ?]
  | |- preserves _ (match ?x with _ => _ end) => destruct x
  end; eauto 3 with rmc typeclass_instances.

Lemma transform_type_keeps t : keeps (transform_type T t).
Proof.
  assert (Hcs : forall cs, Forall (component_all (fun t => keeps (transform_type T t))) cs ->
                  Forall (fun c => keeps (transform_component T c)) cs).
  { intros cs Hcs. eapply Forall_impl; [exact Hcs|]. intros [n ct|n b] Hc; cbn in *;
      cbv [nm_field nm_padding]; keep. }
  assert (Hps : forall ps, Forall (parameter_all (fun t => keeps (transform_type T t))) ps ->
                  Forall (fun p => keeps (transform_parameter T p)) ps).
  { intros ps Hps. eapply Forall_impl; [exact Hps|]. intros [pt i b] Hp; cbn in *.
    unfold nm_parameter. keep. }
  induction t using Type_rect'; cbn [transform_type]; fold (transform_parameter T);
    fold (transform_component T); fold (transform_type T);
    cbn -[transform_type transform_parameter transform_component];
    cbv [transform_type_array transform_type_bool transform_type_c_bit_field
         transform_type_c_integer transform_type_code transform_type_constructor
         transform_type_double transform_type_empty transform_type_flexible_array
         transform_type_float nm_incomplete_struct nm_incomplete_union
         transform_type_infinite_array transform_type_pointer transform_type_signedbv nm_struct
         nm_struct_tag nm_union nm_union_tag transform_type_unsignedbv
         transform_type_variadic_code transform_type_vector]; keep.
Qed.

#[local] Hint Resolve transform_type_keeps : rmc.

Lemma preserves_snd {A B} (f : A -> ST NameTransformer B) l :
  Forall (fun a => keeps (f a)) l -> keeps (st_sequence (map snd (map (fun a => (a, f a)) l))).
Proof. rewrite map_map. apply preserves_sequence, _. Qed.

Lemma preserves_cases cs :
  Forall (case_all (fun e => keeps (transform_expr T e)) (fun s => keeps (transform_stmt T s))) cs ->
  keeps (st_sequence
           (map (fun es => e ← es.1; s ← es.2; mret (switch_case e s))
              (map (fun x => match x with
                             | mkSwitchCase e s => (transform_expr T e, transform_stmt T s)
                             end) cs))).
Proof.
  intros Hcs. rewrite map_map. apply preserves_sequence; [apply _|].
  eapply Forall_impl; [exact Hcs|]. intros [e s] [He Hs]. cbn -[transform_expr transform_stmt]. keep.
Qed.

#[local] Hint Resolve preserves_snd preserves_cases : rmc.

Lemma transform_keeps :
  (forall e, keeps (transform_expr T e)) /\ (forall s, keeps (transform_stmt T s)).
Proof.
  apply ast_mutual_ind.
  - intros v t l Hv. cbn [transform_expr]. fold (transform_expr_value T).
    apply preserves_bind; [apply _| |intros r; apply preserves_ret, _].
    destruct v; cbn [value_all] in Hv; destruct_and?; cbn [transform_expr_value];
      fold (transform_expr T); fold (transform_stmt T);
      cbn -[transform_expr transform_stmt transform_type];
      cbv [transform_expr_address_of transform_expr_array transform_expr_vector
         transform_expr_array_of transform_expr_assign transform_expr_bin_op
         transform_expr_bool_constant transform_expr_byte_extract transform_expr_c_bool_constant
         transform_expr_dereference transform_expr_double_constant transform_expr_float_constant
         transform_expr_function_call transform_expr_if transform_expr_index
         transform_expr_int_constant transform_expr_nondet transform_expr_pointer_constant
         transform_expr_self_op transform_expr_statement_expression
         transform_expr_string_constant transform_expr_struct transform_expr_typecast
         transform_expr_un_op nm_member nm_expr_symbol nm_expr_union]; keep.
  - intros b l Hb. cbn [transform_stmt]. fold (transform_stmt_body T).
    apply preserves_bind; [apply _| |intros r; apply preserves_ret, _].
    destruct b; cbn [body_all] in Hb; destruct_and?; cbn [transform_stmt_body];
      fold (transform_expr T); fold (transform_stmt T);
      cbn -[transform_expr transform_stmt transform_type];
      cbv [transform_stmt_assign transform_stmt_assume transform_stmt_atomic_block
         transform_stmt_block transform_stmt_break transform_stmt_continue transform_stmt_decl
         transform_stmt_expression transform_stmt_for transform_stmt_function_call
         transform_stmt_ifthenelse transform_stmt_return transform_stmt_skip
         transform_stmt_switch transform_stmt_while nm_goto nm_label]; keep.
Qed.

Lemma transform_value_keeps v : keeps (transform_value T v).
Proof.
  destruct transform_keeps as [He Hs]. destruct v; cbn -[transform_expr transform_stmt]; keep.
Qed.

(** A symbol is stored under the image of its name. *)
Lemma symbol_renamed symbol s new s' :
  transform_one_symbol T symbol s = Ok (new, s') -> names_ok s ->
  renames s s' /\ mapped_names s' !! sym_name symbol = Some (sym_name new).
Proof.
  unfold transform_one_symbol. change (on_symbol _ T) with nm_symbol. unfold nm_symbol.
  unfold mbind, ST_bind. intros E Hok.
  destruct (transform_type T (sym_typ symbol) s) as [[t s1]|] eqn:E1; [|done].
  destruct (transform_value T (sym_value symbol) s1) as [[v s2]|] eqn:E2; [|done].
  apply transform_type_keeps in E1. apply transform_value_keeps in E2. cbn [set_value set_typ
    sym_name sym_base_name sym_pretty_name] in E.
  destruct (normalize_identifier (sym_name symbol) s2) as [[n s3]|] eqn:E3; [|done].
  destruct (normalize_option (sym_base_name symbol) s3) as [[b s4]|] eqn:E4; [|done].
  destruct (normalize_option (sym_pretty_name symbol) s4) as [[p s5]|] eqn:E5; [|done].
  injection E as <- <-. apply normalize_option_keeps in E4, E5.
  assert (R2 : renames s s2) by (by etrans). destruct (proj2 R2 Hok) as [Hok2 _].
  destruct (normalize_ok _ _ _ _ E3 Hok2) as [R3 Hn].
  assert (R5 : renames s3 s5) by (by etrans). destruct (proj2 R3 Hok2) as [Hok3 _].
  split; [by etrans; [exact R2|etrans; [exact R3|exact R5]]|]. cbn.
  eapply lookup_weaken; [exact Hn|]. by apply (proj2 R5).
Qed.

(** The state between two symbols: names and table have only grown. *)
Definition pass_le (s s' : NameTransformer) : Prop :=
  names_ok s' /\ mapped_names s ⊆ mapped_names s'
  /\ symbol_table (nm_symbol_table s) ⊆ symbol_table (nm_symbol_table s').

Lemma pass_le_refl s : names_ok s -> pass_le s s.
Proof. intros Hok. by split_and!. Qed.

Lemma pass_le_trans s1 s2 s3 : pass_le s1 s2 -> pass_le s2 s3 -> pass_le s1 s3.
Proof. intros (O1 & M1 & T1) (O2 & M2 & T2). split_and!; [done|by etrans|by etrans]. Qed.

(** The symbol [name] has been renamed and is in the new table. *)
Definition renamed (s : NameTransformer) (name : InternedString) : Prop :=
  exists n new, mapped_names s !! name = Some n /\ lookup (nm_symbol_table s) n = Some new.

Lemma renamed_le s s' name : pass_le s s' -> renamed s name -> renamed s' name.
Proof.
  intros (_ & Hm & Ht) (n & new & Hn & Hl). exists n, new.
  split; by eapply lookup_weaken.
Qed.

(** [transform_symbol] and the insertion of its result. *)
Lemma add_symbol_le symbol s s' :
  (new ← transform_one_symbol T symbol; insert_symbol T new) s = Ok (tt, s') -> names_ok s ->
  pass_le s s' /\ renamed s' (sym_name symbol).
Proof.
  unfold mbind at 1, ST_bind at 1. destruct (transform_one_symbol T symbol s) as [[new s1]|] eqn:E1;
    [|done]. intros E Hok. destruct (symbol_renamed _ _ _ _ E1 Hok) as [[Et R1] Hn].
  destruct (R1 Hok) as [Hok1 Hm]. unfold insert_symbol, mbind, ST_bind, st_get, st_lift, st_put in E.
  cbn -[insert] in E. destruct (insert (nm_symbol_table s1) new) as [st|] eqn:Ei; [|done].
  injection E as <-. apply insert_ok in Ei as [Hfree ->]. split.
  - split_and!; [|done|].
    + destruct Hok1. by split.
    + cbn. rewrite <- Et. by apply insert_subseteq.
  - exists (sym_name new), new. split; [done|]. unfold lookup. cbn. apply lookup_insert_eq.
Qed.

Lemma bind_assoc_run {A B C} (m : ST NameTransformer A) (f : A -> ST NameTransformer B)
    (g : B -> ST NameTransformer C) s r :
  (a ← m; b ← f a; g b) s = Ok r ->
  exists b s1, (a ← m; f a) s = Ok (b, s1) /\ g b s1 = Ok r.
Proof.
  unfold mbind, ST_bind. destruct (m s) as [[a s1]|]; [|done].
  destruct (f a s1) as [[b s2]|] eqn:E; [|done]. eauto.
Qed.

Lemma type_loop_renames l added s added' s' :
  type_symbols_loop T l added s = Ok (added', s') -> names_ok s ->
  Forall (fun x => sym_name x.2 = x.1) l ->
  pass_le s s' /\ forall name, name ∈ added' -> name ∈ added \/ renamed s' name.
Proof.
  revert added s. induction l as [|[name symbol] l IH]; intros added s; cbn [type_symbols_loop].
  { intros [= <- <-] Hok _. split; [by apply pass_le_refl | by left]. }
  intros E Hok [Hname Hl]%Forall_cons. cbn in Hname. rewrite (bind_id st_get _ s s) in E by done.
  destruct (_ && _); [|by apply (IH added)].
  apply bind_assoc_run in E as ([] & s1 & E1 & E2).
  destruct (add_symbol_le _ _ _ E1 Hok) as [Hle1 Hr]. rewrite Hname in Hr.
  destruct (IH _ _ E2 (proj1 Hle1) Hl) as [Hle2 Hadd].
  split; [by eapply pass_le_trans|]. intros x Hx%Hadd. rewrite elem_of_union, elem_of_singleton in Hx.
  destruct Hx as [[->|Hx]|Hx]; [|by left|by right]. right. by eapply renamed_le.
Qed.

Lemma value_loop_renames l added s s' :
  value_symbols_loop T l added s = Ok (tt, s') -> names_ok s ->
  Forall (fun x => sym_name x.2 = x.1) l ->
  pass_le s s' /\ Forall (fun x => x.1 ∈ added \/ renamed s' x.1) l.
Proof.
  revert s. induction l as [|[name symbol] l IH]; intros s; cbn [value_symbols_loop].
  { intros [= <-] Hok _. split; [by apply pass_le_refl | done]. }
  intros E Hok [Hname Hl]%Forall_cons. cbn in Hname. case_bool_decide as Hin; cbn [negb] in E.
  { destruct (IH _ E Hok Hl) as [Hle Hall]. split; [done|]. constructor; [by left | done]. }
  unfold mbind at 1, ST_bind at 1, st_lift at 1 in E.
  destruct (rassert _) as [u|]; [|done]. apply bind_assoc_run in E as ([] & s1 & E1 & E2).
  destruct (add_symbol_le _ _ _ E1 Hok) as [Hle1 Hr]. rewrite Hname in Hr.
  destruct (IH _ E2 (proj1 Hle1) Hl) as [Hle2 Hall].
  split; [by eapply pass_le_trans|]. constructor; [right; by eapply renamed_le | done].
Qed.

Lemma pass_table : symbol_table_of T = nm_symbol_table.
Proof. reflexivity. Qed.
Lemma pass_preprocess : preprocess _ T = mret tt.
Proof. reflexivity. Qed.
Lemma pass_postprocess : postprocess _ T = mret tt.
Proof. reflexivity. Qed.

Lemma pass_runs orig s st' s' :
  transform_symbol_table T orig s = Ok (st', s') ->
  exists added s1,
    type_symbols_loop T (iter orig) (dom (symbol_table (nm_symbol_table s))) s = Ok (added, s1)
    /\ value_symbols_loop T (iter orig) added s1 = Ok (tt, s')
    /\ st' = nm_symbol_table s'.
Proof.
  unfold transform_symbol_table. rewrite pass_preprocess, pass_postprocess, pass_table.
  rewrite (bind_id (mret tt) _ s tt), (bind_id st_get _ s s) by done.
  unfold mbind, ST_bind.
  destruct (type_symbols_loop T _ _ s) as [[added s1]|]; [|done].
  destruct (value_symbols_loop T _ _ s1) as [[[] s2]|] eqn:E2; [|done].
  intros [= <- <-]. eauto.
Qed.

Lemma pass_renames orig s st' s' :
  transform_symbol_table T orig s = Ok (st', s') -> symtab_ok orig -> names_ok s ->
  names_ok s' /\ st' = nm_symbol_table s'
  /\ forall name x, lookup orig name = Some x -> lookup (nm_symbol_table s) name = None ->
       renamed s' name.
Proof.
  intros (added & s1 & E1 & E2 & ->)%pass_runs Hkeys Hok.
  assert (Hiter : Forall (fun x => sym_name x.2 = x.1) (iter orig)).
  { apply Forall_forall. intros [k v] Hx%elem_of_btree_iter. exact (Hkeys _ _ Hx). }
  destruct (type_loop_renames _ _ _ _ _ E1 Hok Hiter) as [Hle1 Hadd].
  destruct (value_loop_renames _ _ _ _ E2 (proj1 Hle1) Hiter) as [Hle2 Hall].
  split; [apply Hle2|]. split; [done|]. intros name x Hx Hnew.
  rewrite Forall_forall in Hall.
  destruct (Hall (name, x)) as [Hin|Hr]; [by apply elem_of_btree_iter| |done].
  apply Hadd in Hin as [Hin|Hr]; [|by eapply renamed_le].
  apply elem_of_dom in Hin as [y Hy]. cbn in Hy. unfold lookup in Hnew. by rewrite Hnew in Hy.
Qed.
End Pass.

(** ** What the names look like *)

(** Every byte of a string satisfies [p]. *)
Fixpoint all_bytes (p : ascii -> bool) (s : string) : bool :=
  match s with "" => true | String c s => p c && all_bytes p s end.

Definition c_byte (c : ascii) : bool :=
  is_digit c || is_letter c || Ascii.eqb c "_" || Ascii.eqb c "$".

Definition is_ascii (c : ascii) : bool := (N_of_ascii c <? 128)%N.

Lemma all_bytes_app p a b : all_bytes p (a +:+ b) = all_bytes p a && all_bytes p b.
Proof.
  induction a as [|c a IH]; [done|]. change (String c a +:+ b) with (String c (a +:+ b)).
  cbn [all_bytes]. by rewrite IH, andb_assoc.
Qed.

(** Characters of an ASCII string are its bytes. *)
Lemma chars_ascii s :
  all_bytes is_ascii s = true -> chars s = map (fun c => String c "") (String.list_ascii_of_string s).
Proof.
  induction s as [|c s IH]; cbn; [done|]. intros Hs. bool_inv. rewrite IH by done.
  destruct s as [|d s]; cbn; [done|]. cbn in H0. bool_inv.
  unfold is_continuation, is_ascii in *. destruct (N.leb_spec 128 (N_of_ascii d)); [|done].
  apply N.ltb_lt in H0. lia.
Qed.

Section Identifiers.
Context `{UnicodeTables}.

Definition fix_byte (c : ascii) : ascii := if c_byte c then c else "_"%char.

Lemma fix_byte_ok c : c_byte (fix_byte c) = true.
Proof. unfold fix_byte. by destruct (c_byte c) eqn:E. Qed.

Lemma valid_char_byte c : is_ascii c = true -> valid_char (String c "") = c_byte c.
Proof.
  unfold valid_char, is_alphanumeric, is_ascii, c_byte. intros ->. cbn.
  by destruct (Ascii.eqb c "_"), (Ascii.eqb c "$").
Qed.

Fixpoint fix_bytes (s : string) : string :=
  match s with "" => "" | String c s => String (fix_byte c) (fix_bytes s) end.

Lemma fix_chars s :
  all_bytes is_ascii s = true ->
  concat_strings (map (fun ch => if valid_char ch then ch else "_") (chars s)) = fix_bytes s.
Proof.
  intros Hs. rewrite chars_ascii by done. rewrite map_map.
  induction s as [|c s IH]; cbn; [done|]. cbn in Hs. bool_inv.
  change (foldr _ "" ?l) with (concat_strings l). rewrite IH by done. rewrite valid_char_byte by done.
  unfold fix_byte. by destruct (c_byte c).
Qed.

Lemma c_byte_ascii c : c_byte c = true -> is_ascii c = true.
Proof. destruct c as [[] [] [] [] [] [] [] []]; vm_compute; congruence. Qed.

Lemma all_bytes_impl p q s :
  (forall c, p c = true -> q c = true) -> all_bytes p s = true -> all_bytes q s = true.
Proof. intros Hpq. induction s; cbn; [done|]. intros Hs. bool_inv. rewrite Hpq, IHs; done. Qed.

Lemma fix_bytes_ok s : all_bytes c_byte (fix_bytes s) = true.
Proof. induction s as [|c s IH]; cbn; [done|]. by rewrite fix_byte_ok, IH. Qed.

Lemma replace_bytes p pat rep k s :
  all_bytes p rep = true -> all_bytes p s = true -> all_bytes p (replace_from pat rep k s) = true.
Proof.
  intros Hr. revert k. induction s as [|c s IH]; intros k Hs; [done|].
  pose proof Hs as Hs'. cbn in Hs. bool_inv. cbn [replace_from]. destruct k; [|by apply IH].
  destruct (String.prefix pat (String c s)).
  - rewrite all_bytes_app, Hr. by apply IH.
  - cbn. rewrite H0. by apply IH.
Qed.

(** The first byte, if there is one, is not a digit. *)
Definition starts_ok (s : string) : bool :=
  match s with "" => true | String c _ => negb (is_digit c) end.

Lemma replace_starts pat rep s :
  starts_ok rep = true -> rep <> "" -> starts_ok s = true ->
  starts_ok (replace_from pat rep 0 s) = true.
Proof.
  intros Hr Hne. destruct s as [|c s]; [done|]. cbn [replace_from]. intros Hs.
  destruct (String.prefix pat (String c s)); [|done]. by destruct rep.
Qed.

Lemma replace_c_name pat rep s :
  all_bytes c_byte rep = true -> starts_ok rep = true -> rep <> "" ->
  all_bytes c_byte s = true -> starts_ok s = true ->
  all_bytes c_byte (str_replace s pat rep) = true /\ starts_ok (str_replace s pat rep) = true.
Proof. intros. unfold str_replace. split; [by apply replace_bytes | by apply replace_starts]. Qed.

Lemma fix_name_ok name :
  all_bytes is_ascii name = true ->
  all_bytes c_byte (fix_name name) = true /\ starts_ok (fix_name name) = true.
Proof.
  intros Hn. unfold fix_name. rewrite fix_chars by done.
  pose proof (fix_bytes_ok name) as Hb. set (v := fix_bytes name) in *.
  set (new := match chars v with
              | first :: _ => if char_is_numeric first then "_" +:+ v else v
              | [] => ""
              end).
  assert (Hnew : all_bytes c_byte new = true /\ starts_ok new = true).
  { unfold new. rewrite chars_ascii by (by eapply all_bytes_impl; [apply c_byte_ascii|]).
    destruct v as [|c v]; [done|].
    assert (Ha : (N_of_ascii c <? 128)%N = true).
    { apply c_byte_ascii. cbn in Hb. by bool_inv. }
    cbn [String.list_ascii_of_string map char_is_numeric]. rewrite Ha.
    destruct (is_digit c) eqn:Ed.
    - rewrite all_bytes_app, Hb. done.
    - split; [done|]. cbn [starts_ok]. by rewrite Ed. }
  destruct Hnew as [Hnb Hns]. destruct (ends_with new "case"); [by apply replace_c_name|].
  destruct (ends_with new "default"); [by apply replace_c_name | done].
Qed.
End Identifiers.

(** ** Properties *)

(** The renaming is functional and injective, as the comment on [mapped_names] asks:
    from any state that satisfies the invariant, two identifiers normalized at any
    two moments of the pass get one C name if and only if they are the same. *)
Theorem normalize_injective `{UnicodeTables} (n1 n2 r1 r2 : string)
    (s s1 s2 s3 : NameTransformer) :
  names_ok s ->
  normalize_identifier n1 s = Ok (r1, s1) -> renames s1 s2 ->
  normalize_identifier n2 s2 = Ok (r2, s3) -> (n1 = n2 <-> r1 = r2).
Proof.
  intros Hok E1 R12 E2. destruct (normalize_ok _ _ _ _ E1 Hok) as [R1 M1].
  assert (R02 : renames s s2) by (by etrans). destruct (proj2 R02 Hok) as [Hok2 _].
  destruct (normalize_ok _ _ _ _ E2 Hok2) as [R3 M2]. split.
  - intros <-. rewrite (normalize_again _ _ _ _ E1 Hok _ R12) in E2. congruence.
  - intros <-. destruct (proj2 R1 Hok) as [Hok1 _].
    assert (R13 : renames s1 s3) by (by etrans). destruct (proj2 R13 Hok1) as [Hok3 Hsub].
    eapply (names_inj _ Hok3); [|exact M2]. by eapply lookup_weaken.
Qed.

#[export] Instance plain_tables : UnicodeTables := {
  unicode_alphanumeric ch := true;
  unicode_numeric ch := false;
}.

Lemma normalize_injective_witness :
  exists r1 r2 s1 s3,
    normalize_identifier "a-b" (mkNameTransformer sample_table ∅ ∅) = Ok (r1, s1)
    /\ normalize_identifier "a+b" s1 = Ok (r2, s3) /\ (("a-b" = "a+b")%string <-> r1 = r2).
Proof.
  destruct (normalize_identifier "a-b" (mkNameTransformer sample_table ∅ ∅)) as [[r1 s1]|] eqn:E1;
    [|discriminate].
  destruct (normalize_identifier "a+b" s1) as [[r2 s3]|] eqn:E2.
  - exists r1, r2, s1, s3. split; [reflexivity|]. split; [exact E2|].
    apply (normalize_injective "a-b" "a+b" r1 r2 (mkNameTransformer sample_table ∅ ∅) s1 s1 s3);
      [apply names_ok_init | exact E1 | reflexivity | exact E2].
  - exfalso. vm_compute in E1. injection E1 as <- <-. discriminate E2.
Defined.

(** C12. Normalization always comes to an end with a result: for every nonempty
    identifier with at most one [::1::], the search for an unused name ends before
    its [i32] counter overflows (if no more than [i32::MAX] names are in use), with
    the proposed name or that name with a numeric suffix. *)
Theorem normalize_terminates `{UnicodeTables} (n c : string) (s : NameTransformer) :
  n <> "" -> proposed_name n = Ok c -> (N.of_nat (size (used_names s)) <= i32_max)%N ->
  exists r s', normalize_identifier n s = Ok (r, s')
    /\ (mapped_names s !! n = Some r
        \/ (r = c /\ (c ∉ used_names s)) \/ exists k, r = suffixed c k).
Proof. apply normalize_total. Qed.

(** A state where one C name is taken. *)
Definition sample_names : NameTransformer := mkNameTransformer sample_table ∅ {["f_u8_::x"]}.

Lemma normalize_terminates_witness :
  exists r s', normalize_identifier "f<u8>::1::x" sample_names = Ok (r, s')
    /\ (mapped_names sample_names !! "f<u8>::1::x" = Some r
        \/ (r = "f_u8_::x" /\ ("f_u8_::x" ∉ used_names sample_names))
        \/ exists k, r = suffixed "f_u8_::x" k).
Proof.
  apply (normalize_terminates "f<u8>::1::x" "f_u8_::x" sample_names);
    [discriminate | reflexivity | cbn [used_names sample_names]; rewrite size_singleton; done].
Defined.

(** [fix_name] makes C identifiers: on ASCII input every byte of the result is a
    letter, a digit, an underscore or a dollar sign, and the first is not a digit. *)
Theorem fix_name_c_identifier `{UnicodeTables} (name : string) :
  all_bytes is_ascii name = true ->
  all_bytes c_byte (fix_name name) = true /\ starts_ok (fix_name name) = true.
Proof. apply fix_name_ok. Qed.

Lemma fix_name_c_identifier_witness :
  all_bytes c_byte (fix_name "8<T>::case") = true /\ starts_ok (fix_name "8<T>::case") = true.
Proof. apply (fix_name_c_identifier "8<T>::case"). reflexivity. Defined.

(** C10. Whole-table renaming: when the pass over a symbol table succeeds, the renaming it
    has built is injective, and every symbol of the original that was not
    predefined is in the new table under the image of its name, so no two symbols
    are merged. *)
Theorem name_pass_injective `{InternOrder} `{StrDebug} `{UnicodeTables} (orig st0 st' : SymbolTable)
    (s' : NameTransformer) :
  symtab_ok orig ->
  transform_symbol_table name_transformer orig (mkNameTransformer st0 ∅ ∅) = Ok (st', s') ->
  (forall k1 k2 v, mapped_names s' !! k1 = Some v -> mapped_names s' !! k2 = Some v -> k1 = k2)
  /\ forall name x, lookup orig name = Some x -> lookup st0 name = None ->
       exists n new, mapped_names s' !! name = Some n /\ lookup st' n = Some new.
Proof.
  intros Hkeys E. destruct (pass_renames _ _ _ _ E Hkeys (names_ok_init _)) as (Hok & -> & Hall).
  split; [apply (names_inj _ Hok)|]. exact Hall.
Qed.

(** A table with the given declarations. *)
Definition declarations (names : list string) : SymbolTable :=
  foldl (fun st n => raw_insert st (variable n n c_int Location.none))
    (mkSymbolTable ∅ x86_64) names.

Lemma name_pass_injective_witness :
  exists st' s',
    transform_symbol_table name_transformer (declarations ["a<b>"; "c"])
      (mkNameTransformer (declarations []) ∅ ∅) = Ok (st', s')
    /\ exists n new, mapped_names s' !! "a<b>" = Some n /\ lookup st' n = Some new.
Proof.
  destruct (transform_symbol_table name_transformer (declarations ["a<b>"; "c"])
              (mkNameTransformer (declarations []) ∅ ∅)) as [[st' s']|] eqn:E.
  - exists st', s'. split; [reflexivity|].
    refine (proj2 (name_pass_injective (declarations ["a<b>"; "c"]) (declarations []) st' s' _ E)
              "a<b>" (variable "a<b>" "a<b>" c_int Location.none) eq_refl eq_refl).
    cbn. apply map_Forall_insert_2; [reflexivity|]. apply map_Forall_insert_2; [reflexivity|].
    apply map_Forall_empty.
  - exfalso. vm_compute in E. discriminate E.
Defined.

(** The first loop of [transform_symbol_table] looks up original names in the table
    of the new ones.  When an identifier has been renamed to one that comes later
    in the table, the later declaration is taken for a predefined symbol and
    skipped, and the second loop panics: here on the declarations [a-b] and
    [a_b], which the renaming would tell apart. *)
Theorem renaming_clash_panics :
  name_transform (declarations ["a-b"; "a_b"]) = Panic
  /\ is_ok (name_transform (declarations ["a_b"; "b-a"])) = true.
Proof. split; vm_compute; reflexivity. Qed.

(** The tag of a struct and the symbol that declares it are renamed separately: with
    [S_u8_] taken, the struct [S<u8>] becomes [S_u8__0] while its symbol
    [tag-S<u8>] becomes [tag-S_u8_], which is not the tag of the new name. *)
Theorem tag_renamed_apart :
  exists s0 s1 s2,
    normalize_identifier "S_u8_" (mkNameTransformer (declarations []) ∅ ∅) = Ok ("S_u8_", s0)
    /\ normalize_identifier "S<u8>" s0 = Ok ("S_u8__0", s1)
    /\ normalize_identifier (aggr_tag "S<u8>") s1 = Ok ("tag-S_u8_", s2)
    /\ ("tag-S_u8_" : string) <> aggr_tag "S_u8__0".
Proof. do 3 eexists. split_and!; [vm_compute; reflexivity..|done]. Qed.
