(* ===== verification/NameTyping.v ===== *)
(** * The renaming pass keeps programs well-formed

    [NameTransformer] rebuilds every expression and statement with the constructors
    of [expr.rs] and [stmt.rs], so what it puts into the new table obeys the typing
    rules of [Typing.v], whatever it was given.  Symbols are inserted one by one:
    the rules hold with respect to the table at the time, and survive its growth. *)

From S2P Require Import Prelude CbmcString MachineModel Location Typ Ast SymbolTable Expr Symbol.
From S2P Require Import Builtin Stmt Env Typing Built Transformer Identity NameTransformer.

(** ** Results of computations that leave the table alone *)

Section Yields.
Context {S : Type} (get : S -> SymbolTable) (st : SymbolTable).

(** Run with the table [st], [m] keeps the table and its results satisfy [P]. *)
Definition yields {A} (P : A -> Prop) (m : ST S A) : Prop :=
  forall s a s', get s = st -> m s = Ok (a, s') -> get s' = st /\ P a.

Lemma yields_ret {A} (P : A -> Prop) a : P a -> yields P (mret a).
Proof. intros Ha s b s' Hs [= <- <-]. done. Qed.

Lemma yields_lift {A} (P : A -> Prop) (o : outcome A) :
  (forall a, o = Ok a -> P a) -> yields P (st_lift o).
Proof. intros Ho s a s' Hs. unfold st_lift. destruct o; [|done]. intros [= <- <-]. auto. Qed.

Lemma yields_bind {A B} (P : A -> Prop) (Q : B -> Prop) (m : ST S A) (f : A -> ST S B) :
  yields P m -> (forall a, P a -> yields Q (f a)) -> yields Q (m ≫= f).
Proof.
  intros Hm Hf s b s' Hs. unfold mbind, ST_bind. destruct (m s) as [[a s1]|] eqn:E; [|done].
  destruct (Hm _ _ _ Hs E) as [Hs1 Ha]. intros E'. by eapply Hf.
Qed.

Lemma yields_sequence {A B} (P : B -> Prop) (f : A -> ST S B) l :
  Forall (fun a => yields P (f a)) l -> yields (Forall P) (st_sequence (map f l)).
Proof.
  induction 1 as [|a l Ha _ IH]; cbn; [by apply yields_ret|].
  eapply yields_bind; [exact Ha|]. intros b Hb. eapply yields_bind; [exact IH|]. intros bs Hbs.
  apply yields_ret. by constructor.
Qed.

Lemma yields_option {A B} (P : B -> Prop) (f : A -> ST S B) o :
  option_all (fun a => yields P (f a)) o -> yields (option_all P) (st_option (option_map f o)).
Proof.
  destruct o; cbn; intros Ho; [|by apply yields_ret]. eapply yields_bind; [exact Ho|].
  intros b Hb. by apply yields_ret.
Qed.

(** Operations that read the table see [st]. *)
Lemma yields_with_table {A} (P : A -> Prop) (f : SymbolTable -> outcome A) :
  (forall a, f st = Ok a -> P a) -> yields P (with_table get f).
Proof.
  intros Hf s a s' Hs. unfold with_table, mbind, ST_bind, st_get, st_lift. rewrite Hs.
  destruct (f st); [|done]. intros [= <- <-]. auto.
Qed.

Lemma yields_weaken {A} (P Q : A -> Prop) m : yields P m -> (forall a, P a -> Q a) -> yields Q m.
Proof. intros Hm HPQ s a s' Hs E. destruct (Hm _ _ _ Hs E). auto. Qed.
End Yields.

(** ** The pass *)

Section Pass.
Context `{InternOrder} `{StrDebug} `{UnicodeTables}.
Variable st : SymbolTable.

Abbreviation T := name_transformer.
Abbreviation gives P m := (yields nm_symbol_table st P m).
Abbreviation wf := (fun e => wf_expr st e = true).
Abbreviation wfs := (fun s => wf_stmt st s = true).

Lemma keeps_gives {A} (m : ST NameTransformer A) : preserves renames m -> gives (fun _ => True) m.
Proof. intros Hm s a s' Hs E. split; [|done]. rewrite <- Hs. apply (Hm _ _ _ E). Qed.

Lemma type_gives t : gives (fun _ => True) (transform_type T t).
Proof. apply keeps_gives, transform_type_keeps. Qed.

Lemma name_gives n : gives (fun _ => True) (normalize_identifier n).
Proof. apply keeps_gives, normalize_keeps. Qed.

(** Run the parts of a node. *)
#[local] Ltac run :=
  repeat match goal with
  | E : yields _ _ _ ?m |- yields _ _ _ (mbind _ ?m) => eapply yields_bind; [exact E | intros ? ?]
  | |- yields _ _ _ (mbind _ (transform_type T ?t)) =>
      eapply yields_bind; [apply type_gives | intros ? _]
  | |- yields _ _ _ (mbind _ (normalize_identifier ?n)) =>
      eapply yields_bind; [apply name_gives | intros ? _]
  | E : Forall _ ?l |- yields _ _ _ (mbind _ (st_sequence (map _ ?l))) =>
      eapply yields_bind; [apply yields_sequence, E | intros ? ?]
  | E : option_all _ ?o |- yields _ _ _ (mbind _ (st_option (option_map _ ?o))) =>
      eapply yields_bind; [apply yields_option, E | intros ? ?]
  end.
#[local] Ltac lift := apply yields_lift; intros ? ?; cbn beta in *.
(** Apply the rule of the constructor that succeeded. *)
#[local] Ltac rule H := cbn beta in *; eapply H; [.. | eassumption]; eassumption.

Lemma read_gives {A} (P : A -> Prop) (f : SymbolTable -> outcome A) :
  (forall a, f st = Ok a -> P a) ->
  gives P (s ← st_get; st_lift (f (nm_symbol_table s))).
Proof. apply (yields_with_table nm_symbol_table st P f). Qed.

Lemma wf_unop_of op e e' :
  wf_expr st e = true ->
  match op with
  | Bitnot => bitnot e
  | Bswap => bswap e
  | IsDynamicObject => dynamic_object e
  | Not => not_ e
  | ObjectSize => object_size e
  | PointerObject => pointer_object e
  | PointerOffset => pointer_offset e
  | Popcount => popcount e
  | CountTrailingZeros allow_zero => cttz e allow_zero
  | CountLeadingZeros allow_zero => ctlz e allow_zero
  | UnaryMinus => neg e
  end = Ok e' -> wf_expr st e' = true.
Proof.
  intros He. destruct op; cbn; intros E;
    try (by apply (wf_unop st) in E as [Hw _]).
  - unfold not_ in E. outcome_inv. apply (wf_cast_to st) in E0 as [Hc _]; [|done].
    by apply (wf_unop st) in E as [Hw _].
  - unfold pointer_offset in E. outcome_inv. apply (wf_cast_to st) in E0 as [Hc _]; [|done].
    by apply (wf_unop st) in E as [Hw _].
Qed.

Lemma wf_self_op_of op e e' :
  wf_expr st e = true ->
  match op with
  | Postdecrement => postdecr e
  | Postincrement => postincr e
  | Predecrement => predecr e
  | Preincrement => preincr e
  end = Ok e' -> wf_expr st e' = true.
Proof. intros He. destruct op; by apply wf_self_op. Qed.

Lemma wf_index_of a i e' :
  wf_expr st a = true -> wf_expr st i = true -> Expr.index a i = Ok e' -> wf_expr st e' = true.
Proof.
  intros Ha Hi E. unfold Expr.index in E. outcome_inv. destruct (is_pointer (typ a)).
  - unfold index_ptr, plus_ in E. outcome_inv.
    match goal with B : binop _ _ _ = Ok _ |- _ => apply (wf_binop st) in B as [Hp _]; [|done..] end.
    by eapply wf_dereference.
  - destruct (is_array_like (typ a)); [|done]. by apply (wf_index_array st a i).
Qed.

(** Every node the pass builds obeys its rule. *)
Lemma value_gives v t :
  value_all (fun e => gives wf (transform_expr T e)) (fun s => gives wfs (transform_stmt T s)) v ->
  gives wf (transform_expr_value T v t).
Proof.
  intros Hv. destruct v; cbn [value_all] in Hv; destruct_and?; cbn [transform_expr_value];
    fold (transform_expr T); fold (transform_stmt T);
    cbn -[transform_expr transform_stmt transform_type].
  - unfold transform_expr_address_of. run. lift. rule wf_address_of.
  - unfold transform_expr_array. run. lift. rule wf_array_expr.
  - unfold transform_expr_array_of. run. destruct a; lift; try done. rule wf_array_constant.
  - by apply yields_lift.
  - unfold transform_expr_bin_op. run. lift. by eapply wf_binop; [| |eassumption].
  - by apply yields_ret.
  - unfold transform_expr_byte_extract. run. apply yields_with_table. intros. rule wf_transmute_to.
  - by apply yields_ret.
  - unfold transform_expr_dereference. run. lift. rule wf_dereference.
  - by apply yields_ret.
  - by apply yields_ret.
  - unfold transform_expr_function_call. run. lift. rule wf_call.
  - unfold transform_expr_if. run. lift. rule wf_ternary.
  - unfold transform_expr_index. run. lift. rule wf_index_of.
  - unfold transform_expr_int_constant. run. lift. by eapply wf_int_constant.
  - unfold nm_member. run. apply read_gives. intros. rule wf_member.
  - unfold transform_expr_nondet. run. by apply yields_ret.
  - unfold transform_expr_pointer_constant. run. lift. by eapply wf_pointer_constant.
  - unfold transform_expr_self_op. run. lift. rule wf_self_op_of.
  - unfold transform_expr_statement_expression. run. lift. rule wf_statement_expression.
  - apply yields_ret, wf_raw_string_constant.
  - unfold transform_expr_struct. run. eapply (yields_bind _ _ (fun _ => True)); [by apply yields_lift|].
    intros _ _. rewrite map_map. run. apply yields_with_table. intros.
    rule wf_struct_expr_from_padded_values.
  - unfold nm_expr_symbol. run. by apply yields_ret.
  - unfold transform_expr_typecast. run. lift. by eapply wf_cast_to; [|eassumption].
  - unfold nm_expr_union. run. apply read_gives. intros. rule wf_union_expr.
  - unfold transform_expr_un_op. run. lift. rule wf_unop_of.
  - unfold transform_expr_vector. run. lift. rule wf_vector_expr.
Qed.

Lemma wf_with_stmt_location s l : wf_stmt st (stmt_with_location s l) = wf_stmt st s.
Proof. by destruct s. Qed.

(** The cases of a switch. *)
Lemma cases_give cs :
  Forall (case_all (fun e => gives wf (transform_expr T e)) (fun s => gives wfs (transform_stmt T s)))
    cs ->
  gives (Forall (fun c => wf_expr st (case c) = true /\ wf_stmt st (case_body c) = true))
    (st_sequence
       (map (fun es => e ← es.1; s ← es.2; mret (switch_case e s))
          (map (fun x => match x with
                         | mkSwitchCase e s => (transform_expr T e, transform_stmt T s)
                         end) cs))).
Proof.
  intros Hcs. rewrite map_map. apply yields_sequence. eapply Forall_impl; [exact Hcs|].
  intros [e s] [He Hs]. cbn -[transform_expr transform_stmt]. run. by apply yields_ret.
Qed.

Lemma body_gives b :
  body_all (fun e => gives wf (transform_expr T e)) (fun s => gives wfs (transform_stmt T s)) b ->
  gives wfs (transform_stmt_body T b).
Proof.
  intros Hb. destruct b; cbn [body_all] in Hb; destruct_and?; cbn [transform_stmt_body];
    fold (transform_expr T); fold (transform_stmt T);
    cbn -[transform_expr transform_stmt transform_type].
  - unfold transform_stmt_assign. run. lift. by eapply wf_assign; [| |eassumption].
  - unfold transform_stmt_assume. run. lift. rule wf_assume.
  - unfold transform_stmt_atomic_block. run. apply yields_ret. cbn. by apply wf_forall_stmt.
  - unfold transform_stmt_block. run. apply yields_ret. cbn. by apply wf_forall_stmt.
  - by apply yields_ret.
  - by apply yields_ret.
  - unfold transform_stmt_decl. run. lift. rule wf_decl.
  - unfold transform_stmt_expression. run. by apply yields_ret.
  - unfold transform_stmt_for. run. lift. by eapply wf_for_loop; [| | | |eassumption].
  - unfold transform_stmt_function_call. run. lift. rule wf_function_call.
  - unfold nm_goto. run. lift. by eapply wf_goto.
  - unfold transform_stmt_ifthenelse. run. lift. rule wf_if_then_else.
  - unfold nm_label. run. lift. rule wf_with_label.
  - unfold transform_stmt_return. run. apply yields_ret. cbn. by apply option_ok_all.
  - by apply yields_ret.
  - unfold transform_stmt_switch. run. eapply yields_bind; [by apply cases_give|]. intros cs' Hcs'.
    run. lift. rule wf_switch.
  - unfold transform_stmt_while. run. lift. rule wf_while_loop.
Qed.

Lemma transform_gives :
  (forall e, gives wf (transform_expr T e)) /\ (forall s, gives wfs (transform_stmt T s)).
Proof.
  apply ast_mutual_ind.
  - intros v t l Hv. cbn [transform_expr]. fold (transform_expr_value T).
    eapply yields_bind; [by apply value_gives|]. intros e He. apply yields_ret.
    by rewrite wf_with_location.
  - intros b l Hb. cbn [transform_stmt]. fold (transform_stmt_body T).
    eapply yields_bind; [by apply body_gives|]. intros s Hs. apply yields_ret.
    by rewrite wf_with_stmt_location.
Qed.

(** The new symbol is well-formed with respect to the table it will be added to. *)
Lemma symbol_gives symbol : gives (fun new => wf_symbol st new = true) (transform_one_symbol T symbol).
Proof.
  destruct transform_gives as [He Hs]. unfold transform_one_symbol.
  change (on_symbol _ T) with nm_symbol. unfold nm_symbol. run.
  eapply (yields_bind _ _ (fun v => wf_symbol st (set_value symbol v) = true)).
  - destruct (sym_value symbol); cbn -[transform_expr transform_stmt].
    + eapply yields_bind; [apply He|]. intros e' He'. by apply yields_ret.
    + eapply yields_bind; [apply Hs|]. intros s' Hs'. by apply yields_ret.
    + by apply yields_ret.
  - intros v Hv. run. do 2 (eapply yields_bind; [apply keeps_gives, normalize_option_keeps|intros ? _]).
    by apply yields_ret.
Qed.
End Pass.

(** ** The whole table *)

Section Table.
Context `{InternOrder} `{StrDebug} `{UnicodeTables}.
Abbreviation T := name_transformer.

(** Every symbol of a table is well-formed with respect to it. *)
Definition table_wf (st : SymbolTable) : Prop :=
  forall name s, lookup st name = Some s -> wf_symbol st s = true.

Lemma insert_table_wf st s st' :
  insert st s = Ok st' -> table_wf st -> wf_symbol st s = true -> table_wf st'.
Proof.
  intros Hi Hst Hs name x Hx. assert (Hstep : table_grows st st').
  { exists (OpInsert s). split; [by intros ?? [] | done]. }
  apply insert_ok in Hi as [Hn ->]. apply (step_wf_symbol _ _ _ Hstep).
  unfold lookup in Hx. cbn in Hx. apply lookup_insert_Some in Hx as [[_ <-]|[_ Hx]]; [done|].
  by eapply Hst.
Qed.

Lemma add_symbol_wf symbol s s' :
  (new ← transform_one_symbol T symbol; insert_symbol T new) s = Ok (tt, s') ->
  table_wf (nm_symbol_table s) -> table_wf (nm_symbol_table s').
Proof.
  unfold mbind at 1, ST_bind at 1. destruct (transform_one_symbol T symbol s) as [[new s1]|] eqn:E1;
    [|done]. intros E Hwf.
  destruct (symbol_gives (nm_symbol_table s) symbol _ _ _ eq_refl E1) as [Et Hnew].
  unfold insert_symbol, mbind, ST_bind, st_get, st_lift, st_put in E. cbn -[insert] in E.
  destruct (insert (nm_symbol_table s1) new) as [st|] eqn:Ei; [|done]. injection E as <-. cbn.
  rewrite Et in Ei. by eapply insert_table_wf.
Qed.

Lemma type_loop_wf l added s added' s' :
  type_symbols_loop T l added s = Ok (added', s') ->
  table_wf (nm_symbol_table s) -> table_wf (nm_symbol_table s').
Proof.
  revert added s. induction l as [|[name symbol] l IH]; intros added s; cbn [type_symbols_loop].
  { by intros [= <- <-]. }
  intros E Hwf. rewrite (bind_id st_get _ s s) in E by done. destruct (_ && _); [|by eapply IH].
  apply bind_assoc_run in E as ([] & s1 & E1 & E2). eapply IH; [exact E2|].
  by eapply add_symbol_wf.
Qed.

Lemma value_loop_wf l added s s' :
  value_symbols_loop T l added s = Ok (tt, s') ->
  table_wf (nm_symbol_table s) -> table_wf (nm_symbol_table s').
Proof.
  revert s. induction l as [|[name symbol] l IH]; intros s; cbn [value_symbols_loop].
  { by intros [= <-]. }
  intros E Hwf. destruct (negb _); [|by eapply IH]. unfold mbind at 1, ST_bind at 1, st_lift at 1 in E.
  destruct (rassert _) as [u|]; [|done]. apply bind_assoc_run in E as ([] & s1 & E1 & E2).
  eapply IH; [exact E2|]. by eapply add_symbol_wf.
Qed.

Lemma new_table_wf mm st : symtab_new mm = Ok st -> table_wf st.
Proof.
  intros E name s Hs. destruct (program_invariant st (program_new mm st E)) as [_ Hwf].
  by eapply Hwf.
Qed.

Lemma pass_wf orig s st' s' :
  transform_symbol_table T orig s = Ok (st', s') ->
  table_wf (nm_symbol_table s) -> table_wf st'.
Proof.
  intros (added & s2 & El & Ev & ->)%pass_runs Hwf.
  exact (value_loop_wf _ _ _ _ Ev (type_loop_wf _ _ _ _ _ El Hwf)).
Qed.

Lemma name_transform_wf orig st' : name_transform orig = Ok st' -> table_wf st'.
Proof.
  unfold name_transform. intros (st0 & E0 & E)%bind_ok. apply bind_ok in E as ([st1 s1] & E1 & E2).
  assert (st1 = st') as <- by (by injection E2).
  exact (pass_wf _ _ _ _ E1 (new_table_wf _ _ E0)).
Qed.
End Table.

(** ** Properties *)

(** C11. Whatever table it is given, the renaming pass produces a well-formed program: in
    the table it returns, the value of every symbol, predefined ones included,
    obeys the typing rules with respect to that table. *)
Theorem name_pass_wf `{InternOrder} `{StrDebug} `{UnicodeTables} (orig st' : SymbolTable) :
  name_transform orig = Ok st' ->
  map_Forall (fun _ s => wf_symbol st' s = true) (symbol_table st').
Proof. intros E name s Hs. by apply (name_transform_wf orig st' E name). Qed.

Lemma name_pass_wf_witness :
  exists st', name_transform sample_program = Ok st'
    /\ map_Forall (fun _ s => wf_symbol st' s = true) (symbol_table st').
Proof.
  assert (Hok : is_ok (name_transform sample_program) = true) by (vm_compute; reflexivity).
  destruct (name_transform sample_program) as [st'|] eqn:E; [|discriminate Hok].
  exists st'. split; [reflexivity|]. apply (name_pass_wf sample_program st' E).
Defined.
