(* ===== verification/Passes.v ===== *)
(** * The passes over a symbol table
    ([cbmc/src/goto_program/symtab_transformer/passes.rs])

    [do_passes] runs the passes named on the command line.  The ["gen-c"] pass is
    the sequence of the expression, nondeterminism and renaming passes. *)

From S2P Require Import Prelude CbmcString MachineModel Location Typ Ast SymbolTable Stmt Env.
From S2P Require Import Built Transformer Identity ExprTransformer NondetTransformer NameTransformer.

Section Passes.
Context `{InternOrder} `{StrDebug} `{HashOrder} `{UnicodeTables}.

(** The body of the loop of [do_passes]. *)
Definition do_pass (symtab : SymbolTable) (pass_name : string) : outcome SymbolTable :=
  if String.eqb pass_name "gen-c" then
    symtab ← expr_transform symtab;
    symtab ← nondet_transform symtab;
    name_transform symtab
  else if String.eqb pass_name "identity" then identity_transform symtab
  else Panic.

Fixpoint do_passes (symtab : SymbolTable) (pass_names : list string) : outcome SymbolTable :=
  match pass_names with
  | [] => Ok symtab
  | pass_name :: pass_names =>
      symtab ← do_pass symtab pass_name;
      do_passes symtab pass_names
  end.

Lemma do_passes_app symtab l l' :
  do_passes symtab (l ++ l') = (do_passes symtab l ≫= fun symtab => do_passes symtab l').
Proof.
  revert symtab. induction l as [|p l IH]; intros symtab; cbn [app do_passes]; [done|].
  destruct (do_pass symtab p); cbn; [apply IH | done].
Qed.

Lemma do_pass_unknown symtab p :
  p <> "gen-c" -> p <> "identity" -> do_pass symtab p = Panic.
Proof.
  intros Hg Hi. unfold do_pass. by destruct (String.eqb_spec p "gen-c"),
    (String.eqb_spec p "identity").
Qed.
End Passes.

(** ** Properties *)

(** Any number of ["identity"] passes leaves a valid symbol table as it is, and a pass
    name that is neither ["identity"] nor ["gen-c"] makes the whole run panic,
    wherever it stands in the list. *)
Theorem passes_identity_or_panic `{InternOrder} `{StrDebug} `{HashOrder} `{UnicodeTables}
    (st : SymbolTable) (n : nat) (before after : list string) (p : string) :
  table_valid st -> p <> "gen-c" -> p <> "identity" ->
  do_passes st (replicate n "identity") = Ok st
  /\ do_passes st (before ++ p :: after) = Panic.
Proof.
  intros Hst Hg Hi. split.
  - induction n as [|n IH]; cbn [replicate do_passes]; [done|].
    change (do_pass st "identity") with (identity_transform st).
    rewrite identity_table_aux by done. exact IH.
  - rewrite do_passes_app. destruct (do_passes st before) as [st1|]; [|done].
    cbn [mbind outcome_bind do_passes]. by rewrite do_pass_unknown.
Qed.

Lemma passes_identity_or_panic_witness :
  do_passes sample_program (replicate 3 "identity") = Ok sample_program
  /\ do_passes sample_program (["gen-c"] ++ "dump-c" :: []) = Panic.
Proof.
  apply (passes_identity_or_panic sample_program 3 ["gen-c"] [] "dump-c");
    [apply sample_program_valid | discriminate | discriminate].
Defined.
