(* ===== verification/Restrictions.v ===== *)
(** * Function-pointer restrictions for virtual calls
    ([library/rmc_restrictions/src/lib.rs],
     [rustc_codegen_rmc/src/context/vtable_ctx.rs],
     [src/tools/rmc-link-restrictions/src/main.rs])

    While a crate is compiled, [VtableCtx] collects which functions implement each
    trait method and where virtual calls take place; [rmc-link-restrictions] merges
    the crates of a program into the restrictions CBMC is given.  A restriction
    that misses an implementation makes the verification unsound, so the theorems
    are about completeness: per crate it holds ([crate_possibilities]); across
    crates it holds when no trait method is implemented in two crates
    ([link_complete]), and not otherwise ([link_forgets]). *)

From S2P Require Import Prelude CbmcString MachineModel Location Typ Ast SymbolTable Expr Symbol.
From S2P Require Import Builtin Stmt.

(** ** Data ([rmc_restrictions]) *)

(** [struct TraitDefinedMethod] *)
Record TraitDefinedMethod := mkTraitDefinedMethod {
  trait_name : InternedString;
  vtable_idx : N;
}.

#[export] Instance trait_method_eq_dec : EqDecision TraitDefinedMethod.
Proof. solve_decision. Defined.
#[export] Instance trait_method_countable : Countable TraitDefinedMethod.
Proof.
  apply (inj_countable' (fun m => (trait_name m, vtable_idx m))
           (fun x => mkTraitDefinedMethod x.1 x.2)).
  by intros [].
Defined.

(** [struct CallSite], [struct PossibleMethodEntry], [struct VtableCtxResults] *)
Record CallSite := mkCallSite {
  site_trait_method : TraitDefinedMethod;
  site_function_name : InternedString;
}.
Record PossibleMethodEntry := mkPossibleMethodEntry {
  entry_trait_method : TraitDefinedMethod;
  entry_possibilities : list InternedString;
}.
Record VtableCtxResults := mkVtableCtxResults {
  results_call_sites : list CallSite;
  results_possible_methods : list PossibleMethodEntry;
}.

(** ** The context of a crate ([vtable_ctx.rs]) *)

(** [struct VtableCtx] *)
Record VtableCtx := mkVtableCtx {
  emit_vtable_restrictions : bool;
  possible_methods : gmap TraitDefinedMethod (list InternedString);
  call_sites : list CallSite;
  call_site_global_idx : N;
}.

(** [VtableCtx::new] *)
Definition vtable_ctx_new (emit : bool) : VtableCtx := mkVtableCtx emit ∅ [] 0.

Definition add_possible_method (trait_name : InternedString) (method : N) (imp : InternedString)
    (ctx : VtableCtx) : outcome VtableCtx :=
  assert! emit_vtable_restrictions ctx;
  let key := mkTraitDefinedMethod trait_name method in
  let methods :=
    match possible_methods ctx !! key with
    | Some possibilities => <[key := possibilities ++ [imp]]> (possible_methods ctx)
    | None => <[key := [imp]]> (possible_methods ctx)
    end in
  Ok (mkVtableCtx true methods (call_sites ctx) (call_site_global_idx ctx)).

Definition get_call_site_global_idx : ST VtableCtx N := fun ctx =>
  assert! emit_vtable_restrictions ctx;
  idx ← u64_add (call_site_global_idx ctx) 1;
  Ok (idx, mkVtableCtx true (possible_methods ctx) (call_sites ctx) idx).

Definition add_call_site (trait_name : InternedString) (method : N) (function_name : InternedString)
    (ctx : VtableCtx) : outcome VtableCtx :=
  assert! emit_vtable_restrictions ctx;
  let site := mkCallSite (mkTraitDefinedMethod trait_name method) function_name in
  Ok (mkVtableCtx true (possible_methods ctx) (call_sites ctx ++ [site])
        (call_site_global_idx ctx)).

(** [FxHashMap::drain] visits every entry once, in an order that is not specified. *)
Class DrainOrder := {
  drain : gmap TraitDefinedMethod (list InternedString) ->
          list (TraitDefinedMethod * list InternedString);
  drain_Permutation m : drain m ≡ₚ map_to_list m;
}.
#[export] Instance map_drain : DrainOrder := {
  drain m := map_to_list m;
  drain_Permutation m := reflexivity (map_to_list m);
}.

Definition get_virtual_function_restrictions `{DrainOrder} : ST VtableCtx VtableCtxResults :=
  fun ctx =>
    assert! emit_vtable_restrictions ctx;
    Ok (mkVtableCtxResults (call_sites ctx)
          (map (fun kv => mkPossibleMethodEntry kv.1 kv.2) (drain (possible_methods ctx))),
        mkVtableCtx true ∅ (call_sites ctx) (call_site_global_idx ctx)).

(** *** Wrappers of virtual calls

    The part of [GotocCtx] that [virtual_call_with_restricted_fn_ptr] changes.  The
    name of the crate and the normalized name of the trait come from the compiler:
    they are arguments. *)

Record WrapperCtx := mkWrapperCtx { gcx_symbol_table : SymbolTable; vtable_ctx : VtableCtx }.

(** The parameters of the wrapper, declared as variables. *)
Fixpoint declare_parameters (wrapper_name : InternedString) (i : N) (ps : list Parameter_)
    (st : SymbolTable) : outcome (list Symbol * SymbolTable) :=
  match ps with
  | [] => Ok ([], st)
  | p :: ps =>
      let name := wrapper_name +:+ "_" +:+ pretty i in
      let param := variable name name (parameter_typ p) Location.none in
      st ← insert st param;
      r ← declare_parameters wrapper_name (i + 1) ps st;
      Ok (param :: r.1, r.2)
  end.

Definition wrapper_name (full_crate_name : string) (idx : N) : InternedString :=
  "restricted_call_" +:+ full_crate_name +:+ "_" +:+ pretty idx.

Definition virtual_call_with_restricted_fn_ptr (full_crate_name mir_name : string)
    (trait_ty : Type_) (vtable_idx : N) (fn_ptr : Expr) (args : list Expr) : ST WrapperCtx Expr :=
  fun ctx =>
    assert! emit_vtable_restrictions (vtable_ctx ctx);
    r ← get_call_site_global_idx (vtable_ctx ctx);
    let wrapper := wrapper_name full_crate_name r.1 in
    assert! is_struct_tag trait_ty;
    vctx ← add_call_site mir_name vtable_idx wrapper r.2;
    func_exp ← dereference fn_ptr;
    let fn_type := typ func_exp in
    ps ← unwrap (parameters fn_type);
    d ← declare_parameters wrapper 0 ps (gcx_symbol_table ctx);
    let params := d.1 in
    ret_typ ← unwrap (return_type fn_type);
    param_typs ← map_outcome to_function_parameter params;
    new_typ ← (if is_code fn_type then Ok (code param_typs ret_typ)
               else if is_variadic_code fn_type then Ok (variadic_code param_typs ret_typ)
               else Panic);
    c ← call func_exp (map to_expr params);
    let body := ret (Some c) Location.none in
    let sym := function wrapper new_typ (Some (block [body] Location.none)) None Location.none in
    st ← insert d.2 sym;
    e ← call (to_expr sym) args;
    Ok (e, mkWrapperCtx st vctx).

(** ** Linking ([rmc-link-restrictions]) *)

(** The loops over the crates' possibilities: [HashMap::insert] replaces. *)
Definition combine_entries (m : gmap TraitDefinedMethod (list InternedString))
    (entries : list PossibleMethodEntry) : gmap TraitDefinedMethod (list InternedString) :=
  foldl (fun m e => <[entry_trait_method e := entry_possibilities e]> m) m entries.
Definition combine_methods (data_per_crate : list VtableCtxResults) :
    gmap TraitDefinedMethod (list InternedString) :=
  foldl (fun m d => combine_entries m (results_possible_methods d)) ∅ data_per_crate.

Definition cbmc_call_site_name (s : CallSite) : string :=
  site_function_name s +:+ ".function_pointer_call.1".

(** The loops over the call sites. *)
Definition link_sites (combined : gmap TraitDefinedMethod (list InternedString))
    (output : gmap string (list InternedString)) (sites : list CallSite) :
    gmap string (list InternedString) :=
  foldl (fun out s => <[cbmc_call_site_name s :=
                          match combined !! site_trait_method s with
                          | Some possibilities => possibilities
                          | None => []
                          end]> out) output sites.

Definition link_function_pointer_restrictions (data_per_crate : list VtableCtxResults) :
    gmap string (list InternedString) :=
  let combined := combine_methods data_per_crate in
  foldl (fun out d => link_sites combined out (results_call_sites d)) ∅ data_per_crate.

(** ** One crate *)

(** The implementations reported for a method, in order. *)
Definition imps (k : TraitDefinedMethod) (evs : list (TraitDefinedMethod * InternedString)) :
    list InternedString :=
  map snd (filter (fun ev => ev.1 = k) evs).

(** The calls of [add_possible_method] that codegen makes, one after the other. *)
Fixpoint add_all (evs : list (TraitDefinedMethod * InternedString)) (ctx : VtableCtx) :
    outcome VtableCtx :=
  match evs with
  | [] => Ok ctx
  | (k, imp) :: evs =>
      ctx ← add_possible_method (trait_name k) (vtable_idx k) imp ctx;
      add_all evs ctx
  end.

Lemma add_possible_method_lookup k imp ctx ctx' :
  add_possible_method (trait_name k) (vtable_idx k) imp ctx = Ok ctx' ->
  emit_vtable_restrictions ctx' = true
  /\ forall k', possible_methods ctx' !! k'
       = if decide (k' = k) then Some (default [] (possible_methods ctx !! k) ++ [imp])
         else possible_methods ctx !! k'.
Proof.
  unfold add_possible_method. destruct (emit_vtable_restrictions ctx); [|done]. destruct k as [n i].
  cbn. intros [= <-]. split; [done|]. intros k'. cbn.
  destruct (possible_methods ctx !! mkTraitDefinedMethod n i) eqn:E; cbn;
    destruct (decide (k' = mkTraitDefinedMethod n i)) as [->|Hne];
    by rewrite ?lookup_insert_eq, ?lookup_insert_ne.
Qed.

Lemma add_all_lookup evs ctx :
  emit_vtable_restrictions ctx = true ->
  exists ctx', add_all evs ctx = Ok ctx' /\ emit_vtable_restrictions ctx' = true
    /\ forall k, possible_methods ctx' !! k
         = match default [] (possible_methods ctx !! k) ++ imps k evs with
           | [] => possible_methods ctx !! k
           | l => Some l
           end.
Proof.
  revert ctx. induction evs as [|[k imp] evs IH]; intros ctx He; cbn [add_all].
  - exists ctx. split; [done|]. split; [done|]. intros k. cbn. rewrite app_nil_r.
    by destruct (possible_methods ctx !! k) as [[]|].
  - destruct (add_possible_method (trait_name k) (vtable_idx k) imp ctx) as [ctx1|] eqn:E1.
    + destruct (add_possible_method_lookup _ _ _ _ E1) as [He1 H1].
      destruct (IH ctx1 He1) as (ctx' & E' & He' & H'). exists ctx'. split; [done|].
      split; [done|]. intros k'. rewrite H', H1. unfold imps. rewrite filter_cons. cbn [fst].
      destruct (decide (k' = k)) as [->|Hne]; [rewrite decide_True by done|rewrite decide_False by done];
        [|done]. cbn [from_option id map]. rewrite <- (assoc_L (++)). cbn [app snd].
      by destruct (default [] (possible_methods ctx !! k)).
    + unfold add_possible_method in E1. by rewrite He in E1.
Qed.

Lemma crate_possibilities_aux `{DrainOrder} evs :
  exists ctx res ctx', add_all evs (vtable_ctx_new true) = Ok ctx
    /\ get_virtual_function_restrictions ctx = Ok (res, ctx')
    /\ NoDup (map entry_trait_method (results_possible_methods res))
    /\ forall k l, mkPossibleMethodEntry k l ∈ results_possible_methods res
         <-> l = imps k evs /\ l <> [].
Proof.
  destruct (add_all_lookup evs (vtable_ctx_new true) eq_refl) as (ctx & E & He & Hl).
  exists ctx. unfold get_virtual_function_restrictions. rewrite He.
  do 2 eexists. split; [done|]. split; [reflexivity|]. cbn [results_possible_methods]. split.
  - rewrite map_map. cbn [entry_trait_method]. rewrite drain_Permutation.
    apply NoDup_fst_map_to_list.
  - intros k l. rewrite list_elem_of_fmap. setoid_rewrite drain_Permutation.
    specialize (Hl k). cbn in Hl. split.
    + intros ([k' l'] & [= -> ->] & Hin%elem_of_map_to_list). rewrite Hin in Hl. cbn in Hl.
      destruct (imps k' evs); [done|]. injection Hl as ->. done.
    + intros [-> Hne]. exists (k, imps k evs). split; [done|]. apply elem_of_map_to_list.
      rewrite Hl. by destruct (imps k evs).
Qed.

(** ** Linking *)

Lemma combine_entries_lookup entries m k l :
  NoDup (map entry_trait_method entries) -> mkPossibleMethodEntry k l ∈ entries ->
  combine_entries m entries !! k = Some l.
Proof.
  unfold combine_entries. revert m. induction entries as [|e entries IH]; intros m; cbn;
    [by intros _ ?%elem_of_nil|].
  intros [Hout Hnd]%NoDup_cons [<-|Hin]%elem_of_cons; [|by apply IH]. cbn in *.
  clear IH Hnd. revert m. induction entries as [|e' entries IH]; intros m; cbn;
    [apply lookup_insert_eq|]. cbn in Hout. apply not_elem_of_cons in Hout as [Hne Hout].
  rewrite insert_insert_ne by done. by apply IH.
Qed.

Lemma combine_methods_concat data :
  combine_methods data = combine_entries ∅ (concat (map results_possible_methods data)).
Proof.
  unfold combine_methods, combine_entries. generalize (∅ : gmap TraitDefinedMethod (list InternedString)).
  induction data as [|d data IH]; intros m; cbn; [done|]. by rewrite foldl_app, IH.
Qed.

Lemma combine_entries_none entries m k :
  (k ∉ map entry_trait_method entries) -> combine_entries m entries !! k = m !! k.
Proof.
  unfold combine_entries. revert m. induction entries as [|e entries IH]; intros m; cbn; [done|].
  intros [Hne Hout]%not_elem_of_cons. rewrite IH by done. by apply lookup_insert_ne.
Qed.

Lemma link_concat data :
  link_function_pointer_restrictions data
  = link_sites (combine_methods data) ∅ (concat (map results_call_sites data)).
Proof.
  unfold link_function_pointer_restrictions. generalize (combine_methods data) as c. intros c.
  unfold link_sites. generalize (∅ : gmap string (list InternedString)).
  induction data as [|d data IH]; intros m; cbn; [done|]. by rewrite foldl_app, IH.
Qed.

Lemma bytes_app a b :
  String.list_ascii_of_string (a +:+ b)
  = String.list_ascii_of_string a ++ String.list_ascii_of_string b.
Proof.
  induction a as [|c a IH]; [done|]. change (String c a +:+ b) with (String c (a +:+ b)).
  cbn. by rewrite IH.
Qed.

Lemma append_inj_l a b t : a +:+ t = b +:+ t -> a = b.
Proof.
  intros E. apply (f_equal String.list_ascii_of_string) in E. rewrite !bytes_app in E.
  apply app_inv_tail in E. apply (f_equal String.string_of_list_ascii) in E.
  by rewrite !String.string_of_list_ascii_of_string in E.
Qed.

Lemma call_site_name_inj s1 s2 :
  cbmc_call_site_name s1 = cbmc_call_site_name s2 -> site_function_name s1 = site_function_name s2.
Proof. apply append_inj_l. Qed.

Lemma link_sites_lookup combined out sites s :
  s ∈ sites ->
  (forall s', s' ∈ sites -> site_function_name s' = site_function_name s ->
     site_trait_method s' = site_trait_method s) ->
  link_sites combined out sites !! cbmc_call_site_name s
  = Some (default [] (combined !! site_trait_method s)).
Proof.
  unfold link_sites. induction sites as [|x sites IH] using rev_ind; [by intros ?%elem_of_nil|].
  intros Hin Hsame. rewrite foldl_snoc.
  destruct (decide (cbmc_call_site_name x = cbmc_call_site_name s)) as [E|Hne].
  - rewrite E, lookup_insert_eq. rewrite (Hsame x); [|set_solver|by apply call_site_name_inj].
    by destruct (combined !! _).
  - rewrite lookup_insert_ne by done. apply IH; [|intros s' Hs'; apply Hsame; set_solver].
    apply elem_of_app in Hin as [Hin|Hin%list_elem_of_singleton]; [done | by subst].
Qed.

(** ** Wrappers *)

Lemma wrapper_name_inj crate i j : wrapper_name crate i = wrapper_name crate j -> i = j.
Proof. unfold wrapper_name. intros E. by do 3 apply (inj _) in E; apply (inj pretty) in E. Qed.

Lemma declare_parameters_ok w i ps st params st' :
  declare_parameters w i ps st = Ok (params, st') ->
  map sym_typ params = map parameter_typ ps
  /\ forall name s, lookup st name = Some s -> lookup st' name = Some s.
Proof.
  revert i st params st'. induction ps as [|p ps IH]; intros i st params st'; cbn.
  - intros [= <- <-]. done.
  - intros E. outcome_inv. apply insert_ok in E0 as [Hn ->]. destruct a0 as [params' st1].
    destruct (IH _ _ _ _ E1) as [Ht Hl]. cbn. split; [by rewrite Ht|].
    intros name s Hs. apply Hl. unfold lookup in *. cbn. rewrite lookup_insert_ne; [done|].
    intros E. cbn in Hn. rewrite E in Hn. congruence.
Qed.

Lemma call_typ f args e : call f args = Ok e -> return_type (typ f) = Some (typ e).
Proof. unfold call. intros. by outcome_inv. Qed.

Lemma virtual_call_ok crate mir t idx p args ctx e ctx' :
  virtual_call_with_restricted_fn_ptr crate mir t idx p args ctx = Ok (e, ctx') ->
  let w := wrapper_name crate (call_site_global_idx (vtable_ctx ctx) + 1) in
  call_site_global_idx (vtable_ctx ctx') = (call_site_global_idx (vtable_ctx ctx) + 1)%N
  /\ call_sites (vtable_ctx ctx')
     = call_sites (vtable_ctx ctx) ++ [mkCallSite (mkTraitDefinedMethod mir idx) w]
  /\ possible_methods (vtable_ctx ctx') = possible_methods (vtable_ctx ctx)
  /\ (forall name s, lookup (gcx_symbol_table ctx) name = Some s ->
        lookup (gcx_symbol_table ctx') name = Some s)
  /\ exists f, lookup (gcx_symbol_table ctx') w = Some f /\ is_function_definition f = true
       /\ base_type (typ p) ≫= return_type = Some (typ e).
Proof.
  intros E w. unfold virtual_call_with_restricted_fn_ptr, get_call_site_global_idx, add_call_site in E.
  outcome_inv. cbn [vtable_ctx gcx_symbol_table fst snd call_site_global_idx call_sites
    possible_methods emit_vtable_restrictions] in *.
  repeat match goal with
  | H : u64_add _ _ = Ok _ |- _ => apply u64_add_ok in H as [-> _]
  | H : declare_parameters _ _ _ _ = Ok ?d |- _ =>
      destruct d as [params st1]; apply declare_parameters_ok in H as [_ Hkeep]
  | H : insert _ _ = Ok _ |- _ => apply insert_ok in H as [Hfree ->]
  | H : call (to_expr _) args = Ok _ |- _ => apply call_typ in H as Hret; clear H
  | H : dereference p = Ok ?f |- _ =>
      assert (Hderef : base_type (typ p) = Some (typ f))
        by (unfold dereference in H; by outcome_inv); clear H; rename f into func_exp
  end.
  subst w. cbn [fst snd] in *.
  split_and!; [done|done|done| |].
  - intros name s Hs. apply Hkeep in Hs. unfold lookup in *. cbn. rewrite lookup_insert_ne; [done|].
    intros En. cbn in Hfree. rewrite En in Hfree. congruence.
  - eexists. split; [apply lookup_insert_eq|]. cbn in Hret. rewrite Hderef. cbn.
    destruct (is_code (typ func_exp)) eqn:Ec; [|destruct (is_variadic_code (typ func_exp)) eqn:Ev];
      outcome_inv; (split; [done|]); cbn in Hret; congruence.
Qed.

(** *** When a virtual call can be wrapped *)

Definition parameter_name (w : InternedString) (i : N) : InternedString := w +:+ "_" +:+ pretty i.

Lemma parameter_name_inj w i j : parameter_name w i = parameter_name w j -> i = j.
Proof. unfold parameter_name. intros E. by do 2 apply (inj _) in E; apply (inj pretty) in E. Qed.

Lemma parameter_name_ne w i : parameter_name w i <> w.
Proof.
  intros E. apply (f_equal (fun x => length (String.list_ascii_of_string x))) in E.
  unfold parameter_name in E. rewrite !bytes_app, !length_app in E. cbn in E. lia.
Qed.

(** The variable declared for a parameter. *)
Definition parameter_symbol (w : InternedString) (i : N) (p : Parameter_) : Symbol :=
  variable (parameter_name w i) (parameter_name w i) (parameter_typ p) Location.none.

Lemma declare_parameters_total w i ps st :
  (forall j, (i <= j)%N -> lookup st (parameter_name w j) = None) -> lookup st w = None ->
  exists params st', declare_parameters w i ps st = Ok (params, st')
    /\ map sym_typ params = map parameter_typ ps /\ lookup st' w = None.
Proof.
  revert i st. induction ps as [|p ps IH]; intros i st Hfree Hw; [by exists [], st|].
  cbn [declare_parameters]. fold (parameter_name w i). fold (parameter_symbol w i p).
  rewrite (proj2 (insert_ok st (parameter_symbol w i p) _)) by (split; [by apply Hfree | done]).
  cbn [mbind outcome_bind].
  destruct (IH (i + 1)%N (raw_insert st (parameter_symbol w i p))) as (params & st' & -> & Ht & Hw').
  - intros j Hj. unfold lookup. cbn. rewrite lookup_insert_ne; [apply Hfree; lia|].
    intros E%parameter_name_inj. lia.
  - unfold lookup. cbn. rewrite lookup_insert_ne; [done | apply parameter_name_ne].
  - do 2 eexists. split; [reflexivity|]. cbn. by rewrite Ht.
Qed.

Lemma to_function_parameters_total params :
  Forall (fun s => is_lvalue (sym_typ s) = true) params ->
  exists ps, map_outcome to_function_parameter params = Ok ps
    /\ map parameter_typ ps = map sym_typ params.
Proof.
  induction 1 as [|s params Hs _ (ps & E & Ht)]; [by exists []|].
  assert (Ep : to_function_parameter s
               = Ok (mkParameter (sym_typ s) (Some (sym_name s)) (sym_base_name s))).
  { unfold to_function_parameter, as_parameter. by rewrite Hs. }
  unfold map_outcome in *. cbn [map sequence]. rewrite Ep, E. cbn [mbind outcome_bind].
  eexists. split; [reflexivity|]. cbn. by rewrite Ht.
Qed.

Lemma named_args_types ps args :
  (length args =? length ps)%nat && typecheck_named_args ps args
  = forallb2 (fun t a => type_eqb a t) (map parameter_typ ps) (map typ args).
Proof.
  unfold typecheck_named_args. revert args. induction ps as [|p ps IH]; intros [|a args]; cbn;
    try done. rewrite <- IH, !andb_assoc. f_equal. apply andb_comm.
Qed.

Lemma forallb2_type_refl ts : forallb2 (fun t a => type_eqb a t) ts ts = true.
Proof. induction ts as [|t ts IH]; cbn; [done|]. by rewrite type_eqb_refl, IH. Qed.

Lemma call_code f ps r args :
  typ f = TCode ps r ->
  forallb2 (fun t a => type_eqb a t) (map parameter_typ ps) (map typ args) = true ->
  call f args = Ok (expr (EFunctionCall f args) r).
Proof.
  intros Hf Ha. unfold call, typecheck_call. rewrite Hf. cbn [is_code parameters unwrap mbind
    outcome_bind return_type]. by rewrite named_args_types, Ha.
Qed.

(** The wrapper can be built. *)
Lemma virtual_call_total crate mir t idx p ps r args ctx :
  let w := wrapper_name crate (call_site_global_idx (vtable_ctx ctx) + 1) in
  emit_vtable_restrictions (vtable_ctx ctx) = true ->
  (call_site_global_idx (vtable_ctx ctx) < u64_max)%N ->
  is_struct_tag t = true -> typ p = TPointer (TCode ps r) ->
  Forall (fun x => is_lvalue (parameter_typ x) = true) ps ->
  forallb2 (fun t a => type_eqb a t) (map parameter_typ ps) (map typ args) = true ->
  lookup (gcx_symbol_table ctx) w = None ->
  (forall j, lookup (gcx_symbol_table ctx) (parameter_name w j) = None) ->
  exists e ctx', virtual_call_with_restricted_fn_ptr crate mir t idx p args ctx = Ok (e, ctx').
Proof.
  intros w He Hidx Ht Hp Hlv Hargs Hw Hfree.
  unfold virtual_call_with_restricted_fn_ptr, get_call_site_global_idx, add_call_site.
  rewrite He. rewrite (proj2 (u64_add_ok _ 1 _)) by (split; [reflexivity | lia]).
  cbn [rassert mbind outcome_bind fst snd emit_vtable_restrictions]. fold w. rewrite Ht.
  cbn [rassert mbind outcome_bind]. unfold dereference. rewrite Hp.
  cbn [is_pointer rassert mbind outcome_bind base_type unwrap typ expr parameters].
  destruct (declare_parameters_total w 0 ps (gcx_symbol_table ctx)) as (params & st' & -> & Hts & Hw');
    [by intros j _|done|].
  cbn [mbind outcome_bind fst snd return_type unwrap].
  destruct (to_function_parameters_total params) as (ps' & -> & Hps').
  { clear -Hts Hlv. revert ps Hts Hlv. induction params as [|x params IH]; intros [|p ps]; cbn; try done.
    intros [= Hx Hxs] [Hlv Hlvs]%Forall_cons. constructor; [by rewrite Hx | by eapply IH]. }
  cbn [mbind outcome_bind is_code].
  rewrite (call_code _ ps r); [|done|].
  2: { assert (map typ (map to_expr params) = map parameter_typ ps) as ->
         by (rewrite <- Hts; apply map_map). apply forallb2_type_refl. }
  cbn [mbind outcome_bind]. erewrite (proj2 (insert_ok _ _ _)); [|split; [exact Hw' | reflexivity]].
  cbn [mbind outcome_bind]. rewrite (call_code _ ps' r) by (done || by rewrite Hps', Hts).
  cbn. by do 2 eexists.
Qed.

(** ** Properties *)

(** Per crate nothing is lost: after any sequence of [add_possible_method] calls,
    [get_virtual_function_restrictions] succeeds and lists every trait method that
    was reported exactly once, with exactly the implementations reported for it,
    in order, and no other method. *)
Theorem crate_possibilities `{DrainOrder} (evs : list (TraitDefinedMethod * InternedString)) :
  exists ctx res ctx', add_all evs (vtable_ctx_new true) = Ok ctx
    /\ get_virtual_function_restrictions ctx = Ok (res, ctx')
    /\ NoDup (map entry_trait_method (results_possible_methods res))
    /\ forall k l, mkPossibleMethodEntry k l ∈ results_possible_methods res
         <-> l = imps k evs /\ l <> [].
Proof. apply crate_possibilities_aux. Qed.

Lemma crate_possibilities_witness :
  let evs := [(mkTraitDefinedMethod "Shape" 3, "Circle_area");
              (mkTraitDefinedMethod "Shape" 4, "Circle_name");
              (mkTraitDefinedMethod "Shape" 3, "Square_area")]%string in
  exists ctx res ctx', add_all evs (vtable_ctx_new true) = Ok ctx
    /\ @get_virtual_function_restrictions map_drain ctx = Ok (res, ctx')
    /\ mkPossibleMethodEntry (mkTraitDefinedMethod "Shape" 3) ["Circle_area"; "Square_area"]
         ∈ results_possible_methods res.
Proof.
  intros evs. destruct (@crate_possibilities map_drain evs) as (ctx & res & ctx' & E1 & E2 & _ & H).
  exists ctx, res, ctx'. split; [exact E1|]. split; [exact E2|]. apply H. split; [reflexivity | done].
Defined.

(** Linked restrictions, when every trait method has the entries of one crate only *)
Lemma linked_exact (data : list VtableCtxResults) (s : CallSite) :
  NoDup (map entry_trait_method (concat (map results_possible_methods data))) ->
  s ∈ concat (map results_call_sites data) ->
  (forall s', s' ∈ concat (map results_call_sites data) ->
     site_function_name s' = site_function_name s -> site_trait_method s' = site_trait_method s) ->
  exists l, link_function_pointer_restrictions data !! cbmc_call_site_name s = Some l
    /\ (forall l', mkPossibleMethodEntry (site_trait_method s) l'
                     ∈ concat (map results_possible_methods data) -> l = l')
    /\ ((site_trait_method s ∉ map entry_trait_method (concat (map results_possible_methods data)))
        -> l = []).
Proof.
  intros Hnd Hin Hsame. rewrite link_concat, (link_sites_lookup _ _ _ s) by done.
  eexists. split; [reflexivity|]. rewrite combine_methods_concat. split.
  - intros l' Hl'. by rewrite (combine_entries_lookup _ _ _ _ Hnd Hl').
  - intros Hout. by rewrite combine_entries_none, lookup_empty.
Qed.

(** Linking is complete when every trait method has the entries of one crate only and
    a wrapper serves one trait method: the restriction of every call site is then
    exactly the list of implementations of its method, and the empty list when no
    crate implements it. *)
Theorem link_complete (data : list VtableCtxResults) (s : CallSite) :
  NoDup (map entry_trait_method (concat (map results_possible_methods data))) ->
  s ∈ concat (map results_call_sites data) ->
  (forall s', s' ∈ concat (map results_call_sites data) ->
     site_function_name s' = site_function_name s -> site_trait_method s' = site_trait_method s) ->
  exists l, link_function_pointer_restrictions data !! cbmc_call_site_name s = Some l
    /\ (forall l', mkPossibleMethodEntry (site_trait_method s) l'
                     ∈ concat (map results_possible_methods data) -> l = l')
    /\ ((site_trait_method s ∉ map entry_trait_method (concat (map results_possible_methods data)))
        -> l = []).
Proof. apply linked_exact. Qed.

Definition sample_method : TraitDefinedMethod := mkTraitDefinedMethod "Shape" 3.
Definition sample_site : CallSite := mkCallSite sample_method "restricted_call_main_1".
Definition sample_crate : VtableCtxResults :=
  mkVtableCtxResults [sample_site] [mkPossibleMethodEntry sample_method ["Circle_area"; "Square_area"]].

Lemma link_complete_witness :
  exists l, link_function_pointer_restrictions [sample_crate] !! cbmc_call_site_name sample_site
            = Some l
    /\ (forall l', mkPossibleMethodEntry sample_method l'
                     ∈ [mkPossibleMethodEntry sample_method ["Circle_area"; "Square_area"]] -> l = l')
    /\ ((sample_method ∉ [sample_method]) -> l = []).
Proof.
  apply (link_complete [sample_crate] sample_site).
  - apply NoDup_singleton.
  - left.
  - intros s' Hs'. by apply list_elem_of_singleton in Hs' as ->.
Defined.

(** When two crates implement one trait method, linking keeps the implementations of
    the crate that comes last only: those of the other are absent from the
    restriction of every call site of the method. *)
Theorem link_forgets (sites1 sites2 : list CallSite) (k : TraitDefinedMethod)
    (l1 l2 : list InternedString) (s : CallSite) :
  s ∈ sites1 ++ sites2 ->
  site_trait_method s = k ->
  (forall s', s' ∈ sites1 ++ sites2 ->
     site_function_name s' = site_function_name s -> site_trait_method s' = site_trait_method s) ->
  link_function_pointer_restrictions
    [mkVtableCtxResults sites1 [mkPossibleMethodEntry k l1];
     mkVtableCtxResults sites2 [mkPossibleMethodEntry k l2]] !! cbmc_call_site_name s = Some l2.
Proof.
  intros Hin <- Hsame. rewrite link_concat. cbn [map results_call_sites concat].
  rewrite app_nil_r, (link_sites_lookup _ _ _ s) by done. rewrite combine_methods_concat. cbn.
  by rewrite lookup_insert_eq.
Qed.

Lemma link_forgets_witness :
  link_function_pointer_restrictions
    [mkVtableCtxResults [sample_site] [mkPossibleMethodEntry sample_method ["Circle_area"]];
     mkVtableCtxResults [] [mkPossibleMethodEntry sample_method ["Square_area"]]]
  !! cbmc_call_site_name sample_site = Some ["Square_area"].
Proof.
  apply (link_forgets [sample_site] [] sample_method ["Circle_area"] ["Square_area"] sample_site);
    [left | reflexivity |]. intros s' Hs'. by apply list_elem_of_singleton in Hs' as ->.
Defined.

(** [virtual_call_with_restricted_fn_ptr] wraps a virtual call in a function of its
    own.  It succeeds when restrictions are enabled, the pointer is to a function
    whose parameters the arguments match, and the names of the wrapper and of its
    parameters are free.  The wrapper is then defined in the symbol table under a
    name with a new index (so no two wrappers of a crate share a name), the call
    site is recorded for that name, symbols and possibilities already present are
    kept, and the new call has the return type of the method. *)
Theorem virtual_call_wrapped (crate mir : string) (t : Type_) (idx : N) (p : Expr)
    (ps : list Parameter_) (r : Type_) (args : list Expr) (ctx : WrapperCtx) :
  let w := wrapper_name crate (call_site_global_idx (vtable_ctx ctx) + 1) in
  emit_vtable_restrictions (vtable_ctx ctx) = true ->
  (call_site_global_idx (vtable_ctx ctx) < u64_max)%N ->
  is_struct_tag t = true -> typ p = TPointer (TCode ps r) ->
  Forall (fun x => is_lvalue (parameter_typ x) = true) ps ->
  forallb2 (fun t a => type_eqb a t) (map parameter_typ ps) (map typ args) = true ->
  lookup (gcx_symbol_table ctx) w = None ->
  (forall j, lookup (gcx_symbol_table ctx) (parameter_name w j) = None) ->
  exists e ctx', virtual_call_with_restricted_fn_ptr crate mir t idx p args ctx = Ok (e, ctx')
    /\ (forall i, (i <= call_site_global_idx (vtable_ctx ctx))%N -> wrapper_name crate i <> w)
    /\ call_site_global_idx (vtable_ctx ctx') = (call_site_global_idx (vtable_ctx ctx) + 1)%N
    /\ call_sites (vtable_ctx ctx')
       = call_sites (vtable_ctx ctx) ++ [mkCallSite (mkTraitDefinedMethod mir idx) w]
    /\ possible_methods (vtable_ctx ctx') = possible_methods (vtable_ctx ctx)
    /\ (forall name s, lookup (gcx_symbol_table ctx) name = Some s ->
          lookup (gcx_symbol_table ctx') name = Some s)
    /\ typ e = r
    /\ exists f, lookup (gcx_symbol_table ctx') w = Some f /\ is_function_definition f = true.
Proof.
  intros w He Hidx Ht Hp Hlv Hargs Hw Hfree.
  destruct (virtual_call_total crate mir t idx p ps r args ctx) as (e & ctx' & E); [done..|].
  exists e, ctx'. split; [exact E|].
  destruct (virtual_call_ok _ _ _ _ _ _ _ _ _ E) as (Hi & Hs & Hm & Hk & f & Hf & Hd & Hr).
  rewrite Hp in Hr. injection Hr as <-. split_and!; try done; [|by exists f].
  intros i Hle Hn%wrapper_name_inj. lia.
Qed.

(** A call through a pointer to a function from [int] to [int]. *)
Definition sample_pointer : Expr :=
  symbol_expression "method" (TPointer (TCode [mkParameter c_int None None] c_int)).

Lemma virtual_call_wrapped_witness :
  exists e ctx',
    virtual_call_with_restricted_fn_ptr "main" "Shape" (struct_tag "Shape") 3 sample_pointer
      [expr (EIntConstant 7) c_int] (mkWrapperCtx sample_table (vtable_ctx_new true)) = Ok (e, ctx')
    /\ call_sites (vtable_ctx ctx') = [sample_site] /\ typ e = c_int.
Proof.
  destruct (virtual_call_wrapped "main" "Shape" (struct_tag "Shape") 3 sample_pointer
              [mkParameter c_int None None] c_int [expr (EIntConstant 7) c_int]
              (mkWrapperCtx sample_table (vtable_ctx_new true)))
    as (e & ctx' & E & _ & _ & Hs & _ & _ & Ht & _); try reflexivity.
  - by repeat constructor.
  - exists e, ctx'. split; [exact E|]. split; [exact Hs | exact Ht].
Defined.
