(* ===== verification/RawMemory.v ===== *)
(** * Raw memory under the RMC library stubs

    The vector stubs of [library/rmc/stubs] manage their buffers with the C
    functions [malloc], [realloc], [free], [memmove] and [memcpy] and with Rust's
    raw pointers ([ptr.offset], [ptr::read], [*p = v], [drop_in_place]).  This file
    is that memory: blocks of cells that may be uninitialised, pointers with byte
    offsets, and a monad whose computations return, panic, or are undefined
    behaviour.  Undefined behaviour is a result of its own, so that memory safety is
    a theorem.  [wp] is the total-correctness calculus the stubs are verified with.

    A block holds values of one type [T], described by the class [Elem]; allocation
    never fails, as in CBMC's default model of [malloc]. *)

From stdpp Require Import base gmap list numbers.
From S2P Require Import Prelude.

#[local] Open Scope Z_scope.

(** ** Machine words *)

Definition usize_max : Z := 18446744073709551615.
Definition isize_max : Z := 9223372036854775807.
Definition in_usize (n : Z) : bool := (0 <=? n) && (n <=? usize_max).

(** [n as isize] *)
Definition as_isize (n : Z) : Z := if n <=? isize_max then n else n - (usize_max + 1).

(** ** Results *)

Inductive exec (A : Type) : Type :=
| Returns (a : A)
| Panics
| Undefined.
Arguments Returns {A} a.
Arguments Panics {A}.
Arguments Undefined {A}.

(** What the code needs to know of the element type: [mem::size_of::<T>()],
    [mem::align_of::<T>()] and whether values of [T] have drop glue. *)
Class Elem (T : Type) := {
  size_of : Z;
  align_of : Z;
  needs_drop : bool;
}.

Record ptr := Ptr { blk : nat; off : Z }.

#[export] Instance ptr_eq_dec : EqDecision ptr.
Proof. solve_decision. Defined.

(** [dropped] is the log of the values whose destructor has run. *)
Record mem (T : Type) := Mem {
  blocks : gmap nat (list (option T));
  next_block : nat;
  dropped : list T;
}.
Arguments Mem {T} _ _ _.
Arguments blocks {T} _.
Arguments next_block {T} _.
Arguments dropped {T} _.

Definition empty_mem {T} : mem T := Mem ∅ 0 [].

Definition M (T A : Type) : Type := mem T -> exec (A * mem T).

#[export] Instance M_ret T : MRet (M T) := fun A a m => Returns (a, m).
#[export] Instance M_bind T : MBind (M T) := fun A B f x m =>
  match x m with
  | Returns (a, m') => f a m'
  | Panics => Panics
  | Undefined => Undefined
  end.

Section Memory.
Context {T : Type} `{!Elem T}.
Implicit Types (p : ptr) (m : mem T).

Definition panic {A} : M T A := fun _ => Panics.
Definition undefined {A} : M T A := fun _ => Undefined.

(** [assert!] *)
Definition massert (b : bool) : M T unit := if b then mret tt else panic.

(** Arithmetic on [usize]; [overflow-checks=on] makes an overflow a panic. *)
Definition usize_add (a b : Z) : M T Z :=
  if in_usize (a + b) then mret (a + b) else panic.
Definition usize_sub (a b : Z) : M T Z :=
  if in_usize (a - b) then mret (a - b) else panic.
Definition usize_mul (a b : Z) : M T Z :=
  if in_usize (a * b) then mret (a * b) else panic.

(** [a + b] on [isize] *)
Definition isize_add (a b : Z) : M T Z :=
  if (a + b <=? isize_max) && (- isize_max - 1 <=? a + b) then mret (a + b) else panic.

(** The number of whole cells in [bytes] bytes. *)
Definition cells_in (bytes : Z) : nat := Z.to_nat (bytes / size_of).

(** The cell a pointer designates, when it is aligned to one. *)
Definition cell_index p : option nat :=
  if (0 <? size_of) && (0 <=? off p) && (off p mod size_of =? 0)
  then Some (cells_in (off p)) else None.

(** *** Allocation *)

Definition alloc (cells : list (option T)) : M T ptr := fun m =>
  Returns (Ptr (next_block m) 0,
           Mem (<[next_block m := cells]> (blocks m)) (S (next_block m)) (dropped m)).

Definition malloc (bytes : Z) : M T ptr := alloc (replicate (cells_in bytes) None).

Definition free p : M T unit := fun m =>
  match blocks m !! blk p with
  | Some _ => if off p =? 0
              then Returns (tt, Mem (delete (blk p) (blocks m)) (next_block m) (dropped m))
              else Undefined
  | None => Undefined
  end.

(** A fresh block with as much of the old contents as fits; the old one is freed. *)
Definition realloc p (bytes : Z) : M T ptr := fun m =>
  match blocks m !! blk p with
  | Some cells =>
      let n := cells_in bytes in
      (free p ≫= fun _ => alloc (take n cells ++ replicate (n - length cells) None)) m
  | None => Undefined
  end.

(** *** Access *)

(** [p.offset(i)]: the result stays within the block or one past its end. *)
Definition offset p (i : Z) : M T ptr := fun m =>
  match blocks m !! blk p with
  | Some cells =>
      let o := off p + i * size_of in
      if (0 <=? o) && (o <=? Z.of_nat (length cells) * size_of)
      then Returns (Ptr (blk p) o, m) else Undefined
  | None => Undefined
  end.

(** [ptr::read] *)
Definition read p : M T T := fun m =>
  match blocks m !! blk p, cell_index p with
  | Some cells, Some i =>
      match cells !! i with
      | Some (Some v) => Returns (v, m)
      | _ => Undefined
      end
  | _, _ => Undefined
  end.

Definition write p (v : T) : M T unit := fun m =>
  match blocks m !! blk p, cell_index p with
  | Some cells, Some i =>
      if bool_decide (i < length cells)%nat
      then Returns (tt, Mem (<[blk p := <[i := Some v]> cells]> (blocks m))
                            (next_block m) (dropped m))
      else Undefined
  | _, _ => Undefined
  end.

(** The destructor of a value. *)
Definition run_drop (v : T) : M T unit := fun m =>
  Returns (tt, if needs_drop then Mem (blocks m) (next_block m) (dropped m ++ [v]) else m).

Definition drop_in_place p : M T unit := v ← read p; run_drop v.

(** The assignment [*p = v]: for a type with drop glue it first drops the value
    that is there. *)
Definition assign p (v : T) : M T unit :=
  if needs_drop then drop_in_place p ≫= fun _ => write p v else write p v.

(** The cells [i .. i + n) of a block become [src]. *)
Definition splice (i : nat) (src cells : list (option T)) : list (option T) :=
  take i cells ++ src ++ drop (i + length src) cells.

Definition memmove (dst src : ptr) (bytes : Z) : M T unit := fun m =>
  match blocks m !! blk src, blocks m !! blk dst, cell_index src, cell_index dst with
  | Some scells, Some dcells, Some si, Some di =>
      let n := cells_in bytes in
      if bool_decide (si + n <= length scells)%nat && bool_decide (di + n <= length dcells)%nat
      then Returns (tt, Mem (<[blk dst := splice di (take n (drop si scells)) dcells]> (blocks m))
                            (next_block m) (dropped m))
      else Undefined
  | _, _, _, _ => Undefined
  end.

(** Whether the two ranges of [n] cells share one. *)
Definition overlaps (dst src : ptr) (n : nat) : bool :=
  match cell_index src, cell_index dst with
  | Some si, Some di =>
      bool_decide (blk src = blk dst) && bool_decide (si < di + n)%nat &&
      bool_decide (di < si + n)%nat
  | _, _ => false
  end.

Definition memcpy (dst src : ptr) (bytes : Z) : M T unit :=
  if overlaps dst src (cells_in bytes) then undefined else memmove dst src bytes.

End Memory.

(** ** A calculus of total correctness

    [wp P x Q m]: from [m], [x] is never undefined; if it panics then [P] holds, and
    if it returns then [Q] holds of the result and the final memory. *)
Definition wp {T A} (P : Prop) (x : M T A) (Q : A -> mem T -> Prop) (m : mem T) : Prop :=
  match x m with
  | Returns (a, m') => Q a m'
  | Panics => P
  | Undefined => False
  end.

Section Wp.
Context {T : Type}.
Implicit Types (P : Prop) (m : mem T).

Lemma wp_ret {A} P (a : A) (Q : A -> mem T -> Prop) m :
  Q a m -> wp P (mret a) Q m.
Proof. done. Qed.

Lemma wp_bind {A B} P (x : M T A) (f : A -> M T B) Q m :
  wp P x (fun a m' => wp P (f a) Q m') m -> wp P (x ≫= f) Q m.
Proof. unfold wp, mbind, M_bind. by destruct (x m) as [[a m']| |]. Qed.

Lemma wp_mono {A} (P P' : Prop) (x : M T A) (Q Q' : A -> mem T -> Prop) m :
  wp P x Q m -> (P -> P') -> (forall a m', Q a m' -> Q' a m') -> wp P' x Q' m.
Proof. unfold wp. intros. destruct (x m) as [[a m']| |]; auto. Qed.

Lemma wp_panic {A} P (Q : A -> mem T -> Prop) m : P -> wp P panic Q m.
Proof. done. Qed.

(** A computation that cannot panic returns. *)
Lemma wp_returns {A} (x : M T A) Q m :
  wp False x Q m -> exists a m', x m = Returns (a, m') /\ Q a m'.
Proof. unfold wp. destruct (x m) as [[a m']| |]; [eauto | done..]. Qed.

Lemma returns_wp {A} P (x : M T A) Q m a m' :
  x m = Returns (a, m') -> Q a m' -> wp P x Q m.
Proof. unfold wp. by intros ->. Qed.

Lemma wp_assert P (b : bool) (Q : unit -> mem T -> Prop) m :
  (b = false -> P) -> (b = true -> Q tt m) -> wp P (massert b) Q m.
Proof. destruct b; cbn; auto. Qed.

Lemma wp_usize_add P a b (Q : Z -> mem T -> Prop) m :
  (in_usize (a + b) = false -> P) -> (in_usize (a + b) = true -> Q (a + b) m) ->
  wp P (usize_add a b) Q m.
Proof. unfold wp, usize_add. destruct (in_usize (a + b)); cbn; auto. Qed.

Lemma wp_usize_sub P a b (Q : Z -> mem T -> Prop) m :
  (in_usize (a - b) = false -> P) -> (in_usize (a - b) = true -> Q (a - b) m) ->
  wp P (usize_sub a b) Q m.
Proof. unfold wp, usize_sub. destruct (in_usize (a - b)); cbn; auto. Qed.

Lemma wp_usize_mul P a b (Q : Z -> mem T -> Prop) m :
  (in_usize (a * b) = false -> P) -> (in_usize (a * b) = true -> Q (a * b) m) ->
  wp P (usize_mul a b) Q m.
Proof. unfold wp, usize_mul. destruct (in_usize (a * b)); cbn; auto. Qed.

Lemma wp_isize_add P a b (Q : Z -> mem T -> Prop) m :
  - isize_max - 1 <= a + b <= isize_max -> Q (a + b) m -> wp P (isize_add a b) Q m.
Proof.
  intros [??] HQ. unfold wp, isize_add.
  rewrite (proj2 (Z.leb_le _ _)), (proj2 (Z.leb_le _ _)) by done. done.
Qed.

End Wp.

Lemma in_usize_true n : in_usize n = true <-> 0 <= n <= usize_max.
Proof. unfold in_usize. rewrite andb_true_iff, !Z.leb_le. done. Qed.

Lemma in_usize_false n : in_usize n = false <-> n < 0 \/ usize_max < n.
Proof. rewrite <- not_true_iff_false, in_usize_true. lia. Qed.

Lemma as_isize_small n : n <= isize_max -> as_isize n = n.
Proof. unfold as_isize. intros. by rewrite (proj2 (Z.leb_le _ _)). Qed.
