(* ===== verification/RmcVec.v ===== *)
(** * The vector abstraction [rmc_vec.rs]

    [library/rmc/stubs/Rust/vec/rmc_vec.rs] replaces the standard [Vec] during
    verification: a raw buffer ([RmcRawVec], a pointer from [malloc] and a capacity)
    under a vector with a length.  [RawVec] holds the operations of the buffer,
    [Vec] those of the vector, [Iter] its owning iterator; all of them run in the
    memory of [RawMemory].  A method with [&mut self] takes the vector and returns
    the new one.  The properties are in [RmcVecSpec]. *)

From stdpp Require Import base gmap list numbers.
From S2P Require Import Prelude RawMemory.

#[local] Open Scope Z_scope.

Definition DEFAULT_CAPACITY : Z := 1024.
Definition MIN_NON_ZERO_CAP : Z := 1024.

Record RmcRawVec := MkRawVec { raw_ptr : ptr; cap : Z }.

(** [Clone::clone] of the element type *)
Class Clone (T : Type) := clone : T -> T.

(** The element types the examples use: [u32], and a type like [Box<u32>] that has a
    destructor. *)
Definition u32_elem : Elem Z := {| size_of := 4; align_of := 4; needs_drop := false |}.
Definition box_elem : Elem Z := {| size_of := 8; align_of := 8; needs_drop := true |}.
Definition u32_clone : Clone Z := fun x => x.

(** [for i in start..start + n] *)
Fixpoint for_range {T A} (n : nat) (i : Z) (body : Z -> A -> M T A) (a : A) : M T A :=
  match n with
  | O => mret a
  | S n => a ← body i a; for_range n (i + 1) body a
  end.

(** [for elem in iter], over the elements the iterator yields *)
Fixpoint for_each {T A E} (l : list E) (body : E -> A -> M T A) (a : A) : M T A :=
  match l with
  | [] => mret a
  | e :: l => a ← body e a; for_each l body a
  end.

(** ** The buffer *)

Module RawVec.
Section Ops.
Context {T : Type} `{!Elem T}.
Implicit Types (self : RmcRawVec).

Definition new : M T RmcRawVec :=
  massert (negb (size_of =? 0)) ;;
  bytes ← usize_mul DEFAULT_CAPACITY size_of;
  p ← malloc bytes;
  mret (MkRawVec p DEFAULT_CAPACITY).

Definition new_with_capacity (c : Z) : M T RmcRawVec :=
  bytes ← usize_mul c size_of;
  p ← malloc bytes;
  mret (MkRawVec p c).

Definition needs_to_grow self (len additional : Z) : M T bool :=
  room ← usize_sub (cap self) len;
  mret (room <? additional).

Definition grow self (len additional : Z) : M T RmcRawVec :=
  req_cap ← usize_add len additional;
  grow_cap ← usize_mul (cap self) 2;
  let new_cap := if grow_cap <? req_cap then req_cap else grow_cap in
  let new_cap := if new_cap <? MIN_NON_ZERO_CAP then MIN_NON_ZERO_CAP else new_cap in
  bytes ← usize_mul new_cap size_of;
  massert (bytes <=? isize_max) ;;
  p ← realloc (raw_ptr self) bytes;
  mret (MkRawVec p new_cap).

Definition reserve self (len additional : Z) : M T RmcRawVec :=
  b ← needs_to_grow self len additional;
  if b : bool then grow self len additional else mret self.

Definition grow_exact self (len additional : Z) : M T RmcRawVec :=
  req_cap ← usize_add len additional;
  massert (negb (size_of =? 0)) ;;
  bytes ← usize_mul req_cap size_of;
  p ← realloc (raw_ptr self) bytes;
  mret (MkRawVec p req_cap).

Definition reserve_exact self (len additional : Z) : M T RmcRawVec :=
  b ← needs_to_grow self len additional;
  if b : bool then grow_exact self len additional else mret self.

Definition shrink_to_fit self (len : Z) : M T RmcRawVec :=
  massert (len <=? cap self) ;;
  bytes ← usize_mul len size_of;
  p ← realloc (raw_ptr self) bytes;
  mret (MkRawVec p len).

Definition capacity self : Z := cap self.

(** [impl Drop for RmcRawVec] *)
Definition drop_raw self : M T unit := free (raw_ptr self).

End Ops.
End RawVec.

(** ** The vector *)

(** [struct RmcAllocator {}] *)
Inductive RmcAllocator := RmcAlloc.

Record Vec (A : Type) := MkVec { buf : RmcRawVec; len : Z; allocator : A }.
Arguments MkVec {A} _ _ _.
Arguments buf {A} _.
Arguments len {A} _.
Arguments allocator {A} _.

Definition with_len {A} (v : Vec A) (n : Z) : Vec A := MkVec (buf v) n (allocator v).
Definition with_buf {A} (v : Vec A) (b : RmcRawVec) : Vec A := MkVec b (len v) (allocator v).

(** [&[T]]: a pointer and a length *)
Record slice := Slice { slice_ptr : ptr; slice_len : Z }.

Module VecOps.
Section Ops.
Context {T : Type} `{!Elem T} {A : Type}.
Implicit Types (self other v : Vec A) (elem : T).

Definition vptr self : ptr := raw_ptr (buf self).
Definition capacity self : Z := RawVec.capacity (buf self).
Definition is_empty self : bool := len self =? 0.

Definition with_capacity_in (c : Z) (a : A) : M T (Vec A) :=
  b ← RawVec.new_with_capacity c;
  mret (MkVec b 0 a).

Definition new_in (a : A) : M T (Vec A) :=
  b ← RawVec.new;
  mret (MkVec b 0 a).

Definition push_unsafe self elem : M T (Vec A) :=
  p ← offset (vptr self) (as_isize (len self));
  assign p elem ;;
  n ← usize_add (len self) 1;
  mret (with_len self n).

Definition push self elem : M T (Vec A) :=
  self ← (if len self =? capacity self
          then b ← RawVec.grow (buf self) (len self) 1; mret (with_buf self b)
          else mret self);
  p ← offset (vptr self) (as_isize (len self));
  assign p elem ;;
  n ← usize_add (len self) 1;
  mret (with_len self n).

Definition pop self : M T (option T * Vec A) :=
  if len self =? 0 then mret (None, self) else
  n ← usize_sub (len self) 1;
  p ← offset (vptr self) (as_isize n);
  x ← read p;
  mret (Some x, with_len self n).

Definition insert self (index : Z) elem : M T (Vec A) :=
  massert (index <=? len self) ;;
  n ← usize_add (len self) 1;
  self ← (if capacity self <? n
          then b ← RawVec.grow (buf self) (len self) 1; mret (with_buf self b)
          else mret self);
  (if index <? len self then
     i ← isize_add (as_isize index) 1;
     dst ← offset (vptr self) i;
     src ← offset (vptr self) (as_isize index);
     k ← usize_sub (len self) index;
     bytes ← usize_mul k size_of;
     memmove dst src bytes
   else mret tt) ;;
  p ← offset (vptr self) (as_isize index);
  assign p elem ;;
  n ← usize_add (len self) 1;
  mret (with_len self n).

Definition remove self (index : Z) : M T (T * Vec A) :=
  massert (index <? len self) ;;
  n ← usize_sub (len self) 1;
  let self := with_len self n in
  p ← offset (vptr self) (as_isize index);
  result ← read p;
  k ← usize_sub (len self) index;
  (if 0 <? k then
     dst ← offset (vptr self) (as_isize index);
     i ← isize_add (as_isize index) 1;
     src ← offset (vptr self) i;
     bytes ← usize_mul k size_of;
     memmove dst src bytes
   else mret tt) ;;
  mret (result, self).

Definition reserve self (additional : Z) : M T (Vec A) :=
  b ← RawVec.reserve (buf self) (len self) additional;
  mret (with_buf self b).

(** The body of [Vec::reserve_exact] calls the buffer's [reserve]. *)
Definition reserve_exact self (additional : Z) : M T (Vec A) :=
  b ← RawVec.reserve (buf self) (len self) additional;
  mret (with_buf self b).

Definition set_len self (new_len : Z) : M T (Vec A) :=
  massert (new_len <=? capacity self) ;;
  mret (with_len self new_len).

(** The loop of [truncate]; [truncate] gives it as much fuel as the vector has
    elements. *)
Fixpoint truncate_loop (fuel : nat) (n : Z) self : M T (Vec A) :=
  if len self =? n then mret self else
  match fuel with
  | O => undefined
  | S fuel =>
      k ← usize_sub (len self) 1;
      let self := with_len self k in
      p ← offset (vptr self) (as_isize (len self));
      drop_in_place p ;;
      truncate_loop fuel n self
  end.

Definition truncate self (n : Z) : M T (Vec A) :=
  if len self <? n then mret self else
  _remaining_len ← usize_sub (len self) n;
  truncate_loop (Z.to_nat (len self)) n self.

Definition clear self : M T (Vec A) := truncate self 0.

Definition swap_remove self (index : Z) : M T (T * Vec A) :=
  let n := len self in
  massert (index <? n) ;;
  n1 ← usize_sub n 1;
  lp ← offset (vptr self) (as_isize n1);
  last ← read lp;
  hole ← offset (vptr self) (as_isize index);
  self ← set_len self n1;
  prev_hole ← read hole;
  assign hole last ;;
  mret (prev_hole, self).

(** Returns the shortened vector and the new one. *)
Definition split_off self (clone_alloc : A -> A) (at_ : Z) : M T (Vec A * Vec A) :=
  massert (at_ <=? len self) ;;
  other_len ← usize_sub (len self) at_;
  other ← with_capacity_in other_len (clone_alloc (allocator self));
  src ← offset (vptr self) (as_isize at_);
  bytes ← usize_mul other_len size_of;
  memcpy (vptr other) src bytes ;;
  self ← set_len self at_;
  other ← set_len other other_len;
  mret (self, other).

(** Returns both vectors. *)
Definition append self other : M T (Vec A * Vec A) :=
  self ← reserve self (len other);
  dst ← offset (vptr self) (as_isize (len self));
  bytes ← usize_mul (len other) size_of;
  memmove dst (vptr other) bytes ;;
  n ← usize_add (len self) (len other);
  let self := with_len self n in
  other ← set_len other 0;
  mret (self, other).

(** The closure is a state [F] with its call. *)
Definition resize_with {F} self (new_len : Z) (call : F -> T * F) (f : F) : M T (Vec A) :=
  let n := len self in
  if n <? new_len then
    additional ← usize_sub new_len n;
    self ← reserve self additional;
    r ← for_range (Z.to_nat additional) 0
          (fun _ s => let (x, f') := call (snd s) in
                      v ← push_unsafe (fst s) x; mret (v, f')) (self, f);
    mret (fst r)
  else truncate self new_len.

Definition shrink_to_fit self : M T (Vec A) :=
  if len self <? capacity self
  then b ← RawVec.shrink_to_fit (buf self) (len self); mret (with_buf self b)
  else mret self.

Definition shrink_to self (min_capacity : Z) : M T (Vec A) :=
  if min_capacity <? capacity self
  then let mx := if min_capacity <? len self then len self else min_capacity in
       b ← RawVec.shrink_to_fit (buf self) mx; mret (with_buf self b)
  else mret self.

(** [Vec::drop] does nothing; the drop glue then drops the buffer. *)
Definition drop_vec self : M T unit := RawVec.drop_raw (buf self).

(** *** Slices of the vector *)

Definition deref self : slice := Slice (vptr self) (len self).

(** [s[i]] *)
Definition slice_index (s : slice) (i : Z) : M T T :=
  if i <? slice_len s then p ← offset (slice_ptr s) (as_isize i); read p else panic.

Definition index self (i : Z) : M T T := slice_index (deref self) i.

(** [self[i] = x] through [IndexMut] *)
Definition index_mut self (i : Z) (x : T) : M T unit :=
  if i <? slice_len (deref self)
  then p ← offset (slice_ptr (deref self)) (as_isize i); assign p x else panic.

(** The loop of [PartialEq::eq], for [n] more indices from [idx]; [neqb] is the
    element type's [ne]. *)
Fixpoint eq_loop (neqb : T -> T -> bool) self other (n : nat) (idx : Z) : M T bool :=
  match n with
  | O => mret true
  | S n =>
      x ← index self idx;
      y ← index other idx;
      if neqb x y then mret false else eq_loop neqb self other n (idx + 1)
  end.

Definition eq (neqb : T -> T -> bool) self other : M T bool :=
  if negb (len self =? len other) then mret false
  else eq_loop neqb self other (Z.to_nat (len self)) 0.

(** [extend], over the elements of the iterator *)
Definition extend self (iter : list T) : M T (Vec A) :=
  for_each iter (fun x v => push v x) self.

(** [read(vec.as_ptr() as *const [T; N])] *)
Fixpoint read_array (p : ptr) (i : Z) (n : nat) : M T (list T) :=
  match n with
  | O => mret []
  | S n => q ← offset p i; x ← read q; l ← read_array p (i + 1) n; mret (x :: l)
  end.

(** [TryFrom<Vec<T>> for [T; N]]: the array, or the vector itself; in the first
    case the emptied vector goes out of scope. *)
Definition try_from (N : Z) (v : Vec A) : M T (list T + Vec A) :=
  if negb (len v =? N) then mret (inr v) else
  v ← set_len v 0;
  array ← read_array (vptr v) 0 (Z.to_nat N);
  drop_vec v ;;
  mret (inl array).

(** *** Operations on [Clone] elements *)

Context `{!Clone T}.

Definition resize self (new_len : Z) (value : T) : M T (Vec A) :=
  let n := len self in
  self ← (if n <? new_len then
            additional ← usize_sub new_len n;
            self ← reserve self additional;
            for_range (Z.to_nat additional) 0 (fun _ v => push_unsafe v (clone value)) self
          else truncate self new_len);
  run_drop value ;;
  mret self.

Definition extend_from_slice self (other : list T) : M T (Vec A) :=
  self ← reserve self (Z.of_nat (length other));
  for_each other (fun x v => push_unsafe v (clone x)) self.

Definition vec_clone self (clone_alloc : A -> A) : M T (Vec A) :=
  v ← with_capacity_in (len self) (clone_alloc (allocator self));
  for_range (Z.to_nat (len self)) 0
    (fun idx v => x ← index self idx; push_unsafe v (clone x)) v.

(** [*self = other.clone()]: the assignment drops the old vector. *)
Definition clone_from self other (clone_alloc : A -> A) : M T (Vec A) :=
  v ← vec_clone other clone_alloc;
  drop_vec self ;;
  mret v.

End Ops.

(** *** Constructors, with the default allocator *)

Section Constructors.
Context {T : Type} `{!Elem T}.

Definition new : M T (Vec RmcAllocator) :=
  b ← RawVec.new;
  mret (MkVec b 0 RmcAlloc).

Definition with_capacity (c : Z) : M T (Vec RmcAllocator) := with_capacity_in c RmcAlloc.

Definition default_vec : M T (Vec RmcAllocator) := new.

(** The alignment of a pointer on the 64-bit targets of RMC, which is what
    [mem::align_of_val(&ptr)] of a pointer variable is. *)
Definition align_of_ptr : Z := 8.

Fixpoint from_raw_parts_loop (fuel : nat) (p : ptr) (length curr_idx : Z)
    (v : Vec RmcAllocator) : M T (Vec RmcAllocator) :=
  if curr_idx <? as_isize length then
    match fuel with
    | O => undefined
    | S fuel =>
        q ← offset p curr_idx;
        x ← read q;
        v ← push_unsafe v x;
        i ← isize_add curr_idx 1;
        from_raw_parts_loop fuel p length i v
    end
  else mret v.

Definition from_raw_parts (p : ptr) (length capacity : Z) : M T (Vec RmcAllocator) :=
  massert (align_of =? align_of_ptr) ;;
  massert (length <=? capacity) ;;
  b ← RawVec.new_with_capacity capacity;
  from_raw_parts_loop (Z.to_nat length) p length 0 (MkVec b 0 RmcAlloc).

(** [From<&[T]>] and [From<&mut [T]>] *)
Definition from_slice `{!Clone T} (s : list T) : M T (Vec RmcAllocator) :=
  v ← with_capacity (Z.of_nat (length s));
  for_each s (fun x v => push_unsafe v (clone x)) v.

(** [From<[T; N]>] *)
Definition from_array (s : list T) : M T (Vec RmcAllocator) :=
  v ← with_capacity (Z.of_nat (length s));
  for_each s (fun x v => push_unsafe v x) v.

(** [FromIterator], over the elements of the iterator *)
Definition from_iter (iter : list T) : M T (Vec RmcAllocator) :=
  v ← new;
  for_each iter (fun x v => push_unsafe v x) v.

(** [rmc_vec![val; count]]: the expression [val] is evaluated on each turn. *)
Definition rmc_vec_repeat (val : T) (count : Z) : M T (Vec RmcAllocator) :=
  v ← with_capacity count;
  for_range (Z.to_nat count) 0 (fun _ v => push v val) v.

(** [rmc_vec![x1, x2, ...]] *)
Definition rmc_vec_list (xs : list T) : M T (Vec RmcAllocator) :=
  v ← new;
  for_each xs (fun x v => push v x) v.

End Constructors.
End VecOps.

(** ** The owning iterator *)

Record RmcRawValIter := MkRawValIter { start : ptr; end_ : ptr }.
Record RmcIntoIter := MkIntoIter { iter_buf : RmcRawVec; iter : RmcRawValIter }.

Module Iter.
Section Ops.
Context {T : Type} `{!Elem T}.

Definition raw_new (s : slice) : M T RmcRawValIter :=
  e ← (if size_of =? 0 then
         a ← usize_add (off (slice_ptr s)) (slice_len s);
         mret (Ptr (blk (slice_ptr s)) a)
       else if slice_len s =? 0 then mret (slice_ptr s)
       else offset (slice_ptr s) (as_isize (slice_len s)));
  mret (MkRawValIter (slice_ptr s) e).

Definition raw_next (it : RmcRawValIter) : M T (option T * RmcRawValIter) :=
  if bool_decide (start it = end_ it) then mret (None, it) else
  result ← read (start it);
  s ← (if size_of =? 0 then
         a ← usize_add (off (start it)) 1; mret (Ptr (blk (start it)) a)
       else offset (start it) 1);
  mret (Some result, MkRawValIter s (end_ it)).

Definition raw_next_back (it : RmcRawValIter) : M T (option T * RmcRawValIter) :=
  if bool_decide (start it = end_ it) then mret (None, it) else
  e ← (if size_of =? 0 then
         a ← usize_sub (off (end_ it)) 1; mret (Ptr (blk (end_ it)) a)
       else offset (end_ it) (-1));
  result ← read e;
  mret (Some result, MkRawValIter (start it) e).

Definition next (it : RmcIntoIter) : M T (option T * RmcIntoIter) :=
  r ← raw_next (iter it);
  mret (fst r, MkIntoIter (iter_buf it) (snd r)).

Definition next_back (it : RmcIntoIter) : M T (option T * RmcIntoIter) :=
  r ← raw_next_back (iter it);
  mret (fst r, MkIntoIter (iter_buf it) (snd r)).

(** [self] is forgotten, so the buffer is not freed here. *)
Definition into_iter {A} (self : Vec A) : M T RmcIntoIter :=
  it ← raw_new (VecOps.deref self);
  mret (MkIntoIter (buf self) it).

(** [RmcIntoIter] has no [Drop] of its own: its drop glue drops the buffer. *)
Definition drop_into_iter (it : RmcIntoIter) : M T unit := RawVec.drop_raw (iter_buf it).

End Ops.
End Iter.
