(* ===== verification/RmcVecSpec.v ===== *)
(** * Correctness of the vector abstraction

    [owns m v l]: in memory [m] the vector [v] has a live buffer of its capacity
    whose first cells hold the list [l].  Each operation is shown to turn [l] into
    what the standard vector's operation makes of it, to touch no other block and to
    leak none ([moved]), to be free of undefined behaviour, and to panic only for the
    stated reason.  The operations of a whole program are then collected in [step],
    and every program over them refines the same program over lists.

    The results are for element types of positive size; those without drop glue
    first, since the assignments [*p = elem] of the code drop whatever the cell held:
    what this means for types with drop glue is at the end. *)

From stdpp Require Import base gmap list numbers.
From S2P Require Import Prelude RawMemory RmcVec.

#[local] Open Scope Z_scope.

(** Lengths of concatenations, by [lia]. *)
Ltac length_lia :=
  do 2 (rewrite ?length_app, ?length_fmap, ?length_take, ?length_drop, ?length_replicate,
          ?length_insert; cbn [length]); lia.

(** ** Blocks *)

Section Blocks.
Context {T : Type} `{!Elem T}.
Implicit Types (m : mem T) (cells : list (option T)).

(** Blocks that have not been allocated yet do not exist. *)
Definition mem_ok m : Prop := forall b, (next_block m <= b)%nat -> blocks m !! b = None.

(** From [m] to [m'] the block [b] became the block [b'], and nothing else changed. *)
Record moved m (b : nat) m' (b' : nat) : Prop := {
  mv_ok : mem_ok m';
  mv_fresh : b' = b \/ blocks m !! b' = None;
  mv_gone : b' <> b -> blocks m' !! b = None;
  mv_rest : forall c, c <> b -> c <> b' -> blocks m' !! c = blocks m !! c;
  mv_log : dropped m' = dropped m;
}.

Definition upd m (b : nat) cells : mem T :=
  Mem (<[b := cells]> (blocks m)) (next_block m) (dropped m).

Lemma live_old m b cells : mem_ok m -> blocks m !! b = Some cells -> (b < next_block m)%nat.
Proof.
  intros Hok Hb. destruct (decide (b < next_block m)%nat); [done|].
  rewrite Hok in Hb by lia. done.
Qed.

Lemma moved_refl m b : mem_ok m -> moved m b m b.
Proof. intros. split; [done | by left | done | done | done]. Qed.

Lemma moved_trans m b m' b' m'' b'' :
  moved m b m' b' -> moved m' b' m'' b'' -> moved m b m'' b''.
Proof.
  intros [_ F1 G1 R1 L1] [O2 F2 G2 R2 L2]. split; [done| | | |congruence].
  - destruct (decide (b'' = b)); [by left|]. destruct (decide (b'' = b')) as [->|].
    + done.
    + right. destruct F2 as [?|F2]; [done|]. by rewrite <- R1.
  - intros Hb. destruct (decide (b = b')) as [<-|]; [by apply G2|].
    rewrite R2 by done. apply G1. congruence.
  - intros c Hc Hc''. destruct (decide (c = b')) as [->|].
    + rewrite G2 by done. destruct F1 as [?|F1]; [done | by rewrite F1].
    + by rewrite R2, R1.
Qed.

Lemma moved_upd m b cells cells0 :
  mem_ok m -> blocks m !! b = Some cells0 -> moved m b (upd m b cells) b.
Proof.
  intros Hok Hb. split; cbn; try done.
  - intros c Hc. cbn in *. pose proof (live_old _ _ _ Hok Hb).
    rewrite lookup_insert_ne by lia. by apply Hok.
  - by left.
  - intros c Hc _. by rewrite lookup_insert_ne.
Qed.

(** *** Pointers into a block *)

(** The cell [i] of block [b]. *)
Definition at_cell (b : nat) (i : Z) : ptr := Ptr b (i * size_of).

Hypothesis Hsize : 0 < size_of (T := T).

Lemma cells_in_mul n : 0 <= n -> cells_in (n * size_of) = Z.to_nat n.
Proof using Hsize. intros. unfold cells_in. rewrite Z.div_mul by lia. done. Qed.

Lemma cell_index_mul b n :
  0 <= n -> cell_index (at_cell b n) = Some (Z.to_nat n).
Proof using Hsize.
  intros. unfold cell_index. cbn. rewrite Z.mod_mul by lia. rewrite cells_in_mul by done.
  rewrite (proj2 (Z.ltb_lt _ _)), (proj2 (Z.leb_le _ _)) by nia. done.
Qed.

Lemma wp_offset P p i cells (Q : ptr -> mem T -> Prop) m :
  blocks m !! blk p = Some cells -> off p = 0 -> 0 <= i <= Z.of_nat (length cells) ->
  Q (at_cell (blk p) i) m -> wp P (offset p i) Q m.
Proof using Hsize.
  intros Hb Ho Hi HQ. unfold wp, offset. rewrite Hb, Ho. cbn [Z.add].
  rewrite (proj2 (Z.leb_le _ _)), (proj2 (Z.leb_le _ _)) by nia. done.
Qed.

(** Pointer arithmetic from a pointer into the block. *)
Lemma wp_offset_cell P b i k cells (Q : ptr -> mem T -> Prop) m :
  blocks m !! b = Some cells -> 0 <= i + k <= Z.of_nat (length cells) ->
  Q (at_cell b (i + k)) m -> wp P (offset (at_cell b i) k) Q m.
Proof using Hsize.
  intros Hb Hi HQ. unfold wp, offset, at_cell in *. cbn. rewrite Hb.
  replace (i * size_of + k * size_of) with ((i + k) * size_of) by lia.
  rewrite (proj2 (Z.leb_le _ _)), (proj2 (Z.leb_le _ _)) by nia. done.
Qed.

Lemma wp_read P b i cells v (Q : T -> mem T -> Prop) m :
  blocks m !! b = Some cells -> 0 <= i -> cells !! Z.to_nat i = Some (Some v) ->
  Q v m -> wp P (read (at_cell b i)) Q m.
Proof using Hsize.
  intros Hb Hi Hc HQ. unfold wp, read. cbn. rewrite Hb, cell_index_mul by done.
  by rewrite Hc.
Qed.

Lemma wp_write P b i cells v (Q : unit -> mem T -> Prop) m :
  blocks m !! b = Some cells -> 0 <= i < Z.of_nat (length cells) ->
  Q tt (upd m b (<[Z.to_nat i := Some v]> cells)) -> wp P (write (at_cell b i) v) Q m.
Proof using Hsize.
  intros Hb Hi HQ. unfold wp, write. cbn. rewrite Hb, cell_index_mul by lia.
  rewrite bool_decide_eq_true_2 by lia. done.
Qed.

Lemma wp_assign P b i cells v (Q : unit -> mem T -> Prop) m :
  needs_drop = false ->
  blocks m !! b = Some cells -> 0 <= i < Z.of_nat (length cells) ->
  Q tt (upd m b (<[Z.to_nat i := Some v]> cells)) -> wp P (assign (at_cell b i) v) Q m.
Proof using Hsize. intros Hnd. unfold assign. rewrite Hnd. apply wp_write. Qed.

Lemma wp_drop_in_place P b i cells v (Q : unit -> mem T -> Prop) m :
  needs_drop = false ->
  blocks m !! b = Some cells -> 0 <= i -> cells !! Z.to_nat i = Some (Some v) ->
  Q tt m -> wp P (drop_in_place (at_cell b i)) Q m.
Proof using Hsize.
  intros Hnd Hb Hi Hc HQ. unfold drop_in_place. apply wp_bind.
  eapply wp_read; [done..|]. unfold wp, run_drop. by rewrite Hnd.
Qed.

Lemma wp_memmove P db di sb si n dcells scells (Q : unit -> mem T -> Prop) m :
  blocks m !! sb = Some scells -> blocks m !! db = Some dcells ->
  0 <= si -> 0 <= di -> 0 <= n ->
  si + n <= Z.of_nat (length scells) -> di + n <= Z.of_nat (length dcells) ->
  Q tt (upd m db (splice (Z.to_nat di)
                    (take (Z.to_nat n) (drop (Z.to_nat si) scells)) dcells)) ->
  wp P (memmove (at_cell db di) (at_cell sb si) (n * size_of)) Q m.
Proof using Hsize.
  intros Hs Hd ????? HQ. unfold wp, memmove. cbn. rewrite Hs, Hd.
  rewrite !cell_index_mul, cells_in_mul by done.
  rewrite !bool_decide_eq_true_2 by lia. done.
Qed.

(** Between different blocks [memcpy] is [memmove]. *)
Lemma memcpy_disjoint db di sb si bytes :
  0 <= di -> 0 <= si -> db <> sb ->
  memcpy (T := T) (at_cell db di) (at_cell sb si) bytes =
  memmove (at_cell db di) (at_cell sb si) bytes.
Proof using Hsize.
  intros. unfold memcpy, overlaps. rewrite !cell_index_mul by done.
  cbn [blk at_cell]. by rewrite (bool_decide_eq_false_2 (sb = db)) by congruence.
Qed.

(** [realloc] of a block: the new block starts with the old contents. *)
Lemma wp_realloc P p n cells (Q : ptr -> mem T -> Prop) m :
  mem_ok m -> blocks m !! blk p = Some cells -> off p = 0 -> 0 <= n ->
  (forall p' m' cells', blocks m' !! blk p' = Some cells' -> off p' = 0 ->
    length cells' = Z.to_nat n ->
    cells' = take (Z.to_nat n) cells ++ replicate (Z.to_nat n - length cells) None ->
    moved m (blk p) m' (blk p') -> Q p' m') ->
  wp P (realloc p (n * size_of)) Q m.
Proof using Hsize.
  intros Hok Hb Ho Hn HQ. unfold wp, realloc. rewrite Hb, cells_in_mul by done.
  cbv zeta. unfold mbind, M_bind, free. rewrite Hb, Ho. cbn. pose proof (live_old _ _ _ Hok Hb) as Hold.
  eapply HQ; cbn.
  - apply lookup_insert_eq.
  - done.
  - rewrite length_app, length_take, length_replicate. lia.
  - done.
  - split; cbn; try done.
    + intros c Hc. cbn in *. rewrite lookup_insert_ne, lookup_delete_ne by lia.
      apply Hok. lia.
    + right. apply Hok. lia.
    + intros _. rewrite lookup_insert_ne by lia. apply lookup_delete_eq.
    + intros c H1 H2. by rewrite lookup_insert_ne, lookup_delete_ne.
Qed.

Lemma wp_malloc P n (Q : ptr -> mem T -> Prop) m :
  mem_ok m -> 0 <= n ->
  (forall p' m', p' = Ptr (next_block m) 0 ->
     m' = Mem (<[next_block m := replicate (Z.to_nat n) None]> (blocks m))
              (S (next_block m)) (dropped m) ->
     mem_ok m' -> Q p' m') ->
  wp P (malloc (n * size_of)) Q m.
Proof using Hsize.
  intros Hok Hn HQ. unfold wp, malloc, alloc. rewrite cells_in_mul by done.
  apply HQ; [done..|]. intros c Hc. cbn in *. rewrite lookup_insert_ne by lia.
  apply Hok. lia.
Qed.

End Blocks.

(** ** The buffer *)

(** [r] is a live buffer of its capacity, small enough to be indexed by [isize]. *)
Definition buf_at {T} `{!Elem T} (m : mem T) (r : RmcRawVec) (cells : list (option T)) : Prop :=
  blocks m !! blk (raw_ptr r) = Some cells /\ off (raw_ptr r) = 0 /\
  Z.of_nat (length cells) = cap r /\ cap r * size_of <= isize_max.

(** The capacity [grow] picks. *)
Definition grown (r : RmcRawVec) (n additional : Z) : Z :=
  Z.max (Z.max (cap r * 2) (n + additional)) MIN_NON_ZERO_CAP.

(** Reserving [additional] more elements asks for more than [isize::MAX] bytes. *)
Definition exhausted {T} `{!Elem T} (r : RmcRawVec) (n additional : Z) : Prop :=
  cap r - n < additional /\ isize_max < grown r n additional * size_of.

Section Buffer.
Context {T : Type} `{!Elem T}.
Hypothesis Hsize : 0 < size_of (T := T).
Implicit Types (m : mem T) (r : RmcRawVec) (cells : list (option T)).

Lemma buf_small m r cells : buf_at m r cells -> 0 <= cap r <= isize_max.
Proof using Hsize. intros (_ & _ & H1 & H2). nia. Qed.

Lemma if_ltb_max a b : (if a <? b then b else a) = Z.max a b.
Proof. destruct (Z.ltb_spec a b); lia. Qed.

Lemma take_grow (k n : nat) cells (rest : list (option T)) :
  (k <= n)%nat -> (k <= length cells)%nat -> take k (take n cells ++ rest) = take k cells.
Proof.
  intros. rewrite take_app_le by (rewrite length_take; lia). rewrite take_take.
  by rewrite Nat.min_l.
Qed.

(** What [realloc] to [n] elements gives, when it keeps the first [k]. *)
Lemma wp_realloc_buf P r (n : Z) (k : nat) cells (Q : RmcRawVec -> mem T -> Prop) m :
  mem_ok m -> buf_at m r cells -> 0 <= n -> n * size_of <= isize_max ->
  Z.of_nat k <= n -> (k <= length cells)%nat ->
  (forall r' m' cells', buf_at m' r' cells' -> cap r' = n -> take k cells' = take k cells ->
    moved m (blk (raw_ptr r)) m' (blk (raw_ptr r')) -> Q r' m') ->
  wp P (p ← realloc (raw_ptr r) (n * size_of); mret (MkRawVec p n)) Q m.
Proof using Hsize.
  intros Hok (Hb & Ho & Hl & Hc) Hn Hbytes Hkn Hk HQ. apply wp_bind.
  eapply (wp_realloc Hsize); [done..|]. intros p' m' cells' Hb' Ho' Hl' -> Hmv.
  apply wp_ret. eapply HQ; [| done | | done].
  - split; [done|]. split; [done|]. split; cbn; [lia | done].
  - apply take_grow; lia.
Qed.

Lemma wp_grow (P : Prop) r n additional (k : nat) cells (Q : RmcRawVec -> mem T -> Prop) m :
  mem_ok m -> buf_at m r cells -> 0 <= n -> 0 <= additional -> (k <= length cells)%nat ->
  (isize_max < grown r n additional * size_of -> P) ->
  (forall r' m' cells', buf_at m' r' cells' -> cap r' = grown r n additional ->
    take k cells' = take k cells ->
    moved m (blk (raw_ptr r)) m' (blk (raw_ptr r')) -> Q r' m') ->
  wp P (RawVec.grow r n additional) Q m.
Proof using Hsize.
  intros Hok Hbuf Hn Ha Hk HP HQ. pose proof (buf_small _ _ _ Hbuf) as Hcap.
  assert (isize_max < usize_max) by done.
  unfold RawVec.grow. apply wp_bind, wp_usize_add; rewrite ?in_usize_false, ?in_usize_true.
  { intros. apply HP. unfold grown. nia. }
  intros Hreq. apply wp_bind, wp_usize_mul; rewrite ?in_usize_false, ?in_usize_true.
  { intros. apply HP. unfold grown. nia. }
  intros Hgrow. cbv zeta. rewrite !if_ltb_max.
  change (Z.max (Z.max (cap r * 2) (n + additional)) MIN_NON_ZERO_CAP)
    with (grown r n additional).
  set (g := grown r n additional) in *.
  assert (MIN_NON_ZERO_CAP <= g /\ cap r * 2 <= g) as [Hg1 Hg2] by (unfold g, grown; lia).
  unfold MIN_NON_ZERO_CAP in Hg1.
  apply wp_bind, wp_usize_mul; rewrite ?in_usize_false, ?in_usize_true.
  { intros. apply HP. nia. }
  intros Hbytes. apply wp_bind, wp_assert; rewrite ?Z.leb_gt, ?Z.leb_le; [done|].
  intros Hfit. eapply wp_realloc_buf; [done | done | lia | done | | done |].
  - destruct Hbuf as (_ & _ & Hl & _). lia.
  - eauto.
Qed.

Lemma wp_reserve (P : Prop) r n additional (k : nat) cells (Q : RmcRawVec -> mem T -> Prop) m :
  mem_ok m -> buf_at m r cells -> 0 <= n <= cap r -> 0 <= additional ->
  (k <= length cells)%nat ->
  (exhausted r n additional -> P) ->
  (forall r' m' cells', buf_at m' r' cells' -> n + additional <= cap r' ->
    cap r <= cap r' -> take k cells' = take k cells ->
    moved m (blk (raw_ptr r)) m' (blk (raw_ptr r')) -> Q r' m') ->
  wp P (RawVec.reserve r n additional) Q m.
Proof using Hsize.
  intros Hok Hbuf Hn Ha Hk HP HQ. pose proof (buf_small _ _ _ Hbuf) as Hcap.
  assert (isize_max < usize_max) by done.
  unfold RawVec.reserve, RawVec.needs_to_grow. do 2 apply wp_bind. apply wp_usize_sub;
    rewrite ?in_usize_false, ?in_usize_true; [lia|]. intros _. apply wp_ret.
  destruct (Z.ltb_spec (cap r - n) additional).
  - eapply wp_grow; [done | done | lia | done | done | by intros; apply HP |].
    intros r' m' cells' Hb' Hc' Ht Hmv.
    eapply (HQ r' m' cells'); [done | unfold grown in *; lia | unfold grown in *; lia | done..].
  - apply wp_ret. eapply HQ; [done | lia | lia | done | by apply moved_refl].
Qed.

Lemma wp_shrink P r n (k : nat) cells (Q : RmcRawVec -> mem T -> Prop) m :
  mem_ok m -> buf_at m r cells -> 0 <= n <= cap r -> Z.of_nat k <= n ->
  (forall r' m' cells', buf_at m' r' cells' -> cap r' = n ->
    take k cells' = take k cells ->
    moved m (blk (raw_ptr r)) m' (blk (raw_ptr r')) -> Q r' m') ->
  wp P (RawVec.shrink_to_fit r n) Q m.
Proof using Hsize.
  intros Hok Hbuf Hn Hk HQ. pose proof (buf_small _ _ _ Hbuf) as Hcap.
  assert (isize_max < usize_max) by done.
  destruct Hbuf as (Hb & Ho & Hl & Hc). unfold RawVec.shrink_to_fit.
  apply wp_bind, wp_assert; rewrite ?Z.leb_gt, ?Z.leb_le; [lia|]. intros _.
  apply wp_bind, wp_usize_mul; rewrite ?in_usize_false, ?in_usize_true; [nia|]. intros _.
  eapply wp_realloc_buf; [done | by repeat split | lia | nia | done | lia | done].
Qed.

(** A new buffer: a block that was not there before. *)
Definition allocated m m' (b : nat) : Prop :=
  mem_ok m' /\ blocks m !! b = None /\
  (forall c, c <> b -> blocks m' !! c = blocks m !! c) /\ dropped m' = dropped m.

Lemma wp_new_with_capacity P c (Q : RmcRawVec -> mem T -> Prop) m :
  mem_ok m -> 0 <= c -> c * size_of <= isize_max ->
  (forall r' m', buf_at m' r' (replicate (Z.to_nat c) None) -> cap r' = c ->
     allocated m m' (blk (raw_ptr r')) -> Q r' m') ->
  wp P (RawVec.new_with_capacity c) Q m.
Proof using Hsize.
  intros Hok Hc Hbytes HQ. assert (isize_max < usize_max) by done.
  unfold RawVec.new_with_capacity.
  apply wp_bind, wp_usize_mul; rewrite ?in_usize_false, ?in_usize_true; [nia|]. intros _.
  apply wp_bind. eapply (wp_malloc Hsize); [done..|]. intros p' m' -> -> Hok'.
  apply wp_ret, HQ; cbn.
  - split; cbn; [apply lookup_insert_eq|]. rewrite length_replicate. lia.
  - done.
  - split; [done|]. split; [apply Hok; lia|]. split; [|done].
    intros b Hb. cbn. by rewrite lookup_insert_ne.
Qed.

End Buffer.

(** ** The vector *)

Definition owns {T} `{!Elem T} {A} (m : mem T) (v : Vec A) (l : list T) : Prop :=
  exists cells, buf_at m (buf v) cells /\ len v = Z.of_nat (length l) /\
                take (length l) cells = Some <$> l.

(** The vector [v] of memory [m] has become a vector that holds [l']. *)
Definition becomes {T} `{!Elem T} {A} (m : mem T) (v : Vec A) (l' : list T)
    (v' : Vec A) (m' : mem T) : Prop :=
  owns m' v' l' /\ moved m (blk (VecOps.vptr v)) m' (blk (VecOps.vptr v')) /\
  allocator v' = allocator v.

(** *** Loops *)

Lemma wp_for_range {T A} P (I : Z -> A -> mem T -> Prop) n i body (a : A) m :
  I i a m ->
  (forall j a m, i <= j < i + Z.of_nat n -> I j a m -> wp P (body j a) (I (j + 1)) m) ->
  wp P (for_range n i body a) (I (i + Z.of_nat n)) m.
Proof.
  revert i a m. induction n as [|n IH]; intros i a m Hi Hstep; cbn.
  - replace (i + Z.of_nat 0) with i by lia. done.
  - apply wp_bind. eapply wp_mono; [apply Hstep; [lia | done] | done |].
    intros a' m' Ha'. replace (i + Z.of_nat (S n)) with (i + 1 + Z.of_nat n) by lia.
    apply IH; [done|]. intros j b mj Hj. apply Hstep. lia.
Qed.

Lemma wp_for_each_from {T A E} P (I : list E -> A -> mem T -> Prop) body xs :
  forall d (a : A) m, I d a m ->
  (forall d' e r a m, d ++ xs = d' ++ e :: r -> I d' a m -> wp P (body e a) (I (d' ++ [e])) m) ->
  wp P (for_each xs body a) (I (d ++ xs)) m.
Proof.
  induction xs as [|e xs IH]; intros d a m Hd Hstep; cbn.
  - by rewrite app_nil_r.
  - apply wp_bind. eapply wp_mono; [eapply Hstep; [done | done] | done |].
    intros a' m' Ha'. replace (d ++ e :: xs) with ((d ++ [e]) ++ xs) by (by rewrite <- app_assoc).
    apply IH; [done|]. intros d' e' r b mj Hj. eapply Hstep. rewrite <- Hj, <- app_assoc. done.
Qed.

(** [I d] holds once the elements [d] have been visited. *)
Lemma wp_for_each {T A E} P (I : list E -> A -> mem T -> Prop) body xs (a : A) m :
  I [] a m ->
  (forall d e r a m, xs = d ++ e :: r -> I d a m -> wp P (body e a) (I (d ++ [e])) m) ->
  wp P (for_each xs body a) (I xs) m.
Proof. intros H0 Hstep. by apply (wp_for_each_from P I body xs []). Qed.

(** *** The cells after each move *)

Section Cells.
Context {T : Type}.
Implicit Types (L rest : list (option T)).

Lemma splice_insert L1 L2 c rest x :
  <[length L1 := x]>
    (splice (S (length L1)) (take (length L2) (drop (length L1) (L1 ++ L2 ++ c :: rest)))
       (L1 ++ L2 ++ c :: rest)) = L1 ++ x :: L2 ++ rest.
Proof.
  rewrite drop_app_length, take_app_length. unfold splice.
  assert (exists d R, L2 ++ c :: rest = d :: R) as (d & R & HR).
  { destruct L2; cbn; eauto. }
  assert (take (S (length L1)) (L1 ++ L2 ++ c :: rest) = L1 ++ [d]) as ->.
  { rewrite HR, take_app. rewrite take_ge by lia. f_equal.
    by replace (S (length L1) - length L1)%nat with 1%nat by lia. }
  assert (drop (S (length L1) + length L2) (L1 ++ L2 ++ c :: rest) = rest) as ->.
  { rewrite drop_app_ge by lia.
    replace (S (length L1) + length L2 - length L1)%nat with (length L2 + 1)%nat by lia.
    by rewrite <- drop_drop, drop_app_length. }
  rewrite <- app_assoc. rewrite insert_app_r_alt by lia. rewrite Nat.sub_diag. done.
Qed.

Lemma splice_remove L1 d L2 rest :
  splice (length L1) (take (length L2) (drop (S (length L1)) (L1 ++ d :: L2 ++ rest)))
    (L1 ++ d :: L2 ++ rest) = L1 ++ L2 ++ drop (length L2) (d :: L2 ++ rest).
Proof.
  assert (drop (S (length L1)) (L1 ++ d :: L2 ++ rest) = L2 ++ rest) as ->.
  { rewrite drop_app_ge by lia. by replace (S (length L1) - length L1)%nat with 1%nat by lia. }
  rewrite take_app_length. unfold splice. rewrite take_app_length.
  rewrite drop_app_ge by lia. by replace (length L1 + length L2 - length L1)%nat
    with (length L2) by lia.
Qed.

Lemma splice_end L1 L2 rest :
  (length L2 <= length rest)%nat ->
  splice (length L1) L2 (L1 ++ rest) = L1 ++ L2 ++ drop (length L2) rest.
Proof.
  intros. unfold splice. rewrite take_app_length.
  rewrite drop_app_ge by lia. by replace (length L1 + length L2 - length L1)%nat
    with (length L2) by lia.
Qed.

Lemma splice_end_fmap (l : list T) L rest :
  (length L <= length rest)%nat ->
  splice (length l) L ((Some <$> l) ++ rest) = (Some <$> l) ++ L ++ drop (length L) rest.
Proof. intros. rewrite <- (length_fmap Some l). by apply splice_end. Qed.

Lemma insert_end L1 c rest x : <[length L1 := x]> (L1 ++ c :: rest) = L1 ++ x :: rest.
Proof. rewrite insert_app_r_alt by lia. by rewrite Nat.sub_diag. Qed.

End Cells.

Section Vector.
Context {T : Type} `{!Elem T} {A : Type}.
Hypothesis Hsize : 0 < size_of (T := T).
Hypothesis Hnd : needs_drop (T := T) = false.
Implicit Types (m : mem T) (v w : Vec A) (l : list T) (x : T).

Lemma owns_bounds m v l :
  owns m v l -> 0 <= len v <= cap (buf v) /\ 0 <= cap (buf v) <= isize_max.
Proof using Hsize.
  intros (cells & Hbuf & Hl & Ht). pose proof (buf_small Hsize _ _ _ Hbuf).
  apply (f_equal length) in Ht. rewrite length_take, length_fmap in Ht.
  destruct Hbuf as (_ & _ & Hc & _). lia.
Qed.

(** The buffer of a vector that holds [l]: [l], then the spare cells. *)
Lemma owns_split m v l :
  owns m v l -> exists rest, buf_at m (buf v) ((Some <$> l) ++ rest) /\
    len v = Z.of_nat (length l) /\ Z.of_nat (length rest) = cap (buf v) - len v.
Proof.
  intros (cells & Hbuf & Hl & Ht). exists (drop (length l) cells).
  rewrite <- Ht, take_drop. split; [done|]. split; [done|].
  apply (f_equal length) in Ht. rewrite length_take, length_fmap in Ht.
  rewrite length_drop. destruct Hbuf as (_ & _ & Hc & _). lia.
Qed.

Lemma owns_intro m r n a l rest :
  buf_at m r ((Some <$> l) ++ rest) -> n = Z.of_nat (length l) -> owns m (MkVec r n a : Vec A) l.
Proof.
  intros Hb ->. exists ((Some <$> l) ++ rest). split; [done|]. split; [done|].
  apply take_app_length'. by rewrite length_fmap.
Qed.

(** Overwriting the cells of a buffer. *)
Lemma buf_at_upd m r cells cells' :
  buf_at m r cells -> length cells' = length cells ->
  buf_at (upd m (blk (raw_ptr r)) cells') r cells'.
Proof.
  intros (Hb & Ho & Hl & Hc) Hlen. split; [apply lookup_insert_eq|].
  split; [done|]. split; [lia | done].
Qed.

Lemma buf_at_moved m r cells cells' :
  mem_ok m -> buf_at m r cells ->
  moved m (blk (raw_ptr r)) (upd m (blk (raw_ptr r)) cells') (blk (raw_ptr r)).
Proof. intros Hok (Hb & _). by eapply moved_upd. Qed.

Lemma wp_offset_buf P r cells i (Q : ptr -> mem T -> Prop) m :
  buf_at m r cells -> 0 <= i <= cap r -> Q (at_cell (blk (raw_ptr r)) i) m ->
  wp P (offset (raw_ptr r) (as_isize i)) Q m.
Proof using Hsize.
  intros Hb Hi HQ. pose proof (buf_small Hsize _ _ _ Hb). rewrite as_isize_small by lia.
  destruct Hb as (Hb & Ho & Hl & Hc). eapply (wp_offset Hsize); [done | done | lia | done].
Qed.

(** Storing [x] in the cell after [l1] completes [l1 ++ x :: l2]. *)
Lemma wp_put P m v l1 l2 cells rest x :
  mem_ok m -> buf_at m (buf v) cells -> (length l1 < length cells)%nat ->
  <[length l1 := Some x]> cells = (Some <$> (l1 ++ x :: l2)) ++ rest ->
  len v = Z.of_nat (length (l1 ++ l2)) -> len v < cap (buf v) ->
  wp P (p ← offset (VecOps.vptr v) (as_isize (Z.of_nat (length l1)));
        assign p x ;; n ← usize_add (len v) 1; mret (with_len v n))
    (fun v' m' => becomes m v (l1 ++ x :: l2) v' m' /\ buf v' = buf v) m.
Proof using Hsize Hnd.
  intros Hok Hbuf Hlt Hins Hl Hroom. pose proof (buf_small Hsize _ _ _ Hbuf).
  assert (isize_max < usize_max) by done. rewrite length_app in Hl.
  pose proof Hbuf as (_ & _ & Hlen & _).
  apply wp_bind. eapply wp_offset_buf; [done | lia |].
  apply wp_bind. eapply (wp_assign Hsize); [done | apply Hbuf | lia |].
  apply wp_bind, wp_usize_add; rewrite ?in_usize_false, ?in_usize_true; [lia|].
  intros _. apply wp_ret. rewrite Nat2Z.id, Hins.
  split; [|done]. split; [|split; [by eapply buf_at_moved | done]].
  apply owns_intro with (rest := rest); [|rewrite length_app; cbn; lia].
  eapply buf_at_upd; [apply Hbuf|]. by rewrite <- Hins, length_insert.
Qed.

Lemma insert_end_fmap l c x (rest : list (option T)) :
  <[length l := Some x]> ((Some <$> l) ++ c :: rest) = (Some <$> (l ++ [x])) ++ rest.
Proof.
  rewrite <- (length_fmap Some l). rewrite insert_end, fmap_app, <- app_assoc. done.
Qed.

Lemma wp_push_unsafe P m v l x :
  mem_ok m -> owns m v l -> len v < cap (buf v) ->
  wp P (VecOps.push_unsafe v x)
    (fun v' m' => becomes m v (l ++ [x]) v' m' /\ buf v' = buf v) m.
Proof using Hsize Hnd.
  intros Hok Hown Hroom.
  destruct (owns_split _ _ _ Hown) as ([|c rest] & Hbuf & Hl & Hr); [cbn in Hr; lia|].
  unfold VecOps.push_unsafe. rewrite Hl at 1.
  eapply wp_put; [done | done | | apply insert_end_fmap | by rewrite app_nil_r | done].
  rewrite length_app, length_fmap. cbn. lia.
Qed.

Lemma becomes_trans m v l' v' m' l'' v'' m'' :
  becomes m v l' v' m' -> becomes m' v' l'' v'' m'' -> becomes m v l'' v'' m''.
Proof.
  intros (_ & Hm & Ha) (Ho & Hm' & Ha'). split; [done|].
  split; [by eapply moved_trans | congruence].
Qed.

Lemma owns_with_buf m v l r' m' cells cells' :
  buf_at m (buf v) cells -> owns m v l ->
  buf_at m' r' cells' -> take (length l) cells' = take (length l) cells ->
  owns m' (with_buf v r') l.
Proof.
  intros Hb (cells0 & (Hb0 & _) & Hl & Ht) Hb' Ht'.
  destruct Hb as (Hb & _). simplify_eq. exists cells'. split; [done|]. split; [done|].
  congruence.
Qed.

(** Growing for one more element. *)
Lemma wp_make_room (P : Prop) m v l (Q : Vec A -> mem T -> Prop) :
  mem_ok m -> owns m v l ->
  (forall v' m', becomes m v l v' m' -> len v' < cap (buf v') -> Q v' m') ->
  len v = cap (buf v) -> (exhausted (buf v) (len v) 1 -> P) ->
  wp P
    (b ← RawVec.grow (buf v) (len v) 1; mret (with_buf v b)) Q m.
Proof using Hsize.
  intros Hok Hown HQ Hfull HP. pose proof (owns_bounds _ _ _ Hown) as Hbd.
  pose proof Hown as (cells & Hbuf & Hl & Ht). apply wp_bind.
  eapply (wp_grow Hsize) with (k := length l); [done | done | lia | lia | | |].
  - destruct Hbuf as (_ & _ & Hc & _). lia.
  - intros. apply HP. split; [lia | done].
  - intros r' m' cells' Hb' Hc' Ht' Hmv. apply wp_ret. apply HQ.
    + split; [by eapply owns_with_buf | done].
    + cbn. rewrite Hc'. unfold grown. lia.
Qed.

(** [push]: panics only when the buffer cannot grow any more. *)
Lemma wp_push (P : Prop) m v l x :
  mem_ok m -> owns m v l -> (exhausted (buf v) (len v) 1 -> P) ->
  wp P (VecOps.push v x) (becomes m v (l ++ [x])) m.
Proof using Hsize Hnd.
  intros Hok Hown HP. pose proof (owns_bounds _ _ _ Hown) as Hbd.
  unfold VecOps.push, VecOps.capacity, RawVec.capacity. apply wp_bind.
  destruct (Z.eqb_spec (len v) (cap (buf v))) as [Hf|Hf].
  - eapply wp_make_room; [done | done | | done | done].
    intros v' m' Hv' Hroom. destruct Hv' as (Hown' & Hmv & Ha).
    eapply wp_mono; [by apply (wp_push_unsafe P _ _ l x); [apply Hmv|..] | done |].
    intros ?? [??]. by eapply becomes_trans.
  - apply wp_ret. eapply wp_mono; [apply (wp_push_unsafe P); [done | done | lia] | done |].
    by intros ?? [??].
Qed.

Lemma wp_pop P m v l :
  mem_ok m -> owns m v l ->
  wp P (VecOps.pop v)
    (fun r m' => fst r = last l /\ becomes m v (removelast l) (snd r) m') m.
Proof using Hsize.
  intros Hok Hown. pose proof (owns_bounds _ _ _ Hown) as Hbd.
  assert (isize_max < usize_max) by done.
  destruct (owns_split _ _ _ Hown) as (rest & Hbuf & Hl & Hr). unfold VecOps.pop.
  destruct l as [|x l _] using rev_ind.
  { rewrite Hl. cbn. split; [done|]. split; [done|]. split; [by apply moved_refl | done]. }
  rewrite length_app in Hl; cbn in Hl. rewrite (proj2 (Z.eqb_neq _ _)) by lia.
  apply wp_bind, wp_usize_sub; rewrite ?in_usize_false, ?in_usize_true; [lia|]. intros _.
  apply wp_bind. eapply wp_offset_buf; [done | lia |]. apply wp_bind.
  replace (len v - 1) with (Z.of_nat (length l)) by lia.
  eapply (wp_read Hsize); [apply Hbuf | lia | |].
  { rewrite Nat2Z.id, fmap_app, <- app_assoc. cbn.
    rewrite lookup_app_r by (by rewrite length_fmap).
    by rewrite length_fmap, Nat.sub_diag. }
  apply wp_ret. rewrite last_snoc. split; [done|].
  rewrite removelast_last. split; [|split; [by apply moved_refl | done]].
  eapply owns_intro; [|done]. rewrite fmap_app, <- app_assoc in Hbuf. done.
Qed.

(** [insert] once there is room. *)
Definition insert_body v (i : Z) x : M T (Vec A) :=
  (if i <? len v then
     k ← isize_add (as_isize i) 1;
     dst ← offset (VecOps.vptr v) k;
     src ← offset (VecOps.vptr v) (as_isize i);
     k ← usize_sub (len v) i;
     bytes ← usize_mul k size_of;
     memmove dst src bytes
   else mret tt) ;;
  p ← offset (VecOps.vptr v) (as_isize i);
  assign p x ;;
  n ← usize_add (len v) 1;
  mret (with_len v n).

(** Moving the cells of [l2] one up. *)
Lemma wp_shift_up P m v l1 l2 c rest (Q : unit -> mem T -> Prop) :
  buf_at m (buf v) ((Some <$> l1) ++ (Some <$> l2) ++ c :: rest) ->
  len v = Z.of_nat (length (l1 ++ l2)) ->
  Q tt (upd m (blk (VecOps.vptr v))
         (splice (S (length l1))
           (take (length l2) (drop (length l1) ((Some <$> l1) ++ (Some <$> l2) ++ c :: rest)))
           ((Some <$> l1) ++ (Some <$> l2) ++ c :: rest))) ->
  let i := Z.of_nat (length l1) in
  wp P (k ← isize_add (as_isize i) 1;
        dst ← offset (VecOps.vptr v) k;
        src ← offset (VecOps.vptr v) (as_isize i);
        k ← usize_sub (len v) i;
        bytes ← usize_mul k size_of;
        memmove dst src bytes) Q m.
Proof using Hsize.
  intros Hbuf Hl HQ i. subst i. pose proof (buf_small Hsize _ _ _ Hbuf).
  assert (isize_max < usize_max) by done. pose proof Hbuf as (Hb & Ho & Hlen & Hbytes).
  rewrite length_app in Hl. rewrite !length_app, !length_fmap in Hlen. cbn [length] in Hlen.
  rewrite as_isize_small by lia. apply wp_bind, wp_isize_add; [lia|].
  apply wp_bind. eapply (wp_offset Hsize); [done | done | |].
  { rewrite !length_app, !length_fmap. cbn [length]. lia. }
  apply wp_bind. eapply (wp_offset Hsize); [done | done | |].
  { rewrite !length_app, !length_fmap. cbn [length]. lia. }
  apply wp_bind, wp_usize_sub; rewrite ?in_usize_false, ?in_usize_true; [lia|]. intros _.
  apply wp_bind, wp_usize_mul; rewrite ?in_usize_false, ?in_usize_true; [nia|]. intros _.
  replace (len v - Z.of_nat (length l1)) with (Z.of_nat (length l2)) by lia.
  eapply (wp_memmove Hsize); [done | done | lia | lia | lia | | |];
    [rewrite !length_app, !length_fmap; cbn [length]; lia.. |].
  rewrite !Nat2Z.id. by replace (Z.to_nat (Z.of_nat (length l1) + 1)) with (S (length l1)) by lia.
Qed.

Lemma wp_insert_body P m v l1 l2 x :
  mem_ok m -> owns m v (l1 ++ l2) -> len v < cap (buf v) ->
  wp P (insert_body v (Z.of_nat (length l1)) x) (becomes m v (l1 ++ x :: l2)) m.
Proof using Hsize Hnd.
  intros Hok Hown Hroom.
  destruct (owns_split _ _ _ Hown) as ([|c rest] & Hbuf & Hl & Hr); [cbn in Hr; lia|].
  unfold insert_body. apply wp_bind.
  destruct (Z.ltb_spec (Z.of_nat (length l1)) (len v)); rewrite fmap_app, <- app_assoc in Hbuf.
  - eapply wp_shift_up; [done | done |].
    set (cells := splice _ _ _).
    assert (<[length l1 := Some x]> cells = (Some <$> (l1 ++ x :: l2)) ++ rest) as Hins.
    { subst cells. rewrite <- (length_fmap Some l1), <- (length_fmap Some l2).
      rewrite splice_insert, fmap_app, <- app_assoc. done. }
    assert (length cells = length ((Some <$> l1) ++ (Some <$> l2) ++ c :: rest)) as Hlen.
    { rewrite <- (length_insert cells (length l1) (Some x)), Hins.
      rewrite !length_app, !length_fmap, length_app. cbn. lia. }
    eapply wp_mono; [eapply wp_put; [| by eapply buf_at_upd | | done | done | done] | done |].
    + by eapply buf_at_moved.
    + rewrite Hlen, !length_app, !length_fmap. cbn. lia.
    + intros v' m' [(Ho & Hmv & Ha) _]. split; [done|]. split; [|done].
      eapply moved_trans; [by eapply buf_at_moved | done].
  - rewrite length_app in Hl. assert (l2 = []) as -> by (apply nil_length_inv; lia).
    apply wp_ret. eapply wp_mono;
      [eapply wp_put; [done | done | | apply insert_end_fmap | | done] | done |].
    + rewrite !length_app, length_fmap. cbn. lia.
    + rewrite length_app. cbn. lia.
    + by intros ?? [??].
Qed.

Lemma wp_insert (P : Prop) m v l i x :
  mem_ok m -> owns m v l -> 0 <= i ->
  (Z.of_nat (length l) < i -> P) -> (exhausted (buf v) (len v) 1 -> P) ->
  wp P (VecOps.insert v i x)
    (becomes m v (take (Z.to_nat i) l ++ x :: drop (Z.to_nat i) l)) m.
Proof using Hsize Hnd.
  intros Hok Hown Hi HP1 HP2. pose proof (owns_bounds _ _ _ Hown) as Hbd.
  assert (isize_max < usize_max) by done. pose proof Hown as (_ & _ & Hl & _).
  unfold VecOps.insert, VecOps.capacity, RawVec.capacity.
  apply wp_bind, wp_assert; rewrite ?Z.leb_gt, ?Z.leb_le; [rewrite Hl; done|]. intros Hile.
  apply wp_bind, wp_usize_add; rewrite ?in_usize_false, ?in_usize_true; [lia|]. intros _.
  apply wp_bind.
  assert (forall v' m', becomes m v l v' m' -> len v' < cap (buf v') ->
    wp P (insert_body v' i x)
     (becomes m v (take (Z.to_nat i) l ++ x :: drop (Z.to_nat i) l)) m') as Hbody.
  { intros v' m' Hv' Hroom. replace i with (Z.of_nat (length (take (Z.to_nat i) l))) at 1
      by (rewrite length_take; lia).
    eapply wp_mono; [apply wp_insert_body; [apply Hv' | rewrite take_drop; apply Hv' | done]
                    | done |].
    intros. by eapply becomes_trans. }
  destruct (Z.ltb_spec (cap (buf v)) (len v + 1)).
  - eapply wp_make_room; [done | done | apply Hbody | lia | done].
  - apply wp_ret, Hbody; [|lia]. split; [done|]. split; [by apply moved_refl | done].
Qed.

(** Moving the cells of [l2] one down. *)
Lemma wp_remove P m v l1 x l2 :
  mem_ok m -> owns m v (l1 ++ x :: l2) ->
  wp P (VecOps.remove v (Z.of_nat (length l1)))
    (fun r m' => fst r = x /\ becomes m v (l1 ++ l2) (snd r) m') m.
Proof using Hsize.
  intros Hok Hown. pose proof (owns_bounds _ _ _ Hown) as Hbd.
  assert (isize_max < usize_max) by done.
  destruct (owns_split _ _ _ Hown) as (rest & Hbuf & Hl & Hr).
  pose proof Hbuf as (Hb & Ho & Hlen & Hbytes).
  rewrite length_app in Hl. cbn in Hl. rewrite !length_app, !length_fmap, length_app in Hlen.
  cbn in Hlen. rewrite fmap_app, <- app_assoc in Hbuf, Hb. cbn in Hbuf, Hb.
  unfold VecOps.remove. apply wp_bind, wp_assert; rewrite ?Z.ltb_ge, ?Z.ltb_lt; [lia|].
  intros _. apply wp_bind, wp_usize_sub; rewrite ?in_usize_false, ?in_usize_true; [lia|].
  intros _. cbv zeta. cbn [len with_len]. rewrite as_isize_small by lia.
  apply wp_bind. eapply (wp_offset Hsize); [done | done | |].
  { length_lia. }
  apply wp_bind. eapply (wp_read Hsize); [done | lia | |].
  { rewrite Nat2Z.id, lookup_app_r by (by rewrite length_fmap).
    by rewrite length_fmap, Nat.sub_diag. }
  apply wp_bind, wp_usize_sub; rewrite ?in_usize_false, ?in_usize_true; [lia|]. intros _.
  apply wp_bind. destruct (Z.ltb_spec 0 (len v - 1 - Z.of_nat (length l1))).
  - apply wp_bind. eapply (wp_offset Hsize); [done | done | |].
    { length_lia. }
    apply wp_bind, wp_isize_add; [lia|].
    apply wp_bind. eapply (wp_offset Hsize); [done | done | |].
    { length_lia. }
    apply wp_bind, wp_usize_mul; rewrite ?in_usize_false, ?in_usize_true; [nia|]. intros _.
    replace (len v - 1 - Z.of_nat (length l1)) with (Z.of_nat (length l2)) by lia.
    eapply (wp_memmove Hsize); [done | done | lia | lia | lia | | |];
      [length_lia.. |].
    apply wp_ret. split; [done|]. rewrite !Nat2Z.id.
    replace (Z.to_nat (Z.of_nat (length l1) + 1)) with (S (length l1)) by lia.
    rewrite <- (length_fmap Some l1), <- (length_fmap Some l2). rewrite splice_remove.
    split; [|split; [by eapply buf_at_moved | done]].
    eapply owns_intro; [|length_lia].
    rewrite fmap_app, <- app_assoc. eapply buf_at_upd; [apply Hbuf|].
    length_lia.
  - assert (l2 = []) as -> by (apply nil_length_inv; lia). do 2 apply wp_ret.
    split; [done|]. split; [|split; [by apply moved_refl | done]].
    eapply owns_intro; [|rewrite (app_nil_r l1); cbn in *; lia]. rewrite (app_nil_r l1). apply Hbuf.
Qed.

(** An index out of range is a panic. *)
Lemma wp_remove_panic (P : Prop) m v l i Q :
  owns m v l -> Z.of_nat (length l) <= i -> P -> wp P (VecOps.remove v i) Q m.
Proof.
  intros (_ & _ & Hl & _) Hi HP. unfold VecOps.remove. apply wp_bind, wp_assert; [done|].
  rewrite Z.ltb_lt. lia.
Qed.

Lemma becomes_refl m v l : mem_ok m -> owns m v l -> becomes m v l v m.
Proof. intros. split; [done|]. split; [by apply moved_refl | done]. Qed.

(** Reserving keeps the contents. *)
Lemma wp_vec_reserve (P : Prop) m v l additional (Q : Vec A -> mem T -> Prop) :
  mem_ok m -> owns m v l -> 0 <= additional ->
  (exhausted (buf v) (len v) additional -> P) ->
  (forall v' m', becomes m v l v' m' -> len v' + additional <= cap (buf v') -> Q v' m') ->
  wp P (VecOps.reserve v additional) Q m.
Proof using Hsize.
  intros Hok Hown Ha HP HQ. pose proof (owns_bounds _ _ _ Hown) as Hbd.
  pose proof Hown as (cells & Hbuf & Hl & Ht). unfold VecOps.reserve. apply wp_bind.
  eapply (wp_reserve Hsize) with (k := length l); [done | done | lia | done | | done |].
  - destruct Hbuf as (_ & _ & Hc & _). lia.
  - intros r' m' cells' Hb' Hc' _ Ht' Hmv. apply wp_ret, HQ; [|done].
    split; [by eapply owns_with_buf | done].
Qed.

Lemma wp_shrink_vec P m v l n :
  mem_ok m -> owns m v l -> Z.of_nat (length l) <= n <= cap (buf v) ->
  wp P (b ← RawVec.shrink_to_fit (buf v) n; mret (with_buf v b))
    (fun v' m' => becomes m v l v' m' /\ cap (buf v') = n) m.
Proof using Hsize.
  intros Hok Hown Hn. pose proof Hown as (cells & Hbuf & Hl & Ht). apply wp_bind.
  eapply (wp_shrink Hsize) with (k := length l); [done | done | lia | lia |].
  intros r' m' cells' Hb' Hc' Ht' Hmv. apply wp_ret. split; [|done].
  split; [by eapply owns_with_buf | done].
Qed.

(** The capacity becomes exactly the length. *)
Lemma wp_shrink_to_fit P m v l :
  mem_ok m -> owns m v l ->
  wp P (VecOps.shrink_to_fit v)
    (fun v' m' => becomes m v l v' m' /\ cap (buf v') = len v) m.
Proof using Hsize.
  intros Hok Hown. pose proof (owns_bounds _ _ _ Hown) as Hbd.
  pose proof Hown as (_ & _ & Hl & _).
  unfold VecOps.shrink_to_fit, VecOps.capacity, RawVec.capacity. case_match eqn:E.
  - apply wp_shrink_vec; [done | done | lia].
  - apply Z.ltb_ge in E. apply wp_ret. split; [by apply becomes_refl | lia].
Qed.

Lemma wp_shrink_to P m v l n :
  mem_ok m -> owns m v l -> 0 <= n ->
  wp P (VecOps.shrink_to v n)
    (fun v' m' => becomes m v l v' m' /\
                  cap (buf v') = Z.min (cap (buf v)) (Z.max (len v) n)) m.
Proof using Hsize.
  intros Hok Hown Hn. pose proof (owns_bounds _ _ _ Hown) as Hbd.
  pose proof Hown as (_ & _ & Hl & _).
  unfold VecOps.shrink_to, VecOps.capacity, RawVec.capacity.
  destruct (Z.ltb_spec n (cap (buf v))).
  - cbv zeta. rewrite if_ltb_max.
    eapply wp_mono; [apply (wp_shrink_vec P _ _ l); [done | done | lia] | done |].
    intros v' m' [Hb ->]. split; [done | lia].
  - apply wp_ret. split; [by apply becomes_refl | lia].
Qed.

(** Dropping the last elements, one at a time. *)
Lemma wp_truncate_loop P fuel (n : nat) m v l :
  mem_ok m -> owns m v l -> (n <= length l)%nat -> (length l - n <= fuel)%nat ->
  wp P (VecOps.truncate_loop fuel (Z.of_nat n) v) (becomes m v (take n l)) m.
Proof using Hsize Hnd.
  revert v l. induction fuel as [|fuel IH]; intros v l Hok Hown Hn Hf;
    pose proof (owns_bounds _ _ _ Hown) as Hbd; assert (isize_max < usize_max) by done;
    pose proof Hown as (_ & _ & Hl & _); cbn;
    (destruct (Z.eqb_spec (len v) (Z.of_nat n));
      [rewrite take_ge by lia; by apply becomes_refl|]); [lia|].
  destruct l as [|x l _] using rev_ind; [cbn in *; lia|]. rewrite length_app in *. cbn in *.
  destruct (owns_split _ _ _ Hown) as (rest & Hbuf & _ & _).
  apply wp_bind, wp_usize_sub; rewrite ?in_usize_false, ?in_usize_true; [lia|]. intros _.
  cbv zeta. replace (len v - 1) with (Z.of_nat (length l)) by lia. cbn [len with_len].
  apply wp_bind. eapply wp_offset_buf; [done | cbn; lia |]. apply wp_bind.
  rewrite fmap_app, <- app_assoc in Hbuf. cbn in Hbuf.
  eapply (wp_drop_in_place Hsize); [done | apply Hbuf | lia | |].
  { rewrite Nat2Z.id, lookup_app_r by (by rewrite length_fmap).
    by rewrite length_fmap, Nat.sub_diag. }
  rewrite take_app_le by lia.
  apply (IH (with_len v (Z.of_nat (length l))) l); [done | | lia | lia].
  eapply owns_intro; [apply Hbuf | done].
Qed.

(** [truncate]: the first [n] elements stay; the capacity does not change. *)
Lemma wp_truncate P m v l n :
  mem_ok m -> owns m v l -> 0 <= n ->
  wp P (VecOps.truncate v n) (becomes m v (take (Z.to_nat n) l)) m.
Proof using Hsize Hnd.
  intros Hok Hown Hn. pose proof (owns_bounds _ _ _ Hown) as Hbd.
  assert (isize_max < usize_max) by done. pose proof Hown as (_ & _ & Hl & _).
  unfold VecOps.truncate. destruct (Z.ltb_spec (len v) n).
  - rewrite take_ge by lia. by apply becomes_refl.
  - apply wp_bind, wp_usize_sub; rewrite ?in_usize_false, ?in_usize_true; [lia|]. intros _.
    rewrite <- (Z2Nat.id n) at 1 by done. apply wp_truncate_loop; [done | done | lia | lia].
Qed.

Lemma wp_set_len P m v n (Q : Vec A -> mem T -> Prop) :
  n <= cap (buf v) -> Q (with_len v n) m -> wp P (VecOps.set_len v n) Q m.
Proof.
  intros. unfold VecOps.set_len. apply wp_bind, wp_assert; rewrite ?Z.leb_gt; [|done].
  unfold VecOps.capacity, RawVec.capacity. lia.
Qed.

Lemma owns_lookup m v l i x :
  owns m v l -> l !! i = Some x -> exists cells, buf_at m (buf v) cells /\
    cells !! i = Some (Some x).
Proof.
  intros Hown Hi. destruct (owns_split _ _ _ Hown) as (rest & Hbuf & _).
  eexists. split; [done|]. apply lookup_app_l_Some. by rewrite list_lookup_fmap, Hi.
Qed.

(** Reading the element [i] through the vector's pointer. *)
Lemma wp_vec_read P m v l i x (Q : T -> mem T -> Prop) :
  owns m v l -> 0 <= i -> l !! Z.to_nat i = Some x -> Q x m ->
  wp P (p ← offset (VecOps.vptr v) (as_isize i); read p) Q m.
Proof using Hsize.
  intros Hown Hi Hx HQ. pose proof (owns_bounds _ _ _ Hown) as Hbd.
  pose proof Hown as (_ & _ & Hl & _). apply lookup_lt_Some in Hx as Hlt.
  destruct (owns_lookup _ _ _ _ _ Hown Hx) as (cells & Hbuf & Hc).
  apply wp_bind. eapply wp_offset_buf; [done | lia |].
  eapply (wp_read Hsize); [apply Hbuf | done..].
Qed.

Lemma wp_index (P : Prop) m v l i :
  owns m v l -> 0 <= i -> (Z.of_nat (length l) <= i -> P) ->
  wp P (VecOps.index v i) (fun x m' => l !! Z.to_nat i = Some x /\ m' = m) m.
Proof using Hsize.
  intros Hown Hi HP. pose proof Hown as (_ & _ & Hl & _).
  unfold VecOps.index, VecOps.slice_index. cbn.
  destruct (Z.ltb_spec i (len v)); [|apply HP; lia].
  destruct (l !! Z.to_nat i) as [x|] eqn:Hx; [|apply lookup_ge_None in Hx; lia].
  eapply wp_vec_read; [done | done | done | done].
Qed.

(** Overwriting an element in place. *)
Lemma wp_vec_assign P m v l i x (Q : unit -> mem T -> Prop) :
  mem_ok m -> owns m v l -> 0 <= i < Z.of_nat (length l) ->
  (forall m', becomes m v (<[Z.to_nat i := x]> l) v m' -> Q tt m') ->
  wp P (assign (at_cell (blk (VecOps.vptr v)) i) x) Q m.
Proof using Hsize Hnd.
  intros Hok Hown Hi HQ. destruct (owns_split _ _ _ Hown) as (rest & Hbuf & Hl & Hr).
  eapply (wp_assign Hsize); [done | apply Hbuf | |].
  { length_lia. }
  apply HQ. rewrite insert_app_l by (rewrite length_fmap; lia).
  rewrite <- list_fmap_insert. split; [|split; [by eapply buf_at_moved | done]].
  destruct v as [r n a]. eapply owns_intro.
  - eapply buf_at_upd; [done | length_lia].
  - cbn in Hl. rewrite length_insert. done.
Qed.

Lemma wp_index_mut (P : Prop) m v l i x :
  mem_ok m -> owns m v l -> 0 <= i -> (Z.of_nat (length l) <= i -> P) ->
  wp P (VecOps.index_mut v i x)
    (fun _ m' => becomes m v (<[Z.to_nat i := x]> l) v m') m.
Proof using Hsize Hnd.
  intros Hok Hown Hi HP. pose proof Hown as (_ & _ & Hl & _).
  pose proof (owns_bounds _ _ _ Hown) as Hbd.
  unfold VecOps.index_mut. cbn. destruct (Z.ltb_spec i (len v)); [|apply HP; lia].
  destruct (owns_split _ _ _ Hown) as (rest & Hbuf & _).
  apply wp_bind. eapply wp_offset_buf; [done | lia |].
  by eapply wp_vec_assign; [done | done | lia |].
Qed.

(** [swap_remove] on the list: the last element takes the place of the removed one. *)
Definition swap_removed l (i : nat) : list T :=
  match last l with
  | Some y => removelast (<[i := y]> l)
  | None => l
  end.

Lemma wp_swap_remove (P : Prop) m v l i :
  mem_ok m -> owns m v l -> 0 <= i -> (Z.of_nat (length l) <= i -> P) ->
  wp P (VecOps.swap_remove v i)
    (fun r m' => l !! Z.to_nat i = Some (fst r) /\
                 becomes m v (swap_removed l (Z.to_nat i)) (snd r) m') m.
Proof using Hsize Hnd.
  intros Hok Hown Hi HP. pose proof (owns_bounds _ _ _ Hown) as Hbd.
  assert (isize_max < usize_max) by done. pose proof Hown as (_ & _ & Hl & _).
  unfold VecOps.swap_remove. cbv zeta. apply wp_bind, wp_assert; rewrite ?Z.ltb_ge, ?Z.ltb_lt;
    [intros; apply HP; lia|]. intros Hlt.
  destruct l as [|y l _] using rev_ind; [cbn in *; lia|]. rewrite length_app in *; cbn in *.
  destruct ((l ++ [y]) !! Z.to_nat i) as [x|] eqn:Hx;
    [|apply lookup_ge_None in Hx; rewrite length_app in Hx; cbn in *; lia].
  apply wp_bind, wp_usize_sub; rewrite ?in_usize_false, ?in_usize_true; [lia|]. intros _.
  destruct (owns_lookup _ _ _ _ _ Hown Hx) as (cells & Hbuf & Hc).
  assert ((l ++ [y]) !! length l = Some y) as Hy by (by rewrite list_lookup_middle).
  destruct (owns_lookup _ _ _ _ _ Hown Hy) as (cells' & Hbuf' & Hc').
  apply wp_bind. eapply wp_offset_buf; [done | lia |].
  replace (len v - 1) with (Z.of_nat (length l)) by lia.
  apply wp_bind. eapply (wp_read Hsize); [apply Hbuf' | lia | by rewrite Nat2Z.id |].
  apply wp_bind. eapply wp_offset_buf; [done | lia |].
  apply wp_bind, wp_set_len; [lia|].
  apply wp_bind. eapply (wp_read Hsize); [apply Hbuf | lia | done |].
  apply wp_bind. eapply wp_vec_assign; [done | done | length_lia |].
  intros m' (Hown' & Hmv & _). apply wp_ret. split; [done|].
  unfold swap_removed. rewrite last_snoc.
  destruct (<[Z.to_nat i := y]> (l ++ [y])) as [|z l' _] eqn:El using rev_ind.
  { apply (f_equal length) in El. rewrite length_insert, length_app in El. cbn in El. lia. }
  rewrite removelast_last. split; [|done].
  destruct (owns_split _ _ _ Hown') as (rest & Hb2 & _ & _).
  rewrite fmap_app, <- app_assoc in Hb2. eapply owns_intro; [apply Hb2|].
  apply (f_equal length) in El. rewrite length_insert, !length_app in El. cbn in El. lia.
Qed.

(** Indices out of range. *)
Lemma wp_insert_panic (P : Prop) m v l i x Q :
  owns m v l -> Z.of_nat (length l) < i -> P -> wp P (VecOps.insert v i x) Q m.
Proof.
  intros (_ & _ & Hl & _) Hi HP. unfold VecOps.insert. apply wp_bind, wp_assert; [done|].
  rewrite Z.leb_le. lia.
Qed.

Lemma wp_index_mut_panic (P : Prop) m v l i x Q :
  owns m v l -> Z.of_nat (length l) <= i -> P -> wp P (VecOps.index_mut v i x) Q m.
Proof.
  intros (_ & _ & Hl & _) Hi HP. unfold VecOps.index_mut. cbn.
  rewrite (proj2 (Z.ltb_ge _ _)) by lia. done.
Qed.

(** *** Two vectors *)

(** A vector whose block is not the one that moved is untouched. *)
Lemma owns_frame {B} m b m' b' (w : Vec B) l :
  moved m b m' b' -> owns m w l -> blk (VecOps.vptr w) <> b -> owns m' w l.
Proof.
  intros Hmv (cells & (Hb & Hrest) & Hl) Hne. exists cells. split; [|done]. split; [|done].
  rewrite (mv_rest _ _ _ _ Hmv); [done..|]. intros E. destruct (mv_fresh _ _ _ _ Hmv) as [F|F].
  - unfold VecOps.vptr in *. congruence.
  - unfold VecOps.vptr in *. rewrite <- E in F. congruence.
Qed.

Lemma owns_allocated {B} m b m' (w : Vec B) l : allocated m m' b -> owns m w l -> owns m' w l.
Proof.
  intros (_ & Hf & Hrest & _) (cells & (Hb & Hw) & Hl). exists cells. split; [|done].
  split; [|done]. rewrite Hrest; [done|]. intros E. rewrite E in Hb. congruence.
Qed.

Lemma allocated_moved m m' b m'' b' :
  allocated m m' b -> moved m' b m'' b' -> allocated m m'' b'.
Proof.
  intros (_ & Hf & Hrest & Hd) [O F G R L]. split; [done|]. split; [|split; [|congruence]].
  - destruct (decide (b' = b)) as [->|]; [done|]. destruct F as [?|F]; [done|].
    by rewrite <- Hrest.
  - intros c Hc. destruct (decide (c = b)) as [->|].
    + by rewrite G, Hf.
    + by rewrite R, Hrest.
Qed.

(** A new vector that holds [l]. *)
Definition creates m l (v' : Vec A) (m' : mem T) : Prop :=
  owns m' v' l /\ allocated m m' (blk (VecOps.vptr v')).

Lemma creates_becomes m l v' m' l' v'' m'' :
  creates m l v' m' -> becomes m' v' l' v'' m'' -> creates m l' v'' m''.
Proof.
  intros (_ & Ha) (Ho & Hmv & _). split; [done|]. by eapply allocated_moved.
Qed.

Lemma wp_with_capacity_in P m c a :
  mem_ok m -> 0 <= c -> c * size_of <= isize_max ->
  wp P (VecOps.with_capacity_in c a)
    (fun v m' => creates m [] v m' /\ cap (buf v) = c /\ allocator v = a) m.
Proof using Hsize.
  intros Hok Hc Hb. unfold VecOps.with_capacity_in. apply wp_bind.
  eapply (wp_new_with_capacity Hsize); [done..|]. intros r' m' Hbuf Hcap Hal.
  apply wp_ret. split; [|done]. split; [|done]. by apply (owns_intro _ _ _ _ [] _ Hbuf).
Qed.

(** Pushing elements for which there is room. *)
Lemma wp_fill {E} P (f : E -> T) xs m v l :
  mem_ok m -> owns m v l -> len v + Z.of_nat (length xs) <= cap (buf v) ->
  wp P (for_each xs (fun e v => VecOps.push_unsafe v (f e)) v)
    (fun v' m' => becomes m v (l ++ map f xs) v' m' /\ buf v' = buf v) m.
Proof using Hsize Hnd.
  intros Hok Hown Hroom. pose proof Hown as (_ & _ & Hl & _).
  apply (wp_for_each P (fun d v' m' => becomes m v (l ++ map f d) v' m' /\ buf v' = buf v)).
  - rewrite app_nil_r. split; [by apply becomes_refl | done].
  - intros d e r v' m' -> [(Hown' & Hmv & Ha) Hbuf']. rewrite length_app in Hroom. cbn in Hroom.
    eapply wp_mono; [apply (wp_push_unsafe P _ _ (l ++ map f d)); [apply Hmv | done |] | done |].
    + destruct Hown' as (_ & _ & -> & _). rewrite Hbuf', length_app, length_map. lia.
    + intros v'' m'' [Hb Hbuf'']. split; [|congruence]. rewrite map_app, app_assoc.
      by eapply becomes_trans.
Qed.

(** Copying the elements [l2] of another block behind the elements of [w]. *)
Lemma wp_copy_tail P m w l sb si scells l2 (Q : unit -> mem T -> Prop) :
  mem_ok m -> owns m w l -> blocks m !! sb = Some scells -> 0 <= si ->
  take (length l2) (drop (Z.to_nat si) scells) = Some <$> l2 ->
  len w + Z.of_nat (length l2) <= cap (buf w) ->
  (forall m', becomes m w (l ++ l2) (with_len w (len w + Z.of_nat (length l2))) m' -> Q tt m') ->
  si + Z.of_nat (length l2) <= Z.of_nat (length scells) ->
  wp P (memmove (at_cell (blk (VecOps.vptr w)) (len w)) (at_cell sb si)
          (Z.of_nat (length l2) * size_of)) Q m.
Proof using Hsize.
  intros Hok Hown Hs Hsi Ht Hroom HQ Hin.
  destruct (owns_split _ _ _ Hown) as (rest & Hbuf & Hl & Hr).
  eapply (wp_memmove Hsize); [done | apply Hbuf | done | lia | lia | done | length_lia |].
  rewrite Nat2Z.id, Ht. apply HQ. rewrite Hl, Nat2Z.id.
  rewrite splice_end_fmap by length_lia.
  split; [|split; [by eapply buf_at_moved | done]].
  eapply owns_intro; [|length_lia]. rewrite fmap_app, <- app_assoc.
  eapply buf_at_upd; [apply Hbuf | length_lia].
Qed.

(** Two vectors that own different buffers. *)
Definition apart v w : Prop := blk (VecOps.vptr v) <> blk (VecOps.vptr w).

Lemma at_cell_vptr m w l : owns m w l -> VecOps.vptr w = at_cell (T := T) (blk (VecOps.vptr w)) 0.
Proof.
  intros (_ & (_ & Ho & _) & _). unfold at_cell, VecOps.vptr.
  destruct (raw_ptr (buf w)); cbn in *; by subst.
Qed.

(** [append]: the elements of [w] move behind those of [v]; [w] keeps its buffer and
    is empty. *)
Lemma wp_append (P : Prop) m v l w lw :
  mem_ok m -> owns m v l -> owns m w lw -> apart v w ->
  (exhausted (buf v) (len v) (len w) -> P) ->
  wp P (VecOps.append v w)
    (fun r m' => becomes m v (l ++ lw) (fst r) m' /\ owns m' (snd r) [] /\
                 buf (snd r) = buf w) m.
Proof using Hsize.
  intros Hok Hv Hw Hap HP. pose proof (owns_bounds _ _ _ Hw) as Hbw.
  assert (isize_max < usize_max) by done. pose proof Hw as (_ & _ & Hlw & _).
  unfold VecOps.append. apply wp_bind. eapply wp_vec_reserve; [done | done | lia | done |].
  intros v' m1 Hv' Hroom. pose proof Hv' as (Hown1 & Hmv1 & _).
  assert (owns m1 w lw) as Hw1 by by eapply owns_frame.
  pose proof (owns_bounds _ _ _ Hown1) as Hbv. destruct (owns_split _ _ _ Hown1) as (r1 & Hbuf1 & _).
  destruct (owns_split _ _ _ Hw1) as (r2 & Hbuf2 & _ & Hr2).
  apply wp_bind. eapply wp_offset_buf; [done | lia |].
  apply wp_bind, wp_usize_mul; rewrite ?in_usize_false, ?in_usize_true.
  { destruct Hbuf2 as (_ & _ & _ & ?). nia. }
  intros _. apply wp_bind. rewrite (at_cell_vptr _ _ _ Hw1), Hlw.
  eapply wp_copy_tail; [apply Hmv1 | done | apply Hbuf2 | done | | lia | | length_lia].
  { cbn [Z.to_nat]. rewrite drop_0. apply take_app_length'. by rewrite length_fmap. }
  intros m2 Hv2. apply wp_bind, wp_usize_add; rewrite ?in_usize_false, ?in_usize_true; [lia|].
  intros _. apply wp_bind, wp_set_len; [lia|]. apply wp_ret. cbn.
  split; [by eapply becomes_trans|]. split; [|done].
  assert (owns m2 w lw) as (cells & Hb & _).
  { eapply owns_frame; [apply Hv2 | done |]. cbn. intros E. destruct Hmv1 as [_ [F|F] _ _ _].
    - unfold apart, VecOps.vptr in *. congruence.
    - destruct Hw as (c & (Hc & _) & _). unfold VecOps.vptr in *. congruence. }
  by apply (owns_intro _ _ _ _ [] cells).
Qed.

(** [split_off]: the elements from [at] on move to a new vector. *)
Lemma wp_split_off P m v l1 l2 (ca : A -> A) :
  mem_ok m -> owns m v (l1 ++ l2) ->
  wp P (VecOps.split_off v ca (Z.of_nat (length l1)))
    (fun r m' => owns m' (fst r) l1 /\ buf (fst r) = buf v /\ creates m l2 (snd r) m') m.
Proof using Hsize.
  intros Hok Hown. pose proof (owns_bounds _ _ _ Hown) as Hbd.
  assert (isize_max < usize_max) by done. pose proof Hown as (cells & Hbuf & Hl & Ht).
  pose proof Hbuf as (Hb & _ & Hlen & Hbytes). rewrite length_app in Hl.
  unfold VecOps.split_off. apply wp_bind, wp_assert; rewrite ?Z.leb_gt; [lia|]. intros _.
  apply wp_bind, wp_usize_sub; rewrite ?in_usize_false, ?in_usize_true; [lia|]. intros _.
  replace (len v - Z.of_nat (length l1)) with (Z.of_nat (length l2)) by lia.
  apply wp_bind. eapply wp_mono; [apply wp_with_capacity_in; [done | lia | nia] | done |].
  intros w m1 (Hcr & Hcw & Haw). pose proof Hcr as (Hw & Hal). pose proof Hw as (_ & _ & Hnw & _).
  pose proof (owns_allocated _ _ _ _ _ Hal Hown) as Hown1.
  assert (apart w v) as Hne.
  { destruct Hal as (_ & Hfr & _). unfold apart, VecOps.vptr in *. congruence. }
  destruct (owns_split _ _ _ Hown1) as (rest & Hbuf1 & _ & Hr1).
  apply wp_bind. eapply wp_offset_buf; [done | lia |].
  apply wp_bind, wp_usize_mul; rewrite ?in_usize_false, ?in_usize_true; [nia|]. intros _.
  apply wp_bind. rewrite (at_cell_vptr _ _ _ Hw), (memcpy_disjoint Hsize) by (done || lia).
  change 0 with (Z.of_nat (length (@nil T))). rewrite <- Hnw. cbn in Hnw.
  eapply wp_copy_tail; [apply Hal | done | apply Hbuf1 | lia | | lia | | length_lia].
  { rewrite Nat2Z.id, fmap_app, <- app_assoc, <- (length_fmap Some l1), drop_app_length.
    apply take_app_length'. by rewrite length_fmap. }
  intros m2 Hw2. apply wp_bind, wp_set_len; [lia|]. apply wp_bind, wp_set_len; [lia|].
  apply wp_ret. cbn [fst snd]. split; [|split; [done|]].
  - assert (owns m2 v (l1 ++ l2)) as Hown2 by (eapply owns_frame; [apply Hw2 | done | done]).
    destruct (owns_split _ _ _ Hown2) as (rest2 & Hbuf2 & _).
    rewrite fmap_app, <- app_assoc in Hbuf2. by eapply owns_intro.
  - assert (Z.of_nat (length l2) = len w + Z.of_nat (length l2)) as -> by (cbn in Hnw; lia).
    eapply creates_becomes; [apply Hcr | apply Hw2].
Qed.

End Vector.
