(* ===== verification/RmcVecProgram.v ===== *)
(** * Programs over the vector abstraction

    The remaining operations of [rmc_vec.rs] (loops, constructors, destruction, the
    owning iterator), then whole programs: a sequence of operations on a new vector
    behaves as the same sequence on a list, without undefined behaviour and without
    leaking the buffer.  The end of the file is about what the code does outside of
    that: types with drop glue, [from_iter] and [from_raw_parts]. *)

From stdpp Require Import base gmap list numbers.
From S2P Require Import Prelude RawMemory RmcVec RmcVecSpec.

#[local] Open Scope Z_scope.

Section Loops.
Context {T : Type} `{!Elem T} {A : Type}.
Hypothesis Hsize : 0 < size_of (T := T).
Hypothesis Hnd : needs_drop (T := T) = false.
Implicit Types (m : mem T) (v w : Vec A) (l : list T) (x : T).

(** More than [isize::MAX] bytes are needed to make room for [n] elements. *)
Definition too_big (n : Z) : Prop :=
  isize_max < Z.max MIN_NON_ZERO_CAP (2 * n) * size_of (T := T).

Lemma exhausted_too_big r n additional :
  exhausted (T := T) r n additional -> too_big (n + additional).
Proof using Hsize.
  intros [Hc Hg]. unfold too_big. eapply Z.lt_le_trans; [done|].
  apply Z.mul_le_mono_nonneg_r; unfold grown, MIN_NON_ZERO_CAP; lia.
Qed.

Lemma too_big_mono n n' : n <= n' -> too_big n -> too_big n'.
Proof using Hsize.
  unfold too_big. intros. eapply Z.lt_le_trans; [done|].
  apply Z.mul_le_mono_nonneg_r; lia.
Qed.

(** [extend]: one [push] per element. *)
Lemma wp_extend (P : Prop) m v l xs :
  mem_ok m -> owns m v l -> (too_big (Z.of_nat (length l + length xs)) -> P) ->
  wp P (VecOps.extend v xs) (becomes m v (l ++ xs)) m.
Proof using Hsize Hnd.
  intros Hok Hown HP. unfold VecOps.extend.
  apply (wp_for_each P (fun d v' m' => becomes m v (l ++ d) v' m')).
  - rewrite app_nil_r. by apply becomes_refl.
  - intros d x r v' m' -> Hv'. pose proof Hv' as (Hown' & Hmv & _).
    pose proof Hown' as (_ & _ & Hl' & _).
    eapply wp_mono; [apply (wp_push Hsize Hnd P _ _ (l ++ d)); [apply Hmv | done |] | done |].
    + intros Hex. apply HP. eapply too_big_mono; [|by apply exhausted_too_big in Hex].
      rewrite Hl'. length_lia.
    + intros v'' m'' Hv''. rewrite app_assoc. by eapply becomes_trans.
Qed.

(** Reserving once and pushing what fits. *)
Lemma wp_reserve_fill {E} (P : Prop) (f : E -> T) xs m v l :
  mem_ok m -> owns m v l -> (too_big (Z.of_nat (length l + length xs)) -> P) ->
  wp P (v ← VecOps.reserve v (Z.of_nat (length xs));
        for_each xs (fun e v => VecOps.push_unsafe v (f e)) v)
    (becomes m v (l ++ map f xs)) m.
Proof using Hsize Hnd.
  intros Hok Hown HP. pose proof Hown as (_ & _ & Hl & _). apply wp_bind.
  eapply (wp_vec_reserve Hsize); [done | done | lia | |].
  - intros Hex. apply HP. apply exhausted_too_big in Hex. by rewrite Nat2Z.inj_add, <- Hl.
  - intros v' m' Hv' Hroom. pose proof Hv' as (Hown' & Hmv & _).
    eapply wp_mono; [apply (wp_fill Hsize Hnd P f xs _ _ l); [apply Hmv | done..] | done |].
    intros v'' m'' [Hv'' _]. by eapply becomes_trans.
Qed.

Lemma wp_extend_from_slice `{!Clone T} (P : Prop) xs m v l :
  mem_ok m -> owns m v l -> (too_big (Z.of_nat (length l + length xs)) -> P) ->
  wp P (VecOps.extend_from_slice v xs) (becomes m v (l ++ map clone xs)) m.
Proof using Hsize Hnd. apply wp_reserve_fill. Qed.

(** A counted loop that pushes what a generator yields, for which there is room. *)
Fixpoint outputs {F} (call : F -> T * F) (f : F) (n : nat) : list T * F :=
  match n with
  | O => ([], f)
  | S n => let (l, f) := outputs call f n in let (x, f) := call f in (l ++ [x], f)
  end.

Lemma length_outputs {F} (call : F -> T * F) f n : length (fst (outputs call f n)) = n.
Proof.
  induction n as [|n IH]; cbn; [done|]. destruct (outputs call f n) as [l f'].
  destruct (call f') as [x f'']. cbn in *. length_lia.
Qed.

Lemma wp_generate {F} P (call : F -> T * F) f n m v l :
  mem_ok m -> owns m v l -> len v + Z.of_nat n <= cap (buf v) ->
  wp P (for_range n 0 (fun _ s => let (x, f') := call (snd s) in
                                  v ← VecOps.push_unsafe (fst s) x; mret (v, f')) (v, f))
    (fun r m' => becomes m v (l ++ fst (outputs call f n)) (fst r) m') m.
Proof using Hsize Hnd.
  intros Hok Hown Hroom. pose proof Hown as (_ & _ & Hl & _).
  set (I := fun (j : Z) (s : Vec A * F) m' =>
    becomes m v (l ++ fst (outputs call f (Z.to_nat j))) (fst s) m' /\
    buf (fst s) = buf v /\ snd s = snd (outputs call f (Z.to_nat j))).
  eapply wp_mono; [eapply (wp_for_range P I) | done |].
  - split; [cbn; rewrite app_nil_r; by apply becomes_refl | done].
  - intros j [v' f'] m' Hj (Hv' & Hb & Hf). cbn in Hv', Hb, Hf |- *.
    pose proof Hv' as (Hown' & Hmv & _).
    destruct (call f') as [x f''] eqn:Ec. apply wp_bind.
    eapply wp_mono; [apply (wp_push_unsafe Hsize Hnd P); [apply Hmv | done |] | done |].
    + destruct Hown' as (_ & _ & -> & _). rewrite length_app, length_outputs, Hb. lia.
    + intros v'' m'' [Hv'' Hb'']. apply wp_ret. unfold I. cbn.
      replace (Z.to_nat (j + 1)) with (S (Z.to_nat j)) by lia. cbn.
      destruct (outputs call f (Z.to_nat j)) as [lo fo]. cbn in *. subst f'. rewrite Ec. cbn.
      split; [|split; [congruence | done]]. rewrite app_assoc. by eapply becomes_trans.
  - intros r m' (Hv' & _). by rewrite Z.add_0_l, Nat2Z.id in Hv'.
Qed.

Lemma wp_fill_const P n x m v l :
  mem_ok m -> owns m v l -> len v + Z.of_nat n <= cap (buf v) ->
  wp P (for_range n 0 (fun _ v => VecOps.push_unsafe v x) v)
    (becomes m v (l ++ replicate n x)) m.
Proof using Hsize Hnd.
  intros Hok Hown Hroom. pose proof Hown as (_ & _ & Hl & _).
  set (I := fun (j : Z) v' m' => becomes m v (l ++ replicate (Z.to_nat j) x) v' m' /\ buf v' = buf v).
  eapply wp_mono; [eapply (wp_for_range P I) | done |].
  - split; [cbn; rewrite app_nil_r; by apply becomes_refl | done].
  - intros j v' m' Hj (Hv' & Hb). pose proof Hv' as (Hown' & Hmv & _).
    eapply wp_mono; [apply (wp_push_unsafe Hsize Hnd P); [apply Hmv | done |] | done |].
    + destruct Hown' as (_ & _ & -> & _). rewrite length_app, length_replicate, Hb. lia.
    + intros v'' m'' [Hv'' Hb'']. split; [|congruence].
      replace (Z.to_nat (j + 1)) with (S (Z.to_nat j)) by lia.
      cbn [replicate]. rewrite replicate_cons_app, app_assoc. by eapply becomes_trans.
  - intros r m' (Hv' & _). by rewrite Z.add_0_l, Nat2Z.id in Hv'.
Qed.

(** The length of a resized vector. *)
Definition resized l (n : Z) (fill : nat -> list T) : list T :=
  if Z.of_nat (length l) <? n then l ++ fill (Z.to_nat n - length l)%nat
  else take (Z.to_nat n) l.

Lemma wp_resize_with {F} (P : Prop) m v l n (call : F -> T * F) f :
  mem_ok m -> owns m v l -> 0 <= n <= usize_max -> (too_big n -> P) ->
  wp P (VecOps.resize_with v n call f)
    (becomes m v (resized l n (fun k => fst (outputs call f k)))) m.
Proof using Hsize Hnd.
  intros Hok Hown Hn HP. pose proof Hown as (_ & _ & Hl & _).
  unfold VecOps.resize_with, resized. cbv zeta. rewrite Hl.
  destruct (Z.ltb_spec (Z.of_nat (length l)) n); [|by apply (wp_truncate Hsize Hnd); [..|lia]].
  apply wp_bind, wp_usize_sub; rewrite ?in_usize_false, ?in_usize_true; [lia|]. intros _.
  apply wp_bind. eapply (wp_vec_reserve Hsize); [done | done | lia | |].
  { intros Hex%exhausted_too_big. apply HP. eapply too_big_mono; [|done]. lia. }
  intros v' m' Hv' Hroom. pose proof Hv' as (Hown' & Hmv & _). apply wp_bind.
  eapply wp_mono; [apply (wp_generate P); [apply Hmv | done | lia] | done |].
  intros r m'' Hr. apply wp_ret. replace (Z.to_nat n - length l)%nat
    with (Z.to_nat (n - Z.of_nat (length l))) by lia. by eapply becomes_trans.
Qed.

Lemma wp_resize `{!Clone T} (P : Prop) m v l n x :
  mem_ok m -> owns m v l -> 0 <= n <= usize_max -> (too_big n -> P) ->
  wp P (VecOps.resize v n x)
    (becomes m v (resized l n (fun k => replicate k (clone x)))) m.
Proof using Hsize Hnd.
  intros Hok Hown Hn HP. pose proof Hown as (_ & _ & Hl & _).
  unfold VecOps.resize. cbv zeta. apply wp_bind.
  assert (forall v' m', becomes m v (resized l n (fun k => replicate k (clone x))) v' m' ->
    wp P (run_drop x ;; mret v') (becomes m v (resized l n (fun k => replicate k (clone x)))) m')
    as Hend.
  { intros v' m' Hv'. unfold wp, mbind, M_bind, run_drop. rewrite Hnd. done. }
  eapply (wp_mono P P); [|done | exact Hend]. unfold resized. rewrite Hl.
  destruct (Z.ltb_spec (Z.of_nat (length l)) n); [|by apply (wp_truncate Hsize Hnd); [..|lia]].
  apply wp_bind, wp_usize_sub; rewrite ?in_usize_false, ?in_usize_true; [lia|]. intros _.
  apply wp_bind. eapply (wp_vec_reserve Hsize); [done | done | lia | |].
  { intros Hex%exhausted_too_big. apply HP. eapply too_big_mono; [|done]. lia. }
  intros v' m' Hv' Hroom. pose proof Hv' as (Hown' & Hmv & _).
  eapply wp_mono; [apply (wp_fill_const P _ _ _ _ l); [apply Hmv | done | lia] | done |].
  intros r m'' Hr. replace (Z.to_nat n - length l)%nat
    with (Z.to_nat (n - Z.of_nat (length l))) by lia. by eapply becomes_trans.
Qed.

(** *** Destruction *)

Lemma wp_drop_vec P m v l :
  mem_ok m -> owns m v l ->
  wp P (VecOps.drop_vec v)
    (fun _ m' => blocks m' = delete (blk (VecOps.vptr v)) (blocks m) /\
                 dropped m' = dropped m /\ mem_ok m') m.
Proof.
  intros Hok (cells & (Hb & Ho & _) & _). unfold wp, VecOps.drop_vec, RawVec.drop_raw, free.
  rewrite Hb, Ho. cbn. split; [done|]. split; [done|]. intros b Hlt. cbn in *.
  apply lookup_delete_None. right. by apply Hok.
Qed.

(** Destroying a vector that was created here gives the memory back. *)
Lemma wp_drop_created P m l v m1 :
  creates m l v m1 ->
  wp P (VecOps.drop_vec v) (fun _ m' => blocks m' = blocks m /\ dropped m' = dropped m) m1.
Proof.
  intros (Hown & Hok & Hf & Hrest & Hd).
  eapply wp_mono; [by apply (wp_drop_vec P _ _ l) | done |].
  intros _ m' (-> & -> & _). split; [|done]. apply map_eq. intros c.
  destruct (decide (c = blk (VecOps.vptr v))) as [->|Hc].
  - by rewrite lookup_delete_eq, Hf.
  - by rewrite lookup_delete_ne, Hrest.
Qed.

End Loops.

(** ** Constructors *)

Section Constructors.
Context {T : Type} `{!Elem T}.
Hypothesis Hsize : 0 < size_of (T := T).
Implicit Types (m : mem T) (l : list T) (x : T).

(** [new] and [new_in] allocate the default capacity. *)
Lemma wp_raw_new P m (Q : RmcRawVec -> mem T -> Prop) :
  mem_ok m -> DEFAULT_CAPACITY * size_of (T := T) <= isize_max ->
  (forall r' m', buf_at m' r' (replicate (Z.to_nat DEFAULT_CAPACITY) None) ->
     cap r' = DEFAULT_CAPACITY -> allocated m m' (blk (raw_ptr r')) -> Q r' m') ->
  wp P RawVec.new Q m.
Proof using Hsize.
  intros Hok Hb HQ. unfold RawVec.new. apply wp_bind, wp_assert.
  { rewrite negb_false_iff, Z.eqb_eq. lia. }
  intros _. by apply (wp_new_with_capacity Hsize).
Qed.

Lemma wp_new_in {A} P m (a : A) :
  mem_ok m -> DEFAULT_CAPACITY * size_of (T := T) <= isize_max ->
  wp P (VecOps.new_in a)
    (fun v m' => creates m [] v m' /\ cap (buf v) = DEFAULT_CAPACITY) m.
Proof using Hsize.
  intros Hok Hb. unfold VecOps.new_in. apply wp_bind, wp_raw_new; [done | done |].
  intros r' m' Hbuf Hcap Hal. apply wp_ret. split; [|done]. split; [|done].
  by apply (owns_intro _ _ _ _ [] _ Hbuf).
Qed.

Lemma wp_new P m :
  mem_ok m -> DEFAULT_CAPACITY * size_of (T := T) <= isize_max ->
  wp P VecOps.new
    (fun v m' => creates m [] v m' /\ cap (buf v) = DEFAULT_CAPACITY) m.
Proof using Hsize. apply (wp_new_in P m RmcAlloc). Qed.

End Constructors.

(** ** Programs *)

(** The operations on one vector; indices and counts are [usize]. *)
Inductive op (T : Type) : Type :=
| Push (x : T)
| Pop
| Insert (i : N) (x : T)
| Remove (i : N)
| SwapRemove (i : N)
| Truncate (n : N)
| Clear
| Reserve (n : N)
| ReserveExact (n : N)
| ShrinkToFit
| ShrinkTo (n : N)
| Resize (n : N) (x : T)
| ResizeWith (n : N) (F : Type) (call : F -> T * F) (f : F)
| ExtendFromSlice (xs : list T)
| Extend (xs : list T)
| Index (i : N)
| IndexMut (i : N) (x : T).
Arguments Push {T} x.
Arguments Pop {T}.
Arguments Insert {T} i x.
Arguments Remove {T} i.
Arguments SwapRemove {T} i.
Arguments Truncate {T} n.
Arguments Clear {T}.
Arguments Reserve {T} n.
Arguments ReserveExact {T} n.
Arguments ShrinkToFit {T}.
Arguments ShrinkTo {T} n.
Arguments Resize {T} n x.
Arguments ResizeWith {T} n F call f.
Arguments ExtendFromSlice {T} xs.
Arguments Extend {T} xs.
Arguments Index {T} i.
Arguments IndexMut {T} i x.

Section Programs.
Context {T : Type} `{!Elem T} `{!Clone T}.
Implicit Types (m : mem T) (l : list T) (o : op T).

(** The operation run on a vector: the element it returns, if any. *)
Definition run_op {A} (o : op T) (v : Vec A) : M T (option T * Vec A) :=
  let quiet (x : M T (Vec A)) := v ← x; mret (None, v) in
  match o with
  | Push x => quiet (VecOps.push v x)
  | Pop => VecOps.pop v
  | Insert i x => quiet (VecOps.insert v (Z.of_N i) x)
  | Remove i => r ← VecOps.remove v (Z.of_N i); mret (Some (fst r), snd r)
  | SwapRemove i => r ← VecOps.swap_remove v (Z.of_N i); mret (Some (fst r), snd r)
  | Truncate n => quiet (VecOps.truncate v (Z.of_N n))
  | Clear => quiet (VecOps.clear v)
  | Reserve n => quiet (VecOps.reserve v (Z.of_N n))
  | ReserveExact n => quiet (VecOps.reserve_exact v (Z.of_N n))
  | ShrinkToFit => quiet (VecOps.shrink_to_fit v)
  | ShrinkTo n => quiet (VecOps.shrink_to v (Z.of_N n))
  | Resize n x => quiet (VecOps.resize v (Z.of_N n) x)
  | ResizeWith n F call f => quiet (VecOps.resize_with v (Z.of_N n) call f)
  | ExtendFromSlice xs => quiet (VecOps.extend_from_slice v xs)
  | Extend xs => quiet (VecOps.extend v xs)
  | Index i => x ← VecOps.index v (Z.of_N i); mret (Some x, v)
  | IndexMut i x => VecOps.index_mut v (Z.of_N i) x ;; mret (None, v)
  end.

(** The operation on a list; [None] is the panic of an index out of range. *)
Definition list_op (o : op T) (l : list T) : option (option T * list T) :=
  match o with
  | Push x => Some (None, l ++ [x])
  | Pop => Some (last l, removelast l)
  | Insert i x =>
      if decide (N.to_nat i <= length l)%nat
      then Some (None, take (N.to_nat i) l ++ x :: drop (N.to_nat i) l) else None
  | Remove i =>
      x ← l !! N.to_nat i; Some (Some x, take (N.to_nat i) l ++ drop (S (N.to_nat i)) l)
  | SwapRemove i => x ← l !! N.to_nat i; Some (Some x, swap_removed l (N.to_nat i))
  | Truncate n => Some (None, take (N.to_nat n) l)
  | Clear => Some (None, [])
  | Reserve _ | ReserveExact _ | ShrinkToFit | ShrinkTo _ => Some (None, l)
  | Resize n x => Some (None, resized l (Z.of_N n) (fun k => replicate k (clone x)))
  | ResizeWith n F call f =>
      Some (None, resized l (Z.of_N n) (fun k => fst (outputs call f k)))
  | ExtendFromSlice xs => Some (None, l ++ map clone xs)
  | Extend xs => Some (None, l ++ xs)
  | Index i => x ← l !! N.to_nat i; Some (Some x, l)
  | IndexMut i x =>
      if decide (N.to_nat i < length l)%nat
      then Some (None, <[N.to_nat i := x]> l) else None
  end.

(** The elements the operation makes room for. *)
Definition room (o : op T) (l : list T) : Z :=
  let n := Z.of_nat (length l) in
  match o with
  | Push _ | Insert _ _ => n + 1
  | Reserve k | ReserveExact k => n + Z.of_N k
  | Resize k _ | ResizeWith k _ _ _ => Z.of_N k
  | ExtendFromSlice xs | Extend xs => n + Z.of_nat (length xs)
  | _ => 0
  end.

Definition fits_op (o : op T) (l : list T) : Prop :=
  Z.max MIN_NON_ZERO_CAP (2 * room o l) * size_of (T := T) <= isize_max.

Hypothesis Hsize : 0 < size_of (T := T).
Hypothesis Hnd : needs_drop (T := T) = false.

Lemma fits_not_too_big o l n : fits_op o l -> n <= room o l -> too_big (T := T) n -> False.
Proof using Hsize.
  intros Hf Hn Hb. apply (too_big_mono Hsize _ _ Hn) in Hb. unfold too_big, fits_op in *. lia.
Qed.

(** A vector operation that returns nothing. *)
Lemma wp_quiet {A} (P : Prop) m (v : Vec A) (x : M T (Vec A)) l' :
  wp P x (becomes m v l') m ->
  wp P (v ← x; mret (@None T, v))
    (fun r m' => exists l'', Some (@None T, l') = Some (fst r, l'') /\
                             becomes m v l'' (snd r) m') m.
Proof.
  intros Hx. apply wp_bind. eapply wp_mono; [done | done |].
  intros v' m' Hv'. apply wp_ret. eauto.
Qed.

Lemma N_Z_to_nat (i : N) : Z.to_nat (Z.of_N i) = N.to_nat i.
Proof. lia. Qed.

(** [remove] at an index of the list. *)
Lemma wp_remove_at {A} m (v : Vec A) l i :
  mem_ok m -> owns m v l ->
  wp (l !! N.to_nat i = None) (VecOps.remove v (Z.of_N i))
    (fun r m' => l !! N.to_nat i = Some (fst r) /\
       becomes m v (take (N.to_nat i) l ++ drop (S (N.to_nat i)) l) (snd r) m') m.
Proof using Hsize.
  intros Hok Hown. destruct (l !! N.to_nat i) as [x|] eqn:Hx.
  - pose proof (take_drop_middle _ _ _ Hx) as Hl. apply lookup_lt_Some in Hx.
    rewrite <- Hl in Hown.
    replace (Z.of_N i) with (Z.of_nat (length (take (N.to_nat i) l)))
      by (rewrite length_take; lia).
    eapply wp_mono; [by apply (wp_remove Hsize (Some x = None)) | done |].
    intros r m' [-> Hb]. done.
  - apply lookup_ge_None in Hx. eapply wp_remove_panic; [done | lia | done].
Qed.

(** Each operation does on the vector what it does on the list, and panics exactly
    when the list operation does. *)
Lemma run_op_refines {A} m (v : Vec A) l o :
  mem_ok m -> owns m v l -> fits_op o l ->
  wp (list_op o l = None) (run_op o v)
    (fun r m' => exists l', list_op o l = Some (fst r, l') /\ becomes m v l' (snd r) m') m.
Proof using Hsize Hnd.
  intros Hok Hown Hf. pose proof Hown as (_ & _ & Hl & _).
  assert (isize_max < usize_max) by done.
  assert (forall n (P : Prop), n <= room o l -> too_big (T := T) n -> P) as Hroom
    by (intros; exfalso; by eapply fits_not_too_big).
  assert (forall k (P : Prop), len v + k <= room o l ->
    exhausted (T := T) (buf v) (len v) k -> P) as Hex.
  { intros k P Hk He%(exhausted_too_big Hsize). by apply (Hroom _ P Hk). }
  destruct o; cbn [run_op list_op room] in *.
  - apply wp_quiet, (wp_push Hsize Hnd); [done..|]. apply Hex. lia.
  - eapply wp_mono; [by apply (wp_pop Hsize) | done |].
    intros [r v'] m' [Hr Hb]. cbn in *. subst. eauto.
  - case_decide as Hi.
    + replace (N.to_nat i) with (Z.to_nat (Z.of_N i)) by lia.
      apply wp_quiet, (wp_insert Hsize Hnd); [done | done | lia | lia |]. apply Hex. lia.
    + apply wp_bind. eapply wp_insert_panic; [done | lia | done].
  - apply wp_bind. eapply wp_mono; [by apply wp_remove_at | by intros -> |].
    intros r m' [-> Hb]. apply wp_ret. cbn. eauto.
  - apply wp_bind. eapply wp_mono;
      [apply (wp_swap_remove Hsize Hnd (l !! N.to_nat i = None)); [done | done | lia |] | |].
    + intros. apply lookup_ge_None. lia.
    + by intros ->.
    + intros r m' [Hx Hb]. rewrite N_Z_to_nat in *. rewrite Hx. apply wp_ret. cbn. eauto.
  - replace (N.to_nat n) with (Z.to_nat (Z.of_N n)) by lia.
    apply wp_quiet, (wp_truncate Hsize Hnd); [done | done | lia].
  - apply wp_quiet. by apply (wp_truncate Hsize Hnd _ _ _ l 0).
  - apply wp_quiet. eapply (wp_vec_reserve Hsize); [done | done | lia | apply Hex; lia | done].
  - apply wp_quiet. eapply (wp_vec_reserve Hsize); [done | done | lia | apply Hex; lia | done].
  - apply wp_quiet. eapply wp_mono; [by apply (wp_shrink_to_fit Hsize) | done | by intros ?? [??]].
  - apply wp_quiet. eapply wp_mono;
      [apply (wp_shrink_to Hsize); [done | done | lia] | done | by intros ?? [??]].
  - apply wp_quiet, (wp_resize Hsize Hnd); [done | done | | apply Hroom; lia].
    unfold fits_op in Hf. cbn in Hf. nia.
  - apply wp_quiet, (wp_resize_with Hsize Hnd); [done | done | | apply Hroom; lia].
    unfold fits_op in Hf. cbn in Hf. nia.
  - apply wp_quiet, (wp_extend_from_slice Hsize Hnd); [done..|]. apply Hroom. lia.
  - apply wp_quiet, (wp_extend Hsize Hnd); [done..|]. apply Hroom. lia.
  - apply wp_bind. eapply wp_mono;
      [apply (wp_index Hsize (l !! N.to_nat i = None)); [done | lia |] | |].
    + intros. apply lookup_ge_None. lia.
    + by intros ->.
    + intros x m' [Hx ->]. rewrite N_Z_to_nat in Hx. rewrite Hx. apply wp_ret. cbn.
      eexists. split; [done|]. by apply becomes_refl.
  - case_decide as Hi.
    + apply wp_bind. eapply wp_mono;
        [apply (wp_index_mut Hsize Hnd); [done | done | lia | lia] | done |].
      intros u m' Hb. cbv beta in Hb. rewrite N_Z_to_nat in Hb. apply wp_ret. cbn. eauto.
    + apply wp_bind. eapply wp_index_mut_panic; [done | lia | done].
Qed.

End Programs.

(** ** Programs over several vectors *)

(** The statements of a program whose vectors are numbered in the order in which they are
    made; [other] of [AppendTo] is borrowed mutably, so it is not [i]. *)
Inductive vstmt (T : Type) : Type :=
| NewVec
| WithCapacity (n : N)
| On (i : nat) (o : op T)
| AppendTo (i other : nat)
| SplitOff (i : nat) (at_ : N).
Arguments NewVec {T}.
Arguments WithCapacity {T} n.
Arguments On {T} i o.
Arguments AppendTo {T} i other.
Arguments SplitOff {T} i at_.

Section Statements.
Context {T : Type} `{!Elem T} `{!Clone T}.
Implicit Types (m : mem T) (l : list T) (ls : list (list T)) (c : vstmt T).
Implicit Types (v : Vec RmcAllocator) (vs : list (Vec RmcAllocator)).

(** A name that is not bound yet is no program; both sides stop. *)
Definition the_vec vs (i : nat) : M T (Vec RmcAllocator) :=
  match vs !! i with Some v => mret v | None => panic end.

Definition run_stmt c vs : M T (option T * list (Vec RmcAllocator)) :=
  match c with
  | NewVec => v ← VecOps.new; mret (None, vs ++ [v])
  | WithCapacity n => v ← VecOps.with_capacity (Z.of_N n); mret (None, vs ++ [v])
  | On i o => v ← the_vec vs i; r ← run_op o v; mret (fst r, <[i := snd r]> vs)
  | AppendTo i other =>
      v ← the_vec vs i; w ← the_vec vs other;
      r ← VecOps.append v w; mret (None, <[other := snd r]> (<[i := fst r]> vs))
  | SplitOff i at_ =>
      v ← the_vec vs i;
      r ← VecOps.split_off v id (Z.of_N at_); mret (None, <[i := fst r]> vs ++ [snd r])
  end.

Definition list_stmt c ls : option (option T * list (list T)) :=
  match c with
  | NewVec | WithCapacity _ => Some (None, ls ++ [[]])
  | On i o => l ← ls !! i; r ← list_op o l; Some (fst r, <[i := snd r]> ls)
  | AppendTo i other =>
      l ← ls !! i; l' ← ls !! other; Some (None, <[other := []]> (<[i := l ++ l']> ls))
  | SplitOff i at_ =>
      l ← ls !! i;
      if decide (N.to_nat at_ <= length l)%nat
      then Some (None, <[i := take (N.to_nat at_) l]> ls ++ [drop (N.to_nat at_) l]) else None
  end.

(** There is memory for what the statement makes room for, and an appended vector is another
    one. *)
Definition fits_stmt c ls : Prop :=
  match c with
  | NewVec | SplitOff _ _ => True
  | WithCapacity n => Z.of_N n * size_of (T := T) <= isize_max
  | On i o => match ls !! i with Some l => fits_op o l | None => True end
  | AppendTo i other =>
      i <> other /\
      match ls !! i, ls !! other with
      | Some l, Some l' =>
          Z.max MIN_NON_ZERO_CAP (2 * Z.of_nat (length l + length l')) * size_of (T := T) <= isize_max
      | _, _ => True
      end
  end.

Fixpoint run_stmts (cs : list (vstmt T)) vs : M T (list (option T) * list (Vec RmcAllocator)) :=
  match cs with
  | [] => mret ([], vs)
  | c :: cs => r ← run_stmt c vs; rs ← run_stmts cs (snd r); mret (fst r :: fst rs, snd rs)
  end.

Fixpoint list_stmts (cs : list (vstmt T)) ls : option (list (option T) * list (list T)) :=
  match cs with
  | [] => Some ([], ls)
  | c :: cs => r ← list_stmt c ls; rs ← list_stmts cs (snd r); Some (fst r :: fst rs, snd rs)
  end.

Fixpoint fits (cs : list (vstmt T)) ls : Prop :=
  match cs with
  | [] => True
  | c :: cs => fits_stmt c ls /\ match list_stmt c ls with Some r => fits cs (snd r) | None => True end
  end.

(** The drop glue of local variables, in the order given *)
Fixpoint drop_vecs vs : M T unit :=
  match vs with
  | [] => mret tt
  | v :: vs => VecOps.drop_vec v ;; drop_vecs vs
  end.

(** A block of statements: its local variables are dropped at the end, in the reverse order of
    their declarations. *)
Definition vec_program (cs : list (vstmt T)) : M T (list (option T)) :=
  r ← run_stmts cs [];
  drop_vecs (reverse (snd r)) ;;
  mret (fst r).

(** *** The memory of a program: what was there before, and one block per vector *)

Definition block_of (p : Vec RmcAllocator * list T) : nat := blk (VecOps.vptr (fst p)).

Record state m0 (ps : list (Vec RmcAllocator * list T)) m : Prop := {
  st_ok : mem_ok m;
  st_owns : Forall (fun p => owns m (fst p) (snd p)) ps;
  st_apart : NoDup (block_of <$> ps);
  st_fresh : Forall (fun p => blocks m0 !! block_of p = None) ps;
  st_rest : forall b, b ∉ block_of <$> ps -> blocks m !! b = blocks m0 !! b;
  st_log : dropped m = dropped m0;
}.

Lemma state_perm m0 ps ps' m : ps ≡ₚ ps' -> state m0 ps m -> state m0 ps' m.
Proof.
  intros Hp [Ho Hw Ha Hf Hr Hd]. split; try done; try by rewrite <- Hp.
  intros b Hb. apply Hr. by rewrite Hp.
Qed.

Lemma owns_live m v l : owns m v l -> exists cells, blocks m !! blk (VecOps.vptr v) = Some cells.
Proof. intros (cells & (Hb & _) & _). eauto. Qed.

Lemma state_becomes m0 v l ps m v' l' m' :
  state m0 ((v, l) :: ps) m -> becomes m v l' v' m' -> state m0 ((v', l') :: ps) m'.
Proof.
  intros [Ho Hw Ha Hf Hr Hd] (Hown & Hmv & _).
  apply Forall_cons in Hw as [Hw Hws]. apply NoDup_cons in Ha as [Hni Hnd].
  apply Forall_cons in Hf as [Hf Hfs]. unfold block_of in Hf, Hni. cbn in *.
  assert (Hother : Forall (fun p => block_of p <> blk (VecOps.vptr v')) ps).
  { apply Forall_forall. intros p Hp Heq.
    pose proof (proj1 (Forall_forall _ _) Hws p Hp) as Hp'. apply owns_live in Hp' as [cells Hc].
    unfold block_of in Heq. destruct (mv_fresh _ _ _ _ Hmv) as [E|E]; [|congruence].
    apply Hni. apply list_elem_of_fmap. exists p. unfold block_of. split; [congruence | done]. }
  split.
  - apply Hmv.
  - constructor; [done|]. apply Forall_forall. intros p Hp. eapply owns_frame; [done| |].
    + by apply (proj1 (Forall_forall _ _) Hws).
    + intros E. apply Hni. apply list_elem_of_fmap. eauto.
  - cbn. constructor; [|done]. intros (p & E & Hp)%list_elem_of_fmap.
    by apply (proj1 (Forall_forall _ _) Hother p Hp).
  - constructor; [|done]. unfold block_of. cbn. destruct (mv_fresh _ _ _ _ Hmv) as [->|E]; [done|].
    rewrite <- Hr; [done|]. intros [Hin|Hin]%elem_of_cons.
    + apply owns_live in Hw as [c Hc]. unfold block_of in Hin. cbn in Hin. rewrite Hin in E. congruence.
    + apply list_elem_of_fmap in Hin as (p & E' & Hp).
      by apply (proj1 (Forall_forall _ _) Hother p Hp).
  - intros b [Hb Hbs]%not_elem_of_cons. unfold block_of in Hb. cbn in Hb.
    destruct (decide (b = blk (VecOps.vptr v))) as [->|Hne].
    + rewrite (mv_gone _ _ _ _ Hmv) by done. done.
    + rewrite (mv_rest _ _ _ _ Hmv) by done. apply Hr. by apply not_elem_of_cons.
  - rewrite (mv_log _ _ _ _ Hmv). done.
Qed.

(** A vector that keeps its buffer *)
Lemma state_keeps m0 v l ps m v' l' :
  state m0 ((v, l) :: ps) m -> owns m v' l' -> buf v' = buf v -> state m0 ((v', l') :: ps) m.
Proof.
  intros [Ho Hw Ha Hf Hr Hd] Hown Hb.
  assert (E : block_of (v', l') = block_of (v, l)) by (unfold block_of, VecOps.vptr; cbn; by rewrite Hb).
  apply Forall_cons in Hw as [_ Hws]. apply Forall_cons in Hf as [Hf Hfs].
  split; cbn [fmap list_fmap] in *; rewrite ?E; try done; constructor; [done..|by rewrite E|done].
Qed.

Lemma state_creates m0 ps m v l m' :
  state m0 ps m -> creates m l v m' -> state m0 ((v, l) :: ps) m'.
Proof.
  intros [Ho Hw Ha Hf Hr Hd] (Hown & Hal). pose proof Hal as (Hok & Hfr & Hrest & Hlog).
  assert (Hni : block_of (v, l) ∉ block_of <$> ps).
  { intros (p & E & Hp)%list_elem_of_fmap. pose proof (proj1 (Forall_forall _ _) Hw p Hp) as Hc.
    apply owns_live in Hc as [cells Hc]. unfold block_of in E. cbn in E. congruence. }
  split; try done.
  - constructor; [done|]. eapply Forall_impl; [exact Hw|]. intros p Hp. by eapply owns_allocated.
  - cbn. by constructor.
  - constructor; [|done]. rewrite <- Hr; [exact Hfr|done].
  - intros b [Hb Hbs]%not_elem_of_cons. rewrite Hrest by done. by apply Hr.
  - congruence.
Qed.

Lemma state_drop m0 v l ps m m' :
  state m0 ((v, l) :: ps) m ->
  blocks m' = delete (blk (VecOps.vptr v)) (blocks m) -> dropped m' = dropped m -> mem_ok m' ->
  state m0 ps m'.
Proof.
  intros [Ho Hw Ha Hf Hr Hd] Hb Hd' Hok. apply Forall_cons in Hw as [_ Hws].
  apply NoDup_cons in Ha as [Hni Hnd]. apply Forall_cons in Hf as [Hf Hfs].
  split; try done.
  - apply Forall_forall. intros p Hp.
    destruct (proj1 (Forall_forall _ _) Hws p Hp) as (cells & (Hc & Hrest) & Hl).
    exists cells. split; [|done]. split; [|done]. rewrite Hb, lookup_delete_ne; [done|].
    intros E. apply Hni. apply list_elem_of_fmap. exists p. split; [exact E | done].
  - intros b Hbs. rewrite Hb. destruct (decide (b = blk (VecOps.vptr v))) as [->|Hne].
    + rewrite lookup_delete_eq. symmetry. exact Hf.
    + rewrite lookup_delete_ne by done. apply Hr. by apply not_elem_of_cons.
  - congruence.
Qed.

Lemma insert_perm {B} (ps : list B) i p p' :
  ps !! i = Some p -> ps ≡ₚ p :: delete i ps /\ <[i := p']> ps ≡ₚ p' :: delete i ps.
Proof.
  intros Hi. split; [by apply delete_Permutation|].
  apply lookup_lt_Some in Hi. rewrite insert_take_drop, delete_take_drop by done.
  symmetry. apply Permutation_middle.
Qed.

(** Changing the entry of one vector *)
Lemma state_insert m0 ps i p p' m m' :
  state m0 ps m -> ps !! i = Some p ->
  (forall ps', state m0 (p :: ps') m -> state m0 (p' :: ps') m') ->
  state m0 (<[i := p']> ps) m'.
Proof.
  intros Hs Hi Hstep. destruct (insert_perm ps i p p' Hi) as [E1 E2].
  eapply state_perm; [symmetry; exact E2|]. apply Hstep. by eapply state_perm.
Qed.

(** *** Each statement does on the vectors what it does on the lists *)

Context (Hsize : 0 < size_of (T := T)) (Hnd : needs_drop (T := T) = false).

(** The vectors and lists of a state: *)
Definition stmt_post m0 c (ps : list (Vec RmcAllocator * list T))
    (r : option T * list (Vec RmcAllocator)) m' : Prop :=
  exists ps', list_stmt c ps.*2 = Some (fst r, ps'.*2) /\ snd r = ps'.*1 /\ state m0 ps' m'.

Lemma wp_the_vec {B} (P : Prop) ps i (f : Vec RmcAllocator -> M T B) Q m :
  (ps.*1 !! i = None -> P) ->
  (forall v l, ps !! i = Some (v, l) -> wp P (f v) Q m) ->
  wp P (v ← the_vec ps.*1 i; f v) Q m.
Proof.
  intros HP Hf. unfold the_vec. rewrite list_lookup_fmap in *.
  destruct (ps !! i) as [[v l]|] eqn:E; cbn in *; [by eapply Hf | by apply HP].
Qed.

Lemma run_stmt_refines m0 c ps m :
  DEFAULT_CAPACITY * size_of (T := T) <= isize_max ->
  state m0 ps m -> fits_stmt c ps.*2 ->
  wp (list_stmt c ps.*2 = None) (run_stmt c ps.*1) (stmt_post m0 c ps) m.
Proof using Hsize Hnd.
  intros Hcap Hs Hf. pose proof (st_ok _ _ _ Hs) as Hok.
  assert (Hnew : forall v m', creates m [] v m' -> state m0 (ps ++ [(v, [])]) m').
  { intros v m' Hc. eapply state_perm; [apply Permutation_cons_append|]. by eapply state_creates. }
  assert (Hhead : forall i v l, ps !! i = Some (v, l) -> owns m v l).
  { intros i v l Hi. by apply (Forall_lookup_1 _ _ _ _ (st_owns _ _ _ Hs) Hi). }
  destruct c as [|n|i o|i j|i at_]; cbn [run_stmt list_stmt fits_stmt] in *.
  - apply wp_bind. eapply wp_mono; [by apply (wp_new Hsize) | done |]. intros v m' [Hc _].
    apply wp_ret. exists (ps ++ [(v, [])]). rewrite !fmap_app. auto.
  - apply wp_bind. eapply wp_mono; [apply (wp_with_capacity_in Hsize); [done | lia | done] | done |].
    intros v m' (Hc & _). apply wp_ret. exists (ps ++ [(v, [])]). rewrite !fmap_app. auto.
  - apply wp_the_vec; [rewrite !list_lookup_fmap; by destruct (ps !! i)|]. intros v l Hi.
    assert (Hl : ps.*2 !! i = Some l) by by rewrite list_lookup_fmap, Hi.
    unfold stmt_post. cbn [list_stmt]. rewrite Hl in *. cbn in *. apply wp_bind.
    eapply wp_mono; [apply (run_op_refines Hsize Hnd); [done | by eapply Hhead | done] | by intros -> |].
    intros r m' (l' & -> & Hb). apply wp_ret. exists (<[i := (snd r, l')]> ps).
    rewrite !list_fmap_insert. split; [done|]. split; [done|].
    eapply state_insert; [done..|]. intros ps' Hps'. by eapply state_becomes.
  - destruct Hf as [Hij Hf]. apply wp_the_vec; [rewrite !list_lookup_fmap; by destruct (ps !! i)|].
    intros v l Hi. assert (Hl : ps.*2 !! i = Some l) by by rewrite list_lookup_fmap, Hi.
    apply wp_the_vec; [rewrite !list_lookup_fmap, Hi; by destruct (ps !! j)|]. intros w lw Hj.
    assert (Hl' : ps.*2 !! j = Some lw) by by rewrite list_lookup_fmap, Hj.
    unfold stmt_post. cbn [list_stmt]. rewrite Hl, Hl' in *. cbn in *. apply wp_bind.
    pose proof (Hhead _ _ _ Hi) as Hv. pose proof (Hhead _ _ _ Hj) as Hw.
    eapply wp_mono; [apply (wp_append Hsize (too_big (T := T) (Z.of_nat (length l + length lw))));
                     [done | done | done | |] | |].
    + intros E. apply Hij. eapply (NoDup_lookup _ _ _ _ (st_apart _ _ _ Hs));
        rewrite list_lookup_fmap; [by rewrite Hi | rewrite Hj; cbn; f_equal; by symmetry].
    + destruct Hv as (_ & _ & -> & _), Hw as (_ & _ & -> & _). rewrite Nat2Z.inj_add.
      by apply (exhausted_too_big Hsize).
    + unfold too_big. lia.
    + intros r m' (Hb & Hown & Hbuf). apply wp_ret.
      exists (<[j := (snd r, [])]> (<[i := (fst r, l ++ lw)]> ps)).
      rewrite !list_fmap_insert. split; [done|]. split; [done|].
      eapply state_insert.
      * eapply state_insert; [done | done |]. intros ps' Hps'. by eapply state_becomes.
      * by rewrite list_lookup_insert_ne.
      * intros ps' Hps'. by eapply state_keeps.
  - apply wp_the_vec; [rewrite !list_lookup_fmap; by destruct (ps !! i)|]. intros v l Hi.
    assert (Hl : ps.*2 !! i = Some l) by by rewrite list_lookup_fmap, Hi.
    unfold stmt_post. cbn [list_stmt]. rewrite Hl in *. cbn in *.
    pose proof (Hhead _ _ _ Hi) as Hv. apply wp_bind.
    case_decide as Hat.
    + rewrite <- (take_drop (N.to_nat at_) l) in Hv.
      replace (Z.of_N at_) with (Z.of_nat (length (take (N.to_nat at_) l))) by (rewrite length_take; lia).
      eapply wp_mono; [by apply (wp_split_off Hsize) | done |].
      intros r m' (Hown & Hbuf & Hc). apply wp_ret.
      exists (<[i := (fst r, take (N.to_nat at_) l)]> ps ++ [(snd r, drop (N.to_nat at_) l)]).
      rewrite !fmap_app, !list_fmap_insert. split; [done|]. split; [done|].
      eapply state_perm; [apply Permutation_cons_append|].
      assert (Hcr : state m0 ((snd r, drop (N.to_nat at_) l) :: ps) m') by by eapply state_creates.
      apply (state_insert _ (_ :: ps) (S i) (v, l) (fst r, take (N.to_nat at_) l) m' m' Hcr Hi).
      intros ps' Hps'. by eapply state_keeps.
    + unfold VecOps.split_off. apply wp_bind, wp_assert; [done|]. rewrite Z.leb_le.
      destruct Hv as (_ & _ & -> & _). lia.
Qed.

Lemma run_stmts_refines m0 cs : forall ps m,
  DEFAULT_CAPACITY * size_of (T := T) <= isize_max ->
  state m0 ps m -> fits cs ps.*2 ->
  wp (list_stmts cs ps.*2 = None) (run_stmts cs ps.*1)
    (fun r m' => exists ps', list_stmts cs ps.*2 = Some (fst r, ps'.*2) /\ snd r = ps'.*1
                             /\ state m0 ps' m') m.
Proof using Hsize Hnd.
  induction cs as [|c cs IH]; intros ps m Hcap Hs Hf; cbn in *.
  - exists ps. auto.
  - destruct Hf as [Hf Hrest]. apply wp_bind.
    eapply wp_mono; [by apply run_stmt_refines | by intros -> |].
    intros r m' (ps1 & Hl & Hr & Hs1). rewrite Hl in *. cbn in *. rewrite Hr. apply wp_bind.
    eapply wp_mono; [by apply IH | by intros -> |].
    intros rs m2 (ps2 & -> & Hr2 & Hs2). apply wp_ret. cbn. eauto.
Qed.

Lemma wp_drop_vecs P m0 ps : forall m,
  state m0 ps m -> wp P (drop_vecs ps.*1) (fun _ m' => state m0 [] m') m.
Proof.
  induction ps as [|[v l] ps IH]; intros m Hs; cbn.
  - by apply wp_ret.
  - apply wp_bind. eapply wp_mono;
      [apply (wp_drop_vec P _ _ l); [apply Hs | exact (Forall_inv (st_owns _ _ _ Hs))] | done |].
    intros _ m' (Hb & Hd & Hok). apply IH. by eapply state_drop.
Qed.

(** C13. Every program over the vector abstraction (vectors that are made, changed by any of
    the operations of [op], appended to one another and split), on an element type of positive
    size without drop glue and within the address space, gives exactly the results of the same
    program over lists, panicking exactly when that one does; it never reaches undefined
    behaviour, and when it returns the memory is as it was before. *)
Theorem rmc_vec_refines_list cs m :
  mem_ok m -> DEFAULT_CAPACITY * size_of (T := T) <= isize_max -> fits cs [] ->
  match vec_program cs m with
  | Returns (rs, m') => fst <$> list_stmts cs [] = Some rs /\
                        blocks m' = blocks m /\ dropped m' = dropped m
  | Panics => list_stmts cs [] = None
  | Undefined => False
  end.
Proof using Hsize Hnd.
  intros Hok Hcap Hf.
  enough (wp (list_stmts cs [] = None) (vec_program cs)
    (fun rs m' => fst <$> list_stmts cs [] = Some rs /\ blocks m' = blocks m /\
                  dropped m' = dropped m) m) as H.
  { unfold wp in H. by destruct (vec_program cs m) as [[rs m']| |]. }
  assert (Hs : state m [] m) by (split; try done; constructor).
  unfold vec_program. apply wp_bind.
  eapply wp_mono; [by apply (run_stmts_refines m cs []) | done |].
  intros r m1 (ps & Hl & Hr & Hs1). cbn in Hl. rewrite Hl, Hr, <- fmap_reverse. apply wp_bind.
  eapply wp_mono; [apply (wp_drop_vecs _ m (reverse ps)) | done |].
  - eapply state_perm; [symmetry; apply reverse_Permutation | done].
  - intros _ m2 [_ _ _ _ Hrest Hlog]. apply wp_ret. split; [done|]. split; [|done].
    apply map_eq. intros b. apply Hrest. apply not_elem_of_nil.
Qed.

End Statements.

(** Two vectors of [u32]: insertions, removals, resizes and a reservation, one split off, and
    the other appended to it. *)
Definition evens (k : Z) : Z * Z := (k, k + 2).
Definition sample_program : list (vstmt Z) :=
  [NewVec; On 0 (Push 1); On 0 (Push 2); On 0 (Insert 1 7); On 0 (Remove 0); On 0 (Resize 4 9);
   On 0 (SwapRemove 0); On 0 (ReserveExact 2000); On 0 ShrinkToFit; On 0 (ResizeWith 6 Z evens 10);
   SplitOff 0 2; AppendTo 1 0; On 1 Pop; On 0 Pop; On 1 (Index 1)].

Lemma rmc_vec_refines_list_witness :
  let _ := u32_elem in let _ := u32_clone in
  match vec_program sample_program empty_mem with
  | Returns (rs, m') =>
      fst <$> list_stmts sample_program [] = Some rs /\ blocks m' = ∅ /\ dropped m' = []
  | Panics => list_stmts sample_program [] = None
  | Undefined => False
  end.
Proof.
  intros E C. apply (rmc_vec_refines_list (T := Z) (Elem0 := E) (Clone0 := C)).
  - reflexivity.
  - reflexivity.
  - intros b _. apply lookup_empty.
  - vm_compute. discriminate.
  - repeat split; vm_compute; discriminate.
Defined.

(** What that program returns. *)
Example sample_results :
  list_stmts (Clone0 := u32_clone) sample_program [] =
  Some ([None; None; None; None; Some 1; None; Some 7; None; None; None; None; None; Some 2; None; Some 10],
        [[]; [9; 10; 12; 14; 9]]).
Proof. reflexivity. Qed.
