(* ===== verification/RmcVecTraits.v ===== *)
(** * Trait implementations of the vector abstraction

    [Clone], [PartialEq], the conversions from and to slices and arrays, the
    [rmc_vec!] macro and the owning iterator of [rmc_vec.rs], against lists; then the
    limits of the abstraction: what [from_iter] does with long iterators,
    [from_raw_parts] with small alignments, and the assignments of [push], [insert]
    and [swap_remove] with values that have a destructor. *)

From stdpp Require Import base gmap list numbers.
From S2P Require Import Prelude RawMemory RmcVec RmcVecSpec RmcVecProgram.

#[local] Open Scope Z_scope.

Section Traits.
Context {T : Type} `{!Elem T} {A : Type}.
Hypothesis Hsize : 0 < size_of (T := T).
Hypothesis Hnd : needs_drop (T := T) = false.
Implicit Types (m : mem T) (v w : Vec A) (l : list T) (x : T).

(** [clone]: a new vector with the clones, the old one untouched. *)
Lemma wp_clone `{!Clone T} P m v l (ca : A -> A) :
  mem_ok m -> owns m v l ->
  wp P (VecOps.vec_clone v ca)
    (fun w m' => creates m (map clone l) w m' /\ owns m' v l /\ apart v w) m.
Proof using Hsize Hnd.
  intros Hok Hown. pose proof (owns_bounds Hsize _ _ _ Hown) as Hbd.
  pose proof Hown as (cells & Hbuf & Hl & _). pose proof Hbuf as (Hb & _ & _ & Hbytes).
  unfold VecOps.vec_clone. apply wp_bind.
  eapply wp_mono; [apply (wp_with_capacity_in Hsize P); [done | lia | nia] | done |].
  intros w m1 (Hc & Hcap & _).
  set (I := fun (j : Z) w' m' =>
    creates m (map clone (take (Z.to_nat j) l)) w' m' /\ buf w' = buf w).
  eapply wp_mono; [apply (wp_for_range P I) with (i := 0) | done |].
  - unfold I. by rewrite take_0.
  - intros j w' m' Hj [Hc' Hbw]. pose proof Hc' as (Hw' & Hal').
    pose proof (owns_allocated _ _ _ _ _ Hal' Hown) as Hown'.
    apply wp_bind. eapply wp_mono;
      [apply (wp_index Hsize P _ _ l); [done | lia | lia] | done |].
    intros x m'' [Hx ->]. eapply wp_mono;
      [apply (wp_push_unsafe Hsize Hnd P); [apply Hal' | done |] | done |].
    + destruct Hw' as (_ & _ & -> & _). rewrite length_map, length_take, Hbw. lia.
    + intros w'' m'' [Hbc Hb'']. split; [|congruence].
      replace (Z.to_nat (j + 1)) with (S (Z.to_nat j)) by lia.
      rewrite (take_S_r _ _ _ Hx), map_app. by eapply creates_becomes.
  - intros w' m' [Hc' _]. rewrite Hl, Z.add_0_l, Nat2Z.id, take_ge in Hc' by lia.
    pose proof Hc' as (_ & Hal'). split; [done|]. split; [by eapply owns_allocated|].
    unfold apart. destruct Hal' as (_ & Hfr & _). unfold VecOps.vptr in *. congruence.
Qed.

(** [PartialEq]: the elements compared one by one up to the first difference. *)
Lemma wp_eq_loop P (neqb : T -> T -> bool) m v w l lw n :
  owns m v l -> owns m w lw -> length l = length lw -> (n <= length l)%nat ->
  wp P (VecOps.eq_loop neqb v w n (Z.of_nat (length l - n)))
    (fun b m' => m' = m /\
       b = forallb2 (fun x y => negb (neqb x y)) (drop (length l - n) l) (drop (length l - n) lw))
    m.
Proof using Hsize.
  intros Hv Hw Hlen. induction n as [|n IH]; intros Hn; cbn.
  - rewrite Nat.sub_0_r, !drop_ge by lia. done.
  - set (i := (length l - S n)%nat). apply wp_bind.
    eapply wp_mono; [apply (wp_index Hsize P _ _ l); [done | lia | lia] | done |].
    intros x m' [Hx ->]. apply wp_bind.
    eapply wp_mono; [apply (wp_index Hsize P _ _ lw); [done | lia | lia] | done |].
    intros y m' [Hy ->]. rewrite Nat2Z.id in Hx, Hy.
    rewrite (drop_S _ _ _ Hx), (drop_S _ _ _ Hy). cbn. destruct (neqb x y); [done|].
    replace (Z.of_nat i + 1) with (Z.of_nat (length l - n)) by (unfold i; lia).
    replace (S i) with (length l - n)%nat by (unfold i; lia). apply IH. lia.
Qed.

Lemma wp_eq P (neqb : T -> T -> bool) m v w l lw :
  owns m v l -> owns m w lw ->
  wp P (VecOps.eq neqb v w)
    (fun b m' => m' = m /\ b = forallb2 (fun x y => negb (neqb x y)) l lw) m.
Proof using Hsize.
  intros Hv Hw. pose proof Hv as (_ & _ & Hl & _). pose proof Hw as (_ & _ & Hlw & _).
  unfold VecOps.eq. rewrite Hl, Hlw. destruct (Z.eqb_spec (Z.of_nat (length l)) (Z.of_nat (length lw))).
  - cbn. rewrite Nat2Z.id. replace 0 with (Z.of_nat (length l - length l)) by lia.
    eapply wp_mono; [apply (wp_eq_loop P neqb m v w l lw); [done | done | lia | lia] | done |].
    intros b m' [-> ->]. by rewrite Nat.sub_diag, !drop_0.
  - split; [done|]. symmetry. apply not_true_iff_false. intros E%forallb2_Forall2%Forall2_length.
    lia.
Qed.

(** Reading an array out of the buffer. *)
Lemma wp_read_array P m v l (i n : nat) :
  owns m v l -> (i + n <= length l)%nat ->
  wp P (VecOps.read_array (VecOps.vptr v) (Z.of_nat i) n)
    (fun a m' => m' = m /\ a = take n (drop i l)) m.
Proof using Hsize.
  intros Hown. pose proof (owns_bounds Hsize _ _ _ Hown) as Hbd.
  pose proof Hown as (_ & _ & Hl & _).
  revert i. induction n as [|n IH]; intros i Hi; cbn [VecOps.read_array]; [by rewrite take_0|].
  destruct (lookup_lt_is_Some_2 l i) as [x Hx]; [lia|].
  destruct (owns_lookup _ _ _ _ _ Hown Hx) as (cells & Hbuf & Hc).
  apply wp_bind. eapply (wp_offset Hsize); [apply Hbuf | apply Hbuf | |].
  { destruct Hbuf as (_ & _ & Hlen & _). lia. }
  apply wp_bind. eapply (wp_read Hsize); [apply Hbuf | lia | by rewrite Nat2Z.id |].
  apply wp_bind. replace (Z.of_nat i + 1) with (Z.of_nat (S i)) by lia.
  eapply wp_mono; [apply (IH (S i)); lia | done |].
  intros a m' [-> ->]. apply wp_ret. split; [done|]. by rewrite (drop_S _ _ _ Hx).
Qed.

(** [TryFrom]: the array of the elements when the lengths agree, and then the buffer
    is freed; else the vector back. *)
Lemma wp_try_from P m v l N :
  mem_ok m -> owns m v l -> 0 <= N ->
  wp P (VecOps.try_from N v)
    (fun r m' => if decide (N = Z.of_nat (length l))
                 then r = inl l /\ blocks m' = delete (blk (VecOps.vptr v)) (blocks m) /\
                      dropped m' = dropped m
                 else r = inr v /\ m' = m) m.
Proof using Hsize.
  intros Hok Hown HN. pose proof (owns_bounds Hsize _ _ _ Hown) as Hbd.
  pose proof Hown as (_ & _ & Hl & _). unfold VecOps.try_from. rewrite Hl.
  destruct (Z.eqb_spec (Z.of_nat (length l)) N); cbn [negb].
  - subst N. apply wp_bind, wp_set_len; [lia|].
    apply wp_bind. eapply wp_mono; [apply (wp_read_array P m v l 0); [done | lia] | done |].
    intros a m' [-> ->]. rewrite Nat2Z.id, drop_0, take_ge by lia. apply wp_bind.
    eapply wp_mono; [by apply (wp_drop_vec P m v l) | done |].
    intros _ m' (Hb & Hd & _). apply wp_ret. by rewrite decide_True.
  - apply wp_ret. by rewrite decide_False.
Qed.

(** *** The owning iterator *)

(** The iterator has the elements [l] left, between its two pointers. *)
Definition iter_at m (it : RmcRawValIter) (b : nat) l : Prop :=
  exists pre post, blocks m !! b = Some (pre ++ (Some <$> l) ++ post) /\
    start it = at_cell (T := T) b (Z.of_nat (length pre)) /\
    end_ it = at_cell (T := T) b (Z.of_nat (length pre + length l)).

Lemma at_cell_inj b i j : at_cell (T := T) b i = at_cell (T := T) b j -> i = j.
Proof using Hsize. intros [= E]. nia. Qed.

Lemma iter_at_empty m it b l : iter_at m it b l -> bool_decide (start it = end_ it) = bool_decide (l = []).
Proof using Hsize.
  intros (pre & post & _ & -> & ->). apply bool_decide_ext. split.
  - intros E%at_cell_inj. apply nil_length_inv. lia.
  - intros ->. by rewrite Nat.add_0_r.
Qed.

Lemma size_eqb : (size_of (T := T) =? 0) = false.
Proof using Hsize. apply Z.eqb_neq. lia. Qed.

Lemma wp_raw_next P m it b l :
  iter_at m it b l ->
  wp P (Iter.raw_next it)
    (fun r m' => m' = m /\ fst r = head l /\ iter_at m (snd r) b (tail l)) m.
Proof using Hsize.
  intros Hit. unfold Iter.raw_next. rewrite (iter_at_empty _ _ _ _ Hit).
  destruct l as [|x l]; [by apply wp_ret|]. rewrite bool_decide_eq_false_2 by done.
  destruct Hit as (pre & post & Hb & Hs & He). rewrite size_eqb, Hs, He. cbn in *.
  apply wp_bind. eapply (wp_read Hsize); [done | lia | |].
  { rewrite Nat2Z.id, lookup_app_r by done. by rewrite Nat.sub_diag. }
  apply wp_bind. eapply (wp_offset_cell Hsize); [done | length_lia |].
  apply wp_ret. split; [done|]. split; [done|]. exists (pre ++ [Some x]), post. cbn.
  rewrite <- app_assoc. split; [done|]. split; f_equal; length_lia.
Qed.

Lemma wp_raw_next_back P m it b l :
  iter_at m it b l ->
  wp P (Iter.raw_next_back it)
    (fun r m' => m' = m /\ fst r = last l /\ iter_at m (snd r) b (removelast l)) m.
Proof using Hsize.
  intros Hit. unfold Iter.raw_next_back. rewrite (iter_at_empty _ _ _ _ Hit).
  destruct l as [|x l _] using rev_ind; [by apply wp_ret|].
  rewrite bool_decide_eq_false_2 by (by destruct l).
  destruct Hit as (pre & post & Hb & Hs & He). rewrite size_eqb, Hs, He.
  rewrite fmap_app, <- app_assoc in Hb. cbn in Hb.
  apply wp_bind. eapply (wp_offset_cell Hsize); [done | length_lia |].
  replace (Z.of_nat (length pre + length (l ++ [x])) + -1)
    with (Z.of_nat (length (pre ++ (Some <$> l)))) by length_lia.
  apply wp_bind. eapply (wp_read Hsize); [done | lia | |].
  { by rewrite Nat2Z.id, app_assoc, list_lookup_middle. }
  apply wp_ret. rewrite last_snoc, removelast_last. split; [done|]. split; [done|].
  exists pre, (Some x :: post). split; [done|]. split; [done|]. cbn. f_equal. length_lia.
Qed.

(** The two ends of a list. *)
Inductive pull := Front | Back.

Fixpoint list_pulls (ps : list pull) l : list (option T) :=
  match ps with
  | [] => []
  | Front :: ps => head l :: list_pulls ps (tail l)
  | Back :: ps => last l :: list_pulls ps (removelast l)
  end.

Fixpoint run_pulls (ps : list pull) (it : RmcIntoIter) : M T (list (option T) * RmcIntoIter) :=
  match ps with
  | [] => mret ([], it)
  | p :: ps =>
      r ← (match p with Front => Iter.next it | Back => Iter.next_back it end);
      rs ← run_pulls ps (snd r);
      mret (fst r :: fst rs, snd rs)
  end.

Lemma wp_run_pulls P m ps it b l :
  iter_at m (iter it) b l ->
  wp P (run_pulls ps it)
    (fun r m' => m' = m /\ fst r = list_pulls ps l /\ iter_buf (snd r) = iter_buf it) m.
Proof using Hsize.
  revert it l. induction ps as [|p ps IH]; intros it l Hit; cbn [run_pulls list_pulls]; [done|].
  apply wp_bind. destruct p; unfold Iter.next, Iter.next_back; apply wp_bind;
    (eapply wp_mono; [by (eapply wp_raw_next || eapply wp_raw_next_back) | done |]);
    intros [x it'] m' (-> & -> & Hit'); apply wp_ret, wp_bind;
    (eapply wp_mono; [by eapply IH | done |]);
    intros [xs it''] m' (-> & -> & Hb); by apply wp_ret.
Qed.

(** [into_iter]: the iterator over all the elements, with the vector's buffer. *)
Lemma wp_into_iter P m v l :
  owns m v l ->
  wp P (Iter.into_iter v)
    (fun it m' => m' = m /\ iter_buf it = buf v /\ iter_at m (iter it) (blk (VecOps.vptr v)) l) m.
Proof using Hsize.
  intros Hown. pose proof (owns_bounds Hsize _ _ _ Hown) as Hbd.
  destruct (owns_split _ _ _ Hown) as (rest & Hbuf & Hl & Hr).
  pose proof Hbuf as (Hb & Ho & _).
  unfold Iter.into_iter, Iter.raw_new. do 2 apply wp_bind. cbn. rewrite size_eqb.
  destruct (Z.eqb_spec (len v) 0) as [E|E].
  - unfold wp, mret, M_ret. split; [done|]. split; [done|]. exists [], rest.
    split; [done|]. split; [by apply (at_cell_vptr m v l)|].
    assert (l = []) as -> by (apply nil_length_inv; lia). by apply (at_cell_vptr m v []).
  - rewrite as_isize_small by lia. eapply (wp_offset Hsize); [done | done | length_lia |].
    unfold wp, mret, M_ret. split; [done|]. split; [done|]. exists [], rest.
    split; [done|]. split; [by apply (at_cell_vptr m v l)|]. cbn. f_equal. lia.
Qed.

End Traits.

(** ** Whole uses of the conversions *)

Section Conversions.
Context {T : Type} `{!Elem T}.
Hypothesis Hsize : 0 < size_of (T := T).
Hypothesis Hnd : needs_drop (T := T) = false.
Implicit Types (m : mem T) (l : list T) (x : T).

(** [with_capacity] and then as many elements as it was asked for. *)
Lemma wp_from_map {E} P (f : E -> T) xs m :
  mem_ok m -> Z.of_nat (length xs) * size_of (T := T) <= isize_max ->
  wp P (v ← VecOps.with_capacity (Z.of_nat (length xs));
        for_each xs (fun e v => VecOps.push_unsafe v (f e)) v)
    (fun v m' => creates m (map f xs) v m' /\ cap (buf v) = Z.of_nat (length xs)) m.
Proof using Hsize Hnd.
  intros Hok Hb. apply wp_bind.
  eapply wp_mono; [apply (wp_with_capacity_in Hsize P); [done | lia | done] | done |].
  intros v m' (Hc & Hcap & _). pose proof Hc as ((cells & Hbuf & Hl & Ht) & Hal).
  eapply wp_mono; [apply (wp_fill Hsize Hnd P f xs m' v []); [apply Hc | apply Hc |] | done |].
  - rewrite Hl, Hcap. cbn. lia.
  - intros v' m'' [Hb' Hbuf']. split; [by eapply creates_becomes | congruence].
Qed.

Lemma wp_from_array P xs m :
  mem_ok m -> Z.of_nat (length xs) * size_of (T := T) <= isize_max ->
  wp P (VecOps.from_array xs)
    (fun v m' => creates m xs v m' /\ cap (buf v) = Z.of_nat (length xs)) m.
Proof using Hsize Hnd.
  intros Hok Hb. eapply wp_mono; [by apply (wp_from_map P (fun x => x)) | done |].
  intros v m'. by rewrite map_id.
Qed.

(** Turning an array into a vector ([From<[T; N]>]) and back ([TryFrom]) gives the
    array, and gives back the memory of the buffer; with any other length the vector
    itself is returned as the error. *)
Theorem array_vec_roundtrip xs (N : Z) m :
  mem_ok m -> Z.of_nat (length xs) * size_of (T := T) <= isize_max -> 0 <= N ->
  exists r m', (v ← VecOps.from_array xs; r ← VecOps.try_from N v; mret r) m = Returns (r, m') /\
    if decide (N = Z.of_nat (length xs))
    then r = inl xs /\ blocks m' = blocks m /\ dropped m' = dropped m
    else exists v, r = inr v /\ owns m' v xs.
Proof using Hsize Hnd.
  intros Hok Hb HN. apply wp_returns. apply wp_bind.
  eapply wp_mono; [by apply (wp_from_array False) | done |].
  intros v m1 [Hc _]. pose proof Hc as (Hown & Hok1 & Hf & Hrest & Hd). apply wp_bind.
  eapply wp_mono; [by apply (wp_try_from Hsize False m1 v xs) | done |].
  intros r m2 Hr. apply wp_ret. case_decide.
  - destruct Hr as (-> & -> & ->). split; [done|]. split; [|done]. apply map_eq. intros c.
    destruct (decide (c = blk (VecOps.vptr v))) as [->|Hne].
    + by rewrite lookup_delete_eq, Hf.
    + by rewrite lookup_delete_ne, Hrest.
  - destruct Hr as [-> ->]. eauto.
Qed.

(** A vector turned into an iterator yields its elements from either end, in any
    interleaving of [next] and [next_back], each exactly once and then [None] for
    ever; dropping the iterator frees the vector's buffer. *)
Theorem into_iter_double_ended (ps : list pull) xs m :
  mem_ok m -> Z.of_nat (length xs) * size_of (T := T) <= isize_max ->
  exists m', (v ← VecOps.from_array xs; it ← Iter.into_iter v; r ← run_pulls ps it;
              Iter.drop_into_iter (snd r) ;; mret (fst r)) m
             = Returns (list_pulls ps xs, m') /\
    blocks m' = blocks m /\ dropped m' = dropped m.
Proof using Hsize Hnd.
  intros Hok Hb.
  enough (wp False (v ← VecOps.from_array xs; it ← Iter.into_iter v; r ← run_pulls ps it;
              Iter.drop_into_iter (snd r) ;; mret (fst r))
    (fun rs m' => rs = list_pulls ps xs /\ blocks m' = blocks m /\ dropped m' = dropped m) m)
    as H by (apply wp_returns in H as (rs & m' & E & -> & H); eauto).
  apply wp_bind. eapply wp_mono; [by apply (wp_from_array False) | done |].
  intros v m1 [Hc _]. apply wp_bind. eapply wp_mono; [by apply (wp_into_iter Hsize False m1 v xs), Hc | done |].
  intros it m' (-> & Hbuf & Hit). apply wp_bind.
  eapply wp_mono; [by eapply (wp_run_pulls Hsize False) | done |].
  intros [rs it'] m' (-> & -> & Hbuf'). apply wp_bind. cbn in *.
  unfold Iter.drop_into_iter. rewrite Hbuf', Hbuf.
  eapply wp_mono; [by apply (wp_drop_created False m xs v) | done |].
  intros _ m' [? ?]. done.
Qed.

(** [rmc_vec![x1, x2, ...]] *)
Lemma wp_rmc_vec_list (P : Prop) xs m :
  mem_ok m -> DEFAULT_CAPACITY * size_of (T := T) <= isize_max ->
  (too_big (T := T) (Z.of_nat (length xs)) -> P) ->
  wp P (VecOps.rmc_vec_list xs) (creates m xs) m.
Proof using Hsize Hnd.
  intros Hok Hb HP. unfold VecOps.rmc_vec_list. apply wp_bind.
  eapply wp_mono; [by apply (wp_new Hsize) | done |]. intros v m' [Hc _].
  eapply wp_mono; [by apply (wp_extend Hsize Hnd P m' v [] xs); [apply Hc.. |] | done |].
  intros v' m'' Hb'. by eapply creates_becomes.
Qed.

(** [rmc_vec![val; count]] *)
Lemma wp_rmc_vec_repeat (P : Prop) x count m :
  mem_ok m -> 0 <= count -> count * size_of (T := T) <= isize_max ->
  (too_big (T := T) count -> P) ->
  wp P (VecOps.rmc_vec_repeat x count) (creates m (replicate (Z.to_nat count) x)) m.
Proof using Hsize Hnd.
  intros Hok Hn Hb HP. unfold VecOps.rmc_vec_repeat. apply wp_bind.
  eapply wp_mono; [by apply (wp_with_capacity_in Hsize P) | done |]. intros v m' (Hc & _).
  eapply wp_mono; [apply (wp_for_range P (fun j v' m' => creates m (replicate (Z.to_nat j) x) v' m'))
                  | done |].
  - done.
  - intros j v' mj Hj Hv'. pose proof Hv' as (Hown & Hal). pose proof Hown as (_ & _ & Hl & _).
    eapply wp_mono; [apply (wp_push Hsize Hnd P); [apply Hal | done |] | done |].
    + intros He%(exhausted_too_big Hsize). apply HP. eapply (too_big_mono Hsize); [|done].
      rewrite Hl, length_replicate. lia.
    + intros v'' m'' Hb''. replace (Z.to_nat (j + 1)) with (S (Z.to_nat j)) by lia.
      cbn [replicate]. rewrite replicate_cons_app. by eapply creates_becomes.
  - intros v' m''. by rewrite Z.add_0_l, Z2Nat.id.
Qed.

End Conversions.

(** ** Limits *)

Section Limits.
Context {T : Type} `{!Elem T}.
Hypothesis Hsize : 0 < size_of (T := T).
Implicit Types (m : mem T) (l : list T) (x : T).

Lemma for_each_app {A E} (xs ys : list E) (body : E -> A -> M T A) a m :
  for_each (xs ++ ys) body a m =
  match for_each xs body a m with
  | Returns (a', m') => for_each ys body a' m'
  | Panics => Panics
  | Undefined => Undefined
  end.
Proof.
  revert a m. induction xs as [|x xs IH]; intros a m; cbn; [done|].
  unfold mbind, M_bind. destruct (body x a m) as [[a' m']| |]; [apply IH | done | done].
Qed.

(** Assigning to a cell outside of the block is undefined. *)
Lemma assign_past b cells i x m :
  blocks m !! b = Some cells -> Z.of_nat (length cells) <= i ->
  assign (at_cell b i) x m = Undefined.
Proof using Hsize.
  intros Hb Hi. assert (cells !! Z.to_nat i = None) as Hnone by (apply lookup_ge_None; lia).
  unfold assign, drop_in_place, mbind, M_bind, read, write.
  destruct needs_drop; cbn [blk at_cell]; rewrite Hb, (cell_index_mul Hsize) by lia.
  - by rewrite Hnone.
  - by rewrite bool_decide_eq_false_2 by lia.
Qed.

(** So is assigning to an uninitialised cell of a type with drop glue. *)
Lemma assign_uninit b cells i x m :
  needs_drop (T := T) = true -> blocks m !! b = Some (replicate (Z.to_nat cells) None) ->
  0 <= i -> assign (at_cell b i) x m = Undefined.
Proof using Hsize.
  intros Hd Hb Hi. unfold assign, drop_in_place, mbind, M_bind, read. rewrite Hd.
  cbn [blk at_cell]. rewrite Hb, (cell_index_mul Hsize) by lia.
  destruct (replicate _ _ !! _) as [[y|]|] eqn:E; [|done..].
  by apply lookup_replicate in E as [? _].
Qed.

(** Writing past the capacity is undefined. *)
Lemma push_unsafe_full {A} m (v : Vec A) l x :
  owns m v l -> len v = cap (buf v) -> VecOps.push_unsafe v x m = Undefined.
Proof using Hsize.
  intros Hown Hfull. pose proof (owns_bounds Hsize _ _ _ Hown) as Hbd.
  destruct Hown as (cells & Hbuf & Hl & _). pose proof Hbuf as (Hb & _ & Hlen & _).
  assert (offset (VecOps.vptr v) (as_isize (len v)) m =
    Returns (at_cell (blk (VecOps.vptr v)) (len v), m)) as Hoff.
  { assert (wp False (offset (VecOps.vptr v) (as_isize (len v)))
      (fun q m' => q = at_cell (T := T) (blk (VecOps.vptr v)) (len v) /\ m' = m) m) as Hw
      by (eapply (wp_offset_buf Hsize); [done | lia | done]).
    by apply wp_returns in Hw as (? & ? & -> & -> & ->). }
  unfold VecOps.push_unsafe, mbind, M_bind. rewrite Hoff.
  by rewrite (assign_past _ cells) by (done || lia).
Qed.

(** [from_iter] allocates the default capacity and never grows: with at most 1024
    elements it gives the vector of the elements, with more it writes past the end
    of its buffer. *)
Theorem from_iter_limit xs m :
  needs_drop (T := T) = false -> mem_ok m -> DEFAULT_CAPACITY * size_of (T := T) <= isize_max ->
  if decide (Z.of_nat (length xs) <= DEFAULT_CAPACITY)
  then exists v m', VecOps.from_iter xs m = Returns (v, m') /\ creates m xs v m'
  else VecOps.from_iter xs m = Undefined.
Proof using Hsize.
  intros Hnd Hok Hb.
  destruct (wp_returns _ _ _ (wp_new Hsize False m Hok Hb)) as (v & m1 & E1 & Hc & Hcap).
  pose proof Hc as ((cells & Hbuf & Hl & Ht) & Hal).
  assert (forall ys, Z.of_nat (length ys) <= DEFAULT_CAPACITY -> exists v' m', 
    for_each ys (fun x v => VecOps.push_unsafe v x) v m1 = Returns (v', m') /\
    creates m ys v' m' /\ buf v' = buf v) as Hfill.
  { intros ys Hys. apply (wp_returns _ (fun v' m' => creates m ys v' m' /\ buf v' = buf v)).
    eapply wp_mono; [apply (wp_fill Hsize Hnd False (fun x => x) ys m1 v []) | done |].
    - apply Hal.
    - apply Hc.
    - rewrite Hl, Hcap. cbn. lia.
    - intros v' m' [Hb' ?]. rewrite map_id in Hb'. split; [by eapply creates_becomes | done]. }
  unfold VecOps.from_iter, mbind, M_bind. rewrite E1. case_decide as Hn.
  - destruct (Hfill xs Hn) as (v' & m' & -> & Hc' & _). eauto.
  - destruct (lookup_lt_is_Some_2 xs (Z.to_nat DEFAULT_CAPACITY)) as [x Hx];
      [unfold DEFAULT_CAPACITY in *; lia|].
    rewrite <- (take_drop_middle _ _ _ Hx), for_each_app.
    assert (Z.of_nat (length (take (Z.to_nat DEFAULT_CAPACITY) xs)) = DEFAULT_CAPACITY) as Hlen.
    { rewrite length_take. unfold DEFAULT_CAPACITY in *. lia. }
    destruct (Hfill (take (Z.to_nat DEFAULT_CAPACITY) xs)) as (v' & m' & -> & (Hown & _) & Hbuf'); [lia|].
    cbn. unfold mbind, M_bind. erewrite push_unsafe_full; [done | done |].
    destruct Hown as (_ & _ & -> & _). by rewrite Hbuf', Hcap.
Qed.

(** For a type with drop glue the first [push] into a new vector is undefined: the
    assignment drops the uninitialised contents of the cell. *)
Theorem push_drop_glue_undefined x m :
  needs_drop (T := T) = true -> mem_ok m -> DEFAULT_CAPACITY * size_of (T := T) <= isize_max ->
  (v ← VecOps.new; VecOps.push v x) m = Undefined.
Proof using Hsize.
  intros Hd Hok Hb. unfold VecOps.new, mbind, M_bind.
  assert (wp False RawVec.new (fun r m' =>
    buf_at m' r (replicate (Z.to_nat DEFAULT_CAPACITY) None) /\ cap r = DEFAULT_CAPACITY) m)
    as Hnew by (apply (wp_raw_new Hsize); [done | done | by intros]).
  apply wp_returns in Hnew as (r & m' & -> & (Hbl & Ho & Hlen & _) & Hcap).
  assert (offset (raw_ptr r) (as_isize 0) m' = Returns (at_cell (blk (raw_ptr r)) 0, m')) as Hoff.
  { assert (wp False (offset (raw_ptr r) (as_isize 0))
      (fun q m2 => q = at_cell (T := T) (blk (raw_ptr r)) 0 /\ m2 = m') m') as Hw
      by (eapply (wp_offset Hsize); [done | done | cbn; lia | done]).
    by apply wp_returns in Hw as (? & ? & -> & -> & ->). }
  unfold VecOps.push, VecOps.capacity, RawVec.capacity, mret, M_ret. cbn [buf len].
  rewrite Hcap. cbn [Z.eqb DEFAULT_CAPACITY]. unfold mbind, M_bind, VecOps.vptr.
  cbn [buf len]. rewrite Hoff. by rewrite (assign_uninit _ _ _ _ _ Hd Hbl).
Qed.

(** The alignment the assertion of [from_raw_parts] compares with is that of the
    pointer itself. *)
Lemma from_raw_parts_alignment p n c m :
  align_of (T := T) <> VecOps.align_of_ptr -> VecOps.from_raw_parts p n c m = Panics.
Proof.
  intros Ha. unfold VecOps.from_raw_parts, mbind, M_bind.
  by rewrite (proj2 (Z.eqb_neq _ _)).
Qed.

End Limits.

(** ** The theorems on concrete vectors *)

Lemma empty_mem_ok {T} : mem_ok (@empty_mem T).
Proof. intros b _. apply lookup_empty. Qed.

Lemma array_vec_roundtrip_witness :
  let _ := u32_elem in
  exists r m', (v ← VecOps.from_array [3; 1; 4]; r ← VecOps.try_from 3 v; mret r) empty_mem
               = Returns (r, m') /\
    r = inl [3; 1; 4] /\ blocks m' = ∅ /\ dropped m' = [].
Proof.
  intros E. pose proof (array_vec_roundtrip (T := Z) (Elem0 := E)) as H.
  specialize (H eq_refl eq_refl [3; 1; 4] 3 empty_mem empty_mem_ok).
  destruct H as (r & m' & H1 & H2); [vm_compute; discriminate | lia |].
  exists r, m'. split; [exact H1|]. exact H2.
Defined.

Lemma into_iter_double_ended_witness :
  let _ := u32_elem in
  exists m', (v ← VecOps.from_array [3; 1; 4]; it ← Iter.into_iter v;
              r ← run_pulls [Front; Back; Front; Back] it;
              Iter.drop_into_iter (snd r) ;; mret (fst r)) empty_mem
             = Returns ([Some 3; Some 4; Some 1; None], m') /\
    blocks m' = ∅ /\ dropped m' = [].
Proof.
  intros E. apply (into_iter_double_ended (T := Z) (Elem0 := E)).
  - reflexivity.
  - reflexivity.
  - apply empty_mem_ok.
  - vm_compute. discriminate.
Defined.

Lemma from_iter_limit_witness :
  let _ := u32_elem in VecOps.from_iter (replicate 1025 0) empty_mem = Undefined.
Proof.
  intros E. pose proof (from_iter_limit (T := Z) (Elem0 := E)) as H.
  specialize (H eq_refl (replicate 1025 0) empty_mem eq_refl empty_mem_ok).
  destruct (decide (Z.of_nat (length (replicate 1025 0)) <= DEFAULT_CAPACITY)) as [Hd|Hd].
  - exfalso. apply Hd. vm_compute. reflexivity.
  - apply H. vm_compute. discriminate.
Defined.

Lemma push_drop_glue_undefined_witness :
  let _ := box_elem in (v ← VecOps.new; VecOps.push v 5) empty_mem = Undefined.
Proof.
  intros E. apply (push_drop_glue_undefined (T := Z) (Elem0 := E)).
  - reflexivity.
  - reflexivity.
  - apply empty_mem_ok.
  - vm_compute. discriminate.
Defined.
