(* ===== verification/NobackVec.v ===== *)
(** * The vector abstraction without a backing store

    [library/rmc/stubs/Rust/vec/noback_vec.rs] keeps the length and the capacity of a
    vector and no elements: a read is a nondeterministic value, which is an argument
    of the operations that read.  The abstraction is sound for lengths: whenever an
    operation returns, the same operation on a vector with elements returns as well,
    and the lengths agree ([noback_tracks_length]).  It is not exact: it panics where
    the vector does not ([noback_insert_spurious]), and its iterator does not end
    ([noback_iterator_endless]). *)

From stdpp Require Import base list numbers.
From S2P Require Import Prelude RawMemory.

#[local] Open Scope Z_scope.

Module Noback.

Definition DEFAULT_CAPACITY : Z := 1073741824.
Definition MAX_MALLOC_SIZE : Z := 18014398509481984.

Record Vec := MkVec { len : Z; capacity : Z }.

Definition uadd (a b : Z) : outcome Z := if in_usize (a + b) then Ok (a + b) else Panic.
Definition umul (a b : Z) : outcome Z := if in_usize (a * b) then Ok (a * b) else Panic.
Definition usub (a b : Z) : outcome Z := if in_usize (a - b) then Ok (a - b) else Panic.

Definition grow (self : Vec) (additional : Z) : outcome Vec :=
  new_len ← uadd (len self) additional;
  grow_cap ← umul (capacity self) 2;
  let new_capacity := if grow_cap <? new_len then new_len else grow_cap in
  if MAX_MALLOC_SIZE <? new_capacity then Panic
  else mret (MkVec (len self) new_capacity).

Definition reserve (self : Vec) (additional : Z) : outcome Vec := grow self additional.

Definition new : Vec := MkVec 0 DEFAULT_CAPACITY.
Definition with_capacity (c : Z) : Vec := MkVec 0 c.

Section Ops.
Context {T : Type}.

Definition push (self : Vec) (_elem : T) : outcome Vec :=
  self ← (if capacity self =? len self then reserve self 1 else mret self);
  assert! (len self <=? capacity self);
  n ← uadd (len self) 1;
  mret (MkVec n (capacity self)).

(** [nd] is the value of [__nondet::<T>()]. *)
Definition pop (self : Vec) (nd : T) : outcome (option T * Vec) :=
  if len self =? 0 then mret (None, self) else
  n ← usub (len self) 1;
  mret (Some nd, MkVec n (capacity self)).

(** [other] is borrowed mutably and left as it is. *)
Definition append (self other : Vec) : outcome (Vec * Vec) :=
  new_len ← uadd (len self) (len other);
  self ← (if capacity self <? new_len then reserve self (len other) else mret self);
  assert! (new_len <=? capacity self);
  mret (MkVec new_len (capacity self), other).

Definition insert (self : Vec) (index : Z) (_elem : T) : outcome Vec :=
  assert! (index <=? len self);
  n ← uadd (len self) 1;
  mret (MkVec n (capacity self)).

Definition remove (self : Vec) (index : Z) (nd : T) : outcome (T * Vec) :=
  assert! (index <? len self);
  n ← usub (len self) 1;
  mret (nd, MkVec n (capacity self)).

(** The elements of the iterator are only counted. *)
Fixpoint count_iter (iter : list T) (iter_len : Z) : outcome Z :=
  match iter with
  | [] => mret iter_len
  | _ :: iter => n ← uadd iter_len 1; count_iter iter n
  end.

Definition extend (self : Vec) (iter : list T) : outcome Vec :=
  iter_len ← count_iter iter 0;
  self ← reserve self iter_len;
  n ← uadd (len self) iter_len;
  mret (MkVec n (capacity self)).

End Ops.

(** ** The iterator *)

Record NoBackIter := MkIter { start : Z; end_ : Z }.

Definition iter_new (n : Z) : NoBackIter := MkIter 0 n.
Definition into_iter (self : Vec) : NoBackIter := iter_new (len self).

Definition next {T} (it : NoBackIter) (nd : T) : option T * NoBackIter :=
  if start it =? end_ it then (None, it) else (Some nd, it).

Definition size_hint (it : NoBackIter) : outcome (Z * option Z) :=
  n ← usub (end_ it) (start it);
  mret (n, Some n).

(** [rmc_vec![val; count]], with as much fuel as [count]. *)
Fixpoint rmc_vec_loop {T} (fuel : nat) (result : Vec) (val : T) (i count : Z) : outcome Vec :=
  if i <? count then
    match fuel with
    | O => Panic
    | S fuel => result ← push result val; i ← uadd i 1; rmc_vec_loop fuel result val i count
    end
  else mret result.

Definition rmc_vec_repeat {T} (val : T) (count : Z) : outcome Vec :=
  rmc_vec_loop (Z.to_nat count) new val 0 count.

End Noback.

Import Noback.

(** ** Lengths *)

(** The vector with elements that the operations abstract from. *)
Inductive vec_op (T : Type) : Type :=
| VPush (x : T)
| VPop
| VInsert (i : N) (x : T)
| VRemove (i : N)
| VReserve (n : N)
| VAppend (other : list T)
| VExtend (xs : list T).
Arguments VPush {T} x.
Arguments VPop {T}.
Arguments VInsert {T} i x.
Arguments VRemove {T} i.
Arguments VReserve {T} n.
Arguments VAppend {T} other.
Arguments VExtend {T} xs.

Section Lengths.
Context {T : Type}.
Implicit Types (l : list T) (v : Vec) (o : vec_op T).

(** The operation on a list: whether it returns an element, and the new list. *)
Definition vec_op_spec (o : vec_op T) (l : list T) : option (option T * list T) :=
  match o with
  | VPush x => Some (None, l ++ [x])
  | VPop => Some (last l, removelast l)
  | VInsert i x => if decide (N.to_nat i <= length l)%nat
                   then Some (None, take (N.to_nat i) l ++ x :: drop (N.to_nat i) l) else None
  | VRemove i => x ← l !! N.to_nat i; Some (Some x, take (N.to_nat i) l ++ drop (S (N.to_nat i)) l)
  | VReserve _ => Some (None, l)
  | VAppend other => Some (None, l ++ other)
  | VExtend xs => Some (None, l ++ xs)
  end.

(** The operation on the abstraction; [nd] is the nondeterministic value it may
    read, and the vector appended is any abstraction of its elements. *)
Definition noback_op (o : vec_op T) (cap_other : Z) (nd : T) (v : Vec) : outcome (option T * Vec) :=
  match o with
  | VPush x => v ← push v x; mret (None, v)
  | VPop => pop v nd
  | VInsert i x => v ← insert v (Z.of_N i) x; mret (None, v)
  | VRemove i => r ← remove v (Z.of_N i) nd; mret (Some (fst r), snd r)
  | VReserve n => v ← reserve v (Z.of_N n); mret (None, v)
  | VAppend other =>
      r ← append v (MkVec (Z.of_nat (length other)) cap_other); mret (None, fst r)
  | VExtend xs => v ← extend v xs; mret (None, v)
  end.

Lemma uadd_ok a b c : uadd a b = Ok c -> c = a + b.
Proof. unfold uadd. by destruct (in_usize (a + b)) eqn:E; intros [= <-]. Qed.

Lemma usub_ok a b c : usub a b = Ok c -> c = a - b.
Proof. unfold usub. by destruct (in_usize (a - b)) eqn:E; intros [= <-]. Qed.

Lemma grow_len v n v' : grow v n = Ok v' -> len v' = len v.
Proof. unfold grow. intros H. outcome_inv. by destruct (MAX_MALLOC_SIZE <? _); outcome_inv. Qed.

Lemma count_iter_ok l n n' : count_iter l n = Ok n' -> n' = n + Z.of_nat (length l).
Proof.
  revert n. induction l as [|x l IH]; intros n H; cbn in *; outcome_inv; [lia|].
  apply uadd_ok in E. apply IH in H. lia.
Qed.

(** Invert a run of an operation down to its arithmetic. *)
Ltac noback_inv :=
  outcome_inv;
  repeat match goal with
  | H : uadd _ _ = Ok _ |- _ => apply uadd_ok in H
  | H : usub _ _ = Ok _ |- _ => apply usub_ok in H
  | H : (_ <=? _) = true |- _ => apply Z.leb_le in H
  | H : (_ <? _) = true |- _ => apply Z.ltb_lt in H
  | H : reserve _ _ = Ok _ |- _ => apply grow_len in H
  | H : count_iter _ _ = Ok _ |- _ => apply count_iter_ok in H
  end; subst; cbn in *.

(** What one operation does to the length. *)
Lemma noback_op_length o c nd v l r v' :
  len v = Z.of_nat (length l) -> noback_op o c nd v = Ok (r, v') ->
  exists r' l', vec_op_spec o l = Some (r', l') /\ len v' = Z.of_nat (length l') /\
                (r = None <-> r' = None).
Proof.
  intros Hl H. destruct o as [x| |i x|i|n|other|xs]; cbn in H |- *.
  - unfold push in H. destruct (capacity v =? len v); noback_inv;
      (do 2 eexists; split; [done|]; split; [|done]; rewrite length_app; cbn; lia).
  - unfold pop in H. do 2 eexists. split; [done|]. destruct (Z.eqb_spec (len v) 0); noback_inv.
    + destruct l; [done|]. cbn in *. lia.
    + destruct l as [|y l _] using rev_ind; [cbn in *; lia|].
      rewrite last_snoc, removelast_last. rewrite length_app in Hl. cbn in Hl. split; [lia|done].
  - unfold insert in H. noback_inv. rewrite decide_True by lia. do 2 eexists.
    split; [done|]. split; [|done]. rewrite length_app, length_take. cbn. rewrite length_drop. lia.
  - unfold remove in H. noback_inv.
    destruct (lookup_lt_is_Some_2 l (N.to_nat i)) as [y Hy]; [lia|]. rewrite Hy. cbn.
    do 2 eexists. split; [done|]. split; [|done]. rewrite length_app, length_take, length_drop. lia.
  - noback_inv. do 2 eexists. split; [done|]. split; [lia | done].
  - unfold append in H. noback_inv. do 2 eexists. split; [done|]. split; [|done].
    rewrite length_app. lia.
  - unfold extend in H. noback_inv. do 2 eexists. split; [done|]. split; [|done].
    rewrite length_app. lia.
Qed.

(** A program over the abstraction, with the nondeterministic values it reads. *)
Fixpoint noback_run (os : list (vec_op T)) (nds : list (Z * T)) (v : Vec) :
    outcome (list (option T) * Vec) :=
  match os, nds with
  | o :: os, (c, nd) :: nds =>
      r ← noback_op o c nd v;
      rs ← noback_run os nds (snd r);
      mret (fst r :: fst rs, snd rs)
  | _, _ => mret ([], v)
  end.

Fixpoint vec_run_spec (os : list (vec_op T)) (l : list T) : option (list (option T) * list T) :=
  match os with
  | [] => Some ([], l)
  | o :: os => r ← vec_op_spec o l; rs ← vec_run_spec os (snd r);
               Some (fst r :: fst rs, snd rs)
  end.

Lemma noback_run_length os nds v l rs v' :
  length nds = length os -> len v = Z.of_nat (length l) -> noback_run os nds v = Ok (rs, v') ->
  exists rs' l', vec_run_spec os l = Some (rs', l') /\ len v' = Z.of_nat (length l') /\
                 Forall2 (fun r r' => r = None <-> r' = None) rs rs'.
Proof.
  revert nds v l rs. induction os as [|o os IH]; intros [|[c nd] nds] v l rs Hn Hl H;
    cbn in *; try done; [outcome_inv; by exists [], l|].
  destruct (noback_op o c nd v) as [[r1 v1]|] eqn:E; [cbn in H | done].
  destruct (noback_op_length _ _ _ _ _ _ _ Hl E) as (r' & l' & -> & Hl' & Hr). cbn.
  destruct (noback_run os nds v1) as [[rs2 v2]|] eqn:E2; [cbn in H | done].
  injection H as <- <-.
  destruct (IH nds v1 l' rs2) as (rs' & l'' & -> & Hl'' & Hrs); [lia | done | done |].
  cbn. exists (r' :: rs'), l''. split; [done|]. split; [done|]. by constructor.
Qed.

(** A program over the abstraction that returns, whatever values its reads gave, is
    a program that returns on the vector with elements: no index panic is missed, the
    lengths agree at the end, and a read gives an element exactly when the vector has
    one. *)
Theorem noback_tracks_length os nds rs v' :
  length nds = length os -> noback_run os nds new = Ok (rs, v') ->
  exists rs' l', vec_run_spec os [] = Some (rs', l') /\ len v' = Z.of_nat (length l') /\
                 Forall2 (fun r r' => r = None <-> r' = None) rs rs'.
Proof. intros Hn H. by eapply (noback_run_length _ _ new []). Qed.

End Lengths.

Lemma noback_tracks_length_witness :
  exists rs v', noback_run [VPush 1; VPush 2; VInsert 1 7; VPop; VAppend [5; 6]; VRemove 2]
                  (replicate 6 (10, 0)) new = Ok (rs, v') /\ len v' = 3.
Proof.
  eexists _, _. split; [reflexivity|].
  edestruct (noback_tracks_length (T := Z)
    [VPush 1; VPush 2; VInsert 1 7; VPop; VAppend [5; 6]; VRemove 2] (replicate 6 (10, 0)))
    as (rs' & l' & H & Hl & _); [reflexivity | reflexivity |].
  cbn in H. injection H as <- <-. exact Hl.
Defined.

(** ** Where the abstraction is not exact *)

(** [insert] does not grow the capacity, so that after an insertion into a full
    vector the assertion of the next [push] fails. *)
Lemma noback_insert_spurious {T} (x y : T) :
  insert (with_capacity 0) 0 x = Ok (MkVec 1 0) /\ push (MkVec 1 0) y = Panic.
Proof. done. Qed.

(** [append] leaves the other vector as it was. *)
Lemma noback_append_keeps v w r : append v w = Ok r -> snd r = w.
Proof. unfold append. intros H. by outcome_inv. Qed.

(** The values of [n] calls of [next]. *)
Fixpoint nexts {T} (it : NoBackIter) (nds : list T) : list (option T) :=
  match nds with
  | [] => []
  | nd :: nds => let (r, it) := next it nd in r :: nexts it nds
  end.

(** The iterator of a vector that is not empty never ends: [next] does not advance,
    and yields a value however often it is called. *)
Theorem noback_iterator_endless {T} (v : Vec) (nds : list T) :
  len v <> 0 -> nexts (into_iter v) nds = map Some nds.
Proof.
  intros Hv. assert (forall nd : T, next (into_iter v) nd = (Some nd, into_iter v)) as Hnext.
  { intros nd. unfold next, into_iter, iter_new. cbn [start end_].
    by rewrite (proj2 (Z.eqb_neq 0 (len v))) by congruence. }
  induction nds as [|nd nds IH]; cbn [nexts map]; [done|]. by rewrite Hnext, IH.
Qed.

Lemma noback_iterator_endless_witness :
  nexts (into_iter (MkVec 1 10)) [4; 5; 6] = [Some 4; Some 5; Some 6].
Proof. apply (noback_iterator_endless (MkVec 1 10) [4; 5; 6]). discriminate. Defined.
