(* ===== verification/CHeap.v ===== *)
(** * The heap of the C back ends

    The C functions of [library/rmc/stubs/C] keep structs and arrays: the structs (of
    one type [O]) live in a heap of handles next to the word memory of [RawMemory].
    Arithmetic on [size_t] wraps; a failed [assert] is a panic. *)

From stdpp Require Import base gmap list numbers.
From S2P Require Import Prelude RawMemory.

#[local] Open Scope Z_scope.

(** The structs, and the memory of the arrays. *)
Record cstate (O : Type) := CState {
  objs : gmap nat O;
  next_obj : nat;
  words : mem Z;
}.
Arguments CState {O} _ _ _.
Arguments objs {O} _.
Arguments next_obj {O} _.
Arguments words {O} _.

Definition CM (O A : Type) : Type := cstate O -> exec (A * cstate O).

#[export] Instance CM_ret O : MRet (CM O) := fun A a s => Returns (a, s).
#[export] Instance CM_bind O : MBind (CM O) := fun A B f x s =>
  match x s with
  | Returns (a, s') => f a s'
  | Panics => Panics
  | Undefined => Undefined
  end.

(** A computation on the buffers. *)
Definition on_words {O A} (x : M Z A) : CM O A := fun s =>
  match x (words s) with
  | Returns (a, m) => Returns (a, CState (objs s) (next_obj s) m)
  | Panics => Panics
  | Undefined => Undefined
  end.

(** [assert(0)] *)
Definition cpanic {O A} : CM O A := fun _ => Panics.

(** [*v] *)
Definition load {O} (v : nat) : CM O O := fun s =>
  match objs s !! v with Some c => Returns (c, s) | None => Undefined end.
Definition store {O} (v : nat) (c : O) : CM O unit := fun s =>
  match objs s !! v with
  | Some _ => Returns (tt, CState (<[v := c]> (objs s)) (next_obj s) (words s))
  | None => Undefined
  end.

(** [malloc] of a struct and the assignments to all of its fields *)
Definition new_obj {O} (c : O) : CM O nat := fun s =>
  Returns (next_obj s, CState (<[next_obj s := c]> (objs s)) (S (next_obj s)) (words s)).
Definition free_obj {O} (v : nat) : CM O unit := fun s =>
  match objs s !! v with
  | Some _ => Returns (tt, CState (delete v (objs s)) (next_obj s) (words s))
  | None => Undefined
  end.

(** Arithmetic on [size_t] *)
Definition size_t (n : Z) : Z := n mod (usize_max + 1).

(** ** Total correctness *)

(** As [wp], for computations on this heap. *)
Definition cwp {O A} (P : Prop) (x : CM O A) (Q : A -> cstate O -> Prop) (s : cstate O) : Prop :=
  match x s with
  | Returns (a, s') => Q a s'
  | Panics => P
  | Undefined => False
  end.

Lemma cwp_bind {O A B} P (x : CM O A) (f : A -> CM O B) Q s :
  cwp P x (fun a s' => cwp P (f a) Q s') s -> cwp P (x ≫= f) Q s.
Proof. unfold cwp, mbind, CM_bind. by destruct (x s) as [[a s']| |]. Qed.

Lemma cwp_ret {O A} P (a : A) (Q : A -> cstate O -> Prop) s : Q a s -> cwp P (mret a) Q s.
Proof. done. Qed.

Lemma cwp_mono {O A} (P P' : Prop) (x : CM O A) (Q Q' : A -> cstate O -> Prop) s :
  cwp P x Q s -> (P -> P') -> (forall a s', Q a s' -> Q' a s') -> cwp P' x Q' s.
Proof. unfold cwp. intros. destruct (x s) as [[a s']| |]; auto. Qed.

Lemma cwp_load {O} P v (c : O) (Q : O -> cstate O -> Prop) s :
  objs s !! v = Some c -> Q c s -> cwp P (load v) Q s.
Proof. unfold cwp, load. by intros ->. Qed.

Lemma cwp_store {O} P v (c c' : O) (Q : unit -> cstate O -> Prop) s :
  objs s !! v = Some c -> Q tt (CState (<[v := c']> (objs s)) (next_obj s) (words s)) ->
  cwp P (store v c') Q s.
Proof. unfold cwp, store. by intros ->. Qed.

Lemma cwp_words {O A} P (x : M Z A) (Q : A -> cstate O -> Prop) s :
  wp P x (fun a m => Q a (CState (objs s) (next_obj s) m)) (words s) ->
  cwp P (on_words x) Q s.
Proof. unfold cwp, wp, on_words. by destruct (x (words s)) as [[a m]| |]. Qed.

Lemma size_t_small n : 0 <= n <= usize_max -> size_t n = n.
Proof. unfold size_t. intros. by rewrite Z.mod_small by lia. Qed.

