(* ===== verification/CVec.v ===== *)
(** * The vector abstraction with a C back end

    [library/rmc/stubs/Rust/vec/c_vec.rs] wraps the functions of
    [library/rmc/stubs/C/vec/vec.c]: a vector of [u32] is a pointer to a C struct
    (memory, length, capacity), whose buffer comes from [malloc] and [realloc].  [C] is
    the back end, [CVecOps] the wrappers, both over the heap of [CHeap].  The theorem
    [c_vec_refines_list] relates programs over the wrappers to programs over lists. *)

From stdpp Require Import base gmap list numbers.
From S2P Require Import Prelude RawMemory RmcVec RmcVecSpec RmcVecProgram CHeap.

#[local] Open Scope Z_scope.
#[local] Existing Instance u32_elem.

(** [struct c_vec] / [typedef struct { ... } vec] *)
Record c_vec := MkCVec { cmem : ptr; clen : Z; ccap : Z }.

Abbreviation cstate := (CHeap.cstate c_vec).
Abbreviation CM := (CHeap.CM c_vec).

Module C.

Definition DEFAULT_CAPACITY : Z := 1024.
Definition MAX_MALLOC_SIZE : Z := 18014398509481984.
(** the size of the words *)
Definition sizeof_mem : Z := size_of (T := Z).

Definition vec_grow_exact (v : nat) (new_cap : Z) : CM unit :=
  c ← load v;
  new_mem ← on_words (realloc (cmem c) (size_t (new_cap * sizeof_mem)));
  store v (MkCVec new_mem (clen c) new_cap).

Definition vec_grow (v : nat) : CM unit :=
  c ← load v;
  let new_cap := size_t (ccap c * 2) in
  if MAX_MALLOC_SIZE <? new_cap then cpanic else vec_grow_exact v new_cap.

Definition vec_sized_grow (v : nat) (additional : Z) : CM unit :=
  c ← load v;
  let min_cap := size_t (ccap c + additional) in
  let grow_cap := size_t (ccap c * 2) in
  let new_cap := if grow_cap <? min_cap then min_cap else grow_cap in
  if MAX_MALLOC_SIZE <? new_cap then cpanic else vec_grow_exact v new_cap.

Definition vec_new : CM nat :=
  let max_elements := DEFAULT_CAPACITY / sizeof_mem in
  m ← on_words (malloc (size_t (max_elements * sizeof_mem)));
  new_obj (MkCVec m 0 max_elements).

Definition vec_with_capacity (capacity : Z) : CM nat :=
  if MAX_MALLOC_SIZE <? capacity then cpanic else
  m ← on_words (malloc (size_t (capacity * sizeof_mem)));
  new_obj (MkCVec m 0 capacity).

(** [v->mem[i]] *)
Definition mem_at (c : c_vec) (i : Z) : CM ptr := on_words (offset (cmem c) i).

Definition vec_push (v : nat) (elem : Z) : CM unit :=
  c ← load v;
  (if clen c =? ccap c then vec_sized_grow v 1 else mret tt) ;;
  c ← load v;
  p ← mem_at c (clen c);
  on_words (write p elem) ;;
  store v (MkCVec (cmem c) (size_t (clen c + 1)) (ccap c)).

Definition vec_pop (v : nat) : CM Z :=
  c ← load v;
  (if 0 <? clen c then mret tt else cpanic) ;;
  let n := size_t (clen c - 1) in
  store v (MkCVec (cmem c) n (ccap c)) ;;
  p ← mem_at c n;
  on_words (read p).

Definition vec_append (v1 v2 : nat) : CM unit :=
  c2 ← load v2;
  vec_sized_grow v1 (clen c2) ;;
  c1 ← load v1;
  c2 ← load v2;
  dst ← mem_at c1 (clen c1);
  on_words (memcpy dst (cmem c2) (size_t (clen c2 * sizeof_mem))) ;;
  store v1 (MkCVec (cmem c1) (size_t (clen c1 + clen c2)) (ccap c1)).

Definition vec_len (v : nat) : CM Z := c ← load v; mret (clen c).
Definition vec_cap (v : nat) : CM Z := c ← load v; mret (ccap c).

Definition vec_free (v : nat) : CM unit :=
  c ← load v;
  on_words (free (cmem c)) ;;
  free_obj v.

End C.

(** ** The wrappers: [struct Vec { ptr: *mut c_vec }] *)

Module CVecOps.

Definition new : CM nat := C.vec_new.
Definition with_capacity (cap : Z) : CM nat := C.vec_with_capacity cap.
Definition push (self : nat) (elem : Z) : CM unit := C.vec_push self elem.
Definition len (self : nat) : CM Z := C.vec_len self.
Definition capacity (self : nat) : CM Z := C.vec_cap self.
Definition pop (self : nat) : CM (option Z) :=
  n ← len self;
  if n =? 0 then mret None else x ← C.vec_pop self; mret (Some x).
Definition append (self other : nat) : CM unit := C.vec_append self other.
Definition reserve (self : nat) (additional : Z) : CM unit := C.vec_sized_grow self additional.
Definition drop (self : nat) : CM unit := C.vec_free self.

(** [rmc_vec![val; count]], with as much fuel as [count] *)
Fixpoint rmc_vec_loop (fuel : nat) (result : nat) (val i count : Z) : CM unit :=
  if i <? count then
    match fuel with
    | O => fun _ => Undefined
    | S fuel => push result val ;; rmc_vec_loop fuel result val (i + 1) count
    end
  else mret tt.

Definition rmc_vec_repeat (val count : Z) : CM nat :=
  result ← with_capacity count;
  rmc_vec_loop (Z.to_nat count) result val 0 count ;;
  mret result.

End CVecOps.

(** ** The specification: vectors as lists with a capacity

    The abstract state maps the handles of the live vectors to their elements and
    capacities; [None] is the failed assertion of a growth beyond the largest
    allocation. *)

Abbreviation astate := (gmap nat (list Z * Z)).

Inductive cop : Type :=
| CNew
| CWithCapacity (n : N)
| CPush (v : nat) (x : Z)
| CPop (v : nat)
| CLen (v : nat)
| CCapacity (v : nat)
| CReserve (v : nat) (n : N)
| CAppend (v w : nat)
| CDrop (v : nat).

(** What an operation returns. *)
Inductive creply : Type :=
| RUnit
| RHandle (v : nat)
| RElem (x : option Z)
| RSize (n : Z).

Definition run_cop (o : cop) : CM creply :=
  match o with
  | CNew => v ← CVecOps.new; mret (RHandle v)
  | CWithCapacity n => v ← CVecOps.with_capacity (Z.of_N n); mret (RHandle v)
  | CPush v x => CVecOps.push v x ;; mret RUnit
  | CPop v => x ← CVecOps.pop v; mret (RElem x)
  | CLen v => n ← CVecOps.len v; mret (RSize n)
  | CCapacity v => n ← CVecOps.capacity v; mret (RSize n)
  | CReserve v n => CVecOps.reserve v (Z.of_N n) ;; mret RUnit
  | CAppend v w => CVecOps.append v w ;; mret RUnit
  | CDrop v => CVecOps.drop v ;; mret RUnit
  end.

(** The capacity after a growth, [size_t] wrap-around included. *)
Definition sized_grow (c additional : Z) : option Z :=
  let n := Z.max (size_t (c * 2)) (size_t (c + additional)) in
  if C.MAX_MALLOC_SIZE <? n then None else Some n.

(** [next] is the handle of the next new vector. *)
Definition spec_cop (o : cop) (next : nat) (σ : astate) : option (creply * astate) :=
  match o with
  | CNew => Some (RHandle next, <[next := ([], 256)]> σ)
  | CWithCapacity n =>
      if C.MAX_MALLOC_SIZE <? Z.of_N n then None
      else Some (RHandle next, <[next := ([], Z.of_N n)]> σ)
  | CPush v x =>
      '(l, c) ← σ !! v;
      c' ← (if Z.of_nat (length l) =? c then sized_grow c 1 else Some c);
      Some (RUnit, <[v := (l ++ [x], c')]> σ)
  | CPop v => '(l, c) ← σ !! v; Some (RElem (last l), <[v := (removelast l, c)]> σ)
  | CLen v => '(l, c) ← σ !! v; Some (RSize (Z.of_nat (length l)), σ)
  | CCapacity v => '(l, c) ← σ !! v; Some (RSize c, σ)
  | CReserve v n =>
      '(l, c) ← σ !! v;
      c' ← sized_grow c (Z.of_N n);
      Some (RUnit, <[v := (l, c')]> σ)
  | CAppend v w =>
      '(l, c) ← σ !! v;
      '(lw, _) ← σ !! w;
      c' ← sized_grow c (Z.of_nat (length lw));
      Some (RUnit, <[v := (l ++ lw, c')]> σ)
  | CDrop v => _ ← σ !! v; Some (RUnit, delete v σ)
  end.

(** The handles an operation uses are live, as Rust's ownership guarantees; the two
    vectors of [append] are different, and the argument of [reserve] is a [usize]. *)
Definition cop_valid (o : cop) (σ : astate) : bool :=
  match o with
  | CNew | CWithCapacity _ => true
  | CPush v _ | CPop v | CLen v | CCapacity v | CReserve v _ | CDrop v => bool_decide (is_Some (σ !! v))
  | CAppend v w => bool_decide (is_Some (σ !! v)) && bool_decide (is_Some (σ !! w)) &&
                   negb (Nat.eqb v w)
  end.

(** ** The relation between the two *)

Definition as_vec (c : c_vec) : Vec RmcAllocator :=
  MkVec (MkRawVec (cmem c) (ccap c)) (clen c) RmcAlloc.

Definition block_of (c : c_vec) : nat := blk (cmem c).

Record represents (s : cstate) (σ : astate) : Prop := {
  rep_mem : mem_ok (words s);
  rep_next : forall v, (next_obj s <= v)%nat -> σ !! v = None;
  rep_obj : forall v, objs s !! v = None <-> σ !! v = None;
  rep_vec : forall v c l k, objs s !! v = Some c -> σ !! v = Some (l, k) ->
    owns (words s) (as_vec c) l /\ ccap c = k /\ k <= C.MAX_MALLOC_SIZE;
  rep_apart : forall v w c c', objs s !! v = Some c -> objs s !! w = Some c' ->
    block_of c = block_of c' -> v = w;
  rep_owned : forall b cells, blocks (words s) !! b = Some cells ->
    exists v c, objs s !! v = Some c /\ block_of c = b;
}.

(** One vector changes: the relation is kept, with the new contents. *)
Lemma represents_update s σ v c c' l' m' :
  represents s σ -> objs s !! v = Some c ->
  owns m' (as_vec c') l' -> moved (words s) (block_of c) m' (block_of c') ->
  ccap c' <= C.MAX_MALLOC_SIZE ->
  represents (CState (<[v := c']> (objs s)) (next_obj s) m') (<[v := (l', ccap c')]> σ).
Proof.
  intros [Hm Hn Ho Hv Ha Hw] Hc Hown Hmv Hcap.
  assert (forall w cw, w <> v -> objs s !! w = Some cw -> block_of cw <> block_of c') as Hsep.
  { intros w cw Hne Hcw E. destruct (mv_fresh _ _ _ _ Hmv) as [F|F].
    - apply Hne. eapply Ha; [done | done | congruence].
    - destruct (σ !! w) as [[lw kw]|] eqn:Hσ.
      + destruct (Hv _ _ _ _ Hcw Hσ) as ((cells & (Hb & _) & _) & _).
        unfold block_of, as_vec in *. cbn in *. congruence.
      + apply Ho in Hσ. congruence. }
  split; cbn.
  - apply Hmv.
  - intros w Hw'. rewrite lookup_insert_ne; [by apply Hn|]. intros ->.
    rewrite (proj2 (Ho w)) in Hc; [done | by apply Hn].
  - intros w. rewrite !lookup_insert_None. by rewrite Ho.
  - intros w cw lw kw. destruct (decide (w = v)) as [->|Hne].
    + rewrite !lookup_insert_eq. intros [= <-] [= <- <-]. done.
    + rewrite !lookup_insert_ne by done. intros Hcw Hσ.
      destruct (Hv _ _ _ _ Hcw Hσ) as (Hown' & Hk). split; [|done].
      eapply owns_frame; [done | done |]. cbn. intros E. apply Hne. by eapply Ha.
  - intros w1 w2 c1 c2. destruct (decide (w1 = v)) as [->|H1], (decide (w2 = v)) as [->|H2];
      rewrite ?lookup_insert_eq, ?lookup_insert_ne by done.
    + done.
    + intros [= <-] Hc2 E. by destruct (Hsep _ _ H2 Hc2).
    + intros Hc1 [= <-] E. by destruct (Hsep _ _ H1 Hc1).
    + apply Ha.
  - intros b cells Hb. destruct (decide (b = block_of c')) as [->|Hne].
    + exists v, c'. by rewrite lookup_insert_eq.
    + destruct (decide (b = block_of c)) as [->|Hne'].
      * rewrite (mv_gone _ _ _ _ Hmv) in Hb by done. done.
      * rewrite (mv_rest _ _ _ _ Hmv) in Hb by done.
        destruct (Hw _ _ Hb) as (w & cw & Hcw & Eb). exists w, cw.
        rewrite lookup_insert_ne; [done|]. intros ->. congruence.
Qed.

(** ** The operations *)

Lemma u32_size : 0 < size_of (T := Z).
Proof. done. Qed.

(** A vector of the C back end, with its bounds. *)
Lemma represents_vec s σ v l k :
  represents s σ -> σ !! v = Some (l, k) ->
  exists c, objs s !! v = Some c /\ owns (words s) (as_vec c) l /\ ccap c = k /\
    0 <= clen c <= k /\ clen c = Z.of_nat (length l) /\ 0 <= k <= C.MAX_MALLOC_SIZE.
Proof.
  intros Hr Hσ. destruct (objs s !! v) as [c|] eqn:Hc.
  - destruct (rep_vec _ _ Hr _ _ _ _ Hc Hσ) as (Hown & <- & Hk). exists c.
    pose proof (owns_bounds u32_size _ _ _ Hown) as Hb. cbn in Hb.
    pose proof Hown as (_ & _ & Hl & _). cbn in Hl. repeat (split; [done || lia|]). lia.
  - apply (rep_obj _ _ Hr) in Hc. congruence.
Qed.

Lemma cwp_grow_exact P s v c l n (Q : unit -> cstate -> Prop) :
  mem_ok (words s) -> objs s !! v = Some c -> owns (words s) (as_vec c) l ->
  clen c <= n <= C.MAX_MALLOC_SIZE ->
  (forall c' m', owns m' (as_vec c') l -> moved (words s) (block_of c) m' (block_of c') ->
     ccap c' = n -> clen c' = clen c ->
     Q tt (CState (<[v := c']> (objs s)) (next_obj s) m')) ->
  cwp P (C.vec_grow_exact v n) Q s.
Proof.
  intros Hok Hc Hown Hn HQ. pose proof (owns_bounds u32_size _ _ _ Hown) as Hb. cbn in Hb.
  destruct (Hown) as (cells & Hbuf & Hl & Ht). cbn in Hl, Hbuf.
  assert (C.MAX_MALLOC_SIZE * 4 <= isize_max) by done.
  assert (isize_max < usize_max) by done.
  unfold C.vec_grow_exact. apply cwp_bind. eapply cwp_load; [done|]. apply cwp_bind, cwp_words.
  rewrite size_t_small by (unfold C.sizeof_mem, size_of; cbn; lia).
  eapply (wp_realloc u32_size); [done | apply Hbuf | apply Hbuf | lia |].
  intros p' m' cells' Hb' Ho' Hl' -> Hmv. eapply cwp_store; [done|]. cbn.
  apply (HQ (MkCVec p' (clen c) n) m'); [|done..].
  destruct Hbuf as (Hbl & _ & Hlen & _). cbn in Hlen.
  exists (take (Z.to_nat n) cells ++ replicate (Z.to_nat n - length cells) None).
  split; [|split; [done|]].
  - split; [done|]. split; [done|]. cbn. split; lia.
  - rewrite take_grow; [done | lia | lia].
Qed.

Lemma cwp_sized_grow s v c l additional (P : Prop) (Q : unit -> cstate -> Prop) :
  mem_ok (words s) -> objs s !! v = Some c -> owns (words s) (as_vec c) l ->
  ccap c <= C.MAX_MALLOC_SIZE ->
  (sized_grow (ccap c) additional = None -> P) ->
  (forall k c' m', sized_grow (ccap c) additional = Some k -> owns m' (as_vec c') l ->
     moved (words s) (block_of c) m' (block_of c') -> ccap c' = k -> clen c' = clen c ->
     ccap c <= k -> Q tt (CState (<[v := c']> (objs s)) (next_obj s) m')) ->
  cwp P (C.vec_sized_grow v additional) Q s.
Proof.
  intros Hok Hc Hown Hcap HP HQ. pose proof (owns_bounds u32_size _ _ _ Hown) as Hb. cbn in Hb.
  unfold C.vec_sized_grow. apply cwp_bind. eapply cwp_load; [done|]. cbv zeta.
  rewrite if_ltb_max. unfold sized_grow in *. cbv zeta in *.
  assert (ccap c <= size_t (ccap c * 2)) as Hge.
  { rewrite size_t_small by (unfold C.MAX_MALLOC_SIZE, usize_max in *; lia). lia. }
  destruct (Z.ltb_spec C.MAX_MALLOC_SIZE
    (Z.max (size_t (ccap c * 2)) (size_t (ccap c + additional)))) as [Hgt|Hle].
  - by apply HP.
  - eapply cwp_grow_exact; [done | done | done | lia |]. intros. eapply HQ; [done..|]. lia.
Qed.

(** Storing one element in a vector with room. *)
Lemma cwp_put P s v c l x (Q : unit -> cstate -> Prop) :
  mem_ok (words s) -> objs s !! v = Some c -> owns (words s) (as_vec c) l ->
  clen c < ccap c -> ccap c <= C.MAX_MALLOC_SIZE ->
  (forall c' m', owns m' (as_vec c') (l ++ [x]) ->
     moved (words s) (block_of c) m' (block_of c') -> ccap c' = ccap c ->
     Q tt (CState (<[v := c']> (objs s)) (next_obj s) m')) ->
  cwp P (c ← load v; p ← C.mem_at c (clen c); on_words (write p x) ;;
         store v (MkCVec (cmem c) (size_t (clen c + 1)) (ccap c))) Q s.
Proof.
  intros Hok Hc Hown Hroom Hcap HQ. pose proof Hown as (cells & Hbuf & Hl & Ht). cbn in Hl, Hbuf.
  destruct (owns_split _ _ _ Hown) as ([|e rest] & Hbuf' & _ & Hr); cbn in Hr; [lia|].
  apply cwp_bind. eapply cwp_load; [done|]. apply cwp_bind, cwp_words.
  pose proof (buf_small u32_size _ _ _ Hbuf) as Hbd. cbn in Hbd.
  eapply (wp_offset u32_size); [apply Hbuf' | apply Hbuf' | length_lia |].
  apply cwp_bind, cwp_words. eapply (wp_write u32_size); [apply Hbuf' | length_lia |].
  eapply cwp_store; [done|]. cbn.
  rewrite size_t_small by (unfold C.MAX_MALLOC_SIZE, usize_max in *; lia).
  eapply (HQ (MkCVec (cmem c) (clen c + 1) (ccap c))); [| | done].
  - rewrite Hl, Nat2Z.id, insert_end_fmap. eapply owns_intro; [|cbn; length_lia].
    eapply (buf_at_upd _ (MkRawVec (cmem c) (ccap c))); [exact Hbuf' | length_lia].
  - by eapply (buf_at_moved _ (MkRawVec (cmem c) (ccap c))).
Qed.

(** A new vector. *)
Lemma represents_new s σ c m' k :
  represents s σ -> owns m' (as_vec c) [] -> allocated (words s) m' (block_of c) ->
  ccap c = k -> k <= C.MAX_MALLOC_SIZE ->
  represents (CState (<[next_obj s := c]> (objs s)) (S (next_obj s)) m')
             (<[next_obj s := ([], k)]> σ).
Proof.
  intros [Hm Hn Ho Hv Ha Hw] Hown Hal Hk Hmax. pose proof Hal as (Hok' & Hfr & Hrest & _).
  assert (forall w cw, objs s !! w = Some cw -> block_of cw <> block_of c) as Hsep.
  { intros w cw Hcw E. destruct (σ !! w) as [[lw kw]|] eqn:Hσ.
    - destruct (Hv _ _ _ _ Hcw Hσ) as ((cells & (Hb & _) & _) & _).
      unfold block_of, as_vec in *. cbn in *. congruence.
    - apply Ho in Hσ. congruence. }
  split; cbn.
  - done.
  - intros w Hlt. rewrite lookup_insert_ne by lia. apply Hn. lia.
  - intros w. rewrite !lookup_insert_None. by rewrite Ho.
  - intros w cw lw kw. destruct (decide (w = next_obj s)) as [->|Hne].
    + rewrite !lookup_insert_eq. intros [= <-] [= <- <-]. done.
    + rewrite !lookup_insert_ne by done. intros Hcw Hσ.
      destruct (Hv _ _ _ _ Hcw Hσ) as (Hown' & Hk'). split; [|done]. by eapply owns_allocated.
  - intros w1 w2 c1 c2. destruct (decide (w1 = next_obj s)) as [->|H1], (decide (w2 = next_obj s)) as [->|H2];
      rewrite ?lookup_insert_eq, ?lookup_insert_ne by done.
    + done.
    + intros [= <-] Hc2 E. by destruct (Hsep _ _ Hc2).
    + intros Hc1 [= <-] E. by destruct (Hsep _ _ Hc1).
    + apply Ha.
  - intros b cells Hb. destruct (decide (b = block_of c)) as [->|Hne].
    + exists (next_obj s), c. by rewrite lookup_insert_eq.
    + rewrite Hrest in Hb by done. destruct (Hw _ _ Hb) as (w & cw & Hcw & Eb).
      exists w, cw. rewrite lookup_insert_ne; [done|]. intros <-.
      rewrite (proj2 (Ho _)) in Hcw; [done | by apply Hn].
Qed.

(** A vector that is gone, with its buffer. *)
Lemma represents_delete s σ v c m' :
  represents s σ -> objs s !! v = Some c ->
  blocks m' = delete (block_of c) (blocks (words s)) -> mem_ok m' ->
  represents (CState (delete v (objs s)) (next_obj s) m') (delete v σ).
Proof.
  intros [Hm Hn Ho Hv Ha Hw] Hc Hb Hok'. split; cbn.
  - done.
  - intros w Hlt. apply lookup_delete_None. right. by apply Hn.
  - intros w. rewrite !lookup_delete_None. by rewrite Ho.
  - intros w cw lw kw [Hne Hcw]%lookup_delete_Some [_ Hσ]%lookup_delete_Some.
    destruct (Hv _ _ _ _ Hcw Hσ) as ((cells & (Hbl & Hrest) & Hl) & Hk). split; [|done].
    exists cells. split; [|done]. split; [|done]. rewrite Hb, lookup_delete_ne; [done|].
    intros E. apply Hne. by eapply Ha.
  - intros w1 w2 c1 c2 [_ H1]%lookup_delete_Some [_ H2]%lookup_delete_Some. by apply Ha.
  - intros b cells. rewrite Hb. intros [Hne Hbl]%lookup_delete_Some.
    destruct (Hw _ _ Hbl) as (w & cw & Hcw & Eb). exists w, cw.
    rewrite lookup_delete_ne; [done|]. intros ->. congruence.
Qed.

(** The handle after the operation. *)
Definition bump (o : cop) (next : nat) : nat :=
  match o with CNew | CWithCapacity _ => S next | _ => next end.

(** What the wrapper of an operation has to establish. *)
Definition refined (o : cop) (s : cstate) (σ : astate) (r : creply) (s' : cstate) : Prop :=
  exists σ', spec_cop o (next_obj s) σ = Some (r, σ') /\ represents s' σ' /\
             next_obj s' = bump o (next_obj s).

Lemma cwp_alloc P s σ n (o : cop) :
  represents s σ -> 0 <= n <= C.MAX_MALLOC_SIZE ->
  spec_cop o (next_obj s) σ = Some (RHandle (next_obj s), <[next_obj s := ([], n)]> σ) ->
  bump o (next_obj s) = S (next_obj s) ->
  cwp P (v ← (m ← on_words (malloc (size_t (n * C.sizeof_mem))); new_obj (MkCVec m 0 n));
         mret (RHandle v)) (refined o s σ) s.
Proof.
  intros Hr Hn Hspec Hbump. do 2 apply cwp_bind. apply cwp_words.
  assert (C.MAX_MALLOC_SIZE * 4 <= isize_max) by done. assert (isize_max < usize_max) by done.
  rewrite size_t_small by (unfold C.sizeof_mem, size_of; cbn; lia).
  eapply (wp_malloc u32_size); [apply Hr | lia |]. intros p' m' -> -> Hok'.
  unfold cwp, new_obj. cbn. eexists. split; [done|]. split; [|done].
  eapply represents_new; [done | | | done | lia].
  - apply (owns_intro _ (MkRawVec (Ptr (next_block (words s)) 0) n) 0 _ [] (replicate (Z.to_nat n) None));
      [|done]. split; cbn; [apply lookup_insert_eq|]. rewrite length_replicate. lia.
  - split; [done|]. split; [apply (rep_mem _ _ Hr); cbn; lia|]. split; [|done].
    intros b Hb. cbn. by rewrite lookup_insert_ne.
Qed.

Lemma cwp_push s σ v x l k :
  represents s σ -> σ !! v = Some (l, k) ->
  cwp (spec_cop (CPush v x) (next_obj s) σ = None) (run_cop (CPush v x))
    (refined (CPush v x) s σ) s.
Proof.
  intros Hr Hσ. destruct (represents_vec _ _ _ _ _ Hr Hσ) as (c & Hc & Hown & Hk & Hlen & Hl & Hmax).
  cbn [run_cop]. apply cwp_bind. unfold CVecOps.push, C.vec_push. apply cwp_bind.
  eapply cwp_load; [done|]. unfold refined. cbn [spec_cop bump]. rewrite Hσ. cbn.
  rewrite Hl, Hk. apply cwp_bind. destruct (Z.eqb_spec (Z.of_nat (length l)) k) as [E|E].
  - eapply cwp_sized_grow; [apply Hr | done | done | lia | by rewrite Hk; intros -> |].
    intros k' c' m' Hg Hown' Hmv Hk' Hc' Hle. rewrite Hk in Hg.
    assert (k < k' <= C.MAX_MALLOC_SIZE) as Hroom.
    { unfold sized_grow in Hg. cbv zeta in Hg. destruct (Z.ltb_spec C.MAX_MALLOC_SIZE
        (Z.max (size_t (k * 2)) (size_t (k + 1)))); [done|]. injection Hg as <-.
      rewrite (size_t_small (k + 1)) in * by (unfold C.MAX_MALLOC_SIZE, usize_max in *; lia). lia. }
    rewrite Hg. cbn. eapply cwp_put; [apply Hmv | apply lookup_insert_eq | done | lia | lia |].
    cbn. intros c'' m'' Hown'' Hmv'' Hk''. rewrite insert_insert_eq.
    eexists. split; [done|]. split; [|done]. replace k' with (ccap c'') by lia.
    eapply represents_update; [done | done | done | by eapply moved_trans | lia].
  - apply cwp_ret. eapply cwp_put; [apply Hr | done | done | lia | lia |].
    intros c' m' Hown' Hmv Hk'. cbn.
    eexists. split; [done|]. split; [|done]. replace k with (ccap c') by lia.
    eapply represents_update; [done | done | done | done | lia].
Qed.

Lemma cwp_pop s σ v l k :
  represents s σ -> σ !! v = Some (l, k) ->
  cwp (spec_cop (CPop v) (next_obj s) σ = None) (run_cop (CPop v)) (refined (CPop v) s σ) s.
Proof.
  intros Hr Hσ. destruct (represents_vec _ _ _ _ _ Hr Hσ) as (c & Hc & Hown & Hk & Hlen & Hl & Hmax).
  cbn [run_cop]. apply cwp_bind. unfold CVecOps.pop, CVecOps.len, C.vec_len.
  do 2 apply cwp_bind. eapply cwp_load; [done|]. apply cwp_ret.
  unfold refined. cbn [spec_cop bump]. rewrite Hσ. cbn [mbind option_bind].
  destruct l as [|y l _] using rev_ind.
  - cbn in Hl. rewrite Hl. apply cwp_ret, cwp_ret. cbn. eexists. split; [done|].
    split; [|done]. by rewrite insert_id.
  - rewrite last_snoc, removelast_last. rewrite length_app in Hl. cbn in Hl.
    rewrite (proj2 (Z.eqb_neq _ _)) by lia. apply cwp_bind. unfold C.vec_pop. apply cwp_bind.
    eapply cwp_load; [done|]. apply cwp_bind. rewrite (proj2 (Z.ltb_lt _ _)) by lia.
    apply cwp_ret. cbv zeta.
    rewrite size_t_small by (unfold C.MAX_MALLOC_SIZE, usize_max in *; lia).
    apply cwp_bind. eapply cwp_store; [done|].
    destruct (owns_split _ _ _ Hown) as (rest & Hbuf & _ & _).
    rewrite fmap_app, <- app_assoc in Hbuf. cbn in Hbuf.
    apply cwp_bind, cwp_words. cbn [words objs next_obj].
    replace (clen c - 1) with (Z.of_nat (length l)) by lia.
    eapply (wp_offset u32_size); [apply Hbuf | apply Hbuf | length_lia |].
    apply cwp_words. cbn [words objs next_obj].
    eapply (wp_read u32_size); [apply Hbuf | lia | |].
    { rewrite Nat2Z.id, lookup_app_r by (by rewrite length_fmap).
      by rewrite length_fmap, Nat.sub_diag. }
    do 2 apply cwp_ret. eexists. split; [done|]. split; [|done].
    replace k with (ccap (MkCVec (cmem c) (Z.of_nat (length l)) (ccap c))) by done.
    eapply represents_update; [done | done | | by apply moved_refl, Hr | cbn; lia].
    by eapply owns_intro.
Qed.

Lemma sized_grow_max c n k : sized_grow c n = Some k -> k <= C.MAX_MALLOC_SIZE.
Proof.
  unfold sized_grow. cbv zeta. destruct (Z.ltb_spec C.MAX_MALLOC_SIZE
    (Z.max (size_t (c * 2)) (size_t (c + n)))); [done|]. by intros [= <-].
Qed.

Lemma cwp_reserve s σ v l k n :
  represents s σ -> σ !! v = Some (l, k) ->
  cwp (spec_cop (CReserve v n) (next_obj s) σ = None) (run_cop (CReserve v n))
    (refined (CReserve v n) s σ) s.
Proof.
  intros Hr Hσ. destruct (represents_vec _ _ _ _ _ Hr Hσ) as (c & Hc & Hown & Hk & Hlen & Hl & Hmax).
  cbn [run_cop]. apply cwp_bind. unfold refined. cbn [spec_cop bump]. rewrite Hσ. cbn.
  eapply cwp_sized_grow; [apply Hr | done | done | lia | by rewrite Hk; intros -> |].
  intros k' c' m' Hg Hown' Hmv Hk' Hc' Hle. rewrite Hk in Hg. rewrite Hg. cbn.
  eexists. split; [done|]. split; [|done]. rewrite <- Hk'.
  eapply represents_update; [done | done | done | done |].
  by apply sized_grow_max in Hg; subst.
Qed.

Lemma cwp_drop s σ v l k :
  represents s σ -> σ !! v = Some (l, k) ->
  cwp (spec_cop (CDrop v) (next_obj s) σ = None) (run_cop (CDrop v)) (refined (CDrop v) s σ) s.
Proof.
  intros Hr Hσ. destruct (represents_vec _ _ _ _ _ Hr Hσ) as (c & Hc & Hown & _).
  cbn [run_cop]. apply cwp_bind. unfold CVecOps.drop, C.vec_free. apply cwp_bind.
  eapply cwp_load; [done|]. apply cwp_bind, cwp_words.
  eapply wp_mono; [apply (wp_drop_vec _ (words s) (as_vec c) l); [apply Hr | done] | done |].
  intros [] m' (Hb & _ & Hok'). unfold cwp, free_obj. cbn. rewrite Hc. cbn.
  eexists. cbn. rewrite Hσ. cbn. split; [done|]. split; [|done]. by eapply represents_delete.
Qed.

Lemma sized_grow_room c n k :
  0 <= c <= C.MAX_MALLOC_SIZE -> 0 <= n <= C.MAX_MALLOC_SIZE ->
  sized_grow c n = Some k -> c + n <= k <= C.MAX_MALLOC_SIZE.
Proof.
  unfold sized_grow. cbv zeta. intros Hc Hn. destruct (Z.ltb_spec C.MAX_MALLOC_SIZE
    (Z.max (size_t (c * 2)) (size_t (c + n)))); [done|]. intros [= <-].
  rewrite (size_t_small (c + n)) in * by (unfold C.MAX_MALLOC_SIZE, usize_max in *; lia). lia.
Qed.

Lemma cwp_append s σ v w l k lw kw :
  represents s σ -> σ !! v = Some (l, k) -> σ !! w = Some (lw, kw) -> v <> w ->
  cwp (spec_cop (CAppend v w) (next_obj s) σ = None) (run_cop (CAppend v w))
    (refined (CAppend v w) s σ) s.
Proof.
  intros Hr Hσ Hσw Hne.
  destruct (represents_vec _ _ _ _ _ Hr Hσ) as (c & Hc & Hown & Hk & Hlen & Hl & Hmax).
  destruct (represents_vec _ _ _ _ _ Hr Hσw) as (cw & Hcw & Hownw & Hkw & Hlenw & Hlw & Hmaxw).
  assert (block_of cw <> block_of c) as Hapart by (intros E; apply Hne; by eapply (rep_apart _ _ Hr)).
  cbn [run_cop]. apply cwp_bind. unfold refined. cbn [spec_cop bump]. rewrite Hσ. cbn.
  rewrite Hσw. cbn. unfold CVecOps.append, C.vec_append. apply cwp_bind.
  eapply cwp_load; [done|]. apply cwp_bind. rewrite Hlw.
  eapply cwp_sized_grow; [apply Hr | done | done | lia | by rewrite Hk; intros -> |].
  intros k' c' m' Hg Hown' Hmv Hk' Hc' Hle. rewrite Hk in Hg. rewrite Hg. cbn.
  apply sized_grow_room in Hg as Hroom; [|lia..].
  assert (owns m' (as_vec cw) lw) as Hownw' by by eapply owns_frame.
  pose proof Hownw' as (cellsw & Hbufw & _ & Htw).
  apply cwp_bind. eapply cwp_load; [apply lookup_insert_eq|].
  apply cwp_bind. eapply cwp_load; [cbn; by rewrite lookup_insert_ne|].
  apply cwp_bind, cwp_words. destruct (owns_split _ _ _ Hown') as (rest & Hbuf & _ & Hrest).
  cbn in Hrest. eapply (wp_offset u32_size); [apply Hbuf | apply Hbuf | length_lia |].
  apply cwp_bind, cwp_words. cbn [words].
  rewrite size_t_small by (unfold C.sizeof_mem, C.MAX_MALLOC_SIZE, usize_max, size_of in *; cbn; lia).
  assert (block_of c' <> block_of cw) as Hne'.
  { destruct (mv_fresh _ _ _ _ Hmv) as [->|F]; [done|]. intros E.
    destruct Hownw as (cells & (Hb & _) & _). unfold block_of in *. cbn in Hb. congruence. }
  pose proof (at_cell_vptr _ _ _ Hownw') as Hpw. unfold VecOps.vptr in Hpw. cbn in Hpw.
  rewrite Hpw, (memcpy_disjoint u32_size) by (done || lia). rewrite Hlw.
  eapply (wp_copy_tail u32_size) with (w := as_vec c') (l := l) (l2 := lw);
    [apply Hmv | done | apply Hbufw | done | by rewrite drop_0 | cbn; lia | |].
  2: { destruct Hbufw as (_ & _ & Hcw' & _). cbn in Hcw'. lia. }
  intros m'' (Hown'' & Hmv'' & _). eapply cwp_store; [apply lookup_insert_eq|]. cbn.
  rewrite insert_insert_eq. eexists. split; [done|]. split; [|done].
  rewrite size_t_small by (unfold C.MAX_MALLOC_SIZE, usize_max in *; lia).
  replace k' with (ccap (MkCVec (cmem c') (clen c' + Z.of_nat (length lw)) (ccap c'))) by done.
  eapply represents_update; [done | done | | by eapply moved_trans | cbn; lia].
  exact Hown''.
Qed.

(** Every operation on live vectors does what the specification says. *)
Lemma run_cop_refines s σ o :
  represents s σ -> cop_valid o σ = true ->
  cwp (spec_cop o (next_obj s) σ = None) (run_cop o) (refined o s σ) s.
Proof.
  intros Hr Hval. destruct o as [|n|v x|v|v|v|v n|v w|v]; cbn in Hval; bool_inv;
    repeat match goal with H : bool_decide _ = true |- _ => apply bool_decide_eq_true in H end;
    repeat match goal with H : is_Some (_ !! _) |- _ => destruct H as [[? ?] ?] end.
  - by apply cwp_alloc.
  - cbn [run_cop]. unfold CVecOps.with_capacity, C.vec_with_capacity.
    destruct (Z.ltb_spec C.MAX_MALLOC_SIZE (Z.of_N n)) as [Hn|Hn]; cbn.
    + by rewrite (proj2 (Z.ltb_lt _ _)).
    + apply (cwp_alloc _ s σ (Z.of_N n) (CWithCapacity n)); [done | lia | | done].
      cbn. by rewrite (proj2 (Z.ltb_ge _ _)).
  - by eapply cwp_push.
  - by eapply cwp_pop.
  - destruct (represents_vec _ _ _ _ _ Hr H) as (c & Hc & _ & _ & _ & Hl & _).
    cbn. do 2 apply cwp_bind. eapply cwp_load; [done|]. cbn. unfold refined. cbn. rewrite H. cbn.
    eexists. rewrite <- Hl. done.
  - destruct (represents_vec _ _ _ _ _ Hr H) as (c & Hc & _ & Hk & _).
    cbn. do 2 apply cwp_bind. eapply cwp_load; [done|]. cbn. unfold refined. cbn. rewrite H. cbn.
    eexists. rewrite <- Hk. done.
  - by eapply cwp_reserve.
  - eapply cwp_append; [done.. |]. intros ->. by rewrite Nat.eqb_refl in *.
  - by eapply cwp_drop.
Qed.

(** Programs, and their handles. *)
Fixpoint run_cops (os : list cop) : CM (list creply) :=
  match os with
  | [] => mret []
  | o :: os => r ← run_cop o; rs ← run_cops os; mret (r :: rs)
  end.

Fixpoint spec_cops (os : list cop) (next : nat) (σ : astate) : option (list creply * astate) :=
  match os with
  | [] => Some ([], σ)
  | o :: os =>
      r ← spec_cop o next σ;
      rs ← spec_cops os (bump o next) (snd r);
      Some (fst r :: fst rs, snd rs)
  end.

Fixpoint cops_valid (os : list cop) (next : nat) (σ : astate) : bool :=
  match os with
  | [] => true
  | o :: os => cop_valid o σ &&
               match spec_cop o next σ with
               | Some r => cops_valid os (bump o next) (snd r)
               | None => true
               end
  end.

Lemma run_cops_refines os s σ :
  represents s σ -> cops_valid os (next_obj s) σ = true ->
  cwp (spec_cops os (next_obj s) σ = None) (run_cops os)
    (fun rs s' => exists σ', spec_cops os (next_obj s) σ = Some (rs, σ') /\ represents s' σ') s.
Proof.
  revert s σ. induction os as [|o os IH]; intros s σ Hr Hval; cbn in *; [eauto|]. bool_inv.
  apply cwp_bind. eapply cwp_mono; [by apply run_cop_refines | by intros -> |].
  intros r s' (σ' & Hs & Hr' & Hn). rewrite Hs in *. cbn in *. rewrite <- Hn in *.
  apply cwp_bind. eapply cwp_mono; [by apply (IH s' σ') | by intros -> |].
  intros rs s'' (σ'' & -> & Hr''). cbn. eauto.
Qed.

Definition empty_cstate : cstate := CState ∅ 0 empty_mem.


(** *** What the comments promise

    [append] moves the elements of the second vector to the first, as [Vec::append] does, and
    [reserve] grows to [max(capacity * 2, capacity + additional)] elements, or fails when that
    is more than can be allocated. *)

Definition documented_growth (c additional : Z) : option Z :=
  let n := Z.max (c * 2) (c + additional) in
  if C.MAX_MALLOC_SIZE <? n then None else Some n.

Definition list_cop (o : cop) (next : nat) (τ : astate) : option (creply * astate) :=
  match o with
  | CNew => Some (RHandle next, <[next := ([], 256)]> τ)
  | CWithCapacity n =>
      if C.MAX_MALLOC_SIZE <? Z.of_N n then None
      else Some (RHandle next, <[next := ([], Z.of_N n)]> τ)
  | CPush v x =>
      '(l, c) ← τ !! v;
      c' ← (if Z.of_nat (length l) =? c then documented_growth c 1 else Some c);
      Some (RUnit, <[v := (l ++ [x], c')]> τ)
  | CPop v => '(l, c) ← τ !! v; Some (RElem (last l), <[v := (removelast l, c)]> τ)
  | CLen v => '(l, c) ← τ !! v; Some (RSize (Z.of_nat (length l)), τ)
  | CCapacity v => '(l, c) ← τ !! v; Some (RSize c, τ)
  | CReserve v n =>
      '(l, c) ← τ !! v;
      c' ← documented_growth c (Z.of_N n);
      Some (RUnit, <[v := (l, c')]> τ)
  | CAppend v w =>
      '(l, c) ← τ !! v;
      '(lw, cw) ← τ !! w;
      c' ← documented_growth c (Z.of_nat (length lw));
      Some (RUnit, <[w := ([], cw)]> (<[v := (l ++ lw, c')]> τ))
  | CDrop v => _ ← τ !! v; Some (RUnit, delete v τ)
  end.

Fixpoint list_cops (os : list cop) (next : nat) (τ : astate) : option (list creply * astate) :=
  match os with
  | [] => Some ([], τ)
  | o :: os =>
      r ← list_cop o next τ;
      rs ← list_cops os (bump o next) (snd r);
      Some (fst r :: fst rs, snd rs)
  end.
















(** A vector that outgrows its capacity, one that is appended to it, and what they reply. *)
Definition sample_cops : list cop :=
  [CNew; CWithCapacity 0; CPush 1 7; CPush 1 8; CPush 0 5; CAppend 0 1; CDrop 1; CPop 0; CPop 0;
   CLen 0; CReserve 0 1000; CCapacity 0; CDrop 0].


Example sample_promised :
  option_map fst (list_cops sample_cops 0 ∅) =
  Some [RHandle 0; RHandle 1; RUnit; RUnit; RUnit; RUnit; RUnit; RElem (Some 8); RElem (Some 7);
        RSize 1; RUnit; RSize 1512; RUnit].
Proof. reflexivity. Qed.

(** What the stub does beyond the promise: the vector that was appended keeps its elements, and
    a reservation of [usize::MAX] more elements wraps around and succeeds, leaving less room
    than was asked for.  Even then no access is out of bounds ([run_cops_refines]). *)
Definition unpromised_cops : list cop :=
  [CNew; CWithCapacity 0; CPush 1 7; CPush 1 8; CAppend 0 1; CLen 1;
   CReserve 1 18446744073709551615; CCapacity 1; CDrop 1; CDrop 0].

Example sample_replies :
  match run_cops unpromised_cops empty_cstate with
  | Returns (rs, _) => rs = [RHandle 0; RHandle 1; RUnit; RUnit; RUnit; RSize 2; RUnit; RSize 4;
                             RUnit; RUnit]
  | _ => False
  end.
Proof. vm_compute. reflexivity. Qed.
