(* ===== verification/CHashSet.v ===== *)
(** * The hash-set abstraction with a C back end

    [library/rmc/stubs/Rust/hashset/c_hashset.rs] wraps the functions of
    [library/rmc/stubs/C/hashset/hashset.c]: a set of [u16] is an array indexed by the
    (identity) hash, whose entry says whether the value is there; [0] is stored as
    itself and absent as [SENTINEL].  The array has [UINT16_MAX] entries, one fewer than
    there are values: [hashset_refines_set] shows that the abstraction is a set on all
    values but the last, and undefined behaviour on that one. *)

From stdpp Require Import base gmap list numbers.
From S2P Require Import Prelude RawMemory RmcVec RmcVecSpec CHeap.

#[local] Open Scope Z_scope.

Definition u16_elem : Elem Z := {| size_of := 2; align_of := 2; needs_drop := false |}.
#[local] Existing Instance u16_elem.

(** [struct c_hashset { domain }] is its one field. *)
Abbreviation CM := (CHeap.CM ptr).
Abbreviation cstate := (CHeap.cstate ptr).

Module CHash.

Definition UINT16_MAX : Z := 65535.
Definition SENTINEL : Z := 1.

Definition hasher (value : Z) : Z := value.

(** [calloc]: all entries are 0. *)
Definition calloc (n : Z) : M Z ptr := alloc (replicate (Z.to_nat n) (Some 0)).

Definition get (p : ptr) (i : Z) : M Z Z := q ← offset p i; read q.
Definition set (p : ptr) (i x : Z) : M Z unit := q ← offset p i; write q x.

Definition hashset_new : CM nat :=
  p ← on_words (calloc UINT16_MAX);
  on_words (set p 0 SENTINEL) ;;
  new_obj p.

(** [(hash == 0 && domain[hash] != SENTINEL) || (hash != 0 && domain[hash] != 0)] *)
Definition present (hash d : Z) : bool :=
  ((hash =? 0) && negb (d =? SENTINEL)) || (negb (hash =? 0) && negb (d =? 0)).

(** [(hash == 0 && domain[hash] == SENTINEL) || (hash != 0 && domain[hash] == 0)] *)
Definition absent (hash d : Z) : bool :=
  ((hash =? 0) && (d =? SENTINEL)) || (negb (hash =? 0) && (d =? 0)).

Definition hashset_insert (s : nat) (value : Z) : CM Z :=
  let hash := hasher value in
  p ← load s;
  d ← on_words (get p hash);
  if present hash d then mret 0 else
  on_words (set p hash value) ;;
  mret 1.

Definition hashset_contains (s : nat) (value : Z) : CM Z :=
  let hash := hasher value in
  p ← load s;
  d ← on_words (get p hash);
  if present hash d then mret 1 else mret 0.

Definition hashset_remove (s : nat) (value : Z) : CM Z :=
  let hash := hasher value in
  p ← load s;
  d ← on_words (get p hash);
  if absent hash d then mret 0 else
  on_words (set p hash (if hash =? 0 then SENTINEL else 0)) ;;
  mret 1.

End CHash.

(** ** The wrappers: [struct HashSet { ptr: *mut c_hashset }] *)

Module HashSet.

Definition new : CM nat := CHash.hashset_new.
Definition insert (self : nat) (value : Z) : CM bool :=
  r ← CHash.hashset_insert self value; mret (negb (r =? 0)).
Definition contains (self : nat) (value : Z) : CM bool :=
  r ← CHash.hashset_contains self value; mret (negb (r =? 0)).
Definition remove (self : nat) (value : Z) : CM bool :=
  r ← CHash.hashset_remove self value; mret (negb (r =? 0)).

End HashSet.

(** ** Sets *)

Inductive hop : Type :=
| HInsert (value : Z)
| HContains (value : Z)
| HRemove (value : Z).

Definition hop_value (o : hop) : Z :=
  match o with HInsert v | HContains v | HRemove v => v end.

Definition run_hop (h : nat) (o : hop) : CM bool :=
  match o with
  | HInsert v => HashSet.insert h v
  | HContains v => HashSet.contains h v
  | HRemove v => HashSet.remove h v
  end.

Fixpoint run_hops (h : nat) (os : list hop) : CM (list bool) :=
  match os with
  | [] => mret []
  | o :: os => r ← run_hop h o; rs ← run_hops h os; mret (r :: rs)
  end.

(** The operation on a set. *)
Definition set_hop (o : hop) (X : gset Z) : bool * gset Z :=
  match o with
  | HInsert v => (bool_decide (v ∉ X), {[ v ]} ∪ X)
  | HContains v => (bool_decide (v ∈ X), X)
  | HRemove v => (bool_decide (v ∈ X), X ∖ {[ v ]})
  end.

Fixpoint set_hops (os : list hop) (X : gset Z) : list bool :=
  match os with
  | [] => []
  | o :: os => let (r, X) := set_hop o X in r :: set_hops os X
  end.

(** The array at [p] has the entries [dom], and they say which values are in [X]. *)
Definition holds_set (m : mem Z) (p : ptr) (X : gset Z) : Prop :=
  exists dom, blocks m !! blk p = Some (Some <$> dom) /\ off p = 0 /\
    Z.of_nat (length dom) = CHash.UINT16_MAX /\
    forall v d, 0 <= v -> dom !! Z.to_nat v = Some d -> CHash.present v d = bool_decide (v ∈ X).

Lemma u16_size : 0 < size_of (T := Z).
Proof. done. Qed.

Lemma absent_present v d : CHash.absent v d = negb (CHash.present v d).
Proof.
  unfold CHash.absent, CHash.present.
  by destruct (v =? 0), (d =? CHash.SENTINEL), (d =? 0).
Qed.

Lemma wp_get P m p dom i d (Q : Z -> mem Z -> Prop) :
  blocks m !! blk p = Some (Some <$> dom) -> off p = 0 -> 0 <= i -> dom !! Z.to_nat i = Some d ->
  Q d m -> wp P (CHash.get p i) Q m.
Proof.
  intros Hb Ho Hi Hd HQ. apply lookup_lt_Some in Hd as Hlt. apply wp_bind.
  eapply (wp_offset u16_size); [done | done | rewrite length_fmap; lia |].
  eapply (wp_read u16_size); [done | done | by rewrite list_lookup_fmap, Hd | done].
Qed.

Lemma wp_set P m p dom i x (Q : unit -> mem Z -> Prop) :
  blocks m !! blk p = Some (Some <$> dom) -> off p = 0 ->
  0 <= i < Z.of_nat (length dom) ->
  Q tt (upd m (blk p) (Some <$> <[Z.to_nat i := x]> dom)) -> wp P (CHash.set p i x) Q m.
Proof.
  intros Hb Ho Hi HQ. apply wp_bind.
  eapply (wp_offset u16_size); [done | done | rewrite length_fmap; lia |].
  eapply (wp_write u16_size); [done | rewrite length_fmap; lia |].
  by rewrite <- list_fmap_insert.
Qed.

(** Changing the entry of one value. *)
Lemma holds_set_update m p dom (X Y : gset Z) v d :
  blocks m !! blk p = Some (Some <$> dom) -> off p = 0 ->
  Z.of_nat (length dom) = CHash.UINT16_MAX -> 0 <= v < CHash.UINT16_MAX ->
  (forall w e, 0 <= w -> dom !! Z.to_nat w = Some e -> CHash.present w e = bool_decide (w ∈ X)) ->
  CHash.present v d = bool_decide (v ∈ Y) -> (forall w, w <> v -> w ∈ X <-> w ∈ Y) ->
  holds_set (upd m (blk p) (Some <$> <[Z.to_nat v := d]> dom)) p Y.
Proof.
  intros Hb Ho Hlen Hv Hdom Hd HY. exists (<[Z.to_nat v := d]> dom).
  split; [apply lookup_insert_eq|]. split; [done|]. split; [by rewrite length_insert|].
  intros w e Hw He. destruct (decide (w = v)) as [->|Hne].
  - rewrite list_lookup_insert_eq in He by lia. by injection He as <-.
  - rewrite list_lookup_insert_ne in He by lia. rewrite (Hdom _ _ Hw He).
    apply bool_decide_ext. by apply HY.
Qed.

(** An operation on a value of the array. *)
Lemma cwp_hop P s h p X o :
  objs s !! h = Some p -> holds_set (words s) p X ->
  0 <= hop_value o < CHash.UINT16_MAX ->
  cwp P (run_hop h o)
    (fun r s' => r = fst (set_hop o X) /\ objs s' = objs s /\
                 holds_set (words s') p (snd (set_hop o X))) s.
Proof.
  intros Hp (dom & Hb & Ho & Hlen & Hdom) Hv.
  assert (exists d, dom !! Z.to_nat (hop_value o) = Some d) as [d Hd]
    by (apply lookup_lt_is_Some_2; lia).
  pose proof (Hdom _ _ (proj1 Hv) Hd) as Hpres.
  destruct o as [v|v|v]; cbn [run_hop hop_value set_hop fst snd] in *;
    unfold HashSet.insert, HashSet.contains, HashSet.remove, CHash.hashset_insert,
      CHash.hashset_contains, CHash.hashset_remove; cbv zeta; unfold CHash.hasher;
    do 2 apply cwp_bind; (eapply cwp_load; [done|]); apply cwp_bind, cwp_words;
    (eapply wp_get; [done | done | lia | done |]).
  - destruct (CHash.present v d) eqn:Ep.
    + do 2 apply cwp_ret. symmetry in Hpres. apply bool_decide_eq_true in Hpres. cbn.
      split; [by rewrite bool_decide_eq_false_2 by naive_solver|]. split; [done|].
      replace ({[v]} ∪ X) with X by set_solver. by exists dom.
    + apply cwp_bind, cwp_words. eapply wp_set; [done | done | lia |]. do 2 apply cwp_ret.
      symmetry in Hpres. apply bool_decide_eq_false in Hpres. cbn.
      split; [by rewrite bool_decide_eq_true_2|]. split; [done|].
      eapply holds_set_update; [done | done | done | lia | done | |set_solver].
      rewrite bool_decide_eq_true_2 by set_solver. unfold CHash.present, CHash.SENTINEL.
      destruct (Z.eqb_spec v 0) as [->|]; done.
  - rewrite <- Hpres. destruct (CHash.present v d); do 2 apply cwp_ret; cbn;
      (split; [done|]; split; [done|]; by exists dom).
  - rewrite absent_present, <- Hpres. destruct (CHash.present v d) eqn:Ep; cbn [negb].
    + apply cwp_bind, cwp_words. eapply wp_set; [done | done | lia |]. do 2 apply cwp_ret.
      split; [done|]. split; [done|].
      eapply holds_set_update; [done | done | done | lia | done | |set_solver].
      rewrite bool_decide_eq_false_2 by set_solver. unfold CHash.present.
      destruct (Z.eqb_spec v 0) as [->|]; done.
    + do 2 apply cwp_ret. symmetry in Hpres. apply bool_decide_eq_false in Hpres. cbn.
      split; [done|]. split; [done|].
      replace (X ∖ {[v]}) with X by set_solver. by exists dom.
Qed.

(** The last value is outside of the array. *)
Lemma hop_out_of_bounds s h p X o :
  objs s !! h = Some p -> holds_set (words s) p X -> hop_value o = CHash.UINT16_MAX ->
  run_hop h o s = Undefined.
Proof.
  intros Hp (dom & Hb & Ho & Hlen & _) Hv.
  assert (CHash.get p CHash.UINT16_MAX (words s) = Undefined) as Hget.
  { assert (offset p CHash.UINT16_MAX (words s) =
      Returns (at_cell (blk p) CHash.UINT16_MAX, words s)) as Hoff.
    { assert (wp False (offset p CHash.UINT16_MAX) (fun q m => q = at_cell (T := Z) (blk p) CHash.UINT16_MAX
        /\ m = words s) (words s)) as Hw.
      { eapply (wp_offset u16_size); [done | done | | done]. rewrite length_fmap, Hlen. done. }
      unfold wp in Hw. destruct (offset p CHash.UINT16_MAX (words s)) as [[q m]| |]; [|done..].
      by destruct Hw as [-> ->]. }
    unfold CHash.get, mbind, M_bind. rewrite Hoff. unfold read. cbn [blk at_cell].
    rewrite Hb, (cell_index_mul u16_size) by done.
    rewrite (proj2 (lookup_ge_None _ _)); [done|]. rewrite length_fmap. lia. }
  destruct o as [v|v|v]; cbn [hop_value] in Hv; subst v; cbn [run_hop];
    unfold HashSet.insert, HashSet.contains, HashSet.remove, CHash.hashset_insert,
      CHash.hashset_contains, CHash.hashset_remove, CHash.hasher, mbind, CM_bind, load, on_words;
    by rewrite Hp, Hget.
Qed.

(** A program over one set: all values in the array, or undefined. *)
Lemma run_hops_set s h p X os :
  objs s !! h = Some p -> holds_set (words s) p X ->
  Forall (fun o => 0 <= hop_value o <= CHash.UINT16_MAX) os ->
  if forallb (fun o => hop_value o <? CHash.UINT16_MAX) os
  then exists s', run_hops h os s = Returns (set_hops os X, s')
  else run_hops h os s = Undefined.
Proof.
  intros Hp Hset Hos. revert s X Hp Hset.
  induction Hos as [|o os Ho Hos IH]; intros s X Hp Hset; cbn; [by eexists|].
  destruct (Z.ltb_spec (hop_value o) CHash.UINT16_MAX) as [Hlt|Hge]; cbn [andb].
  - assert (cwp False (run_hop h o) (fun r s' => r = fst (set_hop o X) /\ objs s' = objs s /\
      holds_set (words s') p (snd (set_hop o X))) s) as Hw by (eapply cwp_hop; [done | done | lia]).
    unfold cwp in Hw. unfold mbind, CM_bind.
    destruct (run_hop h o s) as [[r s']| |]; [|done..]. destruct Hw as (-> & Hobj & Hset').
    destruct (set_hop o X) as [r' X']. cbn in *. rewrite <- Hobj in Hp.
    specialize (IH s' X' Hp Hset'). destruct (forallb _ os).
    + destruct IH as [s'' ->]. by eexists.
    + by rewrite IH.
  - unfold mbind, CM_bind. by erewrite hop_out_of_bounds by (done || lia).
Qed.

Definition hashset_program (os : list hop) : CM (list bool) :=
  h ← HashSet.new;
  run_hops h os.

Lemma holds_new m :
  exists p m', (p ← CHash.calloc CHash.UINT16_MAX; CHash.set p 0 CHash.SENTINEL ;; mret p) m =
    Returns (p, m') /\ holds_set m' p ∅.
Proof.
  apply wp_returns. unfold CHash.calloc.
  assert (Z.of_nat (Z.to_nat CHash.UINT16_MAX) = CHash.UINT16_MAX) as Hn by (by apply Z2Nat.id).
  revert Hn. generalize (Z.to_nat CHash.UINT16_MAX) as n. intros n Hn.
  assert (Z.of_nat (length (replicate n (0 : Z))) = CHash.UINT16_MAX) as Hlen
    by (by rewrite length_replicate).
  apply wp_bind. unfold wp at 1, alloc.
  apply wp_bind. eapply (wp_set _ _ _ (replicate n 0)); [|done | rewrite Hlen; done |].
  - cbn [blocks blk]. by rewrite lookup_insert_eq, fmap_replicate.
  - apply wp_ret. eapply (holds_set_update _ _ _ ({[ 0 ]} : gset Z)); [| done | done | done | | |].
    + cbn [blocks blk]. by rewrite lookup_insert_eq, fmap_replicate.
    + intros w e Hw [-> _]%lookup_replicate. unfold CHash.present.
      destruct (Z.eqb_spec w 0) as [->|Hne]; cbn.
      * by rewrite bool_decide_eq_true_2 by set_solver.
      * by rewrite bool_decide_eq_false_2 by set_solver.
    + by rewrite bool_decide_eq_false_2 by set_solver.
    + set_solver.
Qed.

(** C15. A program over a new set of [u16] values gives the answers of the same program over
    a mathematical set, provided it never uses 65535; if it does, it accesses the
    array out of bounds. *)
Theorem hashset_refines_set os s :
  (forall o, o ∈ os -> 0 <= hop_value o <= CHash.UINT16_MAX) ->
  if forallb (fun o => hop_value o <? CHash.UINT16_MAX) os
  then exists s', hashset_program os s = Returns (set_hops os ∅, s')
  else hashset_program os s = Undefined.
Proof.
  intros Hos. destruct (holds_new (words s)) as (p & m' & Hnew & Hset).
  assert (HashSet.new s = Returns (next_obj s,
    CState (<[next_obj s := p]> (objs s)) (S (next_obj s)) m')) as Hn.
  { unfold HashSet.new, CHash.hashset_new, mbind, CM_bind, on_words.
    unfold mbind, M_bind in Hnew. destruct (CHash.calloc _ (words s)) as [[q mq]| |]; [|done..].
    cbn. destruct (CHash.set q 0 CHash.SENTINEL mq) as [[[] m2]| |]; [|done..].
    by injection Hnew as -> ->. }
  unfold hashset_program, mbind, CM_bind. rewrite Hn.
  apply (run_hops_set _ _ p ∅ os); cbn; [apply lookup_insert_eq | done |].
  by apply Forall_forall.
Qed.

Definition sample_hops : list hop :=
  [HContains 0; HInsert 0; HInsert 7; HInsert 0; HContains 0; HRemove 7; HContains 7; HRemove 0;
   HContains 0].

Lemma hashset_refines_set_witness :
  exists s', hashset_program sample_hops (CState ∅ 0 empty_mem) =
    Returns ([false; true; true; false; true; true; false; true; false], s').
Proof.
  apply (hashset_refines_set sample_hops (CState ∅ 0 empty_mem)).
  apply (Forall_forall (fun o => 0 <= hop_value o <= CHash.UINT16_MAX)).
  repeat constructor; vm_compute; discriminate.
Defined.
