(* ===== verification/RmcLib.v ===== *)
(** * The library of proof harnesses

    [library/rmc/src]: symbolic values ([any], [any_raw]), the [Invariant] trait that
    says which bit patterns are values of a type ([invariant.rs]), [Arbitrary]
    ([arbitrary.rs]) and slices of arbitrary bounds ([slice.rs]).

    A symbolic value is an argument: [any_raw] may be any bit pattern.  A path on which
    [assume] fails is dropped, which is [None]; a panic is the [Panic] of [outcome].  The
    set of values a harness sees is what the arguments range over, so the properties
    say that this set is exactly the intended one. *)

From stdpp Require Import base list numbers.
From S2P Require Import Prelude RawMemory.

#[local] Open Scope Z_scope.

(** [assume] *)
Definition assume (cond : bool) : option unit := if cond then Some tt else None.

(** ** [invariant.rs] *)

Class Invariant (T : Type) := is_valid : T -> bool.

(** The bit patterns of the types whose invariants the file defines. *)
Inductive raw_int := RawInt (bits : Z).
Inductive raw_bool := RawBool (byte : Z).
Inductive raw_char := RawChar (bits : Z).
Inductive raw_nonzero := RawNonZero (bits : Z).
Inductive raw_option (T : Type) := RawSome (v : T) | RawNone | RawNoVariant.
Inductive raw_result (T E : Type) := RawOk (v : T) | RawErr (e : E) | RawNoResult.
Arguments RawSome {T} v.
Arguments RawNone {T}.
Arguments RawNoVariant {T}.
Arguments RawOk {T E} v.
Arguments RawErr {T E} e.
Arguments RawNoResult {T E}.

(** [empty_invariant!] for the integer and floating-point types and [()] *)
#[export] Instance int_invariant : Invariant raw_int := fun _ => true.

#[export] Instance bool_invariant : Invariant raw_bool := fun '(RawBool byte) =>
  (byte =? 0) || (byte =? 1).

(** [*self as i32] *)
Definition as_i32 (bits : Z) : Z := if bits <? 2 ^ 31 then bits else bits - 2 ^ 32.

#[export] Instance char_invariant : Invariant raw_char := fun '(RawChar bits) =>
  let val := as_i32 bits in
  (val <=? 0xD7FF) || ((0xE000 <=? val) && (val <=? 0x10FFFF)).

#[export] Instance array_invariant {T} `{!Invariant T} : Invariant (list T) := fun l =>
  forallb is_valid l.

#[export] Instance option_invariant {T} `{!Invariant T} : Invariant (raw_option T) := fun o =>
  match o with
  | RawSome v => is_valid v
  | RawNone => true
  | RawNoVariant => false
  end.

#[export] Instance result_invariant {T E} `{!Invariant T} `{!Invariant E} :
    Invariant (raw_result T E) := fun r =>
  match r with
  | RawOk v => is_valid v
  | RawErr e => is_valid e
  | RawNoResult => false
  end.

(** [nonzero_invariant!] *)
#[export] Instance nonzero_invariant : Invariant raw_nonzero := fun '(RawNonZero bits) =>
  negb (bits =? 0).

(** ** [arbitrary.rs] and [lib.rs] *)

(** [T::any()]: [raw] is the value of [any_raw::<T>()]. *)
Definition arbitrary_any {T} `{!Invariant T} (raw : T) : option T :=
  _ ← assume (is_valid raw); Some raw.

Definition any {T} `{!Invariant T} (raw : T) : option T := arbitrary_any raw.

(** [nondet], the deprecated name *)
Definition nondet {T} `{!Invariant T} (raw : T) : option T := any raw.

(** [any::<usize>()] *)
Definition any_usize (raw : Z) : option Z := any (RawInt raw) ≫= fun '(RawInt n) => Some n.

(** ** [slice.rs] *)

(** [&arr[from..to]] *)
Definition range_index {T} (arr : list T) (from to_ : Z) : outcome (list T) :=
  if to_ <? from then Panic
  else if Z.of_nat (length arr) <? to_ then Panic
  else Ok (take (Z.to_nat (to_ - from)) (drop (Z.to_nat from) arr)).

(** [raw_from] and [raw_to] are the two symbolic values. *)
Definition any_range (LENGTH : Z) (raw_from raw_to : Z) : option (Z * Z) :=
  from ← any_usize raw_from;
  to_ ← any_usize raw_to;
  _ ← assume (to_ <=? LENGTH);
  _ ← assume (from <=? to_);
  Some (from, to_).

Definition any_slice_of_array {T} (arr : list T) (raw_from raw_to : Z) : option (outcome (list T)) :=
  '(from, to_) ← any_range (Z.of_nat (length arr)) raw_from raw_to;
  Some (range_index arr from to_).

(** The mutable slice: its elements, and the array after they have become [update]. *)
Definition any_slice_of_array_mut {T} (arr : list T) (raw_from raw_to : Z)
    (update : list T -> list T) : option (outcome (list T)) :=
  '(from, to_) ← any_range (Z.of_nat (length arr)) raw_from raw_to;
  Some (s ← range_index arr from to_;
        Ok (take (Z.to_nat from) arr ++ update s ++ drop (Z.to_nat to_) arr)).

Record NonDetSlice (T : Type) := MkNonDetSlice { arr : list T; slice_len : Z }.
Arguments MkNonDetSlice {T} _ _.
Arguments arr {T} _.
Arguments slice_len {T} _.

(** [raw_arr] is an array of [MAX_SLICE_LENGTH] symbolic values. *)
Definition nondet_slice_new {T} (MAX_SLICE_LENGTH : Z) (raw_arr : list T) (raw_len : Z) :
    option (NonDetSlice T) :=
  n ← any_usize raw_len;
  _ ← assume (n <=? MAX_SLICE_LENGTH);
  Some (MkNonDetSlice raw_arr n).

Definition get_slice {T} (self : NonDetSlice T) : outcome (list T) :=
  range_index (arr self) 0 (slice_len self).

(** [get_slice_mut], with what becomes of the slice *)
Definition get_slice_mut {T} (self : NonDetSlice T) (update : list T -> list T) :
    outcome (NonDetSlice T) :=
  s ← range_index (arr self) 0 (slice_len self);
  Ok (MkNonDetSlice (update s ++ drop (Z.to_nat (slice_len self)) (arr self)) (slice_len self)).

(** [impl Deref for NonDetSlice] *)
Definition deref {T} (self : NonDetSlice T) : outcome (list T) := get_slice self.

Definition any_slice {T} (MAX_SLICE_LENGTH : Z) (raw_arr : list T) (raw_len : Z) :
    option (NonDetSlice T) := nondet_slice_new MAX_SLICE_LENGTH raw_arr raw_len.

(** ** What the symbolic slices range over *)

Lemma any_usize_all n : any_usize n = Some n.
Proof. done. Qed.

Lemma any_range_some L a b f t :
  any_range L a b = Some (f, t) <-> f = a /\ t = b /\ b <= L /\ a <= b.
Proof.
  unfold any_range. rewrite !any_usize_all. cbn. unfold assume.
  destruct (Z.leb_spec b L), (Z.leb_spec a b); cbn; split; naive_solver lia.
Qed.

Lemma range_index_ok {T} (l : list T) f t :
  0 <= f <= t -> t <= Z.of_nat (length l) ->
  range_index l f t = Ok (take (Z.to_nat (t - f)) (drop (Z.to_nat f) l)).
Proof.
  intros. unfold range_index. rewrite (proj2 (Z.ltb_ge _ _)), (proj2 (Z.ltb_ge _ _)) by lia. done.
Qed.

(** The slices [any_slice_of_array] can return are exactly the contiguous parts of
    the array, and taking the slice never panics. *)
Theorem any_slice_of_array_exact {T} (l : list T) :
  Z.of_nat (length l) <= usize_max ->
  forall r, (exists a b, 0 <= a <= usize_max /\ 0 <= b <= usize_max /\
               any_slice_of_array l a b = Some r) <->
            exists pre s post, r = Ok s /\ l = pre ++ s ++ post.
Proof.
  intros Hlen r. split.
  - intros (a & b & Ha & Hb & H). unfold any_slice_of_array in H.
    destruct (any_range _ a b) as [[f t]|] eqn:E; [|done]. cbn in H. injection H as <-.
    apply any_range_some in E as (-> & -> & Hle & Hab).
    rewrite range_index_ok by lia.
    exists (take (Z.to_nat a) l), (take (Z.to_nat (b - a)) (drop (Z.to_nat a) l)),
      (drop (Z.to_nat (b - a)) (drop (Z.to_nat a) l)).
    split; [done|]. by rewrite !take_drop.
  - intros (pre & s & post & -> & ->). rewrite !length_app in Hlen.
    exists (Z.of_nat (length pre)), (Z.of_nat (length pre + length s)).
    split; [lia|]. split; [lia|]. unfold any_slice_of_array.
    rewrite (proj2 (any_range_some _ _ _ (Z.of_nat (length pre)) (Z.of_nat (length pre + length s))))
      by (rewrite !length_app; lia). cbn.
    rewrite range_index_ok by (rewrite ?length_app; lia). rewrite Nat2Z.id, drop_app_length.
    replace (Z.to_nat (Z.of_nat (length pre + length s) - Z.of_nat (length pre)))
      with (length s) by lia. by rewrite take_app_length.
Qed.

Lemma any_slice_of_array_exact_witness :
  exists a b, 0 <= a <= usize_max /\ 0 <= b <= usize_max /\
    any_slice_of_array [1; 2; 3; 4] a b = Some (Ok [2; 3]).
Proof.
  apply (any_slice_of_array_exact [1; 2; 3; 4]); [vm_compute; discriminate|].
  by exists [1], [2; 3], [4].
Defined.

(** The contents of a symbolic slice are exactly the lists of at most
    [MAX_SLICE_LENGTH] elements, whatever the elements. *)
Theorem any_slice_exact {T} (MAX : Z) (d : T) (r : outcome (list T)) :
  0 <= MAX <= usize_max ->
  (exists raw_arr n s, Z.of_nat (length raw_arr) = MAX /\ 0 <= n <= usize_max /\
     any_slice MAX raw_arr n = Some s /\ get_slice s = r) <->
  exists l, r = Ok l /\ Z.of_nat (length l) <= MAX.
Proof.
  intros HM. unfold any_slice, nondet_slice_new, get_slice. split.
  - intros (raw & n & s & Hraw & Hn & H & <-). rewrite any_usize_all in H. cbn in H.
    unfold assume in H. destruct (Z.leb_spec n MAX); [|done]. cbn in H. injection H as <-.
    cbn [arr slice_len]. rewrite range_index_ok by lia. eexists. split; [done|].
    rewrite length_take. lia.
  - intros (l & -> & Hl).
    exists (l ++ replicate (Z.to_nat MAX - length l) d), (Z.of_nat (length l)).
    eexists. rewrite any_usize_all. cbn. unfold assume.
    rewrite (proj2 (Z.leb_le _ _)) by done. cbn.
    split; [rewrite length_app, length_replicate; lia|]. split; [lia|]. split; [done|].
    cbn [arr slice_len]. rewrite range_index_ok by (rewrite ?length_app; lia).
    rewrite Z.sub_0_r, Nat2Z.id, drop_0, take_app_length. done.
Qed.

Lemma any_slice_exact_witness :
  exists raw_arr n s, Z.of_nat (length raw_arr) = 5 /\ 0 <= n <= usize_max /\
     any_slice 5 raw_arr n = Some s /\ get_slice s = Ok [7; 8].
Proof.
  apply (any_slice_exact 5 0 (Ok [7; 8])); [vm_compute; split; discriminate|].
  exists [7; 8]. split; [done|]. vm_compute. discriminate.
Defined.

(** Writing through the mutable slice changes the array inside the bounds only. *)
Lemma any_slice_of_array_mut_frame {T} (l : list T) a b f l' i :
  0 <= a -> any_slice_of_array_mut l a b f = Some (Ok l') ->
  (forall s, length (f s) = length s) ->
  length l' = length l /\
  ((i < Z.to_nat a)%nat \/ (Z.to_nat b <= i)%nat -> l' !! i = l !! i).
Proof.
  intros Ha H Hf. unfold any_slice_of_array_mut in H.
  destruct (any_range _ a b) as [[from to_]|] eqn:E; [|done].
  apply any_range_some in E as (-> & -> & Hle & Hab). cbn in H.
  rewrite range_index_ok in H by lia. cbn in H. injection H as <-.
  set (s := take (Z.to_nat (b - a)) (drop (Z.to_nat a) l)).
  assert (length (f s) = Z.to_nat (b - a)) as Hs.
  { rewrite Hf. unfold s. rewrite length_take, length_drop. lia. }
  split; [rewrite !length_app, length_take, length_drop, Hs; lia|]. intros [Hi|Hi].
  - rewrite lookup_app_l by (rewrite length_take; lia). apply lookup_take_lt. lia.
  - rewrite lookup_app_r by (rewrite length_take; lia).
    rewrite lookup_app_r by (rewrite length_take, Hs; lia).
    rewrite lookup_drop, length_take, Hs. f_equal. lia.
Qed.

(** ** What the invariants accept *)

(** A Unicode scalar value *)
Definition scalar_value (c : Z) : Prop := 0 <= c <= 0xD7FF \/ 0xE000 <= c <= 0x10FFFF.

(** Of the 32-bit patterns, [any::<char>()] yields the Unicode scalar values and, since
    the check compares as [i32], also every pattern with the top bit set, none of
    which is a [char]. *)
Theorem any_char_exact bits :
  0 <= bits < 2 ^ 32 ->
  any (RawChar bits) = Some (RawChar bits) <-> scalar_value bits \/ 2 ^ 31 <= bits.
Proof.
  intros Hb. unfold any, arbitrary_any, assume.
  assert (is_valid (RawChar bits) = true <-> scalar_value bits \/ 2 ^ 31 <= bits) as H.
  { unfold is_valid, char_invariant, as_i32, scalar_value. cbv zeta.
    rewrite orb_true_iff, andb_true_iff, !Z.leb_le.
    destruct (Z.ltb_spec bits (2 ^ 31)); lia. }
  rewrite <- H. by destruct (is_valid (RawChar bits)).
Qed.

Lemma any_char_exact_witness : any (RawChar (2 ^ 31)) = Some (RawChar (2 ^ 31)).
Proof. apply (any_char_exact (2 ^ 31)); [lia | right; lia]. Defined.

(** The other invariants are exact: a valid [bool] is 0 or 1, a [NonZero] is not 0,
    and the compound types are valid when their parts are. *)
Lemma any_bool_exact b : any (RawBool b) = Some (RawBool b) <-> b = 0 \/ b = 1.
Proof.
  unfold any, arbitrary_any, assume, is_valid, bool_invariant.
  destruct (Z.eqb_spec b 0), (Z.eqb_spec b 1); cbn; naive_solver.
Qed.

Lemma array_valid {T} `{!Invariant T} (l : list T) :
  is_valid l = true <-> Forall (fun x => is_valid x = true) l.
Proof.
  unfold is_valid at 1, array_invariant. rewrite forallb_forall, Forall_forall.
  split; intros H x Hx; apply H; by apply list_elem_of_In.
Qed.
