(* ===== verification/Mir.v ===== *)
(** * The compiler's view of a program: types, layouts, MIR

    The data of rustc that the code generator reads: [TyKind]
    ([rustc_middle/src/ty/sty.rs]), layouts ([rustc_target/src/abi/mod.rs]), constants and
    allocations ([mir/interpret]), places, operands, rvalues, statements, terminators and
    bodies ([mir/mod.rs], [mir/terminator.rs]).  What the compiler computes by its query
    system (layouts, field types, names, signatures, normalization, instances, bodies,
    vtable entries) is in the classes [TyCtxt] and [MirCtxt]: the code generator calls it
    and never looks inside. *)

From S2P Require Import Prelude CbmcString MachineModel Location.

(** ** Types *)

Inductive IntTy := Isize | I8 | I16 | I32 | I64 | I128.
Inductive UintTy := Usize | U8 | U16 | U32 | U64 | U128.
Inductive FloatTy := F32 | F64.

(** [TyKind].  Items are known by their [DefId]; regions, which are erased, are
    left out, and so is what is inside the kinds that
    monomorphization removes.  The length of an array is the evaluated constant. *)
Inductive Ty :=
| Bool
| Char
| Int (k : IntTy)
| Uint (k : UintTy)
| Float (k : FloatTy)
| Adt (def : N) (substs : list Ty)
| Foreign (def : N)
| Str
| Array (elt : Ty) (len : N)
| Slice (elt : Ty)
| RawPtr (pointee : Ty) (mutbl : bool)
| Ref (pointee : Ty) (mutbl : bool)
| FnDef (def : N) (substs : list Ty)
| FnPtr (sig : FnSig)
| Dynamic (predicates : N)
| Closure (def : N) (substs : list Ty)
| Generator (def : N) (substs : list Ty)
| GeneratorWitness
| Never
| Tuple (tys : list Ty)
| Projection (item : N) (substs : list Ty)
| Opaque (def : N) (substs : list Ty)
| Param (index : N)
| Bound (index : N)
| Placeholder (index : N)
| Infer (index : N)
| Error
with FnSig : Type := mkFnSig (inputs : list Ty) (output : Ty) (c_variadic rust_call : bool).

Definition sig_inputs (s : FnSig) : list Ty := match s with mkFnSig i _ _ _ => i end.
Definition sig_output (s : FnSig) : Ty := match s with mkFnSig _ o _ _ => o end.
Definition sig_c_variadic (s : FnSig) : bool := match s with mkFnSig _ _ v _ => v end.

(** [TyS::is_unit], [is_trait], [is_primitive] *)
Definition ty_is_unit (t : Ty) : bool := match t with Tuple [] => true | _ => false end.
Definition ty_is_trait (t : Ty) : bool := match t with Dynamic _ => true | _ => false end.
Definition ty_is_primitive (t : Ty) : bool :=
  match t with Bool | Char | Int _ | Uint _ | Float _ => true | _ => false end.

(** [TyS::is_bool], [is_char], [is_integral], [is_floating_point], [is_numeric],
    [is_signed], [is_fn], [is_fn_ptr], [is_never]; no inference variable is left. *)
Definition ty_is_bool (t : Ty) : bool := match t with Bool => true | _ => false end.
Definition ty_is_char (t : Ty) : bool := match t with Char => true | _ => false end.
Definition ty_is_integral (t : Ty) : bool := match t with Int _ | Uint _ => true | _ => false end.
Definition ty_is_floating_point (t : Ty) : bool := match t with Float _ => true | _ => false end.
Definition ty_is_numeric (t : Ty) : bool := ty_is_integral t || ty_is_floating_point t.
Definition ty_is_signed (t : Ty) : bool := match t with Int _ => true | _ => false end.
Definition ty_is_fn (t : Ty) : bool := match t with FnDef _ _ | FnPtr _ => true | _ => false end.
Definition ty_is_fn_ptr (t : Ty) : bool := match t with FnPtr _ => true | _ => false end.
Definition ty_is_never (t : Ty) : bool := match t with Never => true | _ => false end.

(** [TyS::builtin_index] *)
Definition builtin_index (t : Ty) : option Ty :=
  match t with Array t _ | Slice t => Some t | _ => None end.

(** Equality of types, [==] on interned types *)
Fixpoint ty_eq_dec (a b : Ty) {struct a} : {a = b} + {a <> b}
with sig_eq_dec (a b : FnSig) {struct a} : {a = b} + {a <> b}.
Proof.
  - decide equality; try apply (List.list_eq_dec ty_eq_dec); try apply N.eq_dec; decide equality.
  - decide equality; try apply Bool.bool_dec; try apply (List.list_eq_dec ty_eq_dec).
Defined.
#[export] Instance Ty_eq_dec : EqDecision Ty := ty_eq_dec.
#[export] Instance FnSig_eq_dec : EqDecision FnSig := sig_eq_dec.

(** [AdtDef], [VariantDef], [FieldDef] *)
Inductive AdtKind := AdtStruct | AdtUnion | AdtEnum.
Record FieldDef := mkFieldDef { field_did : N; field_ident : string }.
Record VariantDef := mkVariantDef { variant_ident : string; variant_fields : list FieldDef }.
Record AdtDef := mkAdtDef {
  adt_kind : AdtKind;
  adt_variants : list VariantDef;
  repr_simd : bool;
  repr_c : bool;
  repr_packed : bool;
  adt_is_box : bool;
}.

(** ** Layouts *)

Inductive Integer := Int8 | Int16 | Int32 | Int64 | Int128.

(** [enum Primitive], the value of a [Scalar] *)
Inductive Primitive := PrimInt (i : Integer) (signed : bool) | PrimF32 | PrimF64 | PrimPointer.

(** [enum Abi], as far as the generator reads it *)
Inductive Abi := Uninhabited | Scalar (p : Primitive) | ScalarPair (p q : Primitive)
| Vector (element : Primitive) (count : N) | Aggregate (sized : bool).

Inductive TagEncoding :=
| Direct
| Niche (dataful_variant niche_start_variant niche_end_variant : N) (niche_start : N).

(** [enum FieldsShape]; sizes and offsets are in bytes. *)
Inductive FieldsShape :=
| ShapePrimitive
| ShapeUnion (count : nat)
| ShapeArray (stride count : N)
| ShapeArbitrary (offsets : list N) (memory_index : list nat).

Inductive Layout : Type := mkLayout (fields : FieldsShape) (variants : Variants) (abi : Abi)
  (align size : N)
with Variants : Type :=
| Single (index : N)
| Multiple (tag : Primitive) (tag_encoding : TagEncoding) (tag_field : nat)
    (variant_layouts : list Layout).

Definition lay_fields (l : Layout) : FieldsShape := match l with mkLayout f _ _ _ _ => f end.
Definition lay_variants (l : Layout) : Variants := match l with mkLayout _ v _ _ _ => v end.
Definition lay_abi (l : Layout) : Abi := match l with mkLayout _ _ a _ _ => a end.
Definition lay_align (l : Layout) : N := match l with mkLayout _ _ _ a _ => a end.
Definition lay_size (l : Layout) : N := match l with mkLayout _ _ _ _ s => s end.

(** [Size::bits]: [self.raw << 3] on a [u64] *)
Definition bits (bytes : N) : N := (N.shiftl bytes 3 mod 2 ^ 64)%N.
(** [Align::bits]: [self.bytes() * 8] *)
Definition align_bits (bytes : N) : outcome N := u64_mul bytes 8.

(** [Layout::is_unsized], [is_zst] *)
Definition is_unsized (l : Layout) : bool :=
  match lay_abi l with Aggregate sized => negb sized | _ => false end.
Definition is_zst (l : Layout) : bool :=
  match lay_abi l with
  | Scalar _ | ScalarPair _ _ | Vector _ _ => false
  | Uninhabited => (lay_size l =? 0)%N
  | Aggregate sized => sized && (lay_size l =? 0)%N
  end.

(** [FieldsShape::count], [offset] *)
Definition shape_count (s : FieldsShape) : nat :=
  match s with
  | ShapePrimitive => 0
  | ShapeUnion count => count
  | ShapeArray _ count => N.to_nat count
  | ShapeArbitrary offsets _ => length offsets
  end.
Definition shape_offset (s : FieldsShape) (i : nat) : outcome N :=
  match s with
  | ShapePrimitive => Panic
  | ShapeUnion count => assert! (i <? count)%nat; Ok 0%N
  | ShapeArray stride count => assert! (N.of_nat i <? count)%N; u64_mul stride (N.of_nat i)
  | ShapeArbitrary offsets _ => unwrap (offsets !! i)
  end.

(** The loop of [index_by_increasing_offset] that inverts [memory_index]: the slot of
    the position of each field gets the field.  Writing out of range panics. *)
Fixpoint invert (memory_index : list nat) (i : nat) (inverse : list nat) : outcome (list nat) :=
  match memory_index with
  | [] => Ok inverse
  | p :: rest =>
      assert! (p <? length inverse)%nat;
      invert rest (S i) (<[p := i]> inverse)
  end.

(** [FieldsShape::index_by_increasing_offset]: the fields in the order they have in
    memory.  The array has 64 slots when there are at most 64 fields. *)
Definition index_by_increasing_offset (s : FieldsShape) : outcome (list nat) :=
  match s with
  | ShapeArbitrary offsets memory_index =>
      let n := length offsets in
      assert! (n <=? length memory_index)%nat;
      inverse ← invert (take n memory_index) 0 (replicate (if (n <=? 64)%nat then 64 else n) 0);
      Ok (take n inverse)
  | _ => Ok (seq 0 (shape_count s))
  end.

(** ** Functions *)

(** [enum InstanceDef], by what the generator distinguishes *)
Inductive InstanceDef :=
| Item | Intrinsic | VtableShim | ReifyShim | FnPtrShim | Virtual (def : N) (idx : N)
| ClosureOnceShim | DropGlue (ty : option Ty) | CloneShim.
Record Instance_ := mkInstance { inst_id : N; inst_def : InstanceDef; inst_substs : list Ty }.

Inductive VtblEntry :=
| MetadataDropInPlace | MetadataSize | MetadataAlign | Vacant | Method (i : Instance_) | TraitVPtr.

(** [struct SwitchTargets]: one more target than values, the last for all others. *)
Record SwitchTargets := mkSwitchTargets { values : list N; targets : list N }.
Definition all_targets (t : SwitchTargets) : list N := targets t.
Definition switch_iter (t : SwitchTargets) : list (N * N) := zip (values t) (targets t).
Definition otherwise (t : SwitchTargets) : outcome N := unwrap (last (targets t)).
Definition target_for_value (t : SwitchTargets) (v : N) : outcome N :=
  match List.find (fun c => (c.1 =? v)%N) (switch_iter t) with
  | Some c => Ok c.2
  | None => otherwise t
  end.

(** ** Bodies ([rustc_middle/src/mir/mod.rs])

    Locals, basic blocks, variants, spans, allocations and unevaluated constants are
    indices. *)

Definition Local := N.
Definition BasicBlock := N.
Definition Span := N.
Definition AllocId := N.

(** [struct InitMask]: a bit per byte, in blocks of 64 *)
Record InitMask := mkInitMask { mask_blocks : list N; mask_len : N }.
#[export] Instance InitMask_eq_dec : EqDecision InitMask.
Proof. solve_decision. Defined.

(** [struct Allocation]: its bytes (the ones of a pointer hold the offset), where the
    pointers are and what they point into, which bytes are initialized, the alignment (a
    power of two, by its exponent) and whether it is mutable. *)
Record Allocation := mkAllocation {
  alloc_bytes : list N;
  relocations : list (N * AllocId);
  alloc_init_mask : InitMask;
  alloc_align : N;
  alloc_mutable : bool;
}.
#[export] Instance Allocation_eq_dec : EqDecision Allocation.
Proof. solve_decision. Defined.

(** [enum GlobalAlloc] *)
Inductive GlobalAlloc :=
| AllocFunction (i : Instance_)
| AllocStatic (def : N)
| AllocMemory (a : Allocation).

(** [enum Scalar]: an integer with its size in bytes, or a pointer into an allocation. *)
Inductive Scalar_ := ScalarInt (data size : N) | ScalarPtr (alloc : AllocId) (offset : N).

(** [enum ConstValue] *)
Inductive ConstValue :=
| CScalar (s : Scalar_)
| CSlice (data : Allocation) (start end_ : nat)
| CByRef (alloc : Allocation) (offset : N).

(** [enum ConstKind], [struct Const]; the kinds that monomorphization removes are one. *)
Inductive ConstKind := Unevaluated (id : N) | Value (v : ConstValue) | PolymorphicConst.
Record Const := mkConst { const_val : ConstKind; const_ty : Ty }.

(** [enum ConstantKind], [struct Constant] *)
Inductive ConstantKind := CkTy (c : Const) | CkVal (v : ConstValue) (ty : Ty).
Record MirConstant := mkMirConstant { const_span : Span; literal : ConstantKind }.

(** [ConstantKind::ty] *)
Definition constant_ty (k : ConstantKind) : Ty :=
  match k with CkTy c => const_ty c | CkVal _ ty => ty end.

(** The constant that is the length of an array *)
Definition usize_const (pointer_size n : N) : Const :=
  mkConst (Value (CScalar (ScalarInt n pointer_size))) (Uint Usize).

(** [Scalar::to_bits]: the data, if the size is the expected one (in bytes) *)
Definition to_bits (s : Scalar_) (target_size : N) : outcome N :=
  assert! negb (target_size =? 0)%N;
  match s with
  | ScalarInt data size => assert! (size =? target_size)%N; Ok data
  | ScalarPtr _ _ => Panic
  end.
(** [Scalar::to_bool] *)
Definition to_bool (s : Scalar_) : outcome bool :=
  v ← to_bits s 1;
  match v with 0%N => Ok false | 1%N => Ok true | _ => Panic end.
(** [Scalar::to_i32] *)
Definition to_i32 (s : Scalar_) : outcome Z :=
  v ← to_bits s 4; Ok (wrap 32 true (Z.of_N v)).

(** [ProjectionElem] *)
Inductive PlaceElem :=
| Deref
| ProjField (field : nat) (ty : Ty)
| Index (local : Local)
| ConstantIndex (offset min_length : N) (from_end : bool)
| Subslice (from to : N) (from_end : bool)
| Downcast (name : option string) (variant : N).
Record Place := mkPlace { place_local : Local; projection : list PlaceElem }.

Inductive Operand := Copy (p : Place) | Move (p : Place) | Constant (c : MirConstant).

Inductive BinOp :=
| Add | Sub | Mul | Div | Rem | BitXor | BitAnd | BitOr | Shl | Shr
| Eq | Lt | Le | Ne | Ge | Gt | Offset.
Inductive UnOp := Not | Neg.
Inductive NullOp := SizeOf | AlignOf | NullBox.
Inductive PointerCast :=
| ReifyFnPointer | UnsafeFnPointer | ClosureFnPointer | MutToConstPointer | ArrayToPointer | Unsize.
Inductive CastKind := Misc | Pointer (k : PointerCast).
(** ADTs, closures and generators are built by the statements they are expanded to; as
    aggregates they are only known by their type. *)
Inductive AggregateKind := AggArray (elt : Ty) | AggTuple | AggOther (ty : Ty).

Inductive Rvalue :=
| Use (o : Operand)
| Repeat (o : Operand) (count : N)
| RvRef (mutbl : bool) (p : Place)
| ThreadLocalRef (def : N)
| AddressOf (mutbl : bool) (p : Place)
| Len (p : Place)
| Cast (k : CastKind) (o : Operand) (ty : Ty)
| BinaryOp (op : BinOp) (a b : Operand)
| CheckedBinaryOp (op : BinOp) (a b : Operand)
| NullaryOp (op : NullOp) (ty : Ty)
| UnaryOp (op : UnOp) (o : Operand)
| Discriminant (p : Place)
| MirAggregate (k : AggregateKind) (os : list Operand)
| ShallowInitBox (o : Operand) (ty : Ty).

Inductive StatementKind :=
| Assign (p : Place) (r : Rvalue)
| FakeRead
| SetDiscriminant (p : Place) (variant_index : N)
| StorageLive (l : Local)
| StorageDead (l : Local)
| LlvmInlineAsm
| Retag
| AscribeUserType
| Coverage
| CopyNonOverlapping (src dst count : Operand)
| Nop.

(** Cleanup blocks are left out: the generator does not follow unwinding.  The
    message of an assertion is its [Debug] text. *)
Inductive TerminatorKind :=
| Goto (target : BasicBlock)
| SwitchInt (discr : Operand) (switch_ty : Ty) (targets : SwitchTargets)
| Resume
| Abort
| Return
| Unreachable
| Drop (place : Place) (target : BasicBlock)
| DropAndReplace (place : Place) (value : Operand) (target : BasicBlock)
| Call (func : Operand) (args : list Operand) (destination : option (Place * BasicBlock))
| MirAssert (cond : Operand) (expected : bool) (msg : string) (target : BasicBlock)
| Yield
| GeneratorDrop
| FalseEdge
| FalseUnwind
| InlineAsm.

Record Statement := mkStatement { stmt_kind : StatementKind; stmt_span : Span }.
Record Terminator := mkTerminator { term_kind : TerminatorKind; term_span : Span }.
Record BasicBlockData := mkBasicBlockData { statements : list Statement; terminator : Terminator }.
Record LocalDecl := mkLocalDecl { decl_ty : Ty; local_span : Span }.

(** [struct VarDebugInfo] *)
Inductive VarDebugInfoContents := DebugPlace (p : Place) | DebugConst.
Record VarDebugInfo := mkVarDebugInfo { info_name : string; info_value : VarDebugInfoContents }.

(** [struct Body] *)
Record Body := mkBody {
  basic_blocks : list BasicBlockData;
  local_decls : list LocalDecl;
  arg_count : nat;
  spread_arg : option Local;
  var_debug_info : list VarDebugInfo;
  body_span : Span;
}.
