(* ===== verification/GotoCtx.v ===== *)
(** * The context of the code generator
    ([rustc_codegen_rmc/src/context/goto_ctx.rs], [current_fn.rs], [utils/names.rs],
     [codegen/span.rs])

    [GotocCtx] is the state the translation of a crate threads: the symbol table,
    counters for fresh names and the function being compiled.  Its methods are in the
    monad [G]: state, panics, and fuel, because the translation of types calls itself
    through [ensure_struct].  The theorems are about what the rest of the generator
    takes for granted: that temporaries never clash, that global names are distinct,
    and that [ensure_struct] and [ensure_union] leave no type half-defined however the
    generators of their fields call back into them. *)

From S2P Require Import Prelude CbmcString MachineModel Location Typ Ast SymbolTable Expr Symbol.
From S2P Require Import Builtin Stmt Env Restrictions Mir.

(** ** State *)

(** [struct CurrentFnCtx] *)
Record CurrentFnCtx := mkCurrentFnCtx {
  fn_block : list Stmt;
  fn_current_bb : option BasicBlock;
  fn_instance : Instance_;
  fn_labels : list string;
  fn_mir : Body;
  fn_name : string;
  fn_readable_name : string;
  fn_sig : option FnSig;
  temp_var_counter : N;
}.

(** [struct HarnessMetadata] *)
Record HarnessMetadata := mkHarnessMetadata {
  harness_pretty_name : string;
  harness_mangled_name : string;
  original_file : string;
  original_line : string;
}.

(** [struct GotocCtx], without the handles to the compiler and the hooks. *)
Record GotocCtx := mkGotocCtx {
  gcx_table : SymbolTable;
  gcx_full_crate_name : string;
  global_var_count : N;
  gcx_vtable_ctx : VtableCtx;
  gcx_current_fn : option CurrentFnCtx;
  type_map : gmap InternedString Ty;
  alloc_map : list (Allocation * string);
  proof_harnesses : list HarnessMetadata;
}.

Definition set_table (c : GotocCtx) (st : SymbolTable) : GotocCtx :=
  mkGotocCtx st (gcx_full_crate_name c) (global_var_count c) (gcx_vtable_ctx c)
    (gcx_current_fn c) (type_map c) (alloc_map c) (proof_harnesses c).
Definition set_fn (c : GotocCtx) (f : option CurrentFnCtx) : GotocCtx :=
  mkGotocCtx (gcx_table c) (gcx_full_crate_name c) (global_var_count c) (gcx_vtable_ctx c)
    f (type_map c) (alloc_map c) (proof_harnesses c).
Definition set_type_map (c : GotocCtx) (m : gmap InternedString Ty) : GotocCtx :=
  mkGotocCtx (gcx_table c) (gcx_full_crate_name c) (global_var_count c) (gcx_vtable_ctx c)
    (gcx_current_fn c) m (alloc_map c) (proof_harnesses c).

(** ** The monad *)

Definition G (A : Type) : Type := GotocCtx -> fuelled (A * GotocCtx).

#[export] Instance G_ret : MRet G := fun A a c => Done (Ok (a, c)).
#[export] Instance G_bind : MBind G := fun A B f m c =>
  match m c with
  | Done (Ok (a, c')) => f a c'
  | Done Panic => Done Panic
  | OutOfFuel => OutOfFuel
  end.

Definition g_lift {A} (m : outcome A) : G A := fun c =>
  match m with Ok a => Done (Ok (a, c)) | Panic => Done Panic end.
Definition g_get : G GotocCtx := fun c => Done (Ok (c, c)).
Definition g_table : G SymbolTable := fun c => Done (Ok (gcx_table c, c)).

(** [self.symbol_table.op(...)] for an operation that changes the table *)
Definition g_update (f : SymbolTable -> outcome SymbolTable) : G unit := fun c =>
  match f (gcx_table c) with
  | Ok st => Done (Ok (tt, set_table c st))
  | Panic => Done Panic
  end.

Fixpoint g_map {A B} (f : A -> G B) (l : list A) : G (list B) :=
  match l with
  | [] => mret []
  | a :: l => b ← f a; r ← g_map f l; mret (b :: r)
  end.

(** ** The current function ([current_fn.rs]) *)

(** [GotocCtx::current_fn], [current_fn_mut] *)
Definition current_fn : G CurrentFnCtx := fun c =>
  match gcx_current_fn c with Some f => Done (Ok (f, c)) | None => Done Panic end.
Definition update_fn (g : CurrentFnCtx -> CurrentFnCtx) : G unit := fun c =>
  match gcx_current_fn c with
  | Some f => Done (Ok (tt, set_fn c (Some (g f))))
  | None => Done Panic
  end.

(** [CurrentFnCtx::new]: what the compiler says about the instance is given. *)
Definition current_fn_new (instance : Instance_) (mir : Body) (name readable_name : string)
    (sig : option FnSig) : CurrentFnCtx :=
  mkCurrentFnCtx [] None instance [] mir name readable_name sig 0.

Definition with_block (f : CurrentFnCtx) (b : list Stmt) : CurrentFnCtx :=
  mkCurrentFnCtx b (fn_current_bb f) (fn_instance f) (fn_labels f) (fn_mir f) (fn_name f)
    (fn_readable_name f) (fn_sig f) (temp_var_counter f).

Definition extract_block : G (list Stmt) :=
  f ← current_fn; update_fn (fun f => with_block f []);; mret (fn_block f).

Definition push_onto_block (s : Stmt) : G unit :=
  update_fn (fun f => with_block f (fn_block f ++ [s])).

Definition with_counter (f : CurrentFnCtx) (n : N) : CurrentFnCtx :=
  mkCurrentFnCtx (fn_block f) (fn_current_bb f) (fn_instance f) (fn_labels f) (fn_mir f)
    (fn_name f) (fn_readable_name f) (fn_sig f) n.

Definition get_and_incr_counter : G N :=
  f ← current_fn;
  n ← g_lift (u64_add (temp_var_counter f) 1);
  update_fn (fun f => with_counter f n);;
  mret (temp_var_counter f).

Definition with_bb (f : CurrentFnCtx) (bb : option BasicBlock) : CurrentFnCtx :=
  mkCurrentFnCtx (fn_block f) bb (fn_instance f) (fn_labels f) (fn_mir f) (fn_name f)
    (fn_readable_name f) (fn_sig f) (temp_var_counter f).
Definition set_current_bb (bb : BasicBlock) : G unit := update_fn (fun f => with_bb f (Some bb)).
Definition reset_current_bb : G unit := update_fn (fun f => with_bb f None).

Definition set_labels (labels : list string) : G unit :=
  f ← current_fn;
  g_lift (rassert (match fn_labels f with [] => true | _ => false end));;
  update_fn (fun f => mkCurrentFnCtx (fn_block f) (fn_current_bb f) (fn_instance f) labels
    (fn_mir f) (fn_name f) (fn_readable_name f) (fn_sig f) (temp_var_counter f)).

(** [CurrentFnCtx::find_label] *)
Definition find_label (bb : BasicBlock) : G string :=
  f ← current_fn; g_lift (unwrap (fn_labels f !! N.to_nat bb)).

(** ** Names ([names.rs]) *)

(** The [Debug] text of a local or a block: [_3], [bb3]. *)
Definition local_debug (l : Local) : string := "_" +:+ pretty l.
Definition bb_debug (bb : BasicBlock) : string := "bb" +:+ pretty bb.

(** [find_debug_info] ([span.rs]) *)
Definition find_debug_info (mir : Body) (l : Local) : option VarDebugInfo :=
  List.find (fun info => match info_value info with
                         | DebugPlace p => (place_local p =? l)%N && bool_decide (projection p = [])
                         | DebugConst => false
                         end) (var_debug_info mir).

Definition codegen_var_base_name (l : Local) : G string :=
  f ← current_fn;
  mret (match find_debug_info (fn_mir f) l with
        | None => "var_" +:+ pretty l
        | Some info => info_name info
        end).

Definition codegen_var_name (l : Local) : G string :=
  f ← current_fn;
  mret (match find_debug_info (fn_mir f) l with
        | Some info => fn_name f +:+ "::1::var" +:+ local_debug l +:+ "::" +:+ info_name info
        | None => fn_name f +:+ "::1::var" +:+ local_debug l
        end).

Definition codegen_spread_arg_name (l : Local) : G (string * string) :=
  f ← current_fn;
  let base_name := "spread" +:+ local_debug l in
  mret (fn_name f +:+ "::1::" +:+ base_name, base_name).

Definition initializer_fn_name (var_name : string) : string := var_name +:+ "_init".
Definition tuple_fld_name (n : nat) : string := pretty (N.of_nat n).
Definition vtable_field_name (idx : N) : InternedString := pretty idx.

(** ** Variables *)

(** The name [gen_stack_variable] gives to the variable numbered [c]. *)
Definition stack_base_name (prefix : string) (c : N) : string := prefix +:+ "_" +:+ pretty c.
Definition stack_name (fname prefix : string) (c : N) : string :=
  fname +:+ "::1::" +:+ stack_base_name prefix c.

Definition declare_variable (name base_name : InternedString) (t : Type_) (value : option Expr)
    (l : Location) : G Symbol :=
  let sym := variable name base_name t l in
  g_update (fun st => insert st sym);;
  s ← g_lift (decl (to_expr sym) value l);
  push_onto_block s;;
  mret sym.

Definition gen_stack_variable (c : N) (fname prefix : string) (t : Type_) (loc : Location) :
    G Symbol :=
  let symbol := variable (stack_name fname prefix c) (stack_base_name prefix c) t loc in
  g_update (fun st => insert st symbol);;
  mret symbol.

Definition gen_function_local_variable (c : N) (fname : string) (t : Type_) : G Symbol :=
  gen_stack_variable c fname "var" t Location.none.

Definition gen_temp_variable (t : Type_) (loc : Location) : G Symbol :=
  c ← get_and_incr_counter;
  f ← current_fn;
  gen_stack_variable c (fn_name f) "temp" t loc.

(** ** The symbol table *)

(** [GotocCtx::ensure]: unlike [SymbolTable::ensure] it does not compare the name of the
    new symbol with [name]; the final lookup fails if they differ. *)
Definition g_ensure (name : InternedString) (f : InternedString -> G Symbol) : G Symbol :=
  st ← g_table;
  (if contains st name then mret tt
   else sym ← f name; g_update (fun st => insert st sym));;
  st ← g_table;
  g_lift (unwrap (lookup st name)).

Definition register_initializer (var_name : string) (b : Stmt) : G Symbol :=
  let fn_name := initializer_fn_name var_name in
  g_ensure fn_name (fun _ =>
    mret (with_is_file_local
      (function fn_name (code [] constructor) (Some (block [b] Location.none)) None Location.none)
      true)).

Definition ensure_global_var (name : InternedString) (file_local : bool) (t : Type_)
    (loc : Location) (init_fn : Expr -> G (option Stmt)) : G Expr :=
  st ← g_table;
  (if contains st name then mret tt
   else
     let sym := with_is_file_local (static_variable name name t loc) file_local in
     g_update (fun st => insert st sym);;
     o ← init_fn (to_expr sym);
     match o with
     | Some b => register_initializer name b;; mret tt
     | None => mret tt
     end);;
  st ← g_table;
  s ← g_lift (unwrap (lookup st name));
  mret (to_expr s).

Section Aggregates.
Context `{InternOrder}.

(** [ensure_struct]: the incomplete struct is inserted before the fields are generated. *)
Definition ensure_struct (struct_name : InternedString) (pretty_name : option InternedString)
    (f : InternedString -> G (list DatatypeComponent)) : G Type_ :=
  g_lift (rassert (negb (String.prefix "tag-" struct_name)));;
  st ← g_table;
  (if contains st (aggr_tag struct_name) then mret tt
   else
     inc ← g_lift (symbol_incomplete_struct struct_name pretty_name);
     g_update (fun st => insert st inc);;
     components ← f struct_name;
     sym ← g_lift (symbol_struct_type struct_name pretty_name components);
     g_update (fun st => replace_with_completion st sym));;
  mret (struct_tag struct_name).

Definition ensure_union (union_name : InternedString) (pretty_name : option InternedString)
    (f : InternedString -> G (list DatatypeComponent)) : G Type_ :=
  g_lift (rassert (negb (String.prefix "tag-" union_name)));;
  st ← g_table;
  (if contains st (aggr_tag union_name) then mret tt
   else
     inc ← g_lift (symbol_incomplete_union union_name pretty_name);
     g_update (fun st => insert st inc);;
     components ← f union_name;
     sym ← g_lift (symbol_union_type union_name pretty_name components);
     g_update (fun st => replace_with_completion st sym));;
  mret (union_tag union_name).

End Aggregates.

Definition find_function (fname : InternedString) : G (option Expr) :=
  st ← g_table; mret (to_expr <$> lookup st fname).

(** ** Mutators *)

Definition set_current_fn (f : CurrentFnCtx) : G unit := fun c => Done (Ok (tt, set_fn c (Some f))).
Definition reset_current_fn : G unit := fun c => Done (Ok (tt, set_fn c None)).

Definition next_global_name : G string := fun c =>
  match u64_add (global_var_count c) 1 with
  | Ok n =>
      Done (Ok (gcx_full_crate_name c +:+ "::global::" +:+ pretty (global_var_count c) +:+ "::",
                mkGotocCtx (gcx_table c) (gcx_full_crate_name c) n (gcx_vtable_ctx c)
                  (gcx_current_fn c) (type_map c) (alloc_map c) (proof_harnesses c)))
  | Panic => Done Panic
  end.

(** [self.virtual_call_with_restricted_fn_ptr(...)] on the parts of the context it uses *)
Definition g_wrapper {A} (m : ST WrapperCtx A) : G A := fun c =>
  match m (mkWrapperCtx (gcx_table c) (gcx_vtable_ctx c)) with
  | Ok (a, w) =>
      Done (Ok (a, mkGotocCtx (gcx_symbol_table w) (gcx_full_crate_name c) (global_var_count c)
                     (vtable_ctx w) (gcx_current_fn c) (type_map c) (alloc_map c) (proof_harnesses c)))
  | Panic => Done Panic
  end.

(** [machine_model_from_session]: alignment, architecture, endianness and pointer width
    come from the target. *)
Definition machine_model_from_session (min_global_align : option N) (arch : string)
    (big_endian : bool) (pointer_width : N) : MachineModel := {|
  alignment := default 1%N min_global_align;
  architecture := arch;
  bool_width := 8;
  char_is_unsigned := false;
  char_width := 8;
  double_width := 64;
  float_width := 32;
  int_width := 32;
  is_big_endian := big_endian;
  long_double_width := 128;
  long_int_width := 64;
  long_long_int_width := 64;
  memory_operand_size := 4;
  null_is_zero := true;
  MachineModel.pointer_width := pointer_width;
  rounding_mode := ToNearest;
  short_int_width := 16;
  single_width := 32;
  wchar_t_is_unsigned := false;
  wchar_t_width := 32;
  word_size := 32;
|}.

(** [GotocCtx::new] *)
Definition goto_ctx_new (mm : MachineModel) (full_crate_name : string)
    (emit_vtable_restrictions : bool) : outcome GotocCtx :=
  st ← symtab_new mm;
  Ok (mkGotocCtx st full_crate_name 0 (vtable_ctx_new emit_vtable_restrictions) None ∅ [] []).

(** ** Reasoning about the monad *)

Lemma g_bind_ok {A B} (m : G A) (f : A -> G B) c r :
  mbind f m c = Done (Ok r) <-> exists a c1, m c = Done (Ok (a, c1)) /\ f a c1 = Done (Ok r).
Proof.
  unfold mbind, G_bind. destruct (m c) as [[[a c1]|]|]; split.
  - intros H. by exists a, c1.
  - intros (a' & c2 & E & H). injection E as -> ->. done.
  - done.
  - by intros (? & ? & ? & _).
  - done.
  - by intros (? & ? & ? & _).
Qed.

Lemma g_update_ok f c r :
  g_update f c = Done (Ok r) <-> exists st, f (gcx_table c) = Ok st /\ r = (tt, set_table c st).
Proof.
  unfold g_update. destruct (f (gcx_table c)) as [st|]; split.
  - intros [= <-]. by exists st.
  - by intros (? & [= <-] & ->).
  - done.
  - by intros (? & ? & _).
Qed.

Lemma g_lift_ok {A} (m : outcome A) c r :
  g_lift m c = Done (Ok r) <-> exists a, m = Ok a /\ r = (a, c).
Proof.
  unfold g_lift. destruct m as [a|]; split.
  - intros [= <-]. by exists a.
  - by intros (? & [= <-] & ->).
  - done.
  - by intros (? & ? & _).
Qed.

Lemma current_fn_ok c r :
  current_fn c = Done (Ok r) <-> exists f, gcx_current_fn c = Some f /\ r = (f, c).
Proof.
  unfold current_fn. destruct (gcx_current_fn c) as [f|]; split.
  - intros [= <-]. by exists f.
  - by intros (? & [= <-] & ->).
  - done.
  - by intros (? & ? & _).
Qed.

Lemma update_fn_ok g c r :
  update_fn g c = Done (Ok r)
  <-> exists f, gcx_current_fn c = Some f /\ r = (tt, set_fn c (Some (g f))).
Proof.
  unfold update_fn. destruct (gcx_current_fn c) as [f|]; split.
  - intros [= <-]. by exists f.
  - by intros (? & [= <-] & ->).
  - done.
  - by intros (? & ? & _).
Qed.

(** Split a successful run into the runs of its parts. *)
Ltac g_inv :=
  repeat match goal with
  | H : mbind _ _ _ = Done (Ok _) |- _ =>
      apply g_bind_ok in H; destruct H as (? & ? & ? & ?)
  | H : g_update _ _ = Done (Ok _) |- _ =>
      apply g_update_ok in H; destruct H as (? & ? & H); injection H as -> ->
  | H : g_lift _ _ = Done (Ok _) |- _ =>
      apply g_lift_ok in H; destruct H as (? & ? & H); injection H as -> ->
  | H : current_fn _ = Done (Ok _) |- _ =>
      apply current_fn_ok in H; destruct H as (? & ? & H); injection H as -> ->
  | H : update_fn _ _ = Done (Ok _) |- _ =>
      apply update_fn_ok in H; destruct H as (? & ? & H); injection H as -> ->
  | H : g_table _ = Done (Ok _) |- _ => injection H as <- <-
  | H : g_get _ = Done (Ok _) |- _ => injection H as <- <-
  | H : mret _ _ = Done (Ok _) |- _ => injection H as <- <-
  end; simplify_eq/=.

(** ** Types that are being defined

    [ensure_struct] makes a type known before its fields are generated.  A step of the
    generator is [settled] when it leaves open exactly the types that were open
    before, apart from foreign types, whose contents nobody knows. *)

Definition is_incomplete (t : Type_) : bool :=
  match t with TIncompleteStruct _ | TIncompleteUnion _ => true | _ => false end.

Definition is_open (s : Symbol) : bool := is_type s && is_incomplete (sym_typ s).

Definition open_types (st : SymbolTable) (name : InternedString) : Prop :=
  exists s, lookup st name = Some s /\ is_open s = true.

(** The function being compiled is the same, but for the number of its temporaries. *)
Definition same_fn (o o' : option CurrentFnCtx) : Prop :=
  match o, o' with
  | Some f, Some f' => exists n, f' = with_counter f n
  | None, None => True
  | _, _ => False
  end.

#[export] Instance same_fn_preorder : PreOrder same_fn.
Proof.
  split.
  - intros [f|]; [|done]. exists (temp_var_counter f). by destruct f.
  - intros [f1|] [f2|] [f3|]; try done. intros [n ->] [m ->]. by exists m.
Qed.

(** Whether virtual calls are restricted, which is fixed when the context is made *)
Definition restricts (c : GotocCtx) : bool := emit_vtable_restrictions (gcx_vtable_ctx c).

Definition settled (foreign : InternedString -> Prop) (c c' : GotocCtx) : Prop :=
  same_fn (gcx_current_fn c) (gcx_current_fn c')
  /\ rtc symtab_step (gcx_table c) (gcx_table c')
  /\ (forall n, open_types (gcx_table c) n -> open_types (gcx_table c') n)
  /\ (forall n, open_types (gcx_table c') n -> open_types (gcx_table c) n \/ foreign n)
  /\ restricts c' = restricts c.

Definition settles (foreign : InternedString -> Prop) {A} (m : G A) : Prop :=
  forall c a c', m c = Done (Ok (a, c')) -> settled foreign c c'.

Section Settling.
Context (foreign : InternedString -> Prop).

Lemma settled_refl c c' :
  gcx_table c' = gcx_table c -> gcx_current_fn c' = gcx_current_fn c -> restricts c' = restricts c ->
  settled foreign c c'.
Proof. intros E Ef Hv. unfold settled. rewrite E, Ef. split; [done|]. split; [done|]. auto. Qed.

Lemma settled_trans c1 c2 c3 :
  settled foreign c1 c2 -> settled foreign c2 c3 -> settled foreign c1 c3.
Proof.
  intros (Hf1 & Hr1 & Hk1 & Ho1 & Hv1) (Hf2 & Hr2 & Hk2 & Ho2 & Hv2).
  split; [by etrans|]. split; [by etrans|]. split; [auto|]. split; [|congruence].
  intros n [H|H]%Ho2; auto.
Qed.

Lemma settles_ret {A} (a : A) : settles foreign (mret a).
Proof. intros c ? ? [= <- <-]. by apply settled_refl. Qed.

Lemma settles_lift {A} (m : outcome A) : settles foreign (g_lift m).
Proof. intros c a c' (? & _ & [= -> ->])%g_lift_ok. by apply settled_refl. Qed.

Lemma settles_table : settles foreign g_table.
Proof. intros c ? ? [= <- <-]. by apply settled_refl. Qed.

Lemma settles_get : settles foreign g_get.
Proof. intros c ? ? [= <- <-]. by apply settled_refl. Qed.

Lemma settles_current_fn : settles foreign current_fn.
Proof. intros c ? ? (? & _ & [= -> ->])%current_fn_ok. by apply settled_refl. Qed.

Lemma settles_bind {A B} (m : G A) (f : A -> G B) :
  settles foreign m -> (forall a, settles foreign (f a)) -> settles foreign (mbind f m).
Proof.
  intros Hm Hf c b c' (a & c1 & H1 & H2)%g_bind_ok.
  eapply settled_trans; [by eapply Hm | by eapply Hf].
Qed.

Lemma settles_map {A B} (f : A -> G B) l :
  (forall a, a ∈ l -> settles foreign (f a)) -> settles foreign (g_map f l).
Proof.
  induction l as [|a l IH]; cbn; intros Hf; [apply settles_ret|].
  apply settles_bind; [apply Hf; left|]. intros b.
  apply settles_bind; [apply IH; intros; apply Hf; by right|]. intros r. apply settles_ret.
Qed.

Lemma settles_fuel {A} : settles foreign (fun _ => OutOfFuel : fuelled (A * GotocCtx)).
Proof. by intros c a c'. Qed.

(** A new symbol that is not an open type, or is a foreign one. *)
Lemma settled_insert c s st :
  insert (gcx_table c) s = Ok st -> is_open s = false \/ foreign (sym_name s) ->
  settled foreign c (set_table c st).
Proof.
  intros Hi Hs. pose proof (proj1 (insert_ok _ _ _) Hi) as [Hn ->].
  split; [done|]. split; [by apply rtc_once, (step_insert _ s)|]. cbn.
  split; [|split; [|done]]; intros n (s0 & Hl & Ho).
  - exists s0. rewrite lookup_raw_insert. destruct (decide (n = sym_name s)) as [->|]; [|done].
    by rewrite Hn in Hl.
  - rewrite lookup_raw_insert in Hl. destruct (decide (n = sym_name s)) as [->|].
    + injection Hl as ->. right. destruct Hs as [Hs|Hs]; [by rewrite Hs in Ho | done].
    + left. by exists s0.
Qed.

Lemma settles_insert (g : SymbolTable -> Symbol) :
  (forall st, is_open (g st) = false \/ foreign (sym_name (g st))) ->
  settles foreign (g_update (fun st => insert st (g st))).
Proof.
  intros Hs c ? ? (st & Hi & [= -> ->])%g_update_ok. by eapply settled_insert.
Qed.

Lemma settles_ensure name f :
  (forall n, settles foreign (f n)) ->
  (forall c s c', f name c = Done (Ok (s, c')) -> is_open s = false \/ foreign (sym_name s)) ->
  settles foreign (g_ensure name f).
Proof.
  intros Hf Hs. apply settles_bind; [apply settles_table|]. intros st.
  apply settles_bind; [|intros _; apply settles_bind; [apply settles_table | intros; apply settles_lift]].
  destruct (contains st name); [apply settles_ret|].
  intros c ? c' (s & c1 & H1 & (st1 & Hi & [= -> ->])%g_update_ok)%g_bind_ok.
  eapply settled_trans; [by eapply Hf|]. eapply settled_insert; [done|]. by eapply Hs.
Qed.

(** Opening a type, generating its fields and completing it. *)
Lemma settled_complete c s st c1 s' st' :
  insert (gcx_table c) s = Ok st -> settled foreign (set_table c st) c1 ->
  replace_with_completion (gcx_table c1) s' = Ok st' -> sym_name s' = sym_name s ->
  is_open s' = false ->
  settled foreign c (set_table c1 st').
Proof.
  intros Hi (Hf & Hr & Hk & Ho & Hv) Hc Hn Hs'. pose proof (proj1 (insert_ok _ _ _) Hi) as [Hnone ->].
  assert (st' = raw_insert (gcx_table c1) s') as E.
  { unfold replace_with_completion, replace in Hc. by outcome_inv. }
  cbn in *. split; [done|]. split.
  { eapply rtc_l; [by apply (step_insert _ s)|]. eapply rtc_r; [done|]. by apply (step_complete _ s'). }
  rewrite E. cbn. split; [|split; [|done]]; intros n Hopen.
  - assert (n <> sym_name s) as Hne.
    { intros ->. destruct Hopen as (? & Hl & _). by rewrite Hnone in Hl. }
    destruct (Hk n) as (s0 & Hl & Hi0).
    { destruct Hopen as (s0 & Hl & Hi0). exists s0. by rewrite lookup_raw_insert, decide_False. }
    exists s0. rewrite lookup_raw_insert, decide_False by congruence. done.
  - destruct Hopen as (s0 & Hl & Hi0). rewrite lookup_raw_insert in Hl.
    destruct (decide (n = sym_name s')) as [->|Hne].
    { injection Hl as ->. by rewrite Hs' in Hi0. }
    destruct (Ho n) as [(s1 & Hl1 & Hi1)|Hf']; [by exists s0 | | by right].
    rewrite lookup_raw_insert, decide_False in Hl1 by congruence. left. by exists s1.
Qed.
End Settling.

Create HintDb settles.
#[export] Hint Resolve settles_ret settles_lift settles_table settles_get settles_current_fn
  settles_fuel : settles.
#[export] Hint Extern 1 (settles _ (mbind _ _)) =>
  apply settles_bind; [|intros ?] : settles.

Section EnsureStruct.
Context `{InternOrder} (foreign : InternedString -> Prop).

Lemma struct_type_symbol n p cs s :
  symbol_struct_type n p cs = Ok s -> sym_name s = aggr_tag n /\ sym_typ s = TStruct n cs.
Proof. unfold symbol_struct_type, struct_type, aggr_ty. intros. outcome_inv. by simplify_eq/=. Qed.

Lemma union_type_symbol n p cs s :
  symbol_union_type n p cs = Ok s -> sym_name s = aggr_tag n /\ sym_typ s = TUnion n cs.
Proof. unfold symbol_union_type, union_type, aggr_ty. intros. outcome_inv. by simplify_eq/=. Qed.

Lemma settles_ensure_struct n p f :
  (forall m, settles foreign (f m)) -> settles foreign (ensure_struct n p f).
Proof.
  intros Hf. unfold ensure_struct. apply settles_bind; [apply settles_lift|]. intros _.
  apply settles_bind; [apply settles_table|]. intros st.
  apply settles_bind; [|intros; apply settles_ret]. destruct (contains st _); [apply settles_ret|].
  intros c u c' Hrun. g_inv.
  match goal with E : symbol_incomplete_struct _ _ = Ok _ |- _ => injection E as <- end.
  match goal with E : symbol_struct_type _ _ _ = Ok _ |- _ =>
    apply struct_type_symbol in E as [En Et] end.
  eapply settled_complete; [done | by eapply Hf | done | by rewrite En |].
  unfold is_open. by rewrite Et, andb_false_r.
Qed.

Lemma settles_ensure_union n p f :
  (forall m, settles foreign (f m)) -> settles foreign (ensure_union n p f).
Proof.
  intros Hf. unfold ensure_union. apply settles_bind; [apply settles_lift|]. intros _.
  apply settles_bind; [apply settles_table|]. intros st.
  apply settles_bind; [|intros; apply settles_ret]. destruct (contains st _); [apply settles_ret|].
  intros c u c' Hrun. g_inv.
  match goal with E : symbol_incomplete_union _ _ = Ok _ |- _ => injection E as <- end.
  match goal with E : symbol_union_type _ _ _ = Ok _ |- _ =>
    apply union_type_symbol in E as [En Et] end.
  eapply settled_complete; [done | by eapply Hf | done | by rewrite En |].
  unfold is_open. by rewrite Et, andb_false_r.
Qed.

(** An open type that a settled step has kept open is the same symbol. *)
Lemma open_unchanged c c' n s :
  settled foreign c c' -> lookup (gcx_table c) n = Some s -> is_open s = true ->
  lookup (gcx_table c') n = Some s.
Proof.
  intros (_ & Hr & Hk & _) Hl Hi. destruct (symtab_steps_le _ _ Hr) as [_ Hle].
  pose proof (proj1 (andb_true_iff _ _) Hi) as [_ Hinc].
  destruct (Hle _ _ Hl) as (s' & Hl' & [->|[[Hf _]|Hc]]); [done| |].
  - unfold is_function_declaration, is_function in Hf. by destruct (sym_typ s).
  - destruct (Hk n) as (s1 & Hl1 & Hi1); [by exists s|]. rewrite Hl' in Hl1.
    injection Hl1 as <-. apply andb_true_iff in Hi1 as [_ Hinc1].
    by destruct (sym_typ s'), (sym_typ s).
Qed.

(** What [ensure_struct] does when the type is new: it succeeds whenever the generator of
    the fields does, however that generator uses the context. *)
Lemma ensure_struct_new n p f c st1 cs c1 :
  String.prefix "tag-" n = false -> lookup (gcx_table c) (aggr_tag n) = None ->
  symbol_incomplete_struct n p = Ok st1 ->
  f n (set_table c (raw_insert (gcx_table c) st1)) = Done (Ok (cs, c1)) ->
  settled foreign (set_table c (raw_insert (gcx_table c) st1)) c1 ->
  components_are_unique cs = true ->
  exists s, symbol_struct_type n p cs = Ok s
    /\ ensure_struct n p f c
       = Done (Ok (struct_tag n, set_table c1 (raw_insert (gcx_table c1) s))).
Proof.
  intros Hp Hn Hinc Hf Hs Hu. injection Hinc as <-.
  assert (exists s, symbol_struct_type n p cs = Ok s) as [s Es].
  { unfold symbol_struct_type, struct_type. rewrite Hu. by eexists. }
  exists s. split; [done|]. destruct (struct_type_symbol _ _ _ _ Es) as [En Et].
  unfold ensure_struct, contains. rewrite Hp.
  unfold mbind, G_bind, g_lift, g_table, rassert. cbn -[raw_insert aggr_tag].
  rewrite bool_decide_eq_false_2 by (unfold lookup in Hn; rewrite Hn; by intros []).
  unfold g_update, insert. cbn -[raw_insert aggr_tag]. unfold lookup in Hn |- *.
  rewrite Hn. cbn -[raw_insert aggr_tag]. rewrite Hf, Es. cbn -[raw_insert aggr_tag].
  unfold replace_with_completion, replace. rewrite En.
  erewrite (open_unchanged _ c1 (aggr_tag n)); [| apply Hs | |]; cycle 1.
  - cbn [set_table gcx_table]. rewrite lookup_raw_insert. by rewrite decide_True.
  - done.
  - cbn -[raw_insert aggr_tag]. by rewrite Et, String.eqb_refl.
Qed.
End EnsureStruct.

(** ** Temporaries *)

Definition temp_name (f : CurrentFnCtx) (k : N) : string := stack_name (fn_name f) "temp" k.

#[export] Instance temp_name_inj f : Inj (=) (=) (temp_name f).
Proof.
  intros i j E. unfold temp_name, stack_name, stack_base_name in E.
  do 4 apply (inj _) in E. by apply (inj pretty) in E.
Qed.

(** No temporary with a number still to come is in the table. *)
Definition temps_fresh (c : GotocCtx) : Prop :=
  forall f k, gcx_current_fn c = Some f -> (temp_var_counter f <= k)%N ->
  lookup (gcx_table c) (temp_name f k) = None.

(** A change of the context by anything else: the function compiled and its counter
    stay, and no name of a temporary is taken. *)
Definition other_step (c c' : GotocCtx) : Prop :=
  forall f, gcx_current_fn c = Some f ->
  exists f', gcx_current_fn c' = Some f' /\ fn_name f' = fn_name f
    /\ temp_var_counter f' = temp_var_counter f
    /\ (forall n, is_Some (lookup (gcx_table c) n) -> is_Some (lookup (gcx_table c') n))
    /\ (forall k, lookup (gcx_table c) (temp_name f k) = None ->
                  lookup (gcx_table c') (temp_name f k) = None).

(** Temporaries made one after the other, with other work in between. *)
Inductive temp_trace : GotocCtx -> list Symbol -> GotocCtx -> Prop :=
| trace_nil c : temp_trace c [] c
| trace_temp c t loc s c1 ss c2 :
    gen_temp_variable t loc c = Done (Ok (s, c1)) -> temp_trace c1 ss c2 ->
    temp_trace c (s :: ss) c2
| trace_other c c1 ss c2 :
    other_step c c1 -> temp_trace c1 ss c2 -> temp_trace c ss c2.

Definition counted (f : CurrentFnCtx) (n : N) : CurrentFnCtx :=
  mkCurrentFnCtx (fn_block f) (fn_current_bb f) (fn_instance f) (fn_labels f) (fn_mir f)
    (fn_name f) (fn_readable_name f) (fn_sig f) n.

(** [gen_temp_variable] on a context where the next number is free. *)
Lemma gen_temp_variable_run t loc c f :
  gcx_current_fn c = Some f -> (temp_var_counter f < u64_max)%N -> temps_fresh c ->
  let s := variable (temp_name f (temp_var_counter f)) (stack_base_name "temp" (temp_var_counter f))
             t loc in
  gen_temp_variable t loc c
  = Done (Ok (s, set_table (set_fn c (Some (counted f (temp_var_counter f + 1))))
                   (raw_insert (gcx_table c) s))).
Proof.
  intros Hf Hc Hfresh s. unfold gen_temp_variable, get_and_incr_counter, gen_stack_variable.
  unfold mbind, G_bind, current_fn, g_lift. rewrite Hf.
  rewrite (proj2 (u64_add_ok _ 1 _)) by (split; [reflexivity | lia]).
  unfold update_fn. rewrite Hf. cbn -[stack_name variable insert N.add].
  unfold g_update. cbn -[stack_name variable insert N.add].
  change (stack_name (fn_name f) "temp" (temp_var_counter f)) with (temp_name f (temp_var_counter f)).
  fold s. rewrite (proj2 (insert_ok (gcx_table c) s (raw_insert (gcx_table c) s))); [done|].
  split; [|done]. by apply Hfresh.
Qed.

Lemma gen_temp_variable_inv t loc c s c1 :
  gen_temp_variable t loc c = Done (Ok (s, c1)) ->
  exists f, gcx_current_fn c = Some f /\ (temp_var_counter f < u64_max)%N.
Proof.
  unfold gen_temp_variable, get_and_incr_counter. intros H. g_inv.
  match goal with E : u64_add _ 1 = Ok _ |- _ => apply u64_add_ok in E as [_ ?] end.
  eexists. split; [done|]. lia.
Qed.

Lemma temps_fresh_temp t loc c s c1 :
  temps_fresh c -> gen_temp_variable t loc c = Done (Ok (s, c1)) ->
  temps_fresh c1 /\ lookup (gcx_table c) (sym_name s) = None
  /\ is_Some (lookup (gcx_table c1) (sym_name s))
  /\ (forall n, is_Some (lookup (gcx_table c) n) -> is_Some (lookup (gcx_table c1) n)).
Proof.
  intros Hfresh H. destruct (gen_temp_variable_inv _ _ _ _ _ H) as (f & Hf & Hc).
  rewrite (gen_temp_variable_run t loc c f) in H by done. injection H as <- <-. split.
  - intros f' k Hf' Hk. cbn in Hf'. injection Hf' as <-. cbn in Hk.
    change (temp_name (counted f _) k) with (temp_name f k).
    cbn [set_table gcx_table]. rewrite lookup_raw_insert, decide_False.
    + apply Hfresh; [done | lia].
    + cbn [sym_name variable with_is_state_var with_is_lvalue with_is_thread_local Symbol.new].
      intros E%(inj _). lia.
  - split; [by apply Hfresh|]. cbn [set_table gcx_table]. split.
    + rewrite lookup_raw_insert, decide_True by done. eauto.
    + intros n Hn. rewrite lookup_raw_insert. case_decide; eauto.
Qed.

Lemma temps_fresh_other c c1 : temps_fresh c -> is_Some (gcx_current_fn c) -> other_step c c1 -> temps_fresh c1.
Proof.
  intros Hfresh [f Hf] Ho f1 k Hf1 Hk. destruct (Ho f Hf) as (f' & Hf' & En & Ec & _ & Ht).
  rewrite Hf' in Hf1. injection Hf1 as <-. unfold temp_name. rewrite En. apply Ht, Hfresh; [done|].
  by rewrite <- Ec.
Qed.

Lemma temp_current c t loc s c1 :
  gen_temp_variable t loc c = Done (Ok (s, c1)) -> temps_fresh c -> is_Some (gcx_current_fn c1).
Proof.
  intros H Hfresh. destruct (gen_temp_variable_inv _ _ _ _ _ H) as (f & Hf & Hc).
  rewrite (gen_temp_variable_run t loc c f) in H by done. injection H as _ <-. cbn. eauto.
Qed.

Lemma other_current c c1 : is_Some (gcx_current_fn c) -> other_step c c1 -> is_Some (gcx_current_fn c1).
Proof. intros [f Hf] Ho. destruct (Ho f Hf) as (f' & -> & _). eauto. Qed.

Lemma trace_fresh c ss c' :
  temp_trace c ss c' -> temps_fresh c -> is_Some (gcx_current_fn c) ->
  temps_fresh c' /\ is_Some (gcx_current_fn c')
  /\ (forall n, is_Some (lookup (gcx_table c) n) -> is_Some (lookup (gcx_table c') n))
  /\ NoDup (map sym_name ss)
  /\ Forall (fun s => lookup (gcx_table c) (sym_name s) = None) ss.
Proof.
  induction 1 as [c|c t loc s c1 ss c2 Ht _ IH|c c1 ss c2 Ho _ IH]; intros Hf Hc.
  - repeat split; [done | done | auto | constructor | constructor].
  - destruct (temps_fresh_temp _ _ _ _ _ Hf Ht) as (Hf1 & Hn & Hin & Hk).
    destruct IH as (Hf2 & Hc2 & Hk2 & Hnd & Hall); [done | by eapply temp_current |].
    repeat split; [done | done | auto | |].
    + cbn. constructor; [|done]. intros (s' & E & Hs')%list_elem_of_fmap.
      rewrite Forall_forall in Hall. specialize (Hall _ Hs'). rewrite <- E in Hall.
      rewrite Hall in Hin. by destruct Hin.
    + constructor; [done|]. eapply Forall_impl; [done|]. intros s' Hs'. cbn in Hs'.
      destruct (lookup (gcx_table c) (sym_name s')) eqn:E; [|done].
      destruct (Hk (sym_name s')) as [? E']; [by eexists|]. by rewrite Hs' in E'.
  - destruct IH as (Hf2 & Hc2 & Hk2 & Hnd & Hall);
      [by eapply temps_fresh_other | by eapply other_current |].
    destruct Hc as [f Hc]. destruct (Ho f Hc) as (_ & _ & _ & _ & Hk & _).
    repeat split; [done | done | auto | done |].
    eapply Forall_impl; [done|]. intros s' Hs'. cbn in Hs'.
    destruct (lookup (gcx_table c) (sym_name s')) eqn:E; [|done].
    destruct (Hk (sym_name s')) as [? E']; [by eexists|]. by rewrite Hs' in E'.
Qed.

(** Names of locals and of spread arguments are not names of temporaries. *)
Lemma local_not_temp f l k c c' n :
  gcx_current_fn c = Some f -> codegen_var_name l c = Done (Ok (n, c')) -> n <> temp_name f k.
Proof.
  intros Hf H. unfold codegen_var_name in H. g_inv.
  unfold temp_name, stack_name, stack_base_name. intros E.
  destruct (find_debug_info _ l); apply (inj _) in E;
    discriminate (f_equal (String.get 5) E).
Qed.

Lemma next_global_name_run c :
  (global_var_count c < u64_max)%N ->
  next_global_name c
  = Done (Ok (gcx_full_crate_name c +:+ "::global::" +:+ pretty (global_var_count c) +:+ "::",
              mkGotocCtx (gcx_table c) (gcx_full_crate_name c) (global_var_count c + 1)
                (gcx_vtable_ctx c) (gcx_current_fn c) (type_map c) (alloc_map c) (proof_harnesses c))).
Proof.
  intros Hc. unfold next_global_name. by rewrite (proj2 (u64_add_ok _ 1 _)) by (split; [reflexivity | lia]).
Qed.

(** ** Properties *)

(** Suppose that, when a function is compiled, no temporary to come is in the table, and that
    what else is done in between keeps the counter and takes no name of a temporary.  Then its
    temporaries have pairwise different names that were not in the table, and the next one can
    always be made, until the counter overflows. *)
Theorem temps_never_clash c ss c' t loc f :
  temps_fresh c -> is_Some (gcx_current_fn c) -> temp_trace c ss c' ->
  gcx_current_fn c' = Some f -> (temp_var_counter f < u64_max)%N ->
  NoDup (map sym_name ss)
  /\ Forall (fun s => lookup (gcx_table c) (sym_name s) = None) ss
  /\ exists s c'', gen_temp_variable t loc c' = Done (Ok (s, c''))
       /\ lookup (gcx_table c') (sym_name s) = None
       /\ lookup (gcx_table c'') (sym_name s) = Some s.
Proof.
  intros Hfresh Hc Htr Hf Hlt. destruct (trace_fresh _ _ _ Htr Hfresh Hc) as (Hfresh' & _ & _ & Hnd & Hall).
  split; [done|]. split; [done|]. rewrite (gen_temp_variable_run t loc c' f) by done.
  do 2 eexists. split; [reflexivity|]. split; [by apply Hfresh'|].
  cbn [set_table gcx_table]. by rewrite lookup_raw_insert, decide_True.
Qed.

Definition sample_mir : Body := mkBody [] [] 0 None [] 0%N.
Definition sample_fn : CurrentFnCtx :=
  current_fn_new (mkInstance 0 Item []) sample_mir "f" "f" None.
Definition sample_ctx : GotocCtx :=
  mkGotocCtx sample_table "crate" 0 (vtable_ctx_new false) (Some sample_fn) ∅ [] [].
Definition after_two_temps : fuelled (list Symbol * GotocCtx) :=
  g_map (fun t => gen_temp_variable t Location.none) [c_int; c_bool] sample_ctx.

Lemma sample_temps_fresh : temps_fresh sample_ctx.
Proof.
  intros f k Hf _. injection Hf as <-. unfold lookup. cbn -[temp_name].
  apply lookup_singleton_ne. unfold temp_name, stack_name. cbn [fn_name sample_fn current_fn_new].
  intros E. discriminate E.
Qed.

Lemma temps_never_clash_witness :
  exists ss c', after_two_temps = Done (Ok (ss, c'))
    /\ NoDup (map sym_name ss) /\ map sym_name ss = ["f::1::temp_0"; "f::1::temp_1"].
Proof.
  eexists _, _. split; [vm_compute; reflexivity|]. split; [|vm_compute; reflexivity].
  eapply (temps_never_clash sample_ctx _ _ c_int Location.none);
    [apply sample_temps_fresh | eexists; reflexivity | | |].
  { eapply (trace_temp _ c_int Location.none); [vm_compute; reflexivity|].
    eapply (trace_temp _ c_bool Location.none); [vm_compute; reflexivity|]. apply trace_nil. }
  { reflexivity. }
  { reflexivity. }
Defined.

(** A struct that [ensure_struct] meets for the first time is complete when it returns,
    with the fields the generator gave, and no other type is left half-defined: this
    holds for every generator of fields that keeps the discipline itself, so it carries
    over to types that refer to each other. *)
Theorem ensure_struct_completes `{InternOrder} n p f c inc cs c1 :
  String.prefix "tag-" n = false -> lookup (gcx_table c) (aggr_tag n) = None ->
  symbol_incomplete_struct n p = Ok inc ->
  (forall m, settles (fun _ => False) (f m)) ->
  f n (set_table c (raw_insert (gcx_table c) inc)) = Done (Ok (cs, c1)) ->
  components_are_unique cs = true ->
  exists c', ensure_struct n p f c = Done (Ok (struct_tag n, c'))
    /\ sym_typ <$> lookup (gcx_table c') (aggr_tag n) = Some (TStruct n cs)
    /\ (forall m, open_types (gcx_table c') m <-> open_types (gcx_table c) m)
    /\ rtc symtab_step (gcx_table c) (gcx_table c').
Proof.
  intros Hp Hn Hinc Hs Hf Hu.
  destruct (ensure_struct_new _ n p f c inc cs c1 Hp Hn Hinc Hf (Hs _ _ _ _ Hf) Hu) as (s & Es & Hrun).
  destruct (struct_type_symbol _ _ _ _ Es) as [En Et].
  pose proof (settles_ensure_struct (fun _ => False) n p f Hs _ _ _ Hrun) as (_ & Hr & Hk & Ho).
  eexists. split; [exact Hrun|]. split.
  { cbn [set_table gcx_table]. rewrite lookup_raw_insert, decide_True by done. cbn. by rewrite Et. }
  split; [|exact Hr]. intros m. split; [|apply Hk]. intros [Hm|[]]%Ho. done.
Qed.

(** A list that refers to itself: [struct node { int value; struct node *next; }], whose
    second field is found by calling [ensure_struct] again. *)
Definition node_fields `{InternOrder} (n : InternedString) : G (list DatatypeComponent) :=
  t ← ensure_struct "node" None (fun _ => mret []);
  mret [datatype_component "value" c_int; datatype_component "next" (to_pointer t)].

Lemma ensure_struct_completes_witness :
  exists c', ensure_struct "node" None node_fields sample_ctx = Done (Ok (struct_tag "node", c'))
    /\ sym_typ <$> lookup (gcx_table c') "tag-node"
       = Some (TStruct "node" [Field "value" c_int; Field "next" (TPointer (TStructTag "tag-node"))])
    /\ (forall m, open_types (gcx_table c') m <-> open_types (gcx_table sample_ctx) m)
    /\ rtc symtab_step (gcx_table sample_ctx) (gcx_table c').
Proof.
  eapply (ensure_struct_completes "node" None node_fields sample_ctx).
  - reflexivity.
  - vm_compute. reflexivity.
  - reflexivity.
  - intros m. unfold node_fields. apply settles_bind.
    + apply settles_ensure_struct. intros m'. apply settles_ret.
    + intros t. apply settles_ret.
  - vm_compute. reflexivity.
  - vm_compute. reflexivity.
Defined.
