(* ===== verification/TypeGen.v ===== *)
(** * The translation of types ([rustc_codegen_rmc/src/codegen/typ.rs])

    [codegen_ty] finds the goto type of a monomorphic Rust type, defining the structs and
    unions it needs.  It calls itself for the parts of a type, also from inside
    [ensure_struct], so a type may meet itself while it is being defined.  The model
    defines every function with the recursive call as a parameter ([codegen_ty] of the
    section) and ties the knot with fuel.

    The theorems: translating a type leaves no struct or union half-defined
    ([codegen_ty_settles]); a type keeps its translation and translating it again changes
    nothing ([codegen_ty_stable]); and the fields of a struct are put, with padding, at
    exactly the offsets of the layout ([struct_fields_at_offsets]). *)

From S2P Require Import Prelude CbmcString MachineModel Location Typ Ast SymbolTable Expr Symbol.
From S2P Require Import Builtin Stmt Env Restrictions Mir GotoCtx.

(** ** What the compiler answers *)

(** The queries of [TyCtxt] that [typ.rs] makes. *)
Class TyCtxt := {
  adt_def : N -> AdtDef;
  (** [f.ty(tcx, substs)] *)
  field_ty : FieldDef -> list Ty -> Ty;
  (** [layout_of(ty)] *)
  layout_of : Ty -> Layout;
  (** [tcx.type_id_hash(ty)] and the printed type *)
  type_id_hash : Ty -> N;
  print_type : Ty -> string;
  (** [ty.fn_sig(tcx)] of a function definition *)
  fn_def_sig : N -> list Ty -> FnSig;
  (** [instance.ty(tcx)] *)
  instance_ty : Instance_ -> Ty;
  (** [substs.as_closure()]: its signature, environment type and captured variables *)
  closure_sig_of : N -> list Ty -> FnSig;
  closure_env_ty : N -> list Ty -> Ty;
  closure_upvar_tys : N -> list Ty -> list Ty;
  (** [substs.as_generator()] *)
  generator_upvar_tys : N -> list Ty -> list Ty;
  generator_return_ty : N -> list Ty -> Ty;
  (** normalization, and substitution by an instance followed by normalization *)
  normalize_erasing_regions : Ty -> Ty;
  normalize_sig : FnSig -> FnSig;
  subst_ty : Instance_ -> Ty -> Ty;
  subst_sig : Instance_ -> FnSig -> FnSig;
  (** [ty.is_sized(..)] and [ty.ptr_metadata_ty(tcx)] *)
  ty_is_sized : Ty -> bool;
  ptr_metadata_ty : Ty -> Ty;
  (** the entries of the vtable of a trait, if the trait has a principal *)
  vtable_entries : N -> option (list VtblEntry);
}.

(** ** Predicates on goto types ([TypeExt]) *)

Definition has_component (cs : list DatatypeComponent) (name : InternedString)
    (p : Type_ -> bool) : outcome bool :=
  foldr (fun x acc =>
           if String.eqb (component_name x) name
           then mbind (fun t => if p t then Ok true else acc) (component_typ x)
           else acc) (Ok false) cs.

(** [is_rust_slice_fat_ptr], [is_rust_trait_fat_ptr]: a struct of a data pointer and one
    more component; a tag is followed through the table. *)
Fixpoint fat_ptr_type (n : nat) (meta : InternedString) (p : Type_ -> bool) (st : SymbolTable)
    (t : Type_) : outcome bool :=
  match t with
  | TStruct _ components =>
      if (length components =? 2)%nat
      then d ← has_component components "data" is_pointer;
           if d : bool then has_component components meta p else Ok false
      else Ok false
  | TStructTag tag =>
      s ← unwrap (lookup st tag);
      match n with 0 => Panic | S n => fat_ptr_type n meta p st (sym_typ s) end
  | _ => Ok false
  end.
Definition is_rust_slice_fat_ptr (t : Type_) (st : SymbolTable) : outcome bool :=
  fat_ptr_type (sizeof_fuel st) "len" is_integer st t.
Definition is_rust_trait_fat_ptr (t : Type_) (st : SymbolTable) : outcome bool :=
  fat_ptr_type (sizeof_fuel st) "vtable" is_pointer st t.
Definition is_rust_fat_ptr (t : Type_) (st : SymbolTable) : outcome bool :=
  b ← is_rust_slice_fat_ptr t st;
  if b : bool then Ok true else is_rust_trait_fat_ptr t st.

Definition UNIT_TYPE_EMPTY_STRUCT_NAME : string := "Unit".
Definition FN_RETURN_VOID_VAR_NAME : string := "VoidUnit".
Definition NEVER_TYPE_EMPTY_STRUCT_NAME : string := "Never".

(** [Type::unit], [is_unit], [is_unit_pointer] *)
Definition type_unit : Type_ := struct_tag UNIT_TYPE_EMPTY_STRUCT_NAME.
Definition type_is_unit (t : Type_) : bool :=
  match t with
  | TStructTag name => String.eqb name (aggr_tag UNIT_TYPE_EMPTY_STRUCT_NAME)
  | _ => false
  end.
Definition type_is_unit_pointer (t : Type_) : bool :=
  match t with TPointer t => type_is_unit t | _ => false end.
(** [Expr::unit] *)
Definition expr_unit (st : SymbolTable) : outcome Expr := struct_expr type_unit ∅ st.

(** [is_pointer], [pointee_type] *)
Definition ty_is_pointer (t : Ty) : bool :=
  match t with Ref _ _ | RawPtr _ _ => true | _ => false end.
Definition pointee_type (t : Ty) : option Ty :=
  match t with Ref t _ | RawPtr t _ => Some t | _ => None end.

Section TypeGen.
Context `{TyCtxt, InternOrder}.

(** [is_repr_c_adt] *)
Definition is_repr_c_adt (t : Ty) : bool :=
  match t with Adt def _ => repr_c (adt_def def) | _ => false end.

(** ** Monomorphization *)

Definition g_instance : G (option Instance_) := fun c =>
  Done (Ok (fn_instance <$> gcx_current_fn c, c)).

Definition monomorphize (t : Ty) : G Ty :=
  i ← g_instance; mret (match i with Some i => subst_ty i t | None => t end).
Definition monomorphize_sig (s : FnSig) : G FnSig :=
  i ← g_instance; mret (match i with Some i => subst_sig i s | None => s end).

(** [GotocCtx::is_unsized] and the pointers that are fat *)
Definition ty_is_unsized (t : Ty) : G bool := t ← monomorphize t; mret (negb (ty_is_sized t)).
Definition is_ref_of_unsized (t : Ty) : G bool :=
  match pointee_type t with Some to => ty_is_unsized to | None => mret false end.
Definition is_ref_of_sized (t : Ty) : G bool :=
  match pointee_type t with Some to => b ← ty_is_unsized to; mret (negb b) | None => mret false end.

Definition is_usize (t : Ty) : bool := match t with Uint Usize => true | _ => false end.
Definition use_thin_pointer (t : Ty) : G bool :=
  b ← ty_is_unsized t; mret (negb b || ty_is_unit (ptr_metadata_ty t)).
Definition use_slice_fat_pointer (t : Ty) : bool := is_usize (ptr_metadata_ty t).
Definition use_vtable_fat_pointer (t : Ty) : bool :=
  negb (ty_is_unit (ptr_metadata_ty t)) && negb (is_usize (ptr_metadata_ty t)).

(** ** Names *)

Definition ty_pretty_name (t : Ty) : G InternedString := t ← monomorphize t; mret (print_type t).

Definition hash_name (t : Ty) : InternedString := "_" +:+ pretty (type_id_hash t).
Definition ty_mangled_name (t : Ty) : G InternedString :=
  if is_repr_c_adt t then ty_pretty_name t else mret (hash_name t).

Definition normalized_trait_name (t : Ty) : G InternedString :=
  g_lift (rassert (ty_is_trait t));; ty_mangled_name t.
Definition vtable_name (t : Ty) : G InternedString :=
  n ← normalized_trait_name t; mret (n +:+ "::vtable").

(** ** Signatures *)

Definition sig_with_closure_untupled (s : FnSig) : outcome FnSig :=
  match s with
  | mkFnSig inputs output c_variadic rust_call =>
      match last inputs with
      | Some tupe =>
          args ← (match tupe with Tuple substs => Ok substs | _ => Panic end);
          match removelast inputs with
          | [env] => Ok (mkFnSig (env :: args) output c_variadic rust_call)
          | _ => Panic
          end
      | None => Ok s
      end
  end.

Definition closure_sig (def : N) (substs : list Ty) : G FnSig :=
  sig ← monomorphize_sig (closure_sig_of def substs);
  match sig with
  | mkFnSig inputs output c_variadic rust_call =>
      param ← g_lift (unwrap (head inputs));
      g_lift (sig_with_closure_untupled
        (mkFnSig [closure_env_ty def substs; param] output c_variadic rust_call))
  end.

Definition ty_needs_closure_untupled (t : Ty) : outcome bool :=
  match t with
  | FnDef def substs => match fn_def_sig def substs with mkFnSig _ _ _ rust_call => Ok rust_call end
  | FnPtr (mkFnSig _ _ _ rust_call) => Ok rust_call
  | _ => Panic
  end.

Definition fn_sig_of_instance (i : Instance_) : G (option FnSig) :=
  let of_fn t sig :=
    u ← g_lift (ty_needs_closure_untupled t);
    if u : bool then sig ← g_lift (sig_with_closure_untupled sig); mret (Some sig)
    else sig ← monomorphize_sig sig; mret (Some sig) in
  match instance_ty i with
  | Closure def substs => sig ← closure_sig def substs; sig ← monomorphize_sig sig; mret (Some sig)
  | FnDef def substs => of_fn (FnDef def substs) (fn_def_sig def substs)
  | FnPtr sig => of_fn (FnPtr sig) sig
  | Generator _ _ => mret None
  | _ => g_lift Panic
  end.

(** [ignore_var_ty] *)
Definition ignore_var_ty (t : Ty) : bool := match t with FnDef _ _ => true | _ => false end.

(** ** Scalars *)

Definition codegen_iint (k : IntTy) : outcome Type_ :=
  match k with
  | I8 => signed_int 8
  | I16 => signed_int 16
  | I32 => signed_int 32
  | I64 => signed_int 64
  | I128 => signed_int 128
  | Isize => Ok ssize_t
  end.

Definition codegen_uint (k : UintTy) : outcome Type_ :=
  match k with
  | U8 => unsigned_int 8
  | U16 => unsigned_int 16
  | U32 => unsigned_int 32
  | U64 => unsigned_int 64
  | U128 => unsigned_int 128
  | Usize => Ok size_t
  end.

Definition codegen_prim_typ (p : Primitive) : Ty :=
  match p with
  | PrimInt Int8 signed => if signed then Int I8 else Uint U8
  | PrimInt Int16 signed => if signed then Int I16 else Uint U16
  | PrimInt Int32 signed => if signed then Int I32 else Uint U32
  | PrimInt Int64 signed => if signed then Int I64 else Uint U64
  | PrimInt Int128 signed => if signed then Int I128 else Uint U128
  | PrimF32 => Float F32
  | PrimF64 => Float F64
  | PrimPointer => RawPtr (Uint U8) false
  end.

Definition codegen_enum_discr_typ (t : Ty) : outcome Ty :=
  match lay_variants (layout_of t) with
  | Multiple tag _ _ _ => Ok (codegen_prim_typ tag)
  | Single _ => Panic
  end.

(** The unit type and [!] *)
Definition codegen_ty_unit : G Type_ :=
  ensure_struct UNIT_TYPE_EMPTY_STRUCT_NAME None (fun _ => mret []).
Definition codegen_ty_never : G Type_ :=
  ensure_struct NEVER_TYPE_EMPTY_STRUCT_NAME None (fun _ => mret []).

(** A foreign type is an incomplete struct. *)
Definition codegen_foreign (t : Ty) : G Type_ :=
  name ← ty_mangled_name t;
  g_ensure (aggr_tag name) (fun _ =>
    p ← ty_pretty_name t; g_lift (symbol_incomplete_struct name (Some p)));;
  mret (struct_tag name).

(** ** Structs *)

Definition codegen_struct_padding (current_offset next_offset : N) (idx : nat) :
    outcome (option DatatypeComponent) :=
  assert! (current_offset <=? next_offset)%N;
  Ok (if (current_offset <? next_offset)%N
      then Some (datatype_padding ("$pad" +:+ pretty (N.of_nat idx)) (next_offset - current_offset))
      else None).

(** The fields of a single-variant ADT by name *)
Definition mir_struct_field_types (t : Ty) : outcome (gmap InternedString Ty) :=
  match t with
  | Adt def substs =>
      match adt_variants (adt_def def) with
      | [v] => Ok (list_to_map (reverse (map (fun f => (field_ident f, field_ty f substs))
                                             (variant_fields v))))
      | _ => Panic
      end
  | _ => Panic
  end.

(** [nested_pair_of_concrete_and_trait_types] ([rvalue.rs]), unfolding at most [n] ADTs *)
Fixpoint nested_pair (n : nat) (src dst : Ty) : fuelled (option (Ty * Ty)) :=
  if ty_is_primitive dst || ty_is_pointer dst then mret None
  else
    match n with
    | 0 => OutOfFuel
    | S n =>
        match src, dst with
        | _, Dynamic _ => mret (Some (src, dst))
        | Adt _ _, Adt _ _ =>
            src_fields ← Done (mir_struct_field_types src);
            dst_fields ← Done (mir_struct_field_types dst);
            Done (rassert (bool_decide (dom src_fields = dom dst_fields)));;
            foldl (fun acc kv =>
                     matching_types ← acc;
                     d ← Done (unwrap (dst_fields !! kv.1));
                     pair ← nested_pair n kv.2 d;
                     match pair with
                     | Some p =>
                         Done (rassert (match matching_types with None => true | Some _ => false end));;
                         mret (Some p)
                     | None => mret matching_types
                     end) (mret None) (btree_iter src_fields)
        | _, _ => Done Panic
        end
    end.
Definition g_nested_pair (n : nat) (src dst : Ty) : G (option (Ty * Ty)) := fun c =>
  match nested_pair n src dst with
  | Done (Ok r) => Done (Ok (r, c))
  | Done Panic => Done Panic
  | OutOfFuel => OutOfFuel
  end.

(** [variant_min_offset] *)
Definition variant_offset (l : Layout) : outcome (option N) :=
  if (shape_count (lay_fields l) =? 0)%nat then Ok None
  else
    order ← index_by_increasing_offset (lay_fields l);
    i ← unwrap (head order);
    o ← shape_offset (lay_fields l) i;
    Ok (Some (bits o)).
Definition variant_min_offset (ls : list Layout) : outcome (option N) :=
  os ← map_outcome variant_offset ls;
  Ok (foldr (fun o acc => match o, acc with
                          | Some a, Some b => Some (N.min a b)
                          | Some a, None => Some a
                          | None, _ => acc
                          end) None os).

Section Recursive.
(** The recursive call, and the fuel for the walks over ADTs *)
Variable (codegen_ty : Ty -> G Type_) (fuel : nat).

(** The loop of [codegen_struct_fields]: [fields] has been generated up to [offset]. *)
Fixpoint struct_fields_loop (flds : list (string * Ty)) (offsets : list N) (order : list nat)
    (fields : list DatatypeComponent) (offset : N) : G (list DatatypeComponent * N) :=
  match order with
  | [] => mret (fields, offset)
  | idx :: order =>
      o ← g_lift (unwrap (offsets !! idx));
      let fld_offset := bits o in
      fld ← g_lift (unwrap (flds !! idx));
      pad ← g_lift (codegen_struct_padding offset fld_offset (length fields));
      let fields := fields ++ option_list pad in
      t ← codegen_ty fld.2;
      let fields := fields ++ [datatype_component fld.1 t] in
      offset ← g_lift (u64_add fld_offset (bits (lay_size (layout_of fld.2))));
      struct_fields_loop flds offsets order fields offset
  end.

Definition codegen_struct_fields (flds : list (string * Ty)) (layout : Layout)
    (initial_offset : N) : G (list DatatypeComponent) :=
  match lay_fields layout with
  | ShapeArbitrary offsets memory_index =>
      g_lift (rassert (length flds =? length offsets)%nat);;
      g_lift (rassert (length offsets =? length memory_index)%nat);;
      order ← g_lift (index_by_increasing_offset (lay_fields layout));
      r ← struct_fields_loop flds offsets order [] initial_offset;
      let (final_fields, offset) := (r : list DatatypeComponent * N) in
      align ← g_lift (align_bits (lay_align layout));
      g_lift (rassert (0 <? align)%N);;
      let overhang := (offset mod align)%N in
      if (overhang =? 0)%N then mret final_fields
      else
        e ← g_lift (u64_add offset align);
        e ← g_lift (u64_sub e overhang);
        pad ← g_lift (codegen_struct_padding offset e (length final_fields));
        pad ← g_lift (unwrap pad);
        mret (final_fields ++ [pad])
  | ShapePrimitive => mret []
  | _ => g_lift Panic
  end.

Definition codegen_ty_tuple_like (t : Ty) (tys : list Ty) : G (list DatatypeComponent) :=
  codegen_struct_fields (imap (fun i t => (tuple_fld_name i, t)) tys) (layout_of t) 0.

Definition codegen_variant_struct_fields (variant : VariantDef) (substs : list Ty)
    (layout : Layout) (initial_offset : N) : G (list DatatypeComponent) :=
  codegen_struct_fields (map (fun f => (field_ident f, field_ty f substs)) (variant_fields variant))
    layout initial_offset.

Definition codegen_struct (t : Ty) (def : AdtDef) (substs : list Ty) : G Type_ :=
  n ← ty_mangled_name t; p ← ty_pretty_name t;
  ensure_struct n (Some p) (fun _ =>
    variant ← g_lift (unwrap (adt_variants def !! 0));
    codegen_variant_struct_fields variant substs (layout_of t) 0).

Definition codegen_union (t : Ty) (def : AdtDef) (substs : list Ty) : G Type_ :=
  n ← ty_mangled_name t; p ← ty_pretty_name t;
  ensure_union n (Some p) (fun _ =>
    variant ← g_lift (unwrap (adt_variants def !! 0));
    g_map (fun f => t ← codegen_ty (field_ty f substs); mret (datatype_component (field_ident f) t))
      (variant_fields variant)).

Definition codegen_enum_case_struct (name : InternedString) (case : VariantDef) (substs : list Ty)
    (variant : Layout) (initial_offset : N) : G Type_ :=
  ensure_struct (name +:+ "::" +:+ variant_ident case) None (fun _ =>
    codegen_variant_struct_fields case substs variant initial_offset).

Definition codegen_enum_cases_union (name : InternedString) (def : AdtDef) (substs : list Ty)
    (layouts : list Layout) (initial_offset : N) : G Type_ :=
  ensure_union (name +:+ "-union") None (fun name =>
    g_map (fun ic =>
             l ← g_lift (unwrap (layouts !! ic.1));
             t ← codegen_enum_case_struct name ic.2 substs l initial_offset;
             mret (datatype_component (variant_ident ic.2) t))
      (imap pair (adt_variants def))).

Definition codegen_enum (t : Ty) (def : AdtDef) (substs : list Ty) : G Type_ :=
  n ← ty_mangled_name t; p ← ty_pretty_name t;
  ensure_struct n (Some p) (fun name =>
    match lay_variants (layout_of t) with
    | Single index =>
        match adt_variants def !! N.to_nat index with
        | None => mret []
        | Some variant => codegen_variant_struct_fields variant substs (layout_of t) 0
        end
    | Multiple _ Direct _ variants =>
        discr_t ← g_lift (codegen_enum_discr_typ t);
        int ← codegen_ty discr_t;
        let discr_offset := bits (lay_size (layout_of discr_t)) in
        o ← g_lift (variant_min_offset variants);
        let initial_offset := default discr_offset o in
        pad ← g_lift (codegen_struct_padding discr_offset initial_offset 0);
        cases ← codegen_enum_cases_union name def substs variants initial_offset;
        mret ([datatype_component "case" int] ++ option_list pad
              ++ [datatype_component "cases" cases])
    | Multiple _ (Niche dataful_variant _ _ _) _ variants =>
        variant ← g_lift (unwrap (adt_variants def !! N.to_nat dataful_variant));
        l ← g_lift (unwrap (variants !! N.to_nat dataful_variant));
        codegen_variant_struct_fields variant substs l 0
    end).

Definition codegen_ty_raw_array (t : Ty) : G Type_ :=
  match t with
  | Array elt len => elemt ← codegen_ty elt; mret (array_of elemt len)
  | _ => g_lift Panic
  end.

Definition codegen_array (elt : Ty) (len : N) : G Type_ :=
  n ← ty_mangled_name elt;
  ensure_struct ("[" +:+ n +:+ "; " +:+ pretty len +:+ "]") None (fun _ =>
    if ty_is_unit elt then mret []
    else t ← codegen_ty_raw_array (Array elt len); mret [datatype_component "0" t]).

Definition codegen_ty_closure (t : Ty) (def : N) (substs : list Ty) : G Type_ :=
  n ← ty_mangled_name t; p ← ty_pretty_name t;
  ensure_struct n (Some p) (fun _ => codegen_ty_tuple_like t (closure_upvar_tys def substs)).

Definition codegen_tuple (t : Ty) (tys : list Ty) : G Type_ :=
  match tys with
  | [] => codegen_ty_unit
  | _ =>
      n ← ty_mangled_name t; p ← ty_pretty_name t;
      ensure_struct n (Some p) (fun _ => codegen_ty_tuple_like t tys)
  end.

Definition codegen_vector (t : Ty) : G Type_ :=
  match lay_abi (layout_of t) with
  | Vector element count =>
      elemt ← codegen_ty (codegen_prim_typ element); g_lift (vector elemt count)
  | _ => g_lift Panic
  end.

(** ** Functions *)

Definition codegen_params (inputs : list Ty) : G (list Type_) :=
  g_map codegen_ty (filter (fun t => ignore_var_ty t = false) inputs).

Definition codegen_function_sig (sig : FnSig) : G Type_ :=
  sig ← monomorphize_sig sig;
  let sig := normalize_sig sig in
  params ← codegen_params (sig_inputs sig);
  output ← codegen_ty (sig_output sig);
  g_lift (if sig_c_variadic sig then Ok (variadic_code_with_unnamed_parameters params output)
          else code_with_unnamed_parameters params output).

(** The first parameter of a method in a vtable is a [void*]. *)
Definition codegen_dynamic_function_sig (sig : FnSig) : G Type_ :=
  sig ← monomorphize_sig sig;
  let sig := normalize_sig sig in
  params ← (match sig_inputs sig with
            | [] => mret []
            | _ :: rest => params ← codegen_params rest; mret (void_pointer :: params)
            end);
  output ← codegen_ty (sig_output sig);
  g_lift (code_with_unnamed_parameters params output).

Definition codegen_ty_generator (def : N) (substs : list Ty) : G Type_ :=
  tys ← g_map codegen_ty (generator_upvar_tys def substs);
  output ← codegen_ty (generator_return_ty def substs);
  g_lift (code_with_unnamed_parameters tys output).

(** ** Trait objects and pointers *)

Definition trait_method_vtable_field_type (i : Instance_) (idx : nat) : G DatatypeComponent :=
  sig ← fn_sig_of_instance i;
  sig ← g_lift (unwrap sig);
  fn_ty ← codegen_dynamic_function_sig sig;
  mret (datatype_component (vtable_field_name (N.of_nat idx)) (to_pointer fn_ty)).

Definition trait_vtable_drop_type (t : Ty) : G Type_ :=
  t ← codegen_ty t;
  c ← g_lift (code_with_unnamed_parameters [to_pointer t] type_unit);
  mret (to_pointer c).

Definition trait_vtable_field_types (t : Ty) : G (list DatatypeComponent) :=
  drop ← trait_vtable_drop_type t;
  let vtable_base := [datatype_component "drop" drop; datatype_component "size" size_t;
                      datatype_component "align" size_t] in
  match t with
  | Dynamic binder =>
      match vtable_entries binder with
      | Some entries =>
          flds ← g_map (fun ie => match ie.2 with
                                  | Method i => f ← trait_method_vtable_field_type i ie.1; mret [f]
                                  | _ => mret []
                                  end) (imap pair entries);
          mret (vtable_base ++ concat flds)
      | None => mret vtable_base
      end
  | _ => g_lift Panic
  end.

Definition codegen_trait_vtable_type (t : Ty) : G Type_ :=
  n ← vtable_name t; ensure_struct n None (fun _ => trait_vtable_field_types t).

Definition codegen_trait_fat_ptr_type (t : Ty) : G Type_ :=
  n ← normalized_trait_name t;
  ensure_struct n None (fun _ =>
    vtable_name ← vtable_name t;
    mret [datatype_component "data" void_pointer;
          datatype_component "vtable" (to_pointer (struct_tag vtable_name))]).

Definition codegen_fat_ptr (t : Ty) : G Type_ :=
  thin ← use_thin_pointer t;
  g_lift (rassert (negb thin));;
  if use_slice_fat_pointer t then
    pointer_name ← (match t with
                    | Slice _ => ty_mangled_name t
                    | Str => mret "str"
                    | Adt _ _ => n ← ty_mangled_name t; mret ("&" +:+ n)
                    | _ => g_lift Panic
                    end);
    element_type ← (match t with
                    | Slice elt => codegen_ty elt
                    | Str => mret c_char
                    | Adt _ _ => codegen_ty t
                    | _ => g_lift Panic
                    end);
    ensure_struct pointer_name None (fun _ =>
      mret [datatype_component "data" (to_pointer element_type); datatype_component "len" size_t])
  else if use_vtable_fat_pointer t then
    o ← g_nested_pair fuel t t;
    pair ← g_lift (unwrap o);
    codegen_trait_vtable_type pair.2;;
    codegen_trait_fat_ptr_type pair.2
  else g_lift Panic.

Definition codegen_ty_ref (pointee : Ty) : G Type_ :=
  let pointee := normalize_erasing_regions pointee in
  thin ← use_thin_pointer pointee;
  if thin : bool then
    match pointee with
    | Dynamic _ | Slice _ | Str | Projection _ _ | Opaque _ _ => g_lift Panic
    | Bound _ | Error | Generator _ _ | GeneratorWitness | Infer _ | Param _ | Placeholder _ =>
        g_lift Panic
    | _ => t ← codegen_ty pointee; mret (to_pointer t)
    end
  else codegen_fat_ptr pointee.

(** ** All types *)

Definition codegen_ty_inner (t : Ty) : G Type_ :=
  match t with
  | Int k => g_lift (codegen_iint k)
  | Bool => mret c_bool
  | Char => g_lift (signed_int 32)
  | Uint k => g_lift (codegen_uint k)
  | Float F32 => mret float
  | Float F64 => mret double
  | Adt def substs =>
      let d := adt_def def in
      if repr_simd d then codegen_vector t
      else match adt_kind d with
           | AdtStruct => codegen_struct t d substs
           | AdtUnion => codegen_union t d substs
           | AdtEnum => codegen_enum t d substs
           end
  | Foreign _ => codegen_foreign t
  | Array elt len => codegen_array elt len
  | Dynamic _ => codegen_fat_ptr t
  | Slice elt => e ← codegen_ty elt; mret (flexible_array_of e)
  | Str => mret (array_of c_char 0)
  | Ref pointee _ | RawPtr pointee _ => codegen_ty_ref pointee
  | FnDef def substs => sig ← monomorphize_sig (fn_def_sig def substs); codegen_function_sig sig
  | FnPtr sig => c ← codegen_function_sig sig; mret (to_pointer c)
  | Closure def substs => codegen_ty_closure t def substs
  | Generator def substs => codegen_ty_generator def substs
  | Never => codegen_ty_never
  | Tuple tys => codegen_tuple t tys
  | Projection _ _ | Opaque _ _ => codegen_ty (normalize_erasing_regions t)
  | Bound _ | Param _ | GeneratorWitness | Infer _ | Placeholder _ | Error => g_lift Panic
  end.

(** [codegen_ty] records which Rust type a tag came from. *)
Definition note_type (t : Ty) (goto_typ : Type_) : G unit := fun c =>
  Done (Ok (tt, match tag goto_typ with
                | Some tg => if bool_decide (is_Some (type_map c !! tg)) then c
                             else set_type_map c (<[tg := t]> (type_map c))
                | None => c
                end)).
Definition codegen_ty_body (t : Ty) : G Type_ :=
  goto_typ ← codegen_ty_inner t; note_type t goto_typ;; mret goto_typ.
End Recursive.

(** [GotocCtx::codegen_ty], to a depth of at most [n] calls *)
Fixpoint codegen_ty (n : nat) (t : Ty) : G Type_ :=
  match n with
  | 0 => fun _ => OutOfFuel
  | S n => codegen_ty_body (codegen_ty n) n t
  end.

(** ** No type is left half-defined *)

(** The tags of foreign types *)
Definition foreign_tag (n : InternedString) : Prop :=
  exists def, n = aggr_tag (hash_name (Foreign def)).

Lemma settles_instance : settles foreign_tag g_instance.
Proof. intros c ? ? [= <- <-]. by apply settled_refl. Qed.

Lemma settles_nested_pair n s d : settles foreign_tag (g_nested_pair n s d).
Proof.
  intros c a c'. unfold g_nested_pair. destruct (nested_pair n s d) as [[r|]|]; [|done|done].
  intros [= <- <-]. by apply settled_refl.
Qed.

Lemma settles_note t g : settles foreign_tag (note_type t g).
Proof.
  intros c a c' [= <- <-]. apply settled_refl; by destruct (tag g); [case_bool_decide|].
Qed.

(** One step of the derivation that a program settles, by its outermost construct *)
Ltac settle1 :=
  match goal with
  | |- settles _ (mret _) => apply settles_ret
  | |- settles _ (g_lift _) => apply settles_lift
  | |- settles _ g_instance => apply settles_instance
  | |- settles _ (g_nested_pair _ _ _) => apply settles_nested_pair
  | |- settles _ (note_type _ _) => apply settles_note
  | |- settles _ (mbind _ _) => apply settles_bind; [|intros ?]
  | |- settles _ (ensure_struct _ _ _) => apply settles_ensure_struct; intros ?
  | |- settles _ (ensure_union _ _ _) => apply settles_ensure_union; intros ?
  | |- settles _ (g_map _ _) => apply settles_map; intros ? _
  | |- settles _ (match ?x with _ => _ end) => destruct x
  end.
Ltac settle := repeat first [ settle1 | solve [eauto with settles] ].

Lemma settles_monomorphize t : settles foreign_tag (monomorphize t).
Proof. unfold monomorphize. settle. Qed.
Lemma settles_monomorphize_sig s : settles foreign_tag (monomorphize_sig s).
Proof. unfold monomorphize_sig. settle. Qed.
Hint Resolve settles_monomorphize settles_monomorphize_sig : settles.
Lemma settles_use_thin_pointer t : settles foreign_tag (use_thin_pointer t).
Proof. unfold use_thin_pointer, ty_is_unsized. settle. Qed.
Lemma settles_pretty t : settles foreign_tag (ty_pretty_name t).
Proof. unfold ty_pretty_name. settle. Qed.
Hint Resolve settles_use_thin_pointer settles_pretty : settles.
Lemma settles_mangled t : settles foreign_tag (ty_mangled_name t).
Proof. unfold ty_mangled_name. settle. Qed.
Hint Resolve settles_mangled : settles.
Lemma settles_trait_name t : settles foreign_tag (normalized_trait_name t).
Proof. unfold normalized_trait_name. settle. Qed.
Hint Resolve settles_trait_name : settles.
Lemma settles_vtable_name t : settles foreign_tag (vtable_name t).
Proof. unfold vtable_name. settle. Qed.
Lemma settles_instance_sig i : settles foreign_tag (fn_sig_of_instance i).
Proof. unfold fn_sig_of_instance, closure_sig. settle. Qed.
Hint Resolve settles_vtable_name settles_instance_sig : settles.

Lemma settles_foreign def : settles foreign_tag (codegen_foreign (Foreign def)).
Proof.
  unfold codegen_foreign, ty_mangled_name. cbn [is_repr_c_adt].
  intros c a c' Hrun. g_inv. eapply (settles_ensure foreign_tag); [| |done].
  - intros n. cbn beta. settle.
  - intros c1 s c2 Hs. cbn beta in Hs. unfold ty_pretty_name, monomorphize, g_instance in Hs. g_inv.
    match goal with E : symbol_incomplete_struct _ _ = Ok _ |- _ => injection E as <- end.
    right. by exists def.
Qed.

Section SettlesStep.
Context (codegen_ty : Ty -> G Type_) (fuel : nat).
Hypothesis rec_settles : forall t, settles foreign_tag (codegen_ty t).

Lemma settles_fields_loop flds offsets order fields offset :
  settles foreign_tag (struct_fields_loop codegen_ty flds offsets order fields offset).
Proof using rec_settles.
  revert fields offset. induction order as [|i order IH]; intros fields offset; cbn; settle.
Qed.
Hint Resolve rec_settles settles_fields_loop : settles.

Lemma settles_struct_fields flds l o : settles foreign_tag (codegen_struct_fields codegen_ty flds l o).
Proof using rec_settles. unfold codegen_struct_fields. settle. Qed.
Hint Resolve settles_struct_fields : settles.

Lemma settles_params l : settles foreign_tag (codegen_params codegen_ty l).
Proof using rec_settles. unfold codegen_params. settle. Qed.
Hint Resolve settles_params : settles.
Lemma settles_sig s : settles foreign_tag (codegen_function_sig codegen_ty s).
Proof using rec_settles. unfold codegen_function_sig. settle. Qed.
Lemma settles_dynamic_sig s : settles foreign_tag (codegen_dynamic_function_sig codegen_ty s).
Proof using rec_settles. unfold codegen_dynamic_function_sig. settle. Qed.
Hint Resolve settles_sig settles_dynamic_sig : settles.

Lemma settles_vtable_type t : settles foreign_tag (codegen_trait_vtable_type codegen_ty t).
Proof using rec_settles.
  unfold codegen_trait_vtable_type, trait_vtable_field_types, trait_vtable_drop_type,
    trait_method_vtable_field_type. settle.
Qed.
Lemma settles_fat_ptr_type t : settles foreign_tag (codegen_trait_fat_ptr_type t).
Proof using. unfold codegen_trait_fat_ptr_type. settle. Qed.
Hint Resolve settles_vtable_type settles_fat_ptr_type : settles.

Lemma settles_fat_ptr t : settles foreign_tag (codegen_fat_ptr codegen_ty fuel t).
Proof using rec_settles. unfold codegen_fat_ptr. settle. Qed.
Hint Resolve settles_fat_ptr : settles.

Lemma settles_ty_ref t : settles foreign_tag (codegen_ty_ref codegen_ty fuel t).
Proof using rec_settles. unfold codegen_ty_ref. settle. Qed.

Lemma settles_enum t d s : settles foreign_tag (codegen_enum codegen_ty t d s).
Proof using rec_settles.
  unfold codegen_enum, codegen_enum_cases_union, codegen_enum_case_struct,
    codegen_variant_struct_fields. settle.
Qed.
Hint Resolve settles_ty_ref settles_enum settles_foreign : settles.

Lemma settles_body t : settles foreign_tag (codegen_ty_body codegen_ty fuel t).
Proof using rec_settles.
  unfold codegen_ty_body. settle1; [|settle].
  destruct t; cbn [codegen_ty_inner]; settle.
  all: unfold codegen_vector, codegen_struct, codegen_union, codegen_array, codegen_ty_raw_array,
    codegen_ty_closure, codegen_ty_generator, codegen_ty_never, codegen_tuple, codegen_ty_unit,
    codegen_ty_tuple_like, codegen_variant_struct_fields; settle.
Qed.
End SettlesStep.

Lemma codegen_ty_settles_aux n t : settles foreign_tag (codegen_ty n t).
Proof.
  revert t. induction n as [|n IH]; intros t; cbn; [apply settles_fuel | by apply settles_body].
Qed.

(** ** A type keeps its translation

    [later c c']: the same function is compiled, every name of [c] is still in the table
    and every tag still known.  A [stable] program, run again in a later context, gives the
    same result and changes nothing. *)

Definition later (c c' : GotocCtx) : Prop :=
  fn_instance <$> gcx_current_fn c' = fn_instance <$> gcx_current_fn c
  /\ (forall n, is_Some (lookup (gcx_table c) n) -> is_Some (lookup (gcx_table c') n))
  /\ (forall tg, is_Some (type_map c !! tg) -> is_Some (type_map c' !! tg)).

#[local] Instance later_preorder : PreOrder later.
Proof.
  split.
  - intros c. by repeat split.
  - intros c1 c2 c3 (Hi1 & Hn1 & Ht1) (Hi2 & Hn2 & Ht2). split; [congruence|]. split; auto.
Qed.

Definition stable {A} (m : G A) : Prop :=
  forall c a c1, m c = Done (Ok (a, c1)) ->
  later c c1 /\ forall c2, later c1 c2 -> m c2 = Done (Ok (a, c2)).

Lemma stable_ret {A} (a : A) : stable (mret a).
Proof. intros c ? ? [= <- <-]. by split. Qed.

Lemma stable_lift {A} (m : outcome A) : stable (g_lift m).
Proof.
  intros c a c1 (a' & -> & [= -> ->])%g_lift_ok. by split.
Qed.

Lemma stable_bind {A B} (m : G A) (f : A -> G B) :
  stable m -> (forall a, stable (f a)) -> stable (mbind f m).
Proof.
  intros Hm Hf c b c2 (a & c1 & H1 & H2)%g_bind_ok.
  destruct (Hm _ _ _ H1) as [L1 S1]. destruct (Hf a _ _ _ H2) as [L2 S2].
  split; [by etrans|]. intros c3 L3. apply g_bind_ok. exists a, c3.
  split; [apply S1; by etrans | by apply S2].
Qed.

Lemma stable_map {A B} (f : A -> G B) l : (forall a, stable (f a)) -> stable (g_map f l).
Proof.
  intros Hf. induction l as [|a l IH]; cbn; [apply stable_ret|].
  apply stable_bind; [done|]. intros b. apply stable_bind; [done|]. intros r. apply stable_ret.
Qed.

Lemma stable_fuel {A} : stable (fun _ => OutOfFuel : fuelled (A * GotocCtx)).
Proof. by intros c a c1. Qed.

Lemma stable_instance : stable g_instance.
Proof.
  intros c a c1 [= <- <-]. split; [done|]. intros c2 (Hi & _). unfold g_instance. by rewrite Hi.
Qed.

Lemma stable_nested_pair n s d : stable (g_nested_pair n s d).
Proof.
  intros c a c1. unfold g_nested_pair. destruct (nested_pair n s d) as [[r|]|]; [|done|done].
  intros [= <- <-]. by split.
Qed.

Lemma stable_note t g : stable (note_type t g).
Proof.
  intros c a c1 [= <- <-]. destruct (tag g) as [tg|] eqn:Et.
  - split.
    + case_bool_decide as Hk; [done|]. split; [done|]. split; [done|]. intros tg' Htg'. cbn.
      destruct (decide (tg' = tg)) as [->|]; [by rewrite lookup_insert_eq | by rewrite lookup_insert_ne].
    + intros c2 (_ & _ & Ht). unfold note_type. rewrite Et, bool_decide_eq_true_2; [done|].
      apply Ht. case_bool_decide; [done|]. cbn. by rewrite lookup_insert_eq.
  - split; [done|]. intros c2 _. unfold note_type. by rewrite Et.
Qed.

Lemma contains_spec st n : contains st n = true <-> is_Some (lookup st n).
Proof. apply bool_decide_eq_true. Qed.

Lemma later_set_table c st :
  (forall n, is_Some (lookup (gcx_table c) n) -> is_Some (lookup st n)) -> later c (set_table c st).
Proof. intros Hn. by split. Qed.

Lemma later_insert c s st : insert (gcx_table c) s = Ok st -> later c (set_table c st).
Proof.
  intros [Hn ->]%insert_ok. apply later_set_table. intros n. rewrite lookup_raw_insert.
  case_decide; [by eexists | done].
Qed.

Lemma later_complete c s st :
  replace_with_completion (gcx_table c) s = Ok st -> later c (set_table c st)
  /\ is_Some (lookup st (sym_name s)).
Proof.
  unfold replace_with_completion, replace. intros Hc. outcome_inv. split.
  - apply later_set_table. intros n. rewrite lookup_raw_insert. case_decide; [by eexists | done].
  - rewrite lookup_raw_insert, decide_True by done. by eexists.
Qed.

(** A program that is skipped when a name is known, and makes it known otherwise *)
Lemma stable_once {A} (name : InternedString) (m : G unit) (r : A) :
  (forall c u c1, m c = Done (Ok (u, c1)) -> later c c1 /\ is_Some (lookup (gcx_table c1) name)) ->
  stable (st ← g_table; (if contains st name then mret tt else m);; mret r).
Proof.
  intros Hm.
  assert (forall c2, is_Some (lookup (gcx_table c2) name) ->
    (st ← g_table; (if contains st name then mret tt else m);; mret r) c2 = Done (Ok (r, c2)))
    as Hskip.
  { intros c2 Hin. apply g_bind_ok. do 2 eexists. split; [reflexivity|]. apply g_bind_ok.
    exists tt, c2. by rewrite (proj2 (contains_spec _ _) Hin). }
  intros c a c1 (st & c' & [= <- <-] & ([] & c2 & H1 & [= <- <-])%g_bind_ok)%g_bind_ok.
  destruct (contains (gcx_table c) name) eqn:E.
  - injection H1 as <-. split; [done|]. intros c2 (_ & Hn & _). apply Hskip, Hn. by apply contains_spec.
  - destruct (Hm _ _ _ H1) as [L Hin]. split; [done|]. intros c3 (_ & Hn & _). by apply Hskip, Hn.
Qed.

Lemma stable_ensure_struct n p f : (forall m, stable (f m)) -> stable (ensure_struct n p f).
Proof.
  intros Hf. unfold ensure_struct. apply stable_bind; [apply stable_lift|]. intros _.
  apply stable_once. intros c u c1 Hrun. g_inv.
  match goal with E : symbol_struct_type _ _ _ = Ok _ |- _ =>
    apply struct_type_symbol in E as [En _] end.
  match goal with E : replace_with_completion _ _ = Ok _ |- _ =>
    apply later_complete in E as [L3 Hin] end.
  match goal with E : insert _ _ = Ok _ |- _ => apply later_insert in E as L1 end.
  match goal with E : f n _ = Done _ |- _ => apply Hf in E as [L2 _] end.
  split; [|by rewrite <- En]. by etrans; [|etrans].
Qed.

Lemma stable_ensure_union n p f : (forall m, stable (f m)) -> stable (ensure_union n p f).
Proof.
  intros Hf. unfold ensure_union. apply stable_bind; [apply stable_lift|]. intros _.
  apply stable_once. intros c u c1 Hrun. g_inv.
  match goal with E : symbol_union_type _ _ _ = Ok _ |- _ =>
    apply union_type_symbol in E as [En _] end.
  match goal with E : replace_with_completion _ _ = Ok _ |- _ =>
    apply later_complete in E as [L3 Hin] end.
  match goal with E : insert _ _ = Ok _ |- _ => apply later_insert in E as L1 end.
  match goal with E : f n _ = Done _ |- _ => apply Hf in E as [L2 _] end.
  split; [|by rewrite <- En]. by etrans; [|etrans].
Qed.

Ltac stab1 :=
  match goal with
  | |- stable (mret _) => apply stable_ret
  | |- stable (g_lift _) => apply stable_lift
  | |- stable g_instance => apply stable_instance
  | |- stable (g_nested_pair _ _ _) => apply stable_nested_pair
  | |- stable (note_type _ _) => apply stable_note
  | |- stable (mbind _ _) => apply stable_bind; [|intros ?]
  | |- stable (ensure_struct _ _ _) => apply stable_ensure_struct; intros ?
  | |- stable (ensure_union _ _ _) => apply stable_ensure_union; intros ?
  | |- stable (g_map _ _) => apply stable_map; intros ?
  | |- stable (match ?x with _ => _ end) => destruct x
  end.
Create HintDb stable.
Ltac stab := repeat first [ stab1 | solve [eauto with stable] ].

Lemma stable_monomorphize t : stable (monomorphize t).
Proof. unfold monomorphize. stab. Qed.
Lemma stable_monomorphize_sig s : stable (monomorphize_sig s).
Proof. unfold monomorphize_sig. stab. Qed.
Hint Resolve stable_monomorphize stable_monomorphize_sig : stable.
Lemma stable_use_thin_pointer t : stable (use_thin_pointer t).
Proof. unfold use_thin_pointer, ty_is_unsized. stab. Qed.
Lemma stable_pretty t : stable (ty_pretty_name t).
Proof. unfold ty_pretty_name. stab. Qed.
Hint Resolve stable_use_thin_pointer stable_pretty : stable.
Lemma stable_mangled t : stable (ty_mangled_name t).
Proof. unfold ty_mangled_name. stab. Qed.
Hint Resolve stable_mangled : stable.
Lemma stable_trait_name t : stable (normalized_trait_name t).
Proof. unfold normalized_trait_name. stab. Qed.
Hint Resolve stable_trait_name : stable.
Lemma stable_vtable_name t : stable (vtable_name t).
Proof. unfold vtable_name. stab. Qed.
Lemma stable_instance_sig i : stable (fn_sig_of_instance i).
Proof. unfold fn_sig_of_instance, closure_sig. stab. Qed.
Hint Resolve stable_vtable_name stable_instance_sig : stable.

Lemma stable_foreign t : stable (codegen_foreign t).
Proof.
  unfold codegen_foreign. apply stable_bind; [apply stable_mangled|]. intros name.
  intros c a c1 Hrun.
  assert (forall c2, is_Some (lookup (gcx_table c2) (aggr_tag name)) ->
    (g_ensure (aggr_tag name) (fun _ => p ← ty_pretty_name t;
       g_lift (symbol_incomplete_struct name (Some p)));; mret (struct_tag name)) c2
    = Done (Ok (struct_tag name, c2))) as Hskip.
  { intros c2 Hin. apply g_bind_ok. pose proof Hin as [s Hs]. exists s, c2. split; [|done].
    unfold g_ensure, mbind, G_bind, g_table. rewrite (proj2 (contains_spec _ _) Hin). cbn.
    unfold g_lift. by rewrite Hs. }
  apply g_bind_ok in Hrun as (s & c' & H1 & [= <- <-]).
  unfold g_ensure in H1. apply g_bind_ok in H1 as (st & ? & [= <- <-] & H1).
  apply g_bind_ok in H1 as ([] & c2 & H1 & H2). apply g_bind_ok in H2 as (? & ? & [= <- <-] & H2).
  apply g_lift_ok in H2 as (s' & Hs' & [= -> ->]).
  assert (is_Some (lookup (gcx_table c2) (aggr_tag name))) as Hin
    by (destruct (lookup (gcx_table c2) (aggr_tag name)); [by eexists | done]).
  split.
  - destruct (contains _ _); [by injection H1 as <-|].
    apply g_bind_ok in H1 as (s1 & c3 & H1 & (st & Hi & [= ->])%g_update_ok).
    transitivity c3; [|by eapply later_insert].
    assert (stable (p ← ty_pretty_name t; g_lift (symbol_incomplete_struct name (Some p)))) as Hst
      by stab.
    by apply Hst in H1 as [? _].
  - intros c3 (_ & Hn & _). by apply Hskip, Hn.
Qed.

Section StableStep.
Context (codegen_ty : Ty -> G Type_) (fuel : nat).
Hypothesis rec_stable : forall t, stable (codegen_ty t).

Lemma stable_fields_loop flds offsets order fields offset :
  stable (struct_fields_loop codegen_ty flds offsets order fields offset).
Proof using rec_stable.
  revert fields offset. induction order as [|i order IH]; intros fields offset; cbn; stab.
Qed.
Hint Resolve rec_stable stable_fields_loop : stable.

Lemma stable_struct_fields flds l o : stable (codegen_struct_fields codegen_ty flds l o).
Proof using rec_stable. unfold codegen_struct_fields. stab. Qed.
Lemma stable_params l : stable (codegen_params codegen_ty l).
Proof using rec_stable. unfold codegen_params. stab. Qed.
Hint Resolve stable_struct_fields stable_params : stable.
Lemma stable_sig s : stable (codegen_function_sig codegen_ty s).
Proof using rec_stable. unfold codegen_function_sig. stab. Qed.
Lemma stable_dynamic_sig s : stable (codegen_dynamic_function_sig codegen_ty s).
Proof using rec_stable. unfold codegen_dynamic_function_sig. stab. Qed.
Hint Resolve stable_sig stable_dynamic_sig : stable.

Lemma stable_vtable_type t : stable (codegen_trait_vtable_type codegen_ty t).
Proof using rec_stable.
  unfold codegen_trait_vtable_type, trait_vtable_field_types, trait_vtable_drop_type,
    trait_method_vtable_field_type. stab.
Qed.
Lemma stable_fat_ptr_type t : stable (codegen_trait_fat_ptr_type t).
Proof using. unfold codegen_trait_fat_ptr_type. stab. Qed.
Hint Resolve stable_vtable_type stable_fat_ptr_type : stable.

Lemma stable_fat_ptr t : stable (codegen_fat_ptr codegen_ty fuel t).
Proof using rec_stable. unfold codegen_fat_ptr. stab. Qed.
Hint Resolve stable_fat_ptr : stable.
Lemma stable_ty_ref t : stable (codegen_ty_ref codegen_ty fuel t).
Proof using rec_stable. unfold codegen_ty_ref. stab. Qed.
Lemma stable_enum t d s : stable (codegen_enum codegen_ty t d s).
Proof using rec_stable.
  unfold codegen_enum, codegen_enum_cases_union, codegen_enum_case_struct,
    codegen_variant_struct_fields. stab.
Qed.
Hint Resolve stable_ty_ref stable_enum stable_foreign : stable.

Lemma stable_body t : stable (codegen_ty_body codegen_ty fuel t).
Proof using rec_stable.
  unfold codegen_ty_body. stab1; [|stab].
  destruct t; cbn [codegen_ty_inner]; stab.
  all: unfold codegen_vector, codegen_struct, codegen_union, codegen_array, codegen_ty_raw_array,
    codegen_ty_closure, codegen_ty_generator, codegen_ty_never, codegen_tuple, codegen_ty_unit,
    codegen_ty_tuple_like, codegen_variant_struct_fields; stab.
Qed.
End StableStep.

Lemma codegen_ty_stable_aux n t : stable (codegen_ty n t).
Proof.
  revert t. induction n as [|n IH]; intros t; cbn; [apply stable_fuel | by apply stable_body].
Qed.

(** ** Fields are where the layout puts them *)

(** Bits of a component, and the bit at which each field of a struct starts *)
Definition component_bits (size : Type_ -> N) (c : DatatypeComponent) : N :=
  match c with Field _ t => size t | Padding _ b => b end.
Fixpoint field_offsets (size : Type_ -> N) (start : N) (cs : list DatatypeComponent) :
    list (InternedString * N) :=
  match cs with
  | [] => []
  | c :: cs =>
      (if is_padding c then [] else [(component_name c, start)])
      ++ field_offsets size (start + component_bits size c) cs
  end.
Definition end_offset (size : Type_ -> N) (start : N) (cs : list DatatypeComponent) : N :=
  foldl (fun o c => o + component_bits size c)%N start cs.

Lemma field_offsets_app size start cs cs' :
  field_offsets size start (cs ++ cs')
  = field_offsets size start cs ++ field_offsets size (end_offset size start cs) cs'.
Proof.
  revert start. induction cs as [|c cs IH]; intros start; cbn; [done|]. by rewrite IH, (assoc_L (++)).
Qed.
Lemma end_offset_app size start cs cs' :
  end_offset size start (cs ++ cs') = end_offset size (end_offset size start cs) cs'.
Proof. apply foldl_app. Qed.

Lemma omap_fmap {A B C} (f : B -> option C) (g : A -> B) (l : list A) : omap f (g <$> l) = omap (fun a => f (g a)) l.
Proof. induction l as [|a l IH]; cbn; [done|]. by rewrite IH. Qed.

(** *** The order in memory *)

Lemma invert_run memory_index i inverse :
  Forall (fun p => p < length inverse) memory_index -> NoDup memory_index ->
  exists inverse', invert memory_index i inverse = Ok inverse'
    /\ length inverse' = length inverse
    /\ (forall j p, memory_index !! j = Some p -> inverse' !! p = Some (i + j))
    /\ (forall p, p ∉ memory_index -> inverse' !! p = inverse !! p).
Proof.
  revert i inverse. induction memory_index as [|q rest IH]; intros i inverse Hlt Hnd; cbn [invert].
  { exists inverse. split_and!; [done | done | | done]. intros j p. by rewrite lookup_nil. }
  inversion Hlt as [|? ? Hq Hrest]; subst. apply NoDup_cons in Hnd as [Hnin Hnd].
  rewrite (proj2 (Nat.ltb_lt q (length inverse)) Hq). cbn.
  destruct (IH (S i) (<[q := i]> inverse)) as (inv' & E & Hl & Hin & Hout);
    [by rewrite length_insert | done |].
  exists inv'. rewrite length_insert in Hl. split_and!; [done | done | |].
  - intros [|j] p Hp; cbn in Hp.
    + injection Hp as ->. rewrite Hout by done. rewrite list_lookup_insert_eq by done.
      f_equal. lia.
    + rewrite (Hin j p Hp). f_equal. lia.
  - intros p Hp. apply not_elem_of_cons in Hp as [Hne Hp]. rewrite Hout by done.
    by apply list_lookup_insert_ne.
Qed.

Lemma memory_order offsets memory_index :
  memory_index ≡ₚ seq 0 (length offsets) ->
  exists order, index_by_increasing_offset (ShapeArbitrary offsets memory_index) = Ok order
    /\ order ≡ₚ seq 0 (length offsets)
    /\ (forall i p, memory_index !! i = Some p -> order !! p = Some i).
Proof.
  intros Hp. set (n := length offsets) in *. unfold index_by_increasing_offset.
  assert (length memory_index = n) as Hl by (rewrite Hp; apply length_seq).
  fold n. rewrite Hl, Nat.leb_refl. cbn [rassert mbind outcome_bind]. rewrite take_ge by lia.
  set (cap := if n <=? 64 then 64 else n).
  assert (n <= cap) as Hcap by (unfold cap; destruct (Nat.leb_spec n 64); lia).
  destruct (invert_run memory_index 0 (replicate cap 0)) as (inv & E & Hlen & Hin & _).
  { rewrite Hp. apply Forall_forall. intros p Hpn%elem_of_seq. rewrite length_replicate. lia. }
  { rewrite Hp. apply NoDup_seq. }
  rewrite E. cbn. rewrite length_replicate in Hlen. exists (take n inv). split; [done|].
  assert (forall i p, memory_index !! i = Some p -> take n inv !! p = Some i) as Hinv.
  { intros i p Hip. rewrite lookup_take_lt; [by rewrite (Hin i p Hip)|].
    assert (p ∈ seq 0 n) as Hpn%elem_of_seq by (rewrite <- Hp; by eapply list_elem_of_lookup_2). lia. }
  split; [|done]. symmetry. apply submseteq_length_Permutation.
  - apply NoDup_submseteq; [apply NoDup_seq|]. intros i Hi%elem_of_seq.
    destruct (lookup_lt_is_Some_2 memory_index i) as [p Hip]; [lia|].
    by eapply list_elem_of_lookup_2, Hinv.
  - rewrite length_take, length_seq. lia.
Qed.

(** *** The loop *)

(** The fields in this order neither overlap nor leave the address space. *)
Fixpoint no_overlap (flds : list (string * Ty)) (offsets : list N) (order : list nat)
    (offset : N) : bool :=
  match order with
  | [] => true
  | i :: order =>
      match offsets !! i, flds !! i with
      | Some o, Some fld =>
          (offset <=? bits o)%N && in_u64 (bits o + bits (lay_size (layout_of fld.2)))
          && no_overlap flds offsets order (bits o + bits (lay_size (layout_of fld.2)))
      | _, _ => false
      end
  end.

Definition fields_end (flds : list (string * Ty)) (offsets : list N) (order : list nat)
    (offset : N) : N :=
  foldl (fun e i => match offsets !! i, flds !! i with
                    | Some o, Some fld => bits o + bits (lay_size (layout_of fld.2))
                    | _, _ => e
                    end)%N offset order.

Definition placed (flds : list (string * Ty)) (offsets : list N) (i : nat) :
    option (InternedString * N) :=
  match flds !! i, offsets !! i with
  | Some fld, Some o => Some (fld.1, bits o)
  | _, _ => None
  end.

Section Placement.
Context (rec : Ty -> G Type_) (size : Type_ -> N) (flds : list (string * Ty)) (offsets : list N).
Hypothesis rec_size : forall fld, fld ∈ flds -> forall c, exists g c',
  rec fld.2 c = Done (Ok (g, c')) /\ size g = bits (lay_size (layout_of fld.2)).

Lemma padding_run cur next idx :
  (cur <= next)%N ->
  exists pad, codegen_struct_padding cur next idx = Ok pad
    /\ (forall start, field_offsets size start (option_list pad) = [])
    /\ end_offset size cur (option_list pad) = next
    /\ Forall (fun c => 0 < component_bits size c)%N (option_list pad)
    /\ forallb is_padding (option_list pad) = true
    /\ (pad = None <-> cur = next).
Proof using.
  intros Hle. unfold codegen_struct_padding. rewrite (proj2 (N.leb_le _ _) Hle). cbn.
  eexists. split; [done|]. destruct (N.ltb_spec cur next); cbn;
    (split_and!; [done | unfold end_offset; cbn; lia | | done | split; [done || lia | done || lia]]).
  - constructor; [cbn; lia | constructor].
  - constructor.
Qed.

(** What the components generated so far look like: paddings are numbered by their
    position, so no two share a name. *)
Definition numbered_paddings (fields : list DatatypeComponent) : Prop :=
  forall i n b, fields !! i = Some (Padding n b) -> n = "$pad" +:+ pretty (N.of_nat i) /\ (0 < b)%N.

Lemma numbered_app fields pad n t cur next :
  numbered_paddings fields -> codegen_struct_padding cur next (length fields) = Ok pad ->
  numbered_paddings ((fields ++ option_list pad) ++ [Field n t])
  /\ numbered_paddings (fields ++ option_list pad).
Proof using.
  intros Hnum Hpad.
  assert (numbered_paddings (fields ++ option_list pad)) as Hnum'.
  { intros i m b [Hi|[Hi Hb]]%lookup_app_Some; [by apply Hnum|].
    unfold codegen_struct_padding in Hpad. outcome_inv.
    destruct (N.ltb_spec cur next); cbn in Hb; [|by rewrite lookup_nil in Hb].
    destruct (i - length fields) eqn:Ei; [|by destruct n0]. cbn in Hb. injection Hb as <- <-.
    split; [|lia]. do 2 f_equal. lia. }
  split; [|done]. intros i m b [Hi|[Hi Hb]]%lookup_app_Some; [by apply Hnum'|].
  by destruct (i - length _) as [|[]].
Qed.

Lemma fields_loop_run order fields offset init c :
  no_overlap flds offsets order offset = true -> end_offset size init fields = offset ->
  numbered_paddings fields ->
  exists fields' c',
    struct_fields_loop rec flds offsets order fields offset c
    = Done (Ok ((fields', fields_end flds offsets order offset), c'))
    /\ field_offsets size init fields'
       = field_offsets size init fields ++ omap (placed flds offsets) order
    /\ end_offset size init fields' = fields_end flds offsets order offset
    /\ numbered_paddings fields'.
Proof using rec_size.
  revert fields offset c. induction order as [|i order IH]; intros fields offset c Hno Hend Hnum.
  { exists fields, c. cbn. by rewrite app_nil_r. }
  cbn [no_overlap] in Hno. destruct (offsets !! i) as [o|] eqn:Ho; [|done].
  destruct (flds !! i) as [fld|] eqn:Hfld; [|done]. bool_inv.
  destruct (padding_run offset (bits o) (length fields)) as (pad & Epad & Hpo & Hpe & _ & _);
    [by apply N.leb_le|].
  destruct (rec_size fld (list_elem_of_lookup_2 _ _ _ Hfld) c) as (g & c1 & Eg & Hg).
  destruct (IH ((fields ++ option_list pad) ++ [datatype_component fld.1 g])
              (bits o + bits (lay_size (layout_of fld.2)))%N c1)
    as (fields' & c' & Erun & Hoff & Hend' & Hnum'); [done | | by eapply numbered_app |].
  { rewrite !end_offset_app, Hend, Hpe. cbn. by rewrite Hg. }
  exists fields', c'. split_and!; [| | | done].
  - cbn [struct_fields_loop]. unfold mbind, G_bind, g_lift. rewrite Ho, Hfld. cbn [unwrap].
    rewrite Epad, Eg.
    rewrite (proj2 (u64_add_ok _ _ (bits o + bits (lay_size (layout_of fld.2)))%N))
      by (split; [done | by apply N.leb_le]).
    rewrite Erun. unfold fields_end. cbn [foldl]. by rewrite Ho, Hfld.
  - rewrite Hoff, !field_offsets_app, !end_offset_app, Hpo, Hend, Hpe. cbn.
    unfold placed at 2. rewrite Hfld, Ho. by rewrite app_nil_r, <- (assoc_L (++)).
  - rewrite Hend'. unfold fields_end. cbn [foldl]. by rewrite Ho, Hfld.
Qed.

Definition round_up (e a : N) : N := (if e mod a =? 0 then e else e + a - e mod a)%N.

Lemma round_up_spec e a :
  (0 < a)%N -> (round_up e a mod a = 0 /\ e <= round_up e a < e + a)%N.
Proof using.
  intros Ha. unfold round_up. pose proof (N.mod_lt e a ltac:(lia)) as Hm.
  pose proof (N.div_mod e a ltac:(lia)) as Hd.
  destruct (N.eqb_spec (e mod a) 0) as [E|E]; [split; [done | lia]|].
  assert (e + a - e mod a = (e / a + 1) * a)%N as Eq.
  { rewrite N.mul_add_distr_r, N.mul_1_l, (N.mul_comm (e / a)). revert Hm Hd E.
    generalize (e mod a)%N, (a * (e / a))%N. lia. }
  split; [rewrite Eq; apply N.Div0.mod_mul|]. revert Hm E. generalize (e mod a)%N. lia.
Qed.

Lemma struct_fields_run memory_index vs abi align sz init order c :
  length flds = length offsets -> length offsets = length memory_index ->
  index_by_increasing_offset (ShapeArbitrary offsets memory_index) = Ok order ->
  no_overlap flds offsets order init = true -> (0 < align)%N ->
  (fields_end flds offsets order init + align * 8 <= u64_max)%N ->
  exists comps c',
    codegen_struct_fields rec flds (mkLayout (ShapeArbitrary offsets memory_index) vs abi align sz)
      init c = Done (Ok (comps, c'))
    /\ field_offsets size init comps = omap (placed flds offsets) order
    /\ end_offset size init comps = round_up (fields_end flds offsets order init) (align * 8)
    /\ numbered_paddings comps.
Proof using rec_size.
  intros Hl1 Hl2 Hord Hno Ha Hbound.
  destruct (fields_loop_run order [] init init c Hno eq_refl) as (fs & c' & Erun & Hoff & Hend & Hnum).
  { intros i n b. by rewrite lookup_nil. }
  set (e := fields_end flds offsets order init) in *.
  unfold codegen_struct_fields. cbn [lay_fields lay_align].
  unfold mbind, G_bind, g_lift. rewrite Hl1, <- Hl2, Nat.eqb_refl. cbn [rassert].
  rewrite Hord, Erun. unfold align_bits.
  rewrite (proj2 (u64_mul_ok align 8 (align * 8)%N)) by (split; [done | lia]).
  rewrite (proj2 (N.ltb_lt 0 (align * 8)) ltac:(lia)). cbn [rassert].
  unfold round_up. destruct (N.eqb_spec (e mod (align * 8)) 0) as [Em|Em].
  { exists fs, c'. done. }
  pose proof (N.mod_lt e (align * 8) ltac:(lia)) as Hm.
  rewrite (proj2 (u64_add_ok e (align * 8) (e + align * 8)%N)) by (split; [done | lia]).
  unfold u64_sub. rewrite (proj2 (N.leb_le _ _)) by lia.
  destruct (padding_run e (e + align * 8 - e mod (align * 8))%N (length fs))
    as (pad & Epad & Hpo & Hpe & _ & _ & Hnone); [lia|].
  rewrite Epad. destruct pad as [p|]; [|exfalso; assert (e = e + align * 8 - e mod (align * 8))%N by (by apply Hnone); lia].
  cbn [unwrap]. exists (fs ++ [p]), c'. split; [done|].
  rewrite field_offsets_app, end_offset_app, Hend, Hoff. cbn [option_list] in Hpo, Hpe.
  rewrite Hpo, app_nil_r. split_and!; [done | done |].
  by eapply (numbered_app fs (Some p) "" TEmpty).
Qed.

Lemma unique_names start cs :
  numbered_paddings cs -> NoDup (field_offsets size start cs).*1 ->
  (forall n o, (n, o) ∈ field_offsets size start cs -> String.prefix "$pad" n = false) ->
  NoDup (map component_name cs).
Proof using.
  intros Hnum Hnd Hpre.
  assert (forall k, String.prefix "$pad" ("$pad" +:+ pretty (N.of_nat k)) = true) as Hpad
    by (intros k; by destruct (pretty (N.of_nat k))).
  assert (forall n t, Field n t ∈ cs -> exists o, (n, o) ∈ field_offsets size start cs) as Hfield.
  { intros n t (l1 & l2 & ->)%list_elem_of_split. rewrite field_offsets_app. eexists.
    apply elem_of_app. right. cbn. left. }
  apply NoDup_alt. intros i j n Hi Hj. apply list_lookup_fmap_Some in Hi as (ci & -> & Hi).
  apply list_lookup_fmap_Some in Hj as (cj & E & Hj).
  destruct ci as [ni ti|ni bi], cj as [nj tj|nj bj]; cbn in E; subst.
  - destruct (decide (i = j)) as [|Hne]; [done|]. exfalso.
    assert (exists i j n t t', i < j /\ cs !! i = Some (Field n t) /\ cs !! j = Some (Field n t'))
      as (a & b & n & t & t' & Hlt & Hab & Hbb).
    { destruct (decide (i < j)); [exists i, j | exists j, i]; eexists _, _, _; repeat split; eauto; lia. }
    rewrite <- (take_drop_middle _ _ _ Hab) in Hbb, Hnd.
    rewrite lookup_app_r in Hbb by (rewrite length_take; lia).
    rewrite field_offsets_app, fmap_app in Hnd. apply NoDup_app in Hnd as (_ & _ & Hnd).
    cbn in Hnd. apply NoDup_cons in Hnd as [Hnin _]. apply Hnin.
    rewrite length_take_le in Hbb by (apply lookup_lt_Some in Hab; lia).
    destruct (b - a) eqn:Eb; [lia|]. cbn in Hbb.
    apply list_elem_of_lookup_2, list_elem_of_split in Hbb as (l1 & l2 & ->).
    rewrite field_offsets_app, fmap_app. apply elem_of_app. right. cbn. left.
  - exfalso. destruct (Hnum _ _ _ Hj) as [-> _].
    destruct (Hfield _ _ (list_elem_of_lookup_2 _ _ _ Hi)) as [o Ho]. apply Hpre in Ho. by rewrite Hpad in Ho.
  - exfalso. destruct (Hnum _ _ _ Hi) as [E _]. subst.
    destruct (Hfield _ _ (list_elem_of_lookup_2 _ _ _ Hj)) as [o Ho]. apply Hpre in Ho. by rewrite Hpad in Ho.
  - destruct (Hnum _ _ _ Hi) as [E1 _], (Hnum _ _ _ Hj) as [E2 _]. rewrite E1 in E2.
    apply (inj _), (inj pretty) in E2. lia.
Qed.
End Placement.

(** ** The fuel does not matter

    [m ⊑ m']: what [m] finds out, [m'] finds out too; [m'] may go on where [m] runs out
    of fuel. *)

Definition approximates {A} (m m' : G A) : Prop :=
  forall c o, m c = Done o -> m' c = Done o.

Lemma approx_refl {A} (m : G A) : approximates m m.
Proof. by intros c o. Qed.

Lemma approx_bind {A B} (m m' : G A) (f f' : A -> G B) :
  approximates m m' -> (forall a, approximates (f a) (f' a)) ->
  approximates (mbind f m) (mbind f' m').
Proof.
  intros Hm Hf c o. unfold mbind, G_bind. destruct (m c) as [[[a c1]|]|] eqn:E; [| |done].
  - rewrite (Hm _ _ E). apply Hf.
  - by rewrite (Hm _ _ E).
Qed.

Lemma approx_map {A B} (f f' : A -> G B) l :
  (forall a, approximates (f a) (f' a)) -> approximates (g_map f l) (g_map f' l).
Proof.
  intros Hf. induction l as [|a l IH]; cbn; [apply approx_refl|].
  apply approx_bind; [done|]. intros b. apply approx_bind; [done|]. intros r. apply approx_refl.
Qed.

Lemma approx_ensure_struct n p f f' :
  (forall m, approximates (f m) (f' m)) -> approximates (ensure_struct n p f) (ensure_struct n p f').
Proof.
  intros Hf. unfold ensure_struct. apply approx_bind; [apply approx_refl|]. intros _.
  apply approx_bind; [apply approx_refl|]. intros st.
  apply approx_bind; [|intros; apply approx_refl]. destruct (contains _ _); [apply approx_refl|].
  repeat (apply approx_bind; [first [apply approx_refl | apply Hf]|]; intros ?). apply approx_refl.
Qed.

Lemma approx_ensure_union n p f f' :
  (forall m, approximates (f m) (f' m)) -> approximates (ensure_union n p f) (ensure_union n p f').
Proof.
  intros Hf. unfold ensure_union. apply approx_bind; [apply approx_refl|]. intros _.
  apply approx_bind; [apply approx_refl|]. intros st.
  apply approx_bind; [|intros; apply approx_refl]. destruct (contains _ _); [apply approx_refl|].
  repeat (apply approx_bind; [first [apply approx_refl | apply Hf]|]; intros ?). apply approx_refl.
Qed.

Lemma fuelled_bind_done {A B} (x : fuelled A) (f f' : A -> fuelled B) o :
  (forall a o, f a = Done o -> f' a = Done o) -> mbind f x = Done o -> mbind f' x = Done o.
Proof. intros Hf. destruct x as [[a|]|]; cbn; auto. Qed.

Lemma nested_pair_mono n m s d o :
  n <= m -> nested_pair n s d = Done o -> nested_pair m s d = Done o.
Proof.
  revert m s d o. induction n as [|n IH]; intros m s d o Hle.
  { cbn. destruct (_ || _) eqn:E; [|done]. by destruct m; cbn; rewrite E. }
  destruct m as [|m]; [lia|]. cbn [nested_pair]. destruct (_ || _); [done|].
  destruct s, d; try done.
  do 2 (apply fuelled_bind_done; intros ? ?). apply fuelled_bind_done. intros [] o'. revert o'.
  match goal with |- forall o', foldl ?f _ _ = Done o' -> foldl ?g _ _ = Done o' =>
    assert (forall kvs x o', foldl f x kvs = Done o' ->
      forall y, (forall o, x = Done o -> y = Done o) -> foldl g y kvs = Done o') as Hfold end.
  { intros kvs. induction kvs as [|kv kvs IHl]; intros x o' H' y Hxy; cbn in *; [by apply Hxy|].
    eapply IHl; [done|]. clear IHl H' o'. intros o' H'.
    destruct x as [[mt|]|]; cbn in H'; [rewrite (Hxy _ eq_refl) | rewrite (Hxy _ eq_refl) | done];
      [|done]. cbn. destruct (unwrap (a0 !! kv.1)) as [t|]; [|done].
    destruct (nested_pair n kv.2 t) as [o2|] eqn:E; [|done]. by rewrite (IH m _ _ _ ltac:(lia) E). }
  intros o' H'. by eapply Hfold.
Qed.

Ltac approx1 :=
  match goal with
  | |- approximates ?m ?m => apply approx_refl
  | |- approximates (mbind _ _) (mbind _ _) => apply approx_bind; [|intros ?]
  | |- approximates (ensure_struct _ _ _) _ => apply approx_ensure_struct; intros ?
  | |- approximates (ensure_union _ _ _) _ => apply approx_ensure_union; intros ?
  | |- approximates (g_map _ _) _ => apply approx_map; intros ?
  | |- approximates (match ?x with _ => _ end) _ => destruct x
  end.
Create HintDb approx.
Ltac approx := repeat first [ approx1 | solve [eauto with approx] ].

Section ApproxStep.
Context (r1 r2 : Ty -> G Type_) (n1 n2 : nat).
Hypothesis (rec_approx : forall t, approximates (r1 t) (r2 t)) (fuel_le : n1 <= n2).
Hint Resolve rec_approx : approx.

Lemma approx_fields_loop flds offsets order fields offset :
  approximates (struct_fields_loop r1 flds offsets order fields offset)
    (struct_fields_loop r2 flds offsets order fields offset).
Proof using rec_approx.
  revert fields offset. induction order as [|i order IH]; intros fields offset; cbn; approx.
Qed.
Hint Resolve approx_fields_loop : approx.
Lemma approx_struct_fields flds l o :
  approximates (codegen_struct_fields r1 flds l o) (codegen_struct_fields r2 flds l o).
Proof using rec_approx. unfold codegen_struct_fields. approx. Qed.
Lemma approx_params l : approximates (codegen_params r1 l) (codegen_params r2 l).
Proof using rec_approx. unfold codegen_params. approx. Qed.
Hint Resolve approx_struct_fields approx_params : approx.
Lemma approx_sig s : approximates (codegen_function_sig r1 s) (codegen_function_sig r2 s).
Proof using rec_approx. unfold codegen_function_sig. approx. Qed.
Lemma approx_dynamic_sig s :
  approximates (codegen_dynamic_function_sig r1 s) (codegen_dynamic_function_sig r2 s).
Proof using rec_approx. unfold codegen_dynamic_function_sig. approx. Qed.
Hint Resolve approx_sig approx_dynamic_sig : approx.
Lemma approx_vtable_type t :
  approximates (codegen_trait_vtable_type r1 t) (codegen_trait_vtable_type r2 t).
Proof using rec_approx.
  unfold codegen_trait_vtable_type, trait_vtable_field_types, trait_vtable_drop_type,
    trait_method_vtable_field_type. approx.
Qed.
Lemma approx_nested_pair s d : approximates (g_nested_pair n1 s d) (g_nested_pair n2 s d).
Proof using fuel_le.
  intros c o. unfold g_nested_pair. destruct (nested_pair n1 s d) as [o'|] eqn:E; [|done].
  by rewrite (nested_pair_mono _ _ _ _ _ fuel_le E).
Qed.
Hint Resolve approx_vtable_type approx_nested_pair : approx.
Lemma approx_fat_ptr t : approximates (codegen_fat_ptr r1 n1 t) (codegen_fat_ptr r2 n2 t).
Proof using rec_approx fuel_le. unfold codegen_fat_ptr. approx. Qed.
Hint Resolve approx_fat_ptr : approx.
Lemma approx_ty_ref t : approximates (codegen_ty_ref r1 n1 t) (codegen_ty_ref r2 n2 t).
Proof using rec_approx fuel_le. unfold codegen_ty_ref. approx. Qed.
Lemma approx_enum t d s : approximates (codegen_enum r1 t d s) (codegen_enum r2 t d s).
Proof using rec_approx.
  unfold codegen_enum, codegen_enum_cases_union, codegen_enum_case_struct,
    codegen_variant_struct_fields. approx.
Qed.
Hint Resolve approx_ty_ref approx_enum : approx.

Lemma approx_body t : approximates (codegen_ty_body r1 n1 t) (codegen_ty_body r2 n2 t).
Proof using rec_approx fuel_le.
  unfold codegen_ty_body. approx1; [|approx].
  destruct t; cbn [codegen_ty_inner]; approx.
  all: unfold codegen_vector, codegen_struct, codegen_union, codegen_array, codegen_ty_raw_array,
    codegen_ty_closure, codegen_ty_generator, codegen_ty_never, codegen_tuple, codegen_ty_unit,
    codegen_ty_tuple_like, codegen_variant_struct_fields; approx.
Qed.
End ApproxStep.

Lemma codegen_ty_fuel n m t : n <= m -> approximates (codegen_ty n t) (codegen_ty m t).
Proof.
  revert m t. induction n as [|n IH]; intros m t Hle; [by intros c o|].
  destruct m as [|m]; [lia|]. cbn. apply approx_body; [|lia]. intros t'. apply IH. lia.
Qed.
End TypeGen.

(** ** Properties *)

(** Translating a type changes the table only by the operations of the table, and when
    it is done every struct and union it has defined is complete, however the types refer
    to each other; only foreign types stay incomplete. *)
Theorem codegen_ty_complete `{TyCtxt, InternOrder} n t c g c' :
  codegen_ty n t c = Done (Ok (g, c')) ->
  rtc symtab_step (gcx_table c) (gcx_table c')
  /\ (forall m, open_types (gcx_table c) m -> open_types (gcx_table c') m)
  /\ (forall m, open_types (gcx_table c') m -> open_types (gcx_table c) m \/ foreign_tag m).
Proof. intros Hrun. by apply codegen_ty_settles_aux in Hrun as (_ & Hr & Hk & Ho & _). Qed.

(** A type has one translation: run again in any later context of the same function,
    with at least the same fuel, the translation gives the same goto type and changes
    nothing. *)
Theorem codegen_ty_stable `{TyCtxt, InternOrder} n m t c g c1 c2 :
  codegen_ty n t c = Done (Ok (g, c1)) -> n <= m -> later c1 c2 ->
  codegen_ty m t c2 = Done (Ok (g, c2)).
Proof.
  intros Hrun Hle Hl. apply (codegen_ty_fuel n m t Hle).
  by apply (codegen_ty_stable_aux n t c g c1 Hrun).
Qed.

(** C18. The struct generated for a layout has the field [name] at the offset of the layout,
    for every field, its end is the end of the last field rounded up to the alignment, and
    the names of its components are distinct: given that the fields do not overlap and
    that their translations have the sizes the layouts give. *)
Theorem struct_fields_at_offsets `{TyCtxt, InternOrder} (rec : Ty -> G Type_)
    (size : Type_ -> N) (flds : list (string * Ty)) (offsets : list N) (memory_index : list nat)
    (vs : Variants) (abi : Abi) (align sz init : N) (order : list nat) (c : GotocCtx) :
  length flds = length offsets -> memory_index ≡ₚ seq 0 (length offsets) ->
  index_by_increasing_offset (ShapeArbitrary offsets memory_index) = Ok order ->
  no_overlap flds offsets order init = true -> (0 < align)%N ->
  (fields_end flds offsets order init + align * 8 <= u64_max)%N ->
  NoDup flds.*1 -> Forall (fun fld => String.prefix "$pad" fld.1 = false) flds ->
  (forall fld, fld ∈ flds -> forall c, exists g c',
     rec fld.2 c = Done (Ok (g, c')) /\ size g = bits (lay_size (layout_of fld.2))) ->
  exists comps c',
    codegen_struct_fields rec flds (mkLayout (ShapeArbitrary offsets memory_index) vs abi align sz)
      init c = Done (Ok (comps, c'))
    /\ (forall i name t o, flds !! i = Some (name, t) -> offsets !! i = Some o ->
          (name, bits o) ∈ field_offsets size init comps)
    /\ length (field_offsets size init comps) = length flds
    /\ (end_offset size init comps mod (align * 8) = 0)%N
    /\ (fields_end flds offsets order init <= end_offset size init comps
          < fields_end flds offsets order init + align * 8)%N
    /\ components_are_unique comps = true.
Proof.
  intros Hl Hperm Hord Hno Ha Hbound Hnd Hpre Hrec.
  assert (length offsets = length memory_index) as Hl2 by (rewrite Hperm; symmetry; apply length_seq).
  destruct (memory_order offsets memory_index Hperm) as (order' & Hord' & Hperm' & _).
  rewrite Hord in Hord'. injection Hord' as <-.
  destruct (struct_fields_run rec size flds offsets Hrec memory_index vs abi align sz init order c)
    as (comps & c' & Erun & Hoff & Hend & Hnum); [done..|].
  assert (field_offsets size init comps ≡ₚ zip flds.*1 (bits <$> offsets)) as Hzip.
  { rewrite Hoff, Hperm', <- Hl. clear - Hl. revert offsets Hl.
    induction flds as [|fld l IH]; intros [|o os] Hl; try done. cbn.
    constructor. rewrite <- fmap_S_seq, omap_fmap. apply IH. by injection Hl. }
  exists comps, c'. split; [done|]. split.
  { intros i name t o Hf Ho. rewrite Hzip. apply (list_elem_of_lookup_2 _ i).
    apply lookup_zip_Some. rewrite !list_lookup_fmap, Hf, Ho. done. }
  split; [rewrite Hzip, length_zip_with, !length_fmap; lia|].
  rewrite Hend. destruct (round_up_spec (fields_end flds offsets order init) (align * 8)) as [Hm Hr]; [lia|].
  split; [done|]. split; [done|]. apply components_are_unique_nodup.
  apply (unique_names size init); [done | |].
  - rewrite Hzip, fst_zip; [done|]. rewrite !length_fmap. lia.
  - intros n o Hin. rewrite Hzip in Hin. apply elem_of_zip_l in Hin.
    apply list_elem_of_fmap in Hin as (fld & -> & Hin). by eapply Forall_forall in Hpre.
Qed.

(** *** A program with one recursive type

    [struct Node { value: u8, next: *const Node, handle: *const Opaque }] with [Opaque] a
    foreign type; the compiler puts [value] last. *)
Definition node_ty : Ty := Adt 0 [].
Definition scalar_layout (p : Primitive) (n : N) : Layout :=
  mkLayout ShapePrimitive (Single 0) (Scalar p) n n.
Definition sample_layout (t : Ty) : Layout :=
  match t with
  | Uint U8 => scalar_layout (PrimInt Int8 false) 1
  | RawPtr _ _ => scalar_layout PrimPointer 8
  | Adt 0 _ => mkLayout (ShapeArbitrary [16; 0; 8]%N [2; 0; 1]) (Single 0) (Aggregate true) 8 24
  | _ => scalar_layout PrimPointer 0
  end.
Definition node_def : AdtDef :=
  mkAdtDef AdtStruct
    [mkVariantDef "Node" [mkFieldDef 0 "value"; mkFieldDef 1 "next"; mkFieldDef 2 "handle"]]
    false false false false.
#[local] Instance sample_tcx : TyCtxt := {|
  adt_def _ := node_def;
  field_ty f _ := match field_did f with
                  | 0%N => Uint U8
                  | 1%N => RawPtr node_ty false
                  | _ => RawPtr (Foreign 5) false
                  end;
  layout_of := sample_layout;
  type_id_hash t := match t with Adt d _ => d | Foreign d => (100 + d)%N | _ => 1000%N end;
  print_type _ := "Node";
  fn_def_sig _ _ := mkFnSig [] Never false false;
  instance_ty _ := Never;
  closure_sig_of _ _ := mkFnSig [] Never false false;
  closure_env_ty _ _ := Never;
  closure_upvar_tys _ _ := [];
  generator_upvar_tys _ _ := [];
  generator_return_ty _ _ := Never;
  normalize_erasing_regions t := t;
  normalize_sig s := s;
  subst_ty _ t := t;
  subst_sig _ s := s;
  ty_is_sized _ := true;
  ptr_metadata_ty _ := Tuple [];
  vtable_entries _ := None;
|}.

Definition node_translated : fuelled (Type_ * GotocCtx) := codegen_ty 5 node_ty sample_ctx.

Example node_translation :
  match node_translated with
  | Done (Ok (g, c')) =>
      g = TStructTag "tag-_0"
      /\ sym_typ <$> lookup (gcx_table c') "tag-_0"
         = Some (TStruct "_0" [Field "next" (TPointer (TStructTag "tag-_0"));
                               Field "handle" (TPointer (TStructTag "tag-_105"));
                               Field "value" (TUnsignedbv 8); Padding "$pad3" 56])
      /\ sizeof_in_bits g (gcx_table c') = Ok 192%N
  | _ => False
  end.
Proof. vm_compute. done. Qed.

Lemma codegen_ty_complete_witness :
  exists g c', node_translated = Done (Ok (g, c'))
    /\ forall m, open_types (gcx_table c') m -> open_types (gcx_table sample_ctx) m \/ foreign_tag m.
Proof.
  eexists _, _. split; [vm_compute; reflexivity|].
  apply (codegen_ty_complete 5 node_ty sample_ctx (TStructTag "tag-_0")). vm_compute. reflexivity.
Defined.

Lemma codegen_ty_stable_witness :
  exists g c', node_translated = Done (Ok (g, c'))
    /\ codegen_ty 9 node_ty c' = Done (Ok (g, c')).
Proof.
  eexists _, _. split; [vm_compute; reflexivity|].
  eapply (codegen_ty_stable 5 9 node_ty sample_ctx); [vm_compute; reflexivity | lia |].
  by repeat split.
Defined.

Definition node_fields_list : list (string * Ty) :=
  [("value", Uint U8); ("next", RawPtr (Uint U8) false); ("handle", RawPtr (Uint U8) false)].
Definition scalar_bits (t : Type_) : N := match t with TUnsignedbv w => w | _ => 64 end.

Lemma struct_fields_at_offsets_witness :
  exists comps c',
    codegen_struct_fields (codegen_ty 3) node_fields_list (sample_layout node_ty) 0 sample_ctx
    = Done (Ok (comps, c'))
    /\ (forall i name t o, node_fields_list !! i = Some (name, t) -> [16; 0; 8]%N !! i = Some o ->
          (name, bits o) ∈ field_offsets scalar_bits 0 comps).
Proof.
  destruct (struct_fields_at_offsets (codegen_ty 3) scalar_bits node_fields_list [16; 0; 8]%N
    [2; 0; 1] (Single 0) (Aggregate true) 8 24 0 [1; 2; 0] sample_ctx)
    as (comps & c' & Hrun & Hoff & _).
  - reflexivity.
  - apply (Permutation_app_comm [2] [0; 1]).
  - vm_compute. reflexivity.
  - vm_compute. reflexivity.
  - lia.
  - vm_compute. discriminate.
  - apply (bool_decide_unpack _). vm_compute. done.
  - repeat constructor.
  - intros fld Hin c. unfold node_fields_list in Hin.
    repeat (apply elem_of_cons in Hin as [->|Hin]; [do 2 eexists; split; reflexivity|]).
    by apply elem_of_nil in Hin.
  - exists comps, c'. by split.
Defined.
