(* ===== verification/MirTyping.v ===== *)
(** * Types of places, operands and rvalues
    ([rustc_middle/src/mir/tcx.rs], [codegen/typ.rs], [codegen/span.rs], [utils/names.rs])

    The queries that the translation of bodies makes are the class [MirCtxt].  The types
    of places, operands and rvalues are computed from the declared types of the locals, the
    way the compiler does, and then monomorphized. *)

From S2P Require Import Prelude CbmcString MachineModel Location Typ Ast SymbolTable Expr Symbol.
From S2P Require Import Builtin Stmt Env Restrictions Mir GotoCtx TypeGen.

(** ** What the compiler answers *)

Class MirCtxt := {
  (** the file (as the file system knows it), line and column of a span, and the span of
      the outermost macro call it comes from *)
  lookup_char_pos : Span -> string * N * N;
  expansion_cause : Span -> option Span;
  (** items *)
  type_of : N -> Ty;
  def_span : N -> Span;
  is_mutable_static : N -> bool;
  is_foreign_item : N -> bool;
  mk_box : Ty -> Ty;
  discriminant_ty : Ty -> Ty;
  adt_discriminant_for_variant : N -> N -> N;
  (** instances *)
  instance_def_id : Instance_ -> N;
  def_path_last_name : Instance_ -> option string;
  diagnostic_item : string -> option N;
  lang_item : string -> option N;
  tcx_symbol_name : Instance_ -> string;
  def_path_str : Instance_ -> string;
  resolve_instance : N -> list Ty -> option Instance_;
  resolve_drop_in_place : Ty -> Instance_;
  polymorphize : Instance_ -> Instance_;
  instance_mono : N -> Instance_;
  instance_mir : Instance_ -> Body;
  (** the type of a field of a layout *)
  layout_field_ty : Ty -> nat -> Ty;
  static_is_extern : N -> bool;
  (** the entries of the vtable of a trait for a type, if the trait has a principal *)
  vtable_entries_for : N -> Ty -> option (list VtblEntry);
  (** constants *)
  subst_const : Instance_ -> Const -> Const;
  subst_constant : Instance_ -> ConstantKind -> ConstantKind;
  const_eval_resolve : N -> option ConstValue;
  const_eval_instance : Instance_ -> option ConstValue;
  global_alloc : AllocId -> GlobalAlloc;
  eval_static_initializer : N -> option Allocation;
  static_symbol_name : N -> string;
  (** the paths of the attributes of an instance that are not doc comments *)
  attr_paths : Instance_ -> list (list string);
  (** the target *)
  pointer_size : N;
  big_endian_target : bool;
  (** the [Debug] text of values that occur in messages *)
  expr_debug : Expr -> string;
  operand_debug : Operand -> string;
  ty_debug : Ty -> string;
  alloc_id_debug : AllocId -> string;
}.

(** ** Places, operands, rvalues *)

Section MirTyping.
Context `{TyCtxt, MirCtxt}.

(** [TyS::is_box], [is_enum], [boxed_ty], [builtin_deref(true)] *)
Definition ty_is_box (t : Ty) : bool :=
  match t with Adt def _ => adt_is_box (adt_def def) | _ => false end.
Definition adt_is_enum (d : AdtDef) : bool := match adt_kind d with AdtEnum => true | _ => false end.
Definition ty_is_enum (t : Ty) : bool :=
  match t with Adt def _ => adt_is_enum (adt_def def) | _ => false end.
Definition boxed_ty (t : Ty) : outcome Ty :=
  match t with
  | Adt def substs => assert! adt_is_box (adt_def def); unwrap (head substs)
  | _ => Panic
  end.
Definition builtin_deref (t : Ty) : outcome (option (Ty * bool)) :=
  match t with
  | Adt def _ => if adt_is_box (adt_def def) then t ← boxed_ty t; Ok (Some (t, false)) else Ok None
  | Ref t m | RawPtr t m => Ok (Some (t, m))
  | _ => Ok None
  end.

(** [struct PlaceTy] *)
Record PlaceTy := mkPlaceTy { pt_ty : Ty; variant_index : option N }.
Definition from_ty (t : Ty) : PlaceTy := mkPlaceTy t None.

(** [PlaceTy::projection_ty] *)
Definition projection_ty (p : PlaceTy) (elem : PlaceElem) : outcome PlaceTy :=
  match elem with
  | Deref => o ← builtin_deref (pt_ty p); t ← unwrap o; Ok (from_ty t.1)
  | Index _ | ConstantIndex _ _ _ => t ← unwrap (builtin_index (pt_ty p)); Ok (from_ty t)
  | Subslice from to from_end =>
      match pt_ty p with
      | Slice _ => Ok (from_ty (pt_ty p))
      | Array inner size =>
          len ← (if from_end : bool then l ← u64_sub size from; u64_sub l to else u64_sub to from);
          Ok (from_ty (Array inner len))
      | _ => Panic
      end
  | Downcast _ index => Ok (mkPlaceTy (pt_ty p) (Some index))
  | ProjField _ ty => Ok (from_ty ty)
  end.

(** [Place::ty] *)
Fixpoint projections_ty (p : PlaceTy) (elems : list PlaceElem) : outcome PlaceTy :=
  match elems with
  | [] => Ok p
  | e :: elems => p ← projection_ty p e; projections_ty p elems
  end.
Definition place_ty_from (decls : list LocalDecl) (p : Place) : outcome PlaceTy :=
  d ← unwrap (decls !! N.to_nat (place_local p));
  projections_ty (from_ty (decl_ty d)) (projection p).

(** [Operand::ty], [BinOp::ty] *)
Definition operand_ty_from (decls : list LocalDecl) (o : Operand) : outcome Ty :=
  match o with
  | Copy p | Move p => t ← place_ty_from decls p; Ok (pt_ty t)
  | Constant c => Ok (constant_ty (literal c))
  end.
Definition binop_ty (op : BinOp) (lhs rhs : Ty) : outcome Ty :=
  match op with
  | Add | Sub | Mul | Div | Rem | BitXor | BitAnd | BitOr =>
      assert! bool_decide (lhs = rhs); Ok lhs
  | Shl | Shr | Offset => Ok lhs
  | Eq | Lt | Le | Ne | Ge | Gt => Ok Bool
  end.

(** [Rvalue::ty]; an ADT, closure or generator is never built as an aggregate here. *)
Definition rvalue_ty_from (decls : list LocalDecl) (r : Rvalue) : outcome Ty :=
  match r with
  | Use o => operand_ty_from decls o
  | Repeat o count => t ← operand_ty_from decls o; Ok (Array t count)
  | ThreadLocalRef def =>
      Ok (if is_mutable_static def then RawPtr (type_of def) true
          else if is_foreign_item def then RawPtr (type_of def) false else Ref (type_of def) false)
  | RvRef m p => t ← place_ty_from decls p; Ok (Ref (pt_ty t) m)
  | AddressOf m p => t ← place_ty_from decls p; Ok (RawPtr (pt_ty t) m)
  | Len _ => Ok (Uint Usize)
  | Cast _ _ ty => Ok ty
  | BinaryOp op a b =>
      lhs ← operand_ty_from decls a; rhs ← operand_ty_from decls b; binop_ty op lhs rhs
  | CheckedBinaryOp op a b =>
      lhs ← operand_ty_from decls a; rhs ← operand_ty_from decls b;
      t ← binop_ty op lhs rhs; Ok (Tuple [t; Bool])
  | UnaryOp _ o => operand_ty_from decls o
  | Discriminant p => t ← place_ty_from decls p; Ok (discriminant_ty (pt_ty t))
  | NullaryOp NullBox t => Ok (mk_box t)
  | NullaryOp _ _ => Ok (Uint Usize)
  | MirAggregate k os =>
      match k with
      | AggArray elt => Ok (Array elt (N.of_nat (length os)))
      | AggTuple => ts ← map_outcome (operand_ty_from decls) os; Ok (Tuple ts)
      | AggOther ty => Ok ty
      end
  | ShallowInitBox _ ty => Ok (mk_box ty)
  end.

(** [GotocCtx::local_ty], [place_ty], [operand_ty], [rvalue_ty] *)
Definition fn_decls : G (list LocalDecl) := f ← current_fn; mret (local_decls (fn_mir f)).
Definition local_ty (l : Local) : G Ty :=
  decls ← fn_decls; d ← g_lift (unwrap (decls !! N.to_nat l)); monomorphize (decl_ty d).
Definition place_ty (p : Place) : G Ty :=
  decls ← fn_decls; t ← g_lift (place_ty_from decls p); monomorphize (pt_ty t).
Definition operand_ty (o : Operand) : G Ty :=
  decls ← fn_decls; t ← g_lift (operand_ty_from decls o); monomorphize t.
Definition rvalue_ty (r : Rvalue) : G Ty :=
  decls ← fn_decls; t ← g_lift (rvalue_ty_from decls r); monomorphize t.

(** [GotocCtx::is_box_of_unsized], [is_vtable_fat_pointer] *)
Definition is_box_of_unsized (t : Ty) : G bool :=
  if ty_is_box t then b ← g_lift (boxed_ty t); b ← monomorphize b; ty_is_unsized b
  else mret false.
Definition is_vtable_fat_pointer (t : Ty) : G bool :=
  b ← is_ref_of_unsized t;
  if b : bool then p ← g_lift (unwrap (pointee_type t)); mret (use_vtable_fat_pointer p)
  else mret false.

(** ** Locations and names *)

(** [codegen_span]: the position of the span, in the function being compiled *)
Definition g_readable_name : G (option string) := fun c =>
  Done (Ok (fn_readable_name <$> gcx_current_fn c, c)).
Definition codegen_span (sp : Span) : G Location :=
  let '(file, line, col) := lookup_char_pos sp in
  name ← g_readable_name;
  g_lift (Location.new file name (Z.of_N line) (Some (1 + Z.of_N col)%Z)).
Definition codegen_span_option (sp : option Span) : G Location :=
  match sp with Some sp => codegen_span sp | None => mret Location.none end.
Definition codegen_caller_span (sp : option Span) : G Location :=
  match sp with
  | Some sp => codegen_span (default sp (expansion_cause sp))
  | None => mret Location.none
  end.

(** [readable_instance_name], [symbol_name] *)
Definition readable_instance_name (i : Instance_) : string := def_path_str i.
Definition symbol_name (i : Instance_) : string :=
  if String.eqb (readable_instance_name i) "main" then "main" else tcx_symbol_name i.

(** *** Positions

    The compiler's positions fit the integers of a location. *)
Definition span_fits (sp : Span) : Prop :=
  (Z.of_N (lookup_char_pos sp).1.2 <= Z.of_N u64_max)%Z /\ (1 + Z.of_N (lookup_char_pos sp).2 <= Z.of_N u64_max)%Z.

Lemma codegen_span_fits sp c : span_fits sp ->
  codegen_span sp c = Done (Ok (Loc (lookup_char_pos sp).1.1 (fn_readable_name <$> gcx_current_fn c)
    (lookup_char_pos sp).1.2 (Some (1 + (lookup_char_pos sp).2)%N), c)).
Proof.
  unfold codegen_span, g_readable_name, g_lift, mbind, G_bind, Location.new, try_into_u64.
  intros [Hl Hc]. destruct (lookup_char_pos sp) as [[file line] col]. cbn [fst snd] in *.
  assert (forall x : Z, (0 <= x <= Z.of_N u64_max)%Z -> ((0 <=? x) && (x <=? Z.of_N u64_max))%Z = true) as Hin
    by (intros x Hx; apply andb_true_iff; split; apply Z.leb_le; lia).
  rewrite !Hin by lia. cbn [option_outcome mbind outcome_bind]. rewrite ?Hin by lia. cbn [mbind outcome_bind].
  rewrite N2Z.id. by replace (Z.to_N (1 + Z.of_N col)) with (1 + col)%N by lia.
Qed.
End MirTyping.
