(* ===== verification/PlaceGen.v ===== *)
(** * Places ([codegen/place.rs], [utils/utils.rs], and the function expressions of
    [codegen/operand.rs])

    A place is translated by following its projections from a local, remembering the last
    fat pointer that was dereferenced.  A [Box] is a chain of structs around a pointer,
    which [box_value] builds and [deref_box] follows. *)

From S2P Require Import Prelude CbmcString MachineModel Location Typ Ast SymbolTable Expr Symbol.
From S2P Require Import Builtin Stmt Env Restrictions Mir GotoCtx TypeGen MirTyping.

(** ** Fat pointers and boxes ([utils.rs]) *)

Definition slice_fat_ptr (t : Type_) (data len : Expr) (st : SymbolTable) : outcome Expr :=
  struct_expr t (list_to_map [("data", data); ("len", len)]) st.
Definition dynamic_fat_ptr (t : Type_) (data vtable : Expr) (st : SymbolTable) : outcome Expr :=
  struct_expr t (list_to_map [("data", data); ("vtable", vtable)]) st.

(** [assert_is_rust_global_alloc_like], [assert_is_rust_phantom_data_like] *)
Definition assert_is_rust_global_alloc_like (st : SymbolTable) (t : Type_) : outcome unit :=
  assert! is_struct_like t;
  cs ← unwrap (lookup_components_in_type st t);
  rassert (length cs =? 0)%nat.
Definition assert_is_rust_phantom_data_like (st : SymbolTable) (t : Type_) : outcome unit :=
  assert! is_struct_like t;
  cs ← unwrap (lookup_components_in_type st t);
  rassert (length cs =? 0)%nat.

(** A loop of checks over the components of a struct *)
Fixpoint check_components (check : InternedString -> Type_ -> outcome unit)
    (cs : list DatatypeComponent) : outcome unit :=
  match cs with
  | [] => Ok tt
  | c :: cs =>
      t ← component_typ c;
      _ ← check (component_name c) t;
      check_components check cs
  end.

Definition assert_is_rust_unique_pointer_like (st : SymbolTable) (t : Type_) : outcome unit :=
  assert! is_struct_like t;
  cs ← unwrap (lookup_components_in_type st t);
  assert! (length cs =? 2)%nat;
  check_components (fun name t =>
    if String.eqb name "_marker" then assert_is_rust_phantom_data_like st t
    else if String.eqb name "pointer" then
      if is_pointer t then Ok tt else b ← is_rust_fat_ptr t st; rassert b
    else Panic) cs.

Definition assert_is_rust_box_like (st : SymbolTable) (t : Type_) : outcome unit :=
  assert! is_struct_like t;
  cs ← unwrap (lookup_components_in_type st t);
  assert! (length cs =? 2)%nat;
  check_components (fun name t =>
    if String.eqb name "0" then assert_is_rust_unique_pointer_like st t
    else if String.eqb name "1" then assert_is_rust_global_alloc_like st t
    else Panic) cs.

(** [deref_box], [box_value] *)
Definition deref_box (st : SymbolTable) (e : Expr) : outcome Expr :=
  _ ← assert_is_rust_box_like st (typ e);
  e ← member e "0" st;
  member e "pointer" st.

Definition box_value (st : SymbolTable) (boxed_value : Expr) (boxed_type : Type_) : outcome Expr :=
  _ ← assert_is_rust_box_like st boxed_type;
  unique_ptr_typ ← unwrap (lookup_field_type_in_type st boxed_type "0");
  _ ← assert_is_rust_unique_pointer_like st unique_ptr_typ;
  unique_ptr_pointer_typ ← unwrap (lookup_field_type_in_type st unique_ptr_typ "pointer");
  assert! type_eqb unique_ptr_pointer_typ (typ boxed_value);
  unique_ptr_val ← struct_expr_with_nondet_fields unique_ptr_typ {[ "pointer" := boxed_value ]} st;
  struct_expr_with_nondet_fields boxed_type {[ "0" := unique_ptr_val ]} st.

(** [codegen_unimplemented]: assert false, assume false, and an arbitrary value *)
Definition codegen_unimplemented (operation_name : string) (t : Type_) (loc : Location)
    (url : string) : outcome Expr :=
  s1 ← assert_false (operation_name +:+ " is not currently supported by RMC. Please post your example at "
                     +:+ url +:+ " ") loc;
  s2 ← assume bool_false loc;
  e ← statement_expression [s1; s2; stmt_with_location (as_stmt (type_nondet t) loc) loc] t;
  Ok (with_location e loc).

(** [g_with_table]: an operation that reads the table *)
Definition g_with_table {A} (f : SymbolTable -> outcome A) : G A := st ← g_table; g_lift (f st).

(** ** Places *)

(** [enum TypeOrVariant], [struct ProjectedPlace] *)
Inductive TypeOrVariant := TvType (t : Ty) | TvVariant (v : VariantDef).
Record ProjectedPlace := mkProjectedPlace {
  goto_expr : Expr;
  mir_typ_or_variant : TypeOrVariant;
  fat_ptr_goto_expr : option Expr;
  fat_ptr_mir_typ : option Ty;
}.

(** [TypeOrVariant::expect_type], [ProjectedPlace::mir_typ] *)
Definition expect_type (t : TypeOrVariant) : outcome Ty :=
  match t with TvType t => Ok t | TvVariant _ => Panic end.
Definition mir_typ (p : ProjectedPlace) : outcome Ty := expect_type (mir_typ_or_variant p).

Section PlaceGen.
Context `{TyCtxt, MirCtxt, InternOrder}.
(** The fuel for the translation of types *)
Context (n : nat).
#[local] Notation codegen_ty := (codegen_ty n).

(** ** Functions ([operand.rs]) *)

Definition codegen_func_expr (i : Instance_) (span : option Span) : G Expr :=
  let func := symbol_name i in
  sig ← fn_sig_of_instance i;
  sig ← g_lift (unwrap sig);
  funct ← codegen_function_sig codegen_ty sig;
  g_ensure func (fun _ =>
    mret (with_is_extern
      (function func funct None (Some (readable_instance_name i)) Location.none) true));;
  loc ← codegen_span_option span;
  mret (with_location (symbol_expression func funct) loc).

Definition codegen_fndef (def : N) (substs : list Ty) (span : option Span) : G Expr :=
  i ← g_lift (unwrap (resolve_instance def substs)); codegen_func_expr i span.

(** ** Projected places *)

Definition monomorphize_tv (t : TypeOrVariant) : G TypeOrVariant :=
  match t with TvType t => t ← monomorphize t; mret (TvType t) | TvVariant _ => mret t end.

(** [check_expr_typ_mismatch]: a mismatch is only warned about, but the type is translated. *)
Definition check_expr_typ_mismatch (e : Expr) (t : TypeOrVariant) : G (option (Type_ * Type_)) :=
  match t with
  | TvType t => g ← codegen_ty t; mret (if type_eqb (typ e) g then None else Some (typ e, g))
  | TvVariant _ => mret None
  end.

Definition check_fat_ptr_typ (fat_ptr : option Expr) (fat_ptr_typ : option Ty) : G bool :=
  match fat_ptr with
  | Some fat_ptr =>
      b ← g_with_table (is_rust_fat_ptr (typ fat_ptr));
      if b : bool then
        t ← g_lift (unwrap fat_ptr_typ); g ← codegen_ty t; mret (type_eqb (typ fat_ptr) g)
      else mret false
  | None => mret true
  end.

(** [ProjectedPlace::new] *)
Definition projected_place_new (e : Expr) (t : TypeOrVariant) (fat_ptr : option Expr)
    (fat_ptr_typ : option Ty) : G ProjectedPlace :=
  t ← monomorphize_tv t;
  fat_ptr_typ ← (match fat_ptr_typ with
                 | Some t => t ← monomorphize t; mret (Some t)
                 | None => mret None
                 end);
  (match fat_ptr with
   | Some fat_ptr =>
       b ← g_with_table (is_rust_fat_ptr (typ fat_ptr)); g_lift (rassert b)
   | None => mret tt
   end);;
  check_expr_typ_mismatch e t;;
  b ← check_fat_ptr_typ fat_ptr fat_ptr_typ;
  g_lift (rassert b);;
  mret (mkProjectedPlace e t fat_ptr fat_ptr_typ).

(** [codegen_field] *)
Definition codegen_field (res : Expr) (t : TypeOrVariant) (f : nat) : G Expr :=
  match t with
  | TvType t =>
      match t with
      | Tuple _ => g_with_table (member res (tuple_fld_name f))
      | Adt def _ =>
          let def := adt_def def in
          if repr_simd def then
            g_lift (size_index ← int_constant (Z.of_nat f) size_t; index_array res size_index)
          else
            v ← g_lift (unwrap (adt_variants def !! 0));
            field ← g_lift (unwrap (variant_fields v !! f));
            g_with_table (member res (field_ident field))
      | Closure _ _ => g_with_table (member res (pretty (N.of_nat f)))
      | Generator _ _ =>
          g_lift (codegen_unimplemented "ty::Generator" (code [] empty) (expr_location res)
                    "https://github.com/model-checking/rmc/issues/416")
      | _ => g_lift Panic
      end
  | TvVariant v =>
      field ← g_lift (unwrap (variant_fields v !! f));
      g_with_table (member res (field_ident field))
  end.

(** [codegen_local_fndef]: a local that is a function, or a pointer or box to one *)
Fixpoint codegen_local_fndef (t : Ty) : G (option Expr) :=
  match t with
  | FnDef def substs => e ← codegen_fndef def substs None; mret (Some e)
  | RawPtr inner _ =>
      o ← codegen_local_fndef inner;
      match o with
      | Some f =>
          if can_take_address_of f then a ← g_lift (address_of f); mret (Some a) else mret (Some f)
      | None => mret None
      end
  | Adt def substs =>
      if adt_is_box (adt_def def) then
        boxed_ty ← codegen_ty (Adt def substs);
        o ← (match substs with inner :: _ => codegen_local_fndef inner | [] => g_lift Panic end);
        match o with
        | Some f =>
            a ← g_lift (address_of f);
            b ← g_with_table (fun st => box_value st a boxed_ty);
            mret (Some b)
        | None => mret None
        end
      else mret None
  | _ => mret None
  end.

Definition codegen_local (l : Local) : G Expr :=
  t ← local_ty l;
  o ← codegen_local_fndef t;
  match o with
  | Some fn_def => mret fn_def
  | None =>
      vname ← codegen_var_name l;
      t ← local_ty l;
      g ← codegen_ty t;
      mret (symbol_expression vname g)
  end.

Definition codegen_idx_array (arr idx : Expr) : G Expr :=
  m ← g_with_table (member arr "0"); g_lift (index_array m idx).

(** [codegen_constant_index] *)
Definition codegen_constant_index (before : ProjectedPlace) (offset min_length : N)
    (from_end : bool) : G ProjectedPlace :=
  t ← g_lift (mir_typ before);
  match t with
  | Array elemt length =>
      g_lift (rassert (min_length <=? length)%N);;
      idx ← g_lift (if from_end then u64_sub length offset else Ok offset);
      idxe ← g_lift (int_constant (Z.of_N idx) ssize_t);
      e ← codegen_idx_array (goto_expr before) idxe;
      projected_place_new e (TvType elemt) (fat_ptr_goto_expr before) (fat_ptr_mir_typ before)
  | Slice elemt =>
      offset_e ← g_lift (int_constant (Z.of_N offset) size_t);
      idxe ← (if from_end : bool then
                fat_ptr ← g_lift (unwrap (fat_ptr_goto_expr before));
                length ← g_with_table (member fat_ptr "len");
                g_lift (sub_ length offset_e)
              else mret offset_e);
      e ← g_lift (p ← plus_ (goto_expr before) idxe; dereference p);
      projected_place_new e (TvType elemt) (fat_ptr_goto_expr before) (fat_ptr_mir_typ before)
  | _ => g_lift Panic
  end.

(** [ProjectionElem::Deref] of [codegen_projection] *)
Definition codegen_deref (before : ProjectedPlace) : G ProjectedPlace :=
  base_type ← g_lift (mir_typ before);
  inner ← (if ty_is_box base_type then g_with_table (fun st => deref_box st (goto_expr before))
           else mret (goto_expr before));
  o ← g_lift (builtin_deref base_type);
  inner_typ_and_mut ← g_lift (unwrap o);
  let inner_mir_typ := inner_typ_and_mut.1 in
  box_of_unsized ← is_box_of_unsized base_type;
  ref_of_unsized ← is_ref_of_unsized base_type;
  let no_typ := match fat_ptr_mir_typ before with None => true | Some _ => false end in
  let no_ptr := match fat_ptr_goto_expr before with None => true | Some _ => false end in
  fat_ptr_typ ← g_lift (if box_of_unsized : bool then assert! no_typ; Ok (Some (RawPtr inner_mir_typ inner_typ_and_mut.2))
                        else if ref_of_unsized : bool then assert! no_typ; Ok (Some base_type)
                        else Ok (fat_ptr_mir_typ before));
  fat_ptr ← g_lift (if box_of_unsized || ref_of_unsized then assert! no_ptr; Ok (Some inner)
                    else Ok (fat_ptr_goto_expr before));
  (match fat_ptr with
   | Some fat_ptr =>
       b ← g_with_table (fun st => b ← is_rust_trait_fat_ptr (typ fat_ptr) st;
                                   if b : bool then Ok true else is_rust_slice_fat_ptr (typ fat_ptr) st);
       g_lift (rassert b)
   | None => mret tt
   end);;
  e ← (match inner_mir_typ with
       | Slice _ | Str | Dynamic _ => g_with_table (member inner "data")
       | Adt _ _ =>
           u ← ty_is_unsized inner_mir_typ;
           if u : bool then
             d ← g_with_table (member inner "data");
             g ← codegen_ty inner_mir_typ;
             g_lift (d ← cast_to d (to_pointer g); dereference d)
           else g_lift (dereference inner)
       | _ => g_lift (dereference inner)
       end);
  projected_place_new e (TvType inner_mir_typ) fat_ptr fat_ptr_typ.

(** [ProjectionElem::Subslice] *)
Definition codegen_subslice (before : ProjectedPlace) (from to : N) (from_end : bool) :
    G ProjectedPlace :=
  t ← g_lift (mir_typ before);
  match t with
  | Slice elemt =>
      len ← (if from_end : bool then
               fat_ptr ← g_lift (unwrap (fat_ptr_goto_expr before));
               olen ← g_with_table (member fat_ptr "len");
               g_lift (s ← u64_add to from; sum ← int_constant (Z.of_N s) size_t; sub_ olen sum)
             else g_lift (d ← u64_sub to from; int_constant (Z.of_N d) size_t));
      let ptr_typ := RawPtr (Slice elemt) true in
      goto_type ← codegen_ty ptr_typ;
      data ← g_lift (index_e ← int_constant (Z.of_N from) ssize_t;
                     from_elem ← index (goto_expr before) index_e;
                     address_of from_elem);
      fat_ptr ← g_with_table (slice_fat_ptr goto_type data len);
      projected_place_new fat_ptr (TvType ptr_typ) (Some fat_ptr) (Some ptr_typ)
  | _ => g_lift Panic
  end.

(** [ProjectionElem::Downcast] *)
Definition codegen_downcast (before : ProjectedPlace) (idx : N) : G ProjectedPlace :=
  t ← g_lift (mir_typ before);
  match t with
  | Adt def _ =>
      variant ← g_lift (unwrap (adt_variants (adt_def def) !! N.to_nat idx));
      e ← (match lay_variants (layout_of t) with
           | Multiple _ Direct _ _ =>
               c ← g_with_table (member (goto_expr before) "cases");
               g_with_table (member c (variant_ident variant))
           | _ => mret (goto_expr before)
           end);
      projected_place_new e (TvVariant variant) (fat_ptr_goto_expr before) (fat_ptr_mir_typ before)
  | _ => g_lift Panic
  end.

(** [codegen_projection] *)
Definition codegen_projection (before : ProjectedPlace) (proj : PlaceElem) : G ProjectedPlace :=
  match proj with
  | Deref => codegen_deref before
  | ProjField f t =>
      e ← codegen_field (goto_expr before) (mir_typ_or_variant before) f;
      projected_place_new e (TvType t) (fat_ptr_goto_expr before) (fat_ptr_mir_typ before)
  | Index i =>
      base_type ← g_lift (mir_typ before);
      idxe ← codegen_local i;
      elemt ← g_lift (unwrap (builtin_index base_type));
      e ← (match base_type with
           | Array _ _ => codegen_idx_array (goto_expr before) idxe
           | _ => g_lift (index (goto_expr before) idxe)
           end);
      projected_place_new e (TvType elemt) (fat_ptr_goto_expr before) (fat_ptr_mir_typ before)
  | ConstantIndex offset min_length from_end =>
      codegen_constant_index before offset min_length from_end
  | Subslice from to from_end => codegen_subslice before from to from_end
  | Downcast _ idx => codegen_downcast before idx
  end.

Fixpoint codegen_projections (accum : ProjectedPlace) (projs : list PlaceElem) : G ProjectedPlace :=
  match projs with
  | [] => mret accum
  | p :: projs => accum ← codegen_projection accum p; codegen_projections accum projs
  end.

(** [codegen_place] *)
Definition codegen_place (p : Place) : G ProjectedPlace :=
  initial_expr ← codegen_local (place_local p);
  t ← local_ty (place_local p);
  initial ← projected_place_new initial_expr (TvType t) None None;
  codegen_projections initial (projection p).
End PlaceGen.
