(* ===== verification/OperandGen.v ===== *)
(** * Operands and constants ([codegen/operand.rs])

    An operand is a place or a constant.  Scalars become literals of the goto language,
    structs and enums around them, and pointers into allocations become expressions over
    global variables that a constructor function initializes.  The initial value of an
    allocation is a struct of byte arrays and pointers, which tile its bytes. *)

From S2P Require Import Prelude CbmcString MachineModel Location Typ Ast SymbolTable Expr Symbol.
From S2P Require Import Builtin Stmt Env Restrictions Mir GotoCtx TypeGen MirTyping PlaceGen.

(** ** Bytes *)

(** [alloc.inspect_with_uninit_and_ptr_outside_interpreter(a..b)] *)
Definition inspect (alloc : Allocation) (a b : N) : outcome (list N) :=
  assert! (a <=? b)%N && (b <=? N.of_nat (length (alloc_bytes alloc)))%N;
  Ok (take (N.to_nat (b - a)) (drop (N.to_nat a) (alloc_bytes alloc))).

(** [read_target_uint]: at most 16 bytes, in the order of the target *)
Definition le_uint (bs : list N) : N := foldr (fun b acc => (b + 256 * acc)%N) 0%N bs.
Definition read_target_uint (big_endian : bool) (bs : list N) : outcome N :=
  assert! (length bs <=? 16)%nat;
  Ok (le_uint (if big_endian then reverse bs else bs)).

(** [std::str::from_utf8]: the continuation bytes, and the sequences by their first byte
    (overlong forms and surrogates are refused by the range of the second) *)
Definition between (lo b hi : N) : bool := (lo <=? b)%N && (b <=? hi)%N.
Definition utf8_second (b0 : N) : option (nat * N * N) :=
  if between 194 b0 223 then Some (1%nat, 128%N, 191%N)
  else if (b0 =? 224)%N then Some (2%nat, 160%N, 191%N)
  else if between 225 b0 236 || between 238 b0 239 then Some (2%nat, 128%N, 191%N)
  else if (b0 =? 237)%N then Some (2%nat, 128%N, 159%N)
  else if (b0 =? 240)%N then Some (3%nat, 144%N, 191%N)
  else if between 241 b0 243 then Some (3%nat, 128%N, 191%N)
  else if (b0 =? 244)%N then Some (3%nat, 128%N, 143%N)
  else None.
(** [k] continuation bytes are still to come, the next one between [lo] and [hi]. *)
Fixpoint utf8_valid (k : nat) (lo hi : N) (bs : list N) : bool :=
  match bs with
  | [] => (k =? 0)%nat
  | b :: bs =>
      match k with
      | 0 =>
          if (b <? 128)%N then utf8_valid 0 0 0 bs
          else match utf8_second b with
               | Some (k, lo, hi) => utf8_valid k lo hi bs
               | None => false
               end
      | S k => between lo b hi && utf8_valid k 128 191 bs
      end
  end.
Definition from_utf8 (bs : list N) : outcome string :=
  assert! utf8_valid 0 0 0 bs;
  Ok (String.string_of_list_ascii (map Ascii.ascii_of_N bs)).

(** [enum AllocData] *)
Inductive AllocData := AdBytes (bytes : list N) | AdExpr (e : Expr).

(** [codegen_get_niche] *)
Definition codegen_get_niche (v : Expr) (offset : N) (niche_ty : Type_) : outcome Expr :=
  a ← address_of v;
  u8 ← unsigned_int 8;
  p ← cast_to a (to_pointer u8);
  o ← int_constant (Z.of_N offset) size_t;
  p ← plus_ p o;
  p ← cast_to p (to_pointer niche_ty);
  dereference p.

Section OperandGen.
Context `{StrDebug, TyCtxt, MirCtxt, InternOrder}.
(** The fuel for the translation of types, of scalars and of allocations *)
Context (n : nat).
#[local] Notation codegen_ty := (codegen_ty n).

(** ** Allocations *)

Section Allocations.
(** [codegen_alloc_pointer], for the pointers inside an allocation *)
Variable (alloc_pointer : Type_ -> AllocId -> N -> option Span -> G Expr).

(** The loop of [codegen_allocation_data], from [next_offset] on *)
Fixpoint alloc_data_loop (alloc : Allocation) (pointer_size : N) (next_offset : N)
    (relocs : list (N * AllocId)) : G (list AllocData) :=
  match relocs with
  | [] =>
      let len := N.of_nat (length (alloc_bytes alloc)) in
      if (next_offset <=? len)%N then
        bytes ← g_lift (inspect alloc next_offset len); mret [AdBytes bytes]
      else mret []
  | (offset, alloc_id) :: relocs =>
      before ← (if (next_offset <? offset)%N then
                  bytes ← g_lift (inspect alloc next_offset offset); mret [AdBytes bytes]
                else mret []);
      ptr_offset ← g_lift (bytes ← inspect alloc offset (offset + pointer_size);
                           read_target_uint big_endian_target bytes);
      t ← g_lift (signed_int 8);
      e ← alloc_pointer (to_pointer t) alloc_id ptr_offset None;
      rest ← alloc_data_loop alloc pointer_size (offset + pointer_size) relocs;
      mret (before ++ AdExpr e :: rest)
  end.

Definition codegen_allocation_data (alloc : Allocation) : G (list AllocData) :=
  st ← g_table;
  let pointer_size := (pointer_width (machine_model st) / 8)%N in
  alloc_data_loop alloc pointer_size 0 (relocations alloc).

Definition byte_array (bytes : list N) : outcome Type_ :=
  u8 ← unsigned_int 8; Ok (array_of u8 (N.of_nat (length bytes))).

Definition alloc_component (i : nat) (d : AllocData) : outcome DatatypeComponent :=
  match d with
  | AdBytes bytes => t ← byte_array bytes; Ok (datatype_component (pretty (N.of_nat i)) t)
  | AdExpr e => Ok (datatype_component (pretty (N.of_nat i)) (typ e))
  end.

Definition alloc_value (d : AllocData) : outcome Expr :=
  match d with
  | AdBytes bytes =>
      t ← byte_array bytes;
      u8 ← unsigned_int 8;
      es ← map_outcome (fun b => int_constant (Z.of_N b) u8) bytes;
      array_expr t es
  | AdExpr e => Ok e
  end.

(** [self.alloc_map.insert], [get]: the last entry of an allocation counts *)
Definition alloc_map_insert (alloc : Allocation) (name : string) : G unit := fun c =>
  Done (Ok (tt, mkGotocCtx (gcx_table c) (gcx_full_crate_name c) (global_var_count c)
                  (gcx_vtable_ctx c) (gcx_current_fn c) (type_map c)
                  ((alloc, name) :: alloc_map c) (proof_harnesses c))).
Definition alloc_map_get (alloc : Allocation) : G (option string) := fun c =>
  Done (Ok (snd <$> List.find (fun e => bool_decide (e.1 = alloc)) (alloc_map c), c)).

(** [codegen_alloc_in_memory] *)
Definition codegen_alloc_in_memory (alloc : Allocation) (name : string) : G unit :=
  alloc_typ_ref ← ensure_struct (name +:+ "::struct") None (fun _ =>
    data ← codegen_allocation_data alloc;
    g_lift (sequence (imap alloc_component data)));
  var ← ensure_global_var name false alloc_typ_ref Location.none (fun _ => mret None);
  let var_typ := typ var in
  alloc_data ← codegen_allocation_data alloc;
  values ← g_lift (map_outcome alloc_value alloc_data);
  val ← g_with_table (struct_expr_from_values alloc_typ_ref values);
  let fn_name := initializer_fn_name name in
  temp ← gen_function_local_variable 0 fn_name alloc_typ_ref;
  let temp_var := to_expr temp in
  body ← g_with_table (fun st =>
    d ← decl temp_var (Some val) Location.none;
    v ← transmute_to temp_var var_typ st;
    a ← assign var v Location.none;
    Ok (block [d; a] Location.none));
  register_initializer name body;;
  alloc_map_insert alloc name.

(** [codegen_immutable_allocation] *)
Definition codegen_immutable_allocation (alloc : Allocation) (name : option string) : G Expr :=
  known ← alloc_map_get alloc;
  (match known with
   | Some _ => mret tt
   | None =>
       name ← (match name with Some name => mret name | None => next_global_name end);
       codegen_alloc_in_memory alloc name
   end);;
  known ← alloc_map_get alloc;
  name ← g_lift (unwrap known);
  st ← g_table;
  s ← g_lift (unwrap (lookup st name));
  mret (to_expr s).

(** [codegen_allocation] *)
Definition codegen_allocation (alloc : Allocation) (mut_name : G string) (imm_name : option string) :
    G Expr :=
  mem_var ← (if alloc_mutable alloc then
               name ← mut_name;
               codegen_alloc_in_memory alloc name;;
               st ← g_table;
               s ← g_lift (unwrap (lookup st name));
               mret (to_expr s)
             else codegen_immutable_allocation alloc imm_name);
  g_lift (address_of mem_var).

(** [codegen_alloc_pointer] *)
Definition alloc_pointer_body (res_t : Type_) (id : AllocId) (offset : N) (span : option Span) :
    G Expr :=
  base_addr ← (match global_alloc id with
               | AllocFunction i => f ← codegen_func_expr n i span; g_lift (address_of f)
               | AllocStatic def =>
                   let i := instance_mono def in
                   sym ← g_ensure (symbol_name i) (fun name =>
                     t ← codegen_ty (instance_ty i);
                     loc ← codegen_span (def_span def);
                     mret (with_is_extern (static_variable name name t loc) (static_is_extern def)));
                   g_lift (address_of (to_expr sym))
               | AllocMemory alloc =>
                   c ← g_get;
                   let name := gcx_full_crate_name c +:+ "::" +:+ alloc_id_debug id in
                   codegen_allocation alloc (mret name) (Some name)
               end);
  g_lift (u8 ← unsigned_int 8;
          p ← cast_to base_addr (to_pointer u8);
          u64 ← unsigned_int 64;
          o ← int_constant (Z.of_N offset) u64;
          p ← plus_ p o;
          cast_to p res_t).
End Allocations.

(** To a depth of at most [k] allocations that point into each other *)
Fixpoint codegen_alloc_pointer (k : nat) (res_t : Type_) (id : AllocId) (offset : N)
    (span : option Span) : G Expr :=
  match k with
  | 0 => fun _ => OutOfFuel
  | S k => alloc_pointer_body (codegen_alloc_pointer k) res_t id offset span
  end.

(** ** Scalars *)

(** [codegen_direct_literal]: a function that makes an enum with the given tag *)
Definition codegen_direct_literal (t : Ty) (init : Expr) : G Expr :=
  name ← ty_mangled_name t;
  let func_name := "gen-" +:+ name +:+ ":direct" in
  cgt ← codegen_ty t;
  g_ensure func_name (fun _ =>
    param ← gen_function_local_variable 1 func_name (typ init);
    var ← gen_function_local_variable 2 func_name cgt;
    let var := to_expr var in
    body ← g_with_table (fun st =>
      d ← decl var None Location.none;
      m ← member var "case" st;
      a ← assign m (to_expr param) Location.none;
      Ok [d; a; ret (Some var) Location.none]);
    p ← g_lift (to_function_parameter param);
    mret (function func_name (code [p] cgt)
            (Some (block body Location.none)) None Location.none));;
  f ← find_function func_name;
  f ← g_lift (unwrap f);
  g_lift (call f [init]).

(** [codegen_niche_init_name], [codegen_niche_literal] *)
Definition codegen_niche_init_name (t : Ty) : G string :=
  name ← ty_mangled_name t; mret ("gen-" +:+ name +:+ ":niche").
Definition codegen_niche_literal (t : Ty) (offset : N) (init : Expr) : G Expr :=
  cgt ← codegen_ty t;
  fname ← codegen_niche_init_name t;
  g_ensure fname (fun _ =>
    let target_ty := typ init in
    param ← gen_function_local_variable 1 fname target_ty;
    var ← gen_function_local_variable 2 fname cgt;
    let var := to_expr var in
    body ← g_lift (
      d ← decl var None Location.none;
      niche ← codegen_get_niche var offset target_ty;
      a ← assign niche (to_expr param) Location.none;
      Ok [d; a; ret (Some var) Location.none]);
    p ← g_lift (to_function_parameter param);
    mret (function fname (code [p] cgt)
            (Some (block body Location.none)) None Location.none));;
  f ← find_function fname;
  f ← g_lift (unwrap f);
  g_lift (call f [init]).

(** The integer types: the data is a bit pattern, also when the type is signed. *)
Definition int_bytes (k : IntTy) : N :=
  match k with I8 => 1 | I16 => 2 | I32 => 4 | I64 => 8 | I128 => 16 | Isize => pointer_size end.
Definition uint_bytes (k : UintTy) : N :=
  match k with U8 => 1 | U16 => 2 | U32 => 4 | U64 => 8 | U128 => 16 | Usize => pointer_size end.

Section Scalars.
(** [codegen_scalar], for a field *)
Variable (codegen_scalar : Scalar_ -> Ty -> option Span -> G Expr).

Definition codegen_single_variant_single_field (s : Scalar_) (span : option Span)
    (overall_t : Type_) (fty : Ty) : G Expr :=
  if ty_is_unit fty then g_with_table (struct_expr_from_values overall_t [])
  else e ← codegen_scalar s fty span; g_with_table (struct_expr_from_values overall_t [e]).

(** The scalar of an ADT: its only field, or the tag of an enum *)
Definition codegen_adt_scalar (s : Scalar_) (t : Ty) (def : AdtDef) (substs : list Ty)
    (span : option Span) : G Expr :=
  match adt_kind def with
  | AdtStruct =>
      variant ← g_lift (unwrap (adt_variants def !! 0));
      match variant_fields variant with
      | [] => overall_t ← codegen_ty t; g_with_table (struct_expr_from_values overall_t [])
      | field :: _ =>
          overall_t ← codegen_ty t;
          codegen_single_variant_single_field s span overall_t (field_ty field substs)
      end
  | AdtUnion =>
      variant ← g_lift (unwrap (adt_variants def !! 0));
      match variant_fields variant with
      | [] => g_lift Panic
      | _ => codegen_ty t;; g_lift Panic
      end
  | AdtEnum =>
      overall_t ← codegen_ty t;
      match lay_variants (layout_of t) with
      | Single index =>
          variant ← g_lift (unwrap (adt_variants def !! N.to_nat index));
          match variant_fields variant with
          | [] => g_with_table (struct_expr_from_values overall_t [])
          | [field] => codegen_single_variant_single_field s span overall_t (field_ty field substs)
          | _ => g_lift Panic
          end
      | Multiple _ (Niche _ _ _ _) _ _ =>
          offset ← g_lift (match lay_fields (layout_of t) with
                           | ShapeArbitrary offsets _ => unwrap (head offsets)
                           | _ => Panic
                           end);
          discr_ty ← g_lift (codegen_enum_discr_typ t);
          niche_val ← codegen_scalar s discr_ty span;
          codegen_niche_literal t offset niche_val
      | Multiple _ Direct _ _ =>
          discr_ty ← g_lift (codegen_enum_discr_typ t);
          init ← codegen_scalar s discr_ty span;
          codegen_direct_literal t init
      end
  end.

Definition scalar_body (s : Scalar_) (t : Ty) (span : option Span) : G Expr :=
  match s, t with
  | ScalarInt _ _, Int k =>
      g_lift (v ← to_bits s (int_bytes k); g ← codegen_iint k; int_constant (Z.of_N v) g)
  | ScalarInt _ _, Uint k =>
      g_lift (v ← to_bits s (uint_bytes k); g ← codegen_uint k; int_constant (Z.of_N v) g)
  | ScalarInt _ _, Bool => g_lift (b ← to_bool s; Ok (c_bool_constant b))
  | ScalarInt _ _, Char => g_lift (v ← to_i32 s; g ← signed_int 32; int_constant v g)
  | ScalarInt _ _, Float F32 => g_lift (v ← to_bits s 4; Ok (float_constant_from_bitpattern v))
  | ScalarInt _ _, Float F64 => g_lift (v ← to_bits s 8; Ok (double_constant_from_bitpattern v))
  | ScalarInt _ size, FnDef d substs =>
      g_lift (rassert (size =? 0)%N);; codegen_fndef n d substs span
  | ScalarInt _ _, RawPtr pointee _ =>
      v ← g_lift (to_bits s 8); g ← codegen_ty pointee; g_lift (pointer_constant v (to_pointer g))
  | ScalarInt data _, Ref pointee _ =>
      if (data =? 0)%N then g ← codegen_ty pointee; g_lift (null (to_pointer g)) else g_lift Panic
  | ScalarInt _ _, Adt def substs => codegen_adt_scalar s t (adt_def def) substs span
  | _, Tuple tys =>
      match tys with
      | [f] => overall_t ← codegen_ty t; codegen_single_variant_single_field s span overall_t f
      | _ => g_lift Panic
      end
  | _, Array _ _ =>
      overall_t ← codegen_ty t;
      raw ← codegen_ty_raw_array codegen_ty t;
      e ← g_lift (array_expr raw []);
      g_with_table (struct_expr_from_values overall_t [e])
  | ScalarPtr alloc offset, _ =>
      res_t ← codegen_ty t; codegen_alloc_pointer n res_t alloc offset span
  | _, _ => g_lift Panic
  end.
End Scalars.

(** [codegen_scalar], through at most [k] structs *)
Fixpoint codegen_scalar (k : nat) (s : Scalar_) (t : Ty) (span : option Span) : G Expr :=
  match k with
  | 0 => fun _ => OutOfFuel
  | S k => scalar_body (codegen_scalar k) s t span
  end.

(** ** Constants *)

Definition codegen_slice_value (lit_ty : Ty) (data : Allocation) (start end_ : nat) : G Expr :=
  match lit_ty with
  | Ref Str _ =>
      slice ← g_lift (inspect data (N.of_nat start) (N.of_nat end_));
      s ← g_lift (from_utf8 slice);
      g ← codegen_ty lit_ty;
      c ← g_lift (string_constant s);
      l ← g_lift (int_constant (Z.of_nat (String.length s)) size_t);
      g_with_table (struct_expr_from_values g [c; l])
  | Ref (Slice (Uint U8)) _ =>
      slice ← g_lift (inspect data (N.of_nat start) (N.of_nat end_));
      array ← g_lift (alloc_value (AdBytes slice));
      data_expr ← g_lift (array_to_ptr array);
      len_expr ← g_lift (int_constant (Z.of_nat (length slice)) size_t);
      g ← codegen_ty lit_ty;
      g_with_table (slice_fat_ptr g data_expr len_expr)
  | _ => g_lift Panic
  end.

Definition codegen_const_value (v : ConstValue) (lit_ty : Ty) (span : option Span) : G Expr :=
  match v with
  | CScalar s => codegen_scalar n s lit_ty span
  | CSlice data start end_ => codegen_slice_value lit_ty data start end_
  | CByRef alloc offset =>
      mem_var ← codegen_allocation (codegen_alloc_pointer n) alloc next_global_name None;
      g ← codegen_ty lit_ty;
      g_lift (u8 ← unsigned_int 8;
              p ← cast_to mem_var (to_pointer u8);
              u64 ← unsigned_int 64;
              o ← int_constant (Z.of_N offset) u64;
              p ← plus_ p o;
              p ← cast_to p (to_pointer g);
              dereference p)
  end.

Definition codegen_const (lit : Const) (span : option Span) : G Expr :=
  i ← g_instance;
  let lit := match i with Some i => subst_const i lit | None => lit end in
  match const_val lit with
  | Unevaluated id =>
      v ← g_lift (unwrap (const_eval_resolve id)); codegen_const_value v (const_ty lit) span
  | Value v => codegen_const_value v (const_ty lit) span
  | PolymorphicConst => g_lift Panic
  end.

Definition codegen_constant (c : MirConstant) : G Expr :=
  i ← g_instance;
  match (match i with Some i => subst_constant i (literal c) | None => literal c end) with
  | CkTy ct => codegen_const ct (Some (const_span c))
  | CkVal v t => codegen_const_value v t (Some (const_span c))
  end.

(** ** Operands *)

Definition codegen_operand (o : Operand) : G Expr :=
  match o with
  | Copy d | Move d =>
      projection ← codegen_place n d;
      t ← operand_ty o;
      match t with
      | Dynamic _ => g_lift (unwrap (fat_ptr_goto_expr projection))
      | _ => mret (goto_expr projection)
      end
  | Constant c => codegen_constant c
  end.
End OperandGen.
