(* ===== verification/ArithGen.v ===== *)
(** * Arithmetic and discriminants ([codegen/rvalue.rs])

    Binary and unary operators, the operators that also say whether they overflow, and the
    discriminant of an enum. *)

From S2P Require Import Prelude CbmcString MachineModel Location Typ Ast SymbolTable Expr Symbol.
From S2P Require Import Builtin Stmt Env Restrictions Mir GotoCtx TypeGen MirTyping PlaceGen OperandGen.

(** ** Operators on translated operands *)

Definition comparison_expr (op : BinOp) (is_float : bool) (e1 e2 : Expr) : outcome Expr :=
  match op with
  | Eq => if is_float then feq e1 e2 else eq_ e1 e2
  | Lt => lt_ e1 e2
  | Le => le_ e1 e2
  | Ne => if is_float then fneq e1 e2 else neq_ e1 e2
  | Ge => ge_ e1 e2
  | Gt => gt_ e1 e2
  | _ => Panic
  end.

Definition unchecked_scalar_expr (op : BinOp) (ce1 ce2 : Expr) : outcome Expr :=
  match op with
  | BitAnd => bitand ce1 ce2
  | BitOr => bitor ce1 ce2
  | BitXor => bitxor ce1 ce2
  | Div => div_ ce1 ce2
  | Rem => rem_ ce1 ce2
  | _ => Panic
  end.

Definition scalar_expr (op : BinOp) (signed : bool) (ce1 ce2 : Expr) : outcome Expr :=
  match op with
  | Add => plus_ ce1 ce2
  | Sub => sub_ ce1 ce2
  | Mul => mul_ ce1 ce2
  | Shl => shl ce1 ce2
  | Shr => if signed then ashr ce1 ce2 else lshr ce1 ce2
  | _ => Panic
  end.

(** [shift_max] *)
Definition shift_max (t : Ty) (mm : MachineModel) : outcome Expr :=
  match t with
  | Int I8 => g ← signed_int 8; int_constant 7 g
  | Int I16 => g ← signed_int 16; int_constant 15 g
  | Int I32 => g ← signed_int 32; int_constant 31 g
  | Int I64 => g ← signed_int 64; int_constant 63 g
  | Int I128 => g ← signed_int 128; int_constant 127 g
  | Int Isize => w ← u64_sub (pointer_width mm) 1; int_constant (Z.of_N w) ssize_t
  | Uint U8 => g ← unsigned_int 8; int_constant 7 g
  | Uint U16 => g ← unsigned_int 16; int_constant 15 g
  | Uint U32 => g ← unsigned_int 32; int_constant 31 g
  | Uint U64 => g ← unsigned_int 64; int_constant 63 g
  | Uint U128 => g ← unsigned_int 128; int_constant 127 g
  | Uint Usize => w ← u64_sub (pointer_width mm) 1; int_constant (Z.of_N w) size_t
  | _ => Panic
  end.

(** The value and the overflow flag of an operator; for a shift, [t1] is the type of the
    shifted operand and [g1] its translation *)
Definition overflow_values (op : BinOp) (ce1 ce2 : Expr) : outcome (list Expr) :=
  res ← (match op with
         | Add => add_overflow ce1 ce2
         | Sub => sub_overflow ce1 ce2
         | Mul => mul_overflow ce1 ce2
         | _ => Panic
         end);
  o ← cast_to (overflowed res) c_bool;
  Ok [result res; o].
Definition shift_values (op : BinOp) (t1 : Ty) (g1 : Type_) (max ce1 ce2 : Expr) :
    outcome (list Expr) :=
  r ← (match op with
       | Shl => shl ce1 ce2
       | Shr => if ty_is_signed t1 then ashr ce1 ce2 else lshr ce1 ce2
       | _ => Panic
       end);
  amount ← cast_to ce2 g1;
  o ← gt_ amount max;
  o ← cast_to o c_bool;
  Ok [r; o].

(** The discriminant of a value with a niche: [niche_val] is the value of the niche. *)
Definition niche_discriminant (tag : Primitive) (dataful start end_ niche_start : N)
    (discr_ty res_ty : Type_) (niche_val : Expr) : outcome Expr :=
  relative_discr ← (if (niche_start =? 0)%N then Ok niche_val
                    else c ← int_constant (Z.of_N niche_start) discr_ty; sub_ niche_val c);
  relative_max ← u64_sub end_ start;
  is_niche ← (match tag with
              | PrimPointer => z ← null discr_ty; eq_ z relative_discr
              | _ =>
                  u64 ← unsigned_int 64;
                  r ← cast_to relative_discr u64;
                  m ← int_constant (Z.of_N relative_max) u64;
                  le_ r m
              end);
  base ← (if (relative_max =? 0)%N then zero res_ty else cast_to relative_discr res_ty);
  s ← int_constant (Z.of_N start) res_ty;
  niche_discr ← plus_ base s;
  d ← int_constant (Z.of_N dataful) res_ty;
  ternary is_niche niche_discr d.

Section ArithGen.
Context `{StrDebug, TyCtxt, MirCtxt, InternOrder}.
Context (n : nat).
#[local] Notation codegen_ty := (codegen_ty n).
#[local] Notation codegen_operand := (codegen_operand n).

Definition codegen_comparison (op : BinOp) (e1 e2 : Operand) : G Expr :=
  t ← operand_ty e1;
  ce1 ← codegen_operand e1;
  ce2 ← codegen_operand e2;
  g_lift (comparison_expr op (ty_is_floating_point t) ce1 ce2).

Definition codegen_unchecked_scalar_binop (op : BinOp) (e1 e2 : Operand) : G Expr :=
  ce1 ← codegen_operand e1;
  ce2 ← codegen_operand e2;
  g_lift (unchecked_scalar_expr op ce1 ce2).

Definition codegen_scalar_binop (op : BinOp) (e1 e2 : Operand) : G Expr :=
  ce1 ← codegen_operand e1;
  ce2 ← codegen_operand e2;
  t ← operand_ty e1;
  g_lift (scalar_expr op (ty_is_signed t) ce1 ce2).

Definition codegen_rvalue_checked_binary_op (op : BinOp) (e1 e2 : Operand) (res_ty : Ty) : G Expr :=
  ce1 ← codegen_operand e1;
  ce2 ← codegen_operand e2;
  match op with
  | Add | Sub | Mul =>
      values ← g_lift (overflow_values op ce1 ce2);
      g ← codegen_ty res_ty;
      g_with_table (struct_expr_from_values g values)
  | Shl | Shr =>
      t1 ← operand_ty e1;
      st ← g_table;
      max ← g_lift (shift_max t1 (machine_model st));
      g ← codegen_ty res_ty;
      g1 ← codegen_ty t1;
      values ← g_lift (shift_values op t1 g1 max ce1 ce2);
      g_with_table (struct_expr_from_values g values)
  | _ => g_lift Panic
  end.

Definition codegen_rvalue_binary_op (op : BinOp) (e1 e2 : Operand) : G Expr :=
  match op with
  | Add | Sub | Mul | Shl | Shr => codegen_scalar_binop op e1 e2
  | Div | Rem | BitXor | BitAnd | BitOr => codegen_unchecked_scalar_binop op e1 e2
  | Eq | Lt | Le | Ne | Ge | Gt => codegen_comparison op e1 e2
  | Offset => ce1 ← codegen_operand e1; ce2 ← codegen_operand e2; g_lift (plus_ ce1 ce2)
  end.

Definition codegen_rvalue_unary_op (op : UnOp) (e : Operand) : G Expr :=
  match op with
  | Not =>
      t ← operand_ty e;
      ce ← codegen_operand e;
      g_lift (if ty_is_bool t then not_ ce else bitnot ce)
  | Neg => ce ← codegen_operand e; g_lift (neg ce)
  end.

(** [TyS::discriminant_for_variant] *)
Definition ty_discriminant_for_variant (t : Ty) (index : N) : option N :=
  match t with
  | Adt def _ =>
      match adt_variants (adt_def def) with
      | [] => None
      | _ => if adt_is_enum (adt_def def) then Some (adt_discriminant_for_variant def index) else None
      end
  | Generator _ _ => Some index
  | _ => None
  end.

(** [codegen_get_discriminant] *)
Definition codegen_get_discriminant (e : Expr) (t res_ty : Ty) : G Expr :=
  match lay_variants (layout_of t) with
  | Single index =>
      g ← codegen_ty res_ty;
      g_lift (int_constant (Z.of_N (default index (ty_discriminant_for_variant t index))) g)
  | Multiple tag tag_encoding _ _ =>
      match tag_encoding with
      | Direct =>
          c ← g_with_table (member e "case");
          g ← codegen_ty res_ty;
          g_lift (cast_to c g)
      | Niche dataful_variant start end_ niche_start =>
          offset ← g_lift (match lay_fields (layout_of t) with
                           | ShapeArbitrary offsets _ => unwrap (head offsets)
                           | _ => Panic
                           end);
          discr_ty ← g_lift (codegen_enum_discr_typ t);
          discr_ty ← codegen_ty discr_ty;
          niche_val ← g_lift (codegen_get_niche e offset discr_ty);
          g ← codegen_ty res_ty;
          g_lift (niche_discriminant tag dataful_variant start end_ niche_start discr_ty g niche_val)
      end
  end.
End ArithGen.
