(* ===== verification/CastGen.v ===== *)
(** * Casts and vtables ([codegen/rvalue.rs])

    Casts between scalars and between pointers, and the unsizing casts, which make a fat
    pointer of a thin one: a slice pointer carries a length, a trait pointer the address of a
    vtable.  The vtable of a type for a trait is a global variable that a constructor
    function fills. *)

From S2P Require Import Prelude CbmcString MachineModel Location Typ Ast SymbolTable Expr Symbol.
From S2P Require Import Builtin Stmt Env Restrictions Mir GotoCtx TypeGen MirTyping PlaceGen OperandGen.
From S2P Require Import ArithGen.

(** [VtableCtx::drop_index] and the entries every vtable starts with *)
Definition drop_index : N := 0.
Definition COMMON_VTABLE_ENTRIES : list VtblEntry :=
  [MetadataDropInPlace; MetadataSize; MetadataAlign].

Definition BUG_REPORT_URL : string :=
  "https://github.com/model-checking/rmc/issues/new?template=bug_report.md".

(** [self.vtable_ctx.op(...)] *)
Definition g_vtable (f : VtableCtx -> outcome VtableCtx) : G unit := fun c =>
  match f (gcx_vtable_ctx c) with
  | Ok v => Done (Ok (tt, mkGotocCtx (gcx_table c) (gcx_full_crate_name c) (global_var_count c) v
                            (gcx_current_fn c) (type_map c) (alloc_map c) (proof_harnesses c)))
  | Panic => Done Panic
  end.

Section CastGen.
Context `{StrDebug, TyCtxt, MirCtxt, InternOrder}.
Context (n : nat).
#[local] Notation codegen_ty := (codegen_ty n).
#[local] Notation codegen_operand := (codegen_operand n).

(** ** Casts between pointers *)

Definition codegen_fat_ptr_to_fat_ptr_cast (src : Operand) (dst_t : Ty) : G Expr :=
  src_goto_expr ← codegen_operand src;
  dst_goto_typ ← codegen_ty dst_t;
  g_with_table (fun st =>
    dst_data_type ← unwrap (lookup_field_type_in_type st dst_goto_typ "data");
    d ← member src_goto_expr "data" st;
    data ← cast_to d dst_data_type;
    metadata ← (match lookup_field_type_in_type st dst_goto_typ "vtable" with
                | Some vtable_typ =>
                    v ← member src_goto_expr "vtable" st; v ← cast_to v vtable_typ; Ok ("vtable", v)
                | None =>
                    match lookup_field_type_in_type st dst_goto_typ "len" with
                    | Some len_typ =>
                        v ← member src_goto_expr "len" st; v ← cast_to v len_typ; Ok ("len", v)
                    | None => Panic
                    end
                end);
    struct_expr dst_goto_typ (list_to_map [("data", data); metadata]) st).

Definition codegen_fat_ptr_to_thin_ptr_cast (src : Operand) (dst_t : Ty) : G Expr :=
  src_goto_expr ← codegen_operand src;
  dst_goto_typ ← codegen_ty dst_t;
  g_with_table (fun st => d ← member src_goto_expr "data" st; cast_to d dst_goto_typ).

(** [self.codegen_operand(src).cast_to(self.codegen_ty(dst_t))] *)
Definition cast_operand (src : Operand) (dst_t : Ty) : G Expr :=
  e ← codegen_operand src; g ← codegen_ty dst_t; g_lift (cast_to e g).

Definition codegen_misc_cast (src : Operand) (dst_t : Ty) : G Expr :=
  src_t ← operand_ty src;
  if ty_is_numeric src_t && ty_is_numeric dst_t then cast_operand src dst_t
  else if (ty_is_integral src_t && ty_is_char dst_t) || (ty_is_char src_t && ty_is_integral dst_t)
  then cast_operand src dst_t
  else if ty_is_enum src_t && ty_is_integral dst_t then
    operand ← codegen_operand src; codegen_get_discriminant n operand src_t dst_t
  else
    src_unsized ← is_ref_of_unsized src_t;
    dst_unsized ← is_ref_of_unsized dst_t;
    if src_unsized && dst_unsized then codegen_fat_ptr_to_fat_ptr_cast src dst_t
    else
      dst_sized ← is_ref_of_sized dst_t;
      if src_unsized && dst_sized then codegen_fat_ptr_to_thin_ptr_cast src dst_t
      else
        match dst_t with
        | Ref dst_subt _ | RawPtr dst_subt _ =>
            match normalize_erasing_regions dst_subt with
            | Slice _ | Str | Dynamic _ => codegen_operand src
            | _ =>
                match src_t with
                | Ref src_subt _ | RawPtr src_subt _ =>
                    match normalize_erasing_regions src_subt with
                    | Slice _ | Str | Dynamic _ =>
                        e ← codegen_operand src;
                        d ← g_with_table (member e "data");
                        g ← codegen_ty dst_t;
                        g_lift (cast_to d g)
                    | _ => cast_operand src dst_t
                    end
                | Int _ | Uint _ | FnPtr _ => cast_operand src dst_t
                | _ => g_lift Panic
                end
            end
        | Int _ | Uint _ => cast_operand src dst_t
        | _ => g_lift Panic
        end.

(** ** Vtables *)

(** The pointer to a method, which is also recorded as a possible target of the calls *)
Definition codegen_vtable_method_field (i : Instance_) (t : Ty) (idx : nat) : G Expr :=
  vname ← vtable_name t;
  st ← g_table;
  field_type ← g_lift (unwrap (lookup_field_type st (aggr_tag vname)
                                 (vtable_field_name (N.of_nat idx))));
  let fn_name := symbol_name i in
  match lookup st fn_name with
  | Some fn_symbol =>
      c ← g_get;
      (if emit_vtable_restrictions (gcx_vtable_ctx c) then
         tn ← normalized_trait_name t;
         g_vtable (add_possible_method tn (N.of_nat idx) fn_name)
       else mret tt);;
      g_lift (a ← address_of (symbol_expression (sym_name fn_symbol) (sym_typ fn_symbol));
              cast_to a field_type)
  | None => g_lift (null field_type)
  end.

(** The pointer to [drop_in_place]; a function that is not in the table is replaced by one
    that is not supported. *)
Definition codegen_vtable_drop_in_place (t trait_ty : Ty) : G Expr :=
  let drop_sym_name := symbol_name (polymorphize (resolve_drop_in_place t)) in
  trait_fn_ty ← trait_vtable_drop_type codegen_ty trait_ty;
  st ← g_table;
  match lookup st drop_sym_name with
  | Some drop_sym =>
      c ← g_get;
      (if emit_vtable_restrictions (gcx_vtable_ctx c) then
         tn ← normalized_trait_name trait_ty;
         g_vtable (add_possible_method tn drop_index drop_sym_name)
       else mret tt);;
      g_lift (a ← address_of (symbol_expression drop_sym_name (sym_typ drop_sym));
              cast_to a trait_fn_ty)
  | None =>
      let drop_sym_name := drop_sym_name +:+ "_unimplemented" in
      drop_sym ← g_ensure drop_sym_name (fun name =>
        e ← g_lift (codegen_unimplemented ("drop_in_place for " +:+ drop_sym_name) empty
                      Location.none "https://github.com/model-checking/rmc/issues/281");
        let unimplemented := as_stmt e Location.none in
        let param_name := drop_sym_name +:+ "::1::var0" in
        g ← codegen_ty trait_ty;
        let param_sym := variable param_name param_name (to_pointer g) Location.none in
        g_update (fun st => insert st param_sym);;
        p ← g_lift (to_function_parameter param_sym);
        mret (function name (code [p] empty) (Some (block [unimplemented] Location.none)) None
                Location.none));
      g_lift (a ← address_of (to_expr drop_sym); cast_to a trait_fn_ty)
  end.

Definition codegen_vtable_size_and_align (t : Ty) : outcome (Expr * Expr) :=
  let vtable_layout := layout_of t in
  assert! negb (is_unsized vtable_layout);
  vt_size ← int_constant (Z.of_N (lay_size vtable_layout)) size_t;
  vt_align ← int_constant (Z.of_N (lay_align vtable_layout)) size_t;
  Ok (vt_size, vt_align).

(** The size is compared with that of the translated type, now and when CBMC runs. *)
Definition check_vtable_size (operand_type : Ty) (vt_size : Expr) : G Stmt :=
  t ← codegen_ty operand_type;
  codegen_size ← g_with_table (sizeof t);
  v ← g_lift (unwrap (int_constant_value vt_size));
  g_lift (rassert (v =? Z.of_N codegen_size)%Z);;
  temp ← gen_temp_variable t Location.none;
  let temp_var := to_expr temp in
  g_lift (
    decl ← decl temp_var None Location.none;
    cbmc_size ← (if is_empty t then assert! ty_is_never operand_type; zero size_t
                 else a ← address_of temp_var; object_size a);
    check ← eq_ cbmc_size vt_size;
    size_assert ← assert_sanity_check check
                    ("Correct CBMC vtable size for " +:+ type_debug t +:+ " (MIR type "
                     +:+ ty_debug operand_type +:+ ")") BUG_REPORT_URL Location.none;
    Ok (block [decl; size_assert] Location.none)).

(** The fields of the vtable, in the order of its entries *)
Fixpoint vtable_fields (src_mir_type trait_type : Ty) (vt_size vt_align : Expr) (idx : nat)
    (entries : list VtblEntry) : G (list Expr) :=
  match entries with
  | [] => mret []
  | entry :: entries =>
      f ← (match entry with
           | MetadataDropInPlace =>
               e ← codegen_vtable_drop_in_place src_mir_type trait_type; mret [e]
           | MetadataSize => mret [vt_size]
           | MetadataAlign => mret [vt_align]
           | Vacant | TraitVPtr => mret []
           | Method i => e ← codegen_vtable_method_field i trait_type idx; mret [e]
           end);
      rest ← vtable_fields src_mir_type trait_type vt_size vt_align (S idx) entries;
      mret (f ++ rest)
  end.

Definition codegen_vtable (src_mir_type dst_mir_type : Ty) : G Expr :=
  trait_type ← g_lift (match dst_mir_type with
                       | Ref pointee _ => Ok pointee
                       | Adt def substs => assert! adt_is_box (adt_def def); unwrap (head substs)
                       | Dynamic _ => Ok dst_mir_type
                       | _ => Panic
                       end);
  binders ← g_lift (match trait_type with Dynamic binders => Ok binders | _ => Panic end);
  src_name ← ty_mangled_name src_mir_type;
  vname ← vtable_name trait_type;
  let vtable_impl_name := vname +:+ "_impl_for_" +:+ src_name in
  ensure_global_var vtable_impl_name true (struct_tag vname) Location.none (fun var =>
    let entries := default COMMON_VTABLE_ENTRIES (vtable_entries_for binders src_mir_type) in
    sa ← g_lift (codegen_vtable_size_and_align src_mir_type);
    let '(vt_size, vt_align) := (sa : Expr * Expr) in
    size_assert ← check_vtable_size src_mir_type vt_size;
    fields ← vtable_fields src_mir_type trait_type vt_size vt_align 0 entries;
    vtable ← g_with_table (struct_expr_from_values (struct_tag vname) fields);
    body ← g_lift (assign var vtable Location.none);
    mret (Some (block [size_assert; body] Location.none))).

(** ** Unsizing casts *)

Definition cast_unsized_dyn_trait_to_unsized_dyn_trait (src_goto_expr : Expr)
    (src_mir_type dst_mir_type : Ty) : G (option Expr) :=
  if bool_decide (src_mir_type = dst_mir_type) then mret None
  else
    b ← is_vtable_fat_pointer src_mir_type;
    g_lift (rassert b);;
    b ← is_vtable_fat_pointer dst_mir_type;
    g_lift (rassert b);;
    dst_mir_dyn_ty ← g_lift (unwrap (pointee_type dst_mir_type));
    dst_goto_type ← codegen_ty dst_mir_type;
    data ← g_with_table (member src_goto_expr "data");
    vname ← vtable_name dst_mir_dyn_ty;
    let vtable_ty := to_pointer (struct_tag vname) in
    v ← g_with_table (member src_goto_expr "vtable");
    vtable ← g_lift (cast_to v vtable_ty);
    e ← g_with_table (dynamic_fat_ptr dst_goto_type data vtable);
    mret (Some e).

Definition cast_sized_pointer_to_slice_fat_pointer (src_goto_expr : Expr) (dst_mir_type : Ty)
    (src_pointee_type dst_pointee_type : Ty) : G (option Expr) :=
  match src_pointee_type, dst_pointee_type with
  | Array src_elt_type src_elt_count, Slice dst_elt_type =>
      g_lift (rassert (bool_decide (src_elt_type = dst_elt_type)));;
      dst_goto_type ← codegen_ty dst_mir_type;
      g ← codegen_ty src_elt_type;
      dst_goto_expr ← g_lift (cast_to src_goto_expr (to_pointer g));
      dst_goto_len ← codegen_const n (usize_const pointer_size src_elt_count) None;
      e ← g_with_table (slice_fat_ptr dst_goto_type dst_goto_expr dst_goto_len);
      mret (Some e)
  | _, _ => g_lift Panic
  end.

Definition cast_sized_pointer_to_trait_fat_pointer (src_goto_expr : Expr) (dst_mir_type : Ty)
    (src_pointee_type dst_pointee_type : Ty) : G (option Expr) :=
  o ← g_nested_pair n src_pointee_type dst_pointee_type;
  match o with
  | Some (concrete_type, trait_type) =>
      dst_goto_expr ← g_lift (cast_to src_goto_expr void_pointer);
      dst_goto_type ← codegen_ty dst_mir_type;
      vtable ← codegen_vtable concrete_type trait_type;
      vtable_expr ← g_lift (address_of vtable);
      e ← g_with_table (dynamic_fat_ptr dst_goto_type dst_goto_expr vtable_expr);
      mret (Some e)
  | None => mret None
  end.

Definition cast_sized_pointer_to_fat_pointer (src_goto_expr : Expr) (src_mir_type dst_mir_type : Ty) :
    G (option Expr) :=
  if bool_decide (src_mir_type = dst_mir_type) then mret None
  else
    src_pointee_type ← g_lift (unwrap (pointee_type src_mir_type));
    dst_pointee_type ← g_lift (unwrap (pointee_type dst_mir_type));
    thin ← use_thin_pointer dst_pointee_type;
    if thin : bool then
      g_lift (rassert (bool_decide (src_pointee_type = dst_pointee_type)));; mret None
    else if use_slice_fat_pointer dst_pointee_type then
      cast_sized_pointer_to_slice_fat_pointer src_goto_expr dst_mir_type src_pointee_type
        dst_pointee_type
    else if use_vtable_fat_pointer dst_pointee_type then
      cast_sized_pointer_to_trait_fat_pointer src_goto_expr dst_mir_type src_pointee_type
        dst_pointee_type
    else g_lift Panic.

Section Unsize.
(** [cast_to_unsized_expr], for the fields of an ADT *)
Variable (cast_to_unsized_expr : Expr -> Ty -> Ty -> G (option Expr)).

Definition cast_field (values : gmap InternedString Expr) (src dst : gmap InternedString Ty)
    (field : InternedString) : G (list (InternedString * Expr)) :=
  v ← g_lift (unwrap (values !! field));
  s ← g_lift (unwrap (src !! field));
  d ← g_lift (unwrap (dst !! field));
  o ← cast_to_unsized_expr v s d;
  mret (match o with Some e => [(field, e)] | None => [] end).

Definition cast_sized_adt_to_unsized_adt (src_goto_expr : Expr) (src_mir_type dst_mir_type : Ty) :
    G (option Expr) :=
  values ← g_with_table (struct_field_exprs src_goto_expr);
  src ← g_lift (mir_struct_field_types src_mir_type);
  dst ← g_lift (mir_struct_field_types dst_mir_type);
  g_lift (rassert (bool_decide (dom values = dom src)));;
  g_lift (rassert (bool_decide (dom values = dom dst)));;
  casts ← g_map (cast_field values src dst) (map fst (btree_iter values));
  let cast_required := concat casts in
  if negb (size dst =? 0)%nat && (length cast_required =? 0)%nat then mret None
  else
    let values := foldl (fun m fe => <[fe.1 := fe.2]> m) values cast_required in
    g ← codegen_ty dst_mir_type;
    e ← g_with_table (struct_expr g values);
    mret (Some e).

Definition cast_sized_expr_to_unsized_expr (src_goto_expr : Expr) (src_mir_type dst_mir_type : Ty) :
    G (option Expr) :=
  if bool_decide (src_mir_type = dst_mir_type) then mret None
  else
    g_lift (rassert (ty_is_sized src_mir_type));;
    b ← is_vtable_fat_pointer src_mir_type;
    g_lift (rassert (negb b));;
    match src_mir_type, dst_mir_type with
    | (Ref _ _ | RawPtr _ _), (Ref _ _ | RawPtr _ _) =>
        cast_sized_pointer_to_fat_pointer src_goto_expr src_mir_type dst_mir_type
    | Adt _ _, Adt _ _ => cast_sized_adt_to_unsized_adt src_goto_expr src_mir_type dst_mir_type
    | _, _ => g_lift Panic
    end.

Definition unsize_body (src_goto_expr : Expr) (src_mir_type dst_mir_type : Ty) : G (option Expr) :=
  b ← is_vtable_fat_pointer src_mir_type;
  if b : bool then
    cast_unsized_dyn_trait_to_unsized_dyn_trait src_goto_expr src_mir_type dst_mir_type
  else
    b ← (match pointee_type src_mir_type with
         | Some p => thin ← use_thin_pointer p; mret (thin || use_slice_fat_pointer p)
         | None => mret true
         end);
    g_lift (rassert b);;
    cast_sized_expr_to_unsized_expr src_goto_expr src_mir_type dst_mir_type.
End Unsize.

(** [cast_to_unsized_expr], through at most [k] structs *)
Fixpoint cast_to_unsized_expr (k : nat) (src_goto_expr : Expr) (src_mir_type dst_mir_type : Ty) :
    G (option Expr) :=
  match k with
  | 0 => fun _ => OutOfFuel
  | S k => unsize_body (cast_to_unsized_expr k) src_goto_expr src_mir_type dst_mir_type
  end.

(** [codegen_pointer_cast] *)
Definition codegen_pointer_cast (k : PointerCast) (o : Operand) (t : Ty) : G Expr :=
  match k with
  | ReifyFnPointer => e ← codegen_operand o; g_lift (address_of e)
  | UnsafeFnPointer | MutToConstPointer => codegen_operand o
  | ClosureFnPointer =>
      dest_typ ← codegen_ty t;
      g_lift (codegen_unimplemented "PointerCast::ClosureFnPointer" dest_typ Location.none
                "https://github.com/model-checking/rmc/issues/274")
  | ArrayToPointer =>
      ot ← operand_ty o;
      match ot with
      | RawPtr (Array _ _) _ =>
          oe ← codegen_operand o;
          g_with_table (fun st => d ← dereference oe; m ← member d "0" st; array_to_ptr m)
      | _ => g_lift Panic
      end
  | Unsize =>
      src_goto_expr ← codegen_operand o;
      src_mir_type ← operand_ty o;
      e ← cast_to_unsized_expr n src_goto_expr src_mir_type t;
      mret (default src_goto_expr e)
  end.
End CastGen.
