(* ===== verification/RvalueGen.v ===== *)
(** * Rvalues ([codegen/rvalue.rs])

    References, repeated arrays, lengths, aggregates, and [codegen_rvalue], which
    dispatches to the operators and casts. *)

From S2P Require Import Prelude CbmcString MachineModel Location Typ Ast SymbolTable Expr Symbol.
From S2P Require Import Builtin Stmt Env Restrictions Mir GotoCtx TypeGen MirTyping PlaceGen OperandGen.
From S2P Require Import ArithGen CastGen.

Section RvalueGen.
Context `{StrDebug, TyCtxt, MirCtxt, InternOrder}.
Context (n : nat).
#[local] Notation codegen_ty := (codegen_ty n).
#[local] Notation codegen_operand := (codegen_operand n).
#[local] Notation codegen_place := (codegen_place n).

(** [codegen_rvalue_ref]: a pointer to a place, fat if the place is unsized *)
Definition codegen_rvalue_ref (place : Place) (result_mir_type : Ty) : G Expr :=
  place_mir_type ← place_ty place;
  projection ← codegen_place place;
  g_lift (rassert (ty_is_pointer result_mir_type));;
  result_goto_type ← codegen_ty result_mir_type;
  let place_goto_expr := goto_expr projection in
  thin ← use_thin_pointer place_mir_type;
  if thin : bool then g_lift (address_of place_goto_expr)
  else
    fat ← g_with_table (is_rust_fat_ptr (typ place_goto_expr));
    if fat : bool then mret place_goto_expr
    else
      intermediate_fat_pointer ← g_lift (unwrap (fat_ptr_goto_expr projection));
      thin_pointer ← g_lift (if is_pointer (typ place_goto_expr) then Ok place_goto_expr
                             else if is_array_like (typ place_goto_expr)
                             then array_to_ptr place_goto_expr
                             else address_of place_goto_expr);
      if use_slice_fat_pointer place_mir_type then
        metadata ← g_with_table (member intermediate_fat_pointer "len");
        g_with_table (slice_fat_ptr result_goto_type thin_pointer metadata)
      else if use_vtable_fat_pointer place_mir_type then
        metadata ← g_with_table (member intermediate_fat_pointer "vtable");
        data ← g_lift (cast_to thin_pointer void_pointer);
        g_with_table (dynamic_fat_ptr result_goto_type data metadata)
      else g_lift Panic.

(** [codegen_rvalue_repeat]: a function that fills an array with its argument *)
Definition codegen_rvalue_repeat (op : Operand) (sz : N) (res_ty : Ty) : G Expr :=
  name ← ty_mangled_name res_ty;
  let func_name := "gen-repeat<" +:+ name +:+ ">" in
  g_ensure func_name (fun _ =>
    t ← operand_ty op;
    paramt ← codegen_ty t;
    res_t ← codegen_ty res_ty;
    inp ← gen_function_local_variable 1 func_name paramt;
    res ← gen_function_local_variable 2 func_name res_t;
    idx ← gen_function_local_variable 3 func_name size_t;
    let res := to_expr res in
    let idx := to_expr idx in
    elem ← codegen_idx_array res idx;
    bound ← codegen_const n (usize_const pointer_size sz) None;
    body ← g_lift (
      d1 ← decl res None Location.none;
      z ← zero size_t;
      d2 ← decl idx (Some z) Location.none;
      a ← assign elem (to_expr inp) Location.none;
      cond ← lt_ idx bound;
      inc ← postincr idx;
      l ← for_loop (skip Location.none) cond (as_stmt inc Location.none)
            (block [a] Location.none) Location.none;
      Ok [d1; d2; l; ret (Some res) Location.none]);
    p ← g_lift (to_function_parameter inp);
    mret (function func_name (code [p] res_t) (Some (block body Location.none)) None
            Location.none));;
  f ← find_function func_name;
  f ← g_lift (unwrap f);
  arg ← codegen_operand op;
  g_lift (call f [arg]).

Definition codegen_rvalue_len (p : Place) : G Expr :=
  pt ← place_ty p;
  match pt with
  | Array _ sz => codegen_const n (usize_const pointer_size sz) None
  | Slice _ =>
      projection ← codegen_place p;
      fat_ptr ← g_lift (unwrap (fat_ptr_goto_expr projection));
      g_with_table (member fat_ptr "len")
  | _ => g_lift Panic
  end.

(** The operands of a tuple that are not of type unit *)
Fixpoint tuple_operands (os : list Operand) : G (list Expr) :=
  match os with
  | [] => mret []
  | o :: os =>
      t ← operand_ty o;
      if ty_is_unit t then tuple_operands os
      else e ← codegen_operand o; rest ← tuple_operands os; mret (e :: rest)
  end.

Definition codegen_rvalue_aggregate (k : AggregateKind) (operands : list Operand) (res_ty : Ty) :
    G Expr :=
  match k with
  | AggArray et =>
      if ty_is_unit et then g ← codegen_ty res_ty; g_with_table (struct_expr_from_values g [])
      else
        g ← codegen_ty res_ty;
        raw ← codegen_ty_raw_array codegen_ty res_ty;
        es ← g_map codegen_operand operands;
        a ← g_lift (array_expr raw es);
        g_with_table (struct_expr_from_values g [a])
  | AggTuple =>
      g ← codegen_ty res_ty;
      es ← tuple_operands operands;
      g_with_table (struct_expr_from_values g es)
  | AggOther _ => g_lift Panic
  end.

(** [codegen_rvalue] *)
Definition codegen_rvalue (rv : Rvalue) : G Expr :=
  res_ty ← rvalue_ty rv;
  match rv with
  | Use p => codegen_operand p
  | Repeat op sz => codegen_rvalue_repeat op sz res_ty
  | RvRef _ p | AddressOf _ p => codegen_rvalue_ref p res_ty
  | Len p => codegen_rvalue_len p
  | Cast Misc e t => t ← monomorphize t; codegen_misc_cast n e t
  | Cast (Pointer k) e t => t ← monomorphize t; codegen_pointer_cast n k e t
  | BinaryOp op e1 e2 => codegen_rvalue_binary_op n op e1 e2
  | CheckedBinaryOp op e1 e2 => codegen_rvalue_checked_binary_op n op e1 e2 res_ty
  | NullaryOp NullBox t =>
      t ← monomorphize t;
      box_ty ← codegen_ty (mk_box t);
      cbmc_t ← codegen_ty t;
      box_contents ← g_lift (
        sz ← int_constant (Z.of_N (lay_size (layout_of t))) size_t;
        m ← builtin_call Malloc [sz] Location.none;
        cast_to m (to_pointer cbmc_t));
      g_with_table (fun st => box_value st box_contents box_ty)
  | NullaryOp SizeOf t =>
      t ← monomorphize t; g_lift (int_constant (Z.of_N (lay_size (layout_of t))) size_t)
  | NullaryOp AlignOf t =>
      t ← monomorphize t; g_lift (int_constant (Z.of_N (lay_align (layout_of t))) size_t)
  | ShallowInitBox operand content_ty =>
      e ← codegen_operand operand;
      t ← monomorphize content_ty;
      box_ty ← codegen_ty (mk_box t);
      cbmc_t ← codegen_ty t;
      box_contents ← g_lift (cast_to e (to_pointer cbmc_t));
      g_with_table (fun st => box_value st box_contents box_ty)
  | UnaryOp op e => codegen_rvalue_unary_op n op e
  | Discriminant p =>
      place ← codegen_place p;
      pt ← place_ty p;
      codegen_get_discriminant n (goto_expr place) pt res_ty
  | MirAggregate k operands => codegen_rvalue_aggregate k operands res_ty
  | ThreadLocalRef _ =>
      t ← codegen_ty res_ty;
      g_lift (codegen_unimplemented "Rvalue::ThreadLocalRef" t Location.none
                "https://github.com/model-checking/rmc/issues/541")
  end.
End RvalueGen.
