(* ===== verification/IntrinsicGen.v ===== *)
(** * Intrinsics ([codegen/intrinsic.rs], and the statements of [codegen/statement.rs] that
    intrinsics and hooks are built from)

    An intrinsic is known by its name.  Most are one operator or one call; the others have
    their own function here. *)

From S2P Require Import Prelude CbmcString MachineModel Location Typ Ast SymbolTable Expr Symbol.
From S2P Require Import Builtin Stmt Env Restrictions Mir GotoCtx TypeGen MirTyping PlaceGen OperandGen.
From S2P Require Import ArithGen CastGen.

(** [fargs.remove(0)], and the first arguments at once *)
Definition arg1 (fargs : list Expr) : outcome Expr := unwrap (head fargs).
Definition args2 (fargs : list Expr) : outcome (Expr * Expr) :=
  match fargs with a :: b :: _ => Ok (a, b) | _ => Panic end.
Definition args3 (fargs : list Expr) : outcome (Expr * Expr * Expr) :=
  match fargs with a :: b :: c :: _ => Ok (a, b, c) | _ => Panic end.

(** [str::parse::<u64>] *)
Definition digit (c : Ascii.ascii) : option N :=
  let k := Ascii.N_of_ascii c in
  if between 48 k 57 then Some (k - 48)%N else None.
Fixpoint parse_digits (s : string) (acc : N) : option N :=
  match s with
  | EmptyString => Some acc
  | String c s =>
      match digit c with
      | Some d => let acc := (10 * acc + d)%N in if in_u64 acc then parse_digits s acc else None
      | None => None
      end
  end.
Definition parse_u64 (s : string) : option N :=
  match s with
  | EmptyString => None
  | String "+" EmptyString => None
  | String "+" s => parse_digits s 0
  | _ => parse_digits s 0
  end.

(** [str::strip_prefix] *)
Definition strip_prefix (p s : string) : option string :=
  if String.prefix p s then Some (String.substring (String.length p) (String.length s) s) else None.

(** [struct SizeAlign] *)
Record SizeAlign := mkSizeAlign { sa_size : Expr; sa_align : Expr }.

(** The intrinsics that are one call of a builtin function *)
Definition simple_intrinsics : list (string * BuiltinFn) :=
  [("ceilf32", Ceilf); ("ceilf64", Ceil); ("copysignf32", Copysignf); ("copysignf64", Copysign);
   ("cosf32", Cosf); ("cosf64", Cos); ("exp2f32", Exp2f); ("exp2f64", Exp2); ("expf32", Expf);
   ("expf64", Exp); ("fabsf32", Fabsf); ("fabsf64", Fabs); ("floorf32", Floorf);
   ("floorf64", Floor); ("fmaf32", Fmaf); ("fmaf64", Fma); ("log10f32", Log10f);
   ("log10f64", Log10); ("log2f32", Log2f); ("log2f64", Log2); ("logf32", Logf); ("logf64", Log);
   ("maxnumf32", Fmaxf); ("maxnumf64", Fmax); ("minnumf32", Fminf); ("minnumf64", Fmin);
   ("nearbyintf32", Nearbyintf); ("nearbyintf64", Nearbyint); ("powf32", Powf); ("powf64", Pow);
   ("powif32", Powif); ("powif64", Powi); ("rintf32", Rintf); ("rintf64", Rint);
   ("roundf32", Roundf); ("roundf64", Round); ("sinf32", Sinf); ("sinf64", Sin);
   ("sqrtf32", Sqrtf); ("sqrtf64", Sqrt); ("truncf32", Truncf); ("truncf64", Trunc)].

(** The intrinsics that are one binary operator *)
Definition binop_intrinsics : list (string * (Expr -> Expr -> outcome Expr)) :=
  [("arith_offset", plus_); ("rotate_left", rol); ("rotate_right", ror); ("simd_and", bitand);
   ("simd_div", div_); ("simd_eq", eq_); ("simd_ge", ge_); ("simd_gt", gt_); ("simd_le", le_);
   ("simd_lt", lt_); ("simd_ne", neq_); ("simd_or", bitor); ("simd_rem", rem_); ("simd_shl", shl);
   ("simd_xor", bitxor); ("unchecked_div", div_); ("unchecked_rem", rem_); ("unchecked_shl", shl);
   ("wrapping_add", plus_); ("wrapping_mul", mul_); ("wrapping_sub", sub_)].

(** The atomic operators, by the part of the name before the ordering *)
Definition orderings : list string := [""; "_acq"; "_acqrel"; "_rel"; "_relaxed"].
Definition with_orderings {A} (name : string) (a : A) : list (string * A) :=
  map (fun o => (name +:+ o, a)) orderings.
Definition atomic_binops : list (string * (Expr -> Expr -> outcome Expr)) :=
  with_orderings "atomic_and" bitand ++ with_orderings "atomic_or" bitor
  ++ with_orderings "atomic_xadd" plus_ ++ with_orderings "atomic_xor" bitxor
  ++ with_orderings "atomic_xsub" sub_.
Definition atomic_stores : list string :=
  ["atomic_store"; "atomic_store_rel"; "atomic_store_relaxed"; "atomic_store_unordered"]
  ++ map fst (with_orderings "atomic_xchg" tt).
Definition atomic_loads : list string :=
  ["atomic_load"; "atomic_load_acq"; "atomic_load_relaxed"; "atomic_load_unordered"].
Definition atomic_fences : list string :=
  ["atomic_fence"; "atomic_fence_acq"; "atomic_fence_acqrel"; "atomic_fence_rel"].

Definition find_name {A} (l : list (string * A)) (name : string) : option A :=
  snd <$> List.find (fun e => String.eqb e.1 name) l.
Definition name_in (l : list string) (name : string) : bool := existsb (String.eqb name) l.

(** [codegen_exact_div]: the conditions under which the division is defined *)
Definition exact_div_checks (mm : MachineModel) (a b : Expr) : outcome (Expr * Expr * Expr) :=
  let atyp := typ a in
  let btyp := typ b in
  r ← rem_ a b;
  za ← zero atyp;
  division_is_exact ← eq_ r za;
  zb ← zero btyp;
  divisor_is_nonzero ← neq_ b zb;
  dividend_is_int_min ← (if is_signed atyp mm then m ← min_int_expr atyp mm; eq_ a m
                         else Ok bool_false);
  divisor_is_minus_one ← (if is_signed btyp mm then o ← one btyp; m ← neg o; eq_ b m
                          else Ok bool_false);
  both ← and_ dividend_is_int_min divisor_is_minus_one;
  division_does_not_overflow ← not_ both;
  Ok (division_is_exact, divisor_is_nonzero, division_does_not_overflow).

(** The size and alignment of a value whose last field is unsized: the end of the sized part,
    then the field, padded to the larger alignment *)
Definition pad_size_align (sized_size sized_align unsized_size unsized_align : Expr) :
    outcome SizeAlign :=
  size ← plus_ sized_size unsized_size;
  larger ← ge_ sized_align unsized_align;
  align ← ternary larger sized_align unsized_align;
  one ← int_constant 1 size_t;
  addend ← sub_ align one;
  add ← plus_ size addend;
  neg ← neg align;
  size ← bitand add neg;
  Ok (mkSizeAlign size align).

(** The check of a SIMD operator: some lane overflows *)
Fixpoint simd_overflow (overflow : Expr -> Expr -> outcome Expr) (a b : Expr) (i : nat) (k : nat)
    (check : Expr) : outcome Expr :=
  match k with
  | 0 => Ok check
  | S k =>
      idx ← int_constant (Z.of_nat i) ssize_t;
      v_a ← index_array a idx;
      v_b ← index_array b idx;
      o ← overflow v_a v_b;
      check ← or_ check o;
      simd_overflow overflow a b (S i) k check
  end.

Section IntrinsicGen.
Context `{StrDebug, TyCtxt, MirCtxt, InternOrder}.
Context (n : nat).
#[local] Notation codegen_ty := (codegen_ty n).
#[local] Notation codegen_place := (codegen_place n).

(** ** Statements that hooks and intrinsics share ([statement.rs]) *)

Definition codegen_expr_to_place (p : Place) (e : Expr) : G Stmt :=
  t ← place_ty p;
  if ty_is_unit t then mret (as_stmt e Location.none)
  else place ← codegen_place p; g_lift (assign (goto_expr place) e Location.none).

Definition codegen_fatal_error (msg : string) (span : option Span) : G Stmt :=
  loc ← codegen_caller_span span;
  g_lift (s ← assert_false msg loc;
          a ← builtin_call Builtin.Abort [] loc;
          Ok (block [s; as_stmt a loc] loc)).

(** [extract_const_message], [codegen_panic] *)
Definition extract_const_message (arg : Expr) : outcome (option string) :=
  match value arg with
  | EStruct values =>
      v ← unwrap (head values);
      match value v with
      | EAddressOf address =>
          match value address with
          | EIndex array _ =>
              match value array with EStringConstant s => Ok (Some s) | _ => Ok None end
          | _ => Ok None
          end
      | _ => Ok None
      end
  | _ => Ok None
  end.
Definition codegen_panic (span : option Span) (fargs : list Expr) : G Stmt :=
  a ← g_lift (unwrap (head fargs));
  msg ← g_lift (extract_const_message a);
  codegen_fatal_error
    (default "This is a placeholder message; RMC doesn't support message formatted at runtime" msg)
    span.

(** ** Intrinsics with a function of their own *)

Definition codegen_exact_div (fargs : list Expr) (p : Place) (loc : Location) : G Stmt :=
  st ← g_table;
  ab ← g_lift (args2 fargs);
  let '(a, b) := (ab : Expr * Expr) in
  checks ← g_lift (exact_div_checks (machine_model st) a b);
  let '(exact, nonzero, no_overflow) := (checks : Expr * Expr * Expr) in
  s1 ← g_lift (assert_ exact "exact_div arguments divide exactly" loc);
  s2 ← g_lift (assert_ nonzero "exact_div divisor is nonzero" loc);
  s3 ← g_lift (assert_ no_overflow "exact_div division does not overflow" loc);
  d ← g_lift (div_ a b);
  s4 ← codegen_expr_to_place p d;
  mret (block [s1; s2; s3; s4] loc).

Definition codegen_atomic_load (fargs : list Expr) (p : Place) (loc : Location) : G Stmt :=
  var1_ref ← g_lift (arg1 fargs);
  var1 ← g_lift (dereference var1_ref);
  res_stmt ← codegen_expr_to_place p (with_location var1 loc);
  mret (atomic_block [res_stmt] loc).

Definition codegen_atomic_cxchg (fargs : list Expr) (p : Place) (loc : Location) : G Stmt :=
  args ← g_lift (args3 fargs);
  let '(var1_ref, var2, var3) := (args : Expr * Expr * Expr) in
  var1 ← g_lift (dereference var1_ref);
  let var1 := with_location var1 loc in
  tmp ← gen_temp_variable (typ var1) loc;
  let tmp := to_expr tmp in
  decl_stmt ← g_lift (decl tmp (Some var1) loc);
  let var2 := with_location var2 loc in
  let var3 := with_location var3 loc in
  eq_expr ← g_lift (eq_ var1 var2);
  assign_stmt ← g_lift (assign var1 var3 loc);
  cond_update_stmt ← g_lift (if_then_else eq_expr assign_stmt None loc);
  place_type ← place_ty p;
  res_type ← codegen_ty place_type;
  tuple_expr ← g_with_table (struct_expr_from_values res_type [tmp; c_true]);
  res_stmt ← codegen_expr_to_place p (with_location tuple_expr loc);
  mret (atomic_block [decl_stmt; cond_update_stmt; res_stmt] loc).

Definition codegen_atomic_store (fargs : list Expr) (p : Place) (loc : Location) : G Stmt :=
  ab ← g_lift (args2 fargs);
  let '(var1_ref, var2) := (ab : Expr * Expr) in
  var1 ← g_lift (dereference var1_ref);
  let var1 := with_location var1 loc in
  tmp ← gen_temp_variable (typ var1) loc;
  let tmp := to_expr tmp in
  decl_stmt ← g_lift (decl tmp (Some var1) loc);
  assign_stmt ← g_lift (assign var1 (with_location var2 loc) loc);
  res_stmt ← codegen_expr_to_place p tmp;
  mret (atomic_block [decl_stmt; assign_stmt; res_stmt] loc).

Definition codegen_atomic_noop (loc : Location) : Stmt := atomic_block [skip loc] loc.

(** [codegen_atomic_binop!] *)
Definition codegen_atomic_binop (op : Expr -> Expr -> outcome Expr) (fargs : list Expr) (p : Place)
    (span : option Span) : G Stmt :=
  loc ← codegen_span_option span;
  ab ← g_lift (args2 fargs);
  let '(var1_ref, var2) := (ab : Expr * Expr) in
  var1 ← g_lift (dereference var1_ref);
  tmp ← gen_temp_variable (typ var1) loc;
  let tmp := to_expr tmp in
  decl_stmt ← g_lift (decl tmp (Some var1) loc);
  op_expr ← g_lift (op var1 var2);
  assign_stmt ← g_lift (assign var1 (with_location op_expr loc) loc);
  res_stmt ← codegen_expr_to_place p tmp;
  mret (atomic_block [decl_stmt; assign_stmt; res_stmt] loc).

Definition codegen_ptr_offset_from (fargs : list Expr) (p : Place) (loc : Location) : G Stmt :=
  ab ← g_lift (args2 fargs);
  let '(a, b) := (ab : Expr * Expr) in
  same ← g_lift (same_object a b);
  s1 ← g_lift (assert_ same "ptr_offset_from: pointers point to same object" loc);
  d ← g_lift (sub_ a b);
  s2 ← codegen_expr_to_place p d;
  mret (block [s1; s2] loc).

Definition codegen_intrinsic_transmute (fargs : list Expr) (ret_ty : Ty) (p : Place) : G Stmt :=
  match fargs with
  | [arg] =>
      g ← codegen_ty ret_ty;
      e ← g_with_table (transmute_to arg g);
      codegen_expr_to_place p e
  | _ => g_lift Panic
  end.

(** [instance.substs.type_at(0)] *)
Definition type_at0 (i : Instance_) : outcome Ty := unwrap (head (inst_substs i)).

Definition codegen_intrinsic_raw_eq (i : Instance_) (fargs : list Expr) (p : Place)
    (loc : Location) : G Stmt :=
  t ← g_lift (type_at0 i);
  t ← monomorphize t;
  e ← g_lift (
    ab ← args2 fargs;
    dst ← cast_to ab.1 void_pointer;
    val ← cast_to ab.2 void_pointer;
    sz ← int_constant (Z.of_N (lay_size (layout_of t))) size_t;
    c ← builtin_call Memcmp [dst; val; sz] loc;
    z ← zero c_int;
    b ← eq_ c z;
    cast_to b c_bool);
  codegen_expr_to_place p e.

(** [size_and_align_of_dst], through at most [k] nested types *)
Fixpoint size_and_align_of_dst (k : nat) (st : SymbolTable) (t : Ty) (arg : Expr) :
    fuelled SizeAlign :=
  let layout := layout_of t in
  if negb (is_unsized layout) then
    Done (size ← int_constant (Z.of_N (lay_size layout)) size_t;
          align ← int_constant (Z.of_N (lay_align layout)) size_t;
          Ok (mkSizeAlign size align))
  else
    match t with
    | Dynamic _ =>
        Done (sz ← u64_mul (lay_size layout) 2;
              size ← int_constant (Z.of_N sz) size_t;
              align ← int_constant (Z.of_N (lay_align layout)) size_t;
              Ok (mkSizeAlign size align))
    | Slice _ | Str =>
        Done (let unit_t := match t with Slice et => et | _ => Uint U8 end in
              u ← int_constant (Z.of_N (lay_size (layout_of unit_t))) size_t;
              l ← member arg "len" st;
              size ← mul_ u l;
              align ← int_constant (Z.of_N (lay_align layout)) size_t;
              Ok (mkSizeAlign size align))
    | _ =>
        match k with
        | 0 => OutOfFuel
        | S k =>
            Done (rassert (negb (match t with Adt def _ => repr_simd (adt_def def) | _ => false end)));;
            Done (rassert (0 <? shape_count (lay_fields layout))%nat);;
            let m := (shape_count (lay_fields layout) - 1)%nat in
            offset ← Done (shape_offset (lay_fields layout) m);
            sized_size ← Done (int_constant (Z.of_N offset) size_t);
            sized_align ← Done (int_constant (Z.of_N (lay_align layout)) size_t);
            u ← size_and_align_of_dst k st (layout_field_ty t m) arg;
            let unsized_align :=
              match t with
              | Adt def _ => if repr_packed (adt_def def) then sized_align else sa_align u
              | _ => sa_align u
              end in
            Done (pad_size_align sized_size sized_align (sa_size u) unsized_align)
        end
    end.
Definition g_size_align (t : Ty) (arg : Expr) : G SizeAlign := fun c =>
  match size_and_align_of_dst n (gcx_table c) t arg with
  | Done (Ok r) => Done (Ok (r, c))
  | Done Panic => Done Panic
  | OutOfFuel => OutOfFuel
  end.

Definition codegen_intrinsic_simd_insert (fargs : list Expr) (p : Place) (cbmc_ret_ty : Type_)
    (loc : Location) : G Stmt :=
  match fargs with
  | [vec; idx; newval] =>
      elem_ty ← g_lift (unwrap (base_type cbmc_ret_ty));
      tmp ← gen_temp_variable cbmc_ret_ty loc;
      let tmp := to_expr tmp in
      s1 ← g_lift (decl tmp (Some vec) loc);
      s2 ← g_lift (i ← index_array tmp idx; v ← cast_to newval elem_ty; assign i v loc);
      s3 ← codegen_expr_to_place p tmp;
      mret (block [s1; s2; s3] loc)
  | _ => g_lift Panic
  end.

(** The elements of a shuffled vector: lane [v] of the first, or [v - n] of the second *)
Definition shuffle_elem (vec1 vec2 n_rep v : Expr) : outcome Expr :=
  cond ← lt_ v n_rep;
  t ← index vec1 v;
  d ← sub_ v n_rep;
  e ← index vec2 d;
  ternary cond t e.
Definition codegen_intrinsic_simd_shuffle (fargs : list Expr) (p : Place) (cbmc_ret_ty : Type_)
    (lanes : N) : G Stmt :=
  match fargs with
  | [vec1; vec2; indexes] =>
      n_rep ← g_lift (int_constant (Z.of_N lanes) ssize_t);
      elems ← g_map (fun i =>
                       i ← g_lift (int_constant (Z.of_nat i) ssize_t);
                       v ← codegen_idx_array indexes i;
                       g_lift (v ← cast_to v ssize_t; shuffle_elem vec1 vec2 n_rep v))
                (seq 0 (N.to_nat lanes));
      e ← g_lift (vector_expr cbmc_ret_ty elems);
      codegen_expr_to_place p e
  | _ => g_lift Panic
  end.

(** ** The macros *)

(** [codegen_intrinsic_copy!] *)
Definition codegen_intrinsic_copy (f : BuiltinFn) (i : Instance_) (fargs : list Expr) (p : Place)
    (loc : Location) : G Stmt :=
  args ← g_lift (args3 fargs);
  let '(src, dst, count) := (args : Expr * Expr * Expr) in
  src ← g_lift (cast_to src void_pointer);
  dst ← g_lift (cast_to dst void_pointer);
  sig ← fn_sig_of_instance i;
  sig ← g_lift (unwrap sig);
  input ← g_lift (unwrap (head (sig_inputs sig)));
  e ← g_lift (
    sz ← (match input with
          | RawPtr t _ => int_constant (Z.of_N (lay_size (layout_of t))) size_t
          | _ => Panic
          end);
    n ← mul_ sz count;
    call_memcopy ← builtin_call f [dst; src; n] loc;
    z ← is_zero n;
    ternary z dst call_memcopy);
  codegen_expr_to_place p e.

(** [codegen_simple_intrinsic!] *)
Definition codegen_simple_intrinsic (f : BuiltinFn) (fargs : list Expr) (p : Place)
    (loc : Location) : G Stmt :=
  st ← g_table;
  e ← g_lift (
    fe ← as_expr f;
    casted ← cast_arguments_to_machine_equivalent_function_parameter_types fe fargs
               (machine_model st);
    builtin_call f casted loc);
  codegen_expr_to_place p e.

(** [codegen_op_with_overflow!] *)
Definition codegen_op_with_overflow (f : Expr -> Expr -> outcome ArithmeticOverflowResult)
    (fargs : list Expr) (p : Place) : G Stmt :=
  pt ← place_ty p;
  t ← codegen_ty pt;
  ab ← g_lift (args2 fargs);
  e ← g_with_table (fun st =>
    res ← f ab.1 ab.2;
    o ← cast_to (overflowed res) c_bool;
    struct_expr_from_values t [result res; o] st);
  codegen_expr_to_place p e.

(** [codegen_op_with_overflow_check!] *)
Definition codegen_op_with_overflow_check (f : Expr -> Expr -> outcome ArithmeticOverflowResult)
    (intrinsic : string) (fargs : list Expr) (p : Place) (loc : Location) : G Stmt :=
  ab ← g_lift (args2 fargs);
  res ← g_lift (f ab.1 ab.2);
  check ← g_lift (c ← not_ (overflowed res);
                  assert_ c ("attempt to compute " +:+ intrinsic +:+ " which would overflow") loc);
  expr_place ← codegen_expr_to_place p (result res);
  mret (block [expr_place; check] loc).

(** [codegen_simd_with_overflow_check!] *)
Definition codegen_simd_with_overflow_check (op overflow : Expr -> Expr -> outcome Expr)
    (intrinsic : string) (fargs : list Expr) (p : Place) (loc : Location) : G Stmt :=
  ab ← g_lift (args2 fargs);
  let '(a, b) := (ab : Expr * Expr) in
  check ← g_lift (match typ a, typ b with
                  | TVector _ a_size, TVector _ b_size =>
                      assert! (a_size =? b_size)%N;
                      simd_overflow overflow a b 0 (N.to_nat a_size) bool_false
                  | _, _ => Ok bool_false
                  end);
  check_stmt ← g_lift (c ← not_ check;
                       assert_ c ("attempt to compute " +:+ intrinsic +:+ " which would overflow") loc);
  res ← g_lift (op a b);
  expr_place ← codegen_expr_to_place p res;
  mret (block [expr_place; check_stmt] loc).

(** [binop] and [codegen_intrinsic_binop!] *)
Definition intrinsic_binop (f : Expr -> Expr -> outcome Expr) (fargs : list Expr) (p : Place) :
    G Stmt :=
  ab ← g_lift (args2 fargs);
  e ← g_lift (f ab.1 ab.2);
  codegen_expr_to_place p e.
Definition intrinsic_boolean_binop (f : Expr -> Expr -> outcome Expr) (fargs : list Expr)
    (p : Place) : G Stmt :=
  intrinsic_binop (fun a b => e ← f a b; cast_to e c_bool) fargs p.

(** An intrinsic that is one operator on its first argument *)
Definition intrinsic_unop (f : Expr -> outcome Expr) (fargs : list Expr) (p : Place) : G Stmt :=
  a ← g_lift (arg1 fargs); e ← g_lift (f a); codegen_expr_to_place p e.

(** [codegen_intrinsic_const!] *)
Definition codegen_intrinsic_const (i : Instance_) (p : Place) (span : option Span) : G Stmt :=
  v ← g_lift (unwrap (const_eval_instance i));
  pt ← place_ty p;
  e ← codegen_const_value n v pt span;
  codegen_expr_to_place p e.

(** [codegen_size_align!] *)
Definition codegen_size_align (which : SizeAlign -> Expr) (i : Instance_) (fargs : list Expr)
    (p : Place) : G Stmt :=
  tp_ty ← g_lift (type_at0 i);
  arg ← g_lift (arg1 fargs);
  sa ← g_size_align tp_ty arg;
  codegen_expr_to_place p (which sa).

(** [codegen_unimplemented_intrinsic!] *)
Definition codegen_unimplemented_intrinsic (intrinsic : string) (cbmc_ret_ty : Type_)
    (loc : Location) (url : string) (p : Place) : G Stmt :=
  e ← g_lift (codegen_unimplemented intrinsic cbmc_ret_ty loc url); codegen_expr_to_place p e.

Definition codegen_write_bytes (i : Instance_) (fargs : list Expr) (p : Place) (loc : Location) :
    G Stmt :=
  args ← g_lift (args3 fargs);
  let '(dst, val, count) := (args : Expr * Expr * Expr) in
  t ← g_lift (type_at0 i);
  t ← monomorphize t;
  e ← g_lift (
    dst ← cast_to dst void_pointer;
    val ← cast_to val c_int;
    sz ← int_constant (Z.of_N (lay_size (layout_of t))) size_t;
    m ← mul_ count sz;
    builtin_call Memset [dst; val; m] loc);
  codegen_expr_to_place p e.

(** The operator of a right shift: arithmetic on signed operands *)
Definition shift_right (mm : MachineModel) (t : Type_) : Expr -> Expr -> outcome Expr :=
  if is_signed t mm then ashr else lshr.

(** ** The dispatch *)

Definition codegen_never_return_intrinsic (i : Instance_) (span : option Span) : G Stmt :=
  let intrinsic := symbol_name i in
  if String.eqb intrinsic "abort" then codegen_fatal_error "reached intrinsic::abort" span
  else if String.eqb intrinsic "transmute" then
    codegen_fatal_error "transmuting to uninhabited type" span
  else g_lift Panic.

(** The intrinsics that are not in one of the tables above *)
Definition codegen_other_intrinsic (intrinsic : string) (i : Instance_) (fargs : list Expr)
    (p : Place) (span : option Span) (loc : Location) (ret_ty : Ty) (cbmc_ret_ty : Type_) : G Stmt :=
  let named name := String.eqb intrinsic name in
  if named "add_with_overflow" then codegen_op_with_overflow add_overflow fargs p
  else if named "sub_with_overflow" then codegen_op_with_overflow sub_overflow fargs p
  else if named "mul_with_overflow" then codegen_op_with_overflow mul_overflow fargs p
  else if named "offset" || named "unchecked_add" then
    codegen_op_with_overflow_check add_overflow intrinsic fargs p loc
  else if named "unchecked_sub" then codegen_op_with_overflow_check sub_overflow intrinsic fargs p loc
  else if named "unchecked_mul" then codegen_op_with_overflow_check mul_overflow intrinsic fargs p loc
  else if named "simd_add" then
    codegen_simd_with_overflow_check plus_ add_overflow_p intrinsic fargs p loc
  else if named "simd_sub" then
    codegen_simd_with_overflow_check sub_ sub_overflow_p intrinsic fargs p loc
  else if named "simd_mul" then
    codegen_simd_with_overflow_check mul_ mul_overflow_p intrinsic fargs p loc
  else if named "assert_inhabited" then
    t ← g_lift (type_at0 i);
    match lay_abi (layout_of t) with
    | Uninhabited =>
        loc ← codegen_span_option span;
        g_lift (assert_false ("type is uninhabited: " +:+ ty_debug t) loc)
    | _ => mret (skip loc)
    end
  else if name_in ["assert_uninit_valid"; "assert_zero_valid"; "breakpoint"; "forget"] intrinsic
  then mret (skip loc)
  else if named "assume" then
    g_lift (a ← arg1 fargs; c ← cast_to a bool_; assert_ c "assumption failed" loc)
  else if name_in ["black_box"; "likely"; "unlikely"] intrinsic then intrinsic_unop Ok fargs p
  else if named "bswap" then intrinsic_unop bswap fargs p
  else if named "ctpop" then intrinsic_unop popcount fargs p
  else if named "ctlz" then intrinsic_unop (fun e => ctlz e true) fargs p
  else if named "ctlz_nonzero" then intrinsic_unop (fun e => ctlz e false) fargs p
  else if named "cttz" then intrinsic_unop (fun e => cttz e true) fargs p
  else if named "cttz_nonzero" then intrinsic_unop (fun e => cttz e false) fargs p
  else if named "unaligned_volatile_load" || named "volatile_load" then intrinsic_unop dereference fargs p
  else if named "caller_location" then
    codegen_unimplemented_intrinsic intrinsic cbmc_ret_ty loc
      "https://github.com/model-checking/rmc/issues/374" p
  else if named "try" then
    codegen_unimplemented_intrinsic intrinsic cbmc_ret_ty loc
      "https://github.com/model-checking/rmc/issues/267" p
  else if named "copy" || named "volatile_copy_memory" then codegen_intrinsic_copy Memmove i fargs p loc
  else if named "copy_nonoverlapping" || named "volatile_copy_nonoverlapping_memory" then
    codegen_intrinsic_copy Memcpy i fargs p loc
  else if named "discriminant_value" then
    t ← g_lift (type_at0 i);
    a ← g_lift (arg1 fargs);
    d ← g_lift (dereference a);
    e ← codegen_get_discriminant n d t ret_ty;
    codegen_expr_to_place p e
  else if named "exact_div" then codegen_exact_div fargs p loc
  else if name_in ["min_align_of"; "needs_drop"; "pref_align_of"; "size_of"; "type_id"; "type_name"]
            intrinsic then codegen_intrinsic_const i p span
  else if named "min_align_of_val" then codegen_size_align sa_align i fargs p
  else if named "size_of_val" then codegen_size_align sa_size i fargs p
  else if named "ptr_guaranteed_eq" then intrinsic_boolean_binop eq_ fargs p
  else if named "ptr_guaranteed_ne" then intrinsic_boolean_binop neq_ fargs p
  else if named "ptr_offset_from" then codegen_ptr_offset_from fargs p loc
  else if named "raw_eq" then codegen_intrinsic_raw_eq i fargs p loc
  else if named "saturating_add" then
    st ← g_table; intrinsic_binop (fun a b => saturating_add a b (machine_model st)) fargs p
  else if named "saturating_sub" then
    st ← g_table; intrinsic_binop (fun a b => saturating_sub a b (machine_model st)) fargs p
  else if named "simd_extract" then intrinsic_binop index_array fargs p
  else if named "simd_insert" then codegen_intrinsic_simd_insert fargs p cbmc_ret_ty loc
  else if named "simd_shr" then
    st ← g_table;
    a ← g_lift (arg1 fargs);
    t ← g_lift (unwrap (base_type (typ a)));
    intrinsic_binop (shift_right (machine_model st) t) fargs p
  else if named "unchecked_shr" then
    st ← g_table;
    a ← g_lift (arg1 fargs);
    intrinsic_binop (shift_right (machine_model st) (typ a)) fargs p
  else if named "transmute" then codegen_intrinsic_transmute fargs ret_ty p
  else if named "unreachable" then g_lift (assert_false "unreachable" loc)
  else if named "write_bytes" then codegen_write_bytes i fargs p loc
  else
    codegen_unimplemented_intrinsic intrinsic cbmc_ret_ty loc
      "https://github.com/model-checking/rmc/issues/new/choose" p.

(** [codegen_intrinsic] *)
Definition codegen_intrinsic (i : Instance_) (fargs : list Expr) (p : Place) (span : option Span) :
    G Stmt :=
  let intrinsic := symbol_name i in
  loc ← codegen_span_option span;
  sig ← g_lift (match instance_ty i with
                | FnDef def substs => Ok (fn_def_sig def substs)
                | FnPtr sig => Ok sig
                | _ => Panic
                end);
  ret_ty ← monomorphize (sig_output (normalize_sig sig));
  cbmc_ret_ty ← codegen_ty ret_ty;
  match strip_prefix "simd_shuffle" intrinsic with
  | Some stripped =>
      lanes ← g_lift (unwrap (parse_u64 stripped));
      codegen_intrinsic_simd_shuffle fargs p cbmc_ret_ty lanes
  | None =>
      match find_name simple_intrinsics intrinsic with
      | Some f => codegen_simple_intrinsic f fargs p loc
      | None =>
          match find_name binop_intrinsics intrinsic with
          | Some f => intrinsic_binop f fargs p
          | None =>
              match find_name atomic_binops intrinsic with
              | Some f => codegen_atomic_binop f fargs p span
              | None =>
                  if String.prefix "atomic_cxchg" intrinsic then codegen_atomic_cxchg fargs p loc
                  else if name_in atomic_loads intrinsic then codegen_atomic_load fargs p loc
                  else if name_in atomic_stores intrinsic then codegen_atomic_store fargs p loc
                  else if name_in atomic_fences intrinsic then mret (codegen_atomic_noop loc)
                  else codegen_other_intrinsic intrinsic i fargs p span loc ret_ty cbmc_ret_ty
              end
          end
      end
  end.
End IntrinsicGen.
