(* ===== verification/HookGen.v ===== *)
(** * Hooks ([overrides/hooks.rs])

    Calls of some functions are not translated as calls: a hook says which instances it
    applies to and what statement a call becomes.  The first hook of the list that applies
    is used. *)

From S2P Require Import Prelude CbmcString MachineModel Location Typ Ast SymbolTable Expr Symbol.
From S2P Require Import Builtin Stmt Env Restrictions Mir GotoCtx TypeGen MirTyping PlaceGen OperandGen.
From S2P Require Import ArithGen CastGen IntrinsicGen.

(** [trait GotocHook] *)
Record GotocHook := mkGotocHook {
  hook_applies : Instance_ -> outcome bool;
  handle : Instance_ -> list Expr -> option Place -> option BasicBlock -> option Span -> G Stmt;
}.

Section HookGen.
Context `{StrDebug, TyCtxt, MirCtxt, InternOrder}.
Context (n : nat).
#[local] Notation codegen_ty := (codegen_ty n).
#[local] Notation codegen_place := (codegen_place n).

(** [output_of_instance_is_never], [matches_function], [instance_name_starts_with] *)
Definition output_of_instance_is_never (i : Instance_) : outcome bool :=
  match instance_ty i with
  | Closure def substs => Ok (ty_is_never (sig_output (normalize_sig (closure_sig_of def substs))))
  | FnDef def substs => Ok (ty_is_never (sig_output (normalize_sig (fn_def_sig def substs))))
  | FnPtr sig => Ok (ty_is_never (sig_output (normalize_sig sig)))
  | Generator def substs => Ok (ty_is_never (generator_return_ty def substs))
  | _ => Panic
  end.
Definition matches_function (i : Instance_) (attr_name : string) : bool :=
  match diagnostic_item attr_name with
  | Some id => (instance_def_id i =? id)%N
  | None => false
  end.
Definition instance_name_starts_with (i : Instance_) (expected : string) : bool :=
  match def_path_last_name i with Some name => String.prefix expected name | None => false end.

(** [Stmt::goto(tcx.current_fn().find_label(&target), loc)] *)
Definition goto_label (target : BasicBlock) (loc : Location) : G Stmt :=
  l ← find_label target; g_lift (goto l loc).

Definition ExpectFail : GotocHook := mkGotocHook
  (fun i => Ok (instance_name_starts_with i "__VERIFIER_expect_fail"
                || matches_function i "RmcExpectFail"))
  (fun _ fargs _ target span =>
     g_lift (rassert (length fargs =? 2)%nat);;
     target ← g_lift (unwrap target);
     cond ← g_lift (a ← arg1 fargs; cast_to a bool_);
     loc ← codegen_span_option span;
     s ← g_lift (assert_ cond "EXPECTED FAIL" loc);
     g ← goto_label target loc;
     mret (block [s; g] loc)).

Definition Assume : GotocHook := mkGotocHook
  (fun i => Ok (instance_name_starts_with i "__VERIFIER_assume" || matches_function i "RmcAssume"))
  (fun _ fargs _ target span =>
     g_lift (rassert (length fargs =? 1)%nat);;
     cond ← g_lift (a ← arg1 fargs; cast_to a bool_);
     target ← g_lift (unwrap target);
     loc ← codegen_span_option span;
     s ← g_lift (assume cond loc);
     g ← goto_label target loc;
     mret (block [s; g] loc)).

Definition Nondet : GotocHook := mkGotocHook
  (fun i => Ok (instance_name_starts_with i "__nondet" || matches_function i "RmcAnyRaw"))
  (fun _ fargs assign_to target span =>
     g_lift (rassert (length fargs =? 0)%nat);;
     loc ← codegen_span_option span;
     p ← g_lift (unwrap assign_to);
     target ← g_lift (unwrap target);
     pt ← place_ty p;
     if ty_is_unit pt then goto_label target loc
     else
       pe ← codegen_place p;
       t ← codegen_ty pt;
       s ← g_lift (assign (goto_expr pe) (type_nondet t) loc);
       g ← goto_label target loc;
       mret (block [s; g] loc)).

Definition PanicHook : GotocHook := mkGotocHook
  (fun i => Ok (existsb (fun item => bool_decide (lang_item item = Some (instance_def_id i)))
                  ["panic"; "panic_display"; "panic_fmt"; "begin_panic"]))
  (fun _ fargs _ _ span => codegen_panic span fargs).

Definition Nevers : GotocHook := mkGotocHook
  output_of_instance_is_never
  (fun i _ _ _ span =>
     codegen_fatal_error ("a panicking function " +:+ def_path_str i +:+ " is invoked") span).

Definition IntrinsicHook : GotocHook := mkGotocHook
  (fun i => Ok (match inst_def i with Intrinsic => true | _ => false end))
  (fun i fargs assign_to target span =>
     match assign_to with
     | None => codegen_never_return_intrinsic i span
     | Some assign_to =>
         target ← g_lift (unwrap target);
         loc ← codegen_span_option span;
         s ← codegen_intrinsic n i fargs assign_to span;
         g ← goto_label target loc;
         mret (block [s; g] loc)
     end).

Definition MemReplace : GotocHook := mkGotocHook
  (fun i => Ok (name_in ["core::mem::replace"; "std::mem::replace"] (def_path_str i)))
  (fun _ fargs assign_to target span =>
     loc ← codegen_span_option span;
     p ← g_lift (unwrap assign_to);
     target ← g_lift (unwrap target);
     place_type ← place_ty p;
     if is_zst (layout_of place_type) then g ← goto_label target loc; mret (block [g] loc)
     else
       args ← g_lift (args2 fargs);
       let '(dest, src) := (args : Expr * Expr) in
       pe ← codegen_place p;
       s1 ← g_lift (d ← dereference dest; assign (goto_expr pe) (with_location d loc) loc);
       s2 ← g_lift (d ← dereference dest; assign d src loc);
       g ← goto_label target loc;
       mret (block [s1; s2; g] loc)).

Definition MemSwap : GotocHook := mkGotocHook
  (fun i => Ok (name_in ["core::mem::swap"; "std::mem::swap"; "core::ptr::swap"; "std::ptr::swap"]
                  (def_path_str i)))
  (fun i fargs _ target span =>
     t ← g_lift (type_at0 i);
     t ← monomorphize t;
     loc ← codegen_span_option span;
     target ← g_lift (unwrap target);
     args ← g_lift (args2 fargs);
     name ← ty_mangled_name t;
     let func_name := "gen-swap<" +:+ name +:+ ">" in
     g_ensure func_name (fun _ =>
       t ← codegen_ty t;
       x_param ← gen_function_local_variable 1 func_name (to_pointer t);
       y_param ← gen_function_local_variable 2 func_name (to_pointer t);
       var ← gen_function_local_variable 3 func_name t;
       let xe := to_expr x_param in
       let ye := to_expr y_param in
       body ← g_lift (
         x ← dereference xe;
         d ← decl (to_expr var) (Some x) Location.none;
         y ← dereference ye;
         a1 ← assign x y loc;
         a2 ← assign y (to_expr var) loc;
         Ok [d; a1; a2]);
       px ← g_lift (to_function_parameter x_param);
       py ← g_lift (to_function_parameter y_param);
       mret (function func_name (code [px; py] empty) (Some (block body loc)) None Location.none));;
     f ← find_function func_name;
     f ← g_lift (unwrap f);
     c ← g_lift (call f [args.1; args.2]);
     g ← goto_label target loc;
     mret (block [as_stmt c loc; g] loc)).

Definition PtrRead : GotocHook := mkGotocHook
  (fun i => Ok (name_in ["core::ptr::read"; "core::ptr::read_unaligned"; "core::ptr::read_volatile";
                         "std::ptr::read"; "std::ptr::read_unaligned"; "std::ptr::read_volatile"]
                  (def_path_str i)))
  (fun _ fargs assign_to target span =>
     loc ← codegen_span_option span;
     p ← g_lift (unwrap assign_to);
     target ← g_lift (unwrap target);
     src ← g_lift (arg1 fargs);
     pe ← codegen_place p;
     s ← g_lift (d ← dereference src; assign (goto_expr pe) (with_location d loc) loc);
     g ← goto_label target loc;
     mret (block [s; g] loc)).

Definition PtrWrite : GotocHook := mkGotocHook
  (fun i => Ok (name_in ["core::ptr::write"; "core::ptr::write_unaligned";
                         "core::ptr::write_volatile"; "std::ptr::write";
                         "std::ptr::write_unaligned"; "std::ptr::write_volatile"]
                  (def_path_str i)))
  (fun _ fargs _ target span =>
     loc ← codegen_span_option span;
     target ← g_lift (unwrap target);
     args ← g_lift (args2 fargs);
     s ← g_lift (d ← dereference args.1; assign d args.2 loc);
     g ← goto_label target loc;
     mret (block [stmt_with_location s loc; g] loc)).

(** [p = (u8 * )f(args)], then go on *)
Definition alloc_call (f : BuiltinFn) (args : list Expr) (p : Place) (loc : Location) : G Stmt :=
  pe ← codegen_place p;
  g_lift (c ← builtin_call f args loc;
          u8 ← unsigned_int 8;
          c ← cast_to c (to_pointer u8);
          assign (goto_expr pe) c loc).

Definition RustAlloc : GotocHook := mkGotocHook
  (fun i => Ok (String.eqb (tcx_symbol_name i) "__rust_alloc"
                || String.eqb (def_path_str i) "alloc::alloc::exchange_malloc"))
  (fun _ fargs assign_to target span =>
     loc ← codegen_span_option span;
     p ← g_lift (unwrap assign_to);
     target ← g_lift (unwrap target);
     size ← g_lift (arg1 fargs);
     s ← alloc_call Malloc [size] p loc;
     g ← goto_label target Location.none;
     mret (block [s; g] Location.none)).

Definition RustDealloc : GotocHook := mkGotocHook
  (fun i => Ok (String.eqb (tcx_symbol_name i) "__rust_dealloc"))
  (fun _ fargs _ target span =>
     loc ← codegen_span_option span;
     target ← g_lift (unwrap target);
     c ← g_lift (ptr ← arg1 fargs; ptr ← cast_to ptr void_pointer; builtin_call Free [ptr] loc);
     g ← goto_label target Location.none;
     mret (block [as_stmt c loc; g] loc)).

Definition RustRealloc : GotocHook := mkGotocHook
  (fun i => Ok (String.eqb (tcx_symbol_name i) "__rust_realloc"))
  (fun _ fargs assign_to target span =>
     loc ← codegen_span_option span;
     p ← g_lift (unwrap assign_to);
     target ← g_lift (unwrap target);
     match fargs with
     | ptr :: _ :: _ :: size :: _ =>
         ptr ← g_lift (cast_to ptr void_pointer);
         s ← alloc_call Realloc [ptr; size] p loc;
         g ← goto_label target loc;
         mret (block [s; g] loc)
     | _ => g_lift Panic
     end).

Definition RustAllocZeroed : GotocHook := mkGotocHook
  (fun i => Ok (String.eqb (tcx_symbol_name i) "__rust_alloc_zeroed"))
  (fun _ fargs assign_to target span =>
     loc ← codegen_span_option span;
     p ← g_lift (unwrap assign_to);
     target ← g_lift (unwrap target);
     size ← g_lift (arg1 fargs);
     one ← g_lift (one size_t);
     s ← alloc_call Calloc [one; size] p loc;
     g ← goto_label target loc;
     mret (block [s; g] loc)).

Definition SliceFromRawPart : GotocHook := mkGotocHook
  (fun i => Ok (name_in ["core::ptr::slice_from_raw_parts"; "std::ptr::slice_from_raw_parts";
                         "core::ptr::slice_from_raw_parts_mut"; "std::ptr::slice_from_raw_parts_mut"]
                  (def_path_str i)))
  (fun _ fargs assign_to target span =>
     loc ← codegen_span_option span;
     p ← g_lift (unwrap assign_to);
     target ← g_lift (unwrap target);
     pt ← place_ty p;
     pt ← codegen_ty pt;
     args ← g_lift (args2 fargs);
     pe ← codegen_place p;
     e ← g_with_table (struct_expr_from_values pt [args.1; args.2]);
     s ← g_lift (assign (goto_expr pe) e loc);
     g ← goto_label target loc;
     mret (block [stmt_with_location s loc; g] loc)).

(** [fn_hooks], [GotocHooks::hook_applies] *)
Definition fn_hooks : list GotocHook :=
  [PanicHook; Assume; ExpectFail; IntrinsicHook; MemReplace; MemSwap; Nevers; Nondet; PtrRead;
   PtrWrite; RustAlloc; RustAllocZeroed; RustDealloc; RustRealloc; SliceFromRawPart].

Fixpoint find_hook (hooks : list GotocHook) (i : Instance_) : outcome (option GotocHook) :=
  match hooks with
  | [] => Ok None
  | h :: hooks => b ← hook_applies h i; if b : bool then Ok (Some h) else find_hook hooks i
  end.
End HookGen.
