(* ===== verification/StmtGen.v ===== *)
(** * Statements, terminators and blocks ([codegen/statement.rs], [codegen/block.rs])

    A basic block becomes a sequence of statements of which the first carries the label of
    the block; terminators jump to labels. *)

From S2P Require Import Prelude CbmcString MachineModel Location Typ Ast SymbolTable Expr Symbol.
From S2P Require Import Builtin Stmt Env Restrictions Mir GotoCtx TypeGen MirTyping PlaceGen OperandGen.
From S2P Require Import ArithGen CastGen RvalueGen IntrinsicGen HookGen.

(** [str::replace("::", "_")] *)
Fixpoint replace_colons (s : string) : string :=
  match s with
  | String ":" (String ":" s) => String "_" (replace_colons s)
  | String c s => String c (replace_colons s)
  | EmptyString => EmptyString
  end.

Section StmtGen.
Context `{StrDebug, TyCtxt, MirCtxt, InternOrder}.
Context (n : nat).
#[local] Notation codegen_ty := (codegen_ty n).
#[local] Notation codegen_place := (codegen_place n).
#[local] Notation codegen_operand := (codegen_operand n).
#[local] Notation codegen_rvalue := (codegen_rvalue n).

(** ** Statements *)

(** [StatementKind::Assign] *)
Definition codegen_assign (l : Place) (r : Rvalue) : G Stmt :=
  lty ← place_ty l;
  rty ← rvalue_ty r;
  if is_zst (layout_of lty) then mret (skip Location.none)
  else
    p ← codegen_place l;
    e ← codegen_rvalue r;
    g_lift (
      e ← (if ty_is_fn_ptr lty && ty_is_fn rty && negb (ty_is_fn_ptr rty) then address_of e
           else if ty_is_bool rty then cast_to e c_bool
           else Ok e);
      assign (goto_expr p) e Location.none).

(** The value that marks a variant in the niche: [variant_index - start + niche_start],
    wrapping in 128 bits *)
Definition niche_value (variant_index start niche_start : N) : outcome N :=
  v ← u64_sub variant_index start; Ok ((v + niche_start) mod 2 ^ 128)%N.
Definition niche_value_expr (tag : Primitive) (discr_ty : Type_) (v : N) : outcome Expr :=
  match tag with
  | PrimPointer => if (v =? 0)%N then null discr_ty else int_constant (Z.of_N v) discr_ty
  | _ => int_constant (Z.of_N v) discr_ty
  end.

(** [StatementKind::SetDiscriminant] *)
Definition codegen_set_discriminant (place : Place) (variant_index : N) : G Stmt :=
  pt ← place_ty place;
  match pt with
  | Generator _ _ =>
      e ← g_lift (codegen_unimplemented "ty::Generator" (code [] empty) Location.none
                    "https://github.com/model-checking/rmc/issues/416");
      mret (as_stmt e Location.none)
  | Adt def _ =>
      let layout := layout_of pt in
      match lay_variants layout with
      | Single _ => mret (skip Location.none)
      | Multiple tag Direct _ _ =>
          let discr := adt_discriminant_for_variant def variant_index in
          discr_t ← g_lift (codegen_enum_discr_typ pt);
          g ← codegen_ty discr_t;
          d ← g_lift (int_constant (Z.of_N discr) g);
          p ← codegen_place place;
          m ← g_with_table (member (goto_expr p) "case");
          g_lift (assign m d Location.none)
      | Multiple tag (Niche dataful_variant start _ niche_start) _ _ =>
          if negb (dataful_variant =? variant_index)%N then
            offset ← g_lift (match lay_fields layout with
                             | ShapeArbitrary offsets _ => unwrap (head offsets)
                             | _ => Panic
                             end);
            discr_ty ← g_lift (codegen_enum_discr_typ pt);
            discr_ty ← codegen_ty discr_ty;
            v ← g_lift (niche_value variant_index start niche_start);
            value ← g_lift (niche_value_expr tag discr_ty v);
            p ← codegen_place place;
            g_lift (niche ← codegen_get_niche (goto_expr p) offset discr_ty;
                    assign niche value Location.none)
          else mret (skip Location.none)
      end
  | _ => g_lift Panic
  end.

(** [StatementKind::CopyNonOverlapping] *)
Definition codegen_copy_nonoverlapping (src dst count : Operand) : G Stmt :=
  src ← codegen_operand src;
  src ← g_lift (cast_to src void_pointer);
  dst ← codegen_operand dst;
  count ← codegen_operand count;
  g_with_table (fun st =>
    base ← unwrap (base_type (typ dst));
    sz ← sizeof base st;
    sz ← int_constant (Z.of_N sz) size_t;
    n ← mul_ sz count;
    dst ← cast_to dst void_pointer;
    e ← builtin_call Memcpy [dst; src; n] Location.none;
    z ← is_zero n;
    nz ← not_ z;
    if_then_else nz (as_stmt e Location.none) None Location.none).

(** [codegen_statement] *)
Definition codegen_statement_kind (k : StatementKind) : G Stmt :=
  match k with
  | Assign l r => codegen_assign l r
  | SetDiscriminant place variant_index => codegen_set_discriminant place variant_index
  | LlvmInlineAsm =>
      e ← g_lift (codegen_unimplemented "InlineAsm" empty Location.none
                    "https://github.com/model-checking/rmc/issues/2");
      mret (as_stmt e Location.none)
  | CopyNonOverlapping src dst count => codegen_copy_nonoverlapping src dst count
  | StorageLive _ | StorageDead _ | FakeRead | Retag | AscribeUserType | Nop | Coverage =>
      mret (skip Location.none)
  end.
(** A [SetDiscriminant] of a generator returns before the location is set. *)
Definition returns_early (k : StatementKind) : G bool :=
  match k with
  | SetDiscriminant place _ =>
      pt ← place_ty place; mret (match pt with Generator _ _ => true | _ => false end)
  | _ => mret false
  end.
Definition codegen_statement (s : Statement) : G Stmt :=
  early ← returns_early (stmt_kind s);
  code ← codegen_statement_kind (stmt_kind s);
  if early : bool then mret code
  else loc ← codegen_span (stmt_span s); mret (stmt_with_location code loc).

(** ** Calls *)

(** [codegen_untuple_closure_args]: the last argument is a tuple of the others *)
Definition codegen_untuple_closure_args (fargs : list Expr) (last_mir_arg : option Operand) :
    G (list Expr) :=
  match last fargs with
  | None => mret fargs
  | Some tupe =>
      o ← g_lift (unwrap last_mir_arg);
      t ← operand_ty o;
      tupled_args ← (match t with Tuple ts => g_map codegen_ty ts | _ => g_lift Panic end);
      st ← g_table;
      params ← g_lift (map_outcome (fun i => member tupe (pretty (N.of_nat i)) st)
                         (seq 0 (length tupled_args)));
      mret (removelast fargs ++ params)
  end.

(** [self.virtual_call_with_restricted_fn_ptr] *)
Definition g_virtual_call (trait_ty : Type_) (idx : N) (fn_ptr : Expr) (args : list Expr) : G Expr :=
  c ← g_get;
  g_lift (rassert (emit_vtable_restrictions (gcx_vtable_ctx c)));;
  g_lift (rassert (is_struct_tag trait_ty));;
  tg ← g_lift (unwrap (tag trait_ty));
  t ← g_lift (unwrap (type_map c !! tg));
  mir_name ← normalized_trait_name t;
  g_wrapper (virtual_call_with_restricted_fn_ptr (replace_colons (gcx_full_crate_name c)) mir_name
               trait_ty idx fn_ptr args).

(** A virtual call, restricted if the restrictions are wanted *)
Definition call_virtual (trait_ty : Type_) (idx : N) (fn_ptr : Expr) (args : list Expr) : G Expr :=
  c ← g_get;
  if emit_vtable_restrictions (gcx_vtable_ctx c) then g_virtual_call trait_ty idx fn_ptr args
  else g_lift (f ← dereference fn_ptr; call f args).

(** [codegen_virtual_funcall] *)
Definition codegen_virtual_funcall (trait_fat_ptr : Expr) (idx : N) (place : Place)
    (fargs : list Expr) (loc : Location) : G (list Stmt) :=
  let field := vtable_field_name idx in
  fn_ptr ← g_with_table (fun st =>
    vtable_ref ← member trait_fat_ptr "vtable" st;
    vtable ← dereference vtable_ref;
    member vtable field st);
  data ← g_with_table (member trait_fat_ptr "data");
  let fargs := <[0 := data]> fargs in
  assert_nonnull ← g_lift (
    c ← is_nonnull fn_ptr;
    assert_ c ("Non-null virtual function call for " +:+ str_debug field) loc);
  call ← call_virtual (typ trait_fat_ptr) idx fn_ptr fargs;
  s ← codegen_expr_to_place n place call;
  mret [assert_nonnull; stmt_with_location s loc].

(** The arguments of a call: functions are left out, booleans are made C booleans. *)
Fixpoint codegen_call_args (args : list Operand) : G (list Expr) :=
  match args with
  | [] => mret []
  | o :: args =>
      ot ← operand_ty o;
      if ignore_var_ty ot then codegen_call_args args
      else
        e ← codegen_operand o;
        e ← g_lift (if ty_is_bool ot then cast_to e c_bool else Ok e);
        rest ← codegen_call_args args;
        mret (e :: rest)
  end.

(** [codegen_funcall] *)
Definition codegen_funcall (func : Operand) (args : list Operand)
    (destination : option (Place * BasicBlock)) (span : Span) : G Stmt :=
  loc ← codegen_span span;
  funct ← operand_ty func;
  fargs ← codegen_call_args args;
  match funct with
  | FnDef defid subst =>
      instance ← g_lift (unwrap (resolve_instance defid subst));
      untuple ← g_lift (ty_needs_closure_untupled funct);
      fargs ← (if untuple : bool then codegen_untuple_closure_args fargs (last args)
               else mret fargs);
      hook ← g_lift (find_hook (fn_hooks n) instance);
      match hook with
      | Some hk =>
          handle hk instance fargs (fst <$> destination) (snd <$> destination) (Some span)
      | None =>
          match destination with
          | None =>
              g_lift (assert_false ("reach some nonterminating function: " +:+ operand_debug func) loc)
          | Some (p, target) =>
              match inst_def instance with
              | DropGlue None => goto_label target Location.none
              | Virtual _ idx =>
                  trait_fat_ptr ← g_lift (unwrap (head fargs));
                  b ← g_with_table (is_rust_trait_fat_ptr (typ trait_fat_ptr));
                  g_lift (rassert b);;
                  stmts ← codegen_virtual_funcall trait_fat_ptr idx p fargs loc;
                  g ← goto_label target loc;
                  mret (block (stmts ++ [g]) loc)
              | _ =>
                  func_exp ← codegen_operand func;
                  c ← g_lift (call func_exp fargs);
                  s ← codegen_expr_to_place n p c;
                  g ← goto_label target loc;
                  mret (block [stmt_with_location s loc; g] loc)
              end
          end
      end
  | FnPtr _ =>
      d ← g_lift (unwrap destination);
      let '(p, target) := (d : Place * BasicBlock) in
      func_exp ← codegen_operand func;
      c ← g_lift (f ← dereference func_exp; call f fargs);
      s ← codegen_expr_to_place n p c;
      g ← goto_label target loc;
      mret (block [stmt_with_location s loc; g] loc)
  | _ => g_lift Panic
  end.

(** ** Terminators *)

Definition codegen_ret_unit : G Stmt :=
  t ← codegen_ty_unit;
  var ← ensure_global_var FN_RETURN_VOID_VAR_NAME false t Location.none (fun _ => mret None);
  mret (ret (Some var) Location.none).

Definition RETURN_PLACE : Place := mkPlace 0%N [].

(** [codegen_switch_int]: [labels()[bb.index()]] is [find_label]. *)
Definition codegen_switch_int (discr : Operand) (switch_ty : Ty) (targets : SwitchTargets) : G Stmt :=
  v ← codegen_operand discr;
  switch_ty ← monomorphize switch_ty;
  if (length (all_targets targets) =? 1)%nat then
    first_target ← g_lift (unwrap (head (switch_iter targets)));
    g ← codegen_ty switch_ty;
    c ← g_lift (k ← int_constant (Z.of_N first_target.1) g; eq_ v k);
    t ← goto_label first_target.2 Location.none;
    i ← g_lift (if_then_else c t None Location.none);
    o ← g_lift (otherwise targets);
    e ← goto_label o Location.none;
    mret (block [i; e] Location.none)
  else
    g_lift (rassert (1 <? length (all_targets targets))%nat);;
    cases ← g_map (fun cb =>
                     g ← codegen_ty switch_ty;
                     k ← g_lift (int_constant (Z.of_N cb.1) g);
                     s ← goto_label cb.2 Location.none;
                     mret (switch_case k s)) (switch_iter targets);
    o ← g_lift (otherwise targets);
    d ← goto_label o Location.none;
    g_lift (switch v cases (Some d) Location.none).

(** The call that drops a value *)
Definition codegen_drop_call (place : Place) (t : Ty) (drop_instance : Instance_) : G Stmt :=
  match t with
  | Dynamic _ =>
      projection ← codegen_place place;
      trait_fat_ptr ← g_lift (unwrap (fat_ptr_goto_expr projection));
      fn_ptr ← g_with_table (fun st =>
        vtable_ref ← member trait_fat_ptr "vtable" st;
        vtable ← dereference vtable_ref;
        member vtable "drop" st);
      self_ref ← g_with_table (fun st =>
        d ← member trait_fat_ptr "data" st; cast_to d (to_pointer (typ trait_fat_ptr)));
      c ← call_virtual (typ trait_fat_ptr) drop_index fn_ptr [self_ref];
      mret (as_stmt c Location.none)
  | _ =>
      g_lift (rassert (match inst_def drop_instance with Virtual _ _ => false | _ => true end));;
      func ← codegen_func_expr n drop_instance None;
      projection ← codegen_place place;
      arg ← g_lift (match fat_ptr_goto_expr projection with
                    | Some fat_ptr => Ok fat_ptr
                    | None => address_of (goto_expr projection)
                    end);
      e ← g_lift (
        ok ← typecheck_call func [arg];
        if ok : bool then call func [arg]
        else
          rt ← unwrap (return_type (typ func));
          codegen_unimplemented ("drop_in_place call for " +:+ expr_debug func) rt
            Location.none "https://github.com/model-checking/rmc/issues/426");
      mret (as_stmt e Location.none)
  end.

(** [codegen_drop] *)
Definition codegen_drop (place : Place) (target : BasicBlock) : G Stmt :=
  loc_ty ← place_ty place;
  let drop_instance := resolve_drop_in_place loc_ty in
  hook ← g_lift (find_hook (fn_hooks n) drop_instance);
  match hook with
  | Some hk =>
      le ← codegen_place place;
      handle hk drop_instance [goto_expr le] None (Some target) None
  | None =>
      drop_implementation ← (match inst_def drop_instance with
                             | DropGlue None => mret (skip Location.none)
                             | _ => codegen_drop_call place loc_ty drop_instance
                             end);
      g ← goto_label target Location.none;
      mret (block [drop_implementation; g] Location.none)
  end.

(** [codegen_terminator] *)
Definition codegen_terminator (term : Terminator) : G Stmt :=
  loc ← codegen_span (term_span term);
  match term_kind term with
  | Goto target => goto_label target loc
  | SwitchInt discr switch_ty targets => codegen_switch_int discr switch_ty targets
  | Resume => g_lift (assert_false "resume instruction" loc)
  | Abort => g_lift (assert_false "abort instruction" loc)
  | Return =>
      f ← current_fn;
      sig ← g_lift (unwrap (fn_sig f));
      if ty_is_unit (sig_output sig) then codegen_ret_unit
      else
        v ← codegen_place RETURN_PLACE;
        t ← place_ty RETURN_PLACE;
        e ← g_lift (if ty_is_bool t then cast_to (goto_expr v) c_bool else Ok (goto_expr v));
        mret (ret (Some e) loc)
  | Unreachable =>
      g_lift (s1 ← assert_false "unreachable code" loc;
              s2 ← assume bool_false loc;
              Ok (block [s1; s2] loc))
  | Drop place target => codegen_drop place target
  | DropAndReplace _ _ _ => g_lift Panic
  | Call func args destination => codegen_funcall func args destination (term_span term)
  | MirAssert cond expected msg target =>
      r ← codegen_operand cond;
      c ← g_lift (c ← (if expected : bool then Ok r else not_ r); cast_to c bool_);
      t ← goto_label target loc;
      i ← g_lift (if_then_else c t None loc);
      a ← g_lift (assert_false msg loc);
      g ← goto_label target loc;
      mret (block [i; a; g] loc)
  | Yield | GeneratorDrop | FalseEdge | FalseUnwind => g_lift Panic
  | InlineAsm =>
      e ← g_lift (codegen_unimplemented "InlineAsm" empty loc
                    "https://github.com/model-checking/rmc/issues/2");
      mret (as_stmt e loc)
  end.

(** ** Blocks ([block.rs]) *)

Fixpoint codegen_rest (ss : list Statement) : G unit :=
  match ss with
  | [] => mret tt
  | s :: ss => c ← codegen_statement s; push_onto_block c;; codegen_rest ss
  end.

Definition codegen_block (bb : BasicBlock) (bbd : BasicBlockData) : G unit :=
  set_current_bb bb;;
  label ← find_label bb;
  (match statements bbd with
   | [] =>
       tcode ← codegen_terminator (terminator bbd);
       s ← g_lift (with_label tcode label);
       push_onto_block s
   | stmt :: rest =>
       scode ← codegen_statement stmt;
       s ← g_lift (with_label scode label);
       push_onto_block s;;
       codegen_rest rest;;
       term ← codegen_terminator (terminator bbd);
       push_onto_block term
   end);;
  reset_current_bb.
End StmtGen.
