(* ===== verification/FunctionGen.v ===== *)
(** * Functions, statics and crates
    ([codegen/function.rs], [codegen/static_var.rs], [codegen/typ.rs], [compiler_interface.rs])

    Every function of a crate is first declared, then its body is translated: the prelude of
    a function whose last argument is spread, the declarations of the locals, and the blocks
    one after the other. *)

From S2P Require Import Prelude CbmcString MachineModel Location Typ Ast SymbolTable Expr Symbol.
From S2P Require Import Builtin Stmt Env Restrictions Mir GotoCtx TypeGen MirTyping PlaceGen OperandGen.
From S2P Require Import ArithGen CastGen RvalueGen IntrinsicGen HookGen StmtGen.

(** [str::ends_with], [str::contains] *)
Fixpoint ends_with (suffix s : string) : bool :=
  String.eqb suffix s || match s with String _ s => ends_with suffix s | EmptyString => false end.
Fixpoint str_contains (part s : string) : bool :=
  String.prefix part s || match s with String _ s => str_contains part s | EmptyString => false end.

(** The functions that are not translated *)
Definition should_skip (readable_name : string) : bool :=
  String.eqb readable_name "fmt::ArgumentV1::<'a>::as_usize"
  || ends_with "__getit" readable_name
  || String.prefix "bridge::client" readable_name
  || String.eqb readable_name "bridge::closure::Closure::<'a, A, R>::call"
  || String.prefix "<std::future::from_generator::GenFuture<T>" readable_name
  || str_contains "reusable_box::ReusableBoxFuture" readable_name
  || String.eqb readable_name "tokio::sync::Semaphore::acquire_owned::{closure#0}".

(** [rmctool_attr_name] *)
Definition rmctool_attr_name (path : list string) : option string :=
  match path with
  | [tool; name] => if String.eqb tool "rmctool" then Some name else None
  | _ => None
  end.

(** The first parameter of a vtable shim is a pointer. *)
Definition shim_params (def : InstanceDef) (params : list Parameter_) : outcome (list Parameter_) :=
  match def, params with
  | VtableShim, p :: rest =>
      q ← as_parameter (to_pointer (parameter_typ p)) (parameter_identifier p)
            (parameter_identifier p);
      Ok (q :: rest)
  | _, _ => Ok params
  end.

(** [enum MonoItem] *)
Inductive MonoItem := MonoFn (i : Instance_) | MonoStatic (def : N) | GlobalAsm.

Section FunctionGen.
Context `{StrDebug, TyCtxt, MirCtxt, InternOrder}.
Context (n : nat).
#[local] Notation codegen_ty := (codegen_ty n).

(** [GotocCtx::set_current_fn] with [CurrentFnCtx::new] *)
Definition enter_fn (i : Instance_) : G unit :=
  sig ← fn_sig_of_instance i;
  set_current_fn (current_fn_new i (instance_mir i) (symbol_name i) (readable_instance_name i) sig).

(** ** The type of the current function ([fn_typ]) *)

(** The parameters, numbered from the local [i] on *)
Fixpoint fn_params (spread : option Local) (i : N) (inputs : list Ty) : G (list Parameter_) :=
  match inputs with
  | [] => mret []
  | t :: inputs =>
      if ignore_var_ty t then fn_params spread (i + 1)%N inputs
      else
        ident ← codegen_var_name i;
        ident ← (match spread with
                 | Some s =>
                     if (s <=? i)%N then nb ← codegen_spread_arg_name i; mret nb.1 else mret ident
                 | None => mret ident
                 end);
        g ← codegen_ty t;
        p ← g_lift (as_parameter g (Some ident) (Some ident));
        rest ← fn_params spread (i + 1)%N inputs;
        mret (p :: rest)
  end.

Definition fn_typ : G Type_ :=
  f ← current_fn;
  sig ← g_lift (unwrap (fn_sig f));
  let sig := normalize_sig sig in
  params ← fn_params (spread_arg (fn_mir f)) 1%N (sig_inputs sig);
  params ← g_lift (shim_params (inst_def (fn_instance f)) params);
  output ← codegen_ty (sig_output sig);
  mret (if sig_c_variadic sig then variadic_code params output else code params output).

(** ** Declarations *)

(** The body of the loop of [codegen_declare_variables] *)
Definition declare_local (mir : Body) (lc : Local) (ldata : LocalDecl) : G unit :=
  if bool_decide (spread_arg mir = Some lc) then mret tt
  else
    base_name ← codegen_var_base_name lc;
    name ← codegen_var_name lc;
    t ← monomorphize (decl_ty ldata);
    t ← codegen_ty t;
    loc ← codegen_span (local_span ldata);
    let sym := variable name base_name t loc in
    g_update (fun st => insert st sym);;
    if (lc <? 1)%N || (N.of_nat (arg_count mir) <? lc)%N then
      d ← g_lift (decl (to_expr sym) None loc); push_onto_block d
    else mret tt.

Fixpoint declare_locals (mir : Body) (lc : Local) (ldecls : list LocalDecl) : G unit :=
  match ldecls with
  | [] => mret tt
  | d :: ldecls => declare_local mir lc d;; declare_locals mir (lc + 1)%N ldecls
  end.

Definition codegen_declare_variables : G unit :=
  f ← current_fn; declare_locals (fn_mir f) 0%N (local_decls (fn_mir f)).

(** The variables of the spread arguments, and the fields of the tuple they make *)
Fixpoint spread_fields (starting_idx : nat) (loc : Location) (arg_i : nat) (args : list Ty) :
    G (list (InternedString * Expr)) :=
  match args with
  | [] => mret []
  | arg_t :: args =>
      nb ← codegen_spread_arg_name (N.of_nat (arg_i + starting_idx));
      g ← codegen_ty arg_t;
      let sym := variable nb.1 nb.2 g loc in
      g_update (fun st => insert st sym);;
      rest ← spread_fields starting_idx loc (S arg_i) args;
      mret ((pretty (N.of_nat arg_i), to_expr sym) :: rest)
  end.

(** [codegen_function_prelude] *)
Definition codegen_function_prelude : G unit :=
  f ← current_fn;
  let mir := fn_mir f in
  match spread_arg mir with
  | None => mret tt
  | Some spread_arg =>
      spread_data ← g_lift (unwrap (local_decls mir !! N.to_nat spread_arg));
      loc ← codegen_span (local_span spread_data);
      sig ← g_lift (match instance_ty (fn_instance f) with
                    | FnPtr sig => Ok sig
                    | FnDef def substs => Ok (fn_def_sig def substs)
                    | _ => Panic
                    end);
      t ← monomorphize (decl_ty spread_data);
      tup_typ ← codegen_ty t;
      tupe ← g_lift (unwrap (last (sig_inputs sig)));
      args ← g_lift (match tupe with Tuple args => Ok args | _ => Panic end);
      fields ← spread_fields (length (sig_inputs sig)) loc 0 args;
      e ← g_with_table (struct_expr tup_typ (list_to_map (reverse fields)));
      name ← codegen_var_name spread_arg;
      base_name ← codegen_var_base_name spread_arg;
      declare_variable name base_name tup_typ (Some (with_location e loc)) loc;;
      mret tt
  end.

(** ** Harnesses *)

Definition push_harness (h : HarnessMetadata) : G unit := fun c =>
  Done (Ok (tt, mkGotocCtx (gcx_table c) (gcx_full_crate_name c) (global_var_count c)
                  (gcx_vtable_ctx c) (gcx_current_fn c) (type_map c) (alloc_map c)
                  (proof_harnesses c ++ [h]))).

Definition handle_rmctool_proof : G unit :=
  f ← current_fn;
  loc ← codegen_span (body_span (fn_mir f));
  file ← g_lift (unwrap (filename loc));
  l ← g_lift (unwrap (line loc));
  push_harness (mkHarnessMetadata (fn_readable_name f) (fn_name f) file (pretty l)).

Fixpoint handle_attrs (paths : list (list string)) : G unit :=
  match paths with
  | [] => mret tt
  | p :: paths =>
      (match rmctool_attr_name p with
       | Some name => if String.eqb name "proof" then handle_rmctool_proof else mret tt
       | None => mret tt
       end);;
      handle_attrs paths
  end.
Definition handle_rmctool_attributes : G unit :=
  f ← current_fn; handle_attrs (attr_paths (fn_instance f)).

(** ** Functions *)

Fixpoint codegen_blocks (bb : BasicBlock) (blocks : list BasicBlockData) : G unit :=
  match blocks with
  | [] => mret tt
  | bbd :: blocks => codegen_block n bb bbd;; codegen_blocks (bb + 1)%N blocks
  end.

(** The labels of a body, one for each block *)
Definition block_labels (mir : Body) : list string :=
  map (fun i => bb_debug (N.of_nat i)) (seq 0 (length (basic_blocks mir))).

(** The translation of a body: labels, prelude, locals, blocks *)
Definition codegen_body : G (list Stmt) :=
  f ← current_fn;
  let mir := fn_mir f in
  set_labels (block_labels mir);;
  codegen_function_prelude;;
  codegen_declare_variables;;
  codegen_blocks 0%N (basic_blocks mir);;
  extract_block.

(** [codegen_function] *)
Definition codegen_function (i : Instance_) : G unit :=
  enter_fn i;;
  f ← current_fn;
  let name := fn_name f in
  st ← g_table;
  old_sym ← g_lift (unwrap (lookup st name));
  (if is_function_definition old_sym then mret tt
   else if should_skip (fn_readable_name f) then
     loc ← codegen_span (body_span (fn_mir f));
     body ← g_lift (assert_false ("The function " +:+ fn_readable_name f
                                  +:+ " is not currently supported by RMC") loc);
     g_update (fun st => update_fn_declaration_with_definition st name body)
   else
     g_lift (rassert (is_function old_sym));;
     stmts ← codegen_body;
     loc ← codegen_span (body_span (fn_mir f));
     g_update (fun st => update_fn_declaration_with_definition st name (block stmts loc));;
     handle_rmctool_attributes);;
  reset_current_fn.

(** [declare_function] *)
Definition declare_function (i : Instance_) : G unit :=
  enter_fn i;;
  f ← current_fn;
  g_ensure (fn_name f) (fun fname =>
    t ← fn_typ;
    loc ← codegen_span (body_span (fn_mir f));
    mret (function fname t None (Some (fn_readable_name f)) loc));;
  reset_current_fn.

(** ** Statics ([static_var.rs]) *)

Definition codegen_static (def : N) : G unit :=
  alloc ← g_lift (unwrap (eval_static_initializer def));
  let name := static_symbol_name def in
  codegen_allocation (codegen_alloc_pointer n n) alloc (mret name) (Some name);;
  mret tt.

Definition declare_static (def : N) : G unit :=
  let name := static_symbol_name def in
  t ← codegen_ty (type_of def);
  loc ← codegen_span (def_span def);
  g_update (fun st => insert st (static_variable name name t loc)).

(** ** Crates ([compiler_interface.rs]): everything is declared before anything is defined *)

Definition declare_item (item : MonoItem) : G unit :=
  match item with
  | MonoFn i => declare_function i
  | MonoStatic def => declare_static def
  | GlobalAsm => mret tt
  end.
Definition codegen_item (item : MonoItem) : G unit :=
  match item with
  | MonoFn i => codegen_function i
  | MonoStatic def => codegen_static def
  | GlobalAsm => mret tt
  end.
Fixpoint g_iter {A} (f : A -> G unit) (l : list A) : G unit :=
  match l with [] => mret tt | a :: l => f a;; g_iter f l end.
Definition codegen_items (items : list MonoItem) : G unit :=
  g_iter declare_item items;; g_iter codegen_item items.
End FunctionGen.
