(* ===== verification/GenSample.v ===== *)
(** * A small crate

    [fn step(x: u8) -> u8 { match x { 0 => 1, 5 => x + 1, _ => x } }] and a [main] that calls
    it, as the compiler gives them: what it says about their types and its MIR.  The examples
    of the files that follow run the generator on it. *)

From S2P Require Import Prelude CbmcString MachineModel Location Typ Ast SymbolTable Expr Symbol.
From S2P Require Import Builtin Stmt Env Restrictions Mir GotoCtx TypeGen MirTyping PlaceGen OperandGen.
From S2P Require Import ArithGen CastGen RvalueGen IntrinsicGen HookGen StmtGen FunctionGen.
From S2P Require Import Built.

Definition u8_ty : Ty := Uint U8.
Definition unit_ty : Ty := Tuple [].
Definition pair_ty : Ty := Tuple [u8_ty; Bool].
Definition main_instance : Instance_ := mkInstance 0 Item [].
Definition step_instance : Instance_ := mkInstance 1 Item [].

Definition crate_layout (t : Ty) : Layout :=
  match t with
  | Uint U8 | Bool => mkLayout ShapePrimitive (Single 0) (Scalar (PrimInt Int8 false)) 1 1
  | Tuple [] => mkLayout (ShapeArbitrary [] []) (Single 0) (Aggregate true) 1 0
  | Tuple _ => mkLayout (ShapeArbitrary [0; 1]%N [0; 1]) (Single 0) (Aggregate true) 1 2
  | _ => mkLayout ShapePrimitive (Single 0) (Aggregate true) 1 0
  end.

#[export] Instance crate_tcx : TyCtxt := {|
  adt_def _ := mkAdtDef AdtStruct [] false false false false;
  field_ty _ _ := Never;
  layout_of := crate_layout;
  type_id_hash t := match t with Tuple ts => N.of_nat (length ts) | _ => 100%N end;
  print_type t := match t with Tuple [] => "()" | _ => "(u8, bool)" end;
  fn_def_sig d _ := match d with
                    | 0%N => mkFnSig [] unit_ty false false
                    | _ => mkFnSig [u8_ty] u8_ty false false
                    end;
  instance_ty i := FnDef (inst_id i) [];
  closure_sig_of _ _ := mkFnSig [] Never false false;
  closure_env_ty _ _ := Never;
  closure_upvar_tys _ _ := [];
  generator_upvar_tys _ _ := [];
  generator_return_ty _ _ := Never;
  normalize_erasing_regions t := t;
  normalize_sig s := s;
  subst_ty _ t := t;
  subst_sig _ s := s;
  ty_is_sized _ := true;
  ptr_metadata_ty _ := Tuple [];
  vtable_entries _ := None;
|}.

(** *** The bodies *)

Definition local (l : Local) : Place := mkPlace l [].
Definition u8_const (k : N) : Operand :=
  Constant (mkMirConstant 0%N (CkVal (CScalar (ScalarInt k 1)) u8_ty)).
Definition at0 (k : StatementKind) : Statement := mkStatement k 0%N.
Definition bb (ss : list StatementKind) (t : TerminatorKind) : BasicBlockData :=
  mkBasicBlockData (map at0 ss) (mkTerminator t 0%N).

Definition step_targets : SwitchTargets := mkSwitchTargets [0; 5]%N [1; 2; 3]%N.
Definition step_mir : Body :=
  mkBody
    [bb [] (SwitchInt (Copy (local 1%N)) u8_ty step_targets);
     bb [Assign (local 0%N) (Use (u8_const 1))] (Goto 4%N);
     bb [Assign (local 2%N) (CheckedBinaryOp Add (Copy (local 1%N)) (u8_const 1))]
        (MirAssert (Move (mkPlace 2%N [ProjField 1 Bool])) false "attempt to add with overflow" 5%N);
     bb [Assign (local 0%N) (Use (Copy (local 1%N)))] (Goto 4%N);
     bb [] Return;
     bb [Assign (local 0%N) (Use (Move (mkPlace 2%N [ProjField 0 u8_ty])))] (Goto 4%N)]
    [mkLocalDecl u8_ty 0%N; mkLocalDecl u8_ty 0%N; mkLocalDecl pair_ty 0%N]
    1 None [mkVarDebugInfo "x" (DebugPlace (local 1%N))] 0%N.

Definition main_mir : Body :=
  mkBody
    [bb [StorageLive 1%N]
        (Call (Constant (mkMirConstant 0%N (CkVal (CScalar (ScalarInt 0 0)) (FnDef 1 []))))
           [u8_const 3] (Some (local 1%N, 1%N)));
     bb [StorageDead 1%N] Return]
    [mkLocalDecl unit_ty 0%N; mkLocalDecl u8_ty 0%N] 0 None [] 0%N.

Definition plain_name (i : Instance_) : string :=
  match inst_id i with 0%N => "main" | _ => "step" end.

#[export] Instance crate_mir : MirCtxt := {|
  lookup_char_pos _ := ("lib.rs", 1%N, 0%N);
  expansion_cause _ := None;
  type_of _ := Never;
  def_span _ := 0%N;
  is_mutable_static _ := false;
  is_foreign_item _ := false;
  mk_box t := t;
  discriminant_ty t := t;
  adt_discriminant_for_variant _ v := v;
  instance_def_id i := inst_id i;
  def_path_last_name i := Some (plain_name i);
  diagnostic_item _ := None;
  lang_item _ := None;
  tcx_symbol_name i := plain_name i;
  def_path_str i := plain_name i;
  resolve_instance d ts := Some (mkInstance d Item ts);
  resolve_drop_in_place t := mkInstance 9 (DropGlue None) [t];
  polymorphize i := i;
  instance_mono d := mkInstance d Item [];
  instance_mir i := match inst_id i with 0%N => main_mir | _ => step_mir end;
  layout_field_ty t _ := t;
  static_is_extern _ := false;
  vtable_entries_for _ _ := None;
  subst_const _ c := c;
  subst_constant _ c := c;
  const_eval_resolve _ := None;
  const_eval_instance _ := None;
  global_alloc _ := AllocStatic 0;
  eval_static_initializer _ := None;
  static_symbol_name _ := "";
  attr_paths i := match inst_id i with 0%N => [["rmctool"; "proof"]; ["no_mangle"]] | _ => [] end;
  pointer_size := 8;
  big_endian_target := false;
  expr_debug _ := "";
  operand_debug _ := "";
  ty_debug _ := "";
  alloc_id_debug _ := "";
|}.

(** *** The run *)

Definition crate_items : list MonoItem := [MonoFn main_instance; MonoFn step_instance].
Definition crate_ctx : outcome GotocCtx := goto_ctx_new x86_64 "sample" false.
Definition crate_start : GotocCtx :=
  match crate_ctx with Ok c => c | Panic => sample_ctx end.
Definition crate_run : fuelled (unit * GotocCtx) := codegen_items 8 crate_items crate_start.

