(* ===== verification/GenInvariant.v ===== *)
(** * What the whole generator keeps

    Every operation of the code generator that makes an expression or a statement changes
    the symbol table only by the operations of the table, leaves no type half-defined and
    stays in the function that is being compiled ([settles], from [GotoCtx.v]).  The lemmas
    follow the definitions one by one; the theorems are about the translation of a body and
    of a whole crate. *)

From S2P Require Import Prelude CbmcString MachineModel Location Typ Ast SymbolTable Expr Symbol.
From S2P Require Import Builtin Stmt Env Restrictions Mir GotoCtx TypeGen MirTyping PlaceGen OperandGen.
From S2P Require Import ArithGen CastGen RvalueGen IntrinsicGen HookGen StmtGen FunctionGen.

(** The symbol a program makes is not a type that is still open. *)
Definition closed_symbol (m : G Symbol) : Prop :=
  forall c s c', m c = Done (Ok (s, c')) -> is_open s = false.

Lemma closed_ret s : is_open s = false -> closed_symbol (mret s).
Proof. by intros Hs c ? ? [= <- <-]. Qed.
Lemma closed_bind {A} (m : G A) (f : A -> G Symbol) :
  (forall a, closed_symbol (f a)) -> closed_symbol (mbind f m).
Proof. intros Hf c s c' (a & c1 & _ & H)%g_bind_ok. by eapply Hf. Qed.

Lemma settles_ensure_closed foreign name f :
  (forall n, settles foreign (f n)) -> (forall n, closed_symbol (f n)) ->
  settles foreign (g_ensure name f).
Proof. intros Hf Hc. apply settles_ensure; [done|]. intros c s c' Hrun. left. by eapply Hc. Qed.

(** One step of the derivation that a program settles, by its outermost construct *)
Ltac settles1 :=
  match goal with
  | |- settles _ (mret _) => apply settles_ret
  | |- settles _ (g_lift _) => apply settles_lift
  | |- settles _ (mbind _ _) => apply settles_bind; [|intros ?]
  | |- settles _ (ensure_struct _ _ _) => apply settles_ensure_struct; intros ?
  | |- settles _ (ensure_union _ _ _) => apply settles_ensure_union; intros ?
  | |- settles _ (g_ensure _ _) => apply settles_ensure_closed; intros ?
  | |- settles _ (g_map _ _) => apply settles_map; intros ? _
  | |- settles _ (match ?x with _ => _ end) => destruct x
  | |- closed_symbol (mret _) => apply closed_ret; reflexivity
  | |- closed_symbol (mbind _ _) => apply closed_bind; intros ?
  end.
Ltac settles := repeat first [ progress cbn beta iota zeta | settles1 | solve [eauto with settles] ].

Section Settle.
Context `{StrDebug, TyCtxt, MirCtxt, InternOrder}.
#[local] Notation S := (settles foreign_tag).

(** ** The primitives *)

Lemma settled_fn c f k : gcx_current_fn c = Some f ->
  settled foreign_tag c (set_fn c (Some (with_counter f k))).
Proof.
  intros Hf. unfold settled. cbn. rewrite Hf. split; [by exists k|]. split; [done|]. auto.
Qed.

Lemma settles_counter : S get_and_incr_counter.
Proof.
  intros c a c' Hrun. unfold get_and_incr_counter in Hrun. g_inv.
  by apply settled_fn.
Qed.

Lemma settles_put s : is_open s = false -> S (g_update (fun st => insert st s)).
Proof. intros Hs. apply (settles_insert _ (fun _ => s)). auto. Qed.

Lemma settles_with_table {A} (f : SymbolTable -> outcome A) : S (g_with_table f).
Proof. unfold g_with_table. settles. Qed.

Lemma settles_readable_name : S g_readable_name.
Proof. intros c a c' [= <- <-]. by apply settled_refl. Qed.

Lemma settles_next_global_name : S next_global_name.
Proof.
  intros c a c'. unfold next_global_name. destruct (u64_add _ _); [|done]. intros [= <- <-].
  by apply settled_refl.
Qed.

Lemma settles_vtable tn k imp : S (g_vtable (add_possible_method tn k imp)).
Proof.
  intros c a c'. unfold g_vtable, add_possible_method.
  destruct (emit_vtable_restrictions _) eqn:E; [|done]. intros [= <- <-]. by apply settled_refl.
Qed.

Lemma settles_alloc_map_insert a nm : S (alloc_map_insert a nm).
Proof. intros c x c' [= <- <-]. by apply settled_refl. Qed.
Lemma settles_alloc_map_get a : S (alloc_map_get a).
Proof. intros c x c' [= <- <-]. by apply settled_refl. Qed.

Lemma settles_size_align m t e : S (g_size_align m t e).
Proof.
  intros c a c'. unfold g_size_align. destruct (size_and_align_of_dst _ _ _ _) as [[r|]|]; [|done|done].
  intros [= <- <-]. by apply settled_refl.
Qed.

Hint Resolve settles_counter settles_put settles_with_table settles_readable_name
  settles_next_global_name settles_vtable settles_alloc_map_insert settles_alloc_map_get
  settles_size_align settles_instance settles_monomorphize settles_monomorphize_sig
  settles_use_thin_pointer settles_pretty settles_mangled settles_trait_name settles_vtable_name
  settles_instance_sig codegen_ty_settles_aux settles_nested_pair : settles.

(** ** The context *)

Lemma settles_stack_variable k f p t l : S (gen_stack_variable k f p t l).
Proof. unfold gen_stack_variable. settles. Qed.
Hint Resolve settles_stack_variable : settles.
Lemma settles_local_variable k f t : S (gen_function_local_variable k f t).
Proof. unfold gen_function_local_variable. settles. Qed.
Lemma settles_temp_variable t l : S (gen_temp_variable t l).
Proof. unfold gen_temp_variable. settles. Qed.
Lemma settles_var_name l : S (codegen_var_name l).
Proof. unfold codegen_var_name. settles. Qed.
Lemma settles_var_base_name l : S (codegen_var_base_name l).
Proof. unfold codegen_var_base_name. settles. Qed.
Lemma settles_spread_arg_name l : S (codegen_spread_arg_name l).
Proof. unfold codegen_spread_arg_name. settles. Qed.
Lemma settles_find_label l : S (find_label l).
Proof. unfold find_label. settles. Qed.
Lemma settles_find_function l : S (find_function l).
Proof. unfold find_function. settles. Qed.
Lemma settles_register_initializer nm b : S (register_initializer nm b).
Proof. unfold register_initializer. settles. Qed.
Hint Resolve settles_local_variable settles_temp_variable settles_var_name settles_var_base_name
  settles_spread_arg_name settles_find_label settles_find_function settles_register_initializer
  : settles.

Lemma settles_global_var nm b t l f : (forall e, S (f e)) -> S (ensure_global_var nm b t l f).
Proof. intros Hf. unfold ensure_global_var. settles. Qed.

Lemma settled_parameters c w i ps params st :
  declare_parameters w i ps (gcx_table c) = Ok (params, st) ->
  settled foreign_tag c (set_table c st).
Proof.
  revert i c params st. induction ps as [|p ps IH]; intros i c params st Hd; cbn in Hd; outcome_inv.
  - by apply settled_refl.
  - match goal with x : list Symbol * SymbolTable |- _ => destruct x as [ps' st'] end. cbn in *.
    eapply settled_trans; [eapply settled_insert; [done|by left]|].
    by eapply (IH _ (set_table c a)).
Qed.

Lemma settles_wrapper cn mn t k e args :
  S (g_wrapper (virtual_call_with_restricted_fn_ptr cn mn t k e args)).
Proof.
  intros c a c'. unfold g_wrapper.
  destruct (virtual_call_with_restricted_fn_ptr _ _ _ _ _ _ _) as [[a' w]|] eqn:E; [|done].
  intros [= <- <-]. unfold virtual_call_with_restricted_fn_ptr in E. cbn -[insert] in E. outcome_inv.
  match goal with x : list Symbol * SymbolTable |- _ => destruct x as [ps st] end. cbn in *.
  eapply (settled_trans _ _ (set_table c st)); [by eapply settled_parameters|].
  eapply settled_trans; [eapply (settled_insert _ (set_table c st)); [done|by left]|].
  apply settled_refl; [done|done|]. unfold restricts, add_call_site in *. outcome_inv. cbn. congruence.
Qed.
Hint Resolve settles_wrapper : settles.

(** ** Places *)

Context (n : nat).

Lemma settles_fn_sig t : S (codegen_function_sig (codegen_ty n) t).
Proof. apply settles_sig. auto with settles. Qed.
Lemma settles_drop_type t : S (trait_vtable_drop_type (codegen_ty n) t).
Proof. unfold trait_vtable_drop_type. settles. Qed.
Lemma settles_raw_array t : S (codegen_ty_raw_array (codegen_ty n) t).
Proof. unfold codegen_ty_raw_array. settles. Qed.
Lemma settles_ty_unit : S codegen_ty_unit.
Proof. unfold codegen_ty_unit. settles. Qed.
Lemma settles_is_unsized t : S (ty_is_unsized t).
Proof. unfold ty_is_unsized. settles. Qed.
Hint Resolve settles_fn_sig settles_drop_type settles_raw_array settles_ty_unit settles_is_unsized
  : settles.
Lemma settles_ref_of_unsized t : S (is_ref_of_unsized t).
Proof. unfold is_ref_of_unsized. settles. Qed.
Lemma settles_ref_of_sized t : S (is_ref_of_sized t).
Proof. unfold is_ref_of_sized. settles. Qed.
Lemma settles_box_of_unsized t : S (is_box_of_unsized t).
Proof. unfold is_box_of_unsized. settles. Qed.
Hint Resolve settles_ref_of_unsized settles_ref_of_sized settles_box_of_unsized : settles.
Lemma settles_vtable_fat_pointer t : S (is_vtable_fat_pointer t).
Proof. unfold is_vtable_fat_pointer. settles. Qed.
Lemma settles_decls : S fn_decls.
Proof. unfold fn_decls. settles. Qed.
Hint Resolve settles_vtable_fat_pointer settles_decls : settles.
Lemma settles_local_ty l : S (local_ty l).
Proof. unfold local_ty. settles. Qed.
Lemma settles_place_ty l : S (place_ty l).
Proof. unfold place_ty. settles. Qed.
Lemma settles_operand_ty l : S (operand_ty l).
Proof. unfold operand_ty. settles. Qed.
Lemma settles_rvalue_ty l : S (rvalue_ty l).
Proof. unfold rvalue_ty. settles. Qed.
Lemma settles_span sp : S (codegen_span sp).
Proof. unfold codegen_span. settles. Qed.
Hint Resolve settles_local_ty settles_place_ty settles_operand_ty settles_rvalue_ty settles_span
  : settles.
Lemma settles_span_option sp : S (codegen_span_option sp).
Proof. unfold codegen_span_option. settles. Qed.
Lemma settles_caller_span sp : S (codegen_caller_span sp).
Proof. unfold codegen_caller_span. settles. Qed.
Hint Resolve settles_span_option settles_caller_span : settles.

Lemma settles_func_expr i sp : S (codegen_func_expr n i sp).
Proof. unfold codegen_func_expr. settles. Qed.
Hint Resolve settles_func_expr : settles.
Lemma settles_fndef d ts sp : S (codegen_fndef n d ts sp).
Proof. unfold codegen_fndef. settles. Qed.
Hint Resolve settles_fndef : settles.
Lemma settles_projected_place e t o p : S (projected_place_new n e t o p).
Proof.
  unfold projected_place_new, monomorphize_tv, check_expr_typ_mismatch, check_fat_ptr_typ. settles.
Qed.
Hint Resolve settles_projected_place : settles.
Lemma settles_field e t f : S (codegen_field e t f).
Proof. unfold codegen_field. settles. Qed.

Lemma settles_local_fndef t : S (codegen_local_fndef n t).
Proof.
  revert t. fix IH 1. intros t. destruct t; cbn [codegen_local_fndef]; settles.
Qed.
Hint Resolve settles_field settles_local_fndef : settles.
Lemma settles_local l : S (codegen_local n l).
Proof. unfold codegen_local. settles. Qed.
Lemma settles_idx_array a i : S (codegen_idx_array a i).
Proof. unfold codegen_idx_array. settles. Qed.
Hint Resolve settles_local settles_idx_array : settles.
Lemma settles_projection b p : S (codegen_projection n b p).
Proof.
  unfold codegen_projection. destruct p; unfold codegen_deref, codegen_constant_index,
    codegen_subslice, codegen_downcast; settles.
Qed.
Hint Resolve settles_projection : settles.
Lemma settles_projections ps b : S (codegen_projections n b ps).
Proof. revert b. induction ps as [|p ps IH]; intros b; cbn; settles. Qed.
Hint Resolve settles_projections : settles.
Lemma settles_place p : S (codegen_place n p).
Proof. unfold codegen_place. settles. Qed.
Hint Resolve settles_place : settles.

(** ** Operands *)

Definition alloc_settles (ap : Type_ -> AllocId -> N -> option Span -> G Expr) : Prop :=
  forall t id o sp, S (ap t id o sp).

Lemma settles_data_loop ap a z relocs : alloc_settles ap ->
  forall k, S (alloc_data_loop ap a z k relocs).
Proof.
  intros Hap. induction relocs as [|[o id] relocs IH]; intros k; cbn [alloc_data_loop];
    [settles|]. pose proof (Hap : forall t id o sp, S (ap t id o sp)). settles.
Qed.

Lemma settles_alloc_data ap a : alloc_settles ap -> S (codegen_allocation_data ap a).
Proof. intros Hap. unfold codegen_allocation_data. pose proof (settles_data_loop ap). settles. Qed.

Lemma settles_alloc_in_memory ap a nm : alloc_settles ap -> S (codegen_alloc_in_memory ap a nm).
Proof.
  intros Hap. pose proof (fun a => settles_alloc_data ap a Hap). unfold codegen_alloc_in_memory.
  settles. apply settles_global_var. intros. settles.
Qed.

Lemma settles_immutable_allocation ap a nm :
  alloc_settles ap -> S (codegen_immutable_allocation ap a nm).
Proof.
  intros Hap. pose proof (fun a nm => settles_alloc_in_memory ap a nm Hap).
  unfold codegen_immutable_allocation. settles.
Qed.

Lemma settles_allocation ap a m nm :
  alloc_settles ap -> S m -> S (codegen_allocation ap a m nm).
Proof.
  intros Hap Hm. pose proof (fun a nm => settles_alloc_in_memory ap a nm Hap).
  pose proof (fun a nm => settles_immutable_allocation ap a nm Hap). unfold codegen_allocation.
  settles.
Qed.

Lemma settles_alloc_pointer k : alloc_settles (codegen_alloc_pointer n k).
Proof.
  induction k as [|k IH]; intros t id o sp; cbn [codegen_alloc_pointer]; [intros ? ? ? [=]|].
  unfold alloc_pointer_body. pose proof (fun a m nm => settles_allocation _ a m nm IH).
  settles.
Qed.
Hint Resolve settles_alloc_pointer : settles.
Lemma settles_direct_literal t e : S (codegen_direct_literal n t e).
Proof. unfold codegen_direct_literal. settles. Qed.
Lemma settles_niche_init_name t : S (codegen_niche_init_name t).
Proof. unfold codegen_niche_init_name. settles. Qed.
Hint Resolve settles_direct_literal settles_niche_init_name : settles.
Lemma settles_niche_literal t o e : S (codegen_niche_literal n t o e).
Proof. unfold codegen_niche_literal. settles. Qed.
Hint Resolve settles_niche_literal : settles.

Definition scalar_settles (sc : Scalar_ -> Ty -> option Span -> G Expr) : Prop :=
  forall s t sp, S (sc s t sp).

Lemma settles_single_field sc s sp g f : scalar_settles sc ->
  S (codegen_single_variant_single_field sc s sp g f).
Proof. intros Hsc. unfold codegen_single_variant_single_field. settles. Qed.

Lemma settles_adt_scalar sc s t d ts sp : scalar_settles sc ->
  S (codegen_adt_scalar n sc s t d ts sp).
Proof.
  intros Hsc. pose proof (fun s sp g f => settles_single_field sc s sp g f Hsc).
  unfold codegen_adt_scalar. settles.
Qed.

Lemma settles_scalar k : scalar_settles (codegen_scalar n k).
Proof.
  induction k as [|k IH]; intros s t sp; cbn [codegen_scalar]; [intros ? ? ? [=]|].
  pose proof (fun s sp g f => settles_single_field _ s sp g f IH).
  pose proof (fun s t d ts sp => settles_adt_scalar _ s t d ts sp IH).
  unfold scalar_body. settles; apply settles_alloc_pointer.
Qed.
Lemma settles_scalar_ k s t sp : S (codegen_scalar n k s t sp).
Proof. apply settles_scalar. Qed.
Hint Resolve settles_scalar_ : settles.

Lemma settles_slice_value t a i j : S (codegen_slice_value n t a i j).
Proof. unfold codegen_slice_value. settles. Qed.
Hint Resolve settles_slice_value : settles.
Lemma settles_const_value v t sp : S (codegen_const_value n v t sp).
Proof.
  unfold codegen_const_value. settles.
  apply settles_allocation; [apply settles_alloc_pointer | apply settles_next_global_name].
Qed.
Hint Resolve settles_const_value : settles.
Lemma settles_const c sp : S (codegen_const n c sp).
Proof. unfold codegen_const. settles. Qed.
Hint Resolve settles_const : settles.
Lemma settles_constant c : S (codegen_constant n c).
Proof. unfold codegen_constant. settles. Qed.
Hint Resolve settles_constant : settles.
Lemma settles_operand o : S (codegen_operand n o).
Proof. unfold codegen_operand. settles. Qed.
Hint Resolve settles_operand : settles.

(** ** Rvalues *)

Lemma settles_comparison op e1 e2 : S (codegen_comparison n op e1 e2).
Proof. unfold codegen_comparison. settles. Qed.
Lemma settles_unchecked_binop op e1 e2 : S (codegen_unchecked_scalar_binop n op e1 e2).
Proof. unfold codegen_unchecked_scalar_binop. settles. Qed.
Lemma settles_scalar_binop op e1 e2 : S (codegen_scalar_binop n op e1 e2).
Proof. unfold codegen_scalar_binop. settles. Qed.
Lemma settles_checked_binop op e1 e2 t : S (codegen_rvalue_checked_binary_op n op e1 e2 t).
Proof. unfold codegen_rvalue_checked_binary_op. settles. Qed.
Lemma settles_unary_op op e : S (codegen_rvalue_unary_op n op e).
Proof. unfold codegen_rvalue_unary_op. settles. Qed.
Lemma settles_get_discriminant e t r : S (codegen_get_discriminant n e t r).
Proof. unfold codegen_get_discriminant. settles. Qed.
Hint Resolve settles_comparison settles_unchecked_binop settles_scalar_binop settles_checked_binop settles_unary_op settles_get_discriminant : settles.
Lemma settles_binary_op op e1 e2 : S (codegen_rvalue_binary_op n op e1 e2).
Proof. unfold codegen_rvalue_binary_op. settles. Qed.
Lemma settles_fat_to_fat o t : S (codegen_fat_ptr_to_fat_ptr_cast n o t).
Proof. unfold codegen_fat_ptr_to_fat_ptr_cast. settles. Qed.
Lemma settles_fat_to_thin o t : S (codegen_fat_ptr_to_thin_ptr_cast n o t).
Proof. unfold codegen_fat_ptr_to_thin_ptr_cast. settles. Qed.
Lemma settles_cast_operand o t : S (cast_operand n o t).
Proof. unfold cast_operand. settles. Qed.
Hint Resolve settles_binary_op settles_fat_to_fat settles_fat_to_thin settles_cast_operand : settles.
Lemma settles_misc_cast o t : S (codegen_misc_cast n o t).
Proof. unfold codegen_misc_cast. settles. Qed.
Lemma settles_vtable_method i t k : S (codegen_vtable_method_field i t k).
Proof. unfold codegen_vtable_method_field. settles. Qed.
Lemma settles_vtable_drop t u : S (codegen_vtable_drop_in_place n t u).
Proof. unfold codegen_vtable_drop_in_place. settles. Qed.
Lemma settles_vtable_size t e : S (check_vtable_size n t e).
Proof. unfold check_vtable_size. settles. Qed.
Hint Resolve settles_misc_cast settles_vtable_method settles_vtable_drop settles_vtable_size : settles.
Lemma settles_vtable_fields t u sz al es : forall k, S (vtable_fields n t u sz al k es).
Proof. induction es as [|e es IH]; intros k; cbn [vtable_fields]; settles. Qed.
Hint Resolve settles_vtable_fields : settles.
Lemma settles_codegen_vtable t u : S (codegen_vtable n t u).
Proof. unfold codegen_vtable. settles. apply settles_global_var. intros e. settles. Qed.
Hint Resolve settles_codegen_vtable : settles.
Lemma settles_dyn_to_dyn e t u : S (cast_unsized_dyn_trait_to_unsized_dyn_trait n e t u).
Proof. unfold cast_unsized_dyn_trait_to_unsized_dyn_trait. settles. Qed.
Lemma settles_to_slice e t u v : S (cast_sized_pointer_to_slice_fat_pointer n e t u v).
Proof. unfold cast_sized_pointer_to_slice_fat_pointer. settles. Qed.
Lemma settles_to_trait e t u v : S (cast_sized_pointer_to_trait_fat_pointer n e t u v).
Proof. unfold cast_sized_pointer_to_trait_fat_pointer. settles. Qed.
Hint Resolve settles_dyn_to_dyn settles_to_slice settles_to_trait : settles.
Lemma settles_to_fat e t u : S (cast_sized_pointer_to_fat_pointer n e t u).
Proof. unfold cast_sized_pointer_to_fat_pointer. settles. Qed.
Hint Resolve settles_to_fat : settles.
Lemma settles_unsize k : forall e t u, S (cast_to_unsized_expr n k e t u).
Proof.
  induction k as [|k IH]; intros e t u; cbn [cast_to_unsized_expr]; [intros ? ? ? [=]|].
  unfold unsize_body, cast_sized_expr_to_unsized_expr, cast_sized_adt_to_unsized_adt, cast_field.
  settles.
Qed.
Hint Resolve settles_unsize : settles.
Lemma settles_pointer_cast k o t : S (codegen_pointer_cast n k o t).
Proof. unfold codegen_pointer_cast. settles. Qed.
Lemma settles_rvalue_ref p t : S (codegen_rvalue_ref n p t).
Proof. unfold codegen_rvalue_ref. settles. Qed.
Lemma settles_rvalue_repeat o k t : S (codegen_rvalue_repeat n o k t).
Proof. unfold codegen_rvalue_repeat. settles. Qed.
Lemma settles_rvalue_len p : S (codegen_rvalue_len n p).
Proof. unfold codegen_rvalue_len. settles. Qed.
Hint Resolve settles_pointer_cast settles_rvalue_ref settles_rvalue_repeat settles_rvalue_len : settles.
Lemma settles_tuple_operands os : S (tuple_operands n os).
Proof. induction os; cbn [tuple_operands]; settles. Qed.
Hint Resolve settles_tuple_operands : settles.
Lemma settles_aggregate k os t : S (codegen_rvalue_aggregate n k os t).
Proof. unfold codegen_rvalue_aggregate. settles. Qed.
Hint Resolve settles_aggregate : settles.
Lemma settles_rvalue r : S (codegen_rvalue n r).
Proof. unfold codegen_rvalue. settles. Qed.
Hint Resolve settles_rvalue : settles.
End Settle.

#[export] Hint Resolve
  settles_counter settles_with_table settles_readable_name settles_next_global_name
  settles_vtable settles_alloc_map_insert settles_alloc_map_get settles_size_align
  settles_stack_variable settles_local_variable settles_temp_variable settles_var_name
  settles_var_base_name settles_spread_arg_name settles_find_label settles_find_function
  settles_register_initializer settles_wrapper settles_fn_sig settles_drop_type
  settles_raw_array settles_ty_unit settles_is_unsized settles_ref_of_unsized
  settles_ref_of_sized settles_box_of_unsized settles_vtable_fat_pointer settles_decls
  settles_local_ty settles_place_ty settles_operand_ty settles_rvalue_ty settles_span
  settles_span_option settles_caller_span settles_func_expr settles_fndef
  settles_projected_place settles_field settles_local_fndef settles_local settles_idx_array
  settles_projection settles_projections settles_place settles_direct_literal
  settles_niche_init_name settles_niche_literal settles_scalar_ settles_slice_value
  settles_const_value settles_const settles_constant settles_operand settles_comparison
  settles_unchecked_binop settles_scalar_binop settles_checked_binop settles_unary_op
  settles_get_discriminant settles_binary_op settles_fat_to_fat settles_fat_to_thin
  settles_cast_operand settles_misc_cast settles_vtable_method settles_vtable_drop
  settles_vtable_size settles_vtable_fields settles_codegen_vtable settles_dyn_to_dyn
  settles_to_slice settles_to_trait settles_to_fat settles_unsize settles_pointer_cast
  settles_rvalue_ref settles_rvalue_repeat settles_rvalue_len settles_tuple_operands
  settles_aggregate settles_rvalue settles_put settles_instance settles_monomorphize
  settles_monomorphize_sig settles_use_thin_pointer settles_pretty settles_mangled
  settles_trait_name settles_vtable_name settles_instance_sig codegen_ty_settles_aux
  settles_nested_pair : settles.
