(* ===== verification/GenControl.v ===== *)
(** * The control flow of the code that is generated

    Every statement and terminator of MIR becomes a goto statement that carries no label of
    its own and only jumps to labels of the function that is being compiled; a block adds its
    own label to its first statement.  A translated body therefore has the labels of its
    blocks, each once, and no jump that leads nowhere. *)

From S2P Require Import Prelude CbmcString MachineModel Location Typ Ast SymbolTable Expr Symbol.
From S2P Require Import Builtin Stmt Env Restrictions Mir GotoCtx TypeGen MirTyping PlaceGen OperandGen.
From S2P Require Import ArithGen CastGen RvalueGen IntrinsicGen HookGen StmtGen FunctionGen GenInvariant.
From S2P Require Import Built GenSample.

(** ** Labels and jumps of a statement

    Statements inside expressions are not looked at: the only statement expression that the
    generator makes ([codegen_unimplemented]) holds an assertion, an assumption and an
    expression, without labels or jumps. *)

Fixpoint stmt_gotos (s : Stmt) : list InternedString :=
  match s with mkStmt b _ => body_gotos b end
with body_gotos (b : StmtBody) : list InternedString :=
  match b with
  | SGoto l => [l]
  | SAtomicBlock ss | SBlock ss => concat (map stmt_gotos ss)
  | SFor i _ u b => stmt_gotos i ++ stmt_gotos u ++ stmt_gotos b
  | SIfthenelse _ t e => stmt_gotos t ++ match e with Some e => stmt_gotos e | None => [] end
  | SLabel _ s | SWhile _ s => stmt_gotos s
  | SSwitch _ cases d =>
      concat (map case_gotos cases) ++ match d with Some d => stmt_gotos d | None => [] end
  | _ => []
  end
with case_gotos (c : SwitchCase) : list InternedString :=
  match c with mkSwitchCase _ s => stmt_gotos s end.

Fixpoint stmt_labels (s : Stmt) : list InternedString :=
  match s with mkStmt b _ => body_labels b end
with body_labels (b : StmtBody) : list InternedString :=
  match b with
  | SLabel l s => l :: stmt_labels s
  | SAtomicBlock ss | SBlock ss => concat (map stmt_labels ss)
  | SFor i _ u b => stmt_labels i ++ stmt_labels u ++ stmt_labels b
  | SIfthenelse _ t e => stmt_labels t ++ match e with Some e => stmt_labels e | None => [] end
  | SWhile _ s => stmt_labels s
  | SSwitch _ cases d =>
      concat (map case_labels cases) ++ match d with Some d => stmt_labels d | None => [] end
  | _ => []
  end
with case_labels (c : SwitchCase) : list InternedString :=
  match c with mkSwitchCase _ s => stmt_labels s end.

(** A statement without labels whose jumps lead to [ls] *)
Definition flow (ls : list InternedString) (s : Stmt) : Prop :=
  stmt_labels s = [] /\ Forall (.∈ ls) (stmt_gotos s).
Definition case_flow (ls : list InternedString) (c : SwitchCase) : Prop := flow ls (case_body c).

Lemma concat_flow {A} (labels gotos : A -> list InternedString) (ls : list InternedString) (l : list A) :
  Forall (fun a => labels a = [] /\ Forall (.∈ ls) (gotos a)) l ->
  concat (map labels l) = [] /\ Forall (.∈ ls) (concat (map gotos l)).
Proof.
  induction 1 as [|a l [Hl Hg] _ [IHl IHg]]; [done|]. cbn. rewrite Hl, IHl.
  split; [done|]. by apply Forall_app.
Qed.

Section Flow.
Context (ls : list InternedString).

Lemma flow_block ss loc : Forall (flow ls) ss -> flow ls (block ss loc).
Proof. apply (concat_flow stmt_labels stmt_gotos). Qed.
Lemma flow_atomic ss loc : Forall (flow ls) ss -> flow ls (atomic_block ss loc).
Proof. apply (concat_flow stmt_labels stmt_gotos). Qed.
Lemma flow_skip loc : flow ls (skip loc).
Proof. by split. Qed.
Lemma flow_ret e loc : flow ls (ret e loc).
Proof. by split. Qed.
Lemma flow_as_stmt e loc : flow ls (as_stmt e loc).
Proof. by split. Qed.
Lemma flow_with_location s loc : flow ls s -> flow ls (stmt_with_location s loc).
Proof. by destruct s. Qed.
Lemma flow_noop loc : flow ls (codegen_atomic_noop loc).
Proof. by split. Qed.

(** What an operation that may panic gives *)
Definition gives {A} (P : A -> Prop) (m : outcome A) : Prop := forall a, m = Ok a -> P a.

Lemma gives_ok {A} (P : A -> Prop) a : P a -> gives P (Ok a).
Proof. by intros HP b [= <-]. Qed.
Lemma gives_panic {A} (P : A -> Prop) : gives P Panic.
Proof. by intros b. Qed.
Lemma gives_bind {A B} (P : B -> Prop) (Q : A -> Prop) (m : outcome A) (f : A -> outcome B) :
  gives Q m -> (forall a, Q a -> gives P (f a)) -> gives P (mbind f m).
Proof. intros Hm Hf b Hb. outcome_inv. by eapply Hf; [eapply Hm|]. Qed.
Lemma gives_any {A} (m : outcome A) : gives (fun _ => True) m.
Proof. done. Qed.

Lemma gives_assert c m loc : gives (flow ls) (assert_ c m loc).
Proof. intros s Hs. unfold assert_ in Hs. outcome_inv. by split. Qed.
Lemma gives_assert_false m loc : gives (flow ls) (assert_false m loc).
Proof. apply gives_assert. Qed.
Lemma gives_assume c loc : gives (flow ls) (assume c loc).
Proof. intros s Hs. unfold assume in Hs. outcome_inv. by split. Qed.
Lemma gives_assign `{StrDebug} l r loc : gives (flow ls) (assign l r loc).
Proof.
  unfold assign. destruct (negb _); [|apply gives_ok; by split].
  eapply gives_bind; [apply gives_assert|]. intros s Hs. apply gives_ok, flow_block.
  repeat constructor; by try apply Hs.
Qed.
Lemma gives_decl l v loc : gives (flow ls) (decl l v loc).
Proof. intros s Hs. unfold decl in Hs. outcome_inv. by split. Qed.
Lemma gives_if c t e loc :
  flow ls t -> (forall s, e = Some s -> flow ls s) -> gives (flow ls) (if_then_else c t e loc).
Proof.
  intros [Ht Ht'] He s Hs. unfold if_then_else in Hs. outcome_inv. unfold flow. cbn.
  destruct e as [e|]; [destruct (He e eq_refl) as [-> He2]|]; rewrite Ht; split; try done;
    apply Forall_app; auto.
Qed.
Lemma gives_switch c cases d loc :
  Forall (case_flow ls) cases -> flow ls d -> gives (flow ls) (switch c cases (Some d) loc).
Proof.
  intros Hc [Hd Hd'] s Hs. unfold switch in Hs. outcome_inv. unfold flow. cbn. rewrite Hd.
  destruct (concat_flow case_labels case_gotos ls cases) as [-> Hg].
  { eapply Forall_impl; [exact Hc|]. by intros [k b] ?. }
  split; [done|]. by apply Forall_app.
Qed.
End Flow.

Create HintDb flow.
#[export] Hint Resolve flow_block flow_atomic flow_skip flow_ret flow_as_stmt flow_with_location
  flow_noop gives_assert gives_assert_false gives_assume gives_assign gives_decl gives_any : flow.

(** ** Programs that give such statements *)

Definition fn_labels_of (c : GotocCtx) : list string :=
  match gcx_current_fn c with Some f => fn_labels f | None => [] end.

(** Run in a function with the labels [ls], the program settles and gives a value with [P]. *)
Definition emits `{TyCtxt} (ls : list string) {A} (P : A -> Prop) (m : G A) : Prop :=
  forall c a c', fn_labels_of c = ls -> m c = Done (Ok (a, c')) -> settled foreign_tag c c' /\ P a.

Lemma same_fn_labels foreign c c' : settled foreign c c' -> fn_labels_of c' = fn_labels_of c.
Proof.
  unfold fn_labels_of. intros (Hf & _). destruct (gcx_current_fn c), (gcx_current_fn c'); try done.
  by destruct Hf as [k ->].
Qed.

Section Emit.
Context `{TyCtxt} (ls : list string).

Lemma emits_settles {A} (m : G A) : settles foreign_tag m -> emits ls (fun _ => True) m.
Proof. intros Hm c a c' _ Hrun. split; [by eapply Hm | done]. Qed.

Lemma emits_ret {A} (P : A -> Prop) a : P a -> emits ls P (mret a).
Proof. intros HP c b c' _ [= <- <-]. split; [by apply settled_refl | done]. Qed.

Lemma emits_lift {A} (P : A -> Prop) m : gives P m -> emits ls P (g_lift m).
Proof. intros HP c b c' _ (a & Ha & [= -> ->])%g_lift_ok. split; [by apply settled_refl | auto]. Qed.

Lemma emits_bind {A B} (P : B -> Prop) (Q : A -> Prop) (m : G A) (f : A -> G B) :
  emits ls Q m -> (forall a, Q a -> emits ls P (f a)) -> emits ls P (mbind f m).
Proof.
  intros Hm Hf c b c' Hc (a & c1 & H1 & H2)%g_bind_ok. destruct (Hm _ _ _ Hc H1) as [Hs1 HQ].
  destruct (Hf a HQ c1 b c') as [Hs2 HP]; [by rewrite (same_fn_labels _ _ _ Hs1) | done |].
  split; [by eapply settled_trans | done].
Qed.

Lemma emits_with_table {A} (P : A -> Prop) (f : SymbolTable -> outcome A) :
  (forall st, gives P (f st)) -> emits ls P (g_with_table f).
Proof.
  intros Hf. unfold g_with_table. eapply emits_bind; [apply emits_settles, settles_table|].
  intros st _. by apply emits_lift.
Qed.

Lemma emits_map {A B} (P : B -> Prop) (f : A -> G B) l :
  (forall a, emits ls P (f a)) -> emits ls (Forall P) (g_map f l).
Proof.
  intros Hf. induction l as [|a l IH]; cbn [g_map]; [by apply emits_ret|].
  eapply emits_bind; [apply Hf|]. intros b Hb. eapply emits_bind; [apply IH|]. intros bs Hbs.
  apply emits_ret. by constructor.
Qed.

Lemma emits_goto_label bb loc : emits ls (flow ls) (goto_label bb loc).
Proof.
  intros c s c' Hc Hrun. unfold goto_label, find_label in Hrun. g_inv.
  split; [by apply settled_refl|]. unfold fn_labels_of in *.
  repeat match goal with H : _ = Some _ |- _ => rewrite H in * end.
  match goal with H : unwrap (?l !! ?i) = Ok ?x |- _ =>
    assert (l !! i = Some x) as Hl by (destruct (l !! i); [by injection H as -> | done]) end.
  match goal with H : goto _ _ = Ok _ |- _ => unfold goto in H end. outcome_inv.
  split; [done|]. repeat constructor. by eapply list_elem_of_lookup_2.
Qed.
End Emit.

(** One step of the derivation, by the outermost construct; the statements that are made on
    the way are remembered, other values are not. *)
Ltac emits1 :=
  match goal with
  | |- emits _ _ (mret _) => apply emits_ret
  | |- emits _ _ (g_lift Panic) => apply emits_lift, gives_panic
  | |- emits _ _ (g_lift _) => apply emits_lift
  | |- emits ?ls _ (@mbind _ _ Stmt _ _ _) =>
      apply (emits_bind ls _ (flow ls)); [|intros ? ?]
  | |- emits ?ls _ (@mbind _ _ (list Stmt) _ _ _) =>
      apply (emits_bind ls _ (Forall (flow ls))); [|intros ? ?]
  | |- emits ?ls _ (mbind _ _) =>
      apply (emits_bind ls _ (fun _ => True)); [apply emits_settles; solve [settles]|intros ? _]
  | |- emits _ _ (g_with_table _) => apply emits_with_table; intros ?
  | |- emits _ _ (match ?x with _ => _ end) => destruct x
  | |- gives _ (Ok _) => apply gives_ok
  | |- gives _ Panic => apply gives_panic
  | |- gives (flow ?ls) (@mbind _ _ Stmt _ _ _) =>
      apply (gives_bind _ (flow ls)); [|intros ? ?]
  | |- gives _ (mbind _ _) => apply (gives_bind _ (fun _ => True)); [apply gives_any|intros ? _]
  | |- gives _ (match ?x with _ => _ end) => destruct x
  | |- gives _ (if_then_else _ _ None _) => apply gives_if; [|by intros ?]
  | |- flow _ (block _ _) => apply flow_block
  | |- flow _ (atomic_block _ _) => apply flow_atomic
  | |- Forall _ [] => constructor
  | |- Forall _ (_ :: _) => constructor
  | |- Forall _ (_ ++ _) => apply Forall_app; split
  end.
Ltac emits := repeat first
  [ progress cbn beta iota zeta | solve [eauto with flow] | emits1 ].

#[export] Hint Resolve emits_goto_label : flow.

Section Statements.
Context `{StrDebug, TyCtxt, MirCtxt, InternOrder}.
Context (n : nat) (ls : list string).
#[local] Notation E := (emits ls (flow ls)).

(** *** Intrinsics *)

Lemma emits_expr_to_place p e : E (codegen_expr_to_place n p e).
Proof. unfold codegen_expr_to_place. emits. Qed.
Lemma emits_fatal_error m sp : E (codegen_fatal_error m sp).
Proof. unfold codegen_fatal_error. emits. Qed.
Hint Resolve emits_expr_to_place emits_fatal_error : flow.
Lemma emits_panic sp es : E (codegen_panic sp es).
Proof. unfold codegen_panic. emits. Qed.
Lemma emits_exact_div es p l : E (codegen_exact_div n es p l).
Proof. unfold codegen_exact_div. emits. Qed.
Lemma emits_atomic_load es p l : E (codegen_atomic_load n es p l).
Proof. unfold codegen_atomic_load. emits. Qed.
Lemma emits_atomic_cxchg es p l : E (codegen_atomic_cxchg n es p l).
Proof. unfold codegen_atomic_cxchg. emits. Qed.
Lemma emits_atomic_store es p l : E (codegen_atomic_store n es p l).
Proof. unfold codegen_atomic_store. emits. Qed.
Lemma emits_atomic_binop f es p sp : E (codegen_atomic_binop n f es p sp).
Proof. unfold codegen_atomic_binop. emits. Qed.
Lemma emits_ptr_offset_from es p l : E (codegen_ptr_offset_from n es p l).
Proof. unfold codegen_ptr_offset_from. emits. Qed.
Lemma emits_transmute es t p : E (codegen_intrinsic_transmute n es t p).
Proof. unfold codegen_intrinsic_transmute. emits. Qed.
Lemma emits_raw_eq i es p l : E (codegen_intrinsic_raw_eq n i es p l).
Proof. unfold codegen_intrinsic_raw_eq. emits. Qed.
Lemma emits_simd_insert es p t l : E (codegen_intrinsic_simd_insert n es p t l).
Proof. unfold codegen_intrinsic_simd_insert. emits. Qed.
Lemma emits_simd_shuffle es p t k : E (codegen_intrinsic_simd_shuffle n es p t k).
Proof. unfold codegen_intrinsic_simd_shuffle. emits. Qed.
Lemma emits_intrinsic_copy f i es p l : E (codegen_intrinsic_copy n f i es p l).
Proof. unfold codegen_intrinsic_copy. emits. Qed.
Lemma emits_simple_intrinsic f es p l : E (codegen_simple_intrinsic n f es p l).
Proof. unfold codegen_simple_intrinsic. emits. Qed.
Lemma emits_with_overflow f es p : E (codegen_op_with_overflow n f es p).
Proof. unfold codegen_op_with_overflow. emits. Qed.
Lemma emits_overflow_check f i es p l : E (codegen_op_with_overflow_check n f i es p l).
Proof. unfold codegen_op_with_overflow_check. emits. Qed.
Lemma emits_simd_overflow_check f g i es p l : E (codegen_simd_with_overflow_check n f g i es p l).
Proof. unfold codegen_simd_with_overflow_check. emits. Qed.
Lemma emits_intrinsic_binop f es p : E (intrinsic_binop n f es p).
Proof. unfold intrinsic_binop. emits. Qed.
Lemma emits_intrinsic_unop f es p : E (intrinsic_unop n f es p).
Proof. unfold intrinsic_unop. emits. Qed.
Lemma emits_intrinsic_const i p sp : E (codegen_intrinsic_const n i p sp).
Proof. unfold codegen_intrinsic_const. emits. Qed.
Lemma emits_size_align w i es p : E (codegen_size_align n w i es p).
Proof. unfold codegen_size_align. emits. Qed.
Lemma emits_unimplemented_intrinsic i t l u p : E (codegen_unimplemented_intrinsic n i t l u p).
Proof. unfold codegen_unimplemented_intrinsic. emits. Qed.
Lemma emits_write_bytes i es p l : E (codegen_write_bytes n i es p l).
Proof. unfold codegen_write_bytes. emits. Qed.
Lemma emits_never_return i sp : E (codegen_never_return_intrinsic i sp).
Proof. unfold codegen_never_return_intrinsic. emits. Qed.
Hint Resolve emits_panic emits_exact_div emits_atomic_load emits_atomic_cxchg emits_atomic_store emits_atomic_binop emits_ptr_offset_from emits_transmute emits_raw_eq emits_simd_insert emits_simd_shuffle emits_intrinsic_copy emits_simple_intrinsic emits_with_overflow emits_overflow_check emits_simd_overflow_check emits_intrinsic_binop emits_intrinsic_unop emits_intrinsic_const emits_size_align emits_unimplemented_intrinsic emits_write_bytes emits_never_return : flow.
Lemma emits_boolean_binop f es p : E (intrinsic_boolean_binop n f es p).
Proof. unfold intrinsic_boolean_binop. emits. Qed.
Hint Resolve emits_boolean_binop : flow.
Lemma emits_other_intrinsic s i es p sp l t g : E (codegen_other_intrinsic n s i es p sp l t g).
Proof. unfold codegen_other_intrinsic. emits. Qed.
Hint Resolve emits_other_intrinsic : flow.
Lemma emits_intrinsic i es p sp : E (codegen_intrinsic n i es p sp).
Proof. unfold codegen_intrinsic. emits. Qed.
Hint Resolve emits_intrinsic : flow.

(** *** Hooks *)

Definition hook_emits (h : GotocHook) : Prop :=
  forall i es p t sp, E (handle h i es p t sp).

Lemma emits_alloc_call f es p l : E (alloc_call n f es p l).
Proof. unfold alloc_call. emits. Qed.
Hint Resolve emits_alloc_call : flow.

Lemma emits_hooks : Forall hook_emits (fn_hooks n).
Proof.
  unfold fn_hooks. repeat (apply Forall_cons; split; [intros i es p t sp|]); [..|apply Forall_nil_2].
  all: unfold PanicHook, Assume, ExpectFail, IntrinsicHook, MemReplace, MemSwap, Nevers, Nondet,
    PtrRead, PtrWrite, RustAlloc, RustAllocZeroed, RustDealloc, RustRealloc, SliceFromRawPart;
    cbn [handle]; emits.
Qed.

Lemma find_hook_in hooks i h : find_hook hooks i = Ok (Some h) -> h ∈ hooks.
Proof.
  induction hooks as [|h' hooks IH]; cbn; [done|]. intros Hf. outcome_inv.
  destruct a; [injection Hf as ->; left|]. right. auto.
Qed.

Lemma emits_hook i h es p t sp :
  find_hook (fn_hooks n) i = Ok (Some h) -> E (handle h i es p t sp).
Proof. intros Hh%find_hook_in. by apply (proj1 (Forall_forall _ _) emits_hooks). Qed.

(** *** Statements and terminators *)

Lemma emits_assign l r : E (codegen_assign n l r).
Proof. unfold codegen_assign. emits. Qed.
Lemma emits_set_discriminant p k : E (codegen_set_discriminant n p k).
Proof. unfold codegen_set_discriminant. emits. Qed.
Lemma emits_copy a b c : E (codegen_copy_nonoverlapping n a b c).
Proof. unfold codegen_copy_nonoverlapping. emits. Qed.
Hint Resolve emits_assign emits_set_discriminant emits_copy : flow.
Lemma emits_statement_kind k : E (codegen_statement_kind n k).
Proof. unfold codegen_statement_kind. emits. Qed.
Hint Resolve emits_statement_kind : flow.
Lemma settles_returns_early k : settles foreign_tag (returns_early k).
Proof. unfold returns_early. settles. Qed.
Hint Resolve settles_returns_early : settles.
Lemma emits_statement s : E (codegen_statement n s).
Proof. unfold codegen_statement. emits. Qed.
Hint Resolve emits_statement : flow.
Lemma settles_untuple es o : settles foreign_tag (codegen_untuple_closure_args n es o).
Proof. unfold codegen_untuple_closure_args. settles. Qed.
Lemma settles_call_args os : settles foreign_tag (codegen_call_args n os).
Proof. induction os; cbn [codegen_call_args]; settles. Qed.
Lemma settles_call_virtual t k e es : settles foreign_tag (call_virtual t k e es).
Proof. unfold call_virtual, g_virtual_call. settles. Qed.
Hint Resolve settles_untuple settles_call_args settles_call_virtual : settles.
Lemma emits_virtual_funcall e k p es l :
  emits ls (Forall (flow ls)) (codegen_virtual_funcall n e k p es l).
Proof. unfold codegen_virtual_funcall. emits. Qed.
Hint Resolve emits_virtual_funcall : flow.
Lemma emits_find_hook {A} (P : A -> Prop) i (f : option GotocHook -> G A) :
  (forall h, find_hook (fn_hooks n) i = Ok (Some h) -> emits ls P (f (Some h))) ->
  emits ls P (f None) -> emits ls P (mbind f (g_lift (find_hook (fn_hooks n) i))).
Proof.
  intros Hs Hn. eapply (emits_bind ls _ (fun o => find_hook (fn_hooks n) i = Ok o));
    [by apply emits_lift; intros o|]. intros [h|] Ho; auto.
Qed.
Ltac emits_calls :=
  repeat first [progress cbn beta iota zeta | apply emits_find_hook; [intros ? ?|]
               | by apply emits_hook | solve [eauto with flow] | emits1 ].
Lemma emits_funcall f os d sp : E (codegen_funcall n f os d sp).
Proof. unfold codegen_funcall. emits_calls. Qed.

Lemma emits_ret_unit : E codegen_ret_unit.
Proof.
  unfold codegen_ret_unit. eapply emits_bind; [apply emits_settles, settles_ty_unit|]. intros t _.
  eapply emits_bind; [apply emits_settles, settles_global_var; intros; settles|]. intros e _. emits.
Qed.
Lemma emits_switch_int o t ts : E (codegen_switch_int n o t ts).
Proof.
  unfold codegen_switch_int. do 2 emits1. destruct (_ =? 1)%nat; [emits|]. emits1.
  apply (emits_bind ls _ (Forall (case_flow ls))).
  { apply emits_map. intros cb. emits. }
  intros cases Hc. emits. by apply gives_switch.
Qed.
Lemma emits_drop_call p t i : E (codegen_drop_call n p t i).
Proof. unfold codegen_drop_call. emits. Qed.
Hint Resolve emits_drop_call emits_ret_unit emits_switch_int emits_funcall : flow.
Lemma emits_drop p bb : E (codegen_drop n p bb).
Proof. unfold codegen_drop. emits_calls. Qed.
Hint Resolve emits_drop : flow.
Lemma emits_terminator t : E (codegen_terminator n t).
Proof. unfold codegen_terminator. emits. Qed.
End Statements.

(** ** Programs that add to the body of the function *)

(** The table part of [settled] *)
Definition table_settled `{TyCtxt} (c c' : GotocCtx) : Prop :=
  rtc symtab_step (gcx_table c) (gcx_table c')
  /\ (forall m, open_types (gcx_table c) m -> open_types (gcx_table c') m)
  /\ (forall m, open_types (gcx_table c') m -> open_types (gcx_table c) m \/ foreign_tag m)
  /\ restricts c' = restricts c.

#[export] Instance table_settled_preorder `{TyCtxt} : PreOrder table_settled.
Proof.
  split; [intros c; split; [done|]; auto|].
  intros c1 c2 c3 (Hr1 & Hk1 & Ho1 & Hv1) (Hr2 & Hk2 & Ho2 & Hv2). split; [by etrans|]. split; [auto|].
  split; [|congruence]. intros m [Hm|Hm]%Ho2; auto.
Qed.

Lemma table_settled_eq `{TyCtxt} c c' : gcx_table c' = gcx_table c ->
  restricts c' = restricts c -> table_settled c c'.
Proof. unfold table_settled. intros -> Hv. split; [done|]. auto. Qed.

(** What stays of the function that is compiled *)
Definition same_frame (f f' : CurrentFnCtx) : Prop :=
  fn_instance f' = fn_instance f /\ fn_labels f' = fn_labels f /\ fn_mir f' = fn_mir f
  /\ fn_name f' = fn_name f /\ fn_readable_name f' = fn_readable_name f /\ fn_sig f' = fn_sig f.
#[export] Instance same_frame_preorder : PreOrder same_frame.
Proof. split; [by intros f; repeat split|]. unfold same_frame. intros f g h Hf Hg. intuition congruence. Qed.

(** Code whose labels are [L], in order, and whose jumps lead to [ls] *)
Definition code_with (ls L : list InternedString) (ss : list Stmt) : Prop :=
  concat (map stmt_labels ss) = L /\ Forall (.∈ ls) (concat (map stmt_gotos ss)).

Lemma code_with_app ls L1 L2 ss1 ss2 :
  code_with ls L1 ss1 -> code_with ls L2 ss2 -> code_with ls (L1 ++ L2) (ss1 ++ ss2).
Proof.
  intros [<- Hg1] [<- Hg2]. unfold code_with. rewrite !map_app, !concat_app.
  split; [done|]. by apply Forall_app.
Qed.

Definition pushes `{TyCtxt} (ls L : list string) {A} (m : G A) : Prop :=
  forall c a c' f, gcx_current_fn c = Some f -> fn_labels f = ls -> m c = Done (Ok (a, c')) ->
  table_settled c c' /\ exists f' ss, gcx_current_fn c' = Some f' /\ same_frame f f'
    /\ fn_block f' = fn_block f ++ ss /\ code_with ls L ss.

Section Push.
Context `{TyCtxt} (ls : list string).

Lemma pushes_emits {A} (P : A -> Prop) (m : G A) : emits ls P m -> pushes ls [] m.
Proof.
  intros Hm c a c' f Hf Hl Hrun. destruct (Hm c a c') as [[Hs Ht] _]; [|done|].
  { unfold fn_labels_of. by rewrite Hf. }
  split; [done|]. rewrite Hf in Hs. destruct (gcx_current_fn c') as [f'|]; [|done].
  destruct Hs as [k ->]. exists (with_counter f k), []. rewrite app_nil_r. by repeat split.
Qed.
Lemma pushes_settles {A} (m : G A) : settles foreign_tag m -> pushes ls [] m.
Proof. intros Hm. by eapply pushes_emits, emits_settles. Qed.

Lemma pushes_bind {A B} L1 L2 (m : G A) (f : A -> G B) :
  pushes ls L1 m -> (forall a, pushes ls L2 (f a)) -> pushes ls (L1 ++ L2) (mbind f m).
Proof.
  intros Hm Hf c b c' fn Hfn Hl (a & c1 & H1 & H2)%g_bind_ok.
  destruct (Hm _ _ _ _ Hfn Hl H1) as (Ht1 & f1 & ss1 & Hf1 & Hs1 & Hb1 & Hc1).
  destruct (Hf a _ _ _ _ Hf1 (eq_trans (proj1 (proj2 Hs1)) Hl) H2)
    as (Ht2 & f2 & ss2 & Hf2 & Hs2 & Hb2 & Hc2).
  split; [by etrans|]. exists f2, (ss1 ++ ss2). split; [done|]. split; [by etrans|].
  rewrite Hb2, Hb1, app_assoc. split; [done|]. by apply code_with_app.
Qed.

Lemma pushes_bind_emits {A B} (Q : A -> Prop) L (m : G A) (f : A -> G B) :
  emits ls Q m -> (forall a, Q a -> pushes ls L (f a)) -> pushes ls L (mbind f m).
Proof.
  intros Hm Hf c b c' fn Hfn Hl (a & c1 & H1 & H2)%g_bind_ok.
  destruct (pushes_emits _ _ Hm _ _ _ _ Hfn Hl H1) as (Ht1 & f1 & ss1 & Hf1 & Hs1 & Hb1 & Hc1).
  destruct (Hm c a c1) as [_ HQ]; [unfold fn_labels_of; by rewrite Hfn | done |].
  destruct (Hf a HQ _ _ _ _ Hf1 (eq_trans (proj1 (proj2 Hs1)) Hl) H2)
    as (Ht2 & f2 & ss2 & Hf2 & Hs2 & Hb2 & Hc2).
  split; [by etrans|]. exists f2, (ss1 ++ ss2). split; [done|]. split; [by etrans|].
  rewrite Hb2, Hb1, app_assoc. split; [done|]. by apply (code_with_app ls [] L).
Qed.

Lemma pushes_update L g :
  (forall f, fn_labels f = ls -> same_frame f (g f) /\ exists ss, fn_block (g f) = fn_block f ++ ss
             /\ code_with ls L ss) ->
  pushes ls L (update_fn g).
Proof.
  intros Hg c a c' f Hf Hl (f1 & Hf1 & [= -> ->])%update_fn_ok. rewrite Hf in Hf1.
  injection Hf1 as <-. destruct (Hg f Hl) as (Hs & ss & Hb & Hc).
  split; [by apply table_settled_eq|]. by exists (g f), ss.
Qed.

Lemma pushes_push L s :
  stmt_labels s = L -> Forall (.∈ ls) (stmt_gotos s) -> pushes ls L (push_onto_block s).
Proof.
  intros HL Hg. apply pushes_update. intros f _. split; [done|]. exists [s].
  split; [done|]. split; cbn; by rewrite app_nil_r.
Qed.
Lemma pushes_push_flow s : flow ls s -> pushes ls [] (push_onto_block s).
Proof. intros [Hl Hg]. by apply pushes_push. Qed.

Lemma pushes_set_bb bb : pushes ls [] (set_current_bb bb).
Proof. apply pushes_update. intros f _. split; [done|]. exists []. by rewrite app_nil_r. Qed.
Lemma pushes_reset_bb : pushes ls [] reset_current_bb.
Proof. apply pushes_update. intros f _. split; [done|]. exists []. by rewrite app_nil_r. Qed.

Lemma emits_find_label bb : emits ls (fun l => ls !! N.to_nat bb = Some l) (find_label bb).
Proof.
  intros c l c' Hc Hrun. unfold find_label in Hrun. g_inv. split; [by apply settled_refl|].
  unfold fn_labels_of. repeat match goal with E : _ = Some _ |- _ => rewrite E in * end.
  match goal with E : unwrap ?o = Ok _ |- _ => destruct o; [by injection E as -> | done] end.
Qed.

(** A statement that carries the label [l] *)
Definition labelled (l : InternedString) (s : Stmt) : Prop :=
  stmt_labels s = [l] /\ Forall (.∈ ls) (stmt_gotos s).
Lemma emits_with_label s l : flow ls s -> emits ls (labelled l) (g_lift (with_label s l)).
Proof.
  intros [Hl Hg]. apply emits_lift. intros s' Hs. unfold with_label in Hs. outcome_inv.
  unfold labelled. cbn. by rewrite Hl.
Qed.
Lemma pushes_labelled s l : labelled l s -> pushes ls [l] (push_onto_block s).
Proof. intros [Hl Hg]. by apply pushes_push. Qed.
End Push.

Section Blocks.
Context `{StrDebug, TyCtxt, MirCtxt, InternOrder}.
Context (n : nat) (ls : list string).

Lemma pushes_rest ss : pushes ls [] (codegen_rest n ss).
Proof.
  induction ss as [|s ss IH]; cbn [codegen_rest]; [by apply pushes_settles, settles_ret|].
  eapply pushes_bind_emits; [apply emits_statement|]. intros c Hc.
  apply (pushes_bind ls [] []); [by apply pushes_push_flow | auto].
Qed.

Lemma pushes_block bb bbd l : ls !! N.to_nat bb = Some l -> pushes ls [l] (codegen_block n bb bbd).
Proof.
  intros Hl. unfold codegen_block. apply (pushes_bind ls [] [l]); [apply pushes_set_bb|]. intros _.
  eapply pushes_bind_emits; [apply emits_find_label|]. intros l' Hl'.
  rewrite Hl in Hl'. injection Hl' as <-.
  apply (pushes_bind ls [l] []); [|intros _; apply pushes_reset_bb].
  destruct (statements bbd) as [|s ss].
  - eapply pushes_bind_emits; [apply emits_terminator|]. intros t Ht.
    eapply pushes_bind_emits; [by apply emits_with_label|]. intros t' Ht'.
    by apply pushes_labelled.
  - eapply pushes_bind_emits; [apply emits_statement|]. intros t Ht.
    eapply pushes_bind_emits; [by apply emits_with_label|]. intros t' Ht'.
    apply (pushes_bind ls [l] []); [by apply pushes_labelled|]. intros _.
    apply (pushes_bind ls [] []); [apply pushes_rest|]. intros _.
    eapply pushes_bind_emits; [apply emits_terminator|]. by apply pushes_push_flow.
Qed.

Lemma pushes_blocks blocks : forall bb L,
  drop (N.to_nat bb) ls = L -> length L = length blocks ->
  pushes ls L (codegen_blocks n bb blocks).
Proof.
  induction blocks as [|bbd blocks IH]; intros bb L HL Hlen; cbn [codegen_blocks].
  - destruct L; [|done]. apply pushes_settles, settles_ret.
  - destruct L as [|l L]; [done|].
    assert (ls !! N.to_nat bb = Some l) as Hl.
    { by rewrite <- (Nat.add_0_r (N.to_nat bb)), <- lookup_drop, HL. }
    apply (pushes_bind ls [l] L); [by apply pushes_block|]. intros _. apply IH; [|by injection Hlen].
    rewrite N2Nat.inj_add, <- drop_drop, HL. done.
Qed.

(** *** Declarations *)

Lemma pushes_declare_variable nm b t v l : pushes ls [] (declare_variable nm b t v l).
Proof.
  unfold declare_variable. apply (pushes_bind ls [] []); [by apply pushes_settles, settles_put|].
  intros _. eapply pushes_bind_emits; [apply emits_lift, gives_decl|]. intros s Hs.
  apply (pushes_bind ls [] []); [by apply pushes_push_flow|]. intros _.
  apply pushes_settles, settles_ret.
Qed.

Lemma pushes_declare_local mir l d : pushes ls [] (declare_local n mir l d).
Proof.
  unfold declare_local. destruct (bool_decide _); [apply pushes_settles; settles|].
  do 6 (apply (pushes_bind ls [] []); [apply pushes_settles; settles | intros ?]).
  destruct (_ || _); [|apply pushes_settles; settles].
  eapply pushes_bind_emits; [apply emits_lift, gives_decl|]. by apply pushes_push_flow.
Qed.

Lemma pushes_declare_locals mir ds : forall l, pushes ls [] (declare_locals n mir l ds).
Proof.
  induction ds as [|d ds IH]; intros l; cbn [declare_locals]; [apply pushes_settles; settles|].
  apply (pushes_bind ls [] []); [apply pushes_declare_local | auto].
Qed.

Lemma settles_spread_fields k l ts : forall i, settles foreign_tag (spread_fields n k l i ts).
Proof.
  induction ts as [|t ts IH]; intros i; cbn [spread_fields]; settles.
Qed.

Lemma pushes_prelude : pushes ls [] (codegen_function_prelude n).
Proof.
  unfold codegen_function_prelude. pose proof settles_spread_fields.
  apply (pushes_bind ls [] []); [apply pushes_settles; settles|]. intros f.
  destruct (spread_arg (fn_mir f)); [|apply pushes_settles; settles].
  do 11 (apply (pushes_bind ls [] []); [apply pushes_settles; settles | intros ?]).
  apply (pushes_bind ls [] []); [apply pushes_declare_variable | intros; apply pushes_settles; settles].
Qed.
End Blocks.

(** ** Bodies, functions and crates *)

#[export] Instance bb_debug_inj : Inj (=) (=) bb_debug.
Proof. intros i j E. unfold bb_debug in E. do 2 apply (inj _) in E. done. Qed.

Lemma block_labels_nodup mir : NoDup (block_labels mir).
Proof.
  unfold block_labels. apply NoDup_fmap_2; [|apply NoDup_seq].
  intros i j E%(inj bb_debug). lia.
Qed.

(** A function with a body keeps it. *)
Lemma definition_kept st st' name s :
  rtc symtab_step st st' -> lookup st name = Some s -> is_function_definition s = true ->
  lookup st' name = Some s.
Proof.
  intros [_ Hle]%symtab_steps_le Hs Hd. destruct (Hle _ _ Hs) as (s' & Hs' & [->|[[Hf _]|Hc]]); [done| |].
  - unfold is_function_declaration in Hf. unfold is_function_definition in Hd.
    by destruct (sym_value s); rewrite ?andb_false_r in *.
  - unfold is_function_definition, is_function in Hd. by destruct (sym_typ s), (sym_typ s').
Qed.

Lemma define_ok st name b st' :
  update_fn_declaration_with_definition st name b = Ok st' ->
  exists s, lookup st name = Some s /\ is_function_declaration s = true
    /\ lookup st' name = Some (set_value s (SVStmt b))
    /\ forall m, m <> name -> lookup st' m = lookup st m.
Proof.
  unfold update_fn_declaration_with_definition, symbol_update_fn_declaration, lookup. intros Hd.
  outcome_inv. eexists. cbn. split; [done|]. split; [done|].
  split; [apply lookup_insert_eq | intros; by apply lookup_insert_ne].
Qed.

Lemma function_not_open s : is_function s = true -> is_open s = false.
Proof. unfold is_function, is_open. intros Hf. by destruct (sym_typ s); rewrite ?andb_false_r. Qed.

Lemma table_settled_define `{TyCtxt} c name b st' :
  update_fn_declaration_with_definition (gcx_table c) name b = Ok st' ->
  table_settled c (set_table c st').
Proof.
  intros Hd. split; [by apply rtc_once, (step_define _ name b)|].
  destruct (define_ok _ _ _ _ Hd) as (s & Hs & [Hf _]%andb_true_iff & Hs' & Ho).
  split; [|split; [|done]]; intros m (s0 & Hl & Hop); cbn [set_table gcx_table] in *.
  - exists s0. split; [|done]. rewrite Ho; [done|]. intros ->. rewrite Hs in Hl. injection Hl as <-.
    by rewrite function_not_open in Hop.
  - left. exists s0. split; [|done]. rewrite <- Ho; [done|]. intros ->. rewrite Hs' in Hl.
    injection Hl as <-. by rewrite function_not_open in Hop.
Qed.

Section Crate.
Context `{StrDebug, TyCtxt, MirCtxt, InternOrder}.
Context (n : nat).

Lemma pushes_declare_variables ls : pushes ls [] (codegen_declare_variables n).
Proof.
  unfold codegen_declare_variables. apply (pushes_bind ls [] []); [apply pushes_settles; settles|].
  intros f. apply pushes_declare_locals.
Qed.

(** The body up to the point where it is taken out of the context *)
Lemma pushes_body mir (ls := block_labels mir) :
  pushes ls ls (codegen_function_prelude n;; codegen_declare_variables n;;
                codegen_blocks n 0%N (basic_blocks mir)).
Proof.
  apply (pushes_bind ls [] ls); [apply pushes_prelude|]. intros _.
  apply (pushes_bind ls [] ls); [apply pushes_declare_variables|]. intros _.
  apply pushes_blocks; [done|]. unfold ls, block_labels. by rewrite length_map, length_seq.
Qed.

Lemma codegen_body_code c f stmts c' :
  gcx_current_fn c = Some f -> fn_block f = [] ->
  codegen_body n c = Done (Ok (stmts, c')) ->
  table_settled c c' /\ code_with (block_labels (fn_mir f)) (block_labels (fn_mir f)) stmts
  /\ exists f', gcx_current_fn c' = Some f' /\ fn_name f' = fn_name f.
Proof.
  intros Hf Hb Hrun. unfold codegen_body, set_labels, extract_block in Hrun. g_inv.
  match goal with
  | R1 : codegen_function_prelude _ ?c1 = Done (Ok (?u1, ?c2)),
    R2 : codegen_declare_variables _ ?c2 = Done (Ok (?u2, ?c3)),
    R3 : codegen_blocks _ _ _ ?c3 = Done (Ok (?u3, ?c4)) |- _ =>
      assert ((codegen_function_prelude n;; codegen_declare_variables n;;
               codegen_blocks n 0%N (basic_blocks (fn_mir f))) c1 = Done (Ok (u3, c4))) as Hall
        by (unfold mbind, G_bind; by rewrite R1, R2, R3)
  end.
  eapply pushes_body in Hall as (Ht & f' & ss & Hf' & Hs & Hb' & Hc); [|done|done].
  cbn in Hf'. simplify_eq. cbn in Hb'. rewrite Hb in Hb'. rewrite Hb'.
  split; [exact Ht|]. split; [done|]. eexists. split; [done|]. apply Hs.
Qed.

Lemma settles_harness : settles foreign_tag handle_rmctool_attributes.
Proof.
  unfold handle_rmctool_attributes. settles. generalize (attr_paths (fn_instance a)) as ps.
  induction ps as [|p ps IH]; cbn [handle_attrs]; settles. unfold handle_rmctool_proof. settles.
  intros c u c' [= _ <-]. by apply settled_refl.
Qed.

(** Entering a function *)
Definition unchanged {A} (m : G A) : Prop := forall c a c', m c = Done (Ok (a, c')) -> c' = c.

Lemma unchanged_ret {A} (a : A) : unchanged (mret a).
Proof. by intros c ? ? [= <- <-]. Qed.
Lemma unchanged_lift {A} (m : outcome A) : unchanged (g_lift m).
Proof. by intros c a c' (? & _ & [= -> ->])%g_lift_ok. Qed.
Lemma unchanged_bind {A B} (m : G A) (f : A -> G B) :
  unchanged m -> (forall a, unchanged (f a)) -> unchanged (mbind f m).
Proof. intros Hm Hf c b c' (a & c1 & H3%Hm & H4%Hf)%g_bind_ok. congruence. Qed.
Lemma unchanged_monomorphize_sig sig : unchanged (monomorphize_sig sig).
Proof. by intros c a c' [= _ <-]. Qed.

Lemma unchanged_instance_sig i : unchanged (fn_sig_of_instance i).
Proof.
  unfold fn_sig_of_instance, closure_sig.
  repeat first [ progress cbn zeta | apply unchanged_monomorphize_sig | apply unchanged_ret
    | apply unchanged_lift | apply unchanged_bind; [|intros ?]
    | match goal with |- unchanged (match ?x with _ => _ end) => destruct x end ].
Qed.

Lemma enter_fn_run i c u c1 :
  enter_fn i c = Done (Ok (u, c1)) -> exists sig,
  c1 = set_fn c (Some (current_fn_new i (instance_mir i) (symbol_name i)
                         (readable_instance_name i) sig)).
Proof.
  unfold enter_fn. intros (sig & c0 & Hs & Hrun)%g_bind_ok.
  apply unchanged_instance_sig in Hs as ->. injection Hrun as _ <-. by exists sig.
Qed.

(** What [codegen_function] leaves in the table *)
Definition translated (i : Instance_) (s : Symbol) : Prop :=
  exists stmts loc, sym_value s = SVStmt (block stmts loc)
    /\ code_with (block_labels (instance_mir i)) (block_labels (instance_mir i)) stmts.

Lemma define_run c name b st :
  update_fn_declaration_with_definition (gcx_table c) name b = Ok st ->
  table_settled c (set_table c st)
  /\ exists s, lookup st name = Some s /\ is_function_definition s = true /\ sym_value s = SVStmt b.
Proof.
  intros Hd. split; [by eapply table_settled_define|].
  destruct (define_ok _ _ _ _ Hd) as (s & _ & [Hf _]%andb_true_iff & Hs & _).
  exists (set_value s (SVStmt b)). split; [done|]. split; [|done].
  unfold is_function_definition. by rewrite andb_true_r.
Qed.

(** The branch that translates the body *)
Lemma define_body_run i sig c u c' :
  gcx_current_fn c = Some (current_fn_new i (instance_mir i) (symbol_name i)
                             (readable_instance_name i) sig) ->
  (stmts ← codegen_body n;
   loc ← codegen_span (body_span (instance_mir i));
   g_update (fun st => update_fn_declaration_with_definition st (symbol_name i) (block stmts loc));;
   handle_rmctool_attributes) c = Done (Ok (u, c')) ->
  table_settled c c'
  /\ exists s, lookup (gcx_table c') (symbol_name i) = Some s /\ is_function_definition s = true
       /\ translated i s.
Proof.
  intros Hf (stmts & c1 & Hb & Hrun)%g_bind_ok.
  destruct (codegen_body_code _ _ _ _ Hf eq_refl Hb) as (Ht1 & Hc & _).
  apply g_bind_ok in Hrun as (loc & c2 & Hl & Hrun).
  assert (settled foreign_tag c1 c2) as [_ Ht2] by (by eapply settles_span).
  apply g_bind_ok in Hrun as (u1 & c3 & (st & Hd & [= -> ->])%g_update_ok & Hrun).
  destruct (define_run _ _ _ _ Hd) as (Ht3 & s & Hs & Hfd & Hv).
  apply settles_harness in Hrun as [_ Ht4].
  split; [by do 3 (etrans; [eassumption|])|]. exists s.
  split; [by eapply definition_kept; [apply Ht4| |]|]. split; [done|]. by exists stmts, loc.
Qed.

Lemma codegen_function_run i c u c' :
  codegen_function n i c = Done (Ok (u, c')) ->
  table_settled c c'
  /\ exists old s, lookup (gcx_table c) (symbol_name i) = Some old
    /\ lookup (gcx_table c') (symbol_name i) = Some s /\ is_function_definition s = true
    /\ (is_function_definition old = false -> should_skip (readable_instance_name i) = false ->
         translated i s).
Proof.
  unfold codegen_function. intros (u0 & c0 & [sig ->]%enter_fn_run & Hrun)%g_bind_ok.
  apply g_bind_ok in Hrun as (f & c1 & (? & Hf & [= -> ->])%current_fn_ok & Hrun).
  cbn in Hf. injection Hf as <-.
  apply g_bind_ok in Hrun as (st & c1 & [= <- <-] & Hrun).
  apply g_bind_ok in Hrun as (? & c1 & (old & Hold & [= -> ->])%g_lift_ok & Hrun).
  apply g_bind_ok in Hrun as (u1 & c1 & Hrun & [= _ <-]).
  change (unwrap (lookup (gcx_table c) (symbol_name i)) = Ok old) in Hold.
  cbn [current_fn_new fn_readable_name fn_mir fn_name set_fn gcx_table] in Hrun |- *.
  destruct (lookup (gcx_table c) (symbol_name i)) as [s0|] eqn:Hl; [injection Hold as ->|done].
  destruct (is_function_definition old) eqn:Hd; [|destruct (should_skip _) eqn:Hsk].
  - injection Hrun as _ <-. split; [by apply table_settled_eq|]. exists old, old.
    split_and!; [done..|congruence].
  - apply g_bind_ok in Hrun as (loc & c2 & Hsp & Hrun).
    assert (settled foreign_tag _ c2) as [_ Ht1] by (by eapply settles_span).
    apply g_bind_ok in Hrun as (b & c3 & (? & _ & [= -> ->])%g_lift_ok & (st & Hu & [= -> ->])%g_update_ok).
    destruct (define_run _ _ _ _ Hu) as (Ht2 & s & Hs & Hfd & _).
    split; [exact (transitivity Ht1 Ht2)|]. exists old, s. split_and!; [done..|congruence].
  - apply g_bind_ok in Hrun as (? & c2 & (? & _ & [= -> ->])%g_lift_ok & Hrun).
    eapply define_body_run in Hrun as (Ht & s & Hs & Hfd & Htr); [|done].
    split; [exact Ht|]. exists old, s. by repeat split.
Qed.

(** ** Crates *)

Lemma settles_fn_params sp ts : forall k, settles foreign_tag (fn_params n sp k ts).
Proof. induction ts as [|t ts IH]; intros k; cbn [fn_params]; settles. Qed.
Lemma settles_fn_typ : settles foreign_tag (fn_typ n).
Proof. unfold fn_typ. pose proof settles_fn_params. settles. Qed.

Lemma declare_function_run i c u c' : declare_function n i c = Done (Ok (u, c')) -> table_settled c c'.
Proof.
  unfold declare_function. intros (u0 & c0 & [sig ->]%enter_fn_run & Hrun)%g_bind_ok.
  assert (forall c u c', (f ← current_fn;
    g_ensure (fn_name f) (fun fname => t ← fn_typ n; loc ← codegen_span (body_span (fn_mir f));
      mret (function fname t None (Some (fn_readable_name f)) loc));; reset_current_fn) c
      = Done (Ok (u, c')) -> table_settled c c') as Hall; [|by apply Hall in Hrun].
  clear. intros c u c' (f & c1 & (? & _ & [= -> ->])%current_fn_ok & Hrun)%g_bind_ok.
  apply g_bind_ok in Hrun as (s & c2 & Hrun & [= _ <-]).
  assert (settled foreign_tag c c2) as [_ Ht]; [|exact Ht].
  eapply settles_ensure_closed in Hrun; [done| |]; intros ?; pose proof settles_fn_typ; settles.
Qed.

Lemma codegen_static_run d c u c' : codegen_static n d c = Done (Ok (u, c')) -> table_settled c c'.
Proof.
  intros Hrun. assert (settled foreign_tag c c') as [_ Ht]; [|exact Ht]. revert c u c' Hrun.
  change (settles foreign_tag (codegen_static n d)). unfold codegen_static. settles.
  apply settles_allocation; [apply settles_alloc_pointer | apply settles_ret].
Qed.

Lemma declare_static_run d c u c' : declare_static n d c = Done (Ok (u, c')) -> table_settled c c'.
Proof.
  intros Hrun. assert (settled foreign_tag c c') as [_ Ht]; [|exact Ht]. revert c u c' Hrun.
  change (settles foreign_tag (declare_static n d)). unfold declare_static. settles.
Qed.

Lemma iter_table {A} (f : A -> G unit) l :
  (forall a c u c', f a c = Done (Ok (u, c')) -> table_settled c c') ->
  forall c u c', g_iter f l c = Done (Ok (u, c')) -> table_settled c c'.
Proof.
  intros Hf. induction l as [|a l IH]; intros c u c'; cbn [g_iter]; [by intros [= _ <-]|].
  intros (u1 & c1 & H3%Hf & H4%IH)%g_bind_ok. by etrans.
Qed.

Lemma declare_item_run item c u c' : declare_item n item c = Done (Ok (u, c')) -> table_settled c c'.
Proof.
  destruct item; cbn; [apply declare_function_run | apply declare_static_run | by intros [= _ <-]].
Qed.
Lemma codegen_item_run item c u c' : codegen_item n item c = Done (Ok (u, c')) -> table_settled c c'.
Proof.
  destruct item; cbn; [apply codegen_function_run | apply codegen_static_run | by intros [= _ <-]].
Qed.

(** Every function of the list has a body at the end. *)
Lemma codegen_functions_defined items c u c' i :
  g_iter (codegen_item n) items c = Done (Ok (u, c')) -> MonoFn i ∈ items ->
  exists s, lookup (gcx_table c') (symbol_name i) = Some s /\ is_function_definition s = true.
Proof.
  revert c. induction items as [|item items IH]; intros c Hrun Hi; [by apply not_elem_of_nil in Hi|].
  cbn [g_iter] in Hrun. apply g_bind_ok in Hrun as (u1 & c1 & H3 & H4).
  apply elem_of_cons in Hi as [<-|Hi]; [|by eapply IH].
  destruct (codegen_function_run _ _ _ _ H3) as (_ & _ & s & _ & Hs & Hd & _). exists s.
  split; [|done]. eapply definition_kept; [|done|done].
  eapply (iter_table (codegen_item n)); [|done]. intros a ? ? ?. apply codegen_item_run.
Qed.
End Crate.

(** All items of a crate *)
Lemma codegen_items_run `{StrDebug, TyCtxt, MirCtxt, InternOrder} n items c u c' :
  codegen_items n items c = Done (Ok (u, c')) ->
  table_settled c c'
  /\ (forall i, MonoFn i ∈ items -> exists s, lookup (gcx_table c') (symbol_name i) = Some s
                                             /\ is_function_definition s = true).
Proof.
  unfold codegen_items. intros (u1 & c1 & Hdecl & Hgen)%g_bind_ok. split.
  - etrans; [eapply (iter_table (declare_item n)) | eapply (iter_table (codegen_item n))]; [| done | | done];
      intros a ? ? ?; [apply declare_item_run | apply codegen_item_run].
  - intros i Hi. by eapply codegen_functions_defined.
Qed.

(** ** Properties *)

(** C4. A function that was declared and is not one of those the generator skips gets a body
    whose labels are the labels of its basic blocks, in their order and each once, and every
    jump of the body, of a terminator, a switch, a call or a hook, leads to one of them. *)
Theorem function_labels_resolved `{StrDebug, TyCtxt, MirCtxt, InternOrder} n i c c' old :
  lookup (gcx_table c) (symbol_name i) = Some old -> is_function_definition old = false ->
  should_skip (readable_instance_name i) = false ->
  codegen_function n i c = Done (Ok (tt, c')) ->
  exists s stmts loc,
    lookup (gcx_table c') (symbol_name i) = Some s /\ is_function s = true
    /\ sym_value s = SVStmt (block stmts loc)
    /\ stmt_labels (block stmts loc) = block_labels (instance_mir i)
    /\ NoDup (stmt_labels (block stmts loc))
    /\ Forall (.∈ stmt_labels (block stmts loc)) (stmt_gotos (block stmts loc)).
Proof.
  intros Hl Hd Hs Hrun.
  destruct (codegen_function_run _ _ _ _ _ Hrun) as (_ & old' & s & Hold & Hl' & Hfd & Htr).
  rewrite Hl in Hold. injection Hold as <-. destruct (Htr Hd Hs) as (stmts & loc & Hv & HL & Hg).
  exists s, stmts, loc. apply andb_true_iff in Hfd as [Hf _]. cbn [stmt_labels stmt_gotos block stmt
    body_labels body_gotos]. rewrite HL. split_and!; try done. apply block_labels_nodup.
Qed.

(** C3. After a crate has been translated the table has changed only by its own operations,
    every function of the crate has a body, and no struct or union that the crate introduced
    is left without its fields, except the foreign types, whose fields are unknown. *)
Theorem crate_complete `{StrDebug, TyCtxt, MirCtxt, InternOrder} n items c u c' :
  codegen_items n items c = Done (Ok (u, c')) ->
  rtc symtab_step (gcx_table c) (gcx_table c')
  /\ (forall i, MonoFn i ∈ items -> exists s, lookup (gcx_table c') (symbol_name i) = Some s
                                             /\ is_function_definition s = true)
  /\ (forall m, open_types (gcx_table c') m -> open_types (gcx_table c) m \/ foreign_tag m).
Proof. by intros [(Hr & _ & Ho & _) Hf]%codegen_items_run. Qed.

(** *** On the sample crate *)

(** Both functions declared, nothing translated yet *)
Definition crate_declared : GotocCtx :=
  match g_iter (declare_item 8) crate_items crate_start with Done (Ok (_, c)) => c | _ => sample_ctx end.

Definition step_run : fuelled (unit * GotocCtx) := codegen_function 8 step_instance crate_declared.

(** What is computed: both runs succeed, [step] is only declared before its translation, and
    [main] is a harness. *)
Definition returned {A} (m : fuelled (A * GotocCtx)) (check : GotocCtx -> bool) : bool :=
  match m with Done (Ok (_, c)) => check c | _ => false end.
Definition step_declared : bool :=
  match lookup (gcx_table crate_declared) "step" with
  | Some old => negb (is_function_definition old)
  | None => false
  end.
Lemma step_run_returns : returned step_run (fun _ => true) = true.
Proof. vm_compute. reflexivity. Qed.
Lemma step_is_declared : step_declared = true.
Proof. vm_compute. reflexivity. Qed.
Lemma crate_run_returns :
  returned crate_run (fun c => bool_decide (map harness_pretty_name (proof_harnesses c) = ["main"])) = true.
Proof. vm_compute. reflexivity. Qed.

Lemma function_labels_resolved_witness :
  exists c' s stmts loc,
    step_run = Done (Ok (tt, c'))
    /\ lookup (gcx_table c') "step" = Some s
    /\ sym_value s = SVStmt (block stmts loc)
    /\ stmt_labels (block stmts loc) = ["bb0"; "bb1"; "bb2"; "bb3"; "bb4"; "bb5"]
    /\ Forall (.∈ stmt_labels (block stmts loc)) (stmt_gotos (block stmts loc)).
Proof.
  pose proof step_run_returns as Hr. pose proof step_is_declared as Hd. unfold step_declared in Hd.
  destruct step_run as [[[[] c']|]|] eqn:E; [|discriminate Hr ..].
  destruct (lookup (gcx_table crate_declared) "step") as [old|] eqn:Hold; [|discriminate Hd].
  destruct (function_labels_resolved 8 step_instance crate_declared c' old)
    as (s & stmts & loc & Hs & _ & Hv & HL & _ & Hg);
    [exact Hold | by apply negb_true_iff | reflexivity | exact E |].
  exists c', s, stmts, loc. split; [reflexivity|]. split; [exact Hs|]. split; [exact Hv|].
  split; [exact HL | exact Hg].
Defined.

Lemma crate_complete_witness :
  exists c', crate_run = Done (Ok (tt, c'))
    /\ rtc symtab_step (gcx_table crate_start) (gcx_table c')
    /\ (exists s, lookup (gcx_table c') "step" = Some s /\ is_function_definition s = true)
    /\ map harness_pretty_name (proof_harnesses c') = ["main"].
Proof.
  pose proof crate_run_returns as Hr. destruct crate_run as [[[[] c']|]|] eqn:E; [|discriminate Hr ..].
  destruct (crate_complete 8 crate_items crate_start tt c' E) as (Hs & Hf & _).
  exists c'. split; [reflexivity|]. split; [exact Hs|]. split; [|by eapply bool_decide_eq_true_1].
  apply (Hf step_instance). right. left.
Defined.
