(* ===== verification/ArithSem.v ===== *)
(** * What generated arithmetic computes

    [GotoArith] adds to the interface of [Eval.v] the operators that the code generator uses
    and the C back end does not: multiplication, division, comparisons, connectives, bit
    patterns.  Against it: the checked operators of MIR give the wrapped result and the right
    overflow flag; the flag of a checked shift is right for the amounts that fit the shifted
    type and misses others; [exact_div] asserts exactly what makes the division defined; the
    size of an unsized value is rounded up to its alignment; and a discriminant that is
    written into a niche is read back. *)

From S2P Require Import Prelude CbmcString MachineModel Location Typ Ast SymbolTable Expr Symbol.
From S2P Require Import Builtin Stmt Env Restrictions Mir GotoCtx TypeGen MirTyping PlaceGen OperandGen.
From S2P Require Import ArithGen CastGen RvalueGen IntrinsicGen HookGen StmtGen FunctionGen Built GenSample Eval.

Open Scope Z_scope.

(** ** The interface *)

Definition wrap_to (mm : MachineModel) (t : Type_) (x : Z) : Z :=
  wrap (width_of t mm) (is_signed t mm) x.

Class GotoArith (mm : MachineModel) (eval : Expr -> option val) : Prop := {
  (** a constant is read as a bit pattern *)
  eval_int_bits i t l :
    is_integer t = true -> 0 <= i < 2 ^ Z.of_N (width_of t mm) ->
    eval (mkExpr (EIntConstant i) t l) = Some (VInt (wrap_to mm t i));
  eval_mult a b x y l :
    int_operands eval mm a b x y ->
    eval (mkExpr (EBinOp OpMult a b) (typ a) l) = Some (VInt (wrap_to mm (typ a) (x * y)));
  eval_overflow_mult a b x y l :
    int_operands eval mm a b x y ->
    eval (mkExpr (EBinOp OpOverflowMult a b) TBool l)
    = Some (VBool (negb (in_rangeb (width_of (typ a) mm) (is_signed (typ a) mm) (x * y))));
  eval_div a b x y l :
    int_operands eval mm a b x y -> y <> 0 ->
    eval (mkExpr (EBinOp OpDiv a b) (typ a) l) = Some (VInt (wrap_to mm (typ a) (Z.quot x y)));
  eval_mod a b x y l :
    int_operands eval mm a b x y -> y <> 0 ->
    eval (mkExpr (EBinOp OpMod a b) (typ a) l) = Some (VInt (Z.rem x y));
  eval_bitand a b x y l :
    int_operands eval mm a b x y ->
    eval (mkExpr (EBinOp OpBitand a b) (typ a) l) = Some (VInt (Z.land x y));
  eval_le a b x y l :
    int_operands eval mm a b x y ->
    eval (mkExpr (EBinOp OpLe a b) TBool l) = Some (VBool (x <=? y));
  eval_gt a b x y l :
    int_operands eval mm a b x y ->
    eval (mkExpr (EBinOp OpGt a b) TBool l) = Some (VBool (y <? x));
  eval_ge a b x y l :
    int_operands eval mm a b x y ->
    eval (mkExpr (EBinOp OpGe a b) TBool l) = Some (VBool (y <=? x));
  eval_ashr a b x y l :
    is_integer (typ a) = true -> is_integer (typ b) = true ->
    eval a = Some (VInt x) -> eval b = Some (VInt y) -> 0 <= y < Z.of_N (width_of (typ a) mm) ->
    eval (mkExpr (EBinOp OpAshr a b) (typ a) l) = Some (VInt (Z.shiftr x y));
  eval_lshr a b x y l :
    is_integer (typ a) = true -> is_integer (typ b) = true ->
    eval a = Some (VInt x) -> eval b = Some (VInt y) -> 0 <= y < Z.of_N (width_of (typ a) mm) ->
    eval (mkExpr (EBinOp OpLshr a b) (typ a) l)
    = Some (VInt (wrap_to mm (typ a) (Z.shiftr (x mod 2 ^ Z.of_N (width_of (typ a) mm)) y)));
  eval_neg a x l :
    is_integer (typ a) = true -> eval a = Some (VInt x) ->
    eval (mkExpr (EUnOp UnaryMinus a) (typ a) l) = Some (VInt (wrap_to mm (typ a) (- x)));
  eval_not a b l :
    eval a = Some (VBool b) -> eval (mkExpr (EUnOp Ast.Not a) TBool l) = Some (VBool (negb b));
  eval_and a b x y l :
    eval a = Some (VBool x) -> eval b = Some (VBool y) ->
    eval (mkExpr (EBinOp OpAnd a b) TBool l) = Some (VBool (x && y));
  eval_bool_constant b l : eval (mkExpr (EBoolConstant b) TBool l) = Some (VBool b);
  eval_bool_cast a b t l :
    is_integer t = true -> eval a = Some (VBool b) ->
    eval (mkExpr (ETypecast a) t l) = Some (VInt (Z.b2z b));
}.

#[export] Instance bitvector_arith mm : GotoArith mm (bv_eval mm).
Proof.
  split; try (intros a b x y l (_ & _ & Ha & Hb); cbn; by rewrite Ha, Hb).
  - done.
  - intros a b x y l (_ & _ & Ha & Hb) Hy. cbn. rewrite Ha, Hb. cbn. by rewrite (proj2 (Z.eqb_neq _ _) Hy).
  - intros a b x y l (_ & _ & Ha & Hb) Hy. cbn. rewrite Ha, Hb. cbn. by rewrite (proj2 (Z.eqb_neq _ _) Hy).
  - intros a b x y l _ _ Ha Hb _. cbn. by rewrite Ha, Hb.
  - intros a b x y l _ _ Ha Hb _. cbn. by rewrite Ha, Hb.
  - intros a x l _ Ha. cbn. by rewrite Ha.
  - intros a b l Ha. cbn. by rewrite Ha.
  - intros a b x y l Ha Hb. cbn. by rewrite Ha, Hb.
  - done.
  - intros a b t l Ht Ha. cbn. by rewrite Ha, Ht.
Qed.

(** ** Expressions and their values *)

Section Denotation.
Context (mm : MachineModel) (eval : Expr -> option val).
Context {Sem : GotoSemantics mm eval} {Bits : GotoBits mm eval} {Arith : GotoArith mm eval}.

Definition int_type (t : Type_) : Prop := is_integer t = true /\ (0 < width_of t mm)%N.
Definition range_of (t : Type_) (x : Z) : Prop := in_range (width_of t mm) (is_signed t mm) x.
#[local] Notation wrapt := (wrap_to mm).

(** [e] is an expression of the integer type [t] with the value [x]; a condition with value [b] *)
Definition intv (e : Expr) (t : Type_) (x : Z) : Prop :=
  typ e = t /\ eval e = Some (VInt x) /\ range_of t x.
Definition boolv (e : Expr) (b : bool) : Prop := typ e = TBool /\ eval e = Some (VBool b).

(** An operation that succeeds with an expression of that value *)
Definition yields (m : outcome Expr) (P : Expr -> Prop) : Prop := exists e, m = Ok e /\ P e.

Lemma range_wrap t x : int_type t -> range_of t (wrapt t x).
Proof. intros [_ Hw]. by apply wrap_in_range. Qed.
Lemma wrapt_id t x : int_type t -> range_of t x -> wrapt t x = x.
Proof. intros [_ Hw]. by apply wrap_id. Qed.

Lemma operands a b t x y : int_type t -> intv a t x -> intv b t y -> int_operands eval mm a b x y.
Proof. intros [Hi _] (Ha & Ea & _) (Hb & Eb & _). unfold int_operands. by rewrite Ha, Hb. Qed.

(** The operators by what they give *)
Definition is_arith (op : BinaryOperand) : bool :=
  match op with
  | OpMinus | OpDiv | OpMod | OpMult | OpPlus | OpBitand | OpBitor | OpBitxor => true
  | _ => false
  end.
Definition is_test (op : BinaryOperand) : bool :=
  match op with
  | OpEqual | OpNotequal | OpLt | OpLe | OpGt | OpGe | OpOverflowMinus | OpOverflowMult
  | OpOverflowPlus => true
  | _ => false
  end.

Lemma binop_arith op a b t :
  is_arith op = true -> is_integer t = true -> typ a = t -> typ b = t ->
  binop a op b = Ok (expr (EBinOp op a b) t).
Proof.
  intros Hop Hi Ta Tb. unfold binop, typecheck_binop_args, binop_return_type, is_numeric.
  rewrite Ta, Tb, type_eqb_refl, Hi. by destruct op, t.
Qed.
Lemma binop_test op a b t :
  is_test op = true -> is_integer t = true -> typ a = t -> typ b = t ->
  binop a op b = Ok (expr (EBinOp op a b) TBool).
Proof.
  intros Hop Hi Ta Tb. unfold binop, typecheck_binop_args, binop_return_type, is_numeric.
  rewrite Ta, Tb, type_eqb_refl, Hi. by destruct op, t; rewrite ?orb_true_r.
Qed.

Lemma arith_yields op a b t x y z :
  is_arith op = true -> int_type t -> intv a t x -> intv b t y -> range_of t z ->
  (int_operands eval mm a b x y -> eval (expr (EBinOp op a b) (typ a)) = Some (VInt z)) ->
  yields (binop a op b) (fun e => intv e t z).
Proof.
  intros Hop Ht Ha Hb Hz He. specialize (He (operands _ _ _ _ _ Ht Ha Hb)).
  exists (expr (EBinOp op a b) t). rewrite (proj1 Ha) in He.
  split; [by apply binop_arith; [|apply Ht|apply Ha|apply Hb] | done].
Qed.

Lemma test_yields op a b t x y r :
  is_test op = true -> int_type t -> intv a t x -> intv b t y ->
  (int_operands eval mm a b x y -> eval (expr (EBinOp op a b) TBool) = Some (VBool r)) ->
  yields (binop a op b) (fun e => boolv e r).
Proof.
  intros Hop Ht Ha Hb He. exists (expr (EBinOp op a b) TBool).
  split; [by eapply binop_test; [|apply Ht|apply Ha|apply Hb]|]. split; [done|].
  by apply He, (operands _ _ t).
Qed.

Section Operators.
Context (a b : Expr) (t : Type_) (x y : Z) (Ht : int_type t) (Ha : intv a t x) (Hb : intv b t y).

Lemma wrapped op z :
  is_arith op = true ->
  (int_operands eval mm a b x y -> eval (expr (EBinOp op a b) (typ a)) = Some (VInt (wrapt (typ a) z))) ->
  yields (binop a op b) (fun e => intv e t (wrapt t z)).
Proof.
  intros Hop He. eapply arith_yields; [done..|by apply range_wrap|]. intros Hops.
  rewrite (He Hops). by rewrite (proj1 Ha).
Qed.

Lemma plus_yields : yields (plus_ a b) (fun e => intv e t (wrapt t (x + y))).
Proof. apply wrapped; [done|]. apply eval_plus. Qed.
Lemma sub_yields : yields (sub_ a b) (fun e => intv e t (wrapt t (x - y))).
Proof. apply wrapped; [done|]. apply eval_minus. Qed.
Lemma mul_yields : yields (mul_ a b) (fun e => intv e t (wrapt t (x * y))).
Proof. apply wrapped; [done|]. apply eval_mult. Qed.
Lemma rem_yields : y <> 0 -> yields (rem_ a b) (fun e => intv e t (Z.rem x y)).
Proof.
  intros Hy. eapply arith_yields; [done..| |intros; by apply eval_mod].
  destruct Ha as (_ & _ & Rx), Hb as (_ & _ & Ry). revert Rx Ry. unfold range_of, in_range.
  pose proof (Z.rem_bound_abs x y Hy). destruct (is_signed t mm); intros; [lia|].
  pose proof (Z.rem_nonneg x y Hy). lia.
Qed.
Lemma bitand_yields z : Z.land x y = z -> range_of t z -> yields (bitand a b) (fun e => intv e t z).
Proof. intros <- Hz. eapply arith_yields; [done..|]. apply eval_bitand. Qed.

Lemma eq_yields : yields (eq_ a b) (fun e => boolv e (x =? y)).
Proof. eapply test_yields; [done..|]. apply eval_equal. Qed.
Lemma neq_yields : yields (neq_ a b) (fun e => boolv e (negb (x =? y))).
Proof. eapply test_yields; [done..|]. apply eval_notequal. Qed.
Lemma le_yields : yields (le_ a b) (fun e => boolv e (x <=? y)).
Proof. eapply test_yields; [done..|]. apply eval_le. Qed.
Lemma gt_yields : yields (gt_ a b) (fun e => boolv e (y <? x)).
Proof. eapply test_yields; [done..|]. apply eval_gt. Qed.
Lemma ge_yields : yields (ge_ a b) (fun e => boolv e (y <=? x)).
Proof. eapply test_yields; [done..|]. apply eval_ge. Qed.
End Operators.

Lemma const_yields t i : int_type t -> range_of t i -> yields (int_constant i t) (fun e => intv e t i).
Proof.
  intros [Hi _] Hr. exists (expr (EIntConstant i) t). unfold int_constant. rewrite Hi.
  split; [done|]. split; [done|]. split; [|done]. by apply eval_int_constant.
Qed.
Lemma bits_yields t i :
  int_type t -> 0 <= i < 2 ^ Z.of_N (width_of t mm) ->
  yields (int_constant i t) (fun e => intv e t (wrapt t i)).
Proof.
  intros [Hi Hw] Hr. exists (expr (EIntConstant i) t). unfold int_constant. rewrite Hi.
  split; [done|]. split; [done|]. split; [by apply eval_int_bits|]. by apply range_wrap.
Qed.
Lemma zero_in_range t : int_type t -> range_of t 0.
Proof.
  intros [_ Hw]. unfold range_of, in_range. pose proof (Z.pow_pos_nonneg 2 (Z.of_N (width_of t mm) - 1)).
  pose proof (Z.pow_pos_nonneg 2 (Z.of_N (width_of t mm))). destruct (is_signed t mm); lia.
Qed.
Lemma zero_yields t : int_type t -> yields (zero t) (fun e => intv e t 0).
Proof.
  intros Ht. unfold zero. rewrite (proj1 Ht). apply const_yields; [done|]. by apply zero_in_range.
Qed.

(** [cast_to] between integers, and from a condition to a C boolean *)
Lemma cast_yields e t x t' :
  int_type t -> int_type t' -> intv e t x -> yields (cast_to e t') (fun e => intv e t' (wrapt t' x)).
Proof.
  intros Ht Ht' (Te & Ee & Re). unfold cast_to, can_cast_to, can_cast_from. rewrite Te.
  destruct (type_eqb t t') eqn:E.
  - exists e. split; [done|]. apply type_eqb_spec in E.
    assert (t = t') as <-.
    { destruct Ht as [Hi _]. destruct t, t'; try done; cbn in E; congruence. }
    rewrite wrapt_id by done. done.
  - exists (expr (ETypecast e) t'). assert (is_bool t' = false) as -> by (by destruct t', Ht').
    destruct Ht as [Hi _]. pose proof (proj1 Ht') as Hi'. rewrite Hi, Hi', orb_true_r.
    split; [by destruct (is_c_bool t')|]. split; [done|]. split; [|by apply range_wrap].
    apply eval_typecast; [by rewrite Te | done | done].
Qed.
Lemma flag_yields e b : boolv e b -> yields (cast_to e c_bool) (fun e => typ e = c_bool /\ eval e = Some (VInt (Z.b2z b))).
Proof.
  intros [Te Ee]. exists (expr (ETypecast e) c_bool). unfold cast_to, can_cast_to. rewrite Te.
  split; [done|]. split; [done|]. by apply eval_bool_cast.
Qed.

Lemma ternary_yields c b x y (P : Expr -> Prop) :
  boolv c b -> typ x = typ y -> P (expr (EIf c x y) (typ x)) -> yields (ternary c x y) P.
Proof.
  intros [Tc _] Txy HP. exists (expr (EIf c x y) (typ x)). split; [|done].
  apply ternary_bool; [done | by rewrite Txy].
Qed.
Lemma ternary_int c b e1 e2 t x y :
  boolv c b -> intv e1 t x -> intv e2 t y ->
  yields (ternary c e1 e2) (fun e => intv e t (if b then x else y)).
Proof.
  intros Hc (T1 & E1 & R1) (T2 & E2 & R2). eapply ternary_yields; [done | by rewrite T1, T2 |].
  split; [done|]. split; [|by destruct b]. unfold expr. rewrite (eval_if _ _ _ b); [|apply Hc].
  by destruct b.
Qed.

Lemma neg_yields e t x : int_type t -> intv e t x -> yields (neg e) (fun e => intv e t (wrapt t (- x))).
Proof.
  intros Ht (Te & Ee & _). exists (expr (EUnOp UnaryMinus e) (typ e)). pose proof (proj1 Ht) as Hi.
  split; [unfold neg, unop; cbn; unfold is_numeric; by rewrite Te, Hi, orb_true_r|].
  split; [done|]. split; [|by apply range_wrap]. unfold expr. rewrite (eval_neg _ x); by rewrite ?Te.
Qed.
Lemma bool_cast e b : boolv e b -> cast_to e bool_ = Ok e.
Proof. intros [Te _]. unfold cast_to, can_cast_to, can_cast_from. by rewrite Te. Qed.
Lemma not_yields e b : boolv e b -> yields (not_ e) (fun e => boolv e (negb b)).
Proof.
  intros He. exists (expr (EUnOp Ast.Not e) TBool). unfold not_. rewrite (bool_cast _ _ He).
  cbn [mbind outcome_bind]. unfold unop, typecheck_unop_arg. destruct He as [Te Ee]. rewrite Te.
  split; [done|]. split; [done|]. by apply eval_not.
Qed.
Lemma and_yields a b x y : boolv a x -> boolv b y -> yields (and_ a b) (fun e => boolv e (x && y)).
Proof.
  intros Ha Hb. exists (expr (EBinOp OpAnd a b) TBool). unfold and_.
  rewrite (bool_cast _ _ Ha), (bool_cast _ _ Hb). cbn [mbind outcome_bind].
  unfold binop, typecheck_binop_args. destruct Ha as [Ta Ea], Hb as [Tb Eb]. rewrite Ta, Tb.
  split; [done|]. split; [done|]. by apply eval_and.
Qed.
Lemma false_boolv : boolv bool_false false.
Proof. split; [done|]. apply eval_bool_constant. Qed.

(** A chain of operations: each step is proved by the lemma of its operator. *)
Ltac step L :=
  let e := fresh "e" in let Ee := fresh "E" in let He := fresh "H" in
  edestruct L as (e & Ee & He); [..|rewrite Ee; cbn [mbind outcome_bind]].

(** ** Checked operators *)

Definition mir_arith (op : BinOp) (x y : Z) : option Z :=
  match op with
  | Add => Some (x + y) | Sub => Some (x - y) | Mul => Some (x * y) | _ => None
  end.

(** [o] is the flag [b] as a C boolean *)
Definition flag (o : Expr) (b : bool) : Prop := typ o = c_bool /\ eval o = Some (VInt (Z.b2z b)).

Lemma overflow_values_correct op a b t x y z :
  int_type t -> intv a t x -> intv b t y -> mir_arith op x y = Some z ->
  exists r o, overflow_values op a b = Ok [r; o]
    /\ intv r t (wrapt t z)
    /\ flag o (negb (in_rangeb (width_of t mm) (is_signed t mm) z)).
Proof.
  intros Ht Ha Hb Hz. pose proof (proj1 Ha) as Ta. subst t.
  assert (exists r o, (match op with
            | Add => add_overflow a b | Sub => sub_overflow a b | Mul => mul_overflow a b
            | _ => Panic end) = Ok (mkOverflow r o)
          /\ intv r (typ a) (wrapt (typ a) z)
          /\ boolv o (negb (in_rangeb (width_of (typ a) mm) (is_signed (typ a) mm) z))) as (r & o & Hro & Hr & Ho).
  { destruct op; try done; injection Hz as <-;
      unfold add_overflow, sub_overflow, mul_overflow, add_overflow_p, sub_overflow_p, mul_overflow_p.
    - step (plus_yields a b (typ a) x y); [done..|]. step (test_yields OpOverflowPlus a b (typ a) x y);
        [done..|by apply eval_overflow_plus|].
      eexists _, _. by split.
    - step (sub_yields a b (typ a) x y); [done..|]. step (test_yields OpOverflowMinus a b (typ a) x y);
        [done..|by apply eval_overflow_minus|].
      eexists _, _. by split.
    - step (mul_yields a b (typ a) x y); [done..|]. step (test_yields OpOverflowMult a b (typ a) x y);
        [done..|by apply eval_overflow_mult|].
      eexists _, _. by split. }
  unfold overflow_values. rewrite Hro. cbn [mbind outcome_bind overflowed result].
  step (flag_yields o); [done|]. eexists _, _. split; [done|]. by split.
Qed.

(** ** Checked shifts *)

Definition int_goto (t : Ty) : outcome Type_ :=
  match t with Int k => codegen_iint k | Uint k => codegen_uint k | _ => Panic end.

Lemma width_in_range t : int_type t -> range_of t (Z.of_N (width_of t mm) - 1).
Proof.
  intros [_ Hw]. unfold range_of, in_range. set (w := Z.of_N (width_of t mm)).
  assert (0 < w) by lia. pose proof (Z.pow_gt_lin_r 2 (w - 1)). pose proof (Z.pow_le_mono_r 2 (w - 1) w).
  destruct (is_signed t mm); lia.
Qed.

Lemma shift_max_yields t g :
  int_goto t = Ok g -> int_type g ->
  yields (shift_max t mm) (fun e => intv e g (Z.of_N (width_of g mm) - 1)).
Proof.
  intros Hg Ht. assert (shift_max t mm = int_constant (Z.of_N (width_of g mm) - 1) g) as ->.
  { destruct Ht as [_ Hw].
    destruct t; try done; cbn in Hg; destruct k; injection Hg as <-; try done;
      unfold shift_max, u64_sub; cbn in Hw |- *;
      (rewrite (proj2 (N.leb_le 1 _)) by lia); cbn; rewrite N2Z.inj_sub by lia; done. }
  apply const_yields; [done|]. by apply width_in_range.
Qed.

(** The value of a shift by less than the width *)
Definition shift_value (op : BinOp) (t : Type_) (x y : Z) : Z :=
  match op with Shl => wrapt t (Z.shiftl x y) | _ => Z.shiftr x y end.

Lemma shiftr_in_range t x y : range_of t x -> 0 <= y -> range_of t (Z.shiftr x y).
Proof.
  unfold range_of, in_range. intros Hx Hy. rewrite Z.shiftr_div_pow2 by done.
  pose proof (Z.pow_pos_nonneg 2 y ltac:(lia) Hy) as Hp. destruct (is_signed t mm).
  - split; [|apply Z.div_lt_upper_bound; nia]. apply Z.div_le_lower_bound; nia.
  - split; [apply Z.div_pos; lia|]. apply Z.div_lt_upper_bound; nia.
Qed.

Lemma shift_op_yields op t1 g1 g2 a b x y :
  op = Shl \/ op = Shr -> int_goto t1 = Ok g1 -> int_type g1 -> int_type g2 ->
  intv a g1 x -> intv b g2 y ->
  yields (match op with
          | Shl => shl a b
          | Shr => if ty_is_signed t1 then ashr a b else lshr a b
          | _ => Panic
          end)
    (fun r => typ r = g1 /\ (0 <= y < Z.of_N (width_of g1 mm) -> intv r g1 (shift_value op g1 x y))).
Proof.
  intros Hop Hg Ht1 Ht2 (Ta & Ea & Ra) (Tb & Eb & Rb).
  assert (forall sop, sop = OpShl \/ sop = OpAshr \/ sop = OpLshr ->
    binop a sop b = Ok (expr (EBinOp sop a b) (typ a))) as Hb.
  { intros sop Hs. unfold binop, typecheck_binop_args. rewrite Ta, Tb, (proj1 Ht1), (proj1 Ht2).
    by destruct Hs as [->|[->| ->]]; cbn [binop_return_type]; rewrite Ta. }
  assert (is_integer (typ a) = true /\ is_integer (typ b) = true) as [Hia Hib]
    by (rewrite Ta, Tb; split; [apply Ht1 | apply Ht2]).
  destruct Hop as [-> | ->]; [|destruct (ty_is_signed t1) eqn:Es]; unfold shl, ashr, lshr;
    rewrite Hb by auto; (eexists; split; [done|]); (split; [done|]); intros Hy;
    (split; [done|]); (split; [|first [by apply range_wrap | apply shiftr_in_range; [done|lia]]]).
  - unfold wrap_to. rewrite <- Ta. by apply eval_shl; [..|rewrite Ta].
  - by apply (eval_ashr a b); [..|rewrite Ta].
  - unfold expr. rewrite (eval_lshr a b x y) by (done || by rewrite Ta). rewrite Ta. do 2 f_equal. cbn.
    assert (is_signed g1 mm = false) as Hs.
    { destruct t1; try done; cbn in Hg; destruct k; injection Hg as <-; done. }
    unfold range_of, in_range in Ra. rewrite Hs in Ra. rewrite (Z.mod_small x) by done.
    apply wrapt_id; [done|]. apply shiftr_in_range; [|lia]. unfold range_of, in_range. by rewrite Hs.
Qed.

(** The flag is computed on the amount cast to the type of the shifted operand. *)
Lemma shift_values_flag op t1 g1 g2 a b x y :
  op = Shl \/ op = Shr -> int_goto t1 = Ok g1 -> int_type g1 -> int_type g2 ->
  intv a g1 x -> intv b g2 y ->
  exists max r o, shift_max t1 mm = Ok max /\ shift_values op t1 g1 max a b = Ok [r; o]
    /\ (0 <= y < Z.of_N (width_of g1 mm) -> intv r g1 (shift_value op g1 x y))
    /\ flag o (Z.of_N (width_of g1 mm) - 1 <? wrapt g1 y).
Proof.
  intros Hop Hg Ht1 Ht2 Ha Hb. destruct (shift_max_yields t1 g1 Hg Ht1) as (max & Hmax & Hm).
  exists max. unfold shift_values.
  step (shift_op_yields op t1 g1 g2 a b x y); [done..|].
  step (cast_yields b g2 y g1); [done..|].
  step (gt_yields e0 max g1); [done..|]. step (flag_yields e1); [done|].
  eexists _, _. split; [done|]. split; [done|]. split; [apply H | done].
Qed.

(** ** Exact division *)

(** The division of the least value by minus one, of a signed type *)
Definition div_overflows (t : Type_) (x y : Z) : bool :=
  is_signed t mm && (x =? - 2 ^ (Z.of_N (width_of t mm) - 1)) && (y =? -1).

Lemma min_yields t :
  int_type t -> is_signed t mm = true ->
  yields (min_int_expr t mm) (fun e => intv e t (- 2 ^ (Z.of_N (width_of t mm) - 1))).
Proof.
  intros Ht Hs. destruct (integer_bounds mm t (proj1 Ht) (proj2 Ht)) as (lo & hi & -> & _ & H0 & Hr).
  eexists. split; [done|]. unfold in_range in Hr. rewrite Hs in Hr.
  pose proof (Z.pow_pos_nonneg 2 (Z.of_N (width_of t mm) - 1)) as Hp. pose proof (proj2 Ht).
  assert (lo = - 2 ^ (Z.of_N (width_of t mm) - 1)) as ->.
  { pose proof (proj2 (Hr lo)). pose proof (proj1 (Hr (- 2 ^ (Z.of_N (width_of t mm) - 1)))). lia. }
  split; [done|]. unfold range_of, in_range. rewrite Hs. split; [|lia].
  apply eval_int_constant; [apply Ht|]. unfold in_range. rewrite Hs. lia.
Qed.

Lemma minus_one_yields t :
  int_type t -> is_signed t mm = true -> (1 < width_of t mm)%N ->
  yields (one ← one t; neg one) (fun e => intv e t (-1)).
Proof.
  intros Ht Hs Hw. pose proof (Z.pow_le_mono_r 2 1 (Z.of_N (width_of t mm) - 1)) as Hp.
  assert (range_of t 1 /\ range_of t (-1)) as [H1 Hm1].
  { unfold range_of, in_range. rewrite Hs. lia. }
  unfold one. rewrite (proj1 Ht). step (const_yields t 1); [done..|].
  step (neg_yields e t 1); [done..|]. eexists. split; [done|]. by rewrite <- (wrapt_id t (-1)).
Qed.

Lemma exact_div_checks_correct a b t x y :
  int_type t -> (1 < width_of t mm)%N -> intv a t x -> intv b t y ->
  exists e nz no, exact_div_checks mm a b = Ok (e, nz, no)
    /\ typ e = TBool /\ (y <> 0 -> boolv e (Z.rem x y =? 0)) /\ boolv nz (negb (y =? 0))
    /\ boolv no (negb (div_overflows t x y)).
Proof.
  intros Ht Hw Ha Hb. unfold exact_div_checks. rewrite (proj1 Ha), (proj1 Hb).
  pose proof (rem_yields a b t x y Ht Ha Hb) as Hrem. unfold rem_ in *.
  rewrite (binop_arith OpMod a b t) in * by (done || apply Ht || apply Ha || apply Hb).
  cbn [mbind outcome_bind]. step (zero_yields t); [done|].
  pose proof (fun Hr => eq_yields (expr (EBinOp OpMod a b) t) e t (Z.rem x y) 0 Ht Hr H) as Heq.
  unfold eq_ in *. rewrite (binop_test OpEqual _ e t) in * by (done || apply Ht || apply H).
  cbn [mbind outcome_bind]. step (neq_yields b e t y 0); [done..|].
  assert (exists m1 m2, (if is_signed t mm then m ← min_int_expr t mm; binop a OpEqual m else Ok bool_false) = Ok m1
    /\ (if is_signed t mm then o ← one t; m ← neg o; binop b OpEqual m else Ok bool_false) = Ok m2
    /\ boolv m1 (is_signed t mm && (x =? - 2 ^ (Z.of_N (width_of t mm) - 1)))
    /\ boolv m2 (is_signed t mm && (y =? -1))) as (m1 & m2 & -> & -> & V1 & V2).
  { destruct (is_signed t mm) eqn:Hs; [|exists bool_false, bool_false; repeat split; apply false_boolv].
    destruct (minus_one_yields t Ht Hs Hw) as (m & Hm & Vm). step (min_yields t); [done..|].
    assert ((o ← one t; m ← neg o; binop b OpEqual m) = binop b OpEqual m) as ->.
    { apply bind_ok in Hm as (o & -> & Hm). cbn [mbind outcome_bind]. by rewrite Hm. }
    edestruct (eq_yields a e1 t x) as (c1 & Hc1 & Vc1); [done..|].
    edestruct (eq_yields b m t y) as (c2 & Hc2 & Vc2); [done..|].
    exists c1, c2. by repeat split; try apply Vc1; try apply Vc2. }
  cbn [mbind outcome_bind]. step (and_yields m1 m2); [done..|]. step (not_yields e1); [done|].
  eexists _, _, _. split; [done|]. split; [done|]. split; [|split; [done|]].
  - intros Hy. destruct (Hrem Hy) as (r & [= <-] & Hr). destruct (Heq Hr) as (q & [= <-] & Hq). exact Hq.
  - replace (div_overflows t x y) with
      (is_signed t mm && (x =? - 2 ^ (Z.of_N (width_of t mm) - 1)) && (is_signed t mm && (y =? -1)));
      [done|]. unfold div_overflows. by destruct (is_signed t mm); cbn; rewrite ?andb_true_r.
Qed.

Lemma assert_bool e msg loc : typ e = TBool -> exists s, assert_ e msg loc = Ok s.
Proof. destruct e as [v t l]. cbn. intros ->. eexists. reflexivity. Qed.

(** The three conditions say that the quotient exists. *)
Lemma exact_quotient t x y :
  int_type t -> range_of t x -> range_of t y ->
  (y <> 0 /\ Z.rem x y = 0 /\ div_overflows t x y = false)
  <-> (exists q, range_of t q /\ x = q * y) /\ y <> 0.
Proof.
  intros [_ Hw] Hx Hy. unfold div_overflows, range_of, in_range in *.
  pose proof (Z.pow_pos_nonneg 2 (Z.of_N (width_of t mm) - 1)) as Hp.
  set (m := 2 ^ (Z.of_N (width_of t mm) - 1)) in *. assert (0 < m) as Hm by lia. split.
  - intros (Hy0 & Hr & Ho). split; [|done]. exists (Z.quot x y).
    pose proof (Z.quot_rem' x y) as Hq. split; [|lia].
    destruct (is_signed t mm); cbn in Ho.
    + assert (x <> -m \/ y <> -1) as Hn.
      { apply andb_false_iff in Ho as [Ho|Ho]; apply Z.eqb_neq in Ho; lia. }
      rewrite Hr, Z.add_0_r in Hq. clear Hp. nia.
    + pose proof (Z.quot_pos x y). assert (0 < y) by lia.
      assert (Z.quot x y <= x) by (rewrite Hr, Z.add_0_r in Hq; nia). lia.
  - intros [(q & Hq & ->) Hy0]. split; [done|]. split; [by apply Z.rem_mul|].
    destruct (is_signed t mm); [|done]. cbn. apply andb_false_iff.
    destruct (Z.eqb_spec y (-1)); [left|by right]. apply Z.eqb_neq. subst y. lia.
Qed.

(** ** Sizes of unsized values *)

(** The least multiple of [a] that is not less than [x] *)
Definition round_up_to (a x : Z) : Z := (x + (a - 1)) / a * a.

Lemma land_multiple w k z :
  0 <= k <= w -> 0 <= z < 2 ^ w -> Z.land z (2 ^ w - 2 ^ k) = z / 2 ^ k * 2 ^ k.
Proof.
  intros Hk Hz. assert (2 ^ w - 2 ^ k = Z.ldiff (Z.ones w) (Z.ones k)) as ->.
  { rewrite Z.ldiff_ones_r, Z.shiftr_div_pow2, Z.shiftl_mul_pow2, Z.ones_div_pow2 by lia.
    rewrite Z.ones_equiv. rewrite <- Z.sub_1_r, Z.mul_sub_distr_r, <- Z.pow_add_r by lia.
    replace (w - k + k) with w by lia. lia. }
  rewrite Z.ldiff_land, Z.land_assoc, Z.land_ones, Z.mod_small by lia.
  by rewrite <- Z.ldiff_land, Z.ldiff_ones_r, Z.shiftr_div_pow2, Z.shiftl_mul_pow2 by lia.
Qed.

Lemma mask_yields a b t x k :
  int_type t -> is_signed t mm = false -> 0 <= k < Z.of_N (width_of t mm) ->
  intv a t x -> intv b t (2 ^ k) ->
  yields (neg ← neg b; bitand a neg) (fun e => intv e t (x / 2 ^ k * 2 ^ k)).
Proof.
  intros Ht Hs Hk Ha Hb. pose proof (proj2 (proj2 Ha)) as Hx. unfold range_of, in_range in Hx.
  rewrite Hs in Hx. pose proof (Z.pow_pos_nonneg 2 k ltac:(lia) ltac:(lia)) as Hp.
  pose proof (Z.pow_lt_mono_r 2 k (Z.of_N (width_of t mm)) ltac:(lia) ltac:(lia)) as Hl.
  step (neg_yields b t (2 ^ k)); [done..|]. eapply (bitand_yields a e t); [done..| |].
  - assert (wrapt t (- 2 ^ k) = 2 ^ Z.of_N (width_of t mm) - 2 ^ k) as ->.
    { unfold wrap_to, wrap. rewrite Hs. cbn [andb].
      rewrite <- (Z.mod_add _ 1) by lia. rewrite Z.mod_small; lia. }
    by apply land_multiple; [lia|].
  - unfold range_of, in_range. rewrite Hs. pose proof (Z.div_mod x (2 ^ k)).
    pose proof (Z.mod_pos_bound x (2 ^ k)). pose proof (Z.div_pos x (2 ^ k)). nia.
Qed.

Lemma pad_size_align_correct ss sa us ua (s1 a1 s2 a2 k1 k2 : Z) :
  int_type size_t -> intv ss size_t s1 -> intv sa size_t a1 -> intv us size_t s2 -> intv ua size_t a2 ->
  a1 = 2 ^ k1 -> a2 = 2 ^ k2 -> 0 <= k1 -> 0 <= k2 ->
  s1 + s2 + Z.max a1 a2 <= 2 ^ Z.of_N (width_of size_t mm) ->
  exists r, pad_size_align ss sa us ua = Ok r
    /\ intv (sa_size r) size_t (round_up_to (Z.max a1 a2) (s1 + s2))
    /\ intv (sa_align r) size_t (Z.max a1 a2).
Proof.
  intros Ht Hss Hsa Hus Hua E1 E2 Hk1 Hk2 Hov. unfold pad_size_align.
  assert (forall x, range_of size_t x <-> 0 <= x < 2 ^ Z.of_N (width_of size_t mm)) as Hr by done.
  pose proof (proj1 (Hr _) (proj2 (proj2 Hss))). pose proof (proj1 (Hr _) (proj2 (proj2 Hus))).
  pose proof (proj1 (Hr _) (proj2 (proj2 Hsa))). pose proof (proj1 (Hr _) (proj2 (proj2 Hua))).
  assert (0 < a1 /\ 0 < a2) as [Hp1 Hp2] by (subst; split; apply Z.pow_pos_nonneg; lia).
  step (plus_yields ss us size_t s1 s2); [done..|]. rewrite (wrapt_id _ (s1 + s2)) in * by (done || apply Hr; lia).
  step (ge_yields sa ua size_t a1 a2); [done..|].
  step (ternary_int e0 (a2 <=? a1) sa ua size_t a1 a2); [done..|].
  replace (if a2 <=? a1 then a1 else a2) with (Z.max a1 a2) in * by (destruct (Z.leb_spec a2 a1); lia).
  step (const_yields size_t 1); [done|apply Hr; lia|].
  step (sub_yields e1 e2 size_t); [done..|]. rewrite wrapt_id in * by (done || apply Hr; lia).
  step (plus_yields e e3 size_t); [done..|]. rewrite wrapt_id in * by (done || apply Hr; lia).
  assert (exists k, 0 <= k /\ Z.max a1 a2 = 2 ^ k) as (k & Hk & Ek).
  { destruct (Z.max_spec a1 a2) as [[_ ->]|[_ ->]]; eauto. }
  edestruct (mask_yields e4 e1 size_t (s1 + s2 + (Z.max a1 a2 - 1)) k) as (m & Em & Hm); [done|done| |done|by rewrite <- Ek|].
  { split; [done|]. apply (Z.pow_lt_mono_r_iff 2); lia. }
  apply bind_ok in Em as (ng & -> & Em). cbn [mbind outcome_bind]. rewrite Em.
  cbn [mbind outcome_bind]. eexists. split; [done|]. cbn [sa_size sa_align]. split; [|done].
  unfold round_up_to. by rewrite Ek in Hm |- *.
Qed.

(** ** Niches *)

Lemma wrapt_mod t x y :
  x mod 2 ^ Z.of_N (width_of t mm) = y mod 2 ^ Z.of_N (width_of t mm) -> wrapt t x = wrapt t y.
Proof. unfold wrap_to, wrap. by intros ->. Qed.
Lemma wrapt_modulo t x : wrapt t x mod 2 ^ Z.of_N (width_of t mm) = x mod 2 ^ Z.of_N (width_of t mm).
Proof.
  unfold wrap_to, wrap. destruct (_ && _); [|apply Z.mod_mod; pose proof (Z.pow_pos_nonneg 2 (Z.of_N (width_of t mm))); lia].
  rewrite <- (Z.mod_add _ 1) by (pose proof (Z.pow_pos_nonneg 2 (Z.of_N (width_of t mm))); lia).
  replace (_ - _ + _) with (x mod 2 ^ Z.of_N (width_of t mm)) by lia.
  apply Z.mod_mod. pose proof (Z.pow_pos_nonneg 2 (Z.of_N (width_of t mm))). lia.
Qed.
Lemma wrapt_sub t x y : wrapt t (x - wrapt t y) = wrapt t (x - y).
Proof. apply wrapt_mod. rewrite Zminus_mod, wrapt_modulo. symmetry. apply Zminus_mod. Qed.

(** A value within [0..m] of its type, read as a 64-bit number, is at most [m] exactly when
    the value is one of them; it then is the value. *)
Lemma relative_small t x m :
  int_type t -> (width_of t mm <= 64)%N -> 0 <= m -> range_of t m ->
  let d := x mod 2 ^ Z.of_N (width_of t mm) in
  (wrapt (TUnsignedbv 64) (wrapt t x) <=? m) = (d <=? m) /\ (d <= m -> wrapt t x = d).
Proof.
  intros [_ Hw] H64 Hm Hr d. unfold range_of, in_range in Hr. pose proof (pow2_split _ Hw) as H2.
  pose proof (Z.mod_pos_bound x (2 ^ Z.of_N (width_of t mm))) as Hd. fold d in Hd.
  assert (0 < 2 ^ (Z.of_N (width_of t mm) - 1)) as Hp by (apply Z.pow_pos_nonneg; lia).
  assert (2 ^ Z.of_N (width_of t mm) <= 2 ^ 64) as H64' by (apply Z.pow_le_mono_r; lia).
  assert (forall z, wrapt (TUnsignedbv 64) z = z mod 2 ^ 64) as -> by done.
  assert (wrapt t x = d \/ is_signed t mm = true /\ m < d /\ wrapt t x = d - 2 ^ Z.of_N (width_of t mm))
    as [Hx|(Hs & Hmd & Hx)].
  { unfold wrap_to, wrap. fold d. destruct (is_signed t mm); [|by left]. cbn [andb].
    destruct (Z.leb_spec (2 ^ (Z.of_N (width_of t mm) - 1)) d); [right|by left]. repeat split; lia. }
  - rewrite Hx. split; [|done]. by rewrite (Z.mod_small d) by lia.
  - split; [|lia]. rewrite Hx. transitivity false; [|symmetry; apply Z.leb_gt; lia].
    rewrite <- (Z.mod_add _ 1) by lia. apply Z.leb_gt.
    rewrite Z.mod_small; lia.
Qed.

(** The niche value relative to the first one *)
Lemma relative_yields t e x k :
  int_type t -> intv e t x -> Z.of_N k < 2 ^ Z.of_N (width_of t mm) ->
  yields (if (k =? 0)%N then Ok e else c ← int_constant (Z.of_N k) t; sub_ e c)
    (fun e => intv e t (wrapt t (x - Z.of_N k))).
Proof.
  intros Ht He Hk. destruct (N.eqb_spec k 0) as [->|_].
  - exists e. split; [done|]. cbn. rewrite Z.sub_0_r, wrapt_id; [done|done|apply He].
  - step (bits_yields t (Z.of_N k)); [done|lia|]. rewrite <- wrapt_sub. by apply sub_yields.
Qed.

(** The test whether it is in the niche *)
Lemma niche_test_yields tag t rel x (m : N) (d := x mod 2 ^ Z.of_N (width_of t mm)) :
  tag <> PrimPointer -> int_type t -> (width_of t mm <= 64)%N -> intv rel t (wrapt t x) ->
  range_of t (Z.of_N m) ->
  yields (match tag with
          | PrimPointer => z ← null t; eq_ z rel
          | _ => u64 ← unsigned_int 64; c ← cast_to rel u64; k ← int_constant (Z.of_N m) u64; le_ c k
          end) (fun e => boolv e (d <=? Z.of_N m)).
Proof.
  intros Htag Ht H64 Hrel Hmax.
  destruct (relative_small t x (Z.of_N m)) as [Hcmp _]; [done|done|lia|done|]. fold d in Hcmp.
  assert (int_type (TUnsignedbv 64)) as H64t by done.
  assert (yields (c ← cast_to rel (TUnsignedbv 64); k ← int_constant (Z.of_N m) (TUnsignedbv 64); le_ c k)
            (fun e => boolv e (d <=? Z.of_N m))); [|by destruct tag].
  step (cast_yields rel t (wrapt t x) (TUnsignedbv 64)); [done..|].
  step (const_yields (TUnsignedbv 64) (Z.of_N m)); [done| |rewrite <- Hcmp; by eapply le_yields].
  unfold range_of, in_range in *. pose proof (Z.pow_le_mono_r 2 (Z.of_N (width_of t mm)) 64).
  pose proof (pow2_split _ (proj2 Ht)). pose proof (Z.pow_pos_nonneg 2 (Z.of_N (width_of t mm) - 1)).
  cbn. destruct (is_signed t mm); lia.
Qed.

(** What reading the discriminant gives for every value of the niche *)
Lemma niche_discriminant_value tag dataful start end_ niche_start t r e x :
  tag <> PrimPointer -> int_type t -> (width_of t mm <= 64)%N -> int_type r ->
  intv e t x -> (start <= end_)%N -> Z.of_N niche_start < 2 ^ Z.of_N (width_of t mm) ->
  range_of t (Z.of_N (end_ - start)) -> range_of r (Z.of_N end_) -> range_of r (Z.of_N dataful) ->
  let d := (x - Z.of_N niche_start) mod 2 ^ Z.of_N (width_of t mm) in
  yields (niche_discriminant tag dataful start end_ niche_start t r e)
    (fun v => intv v r (if d <=? Z.of_N (end_ - start) then Z.of_N start + d else Z.of_N dataful)).
Proof.
  intros Htag Ht H64 Hr He Hse Hns Hmax Hend Hdat d. unfold niche_discriminant.
  destruct (relative_yields t e x niche_start Ht He Hns) as (rel & -> & Hrel).
  cbn [mbind outcome_bind]. unfold u64_sub. rewrite (proj2 (N.leb_le start end_) Hse). cbn [mbind outcome_bind].
  destruct (relative_small t (x - Z.of_N niche_start) (Z.of_N (end_ - start))) as [_ Hval]; [done|done|lia|done|].
  fold d in Hval. set (m := (end_ - start)%N) in *.
  destruct (niche_test_yields tag t rel (x - Z.of_N niche_start) m) as (is_niche & -> & Hniche); [done..|].
  fold d in Hniche.
  cbn [mbind outcome_bind].
  assert (forall z, 0 <= z <= Z.of_N end_ -> range_of r z) as Hrz.
  { intros z Hz. unfold range_of, in_range in *. destruct (is_signed r mm); lia. }
  assert (yields (if (m =? 0)%N then zero r else cast_to rel r)
            (fun e => exists z, intv e r z /\ (d <= Z.of_N m -> z = d))) as (base & -> & z & Hbase & Hz).
  { pose proof (Z.mod_pos_bound (x - Z.of_N niche_start) (2 ^ Z.of_N (width_of t mm))) as Hd. fold d in Hd.
    assert (0 < 2 ^ Z.of_N (width_of t mm)) by (apply Z.pow_pos_nonneg; lia).
    destruct (N.eqb_spec m 0) as [Hm0|_].
    - step (zero_yields r); [done|]. eexists. split; [done|]. exists 0. split; [done|]. lia.
    - step (cast_yields rel t (wrapt t (x - Z.of_N niche_start)) r); [done..|]. eexists. split; [done|]. eexists. split; [done|].
      intros Hdm. rewrite (Hval Hdm). apply wrapt_id; [done|]. apply Hrz. lia. }
  cbn [mbind outcome_bind]. step (const_yields r (Z.of_N start)); [done|apply Hrz; lia|].
  step (plus_yields base e0 r); [done..|]. step (const_yields r (Z.of_N dataful)); [done..|].
  edestruct (ternary_int is_niche (d <=? Z.of_N m) e1 e2 r) as (res & Eres & Hres); [done..|].
  exists res. split; [done|]. destruct (Z.leb_spec d (Z.of_N m)) as [Hdm|]; [|done].
  rewrite (Hz Hdm), wrapt_id in Hres; [by rewrite Z.add_comm|done|].
  apply Hrz. pose proof (Z.mod_pos_bound (x - Z.of_N niche_start) (2 ^ Z.of_N (width_of t mm))) as Hd.
  fold d in Hd. assert (0 < 2 ^ Z.of_N (width_of t mm)) by (apply Z.pow_pos_nonneg; lia). lia.
Qed.
End Denotation.

(** Writing a variant into a niche, and reading it *)
Lemma niche_round mm eval `{!GotoSemantics mm eval} `{!GotoBits mm eval} `{!GotoArith mm eval}
    tag dataful start end_ niche_start t r v :
  tag <> PrimPointer -> int_type mm t -> (width_of t mm <= 64)%N -> int_type mm r ->
  (start <= v <= end_)%N ->
  Z.of_N (niche_start + (end_ - start)) < 2 ^ Z.of_N (width_of t mm) ->
  range_of mm t (Z.of_N (end_ - start)) -> range_of mm r (Z.of_N end_) -> range_of mm r (Z.of_N dataful) ->
  exists nv c x, niche_value v start niche_start = Ok nv /\ niche_value_expr tag t nv = Ok c
    /\ intv mm eval c t x
    /\ (forall e, intv mm eval e t x ->
         exists d, niche_discriminant tag dataful start end_ niche_start t r e = Ok d
           /\ intv mm eval d r (Z.of_N v))
    /\ (forall e y, intv mm eval e t y ->
         Z.of_N (end_ - start) < (y - Z.of_N niche_start) mod 2 ^ Z.of_N (width_of t mm) ->
         exists d, niche_discriminant tag dataful start end_ niche_start t r e = Ok d
           /\ intv mm eval d r (Z.of_N dataful)).
Proof.
  intros Htag Ht H64 Hr Hv Hns Hmax Hend Hdat.
  set (nv := (v - start + niche_start)%N).
  assert (Z.of_N nv < 2 ^ Z.of_N (width_of t mm)) as Hnv by (unfold nv; lia).
  assert (2 ^ Z.of_N (width_of t mm) <= 2 ^ 128) as H128 by (apply Z.pow_le_mono_r; lia).
  assert (niche_value v start niche_start = Ok nv) as Env.
  { unfold niche_value, u64_sub. rewrite (proj2 (N.leb_le start v)) by lia. cbn [mbind outcome_bind].
    rewrite N.mod_small; [done|]. change (2 ^ 128)%N with (Z.to_N (2 ^ 128)). lia. }
  destruct (bits_yields mm eval t (Z.of_N nv)) as (c & Hc & Vc); [done|lia|].
  exists nv, c, (wrap_to mm t (Z.of_N nv)). split; [done|].
  split; [unfold niche_value_expr; by destruct tag|]. split; [done|]. split.
  - intros e He.
    edestruct (niche_discriminant_value mm eval tag dataful start end_ niche_start t r e) as (d & Hd & Vd);
      [done|done|done|done|done|lia|lia|done|done|done|].
    exists d. split; [done|]. revert Vd. rewrite Zminus_mod, wrapt_modulo, <- Zminus_mod.
    rewrite Z.mod_small by (unfold nv; lia). rewrite (proj2 (Z.leb_le _ _)) by (unfold nv; lia).
    by replace (Z.of_N start + (Z.of_N nv - Z.of_N niche_start)) with (Z.of_N v) by (unfold nv; lia).
  - intros e y He Hy.
    edestruct (niche_discriminant_value mm eval tag dataful start end_ niche_start t r e) as (d & Hd & Vd);
      [done|done|done|done|done|lia|lia|done|done|done|].
    exists d. split; [done|]. by rewrite (proj2 (Z.leb_gt _ _) Hy) in Vd.
Qed.

(** ** Properties *)

(** [CheckedBinaryOp] of an addition, subtraction or multiplication of two integers of one
    type gives the result wrapped to the width of the type and a flag that is set exactly when
    the mathematical result does not fit: with the flag clear the result is exact. *)
Theorem checked_op_correct mm eval `{!GotoSemantics mm eval} `{!GotoBits mm eval} `{!GotoArith mm eval}
    op a b t x y z :
  int_type mm t -> intv mm eval a t x -> intv mm eval b t y -> mir_arith op x y = Some z ->
  exists r o, overflow_values op a b = Ok [r; o]
    /\ intv mm eval r t (wrap_to mm t z)
    /\ ((flag eval o false /\ range_of mm t z /\ wrap_to mm t z = z)
        \/ (flag eval o true /\ ~ range_of mm t z)).
Proof.
  intros Ht Ha Hb Hz. destruct (overflow_values_correct mm eval op a b t x y z Ht Ha Hb Hz)
    as (r & o & Hro & Hr & Ho). exists r, o. split; [done|]. split; [done|].
  destruct (in_rangeb _ _ z) eqn:E; [left|right]; (split; [done|]).
  - apply in_rangeb_spec in E. split; [done|]. by apply wrapt_id.
  - intros Hin%in_rangeb_spec. congruence.
Qed.

Definition u8_max : Expr := expr (EIntConstant 255) (TUnsignedbv 8).
Definition u8_one : Expr := expr (EIntConstant 1) (TUnsignedbv 8).

Lemma checked_op_correct_witness :
  exists r o, overflow_values Add u8_max u8_one = Ok [r; o]
    /\ bv_eval x86_64 r = Some (VInt 0) /\ flag (bv_eval x86_64) o true.
Proof.
  destruct (checked_op_correct x86_64 (bv_eval x86_64) Add u8_max u8_one (TUnsignedbv 8) 255 1 256)
    as (r & o & Hro & Hr & Ho); [split; reflexivity | repeat split; vm_compute; congruence
      | repeat split; vm_compute; congruence | reflexivity |].
  exists r, o. split; [exact Hro|]. split; [apply Hr|]. destruct Ho as [(_ & Hin & _)|[Ho _]]; [|exact Ho].
  vm_compute in Hin. destruct Hin as [_ Hin]. discriminate Hin.
Defined.

(** C17. A checked shift by less than the width of the shifted type has the value of the shift.
    Its flag says whether the amount, converted to the shifted type, is the width or more.  So
    for an amount that is not negative and that the shifted type represents, the flag is set
    exactly when the amount is not less than the width.  For others it can be wrong: it is clear
    for the amount 2^width, and for every negative amount that the shifted type represents. *)
Theorem shift_flag_exact mm eval `{!GotoSemantics mm eval} `{!GotoBits mm eval} `{!GotoArith mm eval}
    op t1 g1 g2 a b x y :
  op = Shl \/ op = Shr -> int_goto t1 = Ok g1 -> int_type mm g1 -> int_type mm g2 ->
  intv mm eval a g1 x -> intv mm eval b g2 y ->
  exists max r o, shift_max t1 mm = Ok max /\ shift_values op t1 g1 max a b = Ok [r; o]
    /\ (0 <= y < Z.of_N (width_of g1 mm) -> intv mm eval r g1 (shift_value mm op g1 x y))
    /\ flag eval o (Z.of_N (width_of g1 mm) <=? wrap_to mm g1 y)
    /\ (0 <= y -> range_of mm g1 y -> flag eval o (Z.of_N (width_of g1 mm) <=? y))
    /\ (y = 2 ^ Z.of_N (width_of g1 mm) \/ (y < 0 /\ range_of mm g1 y) -> flag eval o false).
Proof.
  intros Hop Hg Ht1 Ht2 Ha Hb.
  destruct (shift_values_flag mm eval op t1 g1 g2 a b x y Hop Hg Ht1 Ht2 Ha Hb)
    as (max & r & o & Hmax & Hv & Hr & Ho).
  exists max, r, o. split; [done|]. split; [done|]. split; [done|]. pose proof (proj2 Ht1) as Hw.
  replace (Z.of_N (width_of g1 mm) - 1 <? wrap_to mm g1 y)
    with (Z.of_N (width_of g1 mm) <=? wrap_to mm g1 y) in Ho.
  2: { destruct (Z.leb_spec (Z.of_N (width_of g1 mm)) (wrap_to mm g1 y)),
         (Z.ltb_spec (Z.of_N (width_of g1 mm) - 1) (wrap_to mm g1 y)); lia. }
  split; [done|]. split.
  - intros H0 Hy. by rewrite wrapt_id in Ho.
  - intros [->|[H0 Hy]].
    + replace (wrap_to mm g1 (2 ^ Z.of_N (width_of g1 mm))) with 0 in Ho.
      { by replace (Z.of_N (width_of g1 mm) <=? 0) with false in Ho by (symmetry; apply Z.leb_gt; lia). }
      unfold wrap_to, wrap. rewrite Z.mod_same by (pose proof (Z.pow_pos_nonneg 2 (Z.of_N (width_of g1 mm))); lia).
      destruct (Z.leb_spec (2 ^ (Z.of_N (width_of g1 mm) - 1)) 0); [|by rewrite andb_false_r].
      pose proof (Z.pow_pos_nonneg 2 (Z.of_N (width_of g1 mm) - 1)). lia.
    + rewrite wrapt_id in Ho by done.
      by replace (Z.of_N (width_of g1 mm) <=? y) with false in Ho by (symmetry; apply Z.leb_gt; lia).
Qed.

Definition u32_256 : Expr := expr (EIntConstant 256) (TUnsignedbv 32).

(** [1u8 << 256u32] is not flagged. *)
Lemma shift_flag_exact_witness :
  exists max r o, shift_max (Uint U8) x86_64 = Ok max
    /\ shift_values Shl (Uint U8) (TUnsignedbv 8) max u8_one u32_256 = Ok [r; o]
    /\ flag (bv_eval x86_64) o false.
Proof.
  destruct (shift_flag_exact x86_64 (bv_eval x86_64) Shl (Uint U8) (TUnsignedbv 8) (TUnsignedbv 32)
    u8_one u32_256 1 256) as (max & r & o & Hmax & Hv & _ & _ & _ & Ho);
    [by left | reflexivity | split; reflexivity | split; reflexivity
    | repeat split; vm_compute; congruence | repeat split; vm_compute; congruence |].
  exists max, r, o. split; [exact Hmax|]. split; [exact Hv|]. apply Ho. left. reflexivity.
Defined.

(** C16. The code of the intrinsic [exact_div] asserts three conditions and then stores the
    quotient.  For two integers of one type (of more than one bit) the conditions hold together
    if and only if the divisor is not zero and divides the dividend with a quotient that the
    type can represent; that quotient is then the value stored; otherwise a condition is false. *)
Theorem exact_div_exact `{StrDebug, TyCtxt, MirCtxt, InternOrder} n c eval
    `{!GotoSemantics (machine_model (gcx_table c)) eval} `{!GotoBits (machine_model (gcx_table c)) eval}
    `{!GotoArith (machine_model (gcx_table c)) eval} a b t x y p loc :
  int_type (machine_model (gcx_table c)) t -> (1 < width_of t (machine_model (gcx_table c)))%N ->
  intv (machine_model (gcx_table c)) eval a t x -> intv (machine_model (gcx_table c)) eval b t y ->
  let quotient q := range_of (machine_model (gcx_table c)) t q /\ x = q * y /\ y <> 0 in
  exists exact nonzero no_overflow d s1 s2 s3,
    assert_ exact "exact_div arguments divide exactly" loc = Ok s1
    /\ assert_ nonzero "exact_div divisor is nonzero" loc = Ok s2
    /\ assert_ no_overflow "exact_div division does not overflow" loc = Ok s3
    /\ codegen_exact_div n [a; b] p loc c
       = (s4 ← codegen_expr_to_place n p d; mret (block [s1; s2; s3; s4] loc)) c
    /\ (eval exact = Some (VBool true) /\ eval nonzero = Some (VBool true)
        /\ eval no_overflow = Some (VBool true) <-> exists q, quotient q)
    /\ (forall q, quotient q -> eval d = Some (VInt q))
    /\ ((~ exists q, quotient q) ->
         eval nonzero = Some (VBool false) \/ eval exact = Some (VBool false)
         \/ eval no_overflow = Some (VBool false)).
Proof.
  set (mm := machine_model (gcx_table c)) in *. intros Ht Hw Ha Hb quotient.
  destruct (exact_div_checks_correct mm eval a b t x y Ht Hw Ha Hb)
    as (e & nz & no & Hc & Te & He & [Tnz Hnz] & [Tno Hno]).
  pose proof (exact_quotient mm t x y Ht (proj2 (proj2 Ha)) (proj2 (proj2 Hb))) as Hq.
  assert (Hq' : (exists q, quotient q) <-> y <> 0 /\ Z.rem x y = 0 /\ div_overflows mm t x y = false).
  { rewrite Hq. unfold quotient. split; [intros (q & ? & ? & ?); eauto | intros [(q & ? & ?) ?]; eauto]. }
  destruct (assert_bool e "exact_div arguments divide exactly" loc Te) as [s1 A1].
  destruct (assert_bool nz "exact_div divisor is nonzero" loc Tnz) as [s2 A2].
  destruct (assert_bool no "exact_div division does not overflow" loc Tno) as [s3 A3].
  exists e, nz, no, (expr (EBinOp OpDiv a b) t), s1, s2, s3. do 3 (split; [done|]). split.
  { unfold codegen_exact_div, div_, g_lift, g_table, mbind, G_bind. cbn. fold mm. rewrite Hc. cbn.
    rewrite A1. cbn. rewrite A2. cbn. rewrite A3. cbn.
    by rewrite (binop_arith OpDiv a b t) by (done || apply Ht || apply Ha || apply Hb). }
  rewrite Hq', Hnz, Hno. split; [|split].
  - destruct (Z.eqb_spec y 0) as [->|Hy]; cbn [negb]; [split; [by intros (_ & ? & _)|by intros [? _]]|].
    rewrite (proj2 (He Hy)). destruct (Z.eqb_spec (Z.rem x y) 0) as [Hr|Hr];
      [|split; [by intros (? & _)|by intros (_ & ? & _)]].
    destruct (div_overflows mm t x y); cbn [negb]; split; [|by intros (_ & _ & ?)|by split|by split].
    by intros (_ & _ & ?).
  - intros q (Hrq & -> & Hy). unfold expr. pose proof (eval_div a b (q * y) y Location.none) as Hd.
    rewrite (proj1 Ha) in Hd. rewrite Hd by (done || by eapply operands).
    rewrite Z.quot_mul by done. by rewrite wrapt_id.
  - intros Hn. destruct (Z.eqb_spec y 0) as [->|Hy]; [by left|]. rewrite (proj2 (He Hy)).
    destruct (Z.eqb_spec (Z.rem x y) 0) as [Hr|Hr]; [|by right; left].
    destruct (div_overflows mm t x y); [by right; right|]. by destruct Hn.
Qed.

Definition i8_min : Expr := expr (EIntConstant (-128)) (TSignedbv 8).
Definition i8_minus_one : Expr := expr (EIntConstant (-1)) (TSignedbv 8).

(** The least [i8] by [-1]: the code is made, and one of its assertions fails. *)
Lemma exact_div_exact_witness :
  exists exact nonzero no_overflow d s1 s2 s3,
    codegen_exact_div 8 [i8_min; i8_minus_one] (mkPlace 0%N []) Location.none sample_ctx
    = (s4 ← codegen_expr_to_place 8 (mkPlace 0%N []) d; mret (block [s1; s2; s3; s4] Location.none)) sample_ctx
    /\ (bv_eval x86_64 nonzero = Some (VBool false) \/ bv_eval x86_64 exact = Some (VBool false)
        \/ bv_eval x86_64 no_overflow = Some (VBool false)).
Proof.
  destruct (exact_div_exact 8 sample_ctx (bv_eval x86_64) i8_min i8_minus_one (TSignedbv 8) (-128) (-1)
              (mkPlace 0%N []) Location.none)
    as (e & nz & no & d & s1 & s2 & s3 & _ & _ & _ & Hc & _ & _ & Hd);
    [split; reflexivity | reflexivity | repeat split; vm_compute; congruence
    | repeat split; vm_compute; congruence |].
  exists e, nz, no, d, s1, s2, s3. split; [exact Hc|]. apply Hd. intros (q & Hq & E & _).
  unfold range_of, in_range in Hq. cbn in Hq. lia.
Defined.

(** The size of a value whose last field is unsized is the end of that field rounded up to
    the larger of the two alignments, which is the alignment of the value: the mask with the
    negated alignment computes the least multiple that is not smaller. *)
Theorem dst_size_rounded mm eval `{!GotoSemantics mm eval} `{!GotoBits mm eval} `{!GotoArith mm eval}
    ss sa us ua s1 a1 s2 a2 k1 k2 :
  int_type mm size_t -> intv mm eval ss size_t s1 -> intv mm eval sa size_t a1 ->
  intv mm eval us size_t s2 -> intv mm eval ua size_t a2 ->
  a1 = 2 ^ k1 -> a2 = 2 ^ k2 -> 0 <= k1 -> 0 <= k2 ->
  s1 + s2 + Z.max a1 a2 <= 2 ^ Z.of_N (width_of size_t mm) ->
  exists r size, pad_size_align ss sa us ua = Ok r
    /\ intv mm eval (sa_align r) size_t (Z.max a1 a2) /\ intv mm eval (sa_size r) size_t size
    /\ s1 + s2 <= size < s1 + s2 + Z.max a1 a2 /\ size mod Z.max a1 a2 = 0.
Proof.
  intros Ht Hss Hsa Hus Hua E1 E2 Hk1 Hk2 Hov.
  destruct (pad_size_align_correct mm eval ss sa us ua s1 a1 s2 a2 k1 k2) as (r & Hr & Hs & Hal); [done..|].
  exists r, (round_up_to (Z.max a1 a2) (s1 + s2)). split; [done|]. split; [done|]. split; [done|].
  assert (0 < Z.max a1 a2) as Hp.
  { pose proof (Z.pow_pos_nonneg 2 k1). lia. }
  unfold round_up_to. split; [|apply Z.mod_mul; lia].
  pose proof (Z.div_mod (s1 + s2 + (Z.max a1 a2 - 1)) (Z.max a1 a2)).
  pose proof (Z.mod_pos_bound (s1 + s2 + (Z.max a1 a2 - 1)) (Z.max a1 a2)). lia.
Qed.

Definition usize (k : Z) : Expr := expr (EIntConstant k) size_t.

Lemma dst_size_rounded_witness :
  exists r size, pad_size_align (usize 8) (usize 8) (usize 5) (usize 2) = Ok r
    /\ bv_eval x86_64 (sa_size r) = Some (VInt size) /\ 13 <= size < 21 /\ size mod 8 = 0.
Proof.
  destruct (dst_size_rounded x86_64 (bv_eval x86_64) (usize 8) (usize 8) (usize 5) (usize 2) 8 8 5 2 3 1)
    as (r & size & Hr & _ & (_ & Hs & _) & Hb & Hm);
    [split; reflexivity | repeat split; vm_compute; congruence | repeat split; vm_compute; congruence
    | repeat split; vm_compute; congruence | repeat split; vm_compute; congruence
    | reflexivity | reflexivity | lia | lia | vm_compute; congruence |].
  exists r, size. repeat split; [exact Hr | exact Hs | apply Hb | apply Hb | exact Hm].
Defined.

(** A discriminant written into a niche is read back, and a value of the dataful variant,
    whose payload keeps out of the niche, is read as that variant: for integer niches of at
    most 64 bits whose values do not run over the end of the type. *)
Theorem niche_roundtrip mm eval `{!GotoSemantics mm eval} `{!GotoBits mm eval} `{!GotoArith mm eval}
    tag dataful start end_ niche_start t r v :
  tag <> PrimPointer -> int_type mm t -> (width_of t mm <= 64)%N -> int_type mm r ->
  (start <= v <= end_)%N ->
  Z.of_N (niche_start + (end_ - start)) < 2 ^ Z.of_N (width_of t mm) ->
  range_of mm t (Z.of_N (end_ - start)) -> range_of mm r (Z.of_N end_) -> range_of mm r (Z.of_N dataful) ->
  exists nv c x, niche_value v start niche_start = Ok nv /\ niche_value_expr tag t nv = Ok c
    /\ intv mm eval c t x
    /\ (forall e, intv mm eval e t x ->
         exists d, niche_discriminant tag dataful start end_ niche_start t r e = Ok d
           /\ intv mm eval d r (Z.of_N v))
    /\ (forall e y, intv mm eval e t y ->
         Z.of_N (end_ - start) < (y - Z.of_N niche_start) mod 2 ^ Z.of_N (width_of t mm) ->
         exists d, niche_discriminant tag dataful start end_ niche_start t r e = Ok d
           /\ intv mm eval d r (Z.of_N dataful)).
Proof. exact (niche_round mm eval tag dataful start end_ niche_start t r v). Qed.

(** [Option<bool>]: the niche of the byte is the value 2, for variant 0; [Some] is variant 1. *)
Lemma niche_roundtrip_witness :
  exists d, niche_discriminant (PrimInt Int8 false) 1 0 0 2 (TUnsignedbv 8) ssize_t
              (expr (EIntConstant 2) (TUnsignedbv 8)) = Ok d
    /\ bv_eval x86_64 d = Some (VInt 0).
Proof.
  destruct (niche_roundtrip x86_64 (bv_eval x86_64) (PrimInt Int8 false) 1 0 0 2 (TUnsignedbv 8) ssize_t 0)
    as (nv & c & x & Hnv & Hc & Hx & Hrd & _);
    [discriminate | split; reflexivity | vm_compute; congruence | split; reflexivity
    | split; vm_compute; congruence | reflexivity | split; vm_compute; congruence
    | split; vm_compute; congruence | split; vm_compute; congruence |].
  injection Hnv as <-. injection Hc as <-. destruct (Hrd _ Hx) as (d & Hd & _ & Ed & _).
  exists d. split; [exact Hd | exact Ed].
Defined.
