(* ===== verification/FlowSem.v ===== *)
(** * Where generated code goes

    The control flow of the statements that [codegen_switch_int] and the assertions of MIR
    become: C semantics of [goto], [if] and [switch], for statements that have no effect on
    the state.  [SwitchInt] jumps to the block that MIR selects for the bits of its operand;
    and the pieces into which an allocation is cut for its initializer make up its bytes
    again. *)

From S2P Require Import Prelude CbmcString MachineModel Location Typ Ast SymbolTable Expr Symbol.
From S2P Require Import Builtin Stmt Env Restrictions Mir GotoCtx TypeGen MirTyping PlaceGen OperandGen.
From S2P Require Import ArithGen CastGen RvalueGen IntrinsicGen HookGen StmtGen FunctionGen GenInvariant.
From S2P Require Import Built GenSample GenControl Eval ArithSem.

Open Scope nat_scope.

(** ** Control flow *)

(** A statement falls through to the next one or jumps to a label. *)
Inductive next_stmt := Falls | Jumps (l : InternedString).

Section Control.
Context (eval : Expr -> option val).

Fixpoint control (s : Stmt) : option next_stmt :=
  match s with mkStmt b _ => control_body b end
with control_body (b : StmtBody) : option next_stmt :=
  match b with
  | SSkip => Some Falls
  | SGoto l => Some (Jumps l)
  | SLabel _ s => control s
  | SBlock ss =>
      (fix run (ss : list Stmt) : option next_stmt :=
         match ss with
         | [] => Some Falls
         | s :: ss => match control s with Some Falls => run ss | r => r end
         end) ss
  | SIfthenelse c t e =>
      match eval c with
      | Some (VBool true) => control t
      | Some (VBool false) => match e with Some e => control e | None => Some Falls end
      | _ => None
      end
  | SSwitch c cases d =>
      match eval c with
      | Some (VInt x) =>
          (* from the first case with the value on, with fallthrough *)
          (fix run (taken : bool) (cases : list SwitchCase) : option next_stmt :=
             match cases with
             | [] => match d with Some d => control d | None => Some Falls end
             | mkSwitchCase k s :: cases =>
                 match eval k with
                 | Some (VInt y) =>
                     if taken || (y =? x)%Z
                     then match control s with Some Falls => run true cases | r => r end
                     else run taken cases
                 | _ => None
                 end
             end) false cases
      | _ => None
      end
  | _ => None
  end.
End Control.

(** ** Switches *)

(** The case for the value [cb.1] and the block [cb.2] *)
Definition case_for (ls : list string) (cb : N * N) (c : SwitchCase) : Prop :=
  exists g l loc, c = switch_case (expr (EIntConstant (Z.of_N cb.1)) g) (stmt (SGoto l) loc)
    /\ is_integer g = true /\ ls !! N.to_nat cb.2 = Some l.

Lemma emits_map2 `{TyCtxt} ls {A B} (P : A -> B -> Prop) (f : A -> G B) l :
  (forall a, emits ls (P a) (f a)) -> emits ls (Forall2 P l) (g_map f l).
Proof.
  intros Hf. induction l as [|a l IH]; cbn [g_map]; [apply emits_ret; constructor|].
  eapply emits_bind; [apply Hf|]. intros b Hb. eapply emits_bind; [apply IH|]. intros bs Hbs.
  apply emits_ret. by constructor.
Qed.

Lemma emits_goto `{TyCtxt} ls bb loc :
  emits ls (fun s => exists l, s = stmt (SGoto l) loc /\ ls !! N.to_nat bb = Some l) (goto_label bb loc).
Proof.
  unfold goto_label. eapply emits_bind; [apply emits_find_label|]. intros l Hl.
  apply emits_lift. intros s Hs. unfold goto in Hs. outcome_inv. by exists l.
Qed.

Section Switch.
Context `{StrDebug, TyCtxt, MirCtxt, InternOrder}.
Context (n : nat) (ls : list string).

Lemma emits_case switch_ty cb :
  emits ls (case_for ls cb)
    (g ← codegen_ty n switch_ty;
     k ← g_lift (int_constant (Z.of_N cb.1) g);
     s ← goto_label cb.2 Location.none;
     mret (switch_case k s)).
Proof.
  eapply emits_bind; [apply emits_settles; settles|]. intros g _.
  apply (emits_bind ls _ (fun k => k = expr (EIntConstant (Z.of_N cb.1)) g /\ is_integer g = true)).
  { apply emits_lift. intros k Hk. unfold int_constant in Hk. by outcome_inv. }
  intros k [-> Hg]. eapply emits_bind; [apply emits_goto|]. intros s (l & -> & Hl).
  apply emits_ret. by exists g, l, Location.none.
Qed.

(** What a switch is made of, after its operand *)
Lemma emits_switch_rest v switch_ty ts :
  emits ls (fun s => exists cases o l, s = stmt (SSwitch v cases (Some (stmt (SGoto l) Location.none))) Location.none
              /\ Forall2 (case_for ls) (switch_iter ts) cases
              /\ forallb (fun c => type_eqb (typ (case c)) (typ v)) cases = true
              /\ otherwise ts = Ok o /\ ls !! N.to_nat o = Some l)
    (g_lift (rassert (1 <? length (all_targets ts))%nat);;
     cases ← g_map (fun cb =>
                      g ← codegen_ty n switch_ty;
                      k ← g_lift (int_constant (Z.of_N cb.1) g);
                      s ← goto_label cb.2 Location.none;
                      mret (switch_case k s)) (switch_iter ts);
     o ← g_lift (otherwise ts);
     d ← goto_label o Location.none;
     g_lift (switch v cases (Some d) Location.none)).
Proof.
  eapply emits_bind; [apply emits_settles; settles|]. intros ? _.
  eapply emits_bind; [apply emits_map2; intros cb; apply emits_case|]. intros cases Hc.
  apply (emits_bind ls _ (fun o => otherwise ts = Ok o)); [by apply emits_lift; intros o|]. intros o Ho.
  eapply emits_bind; [apply emits_goto|]. intros d (l & -> & Hl).
  apply emits_lift. intros s Hs. unfold switch in Hs. outcome_inv.
  exists cases, o, l. split_and!; done.
Qed.
End Switch.

Lemma wrap_to_inj mm t x y :
  (0 <= x < 2 ^ Z.of_N (width_of t mm))%Z -> (0 <= y < 2 ^ Z.of_N (width_of t mm))%Z ->
  wrap_to mm t x = wrap_to mm t y -> x = y.
Proof.
  intros Hx Hy E. rewrite <- (Z.mod_small x _ Hx), <- (Z.mod_small y _ Hy).
  by rewrite <- (wrapt_modulo mm t x), E, wrapt_modulo.
Qed.

Lemma integer_type_eq t t' : is_integer t = true -> type_eqb t t' = true -> t = t'.
Proof. intros Hi E%type_eqb_spec. destruct t, t'; try done; cbn in E; congruence. Qed.

Lemma control_switch mm eval `{!GotoSemantics mm eval} `{!GotoArith mm eval} ls v g x iter cases l loc1 loc2 :
  int_type mm g -> typ v = g -> (Z.of_N x < 2 ^ Z.of_N (width_of g mm))%Z ->
  eval v = Some (VInt (wrap_to mm g (Z.of_N x))) ->
  Forall (fun cb => (Z.of_N cb.1 < 2 ^ Z.of_N (width_of g mm))%Z) iter ->
  Forall2 (case_for ls) iter cases ->
  forallb (fun c => type_eqb (typ (case c)) (typ v)) cases = true ->
  exists l', control eval (stmt (SSwitch v cases (Some (stmt (SGoto l) loc1))) loc2) = Some (Jumps l')
    /\ match List.find (fun c => (c.1 =? x)%N) iter with
       | Some c => ls !! N.to_nat c.2 = Some l'
       | None => l' = l
       end.
Proof.
  intros Hg Tv Hx Ev Hvals Hc. cbn [control control_body stmt]. rewrite Ev.
  induction Hc as [|[k bb] c iter cases (g' & lb & loc & -> & Hi & Hl) _ IH]; intros Ht; [by exists l|].
  apply Forall_cons in Hvals as [Hk Hvals]. cbn in Ht, Hk. apply andb_true_iff in Ht as [Ht Hts].
  assert (g' = g) as -> by (rewrite <- Tv; by apply integer_type_eq).
  assert (eval (expr (EIntConstant (Z.of_N k)) g) = Some (VInt (wrap_to mm g (Z.of_N k)))) as Ek.
  { apply eval_int_bits; [apply Hg | lia]. }
  cbn [control control_body stmt switch_case fst List.find]. rewrite Ek.
  destruct (N.eqb_spec k x) as [->|Hne].
  - rewrite Z.eqb_refl. cbn [orb]. exists lb. done.
  - assert ((wrap_to mm g (Z.of_N k) =? wrap_to mm g (Z.of_N x))%Z = false) as ->.
    { apply Z.eqb_neq. intros E%wrap_to_inj; lia. }
    cbn [orb]. by apply IH.
Qed.

(** ** Allocations *)

(** The bytes a piece stands for, the pointers as they are in the allocation *)
Fixpoint piece_bytes (bytes : list N) (pointer_size : nat) (ds : list AllocData) (at_ : nat) : list N :=
  match ds with
  | [] => []
  | AdBytes bs :: ds => bs ++ piece_bytes bytes pointer_size ds (at_ + length bs)
  | AdExpr _ :: ds =>
      take pointer_size (drop at_ bytes) ++ piece_bytes bytes pointer_size ds (at_ + pointer_size)
  end.

(** The relocations come in order and do not overlap. *)
Fixpoint relocs_ordered (pointer_size at_ : N) (relocs : list (N * AllocId)) : Prop :=
  match relocs with
  | [] => True
  | (o, _) :: relocs => (at_ <= o)%N /\ relocs_ordered pointer_size (o + pointer_size) relocs
  end.
Definition is_pointer_piece (d : AllocData) : bool := match d with AdExpr _ => true | AdBytes _ => false end.

Lemma inspect_ok a i j bs :
  inspect a i j = Ok bs ->
  (i <= j)%N /\ N.to_nat j <= length (alloc_bytes a)
  /\ bs = take (N.to_nat j - N.to_nat i) (drop (N.to_nat i) (alloc_bytes a)).
Proof.
  unfold inspect. intros Hi. outcome_inv. bool_inv. rewrite N.leb_le in *.
  split; [done|]. split; [lia|]. f_equal. lia.
Qed.

Lemma drop_split {A} (l : list A) i j : i <= j -> drop i l = take (j - i) (drop i l) ++ drop j l.
Proof.
  intros Hij. rewrite <- (take_drop (j - i) (drop i l)) at 1. rewrite drop_drop. do 2 f_equal. lia.
Qed.

Section Allocations.
Context `{StrDebug, TyCtxt, MirCtxt, InternOrder}.
Context (ap : Type_ -> AllocId -> N -> option Span -> G Expr) (alloc : Allocation).

Lemma data_loop_tiles ps relocs : forall k c ds c',
  relocs_ordered ps k relocs ->
  alloc_data_loop ap alloc ps k relocs c = Done (Ok (ds, c')) ->
  piece_bytes (alloc_bytes alloc) (N.to_nat ps) ds (N.to_nat k) = drop (N.to_nat k) (alloc_bytes alloc)
  /\ length (List.filter is_pointer_piece ds) = length relocs.
Proof.
  induction relocs as [|[o id] relocs IH]; intros k c ds c' Hord Hrun; cbn [alloc_data_loop] in Hrun.
  - destruct (N.leb_spec k (N.of_nat (length (alloc_bytes alloc)))).
    + g_inv. match goal with E : inspect _ _ _ = Ok _ |- _ => apply inspect_ok in E as (_ & _ & ->) end.
      cbn [piece_bytes]. rewrite app_nil_r. split; [|done]. apply take_ge. rewrite length_drop. lia.
    + g_inv. split; [|done]. symmetry. apply drop_ge. lia.
  - destruct Hord as [Hk Hord]. apply g_bind_ok in Hrun as (before & c1 & Hb & Hrun).
    apply g_bind_ok in Hrun as (p & c2 & (? & Hp & [= -> ->])%g_lift_ok & Hrun). outcome_inv.
    match goal with E : inspect _ o _ = Ok _ |- _ => apply inspect_ok in E as (_ & Hlen & _) end.
    apply g_bind_ok in Hrun as (t & c3 & (? & _ & [= -> ->])%g_lift_ok & Hrun).
    apply g_bind_ok in Hrun as (e & c4 & _ & Hrun).
    apply g_bind_ok in Hrun as (rest & c5 & Hrest & [= <- <-]).
    destruct (IH _ _ _ _ Hord Hrest) as [Htile Hcount].
    assert (before = [] /\ k = o
            \/ before = [AdBytes (take (N.to_nat o - N.to_nat k) (drop (N.to_nat k) (alloc_bytes alloc)))]) as Hbef.
    { destruct (N.ltb_spec k o).
      - right. g_inv. match goal with E : inspect _ _ _ = Ok _ |- _ => by apply inspect_ok in E as (_ & _ & ->) end.
      - left. g_inv. split; [done|lia]. }
    rewrite N2Nat.inj_add in Htile, Hlen. 
    rewrite (drop_split _ (N.to_nat k) (N.to_nat o)), (drop_split _ (N.to_nat o) (N.to_nat o + N.to_nat ps)) by lia.
    rewrite <- Htile. replace (N.to_nat o + N.to_nat ps - N.to_nat o) with (N.to_nat ps) by lia.
    destruct Hbef as [[-> ->]| ->]; cbn [app piece_bytes List.filter is_pointer_piece length].
    + rewrite Nat.sub_diag, take_0. split; [done | by rewrite Hcount].
    + rewrite length_take, length_drop.
      replace (N.to_nat k + _ `min` _) with (N.to_nat o) by lia. split; [done | by rewrite Hcount].
Qed.
End Allocations.

(** ** Properties *)

(** C5. A [SwitchInt] on an operand with the bits [x] becomes a statement that jumps to the
    label of the block that MIR selects for [x]: the target of the value [x] if there is one,
    the last target otherwise, also when the type of the operand is signed and its values
    are compared as bit patterns. *)
Theorem switch_int_jumps `{StrDebug, TyCtxt, MirCtxt, InternOrder} mm eval `{!GotoSemantics mm eval}
    `{!GotoArith mm eval} n o ty ts c s c' v c1 f g x :
  length (targets ts) = S (length (values ts)) -> values ts <> [] ->
  Forall (fun k => (Z.of_N k < 2 ^ Z.of_N (width_of g mm))%Z) (values ts) ->
  gcx_current_fn c = Some f -> codegen_operand n o c = Done (Ok (v, c1)) ->
  int_type mm g -> typ v = g -> (Z.of_N x < 2 ^ Z.of_N (width_of g mm))%Z ->
  eval v = Some (VInt (wrap_to mm g (Z.of_N x))) ->
  codegen_switch_int n o ty ts c = Done (Ok (s, c')) ->
  exists bb l, target_for_value ts x = Ok bb /\ fn_labels f !! N.to_nat bb = Some l
    /\ control eval s = Some (Jumps l).
Proof.
  intros Hlen Hne Hvals Hf Hop Hg Tv Hx Ev Hrun. unfold codegen_switch_int in Hrun.
  apply g_bind_ok in Hrun as (v' & c1' & Hop' & Hrun). rewrite Hop in Hop'. injection Hop' as <- <-.
  assert (fn_labels_of c1 = fn_labels f) as Hls.
  { erewrite same_fn_labels; [|by eapply settles_operand]. unfold fn_labels_of. by rewrite Hf. }
  apply g_bind_ok in Hrun as (t' & c2 & Hmono & Hrun). injection Hmono as _ <-.
  destruct (Nat.eqb_spec (length (all_targets ts)) 1) as [E1|_].
  { unfold all_targets in E1. rewrite Hlen in E1. destruct (values ts); [done | discriminate E1]. }
  destruct (emits_switch_rest n (fn_labels f) v t' ts c1 s c' Hls Hrun)
    as (_ & cases & o' & l & -> & Hc & Ht & Ho & Hl).
  destruct (control_switch mm eval (fn_labels f) v g x (switch_iter ts) cases l Location.none Location.none)
    as (l' & Hctl & Hsel); [done..| |done|done|].
  { unfold switch_iter. apply Forall_forall. intros [k b] Hk%elem_of_zip_l.
    by eapply Forall_forall in Hvals. }
  unfold target_for_value. destruct (List.find _ _) as [cb|].
  - by exists cb.2, l'.
  - subst l'. by exists o', l.
Qed.

(** The function [step] of the sample crate, about to be translated *)
Definition in_step : GotocCtx :=
  set_fn sample_ctx
    (Some (mkCurrentFnCtx [] None step_instance (block_labels step_mir) step_mir "step" "step"
             (Some (mkFnSig [u8_ty] u8_ty false false)) 0)).

Lemma switch_int_jumps_witness :
  exists s c', codegen_switch_int 8 (u8_const 5) u8_ty step_targets in_step = Done (Ok (s, c'))
    /\ control (bv_eval x86_64) s = Some (Jumps "bb2").
Proof.
  eexists _, _. split; [vm_compute; reflexivity|].
  edestruct (switch_int_jumps x86_64 (bv_eval x86_64) 8 (u8_const 5) u8_ty step_targets in_step)
    as (bb & l & Hbb & Hl & Hctl).
  10: { vm_compute. reflexivity. }
  4: { vm_compute. reflexivity. }
  4: { vm_compute. reflexivity. }
  5: { reflexivity. }
  - reflexivity.
  - discriminate.
  - repeat constructor; vm_compute; reflexivity.
  - split; reflexivity.
  - instantiate (1 := 5%N). vm_compute. reflexivity.
  - vm_compute. reflexivity.
  - injection Hbb as <-. injection Hl as <-. exact Hctl.
Defined.

(** A [SwitchInt] without values, whose only target is taken for every operand, makes the
    generator panic: the branch for one target asks for the first value. *)
Theorem switch_int_single_target_panics `{StrDebug, TyCtxt, MirCtxt, InternOrder} n o ty ts c v c1 :
  values ts = [] -> length (targets ts) = 1 -> codegen_operand n o c = Done (Ok (v, c1)) ->
  (exists bb, forall x, target_for_value ts x = Ok bb) /\ codegen_switch_int n o ty ts c = Done Panic.
Proof.
  intros Hv Hl Hop. unfold target_for_value, otherwise, codegen_switch_int, switch_iter, all_targets.
  rewrite Hv, Hl. cbn [zip_with List.find]. split.
  - destruct (targets ts) as [|bb [|]]; try done. by exists bb.
  - unfold mbind, G_bind. by rewrite Hop.
Qed.

Lemma switch_int_single_target_panics_witness :
  codegen_switch_int 8 (u8_const 5) u8_ty (mkSwitchTargets [] [1%N]) in_step = Done Panic.
Proof.
  eapply (switch_int_single_target_panics 8 (u8_const 5) u8_ty (mkSwitchTargets [] [1%N]) in_step);
    [reflexivity | reflexivity | vm_compute; reflexivity].
Defined.

(** C19. The pieces into which the bytes of an allocation are cut, byte arrays and one pointer for
    each relocation, make up the bytes of the allocation again, without a gap and in order. *)
Theorem allocation_data_tiles `{StrDebug, TyCtxt, MirCtxt, InternOrder} ap alloc c ds c' :
  let pointer_size := (pointer_width (machine_model (gcx_table c)) / 8)%N in
  relocs_ordered pointer_size 0 (relocations alloc) ->
  codegen_allocation_data ap alloc c = Done (Ok (ds, c')) ->
  piece_bytes (alloc_bytes alloc) (N.to_nat pointer_size) ds 0 = alloc_bytes alloc
  /\ length (List.filter is_pointer_piece ds) = length (relocations alloc).
Proof.
  intros ps Hord Hrun. unfold codegen_allocation_data in Hrun.
  apply g_bind_ok in Hrun as (st & c1 & [= <- <-] & Hrun).
  eapply (data_loop_tiles ap alloc) in Hrun as [Ht Hc]; [|exact Hord]. by rewrite drop_0 in Ht.
Qed.

(** Twelve bytes with a pointer after the second *)
Definition sample_alloc : Allocation :=
  mkAllocation [1; 2; 16; 0; 0; 0; 0; 0; 0; 0; 3; 4]%N [(2%N, 7%N)]
    (mkInitMask [4095%N] 12) 3 false.
Definition null_pointer (t : Type_) (id : AllocId) (o : N) (sp : option Span) : G Expr :=
  g_lift (null t).

Lemma allocation_data_tiles_witness :
  exists ds c', codegen_allocation_data null_pointer sample_alloc sample_ctx = Done (Ok (ds, c'))
    /\ length ds = 3
    /\ piece_bytes (alloc_bytes sample_alloc) 8 ds 0 = alloc_bytes sample_alloc.
Proof.
  eexists _, _. split; [vm_compute; reflexivity|]. split; [reflexivity|].
  eapply (allocation_data_tiles null_pointer sample_alloc sample_ctx);
    [cbn; split; [discriminate | exact I] | vm_compute; reflexivity].
Defined.
