(* ===== verification/TargetAbi.v ===== *)
(** * Sizes, alignments, scalars and niches of a target

    [rustc_target/src/abi/mod.rs]: the arithmetic on sizes and alignments, the parsed data
    layout of a target, the valid ranges of scalars, and the niches that enums are packed
    into.  Sizes are [u64] numbers of bytes, values of scalars are [u128]; arithmetic that
    overflows panics unless the code wraps.  [LayoutInfo] is the full [Layout]; what the
    code generator reads of it is the [Layout] of [Mir] ([erase]).

    Shown here: rounding to an alignment gives the least multiple ([align_to_ok]); reading an
    alignment is exact ([align_from_bytes_exact]); a niche counts exactly the values outside
    the valid range, and reserving values from it takes exactly that many of them, next to
    the range ([niche_available_exact], [niche_reserve_exact]). *)

From S2P Require Import Prelude Mir.

Open Scope N_scope.

(** ** Results

    A function that returns a [Result], can panic and recurses on types: a value, an error,
    a panic, or a recursion that was cut off. *)

Inductive res (E A : Type) : Type :=
| Good (a : A)
| Fails (e : E)
| Bug
| Cut.
Arguments Good {_ _} _.
Arguments Fails {_ _} _.
Arguments Bug {_ _}.
Arguments Cut {_ _}.

#[export] Instance res_ret E : MRet (res E) := fun A a => Good a.
#[export] Instance res_bind E : MBind (res E) := fun A B f m =>
  match m with Good a => f a | Fails e => Fails e | Bug => Bug | Cut => Cut end.

Definition r_lift {E A} (m : outcome A) : res E A := match m with Ok a => Good a | Panic => Bug end.
(** [o.ok_or(e)?] *)
Definition ok_or {E A} (e : E) (o : option A) : res E A :=
  match o with Some a => Good a | None => Fails e end.
Fixpoint r_map {E A B} (f : A -> res E B) (l : list A) : res E (list B) :=
  match l with [] => mret [] | a :: l => b ← f a; r ← r_map f l; mret (b :: r) end.

(** ** [u128] *)

Definition u128_mod : N := 2 ^ 128.
Definition u128_max : N := u128_mod - 1.
Definition wrapping_add (a b : N) : N := (a + b) mod u128_mod.
Definition wrapping_sub (a b : N) : N := (u128_mod + a - b) mod u128_mod.

(** ** [struct Size] *)

Definition size_from_bits (bits : N) : outcome N :=
  if 0xfffffffffffffff8 <? bits then Panic else Ok (bits / 8 + (bits mod 8 + 7) / 8).

(** ** [struct Align] *)

Record Align := mkAlign { pow2 : N }.
#[export] Instance Align_eq_dec : EqDecision Align.
Proof. solve_decision. Defined.

Definition align_one : Align := mkAlign 0.

(** The loop of [from_bytes]: [while (bytes & 1) == 0] on a number that is not zero. *)
Fixpoint strip_zeros (pow2 : N) (bytes : positive) : N * positive :=
  match bytes with
  | xO bytes => strip_zeros (pow2 + 1) bytes
  | _ => (pow2, bytes)
  end.

(** [Align::from_bytes], [from_bits]; an error is [None]. *)
Definition align_from_bytes (align : N) : option Align :=
  match align with
  | 0 => Some align_one
  | N.pos p =>
      let (pow2, bytes) := strip_zeros 0 p in
      if negb (bytes =? 1)%positive then None
      else if 29 <? pow2 then None
      else Some (mkAlign pow2)
  end.
Definition align_from_bits (bits : N) : outcome (option Align) :=
  bytes ← size_from_bits bits; Ok (align_from_bytes bytes).

(** [Align::bytes]: [1 << self.pow2] *)
Definition align_bytes (a : Align) : outcome N :=
  if pow2 a <? 64 then Ok (N.shiftl 1 (pow2 a)) else Panic.

Definition align_leb (a b : Align) : bool := pow2 a <=? pow2 b.
Definition align_max (a b : Align) : Align := mkAlign (N.max (pow2 a) (pow2 b)).
Definition align_min (a b : Align) : Align := mkAlign (N.min (pow2 a) (pow2 b)).

(** [u64::trailing_zeros] *)
Definition trailing_zeros (n : N) : N :=
  match n with 0 => 64 | N.pos p => (strip_zeros 0 p).1 end.
Definition max_for_offset (offset : N) : Align := mkAlign (trailing_zeros offset).
Definition restrict_for_offset (a : Align) (offset : N) : Align :=
  align_min a (max_for_offset offset).

(** [Size::align_to], [is_aligned] *)
Definition align_to (size : N) (align : Align) : outcome N :=
  b ← align_bytes align;
  mask ← u64_sub b 1;
  s ← u64_add size mask;
  Ok (N.land s (N.lxor mask u64_max)).
Definition is_aligned (size : N) (align : Align) : outcome bool :=
  b ← align_bytes align;
  mask ← u64_sub b 1;
  Ok (N.land size mask =? 0).

(** [Size::sign_extend], [truncate] *)
Definition u128_shl (v shift : N) : N := N.shiftl v shift mod u128_mod.
Definition as_i128 (v : N) : Z :=
  if v <? 2 ^ 127 then Z.of_N v else (Z.of_N v - Z.of_N u128_mod)%Z.
Definition as_u128 (z : Z) : N := Z.to_N (z mod Z.of_N u128_mod).

Definition sign_extend (size value : N) : outcome N :=
  let bits := bits size in
  if bits =? 0 then Ok 0
  else shift ← u64_sub 128 bits;
       Ok (as_u128 (Z.shiftr (as_i128 (u128_shl value shift)) (Z.of_N shift))).
Definition truncate (size value : N) : outcome N :=
  let bits := bits size in
  if bits =? 0 then Ok 0
  else shift ← u64_sub 128 bits;
       Ok (N.shiftr (u128_shl value shift) shift).

(** [Size::signed_int_min], [signed_int_max], [unsigned_int_max]; shifting a [u128] by 128
    panics. *)
Definition shift_amount (size : N) : outcome N :=
  shift ← u64_sub 128 (bits size);
  assert! (shift <? 128);
  Ok shift.
Definition signed_int_min (size : N) : outcome Z :=
  b ← u64_sub (bits size) 1;
  assert! (b <? 128);
  v ← sign_extend size (N.shiftl 1 b);
  Ok (as_i128 v).
Definition signed_int_max (size : N) : outcome Z :=
  shift ← shift_amount size;
  Ok (Z.shiftr (2 ^ 127 - 1) (Z.of_N shift)).
Definition unsigned_int_max (size : N) : outcome N :=
  shift ← shift_amount size;
  Ok (N.shiftr u128_max shift).

(** ** [struct AbiAndPrefAlign] *)

Record AbiAndPrefAlign := mkAbiAndPrefAlign { abi_align : Align; pref_align : Align }.
#[export] Instance AbiAndPrefAlign_eq_dec : EqDecision AbiAndPrefAlign.
Proof. solve_decision. Defined.

Definition align_new (a : Align) : AbiAndPrefAlign := mkAbiAndPrefAlign a a.
Definition aligns_min (a b : AbiAndPrefAlign) : AbiAndPrefAlign :=
  mkAbiAndPrefAlign (align_min (abi_align a) (abi_align b)) (align_min (pref_align a) (pref_align b)).
Definition aligns_max (a b : AbiAndPrefAlign) : AbiAndPrefAlign :=
  mkAbiAndPrefAlign (align_max (abi_align a) (abi_align b)) (align_max (pref_align a) (pref_align b)).

(** ** [struct TargetDataLayout] *)

Inductive Endian := Little | Big.
#[export] Instance Endian_eq_dec : EqDecision Endian.
Proof. solve_decision. Defined.
#[export] Instance Integer_eq_dec : EqDecision Integer.
Proof. solve_decision. Defined.
#[export] Instance Primitive_eq_dec : EqDecision Primitive.
Proof. solve_decision. Defined.

Record TargetDataLayout := mkTargetDataLayout {
  dl_endian : Endian;
  i1_align : AbiAndPrefAlign;
  i8_align : AbiAndPrefAlign;
  i16_align : AbiAndPrefAlign;
  i32_align : AbiAndPrefAlign;
  i64_align : AbiAndPrefAlign;
  i128_align : AbiAndPrefAlign;
  f32_align : AbiAndPrefAlign;
  f64_align : AbiAndPrefAlign;
  dl_pointer_size : N;
  pointer_align : AbiAndPrefAlign;
  aggregate_align : AbiAndPrefAlign;
  dl_vector_align : list (N * AbiAndPrefAlign);
  instruction_address_space : N;
  c_enum_min_size : Integer;
}.

(** [obj_size_bound], [ptr_sized_integer] *)
Definition obj_size_bound (dl : TargetDataLayout) : outcome N :=
  match bits (dl_pointer_size dl) with
  | 16 => Ok (N.shiftl 1 15)
  | 32 => Ok (N.shiftl 1 31)
  | 64 => Ok (N.shiftl 1 47)
  | _ => Panic
  end.
Definition ptr_sized_integer (dl : TargetDataLayout) : outcome Integer :=
  match bits (dl_pointer_size dl) with
  | 16 => Ok Int16
  | 32 => Ok Int32
  | 64 => Ok Int64
  | _ => Panic
  end.

(** [u64::next_power_of_two] *)
Definition next_power_of_two (n : N) : outcome N :=
  let p := if n <=? 1 then 1 else 2 ^ (N.log2 (n - 1) + 1) in
  if in_u64 p then Ok p else Panic.

(** [TargetDataLayout::vector_align] *)
Definition vector_align (dl : TargetDataLayout) (vec_size : N) : outcome AbiAndPrefAlign :=
  match List.find (fun sa => sa.1 =? vec_size) (dl_vector_align dl) with
  | Some sa => Ok sa.2
  | None => p ← next_power_of_two vec_size; a ← unwrap (align_from_bytes p); Ok (align_new a)
  end.

(** [Size::checked_add], [checked_mul]: [None] when the result is no size of an object *)
Definition size_checked (dl : TargetDataLayout) (bytes : N) : outcome (option N) :=
  if in_u64 bytes then
    bound ← obj_size_bound dl;
    Ok (if bytes <? bound then Some bytes else None)
  else Ok None.
Definition size_checked_add (dl : TargetDataLayout) (a b : N) : outcome (option N) :=
  size_checked dl (a + b).
Definition size_checked_mul (dl : TargetDataLayout) (a count : N) : outcome (option N) :=
  size_checked dl (a * count).

(** ** [enum Integer], [enum Primitive] *)

Definition integer_size (i : Integer) : N :=
  match i with Int8 => 1 | Int16 => 2 | Int32 => 4 | Int64 => 8 | Int128 => 16 end.
Definition integer_align (dl : TargetDataLayout) (i : Integer) : AbiAndPrefAlign :=
  match i with
  | Int8 => i8_align dl
  | Int16 => i16_align dl
  | Int32 => i32_align dl
  | Int64 => i64_align dl
  | Int128 => i128_align dl
  end.

(** The derived order of [Integer] *)
Definition integer_rank (i : Integer) : nat :=
  match i with Int8 => 0 | Int16 => 1 | Int32 => 2 | Int64 => 3 | Int128 => 4 end.
Definition integer_ltb (a b : Integer) : bool := (integer_rank a <? integer_rank b)%nat.
Definition integer_max (a b : Integer) : Integer := if integer_ltb b a then a else b.

Definition fit_signed (x : Z) : Integer :=
  let fits (k : Z) := ((-2 ^ k <=? x) && (x <=? 2 ^ k - 1))%Z in
  if fits 7%Z then Int8 else if fits 15%Z then Int16 else if fits 31%Z then Int32
  else if fits 63%Z then Int64 else Int128.
Definition fit_unsigned (x : N) : Integer :=
  if x <=? 0xff then Int8 else if x <=? 0xffff then Int16 else if x <=? 0xffffffff then Int32
  else if x <=? 0xffffffffffffffff then Int64 else Int128.

(** [Integer::for_align], [approximate_align]: the loops over the candidates *)
Fixpoint find_integer (test : Integer -> outcome bool) (candidates : list Integer) :
    outcome (option Integer) :=
  match candidates with
  | [] => Ok None
  | c :: candidates => b ← test c; if b : bool then Ok (Some c) else find_integer test candidates
  end.
Definition for_align (dl : TargetDataLayout) (wanted : Align) : outcome (option Integer) :=
  find_integer (fun c =>
    if bool_decide (wanted = abi_align (integer_align dl c)) then
      b ← align_bytes wanted; Ok (b =? integer_size c)
    else Ok false) [Int8; Int16; Int32; Int64; Int128].
Definition approximate_align (dl : TargetDataLayout) (wanted : Align) : outcome Integer :=
  r ← find_integer (fun c =>
    if align_leb (abi_align (integer_align dl c)) wanted then
      b ← align_bytes wanted; Ok (integer_size c <=? b)
    else Ok false) [Int64; Int32; Int16];
  Ok (default Int8 r).
(** [Integer::from_size] *)
Definition integer_from_size (size : N) : option Integer :=
  match bits size with
  | 8 => Some Int8
  | 16 => Some Int16
  | 32 => Some Int32
  | 64 => Some Int64
  | 128 => Some Int128
  | _ => None
  end.

Definition primitive_size (dl : TargetDataLayout) (p : Primitive) : N :=
  match p with
  | PrimInt i _ => integer_size i
  | PrimF32 => 4
  | PrimF64 => 8
  | PrimPointer => dl_pointer_size dl
  end.
Definition primitive_align (dl : TargetDataLayout) (p : Primitive) : AbiAndPrefAlign :=
  match p with
  | PrimInt i _ => integer_align dl i
  | PrimF32 => f32_align dl
  | PrimF64 => f64_align dl
  | PrimPointer => pointer_align dl
  end.

(** ** Reading a data layout *)

(** [str::split] by a character *)
Fixpoint split_on (c : ascii) (s : string) : list string :=
  match s with
  | "" => [""]
  | String a s =>
      if Ascii.eqb a c then "" :: split_on c s
      else match split_on c s with
           | part :: rest => String a part :: rest
           | [] => [String a ""]
           end
  end.

(** [str::parse] for an unsigned type *)
Definition digit (a : ascii) : option N :=
  let n := N_of_ascii a in if (48 <=? n) && (n <=? 57) then Some (n - 48) else None.
Fixpoint parse_digits (max acc : N) (s : string) : option N :=
  match s with
  | "" => Some acc
  | String a s =>
      d ← digit a;
      if (acc * 10 + d <=? max) then parse_digits max (acc * 10 + d) s else None
  end.
Definition parse_uint (max : N) (s : string) : option N :=
  match s with
  | "" | "+" => None
  | String a rest => if Ascii.eqb a "+" then parse_digits max 0 rest else parse_digits max 0 s
  end.

(** The errors of [parse], without their text *)
Inductive DataLayoutError :=
| InvalidAddressSpace | InvalidNumber | MissingAlignment | InvalidAlignment
| InconsistentEndian | InconsistentPointerWidth | UnsupportedEnumSize.

Definition parse_bits (s : string) : res DataLayoutError N := ok_or InvalidNumber (parse_uint u64_max s).
Definition parse_size (s : string) : res DataLayoutError N :=
  b ← parse_bits s; r_lift (size_from_bits b).
Definition parse_align1 (bits : N) : res DataLayoutError Align :=
  a ← r_lift (align_from_bits bits); ok_or InvalidAlignment a.
Definition parse_align (s : list string) : res DataLayoutError AbiAndPrefAlign :=
  match s with
  | [] => Fails MissingAlignment
  | s0 :: rest =>
      abi ← parse_bits s0;
      pref ← (match rest with [] => mret abi | s1 :: _ => parse_bits s1 end);
      a ← parse_align1 abi;
      p ← parse_align1 pref;
      mret (mkAbiAndPrefAlign a p)
  end.

(** [TargetDataLayout::default()]; the alignments in it are powers of two, so that the
    [unwrap] does not fail. *)
Definition align_of_bits (bits : N) : Align :=
  match align_from_bits bits with Ok (Some a) => a | _ => align_one end.
Definition dl_default : TargetDataLayout :=
  let a b := align_new (align_of_bits b) in
  mkTargetDataLayout Big (a 8) (a 8) (a 16) (a 32)
    (mkAbiAndPrefAlign (align_of_bits 32) (align_of_bits 64))
    (mkAbiAndPrefAlign (align_of_bits 32) (align_of_bits 64))
    (a 32) (a 64) 8 (a 64) (mkAbiAndPrefAlign align_one (align_of_bits 64))
    [(8, a 64); (16, a 128)] 0 Int32.

(** One field of the data layout replaced *)
Definition with_endian dl e := let '(mkTargetDataLayout _ a b c d f g h i j k l m n o) := dl in
  mkTargetDataLayout e a b c d f g h i j k l m n o.
Definition with_i1 dl a1 := let '(mkTargetDataLayout e _ b c d f g h i j k l m n o) := dl in
  mkTargetDataLayout e a1 b c d f g h i j k l m n o.
Definition with_i8 dl a8 := let '(mkTargetDataLayout e a _ c d f g h i j k l m n o) := dl in
  mkTargetDataLayout e a a8 c d f g h i j k l m n o.
Definition with_i16 dl a16 := let '(mkTargetDataLayout e a b _ d f g h i j k l m n o) := dl in
  mkTargetDataLayout e a b a16 d f g h i j k l m n o.
Definition with_i32 dl a32 := let '(mkTargetDataLayout e a b c _ f g h i j k l m n o) := dl in
  mkTargetDataLayout e a b c a32 f g h i j k l m n o.
Definition with_i64 dl a64 := let '(mkTargetDataLayout e a b c d _ g h i j k l m n o) := dl in
  mkTargetDataLayout e a b c d a64 g h i j k l m n o.
Definition with_i128 dl a128 := let '(mkTargetDataLayout e a b c d f _ h i j k l m n o) := dl in
  mkTargetDataLayout e a b c d f a128 h i j k l m n o.
Definition with_f32 dl f32 := let '(mkTargetDataLayout e a b c d f g _ i j k l m n o) := dl in
  mkTargetDataLayout e a b c d f g f32 i j k l m n o.
Definition with_f64 dl f64 := let '(mkTargetDataLayout e a b c d f g h _ j k l m n o) := dl in
  mkTargetDataLayout e a b c d f g h f64 j k l m n o.
Definition with_pointer dl size al := let '(mkTargetDataLayout e a b c d f g h i _ _ l m n o) := dl in
  mkTargetDataLayout e a b c d f g h i size al l m n o.
Definition with_aggregate dl al := let '(mkTargetDataLayout e a b c d f g h i j k _ m n o) := dl in
  mkTargetDataLayout e a b c d f g h i j k al m n o.
Definition with_vectors dl vs := let '(mkTargetDataLayout e a b c d f g h i j k l _ n o) := dl in
  mkTargetDataLayout e a b c d f g h i j k l vs n o.
Definition with_address_space dl sp := let '(mkTargetDataLayout e a b c d f g h i j k l m _ o) := dl in
  mkTargetDataLayout e a b c d f g h i j k l m sp o.
Definition with_enum_size dl i := let '(mkTargetDataLayout e a b c d f g h i' j k l m n _) := dl in
  mkTargetDataLayout e a b c d f g h i' j k l m n i.

(** The entry for a vector size replaced, or added at the end *)
Fixpoint set_vector (size : N) (al : AbiAndPrefAlign) (vs : list (N * AbiAndPrefAlign)) :
    list (N * AbiAndPrefAlign) :=
  match vs with
  | [] => [(size, al)]
  | v :: vs => if v.1 =? size then (size, al) :: vs else v :: set_vector size al vs
  end.

Definition with_int (dl : TargetDataLayout) (bits : N) (al : AbiAndPrefAlign) : TargetDataLayout :=
  match bits with
  | 1 => with_i1 dl al
  | 8 => with_i8 dl al
  | 16 => with_i16 dl al
  | 32 => with_i32 dl al
  | 64 => with_i64 dl al
  | _ => dl
  end.

(** One part between dashes; the second component is the width whose alignment [i128] has.
    The arms of the [match] on slices are tried in their order. *)
Definition parse_spec (spec_parts : list string) (st : TargetDataLayout * N) :
    res DataLayoutError (TargetDataLayout * N) :=
  let (dl, i128_src) := st in
  let starts_with c s := String.prefix (String c "") s in
  let tail s := String.substring 1 (String.length s - 1) s in
  match spec_parts with
  | [] => mret (dl, i128_src)
  | s :: a =>
      let alone := match a with [] => true | _ => false end in
      if alone && String.eqb s "e" then mret (with_endian dl Little, i128_src)
      else if alone && String.eqb s "E" then mret (with_endian dl Big, i128_src)
      else if alone && starts_with "P"%char s then
        sp ← ok_or InvalidAddressSpace (parse_uint (2 ^ 32 - 1) (tail s));
        mret (with_address_space dl sp, i128_src)
      else if String.eqb s "a" then al ← parse_align a; mret (with_aggregate dl al, i128_src)
      else if String.eqb s "f32" then al ← parse_align a; mret (with_f32 dl al, i128_src)
      else if String.eqb s "f64" then al ← parse_align a; mret (with_f64 dl al, i128_src)
      else if negb alone && (String.eqb s "p" || String.eqb s "p0") then
        size ← parse_size (default "" (head a));
        al ← parse_align (List.tl a);
        mret (with_pointer dl size al, i128_src)
      else if starts_with "i"%char s then
        bits ← parse_bits (tail s);
        al ← parse_align a;
        let dl := with_int dl bits al in
        mret (if (i128_src <=? bits) && (bits <=? 128) then (with_i128 dl al, bits)
              else (dl, i128_src))
      else if starts_with "v"%char s then
        v_size ← parse_size (tail s);
        al ← parse_align a;
        mret (with_vectors dl (set_vector v_size al (dl_vector_align dl)), i128_src)
      else mret (dl, i128_src)
  end.

Fixpoint parse_specs (specs : list string) (st : TargetDataLayout * N) :
    res DataLayoutError (TargetDataLayout * N) :=
  match specs with
  | [] => mret st
  | spec :: specs => st ← parse_spec (split_on ":"%char spec) st; parse_specs specs st
  end.

(** [TargetDataLayout::parse], of the data layout, endianness, pointer width and enum size of
    a target *)
Definition parse (data_layout : string) (endian : Endian) (pointer_width c_enum_min_bits : N) :
    res DataLayoutError TargetDataLayout :=
  r ← parse_specs (split_on "-"%char data_layout) (dl_default, 64);
  let dl : TargetDataLayout := r.1 in
  if negb (bool_decide (dl_endian dl = endian)) then Fails InconsistentEndian
  else if negb (bits (dl_pointer_size dl) =? pointer_width) then Fails InconsistentPointerWidth
  else
    size ← r_lift (size_from_bits c_enum_min_bits);
    i ← ok_or UnsupportedEnumSize (integer_from_size size);
    mret (with_enum_size dl i).

(** ** [struct WrappingRange], [struct Scalar] *)

Record WrappingRange := mkWrappingRange { range_start : N; range_end : N }.
#[export] Instance WrappingRange_eq_dec : EqDecision WrappingRange.
Proof. solve_decision. Defined.

Definition contains (r : WrappingRange) (v : N) : bool :=
  if range_start r <=? range_end r then (range_start r <=? v) && (v <=? range_end r)
  else (range_start r <=? v) || (v <=? range_end r).
Definition with_start (r : WrappingRange) (s : N) : WrappingRange := mkWrappingRange s (range_end r).
Definition with_end (r : WrappingRange) (e : N) : WrappingRange := mkWrappingRange (range_start r) e.
(** The assertion of [is_full_for] is a debug assertion. *)
Definition is_full_for (r : WrappingRange) (size : N) : outcome bool :=
  max_value ← unsigned_int_max size;
  assert! ((range_start r <=? max_value) && (range_end r <=? max_value));
  Ok (range_start r =? N.land (wrapping_add (range_end r) 1) max_value).

Record ScalarInfo := mkScalar { sc_value : Primitive; valid_range : WrappingRange }.
#[export] Instance ScalarInfo_eq_dec : EqDecision ScalarInfo.
Proof. solve_decision. Defined.

Definition scalar_is_bool (s : ScalarInfo) : bool :=
  bool_decide (s = mkScalar (PrimInt Int8 false) (mkWrappingRange 0 1)).
Definition is_always_valid (dl : TargetDataLayout) (s : ScalarInfo) : outcome bool :=
  is_full_for (valid_range s) (primitive_size dl (sc_value s)).

(** ** [struct Niche] *)

Record NicheInfo := mkNiche { niche_offset : N; niche_scalar : ScalarInfo }.

(** The largest value of a scalar, which must have at most 128 bits *)
Definition scalar_max (dl : TargetDataLayout) (p : Primitive) : outcome N :=
  let size := primitive_size dl p in
  assert! (bits size <=? 128);
  unsigned_int_max size.

(** The number of values outside a range *)
Definition outside (v : WrappingRange) (max_value : N) : N :=
  N.land (wrapping_sub (range_start v) (wrapping_add (range_end v) 1)) max_value.

Definition available (dl : TargetDataLayout) (n : NicheInfo) : outcome N :=
  max_value ← scalar_max dl (sc_value (niche_scalar n));
  Ok (outside (valid_range (niche_scalar n)) max_value).

Definition niche_from_scalar (dl : TargetDataLayout) (offset : N) (s : ScalarInfo) :
    outcome (option NicheInfo) :=
  let niche := mkNiche offset s in
  a ← available dl niche;
  Ok (if 0 <? a then Some niche else None).

(** [Niche::reserve]: the range grows at its start or at its end. *)
Definition move_start (count max_value : N) (v : WrappingRange) : N * WrappingRange :=
  let start := N.land (wrapping_sub (range_start v) count) max_value in
  (start, with_start v start).
Definition move_end (count max_value : N) (v : WrappingRange) : N * WrappingRange :=
  (N.land (wrapping_add (range_end v) 1) max_value,
   with_end v (N.land (wrapping_add (range_end v) count) max_value)).

(** Checked subtraction of [u128] *)
Definition u128_sub (a b : N) : outcome N := if b <=? a then Ok (a - b) else Panic.

Definition reserve_range (count max_value : N) (v : WrappingRange) : outcome (N * WrappingRange) :=
  distance_end_zero ← u128_sub max_value (range_end v);
  Ok (if range_end v <? range_start v then move_end count max_value v
      else if range_start v <=? distance_end_zero then
        if count <=? range_start v then move_start count max_value v
        else move_end count max_value v
      else
        let end_ := N.land (wrapping_add (range_end v) count) max_value in
        if (1 <=? end_) && (end_ <=? range_end v) then move_start count max_value v
        else move_end count max_value v).

Definition reserve (dl : TargetDataLayout) (n : NicheInfo) (count : N) :
    outcome (option (N * ScalarInfo)) :=
  assert! (0 <? count);
  let value := sc_value (niche_scalar n) in
  let v := valid_range (niche_scalar n) in
  max_value ← scalar_max dl value;
  if outside v max_value <? count then Ok None
  else
    r ← reserve_range count max_value v;
    Ok (Some (r.1, mkScalar value r.2)).

(** ** [struct Layout] *)

Inductive AbiInfo :=
| AbiUninhabited
| AbiScalar (s : ScalarInfo)
| AbiScalarPair (a b : ScalarInfo)
| AbiVector (element : ScalarInfo) (count : N)
| AbiAggregate (sized : bool).
#[export] Instance AbiInfo_eq_dec : EqDecision AbiInfo.
Proof. solve_decision. Defined.

Definition abi_is_unsized (a : AbiInfo) : bool :=
  match a with AbiAggregate sized => negb sized | _ => false end.
Definition abi_is_signed (a : AbiInfo) : outcome bool :=
  match a with
  | AbiScalar s => Ok (match sc_value s with PrimInt _ signed => signed | _ => false end)
  | _ => Panic
  end.
Definition abi_is_uninhabited (a : AbiInfo) : bool :=
  match a with AbiUninhabited => true | _ => false end.
Definition abi_is_scalar (a : AbiInfo) : bool := match a with AbiScalar _ => true | _ => false end.

Inductive LayoutInfo : Type := mkLayoutInfo
  (fields : FieldsShape) (variants : VariantsInfo) (abi : AbiInfo)
  (largest_niche : option NicheInfo) (align : AbiAndPrefAlign) (size : N)
with VariantsInfo : Type :=
| VSingle (index : N)
| VMultiple (tag : ScalarInfo) (tag_encoding : TagEncoding) (tag_field : nat)
    (variants : list LayoutInfo).

Definition l_fields (l : LayoutInfo) : FieldsShape := match l with mkLayoutInfo f _ _ _ _ _ => f end.
Definition l_variants (l : LayoutInfo) : VariantsInfo := match l with mkLayoutInfo _ v _ _ _ _ => v end.
Definition l_abi (l : LayoutInfo) : AbiInfo := match l with mkLayoutInfo _ _ a _ _ _ => a end.
Definition l_niche (l : LayoutInfo) : option NicheInfo := match l with mkLayoutInfo _ _ _ n _ _ => n end.
Definition l_align (l : LayoutInfo) : AbiAndPrefAlign := match l with mkLayoutInfo _ _ _ _ a _ => a end.
Definition l_size (l : LayoutInfo) : N := match l with mkLayoutInfo _ _ _ _ _ s => s end.

(** [Layout::scalar] *)
Definition layout_scalar (dl : TargetDataLayout) (s : ScalarInfo) : outcome LayoutInfo :=
  largest_niche ← niche_from_scalar dl 0 s;
  Ok (mkLayoutInfo ShapePrimitive (VSingle 0) (AbiScalar s) largest_niche
        (primitive_align dl (sc_value s)) (primitive_size dl (sc_value s))).

(** [TyAndLayout::is_zst] *)
Definition l_is_zst (l : LayoutInfo) : bool :=
  match l_abi l with
  | AbiScalar _ | AbiScalarPair _ _ | AbiVector _ _ => false
  | AbiUninhabited => l_size l =? 0
  | AbiAggregate sized => sized && (l_size l =? 0)
  end.

(** What the code generator reads of a layout; alignments become numbers of bytes. *)
Definition erase_abi (a : AbiInfo) : Abi :=
  match a with
  | AbiUninhabited => Uninhabited
  | AbiScalar s => Scalar (sc_value s)
  | AbiScalarPair a b => ScalarPair (sc_value a) (sc_value b)
  | AbiVector e count => Vector (sc_value e) count
  | AbiAggregate sized => Aggregate sized
  end.
Fixpoint erase (l : LayoutInfo) : Layout :=
  match l with
  | mkLayoutInfo f v a _ al s =>
      mkLayout f (erase_variants v) (erase_abi a) (N.shiftl 1 (pow2 (abi_align al))) s
  end
with erase_variants (v : VariantsInfo) : Variants :=
  match v with
  | VSingle index => Single index
  | VMultiple tag enc fld vs => Multiple (sc_value tag) enc fld (map erase vs)
  end.

(** ** Lemmas *)

Lemma align_bytes_ok a b : align_bytes a = Ok b <-> pow2 a < 64 /\ b = 2 ^ pow2 a.
Proof.
  unfold align_bytes. rewrite N.shiftl_1_l. destruct (N.ltb_spec (pow2 a) 64); split.
  - by intros [= <-].
  - by intros [_ ->].
  - done.
  - intros [? _]; lia.
Qed.

Lemma pow2_u64 k : k < 64 -> 2 ^ k <= 2 ^ 63.
Proof. intros Hk. apply N.pow_le_mono_r; lia. Qed.

(** Clearing the low bits of a [u64] rounds down. *)
Lemma land_not_mask t k :
  k < 64 -> t <= u64_max -> N.land t (N.lxor (2 ^ k - 1) u64_max) = 2 ^ k * (t / 2 ^ k).
Proof.
  intros Hk Ht.
  assert (N.land t (N.lxor (N.ones k) (N.ones 64)) = N.ldiff t (N.ones k)) as E.
  { apply N.bits_inj. intros i. rewrite N.land_spec, N.lxor_spec, N.ldiff_spec.
    destruct (N.lt_ge_cases i 64) as [Hi|Hi].
    - rewrite (N.ones_spec_low 64) by done. by rewrite xorb_true_r.
    - replace (N.testbit t i) with false; [done|].
      symmetry. destruct (decide (t = 0)) as [->|Hz]; [apply N.bits_0|].
      apply N.bits_above_log2, N.log2_lt_pow2; [lia|].
      apply N.lt_le_trans with (2 ^ 64); [unfold u64_max in Ht; lia|]. apply N.pow_le_mono_r; lia. }
  replace (2 ^ k - 1) with (N.ones k) by (rewrite N.ones_equiv; lia).
  change u64_max with (N.ones 64). rewrite E, N.ldiff_ones_r, N.shiftl_mul_pow2, N.shiftr_div_pow2. lia.
Qed.

(** [align_to] rounds up to the next multiple of the alignment, and panics exactly when the
    alignment is not a [u64] or the sum overflows. *)
Lemma align_to_ok s a r :
  align_to s a = Ok r <->
  pow2 a < 64 /\ s + (2 ^ pow2 a - 1) <= u64_max /\ r = 2 ^ pow2 a * ((s + (2 ^ pow2 a - 1)) / 2 ^ pow2 a).
Proof.
  unfold align_to. split.
  - intros (b & (Hk & ->)%align_bytes_ok & (m & Hm & H)%bind_ok)%bind_ok.
    pose proof (N.pow_nonzero 2 (pow2 a) ltac:(done)).
    unfold u64_sub in Hm. rewrite (proj2 (N.leb_le 1 _)) in Hm by lia. injection Hm as <-.
    apply bind_ok in H as (t & (-> & Hb)%u64_add_ok & [= <-]). split_and!; [done|done|].
    by apply land_not_mask.
  - intros (Hk & Hb & ->). pose proof (N.pow_nonzero 2 (pow2 a) ltac:(done)).
    rewrite (proj2 (align_bytes_ok a _) (conj Hk eq_refl)). simpl. unfold u64_sub.
    rewrite (proj2 (N.leb_le 1 _)) by lia. simpl. rewrite (proj2 (u64_add_ok _ _ _) (conj eq_refl Hb)).
    simpl. by rewrite land_not_mask.
Qed.

Lemma align_up_spec s b : 0 < b ->
  let r := b * ((s + (b - 1)) / b) in s <= r < s + b /\ (b | r).
Proof.
  intros Hb r. pose proof (N.div_mod' (s + (b - 1)) b). pose proof (N.mod_lt (s + (b - 1)) b).
  subst r. set (q := (s + (b - 1)) / b) in *. set (m := (s + (b - 1)) mod b) in *. clearbody q m.
  split; [lia|]. exists q. lia.
Qed.

Lemma align_to_spec s a r :
  align_to s a = Ok r -> s <= r < s + 2 ^ pow2 a /\ (2 ^ pow2 a | r) /\ pow2 a < 64.
Proof.
  rewrite align_to_ok. intros (Hk & _ & ->). pose proof (N.pow_nonzero 2 (pow2 a) ltac:(done)).
  destruct (align_up_spec s (2 ^ pow2 a)); [lia|]. split; [done|by split].
Qed.

(** *** Reading an alignment *)

Lemma strip_zeros_spec p : forall k, exists j q,
  strip_zeros k p = (k + j, q) /\ N.pos p = 2 ^ j * N.pos q /\ (q = 1%positive \/ exists q', q = xI q').
Proof.
  induction p as [p _|p IH|]; intros k; cbn [strip_zeros].
  - exists 0, (xI p). split_and!; [f_equal; lia|lia|eauto].
  - destruct (IH (k + 1)) as (j & q & -> & E & Hq). exists (j + 1), q.
    split_and!; [f_equal; lia| |done]. rewrite N.pow_add_r. lia.
  - exists 0, 1%positive. split_and!; [f_equal; lia|done|eauto].
Qed.

Lemma odd_power j q k : 2 ^ j * N.pos (xI q) = 2 ^ k -> False.
Proof.
  intros E. destruct (N.le_gt_cases k j) as [Hk|Hk].
  - pose proof (N.pow_le_mono_r 2 k j). pose proof (N.pow_nonzero 2 j). nia.
  - replace k with (j + (k - j - 1) + 1) in E by lia. rewrite !N.pow_add_r in E.
    pose proof (N.pow_nonzero 2 j). assert (N.pos (xI q) = 2 ^ (k - j - 1) * 2) by nia. lia.
Qed.

(** *** Ranges

    In a type with [M] values, the values outside a range are the [outside] successors of its
    end. *)

Definition range_in (M : N) (v : WrappingRange) : Prop := range_start v < M /\ range_end v < M.

Lemma land_max x w : N.land x (2 ^ w - 1) = x mod 2 ^ w.
Proof. rewrite <- N.land_ones, N.ones_equiv. f_equal. lia. Qed.

Lemma mod_u128 x w : w <= 128 -> (x mod u128_mod) mod 2 ^ w = x mod 2 ^ w.
Proof.
  intros Hw. unfold u128_mod. replace 128 with (w + (128 - w)) by lia. rewrite N.pow_add_r.
  rewrite N.Div0.mod_mul_r, (N.mul_comm (2 ^ w) (_ mod _)), N.Div0.mod_add. apply N.Div0.mod_mod.
Qed.

(** The wrapping operations, in the type with [2 ^ w] values *)
Lemma wrapping_add_w a b w : w <= 128 -> N.land (wrapping_add a b) (2 ^ w - 1) = (a + b) mod 2 ^ w.
Proof. intros Hw. unfold wrapping_add. by rewrite land_max, mod_u128. Qed.

Lemma wrapping_sub_w a b w :
  w <= 128 -> b <= 2 ^ w -> N.land (wrapping_sub a b) (2 ^ w - 1) = (2 ^ w + a - b) mod 2 ^ w.
Proof.
  intros Hw Hb. unfold wrapping_sub. rewrite land_max, mod_u128 by done. unfold u128_mod.
  pose proof (N.pow_le_mono_r 2 w 128).
  replace (2 ^ 128) with (2 ^ w * 2 ^ (128 - w)) by (rewrite <- N.pow_add_r; f_equal; lia).
  pose proof (N.pow_nonzero 2 (128 - w)).
  replace (2 ^ w * 2 ^ (128 - w) + a - b) with ((2 ^ w + a - b) + (2 ^ (128 - w) - 1) * 2 ^ w) by nia.
  apply N.Div0.mod_add.
Qed.

(** By cases instead of with [mod] *)
Lemma mod_wrap M x : 0 < M -> x < 2 * M -> x mod M = if x <? M then x else x - M.
Proof.
  intros HM Hx. destruct (N.ltb_spec x M); [by apply N.mod_small|].
  replace x with (x - M + 1 * M) at 1 by lia. rewrite N.Div0.mod_add. apply N.mod_small. lia.
Qed.

Lemma outside_w v w : w <= 128 -> range_in (2 ^ w) v ->
  outside v (2 ^ w - 1)
  = if range_start v <=? range_end v then 2 ^ w + range_start v - range_end v - 1
    else range_start v - range_end v - 1.
Proof.
  intros Hw [Hs He]. unfold outside.
  pose proof (N.pow_le_mono_r 2 w 128). fold u128_mod in *.
  assert (wrapping_add (range_end v) 1 <= 2 ^ w /\
          (2 ^ w + range_start v - wrapping_add (range_end v) 1) mod 2 ^ w
          = (2 ^ w + range_start v - (range_end v + 1)) mod 2 ^ w) as [Hb E].
  { unfold wrapping_add. rewrite mod_wrap by (unfold u128_mod in *; lia).
    destruct (N.ltb_spec (range_end v + 1) u128_mod) as [Hlt|Hge]; [lia|].
    assert (2 ^ w = range_end v + 1) as -> by (unfold u128_mod in *; lia). split; [lia|].
    replace (range_end v + 1 + range_start v - (range_end v + 1)) with (range_start v) by lia.
    rewrite <- (N.Div0.mod_add (range_start v) 1). f_equal. unfold u128_mod in *; lia. }
  rewrite wrapping_sub_w, E by done. rewrite mod_wrap by lia.
  destruct (N.leb_spec (range_start v) (range_end v)),
    (N.ltb_spec (2 ^ w + range_start v - (range_end v + 1)) (2 ^ w)); lia.
Qed.

(** The [k]-th value after [s], and how far [x] is after [s] *)
Definition nth_after (M s k : N) : N := (s + k) mod M.
Definition dist (M s x : N) : N := if s <=? x then x - s else M + x - s.

Section Dist.
Context (M s : N) (HM : 0 < M) (Hs : s < M).

Lemma dist_lt x : x < M -> dist M s x < M.
Proof. intros. unfold dist. destruct (N.leb_spec s x); lia. Qed.
Lemma nth_lt k : nth_after M s k < M.
Proof. clear Hs. apply N.mod_lt. lia. Qed.
Lemma nth_dist x : x < M -> nth_after M s (dist M s x) = x.
Proof.
  intros. unfold nth_after, dist. destruct (N.leb_spec s x).
  - rewrite N.mod_small; lia.
  - rewrite mod_wrap by lia. destruct (N.ltb_spec (s + (M + x - s)) M); lia.
Qed.
Lemma dist_nth k : k < M -> dist M s (nth_after M s k) = k.
Proof.
  intros. unfold nth_after, dist. rewrite mod_wrap by lia.
  destruct (N.ltb_spec (s + k) M); destruct (N.leb_spec s (s + k)), (N.leb_spec s (s + k - M)); lia.
Qed.
End Dist.

Lemma nth_after_add M s j k : nth_after M (nth_after M s j) k = nth_after M s (j + k).
Proof. unfold nth_after. rewrite N.Div0.add_mod_idemp_l. f_equal. lia. Qed.

(** A range contains the values that are not farther after its start than its end is. *)
Lemma contains_dist M v x : range_in M v -> x < M ->
  contains v x = (dist M (range_start v) x <=? dist M (range_start v) (range_end v)).
Proof.
  intros [Hs He] Hx. unfold contains, dist. apply eq_bool_prop_intro. rewrite !Is_true_true.
  destruct (N.leb_spec (range_start v) (range_end v)), (N.leb_spec (range_start v) x);
    rewrite ?N.leb_le, ?andb_true_iff, ?orb_true_iff, ?N.leb_le; split; intros; lia.
Qed.

Lemma outside_dist v w : w <= 128 -> range_in (2 ^ w) v ->
  dist (2 ^ w) (range_start v) (range_end v) + 1 + outside v (2 ^ w - 1) = 2 ^ w.
Proof.
  intros Hw Hv. rewrite outside_w by done. destruct Hv. unfold dist.
  destruct (N.leb_spec (range_start v) (range_end v)); lia.
Qed.

(** The values outside, seen from the start of the range *)
Lemma outside_exact v w x : w <= 128 -> range_in (2 ^ w) v -> x < 2 ^ w ->
  contains v x = false <->
  exists k, k < outside v (2 ^ w - 1) /\ x = nth_after (2 ^ w) (range_end v + 1) k.
Proof.
  intros Hw Hv Hx. pose proof (outside_dist v w Hw Hv) as Ho. rewrite (contains_dist (2 ^ w)) by done.
  destruct Hv as [Hs He]. set (M := 2 ^ w) in *. set (s := range_start v) in *. set (e := range_end v) in *.
  set (o := outside _ _) in *. clearbody M o. rewrite N.leb_gt.
  assert (forall k, nth_after M (e + 1) k = nth_after M s (dist M s e + 1 + k)) as E.
  { intros k. rewrite <- !nth_after_add, nth_dist by lia. unfold nth_after.
    by rewrite N.Div0.add_mod_idemp_l. }
  split.
  - intros Hd. exists (dist M s x - dist M s e - 1). pose proof (dist_lt M s ltac:(lia) Hs x Hx).
    split; [lia|]. rewrite E. replace (_ + 1 + _) with (dist M s x) by lia. by rewrite nth_dist by lia.
  - intros (k & Hk & ->). rewrite E, dist_nth by lia. lia.
Qed.

(** [v'] is [v] and the [count] values from [s] on, which are new. *)
Definition grows (M : N) (v : WrappingRange) (count s : N) (v' : WrappingRange) : Prop :=
  range_in M v'
  /\ (forall x, x < M -> contains v' x = true <->
        contains v x = true \/ exists k, k < count /\ x = nth_after M s k)
  /\ (forall k, k < count -> contains v (nth_after M s k) = false).

Lemma move_end_grows v w count : w <= 128 -> range_in (2 ^ w) v -> 0 < count <= outside v (2 ^ w - 1) ->
  grows (2 ^ w) v count (move_end count (2 ^ w - 1) v).1 (move_end count (2 ^ w - 1) v).2.
Proof.
  intros Hw Hv Hc. pose proof (outside_dist v w Hw Hv) as Ho. destruct Hv as [Hs He].
  unfold move_end, with_end; cbn [fst snd]. rewrite !wrapping_add_w by done.
  set (M := 2 ^ w) in *. set (o := outside _ _) in *. clearbody M o.
  destruct v as [s e]; cbn [range_start range_end] in *.
  set (d := dist M s e) in *.
  assert (forall j, (e + j) mod M = nth_after M s (d + j)) as E.
  { intros j. rewrite <- nth_after_add. unfold d. by rewrite nth_dist by lia. }
  assert (range_in M (mkWrappingRange s (nth_after M s (d + count)))) as Hv'.
  { split; [done|]. apply nth_lt; lia. }
  rewrite !E. unfold grows. split; [done|]. split.
  - intros x Hx. rewrite !(contains_dist M) by done. cbn [range_start range_end].
    rewrite dist_nth, !N.leb_le by lia. fold d. split.
    + intros Hd. destruct (N.le_gt_cases (dist M s x) d); [by left|right].
      exists (dist M s x - d - 1). split; [lia|]. rewrite nth_after_add.
      replace (d + 1 + _) with (dist M s x) by lia. by rewrite nth_dist by lia.
    + intros [Hd|(k & Hk & ->)]; [lia|]. rewrite nth_after_add, dist_nth by lia. lia.
  - intros k Hk. rewrite (contains_dist M); [|done|by apply nth_lt; lia].
    cbn [range_start range_end]. fold d. rewrite N.leb_gt, nth_after_add, dist_nth by lia. lia.
Qed.

(** The start moved back: everything is [count] farther from the new start. *)
Lemma dist_moved M s c x : s < M -> x < M -> 0 < c -> c < M ->
  dist M ((M + s - c) mod M) x
  = if dist M s x + c <? M then dist M s x + c else dist M s x + c - M.
Proof.
  intros Hs Hx Hc HcM. rewrite mod_wrap by lia. unfold dist.
  destruct (N.ltb_spec (M + s - c) M).
  - destruct (N.leb_spec s x), (N.leb_spec (M + s - c) x);
      [destruct (N.ltb_spec (x - s + c) M)|destruct (N.ltb_spec (x - s + c) M)
      |destruct (N.ltb_spec (M + x - s + c) M)|destruct (N.ltb_spec (M + x - s + c) M)]; lia.
  - destruct (N.leb_spec s x), (N.leb_spec (M + s - c - M) x);
      [destruct (N.ltb_spec (x - s + c) M)|destruct (N.ltb_spec (x - s + c) M)
      |destruct (N.ltb_spec (M + x - s + c) M)|destruct (N.ltb_spec (M + x - s + c) M)]; lia.
Qed.

Lemma move_start_grows v w count : w <= 128 -> range_in (2 ^ w) v -> 0 < count <= outside v (2 ^ w - 1) ->
  grows (2 ^ w) v count (move_start count (2 ^ w - 1) v).1 (move_start count (2 ^ w - 1) v).2.
Proof.
  intros Hw Hv Hc. pose proof (outside_dist v w Hw Hv) as Ho. destruct Hv as [Hs He].
  unfold move_start, with_start; cbn [fst snd]. rewrite wrapping_sub_w by lia.
  set (M := 2 ^ w) in *. set (o := outside _ _) in *. clearbody M o.
  destruct v as [s e]; cbn [range_start range_end] in *.
  set (s' := (M + s - count) mod M).
  pose proof (N.mod_lt (M + s - count) M ltac:(lia)) as Hs'. fold s' in Hs'.
  assert (forall x, x < M -> dist M s' x
            = if dist M s x + count <? M then dist M s x + count else dist M s x + count - M) as E.
  { intros x Hx. apply dist_moved; lia. }
  assert (forall x, x < M -> contains (mkWrappingRange s' e) x
            = (dist M s' x <=? dist M s e + count)) as Ec.
  { intros x Hx. rewrite (contains_dist M) by done. cbn [range_start range_end].
    rewrite (E e He). by rewrite (proj2 (N.ltb_lt _ _)) by lia. }
  unfold grows. split; [done|]. split.
  - intros x Hx. rewrite Ec, (contains_dist M) by done. cbn [range_start range_end].
    rewrite !N.leb_le, (E x Hx). pose proof (dist_lt M s ltac:(lia) Hs x Hx).
    destruct (N.ltb_spec (dist M s x + count) M) as [Hl|Hl].
    + split; [lia|]. intros [?|(k & Hk & ->)]; [lia|].
      specialize (E _ Hx). rewrite dist_nth in E by lia.
      rewrite (proj2 (N.ltb_lt _ _) Hl) in E. lia.
    + split; [intros _; right|lia]. exists (dist M s x + count - M). split; [lia|].
      rewrite <- (nth_dist M s' ltac:(lia) Hs' x Hx) at 1. f_equal. rewrite E by done.
      by rewrite (proj2 (N.ltb_ge _ _) Hl).
  - intros k Hk. pose proof (nth_lt M s' ltac:(lia) k) as Hx.
    rewrite (contains_dist M) by done. cbn [range_start range_end]. rewrite N.leb_gt.
    specialize (E _ Hx). rewrite dist_nth in E by lia.
    destruct (N.ltb_spec (dist M s (nth_after M s' k) + count) M); lia.
Qed.

(** Ranges that contain the same values are outside the same number of times. *)
Lemma grows_outside v w count s v' : w <= 128 -> range_in (2 ^ w) v ->
  (s, v') = move_end count (2 ^ w - 1) v \/ (s, v') = move_start count (2 ^ w - 1) v ->
  0 < count <= outside v (2 ^ w - 1) -> outside v' (2 ^ w - 1) = outside v (2 ^ w - 1) - count.
Proof.
  intros Hw Hv Hm Hc. pose proof (outside_dist v w Hw Hv) as Ho.
  assert (range_in (2 ^ w) v') as Hv'.
  { destruct Hm as [Hm|Hm];
      [destruct (move_end_grows v w count) as [H _]|destruct (move_start_grows v w count) as [H _]];
      try done; by rewrite <- Hm in H. }
  pose proof (outside_dist v' w Hw Hv') as Ho'. destruct Hv as [Hs He].
  enough (dist (2 ^ w) (range_start v') (range_end v')
          = dist (2 ^ w) (range_start v) (range_end v) + count) by lia.
  set (o := outside v _) in *. clearbody o. destruct v as [s0 e0]; cbn [range_start range_end] in *.
  destruct Hm as [Hm|Hm]; unfold move_end, move_start, with_end, with_start in Hm;
    cbn [range_start range_end] in Hm; simplify_eq; cbn [range_start range_end].
  - rewrite wrapping_add_w by done.
    replace ((e0 + count) mod 2 ^ w) with (nth_after (2 ^ w) s0 (dist (2 ^ w) s0 e0 + count)).
    + apply dist_nth; lia.
    + rewrite <- nth_after_add, nth_dist by lia. done.
  - rewrite wrapping_sub_w, dist_moved by lia. by rewrite (proj2 (N.ltb_lt _ _)) by lia.
Qed.

Lemma scalar_max_ok dl p m : scalar_max dl p = Ok m <->
  exists w, w = bits (primitive_size dl p) /\ 0 < w <= 128 /\ m = 2 ^ w - 1.
Proof.
  unfold scalar_max, unsigned_int_max, shift_amount, rassert.
  set (w := bits (primitive_size dl p)).
  destruct (N.leb_spec w 128) as [Hw|Hw]; cbn; [|split; [done|intros (? & -> & ? & ?); lia]].
  unfold u64_sub. rewrite (proj2 (N.leb_le _ _) Hw); cbn.
  destruct (N.ltb_spec (128 - w) 128) as [Hl|Hl]; cbn; [|split; [done|intros (? & -> & ? & ?); lia]].
  assert (N.shiftr u128_max (128 - w) = 2 ^ w - 1) as ->.
  { unfold u128_max, u128_mod. replace (2 ^ 128 - 1) with (N.ones 128) by done.
    rewrite N.shiftr_div_pow2, N.ones_div_pow2 by lia. replace (128 - (128 - w)) with w by lia.
    rewrite N.ones_equiv. lia. }
  split; [intros [= <-]; exists w; split_and!; lia|by intros (? & -> & ? & ->)].
Qed.

(** A scalar of at most 128 bits whose range is within its type *)
Definition scalar_ok (dl : TargetDataLayout) (s : ScalarInfo) : Prop :=
  0 < bits (primitive_size dl (sc_value s)) <= 128
  /\ range_in (2 ^ bits (primitive_size dl (sc_value s))) (valid_range s).

Lemma scalar_ok_max dl s : scalar_ok dl s ->
  scalar_max dl (sc_value s) = Ok (2 ^ bits (primitive_size dl (sc_value s)) - 1).
Proof. intros [Hw _]. apply scalar_max_ok. eexists. split; [done|]. split; [apply Hw|done]. Qed.

Lemma reserve_cases dl n count : 0 < count -> scalar_ok dl (niche_scalar n) ->
  let w := bits (primitive_size dl (sc_value (niche_scalar n))) in
  let v := valid_range (niche_scalar n) in
  exists r, (r = move_end count (2 ^ w - 1) v \/ r = move_start count (2 ^ w - 1) v)
    /\ reserve dl n count
       = Ok (if outside v (2 ^ w - 1) <? count then None
             else Some (r.1, mkScalar (sc_value (niche_scalar n)) r.2)).
Proof.
  intros Hc Hok w v. unfold reserve, rassert. rewrite (proj2 (N.ltb_lt _ _) Hc). cbn [mbind outcome_bind].
  rewrite (scalar_ok_max _ _ Hok). cbn [mbind outcome_bind]. fold w v. destruct Hok as [Hw [Hs He]].
  unfold reserve_range, u128_sub. rewrite (proj2 (N.leb_le (range_end v) (2 ^ w - 1))) by (subst w v; lia).
  cbn [mbind outcome_bind].
  destruct (outside v (2 ^ w - 1) <? count); [by eexists; split; [left|]|].
  set (r := if range_end v <? range_start v then _ else _).
  exists r. split; [|done]. subst r. repeat case_match; auto.
Qed.

(** ** Properties *)

(** Reading an alignment accepts exactly zero, which stands for one, and the powers of two
    up to 2^29, and gives the exponent. *)
Theorem align_from_bytes_exact b a :
  align_from_bytes b = Some a <-> (b = 0 /\ a = align_one) \/ (b = 2 ^ pow2 a /\ pow2 a <= 29).
Proof.
  destruct b as [|p]; cbn [align_from_bytes].
  - pose proof (N.pow_nonzero 2 (pow2 a)). split; [intros [= <-]; by left|].
    by intros [[_ ->]|[? _]]; [|lia].
  - destruct (strip_zeros_spec p 0) as (j & q & -> & E & Hq). rewrite E. split.
    + destruct (Pos.eqb_spec q 1) as [->|]; cbn; [|done].
      destruct (N.ltb_spec 29 (0 + j)); [done|]. intros [= <-]. right. cbn. rewrite N.add_0_l in *. split; lia.
    + intros [[? _]|[Ep Hk]]; [lia|]. destruct Hq as [->|[q' ->]]; [|by apply odd_power in Ep].
      rewrite N.mul_1_r in Ep. apply N.pow_inj_r in Ep as ->; [|lia]. cbn [Pos.eqb negb].
      rewrite (proj2 (N.ltb_ge _ _)) by lia. by destruct a.
Qed.

(** The number of values a niche offers is exactly the number of values of the scalar that
    are outside its valid range: they are the successors of the end of the range, counted
    around the end of the type, and they are pairwise different. *)
Theorem niche_available_exact dl n :
  scalar_ok dl (niche_scalar n) ->
  let M := 2 ^ bits (primitive_size dl (sc_value (niche_scalar n))) in
  let v := valid_range (niche_scalar n) in
  exists a, available dl n = Ok a /\ a < M
    /\ (forall x, x < M -> contains v x = false <-> exists k, k < a /\ x = nth_after M (range_end v + 1) k)
    /\ (forall j k, j < a -> k < a ->
          nth_after M (range_end v + 1) j = nth_after M (range_end v + 1) k -> j = k).
Proof.
  intros Hok. pose proof (scalar_ok_max _ _ Hok) as Hmax. destruct Hok as [Hw Hv].
  set (w := bits _) in *. set (v := valid_range _) in *. intros M v'. subst v'.
  exists (outside v (M - 1)). pose proof (outside_dist v w ltac:(lia) Hv) as Ho.
  fold M in Ho, Hv. split; [|split; [lia|split]].
  - unfold available. by rewrite Hmax.
  - intros x Hx. apply outside_exact; [lia|done|done].
  - intros j k Hj Hk E. destruct Hv as [Hs He].
    assert (forall i, i < M -> dist M (nth_after M (range_end v) 1) (nth_after M (range_end v + 1) i) = i) as D.
    { intros i Hi. replace (nth_after M (range_end v + 1) i) with (nth_after M (nth_after M (range_end v) 1) i).
      - apply dist_nth; [lia| |done]. apply nth_lt. lia.
      - rewrite nth_after_add. unfold nth_after. f_equal. lia. }
    rewrite <- (D j), <- (D k) by lia. by rewrite E.
Qed.

(** An enum of three variants in the niche of a [bool]: 254 values are left, 2 is the first. *)
Definition x86_64 : TargetDataLayout :=
  match parse "e-m:e-p270:32:32-p271:32:32-p272:64:64-i64:64-f80:128-n8:16:32:64-S128" Little 64 32 with
  | Good dl => dl
  | _ => dl_default
  end.
Definition bool_niche : NicheInfo := mkNiche 0 (mkScalar (PrimInt Int8 false) (mkWrappingRange 0 1)).

Lemma niche_available_exact_witness :
  available x86_64 bool_niche = Ok 254
  /\ exists a, available x86_64 bool_niche = Ok a /\ a < 256.
Proof.
  split; [vm_compute; reflexivity|].
  assert (scalar_ok x86_64 (niche_scalar bool_niche)) as Hok by (vm_compute; repeat split; done).
  destruct (niche_available_exact x86_64 bool_niche Hok) as (a & H & Ha & _). exists a. split; [exact H|].
  exact Ha.
Defined.

(** C20. [Niche::reserve]: for a scalar of at most 128 bits with a valid range within its type,
    reserving [count] values in its niche ends without overflow, and succeeds exactly when the
    niche offers them.  Then the new valid range contains the old one and the [count] values
    from the returned start on (around the end of the type if need be), none of which was
    valid before, and nothing else; the niche that is left offers [count] values fewer. *)
Theorem niche_reserve_exact dl n count a :
  scalar_ok dl (niche_scalar n) -> 0 < count -> available dl n = Ok a ->
  let M := 2 ^ bits (primitive_size dl (sc_value (niche_scalar n))) in
  if a <? count then reserve dl n count = Ok None
  else exists start s, reserve dl n count = Ok (Some (start, s))
    /\ sc_value s = sc_value (niche_scalar n)
    /\ grows M (valid_range (niche_scalar n)) count start (valid_range s)
    /\ available dl (mkNiche (niche_offset n) s) = Ok (a - count).
Proof.
  intros Hok Hc Ha M. pose proof (scalar_ok_max _ _ Hok) as Hmax.
  unfold available in Ha. rewrite Hmax in Ha. injection Ha as <-.
  destruct (reserve_cases dl n count Hc Hok) as (r & Hr & ->). fold M in Hr |- *.
  destruct Hok as [Hw Hv]. destruct (N.ltb_spec (outside (valid_range (niche_scalar n)) (M - 1)) count); [done|].
  exists r.1, (mkScalar (sc_value (niche_scalar n)) r.2). split; [done|]. split; [done|].
  assert (0 < count <= outside (valid_range (niche_scalar n)) (M - 1)) as Hco by done.
  unfold M in *. split.
  - cbn [valid_range]. destruct Hr as [->| ->];
      [apply move_end_grows|apply move_start_grows]; first [done|lia].
  - unfold available. cbn [niche_scalar sc_value valid_range]. rewrite Hmax. cbn [mbind outcome_bind].
    do 2 f_equal. destruct r as [s v']. apply grows_outside with (s := s); [lia|done| |done].
    by destruct Hr; [left|right].
Qed.

Lemma niche_reserve_exact_witness :
  exists start s, reserve x86_64 bool_niche 2 = Ok (Some (start, s))
    /\ available x86_64 (mkNiche 0 s) = Ok 252.
Proof.
  assert (scalar_ok x86_64 (niche_scalar bool_niche)) as Hok by (vm_compute; repeat split; done).
  destruct (niche_reserve_exact x86_64 bool_niche 2 254 Hok) as (start & s & H & _ & _ & Ha);
    [done|vm_compute; reflexivity|].
  exists start, s. split; [exact H|exact Ha].
Defined.
