(* ===== verification/LayoutOf.v ===== *)
(** * Layouts of types

    [rustc_middle/src/ty/layout.rs]: how the compiler lays out a type, which the code
    generator only reads.  [univariant_uninterned] places the fields of a struct,
    [layout_of_uncached] is the layout of every kind of type, enums with a tag or in a niche
    included, and [layout_of_ty] the query itself: its fuel is what the recursion limit leaves,
    and running out ([Cut]) is the fatal error that a type is too deep.  [Bug] is a panic, a
    [bug!] or a fatal error; [delay_span_bug] lets the function go on and is left out.

    What other parts of the compiler say about a type is in [TyCtxt] and [LayoutCtxt]; the
    layout of generators ([generator_layout]) is left to the latter too. *)

From S2P Require Import Prelude MachineModel Mir GotoCtx TypeGen TargetAbi.

Open Scope N_scope.

(** ** [struct ReprOptions] ([ty/mod.rs]) *)

(** [attr::IntType] *)
Inductive IntType := SignedInt (i : IntTy) | UnsignedInt (u : UintTy).
Definition int_type_is_signed (i : IntType) : bool :=
  match i with SignedInt _ => true | UnsignedInt _ => false end.

Record ReprOptions := mkReprOptions {
  repr_int : option IntType;
  repr_align : option Align;
  repr_pack : option Align;
  repr_is_c : bool;
  repr_is_simd : bool;
  repr_is_linear : bool;
  repr_hide_niche : bool;
  repr_randomize : bool;
  field_shuffle_seed : N;
}.
Definition repr_default : ReprOptions :=
  mkReprOptions None None None false false false false false 0.

Definition discr_type (r : ReprOptions) : IntType := default (SignedInt Isize) (repr_int r).
Definition inhibit_enum_layout_opt (r : ReprOptions) : bool :=
  repr_is_c r || bool_decide (is_Some (repr_int r)).
Definition inhibit_struct_field_reordering_opt (r : ReprOptions) : outcome bool :=
  packed1 ← (match repr_pack r with
             | Some pack => b ← align_bytes pack; Ok (b =? 1)
             | None => Ok false
             end);
  Ok (packed1 || (repr_is_c r || repr_is_simd r || repr_is_linear r)
      || bool_decide (is_Some (repr_int r))).
Definition inhibit_union_abi_opt (r : ReprOptions) : bool := repr_is_c r.

(** ** [trait IntegerExt] *)

Definition from_int_ty (dl : TargetDataLayout) (i : IntTy) : outcome Integer :=
  match i with
  | I8 => Ok Int8
  | I16 => Ok Int16
  | I32 => Ok Int32
  | I64 => Ok Int64
  | I128 => Ok Int128
  | Isize => ptr_sized_integer dl
  end.
Definition from_uint_ty (dl : TargetDataLayout) (u : UintTy) : outcome Integer :=
  match u with
  | U8 => Ok Int8
  | U16 => Ok Int16
  | U32 => Ok Int32
  | U64 => Ok Int64
  | U128 => Ok Int128
  | Usize => ptr_sized_integer dl
  end.
Definition from_attr (dl : TargetDataLayout) (i : IntType) : outcome Integer :=
  match i with SignedInt i => from_int_ty dl i | UnsignedInt u => from_uint_ty dl u end.

(** [Integer::repr_discr], for the discriminants [min..=max] *)
Definition repr_discr (dl : TargetDataLayout) (repr : ReprOptions) (min max : Z) :
    outcome (Integer * bool) :=
  let unsigned_fit := fit_unsigned (N.max (as_u128 min) (as_u128 max)) in
  let signed_fit := integer_max (fit_signed min) (fit_signed max) in
  match repr_int repr with
  | Some ity =>
      discr ← from_attr dl ity;
      let fit := if int_type_is_signed ity then signed_fit else unsigned_fit in
      assert! negb (integer_ltb discr fit);
      Ok (discr, int_type_is_signed ity)
  | None =>
      let at_least := if repr_is_c repr then c_enum_min_size dl else Int8 in
      Ok (if (0 <=? min)%Z then (integer_max unsigned_fit at_least, false)
          else (integer_max signed_fit at_least, true))
  end.

(** ** Errors and contexts *)

Inductive LayoutError :=
| Unknown (ty : Ty)
| SizeOverflow (ty : Ty)
| NormalizationFailure (ty : Ty).

Inductive StructKind := AlwaysSized | MaybeUnsized | Prefixed (size : N) (align : Align).

(** A discriminant: implicit, counted from the start, or explicit *)
Inductive VariantDiscr := Relative (i : N) | Explicit.

Class LayoutCtxt := {
  data_layout : TargetDataLayout;
  (** the options and the valid range of an ADT, and whether its last field is always sized *)
  adt_repr : N -> ReprOptions;
  scalar_valid_range : N -> option N * option N;
  last_field_always_sized : N -> N -> bool;
  (** how the discriminants are given, and their values as bit patterns *)
  variant_discrs : N -> list VariantDiscr;
  discriminants : N -> list (N * N);
  (** normalization, which can fail; the unsized tail of a type; what typing says about
      inhabitants *)
  try_normalize : Ty -> option Ty;
  struct_tail : Ty -> Ty;
  privately_uninhabited : Ty -> bool;
  (** the shuffle of the [rand] crate for [-Z randomize-layout] *)
  shuffle : N -> list nat -> list nat;
  generator_layout : N -> list Ty -> res LayoutError LayoutInfo;
}.

(** [invert_mapping] *)
Definition invert_mapping (map : list nat) : outcome (list nat) :=
  invert map 0 (replicate (length map) 0%nat).

(** The maximum by a key, the last one among equals ([Iterator::max_by_key]) *)
Fixpoint max_by_key {A} (l : list (N * A)) : option (N * A) :=
  match l with
  | [] => None
  | x :: l =>
      match max_by_key l with
      | None => Some x
      | Some y => Some (if x.1 <=? y.1 then y else x)
      end
  end.

Definition opt_aligns_min (pack : option Align) (a : AbiAndPrefAlign) : AbiAndPrefAlign :=
  match pack with Some p => aligns_min a (align_new p) | None => a end.
Definition opt_align_min (pack : option Align) (a : Align) : Align :=
  match pack with Some p => align_min a p | None => a end.

Section Univariant.
Context `{LayoutCtxt}.
#[local] Abbreviation dl := data_layout.

(** [scalar_unit]: every bit pattern is valid *)
Definition scalar_unit (value : Primitive) : outcome ScalarInfo :=
  max ← scalar_max dl value;
  Ok (mkScalar value (mkWrappingRange 0 max)).

(** [LayoutCx::scalar_pair] *)
Definition scalar_pair (a b : ScalarInfo) : outcome LayoutInfo :=
  let b_align := primitive_align dl (sc_value b) in
  let align := aligns_max (aligns_max (primitive_align dl (sc_value a)) b_align) (aggregate_align dl) in
  b_offset ← align_to (primitive_size dl (sc_value a)) (abi_align b_align);
  e ← u64_add b_offset (primitive_size dl (sc_value b));
  size ← align_to e (abi_align align);
  nb ← niche_from_scalar dl b_offset b;
  na ← niche_from_scalar dl 0 a;
  niches ← map_outcome (fun n => k ← available dl n; Ok (k, n)) (option_list nb ++ option_list na);
  Ok (mkLayoutInfo (ShapeArbitrary [0; b_offset] [0; 1]%nat) (VSingle 0) (AbiScalarPair a b)
        (snd <$> max_by_key niches) align size).

(** The state of the loop over the fields *)
Record Placement := mkPlacement {
  p_align : AbiAndPrefAlign;
  p_offsets : list N;
  p_offset : N;
  p_sized : bool;
  p_niche : option NicheInfo;
  p_available : N;
}.

(** One field: [fields[i]] goes to the next offset that is aligned for it. *)
Definition place_field (ty : Ty) (fields : list LayoutInfo) (repr : ReprOptions) (p : Placement)
    (i : nat) : res LayoutError Placement :=
  field ← r_lift (unwrap (fields !! i));
  let sized := p_sized p && negb (abi_is_unsized (l_abi field)) in
  let field_align := opt_aligns_min (repr_pack repr) (l_align field) in
  offset ← r_lift (align_to (p_offset p) (abi_align field_align));
  let align := aligns_max (p_align p) field_align in
  let offsets := <[i := offset]> (p_offsets p) in
  niche ← (match l_niche field with
           | Some niche =>
               if repr_hide_niche repr then mret (p_niche p, p_available p)
               else
                 k ← r_lift (available dl niche);
                 if p_available p <? k then
                   o ← r_lift (u64_add (niche_offset niche) offset);
                   mret (Some (mkNiche o (niche_scalar niche)), k)
                 else mret (p_niche p, p_available p)
           | None => mret (p_niche p, p_available p)
           end);
  e ← r_lift (size_checked_add dl offset (l_size field));
  offset ← ok_or (SizeOverflow ty) e;
  mret (mkPlacement align offsets offset sized niche.1 niche.2).

Fixpoint place_fields (ty : Ty) (fields : list LayoutInfo) (repr : ReprOptions) (p : Placement)
    (order : list nat) : res LayoutError Placement :=
  match order with
  | [] => mret p
  | i :: order => p ← place_field ty fields repr p i; place_fields ty fields repr p order
  end.

(** The order of the fields in memory *)
Definition field_order (fields : list LayoutInfo) (repr : ReprOptions) (kind : StructKind) :
    outcome (list nat) :=
  let indices := seq 0 (length fields) in
  let zst (i : nat) := match fields !! i with Some f => l_is_zst f | None => false end in
  let al (i : nat) := match fields !! i with
              | Some f => pow2 (opt_align_min (repr_pack repr) (abi_align (l_align f)))
              | None => 0
              end in
  let large (x y : nat) := (zst x && negb (zst y)) || (Bool.eqb (zst x) (zst y) && (al y <=? al x)) in
  let small (x y : nat) := al x <=? al y in
  inhibit ← inhibit_struct_field_reordering_opt repr;
  if inhibit : bool then Ok indices
  else
    end_ ← (match kind with
            | MaybeUnsized => assert! (0 <? length fields)%nat; Ok (length fields - 1)%nat
            | _ => Ok (length fields)
            end);
    let optimizing := take end_ indices in
    let optimized :=
      if repr_randomize repr then shuffle (field_shuffle_seed repr) optimizing
      else match kind with
           | Prefixed _ _ => sort_by small optimizing
           | _ => sort_by large optimizing
           end in
    Ok (optimized ++ drop end_ indices).

(** The ABI of a struct: that of its only field that is not a ZST, or a pair of scalars *)
Definition struct_abi (fields : list LayoutInfo) (offsets : list N) (sized optimize : bool)
    (align : AbiAndPrefAlign) (size : N) : outcome AbiInfo :=
  let plain := AbiAggregate sized in
  let offset_of (i : nat) := default 0 (offsets !! i) in
  if sized && (0 <? size) then
    match List.filter (fun f => negb (l_is_zst f.2)) (imap pair fields) with
    | [(i, field)] =>
        Ok (if (offset_of i =? 0) && bool_decide (abi_align align = abi_align (l_align field))
               && (size =? l_size field) then
              match l_abi field with
              | AbiScalar _ | AbiVector _ _ => if optimize then l_abi field else plain
              | AbiScalarPair _ _ => l_abi field
              | _ => plain
              end
            else plain)
    | [(i, field1); (j, field2)] =>
        match l_abi field1, l_abi field2 with
        | AbiScalar a, AbiScalar b =>
            let '((i, a), (j, b)) :=
              if offset_of i <? offset_of j then ((i, a), (j, b)) else ((j, b), (i, a)) in
            pair ← scalar_pair a b;
            match l_fields pair with
            | ShapeArbitrary [o0; o1] _ =>
                Ok (if (offset_of i =? o0) && (offset_of j =? o1) && bool_decide (align = l_align pair)
                       && (size =? l_size pair) then l_abi pair else plain)
            | _ => Panic
            end
        | _, _ => Ok plain
        end
    | _ => Ok plain
    end
  else Ok plain.

(** [LayoutCx::univariant_uninterned] *)
Definition univariant_uninterned (ty : Ty) (fields : list LayoutInfo) (repr : ReprOptions)
    (kind : StructKind) : res LayoutError LayoutInfo :=
  let pack := repr_pack repr in
  if bool_decide (is_Some pack) && bool_decide (is_Some (repr_align repr)) then Fails (Unknown ty)
  else
    let align := match pack with Some _ => i8_align dl | None => aggregate_align dl end in
    inhibit ← r_lift (inhibit_struct_field_reordering_opt repr);
    inverse_memory_index ← r_lift (field_order fields repr kind);
    start ← (match kind with
             | Prefixed prefix_size prefix_align =>
                 let prefix_align := opt_align_min pack prefix_align in
                 offset ← r_lift (align_to prefix_size prefix_align);
                 mret (aligns_max align (align_new prefix_align), offset)
             | _ => mret (align, 0)
             end);
    p ← place_fields ty fields repr
          (mkPlacement start.1 (replicate (length fields) 0) start.2 true None 0) inverse_memory_index;
    let align := match repr_align repr with
                 | Some a => aligns_max (p_align p) (align_new a)
                 | None => p_align p
                 end in
    memory_index ← (if inhibit : bool then mret inverse_memory_index
                    else r_lift (invert_mapping inverse_memory_index));
    size ← r_lift (align_to (p_offset p) (abi_align align));
    abi ← r_lift (struct_abi fields (p_offsets p) (p_sized p) (negb inhibit) align size);
    let abi := if existsb (fun f => abi_is_uninhabited (l_abi f)) fields then AbiUninhabited else abi in
    mret (mkLayoutInfo (ShapeArbitrary (p_offsets p) memory_index) (VSingle 0) abi (p_niche p) align size).
End Univariant.

(** The variants of an ADT as lists of field layouts *)
Definition is_uninhabited (l : LayoutInfo) : bool := abi_is_uninhabited (l_abi l).
Definition absent (fields : list LayoutInfo) : bool :=
  existsb is_uninhabited fields && forallb l_is_zst fields.

Definition with_variants (l : LayoutInfo) (v : VariantsInfo) : LayoutInfo :=
  match l with mkLayoutInfo f _ a n al s => mkLayoutInfo f v a n al s end.
Definition with_abi (l : LayoutInfo) (a : AbiInfo) : LayoutInfo :=
  match l with mkLayoutInfo f v _ n al s => mkLayoutInfo f v a n al s end.
Definition with_niche (l : LayoutInfo) (n : option NicheInfo) : LayoutInfo :=
  match l with mkLayoutInfo f v a _ al s => mkLayoutInfo f v a n al s end.

Section Uncached.
Context `{TyCtxt, LayoutCtxt}.
#[local] Abbreviation dl := data_layout.

(** [self.layout_of] *)
Context (layout_of_rec : Ty -> res LayoutError LayoutInfo).

Definition scalar_layout (value : Primitive) : outcome LayoutInfo :=
  s ← scalar_unit value; layout_scalar dl s.

(** A pointer that is not null *)
Definition non_null (s : ScalarInfo) : ScalarInfo :=
  mkScalar (sc_value s) (with_start (valid_range s) 1).

(** [&T] and [*T], thin or wide *)
Definition pointer_layout (is_raw : bool) (pointee : Ty) : res LayoutError LayoutInfo :=
  data_ptr ← r_lift (scalar_unit PrimPointer);
  let data_ptr := if is_raw then data_ptr else non_null data_ptr in
  let pointee := normalize_erasing_regions pointee in
  if ty_is_sized pointee then r_lift (layout_scalar dl data_ptr)
  else
    let unsized_part := struct_tail pointee in
    match unsized_part with
    | Foreign _ => r_lift (layout_scalar dl data_ptr)
    | Slice _ | Str =>
        i ← r_lift (ptr_sized_integer dl);
        metadata ← r_lift (scalar_unit (PrimInt i false));
        r_lift (scalar_pair data_ptr metadata)
    | Dynamic _ =>
        vtable ← r_lift (scalar_unit PrimPointer);
        r_lift (scalar_pair data_ptr (non_null vtable))
    | _ => Fails (Unknown unsized_part)
    end.

Definition array_layout (ty element : Ty) (count : N) : res LayoutError LayoutInfo :=
  element ← layout_of_rec element;
  s ← r_lift (size_checked_mul dl (l_size element) count);
  size ← ok_or (SizeOverflow ty) s;
  let abi := if negb (count =? 0) && privately_uninhabited ty then AbiUninhabited
             else AbiAggregate true in
  let largest_niche := if negb (count =? 0) then l_niche element else None in
  mret (mkLayoutInfo (ShapeArray (l_size element) count) (VSingle 0) abi largest_niche
          (l_align element) size).

Definition slice_layout (stride : N) (align : AbiAndPrefAlign) : LayoutInfo :=
  mkLayoutInfo (ShapeArray stride 0) (VSingle 0) (AbiAggregate false) None align 0.

Definition never_layout : LayoutInfo :=
  mkLayoutInfo ShapePrimitive (VSingle 0) AbiUninhabited None (i8_align dl) 0.

(** [dyn Trait] and foreign types: an empty struct of unknown size *)
Definition unsized_unit (ty : Ty) : res LayoutError LayoutInfo :=
  unit ← univariant_uninterned ty [] repr_default AlwaysSized;
  match l_abi unit with
  | AbiAggregate _ => mret (with_abi unit (AbiAggregate false))
  | _ => Bug
  end.

(** SIMD vectors *)
Definition MAX_SIMD_LANES : N := N.shiftl 1 0xF.

Definition simd_layout (ty : Ty) (kind : AdtKind) (fields : list Ty) : res LayoutError LayoutInfo :=
  match kind with
  | AdtStruct =>
      f0_ty ← r_lift (unwrap (head fields));
      if negb (forallb (fun t => bool_decide (t = f0_ty)) fields) then Bug
      else
        e ← (match f0_ty with
             | Array e_ty _ =>
                 if negb (length fields =? 1)%nat then Bug
                 else match layout_of_rec f0_ty with
                      | Good l => match l_fields l with
                                  | ShapeArray _ count => mret (e_ty, count, true)
                                  | _ => Fails (Unknown ty)
                                  end
                      | Fails _ => Fails (Unknown ty)
                      | Bug => Bug
                      | Cut => Cut
                      end
             | _ => mret (f0_ty, N.of_nat (length fields), false)
             end);
        let '(e_ty, e_len, is_array) := (e : Ty * N * bool) in
        if (e_len =? 0) || (MAX_SIMD_LANES <? e_len) then Bug
        else
          e_ly ← layout_of_rec e_ty;
          match l_abi e_ly with
          | AbiScalar e_abi =>
              s ← r_lift (size_checked_mul dl (l_size e_ly) e_len);
              size ← ok_or (SizeOverflow ty) s;
              align ← r_lift (vector_align dl size);
              size ← r_lift (align_to size (abi_align align));
              let shape := if is_array then ShapeArbitrary [0] [0%nat]
                           else ShapeArray (l_size e_ly) e_len in
              mret (mkLayoutInfo shape (VSingle 0) (AbiVector e_abi e_len) (l_niche e_ly) align size)
          | _ => Bug
          end
  | _ => Fails (Unknown ty)
  end.

(** *** Unions *)

Definition max_range_abi (a : AbiInfo) : outcome AbiInfo :=
  match a with
  | AbiScalar x => s ← scalar_unit (sc_value x); Ok (AbiScalar s)
  | AbiScalarPair x y =>
      s ← scalar_unit (sc_value x); t ← scalar_unit (sc_value y); Ok (AbiScalarPair s t)
  | AbiVector x count => s ← scalar_unit (sc_value x); Ok (AbiVector s count)
  | AbiUninhabited | AbiAggregate _ => Ok (AbiAggregate true)
  end.

Fixpoint union_fields (optimize : bool) (fields : list LayoutInfo)
    (st : AbiAndPrefAlign * N * AbiInfo) : outcome (AbiAndPrefAlign * N * AbiInfo) :=
  match fields with
  | [] => Ok st
  | field :: fields =>
      let '(align, size, abi) := st in
      assert! negb (abi_is_unsized (l_abi field));
      let align := aligns_max align (l_align field) in
      abi ← (if optimize && negb (l_is_zst field) then
               field_abi ← max_range_abi (l_abi field);
               Ok (if size =? 0 then field_abi
                   else if bool_decide (abi = field_abi) then abi else AbiAggregate true)
             else Ok abi);
      union_fields optimize fields (align, N.max size (l_size field), abi)
  end.

Definition union_layout (ty : Ty) (repr : ReprOptions) (fields : list LayoutInfo) :
    res LayoutError LayoutInfo :=
  if bool_decide (is_Some (repr_pack repr)) && bool_decide (is_Some (repr_align repr)) then
    Fails (Unknown ty)
  else
    let align := match repr_pack repr with Some _ => i8_align dl | None => aggregate_align dl end in
    let align := match repr_align repr with Some a => aligns_max align (align_new a) | None => align end in
    r ← r_lift (union_fields (negb (inhibit_union_abi_opt repr)) fields (align, 0, AbiAggregate true));
    let '(align, size, abi) := (r : AbiAndPrefAlign * N * AbiInfo) in
    let align := opt_aligns_min (repr_pack repr) align in
    if (length fields =? 0)%nat then Fails (Unknown ty)
    else
      size ← r_lift (align_to size (abi_align align));
      mret (mkLayoutInfo (ShapeUnion (length fields)) (VSingle 0) abi None align size).

(** *** Structs, and enums with one variant that is present *)

(** [#[rustc_layout_scalar_valid_range]]: the range of the first scalar, narrowed *)
Definition narrow (bounds : option N * option N) (s : ScalarInfo) : outcome ScalarInfo :=
  s ← (match bounds.1 with
       | Some start => assert! (range_start (valid_range s) <=? start);
                       Ok (mkScalar (sc_value s) (with_start (valid_range s) start))
       | None => Ok s
       end);
  match bounds.2 with
  | Some end_ => assert! (end_ <=? range_end (valid_range s));
                 Ok (mkScalar (sc_value s) (with_end (valid_range s) end_))
  | None => Ok s
  end.

Definition larger_niche (st : LayoutInfo) (repr : ReprOptions) (s : ScalarInfo) : outcome LayoutInfo :=
  niche ← (if repr_hide_niche repr then Ok None else niche_from_scalar dl 0 s);
  match niche with
  | Some niche =>
      match l_niche st with
      | Some largest_niche =>
          k ← available dl largest_niche;
          k' ← available dl niche;
          Ok (if k <=? k' then with_niche st (Some niche) else st)
      | None => Ok (with_niche st (Some niche))
      end
  | None => Ok st
  end.

Definition struct_layout (ty : Ty) (def : N) (is_enum : bool) (v : N) (fields : list LayoutInfo) :
    res LayoutError LayoutInfo :=
  let repr := adt_repr def in
  let kind := if is_enum || (length fields =? 0)%nat then AlwaysSized
              else if last_field_always_sized def v then AlwaysSized else MaybeUnsized in
  st ← univariant_uninterned ty fields repr kind;
  let st := with_variants st (VSingle v) in
  let bounds := scalar_valid_range def in
  r_lift (match l_abi st with
          | AbiScalar s =>
              s ← narrow bounds s; larger_niche (with_abi st (AbiScalar s)) repr s
          | AbiScalarPair s t =>
              s ← narrow bounds s; larger_niche (with_abi st (AbiScalarPair s t)) repr s
          | _ => assert! bool_decide (bounds = (None, None)); Ok st
          end).

(** *** Enums in a niche *)

(** [VariantIdx::MAX] *)
Definition VARIANT_MAX : N := 0xFFFFFF00.

(** The variant with data, if there is exactly one, and the range of the others *)
Fixpoint find_dataful (variants : list (N * list LayoutInfo)) (dataful : option N) (start end_ : N) :
    option N * N * N :=
  match variants with
  | [] => (dataful, start, end_)
  | (v, fields) :: variants =>
      if absent fields then find_dataful variants dataful start end_
      else if existsb (fun f => negb (l_is_zst f)) fields then
        match dataful with
        | None => find_dataful variants (Some v) start end_
        | Some _ => (None, start, end_)
        end
      else find_dataful variants dataful (N.min start v) v
  end.

(** The variants as structs of their own *)
Definition variant_structs (ty : Ty) (repr : ReprOptions) (kind : StructKind)
    (variants : list (list LayoutInfo)) : res LayoutError (list LayoutInfo) :=
  r_map (fun jv : N * list LayoutInfo =>
           st ← univariant_uninterned ty jv.2 repr kind;
           mret (with_variants st (VSingle jv.1))) (imap (fun j v => (N.of_nat j, v)) variants).

Definition max_align (start : AbiAndPrefAlign) (st : list LayoutInfo) : AbiAndPrefAlign :=
  foldl (fun a l => aligns_max a (l_align l)) start st.

Definition niche_abi (st : list LayoutInfo) (dataful : LayoutInfo) (offset : N) (s : ScalarInfo) :
    outcome AbiInfo :=
  if forallb is_uninhabited st then Ok AbiUninhabited
  else match l_abi dataful with
       | AbiScalar _ => Ok (AbiScalar s)
       | AbiScalarPair first second =>
           if offset =? 0 then t ← scalar_unit (sc_value second); Ok (AbiScalarPair s t)
           else t ← scalar_unit (sc_value first); Ok (AbiScalarPair t s)
       | _ => Ok (AbiAggregate true)
       end.

(** The fields of the dataful variant that have a niche *)
Definition niche_candidates (fields : list LayoutInfo) : outcome (list (N * (nat * NicheInfo))) :=
  map_outcome (fun jn : nat * NicheInfo => k ← available dl jn.2; Ok (k, jn))
    (omap (fun jf : nat * LayoutInfo => pair jf.1 <$> l_niche jf.2) (imap pair fields)).

Definition niche_filling_layout (ty : Ty) (def : N) (variants : list (list LayoutInfo)) :
    res LayoutError (option LayoutInfo) :=
  let repr := adt_repr def in
  let no_explicit_discriminants :=
    forallb (fun id => match id.2 with Relative k => k =? N.of_nat id.1 | Explicit => false end)
      (imap pair (variant_discrs def)) in
  if negb (inhibit_enum_layout_opt repr) && no_explicit_discriminants then
    let '(dataful, start, end_) :=
      find_dataful (imap (fun j v => (N.of_nat j, v)) variants) None VARIANT_MAX 0 in
    match (if end_ <? start then None else dataful) with
    | None => mret None
    | Some i =>
        let count := end_ - start + 1 in
        fields ← r_lift (unwrap (variants !! N.to_nat i));
        candidates ← r_lift (niche_candidates fields);
        match max_by_key candidates with
        | None => mret None
        | Some (_, (field_index, niche)) =>
            reserved ← r_lift (reserve dl niche count);
            match reserved with
            | None => mret None
            | Some (niche_start, niche_scalar) =>
                st ← variant_structs ty repr AlwaysSized variants;
                let align := max_align (aggregate_align dl) st in
                sti ← r_lift (unwrap (st !! N.to_nat i));
                o ← r_lift (shape_offset (l_fields sti) field_index);
                offset ← r_lift (u64_add o (niche_offset niche));
                abi ← r_lift (niche_abi st sti offset niche_scalar);
                largest_niche ← r_lift (niche_from_scalar dl offset niche_scalar);
                mret (Some (mkLayoutInfo (ShapeArbitrary [offset] [0%nat])
                              (VMultiple niche_scalar (Niche i start end_ niche_start) 0 st)
                              abi largest_niche align (l_size sti)))
            end
        end
    end
  else mret None.

(** *** Enums with a tag *)

Definition i128_max : Z := (2 ^ 127 - 1)%Z.
Definition i128_min : Z := (- 2 ^ 127)%Z.

(** The range of the discriminants of the variants without uninhabited fields *)
Fixpoint discr_range (variants : list (list LayoutInfo)) (signed : bool) (bits : N)
    (ds : list (N * N)) (min max : Z) : outcome (Z * Z) :=
  match ds with
  | [] => Ok (min, max)
  | (i, val) :: ds =>
      fields ← unwrap (variants !! N.to_nat i);
      if existsb is_uninhabited fields then discr_range variants signed bits ds min max
      else
        let x := as_i128 val in
        let x := if signed then wrap bits true x else x in
        discr_range variants signed bits ds (if (x <? min)%Z then x else min)
          (if (max <? x)%Z then x else max)
  end.

(** The alignment of the first field of a variant that cannot be moved for a larger tag *)
Fixpoint first_immovable (fields : list LayoutInfo) (order : list nat) : outcome (option Align) :=
  match order with
  | [] => Ok None
  | j :: order =>
      field ← unwrap (fields !! j);
      b ← (if l_is_zst field then align_bytes (abi_align (l_align field)) else Ok 0);
      if negb (l_is_zst field) || negb (b =? 1) then Ok (Some (abi_align (l_align field)))
      else first_immovable fields order
  end.

Fixpoint lowest_start (start_align : Align) (variants : list (list LayoutInfo * LayoutInfo)) :
    outcome Align :=
  match variants with
  | [] => Ok start_align
  | (fields, st) :: variants =>
      order ← index_by_increasing_offset (l_fields st);
      a ← first_immovable fields order;
      lowest_start (match a with Some a => align_min start_align a | None => start_align end) variants
  end.

(** The offsets right after the tag, and the size of a variant that ends there, for a larger
    tag *)
Definition patch_offset (old new o : N) : outcome N :=
  if o <=? old then assert! (o =? old); Ok new else Ok o.
Definition patch_variant (old new : N) (l : LayoutInfo) : outcome LayoutInfo :=
  match l with
  | mkLayoutInfo (ShapeArbitrary offsets memory_index) v a n al size =>
      offsets ← map_outcome (patch_offset old new) offsets;
      Ok (mkLayoutInfo (ShapeArbitrary offsets memory_index) v a n al (if size <=? old then new else size))
  | _ => Panic
  end.

(** The scalar that follows the tag in every variant with data, if they agree *)
Fixpoint find_common_prim (variants : list (list LayoutInfo * LayoutInfo)) (common : option (Primitive * N)) :
    outcome (option (Primitive * N)) :=
  match variants with
  | [] => Ok common
  | (fields, l) :: variants =>
      match l_fields l with
      | ShapeArbitrary offsets _ =>
          match List.filter (fun p => negb (l_is_zst p.1)) (zip fields offsets) with
          | [] => find_common_prim variants common
          | [(field, offset)] =>
              match l_abi field with
              | AbiScalar s =>
                  match common with
                  | Some prim => if bool_decide (prim = (sc_value s, offset))
                                 then find_common_prim variants common else Ok None
                  | None => find_common_prim variants (Some (sc_value s, offset))
                  end
              | _ => Ok None
              end
          | _ => Ok None
          end
      | _ => Panic
      end
  end.

Definition tagged_abi (variants : list (list LayoutInfo * LayoutInfo)) (tag : ScalarInfo)
    (align : AbiAndPrefAlign) (size : N) : outcome AbiInfo :=
  if primitive_size dl (sc_value tag) =? size then Ok (AbiScalar tag)
  else
    common ← find_common_prim variants None;
    match common with
    | Some (prim, offset) =>
        u ← scalar_unit prim;
        pair ← scalar_pair tag u;
        match l_fields pair with
        | ShapeArbitrary [o0; o1] _ =>
            Ok (if (o0 =? 0) && (o1 =? offset) && bool_decide (align = l_align pair)
                   && (size =? l_size pair) then l_abi pair else AbiAggregate true)
        | _ => Panic
        end
    | None => Ok (AbiAggregate true)
    end.

Definition tagged_layout (ty : Ty) (def : N) (variants : list (list LayoutInfo)) :
    res LayoutError LayoutInfo :=
  let repr := adt_repr def in
  ity0 ← r_lift (from_attr dl (discr_type repr));
  mm ← r_lift (discr_range variants (int_type_is_signed (discr_type repr)) (bits (integer_size ity0))
                 (discriminants def) i128_max i128_min);
  let '(min, max) := if bool_decide (mm = (i128_max, i128_min)) then (0%Z, 0%Z) else (mm : Z * Z) in
  r_lift (rassert (min <=? max)%Z);;
  rd ← r_lift (repr_discr dl repr min max);
  let '(min_ity, signed) := (rd : Integer * bool) in
  start_align ← r_lift (unwrap (align_from_bytes 256));
  no_integer ← r_lift (for_align dl start_align);
  r_lift (rassert (bool_decide (no_integer = None)));;
  let prefix_align0 := abi_align (integer_align dl min_ity) in
  let prefix_align :=
    if repr_is_c repr then
      foldl (fun a l => align_max a (abi_align (l_align l))) prefix_align0 (concat variants)
    else prefix_align0 in
  st ← variant_structs ty repr (Prefixed (integer_size min_ity) prefix_align) variants;
  start_align ← r_lift (lowest_start start_align (zip variants st));
  let size := foldl (fun s l => N.max s (l_size l)) 0 st in
  let align := max_align (aggregate_align dl) st in
  size ← r_lift (align_to size (abi_align align));
  bound ← r_lift (obj_size_bound dl);
  if bound <=? size then Fails (SizeOverflow ty)
  else
    r_lift (rassert (negb (integer_ltb ity0 min_ity)));;
    wanted ← (if repr_is_c repr || bool_decide (is_Some (repr_int repr)) then mret min_ity
              else i ← r_lift (for_align dl start_align); mret (default min_ity i));
    let larger := integer_ltb min_ity wanted in
    let ity := if larger then wanted else min_ity in
    st ← (if larger then r_lift (map_outcome (patch_variant (integer_size min_ity) (integer_size ity)) st)
          else mret st);
    tag_mask ← r_lift (unsigned_int_max (integer_size ity));
    let tag := mkScalar (PrimInt ity signed)
                 (mkWrappingRange (N.land (as_u128 min) tag_mask) (N.land (as_u128 max) tag_mask)) in
    abi ← r_lift (tagged_abi (zip variants st) tag align size);
    let abi := if forallb is_uninhabited st then AbiUninhabited else abi in
    largest_niche ← r_lift (niche_from_scalar dl 0 tag);
    mret (mkLayoutInfo (ShapeArbitrary [0] [0%nat]) (VMultiple tag Direct 0 st) abi largest_niche
            align size).

(** The smaller layout, else the one with the larger niche, else the tagged one *)
Definition best_layout (tagged niche_filling : LayoutInfo) : outcome LayoutInfo :=
  let niche_size l := match l_niche l with Some n => available dl n | None => Ok 0 end in
  kt ← niche_size tagged;
  kn ← niche_size niche_filling;
  Ok (if (l_size tagged <? l_size niche_filling)
         || ((l_size tagged =? l_size niche_filling) && (kn <=? kt)) then tagged else niche_filling).

(** *** ADTs *)

Definition adt_layout (ty : Ty) (def : N) (substs : list Ty) : res LayoutError LayoutInfo :=
  let d := adt_def def in
  let repr := adt_repr def in
  let is_enum := match adt_kind d with AdtEnum => true | _ => false end in
  variants ← r_map (fun v => r_map (fun f => layout_of_rec (field_ty f substs)) (variant_fields v))
               (adt_variants d);
  match adt_kind d with
  | AdtUnion => fields ← r_lift (unwrap (head variants)); union_layout ty repr fields
  | _ =>
      let present := List.filter (fun iv : nat * list LayoutInfo => negb (absent iv.2)) (imap pair variants) in
      let only_struct v :=
        fields ← r_lift (unwrap (variants !! v)); struct_layout ty def is_enum (N.of_nat v) fields in
      let multiple :=
        niche_filling ← niche_filling_layout ty def variants;
        tagged ← tagged_layout ty def variants;
        match niche_filling with
        | Some niche_filling => r_lift (best_layout tagged niche_filling)
        | None => mret tagged
        end in
      match present with
      | [] => if is_enum then layout_of_rec Never else only_struct 0%nat
      | (v, _) :: rest =>
          if negb is_enum || ((length rest =? 0)%nat && negb (inhibit_enum_layout_opt repr))
          then only_struct v else multiple
      end
  end.

(** [LayoutCx::layout_of_uncached] *)
Definition layout_of_uncached (ty : Ty) : res LayoutError LayoutInfo :=
  match ty with
  | Bool => r_lift (layout_scalar dl (mkScalar (PrimInt Int8 false) (mkWrappingRange 0 1)))
  | Char => r_lift (layout_scalar dl (mkScalar (PrimInt Int32 false) (mkWrappingRange 0 0x10FFFF)))
  | Int ity => i ← r_lift (from_int_ty dl ity); r_lift (scalar_layout (PrimInt i true))
  | Uint ity => i ← r_lift (from_uint_ty dl ity); r_lift (scalar_layout (PrimInt i false))
  | Float fty => r_lift (scalar_layout (match fty with F32 => PrimF32 | F64 => PrimF64 end))
  | FnPtr _ => ptr ← r_lift (scalar_unit PrimPointer); r_lift (layout_scalar dl (non_null ptr))
  | Never => mret never_layout
  | Ref pointee _ => pointer_layout false pointee
  | RawPtr pointee _ => pointer_layout true pointee
  | Array element count => array_layout ty element count
  | Slice element => e ← layout_of_rec element; mret (slice_layout (l_size e) (l_align e))
  | Str => mret (slice_layout 1 (i8_align dl))
  | FnDef _ _ => univariant_uninterned ty [] repr_default AlwaysSized
  | Dynamic _ | Foreign _ => unsized_unit ty
  | Generator def substs => generator_layout def substs
  | Closure def substs =>
      tys ← r_map layout_of_rec (closure_upvar_tys def substs);
      univariant_uninterned ty tys repr_default AlwaysSized
  | Tuple tys =>
      ls ← r_map layout_of_rec tys;
      univariant_uninterned ty ls repr_default (if (length tys =? 0)%nat then AlwaysSized else MaybeUnsized)
  | Adt def substs =>
      if repr_is_simd (adt_repr def) then
        let d := adt_def def in
        simd_layout ty (adt_kind d)
          (match adt_variants d with
           | [v] => map (fun f => field_ty f substs) (variant_fields v)
           | _ => []
           end)
      else adt_layout ty def substs
  | Projection _ _ | Opaque _ _ => Fails (Unknown ty)
  | Placeholder _ | GeneratorWitness | Infer _ => Bug
  | Bound _ | Param _ | Error => Fails (Unknown ty)
  end.
End Uncached.

(** The query [layout_of].  The fuel is the rest of the recursion limit. *)
Fixpoint layout_of_ty `{TyCtxt, LayoutCtxt} (fuel : nat) (ty : Ty) : res LayoutError LayoutInfo :=
  match fuel with
  | 0%nat => Cut
  | S fuel =>
      match try_normalize ty with
      | None => Fails (NormalizationFailure ty)
      | Some ty' =>
          if bool_decide (ty' = ty) then
            layout ← layout_of_uncached (layout_of_ty fuel) ty;
            r_lift (rassert (negb (privately_uninhabited ty) || is_uninhabited layout));;
            mret layout
          else layout_of_ty fuel ty'
      end
  end.
