(* ===== verification/LayoutSpec.v ===== *)
(** * Layouts are right

    What [univariant_uninterned] and the enum layouts of [LayoutOf] promise, and the code
    generator relies on: the fields of a struct are aligned, do not overlap and end within the
    size, which is the least multiple of the alignment ([univariant_places_fields]); the goto
    struct the generator makes from a computed layout has the size of the layout
    ([computed_struct_size]); every niche and scalar of a computed layout is within its type
    ([layout_scalars_ok]); and the values an enum keeps its variants in are no values of the
    variant with data ([niche_values_unused]).  An enum in a niche next to a more aligned
    variant without data has a size that is not a multiple of its alignment
    ([niche_size_unaligned]).

    Together with [ArithSem], which shows that the code the generator emits for writing and
    reading a discriminant agrees on those values: for an enum with a computed layout, what is
    written is read back, and a valid value of the field is read as the variant with data
    ([computed_niche_roundtrip]). *)

From S2P Require Import Prelude CbmcString MachineModel Location Typ Ast SymbolTable Expr Mir.
From S2P Require Import GotoCtx TypeGen ArithGen StmtGen Eval ArithSem TargetAbi LayoutOf.

Open Scope N_scope.

(** What the model assumes of the compiler: shuffling permutes, the attribute that narrows
    the range of a scalar gives values of it, generators have well-formed scalars, and [!] is
    normalized. *)
Definition abi_ok (dl : TargetDataLayout) (a : AbiInfo) : Prop :=
  match a with
  | AbiScalar s => scalar_ok dl s
  | AbiScalarPair s t => scalar_ok dl s /\ scalar_ok dl t
  | AbiVector s _ => scalar_ok dl s
  | _ => True
  end.
Definition niche_ok (dl : TargetDataLayout) (n : option NicheInfo) : Prop :=
  match n with Some n => scalar_ok dl (niche_scalar n) | None => True end.
Definition scalars_ok (dl : TargetDataLayout) (l : LayoutInfo) : Prop :=
  abi_ok dl (l_abi l) /\ niche_ok dl (l_niche l).

Class LayoutLaws `{LayoutCtxt} : Prop := {
  shuffle_perm : forall seed l, shuffle seed l ≡ₚ l;
  narrow_ok : forall def s s',
    scalar_ok data_layout s -> narrow (scalar_valid_range def) s = Ok s' -> scalar_ok data_layout s';
  generator_ok : forall def substs l,
    generator_layout def substs = Good l -> scalars_ok data_layout l;
  normalize_never : try_normalize Never = Some Never;
}.

(** ** The monad *)

Lemma r_bind_good {E A B} (m : res E A) (f : A -> res E B) b :
  mbind f m = Good b <-> exists a, m = Good a /\ f a = Good b.
Proof.
  destruct m as [a|e| |]; cbn; split; try done; try (by intros (? & ? & ?)); [eauto|].
  by intros (? & [= ->] & ?).
Qed.
Lemma r_lift_good {E A} (m : outcome A) a : r_lift (E := E) m = Good a <-> m = Ok a.
Proof. destruct m; cbn; split; congruence. Qed.
Lemma ok_or_good {E A} (e : E) (o : option A) a : ok_or e o = Good a <-> o = Some a.
Proof. destruct o; cbn; split; congruence. Qed.
Lemma r_map_good {E A B} (f : A -> res E B) l r :
  r_map f l = Good r -> Forall2 (fun a b => f a = Good b) l r.
Proof.
  revert r. induction l as [|a l IH]; intros r H; cbn in H; [by injection H as <-|].
  apply r_bind_good in H as (b & Hb & (r' & Hr & [= <-])%r_bind_good). constructor; auto.
Qed.

Ltac res_inv1 :=
  match goal with
  | H : Good _ = Good _ |- _ => injection H; clear H; intros; subst
  | H : mret _ = Good _ |- _ => cbv [mret res_ret] in H
  | H : Fails _ = Good _ |- _ => discriminate H
  | H : Bug = Good _ |- _ => discriminate H
  | H : Cut = Good _ |- _ => discriminate H
  | H : r_lift _ = Good _ |- _ => apply r_lift_good in H
  | H : ok_or _ _ = Good _ |- _ => apply ok_or_good in H
  | H : mbind _ _ = Good _ |- _ =>
      let x := fresh "x" in let E := fresh "E" in apply r_bind_good in H as (x & E & H)
  end.
Ltac res_inv := repeat res_inv1.

(** ** Permutations *)

(** Inverting a permutation twice gives it back. *)
Lemma invert_mapping_ok order n : order ≡ₚ seq 0 n ->
  exists m, invert_mapping order = Ok m /\ m ≡ₚ seq 0 n
    /\ forall p i, order !! p = Some i -> m !! i = Some p.
Proof.
  intros Hp. assert (length order = n) as Hl by (rewrite Hp; apply length_seq).
  unfold invert_mapping.
  destruct (invert_run order 0 (replicate (length order) 0%nat)) as (m & E & Hlen & Hin & _).
  { rewrite Hp. apply Forall_forall. intros p Hpn%elem_of_seq. rewrite length_replicate. lia. }
  { rewrite Hp. apply NoDup_seq. }
  exists m. split; [done|]. rewrite length_replicate in Hlen. split; [|done].
  symmetry. apply submseteq_length_Permutation.
  - apply NoDup_submseteq; [apply NoDup_seq|]. intros p Hpn%elem_of_seq.
    destruct (lookup_lt_is_Some_2 order p) as [i Hi]; [lia|].
    eapply list_elem_of_lookup_2. by apply Hin.
  - rewrite length_seq. lia.
Qed.

Lemma memory_order_inverse (offsets : list N) order m :
  order ≡ₚ seq 0 (length offsets) -> m ≡ₚ seq 0 (length offsets) ->
  (forall p i, order !! p = Some i -> m !! i = Some p) ->
  index_by_increasing_offset (ShapeArbitrary offsets m) = Ok order.
Proof.
  intros Ho Hm Hinv. destruct (memory_order offsets m Hm) as (order' & E & Hp & Hback).
  rewrite E. f_equal. apply list_eq_same_length with (length offsets).
  - rewrite Ho. by rewrite length_seq.
  - rewrite Hp. by rewrite length_seq.
  - intros p x y _ Hx Hy. apply Hinv, Hback in Hy. congruence.
Qed.

Section FieldOrder.
Context `{LayoutLaws}.

Lemma field_order_perm fields repr kind order :
  field_order fields repr kind = Ok order -> order ≡ₚ seq 0 (length fields).
Proof.
  unfold field_order. intros (inhibit & _ & Hi)%bind_ok. destruct inhibit; [by injection Hi as <-|].
  apply bind_ok in Hi as (e & _ & [= <-]).
  transitivity (take e (seq 0 (length fields)) ++ drop e (seq 0 (length fields))).
  - apply Permutation_app; [|done]. destruct (repr_randomize repr); [apply shuffle_perm|].
    destruct kind; apply sort_by_perm.
  - by rewrite take_drop.
Qed.

(** Without optimisation the order is that of the source. *)
Lemma field_order_inhibited fields repr kind order :
  inhibit_struct_field_reordering_opt repr = Ok true ->
  field_order fields repr kind = Ok order -> order = seq 0 (length fields).
Proof. unfold field_order. intros ->. cbn. by intros [= <-]. Qed.
End FieldOrder.

(** ** Placing fields *)

(** The alignment a field gets *)
Definition field_align (pack : option Align) (f : LayoutInfo) : Align :=
  abi_align (opt_aligns_min pack (l_align f)).

(** The fields in this order are aligned, and each starts where the one before ends or later. *)
Fixpoint laid_out (fields : list LayoutInfo) (pack : option Align) (offsets : list N)
    (order : list nat) (from : N) : Prop :=
  match order with
  | [] => True
  | i :: order =>
      exists o f, offsets !! i = Some o /\ fields !! i = Some f /\ from <= o
        /\ (2 ^ pow2 (field_align pack f) | o) /\ laid_out fields pack offsets order (o + l_size f)
  end.

(** Where the last field ends *)
Fixpoint ends (fields : list LayoutInfo) (offsets : list N) (order : list nat) (from : N) : N :=
  match order with
  | [] => from
  | i :: order =>
      ends fields offsets order
        (match offsets !! i, fields !! i with Some o, Some f => o + l_size f | _, _ => from end)
  end.

Lemma laid_out_ext fields pack offsets offsets' order from :
  (forall i, i ∈ order -> offsets !! i = offsets' !! i) ->
  laid_out fields pack offsets order from -> laid_out fields pack offsets' order from.
Proof.
  revert from. induction order as [|i order IH]; intros from Heq; cbn; [done|].
  intros (o & f & Ho & Hf & Hle & Hd & Hl). exists o, f.
  rewrite <- Heq by set_solver. split_and!; try done. apply IH; [|done]. set_solver.
Qed.
Lemma ends_ext fields offsets offsets' order from :
  (forall i, i ∈ order -> offsets !! i = offsets' !! i) ->
  ends fields offsets order from = ends fields offsets' order from.
Proof.
  revert from. induction order as [|i order IH]; intros from Heq; cbn; [done|].
  rewrite <- Heq by set_solver. apply IH. set_solver.
Qed.

Lemma obj_size_bound_le dl b : obj_size_bound dl = Ok b -> b <= 2 ^ 47.
Proof.
  unfold obj_size_bound. intros Hb.
  repeat match type of Hb with context [match ?x with _ => _ end] => destruct x; try done end;
    injection Hb as <-; vm_compute; discriminate.
Qed.
Lemma size_checked_ok dl n e : size_checked dl n = Ok (Some e) -> e = n /\ n < 2 ^ 47.
Proof.
  unfold size_checked. destruct (in_u64 n); [|done]. intros (b & Hb & H)%bind_ok.
  apply obj_size_bound_le in Hb. destruct (N.ltb_spec n b); [|done]. injection H as <-. lia.
Qed.

Section Placement.
Context `{LayoutLaws}.
#[local] Abbreviation dl := data_layout.

Lemma place_field_ok ty fields repr p i p' :
  place_field ty fields repr p i = Good p' ->
  exists f o, fields !! i = Some f
    /\ align_to (p_offset p) (field_align (repr_pack repr) f) = Ok o
    /\ p_offsets p' = <[i := o]> (p_offsets p)
    /\ p_offset p' = o + l_size f /\ p_offset p' < 2 ^ 47
    /\ p_align p' = aligns_max (p_align p) (opt_aligns_min (repr_pack repr) (l_align f))
    /\ (p_niche p' = p_niche p
        \/ exists n, l_niche f = Some n /\ niche_scalar <$> p_niche p' = Some (niche_scalar n)).
Proof.
  unfold place_field. intros Hp. res_inv. destruct (fields !! i) as [f|] eqn:Hf; [|done].
  injection E as <-. exists f, x0.
  assert (x1.1 = p_niche p \/ exists n, l_niche f = Some n /\ niche_scalar <$> x1.1 = Some (niche_scalar n)) as Hn.
  { destruct (l_niche f) as [n|]; [|res_inv; by left].
    destruct (repr_hide_niche repr); res_inv; [by left|].
    destruct (p_available p <? x); res_inv; [|by left]. right. by exists n. }
  subst. unfold size_checked_add in E2. apply size_checked_ok in E2 as [-> Hb].
  split_and!; try done.
Qed.

Lemma place_fields_ok ty fields repr p order p' :
  place_fields ty fields repr p order = Good p' ->
  NoDup order -> Forall (fun i => i < length (p_offsets p))%nat order ->
  laid_out fields (repr_pack repr) (p_offsets p') order (p_offset p)
  /\ p_offset p' = ends fields (p_offsets p') order (p_offset p)
  /\ (p_offset p < 2 ^ 47 -> p_offset p' < 2 ^ 47)
  /\ length (p_offsets p') = length (p_offsets p)
  /\ (forall i, i ∉ order -> p_offsets p' !! i = p_offsets p !! i)
  /\ pow2 (abi_align (p_align p)) <= pow2 (abi_align (p_align p'))
  /\ (forall i f, i ∈ order -> fields !! i = Some f ->
        pow2 (field_align (repr_pack repr) f) <= pow2 (abi_align (p_align p'))).
Proof.
  revert p. induction order as [|i order IH]; intros p Hp Hnd Hlt; cbn in Hp.
  { res_inv. cbn. split_and!; try done. set_solver. }
  apply r_bind_good in Hp as (q & Hq & Hp). apply NoDup_cons in Hnd as [Hni Hnd].
  inversion Hlt as [|? ? Hi Hlt']; subst.
  destruct (place_field_ok _ _ _ _ _ _ Hq) as (f & o & Hf & Ho & Hoffs & Hoff & Hb & Hal & _).
  destruct (IH q Hp Hnd) as (Hl & He & Hbound & Hlen & Hout & Hmono & Hfal).
  { rewrite Hoffs, length_insert. done. }
  assert (p_offsets p' !! i = Some o) as Hi'.
  { rewrite Hout by done. rewrite Hoffs. by apply list_lookup_insert_eq. }
  apply align_to_spec in Ho as (Hle & Hd & _).
  cbn [laid_out ends]. rewrite Hi', Hf. split_and!.
  - exists o, f. rewrite <- Hoff. split_and!; try done; lia.
  - by rewrite He, Hoff.
  - intros _. by apply Hbound.
  - by rewrite Hlen, Hoffs, length_insert.
  - intros j Hj. apply not_elem_of_cons in Hj as [Hne Hj]. rewrite Hout, Hoffs by done.
    by apply list_lookup_insert_ne.
  - rewrite Hal in Hmono. cbn in Hmono. lia.
  - intros j g Hj Hg. apply elem_of_cons in Hj as [->|Hj]; [|by eapply Hfal].
    rewrite Hf in Hg. injection Hg as <-. rewrite Hal in Hmono. unfold field_align. cbn in Hmono. lia.
Qed.

(** What a struct layout promises *)
Record struct_ok (fields : list LayoutInfo) (pack : option Align) (from : N) (l : LayoutInfo)
    (offsets : list N) (memory_index order : list nat) : Prop := {
  so_fields : l_fields l = ShapeArbitrary offsets memory_index;
  so_length : length offsets = length fields;
  so_perm : memory_index ≡ₚ seq 0 (length fields);
  so_order : index_by_increasing_offset (l_fields l) = Ok order;
  so_laid_out : laid_out fields pack offsets order from;
  so_size : ends fields offsets order from <= l_size l
            < ends fields offsets order from + 2 ^ pow2 (abi_align (l_align l));
  so_divides : (2 ^ pow2 (abi_align (l_align l)) | l_size l);
  so_align : Forall (fun f => pow2 (field_align pack f) <= pow2 (abi_align (l_align l))) fields;
  so_bound : from < 2 ^ 47 -> ends fields offsets order from < 2 ^ 47;
  so_pow2 : pow2 (abi_align (l_align l)) < 64;
}.

(** Where the first field may start: after the prefix, aligned *)
Definition starts_at (pack : option Align) (kind : StructKind) (from : N) : Prop :=
  match kind with
  | Prefixed size align => align_to size (opt_align_min pack align) = Ok from
  | _ => from = 0
  end.

Lemma univariant_struct_ok ty fields repr kind l :
  univariant_uninterned ty fields repr kind = Good l ->
  exists from offsets memory_index order,
    starts_at (repr_pack repr) kind from
    /\ struct_ok fields (repr_pack repr) from l offsets memory_index order.
Proof.
  unfold univariant_uninterned. case_match; [done|]. intros Hu. res_inv.
  rename x into inhibit, E into Hinh, x0 into order, E0 into Hord, x1 into start, x2 into p, E2 into Hp.
  pose proof (field_order_perm _ _ _ _ Hord) as Hperm.
  destruct (place_fields_ok _ _ _ _ _ _ Hp) as (Hl & He & Hbound & Hlen & _ & Hmono & Hal).
  { rewrite Hperm. apply NoDup_seq. }
  { rewrite Hperm. apply Forall_forall. intros i Hi%elem_of_seq. cbn. rewrite length_replicate. lia. }
  cbn [p_offset p_offsets p_align] in *. rewrite length_replicate in Hlen.
  assert (starts_at (repr_pack repr) kind start.2) as Hstart.
  { destruct kind; res_inv; done. }
  assert (x3 ≡ₚ seq 0 (length fields) /\ forall q i, order !! q = Some i -> x3 !! i = Some q) as [Hm Hinv].
  { destruct inhibit; res_inv.
    - apply field_order_inhibited in Hord; [|done]. subst. split; [done|].
      intros q i [-> ?]%lookup_seq. rewrite Nat.add_0_l. apply lookup_seq. lia.
    - destruct (invert_mapping_ok _ _ Hperm) as (m & Em & Hm & Hinv). rewrite Em in E3.
      injection E3 as <-. done. }
  set (al := match repr_align repr with Some a => _ | None => _ end) in *.
  assert (pow2 (abi_align (p_align p)) <= pow2 (abi_align al)) as Hge.
  { subst al. destruct (repr_align repr); cbn; lia. }
  apply align_to_spec in E4 as (Hsz & Hdiv & Hlt).
  exists start.2, (p_offsets p), x3, order. split; [done|]. split; cbn [l_fields l_size l_align]; try done.
  - apply memory_order_inverse; [by rewrite Hlen|by rewrite Hlen|done].
  - by rewrite <- He.
  - apply Forall_forall. intros f (i & Hi)%list_elem_of_lookup. etransitivity; [|exact Hge].
    apply (Hal i); [|done]. rewrite Hperm. apply elem_of_seq. apply lookup_lt_Some in Hi. lia.
  - intros Hf. rewrite <- He. by apply Hbound.
Qed.
End Placement.

(** ** The struct the code generator makes *)

Lemma bits_small n : n < 2 ^ 61 -> bits n = 8 * n.
Proof. intros Hn. unfold bits. rewrite N.shiftl_mul_pow2, N.mod_small; lia. Qed.

Lemma multiple_unique b e x y : (b | x) -> (b | y) -> e <= x < e + b -> e <= y < e + b -> x = y.
Proof. intros [p ->] [q ->] Hx Hy. assert (p = q) as ->; [|done]. nia. Qed.

(** The order of the fields, in bits and by the types of the fields *)
Section Generated.
Context `{TyCtxt}.
Context (flds : list (string * Ty)) (fields : list LayoutInfo).
Context (agree : Forall2 (fun fld f => layout_of fld.2 = erase f) flds fields).

Lemma agree_size i f : fields !! i = Some f ->
  exists fld, flds !! i = Some fld /\ lay_size (layout_of fld.2) = l_size f.
Proof using agree.
  intros Hf. destruct (Forall2_lookup_r _ _ _ _ _ agree Hf) as (fld & Hfld & E). exists fld.
  split; [done|]. rewrite E. by destruct f.
Qed.

Lemma ends_le pack offsets order from : laid_out fields pack offsets order from ->
  from <= ends fields offsets order from.
Proof using.
  revert from. induction order as [|i order IH]; intros from; cbn; [lia|].
  intros (o & f & -> & -> & Hle & _ & Hl). apply IH in Hl. lia.
Qed.

Lemma laid_out_generated pack offsets order from :
  laid_out fields pack offsets order from -> ends fields offsets order from < 2 ^ 47 ->
  no_overlap flds offsets order (8 * from) = true
  /\ fields_end flds offsets order (8 * from) = 8 * ends fields offsets order from.
Proof using agree.
  revert from. induction order as [|i order IH]; intros from Hl Hb; cbn in *; [done|].
  destruct Hl as (o & f & Ho & Hf & Hle & _ & Hl). rewrite Ho, Hf in Hb |- *.
  destruct (agree_size i f Hf) as (fld & -> & Es). rewrite Es.
  pose proof (ends_le _ _ _ _ Hl) as Hend. destruct (IH _ Hl Hb) as [Hno Hfe].
  assert (bits o + bits (l_size f) = 8 * (o + l_size f)) as -> by (rewrite !bits_small; lia).
  rewrite bits_small by lia. split; [|done]. rewrite Hno, andb_true_r. apply andb_true_iff. split.
  - apply N.leb_le. lia.
  - apply N.leb_le. unfold u64_max. lia.
Qed.
End Generated.

(** ** Scalars and niches stay within their types *)

Section Scalars.
Context `{TyCtxt, LayoutLaws}.
#[local] Abbreviation dl := data_layout.
#[local] Abbreviation good := (scalars_ok data_layout).

Lemma scalar_unit_ok v s : scalar_unit v = Ok s -> scalar_ok dl s /\ sc_value s = v.
Proof.
  unfold scalar_unit. intros (m & (w & -> & Hw & ->)%scalar_max_ok & [= <-])%bind_ok.
  pose proof (N.pow_nonzero 2 (bits (primitive_size dl v)) ltac:(done)).
  split; [|done]. split; cbn; [done|]. split; cbn; lia.
Qed.
Lemma niche_from_scalar_ok o s n :
  scalar_ok dl s -> niche_from_scalar dl o s = Ok n -> niche_ok dl n.
Proof. unfold niche_from_scalar. intros Hs (a & _ & [= <-])%bind_ok. by case_match. Qed.
Lemma layout_scalar_ok s l : scalar_ok dl s -> layout_scalar dl s = Ok l -> good l.
Proof.
  unfold layout_scalar. intros Hs (n & Hn & [= <-])%bind_ok. split; [done|].
  by eapply niche_from_scalar_ok.
Qed.

Lemma max_by_key_elem {A} (l : list (N * A)) x : max_by_key l = Some x -> x ∈ l.
Proof.
  revert x. induction l as [|y l IH]; cbn; [done|]. intros x.
  destruct (max_by_key l) as [z|].
  - destruct (y.1 <=? z.1); intros [= <-]; [right; by apply IH|left].
  - intros [= ->]. left.
Qed.
(** Candidates are listed with what they offer. *)
Lemma with_available_elem {A} (n : A -> NicheInfo) (xs : list A) ks k x :
  map_outcome (fun x => k ← available dl (n x); Ok (k, x)) xs = Ok ks ->
  (k, x) ∈ ks -> x ∈ xs /\ available dl (n x) = Ok k.
Proof.
  unfold map_outcome. intros Hm%sequence_ok Hin.
  apply list_elem_of_lookup in Hin as (i & Hi).
  destruct (Forall2_lookup_r _ _ _ _ _ Hm Hi) as (m & Hmi & E).
  rewrite list_lookup_fmap in Hmi. destruct (xs !! i) as [y|] eqn:Hy; [|done].
  injection Hmi as <-. apply bind_ok in E as (k' & Hk & [= <- <-]).
  split; [by eapply list_elem_of_lookup_2|done].
Qed.

Lemma scalar_pair_ok a b l : scalar_ok dl a -> scalar_ok dl b -> scalar_pair a b = Ok l ->
  good l /\ l_abi l = AbiScalarPair a b.
Proof.
  intros Ha Hb. unfold scalar_pair.
  intros (bo & _ & (e & _ & (sz & _ & (nb & Enb & (na & Ena & (ks & Eks & [= <-])
    %bind_ok)%bind_ok)%bind_ok)%bind_ok)%bind_ok)%bind_ok.
  split; [|done]. split; [done|].
  cbn [l_niche]. destruct (max_by_key ks) as [[k n]|] eqn:Hn; [|done].
  apply max_by_key_elem in Hn. destruct (with_available_elem (fun n => n) _ _ _ _ Eks Hn) as [Hin _].
  apply niche_from_scalar_ok in Enb, Ena; [|done..]. apply elem_of_app in Hin.
  destruct nb as [nb|], na as [na|]; cbn in Hin;
    rewrite ?list_elem_of_singleton, ?elem_of_nil in Hin; destruct Hin as [Hin|Hin]; by subst.
Qed.

Lemma place_fields_niche ty fields repr p order p' :
  Forall good fields -> niche_ok dl (p_niche p) ->
  place_fields ty fields repr p order = Good p' -> niche_ok dl (p_niche p').
Proof.
  intros Hf. revert p. induction order as [|i order IH]; intros p Hn Hp; cbn in Hp.
  { by res_inv. }
  apply r_bind_good in Hp as (q & Hq & Hp). apply (IH q); [|done].
  destruct (place_field_ok _ _ _ _ _ _ Hq) as (f & o & Hi & _ & _ & _ & _ & _ & [->|(n & En & Eq)]); [done|].
  destruct (p_niche q) as [nq|]; [|done]. injection Eq as Eq. unfold niche_ok. rewrite Eq.
  apply list_elem_of_lookup_2 in Hi. eapply Forall_forall in Hf as [_ Hf]; [|done]. by rewrite En in Hf.
Qed.

Lemma non_zst_elem fields i f l :
  List.filter (fun f => negb (l_is_zst f.2)) (imap pair fields) = l -> (i, f) ∈ l -> f ∈ fields.
Proof.
  intros <- Hin. apply list_elem_of_In, filter_In in Hin as [Hin _].
  apply list_elem_of_In, elem_of_lookup_imap in Hin as (j & y & [= -> ->] & Hj).
  by eapply list_elem_of_lookup_2.
Qed.

Lemma struct_abi_ok fields offsets sized optimize align size a :
  Forall good fields -> struct_abi fields offsets sized optimize align size = Ok a -> abi_ok dl a.
Proof.
  intros Hf. unfold struct_abi. case_match; [|by intros [= <-]].
  destruct (List.filter _ _) as [|[i f] [|[j g] [|]]] eqn:El; try (by intros [= <-]).
  - assert (abi_ok dl (l_abi f)) as Ha.
    { apply (proj1 (Forall_forall _ _) Hf), (non_zst_elem _ i f _ El). left. }
    intros [= <-]. repeat case_match; done.
  - assert (abi_ok dl (l_abi f) /\ abi_ok dl (l_abi g)) as [Ha Hb].
    { rewrite Forall_forall in Hf. split.
      - apply Hf, (non_zst_elem _ i f _ El). left.
      - apply Hf, (non_zst_elem _ j g _ El). right. left. }
    destruct (l_abi f) as [|sf| | |], (l_abi g) as [|sg| | |]; try (by intros [= <-]).
    match goal with |- context [if ?c then _ else _] => destruct c end;
      intros (pr & Hpr & Hp)%bind_ok; (apply scalar_pair_ok in Hpr as [_ Hpr]; [|done..]);
      repeat case_match; simplify_eq; rewrite ?Hpr; done.
Qed.

Lemma univariant_scalars_ok ty fields repr kind l :
  Forall good fields -> univariant_uninterned ty fields repr kind = Good l -> good l.
Proof.
  intros Hf. unfold univariant_uninterned. case_match; [done|]. intros Hu. res_inv.
  split; cbn [l_abi l_niche].
  - destruct (existsb _ fields); [done|]. by eapply struct_abi_ok.
  - by eapply place_fields_niche; [done| |done].
Qed.

Lemma max_range_abi_ok a a' : max_range_abi a = Ok a' -> abi_ok dl a'.
Proof.
  destruct a; cbn; try (by intros [= <-]).
  - intros (s' & [Hs _]%scalar_unit_ok & [= <-])%bind_ok. done.
  - intros (s' & [Hs _]%scalar_unit_ok & (t' & [Ht _]%scalar_unit_ok & [= <-])%bind_ok)%bind_ok. done.
  - intros (s' & [Hs _]%scalar_unit_ok & [= <-])%bind_ok. done.
Qed.

Lemma union_fields_ok optimize fields st r :
  abi_ok dl st.2 -> union_fields optimize fields st = Ok r -> abi_ok dl r.2.
Proof.
  revert st. induction fields as [|f fields IH]; intros [[al sz] a] Ha Hu; cbn in Hu; [by injection Hu as <-|].
  apply bind_ok in Hu as (_ & _ & (a' & Ha' & Hu)%bind_ok). apply (IH _) in Hu; [done|]. cbn.
  destruct (optimize && _); [|by injection Ha' as <-].
  apply bind_ok in Ha' as (fa & Hfa%max_range_abi_ok & [= <-]). cbn in Ha. repeat case_match; done.
Qed.

Lemma union_scalars_ok ty repr fields l : union_layout ty repr fields = Good l -> good l.
Proof.
  unfold union_layout. case_match; [done|]. intros (r & Hr%r_lift_good & Hl)%r_bind_good.
  apply union_fields_ok in Hr; [|done]. destruct r as [[al sz] a]. case_match; [done|]. res_inv.
  by split.
Qed.

Lemma larger_niche_ok st repr s l : good st -> scalar_ok dl s -> larger_niche st repr s = Ok l ->
  good l /\ l_abi l = l_abi st.
Proof.
  intros [Ha Hn] Hs. unfold larger_niche. intros (n & Hn' & Hl)%bind_ok.
  assert (niche_ok dl n) as Hok.
  { destruct (repr_hide_niche repr); [by injection Hn' as <-|]. by eapply niche_from_scalar_ok. }
  destruct st as [f v a nn al sz]. cbn in *. destruct n as [n|]; [|by injection Hl as <-].
  destruct nn as [nn|]; [|by injection Hl as <-].
  apply bind_ok in Hl as (k & _ & (k' & _ & [= <-])%bind_ok). destruct (_ <=? _);
    (split; [split; [exact Ha|first [exact Hok|exact Hn]]|done]).
Qed.

Lemma struct_scalars_ok ty def is_enum v fields l :
  Forall good fields -> struct_layout ty def is_enum v fields = Good l -> good l.
Proof.
  intros Hf. unfold struct_layout. intros (st & Hst & Hl%r_lift_good)%r_bind_good.
  apply univariant_scalars_ok in Hst as [Ha Hn]; [|done]. destruct st as [f vs a nn al sz].
  cbn [with_variants l_abi l_niche] in *. destruct a as [|s|s t| |].
  - by apply bind_ok in Hl as (_ & _ & [= <-]).
  - apply bind_ok in Hl as (s' & Hs'%narrow_ok & Hl); [|done]. by apply larger_niche_ok in Hl as [? _].
  - destruct Ha as [Ha Hb]. apply bind_ok in Hl as (s' & Hs'%narrow_ok & Hl); [|done].
    by apply larger_niche_ok in Hl as [? _].
  - by apply bind_ok in Hl as (_ & _ & [= <-]).
  - by apply bind_ok in Hl as (_ & _ & [= <-]).
Qed.

(** *** Enums *)

Lemma reserve_ok n count start s : scalar_ok dl (niche_scalar n) ->
  reserve dl n count = Ok (Some (start, s)) ->
  scalar_ok dl s /\ sc_value s = sc_value (niche_scalar n)
  /\ 0 < count < 2 ^ bits (primitive_size dl (sc_value s))
  /\ grows (2 ^ bits (primitive_size dl (sc_value s))) (valid_range (niche_scalar n)) count start (valid_range s).
Proof.
  intros Hok Hr. assert (0 < count) as Hc.
  { unfold reserve, rassert in Hr. by destruct (N.ltb_spec 0 count). }
  destruct (reserve_cases dl n count Hc Hok) as (r & Hcase & E). rewrite E in Hr.
  destruct Hok as [Hw Hv].
  destruct (N.ltb_spec (outside (valid_range (niche_scalar n))
    (2 ^ bits (primitive_size dl (sc_value (niche_scalar n))) - 1)) count); [done|].
  injection Hr as <- <-. cbn [sc_value valid_range].
  assert (grows (2 ^ bits (primitive_size dl (sc_value (niche_scalar n)))) (valid_range (niche_scalar n))
            count r.1 r.2) as Hg.
  { destruct Hcase as [-> | ->]; [apply move_end_grows|apply move_start_grows]; first [done|lia]. }
  pose proof (outside_dist (valid_range (niche_scalar n)) _ ltac:(apply Hw) Hv).
  split; [split; [done|apply Hg]|]. split; [done|]. split; [lia|done].
Qed.

Lemma variant_structs_ok ty repr kind variants st :
  Forall (Forall good) variants -> variant_structs ty repr kind variants = Good st -> Forall good st.
Proof.
  intros Hv. unfold variant_structs. intros Hst%r_map_good. apply Forall_forall.
  intros l (i & Hi)%list_elem_of_lookup.
  destruct (Forall2_lookup_r _ _ _ _ _ Hst Hi) as ([j fs] & Hj & Hl). res_inv.
  rewrite list_lookup_imap in Hj. destruct (variants !! i) as [v|] eqn:Hvi; [|done]. injection Hj as <- ->.
  apply univariant_scalars_ok in E; [destruct x; done|].
  eapply Forall_forall in Hv; [done|]. by eapply list_elem_of_lookup_2.
Qed.

Lemma niche_candidate_ok fields ks k j n :
  Forall good fields -> niche_candidates fields = Ok ks -> (k, (j, n)) ∈ ks ->
  scalar_ok dl (niche_scalar n) /\ exists f, fields !! j = Some f /\ l_niche f = Some n.
Proof.
  intros Hf Hks Hin. unfold niche_candidates in Hks.
  destruct (with_available_elem (fun jn : nat * NicheInfo => jn.2) _ _ _ _ Hks Hin) as [Hj _].
  apply list_elem_of_omap in Hj as ([j' f] & Hj & Hn). cbn in Hn.
  destruct (l_niche f) as [n'|] eqn:En; [|done]. injection Hn as <- <-.
  apply elem_of_lookup_imap in Hj as (i & y & [= -> ->] & Hi).
  split; [|by exists y]. apply list_elem_of_lookup_2 in Hi.
  eapply Forall_forall in Hf as [_ Hf]; [|done]. by rewrite En in Hf.
Qed.

(** The field [j] of the variant [i], whose niche is [n], is where the layout has its tag. *)
Definition tag_place (l : LayoutInfo) (st : list LayoutInfo) (i : N) (j : nat) (n : NicheInfo) : Prop :=
  exists sti o, st !! N.to_nat i = Some sti /\ shape_offset (l_fields sti) j = Ok o
    /\ l_fields l = ShapeArbitrary [o + niche_offset n] [0%nat].

(** What a layout in a niche is made from *)
Definition niche_made (variants : list (list LayoutInfo)) (l : LayoutInfo) : Prop :=
  exists tag i start end_ niche_start st fields j f n,
    l_variants l = VMultiple tag (Niche i start end_ niche_start) 0 st
    /\ start <= end_ /\ variants !! N.to_nat i = Some fields /\ fields !! j = Some f /\ l_niche f = Some n
    /\ tag_place l st i j n
    /\ scalar_ok dl (niche_scalar n) /\ sc_value tag = sc_value (niche_scalar n)
    /\ end_ - start + 1 < 2 ^ bits (primitive_size dl (sc_value tag))
    /\ grows (2 ^ bits (primitive_size dl (sc_value tag))) (valid_range (niche_scalar n))
         (end_ - start + 1) niche_start (valid_range tag).

Lemma niche_abi_ok st d o s a :
  abi_ok dl (l_abi d) -> scalar_ok dl s -> niche_abi st d o s = Ok a -> abi_ok dl a.
Proof.
  intros Hd Hs. unfold niche_abi. case_match; [by intros [= <-]|].
  destruct (l_abi d) as [|x|x y| |]; try (by intros [= <-]).
  destruct (o =? 0); intros (t & [Ht _]%scalar_unit_ok & [= <-])%bind_ok; done.
Qed.

Lemma niche_filling_ok ty def variants l :
  Forall (Forall good) variants -> niche_filling_layout ty def variants = Good (Some l) ->
  good l /\ niche_made variants l.
Proof.
  intros Hv. unfold niche_filling_layout. case_match; [|done].
  destruct (find_dataful _ _ _ _) as [[dataful start] end_].
  destruct (N.ltb_spec end_ start) as [|Hse]; [done|]. destruct dataful as [i|]; [|done].
  intros (fields & Hi%r_lift_good & (ks & Hks%r_lift_good & Hl)%r_bind_good)%r_bind_good.
  destruct (variants !! N.to_nat i) as [fs|] eqn:Ei; [|done]. injection Hi as ->.
  assert (Forall good fields) as Hf.
  { eapply Forall_forall in Hv; [done|]. by eapply list_elem_of_lookup_2. }
  destruct (max_by_key ks) as [[k [j n]]|] eqn:Em; [|done]. apply max_by_key_elem in Em.
  destruct (niche_candidate_ok _ _ _ _ _ Hf Hks Em) as (Hn & f & Hj & Hfn).
  apply r_bind_good in Hl as (reserved & Hr%r_lift_good & Hl).
  destruct reserved as [[niche_start tag]|]; [|done].
  destruct (reserve_ok _ _ _ _ Hn Hr) as (Htag & Hval & Hc & Hg). res_inv.
  apply variant_structs_ok in E; [|done]. destruct (x !! N.to_nat i) as [sti|] eqn:Est; [|done].
  injection E0 as ->. pose proof (list_elem_of_lookup_2 _ _ _ Est) as Hin.
  eapply Forall_forall in E as [Ha _]; [|done].
  split; [split|].
  - by eapply niche_abi_ok.
  - by eapply niche_from_scalar_ok.
  - exists tag, i, start, end_, niche_start, x, fields, j, f, n. split_and!; try done; [|lia].
    match goal with E : u64_add _ _ = Ok _ |- _ => apply u64_add_ok in E as [-> _] end.
    eexists _, _. split; [exact Est|]. split; [eassumption|done].
Qed.

(** *** Tagged enums *)

Lemma int_tag_ok ity signed a b m : unsigned_int_max (integer_size ity) = Ok m ->
  scalar_ok dl (mkScalar (PrimInt ity signed) (mkWrappingRange (N.land a m) (N.land b m))).
Proof.
  intros Hm. assert (0 < bits (integer_size ity) <= 128) as Hw by (destruct ity; vm_compute; done).
  assert (scalar_max dl (PrimInt ity signed) = Ok m) as Hs.
  { unfold scalar_max. cbn [primitive_size]. by rewrite (proj2 (N.leb_le _ 128)) by lia. }
  apply scalar_max_ok in Hs as (w & -> & _ & ->). cbn [primitive_size].
  split; [done|]. split; cbn [range_start range_end valid_range]; rewrite land_max;
    apply N.mod_lt, N.pow_nonzero; done.
Qed.

Lemma tagged_abi_ok variants tag align size a :
  scalar_ok dl tag -> tagged_abi variants tag align size = Ok a -> abi_ok dl a.
Proof.
  intros Ht. unfold tagged_abi. case_match; [by intros [= <-]|].
  intros (common & _ & Ha)%bind_ok. destruct common as [[p o]|]; [|by injection Ha as <-].
  apply bind_ok in Ha as (u & [Hu _]%scalar_unit_ok & (pr & Hpr & Ha)%bind_ok).
  apply scalar_pair_ok in Hpr as [_ Hpr]; [|done..].
  repeat case_match; simplify_eq; rewrite ?Hpr; done.
Qed.

Lemma tagged_scalars_ok ty def variants l : tagged_layout ty def variants = Good l ->
  good l /\ exists tag st, l_variants l = VMultiple tag Direct 0 st.
Proof.
  unfold tagged_layout. intros Hl. res_inv.
  destruct (if bool_decide _ then _ else _) as [mn mx]. res_inv. destruct x2 as [ity signed]. res_inv.
  case_match; [done|]. res_inv. apply (int_tag_ok _ signed (as_u128 mn) (as_u128 mx)) in E13.
  split; [split|]; cbn [l_abi l_niche l_variants].
  - destruct (forallb _ _); [done|]. by eapply tagged_abi_ok.
  - by eapply niche_from_scalar_ok.
  - eauto.
Qed.

(** *** All types *)

Context (rec : Ty -> res LayoutError LayoutInfo).
Context (rec_ok : forall t l, rec t = Good l -> good l).
Context (rec_never : forall l, rec Never = Good l -> l_variants l = VSingle 0).

Lemma r_map_rec tys ls : r_map rec tys = Good ls -> Forall good ls.
Proof using rec_ok.
  intros Hm%r_map_good. apply Forall_forall. intros l (i & Hi)%list_elem_of_lookup.
  destruct (Forall2_lookup_r _ _ _ _ _ Hm Hi) as (t & _ & Ht). by eapply rec_ok.
Qed.

(** The field layouts of an ADT are layouts of types. *)
Lemma adt_variants_rec substs (vs : list VariantDef) variants :
  r_map (fun v => r_map (fun f => rec (field_ty f substs)) (variant_fields v)) vs = Good variants ->
  Forall (Forall (fun f => exists t, rec t = Good f)) variants.
Proof.
  intros Hm%r_map_good. apply Forall_forall. intros fields (i & Hi)%list_elem_of_lookup.
  destruct (Forall2_lookup_r _ _ _ _ _ Hm Hi) as (v & _ & Hf%r_map_good).
  apply Forall_forall. intros f (j & Hj)%list_elem_of_lookup.
  destruct (Forall2_lookup_r _ _ _ _ _ Hf Hj) as (fd & _ & E). eauto.
Qed.

Lemma struct_single ty def is_enum v fields l :
  struct_layout ty def is_enum v fields = Good l -> l_variants l = VSingle v.
Proof.
  unfold struct_layout. intros (st & _ & Hl%r_lift_good)%r_bind_good.
  assert (forall st repr s, larger_niche st repr s = Ok l -> l_variants l = l_variants st) as Hln.
  { intros st' repr s. unfold larger_niche. intros (n & _ & Hn)%bind_ok. destruct st' as [f' v' a' n' al' s'].
    destruct n, n'; cbn in *; try (by injection Hn as <-).
    apply bind_ok in Hn as (k & _ & (k' & _ & [= <-])%bind_ok). by destruct (_ <=? _). }
  destruct st as [f vs a nn al sz]. cbn in *. destruct a.
  - by apply bind_ok in Hl as (_ & _ & [= <-]).
  - by apply bind_ok in Hl as (s' & _ & ->%Hln).
  - by apply bind_ok in Hl as (s' & _ & ->%Hln).
  - by apply bind_ok in Hl as (_ & _ & [= <-]).
  - by apply bind_ok in Hl as (_ & _ & [= <-]).
Qed.

(** The layouts of the fields of the variants of an ADT *)
Definition variant_layouts (def : N) (substs : list Ty) : res LayoutError (list (list LayoutInfo)) :=
  r_map (fun v => r_map (fun f => rec (field_ty f substs)) (variant_fields v)) (adt_variants (adt_def def)).

Lemma variant_layouts_lookup def substs variants i fields j lf :
  variant_layouts def substs = Good variants -> variants !! i = Some fields -> fields !! j = Some lf ->
  exists v fd, adt_variants (adt_def def) !! i = Some v /\ variant_fields v !! j = Some fd
    /\ rec (field_ty fd substs) = Good lf.
Proof.
  intros Hv%r_map_good Hi Hj. destruct (Forall2_lookup_r _ _ _ _ _ Hv Hi) as (v & Hvi & Hf%r_map_good).
  destruct (Forall2_lookup_r _ _ _ _ _ Hf Hj) as (fd & Hfd & Hrec). eauto.
Qed.

Definition niche_from_types (def : N) (substs : list Ty) (l : LayoutInfo) : Prop :=
  forall tag i start end_ ns fld st, l_variants l = VMultiple tag (Niche i start end_ ns) fld st ->
  exists variants, variant_layouts def substs = Good variants /\ niche_made variants l.

Lemma single_no_niche def substs l v : l_variants l = VSingle v -> niche_from_types def substs l.
Proof. intros E ? * E'. congruence. Qed.

Lemma adt_scalars_ok ty def substs l :
  adt_layout rec ty def substs = Good l -> good l /\ niche_from_types def substs l.
Proof using All.
  unfold adt_layout. intros (variants & Hvar & Hl)%r_bind_good.
  pose proof (adt_variants_rec _ _ _ Hvar) as Hv.
  assert (Forall (Forall good) variants) as Hg.
  { eapply Forall_impl; [exact Hv|]. intros fs Hfs. eapply Forall_impl; [exact Hfs|]. intros f [t Ht]. eauto. }
  assert (forall v l, (fields ← r_lift (unwrap (variants !! v));
                       struct_layout ty def (match adt_kind (adt_def def) with AdtEnum => true | _ => false end)
                         (N.of_nat v) fields) = Good l -> good l /\ niche_from_types def substs l) as Hstruct.
  { intros v l' (fields & Hf%r_lift_good & Hs)%r_bind_good.
    destruct (variants !! v) as [fs|] eqn:Ev; [|done]. injection Hf as ->. split.
    - eapply struct_scalars_ok; [|done]. apply list_elem_of_lookup_2 in Ev.
      by eapply Forall_forall in Hg.
    - eapply single_no_niche. by eapply struct_single. }
  destruct (adt_kind (adt_def def)) eqn:Hk.
  - repeat case_match; try done; eauto.
  - apply r_bind_good in Hl as (fields & _ & Hu). split; [by eapply union_scalars_ok|].
    apply (single_no_niche _ _ _ 0). unfold union_layout in Hu. case_match; [done|].
    apply r_bind_good in Hu as ([[? ?] ?] & _ & Hu). case_match; [done|]. by res_inv.
  - destruct (List.filter _ _) as [|[v fs] rest].
    + split; [by eapply rec_ok|]. eapply single_no_niche. by apply rec_never.
    + case_match; [eauto|]. apply r_bind_good in Hl as (nf & Hnf & (tagged & Ht & Hl)%r_bind_good).
      apply tagged_scalars_ok in Ht as (Htg & tag & st & Htv).
      assert (niche_from_types def substs tagged) as Htn by (intros ? * E; congruence).
      destruct nf as [nf|]; [|by res_inv]. apply niche_filling_ok in Hnf as [Hnf Hmade]; [|done].
      apply r_lift_good in Hl. unfold best_layout in Hl.
      apply bind_ok in Hl as (k & _ & (k' & _ & [= <-])%bind_ok). case_match; [done|].
      split; [done|]. intros ? * _. eauto.
Qed.

Lemma scalar_layout_ok v l : scalar_layout v = Ok l -> good l.
Proof. intros (s & [Hs _]%scalar_unit_ok & Hl)%bind_ok. by eapply layout_scalar_ok. Qed.

Lemma non_null_ok s : scalar_ok dl s -> scalar_ok dl (non_null s).
Proof.
  intros [Hw [Hs He]]. split; [done|]. split; cbn; [|done].
  apply N.lt_le_trans with (2 ^ 1); [done|]. apply N.pow_le_mono_r; [done|]. lia.
Qed.

Lemma pointer_scalars_ok is_raw pointee l : pointer_layout is_raw pointee = Good l -> good l.
Proof.
  unfold pointer_layout. intros (p & [Hp _]%r_lift_good%scalar_unit_ok & Hl)%r_bind_good.
  assert (scalar_ok dl (if is_raw then p else non_null p)) as Hd.
  { destruct is_raw; [done|]. by apply non_null_ok. }
  set (d := if is_raw then p else non_null p) in *. clearbody d.
  destruct (ty_is_sized _); [apply r_lift_good in Hl; by eapply layout_scalar_ok|].
  destruct (struct_tail _); try done.
  - apply r_lift_good in Hl. by eapply layout_scalar_ok.
  - apply r_bind_good in Hl as (i & _ & (m & [Hm _]%r_lift_good%scalar_unit_ok & Hl%r_lift_good)%r_bind_good).
    by eapply scalar_pair_ok in Hl as [? _].
  - apply r_bind_good in Hl as (i & _ & (m & [Hm _]%r_lift_good%scalar_unit_ok & Hl%r_lift_good)%r_bind_good).
    by eapply scalar_pair_ok in Hl as [? _].
  - apply r_bind_good in Hl as (m & [Hm%non_null_ok _]%r_lift_good%scalar_unit_ok & Hl%r_lift_good).
    by eapply scalar_pair_ok in Hl as [? _].
Qed.

Lemma unsized_unit_ok ty l : unsized_unit ty = Good l -> good l.
Proof.
  unfold unsized_unit. intros (u & [_ Hn]%univariant_scalars_ok & Hl)%r_bind_good; [|constructor].
  destruct u as [f v a n al sz]. cbn in *. destruct a; try done. by res_inv.
Qed.

Lemma simd_scalars_ok ty kind fields l : simd_layout rec ty kind fields = Good l -> good l.
Proof using rec_ok.
  unfold simd_layout. destruct kind; try done. intros (f0 & _ & Hl)%r_bind_good. case_match; [done|].
  apply r_bind_good in Hl as ([[e_ty e_len] is_array] & _ & Hl). case_match; [done|].
  apply r_bind_good in Hl as (e & [Ha Hn]%rec_ok & Hl). destruct (l_abi e); try done. by res_inv.
Qed.

Lemma uncached_scalars_ok ty l : layout_of_uncached rec ty = Good l -> good l.
Proof using All.
  destruct ty; cbn [layout_of_uncached]; intros Hl; try discriminate Hl.
  - apply r_lift_good, layout_scalar_ok in Hl; [done|]. by repeat split.
  - apply r_lift_good, layout_scalar_ok in Hl; [done|]. by repeat split.
  - res_inv. by eapply scalar_layout_ok.
  - res_inv. by eapply scalar_layout_ok.
  - res_inv. by eapply scalar_layout_ok.
  - case_match; [by eapply simd_scalars_ok|by eapply adt_scalars_ok].
  - by eapply unsized_unit_ok.
  - by res_inv.
  - unfold array_layout in Hl. apply r_bind_good in Hl as (e & [_ Hn]%rec_ok & Hl). res_inv.
    split; cbn [l_abi l_niche]; by case_match.
  - by res_inv.
  - by eapply pointer_scalars_ok.
  - by eapply pointer_scalars_ok.
  - eapply univariant_scalars_ok; [|done]. constructor.
  - apply r_bind_good in Hl as (p & [Hp%non_null_ok _]%r_lift_good%scalar_unit_ok & Hl%r_lift_good).
    by eapply layout_scalar_ok.
  - by eapply unsized_unit_ok.
  - apply r_bind_good in Hl as (ls & Hls%r_map_rec & Hl). by eapply univariant_scalars_ok.
  - by eapply generator_ok.
  - by res_inv.
  - apply r_bind_good in Hl as (ls & Hls%r_map_rec & Hl). by eapply univariant_scalars_ok.
Qed.
End Scalars.

Section Query.
Context `{TyCtxt, LayoutLaws}.

Lemma never_single fuel l : layout_of_ty fuel Never = Good l -> l_variants l = VSingle 0.
Proof.
  destruct fuel; cbn; [done|]. rewrite normalize_never. rewrite bool_decide_eq_true_2 by done.
  intros Hl. by res_inv.
Qed.

Lemma query_scalars_ok fuel ty l : layout_of_ty fuel ty = Good l -> scalars_ok data_layout l.
Proof.
  revert ty l. induction fuel as [|fuel IH]; intros ty l; cbn; [done|].
  destruct (try_normalize ty) as [t'|]; [|done]. case_bool_decide; [|by apply IH].
  intros (l' & Hl & Hr)%r_bind_good. res_inv.
  eapply uncached_scalars_ok; [exact IH|intros ?; apply never_single|done].
Qed.

(** The query on a normalized ADT *)
Lemma query_adt fuel def substs l :
  try_normalize (Adt def substs) = Some (Adt def substs) ->
  layout_of_ty fuel (Adt def substs) = Good l ->
  exists fuel', fuel = S fuel'
    /\ layout_of_uncached (layout_of_ty fuel') (Adt def substs) = Good l.
Proof.
  intros Hn. destruct fuel as [|fuel]; cbn [layout_of_ty]; [done|]. rewrite Hn, bool_decide_eq_true_2 by done.
  intros (l' & Hl & Hr)%r_bind_good. res_inv. eauto.
Qed.
End Query.

(** The values of a niche and those of the field it is in *)
Lemma niche_unused `{TyCtxt, LayoutLaws} fuel def substs l tag i start end_ ns fld st :
  try_normalize (Adt def substs) = Some (Adt def substs) ->
  layout_of_ty fuel (Adt def substs) = Good l ->
  l_variants l = VMultiple tag (Niche i start end_ ns) fld st ->
  let M := 2 ^ bits (primitive_size data_layout (sc_value tag)) in
  let niche_value v := nth_after M ns (v - start) in
  exists v j fd lf n, adt_variants (adt_def def) !! N.to_nat i = Some v /\ variant_fields v !! j = Some fd
    /\ layout_of_ty (pred fuel) (field_ty fd substs) = Good lf /\ l_niche lf = Some n
    /\ tag_place l st i j n
    /\ sc_value (niche_scalar n) = sc_value tag
    /\ (forall v, start <= v <= end_ ->
          contains (valid_range (niche_scalar n)) (niche_value v) = false
          /\ contains (valid_range tag) (niche_value v) = true)
    /\ (forall v w, start <= v <= end_ -> start <= w <= end_ -> niche_value v = niche_value w -> v = w)
    /\ (forall x, x < M -> contains (valid_range (niche_scalar n)) x = true ->
          contains (valid_range tag) x = true).
Proof.
  intros Hnorm Hq Hv M niche_value. destruct (query_adt _ _ _ _ Hnorm Hq) as (fuel' & -> & Hl).
  cbn [layout_of_uncached pred] in Hl |- *.
  assert (niche_from_types (layout_of_ty fuel') def substs l) as Hn.
  { destruct (repr_is_simd (adt_repr def)).
    - unfold simd_layout in Hl. destruct (adt_kind (adt_def def)); try done.
      apply r_bind_good in Hl as (f0 & _ & Hl). case_match; [done|].
      apply r_bind_good in Hl as ([[? ?] ?] & _ & Hl). case_match; [done|].
      apply r_bind_good in Hl as (e & _ & Hl). destruct (l_abi e); try done. by res_inv.
    - eapply adt_scalars_ok; [|intros ?; apply never_single|done]. intros ? ?; apply query_scalars_ok. }
  destruct (Hn _ _ _ _ _ _ _ Hv) as (variants & Hrec & tag' & i' & start' & end_' & ns' & st' & fields & j & f & n
    & Hv' & Hse & Hi & Hf & Hfn & Hplace & Hok & Hval & Hc & Hg).
  rewrite Hv in Hv'. injection Hv' as <- <- <- <- <- -> <-. fold M in Hc, Hg.
  destruct (variant_layouts_lookup _ _ _ _ _ _ _ _ Hrec Hi Hf) as (v0 & fd & Hv0 & Hfd & Ht).
  exists v0, j, fd, f, n. do 6 (split; [done|]).
  destruct Hok as [Hw Hr]. rewrite <- Hval in Hw, Hr. fold M in Hr.
  destruct Hg as (Hr' & Hiff & Hout). split_and!.
  - intros v Hvr. split; [apply Hout; lia|]. apply Hiff; [apply nth_lt; lia|]. right. exists (v - start). split; [lia|done].
  - intros v w Hvr Hwr E.
    assert (forall k, k < M -> dist M (nth_after M ns 0) (nth_after M ns k) = k) as D.
    { intros k Hk. replace (nth_after M ns k) with (nth_after M (nth_after M ns 0) k).
      - apply dist_nth; [lia|apply nth_lt; lia|done].
      - rewrite nth_after_add. done. }
    assert (v - start = w - start) by (rewrite <- (D (v - start)), <- (D (w - start)) by lia; by f_equal). lia.
  - intros x Hx Hcx. apply Hiff; [done|]. by left.
Qed.

(** ** Properties *)

(** C26. A struct, tuple, closure or variant is laid out so that every field is aligned (to the
    packing, if that is smaller) and starts at the end of the one before it in memory or
    later, after the tag if there is one; the order in memory is a permutation of the fields; the
    size is the least multiple of the alignment that holds them all, and the alignment is at
    least that of every field. *)
Theorem univariant_places_fields `{LayoutLaws} ty fields repr kind l :
  univariant_uninterned ty fields repr kind = Good l ->
  exists from offsets memory_index order,
    starts_at (repr_pack repr) kind from
    /\ l_fields l = ShapeArbitrary offsets memory_index
    /\ length offsets = length fields
    /\ memory_index ≡ₚ seq 0 (length fields)
    /\ index_by_increasing_offset (l_fields l) = Ok order
    /\ laid_out fields (repr_pack repr) offsets order from
    /\ ends fields offsets order from <= l_size l
         < ends fields offsets order from + 2 ^ pow2 (abi_align (l_align l))
    /\ (2 ^ pow2 (abi_align (l_align l)) | l_size l)
    /\ Forall (fun f => pow2 (field_align (repr_pack repr) f) <= pow2 (abi_align (l_align l))) fields.
Proof.
  intros Hu. destruct (univariant_struct_ok _ _ _ _ _ Hu) as (from & os & mi & order & Hs & Hok).
  exists from, os, mi, order. destruct Hok. split_and!; try done; lia.
Qed.

(** C27. The goto struct that the code generator makes for a struct with a computed layout has
    exactly the size of the layout, and every field is at the offset the layout gives it:
    given that the translations of the field types have the sizes of their layouts and the
    alignment is at most 2^29, as every alignment that can be written. *)
Theorem computed_struct_size `{TyCtxt, InternOrder, LayoutLaws} (rec : Ty -> G Type_)
    (size : Type_ -> N) ty flds fields repr kind l c :
  univariant_uninterned ty fields repr kind = Good l ->
  kind = AlwaysSized \/ kind = MaybeUnsized ->
  Forall2 (fun fld f => layout_of fld.2 = erase f) flds fields ->
  pow2 (abi_align (l_align l)) <= 29 ->
  (forall fld, fld ∈ flds -> forall c, exists g c',
     rec fld.2 c = Done (Ok (g, c')) /\ size g = bits (lay_size (layout_of fld.2))) ->
  exists comps c' offsets memory_index,
    codegen_struct_fields rec flds (erase l) 0 c = Done (Ok (comps, c'))
    /\ end_offset size 0 comps = bits (l_size l)
    /\ l_fields l = ShapeArbitrary offsets memory_index
    /\ (forall i name t o, flds !! i = Some (name, t) -> offsets !! i = Some o ->
          (name, bits o) ∈ field_offsets size 0 comps).
Proof.
  intros Hu Hk Hagree Hal Hrec.
  destruct (univariant_struct_ok _ _ _ _ _ Hu) as (from & os & mi & order & Hs & Hok).
  assert (from = 0) as -> by (by destruct Hk as [-> | ->]).
  destruct Hok as [Hf Hlen Hperm Hord Hlaid Hsz Hdiv _ Hb _]. specialize (Hb ltac:(lia)).
  destruct (laid_out_generated flds fields Hagree _ _ _ _ Hlaid Hb) as [Hno Hfe].
  change (8 * 0) with 0 in *. pose proof (Forall2_length _ _ _ Hagree) as Hlf.
  destruct l as [fs vs a nn al sz]. cbn [l_fields l_size l_align] in *. subst fs.
  set (k := pow2 (abi_align al)) in *. pose proof (N.pow_nonzero 2 k ltac:(done)).
  pose proof (N.pow_le_mono_r 2 k 29 ltac:(done) Hal) as Hpow. change (2 ^ 29) with 536870912 in Hpow.
  destruct (struct_fields_run rec size flds os Hrec mi (erase_variants vs) (erase_abi a)
              (N.shiftl 1 k) sz 0 order c) as (comps & c' & Erun & Hoff & Hend & _).
  - by rewrite Hlf.
  - rewrite Hperm, length_seq. lia.
  - done.
  - done.
  - rewrite N.shiftl_1_l. lia.
  - rewrite Hfe, N.shiftl_1_l. unfold u64_max. lia.
  - exists comps, c', os, mi. split; [done|]. split; [|split; [done|]].
    + rewrite Hend, Hfe, N.shiftl_1_l, bits_small by lia.
      destruct (round_up_spec (8 * ends fields os order 0) (2 ^ k * 8)) as [Hm Hr]; [lia|].
      apply (multiple_unique (2 ^ k * 8) (8 * ends fields os order 0)); [|  |done|lia].
      * by apply N.Lcm0.mod_divide.
      * destruct Hdiv as [q ->]. exists q. lia.
    + intros i name t o Hi Ho. rewrite Hoff. apply list_elem_of_omap.
      exists i. split.
      * destruct (memory_order os mi ltac:(by rewrite Hlen)) as (order' & E & Hp & _).
        rewrite Hord in E. injection E as <-. rewrite Hp. apply elem_of_seq.
        apply lookup_lt_Some in Ho. lia.
      * unfold placed. by rewrite Hi, Ho.
Qed.

(** Whatever the compiler lays out, the scalars of the layout and its largest niche have
    at most 128 bits and a valid range within their type, so that counting and reserving niche
    values never panics on them. *)
Theorem layout_scalars_ok `{TyCtxt, LayoutLaws} fuel ty l :
  layout_of_ty fuel ty = Good l ->
  abi_ok data_layout (l_abi l)
  /\ (forall n, l_niche l = Some n ->
        scalar_ok data_layout (niche_scalar n) /\ is_ok (available data_layout n) = true
        /\ forall count, 0 < count -> is_ok (reserve data_layout n count) = true).
Proof.
  intros Hl%query_scalars_ok. destruct Hl as [Ha Hn]. split; [done|]. intros n En. rewrite En in Hn.
  split; [done|]. split.
  - unfold available. by rewrite (scalar_ok_max _ _ Hn).
  - intros count Hc. destruct (reserve_cases data_layout n count Hc Hn) as (r & _ & ->). by case_match.
Qed.

(** When an enum is kept in a niche, the values that stand for its variants without data
    are pairwise different, are valid for the tag and are no valid value of the field of the
    variant with data that they are kept in, whose own values stay valid: reading the tag tells
    the variants apart. *)
Theorem niche_values_unused `{TyCtxt, LayoutLaws} fuel def substs l tag i start end_ ns fld st :
  try_normalize (Adt def substs) = Some (Adt def substs) ->
  layout_of_ty fuel (Adt def substs) = Good l ->
  l_variants l = VMultiple tag (Niche i start end_ ns) fld st ->
  let M := 2 ^ bits (primitive_size data_layout (sc_value tag)) in
  let niche_value v := nth_after M ns (v - start) in
  exists v j fd lf n, adt_variants (adt_def def) !! N.to_nat i = Some v /\ variant_fields v !! j = Some fd
    /\ layout_of_ty (pred fuel) (field_ty fd substs) = Good lf /\ l_niche lf = Some n
    /\ tag_place l st i j n
    /\ sc_value (niche_scalar n) = sc_value tag
    /\ (forall v, start <= v <= end_ ->
          contains (valid_range (niche_scalar n)) (niche_value v) = false
          /\ contains (valid_range tag) (niche_value v) = true)
    /\ (forall v w, start <= v <= end_ -> start <= w <= end_ -> niche_value v = niche_value w -> v = w)
    /\ (forall x, x < M -> contains (valid_range (niche_scalar n)) x = true ->
          contains (valid_range tag) x = true).
Proof. exact (niche_unused fuel def substs l tag i start end_ ns fld st). Qed.

(** ** Samples

    A 64-bit target; [Option], a struct with fields of three sizes, and an enum
    [enum E { A([u64; 0]), B(bool) }]. *)

Definition types_def (d : N) : AdtDef :=
  match d with
  | 0 => mkAdtDef AdtEnum [mkVariantDef "None" []; mkVariantDef "Some" [mkFieldDef 0 "0"]]
           false false false false
  | 1 => mkAdtDef AdtStruct [mkVariantDef "S" [mkFieldDef 1 "a"; mkFieldDef 2 "b"; mkFieldDef 3 "c"]]
           false false false false
  | _ => mkAdtDef AdtEnum [mkVariantDef "A" [mkFieldDef 4 "0"]; mkVariantDef "B" [mkFieldDef 5 "0"]]
           false false false false
  end.
Definition types_field (f : FieldDef) (substs : list Ty) : Ty :=
  match field_did f with
  | 0 => default Never (head substs)
  | 1 => Uint U8
  | 2 => Uint U32
  | 3 => Uint U16
  | 4 => Array (Uint U64) 0
  | _ => Bool
  end.

Definition types_tcx (layouts : Ty -> Layout) : TyCtxt := {|
  adt_def := types_def;
  field_ty := types_field;
  layout_of := layouts;
  type_id_hash _ := 0;
  print_type _ := "S";
  fn_def_sig _ _ := mkFnSig [] Never false false;
  instance_ty _ := Never;
  closure_sig_of _ _ := mkFnSig [] Never false false;
  closure_env_ty _ _ := Never;
  closure_upvar_tys _ _ := [];
  generator_upvar_tys _ _ := [];
  generator_return_ty _ _ := Never;
  normalize_erasing_regions t := t;
  normalize_sig s := s;
  subst_ty _ t := t;
  subst_sig _ s := s;
  ty_is_sized t := match t with Str | Slice _ | Dynamic _ => false | _ => true end;
  ptr_metadata_ty _ := Tuple [];
  vtable_entries _ := None;
|}.

#[local] Instance types_lcx : LayoutCtxt := {|
  data_layout := x86_64;
  adt_repr _ := repr_default;
  scalar_valid_range _ := (None, None);
  last_field_always_sized _ _ := true;
  variant_discrs _ := [Relative 0; Relative 1];
  discriminants _ := [(0, 0); (1, 1)];
  try_normalize := Some;
  struct_tail t := t;
  privately_uninhabited t := bool_decide (t = Never);
  shuffle _ l := l;
  generator_layout _ _ := Bug;
|}.
#[local] Instance types_laws : LayoutLaws.
Proof. split; [done| |done|done]. by intros def s s' Hs [= <-]. Qed.

(** The compiler's answer is the computed layout. *)
Definition no_layout : Layout := mkLayout ShapePrimitive (Single 0) Uninhabited 1 0.
#[local] Instance types_computed : TyCtxt := types_tcx (fun t =>
  match @layout_of_ty (types_tcx (fun _ => no_layout)) types_lcx 10 t with
  | Good l => erase l
  | _ => no_layout
  end).

Definition result_or {A} (m : res LayoutError A) (d : A) : A := match m with Good a => a | _ => d end.
Definition dummy : LayoutInfo := never_layout.
Definition layout10 (t : Ty) : LayoutInfo := result_or (layout_of_ty 10 t) dummy.
Definition three : list LayoutInfo := map layout10 [Uint U8; Uint U32; Uint U16].
Definition three_flds : list (string * Ty) := [("a", Uint U8); ("b", Uint U32); ("c", Uint U16)].
Definition three_layout : LayoutInfo :=
  result_or (univariant_uninterned (Adt 1 []) three repr_default AlwaysSized) dummy.

Lemma three_layout_ok : univariant_uninterned (Adt 1 []) three repr_default AlwaysSized = Good three_layout.
Proof. vm_compute. reflexivity. Qed.

Lemma univariant_places_fields_witness :
  l_size three_layout = 8
  /\ exists offsets memory_index order, l_fields three_layout = ShapeArbitrary offsets memory_index
       /\ laid_out three None offsets order 0.
Proof.
  split; [vm_compute; reflexivity|].
  destruct (univariant_places_fields _ _ _ _ _ three_layout_ok)
    as (from & offsets & mi & order & Hfrom & Hf & _ & _ & _ & Hl & _).
  exists offsets, mi, order. cbn in Hfrom. subst from. split; [exact Hf|exact Hl].
Defined.

Lemma computed_struct_size_witness :
  exists comps c', codegen_struct_fields (codegen_ty 3) three_flds (erase three_layout) 0 sample_ctx
                   = Done (Ok (comps, c'))
    /\ end_offset scalar_bits 0 comps = 64.
Proof.
  destruct (computed_struct_size (codegen_ty 3) scalar_bits (Adt 1 []) three_flds three repr_default
              AlwaysSized three_layout sample_ctx) as (comps & c' & _ & _ & Hrun & Hsize & _).
  - exact three_layout_ok.
  - by left.
  - repeat constructor.
  - vm_compute. discriminate.
  - intros fld Hin c. unfold three_flds in Hin.
    repeat (apply elem_of_cons in Hin as [->|Hin]; [do 2 eexists; split; reflexivity|]).
    by apply elem_of_nil in Hin.
  - exists comps, c'. split; [exact Hrun|]. rewrite Hsize. vm_compute. reflexivity.
Defined.

Definition option_bool : Ty := Adt 0 [Bool].

Lemma layout_scalars_ok_witness :
  is_Some (l_niche (layout10 option_bool)) /\ abi_ok x86_64 (l_abi (layout10 option_bool)).
Proof.
  split; [vm_compute; eauto|].
  assert (layout_of_ty 10 option_bool = Good (layout10 option_bool)) as Hl by (vm_compute; reflexivity).
  destruct (layout_scalars_ok 10 option_bool (layout10 option_bool) Hl) as [Ha _]. exact Ha.
Defined.

(** [None] is 2, which is no [bool]. *)
Lemma niche_values_unused_witness :
  exists tag st, l_variants (layout10 option_bool) = VMultiple tag (Niche 1 0 0 2) 0 st
    /\ exists n, contains (valid_range (niche_scalar n)) 2 = false /\ contains (valid_range tag) 2 = true.
Proof.
  do 2 eexists. split; [vm_compute; reflexivity|].
  destruct (niche_values_unused 10 0 [Bool] (layout10 option_bool)
              (mkScalar (PrimInt Int8 false) (mkWrappingRange 0 2)) 1 0 0 2 0
              (match l_variants (layout10 option_bool) with VMultiple _ _ _ st => st | _ => [] end))
    as (v & j & fd & lf & n & _ & _ & _ & _ & _ & _ & H & _); [reflexivity|vm_compute; reflexivity|vm_compute; reflexivity|].
  exists n. destruct (H 0) as [H1 H2]; [done|]. split; [exact H1|exact H2].
Defined.

(** The size of a niche-filled enum is that of the variant with data, but its alignment is
    the largest of all variants: [enum E { A([u64; 0]), B(bool) }] gets size 1 and alignment
    8, and an array of it has elements that are not aligned. *)
Theorem niche_size_unaligned :
  exists l a, layout_of_ty 10 (Adt 2 []) = Good l /\ l_size l = 1 /\ pow2 (abi_align (l_align l)) = 3
    /\ layout_of_ty 10 (Array (Adt 2 []) 2) = Good a /\ l_fields a = ShapeArray 1 2.
Proof. do 2 eexists. split_and!; vm_compute; reflexivity. Qed.

(** ** Enums in niches, from the layout to the generated code *)

Open Scope Z_scope.

(** A value whose distance from the start of the niche is small is a value of the niche. *)
Lemma near_niche_start (M ns k : N) (y : Z) :
  (0 < M)%N -> (y - Z.of_N ns) mod Z.of_N M = Z.of_N k ->
  nth_after M ns k = Z.to_N (y mod Z.of_N M).
Proof.
  intros HM Hk. unfold nth_after. apply N2Z.inj. rewrite N2Z.inj_mod, N2Z.inj_add, <- Hk.
  rewrite Z2N.id by (apply Z.mod_pos_bound; lia). rewrite Zplus_mod_idemp_r. f_equal. lia.
Qed.

(** C25. For an enum whose computed layout keeps its variants in a niche of an integer (no
    pointer) of at most 64 bits, when the niche does not run over the end of the integer type and
    the types involved can represent the numbers of the variants: the code that sets a variant
    without data is read back as that variant.  The niche is that of a field of the variant with
    data, at the place in the enum where the layout puts the tag, and every valid value of the
    field, by the layout computed for its type, is read as the variant with data. *)
Theorem computed_niche_roundtrip mm eval `{!GotoSemantics mm eval} `{!GotoBits mm eval} `{!GotoArith mm eval}
    `{TyCtxt, LayoutLaws} fuel def substs l tag i start end_ ns fld st t r :
  try_normalize (Adt def substs) = Some (Adt def substs) ->
  layout_of_ty fuel (Adt def substs) = Good l ->
  l_variants l = VMultiple tag (Niche i start end_ ns) fld st ->
  sc_value tag <> PrimPointer -> int_type mm t -> (width_of t mm <= 64)%N ->
  width_of t mm = bits (primitive_size data_layout (sc_value tag)) -> int_type mm r ->
  (start <= end_)%N -> Z.of_N (ns + (end_ - start)) < 2 ^ Z.of_N (width_of t mm) ->
  range_of mm t (Z.of_N (end_ - start)) -> range_of mm r (Z.of_N end_) -> range_of mm r (Z.of_N i) ->
  let reads e v := exists d, niche_discriminant (sc_value tag) i start end_ ns t r e = Ok d
                             /\ intv mm eval d r (Z.of_N v) in
  (forall v, (start <= v <= end_)%N ->
     exists nv c x, niche_value v start ns = Ok nv /\ niche_value_expr (sc_value tag) t nv = Ok c
       /\ intv mm eval c t x /\ forall e, intv mm eval e t x -> reads e v)
  /\ exists v j fd lf n, adt_variants (adt_def def) !! N.to_nat i = Some v /\ variant_fields v !! j = Some fd
     /\ layout_of_ty (pred fuel) (field_ty fd substs) = Good lf /\ l_niche lf = Some n
     /\ tag_place l st i j n /\ sc_value (niche_scalar n) = sc_value tag
     /\ forall e y, intv mm eval e t y ->
          TargetAbi.contains (valid_range (niche_scalar n)) (Z.to_N (y mod 2 ^ Z.of_N (width_of t mm))) = true ->
          reads e i.
Proof.
  intros Hnorm Hq Hv Htag Ht H64 Hw Hr Hse Hns Hmax Hend Hi reads.
  pose proof (niche_round mm eval (sc_value tag) i start end_ ns t r) as Hround.
  split.
  - intros v Hvr. destruct (Hround v) as (nv & c & x & Hnv & Hc & Hx & Hrd & _); try done.
    by exists nv, c, x.
  - destruct (niche_unused fuel def substs l tag i start end_ ns fld st Hnorm Hq Hv)
      as (v & j & fd & lf & n & Hvi & Hj & Hlf & Hn & Hplace & Hval & Hout & _).
    exists v, j, fd, lf, n. do 6 (split; [done|]). intros e y He Hc.
    destruct (Hround start) as (nv & c & x & _ & _ & _ & _ & Hdata); try (done || lia).
    apply (Hdata e y He). apply Z.nle_gt. intros Hle.
    rewrite Hw in Hc, Hle. set (w := bits _) in *.
    assert (Z.of_N (2 ^ w) = 2 ^ Z.of_N w) as HM by (by rewrite N2Z.inj_pow).
    set (k := Z.to_N ((y - Z.of_N ns) mod 2 ^ Z.of_N w)).
    assert ((y - Z.of_N ns) mod Z.of_N (2 ^ w) = Z.of_N k) as Hk.
    { unfold k. rewrite HM, Z2N.id; [done|]. apply Z.mod_pos_bound. apply Z.pow_pos_nonneg; lia. }
    destruct (Hout (start + k)%N) as [Hno _]; [rewrite HM in Hk; lia|].
    rewrite N.add_sub_swap, N.sub_diag, N.add_0_l in Hno by lia.
    rewrite (near_niche_start (2 ^ w) ns k y) in Hno; [|apply N.neq_0_lt_0, N.pow_nonzero; lia|done].
    rewrite HM in Hno. congruence.
Qed.

(** [Option<bool>] once more, now with its layout computed: what is written for variant 0
    is read as variant 0. *)
Lemma computed_niche_roundtrip_witness :
  exists x, forall e, intv MachineModel.x86_64 (bv_eval MachineModel.x86_64) e (TUnsignedbv 8) x ->
    exists d, niche_discriminant (PrimInt Int8 false) 1 0 0 2 (TUnsignedbv 8) ssize_t e = Ok d
      /\ intv MachineModel.x86_64 (bv_eval MachineModel.x86_64) d ssize_t 0.
Proof.
  destruct (computed_niche_roundtrip MachineModel.x86_64 (bv_eval MachineModel.x86_64) 10 0 [Bool] (layout10 option_bool)
              (mkScalar (PrimInt Int8 false) (mkWrappingRange 0 2)) 1 0 0 2 0
              (match l_variants (layout10 option_bool) with VMultiple _ _ _ st => st | _ => [] end)
              (TUnsignedbv 8) ssize_t) as [Hset _];
    [reflexivity | vm_compute; reflexivity | vm_compute; reflexivity | discriminate | split; reflexivity
    | vm_compute; congruence | reflexivity | split; reflexivity | vm_compute; congruence | reflexivity
    | split; vm_compute; congruence | split; vm_compute; congruence | split; vm_compute; congruence |].
  destruct (Hset 0%N) as (nv & c & x & _ & _ & _ & Hrd); [split; vm_compute; congruence|].
  exists x. intros e He. exact (Hrd e He).
Defined.
