(* ===== verification/Driver.v ===== *)
(** * The compiler driver and the back end as rustc sees it

    [rmc-compiler/src/main.rs] turns the command line into arguments for rustc and the options
    of the back end ([rmc_queries]); [compiler_interface.rs] is the back end:
    [codegen_crate] checks the options of the session, translates the items of the crate,
    runs the passes and writes the outputs.  Parsing the command line (clap) and running rustc
    are outside: [ArgMatches] is what was parsed, [Session] what rustc made of its arguments.
    An output is the name of the file and what is handed to serde for it; for the symbol
    table that is the trace of [Serialize].

    The theorems put the parts of the development together: the table that is written is the
    one [crate_complete] speaks of ([written_crate_complete]), the files are exactly those
    that were asked for ([outputs_exact]), and rustc gets the options that the back end
    insists on before those of the user ([rustc_args_exact]). *)

From S2P Require Import Prelude CbmcString MachineModel Location Typ Ast SymbolTable Expr Symbol.
From S2P Require Import Builtin Stmt Env Built IrepId Irep ToIrep Serialize Transformer NameTransformer Passes.
From S2P Require Import Restrictions Mir GotoCtx TypeGen MirTyping PlaceGen OperandGen.
From S2P Require Import ArithGen CastGen RvalueGen IntrinsicGen HookGen StmtGen FunctionGen.
From S2P Require Import GenSample GenInvariant GenControl.

(** ** [rmc_queries] *)

Record QueryDb := mkQueryDb {
  q_emit_vtable_restrictions : bool;
  q_symbol_table_passes : list string;
}.
Definition query_default : QueryDb := mkQueryDb false [].
Definition set_symbol_table_passes (q : QueryDb) (passes : list string) : QueryDb :=
  mkQueryDb (q_emit_vtable_restrictions q) passes.
Definition set_emit_vtable_restrictions (q : QueryDb) (b : bool) : QueryDb :=
  mkQueryDb b (q_symbol_table_passes q).

(** ** [main.rs] *)

(** An argument is [None] when it is not valid UTF-8. *)
Definition OsStr := option string.

Record ArgMatches := mkArgMatches {
  arg_rmc_lib : option string;
  arg_goto_c : bool;
  arg_symbol_table_passes : option (list OsStr);
  arg_restrict_vtable_fn_ptrs : bool;
  arg_sysroot : option string;
  arg_rustc_version : bool;
  arg_rustc_options : option (list OsStr);
}.

(** The environment in which the driver was compiled *)
Record CompileEnv := mkCompileEnv {
  env_rmc_lib_path : string;
  env_sysroot : option string;
  env_rustup_home : option string;
  env_rustup_toolchain : option string;
}.

Definition rustc_gotoc_flags (lib_path : string) : list string :=
  let rmc_deps := lib_path +:+ "/deps" in
  ["-C"; "overflow-checks=on"; "-C"; "panic=abort"; "-Z"; "panic_abort_tests=yes";
   "-Z"; "trim-diagnostic-paths=no"; "-Z"; "human_readable_cgu_names"; "--cfg=rmc";
   "-Z"; "crate-attr=feature(register_tool)"; "-Z"; "crate-attr=register_tool(rmctool)";
   "-L"; lib_path; "--extern"; "rmc"; "-L"; rmc_deps].

Definition convert_arg (arg : OsStr) : outcome string := unwrap arg.

(** [PathBuf::push] on a Unix path *)
Fixpoint ends_with_slash (s : string) : bool :=
  match s with
  | "" => false
  | String c "" => Ascii.eqb c "/"
  | String _ s => ends_with_slash s
  end.
Definition path_push (buf p : string) : string :=
  if String.prefix "/" p then p
  else if String.eqb buf "" || ends_with_slash buf then buf +:+ p
  else buf +:+ "/" +:+ p.

Definition toolchain_path (home toolchain : option string) : option string :=
  match home, toolchain with
  | Some home, Some toolchain => Some (foldl path_push "" [home; "toolchains"; toolchain])
  | _, _ => None
  end.

Definition sysroot_path (env : CompileEnv) (sysroot_arg : option string) : option string :=
  match sysroot_arg with
  | Some s => Some s
  | None => match env_sysroot env with
            | Some s => Some s
            | None => toolchain_path (env_rustup_home env) (env_rustup_toolchain env)
            end
  end.

Definition generate_rustc_args (env : CompileEnv) (args : ArgMatches) : outcome (list string) :=
  let gotoc_args := rustc_gotoc_flags (default (env_rmc_lib_path env) (arg_rmc_lib args)) in
  let rustc_args := ["rustc"] ++ (if arg_goto_c args then gotoc_args else []) in
  let rustc_args := rustc_args ++ (if arg_rustc_version args then ["--version"] else []) in
  extra ← map_outcome convert_arg (default [] (arg_rustc_options args));
  sysroot ← unwrap (sysroot_path env (arg_sysroot args));
  Ok (rustc_args ++ extra ++ ["--sysroot"; sysroot]).

(** The queries [main] configures *)
Definition configure_queries (args : ArgMatches) : outcome QueryDb :=
  q ← (match arg_symbol_table_passes args with
       | Some passes => ps ← map_outcome convert_arg passes; Ok (set_symbol_table_passes query_default ps)
       | None => Ok query_default
       end);
  Ok (set_emit_vtable_restrictions q (arg_restrict_vtable_fn_ptrs args)).

(** ** [compiler_interface.rs] *)

(** What the back end reads of the session *)
Record Session := mkSession {
  overflow_checks : bool;
  panic_abort : bool;
  no_codegen : bool;
  should_codegen : bool;
  base_filename : string;
  crate_name : string;
  session_model : MachineModel;
}.

(** [check_options]: any error aborts the compilation. *)
Definition check_options (sess : Session) (need_metadata_module : bool) : outcome unit :=
  assert! overflow_checks sess && panic_abort sess && negb need_metadata_module;
  Ok tt.

(** [Path::with_extension], for the path of a file *)
Fixpoint split_last (c : ascii) (s : string) : option (string * string) :=
  match s with
  | "" => None
  | String a s' =>
      match split_last c s' with
      | Some (before, after) => Some (String a before, after)
      | None => if Ascii.eqb a c then Some ("", s') else None
      end
  end.
Definition file_stem (file : string) : string :=
  match split_last "."%char file with
  | Some ("", _) | None => file
  | Some (stem, _) => stem
  end.
Definition with_extension (path ext : string) : string :=
  match split_last "/"%char path with
  | Some (dir, file) => dir +:+ "/" +:+ file_stem file +:+ "." +:+ ext
  | None => file_stem path +:+ "." +:+ ext
  end.

Inductive Output :=
| OutSymtab (tokens : list Token)
| OutTypeMap (m : gmap InternedString InternedString)
| OutMetadata (proof_harnesses : list HarnessMetadata)
| OutRestrictions (r : VtableCtxResults).

Definition lift_outcome {A} (m : outcome A) : fuelled A := Done m.

Section CodegenCrate.
Context `{StrDebug, TyCtxt, MirCtxt, InternOrder, HashOrder, UnicodeTables, DrainOrder, VecMap}.

(** What is written once a table is there *)
Definition write_outputs (sess : Session) (c : GotocCtx) (symtab : SymbolTable)
    (restrictions : option VtableCtxResults) : outcome (list (string * Output)) :=
  let path ext := with_extension (base_filename sess) ext in
  if negb (no_codegen sess) && should_codegen sess then
    tokens ← serialize_symtab symtab;
    Ok ([(path "symtab.json", OutSymtab tokens);
         (path "type_map.json", OutTypeMap (print_type <$> type_map c));
         (path "rmc-metadata.json", OutMetadata (proof_harnesses c))]
        ++ match restrictions with
           | Some r => [(path "restrictions.json", OutRestrictions r)]
           | None => []
           end)
  else Ok [].

(** [GotocCodegenBackend::codegen_crate], up to the value it returns to rustc *)
Definition codegen_crate (n : nat) (queries : QueryDb) (sess : Session) (need_metadata_module : bool)
    (items : list MonoItem) : fuelled (list (string * Output)) :=
  lift_outcome (check_options sess need_metadata_module);;
  c0 ← lift_outcome (goto_ctx_new (session_model sess) (crate_name sess) (q_emit_vtable_restrictions queries));
  r ← codegen_items n items c0;
  let c := (r : unit * GotocCtx).2 in
  symtab ← lift_outcome (do_passes (gcx_table c) (q_symbol_table_passes queries));
  restrictions ← lift_outcome (
    if emit_vtable_restrictions (gcx_vtable_ctx c) then
      r ← get_virtual_function_restrictions (gcx_vtable_ctx c); Ok (Some r.1)
    else Ok None);
  lift_outcome (write_outputs sess c symtab restrictions).
End CodegenCrate.

(** ** Lemmas *)

Lemma fuelled_bind_ok {A B} (m : fuelled A) (f : A -> fuelled B) b :
  mbind f m = Done (Ok b) <-> exists a, m = Done (Ok a) /\ f a = Done (Ok b).
Proof.
  destruct m as [[a|]|]; cbn; split; try done; try (by intros (? & ? & ?)); [eauto|].
  by intros (? & [= ->] & ?).
Qed.
Lemma lift_ok {A} (m : outcome A) a : lift_outcome m = Done (Ok a) <-> m = Ok a.
Proof. unfold lift_outcome. split; congruence. Qed.

(** No type of a new table is open: it holds constants, variables and functions. *)
Lemma new_symbols_closed mm ms es bs :
  machine_model_symbols mm = Ok ms -> additional_env_symbols = Ok es ->
  map_outcome as_symbol list_all = Ok bs -> Forall (fun s => is_open s = false) (ms ++ es ++ bs).
Proof.
  assert (Hc : forall m l, match m with Ok l => forallb (fun s => negb (is_open s)) l | Panic => false end = true ->
               m = Ok l -> Forall (fun s => is_open s = false) l).
  { intros m l Hm ->. apply Forall_forall. intros s Hs. apply negb_true_iff.
    by eapply forallb_forall in Hm; [|apply list_elem_of_In]. }
  intros Hms Hes Hbs. apply Forall_app. split; [|apply Forall_app; split]; (eapply Hc; [|eassumption]); reflexivity.
Qed.

Lemma new_not_open mm st m : symtab_new mm = Ok st -> ~ open_types st m.
Proof.
  intros Hnew (s & Hs & Ho). destruct (symtab_new_symbols mm) as (l & st0 & Hst & _ & Hl & ms & es & bs & -> & Hm & He & Hb).
  rewrite Hst in Hnew. injection Hnew as <-. rewrite Hl in Hs.
  apply foldl_raw_insert_inv in Hs as [Hs|[Hs _]].
  { unfold lookup in Hs. cbn in Hs. rewrite lookup_empty in Hs; discriminate Hs. }
  pose proof (new_symbols_closed _ _ _ _ Hm He Hb) as Hall. eapply Forall_forall in Hall; [|exact Hs].
  rewrite Hall in Ho; discriminate Ho.
Qed.

(** What a run of [codegen_crate] has gone through *)
Section Run.
Context `{StrDebug, TyCtxt, MirCtxt, InternOrder, HashOrder, UnicodeTables, DrainOrder, VecMap}.

Lemma check_options_ok sess need :
  check_options sess need = Ok tt <-> overflow_checks sess && panic_abort sess && negb need = true.
Proof. unfold check_options. destruct (_ && _); cbn; split; congruence. Qed.

Lemma codegen_crate_run n q sess need items outs :
  codegen_crate n q sess need items = Done (Ok outs) ->
  exists c0 c symtab restrictions,
    overflow_checks sess && panic_abort sess && negb need = true
    /\ goto_ctx_new (session_model sess) (crate_name sess) (q_emit_vtable_restrictions q) = Ok c0
    /\ codegen_items n items c0 = Done (Ok (tt, c))
    /\ do_passes (gcx_table c) (q_symbol_table_passes q) = Ok symtab
    /\ (restrictions <> None <-> restricts c = true)
    /\ write_outputs sess c symtab restrictions = Ok outs.
Proof.
  unfold codegen_crate. intros ([] & Hopt%lift_ok%check_options_ok & Hrun)%fuelled_bind_ok.
  apply fuelled_bind_ok in Hrun as (c0 & Hc0%lift_ok & Hrun).
  apply fuelled_bind_ok in Hrun as ([[] c] & Hc & Hrun).
  apply fuelled_bind_ok in Hrun as (symtab & Hs%lift_ok & Hrun).
  apply fuelled_bind_ok in Hrun as (restrictions & Hr%lift_ok & Hw%lift_ok).
  exists c0, c, symtab, restrictions. do 4 (split; [assumption|]). split; [|assumption].
  clear -Hr. unfold restricts. destruct (emit_vtable_restrictions _); outcome_inv; split; congruence.
Qed.

Lemma new_context mm name emit c :
  goto_ctx_new mm name emit = Ok c -> symtab_new mm = Ok (gcx_table c) /\ restricts c = emit.
Proof.
  unfold goto_ctx_new. destruct (symtab_new mm) as [st|]; [|discriminate 1]. cbn. intros [= <-].
  split; reflexivity.
Qed.

#[export] Instance with_extension_inj path : Inj (=) (=) (with_extension path).
Proof.
  intros e1 e2. unfold with_extension. destruct (split_last _ _) as [[d f]|]; intros E;
    repeat (apply (inj _) in E); done.
Qed.
End Run.

(** The names of the files, in the order in which they are written *)
Definition output_names (q : QueryDb) (sess : Session) : list string :=
  if negb (no_codegen sess) && should_codegen sess then
    map (with_extension (base_filename sess))
      (["symtab.json"; "type_map.json"; "rmc-metadata.json"]
       ++ if q_emit_vtable_restrictions q then ["restrictions.json"] else [])
  else [].

Lemma output_names_nodup q sess : NoDup (output_names q sess).
Proof.
  unfold output_names. destruct (_ && _); [|constructor]. apply (NoDup_fmap_2 _).
  destruct (q_emit_vtable_restrictions q); apply (bool_decide_unpack _); reflexivity.
Qed.

(** The arguments of the user that can be converted *)
Lemma convert_args_ok l r : map_outcome convert_arg l = Ok r <-> l = map Some r.
Proof.
  unfold map_outcome. revert r. induction l as [|[a|] l IH]; intros r; cbn.
  - split; [by intros [= <-] | by destruct r].
  - destruct (sequence (map convert_arg l)) as [r'|]; cbn.
    + pose proof (proj1 (IH r') eq_refl) as ->. split; [by intros [= <-]|].
      destruct r as [|x r]; intros [= -> E]. by apply (inj (fmap Some)) in E as ->.
    + split; [done|]. destruct r as [|x r]; intros [= -> ->]. by discriminate (proj2 (IH r) eq_refl).
  - split; [done|]. by destruct r.
Qed.

(** ** Properties *)

(** C21. The symbol table that is written for a crate is the serialization of what the passes
    that were asked for, in their order, make of a table; that table grew from a new one by its
    own operations, every function of the crate has a body in it and only foreign types are
    without their fields.  When no pass was asked for, as by default, it is the table written. *)
Theorem written_crate_complete `{StrDebug, TyCtxt, MirCtxt, InternOrder, HashOrder, UnicodeTables,
    DrainOrder, VecMap} n q sess need items outs :
  codegen_crate n q sess need items = Done (Ok outs) ->
  no_codegen sess = false -> should_codegen sess = true ->
  exists st0 st symtab tokens,
    symtab_new (session_model sess) = Ok st0 /\ rtc symtab_step st0 st
    /\ (forall i, MonoFn i ∈ items -> exists s, lookup st (symbol_name i) = Some s
                                               /\ is_function_definition s = true)
    /\ (forall m, open_types st m -> foreign_tag m)
    /\ do_passes st (q_symbol_table_passes q) = Ok symtab
    /\ (q_symbol_table_passes q = [] -> symtab = st)
    /\ serialize_symtab symtab = Ok tokens
    /\ (with_extension (base_filename sess) "symtab.json", OutSymtab tokens) ∈ outs.
Proof.
  intros (c0 & c & symtab & r & _ & Hc0 & Hc & Hp & _ & Hw)%codegen_crate_run Hn Hs.
  apply new_context in Hc0 as [Hnew _].
  unfold write_outputs in Hw. rewrite Hn, Hs in Hw. cbn [negb andb] in Hw.
  destruct (serialize_symtab symtab) as [tokens|] eqn:Ht; [|discriminate Hw].
  injection Hw as <-. apply codegen_items_run in Hc as [(Hr & _ & Ho & _) Hf].
  exists (gcx_table c0), (gcx_table c), symtab, tokens. split; [assumption|]. split; [assumption|].
  split; [assumption|]. split; [|split; [assumption|split; [|split; [assumption|left]]]].
  - intros m [Hm|Hm]%Ho; [|assumption]. by destruct (new_not_open _ _ _ Hnew Hm).
  - intros Hq. rewrite Hq in Hp. by injection Hp as <-.
Qed.

(** A run writes the files that were asked for and no others: nothing without code
    generation; else the table, the type map and the harnesses, and the restrictions exactly
    when they were asked for, each once.  It has checked the options before. *)
Theorem outputs_exact `{StrDebug, TyCtxt, MirCtxt, InternOrder, HashOrder, UnicodeTables,
    DrainOrder, VecMap} n q sess need items outs :
  codegen_crate n q sess need items = Done (Ok outs) ->
  overflow_checks sess = true /\ panic_abort sess = true /\ need = false
  /\ map fst outs = output_names q sess /\ NoDup (map fst outs).
Proof.
  intros (c0 & c & symtab & r & Hopt & Hc0 & Hc & Hp & Hr & Hw)%codegen_crate_run.
  apply new_context in Hc0 as [_ He]. apply codegen_items_run in Hc as [(_ & _ & _ & Hv) _].
  assert (map fst outs = output_names q sess) as Hnames.
  { rewrite He in Hv. rewrite Hv in Hr. clear -Hr Hw. unfold write_outputs, output_names in *.
    destruct (_ && _); [|by injection Hw as <-]. outcome_inv.
    destruct r, (q_emit_vtable_restrictions q); try reflexivity; naive_solver. }
  apply andb_true_iff in Hopt as [[Ho Hpa]%andb_true_iff Hnm%negb_true_iff].
  do 3 (split; [assumption|]). rewrite Hnames. split; [reflexivity | apply output_names_nodup].
Qed.

(** What rustc is started with: the options that the back end insists on, then those of
    the user, then the sysroot.  The driver panics exactly when an option of the user is
    not valid UTF-8 or no sysroot is known. *)
Theorem rustc_args_exact (env : CompileEnv) (args : ArgMatches) (r : list string) :
  generate_rustc_args env args = Ok r
  <-> exists options sysroot,
        default [] (arg_rustc_options args) = map Some options
        /\ sysroot_path env (arg_sysroot args) = Some sysroot
        /\ r = "rustc" :: (if arg_goto_c args
                           then rustc_gotoc_flags (default (env_rmc_lib_path env) (arg_rmc_lib args)) else [])
               ++ (if arg_rustc_version args then ["--version"] else [])
               ++ options ++ ["--sysroot"; sysroot].
Proof.
  unfold generate_rustc_args. split.
  - intros Hr. outcome_inv. rename E into Hx. apply convert_args_ok in Hx.
    eexists _, _. split; [exact Hx|]. split; [reflexivity|]. cbn [app]. by rewrite <- !app_assoc.
  - intros (options & sysroot & Ho%convert_args_ok & Hs & ->). rewrite Ho, Hs. cbn [mbind outcome_bind unwrap app].
    by rewrite <- !app_assoc.
Qed.

(** *** On the sample crate *)

Definition sample_session : Session := mkSession true true false true "out/sample.o" "sample" x86_64.
Definition sample_build : fuelled (list (string * Output)) :=
  codegen_crate 8 query_default sample_session false crate_items.
Definition sample_args : ArgMatches :=
  mkArgMatches None true None false None false (Some [Some "sample.rs"]).
Definition sample_env : CompileEnv := mkCompileEnv "/rmc/lib" None (Some "/home/u/.rustup") (Some "nightly").

Lemma sample_build_returns : match sample_build with Done (Ok _) => true | _ => false end = true.
Proof. vm_compute. reflexivity. Qed.

Lemma written_crate_complete_witness :
  exists outs st tokens, sample_build = Done (Ok outs)
    /\ (exists s, lookup st "step" = Some s /\ is_function_definition s = true)
    /\ serialize_symtab st = Ok tokens /\ ("out/sample.symtab.json", OutSymtab tokens) ∈ outs.
Proof.
  pose proof sample_build_returns as Hr. destruct sample_build as [[outs|]|] eqn:E; [|discriminate Hr ..].
  destruct (written_crate_complete 8 query_default sample_session false crate_items outs E
    eq_refl eq_refl) as (st0 & st & symtab & tokens & _ & _ & Hf & _ & _ & Hs & Ht & Hin).
  rewrite (Hs eq_refl) in Ht. exists outs, st, tokens. split; [reflexivity|]. split; [|split; [exact Ht | exact Hin]].
  apply (Hf step_instance). right. left.
Defined.

Lemma outputs_exact_witness :
  exists outs, sample_build = Done (Ok outs)
    /\ map fst outs = ["out/sample.symtab.json"; "out/sample.type_map.json"; "out/sample.rmc-metadata.json"].
Proof.
  pose proof sample_build_returns as Hr. destruct sample_build as [[outs|]|] eqn:E; [|discriminate Hr ..].
  destruct (outputs_exact 8 query_default sample_session false crate_items outs E) as (_ & _ & _ & Hn & _).
  exists outs. split; [reflexivity | exact Hn].
Defined.

Example sample_rustc_args :
  generate_rustc_args sample_env sample_args
  = Ok (["rustc"] ++ rustc_gotoc_flags "/rmc/lib"
        ++ ["sample.rs"; "--sysroot"; "/home/u/.rustup/toolchains/nightly"]).
Proof. reflexivity. Qed.
