(* ===== verification/PanicInfo.v ===== *)
(** * What is reported when the code generator panics ([utils/debug.rs])

    The item being translated and its location are kept in a thread-local variable, which
    the panic hook prints.  [codegen_crate] wraps the translation of every item in
    [call_with_panic_debug_info].  Here that variable is part of the state, and a panic runs
    the hook on it: a computation in [T] ends with a result, with the lines the hook printed,
    or out of fuel.

    [panic_names_item]: the wrapped translation of a crate does what the plain one does, and
    when it panics the report names the item whose translation panicked. *)

From S2P Require Import Prelude CbmcString MachineModel Location Typ Ast SymbolTable Expr Symbol.
From S2P Require Import Builtin Stmt Env Restrictions Mir GotoCtx TypeGen MirTyping PlaceGen OperandGen.
From S2P Require Import ArithGen CastGen RvalueGen IntrinsicGen HookGen StmtGen FunctionGen.
From S2P Require Import GenSample Transformer NameTransformer Passes Driver.

(** ** The variable and the hook *)

(** [CURRENT_CODEGEN_ITEM] *)
Definition CurrentItem : Type := option string * option Location.
Definition no_item : CurrentItem := (None, None).

Definition BUG_REPORT_URL : string :=
  "https://github.com/model-checking/rmc/issues/new?labels=bug&template=bug_report.md".

Section Hook.
Context `{StrDebug}.

(** [#[derive(Debug)]] on [Location] *)
Definition number_debug (o : option N) : string :=
  match o with None => "None" | Some n => "Some(" +:+ pretty n +:+ ")" end.
Definition location_debug (l : Location) : string :=
  match l with
  | LNone => "None"
  | BuiltinFunction f l =>
      "BuiltinFunction { function_name: " +:+ str_debug f +:+ ", line: " +:+ number_debug l +:+ " }"
  | Loc file f line col =>
      "Loc { file: " +:+ str_debug file +:+ ", function: " +:+ option_debug f +:+ ", line: "
      +:+ pretty line +:+ ", col: " +:+ number_debug col +:+ " }"
  end.

(** The lines that [DEFAULT_HOOK] prints after those of the hook it replaced *)
Definition hook (cur : CurrentItem) : list string :=
  ["";
   match cur.1 with
   | Some item => "[RMC] current codegen item: " +:+ item
   | None => "[RMC] no current codegen item."
   end;
   match cur.2 with
   | Some loc => "[RMC] current codegen location: " +:+ location_debug loc
   | None => "[RMC] no current codegen location."
   end;
   "";
   "RMC unexpectedly panicked during code generation.";
   "";
   "If you are seeing this message, please file an issue here instead of on the Rust compiler: "
   +:+ BUG_REPORT_URL].

(** ** Computations with the hook *)

Inductive reported (A : Type) :=
| Returned (a : A)
| Crashed (report : list string)
| NoFuel.
Arguments Returned {A} _. Arguments Crashed {A} _. Arguments NoFuel {A}.

Definition T (A : Type) : Type := GotocCtx * CurrentItem -> reported (A * (GotocCtx * CurrentItem)).
#[export] Instance T_ret : MRet T := fun A a s => Returned (a, s).
#[export] Instance T_bind : MBind T := fun A B f m s =>
  match m s with
  | Returned (a, s) => f a s
  | Crashed r => Crashed r
  | NoFuel => NoFuel
  end.

(** A computation of the generator; if it panics, the hook runs. *)
Definition hooked {A} (m : G A) : T A := fun s =>
  match m s.1 with
  | Done (Ok (a, c)) => Returned (a, (c, s.2))
  | Done Panic => Crashed (hook s.2)
  | OutOfFuel => NoFuel
  end.
Definition replace_item (cur : CurrentItem) : T unit := fun s => Returned (tt, (s.1, cur)).

(** [#[derive(Debug)]] on [DefId] *)
Class DefIdDebug := def_id_debug : N -> string.
Context `{TyCtxt, MirCtxt, InternOrder, HashOrder, DefIdDebug}.

(** [call_with_panic_debug_info] *)
Definition call_with_panic_debug_info (call : G unit) (panic_debug : string) (def_id : N) : T unit :=
  loc ← hooked (codegen_span (def_span def_id));
  replace_item (Some panic_debug, Some loc);;
  hooked call;;
  replace_item no_item.

(** ** The loops of [codegen_crate] *)

Variable n : nat.

Definition declare_reported (item : MonoItem) : T unit :=
  match item with
  | MonoFn i =>
      call_with_panic_debug_info (declare_item n item)
        ("declare_function: " +:+ readable_instance_name i) (instance_def_id i)
  | MonoStatic def =>
      call_with_panic_debug_info (declare_item n item) ("declare_static: " +:+ def_id_debug def) def
  | GlobalAsm => mret tt
  end.
Definition codegen_reported (item : MonoItem) : T unit :=
  match item with
  | MonoFn i =>
      call_with_panic_debug_info (codegen_item n item)
        ("codegen_function: " +:+ readable_instance_name i +:+ String (Ascii.ascii_of_nat 10) ""
         +:+ symbol_name i) (instance_def_id i)
  | MonoStatic def =>
      call_with_panic_debug_info (codegen_item n item) ("codegen_static: " +:+ def_id_debug def) def
  | GlobalAsm => mret tt
  end.

Fixpoint t_iter {A} (f : A -> T unit) (l : list A) : T unit :=
  match l with [] => mret tt | a :: l => f a;; t_iter f l end.
Definition codegen_items_reported (items : list MonoItem) : T unit :=
  t_iter declare_reported items;; t_iter codegen_reported items.

(** ** What a report says *)

Definition item_def_id (item : MonoItem) : option N :=
  match item with
  | MonoFn i => Some (instance_def_id i)
  | MonoStatic def => Some def
  | GlobalAsm => None
  end.

(** The label of an item in one of the two loops *)
Inductive Phase := Declaring | Translating.
Definition label (p : Phase) (item : MonoItem) : string :=
  match p, item with
  | Declaring, MonoFn i => "declare_function: " +:+ readable_instance_name i
  | Declaring, MonoStatic def => "declare_static: " +:+ def_id_debug def
  | Translating, MonoFn i =>
      "codegen_function: " +:+ readable_instance_name i +:+ String (Ascii.ascii_of_nat 10) "" +:+ symbol_name i
  | Translating, MonoStatic def => "codegen_static: " +:+ def_id_debug def
  | _, GlobalAsm => ""
  end.
Definition operation (p : Phase) (item : MonoItem) : G unit :=
  match p with Declaring => declare_item n item | Translating => codegen_item n item end.

(** The run so far when an item comes up in a loop *)
Definition reached (p : Phase) (items before : list MonoItem) : G unit :=
  match p with
  | Declaring => g_iter (declare_item n) before
  | Translating => g_iter (declare_item n) items;; g_iter (codegen_item n) before
  end.

(** [report] is that of an item of the crate: the items before it were done, and its own
    operation panicked. *)
Definition blames (items : list MonoItem) (c : GotocCtx) (report : list string) : Prop :=
  exists p before item after def loc c1 c2,
    items = before ++ item :: after
    /\ reached p items before c = Done (Ok (tt, c1))
    /\ operation p item c1 = Done Panic
    /\ item_def_id item = Some def /\ codegen_span (def_span def) c1 = Done (Ok (loc, c2))
    /\ report = hook (Some (label p item), Some loc).

(** *** Steps *)

Hypothesis positions : forall sp, span_fits sp.

Definition item_reported (p : Phase) (item : MonoItem) : T unit :=
  match p with Declaring => declare_reported item | Translating => codegen_reported item end.

(** One item, from a state in which no item is current *)
Lemma item_reported_spec p item c :
  match operation p item c with
  | Done (Ok (_, c')) => item_reported p item (c, no_item) = Returned (tt, (c', no_item))
  | Done Panic => exists def loc,
      item_def_id item = Some def /\ codegen_span (def_span def) c = Done (Ok (loc, c))
      /\ item_reported p item (c, no_item) = Crashed (hook (Some (label p item), Some loc))
  | OutOfFuel => item_reported p item (c, no_item) = NoFuel
  end.
Proof.
  assert (forall call s def, match call c with
    | Done (Ok (_, c')) => call_with_panic_debug_info call s def (c, no_item) = Returned (tt, (c', no_item))
    | Done Panic => exists loc, codegen_span (def_span def) c = Done (Ok (loc, c))
        /\ call_with_panic_debug_info call s def (c, no_item) = Crashed (hook (Some s, Some loc))
    | OutOfFuel => call_with_panic_debug_info call s def (c, no_item) = NoFuel
    end) as Hcall.
  { intros call s def. pose proof (codegen_span_fits (def_span def) c (positions _)) as Hloc. revert Hloc.
    generalize (Loc (lookup_char_pos (def_span def)).1.1 (fn_readable_name <$> gcx_current_fn c)
      (lookup_char_pos (def_span def)).1.2 (Some (1 + (lookup_char_pos (def_span def)).2)%N)). intros loc Hloc.
    unfold call_with_panic_debug_info, hooked, replace_item, mbind, T_bind. cbn [fst snd]. rewrite Hloc. cbn [fst snd].
    destruct (call c) as [[[[] c']|]|]; [done|by exists loc|done]. }
  destruct p, item as [i|def|]; cbn [operation item_reported declare_reported codegen_reported label item_def_id];
    try done;
    match goal with |- context [call_with_panic_debug_info ?call ?s ?def] =>
      specialize (Hcall call s def); destruct (call c) as [[[[] c']|]|]; [done| |done];
      destruct Hcall as (loc & E & R); by exists def, loc end.
Qed.

(** A loop, from a state in which no item is current *)
Lemma loop_spec p items : forall c,
  match g_iter (operation p) items c with
  | Done (Ok (_, c')) => t_iter (item_reported p) items (c, no_item) = Returned (tt, (c', no_item))
  | Done Panic => exists before item after def loc c1,
      items = before ++ item :: after /\ g_iter (operation p) before c = Done (Ok (tt, c1))
      /\ operation p item c1 = Done Panic /\ item_def_id item = Some def
      /\ codegen_span (def_span def) c1 = Done (Ok (loc, c1))
      /\ t_iter (item_reported p) items (c, no_item) = Crashed (hook (Some (label p item), Some loc))
  | OutOfFuel => t_iter (item_reported p) items (c, no_item) = NoFuel
  end.
Proof.
  induction items as [|item items IH]; intros c; [done|]. cbn [g_iter t_iter].
  unfold mbind at 1, G_bind at 1. pose proof (item_reported_spec p item c) as Hitem.
  destruct (operation p item c) as [[[[] c']|]|] eqn:Hop.
  - specialize (IH c'). destruct (g_iter (operation p) items c') as [[[[] c'']|]|] eqn:Hrest;
      [|destruct IH as (before & it & after & def & loc & c1 & -> & Hb & IH);
        exists (item :: before), it, after, def, loc, c1|];
      unfold mbind, T_bind; rewrite Hitem; [done| |done].
    split; [done|]. split; [|done]. cbn [g_iter]. unfold mbind, G_bind. by rewrite Hop.
  - destruct Hitem as (def & loc & Hd & Hl & R). exists [], item, items, def, loc, c.
    unfold mbind, T_bind. rewrite R. done.
  - unfold mbind, T_bind. by rewrite Hitem.
Qed.

(** C23. [call_with_panic_debug_info] and the panic hook, in the loops of [codegen_crate]: the
    instrumented translation of a crate has the result of the plain one, after which no item
    is current; and when it panics, the report names the item whose declaration or
    translation panicked, with its location, after all items before it went through. *)
Theorem panic_names_item items c :
  match codegen_items_reported items (c, no_item) with
  | Returned (_, (c', cur)) => codegen_items n items c = Done (Ok (tt, c')) /\ cur = no_item
  | Crashed report => codegen_items n items c = Done Panic /\ blames items c report
  | NoFuel => codegen_items n items c = OutOfFuel
  end.
Proof.
  unfold codegen_items_reported, codegen_items.
  pose proof (loop_spec Declaring items c) as Hd.
  change (operation Declaring) with (declare_item n) in Hd. change (item_reported Declaring) with declare_reported in Hd.
  unfold mbind, T_bind, G_bind.
  destruct (g_iter (declare_item n) items c) as [[[[] c1]|]|] eqn:Edecl.
  - rewrite Hd. pose proof (loop_spec Translating items c1) as Ht.
    change (operation Translating) with (codegen_item n) in Ht.
    change (item_reported Translating) with codegen_reported in Ht.
    destruct (g_iter (codegen_item n) items c1) as [[[[] c2]|]|] eqn:Egen; [by rewrite Ht| |by rewrite Ht].
    destruct Ht as (before & item & after & def & loc & c2 & Hi & Hb & Hop & Hdef & Hloc & ->). split; [done|].
    exists Translating, before, item, after, def, loc, c2, c2. split_and!; try done.
    cbn [reached]. unfold mbind, G_bind. by rewrite Edecl.
  - destruct Hd as (before & item & after & def & loc & c1 & Hi & Hb & Hop & Hdef & Hloc & ->). split; [done|].
    by exists Declaring, before, item, after, def, loc, c1, c1.
  - by rewrite Hd.
Qed.
End Hook.

(** ** A crate with a static that cannot be evaluated *)

#[local] Instance sample_str_debug : StrDebug := fun s => s.
#[local] Instance sample_def_id : DefIdDebug := fun d => "DefId(" +:+ pretty d +:+ ")".
Definition bad_items : list MonoItem := [MonoFn main_instance; MonoStatic 5; MonoFn step_instance].

Lemma panic_names_item_witness :
  match codegen_items_reported 8 bad_items (crate_start, no_item) with
  | Returned _ (_, (c', cur)) => codegen_items 8 bad_items crate_start = Done (Ok (tt, c')) /\ cur = no_item
  | Crashed _ report => codegen_items 8 bad_items crate_start = Done Panic /\ blames 8 bad_items crate_start report
  | NoFuel _ => codegen_items 8 bad_items crate_start = OutOfFuel
  end.
Proof. apply (panic_names_item 8). intros sp. split; vm_compute; discriminate. Defined.

(** The function before it was translated; the report blames the static. *)
Example static_blamed :
  match codegen_items_reported 8 bad_items (crate_start, no_item) with
  | Crashed _ (_ :: item :: _) => item = "[RMC] current codegen item: codegen_static: DefId(5)"
  | _ => False
  end.
Proof. vm_compute. reflexivity. Qed.
