(* ===== verification/ProofMacro.v ===== *)
(** * The attribute [#[rmc::proof]] ([library/rmc_macros/src/lib.rs]) and the harnesses of a crate

    Outside of RMC the macro removes the item, or keeps it as dead code in tests; under RMC
    it puts the attribute [rmctool::proof] in front of it, which the code generator looks for
    ([handle_rmctool_attributes] in [function.rs]).

    Token streams belong to the compiler: the class [ProcMacro] has them with what the macro
    does with them and the attributes of the item that a stream is parsed to. *)

From S2P Require Import Prelude CbmcString MachineModel Location Typ Ast SymbolTable Expr Symbol.
From S2P Require Import Builtin Stmt Env Restrictions Mir GotoCtx TypeGen MirTyping PlaceGen OperandGen.
From S2P Require Import ArithGen CastGen RvalueGen IntrinsicGen HookGen StmtGen FunctionGen GenSample.

Class ProcMacro := {
  TokenStream : Type;
  stream_new : TokenStream;
  stream_extend : TokenStream -> TokenStream -> TokenStream;
  (** [str::parse::<TokenStream>] *)
  stream_parse : string -> option TokenStream;
  (** the paths of the attributes of the item a stream is parsed to, if it is one *)
  item_attributes : TokenStream -> option (list (list string));
}.

(** The configurations with which the macro crate is compiled *)
Inductive Cfg := CfgNeither | CfgTest | CfgRmc.

Section Macro.
Context `{ProcMacro}.

Definition extend_parsed (result : TokenStream) (attribute : string) : outcome TokenStream :=
  s ← unwrap (stream_parse attribute); Ok (stream_extend result s).

Definition proof (cfg : Cfg) (item : TokenStream) : outcome TokenStream :=
  match cfg with
  | CfgNeither => Ok stream_new
  | CfgTest =>
      result ← extend_parsed stream_new "#[allow(dead_code)]";
      Ok (stream_extend result item)
  | CfgRmc =>
      result ← extend_parsed stream_new "#[rmctool::proof]";
      result ← extend_parsed result "#[no_mangle]";
      Ok (stream_extend result item)
  end.

(** What the compiler does with attributes: an attribute can be parsed, and in front of an
    item it is the first of its attributes; an empty stream is no item. *)
Class ProcMacroLaws : Prop := {
  new_no_item : item_attributes stream_new = None;
  parse_attribute attribute path :
    (attribute, path) ∈ [("#[allow(dead_code)]", ["allow"]); ("#[rmctool::proof]", ["rmctool"; "proof"]);
                         ("#[no_mangle]", ["no_mangle"])] ->
    exists s, stream_parse attribute = Some s
      /\ forall item, item_attributes (stream_extend s item) = option_map (cons path) (item_attributes item);
  extend_new s : stream_extend stream_new s = s;
  extend_assoc a b c : stream_extend (stream_extend a b) c = stream_extend a (stream_extend b c);
}.

Lemma proof_attributes `{ProcMacroLaws} cfg item attrs : item_attributes item = Some attrs ->
  exists result, proof cfg item = Ok result
    /\ item_attributes result = match cfg with
                                | CfgNeither => None
                                | CfgTest => Some (["allow"] :: attrs)
                                | CfgRmc => Some (["rmctool"; "proof"] :: ["no_mangle"] :: attrs)
                                end.
Proof.
  intros Hitem. destruct cfg; cbn [proof].
  - exists stream_new. split; [done|]. apply new_no_item.
  - destruct (parse_attribute "#[allow(dead_code)]" ["allow"]) as (s & Hs & Ha); [by left|].
    unfold extend_parsed. rewrite Hs. cbn [unwrap mbind outcome_bind].
    eexists. split; [done|]. by rewrite extend_new, Ha, Hitem.
  - destruct (parse_attribute "#[rmctool::proof]" ["rmctool"; "proof"]) as (s & Hs & Ha); [by right; left|].
    destruct (parse_attribute "#[no_mangle]" ["no_mangle"]) as (m & Hm & Hb); [by right; right; left|].
    unfold extend_parsed. rewrite Hs, Hm. cbn [unwrap mbind outcome_bind].
    eexists. split; [done|]. by rewrite extend_new, extend_assoc, Ha, Hb, Hitem.
Qed.
End Macro.

(** ** The harnesses that are recorded *)

(** The attributes of [rmctool] that make a harness *)
Definition proof_attrs (paths : list (list string)) : list (list string) :=
  List.filter (fun p => bool_decide (p = ["rmctool"; "proof"])) paths.

Definition with_harnesses (c : GotocCtx) (hs : list HarnessMetadata) : GotocCtx :=
  mkGotocCtx (gcx_table c) (gcx_full_crate_name c) (global_var_count c)
    (gcx_vtable_ctx c) (gcx_current_fn c) (type_map c) (alloc_map c) (proof_harnesses c ++ hs).

Section Harness.
Context `{TyCtxt, MirCtxt, InternOrder, HashOrder}.

(** The description of the current function *)
Definition harness_of (f : CurrentFnCtx) : HarnessMetadata :=
  let '(file, line, _) := lookup_char_pos (body_span (fn_mir f)) in
  mkHarnessMetadata (fn_readable_name f) (fn_name f) file (pretty line).

Lemma handle_proof_spec c f : gcx_current_fn c = Some f -> span_fits (body_span (fn_mir f)) ->
  handle_rmctool_proof c = Done (Ok (tt, with_harnesses c [harness_of f])).
Proof.
  intros Hf Hfit. unfold handle_rmctool_proof, current_fn, push_harness, g_lift, mbind, G_bind. rewrite Hf.
  rewrite codegen_span_fits by done. cbn. unfold harness_of.
  by destruct (lookup_char_pos (body_span (fn_mir f))) as [[file line] col].
Qed.

(** Only the path [rmctool::proof] makes a harness. *)
Lemma rmctool_proof_path p :
  match rmctool_attr_name p with Some name => String.eqb name "proof" | None => false end
  = bool_decide (p = ["rmctool"; "proof"]).
Proof.
  unfold rmctool_attr_name. destruct p as [|tool [|nm [|x p]]]; try by rewrite bool_decide_eq_false_2.
  destruct (String.eqb_spec tool "rmctool") as [->|Ht].
  - destruct (String.eqb_spec nm "proof") as [->|Hn]; [by rewrite bool_decide_eq_true_2|].
    rewrite bool_decide_eq_false_2; [done|congruence].
  - rewrite bool_decide_eq_false_2; [done|congruence].
Qed.

Lemma handle_attrs_spec paths : forall c f,
  gcx_current_fn c = Some f -> span_fits (body_span (fn_mir f)) ->
  handle_attrs paths c = Done (Ok (tt, with_harnesses c (map (fun _ => harness_of f) (proof_attrs paths)))).
Proof.
  induction paths as [|p paths IH]; intros c f Hf Hfit; cbn [handle_attrs].
  { unfold with_harnesses. cbn. rewrite app_nil_r. by destruct c. }
  pose proof (rmctool_proof_path p) as Hp. unfold proof_attrs. cbn [List.filter].
  unfold mbind, G_bind. rewrite <- Hp.
  destruct (rmctool_attr_name p) as [name|]; [destruct (String.eqb name "proof")|].
  - rewrite (handle_proof_spec c f) by done. rewrite (IH (with_harnesses c _) f) by done.
    unfold with_harnesses. cbn. by rewrite <- app_assoc.
  - by apply IH.
  - by apply IH.
Qed.

(** C24. [#[rmc::proof]] and [handle_rmctool_attributes]: under RMC the item keeps its
    attributes, and a function whose attributes are those of the expanded item is recorded
    as a harness once by the macro and once more for every [rmctool::proof] written by hand,
    with its names and the file and line of its body, and nothing else is changed; without
    RMC nothing is recorded for the macro, and outside of tests there is no item. *)
Theorem proof_marks_harness `{ProcMacro} `{!ProcMacroLaws} cfg item attrs c f :
  item_attributes item = Some attrs ->
  gcx_current_fn c = Some f -> span_fits (body_span (fn_mir f)) ->
  exists result, proof cfg item = Ok result
    /\ match cfg with
       | CfgNeither => item_attributes result = None
       | _ => Some (attr_paths (fn_instance f)) = item_attributes result ->
              handle_rmctool_attributes c = Done (Ok (tt, with_harnesses c
                (map (fun _ => harness_of f)
                   (match cfg with CfgRmc => [["rmctool"; "proof"]] | _ => [] end ++ proof_attrs attrs))))
       end.
Proof.
  intros Hitem Hf Hfit. destruct (proof_attributes cfg item attrs Hitem) as (result & Hr & Ha).
  exists result. split; [done|]. rewrite Ha.
  assert (handle_rmctool_attributes c = handle_attrs (attr_paths (fn_instance f)) c) as Hh
    by (unfold handle_rmctool_attributes, current_fn, mbind, G_bind; by rewrite Hf).
  destruct cfg; [done|intros [= Hp]..]; rewrite Hh, Hp; by apply handle_attrs_spec.
Qed.
End Harness.

(** ** Streams as attributes in front of an item *)

(** A stream is the attributes it begins with and whether an item follows. *)
#[local] Instance sample_streams : ProcMacro := {|
  TokenStream := list (list string) * bool;
  stream_new := ([], false);
  stream_extend a b := (a.1 ++ b.1, a.2 || b.2);
  stream_parse s :=
    if bool_decide (s = "#[allow(dead_code)]") then Some ([["allow"]], false)
    else if bool_decide (s = "#[rmctool::proof]") then Some ([["rmctool"; "proof"]], false)
    else if bool_decide (s = "#[no_mangle]") then Some ([["no_mangle"]], false) else None;
  item_attributes s := if s.2 then Some s.1 else None;
|}.
#[local] Instance sample_stream_laws : ProcMacroLaws.
Proof.
  split; [done| |by intros [? ?]|].
  - intros a p. rewrite !elem_of_cons. intros [[= -> ->]|[[= -> ->]|[[= -> ->]|[]%not_elem_of_nil]]];
      (eexists; split; [reflexivity|]; by intros [l []]).
  - intros [a x] [b y] [d z]. cbn. by rewrite app_assoc, orb_assoc.
Qed.

Definition harness_ctx : GotocCtx :=
  set_fn crate_start (Some (current_fn_new main_instance main_mir "main" "main" None)).

(** A function without attributes *)
Definition bare_item : TokenStream := (([], true) : list (list string) * bool).

Lemma proof_marks_harness_witness :
  exists result, proof CfgRmc bare_item = Ok result
    /\ handle_rmctool_attributes harness_ctx
       = Done (Ok (tt, with_harnesses harness_ctx [harness_of (current_fn_new main_instance main_mir "main" "main" None)])).
Proof.
  destruct (proof_marks_harness CfgRmc bare_item [] harness_ctx
    (current_fn_new main_instance main_mir "main" "main" None)) as (result & Hr & Hh); [reflexivity..| |].
  - split; vm_compute; discriminate.
  - exists result. split; [exact Hr|]. apply Hh. injection Hr as <-. reflexivity.
Defined.
