(* ===== verification/Unicode.v ===== *)
(** * Searching sorted slices and Unicode tables ([library/core])

    The test runner trims and splits text at white space.  [char::is_whitespace] looks
    characters up in a table that is compressed to run lengths, and the search in the table
    is the binary search of slices.  Both are translated here with their machine arithmetic:
    reading an element without a bounds check is [Panic] when it is out of bounds (undefined
    behaviour), and the theorems say that it never is.

    The loop of the search runs under fuel, one more than the length of the slice: each turn
    makes the interval shorter ([binary_search_safe] shows that the fuel is enough). *)

From S2P Require Import Prelude.
Open Scope N_scope.

(** ** [slice::binary_search_by] *)

Section Search.
Context {A : Type} (f : A -> comparison) (l : list A).

(** The loop; [inl] is [Ok] and [inr] is [Err]. *)
Fixpoint search_loop (fuel size left right : nat) : fuelled (nat + nat) :=
  match fuel with
  | O => OutOfFuel
  | S fuel =>
      if (left <? right)%nat then
        let mid := (left + size / 2)%nat in
        match l !! mid with
        | None => Done Panic
        | Some x =>
            match f x with
            | Lt => let left := (mid + 1)%nat in search_loop fuel (right - left) left right
            | Gt => let right := mid in search_loop fuel (right - left) left right
            | Eq => Done (Ok (inl mid))
            end
        end
      else Done (Ok (inr left))
  end.

Definition binary_search_by : fuelled (nat + nat) :=
  search_loop (S (length l)) (length l) 0 (length l).
End Search.

Definition binary_search_by_key {A} (b : N) (f : A -> N) (l : list A) : fuelled (nat + nat) :=
  binary_search_by (fun k => f k ?= b) l.

(** ** [unicode_data.rs] *)

Definition u32_shl (a k : N) : N := N.land (N.shiftl a k) (N.ones 32).

Definition decode_prefix_sum (short_offset_run_header : N) : N :=
  N.land short_offset_run_header (N.shiftl 1 21 - 1).
Definition decode_length (short_offset_run_header : N) : N := N.shiftr short_offset_run_header 21.

(** The loop that adds up the offsets; what it returns is the index where it stopped. *)
Fixpoint skip_offsets (n : nat) (offsets : list N) (total prefix_sum offset_idx : N) : outcome N :=
  match n with
  | O => Ok offset_idx
  | S n =>
      offset ← unwrap (offsets !! N.to_nat offset_idx);
      let prefix_sum := prefix_sum + offset in
      if total <? prefix_sum then Ok offset_idx
      else skip_offsets n offsets total prefix_sum (offset_idx + 1)
  end.

Definition skip_search (needle : N) (short_offset_runs offsets : list N) : outcome bool :=
  found ← run (binary_search_by_key (u32_shl needle 11) (fun header => u32_shl header 11)
                 short_offset_runs);
  let last_idx := match found with inl idx => S idx | inr idx => idx end in
  header ← unwrap (short_offset_runs !! last_idx);
  let offset_idx := decode_length header in
  length ← (match short_offset_runs !! S last_idx with
            | Some next => u64_sub (decode_length next) offset_idx
            | None => u64_sub (N.of_nat (length offsets)) offset_idx
            end);
  prev ← (match last_idx with
          | O => Ok 0
          | S prev => h ← unwrap (short_offset_runs !! prev); Ok (decode_prefix_sum h)
          end);
  total ← u64_sub needle prev;
  turns ← u64_sub length 1;
  offset_idx ← skip_offsets (N.to_nat turns) offsets total 0 offset_idx;
  Ok (offset_idx mod 2 =? 1).

Module white_space.
Definition SHORT_OFFSET_RUNS : list N := [5760; 18882560; 23080960; 40972289].
Definition OFFSETS : list N :=
  [9; 5; 18; 1; 100; 1; 26; 1; 0; 1; 0; 11; 29; 2; 5; 1; 47; 1; 0; 1; 0].
Definition lookup (c : N) : outcome bool := skip_search c SHORT_OFFSET_RUNS OFFSETS.
End white_space.

(** [char::is_whitespace]; a lookup never panics on a character ([white_space_exact]). *)
Definition is_whitespace (c : N) : bool :=
  if (c =? 32) || ((9 <=? c) && (c <=? 13)) then true
  else (127 <? c) && match white_space.lookup c with Ok b => b | Panic => false end.

(** The property [White_Space] of Unicode *)
Definition White_Space (c : N) : bool :=
  ((9 <=? c) && (c <=? 13)) || ((8192 <=? c) && (c <=? 8202))
  || bool_decide (c ∈ [32; 133; 160; 5760; 8232; 8233; 8239; 8287; 12288]).

Definition CHAR_MAX : N := 1114111.

(** ** The search *)

(** The interval that is left is within the slice, and [size] is its length. *)
Lemma search_loop_total {A} (f : A -> comparison) l fuel size left right :
  size = (right - left)%nat -> (right <= length l)%nat -> (right - left < fuel)%nat ->
  exists r, search_loop f l fuel size left right = Done (Ok r)
    /\ match r with
       | inl i => exists x, l !! i = Some x /\ f x = Eq
       | inr i => (i <= Nat.max left right)%nat
                  /\ (left <= right -> left <= i
                      /\ (left < i -> exists x, l !! (i - 1)%nat = Some x /\ f x = Lt)
                      /\ (i < right -> exists x, l !! i = Some x /\ f x = Gt))%nat
       end.
Proof.
  revert size left right. induction fuel as [|fuel IH]; intros size left right -> Hr Hf; [lia|].
  cbn [search_loop]. destruct (Nat.ltb_spec left right) as [Hlt|Hge].
  2:{ exists (inr left). split; [done|]. split; [lia|]. intros. split; [lia|]. split; lia. }
  assert ((right - left) / 2 < right - left)%nat as Hmid by (apply Nat.div_lt; lia).
  destruct (l !! (left + (right - left) / 2)%nat) as [x|] eqn:Hx.
  2:{ apply lookup_ge_None in Hx. lia. }
  destruct (f x) eqn:Hfx.
  - by eexists; split; [reflexivity|]; exists x.
  - edestruct IH as (r & -> & Hres); [reflexivity | done | lia |]. exists r. split; [done|].
    destruct r as [i|i]; [done|]. destruct Hres as [Hm Hres]. split; [lia|]. intros _.
    destruct Hres as (Hi & Hbelow & Habove); [lia|]. split; [lia|]. split; [|done]. intros _.
    destruct (decide (i = S (left + (right - left) / 2))%nat) as [->|Hne].
    + exists x. split; [|done]. rewrite <- Hx. f_equal. lia.
    + apply Hbelow. lia.
  - edestruct IH as (r & -> & Hres); [reflexivity | lia | lia |]. exists r. split; [done|].
    destruct r as [i|i]; [done|]. destruct Hres as [Hm Hres]. split; [lia|]. intros _.
    destruct Hres as (Hi & Hbelow & Habove); [lia|]. split; [lia|]. split; [done|]. intros Hir.
    destruct (decide (i = left + (right - left) / 2)%nat) as [->|Hne]; [by exists x|].
    apply Habove. lia.
Qed.

(** ** The table *)

(** A decidable property that holds from [0] to [n] *)
Definition upto (p : N -> bool) (n : N) : bool :=
  (N.iter n (fun r => (r.1 && p r.2, r.2 + 1)) (p 0, 1)).1.

Lemma upto_spec p n c : upto p n = true -> c <= n -> p c = true.
Proof.
  unfold upto. assert (forall n, (N.iter n (fun r => (r.1 && p r.2, r.2 + 1)) (p 0, 1)).2 = n + 1) as Hsnd.
  { clear. intros n. induction n as [|n IH] using N.peano_ind; [done|].
    rewrite N.iter_succ. cbn [fst snd]. rewrite IH. lia. }
  induction n as [|n IH] using N.peano_ind; intros Hu Hc.
  - by assert (c = 0) as -> by lia.
  - rewrite N.iter_succ in Hu. cbn [fst] in Hu.
    apply andb_true_iff in Hu as [Hu Hp]. rewrite Hsnd in Hp.
    destruct (decide (c = n + 1)) as [->|]; [done|]. apply IH; [done|lia].
Qed.

(** The table has runs up to U+3000; the last run goes on beyond the last character. *)
Lemma lookup_low c : c <= 12288 -> white_space.lookup c = Ok (White_Space c).
Proof.
  intros Hc. eapply (upto_spec (fun c => match white_space.lookup c with
                                         | Ok b => Bool.eqb b (White_Space c) | Panic => false end)) in Hc.
  - destruct (white_space.lookup c) as [b|]; [|done]. by apply Bool.eqb_prop in Hc as ->.
  - vm_compute. reflexivity.
Qed.

Lemma u32_shl_char c : c <= CHAR_MAX -> u32_shl c 11 = c * 2048.
Proof.
  intros Hc. unfold u32_shl. rewrite N.land_ones, N.shiftl_mul_pow2. apply N.mod_small.
  unfold CHAR_MAX in Hc. change (2 ^ 11) with 2048. change (2 ^ 32) with 4294967296. lia.
Qed.

Lemma lookup_high c : 12288 < c -> c <= CHAR_MAX -> white_space.lookup c = Ok false.
Proof.
  intros Hl Hc. unfold white_space.lookup, skip_search. rewrite u32_shl_char by done.
  unfold binary_search_by_key, binary_search_by. cbn [length white_space.SHORT_OFFSET_RUNS].
  cbn -[N.compare u32_shl N.mul]. change (u32_shl 23080960 11) with (12288 * 2048).
  change (u32_shl 40972289 11) with (1126401 * 2048). unfold CHAR_MAX in Hc.
  rewrite (proj2 (N.compare_lt_iff (12288 * 2048) (c * 2048))) by lia. cbn -[N.compare u32_shl N.mul].
  change (u32_shl 40972289 11) with (1126401 * 2048).
  rewrite (proj2 (N.compare_gt_iff (1126401 * 2048) (c * 2048))) by lia. cbn -[N.sub N.leb N.ltb].
  unfold u64_sub. change (decode_length 40972289) with 19. change (N.of_nat 21) with 21.
  change (decode_prefix_sum 23080960) with 12288. rewrite (proj2 (N.leb_le 12288 c)) by lia.
  cbn -[N.sub N.ltb]. change (1 <=? 21 - 19) with true. cbn -[N.sub N.ltb].
  change (N.to_nat (21 - 19 - 1)) with 1%nat. cbn -[N.sub N.ltb].
  change (white_space.OFFSETS !! N.to_nat 19) with (Some 1). cbn -[N.sub N.ltb].
  by rewrite (proj2 (N.ltb_ge (c - 12288) (0 + 1))) by lia.
Qed.

(** ** Properties *)

(** The binary search of the standard library reads the slice only within its bounds and
    ends, whatever the comparison function does.  An element it finds compares equal; the
    index it gives otherwise lies between a smaller and a greater element, so that in a
    sorted slice it is the place where the element belongs. *)
Theorem binary_search_safe {A} (f : A -> comparison) (l : list A) :
  exists r, binary_search_by f l = Done (Ok r)
    /\ match r with
       | inl i => exists x, l !! i = Some x /\ f x = Eq
       | inr i => (i <= length l)%nat
                  /\ (0 < i -> exists x, l !! (i - 1)%nat = Some x /\ f x = Lt)%nat
                  /\ (i < length l -> exists x, l !! i = Some x /\ f x = Gt)%nat
       end.
Proof.
  edestruct (search_loop_total f l (S (length l)) (length l) 0 (length l)) as (r & Hr & Hres); [lia..|].
  exists r. split; [exact Hr|]. destruct r as [i|i]; [done|]. destruct Hres as [Hm Hres].
  destruct Hres as (_ & Hb & Ha); [lia|]. split; [lia|]. split; [exact Hb | exact Ha].
Qed.

(** The compressed table of [char::is_whitespace] is the property [White_Space] of
    Unicode: for every character the lookup stays within the table and answers correctly,
    so trimming and splitting text treat exactly the characters of that property. *)
Theorem white_space_exact (c : N) :
  c <= CHAR_MAX -> white_space.lookup c = Ok (White_Space c) /\ is_whitespace c = White_Space c.
Proof.
  intros Hc. assert (white_space.lookup c = Ok (White_Space c)) as Hl.
  { destruct (N.le_gt_cases c 12288) as [Hlow|Hhigh]; [by apply lookup_low|].
    rewrite lookup_high by done. f_equal. symmetry. unfold White_Space.
    rewrite !orb_false_iff, !andb_false_iff, !N.leb_gt, bool_decide_eq_false.
    set_unfold. lia. }
  split; [done|]. unfold is_whitespace. rewrite Hl.
  destruct (N.leb_spec c 127) as [Hsmall|].
  - rewrite (proj2 (N.ltb_ge 127 c)) by done.
    eapply (upto_spec (fun c => bool_decide ((if (c =? 32) || ((9 <=? c) && (c <=? 13)) then true else false
              && White_Space c) = White_Space c))) in Hsmall; [by apply bool_decide_eq_true_1 in Hsmall|].
    vm_compute. reflexivity.
  - rewrite (proj2 (N.ltb_lt 127 c)) by done. rewrite (proj2 (N.eqb_neq c 32)) by lia.
    rewrite (proj2 (N.leb_gt c 13)), andb_false_r by lia. done.
Qed.

Lemma white_space_exact_witness :
  white_space.lookup 8239 = Ok true /\ is_whitespace 955 = false.
Proof.
  split; [apply (white_space_exact 8239); discriminate|].
  apply (white_space_exact 955). discriminate.
Defined.
