(* ===== verification/Text.v ===== *)
(** * Text and paths, as Rust's standard library handles them

    The test runner works on text: it cuts files into lines, lines into words, and paths into
    components.  A text is the list of its characters (Unicode scalar values); the operations
    are those of [str], [BufRead] and [Path] that the runner uses.  A path is the list of its
    components, which is how Rust compares, hashes and splits paths; [display_path] writes it
    out.  The lemmas say how the operations act on text that was put together from pieces. *)

From S2P Require Import Prelude Unicode.
Open Scope N_scope.

Definition text := list N.

(** An ASCII literal *)
Definition lit (s : string) : text := map N_of_ascii (String.list_ascii_of_string s).
Arguments lit : simpl never.

Definition newline : N := 10.
Definition carriage_return : N := 13.
Definition space : N := 32.

(** [to_string] of an unsigned number *)
Definition dec (n : N) : text := lit (pretty n).

(** ** [str] *)

Fixpoint trim_start (s : text) : text :=
  match s with
  | [] => []
  | c :: s' => if is_whitespace c then trim_start s' else s
  end.
Definition trim_end (s : text) : text := reverse (trim_start (reverse s)).
Definition trim (s : text) : text := trim_end (trim_start s).

Fixpoint strip (pat s : text) : option text :=
  match pat, s with
  | [], _ => Some s
  | c :: pat, d :: s => if c =? d then strip pat s else None
  | _, [] => None
  end.
Definition starts_with (pat s : text) : bool := match strip pat s with Some _ => true | None => false end.

Fixpoint contains (pat s : text) : bool :=
  starts_with pat s || match s with [] => false | _ :: s' => contains pat s' end.

(** [str::split] at a string that is not empty: the piece before the first match, and the
    pieces after it.  [skip] counts the characters of a match that are still to be passed. *)
Fixpoint pieces (pat : text) (skip : nat) (s : text) : text * list text :=
  match s with
  | [] => ([], [])
  | c :: s' =>
      match skip with
      | S k => pieces pat k s'
      | O =>
          if starts_with pat s then
            let r := pieces pat (length pat - 1) s' in ([], r.1 :: r.2)
          else let r := pieces pat 0 s' in (c :: r.1, r.2)
      end
  end.
Definition split_str (pat s : text) : list text := let r := pieces pat 0 s in r.1 :: r.2.

(** [str::split] at the characters that satisfy a predicate *)
Fixpoint split_on (p : N -> bool) (s : text) : list text :=
  match s with
  | [] => [[]]
  | c :: s' =>
      if p c then [] :: split_on p s'
      else match split_on p s' with
           | w :: ws => (c :: w) :: ws
           | [] => [[c]]
           end
  end.

Definition is_empty (s : text) : bool := match s with [] => true | _ => false end.
Definition nonempty (s : text) : Prop := is_empty s = false.
#[export] Instance nonempty_dec s : Decision (nonempty s) := _.

Definition split_whitespace (s : text) : list text := filter nonempty (split_on is_whitespace s).

(** [str::splitn] at a character *)
Fixpoint split_first (c : N) (s : text) : text * option text :=
  match s with
  | [] => ([], None)
  | d :: s' => if c =? d then ([], Some s') else let r := split_first c s' in (d :: r.1, r.2)
  end.
Fixpoint splitn (n : nat) (c : N) (s : text) : list text :=
  match n with
  | O => []
  | S O => [s]
  | S n =>
      match split_first c s with
      | (a, Some b) => a :: splitn n c b
      | (a, None) => [a]
      end
  end.

(** [str::split_terminator] at newlines: the piece after the last newline only if it is
    not empty *)
Definition split_terminator (s : text) : list text :=
  let l := split_on (N.eqb newline) s in
  match last l with
  | Some [] => take (length l - 1) l
  | _ => l
  end.

Definition strip_return (line : text) : text :=
  match last line with
  | Some c => if c =? carriage_return then take (length line - 1) line else line
  | None => line
  end.

(** [str::lines] *)
Definition lines (s : text) : list text := map strip_return (split_terminator s).

(** [BufRead::lines]: a carriage return is removed only before a newline. *)
Definition buf_lines (s : text) : list text :=
  let l := split_on (N.eqb newline) s in
  map strip_return (take (length l - 1) l)
  ++ match last l with
     | Some [] | None => []
     | Some rest => [rest]
     end.

(** [str::parse::<usize>] *)
Definition digit_value (c : N) : option N := if (48 <=? c) && (c <=? 57) then Some (c - 48) else None.
Fixpoint parse_digits (acc : N) (s : text) : option N :=
  match s with
  | [] => Some acc
  | c :: s =>
      match digit_value c with
      | Some d => if in_u64 (acc * 10 + d) then parse_digits (acc * 10 + d) s else None
      | None => None
      end
  end.
Definition parse_usize (s : text) : option N :=
  match s with
  | [] => None
  | c :: s' => if c =? 43 then (if is_empty s' then None else parse_digits 0 s') else parse_digits 0 s
  end.

Fixpoint join (sep : text) (l : list text) : text :=
  match l with
  | [] => []
  | [s] => s
  | s :: l => s ++ sep ++ join sep l
  end.

(** [str::replace] of each of some characters by a text *)
Definition replace_chars (cs : text) (by_ s : text) : text :=
  concat (map (fun c => if bool_decide (c ∈ cs) then by_ else [c]) s).

(** ** Paths *)

Definition path := list text.

(** [collect::<PathBuf>] of plain names *)
Definition path_of (l : list string) : path := map lit l.

Definition display_path (p : path) : text :=
  match p with
  | r :: p' => if bool_decide (r = lit "/") then r ++ join (lit "/") p' else join (lit "/") p
  | [] => []
  end.

(** [Path::components] of a text, for a path below another: empty names and the current
    directory are left out.  The root directory is a component of its own. *)
Definition is_name (s : text) : Prop := s <> [] /\ s <> lit ".".
#[export] Instance is_name_dec s : Decision (is_name s) := _.
Definition slash : N := 47.
Definition components (s : text) : path :=
  (if starts_with (lit "/") s then [lit "/"] else []) ++ filter is_name (split_on (N.eqb slash) s).

(** [PathBuf::push], [Path::join] *)
Definition path_push (p : path) (s : text) : path :=
  if starts_with (lit "/") s then components s else p ++ components s.

(** [Path::pop] *)
Definition path_pop (p : path) : path := take (length p - 1) p.
Definition file_name (p : path) : option text :=
  n ← last p; if bool_decide (n = lit "..") then None else Some n.

(** [Path::starts_with], [Path::strip_prefix] *)
Fixpoint path_strip_prefix (base p : path) : option path :=
  match base, p with
  | [], _ => Some p
  | b :: base, c :: p => if bool_decide (b = c) then path_strip_prefix base p else None
  | _, [] => None
  end.
Definition path_starts_with (base p : path) : bool :=
  match path_strip_prefix base p with Some _ => true | None => false end.

(** The name of a file before and after its last dot; a dot at the start does not count *)
Definition dot : N := 46.
Fixpoint split_last_dot (s : text) : option (text * text) :=
  match s with
  | [] => None
  | c :: s' =>
      match split_last_dot s' with
      | Some (before, after) => Some (c :: before, after)
      | None => if c =? dot then Some ([], s') else None
      end
  end.
Definition split_file_name (name : text) : text * option text :=
  match split_last_dot name with
  | Some ([], _) | None => (name, None)
  | Some (before, after) => (before, Some after)
  end.
Definition file_stem (p : path) : option text := n ← file_name p; Some (split_file_name n).1.
Definition extension (p : path) : option text := n ← file_name p; (split_file_name n).2.

(** [PathBuf::set_extension] with an extension that is not empty *)
Definition set_extension (p : path) (ext : string) : path :=
  match file_name p with
  | Some n => path_pop p ++ [(split_file_name n).1 ++ lit "." ++ lit ext]
  | None => p
  end.

(** [char::encode_utf8], [str::as_bytes] *)
Definition utf8_char (c : N) : list N :=
  if c <? 0x80 then [c]
  else if c <? 0x800 then [N.lor (N.land (N.shiftr c 6) 0x1F) 0xC0; N.lor (N.land c 0x3F) 0x80]
  else if c <? 0x10000 then
    [N.lor (N.land (N.shiftr c 12) 0x0F) 0xE0; N.lor (N.land (N.shiftr c 6) 0x3F) 0x80;
     N.lor (N.land c 0x3F) 0x80]
  else
    [N.lor (N.land (N.shiftr c 18) 0x07) 0xF0; N.lor (N.land (N.shiftr c 12) 0x3F) 0x80;
     N.lor (N.land (N.shiftr c 6) 0x3F) 0x80; N.lor (N.land c 0x3F) 0x80].
Definition utf8 (s : text) : list N := concat (map utf8_char s).

(** ** Lemmas *)

Lemma strip_spec pat s r : strip pat s = Some r <-> s = pat ++ r.
Proof.
  revert s. induction pat as [|c pat IH]; intros s; cbn; [naive_solver|].
  destruct s as [|d s]; [by split|]. destruct (N.eqb_spec c d) as [->|Hne]; [|naive_solver].
  rewrite IH. naive_solver.
Qed.

Lemma starts_with_spec pat s : starts_with pat s = true <-> exists r, s = pat ++ r.
Proof.
  unfold starts_with. destruct (strip pat s) as [r|] eqn:E.
  - apply strip_spec in E. naive_solver.
  - split; [done|]. intros [r Hr%strip_spec]. congruence.
Qed.

(** A match lies on one side of a character that does not occur in the pattern. *)
Lemma contains_iff pat s : contains pat s = true <-> exists a b, s = a ++ pat ++ b.
Proof.
  induction s as [|c s IH]; cbn; rewrite orb_true_iff, starts_with_spec.
  - split; [intros [[r Hr]|]; [by exists [], r|done]|]. intros (a & b & Hab).
    destruct a as [|? a]; [left; by exists b|done].
  - rewrite IH. split.
    + intros [[r Hr]|(a & b & ->)]; [by exists [], r | by exists (c :: a), b].
    + intros (a & b & Hab). destruct a as [|d a]; [left; by exists b|]. injection Hab as -> ->.
      right. by exists a, b.
Qed.

Lemma contains_sep pat a c b : c ∉ pat -> contains pat (a ++ c :: b) = contains pat a || contains pat b.
Proof.
  intros Hc. apply eq_true_iff_eq. rewrite orb_true_iff, !contains_iff. split.
  - intros (x & y & [(k & -> & E)|(k & -> & E)]%app_eq_inv).
    + symmetry in E. apply app_eq_inv in E as [(k' & -> & E)|(k' & -> & E)]; [left; by exists x, k'|].
      destruct k' as [|d k'].
      * left. exists x, []. by rewrite !app_nil_r.
      * injection E as <- _. destruct Hc. apply elem_of_app. right. left.
    + right. destruct k as [|d k].
      * destruct pat as [|d pat]; [by exists [], b|]. injection E as <- _. destruct Hc. left.
      * injection E as _ ->. by exists k, y.
  - intros [(x & y & ->)|(x & y & ->)].
    + exists x, (y ++ c :: b). by rewrite <- !app_assoc.
    + exists (a ++ c :: x), y. by rewrite <- !app_assoc.
Qed.

Lemma contains_cons_sep pat c s : c ∉ pat -> pat <> [] -> contains pat (c :: s) = contains pat s.
Proof.
  intros Hc Hp. pose proof (contains_sep pat [] c s Hc) as E. cbn [app] in E. rewrite E.
  by destruct pat.
Qed.

(** *** Splitting *)

Lemma pieces_none pat s : contains pat s = false -> pieces pat 0 s = (s, []).
Proof.
  induction s as [|c s IH]; [done|]. cbn [contains pieces]. intros [Hs Hc]%orb_false_iff.
  by rewrite Hs, IH.
Qed.
Lemma split_str_none pat s : contains pat s = false -> split_str pat s = [s].
Proof. unfold split_str. intros H. by rewrite pieces_none. Qed.

(** Passing the rest of a match *)
Lemma pieces_skip pat k a s : length a = k -> pieces pat k (a ++ s) = pieces pat 0 s.
Proof. revert k. induction a as [|c a IH]; intros k <-; cbn; [done|]. by apply IH. Qed.

Lemma split_str_first pat s :
  pat <> [] -> contains pat s = false -> split_str pat (pat ++ s) = [[]; s].
Proof.
  intros Hp Hs. destruct pat as [|c pat]; [done|]. unfold split_str. cbn [app pieces].
  assert (starts_with (c :: pat) (c :: pat ++ s) = true) as -> by (apply starts_with_spec; by exists s).
  cbn [length]. rewrite Nat.sub_succ, Nat.sub_0_r, pieces_skip by done. by rewrite pieces_none.
Qed.

Lemma split_on_nonnil p s : split_on p s <> [].
Proof. destruct s as [|c s]; cbn; [done|]. destruct (p c); [done|]. by destruct (split_on p s). Qed.

Definition no_char (p : N -> bool) (s : text) : Prop := Forall (fun c => p c = false) s.

Lemma split_on_none p w : no_char p w -> split_on p w = [w].
Proof. induction 1 as [|c w Hc _ IH]; cbn; [done|]. by rewrite Hc, IH. Qed.

Lemma split_on_sep p w c s : no_char p w -> p c = true -> split_on p (w ++ c :: s) = w :: split_on p s.
Proof. intros Hw Hc. induction Hw as [|d w Hd _ IH]; cbn; [by rewrite Hc|]. by rewrite Hd, IH. Qed.

Lemma split_first_sep c a b : no_char (N.eqb c) a -> split_first c (a ++ c :: b) = (a, Some b).
Proof.
  induction 1 as [|d a Hd _ IH]; cbn; [by rewrite N.eqb_refl|]. by rewrite Hd, IH.
Qed.
Lemma split_first_none c a : no_char (N.eqb c) a -> split_first c a = (a, None).
Proof. induction 1 as [|d a Hd _ IH]; cbn; [done|]. by rewrite Hd, IH. Qed.

Lemma split_on_snoc p s c : p c = true -> split_on p (s ++ [c]) = split_on p s ++ [[]].
Proof.
  intros Hc. induction s as [|d s IH]; cbn; [by rewrite Hc|]. rewrite IH.
  destruct (p d); [done|]. pose proof (split_on_nonnil p s). by destruct (split_on p s).
Qed.

Lemma split_whitespace_cons c s : is_whitespace c = true -> split_whitespace (c :: s) = split_whitespace s.
Proof. intros Hc. unfold split_whitespace. cbn. rewrite Hc. by rewrite filter_cons_False. Qed.
Lemma split_whitespace_snoc s c : is_whitespace c = true -> split_whitespace (s ++ [c]) = split_whitespace s.
Proof.
  intros Hc. unfold split_whitespace. rewrite split_on_snoc, filter_app by done.
  by rewrite filter_cons_False, filter_nil, app_nil_r.
Qed.

(** Trimming first makes no difference to the words. *)
Lemma split_whitespace_trim s : split_whitespace (trim s) = split_whitespace s.
Proof.
  assert (forall s, split_whitespace (trim_start s) = split_whitespace s) as Hstart.
  { clear. induction s as [|c s IH]; cbn [trim_start]; [done|]. destruct (is_whitespace c) eqn:E; [|done].
    by rewrite split_whitespace_cons. }
  assert (forall s, split_whitespace (reverse (trim_start s)) = split_whitespace (reverse s)) as Hend.
  { clear. induction s as [|c s IH]; cbn [trim_start]; [done|]. destruct (is_whitespace c) eqn:E; [|done].
    by rewrite IH, reverse_cons, split_whitespace_snoc. }
  unfold trim, trim_end. by rewrite Hend, reverse_involutive.
Qed.

(** A word: not empty and without white space *)
Definition is_word (w : text) : bool := negb (is_empty w) && forallb (fun c => negb (is_whitespace c)) w.

Lemma is_word_spec w : is_word w = true -> nonempty w /\ no_char is_whitespace w.
Proof.
  unfold is_word, nonempty, no_char. intros [Hn Hf]%andb_true_iff. split; [by destruct w|].
  apply Forall_forall. intros c Hc%list_elem_of_In. apply negb_true_iff.
  exact (proj1 (forallb_forall _ _) Hf c Hc).
Qed.

Definition spaced (ws : list text) : text := concat (map (cons space) ws).

Lemma split_whitespace_spaced ws :
  Forall (fun w => is_word w = true) ws -> split_whitespace (spaced ws) = ws.
Proof.
  induction 1 as [|w ws [Hn Hw]%is_word_spec _ IH]; [done|]. unfold spaced. cbn [map concat app].
  rewrite split_whitespace_cons by done. fold (spaced ws).
  destruct ws as [|w' ws].
  - cbn. rewrite app_nil_r. unfold split_whitespace. rewrite split_on_none by done.
    by rewrite filter_cons_True.
  - unfold split_whitespace in *. cbn [spaced map concat app] in *.
    rewrite split_on_sep by done. rewrite filter_cons_True by done. f_equal.
    rewrite <- IH. cbn [split_on]. change (is_whitespace space) with true. cbn iota.
    by rewrite filter_cons_False.
Qed.

(** *** Lines *)

Definition line_like (w : text) : Prop :=
  no_char (N.eqb newline) w /\ no_char (N.eqb carriage_return) w.

Lemma strip_return_none w : no_char (N.eqb carriage_return) w -> strip_return w = w.
Proof.
  intros Hw. unfold strip_return. destruct (last w) as [c|] eqn:E; [|done].
  apply last_Some_elem_of in E. eapply Forall_forall in Hw; [|done]. rewrite N.eqb_sym in Hw.
  by rewrite Hw.
Qed.

Lemma buf_lines_cons w s : line_like w -> buf_lines (w ++ newline :: s) = w :: buf_lines s.
Proof.
  intros [Hn Hr]. unfold buf_lines. rewrite split_on_sep by done.
  pose proof (split_on_nonnil (N.eqb newline) s) as Hnn.
  destruct (split_on (N.eqb newline) s) as [|x l]; [done|]. cbn [length]. rewrite !Nat.sub_succ, !Nat.sub_0_r.
  cbn [take map last]. by rewrite strip_return_none.
Qed.
