(* ===== verification/BookTests.v ===== *)
(** * Tests of the book runner ([src/tools/bookrunner]: [util.rs], [litani.rs])

    The book runner extracts examples from the Rust books, runs them through RMC and reports
    the results.  A test is a Rust file whose properties, the step at which it should fail
    and the extra arguments, are comments at its start.  This file has the properties with
    their printer and parser, and the jobs that Litani (an external build accumulator) is
    given for a test.  Files are a finite map from paths to texts; spawning a job of Litani
    is adding its arguments to the list of spawned commands; how a command is shown in
    debug format is the class [CommandDebug].

    The theorems: what is printed is parsed back ([header_roundtrip]), a header is refused
    exactly when it says something twice ([header_meaning]), and the jobs of a test form a
    chain that ends where the test should fail ([pipeline_chain]). *)

From S2P Require Import Prelude Unicode Text.

(** ** [util.rs]: properties of a test *)

Inductive FailStep := Check | Codegen | Verification.
#[export] Instance FailStep_eq_dec : EqDecision FailStep.
Proof. solve_decision. Defined.

Definition display_fail_step (s : FailStep) : text :=
  match s with
  | Check => lit "check"
  | Codegen => lit "codegen"
  | Verification => lit "verify"
  end.

Record TestProps := mkTestProps {
  test_path : path;
  fail_step : option FailStep;
  rustc_args : list text;
  rmc_args : list text;
}.

Definition display_args (header : string) (args : list text) : text :=
  if bool_decide (args = []) then []
  else lit header ++ concat (map (fun arg => lit " " ++ arg) args) ++ [newline].

(** [impl Display for TestProps] *)
Definition display_props (p : TestProps) : text :=
  match fail_step p with
  | Some s => lit "// rmc-" ++ display_fail_step s ++ lit "-fail" ++ [newline]
  | None => []
  end
  ++ display_args "// compile-flags:" (rustc_args p)
  ++ display_args "// rmc-flags:" (rmc_args p).

Definition try_parse_fail_step (cur_fail_step : option FailStep) (line : text)
    : outcome (option FailStep) :=
  let fail_step :=
    if contains (lit "rmc-check-fail") line then Some Check
    else if contains (lit "rmc-codegen-fail") line then Some Codegen
    else if contains (lit "rmc-verify-fail") line then Some Verification
    else None in
  match cur_fail_step, fail_step with
  | Some _, Some _ => Panic
  | None, Some _ => Ok fail_step
  | _, _ => Ok cur_fail_step
  end.

Definition try_parse_args (cur_args : list text) (name : string) (line : text) : outcome (list text) :=
  let name := lit name ++ lit "-flags:" in
  let args :=
    match drop 1 (split_str name line) with
    | rest :: _ => split_whitespace (trim rest)
    | [] => []
    end in
  match cur_args, args with
  | _ :: _, _ :: _ => Panic
  | [], _ :: _ => Ok args
  | _, _ => Ok cur_args
  end.

(** The loop over the lines of a file *)
Fixpoint parse_header_lines (ls : list text) (fail_step : option FailStep)
    (rustc_args rmc_args : list text) : outcome (option FailStep * list text * list text) :=
  match ls with
  | [] => Ok (fail_step, rustc_args, rmc_args)
  | line :: ls =>
      let line := trim_start line in
      if is_empty line then parse_header_lines ls fail_step rustc_args rmc_args
      else if negb (starts_with (lit "//") line) then Ok (fail_step, rustc_args, rmc_args)
      else
        fail_step ← try_parse_fail_step fail_step line;
        rustc_args ← try_parse_args rustc_args "compile" line;
        rmc_args ← try_parse_args rmc_args "rmc" line;
        parse_header_lines ls fail_step rustc_args rmc_args
  end.

Definition parse_header (p : path) (contents : text) : outcome TestProps :=
  r ← parse_header_lines (buf_lines contents) None [] [];
  Ok (mkTestProps p r.1.1 r.1.2 r.2).

Definition files := gmap path text.

Definition parse_test_header (fs : files) (p : path) : outcome TestProps :=
  contents ← unwrap (fs !! p); parse_header p contents.

(** ** [litani.rs] *)

Record Command := mkCommand {
  program : text;
  cmd_args : list text;
  cmd_envs : list (text * text);
}.
Class CommandDebug := command_debug : Command -> text.

(** A job that was handed to Litani, with the arguments it was described by *)
Record Job := mkJob {
  job_command : Command;
  inputs : list path;
  outputs : list path;
  description : text;
  pipeline : text;
  stage : text;
  exit_status : N;
  timeout : N;
}.

(** [Litani::add_job]: the arguments of the [litani] process *)
Definition job_args `{CommandDebug} (j : Job) : list text :=
  let new_envs := concat (map (fun kv => kv.1 ++ lit "=" ++ [34%N] ++ kv.2 ++ [34%N] ++ lit " ")
                            (cmd_envs (job_command j))) in
  [lit "add-job"; lit "--command"; new_envs ++ command_debug (job_command j);
   lit "--description"; description j; lit "--pipeline-name"; pipeline j;
   lit "--ci-stage"; stage j; lit "--ok-returns"; dec (exit_status j);
   lit "--timeout"; dec (timeout j)]
  ++ (match inputs j with [] => [] | _ => lit "--inputs" :: map display_path (inputs j) end)
  ++ (match outputs j with
      | [] => []
      | _ => lit "--outputs" :: map display_path (outputs j)
             ++ lit "--phony-outputs" :: map display_path (outputs j)
      end).

(** A Litani run: the processes spawned so far, and whether the build was started *)
Record Litani := mkLitani { spawned_commands : list (list text); builds : nat }.

Definition add_job `{CommandDebug} (l : Litani) (j : Job) : Litani :=
  mkLitani (spawned_commands l ++ [job_args j]) (builds l).

(** [Litani::run_build] waits for the processes it has spawned and forgets them. *)
Definition run_build (l : Litani) : Litani := mkLitani [] (S (builds l)).

(** ** [util.rs]: the jobs of a test *)

Definition expected (p : TestProps) (s : FailStep) (code : N) : N :=
  if bool_decide (fail_step p = Some s) then code else 0.

Definition check_job (p : TestProps) : Job :=
  mkJob (mkCommand (lit "rmc-rustc")
           (rustc_args p ++ [lit "-Z"; lit "no-codegen"] ++ [display_path (test_path p)]) [])
    [test_path p] [set_extension (test_path p) "check"] (lit "Is this valid Rust code?")
    (display_path (test_path p)) (lit "check") (expected p Check 1) 5.

Definition codegen_job (p : TestProps) : Job :=
  mkJob (mkCommand (lit "rmc-rustc")
           (rustc_args p ++ [lit "--out-dir"; lit "build/tmp"] ++ [display_path (test_path p)]) [])
    [set_extension (test_path p) "check"] [set_extension (test_path p) "codegen"]
    (lit "Does RMC support all the Rust features used in it?")
    (display_path (test_path p)) (lit "codegen") (expected p Codegen 1) 10.

Definition verification_job (p : TestProps) : Job :=
  mkJob (mkCommand (lit "rmc") (display_path (test_path p) :: rmc_args p)
           (match rustc_args p with
            | [] => []
            | args => [(lit "RUSTFLAGS", join (lit " ") args)]
            end))
    [set_extension (test_path p) "codegen"] [] (lit "Can RMC reason about it?")
    (display_path (test_path p)) (lit "verification") (expected p Verification 10) 60.

(** [add_test_pipeline], as the jobs it adds *)
Definition test_pipeline (p : TestProps) : list Job :=
  check_job p ::
  (if bool_decide (fail_step p = Some Check) then []
   else codegen_job p ::
        (if bool_decide (fail_step p = Some Codegen) then [] else [verification_job p])).

Definition add_test_pipeline `{CommandDebug} (l : Litani) (p : TestProps) : Litani :=
  foldl add_job l (test_pipeline p).

(** ** Headers *)

(** What the parser looks for in the lines of a header *)
Definition header_patterns : list text :=
  [lit "rmc-check-fail"; lit "rmc-codegen-fail"; lit "rmc-verify-fail";
   lit "compile-flags:"; lit "rmc-flags:"].

(** An argument that survives being printed: a word that does not look like a header *)
Definition clean_arg (a : text) : bool :=
  is_word a && forallb (fun pat => negb (contains pat a)) header_patterns.
Definition clean_props (p : TestProps) : bool :=
  forallb clean_arg (rustc_args p) && forallb clean_arg (rmc_args p).

(** The code after a header does not start with another comment. *)
Fixpoint no_header (ls : list text) : bool :=
  match ls with
  | [] => true
  | l :: ls =>
      let l := trim_start l in
      if is_empty l then no_header ls else negb (starts_with (lit "//") l)
  end.

Lemma no_header_stops ls f a b : no_header ls = true -> parse_header_lines ls f a b = Ok (f, a, b).
Proof.
  induction ls as [|l ls IH]; cbn [no_header parse_header_lines]; [done|].
  destruct (is_empty _); [done|]. by intros ->.
Qed.

Lemma clean_args_spec args :
  forallb clean_arg args = true ->
  Forall (fun w => is_word w = true) args
  /\ forall pat, pat ∈ header_patterns -> Forall (fun w => contains pat w = false) args.
Proof.
  intros Hall. assert (forall w, w ∈ args -> is_word w = true
                         /\ forall pat, pat ∈ header_patterns -> contains pat w = false) as H.
  { intros w Hw%list_elem_of_In. apply (proj1 (forallb_forall _ _) Hall) in Hw.
    apply andb_true_iff in Hw as [Hw Hp]. split; [done|]. intros pat Hpat%list_elem_of_In.
    apply negb_true_iff. exact (proj1 (forallb_forall _ _) Hp pat Hpat). }
  split; [|intros pat Hp]; apply Forall_forall; intros w Hw; by apply H.
Qed.

Lemma contains_spaced pat ws :
  space ∉ pat -> pat <> [] -> Forall (fun w => contains pat w = false) ws -> contains pat (spaced ws) = false.
Proof.
  intros Hs Hp. induction 1 as [|w ws Hw _ IH]; [by destruct pat|]. unfold spaced in *. cbn [map concat app].
  rewrite contains_cons_sep by done. destruct ws as [|w' ws]; [cbn; by rewrite app_nil_r|].
  cbn [map concat app] in *. rewrite contains_cons_sep in IH by done.
  rewrite contains_sep by done. by rewrite Hw, IH.
Qed.

Lemma spaced_patterns args pat :
  forallb clean_arg args = true -> pat ∈ header_patterns -> contains pat (spaced args) = false.
Proof.
  intros [_ Hc]%clean_args_spec Hp. apply contains_spaced; [| |by apply Hc];
    repeat (apply elem_of_cons in Hp as [->|Hp]; [by apply (bool_decide_unpack _)|]); by apply elem_of_nil in Hp.
Qed.

(** The lines that are printed are lines. *)
Lemma word_line w : no_char is_whitespace w -> line_like w.
Proof.
  intros Hw. split; (eapply Forall_impl; [exact Hw|]); cbv beta; intros c Hc;
    apply N.eqb_neq; intros <-; by vm_compute in Hc.
Qed.
Lemma line_like_app a b : line_like a -> line_like b -> line_like (a ++ b).
Proof. unfold line_like, no_char. rewrite !Forall_app. naive_solver. Qed.
Lemma spaced_line args : Forall (fun w => is_word w = true) args -> line_like (spaced args).
Proof.
  induction 1 as [|w ws [_ Hw]%is_word_spec _ IH]; [by split; constructor|]. unfold spaced. cbn [map concat]. apply line_like_app; [|exact IH].
  change (space :: w) with ([space] ++ w). apply line_like_app; [by split; repeat constructor|].
  by apply word_line.
Qed.

(** Passing the words of a line of flags *)
Lemma flags_parsed args pat :
  forallb clean_arg args = true -> pat ∈ header_patterns ->
  split_whitespace (trim (pieces pat 0 (spaced args)).1) = args.
Proof.
  intros Hc Hp. rewrite pieces_none by (by apply spaced_patterns).
  rewrite split_whitespace_trim. apply split_whitespace_spaced. by apply clean_args_spec.
Qed.

Lemma parse_fail_step_line s ls :
  parse_header_lines ((lit "// rmc-" ++ display_fail_step s ++ lit "-fail") :: ls) None [] []
  = parse_header_lines ls (Some s) [] [].
Proof. by destruct s. Qed.

Lemma no_fail_step cur s :
  contains (lit "rmc-check-fail") s = false -> contains (lit "rmc-codegen-fail") s = false ->
  contains (lit "rmc-verify-fail") s = false -> try_parse_fail_step cur s = Ok cur.
Proof. unfold try_parse_fail_step. intros -> -> ->. by destruct cur. Qed.

Lemma no_args cur name s :
  contains (lit name ++ lit "-flags:") s = false -> try_parse_args cur name s = Ok cur.
Proof. intros H. unfold try_parse_args. rewrite split_str_none by done. by destruct cur. Qed.

Lemma some_args name pre s args :
  drop 1 (split_str (lit name ++ lit "-flags:") (pre ++ s))
    = (pieces (lit name ++ lit "-flags:") 0 s).1 :: (pieces (lit name ++ lit "-flags:") 0 s).2 ->
  split_whitespace (trim (pieces (lit name ++ lit "-flags:") 0 s).1) = args ->
  try_parse_args [] name (pre ++ s) = Ok args.
Proof. unfold try_parse_args. intros -> ->. by destruct args. Qed.

Lemma parse_compile_line args ls f b :
  forallb clean_arg args = true ->
  parse_header_lines ((lit "// compile-flags:" ++ spaced args) :: ls) f [] b
  = parse_header_lines ls f args b.
Proof.
  intros Hc. assert (forall pat, pat ∈ header_patterns -> contains pat (spaced args) = false) as Hp
    by (intros; by apply spaced_patterns).
  cbn [parse_header_lines]. change (trim_start (lit "// compile-flags:" ++ spaced args))
    with (lit "// compile-flags:" ++ spaced args).
  change (is_empty (lit "// compile-flags:" ++ spaced args)) with false.
  change (starts_with (lit "//") (lit "// compile-flags:" ++ spaced args)) with true. cbn [negb].
  rewrite no_fail_step; [| apply (Hp (lit "rmc-check-fail")) | apply (Hp (lit "rmc-codegen-fail"))
    | apply (Hp (lit "rmc-verify-fail"))]; [|by apply (bool_decide_unpack _)..].
  cbn [mbind outcome_bind]. rewrite (some_args "compile" (lit "// compile-flags:") (spaced args) args);
    [|reflexivity|apply flags_parsed; [done|by apply (bool_decide_unpack _)]].
  cbn [mbind outcome_bind]. rewrite no_args; [done|]. apply (Hp (lit "rmc-flags:")). by apply (bool_decide_unpack _).
Qed.

Lemma parse_rmc_line args ls f a :
  forallb clean_arg args = true ->
  parse_header_lines ((lit "// rmc-flags:" ++ spaced args) :: ls) f a []
  = parse_header_lines ls f a args.
Proof.
  intros Hc. assert (forall pat, pat ∈ header_patterns -> contains pat (spaced args) = false) as Hp
    by (intros; by apply spaced_patterns).
  cbn [parse_header_lines]. change (trim_start (lit "// rmc-flags:" ++ spaced args))
    with (lit "// rmc-flags:" ++ spaced args).
  change (is_empty (lit "// rmc-flags:" ++ spaced args)) with false.
  change (starts_with (lit "//") (lit "// rmc-flags:" ++ spaced args)) with true. cbn [negb].
  rewrite no_fail_step; [| apply (Hp (lit "rmc-check-fail")) | apply (Hp (lit "rmc-codegen-fail"))
    | apply (Hp (lit "rmc-verify-fail"))]; [|by apply (bool_decide_unpack _)..].
  cbn [mbind outcome_bind]. rewrite (no_args a "compile"); [|apply (Hp (lit "compile-flags:")); by apply (bool_decide_unpack _)].
  cbn [mbind outcome_bind]. rewrite (some_args "rmc" (lit "// rmc-flags:") (spaced args) args);
    [done|reflexivity|apply flags_parsed; [done|by apply (bool_decide_unpack _)]].
Qed.

(** ** What a header means *)

(** The comment lines before the code *)
Fixpoint header_lines (ls : list text) : list text :=
  match ls with
  | [] => []
  | l :: ls =>
      let l := trim_start l in
      if is_empty l then header_lines ls
      else if negb (starts_with (lit "//") l) then []
      else l :: header_lines ls
  end.

(** What a line says on its own *)
Definition line_step (l : text) : list FailStep :=
  match try_parse_fail_step None l with Ok (Some s) => [s] | _ => [] end.
Definition given (args : list text) : list (list text) := match args with [] => [] | _ => [args] end.
Definition line_args (name : string) (l : text) : list (list text) :=
  match try_parse_args [] name l with Ok args => given args | Panic => [] end.

Definition at_most_one {A} (l : list A) : outcome (option A) :=
  match l with
  | [] => Ok None
  | [a] => Ok (Some a)
  | _ => Panic
  end.

Lemma fail_step_one cur l (r : list FailStep) :
  match try_parse_fail_step cur l with
  | Ok f => at_most_one (option_list cur ++ line_step l ++ r) = at_most_one (option_list f ++ r)
  | Panic => at_most_one (option_list cur ++ line_step l ++ r) = Panic
  end.
Proof.
  unfold line_step, try_parse_fail_step. destruct (if contains _ l then _ else _) as [s|], cur; done.
Qed.

Lemma args_one cur name l r :
  match try_parse_args cur name l with
  | Ok a => at_most_one (given cur ++ line_args name l ++ r) = at_most_one (given a ++ r)
  | Panic => at_most_one (given cur ++ line_args name l ++ r) = Panic
  end.
Proof.
  unfold line_args, try_parse_args. cbv zeta. destruct (match drop 1 _ with [] => _ | _ => _ end), cur; done.
Qed.

Lemma parse_header_lines_exact ls f a b :
  parse_header_lines ls f a b
  = (let hs := header_lines ls in
     s ← at_most_one (option_list f ++ concat (map line_step hs));
     x ← at_most_one (given a ++ concat (map (line_args "compile") hs));
     y ← at_most_one (given b ++ concat (map (line_args "rmc") hs));
     Ok (s, default [] x, default [] y)).
Proof.
  assert (forall (f : option FailStep) a b, (s ← at_most_one (option_list f ++ []); x ← at_most_one (given a ++ []);
            y ← at_most_one (given b ++ []); Ok (s, default [] x, default [] y)) = Ok (f, a, b)) as Hend
    by (by intros [] [] []).
  cbv zeta. revert f a b. induction ls as [|l ls IH]; intros f a b; [by rewrite Hend|].
  cbn [parse_header_lines header_lines]. destruct (is_empty _); [apply IH|].
  destruct (negb _); [by rewrite Hend|]. cbn [map concat].
  pose proof (fail_step_one f (trim_start l) (concat (map line_step (header_lines ls)))) as Hf.
  pose proof (args_one a "compile" (trim_start l) (concat (map (line_args "compile") (header_lines ls)))) as Ha.
  pose proof (args_one b "rmc" (trim_start l) (concat (map (line_args "rmc") (header_lines ls)))) as Hb.
  destruct (try_parse_fail_step f _) as [f'|]; cbn [mbind outcome_bind]; [|by rewrite Hf].
  destruct (try_parse_args a _ _) as [a'|]; cbn [mbind outcome_bind].
  2:{ rewrite Ha. by destruct (at_most_one (option_list f ++ _)). }
  destruct (try_parse_args b _ _) as [b'|]; cbn [mbind outcome_bind].
  - by rewrite IH, Hf, Ha, Hb.
  - rewrite Hb. destruct (at_most_one (option_list f ++ _)); cbn [mbind outcome_bind]; [|done].
    by destruct (at_most_one (given a ++ _)).
Qed.

(** ** Printing, then parsing *)

Lemma display_args_spaced header args :
  args <> [] -> display_args header args = (lit header ++ spaced args) ++ [newline].
Proof.
  intros Ha. unfold display_args. rewrite bool_decide_eq_false_2 by done. by rewrite app_assoc.
Qed.

Lemma literal_line s : forallb (fun c => negb (newline =? c)%N && negb (carriage_return =? c)%N) (lit s) = true ->
  line_like (lit s).
Proof.
  intros Hs. split; apply Forall_forall; intros c Hc%list_elem_of_In;
    apply (proj1 (forallb_forall _ _) Hs) in Hc; apply andb_true_iff in Hc as [Hn Hr];
    by apply negb_true_iff.
Qed.

Lemma lines_of_args header args rest :
  forallb clean_arg args = true -> line_like (lit header) ->
  buf_lines (display_args header args ++ rest)
  = (if bool_decide (args = []) then [] else [lit header ++ spaced args]) ++ buf_lines rest.
Proof.
  intros Hc Hl. case_bool_decide as He; [by subst|]. rewrite display_args_spaced, <- app_assoc by done.
  cbn [app]. rewrite buf_lines_cons; [done|]. apply line_like_app; [done|].
  apply spaced_line. by apply clean_args_spec.
Qed.

Lemma parse_displayed p q code :
  clean_props p = true -> no_header (buf_lines code) = true ->
  parse_header q (display_props p ++ code)
  = Ok (mkTestProps q (fail_step p) (rustc_args p) (rmc_args p)).
Proof.
  intros [Hc Hr]%andb_true_iff Hcode. unfold parse_header.
  assert (forall f, parse_header_lines (buf_lines (display_args "// compile-flags:" (rustc_args p)
             ++ display_args "// rmc-flags:" (rmc_args p) ++ code)) f [] []
           = Ok (f, rustc_args p, rmc_args p)) as Hargs.
  { intros f. rewrite !lines_of_args by (done || by apply literal_line). case_bool_decide as Ha.
    - rewrite Ha. cbn [app]. case_bool_decide as Hb; [rewrite Hb; by apply no_header_stops|].
      cbn [app]. rewrite parse_rmc_line by done. by apply no_header_stops.
    - cbn [app]. rewrite parse_compile_line by done. case_bool_decide as Hb.
      + rewrite Hb. by apply no_header_stops.
      + cbn [app]. rewrite parse_rmc_line by done. by apply no_header_stops. }
  unfold display_props. rewrite <- !app_assoc. destruct (fail_step p) as [s|]; [|by rewrite Hargs].
  replace (buf_lines _) with ((lit "// rmc-" ++ display_fail_step s ++ lit "-fail")
    :: buf_lines (display_args "// compile-flags:" (rustc_args p) ++ display_args "// rmc-flags:" (rmc_args p) ++ code)).
  { by rewrite parse_fail_step_line, Hargs. }
  rewrite <- (buf_lines_cons (lit "// rmc-" ++ display_fail_step s ++ lit "-fail")).
  - f_equal. by rewrite <- !app_assoc.
  - destruct s; repeat apply line_like_app; by apply literal_line.
Qed.

(** ** Properties *)

(** C40. The properties of a test are read back exactly as they were written in front of its
    code, provided that no argument contains white space or looks like a header, and that the
    code does not itself start with a comment. *)
Theorem header_roundtrip (p : TestProps) (code : text) :
  clean_props p = true -> no_header (buf_lines code) = true ->
  parse_header (test_path p) (display_props p ++ code) = Ok p.
Proof. intros Hp Hc. rewrite parse_displayed by done. by destruct p. Qed.

Definition sample_props : TestProps :=
  mkTestProps (path_of ["src"; "test"; "bookrunner"; "12.rs"]) (Some Verification)
    [lit "--edition"; lit "2018"] [lit "--unwind"].
Definition sample_code : text := lit "fn main() {}" ++ [newline].

Lemma header_roundtrip_witness :
  parse_header (test_path sample_props) (display_props sample_props ++ sample_code) = Ok sample_props.
Proof. apply (header_roundtrip sample_props sample_code); vm_compute; reflexivity. Defined.

(** What the parser makes of a file depends only on the comment lines before the code: it
    is the one step and the one list of arguments of each kind that they give, in any of the
    lines, and it panics exactly when one of the three is given twice. *)
Theorem header_meaning (p : path) (contents : text) :
  parse_header p contents
  = (let hs := header_lines (buf_lines contents) in
     s ← at_most_one (concat (map line_step hs));
     x ← at_most_one (concat (map (line_args "compile") hs));
     y ← at_most_one (concat (map (line_args "rmc") hs));
     Ok (mkTestProps p s (default [] x) (default [] y))).
Proof.
  unfold parse_header. rewrite parse_header_lines_exact. cbv zeta.
  change (option_list None ++ ?l) with l. cbn [given app].
  destruct (at_most_one (concat (map line_step _))); cbn [mbind outcome_bind]; [|done].
  destruct (at_most_one (concat (map (line_args "compile") _))); cbn [mbind outcome_bind]; [|done].
  by destruct (at_most_one (concat (map (line_args "rmc") _))).
Qed.

(** The jobs of a test: the steps up to the one that should fail, in order.  Each step waits
    for the phony output of the step before it, only the last one may be expected to fail, and it is exactly when
    the test has a failing step. *)
Theorem pipeline_chain (p : TestProps) :
  let js := test_pipeline p in
  map stage js = take (length js) [lit "check"; lit "codegen"; lit "verification"]
  /\ (forall i j j', js !! i = Some j -> js !! S i = Some j' ->
        inputs j' = outputs j /\ exit_status j = 0%N)
  /\ (exists j, last js = Some j /\ (exit_status j = 0%N <-> fail_step p = None)
                /\ stage j = match fail_step p with
                             | Some Check => lit "check"
                             | Some Codegen => lit "codegen"
                             | _ => lit "verification"
                             end).
Proof.
  unfold test_pipeline. destruct p as [pt [[]|] ra ma]; cbn [fail_step].
  all: repeat (first [rewrite bool_decide_eq_true_2 by done | rewrite bool_decide_eq_false_2 by done]).
  all: split; [reflexivity|]; split; [|by eexists; split; [reflexivity|split; [|reflexivity]]].
  all: intros [|[|[|i]]] j j' Hj Hj'; cbn in Hj, Hj'; simplify_eq; done.
Qed.
