(* ===== verification/BookReport.v ===== *)
(** * The report of the book runner ([src/tools/bookrunner]: [bookrunner.rs], the report of
    [books.rs])

    Litani's results, one per test, are collected in a tree that has a node per chapter,
    section and test, with the number of tests below it that passed and failed.  The
    numbers are [u32]; adding them is checked, as in a build with overflow checks.  Reading
    Litani's JSON is outside: the pipelines of a run are a list.

    The theorems: the numbers of every node are those of the tests below it, and no two
    children of a node have the same name ([report_counts]); the report is made whenever the
    results are well-formed ([report_total]). *)

From S2P Require Import Prelude Unicode Text.

(** ** [bookrunner.rs] *)

Record Node := mkNode { name : text; num_pass : N; num_fail : N }.

Inductive Tree := mkTree (data : Node) (children : list Tree).
Definition data (t : Tree) : Node := match t with mkTree d _ => d end.
Definition children (t : Tree) : list Tree := match t with mkTree _ cs => cs end.

Definition u32_max : N := 4294967295.
Definition u32_add (a b : N) : outcome N := if (a + b <=? u32_max)%N then Ok (a + b)%N else Panic.

(** [children.iter().position(..)] *)
Fixpoint position (n : text) (ts : list Tree) : option nat :=
  match ts with
  | [] => None
  | t :: ts => if bool_decide (name (data t) = n) then Some 0%nat else S <$> position n ts
  end.

(** [Tree::merge].  Taking a subtree out of the list and inserting the merged one at the same
    index is an update of the list; [None] inside is the early return of [?]. *)
Fixpoint merge (l r : Tree) {struct r} : outcome (option Tree) :=
  match r with
  | mkTree rd rc =>
      if bool_decide (name (data l) <> name rd) then Ok None
      else
        lc ← (fix go (rc : list Tree) (lc : list Tree) : outcome (option (list Tree)) :=
                match rc with
                | [] => Ok (Some lc)
                | cnr :: rc =>
                    match position (name (data cnr)) lc with
                    | Some index =>
                        cnl ← unwrap (lc !! index);
                        m ← merge cnl cnr;
                        match m with
                        | Some t => go rc (<[index := t]> lc)
                        | None => Ok None
                        end
                    | None => go rc (lc ++ [cnr])
                    end
                end) rc (children l);
        match lc with
        | None => Ok None
        | Some lc =>
            pass ← u32_add (num_pass (data l)) (num_pass rd);
            fail ← u32_add (num_fail (data l)) (num_fail rd);
            Ok (Some (mkTree (mkNode (name (data l)) pass fail) lc))
        end
  end.

(** [fmt_aux]: the text of a tree, indented by [p] *)
Fixpoint fmt_aux (p : nat) (t : Tree) : text :=
  match t with
  | mkTree d cs =>
      match cs with
      | [] => []
      | _ =>
          replicate p space ++ name d
          ++ (if (0 <? num_pass d)%N then lit " " ++ [10004; 65039]%N ++ lit " " ++ dec (num_pass d) else [])
          ++ (if (0 <? num_fail d)%N then lit " " ++ [10060]%N ++ lit " " ++ dec (num_fail d) else [])
          ++ [newline]
          ++ concat (map (fmt_aux (p + 2)%nat) cs)
      end
  end.
Definition display_tree (t : Tree) : text := fmt_aux 0%nat t.

(** ** [litani.rs]: what is read of a run *)

Record LitaniPipeline := mkPipeline { pipeline_name : text; status : text }.

Definition get_status (p : LitaniPipeline) : outcome bool :=
  if bool_decide (status p = lit "fail") then Ok false
  else if bool_decide (status p = lit "success") then Ok true
  else Panic.

(** ** [books.rs]: the report *)

(** The loop pops the names off the end of the path; [rev_path] is the path backwards. *)
Fixpoint wrap_tree (rev_path : list text) (t : Tree) : Tree :=
  match rev_path with
  | [] => t
  | n :: rest => wrap_tree rest (mkTree (mkNode n (num_pass (data t)) (num_fail (data t))) [t])
  end.
Definition tree_from_path (p : list text) (result : bool) : outcome Tree :=
  match reverse p with
  | [] => Panic
  | n :: rest =>
      Ok (wrap_tree rest (mkTree (mkNode n (if result then 1 else 0) (if result then 0 else 1)) []))
  end.

Fixpoint index_of_text (s : text) (l : list text) : option nat :=
  match l with
  | [] => None
  | t :: l => if bool_decide (t = s) then Some 0%nat else S <$> index_of_text s l
  end.

Definition is_separator (c : N) : bool := (c =? 47)%N || (c =? dot)%N.

Definition parse_log_line (p : LitaniPipeline) : outcome (list text * bool) :=
  l ← get_status p;
  let ns := split_on is_separator (pipeline_name p) in
  dash_index ← unwrap (index_of_text (lit "bookrunner") ns);
  let ns := drop dash_index ns in
  Ok (take (length ns - 1)%nat ns, l).

Definition add_result (tests : Tree) (p : LitaniPipeline) : outcome Tree :=
  r ← parse_log_line p;
  t ← tree_from_path r.1 r.2;
  m ← merge tests t;
  unwrap m.

Definition empty_report : Tree := mkTree (mkNode (lit "bookrunner") 0 0) [].

Fixpoint add_results (tests : Tree) (ps : list LitaniPipeline) : outcome Tree :=
  match ps with
  | [] => Ok tests
  | p :: ps => tests ← add_result tests p; add_results tests ps
  end.
Definition parse_litani_output (pipelines : list LitaniPipeline) : outcome Tree :=
  add_results empty_report pipelines.

Definition generate_text_bookrunner (t : Tree) : outcome text :=
  total ← u32_add (num_pass (data t)) (num_fail (data t));
  Ok (lit "# of tests: " ++ dec total ++ [9; 10004; 65039]%N ++ lit " " ++ dec (num_pass (data t))
      ++ [9; 10060]%N ++ lit " " ++ dec (num_fail (data t)) ++ [newline] ++ display_tree t).

(** ** Trees *)

Section TreeInd.
Context (P : Tree -> Prop) (Hnode : forall d cs, Forall P cs -> P (mkTree d cs)).
Fixpoint tree_ind (t : Tree) : P t :=
  match t with
  | mkTree d cs => Hnode d cs ((fix go cs := match cs return Forall P cs with
                                             | [] => Forall_nil_2 P
                                             | c :: cs => Forall_cons_2 P c cs (tree_ind c) (go cs)
                                             end) cs)
  end.
End TreeInd.

(** The number that the nodes at a path carry *)
Section Counts.
Context (g : Node -> N).
Fixpoint at_path (p : list text) (t : Tree) : N :=
  match p with
  | [] => 0
  | n :: p' =>
      if bool_decide (name (data t) = n) then
        match p' with
        | [] => g (data t)
        | _ => foldr (fun c acc => at_path p' c + acc)%N 0%N (children t)
        end
      else 0%N
  end.
Definition sum_at (p : list text) (cs : list Tree) : N :=
  foldr (fun c acc => at_path p c + acc)%N 0%N cs.
End Counts.

Definition tname (t : Tree) : text := name (data t).

(** The loop of [merge] over the subtrees of [r] *)
Fixpoint merge_children (rc lc : list Tree) : outcome (option (list Tree)) :=
  match rc with
  | [] => Ok (Some lc)
  | cnr :: rc =>
      match position (name (data cnr)) lc with
      | Some index =>
          cnl ← unwrap (lc !! index);
          m ← merge cnl cnr;
          match m with
          | Some t => merge_children rc (<[index := t]> lc)
          | None => Ok None
          end
      | None => merge_children rc (lc ++ [cnr])
      end
  end.

Lemma merge_eq l rd rc :
  merge l (mkTree rd rc)
  = if bool_decide (name (data l) <> name rd) then Ok None
    else lc ← merge_children rc (children l);
         match lc with
         | None => Ok None
         | Some lc =>
             pass ← u32_add (num_pass (data l)) (num_pass rd);
             fail ← u32_add (num_fail (data l)) (num_fail rd);
             Ok (Some (mkTree (mkNode (name (data l)) pass fail) lc))
         end.
Proof. reflexivity. Qed.

Lemma position_Some n ts i : position n ts = Some i -> exists t, ts !! i = Some t /\ tname t = n.
Proof.
  revert i. induction ts as [|t ts IH]; intros i; cbn; [done|]. case_bool_decide as Hn.
  - intros [= <-]. by exists t.
  - intros (j & Hj & ->)%fmap_Some. by apply IH.
Qed.
Lemma position_None n ts : position n ts = None -> n ∉ map tname ts.
Proof.
  induction ts as [|t ts IH]; cbn; [intros _; apply not_elem_of_nil|]. case_bool_decide as Hn; [done|].
  intros Hp%fmap_None. rewrite not_elem_of_cons. split; [done | by apply IH].
Qed.

Lemma u32_add_ok a b c : u32_add a b = Ok c <-> c = (a + b)%N /\ (a + b <= u32_max)%N.
Proof. unfold u32_add. destruct (N.leb_spec (a + b) u32_max); split; naive_solver lia. Qed.

(** What a successful merge did *)
Lemma merge_ok l rd rc t :
  merge l (mkTree rd rc) = Ok (Some t) ->
  name (data l) = name rd
  /\ exists lc, merge_children rc (children l) = Ok (Some lc)
     /\ t = mkTree (mkNode (name (data l)) (num_pass (data l) + num_pass rd)%N
                      (num_fail (data l) + num_fail rd)%N) lc.
Proof.
  rewrite merge_eq. case_bool_decide as Hn; [done|].
  intros ([lc|] & Hlc & Hrun)%bind_ok; [|done]. split; [done|]. exists lc. split; [done|].
  apply bind_ok in Hrun as (a & [-> _]%u32_add_ok & Hrun).
  apply bind_ok in Hrun as (b & [-> _]%u32_add_ok & [= <-]). done.
Qed.

(** A property of lists of trees that holds of what the loop makes, one subtree at a time *)
Lemma merge_children_ind (Q : list Tree -> list Tree -> list Tree -> Prop) :
  (forall lc, Q [] lc lc) ->
  (forall cnr rc lc lc', tname cnr ∉ map tname lc -> Q rc (lc ++ [cnr]) lc' -> Q (cnr :: rc) lc lc') ->
  (forall cnr rc lc lc' i cnl t, lc !! i = Some cnl -> tname cnl = tname cnr ->
     merge cnl cnr = Ok (Some t) -> Q rc (<[i := t]> lc) lc' -> Q (cnr :: rc) lc lc') ->
  forall rc lc lc', merge_children rc lc = Ok (Some lc') -> Q rc lc lc'.
Proof.
  intros Hnil Hnew Hold. induction rc as [|cnr rc IH]; intros lc lc'; cbn [merge_children].
  - intros [= <-]. apply Hnil.
  - destruct (position _ lc) as [i|] eqn:Hp.
    + intros (cnl & Hl & ([t|] & Hm & Hrun)%bind_ok)%bind_ok; [|done].
      destruct (position_Some _ _ _ Hp) as (cnl' & Hl' & Hn). rewrite Hl' in Hl. injection Hl as ->.
      eapply Hold; [done..|by apply IH].
    + intros Hrun. apply Hnew; [by apply position_None | by apply IH].
Qed.

(** ** Counting *)

Section Adds.
Context (g : Node -> N) (Hg : g = num_pass \/ g = num_fail).

Lemma sum_at_cons p t l : sum_at g p (t :: l) = (at_path g p t + sum_at g p l)%N.
Proof. done. Qed.
Lemma sum_at_app p l l' : sum_at g p (l ++ l') = (sum_at g p l + sum_at g p l')%N.
Proof. unfold sum_at. induction l as [|t l IH]; cbn; [done|]. rewrite IH. lia. Qed.

Lemma sum_at_insert p l i t t' :
  l !! i = Some t -> (sum_at g p (<[i := t']> l) + at_path g p t = sum_at g p l + at_path g p t')%N.
Proof.
  revert i. induction l as [|x l IH]; intros [|i] Hl; try done.
  - injection Hl as ->. change (<[0%nat := t']> (t :: l)) with (t' :: l). rewrite !sum_at_cons. lia.
  - change (<[S i := t']> (x :: l)) with (x :: <[i := t']> l). rewrite !sum_at_cons. apply IH in Hl. lia.
Qed.

Lemma at_path_children n p t : p <> [] -> tname t = n -> at_path g (n :: p) t = sum_at g p (children t).
Proof. intros Hp Hn. cbn. rewrite bool_decide_eq_true_2 by done. by destruct p. Qed.

Lemma merge_adds r : forall l t p,
  merge l r = Ok (Some t) -> at_path g p t = (at_path g p l + at_path g p r)%N.
Proof.
  induction r as [rd rc IH] using tree_ind. intros l t p (Hn & lc & Hlc & ->)%merge_ok.
  destruct p as [|n p]; [done|]. destruct (decide (name rd = n)) as [<-|Hne].
  2:{ cbn. rewrite !bool_decide_eq_false_2 by congruence. done. }
  destruct p as [|m p].
  - cbn. rewrite !bool_decide_eq_true_2 by done. destruct Hg as [-> | ->]; done.
  - rewrite !at_path_children by done. cbn [children]. revert IH. pattern rc, (children l), lc.
    revert Hlc. apply merge_children_ind; clear -Hg.
    + intros lc _. by rewrite N.add_0_r.
    + intros cnr rc lc lc' _ Hq [_ IH]%Forall_cons. rewrite Hq, sum_at_app, !sum_at_cons by done.
      change (sum_at g (m :: p) []) with 0%N. lia.
    + intros cnr rc lc lc' i cnl t Hl _ Hm Hq [IHr IH]%Forall_cons. rewrite Hq by done.
      apply (sum_at_insert (m :: p) _ _ _ t) in Hl. rewrite (IHr _ _ (m :: p) Hm) in Hl.
      rewrite sum_at_cons. lia.
Qed.
End Adds.

(** ** Shape *)

(** No two children of a node have the same name. *)
Inductive unique : Tree -> Prop :=
| unique_node d cs : NoDup (map tname cs) -> Forall unique cs -> unique (mkTree d cs).

Lemma merge_name r l t : merge l r = Ok (Some t) -> tname t = tname l.
Proof. destruct r. intros (_ & lc & _ & ->)%merge_ok. done. Qed.

Lemma names_insert (lc : list Tree) i cnl t :
  lc !! i = Some cnl -> tname t = tname cnl -> map tname (<[i := t]> lc) = map tname lc.
Proof.
  intros Hl Hn. change (map tname) with (fmap (M := list) tname).
  rewrite list_fmap_insert. apply list_insert_id. rewrite list_lookup_fmap, Hl. cbn. by rewrite Hn.
Qed.

Lemma merge_unique r : forall l t, unique l -> unique r -> merge l r = Ok (Some t) -> unique t.
Proof.
  induction r as [rd rc IH] using tree_ind. intros l t Hl Hr (_ & lc & Hlc & ->)%merge_ok.
  destruct l as [ld lc0]. inversion Hl as [? ? Hn Hu]; subst. inversion Hr as [? ? _ Hur]; subst.
  cbn [children] in Hlc. assert (NoDup (map tname lc) /\ Forall unique lc) as [? ?]; [|by constructor].
  clear -IH Hlc Hn Hu Hur. revert IH Hn Hu Hur. pattern rc, lc0, lc. revert Hlc.
  apply merge_children_ind; clear.
  - done.
  - intros cnr rc lc lc' Hnew Hq [_ IH]%Forall_cons Hn Hu [Hc Hur]%Forall_cons. apply Hq; [done| |..]; [| |done].
    + rewrite map_app. apply NoDup_app. split; [done|]. split; [|apply NoDup_singleton].
      intros x Hx ->%list_elem_of_singleton. done.
    + apply Forall_app. by split; [|constructor].
  - intros cnr rc lc lc' i cnl t Hl Hcn Hm Hq [IHc IH]%Forall_cons Hn Hu [Hc Hur]%Forall_cons.
    apply Hq; [done| | |done].
    + by rewrite (names_insert lc i cnl t Hl (merge_name _ _ _ Hm)).
    + apply Forall_insert; [done|]. apply (IHc cnl); [exact (Forall_lookup_1 _ _ _ _ Hu Hl)|done|done].
Qed.

(** Every number in a tree is at most [k]. *)
Inductive bounded (k : N) : Tree -> Prop :=
| bounded_node d cs : (num_pass d <= k)%N -> (num_fail d <= k)%N -> Forall (bounded k) cs ->
    bounded k (mkTree d cs).

Lemma bounded_mono k k' t : (k <= k')%N -> bounded k t -> bounded k' t.
Proof.
  intros Hk. induction t as [d cs IH] using tree_ind. inversion 1 as [? ? Hp Hf Hc]; subst.
  constructor; [lia|lia|]. clear -IH Hc. induction IH; [constructor|]. inversion Hc; subst. constructor; auto.
Qed.

(** Merging trees with the same root only fails when a number does not fit [u32]. *)
Definition merges (a b : N) (r : Tree) : Prop :=
  forall l, tname l = tname r -> bounded a l -> exists t, merge l r = Ok (Some t) /\ bounded (a + b) t.

Lemma merge_children_total a b rc :
  Forall (merges a b) rc -> Forall (bounded b) rc -> NoDup (map tname rc) ->
  forall lc, Forall (fun t => bounded (a + b) t /\ (tname t ∈ map tname rc -> bounded a t)) lc ->
  exists lc', merge_children rc lc = Ok (Some lc') /\ Forall (bounded (a + b)) lc'.
Proof.
  intros IH Hrc Hnd. induction rc as [|cnr rc IHrc]; intros lc Hlc; cbn [merge_children].
  { exists lc. split; [done|]. eapply Forall_impl; [done|]. naive_solver. }
  apply Forall_cons in IH as [IHc IH], Hrc as [Hc Hrc]. apply NoDup_cons in Hnd as [Hnin Hnd].
  assert (Forall (fun t => bounded (a + b) t /\ (tname t ∈ map tname rc -> bounded a t)) lc) as Hlc'.
  { eapply Forall_impl; [exact Hlc|]. intros t [Ht Hin]. split; [done|]. intros Hx. apply Hin. by right. }
  destruct (position _ lc) as [i|] eqn:Hp.
  - destruct (position_Some _ _ _ Hp) as (cnl & Hl & Hn). rewrite Hl. cbn [unwrap mbind outcome_bind].
    destruct (Forall_lookup_1 _ _ _ _ Hlc Hl) as [_ Hcnl].
    destruct (IHc cnl Hn) as (t & Hm & Hb); [apply Hcnl; rewrite Hn; left|].
    rewrite Hm. apply IHrc; [done..|]. apply Forall_insert; [done|]. split; [done|].
    rewrite (merge_name _ _ _ Hm), Hn. intros Hin. by destruct Hnin.
  - apply IHrc; [done..|]. apply Forall_app. split; [done|]. constructor; [|constructor].
    split; [eapply bounded_mono; [|done]; lia|]. intros Hin. by destruct Hnin.
Qed.

Lemma merge_total a b r : unique r -> bounded b r -> (a + b <= u32_max)%N -> merges a b r.
Proof.
  induction r as [rd rc IH] using tree_ind. intros Hu Hr Hab l Hn Hl.
  destruct l as [ld lc]. inversion Hl as [? ? Hlp Hlf Hlc]; subst. inversion Hr as [? ? Hrp Hrf Hrc]; subst.
  inversion Hu as [? ? Hnd Hus]; subst.
  destruct (merge_children_total a b rc) with (lc := lc) as (lc' & Hm & Hb); [|done|done| |].
  - clear -IH Hus Hrc Hab. induction IH as [|c rc Hc _ IH]; [constructor|].
    apply Forall_cons in Hus as [? ?], Hrc as [? ?]. constructor; auto.
  - eapply Forall_impl; [exact Hlc|]. intros t Ht. split; [|done]. eapply bounded_mono; [|done]. lia.
  - exists (mkTree (mkNode (name ld) (num_pass ld + num_pass rd)%N (num_fail ld + num_fail rd)%N) lc').
    split; [|constructor; cbn; [lia|lia|done]]. rewrite merge_eq. cbn [data children].
    rewrite bool_decide_eq_false_2 by (intros Hx; by apply Hx). rewrite Hm. cbn [mbind outcome_bind].
    rewrite (proj2 (u32_add_ok (num_pass ld) (num_pass rd) _)) by (split; [reflexivity|lia]).
    cbn [mbind outcome_bind].
    by rewrite (proj2 (u32_add_ok (num_fail ld) (num_fail rd) _)) by (split; [reflexivity|lia]).
Qed.

(** ** The tree of one test *)

Lemma wrap_snoc ns n t :
  wrap_tree (ns ++ [n]) t
  = mkTree (mkNode n (num_pass (data (wrap_tree ns t))) (num_fail (data (wrap_tree ns t)))) [wrap_tree ns t].
Proof. revert t. induction ns as [|m ns IH]; intros t; cbn; [done|]. by rewrite IH. Qed.

Definition leaf (x : text) (result : bool) : Tree :=
  mkTree (mkNode x (if result then 1 else 0)%N (if result then 0 else 1)%N) [].

(** The chain of nodes along a path, from the root *)
Fixpoint chain (ns : list text) (x : text) (result : bool) : Tree :=
  match ns with
  | [] => leaf x result
  | n :: ns => mkTree (mkNode n (if result then 1 else 0)%N (if result then 0 else 1)%N) [chain ns x result]
  end.

Lemma chain_data ns x result :
  num_pass (data (chain ns x result)) = (if result then 1 else 0)%N
  /\ num_fail (data (chain ns x result)) = (if result then 0 else 1)%N.
Proof. by destruct ns. Qed.

Lemma wrap_chain ns x result : wrap_tree (reverse ns) (leaf x result) = chain ns x result.
Proof.
  induction ns as [|n ns IH]; [done|]. rewrite reverse_cons, wrap_snoc, IH. cbn [chain].
  destruct (chain_data ns x result) as [-> ->]. done.
Qed.

Lemma tree_from_path_ok p result t :
  tree_from_path p result = Ok t <-> exists ns x, p = ns ++ [x] /\ t = chain ns x result.
Proof.
  unfold tree_from_path. split.
  - destruct (reverse p) as [|x rest] eqn:E; [done|]. intros [= <-]. exists (reverse rest), x.
    apply (f_equal reverse) in E. rewrite reverse_involutive, reverse_cons in E. split; [done|].
    rewrite <- wrap_chain, reverse_involutive. done.
  - intros (ns & x & -> & ->). rewrite reverse_snoc, <- wrap_chain. done.
Qed.

Lemma chain_unique ns x result : unique (chain ns x result).
Proof.
  induction ns as [|n ns IH]; cbn; constructor; cbn; [constructor|done|apply NoDup_singleton|by constructor].
Qed.
Lemma chain_bounded ns x result : bounded 1 (chain ns x result).
Proof. induction ns as [|n ns IH]; cbn; constructor; cbn; try (by destruct result); by constructor. Qed.

(** A test counts at each of its prefixes. *)
Lemma chain_counts g ns x result p :
  g = num_pass \/ g = num_fail -> p <> [] ->
  at_path g p (chain ns x result)
  = if decide (p `prefix_of` (ns ++ [x])) then g (data (leaf x result)) else 0%N.
Proof.
  intros Hg. revert p. induction ns as [|n ns IH]; intros [|m p] Hp; try done; cbn [chain app].
  - cbn [at_path leaf data name children]. destruct (decide (x = m)) as [->|Hne].
    + rewrite bool_decide_eq_true_2 by done. destruct p as [|m' p].
      * by rewrite decide_True by (by apply prefix_cons, prefix_nil).
      * rewrite decide_False; [done|]. intros Hx%prefix_cons_inv_2. by apply prefix_nil_inv in Hx.
    + rewrite bool_decide_eq_false_2 by done. rewrite decide_False; [done|].
      intros Hx%prefix_cons_inv_1. congruence.
  - cbn [at_path data name children]. destruct (decide (n = m)) as [->|Hne].
    + rewrite bool_decide_eq_true_2 by done. destruct p as [|m' p].
      * rewrite decide_True by (apply prefix_cons, prefix_nil). by destruct Hg as [-> | ->], result.
      * cbn [foldr]. rewrite N.add_0_r, IH by done.
        destruct (decide ((m' :: p) `prefix_of` (ns ++ [x]))) as [Hx|Hx].
        -- by rewrite decide_True by (by apply prefix_cons).
        -- rewrite decide_False; [done|]. by intros ?%prefix_cons_inv_2.
    + rewrite bool_decide_eq_false_2 by done. rewrite decide_False; [done|].
      intros Hx%prefix_cons_inv_1. congruence.
Qed.

(** ** Reports *)

(** The number of a node for a result *)
Definition num (result : bool) : Node -> N := if result then num_pass else num_fail.
Lemma num_cases result : num result = num_pass \/ num result = num_fail.
Proof. destruct result; auto. Qed.

(** The tests with a result that lie below a path *)
Definition tests_below (result : bool) (p : list text) (rs : list (list text * bool)) : list (list text * bool) :=
  filter (fun r => r.2 = result /\ p `prefix_of` r.1) rs.

Lemma merge_chain result p tests ns x r t :
  p <> [] -> merge tests (chain ns x r) = Ok (Some t) ->
  at_path (num result) p t
  = (at_path (num result) p tests + N.of_nat (length (tests_below result p [(ns ++ [x], r)])))%N.
Proof.
  intros Hp Hm. rewrite (merge_adds _ (num_cases result) _ _ _ _ Hm). f_equal.
  rewrite (chain_counts _ _ _ _ _ (num_cases result) Hp). unfold tests_below.
  destruct (decide (p `prefix_of` (ns ++ [x]))) as [Hx|Hx].
  - destruct result, r; first [rewrite filter_cons_True by done | rewrite filter_cons_False by naive_solver]; done.
  - by rewrite filter_cons_False by naive_solver.
Qed.

Lemma add_result_ok tests q t :
  add_result tests q = Ok t ->
  exists ns x r, parse_log_line q = Ok (ns ++ [x], r) /\ merge tests (chain ns x r) = Ok (Some t).
Proof.
  unfold add_result. intros ([p r] & Hq & Hrun)%bind_ok.
  apply bind_ok in Hrun as (t1 & (ns & x & Hp & ->)%tree_from_path_ok & Hrun). cbn in *. subst p.
  apply bind_ok in Hrun as ([t2|] & Hm & [= ->]). by exists ns, x, r.
Qed.

Lemma map_outcome_cons {A B} (f : A -> outcome B) a l b r :
  f a = Ok b -> map_outcome f l = Ok r -> map_outcome f (a :: l) = Ok (b :: r).
Proof. unfold map_outcome. cbn. by intros -> ->. Qed.

Lemma add_results_counts ps tests t :
  add_results tests ps = Ok t ->
  exists rs, map_outcome parse_log_line ps = Ok rs
    /\ (forall result p, p <> [] ->
          at_path (num result) p t
          = (at_path (num result) p tests + N.of_nat (length (tests_below result p rs)))%N)
    /\ (unique tests -> unique t) /\ tname t = tname tests.
Proof.
  revert tests. induction ps as [|q ps IH]; intros tests; cbn [add_results].
  - intros [= <-]. exists []. split; [done|]. split; [|done]. intros. cbn. lia.
  - intros (t1 & (ns & x & r & Hq & Hm)%add_result_ok & Hrun)%bind_ok.
    destruct (IH _ Hrun) as (rs & Hrs & Hc & Hu & Hn). exists ((ns ++ [x], r) :: rs).
    split; [by apply map_outcome_cons|]. split; [|split].
    + intros result p Hp. rewrite Hc, (merge_chain _ _ _ _ _ _ _ Hp Hm) by done.
      change ((ns ++ [x], r) :: rs) with ([(ns ++ [x], r)] ++ rs). unfold tests_below.
      rewrite filter_app, length_app. lia.
    + intros Ht. apply Hu. eapply merge_unique; [exact Ht|apply chain_unique|exact Hm].
    + rewrite Hn. by eapply merge_name.
Qed.

Lemma add_results_total ps rs :
  map_outcome parse_log_line ps = Ok rs ->
  Forall (fun r => exists ns, r.1 = lit "bookrunner" :: ns) rs ->
  forall tests k, tname tests = lit "bookrunner" -> bounded k tests ->
  (k + N.of_nat (length ps) <= u32_max)%N -> exists t, add_results tests ps = Ok t.
Proof.
  revert rs. induction ps as [|q ps IH]; intros rs Hrs Hb tests k Hn Hk Hle; [by eexists|].
  unfold map_outcome in Hrs. cbn in Hrs. apply bind_ok in Hrs as ([p r] & Hq & (rs' & Hrs & [= <-])%bind_ok).
  apply Forall_cons in Hb as [[ns Hp] Hb]. cbn in Hp. subst p.
  destruct (exists_last (l := lit "bookrunner" :: ns)) as (ns' & x & Ex); [done|].
  assert (tname tests = tname (chain ns' x r)) as Hname.
  { rewrite Hn. destruct ns' as [|n ns']; cbn in Ex; injection Ex; by intros _ <-. }
  cbn [length] in Hle.
  destruct (merge_total k 1 (chain ns' x r)) with (l := tests) as (t & Hm & Ht);
    [apply chain_unique | apply chain_bounded | lia | done | done |].
  destruct (IH rs' Hrs Hb t (k + 1)%N) as (t' & Ht'); [|done|lia|].
  { by rewrite (merge_name _ _ _ Hm). }
  exists t'. cbn [add_results]. unfold add_result. rewrite Hq. cbn [mbind outcome_bind fst snd].
  rewrite (proj2 (tree_from_path_ok _ _ _)) by (by exists ns', x). cbn [mbind outcome_bind]. by rewrite Hm.
Qed.

(** ** Properties *)

(** C39. The report counts every test once: the numbers of passed and failed tests of each chapter,
    section or test are those of the results whose path goes through it, whatever the order
    of the results, and no two entries of a level have the same name. *)
Theorem report_counts (ps : list LitaniPipeline) (t : Tree) :
  parse_litani_output ps = Ok t ->
  unique t /\ tname t = lit "bookrunner"
  /\ exists rs, map_outcome parse_log_line ps = Ok rs
     /\ forall result p, p <> [] ->
          at_path (num result) p t = N.of_nat (length (tests_below result p rs)).
Proof.
  intros (rs & Hrs & Hc & Hu & Hn)%add_results_counts. split; [apply Hu; repeat constructor|].
  split; [done|]. exists rs. split; [done|]. intros result p Hp. rewrite Hc by done.
  assert (at_path (num result) p empty_report = 0%N) as ->; [|done].
  destruct p as [|n [|m p]]; [done| |]; cbn; case_bool_decide; by destruct result.
Qed.

Definition sample_run : list LitaniPipeline :=
  [mkPipeline (lit "src/test/bookrunner/books/The Rustonomicon/Races/7.rs") (lit "success");
   mkPipeline (lit "src/test/bookrunner/books/The Rustonomicon/Races/31.rs") (lit "fail");
   mkPipeline (lit "src/test/bookrunner/books/The Rustonomicon/Vec/9.rs") (lit "success")].

Lemma report_counts_witness :
  exists t, parse_litani_output sample_run = Ok t
    /\ at_path num_pass [lit "bookrunner"; lit "books"; lit "The Rustonomicon"] t = 2%N
    /\ at_path num_fail [lit "bookrunner"; lit "books"; lit "The Rustonomicon"; lit "Races"] t = 1%N.
Proof.
  destruct (parse_litani_output sample_run) as [t|] eqn:E; [|vm_compute in E; discriminate E].
  destruct (report_counts sample_run t E) as (_ & _ & rs & Hrs & Hc). exists t. split; [reflexivity|].
  vm_compute in Hrs. injection Hrs as <-. split; [rewrite (Hc true) | rewrite (Hc false)]; vm_compute; reflexivity || discriminate.
Defined.

(** A report is made whenever every pipeline has a result and a path below the directory
    of the tests, and there are at most [u32::MAX] of them: merging trees with the same root
    never fails. *)
Theorem report_total (ps : list LitaniPipeline) (rs : list (list text * bool)) :
  map_outcome parse_log_line ps = Ok rs ->
  Forall (fun r => exists ns, r.1 = lit "bookrunner" :: ns) rs ->
  (N.of_nat (length ps) <= u32_max)%N -> exists t, parse_litani_output ps = Ok t.
Proof.
  intros Hrs Hb Hle. eapply (add_results_total ps rs Hrs Hb empty_report 0); [done| |lia].
  by constructor.
Qed.

Lemma report_total_witness : exists t, parse_litani_output sample_run = Ok t.
Proof.
  destruct (map_outcome parse_log_line sample_run) as [rs|] eqn:E; [|vm_compute in E; discriminate E].
  apply (report_total sample_run rs E); [|discriminate]. vm_compute in E. injection E as <-.
  repeat constructor; eexists; reflexivity.
Defined.

(** A dot in the title of a chapter adds a level to the report. *)
Example title_dot_splits :
  parse_log_line (mkPipeline (lit "src/test/bookrunner/books/Guide/Rust 2.0/7.rs") (lit "fail"))
  = Ok (map lit ["bookrunner"; "books"; "Guide"; "Rust 2"; "0"; "7"], false).
Proof. vm_compute. reflexivity. Qed.
