(* ===== verification/Books.v ===== *)
(** * Extracting the examples of the Rust books ([src/tools/bookrunner/src/books.rs])

    A book is a set of Markdown files.  Its table of contents, or the directories it consists
    of, say where the examples of each file go ([hierarchy]); every example is changed by the
    edits of its configuration file, made into a program, given a header with its properties
    and written out.  Then every test below [src/test/bookrunner] gets its jobs.

    Outside are the Markdown parser, rustdoc's search for code blocks and its [make_test], the
    case conversions and the TOML reader: the class [BookTools].  Files are a finite map from
    paths to texts; a walk over a directory is the list of its entries.

    The theorems: the hierarchy of a table of contents and of a directory is the expected one
    ([summary_hierarchy], [directory_hierarchy]), the header of an example that was written is
    read back by the runner ([example_header]), edits can be undone ([edits_undo]), and a book
    is accepted only if all its configuration files were used ([configs_used]). *)

From S2P Require Import Prelude Unicode Text BookTests BookReport.

(** ** Editions ([rustc_span]) *)

Inductive Edition := Edition2015 | Edition2018 | Edition2021.
Definition display_edition (e : Edition) : text :=
  match e with
  | Edition2015 => lit "2015"
  | Edition2018 => lit "2018"
  | Edition2021 => lit "2021"
  end.
Definition edition_from_str (s : text) : option Edition :=
  if bool_decide (s = lit "2015") then Some Edition2015
  else if bool_decide (s = lit "2018") then Some Edition2018
  else if bool_decide (s = lit "2021") then Some Edition2021
  else None.

(** ** What the runner takes from elsewhere *)

(** The events of the Markdown parser that matter here *)
Inductive Event :=
| EndItem
| EndLink (target : text)
| TextEvent (t : text)
| CodeEvent (t : text)
| OtherEvent.

Inductive Ignore := IgnoreAll | IgnoreNone | IgnoreSome (targets : list text).
Record LangString := mkLangString {
  should_panic : bool;
  ignore : Ignore;
  compile_fail : bool;
  edition : option Edition;
}.

Class BookTools := {
  (** [pulldown_cmark::Parser] *)
  markdown : text -> list Event;
  (** [rustdoc::html::markdown::find_testable_code]: the arguments of the calls of [add_test] *)
  find_testable_code : text -> list (text * LangString * N);
  (** [rustdoc::doctest::make_test] *)
  make_test : text -> Edition -> text;
  (** [inflector] *)
  to_title_case : text -> text;
  to_snake_case : text -> text;
  (** the string at [rust.edition] of a TOML file; [None] if the file cannot be read *)
  toml_edition : text -> option (option text);
  (** the order of a [HashMap] *)
  hierarchy_iter : gmap path path -> list (path * path);
  hierarchy_iter_Permutation m : hierarchy_iter m ≡ₚ map_to_list m;
}.

(** An entry of a directory walk: its path and whether it is a directory *)
Definition WalkEntry : Type := path * bool.

(** ** Books *)

Record SummaryData := mkSummaryData { summary_path : path; summary_start : text }.
Record DirectoryData := mkDirectoryData { src : path; dest : path }.

Record Book := mkBook {
  book_name : text;
  default_edition : Edition;
  summary_data : option SummaryData;
  directory_data : option DirectoryData;
  toml_path : path;
  hierarchy : gmap path path;
}.
Definition set_hierarchy (b : Book) (h : gmap path path) : Book :=
  mkBook (book_name b) (default_edition b) (summary_data b) (directory_data b) (toml_path b) h.
Definition set_edition (b : Book) (e : Edition) : Book :=
  mkBook (book_name b) e (summary_data b) (directory_data b) (toml_path b) (hierarchy b).

Definition books_dir : list string := ["src"; "test"; "bookrunner"; "books"].

Definition setup_book (book title dir intro : string) : Book :=
  mkBook (lit book) Edition2015
    (Some (mkSummaryData (path_of ["src"; "doc"; dir; "src"; "SUMMARY.md"])
             (lit title ++ [newline; newline] ++ lit "[Introduction](" ++ lit intro ++ lit ")")))
    None (path_of ["src"; "doc"; dir; "book.toml"])
    {[ path_of ["src"; "doc"; dir; "src"; intro] := path_of (books_dir ++ [book; "Introduction"]) ]}.
Definition setup_reference_book : Book :=
  setup_book "The Rust Reference" "# The Rust Reference" "reference" "introduction.md".
Definition setup_nomicon_book : Book := setup_book "The Rustonomicon" "# Summary" "nomicon" "intro.md".
Definition setup_rust_by_example_book : Book :=
  setup_book "Rust by Example" "# Summary" "rust-by-example" "index.md".
Definition setup_unstable_book : Book :=
  mkBook (lit "The Rust Unstable Book") Edition2015 None
    (Some (mkDirectoryData (path_of ["src"; "doc"; "unstable-book"; "src"])
             (path_of (books_dir ++ ["The Unstable Book"]))))
    (path_of ["src"; "doc"; "unstable-book"; "book.toml"]) ∅.

Section Books.
Context `{BookTools}.

(** *** [parse_hierarchy_with_summary] *)

Record SummaryState := mkSummaryState {
  hierarchy_path : path;
  prev_event_is_text_or_code : bool;
  entries : gmap path path;
}.

Definition problematic : text := [47; 40; 41; 39]%N.

Definition summary_event (summary_dir : path) (s : SummaryState) (e : Event) : outcome SummaryState :=
  match e with
  | EndItem => Ok (mkSummaryState (path_pop (hierarchy_path s)) false (entries s))
  | EndLink target =>
      let full_path := foldl path_push summary_dir (split_on (N.eqb slash) target) in
      Ok (mkSummaryState (hierarchy_path s) false (<[full_path := hierarchy_path s]> (entries s)))
  | TextEvent t | CodeEvent t =>
      let t := replace_chars problematic (lit "_") t in
      if prev_event_is_text_or_code s then
        prev_text ← unwrap (file_name (hierarchy_path s));
        Ok (mkSummaryState (path_push (path_pop (hierarchy_path s)) (prev_text ++ t)) true (entries s))
      else Ok (mkSummaryState (path_push (hierarchy_path s) t) true (entries s))
  | OtherEvent => Ok s
  end.

Fixpoint summary_events (summary_dir : path) (s : SummaryState) (es : list Event) : outcome SummaryState :=
  match es with
  | [] => Ok s
  | e :: es => s ← summary_event summary_dir s e; summary_events summary_dir s es
  end.

Definition parse_hierarchy_with_summary (fs : files) (b : Book) : outcome Book :=
  sd ← unwrap (summary_data b);
  let summary_dir := path_pop (summary_path sd) in
  summary ← unwrap (fs !! summary_path sd);
  assert! starts_with (summary_start sd) summary;
  let n := length (markdown (summary_start sd)) in
  let start := path_of books_dir ++ components (book_name b) in
  s ← summary_events summary_dir (mkSummaryState start false (hierarchy b)) (drop n (markdown summary));
  Ok (set_hierarchy b (entries s)).

(** *** [parse_hierarchy_without_summary] *)

(** The loop that goes back to the directory of an entry *)
Fixpoint back_up (n : nat) (entry src_prefix dest_prefix : path) : path * path :=
  match n with
  | O => (src_prefix, dest_prefix)
  | S n =>
      if path_starts_with src_prefix entry then (src_prefix, dest_prefix)
      else back_up n entry (path_pop src_prefix) (path_pop dest_prefix)
  end.

Definition walk_entry (exists_ : path -> bool) (st : path * path * gmap path path) (e : WalkEntry)
    : outcome (path * path * gmap path path) :=
  let '(src_prefix, dest_prefix, h) := st in
  let entry := e.1 in
  let '(src_prefix, dest_prefix) := back_up (length src_prefix) entry src_prefix dest_prefix in
  if e.2 then
    n ← unwrap (file_name entry);
    Ok (path_push src_prefix n, path_push dest_prefix (to_title_case n), h)
  else if bool_decide (extension entry = Some (lit "md")) then
    entry_stem ← unwrap (file_stem entry);
    if exists_ (path_push src_prefix entry_stem) then
      Ok (src_prefix, dest_prefix, <[entry := path_push dest_prefix (to_title_case entry_stem)]> h)
    else
      Ok (src_prefix, dest_prefix, <[entry := path_push dest_prefix (to_snake_case entry_stem)]> h)
  else Ok (src_prefix, dest_prefix, h).

Fixpoint walk_entries (exists_ : path -> bool) (st : path * path * gmap path path) (es : list WalkEntry)
    : outcome (path * path * gmap path path) :=
  match es with
  | [] => Ok st
  | e :: es => st ← walk_entry exists_ st e; walk_entries exists_ st es
  end.

Definition parse_hierarchy_without_summary (exists_ : path -> bool) (walk : path -> list WalkEntry)
    (b : Book) : outcome Book :=
  dd ← unwrap (directory_data b);
  r ← walk_entries exists_ (src dd, dest dd, hierarchy b) (walk (src dd));
  Ok (set_hierarchy b r.2).

(** *** [parse_hierarchy] *)

Definition get_rust_edition (fs : files) (b : Book) : outcome (option Edition) :=
  file ← unwrap (fs !! toml_path b);
  attr ← unwrap (toml_edition file);
  match attr with
  | Some s => e ← unwrap (edition_from_str s); Ok (Some e)
  | None => Ok None
  end.

Definition parse_hierarchy (fs : files) (exists_ : path -> bool) (walk : path -> list WalkEntry)
    (b : Book) : outcome Book :=
  b ← (match summary_data b with
       | Some _ => assert! negb (bool_decide (is_Some (directory_data b)));
                   parse_hierarchy_with_summary fs b
       | None => assert! bool_decide (is_Some (directory_data b));
                 parse_hierarchy_without_summary exists_ walk b
       end);
  e ← get_rust_edition fs b;
  Ok (set_edition b (default Edition2015 e)).

(** *** Examples *)

Record Example_ := mkExample { code : text; line : N; config : LangString }.

(** [impl Tester for Examples] *)
Definition add_test (examples : list Example_) (t : text * LangString * N) : list Example_ :=
  let '(test, config, line) := t in
  match ignore config with
  | IgnoreAll => examples
  | _ => examples ++ [mkExample test line config]
  end.

(** An edit of a [.diff] file; lines are counted from 0 here *)
Inductive Edit := InsertLine (at_ : N) (diff : text) | RemoveLine (at_ : N).

Definition parse_edit (l : text) : outcome Edit :=
  let split := splitn 3 space l in
  symbol ← unwrap (split !! 0%nat);
  number ← unwrap (split !! 1%nat);
  n ← unwrap (parse_usize number);
  at_ ← u64_sub n 1;
  if bool_decide (symbol = lit "+") then
    diff ← unwrap (split !! 2%nat); Ok (InsertLine at_ diff)
  else Ok (RemoveLine at_).

(** [Vec::insert] and [Vec::remove] panic out of range. *)
Definition apply_edit (e : Edit) (code_lines : list text) : outcome (list text) :=
  match e with
  | InsertLine at_ diff =>
      assert! (at_ <=? N.of_nat (length code_lines))%N;
      Ok (take (N.to_nat at_) code_lines ++ diff :: drop (N.to_nat at_) code_lines)
  | RemoveLine at_ =>
      assert! (at_ <? N.of_nat (length code_lines))%N;
      Ok (take (N.to_nat at_) code_lines ++ drop (S (N.to_nat at_)) code_lines)
  end.

Fixpoint apply_diff_lines (ls : list text) (code_lines : list text) : outcome (list text) :=
  match ls with
  | [] => Ok code_lines
  | l :: ls => e ← parse_edit l; code_lines ← apply_edit e code_lines; apply_diff_lines ls code_lines
  end.

Definition test_dir : path := path_of ["src"; "test"; "bookrunner"].
Definition config_dir : path := path_of ["src"; "tools"; "bookrunner"; "configs"].

(** The configuration file of an example, with extension [ext] *)
Definition config_path (p : path) (line : N) (ext : string) : outcome path :=
  rest ← unwrap (path_strip_prefix test_dir p);
  Ok (config_dir ++ rest ++ [dec line ++ lit ext]).

Definition apply_diff (fs : files) (p : path) (ex : Example_) (config_paths : gset path)
    : outcome (Example_ * gset path) :=
  diff_path ← config_path p (line ex) ".diff";
  match fs !! diff_path with
  | Some diff =>
      code_lines ← apply_diff_lines (lines diff) (lines (code ex));
      Ok (mkExample (join [newline] code_lines) (line ex) (config ex), config_paths ∖ {[diff_path]})
  | None => Ok (ex, config_paths)
  end.

(** The properties of an example *)
Definition example_props (props : TestProps) (c : LangString) (e : Edition) : TestProps :=
  mkTestProps (test_path props)
    (match fail_step props with
     | Some s => Some s
     | None => if compile_fail c then Some Check
               else if should_panic c then Some Verification else None
     end)
    (rustc_args props ++ [lit "--edition"; display_edition e]) (rmc_args props).

Definition prepend_props (fs : files) (p : path) (ex : Example_) (config_paths : gset path)
    : outcome (Example_ * gset path) :=
  props_path ← config_path p (line ex) ".props";
  r ← (match fs !! props_path with
       | Some contents =>
           props ← parse_header props_path contents; Ok (props, config_paths ∖ {[props_path]})
       | None => Ok (mkTestProps p None [] [], config_paths)
       end);
  e ← unwrap (edition (config ex));
  Ok (mkExample (display_props (example_props r.1 (config ex) e) ++ code ex) (line ex) (config ex), r.2).

(** The body of the loop of [extract] *)
Definition extract_example (default_edition : Edition) (par_to : path)
    (st : files * gset path) (ex : Example_) : outcome (files * gset path) :=
  let '(fs, config_paths) := st in
  r ← apply_diff fs par_to ex config_paths;
  let '(ex, config_paths) := (r : Example_ * gset path) in
  let e := default default_edition (edition (config ex)) in
  let c := mkLangString (should_panic (config ex)) (ignore (config ex)) (compile_fail (config ex)) (Some e) in
  let ex := mkExample (make_test (code ex) e) (line ex) c in
  r ← prepend_props fs par_to ex config_paths;
  let '(ex, config_paths) := (r : Example_ * gset path) in
  Ok (<[par_to ++ [dec (line ex) ++ lit ".rs"] := code ex]> fs, config_paths).

Fixpoint extract_examples_of (default_edition : Edition) (par_to : path) (st : files * gset path)
    (exs : list Example_) : outcome (files * gset path) :=
  match exs with
  | [] => Ok st
  | ex :: exs => st ← extract_example default_edition par_to st ex;
                 extract_examples_of default_edition par_to st exs
  end.

Definition extract (par_from par_to : path) (default_edition : Edition) (st : files * gset path)
    : outcome (files * gset path) :=
  code ← unwrap (st.1 !! par_from);
  extract_examples_of default_edition par_to st (foldl add_test [] (find_testable_code code)).

Definition get_config_paths (fs : files) (name : text) : gset path :=
  dom (filter (fun kv : path * text =>
                 path_starts_with (path_push (config_dir ++ [lit "books"]) name) kv.1 = true) fs).

Fixpoint extract_all (default_edition : Edition) (hs : list (path * path)) (st : files * gset path)
    : outcome (files * gset path) :=
  match hs with
  | [] => Ok st
  | (par_from, par_to) :: hs =>
      st ← extract par_from par_to default_edition st; extract_all default_edition hs st
  end.

(** [Book::extract_examples] *)
Definition extract_examples (fs : files) (b : Book) : outcome files :=
  r ← extract_all (default_edition b) (hierarchy_iter (hierarchy b)) (fs, get_config_paths fs (book_name b));
  assert! bool_decide (r.2 = ∅);
  Ok r.1.

(** *** Running the tests *)

Definition run_test `{CommandDebug} (fs : files) (l : Litani) (e : WalkEntry) : outcome Litani :=
  if negb e.2 && bool_decide (extension e.1 = Some (lit "rs")) then
    props ← parse_test_header fs e.1; Ok (add_test_pipeline l props)
  else Ok l.
Fixpoint run_tests `{CommandDebug} (fs : files) (l : Litani) (es : list WalkEntry) : outcome Litani :=
  match es with
  | [] => Ok l
  | e :: es => l ← run_test fs l e; run_tests fs l es
  end.
Definition litani_run_tests `{CommandDebug} (fs : files) (walk : path -> list WalkEntry) : outcome Litani :=
  l ← run_tests fs (mkLitani [] 0) (walk test_dir);
  Ok (run_build l).

(** *** [generate_run]

    The file system answers what exists and what a directory contains; [results] is what
    Litani writes to [run.json] after a build. *)

Definition generate_book (exists_ : files -> path -> bool) (walk : files -> path -> list WalkEntry)
    (fs : files) (b : Book) : outcome files :=
  b ← parse_hierarchy fs (exists_ fs) (walk fs) b;
  extract_examples fs b.

Fixpoint generate_books (exists_ : files -> path -> bool) (walk : files -> path -> list WalkEntry)
    (fs : files) (bs : list Book) : outcome files :=
  match bs with
  | [] => Ok fs
  | b :: bs => fs ← generate_book exists_ walk fs b; generate_books exists_ walk fs bs
  end.

Definition generate_run `{CommandDebug} (exists_ : files -> path -> bool)
    (walk : files -> path -> list WalkEntry) (results : files -> Litani -> outcome (list LitaniPipeline))
    (fs : files) : outcome (files * text) :=
  fs ← generate_books exists_ walk fs
         [setup_reference_book; setup_nomicon_book; setup_unstable_book; setup_rust_by_example_book];
  l ← litani_run_tests fs (walk fs);
  pipelines ← results fs l;
  report ← parse_litani_output pipelines;
  t ← generate_text_bookrunner report;
  Ok (fs, t).
End Books.

(** ** Names *)

(** A text that is one component of a path *)
Definition valid_name (s : text) : Prop :=
  is_name s /\ s <> lit ".." /\ no_char (N.eqb slash) s.
#[export] Instance valid_name_dec s : Decision (valid_name s) := _.

Lemma valid_name_app r s : valid_name r -> no_char (N.eqb slash) s -> valid_name (r ++ s).
Proof.
  intros ([Hr Hd] & Hdd & Hn) Hs. unfold valid_name, is_name. change (lit ".") with [46%N] in *.
  change (lit "..") with [46%N; 46%N] in *. split; [|split; [|by apply Forall_app]].
  - split; [by destruct r|]. intros E. destruct r as [|c [|d r]]; cbn in E; [done| |discriminate E].
    destruct s; [by apply Hd|discriminate E].
  - intros E. destruct r as [|c [|d [|e r]]]; cbn in E; [done| | |discriminate E].
    + injection E as -> _. by apply Hd.
    + destruct s; [by apply Hdd|discriminate E].
Qed.

Lemma path_push_name p s : valid_name s -> path_push p s = p ++ [s].
Proof.
  intros ([Hr Hd] & Hdd & Hn). unfold path_push, components.
  assert (starts_with (lit "/") s = false) as ->.
  { destruct s as [|c s]; [done|]. apply Forall_cons in Hn as [Hc _].
    unfold starts_with. change (lit "/") with [slash]. cbn [strip]. by rewrite Hc. }
  rewrite split_on_none by done. cbn [app]. by rewrite filter_cons_True.
Qed.

Lemma path_pop_snoc p n : path_pop (p ++ [n]) = p.
Proof. unfold path_pop. rewrite length_app. cbn [length]. by rewrite Nat.add_sub, take_app_length. Qed.

Lemma file_name_snoc p n : n <> lit ".." -> file_name (p ++ [n]) = Some n.
Proof. intros Hn. unfold file_name. rewrite last_snoc. cbn. by rewrite bool_decide_eq_false_2. Qed.

Lemma replaced_no_slash t : no_char (N.eqb slash) (replace_chars problematic (lit "_") t).
Proof.
  unfold replace_chars. induction t as [|c t IH]; [constructor|]. cbn [map concat].
  apply Forall_app. split; [|exact IH]. case_bool_decide as Hc; [by repeat constructor|].
  constructor; [|constructor]. apply N.eqb_neq. intros <-. destruct Hc. left.
Qed.

(** ** Tables of contents *)

(** A chapter: its title, in pieces of text and code, the file it links to, its sections *)
Inductive Chapter := mkChapter (title : list (bool * text)) (link : text) (sections : list Chapter).

Definition title_event (part : bool * text) : Event :=
  if part.1 then CodeEvent part.2 else TextEvent part.2.

(** The events of an item of a list: the start of the item and of the link, the title, the end
    of the link, the list of the sections, the end of the item *)
Fixpoint chapter_events (c : Chapter) : list Event :=
  match c with
  | mkChapter title link sections =>
      [OtherEvent; OtherEvent] ++ map title_event title ++ [EndLink link]
      ++ [OtherEvent] ++ concat (map chapter_events sections) ++ [OtherEvent; EndItem]
  end.

Definition title_part (part : bool * text) : text := replace_chars problematic (lit "_") part.2.
Definition title_name (title : list (bool * text)) : text := concat (map title_part title).

Definition link_path (dir : path) (link : text) : path :=
  foldl path_push dir (split_on (N.eqb slash) link).

(** Where the examples of a chapter and its sections should go *)
Fixpoint chapter_entries (dir p : path) (c : Chapter) : list (path * path) :=
  match c with
  | mkChapter title link sections =>
      (link_path dir link, p ++ [title_name title])
      :: concat (map (chapter_entries dir (p ++ [title_name title])) sections)
  end.

(** Titles start with something that can be the name of a directory. *)
Inductive valid_chapter : Chapter -> Prop :=
| valid_chapter_node part title link sections :
    valid_name (title_part part) -> Forall valid_chapter sections ->
    valid_chapter (mkChapter (part :: title) link sections).

Definition insert_all (h : gmap path path) (l : list (path * path)) : gmap path path :=
  foldl (fun h kv => <[kv.1 := kv.2]> h) h l.

Section ChapterInd.
Context (P : Chapter -> Prop) (Hnode : forall t l cs, Forall P cs -> P (mkChapter t l cs)).
Fixpoint chapter_ind (c : Chapter) : P c :=
  match c with
  | mkChapter t l cs => Hnode t l cs ((fix go cs := match cs return Forall P cs with
                                                    | [] => Forall_nil_2 P
                                                    | c :: cs => Forall_cons_2 P c cs (chapter_ind c) (go cs)
                                                    end) cs)
  end.
End ChapterInd.

Section Summary.
Context `{BookTools} (dir : path).

(** The pieces of a title after the first one are added to the name. *)
Lemma title_run title es : forall n p h, valid_name n ->
  summary_events dir (mkSummaryState (p ++ [n]) true h) (map title_event title ++ es)
  = summary_events dir (mkSummaryState (p ++ [n ++ title_name title]) true h) es.
Proof.
  induction title as [|part title IH]; intros n p h Hn; cbn [map app].
  { change (title_name []) with (@nil N). by rewrite app_nil_r. }
  change (title_name (part :: title)) with (title_part part ++ title_name title). rewrite app_assoc.
  rewrite <- (IH (n ++ title_part part)) by (apply valid_name_app; [done|apply replaced_no_slash]).
  cbn [summary_events]. destruct part as [[] t]; cbn [title_event summary_event fst snd
    prev_event_is_text_or_code hierarchy_path entries];
    (rewrite file_name_snoc by apply Hn; cbn [unwrap mbind outcome_bind]; rewrite path_pop_snoc;
     rewrite path_push_name by (apply valid_name_app; [done|apply replaced_no_slash])); done.
Qed.

(** A chapter leaves its path and adds its entries. *)
Definition runs_chapter (c : Chapter) : Prop := forall p h es,
  summary_events dir (mkSummaryState p false h) (chapter_events c ++ es)
  = summary_events dir (mkSummaryState p false (insert_all h (chapter_entries dir p c))) es.

Lemma chapters_run cs : Forall runs_chapter cs -> forall p h es,
  summary_events dir (mkSummaryState p false h) (concat (map chapter_events cs) ++ es)
  = summary_events dir (mkSummaryState p false (insert_all h (concat (map (chapter_entries dir p) cs)))) es.
Proof.
  induction 1 as [|c cs Hc _ IH]; intros p h es; [done|].
  cbn [map concat]. rewrite <- app_assoc, Hc, IH. unfold insert_all. by rewrite foldl_app.
Qed.

Lemma chapter_run c : valid_chapter c -> runs_chapter c.
Proof.
  induction c as [title link sections IH] using chapter_ind. intros Hv p h es.
  inversion Hv as [part title' ? ? Hn Hs]; subst. cbn [chapter_events]. rewrite <- !app_assoc.
  cbn [app map summary_events summary_event mbind outcome_bind].
  assert (summary_event dir (mkSummaryState p false h) (title_event part)
          = Ok (mkSummaryState (p ++ [title_part part]) true h)) as ->.
  { destruct part as [[] t]; cbn; by rewrite path_push_name. }
  cbn [mbind outcome_bind]. rewrite title_run by done.
  cbn [app summary_events summary_event mbind outcome_bind hierarchy_path entries].
  rewrite chapters_run.
  - cbn [summary_events summary_event mbind outcome_bind hierarchy_path entries].
    by rewrite path_pop_snoc.
  - clear -IH Hs. induction IH as [|c cs Hc _ IH]; [constructor|]. apply Forall_cons in Hs as [? ?].
    constructor; auto.
Qed.
End Summary.

(** ** Directories *)

Inductive DirEntry := FileEntry (name : text) | SubDir (name : text) (contents : list DirEntry).
Definition entry_name (e : DirEntry) : text :=
  match e with FileEntry n | SubDir n _ => n end.

(** The depth-first walk over an entry of directory [d] *)
Fixpoint listing (d : path) (e : DirEntry) : list WalkEntry :=
  match e with
  | FileEntry n => [(d ++ [n], false)]
  | SubDir n es => (d ++ [n], true) :: concat (map (listing (d ++ [n])) es)
  end.

Section DirInd.
Context (P : DirEntry -> Prop) (Hf : forall n, P (FileEntry n))
  (Hd : forall n es, Forall P es -> P (SubDir n es)).
Fixpoint dir_ind (e : DirEntry) : P e :=
  match e with
  | FileEntry n => Hf n
  | SubDir n es => Hd n es ((fix go es := match es return Forall P es with
                                          | [] => Forall_nil_2 P
                                          | e :: es => Forall_cons_2 P e es (dir_ind e) (go es)
                                          end) es)
  end.
End DirInd.

Section Directory.
Context `{BookTools} (exists_ : path -> bool).

(** Where the examples of the files of an entry should go: directories become titles, files
    become titles or names depending on whether there is a directory of their name. *)
Fixpoint dir_entries (d D : path) (e : DirEntry) : list (path * path) :=
  match e with
  | FileEntry n =>
      if bool_decide (extension (d ++ [n]) = Some (lit "md")) then
        let stem := default [] (file_stem (d ++ [n])) in
        [(d ++ [n], path_push D (if exists_ (path_push d stem) then to_title_case stem
                                 else to_snake_case stem))]
      else []
  | SubDir n es => concat (map (dir_entries (d ++ [n]) (D ++ [to_title_case n])) es)
  end.

(** Names are names, also as titles, and differ within a directory. *)
Inductive valid_entry : DirEntry -> Prop :=
| valid_file n : valid_name n -> valid_entry (FileEntry n)
| valid_subdir n es : valid_name n -> valid_name (to_title_case n) ->
    NoDup (map entry_name es) -> Forall valid_entry es -> valid_entry (SubDir n es).

Lemma strip_prefix_app (a b : path) : path_strip_prefix a (a ++ b) = Some b.
Proof. induction a as [|x a IH]; cbn; [done|]. by rewrite bool_decide_eq_true_2. Qed.
Lemma strip_prefix_differs (d suf p : path) x y :
  x <> y -> path_strip_prefix (d ++ x :: suf) (d ++ y :: p) = None.
Proof.
  intros Hne. induction d as [|z d IH]; cbn; [by rewrite bool_decide_eq_false_2|].
  by rewrite bool_decide_eq_true_2.
Qed.

(** Going back from a subdirectory to the directory of an entry *)
Lemma back_up_to d D suf suf' n p :
  length suf = length suf' -> (forall x, head suf = Some x -> x <> n) ->
  forall k, (length suf <= k)%nat -> back_up k (d ++ n :: p) (d ++ suf) (D ++ suf') = (d, D).
Proof.
  revert suf'. induction suf as [|x suf IH] using rev_ind; intros suf' Hlen Hne k Hk.
  - destruct suf' as [|]; [|done]. rewrite !app_nil_r. destruct k as [|k]; [done|]. cbn [back_up].
    unfold path_starts_with. by rewrite strip_prefix_app.
  - rewrite length_app in Hlen, Hk. cbn [length] in Hlen, Hk. destruct k as [|k]; [lia|]. cbn [back_up].
    assert (path_starts_with (d ++ suf ++ [x]) (d ++ n :: p) = false) as ->.
    { unfold path_starts_with. destruct suf as [|y suf]; cbn [app] in *; by rewrite strip_prefix_differs by auto. }
    destruct suf' as [|x' suf' _] using rev_ind; [cbn in Hlen; lia|].
    rewrite length_app in Hlen. cbn [length] in Hlen. rewrite !app_assoc, !path_pop_snoc.
    apply IH; [lia| |lia]. intros z Hz. apply Hne. by destruct suf.
Qed.

(** An entry leaves the prefixes somewhere below it and adds its files. *)
Definition walks (e : DirEntry) : Prop := forall d D suf suf' h es,
  length suf = length suf' -> (forall x, head suf = Some x -> x <> entry_name e) ->
  exists suf2 suf2', length suf2 = length suf2' /\ (forall x, head suf2 = Some x -> x = entry_name e)
    /\ walk_entries exists_ (d ++ suf, D ++ suf', h) (listing d e ++ es)
       = walk_entries exists_ (d ++ suf2, D ++ suf2', insert_all h (dir_entries d D e)) es.

Lemma walk_list es : Forall walks es -> NoDup (map entry_name es) ->
  forall d D suf suf' h rest,
  length suf = length suf' -> (forall x, head suf = Some x -> x ∉ map entry_name es) ->
  exists suf2 suf2', length suf2 = length suf2'
    /\ walk_entries exists_ (d ++ suf, D ++ suf', h) (concat (map (listing d) es) ++ rest)
       = walk_entries exists_ (d ++ suf2, D ++ suf2', insert_all h (concat (map (dir_entries d D) es))) rest.
Proof.
  induction 1 as [|e es He _ IH]; intros Hnd d D suf suf' h rest Hlen Hh; [by exists suf, suf'|].
  cbn [map concat] in *. apply NoDup_cons in Hnd as [Hnin Hnd]. rewrite <- app_assoc.
  destruct (He d D suf suf' h (concat (map (listing d) es) ++ rest) Hlen)
    as (s2 & s2' & Hl2 & Hh2 & ->).
  { intros x Hx ->. apply (Hh _ Hx). left. }
  destruct (IH Hnd d D s2 s2' (insert_all h (dir_entries d D e)) rest Hl2) as (s3 & s3' & Hl3 & ->).
  { by intros x ->%Hh2. }
  exists s3, s3'. split; [done|]. unfold insert_all. by rewrite foldl_app.
Qed.

Lemma entry_walks e : valid_entry e -> walks e.
Proof.
  induction e as [n|n es IH] using dir_ind; intros Hv d D suf suf' h rest Hlen Hh;
    inversion Hv as [? Hn|? ? Hn Ht Hnd Hes]; subst; cbn [listing entry_name] in *;
    cbn [app walk_entries]; unfold walk_entry; cbn [fst snd];
    (rewrite back_up_to by (done || (rewrite length_app; lia))).
  - exists [], []. split; [done|]. split; [done|]. rewrite !app_nil_r. cbn [dir_entries].
    case_bool_decide as Hx; [|done]. unfold extension in Hx.
    destruct (file_name (d ++ [n])) as [f|] eqn:Hf; [|done].
    assert (file_stem (d ++ [n]) = Some (split_file_name f).1) as -> by (unfold file_stem; by rewrite Hf).
    cbn [unwrap mbind outcome_bind default]. by destruct (exists_ _).
  - rewrite file_name_snoc by apply Hn. cbn [unwrap mbind outcome_bind].
    rewrite !path_push_name by done.
    destruct (walk_list es) with (d := d ++ [n]) (D := D ++ [to_title_case n]) (suf := @nil text)
      (suf' := @nil text) (h := h) (rest := rest) as (s2 & s2' & Hl2 & E); [|done|done|done|].
    { clear -IH Hes. induction IH as [|e es He _ IH]; [constructor|]. apply Forall_cons in Hes as [? ?].
      constructor; auto. }
    rewrite !app_nil_r in E. exists (n :: s2), (to_title_case n :: s2').
    split; [cbn; by rewrite Hl2|]. split; [by intros x [= <-]|].
    etransitivity; [exact E|]. by rewrite <- !app_assoc.
Qed.
End Directory.

(** ** Examples *)

Section Extraction.
Context `{BookTools}.

Lemma unwrapped {A} (o : option A) a : unwrap o = Ok a -> o = Some a.
Proof. destruct o; cbn; congruence. Qed.

Lemma unwrap_some {A} (o : option A) a : o = Some a -> unwrap o = Ok a.
Proof. by intros ->. Qed.

Lemma edition_clean e : clean_arg (display_edition e) = true.
Proof. by destruct e; vm_compute. Qed.

Lemma example_props_clean props c e :
  clean_props props = true -> clean_props (example_props props c e) = true.
Proof.
  unfold clean_props, example_props. cbn [rustc_args rmc_args].
  intros [Hr Hm]%andb_true_iff. rewrite forallb_app, Hr, Hm. cbn [forallb].
  rewrite edition_clean. by vm_compute.
Qed.

(** The properties that the configuration of an example gives *)
Definition config_props (fs : files) (p : path) (line : N) : outcome TestProps :=
  props_path ← config_path p line ".props";
  match fs !! props_path with
  | Some contents => parse_header props_path contents
  | None => Ok (mkTestProps p None [] [])
  end.

Lemma prepend_props_ok fs p ex cps ex' cps' :
  prepend_props fs p ex cps = Ok (ex', cps') ->
  exists props e props_path, config_props fs p (line ex) = Ok props /\ edition (config ex) = Some e
    /\ ex' = mkExample (display_props (example_props props (config ex) e) ++ code ex) (line ex) (config ex)
    /\ config_path p (line ex) ".props" = Ok props_path /\ (cps' = cps \/ cps' = cps ∖ {[props_path]}).
Proof.
  unfold prepend_props, config_props. intros (props_path & -> & Hrun)%bind_ok. cbn [mbind outcome_bind].
  apply bind_ok in Hrun as ([props cps1] & Hp & Hrun).
  apply bind_ok in Hrun as (e & He & [= <- <-]). cbn [fst snd] in *.
  apply unwrapped in He.
  exists props, e, props_path. destruct (fs !! props_path) as [contents|].
  - apply bind_ok in Hp as (props' & -> & [= <- <-]). by repeat split; [..|right].
  - injection Hp as <- <-. by repeat split; [..|left].
Qed.

Lemma apply_diff_ok fs p ex cps ex' cps' :
  apply_diff fs p ex cps = Ok (ex', cps') ->
  line ex' = line ex /\ config ex' = config ex
  /\ exists diff_path, config_path p (line ex) ".diff" = Ok diff_path
     /\ (cps' = cps \/ cps' = cps ∖ {[diff_path]}).
Proof.
  unfold apply_diff. intros (diff_path & -> & Hrun)%bind_ok. destruct (fs !! diff_path) as [diff|].
  - apply bind_ok in Hrun as (ls & _ & [= <- <-]). repeat split. exists diff_path. auto.
  - injection Hrun as <- <-. repeat split. exists diff_path. auto.
Qed.

(** The edition of an example *)
Definition example_edition (e : Edition) (ex : Example_) : Edition := default e (edition (config ex)).

(** One example: what is written, and which configuration files it uses *)
Lemma extract_example_ok d p fs cps ex fs' cps' :
  extract_example d p (fs, cps) ex = Ok (fs', cps') ->
  exists props src diff_path props_path,
    config_props fs p (line ex) = Ok props
    /\ fs' = <[p ++ [dec (line ex) ++ lit ".rs"] :=
                 display_props (example_props props (config ex) (example_edition d ex))
                 ++ make_test src (example_edition d ex)]> fs
    /\ config_path p (line ex) ".diff" = Ok diff_path /\ config_path p (line ex) ".props" = Ok props_path
    /\ cps ⊆ cps' ∪ {[diff_path; props_path]}.
Proof.
  unfold extract_example. intros ([ex1 cps1] & Hd & Hrun)%bind_ok.
  apply apply_diff_ok in Hd as (Hl & Hc & diff_path & Hdp & Hcps1).
  apply bind_ok in Hrun as ([ex2 cps2] & (props & e & props_path & Hp & He & -> & Hpp & Hcps2)%prepend_props_ok & [= <- <-]).
  cbn [line config edition code] in *. injection He as <-. rewrite Hl, Hc in *.
  exists props, (code ex1), diff_path, props_path. repeat (split; [done|]).
  clear -Hcps1 Hcps2. intros c Hin. rewrite !elem_of_union, !elem_of_singleton.
  destruct (decide (c = diff_path)); [auto|]. destruct (decide (c = props_path)); [auto|]. left.
  destruct Hcps1 as [-> | ->], Hcps2 as [-> | ->]; set_solver.
Qed.

(** The configuration files of the examples of a file *)
Definition configures (p : path) (exs : list Example_) (c : path) : Prop :=
  exists ex ext, ex ∈ exs /\ (ext = ".diff" \/ ext = ".props") /\ config_path p (line ex) ext = Ok c.

(** Paths that are never written: Markdown files, for one *)
Definition not_a_test (f : path) : Prop := forall (p : path) (n : N), f <> p ++ [dec n ++ lit ".rs"].

Lemma extract_examples_of_ok d p exs : forall st st',
  extract_examples_of d p st exs = Ok st' ->
  (forall f, not_a_test f -> st'.1 !! f = st.1 !! f)
  /\ forall c, c ∈ st.2 -> c ∈ st'.2 \/ configures p exs c.
Proof.
  induction exs as [|ex exs IH]; intros st st'; cbn [extract_examples_of]; [intros [= <-]; auto|].
  intros ([fs1 cps1] & Hex & [IHf IHc]%IH)%bind_ok. destruct st as [fs cps].
  apply extract_example_ok in Hex as (props & src & dp & pp & _ & -> & Hdp & Hpp & Hsub). cbn [fst snd] in *.
  split.
  - intros f Hf. rewrite IHf by done. apply lookup_insert_ne. intros E. by eapply Hf.
  - intros c Hc. apply Hsub in Hc. rewrite !elem_of_union, !elem_of_singleton in Hc.
    destruct Hc as [Hc|[-> | ->]].
    + apply IHc in Hc as [Hc|(ex' & ext & Hin & Hext & Hp)]; [by left|]. right. exists ex', ext.
      split; [by right|done].
    + right. exists ex, ".diff". split; [left|auto].
    + right. exists ex, ".props". split; [left|auto].
Qed.

Definition examples_in (contents : text) : list Example_ := foldl add_test [] (find_testable_code contents).

Lemma extract_all_ok d hs : forall st st',
  Forall (fun kv => not_a_test kv.1) hs -> extract_all d hs st = Ok st' ->
  (forall f, not_a_test f -> st'.1 !! f = st.1 !! f)
  /\ forall c, c ∈ st.2 -> c ∈ st'.2
     \/ exists from to_ contents, (from, to_) ∈ hs /\ st.1 !! from = Some contents
          /\ configures to_ (examples_in contents) c.
Proof.
  induction hs as [|[from to_] hs IH]; intros st st' Hnt; cbn [extract_all]; [intros [= <-]; auto|].
  apply Forall_cons in Hnt as [Hfrom Hnt]. cbn [fst] in Hfrom. intros (st1 & Hex & Hrun)%bind_ok.
  apply IH in Hrun as [IHf IHc]; [|done]. unfold extract in Hex.
  apply bind_ok in Hex as (contents & Hr & [Hf Hc]%extract_examples_of_ok).
  apply unwrapped in Hr.
  split; [intros f Hnf; by rewrite IHf, Hf|]. intros c [Hin|Hconf]%Hc.
  - apply IHc in Hin as [Hin|(from' & to' & contents' & Hin & Hl & Hconf)]; [by left|]. right.
    exists from', to', contents'. split; [by right|]. split; [|done]. rewrite <- Hf; [done|].
    exact (proj1 (Forall_forall _ _) Hnt _ Hin).
  - right. exists from, to_, contents. split; [left|done].
Qed.
End Extraction.

(** ** Edits *)

Fixpoint apply_edits (es : list Edit) (l : list text) : outcome (list text) :=
  match es with
  | [] => Ok l
  | e :: es => l ← apply_edit e l; apply_edits es l
  end.

Definition undo (e : Edit) (l : list text) : Edit :=
  match e with
  | InsertLine at_ _ => RemoveLine at_
  | RemoveLine at_ => InsertLine at_ (default [] (l !! N.to_nat at_))
  end.

Lemma undo_edit e l l' : apply_edit e l = Ok l' -> apply_edit (undo e l) l' = Ok l.
Proof.
  destruct e as [k diff|k]; cbn [apply_edit undo]; intros Hrun; outcome_inv.
  - apply N.leb_le in E. rewrite (proj2 (N.ltb_lt _ _)).
    + cbn. f_equal. rewrite take_app_length', drop_app_ge by (rewrite length_take; lia).
      rewrite length_take. replace (S (N.to_nat k) - N.to_nat k `min` length l)%nat with 1%nat by lia.
      cbn. by rewrite drop_0, take_drop.
    + rewrite length_app, length_take. cbn. rewrite length_drop. lia.
  - apply N.ltb_lt in E. rewrite (proj2 (N.leb_le _ _)).
    + destruct (lookup_lt_is_Some_2 l (N.to_nat k)) as [x Hx]; [lia|]. unfold text in *. rewrite Hx.
      cbn [rassert mbind outcome_bind default]. f_equal.
      rewrite take_app_length', drop_app_length' by (rewrite length_take; lia).
      by rewrite <- (take_drop_middle l (N.to_nat k) x) at 3.
    + rewrite length_app, length_take, length_drop. lia.
Qed.

Lemma apply_edits_app es es' l : apply_edits (es ++ es') l = (apply_edits es l ≫= apply_edits es').
Proof.
  revert l. induction es as [|e es IH]; intros l; cbn [app apply_edits]; [done|].
  destruct (apply_edit e l); [apply IH|done].
Qed.

(** ** Properties *)

(** A table of contents whose chapters are items with a link gives every linked file the
    directory of its titles: each chapter below its parents, whatever the nesting, with the
    pieces of a title joined and the problematic characters replaced. *)
Theorem summary_hierarchy `{BookTools} fs b sd summary cs :
  summary_data b = Some sd -> fs !! summary_path sd = Some summary ->
  starts_with (summary_start sd) summary = true ->
  markdown summary = markdown (summary_start sd)
                     ++ [OtherEvent] ++ concat (map chapter_events cs) ++ [OtherEvent] ->
  Forall valid_chapter cs ->
  parse_hierarchy_with_summary fs b
  = Ok (set_hierarchy b (insert_all (hierarchy b)
          (concat (map (chapter_entries (path_pop (summary_path sd))
                          (path_of books_dir ++ components (book_name b))) cs)))).
Proof.
  intros Hsd Hfs Hst Hmd Hcs. unfold parse_hierarchy_with_summary. rewrite Hsd. cbn [unwrap mbind outcome_bind].
  rewrite Hfs. cbn [unwrap mbind outcome_bind]. rewrite Hst, Hmd, drop_app_length. cbn [rassert mbind outcome_bind app].
  cbn [summary_events summary_event mbind outcome_bind].
  rewrite chapters_run by (eapply Forall_impl; [exact Hcs|]; intros c; apply chapter_run). done.
Qed.

(** A book without a table of contents: every Markdown file goes to the directory of the
    titles of the directories it lies in, although the walk over the directories says only
    where it is, not when it leaves a directory. *)
Theorem directory_hierarchy `{BookTools} exists_ walk b dd (s : path) r es :
  directory_data b = Some dd -> src dd = s ++ [r] ->
  walk (src dd) = (src dd, true) :: concat (map (listing (src dd)) es) ->
  valid_name r -> valid_name (to_title_case r) -> r ∉ map entry_name es ->
  NoDup (map entry_name es) -> Forall valid_entry es ->
  parse_hierarchy_without_summary exists_ walk b
  = Ok (set_hierarchy b (insert_all (hierarchy b)
          (concat (map (dir_entries exists_ (src dd) (dest dd)) es)))).
Proof.
  intros Hdd Hsrc Hwalk Hr Ht Hnin Hnd Hes. unfold parse_hierarchy_without_summary. rewrite Hdd.
  cbn [unwrap mbind outcome_bind]. rewrite Hwalk. cbn [walk_entries]. unfold walk_entry. cbn [fst snd].
  assert (back_up (length (src dd)) (src dd) (src dd) (dest dd) = (src dd, dest dd)) as ->.
  { destruct (length (src dd)); [done|]. cbn [back_up]. unfold path_starts_with.
    pose proof (strip_prefix_app (src dd) []) as E. rewrite app_nil_r in E. by rewrite E. }
  assert (file_name (src dd) = Some r) as -> by (rewrite Hsrc; apply file_name_snoc, Hr).
  cbn [unwrap mbind outcome_bind]. rewrite !path_push_name by done.
  destruct (walk_list exists_ es) with (d := src dd) (D := dest dd) (suf := [r]) (suf' := [to_title_case r])
    (h := hierarchy b) (rest := @nil WalkEntry) as (s2 & s2' & _ & E);
    [by eapply Forall_impl; [exact Hes|]; intros e; apply entry_walks | done | done | by intros x [= <-] |].
  rewrite app_nil_r in E. apply bind_ok. eexists. split; [exact E | reflexivity].
Qed.

(** The runner reads back the properties that an example was given when it was extracted:
    those of its configuration file, the edition, and the step that its annotations say.
    What is asked of rustdoc's [make_test] is that a program does not start with a comment. *)
Theorem example_header `{BookTools} d (p : path) fs cps ex fs' cps' props :
  (forall c e, no_header (buf_lines (make_test c e)) = true) ->
  extract_example d p (fs, cps) ex = Ok (fs', cps') ->
  config_props fs p (line ex) = Ok props -> clean_props props = true ->
  let q := p ++ [dec (line ex) ++ lit ".rs"] in
  parse_test_header fs' q
  = Ok (mkTestProps q
          (match fail_step props with
           | Some s => Some s
           | None => if compile_fail (config ex) then Some Check
                     else if should_panic (config ex) then Some Verification else None
           end)
          (rustc_args props ++ [lit "--edition"; display_edition (example_edition d ex)])
          (rmc_args props)).
Proof.
  intros Hmk (props' & src & dp & pp & Hp & -> & _)%extract_example_ok Hprops Hclean q.
  rewrite Hprops in Hp. injection Hp as <-. unfold parse_test_header. subst q.
  apply bind_ok. eexists. split; [apply unwrap_some, lookup_insert_eq|].
  by rewrite parse_displayed by (apply Hmk || by apply example_props_clean).
Qed.

(** A book is accepted only if each of its configuration files belongs to an example: a
    configuration file whose line number has gone out of date is an error. *)
Theorem configs_used `{BookTools} fs b fs' :
  extract_examples fs b = Ok fs' ->
  (forall from to_, hierarchy b !! from = Some to_ -> not_a_test from) ->
  forall c, c ∈ get_config_paths fs (book_name b) ->
  exists from to_ contents, hierarchy b !! from = Some to_ /\ fs !! from = Some contents
    /\ configures to_ (examples_in contents) c.
Proof.
  unfold extract_examples. intros ([fs1 cps1] & Hrun & Hend)%bind_ok Hnt c Hc.
  assert (Forall (fun kv => not_a_test kv.1) (hierarchy_iter (hierarchy b))) as Hall.
  { apply Forall_forall. intros [from to_]. rewrite hierarchy_iter_Permutation.
    intros Hin%elem_of_map_to_list. by eapply Hnt. }
  apply extract_all_ok in Hrun as [_ Hused]; [|done]. cbn [fst snd] in *.
  apply bind_ok in Hend as (u & He & _). unfold rassert in He. case_bool_decide as Hempty; [|done].
  destruct (Hused c Hc) as [Hin|(from & to_ & contents & Hin & Hl & Hconf)].
  - rewrite Hempty in Hin. by apply elem_of_empty in Hin.
  - exists from, to_, contents. split; [|done]. rewrite hierarchy_iter_Permutation in Hin.
    by apply elem_of_map_to_list in Hin.
Qed.

(** Edits can be undone: whatever edits a [.diff] file makes, as many edits bring the
    lines back. *)
Theorem edits_undo (es : list Edit) (l l' : list text) :
  apply_edits es l = Ok l' -> exists es', length es' = length es /\ apply_edits es' l' = Ok l.
Proof.
  revert l. induction es as [|e es IH]; intros l; cbn [apply_edits]; [intros [= <-]; by exists []|].
  intros (l1 & He & (es' & Hlen & Hes')%IH)%bind_ok. exists (es' ++ [undo e l]).
  split; [rewrite length_app; cbn; lia|]. rewrite apply_edits_app, Hes'. cbn.
  by rewrite (undo_edit e l l1 He).
Qed.

(** *** A small book *)

Definition sample_start : text := lit "# Summary".
Definition sample_summary : text := lit "# Summary - Races".
Definition sample_chapters : list Chapter :=
  [mkChapter [(false, lit "Races ("); (true, lit "Send"); (false, lit ")")] (lit "races.md")
     [mkChapter [(false, lit "Locks")] (lit "sync/locks.md") []]].
Definition sample_example : text * LangString * N :=
  (lit "let x = 1;", mkLangString true IgnoreNone false None, 7%N).

#[export] Instance sample_tools : BookTools.
Proof.
  refine {|
    markdown s := if bool_decide (s = sample_start) then []
                  else [OtherEvent] ++ concat (map chapter_events sample_chapters) ++ [OtherEvent];
    find_testable_code s := if bool_decide (s = []) then [] else [sample_example];
    make_test c e := lit "#![allow(unused)]" ++ [newline] ++ c;
    to_title_case s := s;
    to_snake_case s := s;
    toml_edition s := Some None;
    hierarchy_iter m := map_to_list m;
  |}.
  intros m. reflexivity.
Defined.

Definition sample_book : Book :=
  mkBook (lit "Nomicon") Edition2018
    (Some (mkSummaryData (path_of ["src"; "doc"; "nomicon"; "SUMMARY.md"]) sample_start)) None
    (path_of ["book.toml"]) ∅.
Definition races_md : path := path_of ["src"; "doc"; "nomicon"; "races.md"].
Definition races_dir : path := path_of (books_dir ++ ["Nomicon"]) ++ [lit "Races _Send_"].
Definition races_props : path := config_dir ++ path_of ["books"; "Nomicon"] ++ [lit "Races _Send_"; lit "7.props"].
Definition sample_files : files :=
  {[ path_of ["src"; "doc"; "nomicon"; "SUMMARY.md"] := sample_summary;
     races_md := lit "# Races";
     races_props := lit "// rmc-flags: --unwind" ++ [newline] ]}.

Lemma summary_hierarchy_witness :
  exists b, parse_hierarchy_with_summary sample_files sample_book = Ok b
    /\ hierarchy b !! races_md = Some races_dir.
Proof.
  eexists. split.
  - apply (summary_hierarchy sample_files sample_book
             (mkSummaryData (path_of ["src"; "doc"; "nomicon"; "SUMMARY.md"]) sample_start)
             sample_summary sample_chapters); try (vm_compute; reflexivity).
    repeat (constructor; [by apply (bool_decide_unpack _)|]); repeat constructor; by apply (bool_decide_unpack _).
  - vm_compute. reflexivity.
Defined.

Definition sample_entries : list DirEntry :=
  [SubDir (lit "flags") [FileEntry (lit "asm.md")]; FileEntry (lit "intro.md")].
Definition sample_dirs : Book :=
  mkBook (lit "Unstable") Edition2018 None
    (Some (mkDirectoryData (path_of ["doc"; "src"]) (path_of ["books"; "Unstable"]))) (path_of ["book.toml"]) ∅.

Lemma directory_hierarchy_witness :
  exists b, parse_hierarchy_without_summary (fun _ => false)
              (fun s => (s, true) :: concat (map (listing s) sample_entries)) sample_dirs = Ok b
    /\ hierarchy b !! path_of ["doc"; "src"; "flags"; "asm.md"] = Some (path_of ["books"; "Unstable"; "flags"; "asm"]).
Proof.
  eexists. split.
  - apply (directory_hierarchy (fun _ => false)
             (fun s => (s, true) :: concat (map (listing s) sample_entries)) sample_dirs
             (mkDirectoryData (path_of ["doc"; "src"]) (path_of ["books"; "Unstable"]))
             [lit "doc"] (lit "src") sample_entries); try reflexivity.
    1-4: by apply (bool_decide_unpack _).
    repeat constructor; by apply (bool_decide_unpack _).
  - vm_compute. reflexivity.
Defined.

Definition races_example : Example_ := mkExample (lit "let x = 1;") 7 (mkLangString true IgnoreNone false None).
Definition extracted : outcome (files * gset path) :=
  extract_example Edition2018 races_dir (sample_files, ∅) races_example.
Lemma extracted_ok : match extracted with Ok _ => true | Panic => false end = true.
Proof. vm_compute. reflexivity. Qed.

Lemma example_header_witness :
  exists r, extracted = Ok r
    /\ parse_test_header r.1 (races_dir ++ [lit "7.rs"])
       = Ok (mkTestProps (races_dir ++ [lit "7.rs"]) (Some Verification)
               [lit "--edition"; lit "2018"] [lit "--unwind"]).
Proof.
  pose proof extracted_ok as Hok. destruct extracted as [[fs cps]|] eqn:E; [|discriminate Hok].
  exists (fs, cps). split; [reflexivity|].
  apply (example_header Edition2018 races_dir sample_files ∅ races_example fs cps
           (mkTestProps races_props None [] [lit "--unwind"])); [| exact E | vm_compute; reflexivity ..].
  intros c e. unfold make_test, sample_tools. rewrite app_assoc.
  pose proof (buf_lines_cons (lit "#![allow(unused)]") c (literal_line "#![allow(unused)]" eq_refl)) as Hl.
  rewrite <- app_assoc. cbn [app]. rewrite Hl. vm_compute. reflexivity.
Defined.

Definition races_book : Book := set_hierarchy sample_book {[ races_md := races_dir ]}.
Definition extracted_book : outcome files := extract_examples sample_files races_book.
Lemma extracted_book_ok : match extracted_book with Ok _ => true | Panic => false end = true.
Proof. vm_compute. reflexivity. Qed.

Lemma md_not_a_test : not_a_test races_md.
Proof.
  intros p n E. apply (f_equal last) in E. rewrite last_snoc in E. injection E as E.
  apply (f_equal last) in E. change (lit ".rs") with ([46; 114]%N ++ [115%N]) in E.
  rewrite app_assoc, last_snoc in E. vm_compute in E. discriminate E.
Qed.

Lemma configs_used_witness :
  exists from to_ contents, hierarchy races_book !! from = Some to_ /\ sample_files !! from = Some contents
    /\ configures to_ (examples_in contents) races_props.
Proof.
  pose proof extracted_book_ok as Hok. destruct extracted_book as [fs|] eqn:E; [|discriminate Hok].
  apply (configs_used sample_files races_book fs E).
  - intros from to_ Hl. cbn [races_book set_hierarchy hierarchy] in Hl.
    apply lookup_singleton_Some in Hl as [<- _]. apply md_not_a_test.
  - apply (bool_decide_unpack _). vm_compute. reflexivity.
Defined.

Lemma edits_undo_witness :
  exists es', length es' = 2%nat
    /\ apply_edits es' [lit "a"; lit "c"] = Ok [lit "b"; lit "c"].
Proof.
  apply (edits_undo [InsertLine 0 (lit "a"); RemoveLine 1] [lit "b"; lit "c"]). vm_compute. reflexivity.
Defined.

(** An item without a link: its title is joined with that of its first section, and the path
    is one level short at the end. *)
Example unlinked_title_joined :
  let r := summary_events [] (mkSummaryState (path_of ["book"]) false ∅)
             [OtherEvent; TextEvent (lit "Part"); OtherEvent; OtherEvent; OtherEvent; TextEvent (lit "One");
              EndLink (lit "one.md"); EndItem; OtherEvent; EndItem] in
  match r with
  | Ok s => hierarchy_path s = [] /\ entries s !! path_of ["one.md"] = Some (path_of ["book"; "PartOne"])
  | Panic => False
  end.
Proof. vm_compute. split; reflexivity. Qed.

(** Any symbol but [+] removes a line. *)
Lemma other_symbols_remove symbol number n :
  no_char (N.eqb space) symbol -> no_char (N.eqb space) number -> symbol <> lit "+" ->
  parse_usize number = Some n -> (0 < n)%N ->
  parse_edit (symbol ++ [space] ++ number) = Ok (RemoveLine (n - 1)).
Proof.
  intros Hs Hn Hplus Hp Hpos. unfold parse_edit. cbn [splitn app].
  rewrite (split_first_sep space symbol number) by done. rewrite (split_first_none space number) by done.
  change ([symbol; number] !! 0%nat) with (Some symbol). change ([symbol; number] !! 1%nat) with (Some number).
  cbn [unwrap mbind outcome_bind]. rewrite Hp. cbn [unwrap mbind outcome_bind].
  unfold u64_sub. rewrite (proj2 (N.leb_le 1 n)) by lia. cbn [mbind outcome_bind].
  by rewrite bool_decide_eq_false_2.
Qed.
