(* ===== verification/SipHash.v ===== *)
(** * SipHash ([library/core/src/hash/sip.rs])

    The default hasher of the standard library, with which the compile-test driver stamps
    finished tests and the test runner shuffles them.  [Hasher] keeps up to seven bytes that
    do not fill a word yet; [write] completes that word, takes the following words straight
    from the slice and keeps the rest.  Words are [u64], so sums wrap and shifts drop bits.
    A read outside the slice is undefined behaviour in the source and [Panic] here.

    [streaming_hash]: however the input is cut into calls of [write], no read is out of
    bounds and the result is that of SipHash on the whole input, defined on its own below. *)

From S2P Require Import Prelude.
Open Scope N_scope.

Abbreviation bytes := (list N).

(** ** [u64] *)

Definition word_mod : N := 2 ^ 64.
Definition wrapping_add (a b : N) : N := (a + b) mod word_mod.
Definition u64_shl (a k : N) : N := N.shiftl a k mod word_mod.
Definition rotate_left (a k : N) : N := N.lor (u64_shl a k) (N.shiftr a (64 - k)).

(** The value of bytes in little-endian order *)
Fixpoint le_int (b : bytes) : N :=
  match b with
  | [] => 0
  | x :: b => x + 256 * le_int b
  end.

(** ** Rounds *)

Record State := mkState { v0 : N; v2 : N; v1 : N; v3 : N }.

(** [compress!] *)
Definition compress (s : State) : State :=
  let a0 := wrapping_add (v0 s) (v1 s) in
  let a1 := N.lxor (rotate_left (v1 s) 13) a0 in
  let a0 := rotate_left a0 32 in
  let a2 := wrapping_add (v2 s) (v3 s) in
  let a3 := N.lxor (rotate_left (v3 s) 16) a2 in
  let a0 := wrapping_add a0 a3 in
  let a3 := N.lxor (rotate_left a3 21) a0 in
  let a2 := wrapping_add a2 a1 in
  let a1 := N.lxor (rotate_left a1 17) a2 in
  let a2 := rotate_left a2 32 in
  mkState a0 a2 a1 a3.

(** [trait Sip] *)
Class Sip := { c_rounds : State -> State; d_rounds : State -> State }.
Definition Sip13Rounds : Sip :=
  {| c_rounds := compress; d_rounds s := compress (compress (compress s)) |}.
Definition Sip24Rounds : Sip :=
  {| c_rounds s := compress (compress s);
     d_rounds s := compress (compress (compress (compress s))) |}.

(** ** Reading the input *)

(** [load_int_le!] for an integer of [size] bytes *)
Definition load_int_le (buf : bytes) (i size : nat) : outcome N :=
  if (i + size <=? length buf)%nat then Ok (le_int (take size (drop i buf))) else Panic.

Definition u8to64_le (buf : bytes) (start len : nat) : outcome N :=
  assert! (len <? 8)%nat;
  r ← (if (0 + 3 <? len)%nat
       then out ← load_int_le buf (start + 0) 4; Ok (4%nat, out)
       else Ok (0%nat, 0));
  let i := r.1 in let out := r.2 in
  r ← (if (i + 1 <? len)%nat
       then w ← load_int_le buf (start + i) 2;
            Ok ((i + 2)%nat, N.lor out (u64_shl w (N.of_nat (i * 8))))
       else Ok (i, out));
  let i := r.1 in let out := r.2 in
  r ← (if (i <? len)%nat
       then w ← unwrap (buf !! (start + i)%nat);
            Ok ((i + 1)%nat, N.lor out (u64_shl w (N.of_nat (i * 8))))
       else Ok (i, out));
  assert! (r.1 =? len)%nat;
  Ok r.2.

(** ** [struct Hasher] *)

Record Hasher := mkHasher {
  k0 : N; k1 : N;
  h_length : N;      (* how many bytes were processed *)
  h_state : State;
  tail : N;          (* unprocessed bytes, little-endian *)
  ntail : nat;       (* how many bytes of [tail] are valid *)
}.

Definition reset (h : Hasher) : Hasher :=
  mkHasher (k0 h) (k1 h) 0
    (mkState (N.lxor (k0 h) 0x736f6d6570736575) (N.lxor (k0 h) 0x6c7967656e657261)
             (N.lxor (k1 h) 0x646f72616e646f6d) (N.lxor (k1 h) 0x7465646279746573))
    (tail h) 0.

Definition new_with_keys (key0 key1 : N) : Hasher :=
  reset (mkHasher key0 key1 0 (mkState 0 0 0 0) 0 0).

Section Rounds.
Context `{Sip}.

(** One word of input: [v3 ^= m; c_rounds; v0 ^= m] *)
Definition mix (s : State) (m : N) : State :=
  let s := c_rounds (mkState (v0 s) (v2 s) (v1 s) (N.lxor (v3 s) m)) in
  mkState (N.lxor (v0 s) m) (v2 s) (v1 s) (v3 s).

(** The loop [while i < len - left] of [write]; it advances by eight, so the length of the
    input is fuel enough. *)
Fixpoint write_loop (fuel : nat) (msg : bytes) (bound i : nat) (s : State) : outcome (nat * State) :=
  if (i <? bound)%nat then
    match fuel with
    | O => Panic
    | S fuel => mi ← load_int_le msg i 8; write_loop fuel msg bound (i + 8) (mix s mi)
    end
  else Ok (i, s).

(** The words after the buffered ones, and the new tail *)
Definition write_words (h : Hasher) (len_ : N) (msg : bytes) (needed : nat) (s : State) : outcome Hasher :=
  let len := (length msg - needed)%nat in
  let left := (len mod 8)%nat in
  r ← write_loop (length msg) msg (len - left) needed s;
  t ← u8to64_le msg r.1 left;
  Ok (mkHasher (k0 h) (k1 h) len_ r.2 t left).

Definition write (h : Hasher) (msg : bytes) : outcome Hasher :=
  let length_ := length msg in
  len ← u64_add (h_length h) (N.of_nat length_);
  if (ntail h =? 0)%nat then write_words h len msg 0 (h_state h)
  else
    let needed := (8 - ntail h)%nat in
    w ← u8to64_le msg 0 (Nat.min length_ needed);
    let t := N.lor (tail h) (u64_shl w (N.of_nat (8 * ntail h))) in
    if (length_ <? needed)%nat
    then Ok (mkHasher (k0 h) (k1 h) len (h_state h) t (ntail h + length_))
    else write_words h len msg needed (mix (h_state h) t).

Definition finish (h : Hasher) : N :=
  let b := N.lor (u64_shl (N.land (h_length h) 0xff) 56) (tail h) in
  let s := mix (h_state h) b in
  let s := d_rounds (mkState (v0 s) (N.lxor (v2 s) 0xff) (v1 s) (v3 s)) in
  N.lxor (N.lxor (N.lxor (v0 s) (v1 s)) (v2 s)) (v3 s).

(** Several calls of [write] *)
Fixpoint writes (h : Hasher) (chunks : list bytes) : outcome Hasher :=
  match chunks with
  | [] => Ok h
  | c :: chunks => h ← write h c; writes h chunks
  end.

(** ** SipHash of a whole input *)

(** The state after all full words, and the bytes that are left *)
Fixpoint absorb (s : State) (m : bytes) : State * bytes :=
  match m with
  | a :: b :: c :: d :: e :: f :: g :: h :: m => absorb (mix s (le_int [a; b; c; d; e; f; g; h])) m
  | _ => (s, m)
  end.

Definition initial (key0 key1 : N) : State :=
  mkState (N.lxor key0 0x736f6d6570736575) (N.lxor key0 0x6c7967656e657261)
          (N.lxor key1 0x646f72616e646f6d) (N.lxor key1 0x7465646279746573).

Definition siphash (key0 key1 : N) (m : bytes) : N :=
  let r := absorb (initial key0 key1) m in
  let last := le_int r.2 + (N.of_nat (length m) mod 256) * 2 ^ 56 in
  let s := mix r.1 last in
  let s := d_rounds (mkState (v0 s) (N.lxor (v2 s) 0xff) (v1 s) (v3 s)) in
  N.lxor (N.lxor (N.lxor (v0 s) (v1 s)) (v2 s)) (v3 s).

End Rounds.

(** [DefaultHasher] is a [SipHasher13] with keys 0; hashing a [str] writes its bytes and
    then 0xff. *)
Definition hash_str (b : bytes) : outcome N :=
  h ← writes (H := Sip13Rounds) (new_with_keys 0 0) [b; [255]];
  Ok (finish (H := Sip13Rounds) h).

(** ** Little-endian values *)

Definition is_byte (x : N) : Prop := x < 256.
Definition bytes_ok (b : bytes) : Prop := Forall is_byte b.

Lemma le_int_app a b : le_int (a ++ b) = le_int a + 2 ^ (8 * N.of_nat (length a)) * le_int b.
Proof.
  induction a as [|x a IH]; cbn [app le_int length]; [rewrite N.mul_0_r; cbn; lia|].
  rewrite IH, Nat2N.inj_succ, N.mul_succ_r, N.add_comm, N.pow_add_r.
  change (2 ^ 8) with 256. lia.
Qed.

Lemma le_int_bound a : bytes_ok a -> le_int a < 2 ^ (8 * N.of_nat (length a)).
Proof.
  induction 1 as [|x a Hx _ IH]; cbn [le_int length]; [cbn; lia|].
  rewrite Nat2N.inj_succ, N.mul_succ_r, N.add_comm, N.pow_add_r. unfold is_byte in Hx.
  change (2 ^ 8) with 256. lia.
Qed.

(** Values without common bits: [|] is [+]. *)
Lemma lor_shift_add a b k : a < 2 ^ k -> N.lor a (N.shiftl b k) = a + 2 ^ k * b.
Proof.
  intros Ha. rewrite N.shiftl_mul_pow2, (N.mul_comm b).
  assert (N.land a (2 ^ k * b) = 0) as Hz.
  { apply N.bits_inj_0. intros i. rewrite N.land_spec, N.mul_comm, <- N.shiftl_mul_pow2.
    destruct (N.lt_ge_cases i k) as [Hi|Hi].
    - by rewrite N.shiftl_spec_low, andb_false_r.
    - rewrite <- (N.mod_small a (2 ^ k)) by done. by rewrite N.mod_pow2_bits_high. }
  rewrite <- N.lxor_lor, <- N.add_nocarry_lxor by done. done.
Qed.

Lemma lor_le_int a b :
  bytes_ok a -> bytes_ok b -> (length a + length b <= 8)%nat ->
  N.lor (le_int a) (u64_shl (le_int b) (N.of_nat (8 * length a))) = le_int (a ++ b).
Proof.
  intros Ha Hb Hlen. unfold u64_shl.
  pose proof (le_int_bound a Ha) as Ba. pose proof (le_int_bound b Hb) as Bb.
  assert (2 ^ (8 * N.of_nat (length a)) * 2 ^ (8 * N.of_nat (length b)) <= word_mod) as Hw.
  { rewrite <- N.pow_add_r. apply N.pow_le_mono_r; lia. }
  rewrite Nat2N.inj_mul. change (N.of_nat 8) with 8.
  rewrite N.mod_small; [rewrite lor_shift_add by done; by rewrite le_int_app|].
  rewrite N.shiftl_mul_pow2. nia.
Qed.

Lemma bytes_ok_slice b i n : bytes_ok b -> bytes_ok (take n (drop i b)).
Proof. intros Hb. by apply Forall_take, Forall_drop. Qed.
#[export] Hint Resolve bytes_ok_slice : core.

Lemma load_int_le_ok buf i size :
  (i + size <= length buf)%nat -> load_int_le buf i size = Ok (le_int (take size (drop i buf))).
Proof. intros Hi. unfold load_int_le. by rewrite (proj2 (Nat.leb_le _ _)). Qed.

(** The next piece of [u8to64_le] *)
Lemma lor_slice buf start i n :
  bytes_ok buf -> (start + i + n <= length buf)%nat -> (i + n <= 8)%nat ->
  N.lor (le_int (take i (drop start buf)))
        (u64_shl (le_int (take n (drop (start + i) buf))) (N.of_nat (i * 8)))
  = le_int (take (i + n) (drop start buf)).
Proof.
  intros Hb Hlen Hn.
  assert (length (take i (drop start buf)) = i) as Hi by (rewrite length_take, length_drop; lia).
  replace (i * 8)%nat with (8 * length (take i (drop start buf)))%nat by lia.
  rewrite lor_le_int; [|auto..|rewrite Hi, length_take; lia].
  by rewrite <- take_take_drop, drop_drop.
Qed.

Lemma get_slice (buf : bytes) i :
  (i < length buf)%nat -> unwrap (buf !! i) = Ok (le_int (take 1 (drop i buf))).
Proof.
  intros Hi. destruct (lookup_lt_is_Some_2 buf i) as [x Hx]; [done|].
  rewrite (drop_S _ _ _ Hx), Hx. cbn [unwrap]. f_equal. rewrite firstn_cons, take_0. cbn [le_int]. lia.
Qed.

Lemma u8to64_le_ok buf start len :
  bytes_ok buf -> (len < 8)%nat -> (start + len <= length buf)%nat ->
  u8to64_le buf start len = Ok (le_int (take len (drop start buf))).
Proof.
  intros Hb Hlen Hin. unfold u8to64_le. rewrite (proj2 (Nat.ltb_lt len 8)) by done.
  cbn [rassert mbind outcome_bind]. rewrite Nat.add_0_r. change (0 + 3)%nat with 3%nat.
  set (p i := Ok (i, le_int (take i (drop start buf))) : outcome (nat * N)).
  transitivity (r ← p len; assert! (r.1 =? len)%nat; Ok r.2);
    [|unfold p, rassert; cbn; by rewrite Nat.eqb_refl].
  assert (forall i n, (start + i + n <= length buf)%nat -> (i + n <= 8)%nat ->
    N.lor (le_int (take i (drop start buf)))
      (u64_shl (le_int (take n (drop (start + i) buf))) (N.of_nat (i * 8)))
    = le_int (take (i + n) (drop start buf))) as Hor by (intros; by apply lor_slice).
  change 0 with (le_int (take 0 (drop start buf))).
  destruct (Nat.ltb_spec 3 len) as [H4|H4]; [rewrite load_int_le_ok by lia|];
    cbn [mbind outcome_bind fst snd];
    match goal with |- context [(?i + 1 <? len)%nat] =>
      destruct (Nat.ltb_spec (i + 1) len) as [H2|H2]; [rewrite load_int_le_ok by lia|] end;
    cbn [mbind outcome_bind fst snd]; rewrite ?Hor by lia;
    match goal with |- context [unwrap (buf !! (start + ?i)%nat)] =>
      destruct (Nat.ltb_spec i len) as [H1|H1]; [rewrite get_slice by lia|] end;
    cbn [mbind outcome_bind fst snd]; rewrite ?Hor by lia;
    match goal with |- context [(?i =? len)%nat] => replace i with len by lia end;
    reflexivity.
Qed.

(** ** [absorb] *)

Section Correctness.
Context `{Sip}.

Lemma absorb_short s m : (length m < 8)%nat -> absorb s m = (s, m).
Proof. intros Hm. do 8 (destruct m as [|? m]; [done|]). cbn in Hm. lia. Qed.

Lemma absorb_word s w m : length w = 8%nat -> absorb s (w ++ m) = absorb (mix s (le_int w)) m.
Proof. intros Hw. do 8 (destruct w as [|? w]; [done|]). destruct w; [done|]. cbn in Hw. lia. Qed.

(** Word by word *)
Lemma word_ind (P : bytes -> Prop) :
  (forall m, (length m < 8)%nat -> P m) ->
  (forall w m, length w = 8%nat -> P m -> P (w ++ m)) -> forall m, P m.
Proof.
  intros Hs Hw m. remember (length m) as n eqn:Hn. revert m Hn.
  induction n as [n IH] using lt_wf_ind. intros m ->.
  destruct (le_lt_dec 8 (length m)) as [Hm|Hm]; [|by apply Hs].
  rewrite <- (take_drop 8 m). apply Hw; [rewrite length_take; lia|].
  eapply IH; [|done]. rewrite length_drop. lia.
Qed.

Lemma absorb_app s m x : absorb s (m ++ x) = absorb (absorb s m).1 ((absorb s m).2 ++ x).
Proof.
  revert s. induction m as [m Hm|w m Hw IH] using word_ind; intros s.
  - by rewrite (absorb_short s m).
  - rewrite <- app_assoc, (absorb_word s w m), absorb_word by done. apply IH.
Qed.

Lemma absorb_left s m : length (absorb s m).2 = (length m mod 8)%nat.
Proof.
  revert s. induction m as [m Hm|w m Hw IH] using word_ind; intros s.
  - by rewrite absorb_short, Nat.mod_small.
  - rewrite absorb_word, IH, length_app, Hw by done.
    rewrite <- (Nat.Div0.add_mod_idemp_l 8). done.
Qed.

Lemma absorb_suffix s m : (absorb s m).2 = drop (length m - length m mod 8) m.
Proof.
  revert s. induction m as [m Hm|w m Hw IH] using word_ind; intros s.
  - rewrite absorb_short, Nat.mod_small, Nat.sub_diag by done. done.
  - rewrite absorb_word, IH, length_app, Hw by done.
    assert ((8 + length m) mod 8 = length m mod 8)%nat as ->
      by (by rewrite <- (Nat.Div0.add_mod_idemp_l 8)).
    pose proof (Nat.Div0.mod_le (length m) 8).
    rewrite drop_app_ge by lia. f_equal. lia.
Qed.

(** ** [write] *)

Lemma write_loop_absorbs msg needed k j s fuel :
  (needed < 8)%nat -> (needed + 8 * (j + k) <= length msg)%nat -> (k <= fuel)%nat ->
  (length msg < needed + 8 * (j + k) + 8)%nat ->
  write_loop fuel msg (8 * (j + k)) (needed + 8 * j) s
  = Ok (needed + 8 * (j + k), (absorb s (drop (needed + 8 * j) msg)).1)%nat.
Proof.
  intros Hn Hin Hf Hlast. revert j s fuel Hin Hf Hlast. induction k as [|k IH]; intros j s fuel Hin Hf Hlast.
  - rewrite Nat.add_0_r in *. rewrite absorb_short by (rewrite length_drop; lia).
    destruct fuel; cbn [write_loop]; by rewrite (proj2 (Nat.ltb_ge _ _)) by lia.
  - destruct fuel as [|fuel]; [lia|]. cbn [write_loop]. rewrite (proj2 (Nat.ltb_lt _ _)) by lia.
    rewrite load_int_le_ok by lia. cbn [mbind outcome_bind].
    replace (needed + 8 * j + 8)%nat with (needed + 8 * S j)%nat by lia.
    replace (j + S k)%nat with (S j + k)%nat in * by lia.
    rewrite IH by lia. do 3 f_equal.
    rewrite <- (take_drop 8 (drop (needed + 8 * j) msg)) at 2.
    rewrite absorb_word by (rewrite length_take, length_drop; lia). rewrite drop_drop. do 2 f_equal. lia.
Qed.

Lemma write_words_ok h n msg needed s :
  bytes_ok msg -> (needed < 8)%nat -> (needed <= length msg)%nat ->
  let r := absorb s (drop needed msg) in
  write_words h n msg needed s = Ok (mkHasher (k0 h) (k1 h) n r.1 (le_int r.2) (length r.2)).
Proof.
  intros Hb Hn Hle r. unfold write_words.
  set (len := (length msg - needed)%nat). pose proof (Nat.div_mod_eq len 8) as Hdm.
  pose proof (Nat.mod_upper_bound len 8 ltac:(lia)) as Hm.
  replace (len - len mod 8)%nat with (8 * (0 + len / 8))%nat by lia.
  replace needed with (needed + 8 * 0)%nat at 1 by lia.
  rewrite write_loop_absorbs by lia. cbn [mbind outcome_bind fst snd].
  rewrite u8to64_le_ok by (done || lia). cbn [mbind outcome_bind].
  rewrite Nat.mul_0_r, Nat.add_0_r. fold r. do 2 f_equal.
  - unfold r. rewrite absorb_suffix, length_drop, drop_drop. fold len. rewrite take_ge.
    + do 2 f_equal. lia.
    + rewrite length_drop. lia.
  - unfold r. by rewrite absorb_left, length_drop.
Qed.

(** What the hasher holds after an input *)
Definition absorbed (h : Hasher) (key0 key1 : N) (m : bytes) : Prop :=
  let r := absorb (initial key0 key1) m in
  h = mkHasher key0 key1 (N.of_nat (length m)) r.1 (le_int r.2) (length r.2).

Lemma write_absorbs h key0 key1 m msg :
  absorbed h key0 key1 m -> bytes_ok m -> bytes_ok msg ->
  N.of_nat (length (m ++ msg)) <= u64_max ->
  exists h', write h msg = Ok h' /\ absorbed h' key0 key1 (m ++ msg).
Proof.
  unfold absorbed. set (r := absorb (initial key0 key1) m). intros -> Hm Hmsg Hlen.
  rewrite length_app, Nat2N.inj_add in Hlen.
  assert (length r.2 < 8)%nat as Hr
    by (unfold r; rewrite absorb_left; by apply Nat.mod_upper_bound).
  assert (bytes_ok r.2) as Hrb by (unfold r; rewrite absorb_suffix; by apply Forall_drop).
  rewrite absorb_app. fold r. rewrite length_app, Nat2N.inj_add.
  unfold write, u64_add, in_u64. cbn [h_length ntail h_state tail]. rewrite (proj2 (N.leb_le _ _)) by done.
  cbn [mbind outcome_bind]. destruct (Nat.eqb_spec (length r.2) 0) as [Hz|Hz].
  - apply nil_length_inv in Hz. rewrite Hz. cbn [app].
    eexists. rewrite write_words_ok by (done || lia). rewrite drop_0. done.
  - rewrite u8to64_le_ok by (done || lia). cbn [mbind outcome_bind].
    rewrite drop_0, lor_le_int;
      [|done|by apply Forall_take|rewrite length_take; lia].
    destruct (Nat.ltb_spec (length msg) (8 - length r.2)) as [Hs|Hs].
    + eexists. split; [done|]. rewrite absorb_short by (rewrite length_app; lia).
      cbn [fst snd]. rewrite length_app, take_ge by lia. done.
    + eexists. rewrite write_words_ok by (done || lia). split; [done|].
      set (n := (8 - length r.2)%nat) in *.
      assert (absorb r.1 (r.2 ++ msg)
              = absorb (mix r.1 (le_int (r.2 ++ take n msg))) (drop n msg)) as ->.
      { rewrite <- (take_drop n msg) at 1. rewrite app_assoc, absorb_word; [done|].
        rewrite length_app, length_take. lia. }
      rewrite Nat.min_r by done. done.
Qed.

Lemma writes_absorb chunks : forall h key0 key1 m,
  absorbed h key0 key1 m -> bytes_ok m -> Forall bytes_ok chunks ->
  N.of_nat (length (m ++ concat chunks)) <= u64_max ->
  exists h', writes h chunks = Ok h' /\ absorbed h' key0 key1 (m ++ concat chunks).
Proof.
  induction chunks as [|c chunks IH]; intros h key0 key1 m Hh Hm Hc Hlen; cbn [writes concat].
  { exists h. by rewrite app_nil_r. }
  apply Forall_cons in Hc as [Hc Hcs]. cbn [concat] in Hlen. rewrite app_assoc in *.
  destruct (write_absorbs h key0 key1 m c) as (h' & -> & Hh'); [done..| |].
  { rewrite length_app in Hlen. lia. }
  cbn [mbind outcome_bind]. apply IH; [done| |done|done]. by apply Forall_app.
Qed.

Lemma finish_absorbed h key0 key1 m :
  absorbed h key0 key1 m -> bytes_ok m -> finish h = siphash key0 key1 m.
Proof.
  unfold absorbed. set (r := absorb (initial key0 key1) m). intros -> Hm. unfold finish, siphash.
  cbn [h_length h_state tail]. fold r.
  assert (length r.2 <= 7)%nat as Hr
    by (unfold r; rewrite absorb_left; pose proof (Nat.mod_upper_bound (length m) 8); lia).
  assert (le_int r.2 < 2 ^ 56) as Hb.
  { eapply N.lt_le_trans; [apply le_int_bound; unfold r; rewrite absorb_suffix; by apply Forall_drop|].
    apply N.pow_le_mono_r; lia. }
  assert (N.land (N.of_nat (length m)) 255 = N.of_nat (length m) mod 256) as ->
    by apply (N.land_ones _ 8).
  pose proof (N.mod_upper_bound (N.of_nat (length m)) 256 ltac:(done)) as Hmod.
  assert (N.lor (u64_shl (N.of_nat (length m) mod 256) 56) (le_int r.2)
          = le_int r.2 + N.of_nat (length m) mod 256 * 2 ^ 56) as ->; [|done].
  unfold u64_shl, word_mod. rewrite N.mod_small.
  - by rewrite N.lor_comm, lor_shift_add, N.mul_comm.
  - rewrite N.shiftl_mul_pow2. change (2 ^ 64) with (256 * 2 ^ 56). apply N.mul_lt_mono_pos_r; [done|lia].
Qed.

(** C36. [Hasher::write], [Hasher::finish] (SipHash with any number of rounds): however the
    input is cut into the slices of successive [write] calls, the buffered hasher reads within
    every slice, its loop ends, and the result is SipHash of the concatenated input, as long
    as the byte count fits a [usize]. *)
Theorem streaming_hash key0 key1 chunks :
  Forall bytes_ok chunks -> N.of_nat (length (concat chunks)) <= u64_max ->
  exists h, writes (new_with_keys key0 key1) chunks = Ok h
    /\ finish h = siphash key0 key1 (concat chunks).
Proof.
  intros Hc Hlen.
  destruct (writes_absorb chunks (new_with_keys key0 key1) key0 key1 []) as (h & Hw & Hh);
    [reflexivity|constructor|done|done|].
  exists h. split; [done|]. apply (finish_absorbed _ _ _ _ Hh). by apply Forall_concat.
Qed.

End Correctness.

(** Three slices of 5, 14 and 1 bytes: SipHash-1-3 and SipHash-2-4 *)
Definition sample_chunks : list bytes := [[1; 2; 3; 4; 5]; map N.of_nat (seq 6 14); [255]].

Lemma streaming_hash_witness : exists h,
  writes (H := Sip13Rounds) (new_with_keys 7 9) sample_chunks = Ok h
  /\ finish (H := Sip13Rounds) h = siphash (H := Sip13Rounds) 7 9 (concat sample_chunks).
Proof.
  apply (streaming_hash (H := Sip13Rounds)); [|done].
  repeat (constructor; [repeat constructor|]). constructor.
Defined.

(** The test vectors of the SipHash paper for the input 0, 1, .. 7 and of [hash_str] *)
Example sip24_vector :
  siphash (H := Sip24Rounds) 0x0706050403020100 0x0f0e0d0c0b0a0908 (map N.of_nat (seq 0 8))
  = 0x93f5f5799a932462.
Proof. vm_compute. reflexivity. Qed.
