(* ===== verification/Utf8.v ===== *)
(** * Decoding the output of a child process ([library/core/src/str/validations.rs],
    [library/core/src/str/lossy.rs], [String::from_utf8_lossy])

    The output of a process is bytes; the driver searches it as text.  [from_utf8_lossy] cuts
    bytes into valid pieces and broken characters, which it replaces by U+FFFD.  A byte is a
    number below 256, a code point a number.

    [lossy_roundtrip]: a text that was encoded as UTF-8 is read back unchanged. *)

From S2P Require Import Prelude Unicode Text SipHash.
From Stdlib Require Import ZifyBool ZifyN.
Open Scope N_scope.

(** ** [validations.rs] *)

Definition CONT_MASK : N := 0x3F.
Definition utf8_first_byte (byte width : N) : N := N.land byte (N.shiftr 0x7F width).
Definition utf8_acc_cont_byte (ch byte : N) : N := N.lor (N.shiftl ch 6) (N.land byte CONT_MASK).

(** The table [UTF8_CHAR_WIDTH] *)
Definition utf8_char_width (b : N) : N :=
  if b <? 0x80 then 1
  else if b <? 0xC2 then 0
  else if b <? 0xE0 then 2
  else if b <? 0xF0 then 3
  else if b <? 0xF5 then 4
  else 0.

(** The next code point and the bytes after it; [None] at the end *)
Definition next_code_point (bs : bytes) : outcome (option (N * bytes)) :=
  match bs with
  | [] => Ok None
  | x :: bs =>
      if x <? 128 then Ok (Some (x, bs))
      else
        let init := utf8_first_byte x 2 in
        match bs with
        | [] => Panic
        | y :: bs =>
            let ch := utf8_acc_cont_byte init y in
            if x <? 0xE0 then Ok (Some (ch, bs))
            else
              match bs with
              | [] => Panic
              | z :: bs =>
                  let y_z := utf8_acc_cont_byte (N.land y CONT_MASK) z in
                  let ch := N.lor (N.shiftl init 12) y_z in
                  if x <? 0xF0 then Ok (Some (ch, bs))
                  else
                    match bs with
                    | [] => Panic
                    | w :: bs => Ok (Some (N.lor (N.shiftl (N.land init 7) 18) (utf8_acc_cont_byte y_z w), bs))
                    end
              end
        end
  end.

(** [str::chars]; every code point takes a byte, so the length is fuel enough. *)
Fixpoint chars (fuel : nat) (bs : bytes) : outcome text :=
  match fuel with
  | O => Ok []
  | S fuel =>
      r ← next_code_point bs;
      match r with
      | None => Ok []
      | Some (c, bs) => s ← chars fuel bs; Ok (c :: s)
      end
  end.

(** ** [lossy.rs] *)

Definition safe_get (xs : bytes) (i : nat) : N := nth i xs 0.
Definition is_cont (b : N) : bool := N.land b 192 =? 128.
Definition within (lo hi b : N) : bool := (lo <=? b) && (b <=? hi).

(** One turn of the loop: how far it moves, and whether it found a character *)
Definition scan_char (byte : N) (rest : bytes) : nat * bool :=
  if byte <? 128 then (1%nat, true)
  else
    let get := safe_get rest in
    let w := utf8_char_width byte in
    if w =? 2 then (if is_cont (get 0%nat) then (2%nat, true) else (1%nat, false))
    else if w =? 3 then
      if ((byte =? 0xE0) && within 0xA0 0xBF (get 0%nat))
         || (within 0xE1 0xEC byte && within 0x80 0xBF (get 0%nat))
         || ((byte =? 0xED) && within 0x80 0x9F (get 0%nat))
         || (within 0xEE 0xEF byte && within 0x80 0xBF (get 0%nat))
      then (if is_cont (get 1%nat) then (3%nat, true) else (2%nat, false))
      else (1%nat, false)
    else if w =? 4 then
      if ((byte =? 0xF0) && within 0x90 0xBF (get 0%nat))
         || (within 0xF1 0xF3 byte && within 0x80 0xBF (get 0%nat))
         || ((byte =? 0xF4) && within 0x80 0x8F (get 0%nat))
      then if is_cont (get 1%nat)
           then (if is_cont (get 2%nat) then (4%nat, true) else (3%nat, false))
           else (2%nat, false)
      else (1%nat, false)
    else (1%nat, false).

(** The loop: [valid_up_to] and [i] *)
Fixpoint scan (fuel : nat) (src : bytes) : nat * nat :=
  match fuel, src with
  | S fuel, byte :: rest =>
      match scan_char byte rest with
      | (n, true) => let r := scan fuel (drop n src) in ((n + r.1)%nat, (n + r.2)%nat)
      | (n, false) => (0%nat, n)
      end
  | _, _ => (0%nat, 0%nat)
  end.

(** [Utf8LossyChunksIter::next]: a valid piece, a broken character, and the rest *)
Definition next_chunk (src : bytes) : option (bytes * bytes * bytes) :=
  match src with
  | [] => None
  | _ =>
      let r := scan (length src) src in
      let inspected := take r.2 src in
      Some (take r.1 inspected, drop r.1 inspected, drop r.2 src)
  end.

Fixpoint chunks (fuel : nat) (src : bytes) : list (bytes * bytes) :=
  match fuel with
  | O => []
  | S fuel =>
      match next_chunk src with
      | None => []
      | Some (valid, broken, rest) => (valid, broken) :: chunks fuel rest
      end
  end.

Definition REPLACEMENT : N := 0xFFFD.

Definition chunk_text (c : bytes * bytes) : outcome text :=
  s ← chars (length c.1) c.1; Ok (s ++ (if is_empty c.2 then [] else [REPLACEMENT])).
Definition from_utf8_lossy (v : bytes) : outcome text :=
  l ← map_outcome chunk_text (chunks (length v) v); Ok (concat l).

(** ** Encoded text *)

(** A Unicode scalar value *)
Definition is_scalar (c : N) : bool := (c <? 0xD800) || within 0xE000 0x10FFFF c.

Lemma land_ones_mod a k : N.land a (N.ones k) = a mod 2 ^ k.
Proof. apply N.land_ones. Qed.

(** A prefix of a byte above its value bits *)
Lemma lor_mask a m k : N.lor (N.land a (N.ones k)) (N.shiftl m k) = N.shiftl m k + a mod 2 ^ k.
Proof.
  rewrite land_ones_mod, lor_shift_add, N.shiftl_mul_pow2; [lia|]. by apply N.mod_upper_bound, N.pow_nonzero.
Qed.

Lemma cont_byte a : N.lor (N.land a 0x3F) 0x80 = 128 + a mod 64.
Proof.
  change 0x3F with (N.ones 6). change 0x80 with (N.shiftl 2 6). apply lor_mask.
Qed.

(** The bytes of a character, as numbers *)
Lemma utf8_char_arith c :
  utf8_char c =
  if c <? 0x80 then [c]
  else if c <? 0x800 then [192 + (c / 64) mod 32; 128 + c mod 64]
  else if c <? 0x10000 then [224 + (c / 4096) mod 16; 128 + (c / 64) mod 64; 128 + c mod 64]
  else [240 + (c / 262144) mod 8; 128 + (c / 4096) mod 64; 128 + (c / 64) mod 64; 128 + c mod 64].
Proof.
  unfold utf8_char. rewrite !cont_byte, !N.shiftr_div_pow2.
  change (2 ^ 6) with 64. change (2 ^ 12) with 4096. change (2 ^ 18) with 262144.
  change 0x1F with (N.ones 5). change 0xC0 with (N.shiftl 6 5). rewrite lor_mask.
  change 0x0F with (N.ones 4). change 0xE0 with (N.shiftl 14 4). rewrite lor_mask.
  change 0x07 with (N.ones 3). change 0xF0 with (N.shiftl 30 3). rewrite lor_mask. done.
Qed.

Lemma acc_cont ch y : utf8_acc_cont_byte ch y = 64 * ch + y mod 64.
Proof.
  unfold utf8_acc_cont_byte, CONT_MASK. change 0x3F with (N.ones 6).
  rewrite land_ones_mod, N.lor_comm, lor_shift_add by (apply N.mod_upper_bound; done).
  change (2 ^ 6) with 64. lia.
Qed.

Lemma first_byte x : utf8_first_byte x 2 = x mod 32.
Proof. unfold utf8_first_byte. change (N.shiftr 0x7F 2) with (N.ones 5). apply land_ones_mod. Qed.

Lemma is_cont_byte b : is_cont (128 + b mod 64) = true.
Proof.
  assert (forallb (fun k => is_cont (128 + N.of_nat k)) (seq 0 64) = true) as Hall by reflexivity.
  pose proof (N.mod_upper_bound b 64 ltac:(done)) as Hb.
  rewrite forallb_forall in Hall. specialize (Hall (N.to_nat (b mod 64))).
  rewrite N2Nat.id in Hall. apply Hall, in_seq. lia.
Qed.

(** The digits of a code point in base 64 *)
Lemma scalar_digits c : is_scalar c = true ->
  exists a b d e, c = 262144 * a + 4096 * b + 64 * d + e /\ a < 8 /\ b < 64 /\ d < 64 /\ e < 64
    /\ c / 262144 = a /\ (c / 4096) mod 64 = b /\ (c / 64) mod 64 = d /\ c mod 64 = e
    /\ (c < 0xD800 \/ 0xE000 <= c <= 0x10FFFF).
Proof.
  unfold is_scalar, within. intros Hs.
  exists (c / 262144), ((c / 4096) mod 64), ((c / 64) mod 64), (c mod 64).
  assert (c < 0xD800 \/ 0xE000 <= c <= 0x10FFFF) as Hr by lia. clear Hs.
  assert (c / 4096 = c / 64 / 64) as E1 by (by rewrite N.Div0.div_div).
  assert (c / 262144 = c / 64 / 64 / 64) as E2 by (by rewrite !N.Div0.div_div).
  rewrite E1, E2. pose proof (N.div_mod c 64 ltac:(done)).
  pose proof (N.div_mod (c / 64) 64 ltac:(done)). pose proof (N.div_mod (c / 64 / 64) 64 ltac:(done)).
  pose proof (N.mod_upper_bound c 64 ltac:(done)). pose proof (N.mod_upper_bound (c / 64) 64 ltac:(done)).
  pose proof (N.mod_upper_bound (c / 64 / 64) 64 ltac:(done)).
  split_and!; try done; lia.
Qed.

Lemma width_is b w :
  match w with
  | 2 => 0xC2 <= b < 0xE0
  | 3 => 0xE0 <= b < 0xF0
  | 4 => 0xF0 <= b < 0xF5
  | _ => False
  end -> utf8_char_width b = w.
Proof.
  intros H. unfold utf8_char_width.
  destruct (N.ltb_spec b 0x80), (N.ltb_spec b 0xC2), (N.ltb_spec b 0xE0), (N.ltb_spec b 0xF0), (N.ltb_spec b 0xF5);
    destruct w as [|[[[]|[]|]|[[]|[]|]|]]; try done; lia.
Qed.

Lemma scan_utf8_char c s : is_scalar c = true -> exists b rest,
  utf8_char c ++ s = b :: rest /\ scan_char b rest = (length (utf8_char c), true).
Proof.
  intros (a & b & d & e & Hc & Ha & Hb & Hd & He & Ea & Eb & Ed & Ee & Hr)%scalar_digits.
  rewrite utf8_char_arith. destruct (N.ltb_spec c 0x80) as [H1|H1].
  { eexists _, _. split; [reflexivity|]. unfold scan_char. by rewrite (proj2 (N.ltb_lt c 128)). }
  destruct (N.ltb_spec c 0x800) as [H2|H2]; [|destruct (N.ltb_spec c 0x10000) as [H3|H3]];
    (eexists _, _; split; [reflexivity|]); unfold scan_char; cbn [safe_get nth length app].
  - assert ((c / 64) mod 32 = d) as -> by lia. rewrite (width_is (192 + d) 2) by (cbn; lia).
    replace (192 + d <? 128) with false by lia. cbn [N.eqb Pos.eqb]. by rewrite is_cont_byte.
  - assert ((c / 4096) mod 16 = b) as -> by lia. rewrite (width_is (224 + b) 3) by (cbn; lia).
    replace (224 + b <? 128) with false by lia. cbn [N.eqb Pos.eqb]. rewrite is_cont_byte, Ed. unfold within.
    match goal with |- context [if ?x then _ else _] => replace x with true by lia end. done.
  - assert ((c / 262144) mod 8 = a) as -> by lia. rewrite (width_is (240 + a) 4) by (cbn; lia).
    replace (240 + a <? 128) with false by lia. cbn [N.eqb Pos.eqb]. rewrite !is_cont_byte, Eb. unfold within.
    match goal with |- context [if ?x then _ else _] => replace x with true by lia end. done.
Qed.

Lemma next_utf8_char c s : is_scalar c = true -> next_code_point (utf8_char c ++ s) = Ok (Some (c, s)).
Proof.
  intros (a & b & d & e & Hc & Ha & Hb & Hd & He & Ea & Eb & Ed & Ee & Hr)%scalar_digits.
  rewrite utf8_char_arith. unfold next_code_point. destruct (N.ltb_spec c 0x80) as [H1|H1].
  { cbn [app]. by rewrite (proj2 (N.ltb_lt c 128)). }
  rewrite Eb, Ed, Ee.
  destruct (N.ltb_spec c 0x800) as [H2|H2]; [|destruct (N.ltb_spec c 0x10000) as [H3|H3]]; cbn [app];
    rewrite !acc_cont, !first_byte.
  - assert ((c / 64) mod 32 = d) as -> by lia. replace (192 + d <? 128) with false by lia.
    replace (192 + d <? 224) with true by lia. do 3 f_equal. lia.
  - assert ((c / 4096) mod 16 = b) as -> by lia. replace (224 + b <? 128) with false by lia.
    replace (224 + b <? 224) with false by lia. replace (224 + b <? 240) with true by lia.
    unfold CONT_MASK. change 0x3F with (N.ones 6). rewrite land_ones_mod. change (2 ^ 6) with 64.
    rewrite N.lor_comm, lor_shift_add by (change (2 ^ 12) with 4096; lia).
    change (2 ^ 12) with 4096. do 3 f_equal. lia.
  - assert ((c / 262144) mod 8 = a) as -> by lia. replace (240 + a <? 128) with false by lia.
    replace (240 + a <? 224) with false by lia. replace (240 + a <? 240) with false by lia.
    unfold CONT_MASK. change 0x3F with (N.ones 6). change 7 with (N.ones 3). rewrite !land_ones_mod.
    change (2 ^ 6) with 64. change (2 ^ 3) with 8.
    rewrite N.lor_comm, lor_shift_add by (change (2 ^ 18) with 262144; lia).
    change (2 ^ 18) with 262144. do 3 f_equal. lia.
Qed.

(** ** Texts *)

Definition scalars (s : text) : Prop := Forall (fun c => is_scalar c = true) s.

Lemma utf8_cons c s : utf8 (c :: s) = utf8_char c ++ utf8 s.
Proof. done. Qed.
Lemma utf8_char_length c : (1 <= length (utf8_char c))%nat.
Proof. unfold utf8_char. repeat case_match; cbn; lia. Qed.

Lemma chars_utf8 s fuel : scalars s -> (length (utf8 s) <= fuel)%nat -> chars fuel (utf8 s) = Ok s.
Proof.
  intros Hs. revert fuel. induction Hs as [|c s Hc _ IH]; intros fuel Hf; [by destruct fuel|].
  rewrite utf8_cons, length_app in Hf. pose proof (utf8_char_length c).
  destruct fuel as [|fuel]; [lia|]. rewrite utf8_cons. cbn [chars]. rewrite next_utf8_char by done.
  cbn [mbind outcome_bind]. rewrite IH by lia. done.
Qed.

Lemma scan_utf8 s fuel : scalars s -> (length (utf8 s) <= fuel)%nat ->
  scan fuel (utf8 s) = (length (utf8 s), length (utf8 s)).
Proof.
  intros Hs. revert fuel. induction Hs as [|c s Hc _ IH]; intros fuel Hf; [by destruct fuel|].
  rewrite utf8_cons in *. rewrite length_app in Hf |- *. pose proof (utf8_char_length c).
  destruct fuel as [|fuel]; [lia|].
  destruct (scan_utf8_char c (utf8 s) Hc) as (b & rest & E & Hscan). rewrite E. cbn [scan]. rewrite Hscan, <- E.
  rewrite drop_app_length, IH by lia. done.
Qed.

(** [String::from_utf8_lossy] on bytes that encode a text (of Unicode scalar values): the
    text is read back, nothing is replaced. *)
Theorem lossy_roundtrip s : scalars s -> from_utf8_lossy (utf8 s) = Ok s.
Proof.
  intros Hs. unfold from_utf8_lossy.
  assert (chunks (length (utf8 s)) (utf8 s) = if is_empty (utf8 s) then [] else [(utf8 s, [])]) as ->.
  { destruct (utf8 s) as [|b bs] eqn:E; [done|]. cbn [chunks length next_chunk is_empty]. rewrite <- E.
    change (S (length bs)) with (length (b :: bs)). rewrite <- E, scan_utf8 by done. cbn [fst snd].
    rewrite !firstn_all, !drop_all. by destruct (length bs). }
  destruct (utf8 s) as [|b bs] eqn:E; cbn [is_empty].
  - cbn. destruct Hs as [|c s _ _]; [done|]. pose proof (utf8_char_length c).
    rewrite utf8_cons in E. apply app_nil in E as [E _]. rewrite E in H. cbn in H. lia.
  - rewrite <- E. unfold map_outcome. cbn [map sequence chunk_text fst snd is_empty]. unfold chunk_text.
    cbn [fst snd is_empty]. rewrite chars_utf8 by done. cbn. by rewrite !app_nil_r.
Qed.

(** Latin, Greek, CJK and an emoji; a broken sequence is replaced once. *)
Lemma lossy_roundtrip_witness :
  from_utf8_lossy (utf8 [97; 0x3B1; 0x4E2D; 0x1F600]) = Ok [97; 0x3B1; 0x4E2D; 0x1F600].
Proof. apply lossy_roundtrip. repeat constructor. Defined.
Example lossy_broken : from_utf8_lossy [97; 0xE4; 0xB8; 98] = Ok [97; REPLACEMENT; 98].
Proof. reflexivity. Qed.
