(* ===== verification/Read2.v ===== *)
(** * Output of a child process ([src/tools/compiletest/src/read2.rs])

    The compile-test driver reads both pipes of a child at once: [read2] polls them, appends
    what is there to two buffers and hands each buffer to a callback, which empties it.  The
    callback of [read2_abbreviated] keeps everything up to [HEAD_LEN + TAIL_LEN] bytes and
    after that only a head and the last [TAIL_LEN] bytes.

    The operating system is the environment: a poll tells which pipe is ready or fails; each
    read of a pipe takes the next element of a script that says which bytes it appends and
    how it ends ([Eof], [WouldBlock] or an error).  The bytes of a pipe are those of its
    script up to the end of file.

    The theorems: when [read2] returns, the callback has been given exactly the bytes of each
    pipe, in order ([read2_delivers]); what is kept of a stream is determined by the stream,
    except for the length of the head, and the announced number of skipped bytes counts bytes
    that are still in the head ([abbreviated_output]). *)

From S2P Require Import Prelude Unicode Text.

Definition HEAD_LEN : nat := 160 * 1024.
Definition TAIL_LEN : nat := 256 * 1024.
#[global] Opaque HEAD_LEN TAIL_LEN.

(** ** [ProcOutput] *)

Inductive ProcOutput :=
| Full (bytes : list N)
| Abbreviated (head : list N) (skipped : N) (tail : list N).

(** [slice::copy_from_slice]: the lengths must agree *)
Definition copy_from_slice (dst src : list N) : outcome (list N) :=
  if (length dst =? length src)%nat then Ok src else Panic.

(** [slice::rotate_left] *)
Definition rotate_left (l : list N) (mid : nat) : outcome (list N) :=
  if (mid <=? length l)%nat then Ok (drop mid l ++ take mid l) else Panic.

Definition extend (self : ProcOutput) (data : list N) : outcome ProcOutput :=
  match self with
  | Full bytes =>
      let bytes := bytes ++ data in
      let new_len := length bytes in
      if (new_len <=? HEAD_LEN + TAIL_LEN)%nat then Ok (Full bytes)
      else
        let at_ := (new_len - TAIL_LEN)%nat in
        let tail := drop at_ bytes in
        let head := take at_ bytes in
        let skipped := N.of_nat (new_len - HEAD_LEN - TAIL_LEN) in
        Ok (Abbreviated head skipped tail)
  | Abbreviated head skipped tail =>
      skipped ← u64_add skipped (N.of_nat (length data));
      tail ← (if (length data <=? TAIL_LEN)%nat then
                if (length data <=? length tail)%nat then
                  copied ← copy_from_slice (take (length data) tail) data;
                  rotate_left (copied ++ drop (length data) tail) (length data)
                else Panic
              else copy_from_slice tail (drop (length data - TAIL_LEN) data));
      Ok (Abbreviated head skipped tail)
  end.

Definition skipped_note (skipped : N) : list N :=
  [newline; newline] ++ lit "<<<<<< SKIPPED " ++ dec skipped ++ lit " BYTES >>>>>>"
  ++ [newline; newline].

Definition into_bytes (self : ProcOutput) : list N :=
  match self with
  | Full bytes => bytes
  | Abbreviated head skipped tail => head ++ skipped_note skipped ++ tail
  end.

(** ** [imp::read2] on Unix *)

Inductive PollResult :=
| Ready (out err : bool)   (* which pipes have an event *)
| Interrupted              (* [r == -1] with [ErrorKind::Interrupted] *)
| PollError.               (* [r == -1] otherwise *)

(** A call of [read_to_end]: the bytes it appends and how it ends *)
Inductive ReadEnd := Eof | WouldBlock | ReadError.
Record Read := mkRead { read_bytes : list N; read_end : ReadEnd }.

Inductive Fd := OutPipe | ErrPipe.

(** The local variables; [fds] are the two entries of the array with their [revents].
    [nfds] counts the pipes that are not done, so it is never decremented at 0. *)
Record PollState := mkPollState {
  out_done : bool; err_done : bool;
  out : list N; err : list N;
  fds : (Fd * bool) * (Fd * bool);
  nfds : nat;
  errfd : bool;              (* true: index 1, false: index 0 *)
  out_pipe : list Read; err_pipe : list Read;
}.

Definition initial_poll (out_pipe err_pipe : list Read) : PollState :=
  mkPollState false false [] [] ((OutPipe, false), (ErrPipe, false)) 2 true out_pipe err_pipe.

(** [poll] sets the events of the first [nfds] entries. *)
Definition poll_fds (s : PollState) (ready_out ready_err : bool) : (Fd * bool) * (Fd * bool) :=
  let ready fd := match fd with OutPipe => ready_out | ErrPipe => ready_err end in
  let set (k : nat) (e : Fd * bool) := if (k <? nfds s)%nat then (e.1, ready e.1) else e in
  (set 0%nat (fds s).1, set 1%nat (fds s).2).

(** [handle(pipe.read_to_end(&mut buf))?] *)
Definition handle (pipe : list Read) (buf : list N) : option (list Read * list N * bool) :=
  match pipe with
  | mkRead b Eof :: pipe => Some (pipe, buf ++ b, true)
  | mkRead b WouldBlock :: pipe => Some (pipe, buf ++ b, false)
  | mkRead _ ReadError :: _ | [] => None
  end.

(** ** The loop

    [D] is the state of the callback; [data is_stdout buf done d] returns the buffer it
    leaves. *)
Section Loop.
Context {D : Type} (data : bool -> list N -> bool -> D -> outcome (list N * D)).

(** One round after a successful poll; [None] is the early return with an error. *)
Definition read_round (s : PollState) (d : D) (ready_out ready_err : bool)
    : outcome (option (PollState * D)) :=
  let fds := poll_fds s ready_out ready_err in
  let revents_err := if errfd s then fds.2.2 else fds.1.2 in
  let err_step :=
    if negb (err_done s) && revents_err then
      match handle (err_pipe s) (err s) with
      | Some (pipe, buf, true) => Some (pipe, buf, true, (nfds s - 1)%nat)
      | Some (pipe, buf, false) => Some (pipe, buf, err_done s, nfds s)
      | None => None
      end
    else Some (err_pipe s, err s, err_done s, nfds s) in
  match err_step with
  | None => Ok None
  | Some (err_pipe, err, err_done, nfds) =>
      r ← data false err err_done d;
      let err := r.1 in let d := r.2 in
      let out_step :=
        if negb (out_done s) && fds.1.2 then
          match handle (out_pipe s) (out s) with
          | Some (pipe, buf, true) => Some (pipe, buf, true, (ErrPipe, fds.1.2), false, (nfds - 1)%nat)
          | Some (pipe, buf, false) => Some (pipe, buf, out_done s, fds.1, errfd s, nfds)
          | None => None
          end
        else Some (out_pipe s, out s, out_done s, fds.1, errfd s, nfds) in
      match out_step with
      | None => Ok None
      | Some (out_pipe, out, out_done, fd0, errfd, nfds) =>
          r ← data true out out_done d;
          Ok (Some (mkPollState out_done err_done r.1 err (fd0, fds.2) nfds errfd out_pipe err_pipe, r.2))
      end
  end.

(** [while nfds > 0], along the results of [poll]; [None] when [read2] returned an error,
    and no result when it is still waiting after them. *)
Fixpoint read2_loop (polls : list PollResult) (s : PollState) (d : D) : option (outcome (option D)) :=
  if (nfds s =? 0)%nat then Some (Ok (Some d))
  else
    match polls with
    | [] => None
    | Interrupted :: polls => read2_loop polls s d
    | PollError :: _ => Some (Ok None)
    | Ready o e :: polls =>
        match read_round s d o e with
        | Ok (Some (s, d)) => read2_loop polls s d
        | Ok None => Some (Ok None)
        | Panic => Some Panic
        end
    end.

Definition read2 (polls : list PollResult) (out_pipe err_pipe : list Read) (d : D)
    : option (outcome (option D)) :=
  read2_loop polls (initial_poll out_pipe err_pipe) d.

End Loop.

(** ** [read2_abbreviated] *)

(** The closure: the buffer goes to the stream it was read from and is cleared. *)
Definition abbreviating (is_stdout : bool) (data : list N) (_ : bool) (d : ProcOutput * ProcOutput)
    : outcome (list N * (ProcOutput * ProcOutput)) :=
  if is_stdout then o ← extend d.1 data; Ok ([], (o, d.2))
  else e ← extend d.2 data; Ok ([], (d.1, e)).

(** The bytes of the child's output and error streams; waiting for the child is outside. *)
Definition read2_abbreviated (polls : list PollResult) (out_pipe err_pipe : list Read)
    : option (outcome (option (list N * list N))) :=
  match read2 abbreviating polls out_pipe err_pipe (Full [], Full []) with
  | Some (Ok (Some d)) => Some (Ok (Some (into_bytes d.1, into_bytes d.2)))
  | Some (Ok None) => Some (Ok None)
  | Some Panic => Some Panic
  | None => None
  end.

(** ** What is kept of a stream *)

Inductive keeps (s : list N) : ProcOutput -> Prop :=
| keeps_all : (length s <= HEAD_LEN + TAIL_LEN)%nat -> keeps s (Full s)
| keeps_ends n :
    (HEAD_LEN < n)%nat -> (n + TAIL_LEN <= length s)%nat ->
    keeps s (Abbreviated (take n s) (N.of_nat (length s - HEAD_LEN - TAIL_LEN))
               (drop (length s - TAIL_LEN) s)).
#[export] Hint Constructors keeps : core.

Lemma extend_full s b : (length s <= HEAD_LEN + TAIL_LEN)%nat ->
  exists d, extend (Full s) b = Ok d /\ keeps (s ++ b) d.
Proof.
  intros Hs. unfold extend. destruct (Nat.leb_spec (length (s ++ b)) (HEAD_LEN + TAIL_LEN)) as [Hl|Hl]; eauto.
  eexists. split; [done|]. apply keeps_ends; lia.
Qed.

Lemma extend_abbreviated s n b :
  (HEAD_LEN < n)%nat -> (n + TAIL_LEN <= length s)%nat ->
  (N.of_nat (length (s ++ b)) <= u64_max)%N ->
  exists d, extend (Abbreviated (take n s) (N.of_nat (length s - HEAD_LEN - TAIL_LEN))
                      (drop (length s - TAIL_LEN) s)) b = Ok d /\ keeps (s ++ b) d.
Proof.
  intros Hn Hs Hlen. rewrite length_app in Hlen. unfold extend, u64_add, in_u64.
  rewrite (proj2 (N.leb_le _ _)) by lia. cbn [mbind outcome_bind].
  assert (length (drop (length s - TAIL_LEN) s) = TAIL_LEN) as Ht by (rewrite length_drop; lia).
  assert (take n s = take n (s ++ b)) as -> by (by rewrite take_app_le by lia).
  assert (N.of_nat (length s - HEAD_LEN - TAIL_LEN) + N.of_nat (length b)
          = N.of_nat (length (s ++ b) - HEAD_LEN - TAIL_LEN))%N as -> by (rewrite length_app; lia).
  assert (forall t, t = drop (length (s ++ b) - TAIL_LEN) (s ++ b) ->
    keeps (s ++ b) (Abbreviated (take n (s ++ b)) (N.of_nat (length (s ++ b) - HEAD_LEN - TAIL_LEN)) t))
    as Hk by (intros t ->; apply keeps_ends; [done|rewrite length_app; lia]).
  destruct (Nat.leb_spec (length b) TAIL_LEN) as [Hb|Hb].
  - rewrite Ht, (proj2 (Nat.leb_le _ _)) by done. unfold copy_from_slice, rotate_left.
    rewrite length_take, Ht, Nat.min_l, Nat.eqb_refl by done. cbn [mbind outcome_bind].
    rewrite (proj2 (Nat.leb_le _ (length (b ++ _)))) by (rewrite length_app; lia).
    cbn [mbind outcome_bind]. eexists. split; [done|]. apply Hk.
    rewrite drop_app_length, take_app_length, drop_drop, length_app, drop_app_le by lia.
    do 2 f_equal. lia.
  - unfold copy_from_slice. rewrite Ht, length_drop.
    replace (length b - (length b - TAIL_LEN))%nat with TAIL_LEN by lia. rewrite Nat.eqb_refl.
    cbn [mbind outcome_bind]. eexists. split; [done|]. apply Hk.
    rewrite length_app, drop_app_ge by lia. f_equal. lia.
Qed.

Lemma extend_keeps s d b :
  keeps s d -> (N.of_nat (length (s ++ b)) <= u64_max)%N ->
  exists d', extend d b = Ok d' /\ keeps (s ++ b) d'.
Proof. intros [Hs|n Hn Hs] Hlen; [by apply extend_full | by apply extend_abbreviated]. Qed.

(** ** The rounds of [read2] *)

(** The bytes of a pipe: what its reads append, up to the end of file *)
Fixpoint stream (pipe : list Read) : option (list N) :=
  match pipe with
  | [] => None
  | mkRead b Eof :: _ => Some b
  | mkRead b WouldBlock :: pipe => app b <$> stream pipe
  | mkRead _ ReadError :: _ => None
  end.

(** What is still to be read *)
Definition rest (done : bool) (pipe : list Read) : option (list N) :=
  if done then Some [] else stream pipe.

Definition read_pipe (done ready : bool) (pipe : list Read) : option (list Read * list N * bool) :=
  if negb done && ready then handle pipe [] else Some (pipe, [], done).

Lemma read_pipe_rest done ready pipe r :
  rest done pipe = Some r ->
  exists pipe' b done' r', read_pipe done ready pipe = Some (pipe', b, done')
    /\ rest done' pipe' = Some r' /\ r = b ++ r'
    /\ (length pipe' <= length pipe)%nat
    /\ (done' = false -> done = false /\ (ready = true -> (length pipe' < length pipe)%nat)).
Proof.
  unfold rest, read_pipe. destruct done; cbn [negb andb];
    [intros [= <-]; by exists pipe, [], true, []|].
  destruct ready; [|intros Hr; exists pipe, [], false, r; by split_and!].
  destruct pipe as [|[b []] pipe]; cbn; [done|intros [= <-]; exists pipe, b, true, [] | |done].
  - rewrite app_nil_r. auto with lia.
  - destruct (stream pipe) as [r'|] eqn:E; [|done]. intros [= <-].
    exists pipe, b, false, r'. auto with lia.
Qed.

Definition poll_inv (s : PollState) : Prop :=
  nfds s = ((if out_done s then 0 else 1) + (if err_done s then 0 else 1))%nat
  /\ out s = [] /\ err s = [] /\ errfd s = negb (out_done s)
  /\ (fds s).1.1 = (if out_done s then ErrPipe else OutPipe) /\ (fds s).2.1 = ErrPipe.

Section Delivery.
Context {D : Type} (f : bool -> list N -> D -> outcome D).

(** A callback that clears the buffer it is given *)
Definition clearing (is_stdout : bool) (buf : list N) (_ : bool) (d : D) : outcome (list N * D) :=
  d ← f is_stdout buf d; Ok ([], d).

(** Under the invariant a round reads exactly the pipes that are ready and not done. *)
Lemma read_round_spec s d ro re pe be de po bo do_ d1 d2 :
  poll_inv s ->
  read_pipe (err_done s) re (err_pipe s) = Some (pe, be, de) ->
  read_pipe (out_done s) ro (out_pipe s) = Some (po, bo, do_) ->
  f false be d = Ok d1 -> f true bo d1 = Ok d2 ->
  exists s', read_round clearing s d ro re = Ok (Some (s', d2)) /\ poll_inv s'
    /\ out_done s' = do_ /\ err_done s' = de /\ out_pipe s' = po /\ err_pipe s' = pe.
Proof.
  intros (Hn & Ho & He & Hf & H1 & H2) Hpe Hpo Hf1 Hf2.
  destruct s as [od ed ob eb [[fd0 r0] [fd1 r1]] n ei op ep]; cbn in *. subst.
  unfold read_pipe, read_round, poll_fds, clearing, poll_inv in *.
  destruct od, ed, ro, re; cbn in *;
    repeat match goal with
    | H : Some _ = Some _ |- _ => injection H as <- <- <-
    | H : handle ?p [] = Some _ |- _ => rewrite H; clear H
    | H : f _ _ _ = Ok _ |- context [f _ _ _] => rewrite H; cbn
    | |- context [if ?b then _ else _] => is_var b; destruct b; cbn
    end; eexists; split_and!; done.
Qed.

(** [Rep o e d]: the callback was given the bytes [o] of one pipe and [e] of the other. *)
Context (Rep : list N -> list N -> D -> Prop).
Definition fits (b : list N) : Prop := (N.of_nat (length b) <= u64_max)%N.
Hypothesis f_out : forall o e d b, Rep o e d -> fits (o ++ b) ->
  exists d', f true b d = Ok d' /\ Rep (o ++ b) e d'.
Hypothesis f_err : forall o e d b, Rep o e d -> fits (e ++ b) ->
  exists d', f false b d = Ok d' /\ Rep o (e ++ b) d'.

Lemma fits_prefix a b : fits (a ++ b) -> fits a.
Proof. unfold fits. rewrite length_app. lia. Qed.

(** Reads that are left *)
Definition left_ (done : bool) (pipe : list Read) : nat := if done then 0 else length pipe.
Definition reads_left (s : PollState) : nat :=
  (left_ (out_done s) (out_pipe s) + left_ (err_done s) (err_pipe s))%nat.

(** Polls after which both pipes are read *)
Definition both_ready (r : PollResult) : bool := match r with Ready true true => true | _ => false end.
Definition full_polls (polls : list PollResult) : nat := length (List.filter both_ready polls).

Lemma round_delivers s d o e ro re ready_out ready_err :
  poll_inv s -> rest (out_done s) (out_pipe s) = Some ro -> rest (err_done s) (err_pipe s) = Some re ->
  Rep o e d -> fits (o ++ ro) -> fits (e ++ re) ->
  exists s' d' bo be ro' re', read_round clearing s d ready_out ready_err = Ok (Some (s', d'))
    /\ poll_inv s' /\ rest (out_done s') (out_pipe s') = Some ro' /\ rest (err_done s') (err_pipe s') = Some re'
    /\ ro = bo ++ ro' /\ re = be ++ re' /\ Rep (o ++ bo) (e ++ be) d'
    /\ (reads_left s' <= reads_left s)%nat
    /\ (nfds s <> 0%nat -> ready_out = true -> ready_err = true -> (reads_left s' < reads_left s)%nat).
Proof.
  intros Hinv Hro Hre Hrep Ho He.
  destruct (read_pipe_rest _ ready_err _ _ Hre) as (pe & be & de & re' & Hpe & Hre' & -> & Hle & Hde).
  destruct (read_pipe_rest _ ready_out _ _ Hro) as (po & bo & do_ & ro' & Hpo & Hro' & -> & Hlo & Hdo).
  rewrite app_assoc in Ho, He.
  destruct (f_err o e d be) as (d1 & Hd1 & Hrep1); [done|by eapply fits_prefix|].
  destruct (f_out o (e ++ be) d1 bo) as (d2 & Hd2 & Hrep2); [done|by eapply fits_prefix|].
  destruct (read_round_spec _ _ _ _ _ _ _ _ _ _ _ _ Hinv Hpe Hpo Hd1 Hd2)
    as (s' & Hs' & Hinv' & E1 & E2 & E3 & E4).
  exists s', d2, bo, be, ro', re'. subst de do_ pe po.
  assert (forall done pipe r, rest done pipe = Some r -> done = false -> (0 < length pipe)%nat) as Hpos.
  { intros dn [|x pipe] r Hr ->; [done|cbn; lia]. }
  split_and!; try done; unfold reads_left, left_.
  - destruct (out_done s'), (err_done s'), (out_done s), (err_done s); try lia;
      try (destruct Hdo as [? _]; [done|]); try (destruct Hde as [? _]; [done|]); try done; lia.
  - intros Hn -> ->. destruct Hinv as (Hn' & _).
    pose proof (Hpos _ _ _ Hro) as P1. pose proof (Hpos _ _ _ Hre) as P2.
    destruct (out_done s) eqn:Q1, (err_done s) eqn:Q2; cbn in Hn'; [lia|..];
      destruct (out_done s'), (err_done s');
      try (destruct (Hdo eq_refl) as [R1 R2]; try done; specialize (R2 eq_refl));
      try (destruct (Hde eq_refl) as [R3 R4]; try done; specialize (R4 eq_refl));
      try specialize (P1 eq_refl); try specialize (P2 eq_refl); lia.
Qed.

Lemma loop_delivers polls : forall s d o e ro re,
  poll_inv s -> rest (out_done s) (out_pipe s) = Some ro -> rest (err_done s) (err_pipe s) = Some re ->
  Rep o e d -> fits (o ++ ro) -> fits (e ++ re) ->
  match read2_loop clearing polls s d with
  | Some (Ok (Some d')) => Rep (o ++ ro) (e ++ re) d'
  | Some (Ok None) => PollError ∈ polls
  | Some Panic => False
  | None => (full_polls polls < reads_left s)%nat
  end.
Proof.
  assert (forall s ro re, poll_inv s -> nfds s = 0%nat -> rest (out_done s) (out_pipe s) = Some ro ->
    rest (err_done s) (err_pipe s) = Some re -> ro = [] /\ re = []) as Hend.
  { intros s ro re (Hn & _) Hz Hro Hre. rewrite Hz in Hn.
    destruct (out_done s), (err_done s); try done. by injection Hro as <-; injection Hre as <-. }
  assert (forall s ro re, poll_inv s -> nfds s <> 0%nat -> rest (out_done s) (out_pipe s) = Some ro ->
    rest (err_done s) (err_pipe s) = Some re -> (0 < reads_left s)%nat) as Hpos.
  { intros s ro re (Hn & _) Hz Hro Hre. unfold reads_left, left_.
    destruct (out_done s), (err_done s); try done; cbn in Hro, Hre;
      [destruct (err_pipe s) | destruct (out_pipe s) | destruct (out_pipe s)]; done || (cbn; lia). }
  induction polls as [|r polls IH]; intros s d o e ro re Hinv Hro Hre Hrep Ho He; cbn [read2_loop];
    (destruct (Nat.eqb_spec (nfds s) 0) as [Hz|Hz];
      [by destruct (Hend _ _ _ Hinv Hz Hro Hre) as [-> ->]; rewrite !app_nil_r|]).
  - change (full_polls []) with 0%nat. eauto.
  - destruct r as [ro1 re1| |].
    + destruct (round_delivers s d o e ro re ro1 re1)
        as (s' & d' & bo & be & ro' & re' & -> & Hinv' & Hro' & Hre' & -> & -> & Hrep' & Hle & Hlt); [done..|].
      rewrite app_assoc in Ho, He. rewrite (app_assoc o bo ro'), (app_assoc e be re').
      specialize (IH s' d' (o ++ bo) (e ++ be) ro' re' Hinv' Hro' Hre' Hrep' Ho He).
      destruct (read2_loop clearing polls s' d') as [[[d''|]|]|]; [exact IH|by right|exact IH|].
      unfold full_polls in *. cbn [List.filter]. destruct (both_ready (Ready ro1 re1)) eqn:E; [|lia].
      destruct ro1, re1; try done. specialize (Hlt Hz eq_refl eq_refl). cbn [length]. lia.
    + specialize (IH s d o e ro re Hinv Hro Hre Hrep Ho He).
      destruct (read2_loop clearing polls s d) as [[[d''|]|]|]; [exact IH|by right|exact IH|exact IH].
    + by left.
Qed.

End Delivery.

(** ** The output of a child *)

(** What becomes of a stream: all of it, or a head longer than [HEAD_LEN], a note, and the
    last [TAIL_LEN] bytes.  The note counts the bytes beyond [HEAD_LEN] and [TAIL_LEN]. *)
Definition shown (s b : list N) : Prop :=
  if (length s <=? HEAD_LEN + TAIL_LEN)%nat then b = s
  else exists n, (HEAD_LEN < n)%nat /\ (n + TAIL_LEN <= length s)%nat
    /\ b = take n s ++ skipped_note (N.of_nat (length s - HEAD_LEN - TAIL_LEN))
            ++ drop (length s - TAIL_LEN) s.

Lemma keeps_shown s d : keeps s d -> shown s (into_bytes d).
Proof.
  unfold shown. intros [Hs|n Hn Hs]; cbn [into_bytes].
  - by rewrite (proj2 (Nat.leb_le _ _)).
  - rewrite (proj2 (Nat.leb_gt _ _)) by lia. eauto.
Qed.

Lemma keeps_nil : keeps [] (Full []).
Proof. apply keeps_all. cbn. lia. Qed.

(** The callback of [read2_abbreviated], as one that clears its buffer *)
Definition extend_stream (is_stdout : bool) (b : list N) (d : ProcOutput * ProcOutput)
    : outcome (ProcOutput * ProcOutput) :=
  if is_stdout then o ← extend d.1 b; Ok (o, d.2) else e ← extend d.2 b; Ok (d.1, e).

Lemma loop_ext {D} (g h : bool -> list N -> bool -> D -> outcome (list N * D)) polls :
  (forall a b c d, g a b c d = h a b c d) ->
  forall s d, read2_loop g polls s d = read2_loop h polls s d.
Proof.
  intros Hgh. induction polls as [|r polls IH]; intros s d; cbn [read2_loop]; [done|].
  destruct (nfds s =? 0)%nat; [done|]. destruct r as [o e| |]; [|apply IH|done].
  assert (read_round g s d o e = read_round h s d o e) as ->.
  { unfold read_round. repeat (case_match; try done); rewrite Hgh;
      destruct (h _ _ _ _) as [[? ?]|]; cbn; try done; rewrite ?Hgh; done. }
  destruct (read_round h s d o e) as [[[s' d']|]|]; [apply IH|done|done].
Qed.

Lemma abbreviated_loop polls out_pipe err_pipe so se :
  stream out_pipe = Some so -> stream err_pipe = Some se -> fits so -> fits se ->
  match read2 abbreviating polls out_pipe err_pipe (Full [], Full []) with
  | Some (Ok (Some d)) => keeps so d.1 /\ keeps se d.2
  | Some (Ok None) => PollError ∈ polls
  | Some Panic => False
  | None => (full_polls polls < length out_pipe + length err_pipe)%nat
  end.
Proof.
  intros Ho He Fo Fe. unfold read2. rewrite (loop_ext _ (clearing extend_stream)).
  2:{ intros [] b c [d1 d2]; unfold abbreviating, clearing, extend_stream; cbn; by destruct (extend _ b). }
  refine (loop_delivers extend_stream (fun o e d => keeps o d.1 /\ keeps e d.2) _ _ polls
            (initial_poll out_pipe err_pipe) (Full [], Full []) [] [] so se _ Ho He _ Fo Fe).
  - intros o e [d1 d2] b [H1 H2] Hf. destruct (extend_keeps o d1 b) as (d' & Hd & Hk); [done..|].
    exists (d', d2). unfold extend_stream. cbn in *. by rewrite Hd.
  - intros o e [d1 d2] b [H1 H2] Hf. destruct (extend_keeps e d2 b) as (d' & Hd & Hk); [done..|].
    exists (d1, d'). unfold extend_stream. cbn in *. by rewrite Hd.
  - done.
  - split; apply keeps_nil.
Qed.

(** C35. [read2_abbreviated]: for pipes that can be read to their end, whatever the polls
    report and however the reads cut the streams, reading does not panic; it fails only when
    a poll fails; it returns once enough polls have found both pipes ready; and what it
    returns shows each stream: all of it up to [HEAD_LEN + TAIL_LEN] bytes, and otherwise a
    head, the note and the last [TAIL_LEN] bytes.  The head is always longer than [HEAD_LEN],
    so the note announces more skipped bytes than are missing. *)
Theorem child_output_captured polls out_pipe err_pipe so se :
  stream out_pipe = Some so -> stream err_pipe = Some se -> fits so -> fits se ->
  match read2_abbreviated polls out_pipe err_pipe with
  | Some (Ok (Some (bo, be))) => shown so bo /\ shown se be
  | Some (Ok None) => PollError ∈ polls
  | Some Panic => False
  | None => (full_polls polls < length out_pipe + length err_pipe)%nat
  end.
Proof.
  intros Ho He Fo Fe. pose proof (abbreviated_loop polls _ _ _ _ Ho He Fo Fe) as H.
  unfold read2_abbreviated. destruct (read2 _ _ _ _ _) as [[[d|]|]|]; [|done..].
  destruct H as [H1 H2]. by split; apply keeps_shown.
Qed.

(** The streams "ab" and "x", read in pieces; the error stream ends first. *)
Definition sample_out : list Read := [mkRead [97%N] WouldBlock; mkRead [98%N] Eof].
Definition sample_err : list Read := [mkRead [120%N] Eof].
Definition sample_polls : list PollResult := [Interrupted; Ready true true; Ready true true; Ready false true].

Lemma child_output_captured_witness :
  match read2_abbreviated sample_polls sample_out sample_err with
  | Some (Ok (Some (bo, be))) => shown [97; 98]%N bo /\ shown [120]%N be
  | Some (Ok None) => PollError ∈ sample_polls
  | Some Panic => False
  | None => (full_polls sample_polls < length sample_out + length sample_err)%nat
  end.
Proof. by apply (child_output_captured sample_polls sample_out sample_err). Defined.

(** A stream that is one byte too long, read at once: nothing is missing, but the note says
    that one byte was skipped. *)
Lemma nothing_skipped b :
  length b = S (HEAD_LEN + TAIL_LEN) ->
  exists head tail, extend (Full []) b = Ok (Abbreviated head 1 tail) /\ head ++ tail = b.
Proof.
  intros Hb. unfold extend. cbn [app]. rewrite Hb, (proj2 (Nat.leb_gt _ _)) by lia.
  replace (N.of_nat (S (HEAD_LEN + TAIL_LEN) - HEAD_LEN - TAIL_LEN)) with 1%N by lia.
  eexists _, _. split; [done|]. apply take_drop.
Qed.
