(* ===== verification/LibTest.v ===== *)
(** * The test harness library: tests, results and the console state ([library/test/src])

    The compile-test driver hands its tests to Rust's own test library.  This file has the
    data of that library ([types.rs], [options.rs], [event.rs], [cli.rs]), the selection and
    order of tests ([filter_tests] in [lib.rs], the shuffle of [helpers/shuffle.rs]), the
    verdict on a finished test ([test_result.rs], [time.rs]) and the console state that
    counts verdicts ([console.rs]).  TestRun has the scheduler.

    Test functions are a type [F], benchmarks a type [B].  A panic carries a payload: a
    string, or something that is known by its type.  Durations are in nanoseconds.  What
    formatters print, the summary of a benchmark (floating point) and metrics are outside;
    the log file is the text written to it. *)

From S2P Require Import Prelude Unicode Text SipHash.
Open Scope N_scope.

(** ** [options.rs] *)

Inductive Concurrent := ConcurrentYes | ConcurrentNo.
Inductive ShouldPanic := PanicNo | PanicYes | PanicYesWithMessage (msg : text).
#[export] Instance ShouldPanic_eq_dec : EqDecision ShouldPanic.
Proof. solve_decision. Defined.
Inductive ColorConfig := AutoColor | AlwaysColor | NeverColor.
Inductive OutputFormat := Pretty | Terse | Json | Junit.
Inductive RunIgnored := IgnoredYes | IgnoredNo | IgnoredOnly.
Inductive RunStrategy := InProcess | SpawnPrimary.
Record Options := mkOptions { display_output : bool; panic_abort : bool }.
Definition options_new : Options := mkOptions false false.

(** ** [types.rs] *)

Inductive TestType := UnitTest | IntegrationTest | DocTest | UnknownType.
Inductive NamePadding := PadNone | PadOnRight.
#[export] Instance NamePadding_eq_dec : EqDecision NamePadding.
Proof. solve_decision. Defined.
Inductive TestName :=
| StaticTestName (s : text)
| DynTestName (s : text)
| AlignedTestName (s : text) (padding : NamePadding).
Definition as_slice (n : TestName) : text :=
  match n with StaticTestName s | DynTestName s | AlignedTestName s _ => s end.
Definition with_padding (n : TestName) (p : NamePadding) : TestName := AlignedTestName (as_slice n) p.

Record TestDesc := mkTestDesc {
  name : TestName;
  ignore : bool;
  should_panic : ShouldPanic;
  allow_fail : bool;
  compile_fail : bool;
  no_run : bool;
  test_type : TestType;
}.
Definition set_ignore (d : TestDesc) (b : bool) : TestDesc :=
  mkTestDesc (name d) b (should_panic d) (allow_fail d) (compile_fail d) (no_run d) (test_type d).
Definition set_name (d : TestDesc) (n : TestName) : TestDesc :=
  mkTestDesc n (ignore d) (should_panic d) (allow_fail d) (compile_fail d) (no_run d) (test_type d).

(** [TestDesc::padded_name], [TestDesc::test_mode] *)
Definition padded_name (d : TestDesc) (column_count : nat) (align : NamePadding) : text :=
  let name := as_slice (name d) in
  match align with
  | PadNone => name
  | PadOnRight => name ++ replicate (column_count - length (utf8 name)) space
  end.
Definition test_mode (d : TestDesc) : option string :=
  if ignore d then None
  else match should_panic d with
       | PanicYes | PanicYesWithMessage _ => Some "should panic"
       | PanicNo =>
           if allow_fail d then Some "allow fail"
           else if compile_fail d then Some "compile fail"
           else if no_run d then Some "compile" else None
       end%string.

Inductive TestFn (F B : Type) :=
| StaticTestFn (f : F)
| StaticBenchFn (b : B)
| DynTestFn (f : F)
| DynBenchFn (b : B).
Arguments StaticTestFn {F B} _. Arguments StaticBenchFn {F B} _.
Arguments DynTestFn {F B} _. Arguments DynBenchFn {F B} _.

Definition fn_padding {F B} (f : TestFn F B) : NamePadding :=
  match f with StaticTestFn _ | DynTestFn _ => PadNone | StaticBenchFn _ | DynBenchFn _ => PadOnRight end.

Record TestDescAndFn (F B : Type) := mkTest { desc : TestDesc; testfn : TestFn F B }.
Arguments mkTest {F B} _ _. Arguments desc {F B} _. Arguments testfn {F B} _.

(** ** [time.rs] *)

Record TimeThreshold := mkTimeThreshold { warn : N; critical : N }.
Record TestTimeOptions := mkTestTimeOptions {
  error_on_excess : bool;
  colored : bool;
  unit_threshold : TimeThreshold;
  integration_threshold : TimeThreshold;
  doctest_threshold : TimeThreshold;
}.
Definition millis (n : N) : N := n * 1000000.
Definition UNKNOWN_CRITICAL : N := millis 1000 * 120.
Definition critical_time (o : TestTimeOptions) (d : TestDesc) : N :=
  match test_type d with
  | UnitTest => critical (unit_threshold o)
  | IntegrationTest => critical (integration_threshold o)
  | DocTest => critical (doctest_threshold o)
  | UnknownType => UNKNOWN_CRITICAL
  end.
Definition is_critical (o : TestTimeOptions) (d : TestDesc) (exec_time : N) : bool :=
  critical_time o d <=? exec_time.

(** [TimeThreshold::from_env_var] *)
Definition from_env_var (var : option text) : outcome (option TimeThreshold) :=
  match var with
  | None => Ok None
  | Some durations_str =>
      match split_first 44 durations_str with
      | (_, None) => Panic
      | (warn_str, Some critical_str) =>
          w ← unwrap (parse_usize warn_str);
          c ← unwrap (parse_usize critical_str);
          if c <? w then Panic else Ok (Some (mkTimeThreshold (millis w) (millis c)))
      end
  end.

(** ** [cli.rs] *)

Record TestOpts := mkTestOpts {
  list_ : bool;
  filters : list text;
  filter_exact : bool;
  force_run_in_process : bool;
  exclude_should_panic : bool;
  run_ignored : RunIgnored;
  run_tests_ : bool;
  bench_benchmarks : bool;
  logfile : option path;
  nocapture : bool;
  color : ColorConfig;
  format : OutputFormat;
  shuffle : bool;
  shuffle_seed : option N;
  test_threads : option nat;
  skip : list text;
  time_options : option TestTimeOptions;
  options : Options;
}.

(** ** [test_result.rs] *)

Record BenchSamples := mkBenchSamples { mb_s : N }.

Inductive TestResult :=
| TrOk
| TrFailed
| TrFailedMsg (msg : text)
| TrIgnored
| TrAllowedFail
| TrBench (bs : BenchSamples)
| TrTimedFail.

(** The payload of a panic *)
Inductive Payload := PanicText (s : text) | PanicOther (type_id : text).

(** [{:?}] of a string *)
Class DebugText := debug_text : text -> text.

Definition calc_result `{DebugText} (d : TestDesc) (task_result : option Payload)
    (time_opts : option TestTimeOptions) (exec_time : option N) : TestResult :=
  let result :=
    match should_panic d, task_result with
    | PanicNo, None | PanicYes, Some _ => TrOk
    | PanicYesWithMessage msg, Some err =>
        let maybe_panic_str := match err with PanicText s => Some s | PanicOther _ => None end in
        if match maybe_panic_str with Some e => contains msg e | None => false end then TrOk
        else if allow_fail d then TrAllowedFail
        else match err with
             | PanicText s =>
                 TrFailedMsg (lit "panic did not contain expected string" ++ [newline]
                   ++ lit "      panic message: `" ++ debug_text s ++ lit "`," ++ [newline]
                   ++ lit " expected substring: `" ++ debug_text msg ++ lit "`")
             | PanicOther type_id =>
                 TrFailedMsg (lit "expected panic with string value," ++ [newline]
                   ++ lit " found non-string value: `" ++ type_id ++ lit "`" ++ [newline]
                   ++ lit "     expected substring: `" ++ debug_text msg ++ lit "`")
             end
    | PanicYes, None | PanicYesWithMessage _, None => TrFailedMsg (lit "test did not panic as expected")
    | PanicNo, Some _ => if allow_fail d then TrAllowedFail else TrFailed
    end in
  match result with
  | TrOk =>
      match time_opts, exec_time with
      | Some opts, Some time => if error_on_excess opts && is_critical opts d time then TrTimedFail else TrOk
      | _, _ => TrOk
      end
  | _ => result
  end.

(** ** [event.rs] *)

Definition TestId := nat.
Record CompletedTest := mkCompletedTest {
  id : TestId;
  completed_desc : TestDesc;
  result : TestResult;
  exec_time : option N;
  stdout : list N;
}.
Inductive TestEvent :=
| TeFiltered (descs : list TestDesc) (seed : option N)
| TeWait (d : TestDesc)
| TeResult (t : CompletedTest)
| TeTimeout (d : TestDesc)
| TeFilteredOut (n : nat).

(** ** [filter_tests] *)

(** [str::cmp]: by code points, as in UTF-8 *)
Fixpoint text_leb (a b : text) : bool :=
  match a, b with
  | [], _ => true
  | _ :: _, [] => false
  | x :: a, y :: b => if x =? y then text_leb a b else x <? y
  end.

Section Filter.
Context {F B : Type}.
Abbreviation Test := (TestDescAndFn F B).

Definition test_name (t : Test) : text := as_slice (name (desc t)).
Definition unignore (t : Test) : Test := mkTest (set_ignore (desc t) false) (testfn t).

Definition matches_filter (opts : TestOpts) (t : Test) (f : text) : bool :=
  if filter_exact opts then bool_decide (test_name t = f) else contains f (test_name t).

Definition filter_tests (opts : TestOpts) (tests : list Test) : list Test :=
  let filtered :=
    match filters opts with
    | [] => tests
    | fs => List.filter (fun t => existsb (matches_filter opts t) fs) tests
    end in
  let filtered := List.filter (fun t => negb (existsb (matches_filter opts t) (skip opts))) filtered in
  let filtered :=
    if exclude_should_panic opts
    then List.filter (fun t => bool_decide (should_panic (desc t) = PanicNo)) filtered else filtered in
  let filtered :=
    match run_ignored opts with
    | IgnoredYes => map unignore filtered
    | IgnoredOnly => map unignore (List.filter (fun t => ignore (desc t)) filtered)
    | IgnoredNo => filtered
    end in
  sort_by (fun t1 t2 => text_leb (test_name t1) (test_name t2)) filtered.

Definition convert_benchmarks_to_tests (run_once : B -> F) (tests : list Test) : list Test :=
  map (fun x => mkTest (desc x)
         match testfn x with
         | DynBenchFn b | StaticBenchFn b => DynTestFn (run_once b)
         | f => f
         end) tests.

(** ** [helpers/shuffle.rs] *)

(** [Hash] of the names: the length, then for each name its variant and its text *)
Definition le_bytes (n : N) : bytes :=
  map (fun k => N.land (N.shiftr n (8 * N.of_nat k)) 255) (seq 0 8).
Definition padding_index (p : NamePadding) : N := match p with PadNone => 0 | PadOnRight => 1 end.
Definition name_chunks (n : TestName) : list bytes :=
  match n with
  | StaticTestName s => [le_bytes 0; utf8 s; [255]]
  | DynTestName s => [le_bytes 1; utf8 s; [255]]
  | AlignedTestName s p => [le_bytes 2; utf8 s; [255]; le_bytes (padding_index p)]
  end.
Definition calculate_hash (chunks : list bytes) : outcome N :=
  h ← writes (H := Sip13Rounds) (new_with_keys 0 0) chunks; Ok (finish (H := Sip13Rounds) h).

(** [Rng::rand_u64], [Rng::rand_range] from 0 *)
Definition rand_u64 (state extra : N) : outcome N := calculate_hash [le_bytes state; le_bytes extra].

Definition swap_first {A} (l : list A) (idx : nat) : outcome (list A) :=
  match l with
  | [] => Panic
  | x :: l' =>
      match idx with
      | O => Ok l
      | S k => y ← unwrap (l' !! k); Ok (y :: <[k := x]> l')
      end
  end.

(** [shuffle]: [randomize_first] on each suffix *)
Fixpoint shuffle_from {A} (n : nat) (state extra : N) (l : list A) : outcome (list A) :=
  match n with
  | O => Ok l
  | S n =>
      assert! negb (length l =? 0)%nat;
      state ← rand_u64 state extra;
      let idx := N.to_nat (state mod N.of_nat (length l)) in
      l ← swap_first l idx;
      match l with
      | x :: l => l ← shuffle_from n state extra l; Ok (x :: l)
      | [] => Panic
      end
  end.
Definition shuffle_tests (seed : N) (tests : list (TestId * Test)) : outcome (list (TestId * Test)) :=
  extra ← calculate_hash (le_bytes (N.of_nat (length tests))
                            :: concat (map (fun t => name_chunks (name (desc t.2))) tests));
  shuffle_from (length tests) seed extra tests.

(** [get_shuffle_seed]; [now] is the time in nanoseconds. *)
Definition get_shuffle_seed (opts : TestOpts) (now : N) : option N :=
  match shuffle_seed opts with
  | Some s => Some s
  | None => if shuffle opts then Some (now mod 2 ^ 64) else None
  end.

End Filter.

(** ** [console.rs] *)

Record ConsoleTestState := mkConsole {
  log_out : option text;
  total : nat;
  passed : nat;
  failed : nat;
  ignored : nat;
  allowed_fail : nat;
  filtered_out : nat;
  measured : nat;
  failures : list (TestDesc * list N);
  not_failures : list (TestDesc * list N);
  time_failures : list (TestDesc * list N);
}.
Definition console_new (opts : TestOpts) : ConsoleTestState :=
  mkConsole (match logfile opts with Some _ => Some [] | None => None end)
    0 0 0 0 0 0 0 [] [] [].

Definition write_log (st : ConsoleTestState) (msg : text) : ConsoleTestState :=
  let '(mkConsole l t p f i a o m fs nfs tfs) := st in
  mkConsole (match l with Some l => Some (l ++ msg) | None => None end) t p f i a o m fs nfs tfs.

(** [fmt_bench_samples] and [Display] of an execution time *)
Class ResultFormat := { fmt_bench_samples : BenchSamples -> text; fmt_exec_time : N -> text }.

Definition write_log_result `{ResultFormat} (st : ConsoleTestState) (test : TestDesc)
    (r : TestResult) (exec_time : option N) : ConsoleTestState :=
  let st := write_log st
    (match r with
     | TrOk => lit "ok"
     | TrFailed => lit "failed"
     | TrFailedMsg msg => lit "failed: " ++ msg
     | TrIgnored => lit "ignored"
     | TrAllowedFail => lit "failed (allowed)"
     | TrBench bs => fmt_bench_samples bs
     | TrTimedFail => lit "failed (time limit exceeded)"
     end ++ [space] ++ as_slice (name test)) in
  let st := match exec_time with
            | Some t => write_log st (lit " <" ++ fmt_exec_time t ++ lit ">")
            | None => st
            end in
  write_log st [newline].

Definition current_test_count (st : ConsoleTestState) : nat :=
  (passed st + failed st + ignored st + measured st + allowed_fail st)%nat.

Definition handle_test_result (st : ConsoleTestState) (c : CompletedTest) : ConsoleTestState :=
  let '(mkConsole l t p f i a o m fs nfs tfs) := st in
  let entry := (completed_desc c, stdout c) in
  match result c with
  | TrOk => mkConsole l t (S p) f i a o m fs (nfs ++ [entry]) tfs
  | TrIgnored => mkConsole l t p f (S i) a o m fs nfs tfs
  | TrAllowedFail => mkConsole l t p f i (S a) o m fs nfs tfs
  | TrBench _ => mkConsole l t p f i a o (S m) fs nfs tfs
  | TrFailed => mkConsole l t p (S f) i a o m (fs ++ [entry]) nfs tfs
  | TrFailedMsg msg =>
      mkConsole l t p (S f) i a o m
        (fs ++ [(completed_desc c, stdout c ++ utf8 (lit "note: " ++ msg))]) nfs tfs
  | TrTimedFail => mkConsole l t p (S f) i a o m fs nfs (tfs ++ [entry])
  end.

Definition set_total (st : ConsoleTestState) (t : nat) : ConsoleTestState :=
  let '(mkConsole l _ p f i a o m fs nfs tfs) := st in mkConsole l t p f i a o m fs nfs tfs.
Definition set_filtered_out (st : ConsoleTestState) (o : nat) : ConsoleTestState :=
  let '(mkConsole l t p f i a _ m fs nfs tfs) := st in mkConsole l t p f i a o m fs nfs tfs.

(** [on_test_event], less what the formatter prints *)
Definition on_test_event `{ResultFormat} (st : ConsoleTestState) (e : TestEvent) : ConsoleTestState :=
  match e with
  | TeFiltered ds _ => set_total st (length ds)
  | TeFilteredOut n => set_filtered_out st n
  | TeWait _ | TeTimeout _ => st
  | TeResult c =>
      let st := write_log_result st (completed_desc c) (result c) (exec_time c) in
      handle_test_result st c
  end.

(** [write_run_finish] of every formatter: whether the run succeeded *)
Definition run_success (st : ConsoleTestState) : bool := (failed st =? 0)%nat.

(** ** Lemmas *)

(** The shuffle reorders. *)
Lemma swap_first_perm {A} (l l' : list A) idx : swap_first l idx = Ok l' -> Permutation l' l.
Proof.
  destruct l as [|x l]; [done|]. destruct idx as [|k]; cbn; [by intros [= <-]|].
  destruct (l !! k) as [y|] eqn:Hk; [|done]. cbn. intros [= <-].
  rewrite <- (take_drop_middle _ _ _ Hk) at 2. rewrite insert_take_drop by (by eapply lookup_lt_Some).
  solve_Permutation.
Qed.

Lemma shuffle_from_perm {A} n : forall state extra (l l' : list A),
  shuffle_from n state extra l = Ok l' -> Permutation l' l.
Proof.
  induction n as [|n IH]; intros state extra l l'; cbn [shuffle_from]; [by intros [= <-]|].
  generalize (rand_u64 state extra). intros rnd Hs.
  apply bind_ok in Hs as (_ & _ & Hs).
  apply bind_ok in Hs as (st & _ & Hs). apply bind_ok in Hs as (l1 & Hswap & Hs).
  destruct l1 as [|y l1]; [done|]. apply bind_ok in Hs as (l2 & Hrest & [= <-]).
  apply IH in Hrest. rewrite Hrest. by eapply swap_first_perm.
Qed.

Lemma shuffle_tests_perm {F B} seed (l l' : list (TestId * TestDescAndFn F B)) :
  shuffle_tests seed l = Ok l' -> Permutation l' l.
Proof. unfold shuffle_tests. intros (extra & _ & Hs)%bind_ok. by eapply shuffle_from_perm. Qed.

(** Without filters every test is kept. *)
Lemma filter_tests_all {F B} opts (tests : list (TestDescAndFn F B)) :
  filters opts = [] -> skip opts = [] -> exclude_should_panic opts = false ->
  run_ignored opts <> IgnoredOnly ->
  Permutation (filter_tests opts tests)
    (match run_ignored opts with IgnoredYes => map unignore tests | _ => tests end).
Proof.
  intros Hf Hs He Hi. unfold filter_tests. rewrite Hf, Hs, He. rewrite sort_by_perm.
  assert (List.filter (fun t : TestDescAndFn F B => negb (existsb (matches_filter opts t) [])) tests = tests) as ->
    by (apply forallb_filter_id; by apply forallb_forall). by destruct (run_ignored opts).
Qed.
