(* ===== verification/TestRun.v ===== *)
(** * The scheduler of the test harness ([run_tests], [run_test] in [library/test/src/lib.rs],
    [run_tests_console] in [console.rs])

    With one thread, tests run one after the other.  Otherwise the main thread starts up to
    [concurrency] tests, each in a thread of its own, and waits on a channel for the first
    result; a test that runs for too long is announced once.  The step relation [step] has
    the moves of the main thread and of the test threads in any order; what a test function
    does is the relation [runs] (it returns, or it panics with a payload), and a thread may
    still panic after it has sent its result.

    The theorems: every run of the scheduler ends, from every state it can reach it can
    go on until it is finished ([scheduler_terminates]), and a finished run has reported
    each selected test exactly once with a verdict its function allows, so that the counters
    add up, the final assertion holds and success means that no test failed
    ([run_tests_sound]). *)

From S2P Require Import Prelude Unicode Text SipHash LibTest.

Section Runner.
Context {F B : Type} `{DebugText}.
Context (runs : F -> option Payload -> Prop) (benches : B -> option BenchSamples -> Prop).
Context (run_once : B -> F).
Context (opts : TestOpts).
Abbreviation Test := (TestDescAndFn F B).

(** ** [run_test] *)

(** The verdict on a test that was run, with its execution time; benchmarks give samples or
    fail when they panic. *)
Inductive verdict (t : Test) : TestResult -> option N -> Prop :=
| verdict_test f p time :
    testfn t = StaticTestFn f \/ testfn t = DynTestFn f -> runs f p ->
    (is_Some time <-> is_Some (time_options opts)) ->
    verdict t (calc_result (desc t) p (time_options opts) time) time
| verdict_bench b bs :
    testfn t = StaticBenchFn b \/ testfn t = DynBenchFn b -> benches b (Some bs) ->
    verdict t (TrBench bs) None
| verdict_bench_panics b :
    testfn t = StaticBenchFn b \/ testfn t = DynBenchFn b -> benches b None ->
    verdict t TrFailed None.

(** The message of a test; [out] is its captured output. *)
Definition ignored_message (i : TestId) (t : Test) : CompletedTest :=
  mkCompletedTest i (desc t) TrIgnored None [].
Inductive message (i : TestId) (t : Test) : CompletedTest -> Prop :=
| message_intro r time out : verdict t r time -> message i t (mkCompletedTest i (desc t) r time out).

Definition is_ignored (force_ignore : bool) (t : Test) : bool := force_ignore || ignore (desc t).

(** How a call of [run_test] leaves the test: its message was sent at once, because the test
    is ignored or was run by the calling thread, or a thread was started for it. *)
Inductive started (force_ignore threaded : bool) (i : TestId) (t : Test) : option CompletedTest -> Prop :=
| started_ignored : is_ignored force_ignore t = true -> started force_ignore threaded i t (Some (ignored_message i t))
| started_sync m : is_ignored force_ignore t = false -> message i t m -> started force_ignore threaded i t (Some m)
| started_thread : is_ignored force_ignore t = false -> threaded = true -> started force_ignore threaded i t None.

(** ** The concurrent loop *)

Record TimeoutEntry := mkTimeoutEntry { entry_id : TestId; entry_desc : TestDesc; entry_timeout : N }.

Record Sched := mkSched {
  remaining : list (TestId * Test);           (* a stack, its top at the end *)
  pending : nat;
  running_tests : gmap TestId bool;           (* whether there is a thread to join *)
  timeout_queue : list TimeoutEntry;
  threads : list (TestId * Test);             (* threads that have not sent their result *)
  channel : list CompletedTest;
  events : list TestEvent;
}.

(** [get_timed_out_tests] *)
Fixpoint get_timed_out_tests (running : gmap TestId bool) (queue : list TimeoutEntry) (now : N)
    : list TestDesc * list TimeoutEntry :=
  match queue with
  | [] => ([], [])
  | e :: queue' =>
      if (now <? entry_timeout e)%N then ([], queue)
      else
        let r := get_timed_out_tests running queue' now in
        (match running !! entry_id e with Some _ => entry_desc e :: r.1 | None => r.1 end, r.2)
  end.

Definition may_fill (concurrency : nat) (s : Sched) : Prop :=
  (pending s < concurrency)%nat /\ remaining s <> [].

(** [panicked after reporting success] *)
Definition after_join (joined late_panic : bool) (c : CompletedTest) : CompletedTest :=
  match joined && late_panic, result c with
  | true, TrOk =>
      mkCompletedTest (id c) (completed_desc c)
        (TrFailedMsg (lit "panicked after reporting success")) (exec_time c) (stdout c)
  | _, _ => c
  end.

Inductive step (concurrency : nat) (s : Sched) : Sched -> Prop :=
(** the inner loop starts the test on top of the stack *)
| step_start rest i t m timeout :
    (pending s < concurrency)%nat -> remaining s = rest ++ [(i, t)] ->
    started (negb (run_tests_ opts)) true i t m ->
    step concurrency s
      (mkSched rest (S (pending s)) (<[i := match m with None => true | Some _ => false end]> (running_tests s))
         (timeout_queue s ++ [mkTimeoutEntry i (desc t) timeout])
         (match m with None => threads s ++ [(i, t)] | Some _ => threads s end)
         (match m with None => channel s | Some m => channel s ++ [m] end)
         (events s ++ [TeWait (desc t)]))
(** a thread sends its result *)
| step_finish before after i t m :
    threads s = before ++ (i, t) :: after -> message i t m ->
    step concurrency s
      (mkSched (remaining s) (pending s) (running_tests s) (timeout_queue s) (before ++ after)
         (channel s ++ [m]) (events s))
(** nothing arrives before the first deadline, which has passed when the wait ends *)
| step_timeout e queue now :
    ~ may_fill concurrency s -> (0 < pending s)%nat -> channel s = [] ->
    timeout_queue s = e :: queue -> (entry_timeout e <= now)%N ->
    let r := get_timed_out_tests (running_tests s) (timeout_queue s) now in
    step concurrency s
      (mkSched (remaining s) (pending s) (running_tests s) r.2 (threads s) [] (events s ++ map TeTimeout r.1))
(** a result arrives *)
| step_receive c ch now joined late_panic :
    ~ may_fill concurrency s -> (0 < pending s)%nat -> channel s = c :: ch ->
    running_tests s !! id c = Some joined ->
    let r := get_timed_out_tests (running_tests s) (timeout_queue s) now in
    step concurrency s
      (mkSched (remaining s) (pending s - 1) (delete (id c) (running_tests s)) r.2 (threads s) ch
         (events s ++ map TeTimeout r.1 ++ [TeResult (after_join joined late_panic c)])).

Definition sched_init (tests : list (TestId * Test)) : Sched := mkSched tests 0 ∅ [] [] [] [].
Definition finished (s : Sched) : Prop := pending s = 0%nat /\ remaining s = [].

(** ** The sequential loop, also used for benchmarks *)

Inductive serial (force_ignore : bool) : list (TestId * Test) -> list TestEvent -> Prop :=
| serial_nil : serial force_ignore [] []
| serial_cons i t c ts evs :
    started force_ignore false i t (Some c) -> serial force_ignore ts evs ->
    serial force_ignore ((i, t) :: ts) (TeWait (desc t) :: TeResult c :: evs).

(** ** [run_tests] *)

Definition is_test_fn (t : Test) : bool :=
  match testfn t with StaticTestFn _ | DynTestFn _ => true | _ => false end.

Definition selected_tests (tests : list Test) : list Test :=
  let filtered := filter_tests opts tests in
  let filtered := if bench_benchmarks opts then filtered else convert_benchmarks_to_tests run_once filtered in
  map (fun t => mkTest (set_name (desc t) (with_padding (name (desc t)) (fn_padding (testfn t)))) (testfn t)) filtered.

Definition numbered (tests : list Test) : list (TestId * Test) := imap pair tests.

(** The stack of tests, in the order in which they are popped from its end *)
Definition test_stack (seed : option N) (tests : list (TestId * Test)) : outcome (list (TestId * Test)) :=
  match seed with
  | Some seed => shuffle_tests seed tests
  | None => Ok (reverse tests)
  end.

Definition strategy : RunStrategy :=
  if panic_abort (options opts) && negb (force_run_in_process opts) then SpawnPrimary else InProcess.

(** The events of a run.  Test functions run in this process: [strategy = InProcess]. *)
Inductive run_tests (concurrency : nat) (now : N) (tests : list Test) : list TestEvent -> Prop :=
| run_tests_intro sel seed stack evs_tests evs_benches :
    strategy = InProcess ->
    sel = selected_tests tests -> seed = get_shuffle_seed opts now ->
    test_stack seed (List.filter (fun t => is_test_fn t.2) (numbered sel)) = Ok stack ->
    (if (concurrency =? 1)%nat
     then serial (negb (run_tests_ opts)) (reverse stack) evs_tests
     else exists s, rtc (step concurrency) (sched_init stack) s /\ finished s /\ events s = evs_tests) ->
    (if bench_benchmarks opts
     then serial false (List.filter (fun t => negb (is_test_fn t.2)) (numbered sel)) evs_benches
     else evs_benches = []) ->
    run_tests concurrency now tests
      (TeFilteredOut (length tests - length sel) :: TeFiltered (map desc sel) seed :: evs_tests ++ evs_benches).

(** [run_tests_console]: the state after the events, the assertion on the counts, and
    whether the run succeeded *)
Definition console_outcome `{ResultFormat} (evs : list TestEvent) : outcome bool :=
  let st := fold_left on_test_event evs (console_new opts) in
  assert! (current_test_count st =? total st)%nat;
  Ok (run_success st).

(** ** What is reported *)

Definition results (evs : list TestEvent) : list CompletedTest :=
  omap (fun e => match e with TeResult c => Some c | _ => None end) evs.

Definition is_failure (r : TestResult) : bool :=
  match r with TrFailed | TrFailedMsg _ | TrTimedFail => true | _ => false end.

(** A message a test may send: that it is ignored, or a verdict its function allows *)
Definition sends (force_ignore : bool) (it : TestId * Test) (c : CompletedTest) : Prop :=
  (is_ignored force_ignore it.2 = true /\ c = ignored_message it.1 it.2)
  \/ (is_ignored force_ignore it.2 = false /\ message it.1 it.2 c).

Definition force (t : Test) : bool := is_test_fn t && negb (run_tests_ opts).

(** What is reported of a test: its message, turned into a failure when the thread panicked
    after it had reported success *)
Definition reports (it : TestId * Test) (c : CompletedTest) : Prop :=
  exists c0 joined late_panic, sends (force it.2) it c0 /\ c = after_join joined late_panic c0.

Lemma started_sends fi th i t c : started fi th i t (Some c) -> sends fi (i, t) c.
Proof. inversion 1; subst; [by left | by right]. Qed.

Lemma sends_id fi it c : sends fi it c -> id c = it.1.
Proof. intros [[_ ->]|[_ Hm]]; [done|]. by inversion Hm. Qed.

Lemma results_app a b : results (a ++ b) = results a ++ results b.
Proof. apply omap_app. Qed.
Lemma results_timeouts ds : results (map TeTimeout ds) = [].
Proof. by induction ds. Qed.

(** ** The invariant of the concurrent loop *)

Abbreviation ids l := (map fst l).

Section Loop.
Context (concurrency : nat) (all : list (TestId * Test)).
Hypothesis all_tests : Forall (fun it => is_test_fn it.2 = true) all.
Hypothesis all_nodup : NoDup (ids all).

(** Every test is on the stack, running, waiting in the channel or reported. *)
Definition sched_inv (s : Sched) : Prop :=
  exists sent reported,
    Permutation all (remaining s ++ threads s ++ sent ++ reported)
    /\ Forall2 (sends (negb (run_tests_ opts))) sent (channel s)
    /\ Forall2 reports reported (results (events s))
    /\ (forall i, is_Some (running_tests s !! i) <-> i ∈ ids (threads s ++ sent))
    /\ Forall (fun it => is_ignored (negb (run_tests_ opts)) it.2 = false) (threads s)
    /\ pending s = length (threads s ++ sent).

Lemma sched_init_inv : sched_inv (sched_init all).
Proof.
  exists [], []. split_and!; cbn; [by rewrite app_nil_r|constructor..| |constructor|done].
  intros i. rewrite lookup_empty. split; [by intros [? ?]|by intros ?%not_elem_of_nil].
Qed.

Lemma in_all_force it l : Permutation all l -> it ∈ l -> force it.2 = negb (run_tests_ opts).
Proof.
  intros Hp Hin. rewrite <- Hp in Hin. eapply Forall_forall in all_tests as Ht; [|exact Hin].
  unfold force. by rewrite Ht.
Qed.

Lemma step_start_inv s rest i t m timeout :
  sched_inv s -> remaining s = rest ++ [(i, t)] -> started (negb (run_tests_ opts)) true i t m ->
  sched_inv (mkSched rest (S (pending s))
         (<[i := match m with None => true | Some _ => false end]> (running_tests s))
         (timeout_queue s ++ [mkTimeoutEntry i (desc t) timeout])
         (match m with None => threads s ++ [(i, t)] | Some _ => threads s end)
         (match m with None => channel s | Some m => channel s ++ [m] end)
         (events s ++ [TeWait (desc t)])).
Proof.
  intros (sent & rep & Hp & Hs & Hr & Hrun & Hi & Hn) Hrem Hst. rewrite Hrem, <- app_assoc in Hp.
  destruct m as [c|].
  - exists (sent ++ [(i, t)]), rep. cbn. split_and!.
    + rewrite Hp. solve_Permutation.
    + apply Forall2_app; [done|]. constructor; [|constructor]. by eapply started_sends.
    + by rewrite results_app, app_nil_r.
    + intros j. rewrite lookup_insert_is_Some, app_assoc, map_app, elem_of_app, Hrun. cbn.
      rewrite list_elem_of_singleton. destruct (decide (i = j)); naive_solver.
    + done.
    + rewrite app_assoc, length_app, Hn. cbn. lia.
  - exists sent, rep. cbn. split_and!.
    + rewrite Hp. solve_Permutation.
    + done.
    + by rewrite results_app, app_nil_r.
    + intros j. rewrite lookup_insert_is_Some, <- app_assoc, map_app, elem_of_app. cbn.
      rewrite elem_of_cons, Hrun, map_app, elem_of_app. destruct (decide (i = j)); naive_solver.
    + apply Forall_app. split; [done|]. constructor; [|done]. by inversion Hst.
    + rewrite !length_app, Hn, length_app. cbn. lia.
Qed.

Lemma step_finish_inv s before after i t m :
  sched_inv s -> threads s = before ++ (i, t) :: after -> message i t m ->
  sched_inv (mkSched (remaining s) (pending s) (running_tests s) (timeout_queue s) (before ++ after)
         (channel s ++ [m]) (events s)).
Proof.
  intros (sent & rep & Hp & Hs & Hr & Hrun & Hi & Hn) Hth Hm. rewrite Hth in *.
  apply Forall_app in Hi as [Hi1 [Hi2 Hi3]%Forall_cons].
  exists (sent ++ [(i, t)]), rep. cbn. split_and!.
  - rewrite Hp. solve_Permutation.
  - apply Forall2_app; [done|]. constructor; [|constructor]. by right.
  - done.
  - intros j. rewrite Hrun, !map_app. cbn. set_solver.
  - by apply Forall_app.
  - rewrite Hn, !length_app. cbn. lia.
Qed.

Lemma step_receive_inv s c ch joined late_panic queue evs :
  sched_inv s -> channel s = c :: ch -> results evs = [] ->
  sched_inv (mkSched (remaining s) (pending s - 1) (delete (id c) (running_tests s)) queue (threads s) ch
         (events s ++ evs ++ [TeResult (after_join joined late_panic c)])).
Proof.
  intros (sent & rep & Hp & Hs & Hr & Hrun & Hi & Hn) Hch Hev. rewrite Hch in Hs.
  apply Forall2_cons_inv_r in Hs as (it & sent' & Hit & Hs & ->).
  assert (NoDup (ids (remaining s ++ threads s ++ (it :: sent') ++ rep))) as Hnd by (by rewrite <- Hp).
  exists sent', (rep ++ [it]). cbn. split_and!.
  - rewrite Hp. solve_Permutation.
  - done.
  - rewrite !results_app, Hev. apply Forall2_app; [done|]. constructor; [|constructor].
    exists c, joined, late_panic. split; [|done].
    erewrite in_all_force; [done|exact Hp|]. set_solver.
  - intros j. rewrite lookup_delete_is_Some, Hrun, (sends_id _ _ _ Hit), !map_app. cbn.
    rewrite !map_app in Hnd. cbn in Hnd. apply NoDup_app in Hnd as (_ & _ & Hnd).
    apply NoDup_app in Hnd as (_ & Hnd1 & Hnd). apply NoDup_cons in Hnd as [Hnd2 _].
    set_unfold. naive_solver.
  - done.
  - rewrite Hn, !length_app. cbn. lia.
Qed.

Lemma step_inv s s' : sched_inv s -> step concurrency s s' -> sched_inv s'.
Proof.
  intros Hinv [rest i t m timeout _ Hrem Hst | before after i t m Hth Hm
              | e queue now _ _ Hch _ _ r | c ch now joined late _ _ Hch _ r].
  - by eapply step_start_inv.
  - by eapply step_finish_inv.
  - destruct Hinv as (sent & rep & Hp & Hs & Hr & Hrun & Hi & Hn). exists sent, rep. cbn.
    split_and!; try done; [by rewrite <- Hch|by rewrite results_app, results_timeouts, app_nil_r].
  - eapply step_receive_inv; [done..|]. apply results_timeouts.
Qed.

Lemma reachable_inv s : rtc (step concurrency) (sched_init all) s -> sched_inv s.
Proof.
  intros Hr. assert (sched_inv (sched_init all)) as Hinit by apply sched_init_inv.
  induction Hr as [|? ? ? Hstep _ IH]; [done|]. apply IH. by eapply step_inv.
Qed.

(** ** Termination and progress *)

(** Every step uses up some of this. *)
Definition work (s : Sched) : nat :=
  (4 * length (remaining s) + length (timeout_queue s) + 2 * length (threads s) + length (channel s))%nat.

Lemma timed_out_length running queue now :
  (length (get_timed_out_tests running queue now).2 <= length queue)%nat.
Proof.
  induction queue as [|e queue IH]; cbn; [done|]. destruct (now <? entry_timeout e)%N; cbn; lia.
Qed.

Lemma step_work s s' : step concurrency s s' -> (work s' < work s)%nat.
Proof.
  intros [rest i t m timeout _ Hrem _ | before after i t m Hth _
         | e queue now _ _ Hch Hq Hnow r | c ch now joined late _ _ Hch _ r]; unfold work; cbn.
  - rewrite Hrem. destruct m; repeat rewrite length_app; cbn; lia.
  - rewrite Hth. repeat rewrite length_app. cbn. lia.
  - unfold r. rewrite Hch, Hq. cbn. rewrite (proj2 (N.ltb_ge _ _)) by done. cbn.
    pose proof (timed_out_length (running_tests s) queue now). lia.
  - unfold r. rewrite Hch. pose proof (timed_out_length (running_tests s) (timeout_queue s) now). cbn. lia.
Qed.

Lemma step_sn s : sn (step concurrency) s.
Proof.
  remember (work s) as n eqn:Hw. revert s Hw. induction n as [n IH] using lt_wf_ind.
  intros s ->. constructor. intros s' Hs'. eapply IH; [|done]. by apply step_work.
Qed.

Hypothesis runs_total : forall f, exists p, runs f p.

Lemma message_exists i t : is_test_fn t = true -> exists m, message i t m.
Proof.
  intros Ht. assert (exists f, testfn t = StaticTestFn f \/ testfn t = DynTestFn f) as [f Hf].
  { unfold is_test_fn in Ht. destruct (testfn t); naive_solver. }
  destruct (runs_total f) as [p Hp].
  exists (mkCompletedTest i (desc t)
            (calc_result (desc t) p (time_options opts) ((fun _ => 0%N) <$> time_options opts)) ((fun _ => 0%N) <$> time_options opts) []).
  constructor. econstructor; [done..|]. destruct (time_options opts); cbn; split; by intros [? ?].
Qed.

Lemma progress s : (0 < concurrency)%nat -> sched_inv s -> finished s \/ exists s', step concurrency s s'.
Proof.
  intros Hc (sent & rep & Hp & Hs & _ & Hrun & Hi & Hn).
  destruct (decide (pending s < concurrency /\ remaining s <> [])%nat) as [[Hpend Hrem]|Hfill].
  { right. destruct (exists_last Hrem) as (rest & [i t] & Hrest).
    destruct (is_ignored (negb (run_tests_ opts)) t) eqn:Hig; eexists;
      eapply (step_start _ _ rest i t _ 0%N); try done;
      [by apply started_ignored | by apply started_thread]. }
  destruct (decide (pending s = 0%nat)) as [Hz|Hz].
  { left. split; [done|]. destruct (decide (remaining s = [])); [done|]. destruct Hfill. split; [lia|done]. }
  right. destruct (channel s) as [|c ch] eqn:Hch.
  - apply Forall2_nil_inv_r in Hs as ->. rewrite app_nil_r in Hn.
    destruct (threads s) as [|[i t] th] eqn:Hth; [done|].
    destruct (message_exists i t) as [m Hm].
    { eapply (proj1 (Forall_forall _ _) all_tests (i, t)). rewrite Hp. set_solver. }
    eexists. eapply (step_finish _ _ [] th); [done|exact Hm].
  - apply Forall2_cons_inv_r in Hs as (it & sent' & Hit & Hs & ->).
    destruct (proj2 (Hrun (id c))) as [joined Hj].
    { rewrite (sends_id _ _ _ Hit), map_app. set_solver. }
    eexists. eapply (step_receive _ _ c ch 0%N joined false); [done|lia|done|done].
Qed.

Lemma finished_reports s : sched_inv s -> finished s ->
  exists order, Permutation order all /\ Forall2 reports order (results (events s)).
Proof.
  intros (sent & rep & Hp & _ & Hr & _ & _ & Hn) [Hz Hrem]. rewrite Hrem in Hp. rewrite Hz in Hn.
  symmetry in Hn. apply nil_length_inv, app_nil in Hn as [Hth ->]. rewrite Hth in Hp.
  by exists rep.
Qed.


End Loop.

(** ** The serial loop *)

Lemma serial_reports fi ts evs :
  serial fi ts evs -> Forall (fun it => force it.2 = fi) ts -> Forall2 reports ts (results evs).
Proof.
  induction 1 as [|i t c ts evs Hst _ IH]; intros Hf; [constructor|].
  apply Forall_cons in Hf as [Hf Hfs]. cbn. constructor; [|by apply IH].
  exists c, false, false. split; [|done]. cbn in *. rewrite Hf. by eapply started_sends.
Qed.

(** ** The console *)

Definition plain (e : TestEvent) : bool :=
  match e with TeFiltered _ _ | TeFilteredOut _ => false | _ => true end.

Lemma serial_plain fi ts evs : serial fi ts evs -> Forall (fun e => plain e = true) evs.
Proof. induction 1; repeat constructor; done. Qed.

Lemma sched_plain concurrency s stack :
  rtc (step concurrency) (sched_init stack) s -> Forall (fun e => plain e = true) (events s).
Proof.
  intros Hr. assert (Forall (fun e => plain e = true) (events (sched_init stack))) as Hinit by constructor.
  induction Hr as [|? ? ? Hstep _ IH]; [done|]. apply IH.
  assert (forall ds, Forall (fun e => plain e = true) (map TeTimeout ds)) as Ht
    by (induction ds; by constructor).
  destruct Hstep; cbn; [| done | |]; (apply Forall_app; split; [done|]); [by repeat constructor | apply Ht |].
  apply Forall_app. split; [apply Ht | by repeat constructor].
Qed.

Section Console.
Context `{ResultFormat}.

Lemma write_log_counts st m :
  current_test_count (write_log st m) = current_test_count st /\ failed (write_log st m) = failed st
  /\ total (write_log st m) = total st.
Proof. by destruct st. Qed.

Lemma write_log_result_counts st d r t :
  let st' := write_log_result st d r t in
  current_test_count st' = current_test_count st /\ failed st' = failed st /\ total st' = total st.
Proof. destruct st; unfold write_log_result; by destruct t. Qed.

Lemma handle_counts st c :
  let st' := handle_test_result st c in
  current_test_count st' = S (current_test_count st)
  /\ failed st' = (failed st + (if is_failure (result c) then 1 else 0))%nat /\ total st' = total st.
Proof.
  destruct st, c as [? ? r ? ?]. unfold current_test_count. destruct r; cbn; repeat split; lia.
Qed.

Definition failed_results (cs : list CompletedTest) : nat :=
  length (List.filter (fun c => is_failure (result c)) cs).

Lemma fold_counts evs : Forall (fun e => plain e = true) evs -> forall st,
  let st' := fold_left on_test_event evs st in
  current_test_count st' = (current_test_count st + length (results evs))%nat
  /\ failed st' = (failed st + failed_results (results evs))%nat /\ total st' = total st.
Proof.
  induction 1 as [|e evs He _ IH]; intros st; cbn [fold_left]; [cbn; lia|].
  destruct (IH (on_test_event st e)) as (E1 & E2 & E3). cbn in E1, E2, E3. rewrite E1, E2, E3.
  destruct e as [ | | c | | ]; try done. cbn [on_test_event].
  change (results (TeResult c :: evs)) with (c :: results evs).
  destruct (handle_counts (write_log_result st (completed_desc c) (result c) (exec_time c)) c) as (-> & -> & ->).
  destruct (write_log_result_counts st (completed_desc c) (result c) (exec_time c)) as (-> & -> & ->).
  unfold failed_results. cbn [List.filter length]. destruct (is_failure (result c)); cbn [length]; lia.
Qed.

Lemma failed_results_zero cs :
  (failed_results cs =? 0)%nat = forallb (fun c => negb (is_failure (result c))) cs.
Proof.
  unfold failed_results. induction cs as [|c cs IH]; cbn; [done|]. by destruct (is_failure (result c)).
Qed.

Lemma console_outcome_plain n descs seed evs :
  Forall (fun e => plain e = true) evs -> length (results evs) = length descs ->
  console_outcome (TeFilteredOut n :: TeFiltered descs seed :: evs)
  = Ok (forallb (fun c => negb (is_failure (result c))) (results evs)).
Proof.
  intros Hp Hlen. unfold console_outcome. cbn [fold_left on_test_event].
  destruct (fold_counts evs Hp (set_total (set_filtered_out (console_new opts) n) (length descs)))
    as (E1 & E2 & E3). cbn zeta in *. unfold run_success. rewrite E1, E2, E3. cbn. rewrite Hlen, Nat.eqb_refl.
  cbn. by rewrite failed_results_zero.
Qed.

End Console.

(** ** [run_tests] *)

Lemma numbered_nodup ts : NoDup (ids (numbered ts)).
Proof.
  assert (ids (numbered ts) = seq 0 (length ts)) as ->; [|apply NoDup_seq]. unfold numbered.
  apply (list_eq_same_length _ _ (length ts)); rewrite ?length_fmap, ?length_imap, ?length_seq; [done..|].
  intros i x y Hi. change (map fst) with (fmap (M := list) (A := nat * Test) fst).
  rewrite list_lookup_fmap, list_lookup_imap, lookup_seq_lt by done. destruct (ts !! i); naive_solver.
Qed.

Lemma filter_ids_nodup P (l : list (TestId * Test)) : NoDup (ids l) -> NoDup (ids (List.filter P l)).
Proof.
  induction l as [|x l IH]; cbn; [done|]. intros [Hx Hl]%NoDup_cons. destruct (P x); cbn; [|by apply IH].
  constructor; [|by apply IH]. intros Hin. apply Hx. apply list_elem_of_In, in_map_iff in Hin as (y & Hy & Hin).
  apply filter_In in Hin as [Hin _]. apply list_elem_of_In, in_map_iff. by exists y.
Qed.

Lemma test_stack_perm seed ts stack : test_stack seed ts = Ok stack -> Permutation stack ts.
Proof.
  destruct seed; cbn; [apply shuffle_tests_perm|]. intros [= <-]. apply reverse_Permutation.
Qed.

Lemma partition_perm (l : list (TestId * Test)) :
  Permutation l (List.filter (fun t => is_test_fn t.2) l ++ List.filter (fun t => negb (is_test_fn t.2)) l).
Proof.
  induction l as [|x l IH]; cbn; [done|]. destruct (is_test_fn x.2); cbn; [by rewrite <- IH|].
  rewrite <- Permutation_middle. by rewrite <- IH.
Qed.

Lemma selected_no_benches tests :
  bench_benchmarks opts = false -> forall t, t ∈ selected_tests tests -> is_test_fn t = true.
Proof.
  unfold selected_tests. intros -> t Ht. apply list_elem_of_In, in_map_iff in Ht as (u & <- & Hu).
  apply in_map_iff in Hu as (v & <- & _). unfold is_test_fn. cbn. by destruct (testfn v).
Qed.

Lemma numbered_snd ts it : it ∈ numbered ts -> it.2 ∈ ts.
Proof.
  unfold numbered. intros (i & Hi)%list_elem_of_lookup. rewrite list_lookup_imap in Hi.
  destruct (ts !! i) as [t|] eqn:E; [|done]. injection Hi as <-. by eapply list_elem_of_lookup_2.
Qed.

(** The events of the tests, in one of the two modes *)
Lemma tests_reported concurrency stack evs :
  NoDup (ids stack) -> Forall (fun it => is_test_fn it.2 = true) stack ->
  (if (concurrency =? 1)%nat
   then serial (negb (run_tests_ opts)) (reverse stack) evs
   else exists s, rtc (step concurrency) (sched_init stack) s /\ finished s /\ events s = evs) ->
  Forall (fun e => plain e = true) evs
  /\ exists order, Permutation order stack /\ Forall2 reports order (results evs).
Proof.
  intros Hnd Ht. destruct (concurrency =? 1)%nat.
  - intros Hs. split; [by eapply serial_plain|]. exists (reverse stack). split; [apply reverse_Permutation|].
    eapply serial_reports; [done|]. rewrite reverse_Permutation.
    eapply Forall_impl; [exact Ht|]. intros it E. unfold force. by rewrite E.
  - intros (s & Hr & Hf & <-). split; [by eapply sched_plain|].
    apply (finished_reports stack); [|done]. by eapply reachable_inv.
Qed.

Lemma run_tests_reported concurrency now tests evs :
  run_tests concurrency now tests evs ->
  exists n seed evs', evs = TeFilteredOut n :: TeFiltered (map desc (selected_tests tests)) seed :: evs'
    /\ Forall (fun e => plain e = true) evs'
    /\ exists order, Permutation order (numbered (selected_tests tests)) /\ Forall2 reports order (results evs').
Proof.
  intros [sel seed stack et eb _ -> -> Hstack Ht Hb]. set (sel := selected_tests tests) in *.
  eexists _, _, (et ++ eb). split; [done|]. apply test_stack_perm in Hstack.
  destruct (tests_reported concurrency stack et) as (Hpt & order & Ho & Hot); [| |done|].
  { rewrite Hstack. apply filter_ids_nodup, numbered_nodup. }
  { rewrite Hstack. apply Forall_forall. intros it Hit%list_elem_of_In.
    apply filter_In in Hit as [_ E]. exact E. }
  set (benches_ := List.filter (fun t : TestId * Test => negb (is_test_fn t.2)) (numbered sel)) in *.
  assert (Forall (fun e => plain e = true) eb /\ Forall2 reports benches_ (results eb)) as [Hpb Hob].
  { destruct (bench_benchmarks opts) eqn:Hbb.
    - split; [by eapply serial_plain|]. eapply serial_reports; [done|]. apply Forall_forall.
      intros it Hit%list_elem_of_In. apply filter_In in Hit as [_ E%negb_true_iff]. unfold force. by rewrite E.
    - subst eb. split; [constructor|]. destruct benches_ as [|it l] eqn:E; [constructor|].
      assert (it ∈ benches_) as Hit%list_elem_of_In by (rewrite E; by left). apply filter_In in Hit as [Hin Hneg].
      apply list_elem_of_In, numbered_snd in Hin.
      pose proof (selected_no_benches tests Hbb _ Hin) as Htrue. by rewrite Htrue in Hneg. }
  split; [by apply Forall_app|]. exists (order ++ benches_). split.
  - rewrite Ho, Hstack. symmetry. apply partition_perm.
  - rewrite results_app. by apply Forall2_app.
Qed.

Lemma run_tests_outcome `{ResultFormat} concurrency now tests evs :
  run_tests concurrency now tests evs ->
  (exists order, Permutation order (numbered (selected_tests tests)) /\ Forall2 reports order (results evs))
  /\ console_outcome evs = Ok (forallb (fun c => negb (is_failure (result c))) (results evs)).
Proof.
  intros (n & seed & evs' & -> & Hp & order & Ho & Hr)%run_tests_reported. split; [by exists order|].
  change (results _) with (results evs'). apply console_outcome_plain; [done|].
  rewrite <- (Forall2_length _ _ _ Hr), Ho. unfold numbered. by rewrite length_imap, length_map.
Qed.

(** C29. [run_tests], [run_tests_console]: whatever the order in which threads finish, a run
    that has come to its end has reported each selected test exactly once, under its number,
    with a verdict that its function allows (ignored tests as ignored); the counters add up
    to the number of selected tests, so that the final assertion holds; and the run is a
    success exactly if no reported verdict is a failure. *)
Theorem run_tests_sound `{ResultFormat} concurrency now tests evs :
  run_tests concurrency now tests evs ->
  (exists order, Permutation order (numbered (selected_tests tests)) /\ Forall2 reports order (results evs))
  /\ console_outcome evs = Ok (forallb (fun c => negb (is_failure (result c))) (results evs)).
Proof. apply run_tests_outcome. Qed.

(** C30. The concurrent loop of [run_tests]: if every test function returns or panics, no run
    of the scheduler goes on for ever, whatever threads, deadlines and messages do; and a
    state it can reach is either finished or has a next step, so it never waits for a
    message that nobody will send, nor for a test it does not know. *)
Theorem scheduler_terminates concurrency stack s :
  (0 < concurrency)%nat -> (forall f, exists p, runs f p) ->
  Forall (fun it => is_test_fn it.2 = true) stack -> NoDup (ids stack) ->
  rtc (step concurrency) (sched_init stack) s ->
  sn (step concurrency) s /\ (finished s \/ exists s', step concurrency s s').
Proof.
  intros Hc Hruns Ht Hnd Hr. split; [apply step_sn|].
  apply (progress _ stack); [done..|]. by eapply reachable_inv.
Qed.

End Runner.

(** ** A run of two tests in two threads

    A test function is whether it returns; the second test is ignored. *)
Definition sample_runs (f : bool) (p : option Payload) : Prop :=
  p = if f then None else Some (PanicOther []).
Definition no_benches (b : Empty_set) (_ : option BenchSamples) : Prop := False.
Definition sample_desc (n : string) (ig : bool) (sp : ShouldPanic) : TestDesc :=
  mkTestDesc (DynTestName (lit n)) ig sp false false false UnknownType.
Definition sample_tests : list (TestDescAndFn bool Empty_set) :=
  [mkTest (sample_desc "b" true PanicNo) (DynTestFn true);
   mkTest (sample_desc "a" false PanicYes) (DynTestFn false)].
Definition sample_opts : TestOpts :=
  mkTestOpts false [] false false false IgnoredNo true true None false NeverColor Pretty
    false None None [] None options_new.
#[local] Instance sample_debug : DebugText := fun s => s.
#[local] Instance sample_format : ResultFormat :=
  {| fmt_bench_samples _ := []; fmt_exec_time _ := [] |}.
Definition sample_once (b : Empty_set) : bool := match b with end.

Definition padded (n : string) ig sp : TestDesc :=
  mkTestDesc (AlignedTestName (lit n) PadNone) ig sp false false false UnknownType.
Definition sample_events : list TestEvent :=
  [TeFilteredOut 0%nat;
   TeFiltered [padded "a" false PanicYes; padded "b" true PanicNo] None;
   TeWait (padded "a" false PanicYes); TeWait (padded "b" true PanicNo);
   TeResult (mkCompletedTest 1%nat (padded "b" true PanicNo) TrIgnored None []);
   TeResult (mkCompletedTest 0%nat (padded "a" false PanicYes) TrOk None [104%N])].

Lemma sample_run :
  run_tests sample_runs no_benches sample_once sample_opts 2 0 sample_tests sample_events.
Proof.
  pose (a := mkTest (F := bool) (B := Empty_set) (padded "a" false PanicYes) (DynTestFn false)).
  pose (b := mkTest (F := bool) (B := Empty_set) (padded "b" true PanicNo) (DynTestFn true)).
  change sample_events with
    (TeFilteredOut (length sample_tests - length [a; b])
     :: TeFiltered (map desc [a; b]) None :: (drop 2 sample_events ++ [])).
  eapply (run_tests_intro _ _ _ _ _ _ _ [a; b] None [(1%nat, b); (0%nat, a)]); [vm_compute; reflexivity..| |].
  2:{ change (bench_benchmarks sample_opts) with true. constructor. }
  change (2 =? 1)%nat with false. cbv iota. eexists. split; [|split].
  - eapply rtc_l. { eapply (step_start _ _ _ _ _ [(1%nat, b)] 0%nat a None 60%N); [cbn; lia|done|by apply started_thread]. }
    cbn. eapply rtc_l. { eapply (step_start _ _ _ _ _ [] 1%nat b _ 61%N); [cbn; lia|done|by apply started_ignored]. }
    cbn. eapply rtc_l. { eapply (step_finish _ _ _ _ _ [] [] 0%nat a (mkCompletedTest 0%nat (padded "a" false PanicYes) TrOk None [104%N])); [done|].
      refine (message_intro sample_runs no_benches sample_opts 0%nat a TrOk None [104%N] _).
      refine (verdict_test sample_runs no_benches sample_opts a false (Some (PanicOther [])) None _ _ _);
        [by right|done|]. cbn. split; by intros [? ?]. }
    cbn. eapply rtc_l. { eapply (step_receive _ _ _ _ _ _ _ 10%N false false); [by intros [_ ?]|cbn; lia|done|done]. }
    cbn. eapply rtc_l. { eapply (step_receive _ _ _ _ _ _ _ 10%N true false); [by intros [_ ?]|cbn; lia|done|done]. }
    cbn. apply rtc_refl.
  - done.
  - done.
Qed.

Lemma run_tests_sound_witness :
  (exists order, Permutation order (numbered (selected_tests sample_once sample_opts sample_tests))
     /\ Forall2 (reports sample_runs no_benches sample_opts) order (results sample_events))
  /\ console_outcome sample_opts sample_events
     = Ok (forallb (fun c => negb (is_failure (result c))) (results sample_events)).
Proof. exact (run_tests_sound sample_runs no_benches sample_once sample_opts 2 0 sample_tests sample_events sample_run). Defined.

Definition sample_stack : list (TestId * TestDescAndFn bool Empty_set) := imap pair sample_tests.

Lemma scheduler_terminates_witness :
  sn (step sample_runs no_benches sample_opts 2) (sched_init sample_stack)
  /\ (finished (sched_init sample_stack)
      \/ exists s', step sample_runs no_benches sample_opts 2 (sched_init sample_stack) s').
Proof.
  apply (scheduler_terminates sample_runs no_benches sample_once sample_opts 2 sample_stack).
  - lia.
  - intros f. eexists. reflexivity.
  - repeat constructor.
  - apply numbered_nodup.
  - apply rtc_refl.
Defined.
