(* ===== verification/CompileTest.v ===== *)
(** * Tests of the compile-test driver ([src/tools/compiletest/src]: [common.rs], [util.rs],
    [header.rs])

    The driver runs the regression tests of RMC.  A test is a file (or, for [cargo-rmc], an
    [*.expected] file); what is special about it stands in comments before its first function
    or module: flags for the compiler, for RMC and for CBMC, an edition, and the step at which
    it should fail.  This file has the configuration, the paths of a test, the header parser
    and the description handed to the test library.

    The file system is a finite map from paths to contents, one from directories to their
    listings, and the modification times.  A listing has [None] for an entry that could not
    be read.  A file that is not UTF-8 is known by the complete lines before the first one
    that is not.

    [header_loaded] gives the properties of a test in closed form: the flags of all
    directives in order, and a panic exactly for a second [rmc-*-fail] line or one in another
    mode than [rmc]; [revision_lines_unread] and [edition_with_space] show what it leaves out. *)

From S2P Require Import Prelude Unicode Text SipHash LibTest.
Open Scope N_scope.

(** ** The file system *)

Inductive Contents := Utf8 (t : text) | NotUtf8 (complete_lines : text).
Record FileSystem := mkFileSystem {
  fs_files : gmap path Contents;
  fs_dirs : gmap path (list (option text));
  fs_mtime : gmap path Z;
}.
Definition is_dir (fs : FileSystem) (p : path) : bool := bool_decide (is_Some (fs_dirs fs !! p)).
Definition is_file (fs : FileSystem) (p : path) : bool := bool_decide (is_Some (fs_files fs !! p)).
Definition path_exists (fs : FileSystem) (p : path) : bool := is_dir fs p || is_file fs p.

(** [fs::read_to_string]: the text, or whether the contents are not UTF-8 *)
Inductive ReadString := ReadOk (t : text) | InvalidData | OtherError.
Definition read_to_string (fs : FileSystem) (p : path) : ReadString :=
  match fs_files fs !! p with
  | Some (Utf8 t) => ReadOk t
  | Some (NotUtf8 _) => InvalidData
  | None => OtherError
  end.

(** [Path::join] with a path, [Path::with_file_name], [Path::with_extension] *)
Definition path_join (p q : path) : path :=
  match q with
  | c :: _ => if bool_decide (c = lit "/") then q else p ++ q
  | [] => p
  end.
Definition with_file_name (p : path) (n : text) : path :=
  match file_name p with
  | Some _ => path_push (path_pop p) n
  | None => path_push p n
  end.
Definition with_extension (p : path) (ext : text) : path :=
  match file_stem p with
  | None => p
  | Some stem => path_pop p ++ [stem ++ (if is_empty ext then [] else [dot] ++ ext)]
  end.

(** ** [common.rs] *)

Inductive Mode := RMC | RmcFixme | CargoRMC | Expected | Stub.
#[export] Instance Mode_eq_dec : EqDecision Mode.
Proof. solve_decision. Defined.

Definition mode_from_str (s : text) : option Mode :=
  if bool_decide (s = lit "rmc") then Some RMC
  else if bool_decide (s = lit "rmc-fixme") then Some RmcFixme
  else if bool_decide (s = lit "cargo-rmc") then Some CargoRMC
  else if bool_decide (s = lit "expected") then Some Expected
  else if bool_decide (s = lit "stub-tests") then Some Stub
  else None.
Definition display_mode (m : Mode) : text :=
  match m with
  | RMC => lit "rmc"
  | RmcFixme => lit "rmc-fixme"
  | CargoRMC => lit "cargo-rmc"
  | Expected => lit "expected"
  | Stub => lit "stub-tests"
  end.

Inductive RMCFailStep := Check | Codegen | Verify.
#[export] Instance RMCFailStep_eq_dec : EqDecision RMCFailStep.
Proof. solve_decision. Defined.
Inductive PanicStrategy := Unwind | Abort_.

Record Config := mkConfig {
  rmc_dir_path : path;
  src_base : path;
  build_base : path;
  stage_id : text;
  mode : Mode;
  suite : text;
  c_run_ignored : bool;
  c_filters : list text;
  c_filter_exact : bool;
  c_logfile : option path;
  host_rustcflags : option text;
  target_rustcflags : option text;
  target_panic : PanicStrategy;
  target : text;
  host : text;
  verbose : bool;
  quiet : bool;
  c_color : ColorConfig;
  channel_ : text;
  edition : option text;
  force_rerun : bool;
}.

Record TestPaths := mkTestPaths { file : path; relative_dir : path }.

(** [PathBufExt::with_extra_extension] of [util.rs] *)
Definition with_extra_extension (p : path) (extension : text) : outcome path :=
  if is_empty extension then Ok p
  else
    fname ← unwrap (file_name p);
    let fname := if starts_with (lit ".") extension then fname else fname ++ lit "." in
    Ok (with_file_name p (fname ++ extension)).

Definition output_relative_path (c : Config) (relative_dir : path) : path :=
  path_join (build_base c) relative_dir.

Definition revision_or_empty (revision : option text) : text :=
  match revision with Some r => r | None => [] end.
Definition output_testname_unique (t : TestPaths) (revision : option text) : outcome path :=
  stem ← unwrap (file_stem (file t));
  with_extra_extension (components stem) (revision_or_empty revision).

Definition output_base_dir (c : Config) (t : TestPaths) (revision : option text) : outcome path :=
  n ← output_testname_unique t revision;
  Ok (path_join (output_relative_path c (relative_dir t)) n).

Definition output_base_name (c : Config) (t : TestPaths) (revision : option text) : outcome path :=
  d ← output_base_dir c t revision;
  stem ← unwrap (file_stem (file t));
  Ok (path_push d stem).

(** ** [header.rs]: directives *)

Definition parse_name_directive (line : text) (directive : string) : bool :=
  match strip (lit directive) line with
  | None => false
  | Some [] => true
  | Some (c :: _) => (c =? 32) || (c =? 58)
  end.

Definition parse_name_value_directive (line : text) (directive : string) : option text :=
  match strip (lit directive) line with
  | Some (c :: value) => if c =? 58 then Some value else None
  | _ => None
  end.

Definition parse_compile_flags (line : text) := parse_name_value_directive line "compile-flags".
Definition parse_rmc_flags (line : text) := parse_name_value_directive line "rmc-flags".
Definition parse_cbmc_flags (line : text) := parse_name_value_directive line "cbmc-flags".
Definition parse_edition (line : text) := parse_name_value_directive line "edition".

Definition parse_rmc_step_fail_directive (c : Config) (line : text) : outcome (option RMCFailStep) :=
  let check_rmc (s : RMCFailStep) : outcome (option RMCFailStep) :=
    assert! bool_decide (mode c = RMC); Ok (Some s) in
  if parse_name_directive line "rmc-check-fail" then check_rmc Check
  else if parse_name_directive line "rmc-codegen-fail" then check_rmc Codegen
  else if parse_name_directive line "rmc-verify-fail" then check_rmc Verify
  else Ok None.

(** ** [iter_header] *)

(** The loop over the lines: the state at the end, and whether a function or module was
    reached.  The closure is given no revision, as in the source. *)
Fixpoint iter_lines {S} (comment : text) (it : option text -> text -> S -> outcome S)
    (ls : list text) (s : S) : outcome (S * bool) :=
  match ls with
  | [] => Ok (s, false)
  | ln :: ls =>
      let ln := trim ln in
      if starts_with (lit "fn") ln || starts_with (lit "mod") ln then Ok (s, true)
      else match strip comment ln with
           | Some rest => s ← it None (trim_start rest) s; iter_lines comment it ls s
           | None => iter_lines comment it ls s
           end
  end.

Definition comment_of (testfile : path) : text :=
  if bool_decide (extension testfile = Some (lit "rs")) then lit "//" else lit "#".

Definition iter_header {S} (fs : FileSystem) (testfile : path) (src : Contents)
    (it : option text -> text -> S -> outcome S) (s : S) : outcome S :=
  if is_dir fs testfile then Ok s
  else
    match src with
    | Utf8 t => r ← iter_lines (comment_of testfile) it (split_terminator t) s; Ok r.1
    | NotUtf8 t =>
        r ← iter_lines (comment_of testfile) it (split_terminator t) s;
        if (r.2 : bool) then Ok r.1 else Panic
    end.

(** ** [TestProps] *)

Record TestProps := mkTestProps {
  compile_flags : list text;
  rmc_flags : list text;
  cbmc_flags : list text;
  rmc_panic_step : option RMCFailStep;
}.
Definition props_new : TestProps := mkTestProps [] [] [] None.

Definition add_compile_flags (p : TestProps) (l : list text) : TestProps :=
  mkTestProps (compile_flags p ++ l) (rmc_flags p) (cbmc_flags p) (rmc_panic_step p).
Definition add_rmc_flags (p : TestProps) (l : list text) : TestProps :=
  mkTestProps (compile_flags p) (rmc_flags p ++ l) (cbmc_flags p) (rmc_panic_step p).
Definition add_cbmc_flags (p : TestProps) (l : list text) : TestProps :=
  mkTestProps (compile_flags p) (rmc_flags p) (cbmc_flags p ++ l) (rmc_panic_step p).

Definition update_rmc_fail_mode (c : Config) (p : TestProps) (ln : text) : outcome TestProps :=
  rmc_fail_step ← parse_rmc_step_fail_directive c ln;
  match rmc_panic_step p, rmc_fail_step with
  | None, Some _ => Ok (mkTestProps (compile_flags p) (rmc_flags p) (cbmc_flags p) rmc_fail_step)
  | Some _, Some _ => Panic
  | _, None => Ok p
  end.

Definition edition_flag (e : text) : text := lit "--edition=" ++ e.

(** The closure of [load_from]; the state is the properties and [has_edition]. *)
Definition load_line (c : Config) (cfg revision : option text) (ln : text) (s : TestProps * bool)
    : outcome (TestProps * bool) :=
  if bool_decide (is_Some revision /\ revision <> cfg) then Ok s
  else
    let p := s.1 in
    let p := match parse_compile_flags ln with Some f => add_compile_flags p (split_whitespace f) | None => p end in
    let p := match parse_rmc_flags ln with Some f => add_rmc_flags p (split_whitespace f) | None => p end in
    let p := match parse_cbmc_flags ln with Some f => add_cbmc_flags p (split_whitespace f) | None => p end in
    let s := match parse_edition ln with
             | Some e => (add_compile_flags p [edition_flag e], true)
             | None => (p, s.2)
             end in
    p ← update_rmc_fail_mode c s.1 ln;
    Ok (p, s.2).

Definition load_from (fs : FileSystem) (testfile : path) (cfg : option text) (c : Config) (p : TestProps)
    : outcome TestProps :=
  r ← (if is_dir fs testfile then Ok (p, false)
       else src ← unwrap (fs_files fs !! testfile);
            iter_header fs testfile src (load_line c cfg) (p, false));
  match edition c, (r.2 : bool) with
  | Some e, false => Ok (add_compile_flags r.1 [edition_flag e])
  | _, _ => Ok r.1
  end.

Definition from_file (fs : FileSystem) (testfile : path) (cfg : option text) (c : Config) : outcome TestProps :=
  load_from fs testfile cfg c props_new.

(** ** [make_test_description] *)

(** [rsplit('/')], its first piece *)
Definition base_name (p : text) : text := default [] (last (split_on (N.eqb slash) p)).
Definition contains_fixme (s : text) : bool := contains (lit "fixme") s || contains (lit "ignore") s.

Definition should_fail_line (cfg revision : option text) (ln : text) (should_fail : bool) : outcome bool :=
  if bool_decide (is_Some revision /\ revision <> cfg) then Ok should_fail
  else Ok (should_fail || parse_name_directive ln "should-fail").

Definition make_test_description (fs : FileSystem) (c : Config) (name : TestName) (p : path)
    (src : Contents) (cfg : option text) : outcome TestDesc :=
  let file_path := display_path p in
  let ignore :=
    match mode c with
    | RMC | Stub => contains_fixme file_path
    | RmcFixme => negb (contains_fixme (base_name file_path))
    | _ => false
    end in
  let should_fail := bool_decide (mode c = RmcFixme) in
  should_fail ← iter_header fs p src (should_fail_line cfg) should_fail;
  Ok (mkTestDesc name ignore (if (should_fail : bool) then PanicYes else PanicNo)
        false false false UnknownType).

(** [Config::find_rust_src_root]: the ancestors of [src_base], nearest first *)
Fixpoint find_root (fs : FileSystem) (n : nat) (p : path) : option path :=
  match n with
  | O => None
  | S n =>
      let p := path_pop p in
      if is_file fs (p ++ path_of ["src"; "etc"; "lldb_batchmode.py"]%string) then Some p else find_root fs n p
  end.
(** [PathBuf::pop] fails at the root directory and at the empty path. *)
Definition pops (p : path) : nat :=
  match p with
  | c :: p' => if bool_decide (c = lit "/") then length p' else length p
  | [] => 0
  end.
Definition find_rust_src_root (fs : FileSystem) (c : Config) : option path :=
  find_root fs (pops (src_base c)) (src_base c).

(** ** The meaning of a header *)

(** The bodies of the comments before the first function or module *)
Fixpoint directives (comment : text) (ls : list text) : list text :=
  match ls with
  | [] => []
  | ln :: ls =>
      if starts_with (lit "fn") (trim ln) || starts_with (lit "mod") (trim ln) then []
      else match strip comment (trim ln) with
           | Some rest => trim_start rest :: directives comment ls
           | None => directives comment ls
           end
  end.

Definition words_of (o : option text) : list text :=
  match o with Some f => split_whitespace f | None => [] end.
Definition compile_flags_of (ln : text) : list text :=
  words_of (parse_compile_flags ln)
  ++ match parse_edition ln with Some e => [edition_flag e] | None => [] end.
Definition fail_of (ln : text) : option RMCFailStep :=
  if parse_name_directive ln "rmc-check-fail" then Some Check
  else if parse_name_directive ln "rmc-codegen-fail" then Some Codegen
  else if parse_name_directive ln "rmc-verify-fail" then Some Verify
  else None.
Definition sets_edition (ln : text) : bool :=
  match parse_edition ln with Some _ => true | None => false end.

Fixpoint fold_outcome {A S} (f : A -> S -> outcome S) (l : list A) (s : S) : outcome S :=
  match l with
  | [] => Ok s
  | a :: l => s ← f a s; fold_outcome f l s
  end.

Lemma iter_lines_fold {S} comment (it : option text -> text -> S -> outcome S) ls s :
  (r ← iter_lines comment it ls s; Ok r.1) = fold_outcome (it None) (directives comment ls) s.
Proof.
  revert s. induction ls as [|ln ls IH]; intros s; cbn [iter_lines directives fold_outcome]; [done|].
  destruct (_ || _); [done|]. destruct (strip comment (trim ln)); [|apply IH]. cbn [fold_outcome].
  destruct (it None _ s); [|done]. cbn [mbind outcome_bind]. apply IH.
Qed.

Lemma parse_fail_spec c ln :
  parse_rmc_step_fail_directive c ln =
  match fail_of ln with
  | None => Ok None
  | Some s => if bool_decide (mode c = RMC) then Ok (Some s) else Panic
  end.
Proof.
  unfold parse_rmc_step_fail_directive, fail_of, rassert.
  repeat (destruct (parse_name_directive _ _); [by destruct (bool_decide (mode c = RMC))|]). done.
Qed.

(** One directive *)
Lemma load_line_spec c cfg ln cf rf bf step he :
  load_line c cfg None ln (mkTestProps cf rf bf step, he) =
  if bool_decide (fail_of ln = None \/ (mode c = RMC /\ step = None))
  then Ok (mkTestProps (cf ++ compile_flags_of ln) (rf ++ words_of (parse_rmc_flags ln))
             (bf ++ words_of (parse_cbmc_flags ln))
             (match fail_of ln with Some s => Some s | None => step end),
           he || sets_edition ln)
  else Panic.
Proof.
  unfold load_line, update_rmc_fail_mode. rewrite (bool_decide_eq_false_2 (is_Some None /\ _)) by (by intros [[? ?] _]).
  unfold compile_flags_of, words_of, sets_edition, add_compile_flags, add_rmc_flags, add_cbmc_flags.
  rewrite parse_fail_spec. cbn [fst snd compile_flags rmc_flags cbmc_flags rmc_panic_step].
  destruct (parse_compile_flags ln), (parse_rmc_flags ln), (parse_cbmc_flags ln), (parse_edition ln), he;
    cbn [fst snd compile_flags rmc_flags cbmc_flags rmc_panic_step orb app];
    rewrite <- ?app_assoc, ?app_nil_r;
    (destruct (fail_of ln) as [f|]; [|rewrite bool_decide_eq_true_2 by (by left); by destruct step]);
    (destruct (decide (mode c = RMC)) as [Hm|Hm];
      [rewrite (bool_decide_eq_true_2 _ Hm) | rewrite (bool_decide_eq_false_2 _ Hm)]);
    cbn [mbind outcome_bind];
    (destruct step as [st|];
      [by rewrite bool_decide_eq_false_2 by naive_solver|]);
    (rewrite bool_decide_eq_true_2 by (by right)) || (rewrite bool_decide_eq_false_2 by naive_solver); done.
Qed.

(** The step at which a test should fail, given what was found before: at most one, and only
    in the mode [rmc] *)
Definition fails_ok (c : Config) (step : option RMCFailStep) (fails : list RMCFailStep) : Prop :=
  fails = [] \/ (mode c = RMC /\ step = None /\ length fails = 1%nat).
#[export] Instance fails_ok_dec c step fails : Decision (fails_ok c step fails) := _.

Lemma load_lines_spec c cfg ds : forall cf rf bf step he,
  fold_outcome (load_line c cfg None) ds (mkTestProps cf rf bf step, he) =
  if bool_decide (fails_ok c step (omap fail_of ds))
  then Ok (mkTestProps (cf ++ concat (map compile_flags_of ds))
             (rf ++ concat (map (fun ln => words_of (parse_rmc_flags ln)) ds))
             (bf ++ concat (map (fun ln => words_of (parse_cbmc_flags ln)) ds))
             (match omap fail_of ds with f :: _ => Some f | [] => step end),
           he || existsb sets_edition ds)
  else Panic.
Proof.
  induction ds as [|ln ds IH]; intros cf rf bf step he; cbn [fold_outcome map concat existsb].
  { rewrite bool_decide_eq_true_2 by (by left). by rewrite !app_nil_r, orb_false_r. }
  rewrite load_line_spec. change (omap fail_of (ln :: ds)) with
    (match fail_of ln with Some f => f :: omap fail_of ds | None => omap fail_of ds end).
  destruct (fail_of ln) as [f|] eqn:Hf.
  - destruct (decide (mode c = RMC /\ step = None)) as [[Hm ->]|Hno].
    + rewrite (bool_decide_eq_true_2 (_ \/ _)) by (by right). cbn [mbind outcome_bind]. rewrite IH.
      unfold fails_ok. destruct (omap fail_of ds) as [|g gs].
      * rewrite !bool_decide_eq_true_2 by naive_solver. by rewrite <- !app_assoc, orb_assoc.
      * by rewrite !bool_decide_eq_false_2 by naive_solver.
    + rewrite !bool_decide_eq_false_2; unfold fails_ok; naive_solver.
  - rewrite (bool_decide_eq_true_2 (_ \/ _)) by (by left). cbn [mbind outcome_bind]. rewrite IH.
    destruct (bool_decide _); [|done]. by rewrite <- !app_assoc, orb_assoc.
Qed.

Definition default_edition (c : Config) (ds : list text) : list text :=
  match edition c with
  | Some e => if existsb sets_edition ds then [] else [edition_flag e]
  | None => []
  end.

(** A directive that is written as the driver expects it: it is not tied to a revision, and
    the value of an edition follows its colon at once *)
Definition plain_directive (ln : text) : bool :=
  negb (starts_with (lit "[") ln)
  && match parse_edition ln with Some e => bool_decide (trim e = e) | None => true end.

(** C34. [TestProps::from_file] on a file: with the comments before the first function or
    module as directives, the properties are the flags of all [compile-flags] and [edition]
    lines in order (and the default edition if no line sets one), those of all [rmc-flags]
    and all [cbmc-flags] lines, and the step of the [rmc-*-fail] line; the only panics are
    those for more than one [rmc-*-fail] line, or one in a mode other than [rmc].  The claim is
    about headers in which no directive is tied to a revision with [[foo]], which the comment
    of [load_from] describes and the code does not have ([revision_lines_unread]), and no
    edition is written with a space before its value ([edition_with_space]). *)
Theorem header_loaded fs testfile cfg c t :
  is_dir fs testfile = false -> fs_files fs !! testfile = Some (Utf8 t) ->
  let ds := directives (comment_of testfile) (split_terminator t) in
  let fails := omap fail_of ds in
  forallb plain_directive ds = true ->
  from_file fs testfile cfg c =
  if bool_decide (fails = [] \/ (mode c = RMC /\ length fails = 1%nat))
  then Ok (mkTestProps (concat (map compile_flags_of ds) ++ default_edition c ds)
             (concat (map (fun ln => words_of (parse_rmc_flags ln)) ds))
             (concat (map (fun ln => words_of (parse_cbmc_flags ln)) ds))
             (head fails))
  else Panic.
Proof.
  intros Hdir Hfile ds fails _. unfold from_file, load_from, iter_header. rewrite Hdir, Hfile.
  cbn [unwrap mbind outcome_bind]. rewrite iter_lines_fold. fold ds. unfold props_new.
  rewrite load_lines_spec. fold fails.
  assert (bool_decide (fails_ok c None fails) = bool_decide (fails = [] \/ (mode c = RMC /\ length fails = 1%nat))) as ->
    by (apply bool_decide_ext; unfold fails_ok; naive_solver).
  destruct (bool_decide _); [|done]. cbn [mbind outcome_bind fst snd app orb].
  unfold default_edition. destruct (edition c), (existsb sets_edition ds), fails;
    unfold add_compile_flags; cbn [compile_flags rmc_flags cbmc_flags rmc_panic_step];
    by rewrite ?app_nil_r.
Qed.

(** A test with two lines of flags, an edition and a step *)
Definition sample_config : Config :=
  mkConfig (path_of ["/"; "rmc"]) (path_of ["/"; "src"; "test"; "rmc"]) (path_of ["/"; "build"])
    (lit "stage1") RMC (lit "rmc") false [] false None None None Unwind (lit "x86_64") (lit "x86_64")
    false false NeverColor (lit "dev") (Some (lit "2021")) false.
Definition sample_path : path := path_of ["/"; "src"; "test"; "rmc"; "Slice"; "main.rs"].
Definition sample_text : text :=
  lit "// compile-flags: -C opt" ++ [newline] ++ lit "//edition:2018" ++ [newline] ++ lit "use x;" ++ [newline]
  ++ lit "// rmc-verify-fail" ++ [newline] ++ lit "// cbmc-flags: --unwind 3" ++ [newline]
  ++ lit "fn main() {}" ++ [newline] ++ lit "// rmc-flags: --late".
Definition sample_fs : FileSystem := mkFileSystem {[sample_path := Utf8 sample_text]} ∅ ∅.
Definition sample_props : TestProps :=
  mkTestProps [lit "-C"; lit "opt"; lit "--edition=2018"] [] [lit "--unwind"; lit "3"] (Some Verify).

Lemma header_loaded_witness : from_file sample_fs sample_path None sample_config = Ok sample_props.
Proof.
  rewrite (header_loaded sample_fs sample_path None sample_config sample_text) by reflexivity.
  vm_compute. reflexivity.
Defined.

(** A line for the revision [foo] says nothing about any revision, [foo] included. *)
Definition revision_text : text := lit "//[foo] compile-flags: -C opt" ++ [newline] ++ lit "fn main() {}".
Example revision_lines_unread :
  from_file (mkFileSystem {[sample_path := Utf8 revision_text]} ∅ ∅) sample_path (Some (lit "foo")) sample_config
  = Ok (mkTestProps [lit "--edition=2021"] [] [] None).
Proof. vm_compute. reflexivity. Qed.

(** The header parser takes the value of a directive as it stands: after a space, the
    edition begins with one. *)
Example edition_with_space :
  compile_flags_of (lit "edition: 2018") = [lit "--edition= 2018"].
Proof. reflexivity. Qed.

(** [Mode]: what is displayed is parsed. *)
Lemma mode_roundtrip m : mode_from_str (display_mode m) = Some m.
Proof. by destruct m. Qed.
