(* ===== verification/RunTest.v ===== *)
(** * Running a test of the compile-test driver ([src/tools/compiletest/src/runtest.rs],
    [json.rs])

    A test is run by starting processes and looking at their status and output: for an [rmc]
    test a check of the file, then code generation, then verification, up to the step at which
    it should fail; for the other modes one process, whose output is compared with expected
    lines or whose status decides.

    The machine has the file system, the time, what was printed, and the processes run so far
    with their results; it is kept when the test ends with a panic.  A failed test resumes
    unwinding with the unit payload ([Fatal]); any other panic is [Panicked].  Outside are:
    processes ([Processes]: a child with its pipes and exit status, which may also change
    files), the environment variables, the debug format of a command, the JSON decoder of
    diagnostics and the regular expression of [verify_expect_fail], for which the class
    [FailRegex] states that it finds occurrences and misses none. *)

From S2P Require Import Prelude Unicode Text SipHash Utf8 Read2 LibTest CompileTest.
Open Scope N_scope.

(** ** Processes *)

Record Command := mkCommand { program : text; args : list text; envs : gmap text text }.
Definition command_new (p : string) : Command := mkCommand (lit p) [] ∅.
Definition add_args (l : list text) (c : Command) : Command :=
  mkCommand (program c) (args c ++ l) (envs c).
Definition add_env (k v : text) (c : Command) : Command :=
  mkCommand (program c) (args c) (<[k := v]> (envs c)).
Class CommandDebug := command_debug : Command -> text.

Record ExitStatus := mkExitStatus { success : bool; display_status : text }.
Record ProcRes := mkProcRes { status : ExitStatus; out_text : text; err_text : text; cmdline : text }.

(** A started child: the polls of its pipes, their contents, and what [wait] returns *)
Record Child := mkChild {
  child_polls : list PollResult;
  child_out : list Read;
  child_err : list Read;
  child_status : option ExitStatus;
}.
(** Starting a process, with the files and the time after it ended; [None]: it could not be
    started *)
Class Processes := spawn : FileSystem -> Z -> Command -> option (Child * FileSystem * Z).
Class Environment := env_vars : list (text * text).
Definition env_var `{Environment} (k : text) : option text :=
  match List.find (fun kv => bool_decide (kv.1 = k)) env_vars with
  | Some kv => Some kv.2
  | None => None
  end.

(** [serde_json::from_str] for the three kinds of line: the rendered text of a diagnostic, the
    rendered texts of a future-incompatibility report, an artifact notification *)
Class JsonDecode := {
  decode_diagnostic : text -> option (option text);
  decode_report : text -> option (list (option text));
  decode_artifact : text -> bool;
}.

(** ** The machine *)

Record Machine := mkMachine {
  m_fs : FileSystem;
  m_now : Z;
  m_log : list (Command * ProcRes);
  m_printed : text;
}.

Inductive Result (A : Type) := Done (a : A) | Fatal | Panicked.
Arguments Done {A} _. Arguments Fatal {A}. Arguments Panicked {A}.

Definition Run (A : Type) : Type := Machine -> Result A * Machine.
#[export] Instance Run_ret : MRet Run := fun A a m => (Done a, m).
#[export] Instance Run_bind : MBind Run := fun A B f r m =>
  match r m with
  | (Done a, m) => f a m
  | (Fatal, m) => (Fatal, m)
  | (Panicked, m) => (Panicked, m)
  end.

Definition run_lift {A} (o : outcome A) : Run A := fun m =>
  match o with Ok a => (Done a, m) | Panic => (Panicked, m) end.
Definition run_option {A} (o : option A) : Run A := run_lift (unwrap o).
Definition run_get : Run Machine := fun m => (Done m, m).
Definition print (s : text) : Run unit := fun m =>
  (Done tt, mkMachine (m_fs m) (m_now m) (m_log m) (m_printed m ++ s)).
Definition println (s : text) : Run unit := print (s ++ [newline]).
Definition set_fs (fs : FileSystem) : Run unit := fun m =>
  (Done tt, mkMachine fs (m_now m) (m_log m) (m_printed m)).

(** [resume_unwind(Box::new(()))] *)
Definition resume_unwind {A} : Run A := fun m => (Fatal, m).

(** ** Files *)

Definition parent (p : path) : path := path_pop p.
Definition add_entry (fs : FileSystem) (dir : path) (name : text) : gmap path (list (option text)) :=
  match fs_dirs fs !! dir with
  | Some l => <[dir := l ++ [Some name]]> (fs_dirs fs)
  | None => fs_dirs fs
  end.

(** [fs::create_dir_all], prefix by prefix; the empty path and the root are there. *)
Definition create_dir (fs : FileSystem) (p : path) : option FileSystem :=
  if is_dir fs p || bool_decide (p = [] \/ p = [lit "/"]) then Some fs
  else if is_file fs p then None
  else Some (mkFileSystem (fs_files fs)
               (<[p := []]> (add_entry fs (parent p) (default [] (last p)))) (fs_mtime fs)).
Fixpoint create_prefixes (fs : FileSystem) (done_ todo : path) : option FileSystem :=
  fs ← create_dir fs done_;
  match todo with
  | [] => Some fs
  | c :: todo => create_prefixes fs (done_ ++ [c]) todo
  end.
Definition create_dir_all (fs : FileSystem) (p : path) : option FileSystem := create_prefixes fs [] p.

(** [fs::write] *)
Definition fs_write (fs : FileSystem) (now : Z) (p : path) (t : text) : option FileSystem :=
  if is_dir fs p || negb (is_dir fs (parent p)) then None
  else Some (mkFileSystem (<[p := Utf8 t]> (fs_files fs))
               (if is_file fs p then fs_dirs fs else add_entry fs (parent p) (default [] (last p)))
               (<[p := now]> (fs_mtime fs))).
Definition write_file (p : path) (t : text) : Run unit :=
  m ← run_get;
  fs ← run_option (fs_write (m_fs m) (m_now m) p t);
  set_fs fs.

(** [fs::read_to_string(..).unwrap()] *)
Definition read_file (p : path) : Run text :=
  m ← run_get;
  match read_to_string (m_fs m) p with
  | ReadOk t => mret t
  | _ => run_lift Panic
  end.

(** ** [json.rs] *)

Section Json.
Context `{JsonDecode}.

Definition rendered_line (line : text) : outcome text :=
  if starts_with (lit "{") line then
    match decode_diagnostic line with
    | Some rendered => Ok (default [] rendered)
    | None =>
        match decode_report line with
        | Some [] => Ok []
        | Some items =>
            Ok (lit "Future incompatibility report: "
                ++ concat (map (fun r => lit "Future breakage diagnostic:" ++ [newline]
                                           ++ default (lit "Not rendered") r) items))
        | None => if decode_artifact line then Ok [] else Panic
        end
    end
  else Ok (line ++ [newline]).
Definition extract_rendered (output : text) : outcome text :=
  l ← map_outcome rendered_line (lines output); Ok (concat l).

(** ** [ProcRes::fatal], with no message *)

Definition rule : text := lit "------------------------------------------".
Definition proc_fatal {A} (p : ProcRes) : Run A :=
  out ← run_lift (extract_rendered (out_text p));
  err ← run_lift (extract_rendered (err_text p));
  print (lit "status: " ++ display_status (status p) ++ [newline]
         ++ lit "command: " ++ cmdline p ++ [newline]
         ++ lit "stdout:" ++ [newline] ++ rule ++ [newline] ++ out ++ [newline] ++ rule ++ [newline]
         ++ lit "stderr:" ++ [newline] ++ rule ++ [newline] ++ err ++ [newline] ++ rule ++ [newline]
         ++ [newline]) ;;
  resume_unwind.

End Json.

(** ** [TestCx] *)

(** The matches of [line [0-9]+ EXPECTED FAIL: SUCCESS] in a text *)
Definition is_digit (c : N) : bool := (48 <=? c) && (c <=? 57).
Definition unexpected_success (num : text) : text :=
  lit "line " ++ num ++ lit " EXPECTED FAIL: SUCCESS".
Definition digits (num : text) : Prop := num <> [] /\ Forall (fun c => is_digit c = true) num.
Class FailRegex := {
  find_iter : text -> list text;
  find_iter_matches s m : m ∈ find_iter s ->
    exists num, digits num /\ m = unexpected_success num /\ contains m s = true;
  find_iter_complete s num : digits num -> contains (unexpected_success num) s = true -> find_iter s <> [];
}.

(** [split_ascii_whitespace] *)
Definition is_ascii_whitespace (c : N) : bool :=
  (c =? 32) || (c =? 9) || (c =? 10) || (c =? 12) || (c =? 13).
Definition split_ascii_whitespace (s : text) : list text :=
  filter nonempty (split_on is_ascii_whitespace s).

Definition verify_expect_fail `{FailRegex} (s : text) : outcome (list N) :=
  map_outcome (fun m =>
    num_str ← unwrap (split_ascii_whitespace m !! 1%nat);
    unwrap (parse_usize num_str)) (find_iter s).

Fixpoint contains_lines (s : text) (ls : list text) : option text :=
  match ls with
  | [] => None
  | line :: ls => if negb (contains line s) then Some line else contains_lines s ls
  end.

(** [{:?}] of a vector of numbers *)
Definition debug_numbers (l : list N) : text := lit "[" ++ Text.join (lit ", ") (map dec l) ++ lit "]".

(** Linux: [dylib_env_var] *)
Definition dylib_env_var : text := lit "LD_LIBRARY_PATH".

(** [env::split_paths], [env::join_paths]: the parts hold no colon, so joining succeeds. *)
Definition colon : N := 58.
Definition split_paths (s : text) : list text := split_on (N.eqb colon) s.
Definition join_paths (l : list text) : text := Text.join [colon] l.

Record TestCx := mkTestCx {
  config : Config;
  props : TestProps;
  testpaths : TestPaths;
  revision : option text;
}.

Section TestCx.
Context `{Processes} `{Environment} `{CommandDebug} `{JsonDecode} `{FailRegex}.
Variable cx : TestCx.

Definition logv (s : text) : Run unit := if verbose (config cx) then println s else mret tt.

Definition cx_output_base_dir : outcome path := output_base_dir (config cx) (testpaths cx) (revision cx).
Definition cx_output_base_name : outcome path := output_base_name (config cx) (testpaths cx) (revision cx).
Definition make_out_name (ext : text) : outcome path :=
  p ← cx_output_base_name; Ok (with_extension p ext).

Definition dump_output_file (out ext : text) : Run unit :=
  outfile ← run_lift (make_out_name ext); write_file outfile out.
Definition maybe_dump_to_stdout (out err : text) : Run unit :=
  if verbose (config cx) then
    println (lit "------stdout------------------------------") ;;
    println out ;;
    println (lit "------stderr------------------------------") ;;
    println err ;;
    println rule
  else mret tt.
Definition dump_output (out err : text) : Run unit :=
  let revision := match revision cx with Some r => r ++ lit "." | None => [] end in
  dump_output_file out (revision ++ lit "out") ;;
  dump_output_file err (revision ++ lit "err") ;;
  maybe_dump_to_stdout out err.

(** [command.spawn()], [read2_abbreviated(child)] and the conversion of the output *)
Definition run_child (c : Command) (cmdline : text) : Run ProcRes := fun m =>
  match spawn (m_fs m) (m_now m) c with
  | None => (Panicked, m)
  | Some (child, fs, now) =>
      let m := mkMachine fs now (m_log m) (m_printed m) in
      match read2_abbreviated (child_polls child) (child_out child) (child_err child), child_status child with
      | Some (Ok (Some (out, err))), Some st =>
          match from_utf8_lossy out, from_utf8_lossy err with
          | Ok out, Ok err =>
              let r := mkProcRes st out err cmdline in
              (Done r, mkMachine fs now (m_log m ++ [(c, r)]) (m_printed m))
          | _, _ => (Panicked, m)
          end
      | _, _ => (Panicked, m)
      end
  end.

Definition compose_and_run (c : Command) : Run ProcRes :=
  let cmdline := command_debug c in
  logv (lit "executing " ++ cmdline) ;;
  let newpath := join_paths (split_paths (default [] (env_var dylib_env_var))) in
  r ← run_child (add_env dylib_env_var newpath c) cmdline;
  dump_output (out_text r) (err_text r) ;;
  mret r.

Definition error (err : text) : Run unit :=
  match revision cx with
  | Some rev => println ([newline] ++ lit "error in revision `" ++ rev ++ lit "`: " ++ err)
  | None => println ([newline] ++ lit "error: " ++ err)
  end.
Definition fatal_proc_rec {A} (err : text) (p : ProcRes) : Run A := error err ;; proc_fatal p.

Definition add_rmc_dir_to_path (c : Command) : Command :=
  let dir := display_path (rmc_dir_path (config cx)) in
  match env_var (lit "PATH") with
  | Some val => add_env (lit "PATH") (dir ++ lit ":" ++ val) c
  | None => add_env (lit "PATH") dir c
  end.

(** The commands *)
Definition file_arg : text := display_path (file (testpaths cx)).
Definition check_command : Command :=
  add_rmc_dir_to_path
    (add_args ([lit "--goto-c"] ++ compile_flags (props cx) ++ [lit "-Z"; lit "no-codegen"] ++ [file_arg])
       (command_new "rmc-rustc")).
Definition codegen_command (out_dir : path) : Command :=
  add_rmc_dir_to_path
    (add_args ([lit "--goto-c"] ++ compile_flags (props cx) ++ [lit "--out-dir"; display_path out_dir] ++ [file_arg])
       (command_new "rmc-rustc")).
Definition rmc_command : Command :=
  let c := command_new "rmc" in
  let c := if bool_decide (compile_flags (props cx) = []) then c
           else add_env (lit "RUSTFLAGS") (Text.join (lit " ") (compile_flags (props cx))) c in
  add_rmc_dir_to_path
    (add_args (rmc_flags (props cx) ++ [lit "--input"; file_arg; lit "--cbmc-args"] ++ cbmc_flags (props cx)) c).
Definition cargo_command (out_dir parent_dir : path) (function_name : text) : Command :=
  add_rmc_dir_to_path
    (add_args [lit "rmc"; lit "--function"; function_name; lit "--target";
               display_path (path_push out_dir (lit "target")); lit "--crate"; display_path parent_dir]
       (command_new "cargo")).

Definition step_is (s : RMCFailStep) : bool := bool_decide (rmc_panic_step (props cx) = Some s).

(** The tail of [check] and [codegen]: the status must be the expected one *)
Definition expect_status (what : string) (expect_failure : bool) (r : ProcRes) : Run unit :=
  if expect_failure then
    if success (status r)
    then fatal_proc_rec (lit "test failed: expected " ++ lit what ++ lit " failure, got success") r
    else mret tt
  else
    if negb (success (status r))
    then fatal_proc_rec (lit "test failed: expected " ++ lit what ++ lit " success, got failure") r
    else mret tt.

Definition check : Run unit :=
  r ← compose_and_run check_command;
  expect_status "check" (step_is Check) r.

Definition codegen : Run unit :=
  dir ← run_lift cx_output_base_dir;
  r ← compose_and_run (codegen_command dir);
  expect_status "codegen" (step_is Codegen) r.

Definition run_rmc : Run ProcRes := compose_and_run rmc_command.

Definition verify : Run unit :=
  r ← run_rmc;
  if contains (lit "EXPECTED FAIL") (out_text r) then
    lines ← run_lift (verify_expect_fail (out_text r));
    match lines with
    | [] => mret tt
    | _ => fatal_proc_rec (lit "test failed: expected failure in lines " ++ debug_numbers lines
                             ++ lit ", got success") r
    end
  else
    src ← read_file (file (testpaths cx));
    (if contains (lit "__VERIFIER_expect_fail") src
     then fatal_proc_rec (lit "found call to `__VERIFIER_expect_fail` with no corresponding " ++ [34]
            ++ lit "EXPECTED FAIL" ++ [34] ++ lit " in RMC's output") r
     else mret tt) ;;
    expect_status "verification" (step_is Verify) r.

Definition run_rmc_test : Run unit :=
  check ;;
  if step_is Check then mret tt
  else
    codegen ;;
    if step_is Codegen then mret tt else verify.

Definition verify_output (r : ProcRes) (expected : text) : Run unit :=
  let output := out_text r ++ err_text r in
  match contains_lines output (split_on (N.eqb newline) expected) with
  | Some line => fatal_proc_rec (lit "test failed: expected output to contain the line: " ++ line) r
  | None => mret tt
  end.

(** [Path::parent] *)
Definition parent_path (p : path) : option path :=
  match p with
  | [] => None
  | [r] => if bool_decide (r = lit "/") then None else Some []
  | _ => Some (path_pop p)
  end.

Definition run_cargo_rmc_test : Run unit :=
  parent_dir ← run_option (parent_path (file (testpaths cx)));
  function_name ← run_option (file_stem (file (testpaths cx)));
  dir ← run_lift cx_output_base_dir;
  r ← compose_and_run (cargo_command dir parent_dir function_name);
  expected ← read_file (file (testpaths cx));
  verify_output r expected.

Definition run_expected_test : Run unit :=
  r ← run_rmc;
  dir ← run_option (parent_path (file (testpaths cx)));
  expected ← read_file (path_push dir (lit "expected"));
  verify_output r expected.

Definition run_stub_test : Run unit :=
  r ← run_rmc;
  if negb (success (status r))
  then fatal_proc_rec (lit "test failed: expected verification success, got failure") r
  else mret tt.

Definition run_revision : Run unit :=
  match mode (config cx) with
  | RMC => run_rmc_test
  | RmcFixme => run_rmc_test
  | CargoRMC => run_cargo_rmc_test
  | Expected => run_expected_test
  | Stub => run_stub_test
  end.

End TestCx.

(** ** Stamps *)

(** [{:x}] of a number *)
Definition hex_digit (d : N) : N := if d <? 10 then 48 + d else 87 + d.
Fixpoint hex_from (fuel : nat) (n : N) (acc : text) : text :=
  match fuel with
  | O => acc
  | S fuel =>
      let acc := hex_digit (n mod 16) :: acc in
      if n <? 16 then acc else hex_from fuel (n / 16) acc
  end.
Definition lower_hex (n : N) : text := hex_from 16 n [].

Definition compute_stamp_hash (c : Config) : outcome text :=
  h ← hash_str (utf8 (stage_id c)); Ok (lower_hex h).

(** [stamp] of [main.rs] *)
Definition stamp (c : Config) (t : TestPaths) (revision : option text) : outcome path :=
  d ← output_base_dir c t revision; Ok (path_push d (lit "stamp")).

Definition create_stamp (cx : TestCx) : Run unit :=
  p ← run_lift (stamp (config cx) (testpaths cx) (revision cx));
  h ← run_lift (compute_stamp_hash (config cx));
  write_file p h.

(** ** [run] *)

Section RunTest.
Context `{Processes} `{Environment} `{CommandDebug} `{JsonDecode} `{FailRegex}.

Definition run (c : Config) (t : TestPaths) (revision : option text) : Run unit :=
  (if verbose c then print [newline; newline] else mret tt) ;;
  m ← run_get;
  props ← run_lift (from_file (m_fs m) (file t) revision c);
  let cx := mkTestCx c props t revision in
  dir ← run_lift (cx_output_base_dir cx);
  m ← run_get;
  fs ← run_option (create_dir_all (m_fs m) dir);
  set_fs fs ;;
  run_revision cx ;;
  create_stamp cx.

End RunTest.
