(* ===== verification/RunVerdict.v ===== *)
(** * What the verdict of a test means

    [revision_verdict]: for each mode, which processes a test runs, in which order, and which
    results make it pass or fail. *)

From S2P Require Import Prelude Unicode Text SipHash Utf8 Read2 LibTest CompileTest RunTest.
Open Scope N_scope.

(** ** Reasoning about runs *)

Lemma run_bind_inv {A B} (r : Run A) (f : A -> Run B) m x m' :
  (r ≫= f) m = (x, m') ->
  (exists a m1, r m = (Done a, m1) /\ f a m1 = (x, m'))
  \/ (r m = (Fatal, m') /\ x = Fatal) \/ (r m = (Panicked, m') /\ x = Panicked).
Proof.
  unfold mbind, Run_bind. destruct (r m) as [[a| |] m1] eqn:E; intros Hx.
  - left. by exists a, m1.
  - right. left. by injection Hx as <- <-.
  - right. right. by injection Hx as <- <-.
Qed.

(** A run that leaves the log and does not fail the test *)
Definition quiet {A} (r : Run A) : Prop := forall m, m_log (r m).2 = m_log m /\ (r m).1 <> Fatal.

Lemma quiet_ret {A} (a : A) : quiet (mret a).
Proof. by intros m. Qed.
Lemma quiet_lift {A} (o : outcome A) : quiet (run_lift o).
Proof. intros m. unfold run_lift. by destruct o. Qed.
Lemma quiet_get : quiet run_get.
Proof. by intros m. Qed.
Lemma quiet_print s : quiet (print s).
Proof. by intros m. Qed.
Lemma quiet_set_fs fs : quiet (set_fs fs).
Proof. by intros m. Qed.
Lemma quiet_bind {A B} (r : Run A) (f : A -> Run B) : quiet r -> (forall a, quiet (f a)) -> quiet (r ≫= f).
Proof.
  intros Hr Hf m. unfold mbind, Run_bind. specialize (Hr m).
  destruct (r m) as [[a| |] m1]; cbn in *; destruct Hr as [<- Hf1]; [apply Hf|done|done].
Qed.
Create HintDb quiet discriminated.
#[export] Hint Resolve quiet_ret quiet_lift quiet_get quiet_print quiet_set_fs : quiet.

Ltac quiet := repeat first [solve [auto with quiet] | apply quiet_bind; [|intros] | case_match].

Lemma quiet_write_file p t : quiet (write_file p t).
Proof. unfold write_file, run_option. quiet. Qed.
Lemma quiet_read_file p : quiet (read_file p).
Proof. unfold read_file. quiet. Qed.
#[export] Hint Resolve quiet_write_file quiet_read_file : quiet.

Section Verdict.
Context `{Processes} `{Environment} `{CommandDebug} `{JsonDecode} `{FailRegex}.
Variable cx : TestCx.

Lemma quiet_logv s : quiet (logv cx s).
Proof. unfold logv, println. quiet. Qed.
Lemma quiet_dump_output o e : quiet (dump_output cx o e).
Proof.
  unfold dump_output, dump_output_file, maybe_dump_to_stdout, println. quiet.
Qed.

(** A failure is reported without touching files or the log. *)
Lemma fatal_spec {A} err p m (x : Result A) m' :
  fatal_proc_rec cx err p m = (x, m') ->
  m_log m' = m_log m /\ m_fs m' = m_fs m /\ (x = Fatal \/ x = Panicked).
Proof.
  unfold fatal_proc_rec, error, proc_fatal, println, print, run_lift, resume_unwind, mbind, Run_bind.
  destruct (revision cx), (extract_rendered (out_text p)), (extract_rendered (err_text p));
    intros [= <- <-]; auto.
Qed.

Lemma expect_status_spec what ef p m x m' :
  expect_status cx what ef p m = (x, m') ->
  m_log m' = m_log m /\ m_fs m' = m_fs m
  /\ (if Bool.eqb (success (status p)) (negb ef) then x = Done tt else x = Fatal \/ x = Panicked).
Proof.
  unfold expect_status. destruct ef, (success (status p)); cbn [negb Bool.eqb];
    first [by intros (? & ? & ?)%fatal_spec | by intros [= <- <-]].
Qed.

(** The command as it is started *)
Definition with_dylib (c : Command) : Command :=
  add_env dylib_env_var (join_paths (split_paths (default [] (env_var dylib_env_var)))) c.

Lemma compose_spec c m x m' : compose_and_run cx c m = (x, m') ->
  (exists p, m_log m' = m_log m ++ [(with_dylib c, p)] /\ (x = Done p \/ x = Panicked))
  \/ (x = Panicked /\ m_log m' = m_log m).
Proof.
  unfold compose_and_run. intros Hr.
  apply run_bind_inv in Hr as [(? & m1 & Hlog & Hr)|[[Hlog ->]|[Hlog ->]]];
    pose proof (quiet_logv (lit "executing " ++ command_debug c) m) as [Ql Qf]; rewrite Hlog in Ql, Qf;
    cbn in Ql, Qf; [|done|by right].
  apply run_bind_inv in Hr as [(p & m2 & Hc & Hr)|Hr].
  - left. exists p.
    assert (m_log m2 = m_log m ++ [(with_dylib c, p)]) as Hm2.
    { unfold run_child in Hc. repeat case_match; try done. injection Hc as <- <-. cbn. by rewrite Ql. }
    apply run_bind_inv in Hr as [(? & m3 & Hd & Hr)|Hr].
    + pose proof (quiet_dump_output (out_text p) (err_text p) m2) as [Qd _]. rewrite Hd in Qd. cbn in Qd.
      injection Hr as <- <-. rewrite Qd. auto.
    + pose proof (quiet_dump_output (out_text p) (err_text p) m2) as [Qd Qf'].
      destruct Hr as [[Hr ->]|[Hr ->]]; rewrite Hr in Qd, Qf'; [done|]. cbn in Qd. rewrite Qd. auto.
  - right. destruct Hr as [[Hr ->]|[Hr ->]]; unfold run_child in Hr; repeat case_match; try done;
      injection Hr as <-; auto.
Qed.

(** The first steps of a run *)
Lemma compose_bind {A} c (f : ProcRes -> Run A) m x m' : (compose_and_run cx c ≫= f) m = (x, m') ->
  (exists p m1, m_log m1 = m_log m ++ [(with_dylib c, p)] /\ f p m1 = (x, m'))
  \/ (x = Panicked /\ (m_log m' = m_log m \/ exists p, m_log m' = m_log m ++ [(with_dylib c, p)])).
Proof.
  intros [(r & m1 & Hc & Hr)|[[Hc ->]|[Hc ->]]]%run_bind_inv;
    apply compose_spec in Hc as [(p & Hlog & [Hp|Hp])|[Hp Hlog]]; try done.
  - injection Hp as ->. left. by exists p, m1.
  - right. split; [done|]. right. by exists p.
  - right. auto.
Qed.

Lemma lift_bind {A B} (o : outcome A) (f : A -> Run B) m x m' : (run_lift o ≫= f) m = (x, m') ->
  match o with Ok a => f a m = (x, m') | Panic => x = Panicked /\ m' = m end.
Proof. unfold run_lift, mbind, Run_bind. destruct o; [done|]. by intros [= <- <-]. Qed.

Lemma read_bind {B} p (f : text -> Run B) m x m' : (read_file p ≫= f) m = (x, m') ->
  match read_to_string (m_fs m) p with ReadOk t => f t m = (x, m') | _ => x = Panicked /\ m' = m end.
Proof.
  unfold read_file, run_get, run_lift, mbind, Run_bind. destruct (read_to_string _ _); [done|..];
    by intros [= <- <-].
Qed.

(** ** The meaning of a pass and of a failure *)

Definition unexpected (out : text) : Prop :=
  exists num, digits num /\ contains (unexpected_success num) out = true.

(** The last step of an [rmc] test, given the files at its end: if RMC reports on expected
    failures, none of them succeeded; otherwise the file has no such expectation and the
    status is the expected one. *)
Definition verified (fs : FileSystem) (r : ProcRes) : Prop :=
  if contains (lit "EXPECTED FAIL") (out_text r) then ~ unexpected (out_text r)
  else exists src, read_to_string fs (file (testpaths cx)) = ReadOk src
    /\ contains (lit "__VERIFIER_expect_fail") src = false
    /\ success (status r) = negb (step_is cx Verify).
Definition refuted (fs : FileSystem) (r : ProcRes) : Prop :=
  if contains (lit "EXPECTED FAIL") (out_text r) then unexpected (out_text r)
  else exists src, read_to_string fs (file (testpaths cx)) = ReadOk src
    /\ (contains (lit "__VERIFIER_expect_fail") src = true \/ success (status r) = step_is cx Verify).

(** The outputs of a process and the lines that are expected in them *)
Definition has_lines (expected : text) (r : ProcRes) : Prop :=
  forall line, line ∈ split_on (N.eqb newline) expected -> contains line (out_text r ++ err_text r) = true.

(** The file with the expected lines *)
Definition expected_file : option path :=
  match mode (config cx) with
  | CargoRMC => Some (file (testpaths cx))
  | _ => dir ← parent_path (file (testpaths cx)); Some (path_push dir (lit "expected"))
  end.

Definition status_ok (expect_failure : bool) (r : ProcRes) : bool :=
  Bool.eqb (success (status r)) (negb expect_failure).

(** The results of the steps of an [rmc] test with which it passes ([pass = true]) or fails *)
Definition rmc_concludes (pass : bool) (fs : FileSystem) (rs : list ProcRes) : Prop :=
  match rs with
  | [r1] => status_ok (step_is cx Check) r1 = pass /\ (pass = true -> step_is cx Check = true)
  | [r1; r2] => step_is cx Check = false /\ success (status r1) = true
      /\ status_ok (step_is cx Codegen) r2 = pass /\ (pass = true -> step_is cx Codegen = true)
  | [r1; r2; r3] => step_is cx Check = false /\ step_is cx Codegen = false
      /\ success (status r1) = true /\ success (status r2) = true
      /\ (if pass then verified fs r3 else refuted fs r3)
  | _ => False
  end.

(** The same for every mode *)
Definition concludes (pass : bool) (fs : FileSystem) (rs : list ProcRes) : Prop :=
  match mode (config cx), rs with
  | (RMC | RmcFixme), _ => rmc_concludes pass fs rs
  | (CargoRMC | Expected), [r] =>
      exists p expected, expected_file = Some p /\ read_to_string fs p = ReadOk expected
        /\ (if pass then has_lines expected r else ~ has_lines expected r)
  | Stub, [r] => success (status r) = pass
  | _, _ => False
  end.

(** The commands a test would start, in order *)
Definition rmc_plan : list Command :=
  check_command cx :: match cx_output_base_dir cx with
                      | Ok dir => [codegen_command cx dir; rmc_command cx]
                      | Panic => []
                      end.
Definition plan : list Command :=
  match mode (config cx), cx_output_base_dir cx with
  | (RMC | RmcFixme), _ => rmc_plan
  | CargoRMC, Ok dir =>
      match parent_path (file (testpaths cx)), file_stem (file (testpaths cx)) with
      | Some p, Some f => [cargo_command cx dir p f]
      | _, _ => []
      end
  | CargoRMC, Panic => []
  | (Expected | Stub), _ => [rmc_command cx]
  end.

(** The processes of a run are those of a plan, up to some point, and its result says what
    they showed. *)
Definition explained (plan : list Command) (verdict : bool -> FileSystem -> list ProcRes -> Prop)
    (m : Machine) (x : Result unit) (m' : Machine) : Prop :=
  exists entries, m_log m' = m_log m ++ entries
    /\ map fst entries `prefix_of` map with_dylib plan
    /\ match x with
       | Done _ => verdict true (m_fs m') (map snd entries)
       | Fatal => verdict false (m_fs m') (map snd entries)
       | Panicked => True
       end.

Lemma explained_panic pl v m m' entries rest :
  m_log m' = m_log m ++ entries -> map with_dylib pl = map fst entries ++ rest ->
  explained pl v m Panicked m'.
Proof. intros Hl Hp. exists entries. split_and!; [done|by exists rest|done]. Qed.
Lemma explained_nothing pl v m m' : m_log m' = m_log m -> explained pl v m Panicked m'.
Proof. intros Hl. apply (explained_panic _ _ _ _ [] (map with_dylib pl)); [by rewrite app_nil_r|done]. Qed.

(** The first process of a plan *)
Lemma explained_step pl v c r m m1 x m' :
  m_log m1 = m_log m ++ [(with_dylib c, r)] ->
  explained pl (fun pass fs rs => v pass fs (r :: rs)) m1 x m' ->
  explained (c :: pl) v m x m'.
Proof.
  intros Hl (entries & Hl' & [rest Hp] & Hx). exists ((with_dylib c, r) :: entries). split_and!.
  - by rewrite Hl', Hl, <- app_assoc.
  - exists rest. cbn. by rewrite Hp.
  - done.
Qed.

Lemma contains_lines_spec s ls :
  match contains_lines s ls with
  | None => forall line, line ∈ ls -> contains line s = true
  | Some line => line ∈ ls /\ contains line s = false
  end.
Proof.
  induction ls as [|l ls IH]; cbn; [by intros ? ?%not_elem_of_nil|].
  destruct (contains l s) eqn:E; cbn; [|by split; [left|]].
  destruct (contains_lines s ls) as [l'|]; [split; [right|]; naive_solver|].
  intros line [->|Hl]%elem_of_cons; auto.
Qed.

Lemma verify_output_spec r expected m x m' :
  verify_output cx r expected m = (x, m') ->
  m_log m' = m_log m /\ m_fs m' = m_fs m
  /\ match x with Done _ => has_lines expected r | Fatal => ~ has_lines expected r | Panicked => True end.
Proof.
  unfold verify_output. pose proof (contains_lines_spec (out_text r ++ err_text r)
    (split_on (N.eqb newline) expected)) as Hc. destruct (contains_lines _ _) as [line|].
  - intros (-> & -> & Hx)%fatal_spec. split_and!; [done..|]. destruct Hx as [->| ->]; [|done].
    intros Hl. destruct Hc as [Hin Hno]. by rewrite (Hl line Hin) in Hno.
  - by intros [= <- <-].
Qed.

Lemma verify_expect_fail_spec s ls :
  verify_expect_fail s = Ok ls -> if decide (ls = []) then ~ unexpected s else unexpected s.
Proof.
  unfold verify_expect_fail. intros Hl%map_outcome_ok. case_decide as Hls.
  - subst. intros (num & Hd & Hc). apply find_iter_complete in Hc; [|done]. by inversion Hl.
  - destruct (find_iter s) as [|m ms] eqn:E; [by inversion Hl|].
    destruct (find_iter_matches s m) as (num & Hd & -> & Hc); [rewrite E; by left|]. by exists num.
Qed.

(** What [verify] does after RMC has run *)
Lemma verify_spec m x m' : verify cx m = (x, m') ->
  (exists r, m_log m' = m_log m ++ [(with_dylib (rmc_command cx), r)]
     /\ match x with Done _ => verified (m_fs m') r | Fatal => refuted (m_fs m') r | Panicked => True end)
  \/ (x = Panicked /\ m_log m' = m_log m).
Proof.
  unfold verify, run_rmc. intros [(p & m1 & Hlog & Hr)|(-> & [Hl|[p Hl]])]%compose_bind;
    [|by right|left; by exists p].
  left. exists p. rewrite <- Hlog. clear Hlog. unfold verified, refuted.
  destruct (contains (lit "EXPECTED FAIL") (out_text p)).
  - apply lift_bind in Hr. destruct (verify_expect_fail (out_text p)) as [ls|] eqn:E; [|by destruct Hr as [-> ->]].
    apply verify_expect_fail_spec in E. case_decide; [subst|destruct ls; [done|]].
    + by injection Hr as <- <-.
    + by apply fatal_spec in Hr as (-> & _ & [->| ->]).
  - apply read_bind in Hr. destruct (read_to_string _ _) as [src| |] eqn:Hsrc; [|by destruct Hr as [-> ->]..].
    destruct (contains (lit "__VERIFIER_expect_fail") src) eqn:Hx.
    + assert (exists m2 y, fatal_proc_rec (A := unit) cx (lit "found call to `__VERIFIER_expect_fail` with no corresponding " ++ [34]
            ++ lit "EXPECTED FAIL" ++ [34] ++ lit " in RMC's output") p m1 = (y, m2)
            /\ m2 = m' /\ (y = Fatal -> x = Fatal) /\ (y = Panicked -> x = Panicked)) as (m2 & y & Hf & -> & Y1 & Y2).
      { apply run_bind_inv in Hr as [(a & m2 & Hf & _)|[[Hf ->]|[Hf ->]]].
        - by apply fatal_spec in Hf as (_ & _ & [?|?]).
        - by exists m', Fatal.
        - by exists m', Panicked. }
      apply fatal_spec in Hf as (-> & -> & [->| ->]).
      * rewrite Y1 by done. split; [done|]. exists src. auto.
      * by rewrite Y2 by done.
    + cbn in Hr. apply expect_status_spec in Hr as (-> & -> & Hr). split; [done|].
      destruct (Bool.eqb_spec (success (status p)) (negb (step_is cx Verify))) as [Hb|Hb].
      * subst x. by exists src.
      * destruct Hr as [->| ->]; [|done]. exists src. split; [done|]. right.
        by destruct (success (status p)), (step_is cx Verify).
Qed.

(** [check] and [codegen] *)
Lemma status_step c what ef m x m' :
  (r ← compose_and_run cx c; expect_status cx what ef r) m = (x, m') ->
  (exists r, m_log m' = m_log m ++ [(with_dylib c, r)]
     /\ match x with
        | Done _ => status_ok ef r = true
        | Fatal => status_ok ef r = false
        | Panicked => True
        end)
  \/ (x = Panicked /\ m_log m' = m_log m).
Proof.
  intros [(p & m1 & Hlog & Hr)|(-> & [Hl|[p Hl]])]%compose_bind; [|by right|left; by exists p].
  left. exists p. apply expect_status_spec in Hr as (-> & _ & Hr). split; [done|]. unfold status_ok.
  destruct (Bool.eqb _ _); [by subst|]. by destruct Hr as [->| ->].
Qed.

Lemma explained_last pl (v : bool -> FileSystem -> list ProcRes -> Prop) c r m x m' :
  m_log m' = m_log m ++ [(with_dylib c, r)] ->
  match x with Done _ => v true (m_fs m') [r] | Fatal => v false (m_fs m') [r] | Panicked => True end ->
  explained (c :: pl) v m x m'.
Proof.
  intros Hl Hx. exists [(with_dylib c, r)]. split_and!; [done| |done]. exists (map with_dylib pl). done.
Qed.

Lemma status_ok_false r : status_ok false r = true -> success (status r) = true.
Proof. unfold status_ok. by destruct (success (status r)). Qed.

Lemma codegen_verify_explained m x m' r1 :
  step_is cx Check = false -> success (status r1) = true ->
  (codegen cx ;; if step_is cx Codegen then mret tt else verify cx) m = (x, m') ->
  explained (match cx_output_base_dir cx with Ok dir => [codegen_command cx dir; rmc_command cx] | Panic => [] end)
    (fun pass fs rs => rmc_concludes pass fs (r1 :: rs)) m x m'.
Proof.
  intros Hk Hr1 Hr. unfold codegen in Hr. destruct (cx_output_base_dir cx) as [dir|] eqn:Hd.
  2:{ unfold run_lift, mbind, Run_bind in Hr. injection Hr as <- <-. by apply explained_nothing. }
  apply run_bind_inv in Hr as [([] & m1 & Hc & Hr)|[[Hc ->]|[Hc ->]]];
    (apply lift_bind in Hc; apply status_step in Hc as [(r2 & Hl2 & Hr2)|[? Hl2]]); try done.
  - destruct (step_is cx Codegen) eqn:Hcg.
    + injection Hr as <- <-. eapply explained_last; [done|]. cbn. rewrite Hcg. done.
    + apply status_ok_false in Hr2. eapply explained_step; [done|].
      apply verify_spec in Hr as [(r3 & Hl3 & Hr3)|[-> Hl3]]; [|by apply explained_nothing].
      eapply explained_last; [done|]. cbn. by destruct x.
  - eapply explained_last; [done|]. cbn. done.
  - by eapply explained_last.
  - by apply explained_nothing.
Qed.

Lemma run_rmc_test_explained m x m' :
  run_rmc_test cx m = (x, m') -> explained rmc_plan rmc_concludes m x m'.
Proof.
  unfold run_rmc_test, rmc_plan. intros Hr.
  apply run_bind_inv in Hr as [([] & m1 & Hc & Hr)|[[Hc ->]|[Hc ->]]];
    apply status_step in Hc as [(r1 & Hl1 & Hr1)|[? Hl1]]; try done.
  - destruct (step_is cx Check) eqn:Hk.
    + injection Hr as <- <-. eapply explained_last; [done|]. cbn. rewrite Hk. done.
    + apply status_ok_false in Hr1. eapply explained_step; [done|]. by apply codegen_verify_explained.
  - eapply explained_last; [done|]. cbn. done.
  - by eapply explained_last.
  - by apply explained_nothing.
Qed.

(** One process whose output is compared *)
Lemma output_step c p m x m' v :
  (r ← compose_and_run cx c; expected ← read_file p; verify_output cx r expected) m = (x, m') ->
  (forall fs r expected, read_to_string fs p = ReadOk expected ->
     (has_lines expected r -> v true fs [r]) /\ (~ has_lines expected r -> v false fs [r])) ->
  explained [c] v m x m'.
Proof.
  intros [(r & m1 & Hlog & Hr)|(-> & [Hl|[r Hl]])]%compose_bind Hv;
    [|by apply explained_nothing|by eapply explained_last].
  apply read_bind in Hr. destruct (read_to_string _ _) as [expected| |] eqn:E;
    [|by destruct Hr as [-> ->]; eapply explained_last..].
  apply verify_output_spec in Hr as (Hl & Hfs & Hx). rewrite <- Hl in Hlog.
  eapply explained_last; [done|]. rewrite Hfs. destruct (Hv _ r _ E). destruct x; auto.
Qed.

Lemma revision_explained m x m' :
  run_revision cx m = (x, m') -> explained plan concludes m x m'.
Proof.
  unfold run_revision, plan, concludes, expected_file. destruct (mode (config cx)).
  - apply run_rmc_test_explained.
  - apply run_rmc_test_explained.
  - unfold run_cargo_rmc_test, run_option. intros Hr.
    apply lift_bind in Hr. destruct (parent_path _) as [dir|]; [|destruct Hr as [-> ->]; by apply explained_nothing].
    cbn [unwrap] in Hr. apply lift_bind in Hr.
    destruct (file_stem _) as [f|]; [|destruct Hr as [-> ->]; by apply explained_nothing].
    cbn [unwrap] in Hr. apply lift_bind in Hr.
    destruct (cx_output_base_dir cx) as [d|]; [|destruct Hr as [-> ->]; by apply explained_nothing].
    eapply output_step; [done|]. intros fs r expected E. split; intros Hh; by exists (file (testpaths cx)), expected.
  - unfold run_expected_test, run_rmc, run_option. intros Hr.
    destruct (parent_path (file (testpaths cx))) as [dir|] eqn:Hdir; cbn [unwrap] in Hr.
    + eapply output_step; [exact Hr|]. intros fs r expected E.
      split; intros Hh; by exists (path_push dir (lit "expected")), expected.
    + apply compose_bind in Hr as [(r & m1 & Hlog & Hr)|(-> & [Hl|[r Hl]])];
        [|by apply explained_nothing|by eapply explained_last].
      injection Hr as <- <-. by eapply explained_last.
  - unfold run_stub_test, run_rmc. intros [(r & m1 & Hlog & Hr)|(-> & [Hl|[r Hl]])]%compose_bind;
      [|by apply explained_nothing|by eapply explained_last].
    destruct (success (status r)) eqn:E; cbn [negb] in Hr.
    + injection Hr as <- <-. by eapply explained_last.
    + apply fatal_spec in Hr as (Hl & _ & Hx). rewrite <- Hl in Hlog. eapply explained_last; [done|].
      by destruct Hx as [->| ->].
Qed.

(** C31. [TestCx::run_revision], for every mode: the processes that a test starts are those of
    its plan, in order and up to some point; if it passes, their results are those that make
    a test of its mode pass (an [rmc] test: every step before the one at which it should fail
    succeeds, that step fails, and no expected failure of RMC succeeded; an [expected] or
    [cargo-rmc] test: every expected line is in the output; a [stub] test: success); if it is
    failed, their results contradict that.  The only other end is a panic. *)
Theorem revision_verdict m x m' :
  run_revision cx m = (x, m') -> explained plan concludes m x m'.
Proof. apply revision_explained. Qed.

(** The two verdicts exclude each other. *)
Lemma verdicts_exclusive fs rs : concludes true fs rs -> concludes false fs rs -> False.
Proof.
  assert (rmc_concludes true fs rs -> rmc_concludes false fs rs -> False) as Hrmc.
  { unfold rmc_concludes, verified, refuted. destruct rs as [|r1 [|r2 [|r3 [|]]]]; try done.
    - intros [-> _] [? _]. done.
    - intros (_ & _ & -> & _) (_ & _ & ? & _). done.
    - intros (_ & _ & _ & _ & Hv) (_ & _ & _ & _ & Hr). destruct (contains _ (out_text r3)); [done|].
      destruct Hv as (src & E & Hm & Hs), Hr as (src' & E' & Hr). rewrite E in E'. injection E' as <-.
      destruct Hr as [Hr|Hr]; [by rewrite Hm in Hr|]. rewrite Hr in Hs. by destruct (step_is cx Verify). }
  unfold concludes. destruct (mode (config cx)), rs as [|r [|]]; try done.
  - intros (p & e & E & R & Hl) (p' & e' & E' & R' & Hl'). rewrite E in E'. injection E' as <-.
    rewrite R in R'. by injection R' as <-.
  - intros (p & e & E & R & Hl) (p' & e' & E' & R' & Hl'). rewrite E in E'. injection E' as <-.
    rewrite R in R'. by injection R' as <-.
  - intros -> ?. done.
Qed.

End Verdict.

(** ** A regular expression engine for this pattern, and a sample test *)

Fixpoint span_digits (s : text) : text * text :=
  match s with
  | c :: s' => if is_digit c then let r := span_digits s' in (c :: r.1, r.2) else ([], s)
  | [] => ([], [])
  end.
Definition match_here (s : text) : option text :=
  r ← strip (lit "line ") s;
  let d := span_digits r in
  if is_empty d.1 then None
  else _ ← strip (lit " EXPECTED FAIL: SUCCESS") d.2; Some (unexpected_success d.1).
Fixpoint find_all (s : text) : list text :=
  match s with
  | [] => []
  | _ :: s' => match match_here s with Some m => m :: find_all s' | None => find_all s' end
  end.

Lemma span_digits_spec s : (span_digits s).1 ++ (span_digits s).2 = s
  /\ Forall (fun c => is_digit c = true) (span_digits s).1.
Proof.
  induction s as [|c s [IH1 IH2]]; cbn; [by split|]. destruct (is_digit c) eqn:E; cbn; [|done].
  rewrite IH1. by split; [|constructor].
Qed.

Lemma span_digits_app num c s : Forall (fun c => is_digit c = true) num -> is_digit c = false ->
  span_digits (num ++ c :: s) = (num, c :: s).
Proof. intros Hn Hc. induction Hn as [|d num Hd _ IH]; cbn; [by rewrite Hc|]. by rewrite Hd, IH. Qed.

Lemma match_here_some s m : match_here s = Some m ->
  exists num rest, digits num /\ m = unexpected_success num /\ s = m ++ rest.
Proof.
  unfold match_here. destruct (strip (lit "line ") s) as [r|] eqn:E; [|done]. cbn.
  destruct (span_digits_spec r) as [Hr Hd]. destruct (span_digits r) as [num r2]; cbn in *.
  destruct num as [|d num]; [done|]. cbn. destruct (strip _ r2) as [rest|] eqn:E2; [|done]. intros [= <-].
  apply strip_spec in E, E2. exists (d :: num), rest. split; [done|]. split; [done|].
  unfold unexpected_success. subst r r2 s. by rewrite <- !app_assoc.
Qed.

Lemma match_here_complete num rest : digits num -> match_here (unexpected_success num ++ rest) <> None.
Proof.
  intros [Hn Hd]. unfold match_here, unexpected_success. rewrite <- app_assoc.
  rewrite (proj2 (strip_spec _ _ _) eq_refl). cbn [mbind option_bind].
  change (lit " EXPECTED FAIL: SUCCESS") with (space :: lit "EXPECTED FAIL: SUCCESS").
  rewrite <- app_assoc. cbn [app]. rewrite span_digits_app by done. cbn [fst snd].
  destruct num; [done|]. cbn [is_empty].
  change (space :: lit "EXPECTED FAIL: SUCCESS" ++ rest) with ((space :: lit "EXPECTED FAIL: SUCCESS") ++ rest).
  by rewrite (proj2 (strip_spec _ _ _) eq_refl).
Qed.

#[refine] Instance sample_regex : FailRegex := {| find_iter := find_all |}.
Proof.
  - intros s m Hm. assert (exists num a b, digits num /\ m = unexpected_success num /\ s = a ++ m ++ b) as
      (num & a & b & Hd & -> & ->).
    { induction s as [|c s IH]; cbn in Hm; [by apply not_elem_of_nil in Hm|].
      destruct (match_here (c :: s)) as [m'|] eqn:E; [apply elem_of_cons in Hm as [->|Hm]|].
      - apply match_here_some in E as (num & rest & Hd & E1 & E2). by exists num, [], rest.
      - destruct (IH Hm) as (num & a & b & Hd & E1 & ->). by exists num, (c :: a), b.
      - destruct (IH Hm) as (num & a & b & Hd & E1 & ->). by exists num, (c :: a), b. }
    exists num. split_and!; [done..|]. apply contains_iff. by exists a, b.
  - intros s num Hd (a & b & ->)%contains_iff. induction a as [|c a IH]; cbn [app find_all].
    + pose proof (match_here_complete num b Hd) as Hm. unfold unexpected_success in *.
      change (lit "line ") with (108 :: lit "ine ") in *. cbn [app find_all] in *.
      by destruct (match_here _).
    + by destruct (match_here _).
Defined.

(** A file with an expected failure; the three processes succeed and RMC reports that the
    expected failure on line 7 failed. *)
Definition sample_test : path := path_of ["/"; "src"; "a.rs"]%string.
Definition verdict_fs : FileSystem :=
  mkFileSystem {[sample_test := Utf8 (lit "fn main() {}")]}
    (list_to_map [([lit "/"], []); (path_of ["/"; "build"; "a"]%string, [])]) ∅.
#[local] Instance sample_processes : Processes := fun fs now c =>
  let out := if bool_decide (program c = lit "rmc") then lit "line 7 EXPECTED FAIL: FAILURE" else [] in
  Some (mkChild [Ready true true] [mkRead out Eof] [mkRead [] Eof] (Some (mkExitStatus true [])), fs, now).
#[local] Instance sample_environment : Environment := [].
#[local] Instance sample_command_debug : CommandDebug := program.
#[local] Instance sample_json : JsonDecode :=
  {| decode_diagnostic _ := None; decode_report _ := None; decode_artifact _ := false |}.
Definition verdict_config : Config :=
  mkConfig [lit "/"] (path_of ["/"; "src"]%string) (path_of ["/"; "build"]%string) (lit "stage1") RMC (lit "rmc")
    false [] false None None None Unwind (lit "x") (lit "x") false false NeverColor (lit "dev") None false.
Definition verdict_cx : TestCx :=
  mkTestCx verdict_config props_new (mkTestPaths sample_test []) None.
Definition verdict_machine : Machine := mkMachine verdict_fs 0%Z [] [].

Lemma revision_verdict_witness :
  explained (plan verdict_cx) (concludes verdict_cx) verdict_machine
    (run_revision verdict_cx verdict_machine).1 (run_revision verdict_cx verdict_machine).2.
Proof. apply (revision_verdict verdict_cx). by destruct (run_revision verdict_cx verdict_machine). Defined.

(** It passes, after three processes. *)
Example sample_passes :
  let r := run_revision verdict_cx verdict_machine in
  r.1 = Done tt /\ length (m_log r.2) = 3%nat.
Proof. vm_compute. done. Qed.
