(* ===== verification/TestMain.v ===== *)
(** * The compile-test driver ([src/tools/compiletest/src/main.rs])

    The driver reads its configuration, collects tests from a directory tree (creating the
    directories for their output on the way, so that parallel tests do not race), describes
    each one to the test library, and runs them.  A test whose stamp is newer than the common
    inputs is ignored.

    A test function is a [Job], the closure of [make_test_closure]; running it is [run] of
    RunTest.  Collecting can panic, fail with an I/O error, or run out of fuel, which the
    depth of the tree excludes ([collect_total]).  The command-line parser ([getopts]) and the
    directory walker ([walkdir]) are outside. *)

From S2P Require Import Prelude Unicode Text SipHash Utf8 Read2 LibTest TestRun CompileTest RunTest RunVerdict.
Open Scope N_scope.

(** ** [parse_config] *)

Record Matches := mkMatches {
  opt_str_ : string -> option text;
  opt_strs : string -> list text;
  opt_present : string -> bool;
  free : list text;
}.
(** [Options::parse]; [None] when the arguments are not accepted *)
Class GetOpts := parse_opts : list text -> option Matches.

Definition opt_path (m : Matches) (nm : string) : outcome path :=
  s ← unwrap (opt_str_ m nm); Ok (components s).
Definition opt_str2 (s : option text) : text := default (lit "(none)") s.

Definition parse_color (o : option text) : outcome ColorConfig :=
  match o with
  | None => Ok AutoColor
  | Some s =>
      if bool_decide (s = lit "auto") then Ok AutoColor
      else if bool_decide (s = lit "always") then Ok AlwaysColor
      else if bool_decide (s = lit "never") then Ok NeverColor
      else Panic
  end.
Definition parse_target_panic (o : option text) : outcome PanicStrategy :=
  match o with
  | None => Ok Unwind
  | Some s =>
      if bool_decide (s = lit "unwind") then Ok Unwind
      else if bool_decide (s = lit "abort") then Ok Abort_
      else Panic
  end.

Definition parse_config `{GetOpts} (args : list text) : outcome Config :=
  match args with
  | [] => Panic
  | _ :: args_ =>
      assert! negb (bool_decide (args_ = [] \/ head args_ = Some (lit "-h") \/ head args_ = Some (lit "--help")));
      m ← unwrap (parse_opts args_);
      assert! negb (opt_present m "h" || opt_present m "help");
      let target := opt_str2 (opt_str_ m "target") in
      color ← parse_color (opt_str_ m "color");
      src_base ← opt_path m "src-base";
      let run_ignored := opt_present m "ignored" in
      mode_str ← unwrap (opt_str_ m "mode");
      mode ← unwrap (mode_from_str mode_str);
      rmc_dir_path ← opt_path m "rmc-dir-path";
      build_base ← opt_path m "build-base";
      stage_id ← unwrap (opt_str_ m "stage-id");
      suite ← unwrap (opt_str_ m "suite");
      target_panic ← parse_target_panic (opt_str_ m "target-panic");
      channel ← unwrap (opt_str_ m "channel");
      Ok (mkConfig rmc_dir_path src_base build_base stage_id mode suite run_ignored (free m)
            (opt_present m "exact") (option_map components (opt_str_ m "logfile"))
            (Some (Text.join (lit " ") (opt_strs m "host-rustcflags")))
            (Some (Text.join (lit " ") (opt_strs m "target-rustcflags")))
            target_panic target (opt_str2 (opt_str_ m "host")) (opt_present m "verbose")
            (opt_present m "quiet") color channel (opt_str_ m "edition") (opt_present m "force-rerun"))
  end.

(** [test_opts]; [nocapture] is the variable RUST_TEST_NOCAPTURE. *)
Definition test_opts (c : Config) (nocapture : option text) : TestOpts :=
  mkTestOpts false (c_filters c) (c_filter_exact c) false false
    (if c_run_ignored c then IgnoredYes else IgnoredNo) true true (c_logfile c)
    (match nocapture with Some v => negb (bool_decide (v = lit "0")) | None => false end)
    (c_color c) (if CompileTest.quiet c then Terse else Pretty) false None None [] None options_new.

(** ** Stamps *)

(** The time of a stamp; [UNIX_EPOCH] is 0. *)
Definition Stamp := Z.
Definition add_time (s : Stamp) (modified : option Z) : Stamp := Z.max s (default 0%Z modified).
Definition add_path (fs : FileSystem) (s : Stamp) (p : path) : Stamp := add_time s (fs_mtime fs !! p).
Definition from_path (fs : FileSystem) (p : path) : Stamp := add_path fs 0%Z p.

(** [WalkDir]: an entry that cannot be read, or whether it is a file, and its time *)
Class WalkDir := walk_dir : FileSystem -> path -> list (option (bool * option Z)).
Fixpoint add_entries (s : Stamp) (l : list (option (bool * option Z))) : outcome Stamp :=
  match l with
  | [] => Ok s
  | None :: _ => Panic
  | Some (is_file, modified) :: l => add_entries (if (is_file : bool) then add_time s modified else s) l
  end.
Definition add_dir `{WalkDir} (fs : FileSystem) (s : Stamp) (p : path) : outcome Stamp :=
  add_entries s (walk_dir fs p).

Definition common_inputs_stamp `{WalkDir} (fs : FileSystem) (c : Config) : outcome Stamp :=
  let stamp := from_path fs (rmc_dir_path c) in
  rust_src_dir ← unwrap (find_rust_src_root fs c);
  add_dir fs stamp (rust_src_dir ++ path_of ["src"; "tools"; "compiletest"]%string).

Definition is_up_to_date (fs : FileSystem) (c : Config) (t : TestPaths) (revision : option text)
    (inputs : Stamp) : outcome bool :=
  stamp_name ← stamp c t revision;
  match read_to_string fs stamp_name with
  | InvalidData => Panic
  | OtherError => Ok false
  | ReadOk contents =>
      expected_hash ← compute_stamp_hash c;
      if bool_decide (contents <> expected_hash) then Ok false
      else Ok (inputs <? from_path fs stamp_name)%Z
  end.

(** ** [make_test] *)

(** The closure of [make_test_closure] *)
Record Job := mkJob { job_config : Config; job_paths : TestPaths; job_revision : option text }.
Definition Test_ := TestDescAndFn Job Empty_set.

Definition make_test_name (c : Config) (t : TestPaths) (revision : option text) : outcome TestName :=
  base ← unwrap (file_name (src_base c));
  name ← unwrap (file_name (file t));
  let p := path_push (path_join (components base) (relative_dir t)) name in
  Ok (DynTestName (lit "[" ++ display_mode (mode c) ++ lit "] " ++ display_path p
                   ++ match revision with Some rev => lit "#" ++ rev | None => [] end)).

(** [revisions] is always [vec![None]]. *)
Definition make_test (fs : FileSystem) (c : Config) (t : TestPaths) (inputs : Stamp) : outcome (list Test_) :=
  map_outcome (fun revision : option text =>
    src ← unwrap (match fs_files fs !! file t with
                  | Some src => Some src
                  | None => if is_dir fs (file t) then Some (Utf8 []) else None
                  end);
    test_name ← make_test_name c t revision;
    desc ← make_test_description fs c test_name (file t) src revision;
    ignore ← (if force_rerun c then Ok (ignore desc)
              else up ← is_up_to_date fs c t revision inputs; Ok (ignore desc || up));
    Ok (mkTest (set_ignore desc ignore) (DynTestFn (mkJob c t revision)))) [None].

(** ** [collect_tests_from_dir] *)

Definition ends_with (suffix s : text) : bool :=
  match strip (reverse suffix) (reverse s) with Some _ => true | None => false end.

Definition is_test (name : text) : bool :=
  if negb (ends_with (lit ".rs") name) then false
  else negb (existsb (fun p => starts_with p name) [lit "."; lit "#"; lit "~"]).

Inductive cres (A : Type) := COk (a : A) (fs : FileSystem) | CErr | CPanic | CFuel.
Arguments COk {A} _ _. Arguments CErr {A}. Arguments CPanic {A}. Arguments CFuel {A}.
Definition Collect (A : Type) : Type := FileSystem -> cres A.
#[export] Instance Collect_ret : MRet Collect := fun A a fs => COk a fs.
#[export] Instance Collect_bind : MBind Collect := fun A B f r fs =>
  match r fs with
  | COk a fs => f a fs
  | CErr => CErr
  | CPanic => CPanic
  | CFuel => CFuel
  end.
Definition c_fs : Collect FileSystem := fun fs => COk fs fs.
Definition c_lift {A} (o : outcome A) : Collect A := fun fs =>
  match o with Ok a => COk a fs | Panic => CPanic end.
(** [?] on an I/O result *)
Definition c_io {A} (o : option A) : Collect A := fun fs =>
  match o with Some a => COk a fs | None => CErr end.
(** [fs::create_dir_all(..).unwrap()] *)
Definition c_create_dir_all (p : path) : Collect unit := fun fs =>
  match create_dir_all fs p with Some fs => COk tt fs | None => CPanic end.

Definition c_make_test (c : Config) (t : TestPaths) (inputs : Stamp) : Collect (list Test_) :=
  fs ← c_fs; c_lift (make_test fs c t inputs).

Section Collect.
Context (c : Config) (inputs : Stamp).

(** The loop over the [*.expected] files of a crate *)
Fixpoint cargo_entries (dir rel build_dir : path) (entries : list (option text)) : Collect (list Test_) :=
  match entries with
  | [] => mret []
  | e :: entries =>
      name ← c_io e;
      let file_path := dir ++ [name] in
      here ← (if ends_with (lit ".expected") (display_path file_path) then
                stem ← c_lift (unwrap (file_stem file_path));
                c_create_dir_all (path_push build_dir stem) ;;
                c_make_test c (mkTestPaths file_path rel) inputs
              else mret []);
      rest ← cargo_entries dir rel build_dir entries;
      mret (here ++ rest)
  end.

(** The loop over a directory; [sub] collects from a subdirectory. *)
Fixpoint dir_entries (sub : path -> path -> Collect (list Test_)) (dir rel : path)
    (entries : list (option text)) : Collect (list Test_) :=
  match entries with
  | [] => mret []
  | e :: entries =>
      name ← c_io e;
      let file_path := dir ++ [name] in
      fs ← c_fs;
      here ← (if is_test name then c_make_test c (mkTestPaths file_path rel) inputs
              else if is_dir fs file_path && negb (bool_decide (name = lit "auxiliary"))
              then sub file_path (rel ++ [name])
              else mret []);
      rest ← dir_entries sub dir rel entries;
      mret (here ++ rest)
  end.

Fixpoint collect_tests_from_dir (fuel : nat) (dir rel : path) : Collect (list Test_) :=
  match fuel with
  | O => fun _ => CFuel
  | S fuel =>
      let build_dir := output_relative_path c rel in
      c_create_dir_all build_dir ;;
      fs ← c_fs;
      entries ← c_io (fs_dirs fs !! dir);
      if bool_decide (mode c = CargoRMC) && path_exists fs (dir ++ [lit "Cargo.toml"])
      then cargo_entries dir rel build_dir entries
      else dir_entries (collect_tests_from_dir fuel) dir rel entries
  end.

End Collect.

(** Deeper than every directory *)
Definition depth (fs : FileSystem) : nat :=
  S (max_list (map (fun kv => length kv.1) (map_to_list (fs_dirs fs)))).

Definition make_tests `{WalkDir} (c : Config) : Collect (list Test_) := fun fs =>
  match common_inputs_stamp fs c with
  | Panic => CPanic
  | Ok inputs =>
      match collect_tests_from_dir c inputs (depth fs) (src_base c) [] fs with
      | CErr => CPanic
      | r => r
      end
  end.

(** ** Running the tests *)

Section Main.
Context `{Processes} `{Environment} `{CommandDebug} `{JsonDecode} `{FailRegex}.

(** What a job can do to the test library: on some machine it returns, is failed (unwinding
    with the unit value), or panics with a message. *)
Inductive job_runs (j : Job) : option Payload -> Prop :=
| job_passes m m' :
    run (job_config j) (job_paths j) (job_revision j) m = (Done tt, m') -> job_runs j None
| job_fails m m' type_id :
    run (job_config j) (job_paths j) (job_revision j) m = (Fatal, m') -> job_runs j (Some (PanicOther type_id))
| job_panics m m' msg :
    run (job_config j) (job_paths j) (job_revision j) m = (Panicked, m') -> job_runs j (Some (PanicText msg)).

Definition no_bench (b : Empty_set) (_ : option BenchSamples) : Prop := False.
Definition no_run_once (b : Empty_set) : Job := match b with end.

(** [run_tests]: the collected tests, the events of their run, and whether the driver exits
    successfully *)
Inductive driver_run `{WalkDir} `{DebugText} `{ResultFormat} (c : Config) (nocapture : option text)
    (concurrency : nat) (now : N) (fs : FileSystem) : list Test_ -> list TestEvent -> bool -> Prop :=
| driver_run_intro tests fs' evs ok :
    make_tests c fs = COk tests fs' ->
    TestRun.run_tests job_runs no_bench no_run_once (test_opts c nocapture) concurrency now tests evs ->
    console_outcome (test_opts c nocapture) evs = Ok ok ->
    driver_run c nocapture concurrency now fs tests evs ok.

End Main.
