(* ===== verification/TestCollect.v ===== *)
(** * Which tests the compile-test driver runs

    [collected_exact]: collecting ends, and finds exactly the test files of the tree, each
    once.  [outputs_apart]: no two of them write to the same directory.  [edited_test_skipped]
    and [fixme_header_never_run] show two defects; [driver_success] puts the driver, the test
    library and the verdicts together. *)

From S2P Require Import Prelude Unicode Text SipHash Utf8 Read2 LibTest TestRun CompileTest RunTest RunVerdict TestMain.
Open Scope N_scope.

(** ** Creating directories touches only a path and its prefixes *)

Definition same_at (fs fs' : FileSystem) (p : path) : Prop :=
  fs_dirs fs' !! p = fs_dirs fs !! p /\ fs_files fs' !! p = fs_files fs !! p.

Lemma path_pop_prefix p : path_pop p `prefix_of` p.
Proof. unfold path_pop. exists (drop (length p - 1) p). by rewrite take_drop. Qed.

Lemma create_dir_frame fs d fs' p :
  create_dir fs d = Some fs' -> ~ p `prefix_of` d -> same_at fs fs' p.
Proof.
  unfold create_dir. intros Hc Hp. case_match; [by injection Hc as <-|]. case_match; [done|]. injection Hc as <-.
  split; [|done]. cbn. rewrite lookup_insert_ne by (by intros ->).
  unfold add_entry. destruct (fs_dirs fs !! parent d) eqn:E; [|done].
  rewrite lookup_insert_ne; [done|]. intros <-. apply Hp, path_pop_prefix.
Qed.

Lemma create_prefixes_frame todo : forall fs done_ fs' p,
  create_prefixes fs done_ todo = Some fs' -> ~ p `prefix_of` done_ ++ todo -> same_at fs fs' p.
Proof.
  induction todo as [|x todo IH]; intros fs done_ fs' p; cbn [create_prefixes];
    (destruct (create_dir fs done_) as [fs1|] eqn:E; cbn; [|done]); intros Hc Hp.
  - injection Hc as <-. rewrite app_nil_r in Hp. by eapply create_dir_frame.
  - assert (~ p `prefix_of` done_) as Hd by (intros Hd; apply Hp; by apply prefix_app_r).
    pose proof (create_dir_frame _ _ _ _ E Hd) as [E1 E2].
    destruct (IH _ _ _ p Hc) as [E3 E4]; [by rewrite <- app_assoc|]. split; congruence.
Qed.

Lemma create_dir_all_frame fs q fs' p :
  create_dir_all fs q = Some fs' -> ~ p `prefix_of` q -> same_at fs fs' p.
Proof. apply create_prefixes_frame. Qed.

(** ** Names *)

(** A name of a directory entry: not empty, no slash, not a dot or two *)
Definition entry_name (n : text) : Prop :=
  n <> [] /\ (slash ∉ n) /\ n <> lit "." /\ n <> lit "..".
#[export] Instance entry_name_dec n : Decision (entry_name n) := _.

Lemma no_slash_not_root n : slash ∉ n -> starts_with (lit "/") n = false.
Proof.
  intros Hn. apply not_true_is_false. intros (r & ->)%starts_with_spec. apply Hn. by left.
Qed.

Lemma components_name n : n <> [] -> slash ∉ n -> n <> lit "." -> components n = [n].
Proof.
  intros Hne Hs Hd. unfold components. rewrite no_slash_not_root by done. cbn [app].
  rewrite split_on_none.
  - by rewrite filter_cons_True by (by split).
  - apply Forall_forall. intros x Hx. apply N.eqb_neq. intros <-. by apply Hs.
Qed.

Lemma components_no_slash n : slash ∉ n -> components n = filter is_name [n].
Proof.
  intros Hs. unfold components. rewrite no_slash_not_root by done. cbn [app]. rewrite split_on_none; [done|].
  apply Forall_forall. intros x Hx. apply N.eqb_neq. intros <-. by apply Hs.
Qed.

Lemma split_last_dot_some s b a : split_last_dot s = Some (b, a) -> s = b ++ dot :: a.
Proof.
  revert b a. induction s as [|x s IH]; intros b a; cbn; [done|].
  destruct (split_last_dot s) as [[b' a']|].
  - intros [= <- <-]. by rewrite (IH b' a').
  - destruct (N.eqb_spec x dot) as [->|]; [|done]. by intros [= <- <-].
Qed.

Lemma stem_prefix n : exists rest, n = (split_file_name n).1 ++ rest.
Proof.
  unfold split_file_name. destruct (split_last_dot n) as [[[|x b] a]|] eqn:E; cbn; try (exists []; by rewrite app_nil_r).
  exists (dot :: a). by apply split_last_dot_some in E.
Qed.

Lemma file_stem_snoc dir n : entry_name n -> file_stem (dir ++ [n]) = Some (split_file_name n).1.
Proof.
  intros (_ & _ & _ & Hn). unfold file_stem, file_name. rewrite last_snoc. cbn.
  by rewrite bool_decide_eq_false_2.
Qed.

(** ** The tests of a tree *)

Definition paths_of (tests : list Test_) : list TestPaths :=
  omap (fun t => match testfn t with DynTestFn j => Some (job_paths j) | _ => None end) tests.

Lemma paths_of_app a b : paths_of (a ++ b) = paths_of a ++ paths_of b.
Proof. apply omap_app. Qed.

Lemma make_test_one fs c t inputs l : make_test fs c t inputs = Ok l ->
  exists src name desc ig, l = [mkTest (set_ignore desc ig) (DynTestFn (mkJob c t None))]
    /\ make_test_description fs c name (file t) src None = Ok desc.
Proof.
  unfold make_test, map_outcome. cbn [map sequence]. intros (x & Hx & Hl)%bind_ok.
  injection Hl as <-. apply bind_ok in Hx as (src & _ & Hx). apply bind_ok in Hx as (name & _ & Hx).
  apply bind_ok in Hx as (desc & Hd & Hx). apply bind_ok in Hx as (ig & _ & Hx). injection Hx as <-.
  by exists src, name, desc, ig.
Qed.

Lemma make_test_paths fs c t inputs l : make_test fs c t inputs = Ok l -> paths_of l = [t].
Proof. by intros (src & name & desc & ig & -> & _)%make_test_one. Qed.

(** What every collected test is like *)
Definition made (c : Config) (t : Test_) : Prop :=
  allow_fail (desc t) = false /\ (should_panic (desc t) = PanicNo \/ should_panic (desc t) = PanicYes)
  /\ exists tp, testfn t = DynTestFn (mkJob c tp None).

Lemma make_test_made fs c t inputs l : make_test fs c t inputs = Ok l -> Forall (made c) l.
Proof.
  intros (src & name & d & ig & -> & Hd)%make_test_one. constructor; [|constructor].
  unfold make_test_description in Hd. apply bind_ok in Hd as (sf & _ & Hd). injection Hd as <-.
  split_and!; [done| |by exists t]. destruct sf; auto.
Qed.

Section Tree.
Context (c : Config) (inputs : Stamp) (fs0 : FileSystem).
Abbreviation base := (src_base c).

(** A crate, in the mode [cargo-rmc] *)
Definition is_crate (dir : path) : bool :=
  bool_decide (mode c = CargoRMC) && path_exists fs0 (dir ++ [lit "Cargo.toml"]).

(** The tests below a directory *)
Inductive found : path -> path -> TestPaths -> Prop :=
| found_expected dir rel entries name :
    is_crate dir = true -> fs_dirs fs0 !! dir = Some entries -> Some name ∈ entries ->
    ends_with (lit ".expected") (display_path (dir ++ [name])) = true ->
    found dir rel (mkTestPaths (dir ++ [name]) rel)
| found_rs dir rel entries name :
    is_crate dir = false -> fs_dirs fs0 !! dir = Some entries -> Some name ∈ entries ->
    is_test name = true -> found dir rel (mkTestPaths (dir ++ [name]) rel)
| found_below dir rel entries name t :
    is_crate dir = false -> fs_dirs fs0 !! dir = Some entries -> Some name ∈ entries ->
    is_test name = false -> is_dir fs0 (dir ++ [name]) = true -> name <> lit "auxiliary" ->
    found (dir ++ [name]) (rel ++ [name]) t -> found dir rel t.

(** The output goes to another tree than the tests; entries of directories are names, and no
    directory lists a name twice. *)
Hypothesis apart : ~ base `prefix_of` build_base c /\ ~ build_base c `prefix_of` base.
Definition good_listing (entries : list (option text)) : Prop :=
  NoDup entries /\ forall name, Some name ∈ entries -> entry_name name.
Hypothesis listings : forall dir entries, base `prefix_of` dir -> fs_dirs fs0 !! dir = Some entries -> good_listing entries.

(** The files below the source directory are as at the start. *)
Definition untouched (fs : FileSystem) : Prop := forall p, base `prefix_of` p -> same_at fs0 fs p.

Lemma untouched_create fs q fs' x :
  untouched fs -> create_dir_all fs q = Some fs' -> q = build_base c ++ x -> untouched fs'.
Proof.
  intros Hu Hc -> p Hp. destruct (Hu p Hp) as [E1 E2].
  destruct (create_dir_all_frame _ _ _ p Hc) as [E3 E4]; [|split; congruence].
  intros Hq. assert (base `prefix_of` build_base c ++ x) as Hb by (by etrans).
  destruct apart as [A1 A2].
  destruct (prefix_weak_total base (build_base c) (build_base c ++ x)) as [?|?]; try done.
  by apply prefix_app_r.
Qed.

Lemma untouched_is_dir fs p : untouched fs -> base `prefix_of` p -> is_dir fs p = is_dir fs0 p.
Proof. intros Hu Hp. destruct (Hu p Hp) as [E _]. unfold is_dir. by rewrite E. Qed.
Lemma untouched_exists fs p : untouched fs -> base `prefix_of` p -> path_exists fs p = path_exists fs0 p.
Proof. intros Hu Hp. destruct (Hu p Hp) as [E1 E2]. unfold path_exists, is_dir, is_file. by rewrite E1, E2. Qed.

(** The directories of a relative path are names. *)
Definition names (rel : path) : Prop := Forall entry_name rel.

Lemma output_relative_names rel : names rel -> output_relative_path c rel = build_base c ++ rel.
Proof.
  unfold output_relative_path, path_join. destruct rel as [|n rel]; [by rewrite app_nil_r|].
  intros [(_ & Hn & _) _]%Forall_cons. rewrite bool_decide_eq_false_2; [done|].
  intros ->. apply Hn. by left.
Qed.

(** *** The result of collecting *)

(** [r] leaves the source directory alone and yields the tests that satisfy [P], each once. *)
Definition collects (r : cres (list Test_)) (P : TestPaths -> Prop) : Prop :=
  match r with
  | COk tests fs =>
      untouched fs /\ Forall (made c) tests /\ NoDup (paths_of tests) /\ forall t, t ∈ paths_of tests <-> P t
  | CErr | CPanic => True
  | CFuel => False
  end.

Lemma c_make_test_collects t fs : untouched fs -> collects (c_make_test c t inputs fs) (fun u => u = t).
Proof.
  intros Hu. unfold c_make_test, c_fs, c_lift, mbind, Collect_bind.
  destruct (make_test fs c t inputs) as [l|] eqn:E; [|done]. cbn.
  pose proof (make_test_made _ _ _ _ _ E) as Hm. apply make_test_paths in E. rewrite E.
  split_and!; [done|done|apply NoDup_singleton|]. intros u. by rewrite list_elem_of_singleton.
Qed.

Lemma collects_bind (r : Collect (list Test_)) (k : Collect (list Test_)) P Q fs :
  collects (r fs) P -> (forall fs', untouched fs' -> collects (k fs') Q) -> (forall t, P t -> ~ Q t) ->
  collects ((here ← r; rest ← k; mret (here ++ rest)) fs) (fun t => P t \/ Q t).
Proof.
  intros Hr Hk Hdisj. unfold mbind, Collect_bind, mret, Collect_ret.
  destruct (r fs) as [l fs1| | |]; cbn in *; try done.
  destruct Hr as (Hu & Hm & Hnd & Hl). specialize (Hk fs1 Hu). destruct (k fs1) as [l2 fs2| | |]; cbn in *; try done.
  destruct Hk as (Hu2 & Hm2 & Hnd2 & Hl2). rewrite paths_of_app. split_and!; [done|by apply Forall_app| |].
  - apply NoDup_app. split_and!; [done| |done]. intros t Ht%Hl Ht2%Hl2. by apply (Hdisj t).
  - intros t. by rewrite elem_of_app, Hl, Hl2.
Qed.

Lemma collects_ext r P Q : collects r P -> (forall t, P t <-> Q t) -> collects r Q.
Proof.
  destruct r; cbn; try done. intros (Hu & Hm & Hnd & Hl) HPQ. split_and!; [done..|].
  intros t. by rewrite Hl.
Qed.

Lemma collects_nothing fs : untouched fs -> collects (mret (M := Collect) [] fs) (fun _ => False).
Proof. intros Hu. split_and!; [done|constructor|constructor|]. intros t. by rewrite elem_of_nil. Qed.

(** Where a test was found *)
Lemma found_where dir rel t : found dir rel t ->
  exists y n, file t = dir ++ y ++ [n] /\ relative_dir t = rel ++ y.
Proof.
  induction 1 as [dir rel entries n|dir rel entries n|dir rel entries n t _ _ _ _ _ _ _ (y & m & E1 & E2)].
  - exists [], n. by rewrite app_nil_r.
  - exists [], n. by rewrite app_nil_r.
  - exists (n :: y), m. by rewrite E1, E2, <- !app_assoc.
Qed.

(** The entry through which it was found *)
Lemma found_entry dir rel n t : found (dir ++ [n]) rel t -> exists z, file t = dir ++ n :: z.
Proof. intros (y & m & E & _)%found_where. exists (y ++ [m]). by rewrite E, <- app_assoc. Qed.

(** *** The loops *)

Lemma push_stem_below q n : entry_name n -> exists x, path_push q (split_file_name n).1 = q ++ x.
Proof.
  intros (_ & Hs & _ & _). exists (components (split_file_name n).1). unfold path_push.
  rewrite no_slash_not_root; [done|]. destruct (stem_prefix n) as [rest E]. intros Hin. apply Hs. rewrite E.
  apply elem_of_app. by left.
Qed.

Lemma cargo_entries_collects dir rel entries fs :
  base `prefix_of` dir -> names rel -> good_listing entries -> untouched fs ->
  collects (cargo_entries c inputs dir rel (build_base c ++ rel) entries fs)
    (fun t => exists name, Some name ∈ entries
       /\ ends_with (lit ".expected") (display_path (dir ++ [name])) = true /\ t = mkTestPaths (dir ++ [name]) rel).
Proof.
  intros Hd Hrel. revert fs. induction entries as [|e entries IH]; intros fs Hn Hu; cbn [cargo_entries].
  { eapply collects_ext; [by apply collects_nothing|]. intros t. split; [done|].
    by intros (name & ?%not_elem_of_nil & _). }
  destruct e as [name|]; [|done]. destruct Hn as [[Hnot Hnd]%NoDup_cons Hn].
  assert (entry_name name) as Hname by (apply Hn; by left).
  unfold c_io at 1, mbind at 1, Collect_bind at 1. eapply collects_ext; [eapply collects_bind|].
  - instantiate (1 := fun t => ends_with (lit ".expected") (display_path (dir ++ [name])) = true
                               /\ t = mkTestPaths (dir ++ [name]) rel).
    destruct (ends_with _ _).
    + rewrite file_stem_snoc by done. cbn [unwrap]. unfold c_lift, c_create_dir_all, mbind, Collect_bind.
      destruct (create_dir_all fs _) as [fs1|] eqn:E; [|done].
      destruct (push_stem_below (build_base c ++ rel) name Hname) as [x Hx].
      eapply collects_ext; [apply c_make_test_collects|naive_solver].
      eapply untouched_create; [done|done|]. by rewrite Hx, <- app_assoc.
    + eapply collects_ext; [by apply collects_nothing|]. naive_solver.
  - intros fs' Hu'. apply IH; [|done]. split; [done|]. intros n Hin. apply Hn. by right.
  - intros t [_ ->] (n & Hin & _ & [= E]). apply app_inj_tail in E as [_ <-]. done.
  - intros t. cbn. setoid_rewrite elem_of_cons. split.
    + intros [[He ->]|(n & Hin & He & ->)]; [exists name | exists n]; auto.
    + intros (n & [[= ->]|Hin] & He & ->); [by left|right; by exists n].
Qed.

Lemma dir_entries_collects sub dir rel entries fs :
  base `prefix_of` dir -> NoDup entries ->
  (forall name fs, untouched fs -> Some name ∈ entries -> is_dir fs0 (dir ++ [name]) = true ->
     collects (sub (dir ++ [name]) (rel ++ [name]) fs) (found (dir ++ [name]) (rel ++ [name]))) ->
  untouched fs ->
  collects (dir_entries c inputs sub dir rel entries fs)
    (fun t => exists name, Some name ∈ entries /\
       if is_test name then t = mkTestPaths (dir ++ [name]) rel
       else is_dir fs0 (dir ++ [name]) = true /\ name <> lit "auxiliary"
            /\ found (dir ++ [name]) (rel ++ [name]) t).
Proof.
  intros Hd. revert fs. induction entries as [|e entries IH]; intros fs Hnd Hsub Hu; cbn [dir_entries].
  { eapply collects_ext; [by apply collects_nothing|]. intros t. split; [done|].
    by intros (name & ?%not_elem_of_nil & _). }
  destruct e as [name|]; [|done]. apply NoDup_cons in Hnd as [Hnot Hnd].
  unfold c_io at 1, mbind at 1, Collect_bind at 1. unfold c_fs at 1, mbind at 1, Collect_bind at 1.
  rewrite untouched_is_dir; [|done|by apply prefix_app_r].
  eapply collects_ext; [eapply collects_bind|].
  - instantiate (1 := fun t => if is_test name then t = mkTestPaths (dir ++ [name]) rel
       else is_dir fs0 (dir ++ [name]) = true /\ name <> lit "auxiliary"
            /\ found (dir ++ [name]) (rel ++ [name]) t).
    destruct (is_test name); [by apply c_make_test_collects|].
    destruct (is_dir fs0 (dir ++ [name])) eqn:Edir; cbn [andb].
    + destruct (decide (name = lit "auxiliary")) as [Ha|Ha].
      * rewrite bool_decide_eq_true_2 by done. cbn [negb].
        eapply collects_ext; [by apply collects_nothing|]. naive_solver.
      * rewrite bool_decide_eq_false_2 by done. cbn [negb].
        eapply collects_ext; [apply Hsub; [done|by left|done]|]. naive_solver.
    + eapply collects_ext; [by apply collects_nothing|]. naive_solver.
  - intros fs' Hu'. apply IH; [done| |done]. intros n fs1 Hu1 Hin. apply Hsub; [done|by right].
  - assert (forall n t, (if is_test n then t = mkTestPaths (dir ++ [n]) rel
       else is_dir fs0 (dir ++ [n]) = true /\ n <> lit "auxiliary" /\ found (dir ++ [n]) (rel ++ [n]) t) ->
       exists z, file t = dir ++ n :: z) as Hentry.
    { intros n t. destruct (is_test n); [intros ->; by exists []|]. intros (_ & _ & Hf). by eapply found_entry. }
    intros t [z1 E1]%Hentry (n & Hin & [z2 E2]%Hentry). rewrite E1 in E2.
    apply app_inv_head in E2. injection E2 as -> _. done.
  - intros t. cbn. setoid_rewrite elem_of_cons. split.
    + intros [Ht|(n & Hin & Ht)]; [exists name | exists n]; auto.
    + intros (n & [[= ->]|Hin] & Ht); [by left|right; by exists n].
Qed.

Lemma dir_below_depth p : is_dir fs0 p = true -> (length p < depth fs0)%nat.
Proof.
  unfold is_dir, depth. intros [l Hl]%bool_decide_eq_true_1. apply Nat.lt_succ_r, max_list_elem_of_le.
  apply list_elem_of_In, in_map_iff. exists (p, l). split; [done|].
  apply list_elem_of_In. by apply elem_of_map_to_list.
Qed.

Lemma collect_found fuel : forall dir rel fs,
  base `prefix_of` dir -> names rel -> untouched fs -> (depth fs0 <= fuel + length dir)%nat -> fuel <> 0%nat ->
  collects (collect_tests_from_dir c inputs fuel dir rel fs) (found dir rel).
Proof.
  induction fuel as [|fuel IH]; intros dir rel fs Hd Hrel Hu Hfuel Hnz; [done|].
  cbn [collect_tests_from_dir]. rewrite output_relative_names by done.
  unfold c_create_dir_all at 1, mbind at 1, Collect_bind at 1.
  destruct (create_dir_all fs (build_base c ++ rel)) as [fs1|] eqn:E; [|done].
  assert (untouched fs1) as Hu1
    by (eapply untouched_create; [exact Hu|exact E|reflexivity]).
  unfold c_fs at 1, mbind at 1, Collect_bind at 1. destruct (Hu1 dir Hd) as [Edir _]. rewrite Edir.
  unfold c_io at 1, mbind at 1, Collect_bind at 1.
  match goal with |- context [match ?x with Some _ => COk _ _ | None => _ end] =>
    destruct x as [entries|] eqn:Hentries; [|done] end.
  destruct (listings dir entries Hd Hentries) as [Hnd Hnames].
  rewrite untouched_exists; [|done|by apply prefix_app_r]. fold (is_crate dir).
  destruct (is_crate dir) eqn:Hcrate.
  - eapply collects_ext; [by apply cargo_entries_collects|]. intros t. split.
    + intros (name & Hin & He & ->). by eapply found_expected.
    + inversion 1; subst; try congruence. simplify_eq. eauto.
  - eapply collects_ext; [apply dir_entries_collects; [done|done| |done]|].
    + intros name fs2 Hu2 Hin Hdir. pose proof (dir_below_depth _ Hdir) as Hl. rewrite length_app in Hl.
      cbn in Hl. apply IH; [by apply prefix_app_r| |done|rewrite length_app; cbn; lia|lia].
      apply Forall_app. split; [done|]. constructor; [by apply Hnames|constructor].
    + intros t. split.
      * intros (name & Hin & Ht). destruct (is_test name) eqn:Et; [subst; by eapply found_rs|].
        destruct Ht as (Hdir & Ha & Ht). by eapply found_below.
      * inversion 1 as [|? ? ? name ? Hent Hin Ht|? ? ? name ? ? Hent Hin Ht Hdir Ha Hf]; subst; try congruence;
          rewrite Hentries in Hent; injection Hent as <-; exists name; by rewrite Ht.
Qed.

End Tree.

Lemma make_tests_found `{WalkDir} c fs :
  ~ src_base c `prefix_of` build_base c /\ ~ build_base c `prefix_of` src_base c ->
  (forall dir entries, src_base c `prefix_of` dir -> fs_dirs fs !! dir = Some entries -> good_listing entries) ->
  match make_tests c fs with
  | COk tests _ => Forall (made c) tests /\ NoDup (paths_of tests)
      /\ forall t, t ∈ paths_of tests <-> found c fs (src_base c) [] t
  | CPanic => True
  | CErr | CFuel => False
  end.
Proof.
  intros Hap Hls. unfold make_tests. destruct (common_inputs_stamp fs c) as [inputs|]; [|done].
  assert (collects c fs (collect_tests_from_dir c inputs (depth fs) (src_base c) [] fs) (found c fs (src_base c) [])) as Hc.
  { apply collect_found; [done|done|done|constructor|by intros p _|lia|]. unfold depth. lia. }
  destruct (collect_tests_from_dir _ _ _ _ _ _); cbn in *; tauto.
Qed.

(** The tests that the comments of the collector describe: a directory called [aux], or its
    spelled-out form [auxiliary], is not searched. *)
Inductive documented (c : Config) (fs : FileSystem) : path -> path -> TestPaths -> Prop :=
| doc_expected dir rel entries name :
    is_crate c fs dir = true -> fs_dirs fs !! dir = Some entries -> Some name ∈ entries ->
    ends_with (lit ".expected") (display_path (dir ++ [name])) = true ->
    documented c fs dir rel (mkTestPaths (dir ++ [name]) rel)
| doc_rs dir rel entries name :
    is_crate c fs dir = false -> fs_dirs fs !! dir = Some entries -> Some name ∈ entries ->
    is_test name = true -> documented c fs dir rel (mkTestPaths (dir ++ [name]) rel)
| doc_below dir rel entries name t :
    is_crate c fs dir = false -> fs_dirs fs !! dir = Some entries -> Some name ∈ entries ->
    is_test name = false -> is_dir fs (dir ++ [name]) = true -> name ∉ [lit "aux"; lit "auxiliary"] ->
    documented c fs (dir ++ [name]) (rel ++ [name]) t -> documented c fs dir rel t.

(** No directory below the sources is called [aux]. *)
Definition no_aux (c : Config) (fs : FileSystem) : Prop :=
  forall dir, src_base c `prefix_of` dir -> is_dir fs (dir ++ [lit "aux"]) = false.

Lemma documented_found c fs dir rel t : documented c fs dir rel t -> found c fs dir rel t.
Proof.
  induction 1 as [| |dir rel entries name t ? ? ? ? ? Hn ? IH]; [by eapply found_expected|by eapply found_rs|].
  eapply found_below; try done. set_solver.
Qed.

Lemma found_documented c fs dir rel t :
  no_aux c fs -> src_base c `prefix_of` dir -> found c fs dir rel t -> documented c fs dir rel t.
Proof.
  intros Hno Hd Hf. revert Hd.
  induction Hf as [| |dir rel entries name t ? ? ? ? Hdir Hn ? IH]; intros Hd; [by eapply doc_expected|by eapply doc_rs|].
  eapply doc_below; try done; [|by apply IH, prefix_app_r].
  intros [->|[->|[]%not_elem_of_nil]%elem_of_cons]%elem_of_cons; [|done]. by rewrite Hno in Hdir.
Qed.

(** C32. [make_tests]: with the output outside of the source tree and listings of distinct
    names, collecting tests ends; an I/O error is a panic; and otherwise the tests are exactly
    those the comments describe, each once: the [*.rs] files that are not hidden or temporary,
    found through directories that are not auxiliary, and for a crate in the mode [cargo-rmc]
    its [*.expected] files, whose subdirectories are not searched.  The comment calls the
    auxiliary directories [aux], the code [auxiliary]; the claim is about trees without a
    directory called [aux] ([aux_is_searched] shows what happens to one). *)
Theorem collected_exact `{WalkDir} c fs :
  ~ src_base c `prefix_of` build_base c /\ ~ build_base c `prefix_of` src_base c ->
  (forall dir entries, src_base c `prefix_of` dir -> fs_dirs fs !! dir = Some entries -> good_listing entries) ->
  no_aux c fs ->
  match make_tests c fs with
  | COk tests _ => NoDup (paths_of tests) /\ forall t, t ∈ paths_of tests <-> documented c fs (src_base c) [] t
  | CPanic => True
  | CErr | CFuel => False
  end.
Proof.
  intros Hap Hls Hno. pose proof (make_tests_found c fs Hap Hls) as Hf.
  destruct (make_tests c fs); [|done..]. destruct Hf as (_ & Hnd & Hl). split; [done|]. intros t. rewrite Hl.
  split; [by apply found_documented|apply documented_found].
Qed.

(** ** Output directories *)

Lemma split_last_dot_app s a : dot ∉ a -> split_last_dot (s ++ dot :: a) = Some (s, a).
Proof.
  intros Ha. assert (split_last_dot a = None) as Hnone.
  { destruct (split_last_dot a) as [[b r]|] eqn:E; [|done]. apply split_last_dot_some in E.
    destruct Ha. rewrite E. apply elem_of_app. right. by left. }
  induction s as [|x s IH]; cbn; [by rewrite Hnone|]. by rewrite IH.
Qed.

Lemma not_in_decide (x : N) (l : list N) : bool_decide (x ∈ l) = false -> x ∉ l.
Proof. intros H Hx. apply bool_decide_eq_false in H. by apply H. Qed.

Lemma ends_with_spec suffix s : ends_with suffix s = true <-> exists r, s = r ++ suffix.
Proof.
  unfold ends_with. destruct (strip (reverse suffix) (reverse s)) as [r|] eqn:E; split; try done.
  - apply strip_spec, (f_equal reverse) in E. rewrite reverse_app, !reverse_involutive in E. eauto.
  - intros [r ->]. rewrite reverse_app in E. by rewrite (proj2 (strip_spec _ _ (reverse r))) in E.
Qed.

Lemma join_snoc sep l s : l <> [] -> join sep (l ++ [s]) = join sep l ++ sep ++ s.
Proof.
  induction l as [|x [|y l] IH]; [done|done|]. intros _.
  change (join sep ((x :: y :: l) ++ [s])) with (x ++ sep ++ join sep ((y :: l) ++ [s])).
  rewrite IH by done. change (join sep (x :: y :: l)) with (x ++ sep ++ join sep (y :: l)).
  by rewrite <- !app_assoc.
Qed.

(** What stands before the last name of a path *)
Lemma display_path_snoc dir n : n <> lit "/" ->
  exists r, display_path (dir ++ [n]) = r ++ n /\ (r = [] \/ last r = Some slash).
Proof.
  intros Hn. destruct dir as [|x dir]; cbn [app display_path].
  { rewrite bool_decide_eq_false_2 by done. exists []. auto. }
  case_bool_decide as Hx.
  - destruct (decide (dir = [])) as [->|Hd].
    + exists x. subst x. auto.
    + exists (x ++ join (lit "/") dir ++ lit "/"). rewrite join_snoc by done. split.
      * by rewrite <- !app_assoc.
      * right. rewrite app_assoc. apply last_snoc.
  - exists (join (lit "/") (x :: dir) ++ lit "/"). change (x :: dir ++ [n]) with ((x :: dir) ++ [n]).
    rewrite join_snoc by done. split; [by rewrite <- app_assoc|]. right. apply last_snoc.
Qed.

(** A path ends with a suffix without a slash only if its last name does. *)
Lemma display_path_suffix dir n suffix :
  slash ∉ n -> slash ∉ suffix -> ends_with suffix (display_path (dir ++ [n])) = true ->
  exists s, n = s ++ suffix.
Proof.
  intros Hn Hs [a Ha]%ends_with_spec. destruct (display_path_snoc dir n) as (r & E & Hr).
  { intros ->. apply Hn. by left. }
  rewrite E in Ha. apply app_eq_inv in Ha as [(k & E1 & E2)|(k & E1 & E2)]; [|by exists k].
  destruct k as [|x k] using rev_ind; [by exists []|]. exfalso. apply Hs. rewrite E2.
  destruct Hr as [->|Hr]; [by destruct a, k|].
  rewrite E1, app_assoc, last_snoc in Hr. injection Hr as ->. set_solver.
Qed.

(** Whether the file of a test is hidden *)
Definition hidden (t : TestPaths) : bool :=
  match file_name (file t) with Some n => starts_with (lit ".") n | None => false end.

(** A file that is named by its stem and the extension [ext] *)
Definition named (ext n : text) : Prop :=
  n = (split_file_name n).1 ++ ext /\ (split_file_name n).1 <> []
  /\ starts_with (lit ".") (split_file_name n).1 = false.

Lemma starts_with_app p s r : starts_with p (s ++ r) = false -> starts_with p s = false.
Proof.
  intros H. apply not_true_is_false. intros (q & ->)%starts_with_spec. apply not_true_iff_false in H. apply H.
  apply starts_with_spec. exists (q ++ r). by rewrite <- app_assoc.
Qed.

Lemma named_by_stem r ext :
  starts_with (lit ".") (r ++ dot :: ext) = false -> dot ∉ ext -> named (dot :: ext) (r ++ dot :: ext).
Proof.
  intros Hd He. unfold named, split_file_name. rewrite split_last_dot_app by done.
  destruct r as [|x r]; [by destruct ext|]. cbn [fst]. split_and!; [done|done|]. by eapply starts_with_app.
Qed.

Lemma is_test_named n : is_test n = true -> named (lit ".rs") n.
Proof.
  unfold is_test. destruct (ends_with _ n) eqn:E; [|done]. cbn [negb existsb].
  intros [Hdot _]%negb_true_iff%orb_false_iff. apply ends_with_spec in E as [r ->].
  by apply (named_by_stem r (lit "rs")); [|by apply not_in_decide].
Qed.

Lemma expected_named dir n :
  entry_name n -> starts_with (lit ".") n = false ->
  ends_with (lit ".expected") (display_path (dir ++ [n])) = true -> named (lit ".expected") n.
Proof.
  intros (_ & Hs & _) Hd [r ->]%display_path_suffix; [|done|by apply not_in_decide].
  by apply (named_by_stem r (lit "expected")); [|by apply not_in_decide].
Qed.

(** The extension of the tests of a directory *)
Definition test_ext (c : Config) (fs : FileSystem) (dir : path) : text :=
  if is_crate c fs dir then lit ".expected" else lit ".rs".

Lemma found_named c fs dir rel t :
  (mode c = CargoRMC -> hidden t = false) -> src_base c `prefix_of` dir -> found c fs dir rel t ->
  (forall d entries, src_base c `prefix_of` d -> fs_dirs fs !! d = Some entries -> good_listing entries) ->
  exists y n, file t = dir ++ y ++ [n] /\ relative_dir t = rel ++ y
    /\ named (test_ext c fs (dir ++ y)) n /\ entry_name n /\ names y.
Proof.
  intros Hh Hd Hf Hls. unfold test_ext.
  induction Hf as [dir rel entries n Hc He Hin Hx|dir rel entries n Hc He Hin Ht|dir rel entries n t _ He Hin _ _ _ _ IH].
  - exists [], n. rewrite !app_nil_r, Hc. assert (entry_name n) as Hn by by apply (Hls dir entries Hd He).
    split_and!; [done|done| |done|constructor]. apply andb_true_iff in Hc as [Hm%bool_decide_eq_true _].
    eapply expected_named; [done| |done]. specialize (Hh Hm). unfold hidden, file_name in Hh. cbn in Hh.
    rewrite last_snoc in Hh. cbn in Hh. destruct Hn as (_ & _ & _ & Hn). by rewrite bool_decide_eq_false_2 in Hh.
  - exists [], n. rewrite !app_nil_r, Hc. split_and!; [done|done|by apply is_test_named| |constructor].
    by apply (Hls dir entries Hd He).
  - destruct IH as (y & m & E1 & E2 & Ht & Hm' & Hy); [done|by apply prefix_app_r|].
    exists (n :: y), m. rewrite E1, E2. rewrite <- !app_assoc in *. split_and!; try done.
    constructor; [|done]. by apply (Hls dir entries Hd He).
Qed.

(** The directory of a test that was found *)
Lemma found_output c ext y n f :
  named ext n -> entry_name n -> names y -> f = src_base c ++ y ++ [n] ->
  output_base_dir c (mkTestPaths f y) None = Ok (build_base c ++ y ++ [(split_file_name n).1]).
Proof.
  intros (E & Hne & Hd) Hn Hy ->.
  unfold output_base_dir, output_testname_unique, revision_or_empty, with_extra_extension. cbn [file is_empty relative_dir].
  rewrite app_assoc, file_stem_snoc by done. cbn [unwrap mbind outcome_bind].
  assert (slash ∉ (split_file_name n).1) as Hs.
  { destruct Hn as (_ & Hs & _). rewrite E in Hs. intros Hin. apply Hs, elem_of_app. by left. }
  rewrite components_name; [|done|done|by intros Hdot; rewrite Hdot in Hd].
  rewrite output_relative_names by done. unfold path_join. rewrite bool_decide_eq_false_2.
  - by rewrite <- app_assoc.
  - intros Hr. apply Hs. rewrite Hr. by left.
Qed.

(** C33. [output_base_dir]: no two tests that are collected, in any mode, have the same output
    directory, so tests that run at the same time do not overwrite each other's files and
    stamps.  In the mode [cargo-rmc], where the collector does not rule out hidden
    [*.expected] files, the two tests are not hidden ([hidden_outputs_clash] has the two hidden
    names that clash); in the other modes no test is hidden. *)
Theorem outputs_apart c fs t1 t2 :
  (mode c = CargoRMC -> hidden t1 = false /\ hidden t2 = false) ->
  (forall dir entries, src_base c `prefix_of` dir -> fs_dirs fs !! dir = Some entries -> good_listing entries) ->
  found c fs (src_base c) [] t1 -> found c fs (src_base c) [] t2 -> t1 <> t2 ->
  exists d1 d2, output_base_dir c t1 None = Ok d1 /\ output_base_dir c t2 None = Ok d2 /\ d1 <> d2.
Proof.
  intros Hh Hls Hf1 Hf2 Hne.
  apply found_named in Hf1 as (y1 & n1 & E1 & R1 & T1 & N1 & Y1); [|by intros [? ?]%Hh|done|done].
  apply found_named in Hf2 as (y2 & n2 & E2 & R2 & T2 & N2 & Y2); [|by intros [? ?]%Hh|done|done].
  destruct t1 as [f1 r1], t2 as [f2 r2]. cbn in *. subst r1 r2.
  eexists _, _. split_and!; [by eapply (found_output c _ y1 n1)|by eapply (found_output c _ y2 n2)|].
  intros (Hy & Hs)%app_inv_head%app_inj_tail. apply Hne. subst y2 f1 f2.
  destruct T1 as (-> & _), T2 as (-> & _). by rewrite Hs.
Qed.

(** ** Stamps do not depend on the test *)

(** Two file systems that differ only at one path *)
Definition same_except (p : path) (fs fs' : FileSystem) : Prop :=
  forall q, q <> p -> fs_files fs' !! q = fs_files fs !! q /\ fs_mtime fs' !! q = fs_mtime fs !! q.

Lemma up_to_date_ext fs fs' c t revision inputs s :
  stamp c t revision = Ok s -> s <> file t -> same_except (file t) fs fs' ->
  is_up_to_date fs' c t revision inputs = is_up_to_date fs c t revision inputs.
Proof.
  intros Hs Hne Hsame. unfold is_up_to_date. rewrite Hs. cbn [mbind outcome_bind].
  destruct (Hsame s Hne) as [E1 E2]. unfold read_to_string, from_path, add_path. by rewrite E1, E2.
Qed.

(** [is_up_to_date], [make_test]: whether a test is up to date is decided from its stamp
    and the common inputs alone.  A test that was up to date stays ignored after its own file
    was edited, whatever it contains now and however new it is. *)
Theorem edited_test_skipped fs fs' c t inputs s l :
  stamp c t None = Ok s -> s <> file t -> same_except (file t) fs fs' ->
  force_rerun c = false -> is_up_to_date fs c t None inputs = Ok true ->
  make_test fs' c t inputs = Ok l -> Forall (fun x => ignore (desc x) = true) l.
Proof.
  intros Hs Hne Hsame Hf Hup Hm. unfold make_test, map_outcome in Hm. cbn [map sequence] in Hm.
  apply bind_ok in Hm as (x & Hx & Hl). injection Hl as <-. constructor; [|constructor].
  apply bind_ok in Hx as (src & _ & Hx). apply bind_ok in Hx as (name & _ & Hx).
  apply bind_ok in Hx as (d & _ & Hx). rewrite Hf, (up_to_date_ext fs fs' c t None inputs s), Hup in Hx by done.
  cbn [mbind outcome_bind] in Hx. rewrite orb_true_r in Hx. by injection Hx as <-.
Qed.

(** ** Headers of tests in the [rmc-fixme] suite *)

(** The steps of a run before the processes *)
Lemma header_panics fs testfile cfg c t :
  mode c <> RMC -> is_dir fs testfile = false -> fs_files fs !! testfile = Some (Utf8 t) ->
  omap fail_of (directives (comment_of testfile) (split_terminator t)) <> [] ->
  from_file fs testfile cfg c = Panic.
Proof.
  intros Hm Hdir Hfile Hfail. unfold from_file, load_from, iter_header. rewrite Hdir, Hfile.
  cbn [unwrap mbind outcome_bind]. rewrite iter_lines_fold. unfold props_new. rewrite load_lines_spec.
  rewrite bool_decide_eq_false_2; [done|]. unfold fails_ok. by intros [?|(? & _)].
Qed.

Section Main.
Context `{Processes} `{Environment} `{CommandDebug} `{JsonDecode} `{FailRegex} `{DebugText}.

(** [run] in the mode [rmc-fixme]: for a test with an [rmc-*-fail] header, loading the
    properties panics, so no process is started; since every test of this mode is expected
    to panic, the verdict is a success whatever RMC would have done. *)
Theorem fixme_header_never_run c t m txt :
  mode c = RmcFixme -> is_dir (m_fs m) (file t) = false -> fs_files (m_fs m) !! file t = Some (Utf8 txt) ->
  omap fail_of (directives (comment_of (file t)) (split_terminator txt)) <> [] ->
  (exists m', run c t None m = (Panicked, m') /\ m_log m' = m_log m)
  /\ forall name d p, make_test_description (m_fs m) c name (file t) (Utf8 txt) None = Ok d ->
       calc_result d (Some p) None None = TrOk.
Proof.
  intros Hm Hdir Hfile Hfail. split.
  - assert (from_file (m_fs m) (file t) None c = Panic) as Hp by (apply (header_panics _ _ _ _ txt); congruence).
    unfold run, print, run_get, run_lift, mbind, Run_bind. destruct (verbose c); cbn; rewrite Hp; by eexists.
  - intros name d p Hd. unfold make_test_description in Hd. rewrite Hm in Hd.
    rewrite bool_decide_eq_true_2 in Hd by done.
    apply bind_ok in Hd as (sf & Hsf & Hd). injection Hd as <-.
    enough (sf = true) as -> by done. unfold iter_header in Hsf. rewrite Hdir in Hsf.
    rewrite iter_lines_fold in Hsf. revert Hsf. generalize (directives (comment_of (file t)) (split_terminator txt)).
    assert (forall ln, should_fail_line None None ln true = Ok true) as Hline
      by (intros ln; unfold should_fail_line; by case_bool_decide).
    intros ds. induction ds as [|ln ds IH]; cbn [fold_outcome]; [by intros [= <-]|].
    rewrite Hline. apply IH.
Qed.

(** ** The whole driver *)

(** A test that passed: its properties were read and its processes conclude that it passes. *)
Definition passed (c : Config) (t : TestPaths) : Prop :=
  exists fs props m m', from_file fs (file t) None c = Ok props
    /\ let cx := mkTestCx c props t None in explained (plan cx) (concludes cx) m (Done tt) m'.
(** A test that did not *)
Definition not_passed (c : Config) (t : TestPaths) : Prop :=
  exists m m' x, run c t None m = (x, m') /\ x <> Done tt.

Lemma run_done_passed c t m m' : run c t None m = (Done tt, m') -> passed c t.
Proof.
  unfold run. intros Hr. apply run_bind_inv in Hr as [(? & m1 & _ & Hr)|[[_ ?]|[_ ?]]]; [|done..].
  apply run_bind_inv in Hr as [(m1' & m2 & _ & Hr)|[[_ ?]|[_ ?]]]; [|done..].
  apply lift_bind in Hr. destruct (from_file _ _ _ _) as [props|] eqn:Hprops; [|by destruct Hr].
  apply lift_bind in Hr. destruct (cx_output_base_dir _) as [dir|]; [|by destruct Hr].
  apply run_bind_inv in Hr as [(m3' & m3 & _ & Hr)|[[_ ?]|[_ ?]]]; [|done..].
  apply lift_bind in Hr. destruct (unwrap _) as [fs|]; [|by destruct Hr].
  apply run_bind_inv in Hr as [(? & m4 & _ & Hr)|[[_ ?]|[_ ?]]]; [|done..].
  apply run_bind_inv in Hr as [([] & m5 & Hrev & _)|[[_ ?]|[_ ?]]]; [|done..].
  exists (m_fs m1'), props, m4, m5. split; [done|]. by apply revision_explained.
Qed.

(** What a verdict that is not a failure says about a job *)
Lemma verdict_meaning (opts : TestOpts) c (t : Test_) tp r time :
  time_options opts = None -> made c t -> testfn t = DynTestFn (mkJob c tp None) ->
  verdict job_runs no_bench opts t r time -> is_failure r = false ->
  match should_panic (desc t) with PanicNo => passed c tp | _ => not_passed c tp end.
Proof.
  intros Ht (Ha & Hs & _) Hfn Hv Hr. destruct Hv as [f p time [E|E] Hruns _|b bs [E|E]|b [E|E]];
    rewrite Hfn in E; try discriminate E. injection E as <-. rewrite Ht in Hr.
  unfold calc_result in Hr. destruct Hs as [Hs|Hs]; rewrite Hs in *.
  - destruct p as [p|]; [by rewrite Ha in Hr|]. inversion Hruns as [m m' Hrun| |]. by eapply run_done_passed.
  - destruct p as [p|]; [|done]. inversion Hruns as [|m m' ty Hrun|m m' msg Hrun]; by eexists m, m', _.
Qed.

Lemma after_join_failure joined late r :
  is_failure (result (after_join joined late r)) = false -> is_failure (result r) = false.
Proof. unfold after_join. by destruct (joined && late), (result r) eqn:E; cbn; rewrite ?E. Qed.

(** A selected test is a collected one under a padded name, with the same function. *)
Lemma selected_of c nocapture (tests : list Test_) (t : Test_) :
  c_filters c = [] -> t ∈ tests ->
  exists u, u ∈ selected_tests no_run_once (test_opts c nocapture) tests
    /\ testfn u = testfn t /\ should_panic (desc u) = should_panic (desc t)
    /\ allow_fail (desc u) = allow_fail (desc t)
    /\ (ignore (desc u) = true -> ignore (desc t) = true /\ c_run_ignored c = false).
Proof.
  intros Hf Ht. unfold selected_tests. cbn [bench_benchmarks test_opts].
  set (g := fun t : Test_ => if c_run_ignored c then unignore t else t).
  assert (Permutation (filter_tests (test_opts c nocapture) tests) (map g tests)) as Hp.
  { rewrite filter_tests_all; cbn; [|done|done|done|by destruct (c_run_ignored c)].
    unfold g. destruct (c_run_ignored c); [done|]. by rewrite map_id. }
  set (pad := fun t : Test_ => mkTest (set_name (desc t) (with_padding (name (desc t)) (fn_padding (testfn t)))) (testfn t)).
  exists (pad (g t)). split.
  - apply list_elem_of_In, (in_map pad), list_elem_of_In. rewrite Hp. by apply list_elem_of_In, in_map, list_elem_of_In.
  - unfold g, pad. destruct (c_run_ignored c); cbn; split_and!; auto; done.
Qed.

(** C28. The driver from the tree to its exit status: if it exits successfully and no filter was
    given, then every test of the tree was collected and is either ignored (and ignored tests
    were not asked for), or was run and passed, that is, the results of its processes are
    those that make it pass; a test that is expected to fail was run and did not pass. *)
Theorem driver_success `{WalkDir} `{ResultFormat} c nocapture concurrency now fs tests evs :
  ~ src_base c `prefix_of` build_base c /\ ~ build_base c `prefix_of` src_base c ->
  (forall dir entries, src_base c `prefix_of` dir -> fs_dirs fs !! dir = Some entries -> good_listing entries) ->
  c_filters c = [] -> driver_run c nocapture concurrency now fs tests evs true ->
  forall t, found c fs (src_base c) [] t ->
  exists d, mkTest d (DynTestFn (mkJob c t None)) ∈ tests
    /\ ((ignore d = true /\ c_run_ignored c = false)
        \/ match should_panic d with PanicNo => passed c t | _ => not_passed c t end).
Proof.
  intros Hap Hls Hf Hrun t Ht. inversion Hrun as [ts fs' es ok Hmake Hevs Hout]; subst.
  pose proof (make_tests_found c fs Hap Hls) as Hfound. rewrite Hmake in Hfound.
  destruct Hfound as (Hmade & _ & Hpaths). apply Hpaths in Ht.
  apply list_elem_of_omap in Ht as (u & Hu & Hfn). pose proof (proj1 (Forall_forall _ _) Hmade u Hu) as Hmu.
  destruct Hmu as (Ha & Hsp & tp & Hj). rewrite Hj in Hfn. injection Hfn as ->.
  exists (desc u). split; [by destruct u as [d f]; cbn in *; subst f|].
  destruct (run_tests_outcome _ _ _ _ _ _ _ _ Hevs) as [(order & Hperm & Hrep) Hcon].
  rewrite Hcon in Hout. injection Hout as Hok.
  destruct (selected_of c nocapture tests u Hf Hu) as (w & Hw & Efn & Esp & Eaf & Eig).
  destruct (ignore (desc w)) eqn:Hiw; [left; by apply Eig|right].
  apply list_elem_of_lookup in Hw as [k Hk].
  assert ((k, w) ∈ order) as [i Hi]%list_elem_of_lookup.
  { rewrite Hperm. apply list_elem_of_lookup. exists k. unfold numbered. by rewrite list_lookup_imap, Hk. }
  destruct (Forall2_lookup_l _ _ _ _ _ Hrep Hi) as (r & Hr%list_elem_of_lookup_2 & c0 & joined & late & Hsend & ->).
  rewrite forallb_forall in Hok.
  apply list_elem_of_In, Hok, negb_true_iff, after_join_failure in Hr.
  rewrite <- Esp. destruct Hsend as [[Hig _]|[_ Hmsg]].
  - unfold force, is_ignored in Hig. cbn in Hig. by rewrite andb_false_r, Hiw in Hig.
  - inversion Hmsg as [r time out Hv Hc0]. subst c0. cbn [result] in Hr.
    eapply (verdict_meaning (test_opts c nocapture)); [done| |by rewrite Efn|exact Hv|done].
    unfold made. rewrite Esp, Eaf, Efn. eauto.
Qed.

End Main.

(** ** A tree of two tests, one of them ignored *)

#[local] Existing Instances sample_processes sample_environment sample_command_debug sample_json.
#[local] Existing Instances sample_debug sample_format.
#[local] Instance sample_walk : WalkDir := fun _ _ => [Some (true, Some 5%Z); Some (false, None)].

Definition tree_base : path := path_of ["/"; "src"; "test"]%string.
Definition tree_config (m : Mode) : Config :=
  mkConfig [lit "/"] tree_base (path_of ["/"; "build"]%string) (lit "stage1") m (lit "rmc")
    false [] false None None None Unwind (lit "x") (lit "x") false false NeverColor (lit "dev") None false.
Definition tree_a : path := tree_base ++ [lit "a.rs"].
Definition tree_b : path := tree_base ++ path_of ["Sub_fixme"; "b.rs"]%string.
Definition test_a : TestPaths := mkTestPaths tree_a [].
Definition test_b : TestPaths := mkTestPaths tree_b [lit "Sub_fixme"].
Definition tree_files : gmap path Contents :=
  list_to_map [(path_of ["/"; "src"; "etc"; "lldb_batchmode.py"]%string, Utf8 []);
               (tree_a, Utf8 (lit "fn main() {}")); (tree_b, Utf8 (lit "// rmc-verify-fail"))].
Definition listing (l : list string) : list (option text) := map Some (map lit l).
Definition tree_fs : FileSystem :=
  mkFileSystem tree_files
    (<[tree_base := listing ["a.rs"; "notes.txt"; "Sub_fixme"]%string]>
      (<[tree_base ++ [lit "Sub_fixme"] := listing ["b.rs"; ".b.rs"]%string]> {[ [lit "/"] := [] ]})) ∅.

Lemma good_names (l : list string) :
  bool_decide (NoDup (listing l)) && forallb (fun n => bool_decide (entry_name (lit n))) l = true ->
  good_listing (listing l).
Proof.
  intros [Hd%bool_decide_eq_true Hn]%andb_true_iff. split; [done|]. rewrite forallb_forall in Hn.
  intros n Hin. apply list_elem_of_In, in_map_iff in Hin as (x & [= <-] & Hx).
  apply in_map_iff in Hx as (y & <- & Hy). exact (bool_decide_eq_true_1 _ (Hn y Hy)).
Qed.

Lemma tree_listings m dir entries :
  src_base (tree_config m) `prefix_of` dir -> fs_dirs tree_fs !! dir = Some entries -> good_listing entries.
Proof.
  intros _. cbn [fs_dirs tree_fs].
  rewrite !lookup_insert_Some, lookup_singleton_Some.
  intros [[_ <-]|[_ [[_ <-]|[_ [_ <-]]]]]; [apply good_names; vm_compute; reflexivity..|].
  apply (good_names []). reflexivity.
Qed.

Lemma tree_apart m : ~ src_base (tree_config m) `prefix_of` build_base (tree_config m)
  /\ ~ build_base (tree_config m) `prefix_of` src_base (tree_config m).
Proof. split; intros [k Hk]; vm_compute in Hk; discriminate. Qed.

(** What is collected from it *)
Definition tree_tests (m : Mode) : list Test_ :=
  match make_tests (tree_config m) tree_fs with COk tests _ => tests | _ => [] end.

Example tree_collected : paths_of (tree_tests RMC) = [test_a; test_b].
Proof. vm_compute. reflexivity. Qed.

Lemma tree_no_aux m : no_aux (tree_config m) tree_fs.
Proof.
  intros dir _. apply bool_decide_eq_false_2. intros [l Hl]. cbn [fs_dirs tree_fs] in Hl.
  rewrite !lookup_insert_Some, lookup_singleton_Some in Hl.
  destruct Hl as [[E _]|[_ [[E _]|[_ [E _]]]]];
    apply (f_equal last) in E; rewrite ?last_snoc in E; vm_compute in E; discriminate E.
Qed.

Lemma collected_exact_witness :
  match make_tests (tree_config RMC) tree_fs with
  | COk tests _ => NoDup (paths_of tests) /\ forall t, t ∈ paths_of tests <-> documented (tree_config RMC) tree_fs tree_base [] t
  | CPanic => True
  | CErr | CFuel => False
  end.
Proof. apply (collected_exact (tree_config RMC) tree_fs); [apply tree_apart|apply tree_listings|apply tree_no_aux]. Defined.

(** A test in a directory called [aux] is collected, although the comment in
    [collect_tests_from_dir] leaves such directories out. *)
Definition aux_test : TestPaths := mkTestPaths (tree_base ++ path_of ["aux"; "helper.rs"]%string) [lit "aux"].
Definition aux_fs : FileSystem :=
  mkFileSystem (<[file aux_test := Utf8 []]> tree_files)
    (<[tree_base := listing ["aux"]%string]> (<[tree_base ++ [lit "aux"] := listing ["helper.rs"]%string]> {[ [lit "/"] := [] ]})) ∅.
Example aux_is_searched :
  match make_tests (tree_config RMC) aux_fs with COk tests _ => paths_of tests = [aux_test] | _ => False end.
Proof. vm_compute. reflexivity. Qed.

(** The hidden [*.expected] files of a crate that share an output directory *)
Definition rooted_test (n : string) : TestPaths := mkTestPaths (tree_base ++ [lit n]) [].
Definition hidden_fs : FileSystem :=
  mkFileSystem (<[tree_base ++ [lit "Cargo.toml"] := Utf8 []]> (<[file (rooted_test ".expected") := Utf8 []]>
      (<[file (rooted_test ".expected.expected") := Utf8 []]> tree_files)))
    (<[tree_base := listing ["Cargo.toml"; ".expected"; ".expected.expected"]%string]> {[ [lit "/"] := [] ]}) ∅.
Example hidden_outputs_clash :
  match make_tests (tree_config CargoRMC) hidden_fs with
  | COk tests _ => paths_of tests = map rooted_test [".expected"; ".expected.expected"]%string
  | _ => False
  end
  /\ output_base_dir (tree_config CargoRMC) (rooted_test ".expected") None
     = output_base_dir (tree_config CargoRMC) (rooted_test ".expected.expected") None.
Proof. vm_compute. split; reflexivity. Qed.

Lemma found_a m : m <> CargoRMC -> found (tree_config m) tree_fs tree_base [] test_a.
Proof.
  intros Hm. eapply (found_rs _ _ _ _ (listing ["a.rs"; "notes.txt"; "Sub_fixme"]%string)); [|reflexivity|by left|reflexivity].
  unfold is_crate. by rewrite bool_decide_eq_false_2.
Qed.
Lemma found_b m : m <> CargoRMC -> found (tree_config m) tree_fs tree_base [] test_b.
Proof.
  intros Hm.
  eapply (found_below _ _ _ _ (listing ["a.rs"; "notes.txt"; "Sub_fixme"]%string) (lit "Sub_fixme"));
    [|reflexivity|by right; right; left|reflexivity..|done|].
  1: unfold is_crate; by rewrite bool_decide_eq_false_2.
  change test_b with (mkTestPaths ((tree_base ++ [lit "Sub_fixme"]) ++ [lit "b.rs"]) ([] ++ [lit "Sub_fixme"])).
  eapply (found_rs _ _ _ _ (listing ["b.rs"; ".b.rs"]%string)); [|reflexivity|by left|reflexivity].
  unfold is_crate. by rewrite bool_decide_eq_false_2.
Qed.

(** Two tests of a crate *)
Definition crate_listing : list (option text) := listing ["Cargo.toml"; "one.expected"; "two.expected"]%string.
Definition crate_fs : FileSystem :=
  mkFileSystem {[tree_base ++ [lit "Cargo.toml"] := Utf8 []]} {[tree_base := crate_listing]} ∅.

Lemma crate_found n : n ∈ ["one.expected"; "two.expected"]%string ->
  found (tree_config CargoRMC) crate_fs tree_base [] (rooted_test n).
Proof.
  intros Hn. apply (found_expected _ _ _ _ crate_listing); [reflexivity|reflexivity| |];
    repeat (apply elem_of_cons in Hn as [->|Hn]; [solve [reflexivity|right; left|right; right; left]|]);
    by apply elem_of_nil in Hn.
Qed.

Lemma outputs_apart_witness :
  exists d1 d2, output_base_dir (tree_config CargoRMC) (rooted_test "one.expected") None = Ok d1
    /\ output_base_dir (tree_config CargoRMC) (rooted_test "two.expected") None = Ok d2 /\ d1 <> d2.
Proof.
  apply (outputs_apart (tree_config CargoRMC) crate_fs); [by intros _| |apply crate_found; by left|apply crate_found; by right; left|done].
  intros dir entries _ Hd. cbn [fs_dirs crate_fs] in Hd. apply lookup_singleton_Some in Hd as [_ <-].
  apply good_names. vm_compute. reflexivity.
Defined.

(** The same tree after a run, and after the test was edited *)
Definition tree_stamp : path :=
  match stamp (tree_config RMC) test_a None with Ok s => s | Panic => [] end.
Definition tree_hash : text :=
  match compute_stamp_hash (tree_config RMC) with Ok h => h | Panic => [] end.
Definition stamped (a : text) (time : Z) : FileSystem :=
  mkFileSystem (<[tree_a := Utf8 a]> (<[tree_stamp := Utf8 tree_hash]> tree_files)) (fs_dirs tree_fs)
    (<[tree_a := time]> {[tree_stamp := 10%Z]}).
Definition edited : FileSystem := stamped (lit "fn main() { assert!(false) }") 99.
Definition edited_tests : list Test_ :=
  match make_test edited (tree_config RMC) test_a 7%Z with Ok l => l | Panic => [] end.

Lemma edited_test_skipped_witness : Forall (fun x => ignore (desc x) = true) edited_tests.
Proof.
  apply (edited_test_skipped (stamped (lit "fn main() {}") 3) edited (tree_config RMC) test_a 7%Z tree_stamp).
  - vm_compute. reflexivity.
  - vm_compute. discriminate.
  - intros q Hq. unfold edited, stamped. cbn [fs_files fs_mtime]. split; by rewrite !(lookup_insert_ne _ tree_a) by (intros <-; by apply Hq).
  - reflexivity.
  - vm_compute. reflexivity.
  - vm_compute. reflexivity.
Defined.

Definition tree_machine : Machine := mkMachine tree_fs 0%Z [] [].

Lemma fixme_header_never_run_witness :
  (exists m', run (tree_config RmcFixme) test_b None tree_machine = (Panicked, m') /\ m_log m' = [])
  /\ forall name d p, make_test_description tree_fs (tree_config RmcFixme) name tree_b (Utf8 (lit "// rmc-verify-fail")) None = Ok d ->
       calc_result d (Some p) None None = TrOk.
Proof.
  apply (fixme_header_never_run (tree_config RmcFixme) test_b tree_machine (lit "// rmc-verify-fail"));
    [reflexivity..|]. vm_compute. discriminate.
Defined.

Definition is_done {A} (r : Result A) : option A := match r with Done a => Some a | _ => None end.

(** The driver runs the first test, in one thread, and ignores the second. *)
Definition tree_entry (nm : string) (ig : bool) (t : TestPaths) : Test_ :=
  mkTest (mkTestDesc (AlignedTestName (lit nm) PadNone) ig PanicNo false false false UnknownType)
    (DynTestFn (mkJob (tree_config RMC) t None)).
Definition entry_a : Test_ := tree_entry "[rmc] test/a.rs" false test_a.
Definition entry_b : Test_ := tree_entry "[rmc] test/Sub_fixme/b.rs" true test_b.
Definition tree_opts : TestOpts := test_opts (tree_config RMC) None.
Definition result_a : CompletedTest := mkCompletedTest 1%nat (desc entry_a) TrOk None [].
Definition tree_events : list TestEvent :=
  [TeWait (desc entry_b); TeResult (ignored_message 0%nat entry_b);
   TeWait (desc entry_a); TeResult result_a].

Lemma result_done {A} (r : Result A * Machine) a : is_done r.1 = Some a -> r = (Done a, r.2).
Proof. destruct r as [[x| |] m]; cbn; [by intros [= ->]|done|done]. Qed.

Lemma job_a_runs : job_runs (mkJob (tree_config RMC) test_a None) None.
Proof.
  apply (job_passes _ tree_machine (run (tree_config RMC) test_a None tree_machine).2).
  apply result_done. vm_compute. reflexivity.
Qed.

Lemma tree_serial : serial job_runs no_bench tree_opts false [(0%nat, entry_b); (1%nat, entry_a)] tree_events.
Proof.
  apply serial_cons; [by apply started_ignored|]. apply serial_cons; [|constructor].
  apply started_sync; [done|]. apply (message_intro job_runs no_bench tree_opts 1%nat entry_a TrOk None []).
  apply (verdict_test job_runs no_bench tree_opts entry_a _ None None ltac:(by right) job_a_runs).
  split; by intros [? ?].
Qed.

Lemma tree_made : exists fs, make_tests (tree_config RMC) tree_fs = COk (tree_tests RMC) fs.
Proof.
  unfold tree_tests. assert (match make_tests (tree_config RMC) tree_fs with COk _ _ => true | _ => false end = true) as H
    by (vm_compute; reflexivity).
  destruct (make_tests (tree_config RMC) tree_fs) as [tests fs| | |]; [by exists fs|discriminate H..].
Qed.

Lemma tree_run :
  driver_run (tree_config RMC) None 1 0 tree_fs (tree_tests RMC)
    (TeFilteredOut 0 :: TeFiltered [desc entry_b; desc entry_a] None :: tree_events ++ []) true.
Proof.
  destruct tree_made as [fs Hmade]. eapply driver_run_intro; [exact Hmade| |vm_compute; reflexivity].
  apply (run_tests_intro job_runs no_bench no_run_once tree_opts 1 0 (tree_tests RMC) [entry_b; entry_a] None
    (reverse [(0%nat, entry_b); (1%nat, entry_a)]) tree_events []); [vm_compute; reflexivity..| |].
  - apply tree_serial.
  - constructor.
Qed.

Lemma driver_success_witness :
  exists d, mkTest d (DynTestFn (mkJob (tree_config RMC) test_a None)) ∈ tree_tests RMC
    /\ ((ignore d = true /\ c_run_ignored (tree_config RMC) = false)
        \/ match should_panic d with
           | PanicNo => passed (tree_config RMC) test_a
           | _ => not_passed (tree_config RMC) test_a
           end).
Proof.
  apply (driver_success (tree_config RMC) None 1 0 tree_fs (tree_tests RMC)
    (TeFilteredOut 0 :: TeFiltered [desc entry_b; desc entry_a] None :: tree_events ++ []));
    [apply tree_apart|apply tree_listings|reflexivity|apply tree_run|by apply found_a].
Defined.
