(* ===== verification/LinkMain.v ===== *)
(** * Linking the restrictions of a program ([main] of [src/tools/rmc-link-restrictions])

    The program reads the restrictions of one crate, or of all crates in a directory, links
    them ([Restrictions]) and writes the result.  JSON is outside ([RestrictionsJson]); files
    are those of CompileTest.

    [program_linked] puts this together with the exactness of linking: the file that is
    written has, for every virtual call of every crate in the directory, all implementations
    of its method. *)

From S2P Require Import Prelude CbmcString Restrictions Unicode Text CompileTest RunTest TestMain.

(** [serde_json::from_reader] and [serde_json::to_writer] *)
Class RestrictionsJson := {
  parse_results : text -> option VtableCtxResults;
  render_links : gmap string (list InternedString) -> text;
}.

Section Main.
Context `{RestrictionsJson}.

(** [File::open(path).unwrap()] and [from_reader(..).unwrap()] *)
Definition read_results (fs : FileSystem) (p : path) : outcome VtableCtxResults :=
  match fs_files fs !! p with
  | Some (Utf8 t) => unwrap (parse_results t)
  | _ => Panic
  end.

(** The loop over the elements of a directory *)
Fixpoint read_elements (fs : FileSystem) (dir : path) (elements : list (option text))
    : outcome (list VtableCtxResults) :=
  match elements with
  | [] => Ok []
  | element :: elements =>
      name ← unwrap element;
      let p := dir ++ [name] in
      here ← (if ends_with (lit "restrictions.json") (display_path p)
              then r ← read_results fs p; Ok [r] else Ok []);
      rest ← read_elements fs dir elements;
      Ok (here ++ rest)
  end.

Definition crate_restrictions (fs : FileSystem) (arg : text) : outcome (list VtableCtxResults) :=
  let p := components arg in
  if is_dir fs p then
    elements ← unwrap (fs_dirs fs !! p); read_elements fs p elements
  else if is_file fs p then
    assert! ends_with (lit ".restrictions.json") arg;
    r ← read_results fs p; Ok [r]
  else Panic.

Definition main (fs : FileSystem) (now : Z) (args : list text) : outcome FileSystem :=
  match args with
  | [_; path; outpath] =>
      per_crate_restrictions ← crate_restrictions fs path;
      unwrap (fs_write fs now (components outpath)
                (render_links (link_function_pointer_restrictions per_crate_restrictions)))
  | _ => Panic
  end.

(** ** What is read and written *)

Definition is_restrictions (dir : path) (name : text) : bool :=
  ends_with (lit "restrictions.json") (display_path (dir ++ [name])).

(** The file of a crate and what is in it *)
Definition holds (fs : FileSystem) (dir : path) (name : text) (r : VtableCtxResults) : Prop :=
  exists t, fs_files fs !! (dir ++ [name]) = Some (Utf8 t) /\ parse_results t = Some r.

Lemma read_results_holds fs dir name r : holds fs dir name r -> read_results fs (dir ++ [name]) = Ok r.
Proof. intros (t & Hf & Hp). unfold read_results.
  match goal with |- context [match ?x with Some _ => _ | None => _ end] => assert (x = Some (Utf8 t)) as -> by exact Hf end.
  by rewrite Hp.
Qed.

Lemma read_elements_all fs dir names : forall data,
  Forall2 (holds fs dir) (List.filter (is_restrictions dir) names) data ->
  read_elements fs dir (map Some names) = Ok data.
Proof.
  induction names as [|name names IH]; intros data; cbn [List.filter map read_elements].
  { by inversion 1. }
  cbn [unwrap mbind outcome_bind]. fold (is_restrictions dir name). destruct (is_restrictions dir name).
  - intros (r & data' & Hr%read_results_holds & Hrest & ->)%Forall2_cons_inv_l.
    cbn [read_elements]. match goal with |- context [read_results ?f ?p] => assert (read_results f p = Ok r) as -> by exact Hr end.
    cbn [mbind outcome_bind]. by rewrite (IH data').
  - intros Hrest. cbn [mbind outcome_bind]. by rewrite (IH data).
Qed.

(** C22. [main] of [rmc-link-restrictions] on a directory whose restriction files can be
    parsed: it writes one map to the output, and if every trait method has the entries of one
    crate only and a wrapper serves one trait method, that map gives every call site of every
    crate in the directory exactly the implementations of its method (and none if no crate
    implements it).  Other files of the directory play no part. *)
Theorem program_linked fs now argv0 dir outpath names data :
  fs_dirs fs !! components dir = Some (map Some names) ->
  Forall2 (holds fs (components dir)) (List.filter (is_restrictions (components dir)) names) data ->
  is_dir fs (components outpath) = false -> is_dir fs (parent (components outpath)) = true ->
  exists fs' links,
    main fs now [argv0; dir; outpath] = Ok fs'
    /\ fs_files fs' !! components outpath = Some (Utf8 (render_links links))
    /\ forall s,
      NoDup (map entry_trait_method (concat (map results_possible_methods data))) ->
      s ∈ concat (map results_call_sites data) ->
      (forall s', s' ∈ concat (map results_call_sites data) ->
         site_function_name s' = site_function_name s -> site_trait_method s' = site_trait_method s) ->
      exists l, links !! cbmc_call_site_name s = Some l
        /\ (forall l', mkPossibleMethodEntry (site_trait_method s) l'
                         ∈ concat (map results_possible_methods data) -> l = l')
        /\ ((site_trait_method s ∉ map entry_trait_method (concat (map results_possible_methods data)))
            -> l = []).
Proof.
  intros Hdir Hdata Hout Hparent.
  assert (is_dir fs (components dir) = true) as Hd by (unfold is_dir; apply bool_decide_eq_true_2; by rewrite Hdir).
  unfold main, crate_restrictions. rewrite Hd, Hdir. cbn [unwrap mbind outcome_bind].
  rewrite (read_elements_all _ _ _ data) by done. cbn [mbind outcome_bind].
  unfold fs_write. rewrite Hout, Hparent. cbn [orb negb unwrap].
  eexists _, (link_function_pointer_restrictions data). split; [done|]. split.
  - cbn [fs_files]. apply lookup_insert_eq.
  - intros s. apply linked_exact.
Qed.

(** A file given by itself must have the full suffix; in a directory a part of it is enough. *)
Lemma lone_file_suffix fs now argv0 arg outpath :
  is_dir fs (components arg) = false -> ends_with (lit ".restrictions.json") arg = false ->
  main fs now [argv0; arg; outpath] = Panic.
Proof. intros Hd He. unfold main, crate_restrictions. rewrite Hd, He. by destruct (is_file _ _). Qed.
End Main.

(** ** A directory with one crate *)

#[local] Instance sample_json_format : RestrictionsJson := {|
  parse_results t := if bool_decide (t = lit "crate") then Some sample_crate else None;
  render_links m := if bool_decide (m = ∅) then lit "{}" else lit "links";
|}.
Definition link_dir : text := lit "/out".
Definition link_names : list text := [lit "a.restrictions.json"; lit "a.symtab.json"].
Definition link_fs : FileSystem :=
  mkFileSystem {[ path_of ["/"; "out"; "a.restrictions.json"]%string := Utf8 (lit "crate") ]}
    (list_to_map [(path_of ["/"; "out"]%string, map Some link_names); ([lit "/"], [])]) ∅.

Lemma program_linked_witness :
  exists fs' links,
    main link_fs 0 [lit "link"; link_dir; lit "/linked.json"] = Ok fs'
    /\ fs_files fs' !! components (lit "/linked.json") = Some (Utf8 (render_links links))
    /\ exists l, links !! cbmc_call_site_name sample_site = Some l
         /\ l = ["Circle_area"; "Square_area"].
Proof.
  destruct (program_linked link_fs 0 (lit "link") link_dir (lit "/linked.json") link_names [sample_crate])
    as (fs' & links & Hmain & Hout & Hlink).
  - reflexivity.
  - constructor; [|constructor]. exists (lit "crate"). split; reflexivity.
  - reflexivity.
  - reflexivity.
  - exists fs', links. split; [exact Hmain|]. split; [exact Hout|].
    destruct (Hlink sample_site) as (l & Hl & Hall & _).
    + apply NoDup_singleton.
    + left.
    + intros s' Hs'. by apply list_elem_of_singleton in Hs' as ->.
    + exists l. split; [exact Hl|]. apply Hall. left.
Defined.
