(* ===== verification/TestCli.v ===== *)
(** * The command line of test programs, and tests in processes of their own
      ([library/test/src]: [cli.rs], [lib.rs], [time.rs], [test_result.rs],
      [helpers/concurrency.rs], [helpers/exit_code.rs])

    A program built with [--test] parses its arguments into the options of LibTest and runs
    its tests.  Built with [panic=abort], as RMC builds it, a test cannot be caught when it
    panics; it runs in a second process of the same program, whose exit code is its verdict.

    Parsing can be refused with a message, or panic (a malformed environment variable).  The
    grammar of options ([getopts]) is outside.

    [options_sound]: what an accepted command line guarantees.  [spawned_verdict]: the verdict
    through the exit code of a process is the one of a test that is run in place, with one
    exception. *)

From S2P Require Import Prelude Unicode Text SipHash LibTest TestRun CompileTest RunTest TestMain.
Open Scope N_scope.

(** ** Options *)

(** [OptPartRes], or a panic *)
Inductive parsed (A : Type) := Accepted (a : A) | Rejected (msg : text) | ParsePanic.
Arguments Accepted {A} _. Arguments Rejected {A} _. Arguments ParsePanic {A}.
#[export] Instance parsed_ret : MRet parsed := fun A a => Accepted a.
#[export] Instance parsed_bind : MBind parsed := fun A B f m =>
  match m with Accepted a => f a | Rejected msg => Rejected msg | ParsePanic => ParsePanic end.
Definition p_lift {A} (o : outcome A) : parsed A :=
  match o with Ok a => Accepted a | Panic => ParsePanic end.

(** [Options::parse] on the groups of [optgroups]: the matches, or why they are refused *)
Class TestGetOpts := optgroups_parse : list text -> text + Matches.
(** [Display] of the error with which a text is refused as a number *)
Class IntErrorText := int_error : text -> text.

Definition quoted (before : string) (name : string) (after : string) : text :=
  lit before ++ [34] ++ lit name ++ [34] ++ lit after.

Section Options.
Context `{Environment} `{IntErrorText}.
(** [CFG_DISABLE_UNSTABLE_FEATURES] was set when the library was compiled. *)
Variable disable_unstable_features : bool.

Definition is_some {A} (o : option A) : bool := match o with Some _ => true | None => false end.

Definition is_nightly : bool :=
  is_some (env_var (lit "RUSTC_BOOTSTRAP")) || negb disable_unstable_features.

Definition get_allow_unstable (m : Matches) : parsed bool :=
  match opt_str_ m "Z" with
  | None => mret false
  | Some opt =>
      if negb is_nightly then Rejected (lit "the option `Z` is only accepted on the nightly compiler")
      else if bool_decide (opt = lit "unstable-options") then mret true
      else Rejected (lit "Unrecognized option to `Z`")
  end.

Definition unstable_optflag (m : Matches) (allow_unstable : bool) (option_name : string) : parsed bool :=
  let opt := opt_present m option_name in
  if negb allow_unstable && opt
  then Rejected (quoted "The " option_name " flag is only accepted on the nightly compiler with -Z unstable-options")
  else mret opt.
Definition unstable_optopt (m : Matches) (allow_unstable : bool) (option_name : string) : parsed (option text) :=
  let opt := opt_str_ m option_name in
  if negb allow_unstable && is_some opt
  then Rejected (quoted "The " option_name " option is only accepted on the nightly compiler with -Z unstable-options")
  else mret opt.

(** *** [time.rs] *)

Definition default_unit : TimeThreshold := mkTimeThreshold (millis 50) (millis 100).
Definition default_integration : TimeThreshold := mkTimeThreshold (millis 500) (millis 1000).
Definition default_doctest : TimeThreshold := default_integration.

Definition new_from_env (error_on_excess colored : bool) : outcome TestTimeOptions :=
  unit_threshold ← from_env_var (env_var (lit "RUST_TEST_TIME_UNIT"));
  integration_threshold ← from_env_var (env_var (lit "RUST_TEST_TIME_INTEGRATION"));
  doctest_threshold ← from_env_var (env_var (lit "RUST_TEST_TIME_DOCTEST"));
  Ok (mkTestTimeOptions error_on_excess colored (default default_unit unit_threshold)
        (default default_integration integration_threshold) (default default_doctest doctest_threshold)).

Definition UNKNOWN_WARN : N := millis 1000 * 60.
Definition warn_time (o : TestTimeOptions) (d : TestDesc) : N :=
  match test_type d with
  | UnitTest => warn (unit_threshold o)
  | IntegrationTest => warn (integration_threshold o)
  | DocTest => warn (doctest_threshold o)
  | UnknownType => UNKNOWN_WARN
  end.
Definition is_warn (o : TestTimeOptions) (d : TestDesc) (exec_time : N) : bool := warn_time o d <=? exec_time.

(** *** Parts of the options *)

Definition get_time_options (m : Matches) (allow_unstable : bool) : parsed (option TestTimeOptions) :=
  report_time ← unstable_optflag m allow_unstable "report-time";
  let report_time_colored := report_time && bool_decide (opt_str_ m "report-time" = Some (lit "colored")) in
  ensure_test_time ← unstable_optflag m allow_unstable "ensure-time";
  if report_time || ensure_test_time then
    let colored := if ensure_test_time && negb report_time then true else report_time_colored in
    o ← p_lift (new_from_env ensure_test_time colored);
    mret (Some o)
  else mret None.

(** A variable that is set to anything but 0 *)
Definition env_flag (name : string) : bool :=
  match env_var (lit name) with Some val => negb (bool_decide (val = lit "0")) | None => false end.

Definition get_shuffle (m : Matches) (allow_unstable : bool) : parsed bool :=
  shuffle ← unstable_optflag m allow_unstable "shuffle";
  mret (if negb shuffle && allow_unstable then env_flag "RUST_TEST_SHUFFLE" else shuffle).

Definition get_shuffle_seed_opt (m : Matches) (allow_unstable : bool) : parsed (option N) :=
  s ← unstable_optopt m allow_unstable "shuffle-seed";
  shuffle_seed ← (match s with
    | Some n_str =>
        match parse_usize n_str with
        | Some n => mret (Some n)
        | None => Rejected (lit "argument for --shuffle-seed must be a number (error: " ++ int_error n_str ++ lit ")")
        end
    | None => mret None
    end);
  if negb (is_some (shuffle_seed : option N)) && allow_unstable then
    match env_var (lit "RUST_TEST_SHUFFLE_SEED") with
    | Some val => match parse_usize val with Some n => mret (Some n) | None => ParsePanic end
    | None => mret None
    end
  else mret shuffle_seed.

Definition get_test_threads (m : Matches) : parsed (option nat) :=
  match opt_str_ m "test-threads" with
  | Some n_str =>
      match parse_usize n_str with
      | Some n =>
          if n =? 0 then Rejected (lit "argument for --test-threads must not be 0") else mret (Some (N.to_nat n))
      | None => Rejected (lit "argument for --test-threads must be a number > 0 (error: " ++ int_error n_str ++ lit ")")
      end
  | None => mret None
  end.

Definition get_format (m : Matches) (quiet allow_unstable : bool) : parsed OutputFormat :=
  match opt_str_ m "format" with
  | None => mret (if quiet then Terse else Pretty)
  | Some v =>
      if bool_decide (v = lit "pretty") then mret Pretty
      else if bool_decide (v = lit "terse") then mret Terse
      else if bool_decide (v = lit "json") then
        if negb allow_unstable then Rejected (quoted "The " "json" " format is only accepted on the nightly compiler")
        else mret Json
      else if bool_decide (v = lit "junit") then
        if negb allow_unstable then Rejected (quoted "The " "junit" " format is only accepted on the nightly compiler")
        else mret Junit
      else Rejected (lit "argument for --format must be pretty, terse, json or junit (was " ++ v ++ lit ")")
  end.

Definition get_color_config (m : Matches) : parsed ColorConfig :=
  match opt_str_ m "color" with
  | None => mret AutoColor
  | Some v =>
      if bool_decide (v = lit "auto") then mret AutoColor
      else if bool_decide (v = lit "always") then mret AlwaysColor
      else if bool_decide (v = lit "never") then mret NeverColor
      else Rejected (lit "argument for --color must be auto, always, or never (was " ++ v ++ lit ")")
  end.

Definition get_nocapture (m : Matches) : parsed bool :=
  mret (if negb (opt_present m "nocapture") then env_flag "RUST_TEST_NOCAPTURE" else true).

Definition get_run_ignored (m : Matches) (include_ignored : bool) : parsed RunIgnored :=
  match include_ignored, opt_present m "ignored" with
  | true, true => Rejected (lit "the options --include-ignored and --ignored are mutually exclusive")
  | true, false => mret IgnoredYes
  | false, true => mret IgnoredOnly
  | false, false => mret IgnoredNo
  end.

Definition get_log_file (m : Matches) : parsed (option path) :=
  mret (option_map components (opt_str_ m "logfile")).

Definition parse_opts_impl (m : Matches) : parsed TestOpts :=
  allow_unstable ← get_allow_unstable m;
  force_run_in_process ← unstable_optflag m allow_unstable "force-run-in-process";
  exclude_should_panic ← unstable_optflag m allow_unstable "exclude-should-panic";
  time_options ← get_time_options m allow_unstable;
  shuffle ← get_shuffle m allow_unstable;
  shuffle_seed ← get_shuffle_seed_opt m allow_unstable;
  let bench_benchmarks := opt_present m "bench" in
  let run_tests := negb bench_benchmarks || opt_present m "test" in
  logfile ← get_log_file m;
  run_ignored ← get_run_ignored m (opt_present m "include-ignored");
  nocapture ← get_nocapture m;
  test_threads ← get_test_threads m;
  color ← get_color_config m;
  format ← get_format m (opt_present m "quiet") allow_unstable;
  mret (mkTestOpts (opt_present m "list") (free m) (opt_present m "exact") force_run_in_process
          exclude_should_panic run_ignored run_tests bench_benchmarks logfile nocapture color format
          shuffle shuffle_seed test_threads (opt_strs m "skip") time_options
          (mkOptions (opt_present m "show-output") false)).

(** [parse_opts]; a request for help names the program whose usage is shown. *)
Inductive OptRes := HelpShown (binary : text) | Options_ (r : parsed TestOpts).
Definition parse_opts `{TestGetOpts} (args : list text) : OptRes :=
  let args := match args with [] => [] | _ :: args => args end in
  match optgroups_parse args with
  | inl f => Options_ (Rejected f)
  | inr m =>
      if opt_present m "h" then
        match args with binary :: _ => HelpShown binary | [] => Options_ ParsePanic end
      else Options_ (parse_opts_impl m)
  end.

(** [get_concurrency]; [available] is [available_parallelism]. *)
Definition get_concurrency (available : option positive) : outcome nat :=
  match env_var (lit "RUST_TEST_THREADS") with
  | Some value =>
      match parse_usize value with
      | Some n => if n =? 0 then Panic else Ok (N.to_nat n)
      | None => Panic
      end
  | None => Ok (match available with Some n => Pos.to_nat n | None => 1%nat end)
  end.
Definition concurrency_of (opts : TestOpts) (available : option positive) : outcome nat :=
  match test_threads opts with Some n => Ok n | None => get_concurrency available end.

End Options.

(** ** What an accepted command line guarantees *)

(** None of the options that need [-Z unstable-options] *)
Definition stable (o : TestOpts) : Prop :=
  force_run_in_process o = false /\ exclude_should_panic o = false /\ time_options o = None
  /\ shuffle o = false /\ shuffle_seed o = None /\ (format o = Pretty \/ format o = Terse).

(** A test that is not yet worth a warning has not failed. *)
Definition thresholds_ok (o : TestTimeOptions) : Prop :=
  forall d time, is_critical o d time = true -> is_warn o d time = true.

Lemma p_bind {A B} (m : parsed A) (f : A -> parsed B) b :
  (m ≫= f) = Accepted b -> exists a, m = Accepted a /\ f a = Accepted b.
Proof. destruct m as [a| |]; [by exists a|done..]. Qed.

(** Split an accepted sequence of steps. *)
Ltac parsed_inv :=
  repeat match goal with
  | H : mbind _ _ = Accepted _ |- _ => let x := fresh "x" in let E := fresh "E" in apply p_bind in H as (x & E & H)
  | H : mret _ = Accepted _ |- _ => injection H; clear H; intros; subst
  end.

Section Sound.
Context `{Environment} `{IntErrorText}.
Variable disable_unstable_features : bool.

Lemma optflag_stable m nm b : unstable_optflag m false nm = Accepted b -> b = false.
Proof. unfold unstable_optflag. by destruct (opt_present m nm); intros [=]. Qed.
Lemma optopt_stable m nm o : unstable_optopt m false nm = Accepted o -> o = None.
Proof. unfold unstable_optopt. by destruct (opt_str_ m nm); intros [=]. Qed.

Lemma allow_unstable_spec m b : get_allow_unstable disable_unstable_features m = Accepted b ->
  b = true -> is_nightly disable_unstable_features = true /\ opt_str_ m "Z" = Some (lit "unstable-options").
Proof.
  unfold get_allow_unstable. destruct (opt_str_ m "Z") as [opt|]; [|by intros [= <-]].
  destruct (is_nightly _); cbn [negb]; [|done]. by case_bool_decide; [subst|].
Qed.

Lemma from_env_var_ok v t : from_env_var v = Ok (Some t) -> warn t <= critical t.
Proof.
  unfold from_env_var. destruct v as [s|]; [|done]. destruct (split_first _ _) as [w [c|]]; [|done].
  destruct (parse_usize w) as [nw|], (parse_usize c) as [nc|]; cbn [unwrap mbind outcome_bind]; try done.
  destruct (N.ltb_spec nc nw); [done|]. intros [= <-]. cbn. unfold millis. lia.
Qed.

Lemma default_threshold v d t : warn d <= critical d -> from_env_var v = Ok t ->
  warn (default d t) <= critical (default d t).
Proof. destruct t; [|done]. by intros _ ?%from_env_var_ok. Qed.

Lemma new_from_env_ok e c o : new_from_env e c = Ok o -> thresholds_ok o.
Proof.
  unfold new_from_env. intros (u & Hu & Ho)%bind_ok. apply bind_ok in Ho as (i & Hi & Ho).
  apply bind_ok in Ho as (t & Ht & Ho). injection Ho as <-.
  apply (default_threshold _ default_unit) in Hu; [|by vm_compute].
  apply (default_threshold _ default_integration) in Hi; [|by vm_compute].
  apply (default_threshold _ default_doctest) in Ht; [|by vm_compute].
  intros d time. unfold is_critical, is_warn, critical_time, warn_time. cbn.
  rewrite !N.leb_le. destruct (test_type d); intros; [lia..|]. unfold UNKNOWN_WARN, UNKNOWN_CRITICAL, millis in *. lia.
Qed.

Lemma time_options_ok m b o : get_time_options m b = Accepted (Some o) -> thresholds_ok o.
Proof.
  unfold get_time_options. intros Ho. parsed_inv. destruct (_ || _); [|done]. parsed_inv.
  unfold p_lift in *. destruct (new_from_env _ _) as [o'|] eqn:En; [|done].
  match goal with H : Accepted _ = Accepted _ |- _ => injection H as -> end. by eapply new_from_env_ok.
Qed.

Lemma time_options_stable m o : get_time_options m false = Accepted o -> o = None.
Proof.
  unfold get_time_options. intros Ho. parsed_inv.
  repeat match goal with H : unstable_optflag _ false _ = _ |- _ => apply optflag_stable in H; subst end.
  by injection Ho.
Qed.

Lemma shuffle_stable m b : get_shuffle m false = Accepted b -> b = false.
Proof.
  unfold get_shuffle. intros Hb. parsed_inv.
  repeat match goal with H : unstable_optflag _ false _ = _ |- _ => apply optflag_stable in H; subst end. done.
Qed.

Lemma shuffle_seed_stable m o : get_shuffle_seed_opt m false = Accepted o -> o = None.
Proof.
  unfold get_shuffle_seed_opt. intros Ho. parsed_inv.
  match goal with H : unstable_optopt _ _ _ = _ |- _ => apply optopt_stable in H; subst end.
  match goal with H : mret None = Accepted _ |- _ => injection H as <- end. by injection Ho.
Qed.

Lemma format_stable m q f : get_format m q false = Accepted f -> f = Pretty \/ f = Terse.
Proof.
  unfold get_format. destruct (opt_str_ m "format"); repeat case_match; intros [= <-]; auto; done.
Qed.

Lemma test_threads_pos m o : get_test_threads m = Accepted o -> o <> Some 0%nat.
Proof.
  unfold get_test_threads. destruct (opt_str_ m "test-threads") as [s|]; [|by intros [= <-]].
  destruct (parse_usize s) as [n|]; [|done]. destruct (N.eqb_spec n 0); [done|].
  intros [= <-] [=]. lia.
Qed.

Lemma get_concurrency_pos available n : get_concurrency available = Ok n -> (0 < n)%nat.
Proof.
  unfold get_concurrency. destruct (env_var _) as [v|].
  - destruct (parse_usize v) as [k|]; [|done]. destruct (N.eqb_spec k 0); [done|]. intros [= <-]. lia.
  - destruct available; intros [= <-]; lia.
Qed.

(** C38. [parse_opts], [get_concurrency]: a command line that is accepted either asks for
    [-Z unstable-options] on a compiler that has them, or uses no unstable option, whatever
    the environment says; tests run in at least one thread; and a test is never late enough
    to fail without being late enough for a warning. *)
Theorem options_sound `{TestGetOpts} args opts :
  parse_opts disable_unstable_features args = Options_ (Accepted opts) ->
  ((is_nightly disable_unstable_features = true
    /\ exists m, optgroups_parse (List.tl args) = inr m /\ opt_str_ m "Z" = Some (lit "unstable-options"))
   \/ stable opts)
  /\ (forall available n, concurrency_of opts available = Ok n -> (0 < n)%nat)
  /\ (forall o, time_options opts = Some o -> thresholds_ok o).
Proof.
  unfold parse_opts. change (match args with [] => [] | _ :: a => a end) with (List.tl args).
  destruct (optgroups_parse (List.tl args)) as [f|m] eqn:Hm; [done|].
  destruct (opt_present m "h"); [by destruct (List.tl args)|]. unfold parse_opts_impl. intros [= Hp].
  apply p_bind in Hp as (allow & Hallow & Hp). parsed_inv.
  split; [|split].
  - destruct allow; [left|right].
    + destruct (allow_unstable_spec m true Hallow eq_refl). split; [done|by exists m].
    + repeat match goal with H : unstable_optflag _ false _ = _ |- _ => apply optflag_stable in H; subst end.
      unfold stable. cbn. split_and!; [done..|by eapply time_options_stable|by eapply shuffle_stable
        |by eapply shuffle_seed_stable|by eapply format_stable].
  - intros available n. unfold concurrency_of. cbn [test_threads].
    match goal with H : get_test_threads _ = Accepted ?o |- _ => apply test_threads_pos in H; destruct o as [k|] end.
    + intros [= <-]. destruct k; [done|lia].
    + apply get_concurrency_pos.
  - intros o. cbn [time_options]. intros ->. by eapply time_options_ok.
Qed.
End Sound.

(** ** Tests in processes of their own *)

(** [test_result.rs] *)
Definition TR_OK : Z := 50.
Definition TR_FAILED : Z := 51.
Definition dec_z (z : Z) : text := if (z <? 0)%Z then lit "-" ++ dec (Z.to_N (- z)) else dec (Z.to_N z).

Definition get_result_from_exit_code (d : TestDesc) (code : Z) (time_opts : option TestTimeOptions)
    (exec_time : option N) : TestResult :=
  let result :=
    if (code =? TR_OK)%Z then TrOk
    else if (code =? TR_FAILED)%Z then (if allow_fail d then TrAllowedFail else TrFailed)
    else TrFailedMsg (lit "got unexpected return code " ++ dec_z code) in
  match result with
  | TrOk =>
      match time_opts, exec_time with
      | Some opts, Some time => if error_on_excess opts && is_critical opts d time then TrTimedFail else TrOk
      | _, _ => TrOk
      end
  | _ => result
  end.

(** The status of a process on Unix, and [get_exit_code] *)
Inductive WaitStatus := Exited (code : Z) | Signaled (signal : Z) | OtherStatus.
Definition get_exit_code (s : WaitStatus) : text + Z :=
  match s with
  | Exited code => inr code
  | Signaled signal => inl (lit "child process exited with signal " ++ dec_z signal)
  | OtherStatus => inl (lit "child process exited with unknown signal")
  end.

(** [formatters::write_stderr_delimiter] *)
Definition write_stderr_delimiter (test_output : list N) (test_name : TestName) : list N :=
  test_output
  ++ match last test_output with
     | Some c => if c =? newline then [] else [newline]
     | None => []
     end
  ++ utf8 (lit "---- " ++ as_slice test_name ++ lit " stderr ----" ++ [newline]).

(** [command.output()]: an error with its debug format, or the output and the status *)
Inductive Spawned := SpawnFailed (err : text) | SpawnOutput (stdout stderr : list N) (s : WaitStatus).

(** [spawn_test_subprocess] of the program [exe]; [elapsed] is the time that passed. *)
Definition spawn_test_subprocess (exe : text) (d : TestDesc) (report_time : bool)
    (time_opts : option TestTimeOptions) (child : Spawned) (elapsed : N) : TestResult * list N * option N :=
  match child with
  | SpawnFailed err =>
      (TrFailed, utf8 (lit "Failed to spawn " ++ exe ++ lit " as child for test: " ++ err), None)
  | SpawnOutput stdout stderr status =>
      let exec_time := if report_time then Some elapsed else None in
      let test_output := write_stderr_delimiter stdout (name d) ++ stderr in
      match get_exit_code status with
      | inr exit_code => (get_result_from_exit_code d exit_code time_opts exec_time, test_output, exec_time)
      | inl e => (TrFailed, test_output ++ utf8 (lit "Unexpected error: " ++ e), exec_time)
      end
  end.

Section Secondary.
Context {F B : Type} `{DebugText}.

(** [run_test_in_spawned_subprocess]: the exit code of the process in which the test
    function returned or panicked, and what is printed about the verdict *)
Definition exit_code_of_run (d : TestDesc) (p : option Payload) : Z :=
  match calc_result d p None None with TrOk => TR_OK | _ => TR_FAILED end.
Definition printed_note (d : TestDesc) (p : option Payload) : option text :=
  match calc_result d p None None with TrFailedMsg msg => Some msg | _ => None end.

(** [test_main_static_abort] in the second process: the first test of that name *)
Definition secondary_test (tests : list (TestDescAndFn F B)) (name_ : text) : outcome (TestDesc * F) :=
  t ← unwrap (List.find (fun t => bool_decide (as_slice (name (desc t)) = name_)) tests);
  match testfn t with
  | StaticTestFn f => Ok (desc t, f)
  | _ => Panic
  end.

(** ** The verdict through an exit code *)

(** Messages of failures do not go through an exit code. *)
Definition without_message (r : TestResult) : TestResult :=
  match r with TrFailedMsg _ => TrFailed | _ => r end.

(** A test that should have panicked, did not, and is allowed to fail *)
Definition forgiven (d : TestDesc) (p : option Payload) : bool :=
  allow_fail d && negb (bool_decide (should_panic d = PanicNo)) && bool_decide (p = None).

Lemma exit_code_verdict d p time_opts exec_time :
  get_result_from_exit_code d (exit_code_of_run d p) time_opts exec_time =
  if forgiven d p then TrAllowedFail else without_message (calc_result d p time_opts exec_time).
Proof.
  unfold get_result_from_exit_code, exit_code_of_run, forgiven, calc_result, without_message.
  destruct (should_panic d) as [| |msg], p as [[s|ty]|], (allow_fail d); cbn [andb negb];
    rewrite ?(bool_decide_eq_true_2 (_ = _)) by done; try (rewrite !bool_decide_eq_false_2 by done);
    cbn [andb negb]; try destruct (contains msg s);
    try (destruct time_opts as [o|], exec_time as [t|]; cbn; try destruct (error_on_excess o && is_critical o d t));
    done.
Qed.

Lemma find_named (tests : list (TestDescAndFn F B)) t :
  NoDup (map (fun t => as_slice (name (desc t))) tests) -> t ∈ tests ->
  List.find (fun u => bool_decide (as_slice (name (desc u)) = as_slice (name (desc t)))) tests = Some t.
Proof.
  induction tests as [|u tests IH]; cbn [map List.find]; [by intros _ ?%not_elem_of_nil|].
  intros [Hu Hnd]%NoDup_cons [->|Ht]%elem_of_cons; [by rewrite bool_decide_eq_true_2|].
  rewrite bool_decide_eq_false_2; [by apply IH|]. intros E. apply Hu. rewrite E.
  apply list_elem_of_In, (in_map (fun t => as_slice (name (desc t)))). by apply list_elem_of_In.
Qed.

(** C37. [spawn_test_subprocess], [test_main_static_abort], [get_result_from_exit_code]: in a
    program whose tests have different names, the process started for a test (whose name may
    have been padded) runs that test; and if its function returns or panics, the verdict read
    from the exit code is the one of a test that is run in place, without the message, except
    that a test that is allowed to fail and did not panic although it should is an allowed
    failure there and a failure in place. *)
Theorem spawned_verdict (tests : list (TestDescAndFn F B)) t f p exe report_time time_opts padding stdout stderr elapsed :
  NoDup (map (fun t => as_slice (name (desc t))) tests) -> t ∈ tests -> testfn t = StaticTestFn f ->
  let d := set_name (desc t) (with_padding (name (desc t)) padding) in
  secondary_test tests (as_slice (name d)) = Ok (desc t, f)
  /\ (spawn_test_subprocess exe d report_time time_opts
        (SpawnOutput stdout stderr (Exited (exit_code_of_run (desc t) p))) elapsed).1.1
     = if forgiven d p then TrAllowedFail
       else without_message (calc_result d p time_opts (if report_time then Some elapsed else None)).
Proof.
  intros Hnd Ht Hf d. split.
  - unfold secondary_test, d. cbn [name set_name with_padding as_slice]. rewrite find_named by done.
    cbn [unwrap mbind outcome_bind]. by rewrite Hf.
  - cbn [spawn_test_subprocess get_exit_code fst]. rewrite <- (exit_code_verdict d p). by destruct (desc t).
Qed.

(** A process that does not exit fails the test. *)
Lemma killed_fails exe d report_time time_opts stdout stderr signal elapsed :
  (spawn_test_subprocess exe d report_time time_opts (SpawnOutput stdout stderr (Signaled signal)) elapsed).1.1 = TrFailed.
Proof. done. Qed.
End Secondary.

(** ** Samples *)

#[local] Existing Instance sample_debug.
#[local] Instance no_environment : Environment := [].
#[local] Instance sample_int_error : IntErrorText := fun _ => lit "invalid digit found in string".
Definition sample_matches : Matches :=
  mkMatches (fun nm => if String.eqb nm "test-threads" then Some (lit "3") else None) (fun _ => [])
    (fun nm => String.eqb nm "quiet") [lit "name"].
#[local] Instance sample_getopts : TestGetOpts := fun args =>
  if bool_decide (args = [lit "--help"])
  then inr (mkMatches (fun _ => None) (fun _ => []) (fun nm => String.eqb nm "h") [])
  else inr sample_matches.
Definition sample_options : TestOpts :=
  mkTestOpts false [lit "name"] false false false IgnoredNo true false None false AutoColor Terse
    false None (Some 3%nat) [] None (mkOptions false false).

Lemma options_sound_witness :
  ((is_nightly true = true
    /\ exists m, optgroups_parse (List.tl [lit "prog"; lit "name"]) = inr m /\ opt_str_ m "Z" = Some (lit "unstable-options"))
   \/ stable sample_options)
  /\ (forall available n, concurrency_of sample_options available = Ok n -> (0 < n)%nat)
  /\ (forall o, time_options sample_options = Some o -> thresholds_ok o).
Proof. apply (options_sound true [lit "prog"; lit "name"] sample_options). reflexivity. Defined.

(** A request for help shows the usage of a program called like the first argument. *)
Example help_names_option : parse_opts true [lit "prog"; lit "--help"] = HelpShown (lit "--help").
Proof. reflexivity. Qed.

Definition static_tests : list (TestDescAndFn bool Empty_set) :=
  [mkTest (sample_desc "one" false PanicNo) (StaticTestFn true);
   mkTest (sample_desc "two" false PanicYes) (StaticTestFn false)].

Lemma spawned_verdict_witness :
  secondary_test static_tests (lit "two") = Ok (sample_desc "two" false PanicYes, false)
  /\ (spawn_test_subprocess (lit "prog") (padded "two" false PanicYes) false None
        (SpawnOutput [] [] (Exited (exit_code_of_run (sample_desc "two" false PanicYes) (Some (PanicOther []))))) 7).1.1
     = TrOk.
Proof.
  apply (spawned_verdict static_tests (mkTest (sample_desc "two" false PanicYes) (StaticTestFn false)) false
    (Some (PanicOther [])) (lit "prog") false None PadNone [] [] 7).
  - apply (bool_decide_unpack _). reflexivity.
  - right. left.
  - reflexivity.
Defined.
